(* ===== verification/_CoqProject ===== *)
-Q . S2P
Prelude.v
CLib.v
NumberParser.v
Numeric.v
InetUtil.v
Serialization.v
UtHash.v
Types.v
Values.v
Collections.v
Uuids.v
StreamManager.v
RetryPolicy.v
Decoder.v
RequestHandler.v
Notifier.v
Reactor.v
ReactorInv.v
ReactorSafe.v
ReactorOnce.v
CacheKey.v
ClusterBuilder.v
IniSettings.v
BuilderTyping.v
DriverErrors.v
ExecutionProfile.v
ClusterBuild.v
BuildOutcome.v
PersistentCluster.v
Sessions.v
DataTypes.v
Conversions.v
ResultDecoder.v
ValueRoundTrip.v
ContainerRoundTrip.v
RequestEncoding.v
Statements.v
EndToEnd.v
ResultRows.v
Paging.v
PagingInv.v
PagingSafe.v
PageOrder.v
ClassNames.v
ClassNameTrees.v
ColumnTypes.v
DateTimes.v
PollLoop.v
Decimals.v
Prepared.v
SchemaMeta.v
Metadata.v
MetadataFaults.v
MetadataSafe.v
MetadataRead.v
TypeObjects.v
Records.v
RecordBind.v
Floats.v
