(* ===== verification/Prelude.v ===== *)
(** * Verification of the ScyllaDB PHP driver

    The extension ([src/], [include/]) gives PHP code access to a Cassandra or ScyllaDB cluster through
    the C++ driver ([third-party/cpp-driver]).  PHP code configures a cluster, connects sessions to it,
    runs statements on them, waits for futures and reads rows whose values are objects of the
    extension's classes.  This development models these parts as Rocq functions and step relations
    and proves what makes them correct.  A file models the C or C++ files it names; a definition has
    the name of the function it translates where Rocq allows it.

    ** Layout

    Shared:
    - [Prelude]: machine integers ([wrapU], [wrapS]), byte lists, list lemmas, tactics and hint databases.
    - [CLib]: [strtol] and its relatives.  [DriverErrors]: [CassError] and [exception_class]
      ([php_scylladb.c]).  [CacheKey]: the FNV-1a fingerprints of [php_scylladb_cache_key.h].

    Numbers, addresses, identifiers:
    - [NumberParser] ([Numbers/NumberParser.c]): integers, varints and decimals, their text and their
      two's complement form.
    - [Numeric] ([Numbers/Tinyint.c], [Smallint.c], [Bigint.c], [Varint.c]): construction and arithmetic.
    - [DateTimes] ([DateTime/Date.c], [Time.c], [Timestamp.c], [Duration.c]): construction and conversion of
      dates, times, timestamps and durations.
    - [Floats] ([Numbers/Float.c]): floats as IEEE binary32 numbers, where their arithmetic is exact.
    - [Decimals] ([Numbers/Decimal.c]): decimal objects, their arithmetic, from doubles and to integers.
    - [InetUtil] ([InetUtil.c]): the tokenizer, parser and printer of IP addresses over checked buffers.
    - [Uuids] ([Uuid.c], [DateTime/Timeuuid.c], [UuidGen.c], and the driver's [uuids.cpp],
      [timestamp_generator.cpp]): text, time, and the generators as interleaved atomic actions.

    Types, values, containers:
    - [Types] ([Type/TypeFactory.c] and the classes of [Type/]): types and their comparison.
    - [ClassNames] ([Type/TypeFactory.c]): the parser of the server's class names with its linked nodes;
      [ClassNameTrees]: the machine over trees it implements; [ColumnTypes]: what it accepts and makes.
    - [Values] ([Type/ValueHash.c], [Type/Conversions.c]): comparison, hash, validation.
    - [UtHash] ([Type/uthash.h]): the hash table below sets and maps.
    - [Collections] ([Set.c], [Map.c], [Collection.c]): the containers and their iterators.
    - [TypeObjects] ([Type.c], [Type/TypeFactory.c], the classes of [Type/]): types as objects of PHP code, their texts, and the
      driver's types beside them.
    - [Records] ([Tuple.c], [UserTypeValue.c], the [create] methods of [Type/]): tuples and user type values, one text over two
      kinds of keys, and the references to the names of a user type; [RecordBind]: that what they hold can be bound.

    The driver's protocol and request execution:
    - [Serialization] ([serialization.hpp], [encode.cpp]), [Decoder] ([decoder.hpp], [value.cpp]).
    - [StreamManager] ([stream_manager.hpp]): stream ids.
    - [RetryPolicy] ([retry_policy.cpp]), [RequestHandler] ([request_handler.cpp]): executions,
      retries, speculative executions, timeouts.

    Asynchrony:
    - [Notifier] ([FutureNotifier.c], [future.cpp]): completion of one future.
    - [Reactor] ([Async/Reactor.c]) with its invariant ([ReactorInv]), safety and wake-up
      ([ReactorSafe]) and the counting of deliveries ([ReactorOnce]).
    - [PollLoop] ([Async/Poll.c], [PollHandle.c]): the event loop object, whose callbacks are programs that
      use the loop again.

    Configuration and connections:
    - [IniSettings] ([php_scylladb.c]): the INI directives.
    - [ClusterBuilder] ([Cluster/Builder.c]): the struct and its setters; [BuilderTyping]
      ([Cluster/BuilderHandlers.c]): its invariant and property table.
    - [ExecutionProfile] ([ExecutionProfile/ExecutionProfile.c]).
    - [ClusterBuild] ([Builder::build] and the driver's [cluster_config.cpp]), [BuildOutcome]: what
      [build] throws and leaves; [PersistentCluster]: the clusters kept between requests.
    - [Sessions] ([Cluster/DefaultCluster.c], [FutureSession.c]): who owns sessions and futures.
    - [Prepared] ([DefaultSession.c], [FuturePreparedStatement.c], [PreparedStatement.c]): preparing statements,
      those kept between requests, and the keyspaces they are prepared in.

    From PHP values to requests, and from responses to PHP values:
    - [DataTypes] ([Type/TypeFactory.c] and the driver's [data_type.hpp], [abstract_data.cpp],
      [collection.cpp], [tuple.cpp], [user_type_value.hpp]): the driver's types and the values it encodes.
    - [Conversions] ([Type/Conversions.c]): sets, lists, maps, tuples and user type values as driver values.
    - [ResultDecoder] ([Database/ResultDecoder.c], [Type/ValuePrimitives.h]): a column as a PHP value.
    - [ValueRoundTrip], [ContainerRoundTrip]: a value that is bound, encoded, decoded and read.
    - [RequestEncoding] ([statement.cpp], [query_request.cpp], [execute_request.cpp], [batch_request.cpp]):
      the bodies of requests, with a reader written from the protocol's specification.
    - [Statements] ([DefaultSession.c], [ExecutionOptions.c], [BatchStatement.c]): options, arguments,
      statements; [EndToEnd]: what a server finds in the request of [execute].
    - [ResultRows] ([php_scylladb_get_result], [Database/Rows.c], the driver's [row.cpp],
      [result_response.cpp]): the rows of a response, and reading them.
    - [Paging] ([Database/Rows.c], [FutureRows.c], [FutureValue.c]): the pages of a query as a state machine
      with the driver's results, futures and statements; its invariant ([PagingInv]), that every operation
      keeps it ([PagingSafe]), and what follows ([PageOrder]).

    The schema's metadata:
    - [SchemaMeta] (the driver's [metadata.hpp], [metadata.cpp]): the snapshot of the schema, its lookups, the fields and keys of tables.
    - [Metadata] ([Database/DefaultSchema.c], [DefaultKeyspace.c], [DefaultTable.c], [DefaultMaterializedView.c], [DefaultColumn.c],
      [DefaultIndex.c], [DefaultFunction.c], [DefaultAggregate.c], [Table.c]): the objects PHP code has of it; [MetadataFaults]: which calls
      read a null pointer, and on which metadata; [MetadataSafe]: that there is no other fault; [MetadataRead]: what their methods return.

    ** How the code is modelled

    An integer is a [Z] with its conversions written out at their width; a signed overflow or a
    conversion of a double that does not fit is the result [Undefined] (or [None]).  A string is the
    list of its bytes.  Memory that can be freed or overrun is explicit: buffers are checked, and
    elements, registrations, notifiers, clusters, sessions and futures live in maps from handles, so
    that a use after free is a value that theorems exclude.  Exceptions are values.  Threads are step
    relations whose steps are the atomic actions of the source; what the environment does (the clock, the
    connection pool, the driver's completion of a future, PHP callbacks) is an input of the run.
    Code outside the repository is a parameter with the hypotheses that are used: GMP (class [Gmp]),
    GMP's floats (class [Mpf]), [strtof], PHP's string hash, the engine's parsers of INI values, its polling context,
    the resolution of addresses, objects given by PHP code.

    ** What the theorems show

    - Composition: the arguments of [execute] arrive at a server that reads the request ([EndToEnd]), a
      value that is bound reads back the same ([ContainerRoundTrip]), the rows of a response become arrays of
      these values, but for values of no bytes in later rows, which can leave the behaviour undefined ([ResultRows]), and pages come in order, with the loop of the guide reading
      all of them ([PageOrder]).
    - Round trips: two's complement and decimal text ([NumberParser]), addresses ([InetUtil]),
      encoded protocol values ([Decoder]), dates with times ([DateTimes]), statements and batches ([RequestEncoding]), class names of
      types ([ColumnTypes]), texts of types ([TypeObjects]).
    - Memory safety: the address parser and the decoder stay in their buffers (a column's value only when its size fits), the parser of class names
      frees its nodes and faults on exactly known texts, iterators of sets never
      read a removed element, notifiers and reactor registrations are freed once and not used after,
      sessions, results, statements, prepared statements and futures likewise; which objects built by PHP code can be bound
      safely ([RecordBind]); names of user types are read after they are freed only when strings that [key] returned were let go ([Records]).
    - Metadata: no object reads a freed snapshot and all is freed in the end, null pointers are read exactly at known calls, lists and lookups agree, keys are in order, and which
      options of a table are found.
    - The event loop: every watched future has exactly one fate, callbacks run in order, [run] ends whatever they do.
    - Functional behaviour and bounds: literals, square root, division, decimal and float arithmetic, doubles as
      decimals, decimals as integers, durations, retry decisions, INI registration, what [build] throws.
    - Refinement: the stream ids implement an abstract allocator, uthash a finite map, sets, maps
      and collections their mathematical counterparts, tuples and (while no freed name is read) user type values partial assignments, the persistent list a plain build.
    - Equivalence and hashing: type comparison is an equivalence, equal values have equal hashes,
      profiles with one fingerprint have one configuration.
    - Request execution: the query plan is respected, the future is set once, and a request is lost only by a speculative execution or a
      PREPARE with an unexpected answer.
    - Prepared statements: the statement is that of the query, cluster and connect keyspace; a keyspace in use is not seen by those kept.
    - Liveness: a completed future wakes the reactor, and is delivered exactly once.

    Where the code does not do what it means to, the theorem states what it does: its exceptions are
    explicit in the statement.

    ** Bounds and fuel

    The tokenizer of addresses runs on [length + 10] steps, a retried request on the length of its plan
    plus 2, the parser of class names on one more than the length of its text: theorems show that these
    suffice for every input.  The loop of the guide takes the number
    of pages.  Comparison and hash of values take a depth
    that bounds the nesting of their arguments, the unlinking loop of the reactor the number of
    registrations.  Counters of hash tables are unbounded integers (a table has fewer than [2^32]
    elements).  Clocks of the generators are below [2^60].  Injectivity of fingerprints assumes that FNV-1a
    does not collide on the configurations at hand.

    ** Not modelled

    Argument parsing and class registration (the engine's and generated code), debug properties and
    garbage collection handlers except those of the builder, log output, metrics, sockets, the driver's
    load balancing, token map, CQL type-name parser, how system rows become metadata (but for tables), routing keys, the frame header, the body of PREPARE,
    closing sessions, TLS options (paths and flags handed to the driver), the empty policy classes,
    waiting in a coroutine (in which other PHP code runs meanwhile), backends other than the bundled driver. *)
From Stdlib Require Export ZArith Lia Bool String Ascii.
From stdpp Require Export base tactics decidable option list numbers.

Declare Scope cdata_scope.
Delimit Scope cdata_scope with cdata.
#[global] Open Scope Z_scope.

(** ** Machine integers *)

(** [wrapU w z] and [wrapS w z] are the conversions of [z] to an unsigned and to a
    signed (two's complement) integer of [w] bits. *)
Definition wrapU (w z : Z) : Z := z mod 2 ^ w.
Definition wrapS (w z : Z) : Z := (z + 2 ^ (w - 1)) mod 2 ^ w - 2 ^ (w - 1).

Definition in_u (w z : Z) : Prop := 0 <= z < 2 ^ w.
Definition in_s (w z : Z) : Prop := - 2 ^ (w - 1) <= z < 2 ^ (w - 1).

Definition INT_MAX : Z := 2 ^ 31 - 1.
Definition INT_MIN : Z := - 2 ^ 31.
Definition INT64_MAX : Z := 2 ^ 63 - 1.
Definition INT64_MIN : Z := - 2 ^ 63.
Definition ULONG_MAX : Z := 2 ^ 64 - 1.

Lemma pow2_half (w : Z) : 0 < w -> 2 ^ w = 2 * 2 ^ (w - 1).
Proof. intros. rewrite <- Z.pow_succ_r by lia. f_equal. lia. Qed.

Lemma wrapU_range w z : 0 <= w -> in_u w (wrapU w z).
Proof. intros. apply Z.mod_pos_bound. lia. Qed.

Lemma wrapU_id w z : in_u w z -> wrapU w z = z.
Proof. apply Z.mod_small. Qed.

Lemma wrapS_range w z : 0 < w -> in_s w (wrapS w z).
Proof.
  intros Hw. unfold in_s, wrapS. pose proof (pow2_half w Hw).
  pose proof (Z.mod_pos_bound (z + 2 ^ (w - 1)) (2 ^ w)). lia.
Qed.

Lemma wrapS_id w z : 0 < w -> in_s w z -> wrapS w z = z.
Proof.
  intros Hw H. unfold in_s, wrapS in *. pose proof (pow2_half w Hw).
  rewrite Z.mod_small; lia.
Qed.

Lemma wrapS_cases w z :
  0 < w -> - 2 ^ w - 2 ^ (w - 1) <= z < 2 ^ w + 2 ^ (w - 1) ->
  wrapS w z = if z <? - 2 ^ (w - 1) then z + 2 ^ w
              else if z <? 2 ^ (w - 1) then z else z - 2 ^ w.
Proof.
  intros Hw H. unfold wrapS. pose proof (pow2_half w Hw).
  destruct (Z.ltb_spec z (- 2 ^ (w - 1))); [|destruct (Z.ltb_spec z (2 ^ (w - 1)))].
  - rewrite <- (Z.mod_unique (z + 2 ^ (w - 1)) (2 ^ w) (-1) (z + 2 ^ (w - 1) + 2 ^ w)); lia.
  - rewrite Z.mod_small; lia.
  - rewrite <- (Z.mod_unique (z + 2 ^ (w - 1)) (2 ^ w) 1 (z + 2 ^ (w - 1) - 2 ^ w)); lia.
Qed.

(** ** Bytes and characters: a [char] is its code, a C string a list of codes *)

Abbreviation bytes := (list Z).

Definition is_byte (b : Z) : Prop := 0 <= b < 256.

(** The codes of a Rocq string literal. *)
Definition bs (s : string) : bytes :=
  map (fun c => Z.of_nat (nat_of_ascii c)) (list_ascii_of_string s).

Definition isdigit (c : Z) : bool := (48 <=? c) && (c <=? 57).
Definition isupper_hex (c : Z) : bool := (65 <=? c) && (c <=? 70).
Definition islower_hex (c : Z) : bool := (97 <=? c) && (c <=? 102).
Definition isxdigit (c : Z) : bool := isdigit c || isupper_hex c || islower_hex c.
Definition isspace (c : Z) : bool := (c =? 32) || ((9 <=? c) && (c <=? 13)).
Definition tolower (c : Z) : Z := if (65 <=? c) && (c <=? 90) then c + 32 else c.

(** A byte of a NUL-terminated buffer: reading at the length yields the terminator. *)
Definition char_at (s : bytes) (i : Z) : Z := nth (Z.to_nat i) s 0.

(** [strlen] on a buffer holding [s] and its terminator. *)
Fixpoint strlen (s : bytes) : Z :=
  match s with
  | [] => 0
  | c :: s' => if c =? 0 then 0 else 1 + strlen s'
  end.

Definition zlen {A} (l : list A) : Z := Z.of_nat (length l).

Lemma zlen_nil {A} : zlen (@nil A) = 0.
Proof. reflexivity. Qed.

Lemma zlen_cons {A} (x : A) l : zlen (x :: l) = 1 + zlen l.
Proof. unfold zlen. cbn [length]. lia. Qed.

Lemma zlen_app {A} (l1 l2 : list A) : zlen (l1 ++ l2) = zlen l1 + zlen l2.
Proof. unfold zlen. rewrite length_app. lia. Qed.

Lemma zlen_nonneg {A} (l : list A) : 0 <= zlen l.
Proof. unfold zlen. lia. Qed.

Lemma strlen_no_nul s : Forall (fun c => c <> 0) s -> strlen s = zlen s.
Proof.
  induction 1 as [|c s Hc _ IH]; [reflexivity|].
  cbn [strlen]. rewrite zlen_cons, IH. by destruct (Z.eqb_spec c 0).
Qed.

Lemma strlen_le s : 0 <= strlen s <= zlen s.
Proof.
  induction s as [|c s IH]; [done|].
  cbn [strlen]. rewrite zlen_cons. case_match; lia.
Qed.

Create HintDb cdata discriminated.
Create Rewrite HintDb cdata.
#[export] Hint Rewrite @zlen_nil @zlen_cons @zlen_app : cdata.
#[export] Hint Resolve zlen_nonneg : cdata.

(** ** Positional notation *)

(** [of_digits b l] is the number whose base-[b] digits, most significant first,
    are [l]; [to_digits b n] are the digits of [n] without leading zeros. *)
Definition of_digits (b : Z) (l : list Z) : Z := fold_left (fun acc d => acc * b + d) l 0.

Fixpoint digits_aux (fuel : nat) (b n : Z) (acc : list Z) : list Z :=
  match fuel with
  | O => acc
  | S f => if n <=? 0 then acc else digits_aux f b (n / b) (n mod b :: acc)
  end.

Definition to_digits (b n : Z) : list Z := digits_aux (Z.to_nat (Z.log2 n + 1)) b n [].

Lemma of_digits_acc b l a :
  fold_left (fun acc d => acc * b + d) l a = a * b ^ zlen l + of_digits b l.
Proof.
  unfold of_digits. revert a. induction l as [|d l IH]; intros a; cbn [fold_left].
  - rewrite zlen_nil. lia.
  - rewrite IH, (IH (0 * b + d)), zlen_cons, Z.pow_add_r by auto using zlen_nonneg with lia. lia.
Qed.

Lemma of_digits_app b l1 l2 :
  of_digits b (l1 ++ l2) = of_digits b l1 * b ^ zlen l2 + of_digits b l2.
Proof. unfold of_digits at 1. rewrite fold_left_app, of_digits_acc. reflexivity. Qed.

Lemma of_digits_cons b d l : of_digits b (d :: l) = d * b ^ zlen l + of_digits b l.
Proof. unfold of_digits at 1. cbn [fold_left]. rewrite of_digits_acc. lia. Qed.

Lemma of_digits_bounds b l :
  0 < b -> Forall (fun d => 0 <= d < b) l -> 0 <= of_digits b l < b ^ zlen l.
Proof.
  intros Hb. induction 1 as [|d l Hd _ IH]; [done|].
  rewrite of_digits_cons, zlen_cons, Z.pow_add_r by auto using zlen_nonneg with lia.
  rewrite Z.pow_1_r. nia.
Qed.

Lemma digits_aux_spec fuel b n acc :
  2 <= b -> n < 2 ^ Z.of_nat fuel ->
  digits_aux fuel b n acc = digits_aux fuel b n [] ++ acc.
Proof.
  intros Hb. revert n acc. induction fuel as [|f IH]; intros n acc Hn; [done|].
  cbn [digits_aux]. destruct (Z.leb_spec n 0); [done|].
  assert (n / b < 2 ^ Z.of_nat f).
  { apply Z.div_lt_upper_bound; [lia|].
    rewrite Nat2Z.inj_succ, Z.pow_succ_r in Hn by lia. nia. }
  rewrite IH by done. rewrite (IH _ [n mod b]) by done. by rewrite <- app_assoc.
Qed.

(** The defining equation of [to_digits]. *)
Lemma digits_aux_enough f1 f2 b n acc :
  2 <= b -> n < 2 ^ Z.of_nat f1 -> n < 2 ^ Z.of_nat f2 ->
  digits_aux f1 b n acc = digits_aux f2 b n acc.
Proof.
  intros Hb. revert f2 n acc. induction f1 as [|f1 IH]; intros f2 n acc H1 H2.
  - destruct f2; [done|]. cbn [digits_aux]. by destruct (Z.leb_spec n 0); [|cbn in H1; lia].
  - destruct f2 as [|f2]; cbn [digits_aux].
    + by destruct (Z.leb_spec n 0); [|cbn in H2; lia].
    + destruct (Z.leb_spec n 0); [done|].
      rewrite Nat2Z.inj_succ, Z.pow_succ_r in H1, H2 by lia.
      apply IH; apply Z.div_lt_upper_bound; nia.
Qed.

Lemma log2_fuel n : 0 < n -> n < 2 ^ Z.of_nat (Z.to_nat (Z.log2 n + 1)).
Proof.
  intros. pose proof (Z.log2_nonneg n). rewrite Z2Nat.id by lia.
  pose proof (Z.log2_spec n). lia.
Qed.

Lemma to_digits_step b n :
  2 <= b -> 0 < n -> to_digits b n = to_digits b (n / b) ++ [n mod b].
Proof.
  intros Hb Hn. unfold to_digits. pose proof (log2_fuel n Hn) as Hf.
  set (f := Z.to_nat (Z.log2 n + 1)) in *.
  rewrite (digits_aux_enough f (S f)); [|lia|done|].
  2: { rewrite Nat2Z.inj_succ, Z.pow_succ_r by lia. lia. }
  cbn [digits_aux]. destruct (Z.leb_spec n 0); [lia|].
  assert (0 <= n / b) by (apply Z.div_pos; lia).
  assert (n / b < n) by (apply Z.div_lt; lia).
  rewrite digits_aux_spec by lia. f_equal.
  destruct (decide (n / b = 0)) as [E|].
  - rewrite E. apply digits_aux_enough; [lia|lia|done].
  - apply digits_aux_enough; [lia|lia|apply log2_fuel; lia].
Qed.

Lemma to_digits_nonpos b n : n <= 0 -> to_digits b n = [].
Proof.
  intros. unfold to_digits. destruct (Z.to_nat (Z.log2 n + 1)); [done|].
  cbn [digits_aux]. by destruct (Z.leb_spec n 0); [|lia].
Qed.

(** Induction on the quotients of a number by the base. *)
Lemma digits_ind (P : Z -> Prop) (b : Z) :
  2 <= b -> P 0 -> (forall n, 0 < n -> P (n / b) -> P n) -> forall n, 0 <= n -> P n.
Proof.
  intros Hb H0 Hs. apply Zlt_0_ind. intros n IH Hn. destruct (decide (n = 0)) as [->|]; [done|].
  apply Hs; [lia|]. apply IH. split; [apply Z.div_pos; lia|apply Z.div_lt; lia].
Qed.

Lemma of_to_digits b n : 2 <= b -> 0 <= n -> of_digits b (to_digits b n) = n.
Proof.
  intros Hb. revert n. apply (digits_ind _ b); [done|by rewrite to_digits_nonpos|].
  intros n Hn IH. rewrite to_digits_step by lia.
  rewrite of_digits_app, IH, of_digits_cons, !zlen_cons, zlen_nil.
  change (of_digits b []) with 0. pose proof (Z.div_mod n b). nia.
Qed.

Lemma to_digits_range b n : 2 <= b -> 0 <= n -> Forall (fun d => 0 <= d < b) (to_digits b n).
Proof.
  intros Hb. revert n. apply (digits_ind _ b); [done|by rewrite to_digits_nonpos|].
  intros n Hn IH. rewrite to_digits_step by lia. apply Forall_app; split; [done|].
  constructor; [|done]. apply Z.mod_pos_bound. lia.
Qed.

Lemma to_digits_ne_nil b n : 2 <= b -> 0 < n -> to_digits b n <> [].
Proof. intros. rewrite to_digits_step by lia. by destruct (to_digits b (n / b)). Qed.

(** The leading digit is not zero. *)
Lemma to_digits_hd b n : 2 <= b -> 0 < n -> exists d l, to_digits b n = d :: l /\ 0 < d < b.
Proof.
  intros Hb Hn. assert (Hn' : 0 <= n) by lia. revert n Hn' Hn.
  apply (digits_ind (fun n => 0 < n -> _) b); [done|lia|].
  intros n Hn IH _. rewrite to_digits_step by lia.
  destruct (decide (n / b = 0)) as [E|].
  - rewrite E, to_digits_nonpos by lia. exists (n mod b), []. split; [done|].
    rewrite Z.mod_eq, E by lia. apply Z.div_small_iff in E; lia.
  - destruct IH as (d & l & -> & Hd); [pose proof (Z.div_pos n b); lia|]. by exists d, (l ++ [n mod b]).
Qed.

(** The number of digits is determined by the power of the base above the number. *)
Lemma to_digits_length b n k :
  2 <= b -> 0 <= k -> b ^ k <= n < b ^ (k + 1) -> zlen (to_digits b n) = k + 1.
Proof.
  intros Hb Hk Hn. revert n Hn. pattern k. apply natlike_ind; [| |done]; clear k Hk.
  - intros n Hn. assert (0 < n < b) by lia. rewrite to_digits_step by lia.
    by rewrite Z.div_small, to_digits_nonpos by lia.
  - intros k Hk IH n Hn. rewrite Z.pow_succ_r, <- Z.add_1_r, (Z.add_comm (k + 1)), Z.pow_add_r in Hn by lia.
    pose proof (Z.pow_pos_nonneg b k). rewrite to_digits_step by nia.
    rewrite zlen_app, IH; [unfold zlen; cbn; lia|]. rewrite Z.pow_1_r in Hn. split.
    + apply Z.div_le_lower_bound; lia.
    + apply Z.div_lt_upper_bound; lia.
Qed.

(** ** Printed numbers *)

(** The character of a digit, as [printf] writes it in lower case. *)
Definition digit_char (d : Z) : Z := if d <? 10 then 48 + d else 87 + d.

(** The value of a digit character in the largest base [strtol] knows, 36; 36 for any
    character that is not a digit. *)
Definition digit_val (c : Z) : Z :=
  if isdigit c then c - 48
  else if (97 <=? c) && (c <=? 122) then c - 87
  else if (65 <=? c) && (c <=? 90) then c - 55
  else 36.

(** A non-negative number printed in a base ("0" for zero). *)
Definition show_nat (b n : Z) : bytes :=
  if n =? 0 then [48] else map digit_char (to_digits b n).

(** [printf]'s ["%d"], ["%ld"] and ["%lld"]. *)
Definition show_dec (n : Z) : bytes :=
  if n <? 0 then 45 :: show_nat 10 (- n) else show_nat 10 n.

Lemma digit_val_char d : 0 <= d < 36 -> digit_val (digit_char d) = d.
Proof.
  intros. unfold digit_char, digit_val, isdigit.
  destruct (Z.ltb_spec d 10); repeat case_match; lia.
Qed.

Lemma isdigit_char d : 0 <= d < 10 -> isdigit (digit_char d) = true.
Proof. intros. unfold digit_char, isdigit. destruct (Z.ltb_spec d 10); lia. Qed.

Lemma digit_val_isdigit c : isdigit c = true -> 0 <= digit_val c < 10.
Proof. intros H. unfold digit_val. rewrite H. unfold isdigit in H. lia. Qed.

Lemma show_nat_ne_nil b n : 2 <= b -> 0 <= n -> show_nat b n <> [].
Proof.
  intros. unfold show_nat. destruct (Z.eqb_spec n 0); [done|].
  pose proof (to_digits_ne_nil b n). destruct (to_digits b n); [naive_solver lia|done].
Qed.

Lemma show_nat_digit b n :
  2 <= b <= 36 -> 0 <= n -> Forall (fun c => 0 <= digit_val c < b) (show_nat b n).
Proof.
  intros. unfold show_nat. destruct (Z.eqb_spec n 0).
  - constructor; [cbn; lia|done].
  - apply Forall_map. eapply Forall_impl; [|apply (to_digits_range b n); lia].
    cbn. intros d Hd. rewrite digit_val_char; lia.
Qed.

Lemma show_nat_isdigit n : 0 <= n -> Forall (fun c => isdigit c = true) (show_nat 10 n).
Proof.
  intros. unfold show_nat. destruct (Z.eqb_spec n 0); [by constructor|].
  apply Forall_map. eapply Forall_impl; [|apply (to_digits_range 10 n); lia].
  cbn. intros d Hd. by apply isdigit_char.
Qed.

Lemma show_nat_value b n :
  2 <= b <= 36 -> 0 <= n -> of_digits b (map digit_val (show_nat b n)) = n.
Proof.
  intros. unfold show_nat. destruct (Z.eqb_spec n 0); [by subst|].
  rewrite map_map. rewrite <- (of_to_digits b n) at 2 by lia. f_equal.
  rewrite <- (map_id (to_digits b n)) at 2. apply map_ext_Forall.
  eapply Forall_impl; [|apply (to_digits_range b n); lia]. cbn. intros d Hd. apply digit_val_char. lia.
Qed.

(** The first character of a printed non-zero number is not a zero. *)
Lemma show_nat_hd b n :
  2 <= b <= 36 -> 0 < n -> exists c l, show_nat b n = c :: l /\ 0 < digit_val c < b /\ c <> 48.
Proof.
  intros Hb Hn. unfold show_nat. destruct (Z.eqb_spec n 0); [lia|].
  destruct (to_digits_hd b n) as (d & l & -> & Hd); [lia..|].
  exists (digit_char d), (map digit_char l). split; [done|].
  rewrite digit_val_char by lia. split; [lia|].
  unfold digit_char. case_match; lia.
Qed.

(** ** Reading and splitting buffers *)

Fixpoint span (p : Z -> bool) (s : bytes) : bytes * bytes :=
  match s with
  | c :: s' => if p c then let '(a, r) := span p s' in (c :: a, r) else ([], s)
  | [] => ([], [])
  end.

(** [stops p s]: the first character of [s], if there is one, does not satisfy [p]. *)
Definition stops (p : Z -> bool) (s : bytes) : Prop :=
  match s with [] => True | c :: _ => p c = false end.

Lemma span_stops p s : stops p s -> span p s = ([], s).
Proof. destruct s as [|c s]; [done|]. cbn. by intros ->. Qed.

Lemma span_app p a r : Forall (fun c => p c = true) a -> stops p r -> span p (a ++ r) = (a, r).
Proof.
  intros Ha Hr. induction Ha as [|c a Hc _ IH]; [by apply span_stops|].
  cbn. by rewrite Hc, IH.
Qed.

Lemma span_all p a : Forall (fun c => p c = true) a -> span p a = (a, []).
Proof. intros. rewrite <- (app_nil_r a) at 1. by apply span_app. Qed.

Lemma char_at_0 c s : char_at (c :: s) 0 = c.
Proof. reflexivity. Qed.

Lemma char_at_1 c s : char_at (c :: s) 1 = char_at s 0.
Proof. reflexivity. Qed.

Lemma char_at_app a s i : 0 <= i -> char_at (a ++ s) (zlen a + i) = char_at s i.
Proof.
  intros. unfold char_at, zlen. rewrite Z2Nat.inj_add, Nat2Z.id by lia.
  rewrite app_nth2 by lia. f_equal. lia.
Qed.

Lemma char_at_app0 a s : char_at (a ++ s) (zlen a) = char_at s 0.
Proof. rewrite <- (Z.add_0_r (zlen a)). by apply char_at_app. Qed.

Lemma drop_zlen (a s : bytes) : drop (Z.to_nat (zlen a)) (a ++ s) = s.
Proof. unfold zlen. rewrite Nat2Z.id. apply drop_app_length. Qed.

(** ** Finite case analysis *)

(** A decidable statement about all numbers below a bound holds when it evaluates to true on
    each of them. *)
Definition all_below (n : nat) (p : Z -> bool) : bool := forallb (fun i => p (Z.of_nat i)) (List.seq 0 n).

Lemma all_below_spec n p z :
  all_below n p = true -> 0 <= z < Z.of_nat n -> p z = true.
Proof.
  unfold all_below. rewrite forallb_forall. intros H Hz.
  rewrite <- (Z2Nat.id z) by lia. apply H, in_seq. lia.
Qed.

(** Prove a boolean fact about a byte by evaluating it on the 256 bytes. *)
Ltac by_bytes d :=
  revert d;
  match goal with
  | |- forall d, 0 <= d < 256 -> @?p d = true =>
      intros d; apply (all_below_spec 256 p d); vm_compute; reflexivity
  end.

Lemma land_high_bit d : 0 <= d < 256 -> (Z.land d 128 =? 128) = (128 <=? d).
Proof.
  intros H. apply Bool.eqb_prop. revert H. by_bytes d.
Qed.

(** ** Odd parts *)

Lemma odd_part_le a b x y :
  0 <= x <= y -> (2 * a + 1) * 2 ^ x = (2 * b + 1) * 2 ^ y -> x = y.
Proof.
  intros Hx H. destruct (decide (x = y)); [done|]. exfalso.
  replace y with (x + (1 + (y - x - 1))) in H by lia.
  rewrite !Z.pow_add_r in H by lia. pose proof (Z.pow_pos_nonneg 2 x).
  assert (2 * a + 1 = (2 * b + 1) * (2 ^ 1 * 2 ^ (y - x - 1))) by nia. lia.
Qed.

Lemma odd_part_unique a b x y :
  0 <= x -> 0 <= y -> (2 * a + 1) * 2 ^ x = (2 * b + 1) * 2 ^ y -> x = y /\ a = b.
Proof.
  intros Hx Hy H. assert (x = y) as ->.
  { destruct (Z.leb_spec x y); [|symmetry]; eapply odd_part_le; eauto; lia. }
  split; [done|]. pose proof (Z.pow_pos_nonneg 2 y). nia.
Qed.

Lemma split_at {A} (l : list A) (k : Z) :
  0 <= k <= zlen l -> exists a b, l = a ++ b /\ zlen a = k /\ zlen b = zlen l - k.
Proof.
  intros Hk. exists (take (Z.to_nat k) l), (drop (Z.to_nat k) l). unfold zlen in *.
  rewrite take_drop, length_take, length_drop. split; [done|lia].
Qed.

Lemma of_digits_zeros b k : of_digits b (repeat 0 k) = 0.
Proof. induction k as [|k IH]; [done|]. cbn [repeat]. rewrite of_digits_cons, IH. lia. Qed.

Lemma zlen_repeat {A} (x : A) k : zlen (repeat x k) = Z.of_nat k.
Proof. unfold zlen. by rewrite repeat_length. Qed.

(** A buffer whose [strlen] is its length holds no NUL. *)
Lemma strlen_full s : zlen s = strlen s -> Forall (fun c => c <> 0) s.
Proof.
  induction s as [|c s IH]; [done|]. rewrite zlen_cons. cbn [strlen].
  pose proof (zlen_nonneg s). destruct (Z.eqb_spec c 0); [lia|].
  intros. constructor; [done|]. apply IH. lia.
Qed.

Lemma to_digits_length_le b n k : 2 <= b -> 0 <= k -> 0 <= n < b ^ k -> zlen (to_digits b n) <= k.
Proof.
  intros Hb Hk. revert n. pattern k. apply natlike_ind; [| |done]; clear k Hk.
  - intros n Hn. rewrite Z.pow_0_r in Hn. rewrite to_digits_nonpos by lia. rewrite zlen_nil. lia.
  - intros k Hk IH n Hn. rewrite Z.pow_succ_r in Hn by lia.
    destruct (decide (n = 0)) as [->|]; [rewrite to_digits_nonpos, zlen_nil by lia; lia|].
    rewrite to_digits_step, zlen_app by lia. change (zlen [n mod b]) with 1.
    assert (zlen (to_digits b (n / b)) <= k); [|lia].
    apply IH. split; [apply Z.div_pos; lia|apply Z.div_lt_upper_bound; lia].
Qed.

Lemma show_nat_length b n k :
  2 <= b -> 1 <= k -> 0 <= n < b ^ k -> 1 <= zlen (show_nat b n) <= k.
Proof.
  intros Hb Hk Hn. pose proof (to_digits_length_le b n k Hb ltac:(lia) Hn).
  pose proof (show_nat_ne_nil b n Hb ltac:(lia)) as Hne. split.
  - destruct (show_nat b n); [done|]. rewrite zlen_cons. pose proof (zlen_nonneg l). lia.
  - unfold show_nat. case_match; [change (zlen [48]) with 1; lia|].
    unfold zlen in *. rewrite length_map. lia.
Qed.
