(* ===== verification/CLib.v ===== *)
(** The C library functions that convert strings to integers: [strtol], [strtoul] and [strtoull]
    of C23 on a platform whose [long] has 64 bits, and what they return for printed numbers. *)
From S2P Require Import Prelude.

(** ** The C library's string-to-integer conversion *)

Record strto_result := {
  strto_neg : bool;        (* a minus sign was read *)
  strto_magnitude : Z;     (* the value of the digits *)
  strto_consumed : Z       (* bytes up to [end]; 0 when there was no conversion *)
}.

(** The prefix that selects or repeats the base: the base and the number of bytes skipped.
    A prefix counts only when a digit of its base follows. *)
Definition strto_prefix (base : Z) (s : bytes) : Z * bytes :=
  match s with
  | z :: s' =>
      if z =? 48 then
        match s' with
        | x :: d :: r =>
            if ((base =? 0) || (base =? 16)) && (tolower x =? 120) && (digit_val d <? 16)
            then (16, d :: r)
            else if ((base =? 0) || (base =? 2)) && (tolower x =? 98) && (digit_val d <? 2)
            then (2, d :: r)
            else ((if base =? 0 then 8 else base), s)
        | _ => ((if base =? 0 then 8 else base), s)
        end
      else ((if base =? 0 then 10 else base), s)
  | [] => ((if base =? 0 then 10 else base), s)
  end.

(** The optional sign before the digits. *)
Definition strto_sign (s : bytes) : bool * bytes :=
  match s with
  | c :: r => if c =? 45 then (true, r) else if c =? 43 then (false, r) else (false, s)
  | [] => (false, s)
  end.

Definition strto (s : bytes) (base : Z) : strto_result :=
  let '(spaces, s1) := span isspace s in
  let '(neg, s2) := strto_sign s1 in
  let '(b, s3) := strto_prefix base s2 in
  let '(ds, rest) := span (fun c => digit_val c <? b) s3 in
  {| strto_neg := neg;
     strto_magnitude := of_digits b (map digit_val ds);
     strto_consumed := if bool_decide (ds = []) then 0 else zlen s - zlen rest |}.

(** [strtoul] and [strtoull] on a 64-bit platform: the value, whether [errno] becomes [ERANGE],
    and the bytes consumed. *)
Definition strtoull (s : bytes) (base : Z) : Z * bool * Z :=
  let r := strto s base in
  if ULONG_MAX <? strto_magnitude r then (ULONG_MAX, true, strto_consumed r)
  else (wrapU 64 (if strto_neg r then - strto_magnitude r else strto_magnitude r), false,
        strto_consumed r).

Definition strtol (s : bytes) (base : Z) : Z * bool * Z :=
  let r := strto s base in
  let v := if strto_neg r then - strto_magnitude r else strto_magnitude r in
  if v <? INT64_MIN then (INT64_MIN, true, strto_consumed r)
  else if INT64_MAX <? v then (INT64_MAX, true, strto_consumed r)
  else (v, false, strto_consumed r).

(** ** Lemmas *)

Lemma isdigit_not_space c : isdigit c = true -> isspace c = false.
Proof. unfold isdigit, isspace. lia. Qed.

Lemma isdigit_not_sign c : isdigit c = true -> (c =? 43) = false /\ (c =? 45) = false.
Proof. unfold isdigit. lia. Qed.

Lemma show_nat_digit_hd n : 0 <= n -> exists c l, show_nat 10 n = c :: l /\ isdigit c = true.
Proof.
  intros. pose proof (show_nat_isdigit n). pose proof (show_nat_ne_nil 10 n).
  destruct (show_nat 10 n) as [|c l]; [naive_solver lia|].
  exists c, l. split; [done|]. by apply Forall_cons_1 in H0 as [? _].
Qed.

(** The digits [strto] reads when a whole printed number is left. *)
Lemma strto_digits b n :
  2 <= b <= 36 -> 0 <= n -> span (fun c => digit_val c <? b) (show_nat b n) = (show_nat b n, []).
Proof.
  intros. apply span_all. eapply Forall_impl; [|by apply show_nat_digit]. cbn. lia.
Qed.

(** [strto] on a sign and a string that starts with a digit and is a number in base [b] after
    its prefix. *)
Definition minus_bytes (neg : bool) : bytes := if neg then [45] else [].

Lemma strto_signed neg s base b s3 :
  (exists c l, s = c :: l /\ isdigit c = true) ->
  strto_prefix base s = (b, s3) -> s3 <> [] ->
  span (fun c => digit_val c <? b) s3 = (s3, []) ->
  strto (minus_bytes neg ++ s) base =
  {| strto_neg := neg; strto_magnitude := of_digits b (map digit_val s3);
     strto_consumed := zlen (minus_bytes neg ++ s) |}.
Proof.
  intros (c & l & -> & Hc) Hp Hne Hsp. unfold strto. destruct (isdigit_not_sign c Hc) as [Hp1 Hm1].
  destruct neg; cbn [minus_bytes app]; (rewrite span_stops; [|done || by apply isdigit_not_space]);
    cbn [strto_sign]; rewrite ?Z.eqb_refl, ?Hp1, ?Hm1, Hp, Hsp;
    rewrite bool_decide_eq_false_2 by done; by rewrite zlen_nil, Z.sub_0_r.
Qed.

Lemma strto_whole s base b s3 :
  (exists c l, s = c :: l /\ isdigit c = true) ->
  strto_prefix base s = (b, s3) -> s3 <> [] ->
  span (fun c => digit_val c <? b) s3 = (s3, []) ->
  strto s base = {| strto_neg := false; strto_magnitude := of_digits b (map digit_val s3);
                    strto_consumed := zlen s |}.
Proof. apply (strto_signed false). Qed.

Lemma strto_prefix_nonzero base c l :
  c <> 48 -> strto_prefix base (c :: l) = (if base =? 0 then 10 else base, c :: l).
Proof. intros. cbn. by destruct (Z.eqb_spec c 48). Qed.

Lemma strto_prefix_octal l :
  Forall (fun c => 0 <= digit_val c < 8) l -> strto_prefix 0 (48 :: l) = (8, 48 :: l).
Proof.
  destruct l as [|x [|d l]]; [done..|]. intros Hx%Forall_cons_1. cbn.
  replace (tolower x =? 120) with false; [replace (tolower x =? 98) with false; [done|]|];
    destruct Hx as [Hx _]; unfold digit_val, isdigit, tolower in *; repeat case_match; lia.
Qed.

Lemma strto_dec10 neg n :
  0 <= n ->
  strto (minus_bytes neg ++ show_nat 10 n) 10 =
  {| strto_neg := neg; strto_magnitude := n;
     strto_consumed := zlen (minus_bytes neg ++ show_nat 10 n) |}.
Proof.
  intros Hn. rewrite (strto_signed neg _ _ 10 (show_nat 10 n)); [by rewrite show_nat_value by lia| | | |].
  - by apply show_nat_digit_hd.
  - destruct (decide (n = 0)) as [->|]; [done|].
    destruct (show_nat_hd 10 n) as (c & l & -> & _ & ?); [lia..|]. by apply strto_prefix_nonzero.
  - apply show_nat_ne_nil; lia.
  - apply strto_digits; lia.
Qed.

Lemma strtoull_range s base : in_u 64 (strtoull s base).1.1.
Proof.
  unfold strtoull. case_match; [unfold in_u, ULONG_MAX; cbn; lia|]. apply wrapU_range. lia.
Qed.


(** [strto] on a number printed in its own base. *)
Lemma strto_show b n :
  2 <= b <= 36 -> 0 <= n ->
  strto (show_nat b n) b =
  {| strto_neg := false; strto_magnitude := n; strto_consumed := zlen (show_nat b n) |}.
Proof.
  intros Hb Hn. pose proof (show_nat_digit b n Hb Hn) as Hd.
  assert (Hp : strto_prefix b (show_nat b n) = (b, show_nat b n)).
  { destruct (decide (n = 0)) as [->|].
    - cbn. by replace (b =? 0) with false by lia.
    - destruct (show_nat_hd b n) as (c & l & -> & _ & ?); [lia..|].
      rewrite strto_prefix_nonzero by done. by replace (b =? 0) with false by lia. }
  pose proof (show_nat_ne_nil b n ltac:(lia) Hn) as Hne. unfold strto.
  destruct (show_nat b n) as [|c l] eqn:E; [done|]. apply Forall_cons_1 in Hd as [Hc _].
  assert (isspace c = false /\ (c =? 45) = false /\ (c =? 43) = false) as (Hs & H1 & H2).
  { unfold digit_val, isdigit, isspace in *. repeat case_match; lia. }
  rewrite span_stops by done. cbn [strto_sign]. rewrite H1, H2, Hp, <- E, strto_digits by lia.
  rewrite bool_decide_eq_false_2 by by rewrite E. rewrite show_nat_value by lia.
  change (zlen (@nil Z)) with 0. by rewrite Z.sub_0_r.
Qed.
