(* ===== verification/NumberParser.v ===== *)
(** Parsing and printing of numbers (src/Numbers/NumberParser.c).

    A [zend_string] is the list of its bytes; the buffer holds one more byte, the NUL
    terminator, which [char_at] yields at the length.  The GMP functions are operations of the
    class [Gmp]. *)
From S2P Require Import Prelude CLib.

(** ** Integers *)

(** The exceptions the parsers throw, one constructor per message. *)
Inductive parse_error :=
| NulByte (in_len offset : Z)          (* "Value of %d bytes contains a NUL byte at offset %zu" *)
| InvalidInteger                       (* "Invalid integer value: '%.*s'" *)
| InvalidCharacters                    (* "Invalid characters were found in value: '%.*s'" *)
| BigintRange                          (* RangeException: "value must be between ..." *)
| MultipleDots                         (* "Multiple '.' (dots) in the number '%.*s'" *)
| UnrecognizedCharacter (c pos : Z)    (* "Unrecognized character '%c' at position %d" *)
| NoDigits                             (* "No digits seen in value: '%.*s'" *)
| UnableToExtract                      (* "Unable to extract integer part of decimal value" *)
| NoExponent                           (* "No exponent following e or E in value: '%.*s'" *)
| MalformedExponent.                   (* "Malformed exponent in value: '%.*s'" *)

(** A parser returns true and a value, false with an exception pending, or, for
    [php_scylladb_parse_int], false with [errno = ERANGE] and no exception. *)
Inductive outcome (A : Type) :=
| Parsed (a : A)
| Threw (e : parse_error)
| SilentRange.
Arguments Parsed {A}.
Arguments Threw {A}.
Arguments SilentRange {A}.

(** [(int) ZSTR_LEN(zstr)] *)
Definition int_len (s : bytes) : Z := wrapS 32 (zlen s).

Record conversion := { cv_pos : Z; cv_negative : bool; cv_base : Z; cv_ok : bool }.

Fixpoint skip_spaces (s : bytes) (point : Z) : Z :=
  match s with
  | c :: s' => if isspace c then skip_spaces s' (point + 1) else point
  | [] => point
  end.

Definition prepare_string_conversion (s : bytes) : parse_error + conversion :=
  let in_len := int_len s in
  if (in_len <? 0) || negb (in_len =? strlen s)
  then inl (NulByte in_len (strlen s))
  else
    let point := skip_spaces s 0 in
    let sign := (point <? in_len) && ((char_at s point =? 43) || (char_at s point =? 45)) in
    let negative := sign && (char_at s point =? 45) in
    let point := if sign then point + 1 else point in
    let binary := (point + 1 <? in_len) && (char_at s point =? 48) && (char_at s (point + 1) =? 98) in
    let base := if binary then 2 else 0 in
    let point := if binary then point + 2 else point in
    inr {| cv_pos := point; cv_negative := negative; cv_base := base;
           cv_ok := (point <? in_len) && isdigit (char_at s point) |}.

(** The sign handling shared by the two integer widths: the number stored and whether the code
    sets [errno] to [ERANGE].  [temp] is the [w]-bit unsigned result of the C conversion. *)
Definition apply_sign (w : Z) (negative : bool) (temp : Z) : Z * bool :=
  let max := 2 ^ (w - 1) - 1 in
  if negative then
    if max + 1 <? temp then (- 2 ^ (w - 1), true)
    else if temp =? max + 1 then (- 2 ^ (w - 1), false)
    else (- wrapS w temp, false)
  else if max <? temp then (max, true)
  else (wrapS w temp, false).

Definition php_scylladb_parse_int (s : bytes) : outcome Z :=
  let in_len := int_len s in
  match prepare_string_conversion s with
  | inl e => Threw e
  | inr cv =>
      if negb (cv_ok cv) then Threw InvalidInteger
      else
        let '(v, erange, consumed) := strtoull (drop (Z.to_nat (cv_pos cv)) s) (cv_base cv) in
        let temp := wrapU 32 v in
        let '(number, erange') := apply_sign 32 (cv_negative cv) temp in
        if erange || erange' then SilentRange
        else if consumed =? 0 then Threw InvalidInteger
        else if negb (cv_pos cv + consumed =? in_len) then Threw InvalidCharacters
        else Parsed number
  end.

Definition php_scylladb_parse_bigint (s : bytes) : outcome Z :=
  let in_len := int_len s in
  match prepare_string_conversion s with
  | inl e => Threw e
  | inr cv =>
      if negb (cv_ok cv) then Threw InvalidInteger
      else
        let '(temp, erange, consumed) := strtoull (drop (Z.to_nat (cv_pos cv)) s) (cv_base cv) in
        let '(number, erange') := apply_sign 64 (cv_negative cv) temp in
        if erange || erange' then Threw BigintRange
        else if consumed =? 0 then Threw InvalidInteger
        else if negb (cv_pos cv + consumed =? in_len) then Threw InvalidCharacters
        else Parsed number
  end.

(** ** Arbitrary precision: the GMP operations the parser calls

    An [mpz_t] is an integer; [mpz_sgn], [mpz_neg], [mpz_add], [mpz_sub] and [mpz_mul_2exp] are
    its arithmetic.  The conversions are operations of a class, with the behaviour GMP documents
    for the arguments the driver passes. *)
Class Gmp := {
  mpz_set_str : bytes -> Z -> option Z;     (* None: the function returned -1 *)
  mpz_get_str : Z -> Z -> bytes;            (* base, number *)
  mpz_sizeinbase : Z -> Z -> Z;             (* number, base *)
  mpz_scan1 : Z -> Z;                       (* number, from bit 0 *)
  mpz_export : Z -> bytes;                  (* order 1, size 1, endian 1, nails 0 *)
  mpz_import : bytes -> Z
}.

Class GmpLaws (G : Gmp) : Prop := {
  mpz_get_str_10 n : mpz_get_str 10 n = show_dec n;
  mpz_set_str_10 ds :
    ds <> [] -> Forall (fun c => isdigit c = true) ds ->
    mpz_set_str ds 10 = Some (of_digits 10 (map digit_val ds)) /\
    mpz_set_str (45 :: ds) 10 = Some (- of_digits 10 (map digit_val ds));
  mpz_set_str_0_dec c ds :
    c <> 48 -> Forall (fun c => isdigit c = true) (c :: ds) ->
    mpz_set_str (c :: ds) 0 = Some (of_digits 10 (map digit_val (c :: ds)));
  mpz_set_str_0_zero : mpz_set_str [48] 0 = Some 0;
  (* a character that is neither white space nor a digit makes the string invalid *)
  mpz_set_str_0_octal_invalid ds :
    Exists (fun c => isspace c = false /\ digit_val c >= 8) ds ->
    (forall x r, ds = x :: r -> tolower x <> 120 /\ tolower x <> 98) ->
    mpz_set_str (48 :: ds) 0 = None;
  mpz_sizeinbase_2 n : n <> 0 -> mpz_sizeinbase n 2 = Z.log2 (Z.abs n) + 1;
  mpz_scan1_spec n :
    n <> 0 -> 0 <= mpz_scan1 n /\ exists q, n = (2 * q + 1) * 2 ^ mpz_scan1 n;
  mpz_export_spec n : mpz_export n = to_digits 256 (Z.abs n);
  mpz_import_spec l : mpz_import l = of_digits 256 l
}.

Section Arbitrary.
Context `{G : Gmp}.

Definition php_scylladb_parse_varint (s : bytes) : outcome Z :=
  match prepare_string_conversion s with
  | inl e => Threw e
  | inr cv =>
      if negb (cv_ok cv) then Threw InvalidInteger
      else match mpz_set_str (drop (Z.to_nat (cv_pos cv)) s) (cv_base cv) with
           | None => Threw InvalidInteger
           | Some number => Parsed (if cv_negative cv then - number else number)
           end
  end.

(** The loop that looks for the decimal point and the exponent: from [point], over the bytes
    [l] left there. *)
Fixpoint scan_decimal (l : bytes) (in_len point dot : Z) : parse_error + Z * Z :=
  match l with
  | [] => inr (point, dot)
  | c :: l' =>
      if point <? in_len then
        if c =? 46 then
          if negb (dot =? -1) then inl MultipleDots
          else scan_decimal l' in_len (point + 1) point
        else if (c =? 101) || (c =? 69) then inr (point, dot)
        else if negb (isxdigit c) then inl (UnrecognizedCharacter c point)
        else scan_decimal l' in_len (point + 1) dot
      else inr (point, dot)
  end.

(** [memcpy] of [n] bytes from offset [i]. *)
Definition sub_bytes (s : bytes) (i n : Z) : bytes := take (Z.to_nat n) (drop (Z.to_nat i) s).

(** The exponent after the significand: the difference it makes to the scale. *)
Definition parse_exponent (s : bytes) (in_len point : Z) : parse_error + Z :=
  let point := point + 1 in
  let point := if char_at s point =? 43 then point + 1 else point in
  if in_len <=? point then inl NoExponent
  else if negb (char_at s point =? 45) && negb (isdigit (char_at s point)) then inl MalformedExponent
  else
    let '(diff, erange, consumed) := strtol (drop (Z.to_nat point) s) 10 in
    if negb (point + consumed =? in_len) || erange then inl MalformedExponent
    else inr diff.

Definition with_scale_0 (o : outcome Z) : outcome (Z * Z) :=
  match o with Parsed n => Parsed (n, 0) | Threw e => Threw e | SilentRange => SilentRange end.

Definition php_scylladb_parse_decimal (s : bytes) : outcome (Z * Z) :=
  let in_len := int_len s in
  let negative := char_at s 0 =? 45 in
  let start := if (char_at s 0 =? 43) || negative then 1 else 0 in
  let maybe_octal := char_at s start =? 48 in
  if maybe_octal && ((char_at s (start + 1) =? 98) || (char_at s (start + 1) =? 120))
  then with_scale_0 (php_scylladb_parse_varint s)
  else match scan_decimal (drop (Z.to_nat start) s) in_len start (-1) with
  | inl e => Threw e
  | inr (point, dot) =>
      if maybe_octal && (dot =? -1) then with_scale_0 (php_scylladb_parse_varint s)
      else
        let sign := if negative then [45] else [] in
        let out := if negb (dot =? -1)
                   then sign ++ sub_bytes s start (dot - start) ++ sub_bytes s (dot + 1) (point - dot - 1)
                   else sign ++ sub_bytes s start (point - start) in
        let out_len := point - start + zlen sign - (if negb (dot =? -1) then 1 else 0) in
        let scale := if negb (dot =? -1) then point - 1 - dot else 0 in
        if out_len =? 0 then Threw NoDigits
        else match mpz_set_str out 10 with
             | None => Threw UnableToExtract
             | Some number =>
                 if point <? in_len then
                   match parse_exponent s in_len point with
                   | inl e => Threw e
                   | inr diff => Parsed (number, wrapS 64 (scale - diff))
                   end
                 else Parsed (number, scale)
             end
  end.

Definition php_scylladb_format_integer (number : Z) : bytes := mpz_get_str 10 number.

(** [snprintf("E%+ld")] *)
Definition show_exponent (e : Z) : bytes :=
  69 :: (if e <? 0 then 45 else 43) :: show_nat 10 (Z.abs e).

Definition php_scylladb_format_decimal (number scale : Z) : bytes :=
  if scale =? 0 then php_scylladb_format_integer number
  else
    let negative := if number <? 0 then 1 else 0 in
    let tmp := mpz_get_str 10 number in
    let len := zlen tmp - negative in
    let point := len - scale in
    let plain := (0 <? scale) && (-6 <=? point - 1) in
    if plain then
      if point <=? 0 then
        sub_bytes tmp 0 negative ++ [48; 46] ++ repeat 48 (Z.to_nat (- point))
          ++ sub_bytes tmp negative len
      else
        let point := point + negative in
        sub_bytes tmp 0 point ++ [46] ++ sub_bytes tmp point (zlen tmp - point)
    else
      let exponent := point - 1 in
      if len =? 1 then sub_bytes tmp 0 (1 + negative) ++ show_exponent exponent
      else
        let dot := if negative =? 1 then 2 else 1 in
        sub_bytes tmp 0 dot ++ [46] ++ sub_bytes tmp dot (len - 1) ++ show_exponent exponent.

Definition import_twos_complement (data : bytes) : Z :=
  let number := mpz_import data in
  if Z.land (char_at data 0) 128 =? 128 then number - 1 * 2 ^ (8 * zlen data) else number.

Definition export_twos_complement (number : Z) : bytes :=
  if number =? 0 then [0]
  else if number <? 0 then
    let n := mpz_sizeinbase number 2 / 8 + 1 in
    let n := if mpz_scan1 number =? 8 * (n - 1) - 1 then n - 1 else n in
    mpz_export (number + 1 * 2 ^ (8 * n))
  else
    let size := (mpz_sizeinbase number 2 + 7) / 8 + 1 in
    take (Z.to_nat size) (0 :: mpz_export number).

End Arbitrary.

(** ** Lemmas on the integer parsers *)

(** The radices of an integer literal and a literal in each of them. *)
Inductive radix := Dec | Oct | Hex | Bin.

Definition literal (r : radix) (n : Z) : bytes :=
  match r with
  | Dec => show_nat 10 n
  | Oct => 48 :: show_nat 8 n
  | Hex => 48 :: 120 :: show_nat 16 n
  | Bin => 48 :: 98 :: show_nat 2 n
  end.

Definition sign_bytes (neg : option bool) : bytes :=
  match neg with None => [] | Some false => [43] | Some true => [45] end.

Definition has_sign (neg : option bool) : bool := match neg with None => false | _ => true end.

Definition is_minus (neg : option bool) : bool := match neg with Some true => true | _ => false end.

Definition signed (neg : option bool) (n : Z) : Z :=
  match neg with Some true => - n | _ => n end.

Lemma skip_spaces_app ws s p :
  Forall (fun c => isspace c = true) ws -> stops isspace s ->
  skip_spaces (ws ++ s) p = p + zlen ws.
Proof.
  intros Hws Hs. revert p. induction Hws as [|c ws Hc _ IH]; intros p.
  - cbn [app]. rewrite zlen_nil. destruct s as [|c s]; cbn in *; [|rewrite Hs]; lia.
  - cbn [app skip_spaces]. rewrite Hc, IH, zlen_cons. lia.
Qed.

(** What [prepare_string_conversion] finds in white space, a sign and a body that starts with
    a digit. *)
Lemma prepare_spec ws sg c body :
  Forall (fun c => isspace c = true) ws ->
  isdigit c = true -> Forall (fun c => c <> 0) body ->
  let s := ws ++ sign_bytes sg ++ c :: body in
  zlen s < 2 ^ 31 ->
  let binary := bool_decide (body <> []) && (c =? 48) && (char_at body 0 =? 98) in
  let pos := zlen ws + zlen (sign_bytes sg) + (if binary then 2 else 0) in
  prepare_string_conversion s =
    inr {| cv_pos := pos;
           cv_negative := is_minus sg;
           cv_base := if binary then 2 else 0;
           cv_ok := (pos <? zlen s) && isdigit (char_at s pos) |}.
Proof.
  intros Hws Hc Hb s Hlen. assert (Hs : s = (ws ++ sign_bytes sg) ++ c :: body) by apply app_assoc.
  destruct (isdigit_not_sign c Hc) as [Hp Hm].
  assert (Hnn : Forall (fun c => c <> 0) s).
  { unfold s. rewrite !Forall_app. split; [|split].
    - eapply Forall_impl; [|exact Hws]. unfold isspace. lia.
    - by destruct sg as [[]|]; repeat constructor.
    - constructor; [unfold isdigit in Hc; lia|done]. }
  assert (Hi : int_len s = zlen s).
  { apply wrapS_id; [done|]. unfold in_s. pose proof (zlen_nonneg s). lia. }
  unfold prepare_string_conversion. rewrite Hi, strlen_no_nul, Z.eqb_refl by done.
  pose proof (zlen_nonneg s). destruct (Z.ltb_spec (zlen s) 0); [lia|]. cbn [orb negb].
  assert (Hskip : skip_spaces s 0 = zlen ws).
  { apply skip_spaces_app; [done|]. destruct sg as [[]|]; cbn; auto using isdigit_not_space. }
  assert (Hsign : (zlen ws <? zlen s) && ((char_at s (zlen ws) =? 43) || (char_at s (zlen ws) =? 45))
                  = has_sign sg).
  { unfold s. rewrite char_at_app0, zlen_app. pose proof (zlen_nonneg ws).
    destruct sg as [[]|]; cbn [sign_bytes app]; rewrite ?zlen_cons, char_at_0, ?Hp, ?Hm;
      pose proof (zlen_nonneg body); cbn [has_sign]; lia. }
  assert (Hneg : has_sign sg && (char_at s (zlen ws) =? 45) = is_minus sg).
  { unfold s. rewrite char_at_app0. by destruct sg as [[]|]; cbn [sign_bytes app]; rewrite ?char_at_0. }
  assert (Hp0 : (if has_sign sg then zlen ws + 1 else zlen ws) = zlen (ws ++ sign_bytes sg)).
  { rewrite zlen_app. destruct sg as [[]|]; cbn [has_sign sign_bytes]; rewrite ?zlen_cons, ?zlen_nil; lia. }
  assert (Hc0 : char_at s (zlen (ws ++ sign_bytes sg)) = c) by by rewrite Hs, char_at_app0, char_at_0.
  assert (Hc1 : char_at s (zlen (ws ++ sign_bytes sg) + 1) = char_at body 0)
    by by rewrite Hs, char_at_app, char_at_1 by lia.
  assert (Hl1 : (zlen (ws ++ sign_bytes sg) + 1 <? zlen s) = bool_decide (body <> [])).
  { rewrite Hs, !zlen_app, zlen_cons. destruct body; case_bool_decide; rewrite ?zlen_nil, ?zlen_cons;
      [done|lia|pose proof (zlen_nonneg body); lia|done]. }
  rewrite Hskip, Hsign, Hneg, Hp0, Hc0, Hc1, Hl1, zlen_app.
  by destruct (bool_decide (body <> []) && (c =? 48) && (char_at body 0 =? 98)); rewrite ?Z.add_0_r.
Qed.

Lemma literal_hd r n : 0 <= n -> exists c l, literal r n = c :: l /\ isdigit c = true.
Proof.
  intros. destruct r; [by apply show_nat_digit_hd|eexists _, _; by split..].
Qed.

Lemma show_nat_no_nul b n : 2 <= b <= 36 -> 0 <= n -> Forall (fun c => c <> 0) (show_nat b n).
Proof.
  intros. eapply Forall_impl; [|by apply show_nat_digit]. cbn. intros c Hc ->. cbn in Hc. lia.
Qed.

(** [strto] on a literal: base 0 for all radices but binary, whose prefix the caller skips. *)
Lemma strto_literal r n :
  0 <= n ->
  strto (match r with Bin => show_nat 2 n | _ => literal r n end)
        (match r with Bin => 2 | _ => 0 end) =
  {| strto_neg := false; strto_magnitude := n;
     strto_consumed := zlen (match r with Bin => show_nat 2 n | _ => literal r n end) |}.
Proof.
  intros Hn. destruct r; cbn [literal].
  - destruct (decide (n = 0)) as [->|]; [done|].
    rewrite (strto_whole _ _ 10 (show_nat 10 n)); [by rewrite show_nat_value by lia| | | |].
    + by apply (literal_hd Dec).
    + destruct (show_nat_hd 10 n) as (c & l & -> & _ & ?); [lia..|]. by apply strto_prefix_nonzero.
    + apply show_nat_ne_nil; lia.
    + apply strto_digits; lia.
  - rewrite (strto_whole _ _ 8 (48 :: show_nat 8 n)); [| |apply strto_prefix_octal|done|].
    + cbn [map]. rewrite of_digits_cons, show_nat_value by lia. done.
    + by eexists _, _.
    + apply show_nat_digit; lia.
    + cbn. by rewrite strto_digits by lia.
  - rewrite (strto_whole _ _ 16 (show_nat 16 n)); [by rewrite show_nat_value by lia|by eexists _, _| | |].
    + pose proof (show_nat_digit 16 n) as Hd. pose proof (show_nat_ne_nil 16 n).
      cbn. destruct (show_nat 16 n) as [|d l]; [naive_solver lia|].
      destruct (Forall_cons_1 _ _ _ (Hd ltac:(lia) Hn)) as [Hd0 _]. cbn.
      by destruct (Z.ltb_spec (digit_val d) 16); [|lia].
    + apply show_nat_ne_nil; lia.
    + apply strto_digits; lia.
  - destruct (decide (n = 0)) as [->|]; [done|].
    destruct (show_nat_hd 2 n) as (c & l & Hs & Hc & ?); [lia..|].
    rewrite (strto_whole _ _ 2 (show_nat 2 n)); [by rewrite show_nat_value by lia| | | |].
    + exists c, l. split; [done|]. unfold digit_val, isdigit in *. repeat case_match; lia.
    + rewrite Hs. by apply strto_prefix_nonzero.
    + by rewrite Hs.
    + apply strto_digits; lia.
Qed.

(** What is left of a literal once the binary prefix is skipped. *)
Definition literal_rest (r : radix) (n : Z) : bytes :=
  match r with Bin => show_nat 2 n | _ => literal r n end.

Definition literal_skip (r : radix) : bytes := match r with Bin => [48; 98] | _ => [] end.

Lemma literal_split r n : literal r n = literal_skip r ++ literal_rest r n.
Proof. by destruct r. Qed.

Lemma literal_rest_hd r n :
  0 <= n -> exists c l, literal_rest r n = c :: l /\ isdigit c = true.
Proof.
  intros Hn. destruct r; try by apply (literal_hd _ n Hn).
  cbn [literal_rest]. pose proof (show_nat_digit 2 n) as Hd. pose proof (show_nat_ne_nil 2 n).
  destruct (show_nat 2 n) as [|c l]; [naive_solver lia|]. exists c, l. split; [done|].
  destruct (Forall_cons_1 _ _ _ (Hd ltac:(lia) Hn)) as [Hc _].
  unfold digit_val, isdigit in *. repeat case_match; lia.
Qed.

Lemma literal_binary r n c body :
  0 <= n -> literal r n = c :: body ->
  bool_decide (body <> []) && (c =? 48) && (char_at body 0 =? 98) =
  match r with Bin => true | _ => false end.
Proof.
  intros Hn. destruct r; cbn [literal]; intros Hl.
  - destruct (decide (n = 0)) as [->|]; [by inversion Hl|].
    destruct (show_nat_hd 10 n) as (c' & l & E & _ & ?); [lia..|].
    rewrite E in Hl. inversion Hl; subst. by rewrite (proj2 (Z.eqb_neq c 48)), andb_false_r.
  - inversion Hl; subst. pose proof (show_nat_digit 8 n ltac:(lia) Hn) as Hd.
    destruct (show_nat 8 n) as [|x l]; [done|]. apply Forall_cons_1 in Hd as [Hd _].
    rewrite char_at_0. replace (x =? 98) with false; [by rewrite andb_false_r|].
    unfold digit_val, isdigit in Hd. repeat case_match; lia.
  - by inversion Hl.
  - by inversion Hl.
Qed.

Lemma literal_no_nul r n : 0 <= n -> Forall (fun c => c <> 0) (literal r n).
Proof.
  intros. destruct r; cbn [literal]; repeat (apply Forall_cons; [done|]);
    apply show_nat_no_nul; lia.
Qed.

(** Reading a literal: the position and base [prepare_string_conversion] hands to the C
    conversion, and that conversion's result. *)
Lemma literal_conversion ws sg r n :
  Forall (fun c => isspace c = true) ws -> 0 <= n ->
  let s := ws ++ sign_bytes sg ++ literal r n in
  zlen s < 2 ^ 31 ->
  exists cv, prepare_string_conversion s = inr cv /\ cv_ok cv = true /\
    cv_negative cv = is_minus sg /\ int_len s = zlen s /\
    strtoull (drop (Z.to_nat (cv_pos cv)) s) (cv_base cv) =
      (if ULONG_MAX <? n then ULONG_MAX else n, ULONG_MAX <? n, zlen s - cv_pos cv) /\
    cv_pos cv < zlen s.
Proof.
  intros Hws Hn s Hlen. destruct (literal_hd r n Hn) as (c & body & Hl & Hc).
  pose proof (literal_no_nul r n Hn) as Hnn. rewrite Hl in Hnn. apply Forall_cons_1 in Hnn as [_ Hnn].
  assert (Hprep := prepare_spec ws sg c body Hws Hc Hnn). rewrite <- Hl in Hprep.
  specialize (Hprep Hlen). cbn zeta in Hprep. rewrite (literal_binary r n c body Hn Hl) in Hprep.
  fold s in Hprep.
  set (pre := ws ++ sign_bytes sg ++ literal_skip r).
  assert (Hs : s = pre ++ literal_rest r n).
  { unfold s, pre. by rewrite literal_split, <- !app_assoc. }
  assert (Hpos : zlen ws + zlen (sign_bytes sg) +
                 (if match r with Bin => true | _ => false end then 2 else 0) = zlen pre).
  { unfold pre. rewrite !zlen_app. by destruct r; rewrite Z.add_assoc. }
  rewrite Hpos in Hprep. destruct (literal_rest_hd r n Hn) as (c' & l & Hr & Hc').
  assert (Hlt : zlen pre < zlen s).
  { rewrite Hs, zlen_app, Hr, zlen_cons. pose proof (zlen_nonneg l). lia. }
  eexists. split; [exact Hprep|]. cbn [cv_ok cv_negative cv_pos cv_base].
  split; [|split; [done|split; [|split; [|done]]]].
  - replace (zlen pre <? zlen s) with true by lia. by rewrite Hs, char_at_app0, Hr, char_at_0.
  - apply wrapS_id; [done|]. unfold in_s. pose proof (zlen_nonneg s). lia.
  - rewrite Hs, drop_zlen, zlen_app. unfold strtoull. pose proof (strto_literal r n Hn) as Hst.
    replace (if match r with Bin => true | _ => false end then 2 else 0)
      with (match r with Bin => 2 | _ => 0 end) by by destruct r.
    fold (literal_rest r n) in Hst. rewrite Hst. cbn [strto_magnitude strto_neg strto_consumed].
    replace (zlen pre + zlen (literal_rest r n) - zlen pre) with (zlen (literal_rest r n)) by lia.
    destruct (Z.ltb_spec ULONG_MAX n); [done|]. rewrite wrapU_id; [done|].
    unfold in_u, ULONG_MAX in *. lia.
Qed.

Lemma apply_sign_spec w sg n :
  0 < w -> in_u w n ->
  apply_sign w (is_minus sg) n =
    (if signed sg n <? - 2 ^ (w - 1) then - 2 ^ (w - 1)
     else if 2 ^ (w - 1) - 1 <? signed sg n then 2 ^ (w - 1) - 1 else signed sg n,
     (signed sg n <? - 2 ^ (w - 1)) || (2 ^ (w - 1) - 1 <? signed sg n)).
Proof.
  intros Hw [H0 H1]. pose proof (pow2_half w Hw). unfold apply_sign.
  assert (Hs : n < 2 ^ (w - 1) -> wrapS w n = n).
  { intros. apply wrapS_id; unfold in_s; lia. }
  destruct sg as [[]|]; cbn [is_minus signed];
    repeat match goal with |- context [?a <? ?b] => destruct (Z.ltb_spec a b) end;
    try (destruct (Z.eqb_spec n (2 ^ (w - 1) - 1 + 1))); try rewrite Hs by lia;
    cbn [orb]; repeat f_equal; lia.
Qed.

(** *** Theorems on the integer parsers *)

Lemma parse_bigint_of_literal ws sg r n :
  Forall (fun c => isspace c = true) ws -> 0 <= n ->
  zlen (ws ++ sign_bytes sg ++ literal r n) < 2 ^ 31 ->
  php_scylladb_parse_bigint (ws ++ sign_bytes sg ++ literal r n) =
    if (INT64_MIN <=? signed sg n) && (signed sg n <=? INT64_MAX)
    then Parsed (signed sg n) else Threw BigintRange.
Proof.
  intros Hws Hn Hlen. destruct (literal_conversion ws sg r n Hws Hn Hlen)
    as (cv & Hp & Hok & Hneg & Hi & Hst & Hlt).
  unfold php_scylladb_parse_bigint. rewrite Hp, Hok, Hst, Hneg, Hi. cbn [negb].
  assert (Hu : in_u 64 (if ULONG_MAX <? n then ULONG_MAX else n)).
  { unfold in_u, ULONG_MAX. destruct (Z.ltb_spec (2 ^ 64 - 1) n); lia. }
  rewrite apply_sign_spec by done.
  unfold INT64_MIN, INT64_MAX, ULONG_MAX in *.
  replace (cv_pos cv + (_ - cv_pos cv) =? _) with true by lia.
  replace (_ - cv_pos cv =? 0) with false by lia. cbn [negb].
  destruct (Z.ltb_spec (2 ^ 64 - 1) n); cbn [orb].
  - destruct sg as [[]|]; cbn [signed]; case_match; (reflexivity || lia).
  - destruct (Z.ltb_spec (signed sg n) (- 2 ^ (64 - 1))), (Z.ltb_spec (2 ^ (64 - 1) - 1) (signed sg n));
      cbn [orb]; case_match; (reflexivity || lia).
Qed.

(** Every integer literal [Bigint] documents - decimal, octal, hexadecimal or binary, signed
    or not, after any white space - denotes its value when it fits 64 bits, and raises the range
    exception when it does not. *)
Theorem parse_bigint_literal ws sg r n :
  Forall (fun c => isspace c = true) ws -> 0 <= n ->
  zlen (ws ++ sign_bytes sg ++ literal r n) < 2 ^ 31 ->
  php_scylladb_parse_bigint (ws ++ sign_bytes sg ++ literal r n) =
    if (INT64_MIN <=? signed sg n) && (signed sg n <=? INT64_MAX)
    then Parsed (signed sg n) else Threw BigintRange.
Proof. apply parse_bigint_of_literal. Qed.

(** The 32-bit parser works on the low 32 bits of the 64-bit conversion. *)
Definition low32 (n : Z) : Z := wrapU 32 n.

Lemma parse_int_of_literal ws sg r n :
  Forall (fun c => isspace c = true) ws -> 0 <= n ->
  zlen (ws ++ sign_bytes sg ++ literal r n) < 2 ^ 31 ->
  php_scylladb_parse_int (ws ++ sign_bytes sg ++ literal r n) =
    if (n <=? ULONG_MAX) && (INT_MIN <=? signed sg (low32 n)) && (signed sg (low32 n) <=? INT_MAX)
    then Parsed (signed sg (low32 n)) else SilentRange.
Proof.
  intros Hws Hn Hlen. destruct (literal_conversion ws sg r n Hws Hn Hlen)
    as (cv & Hp & Hok & Hneg & Hi & Hst & Hlt).
  unfold php_scylladb_parse_int, low32. rewrite Hp, Hok, Hst, Hneg, Hi. cbn [negb].
  rewrite apply_sign_spec by (try apply wrapU_range; lia).
  unfold INT_MIN, INT_MAX.
  replace (cv_pos cv + (_ - cv_pos cv) =? _) with true by lia.
  replace (_ - cv_pos cv =? 0) with false by lia. cbn [negb].
  destruct (Z.ltb_spec ULONG_MAX n), (Z.leb_spec n ULONG_MAX); cbn [orb andb]; try (reflexivity || lia).
  destruct (Z.ltb_spec (signed sg (wrapU 32 n)) (- 2 ^ (32 - 1))),
    (Z.ltb_spec (2 ^ (32 - 1) - 1) (signed sg (wrapU 32 n)));
    cbn [orb]; case_match; (reflexivity || lia).
Qed.

(** the integer parser of [Tinyint] and [Smallint] reduces the magnitude of a literal below
    2^64 modulo 2^32 before its range check, so a literal is accepted exactly when its low 32
    bits are in range, and its value is then that of the low bits; larger literals and larger
    low bits are reported through [errno] only. *)
Theorem parse_int_literal ws sg r n :
  Forall (fun c => isspace c = true) ws -> 0 <= n ->
  zlen (ws ++ sign_bytes sg ++ literal r n) < 2 ^ 31 ->
  php_scylladb_parse_int (ws ++ sign_bytes sg ++ literal r n) =
    if (n <=? ULONG_MAX) && (INT_MIN <=? signed sg (low32 n)) && (signed sg (low32 n) <=? INT_MAX)
    then Parsed (signed sg (low32 n)) else SilentRange.
Proof. apply parse_int_of_literal. Qed.

Lemma apply_sign_range w neg temp :
  0 < w -> in_u w temp -> in_s w (fst (apply_sign w neg temp)).
Proof.
  intros Hw Hu. pose proof (pow2_half w Hw).
  replace neg with (is_minus (Some neg)) by by destruct neg.
  rewrite apply_sign_spec by done. unfold in_s. cbn [fst]. repeat case_match; lia.
Qed.

(** whatever the input, a number the integer parsers accept fits the type they return. *)
Theorem parse_integer_bounds s :
  (forall n, php_scylladb_parse_int s = Parsed n -> in_s 32 n) /\
  (forall n, php_scylladb_parse_bigint s = Parsed n -> in_s 64 n).
Proof.
  unfold php_scylladb_parse_int, php_scylladb_parse_bigint.
  destruct (prepare_string_conversion s) as [|cv]; [done|].
  destruct (negb (cv_ok cv)); [done|].
  pose proof (strtoull_range (drop (Z.to_nat (cv_pos cv)) s) (cv_base cv)) as Hr.
  destruct (strtoull _ _) as [[v er] cs]. cbn [fst] in Hr. split; intros n.
  - pose proof (apply_sign_range 32 (cv_negative cv) (wrapU 32 v)) as Hs.
    destruct (apply_sign _ _ _) as [number er']. repeat case_match; try done.
    intros [= <-]. apply Hs; [lia|]. apply wrapU_range. lia.
  - pose proof (apply_sign_range 64 (cv_negative cv) v) as Hs.
    destruct (apply_sign _ _ _) as [number er']. repeat case_match; try done.
    intros [= <-]. apply Hs; [lia|done].
Qed.

(** ** Lemmas and theorems on two's complement *)

Section TwosComplement.
Context `{G : Gmp} `{!GmpLaws G}.

(** The magnitude of a number needs as many bytes as its bits fill. *)
Lemma export_length n : 0 < n -> zlen (mpz_export n) = (mpz_sizeinbase n 2 + 7) / 8.
Proof.
  intros Hn. rewrite mpz_export_spec, mpz_sizeinbase_2, Z.abs_eq by lia.
  pose proof (Z.log2_spec n Hn) as [H1 H2]. pose proof (Z.log2_nonneg n).
  set (b := Z.log2 n) in *. replace ((b + 1 + 7) / 8) with (b / 8 + 1).
  2: { rewrite <- Z.div_add by lia. f_equal. lia. }
  pose proof (Z.div_mod b 8). pose proof (Z.mod_pos_bound b 8).
  apply to_digits_length; [lia|apply Z.div_pos; lia|].
  change 256 with (2 ^ 8). rewrite <- !Z.pow_mul_r by (try apply Z.div_pos; lia). split.
  - eapply Z.le_trans; [|exact H1]. apply Z.pow_le_mono_r; lia.
  - eapply Z.lt_le_trans; [exact H2|]. apply Z.pow_le_mono_r; lia.
Qed.

Lemma import_export_nonneg n : 0 <= n -> import_twos_complement (export_twos_complement n) = n.
Proof.
  intros Hn. unfold export_twos_complement. destruct (Z.eqb_spec n 0) as [->|].
  { unfold import_twos_complement. by rewrite mpz_import_spec. }
  destruct (Z.ltb_spec n 0); [lia|].
  rewrite take_ge.
  2: { cbn [length]. pose proof (export_length n) as E. unfold zlen in E. lia. }
  unfold import_twos_complement. rewrite mpz_import_spec, char_at_0, mpz_export_spec, land_high_bit by lia.
  cbn [Z.leb Z.compare]. rewrite of_digits_cons, of_to_digits; lia.
Qed.

(** [k] bytes hold a negative number of [8 * k] bits, and read back as it. *)
Lemma import_unsigned n k :
  1 <= k -> - 2 ^ (8 * k - 1) <= n < 0 ->
  import_twos_complement (mpz_export (n + 1 * 2 ^ (8 * k))) = n.
Proof.
  intros Hk Hn. rewrite mpz_export_spec, Z.mul_1_l. pose proof (pow2_half (8 * k) ltac:(lia)) as Hp.
  set (m := n + 2 ^ (8 * k)). rewrite Z.abs_eq by lia.
  assert (Hpow : 2 ^ (8 * k) = 256 ^ k) by (change 256 with (2 ^ 8); by rewrite <- Z.pow_mul_r by lia).
  assert (Hpow1 : 2 ^ (8 * k - 1) = 128 * 256 ^ (k - 1)).
  { change 256 with (2 ^ 8). rewrite <- Z.pow_mul_r by lia. change 128 with (2 ^ 7).
    rewrite <- Z.pow_add_r by lia. f_equal. lia. }
  pose proof (Z.pow_pos_nonneg 256 (k - 1)).
  assert (Hlen : zlen (to_digits 256 m) = k).
  { replace k with (k - 1 + 1) at 1 by lia. apply to_digits_length; [lia..|].
    replace (k - 1 + 1) with k by lia. lia. }
  destruct (to_digits_hd 256 m) as (d & l & E & Hd); [lia..|].
  assert (Hm : m = of_digits 256 (d :: l)) by (rewrite <- E; symmetry; apply of_to_digits; lia).
  pose proof (to_digits_range 256 m) as Hr. rewrite E in Hr, Hlen. rewrite zlen_cons in Hlen.
  pose proof (of_digits_bounds 256 l ltac:(lia)) as Hb.
  specialize (Hb (Forall_inv_tail (Hr ltac:(lia) ltac:(lia)))).
  assert (Hl : zlen l = k - 1) by lia. rewrite of_digits_cons, Hl in Hm. rewrite Hl in Hb.
  unfold import_twos_complement. rewrite E, mpz_import_spec, char_at_0, land_high_bit by lia.
  destruct (Z.leb_spec 128 d); [|nia].
  rewrite <- E, of_to_digits, E, zlen_cons, Hl by lia. replace (1 + (k - 1)) with k by lia. lia.
Qed.

(** The negative numbers whose lowest set bit is the sign bit of [j] bytes but which need
    [j + 1] bytes. *)
Definition sign_bit_multiple (n : Z) : Prop :=
  exists o j, 1 <= j /\ 1 <= o <= 127 /\ n = - ((2 * o + 1) * 2 ^ (8 * j - 1)).

(** The bytes the encoder decides on for [n < 0]: [j] whole bytes of magnitude bits. *)
Lemma negative_bits n :
  n < 0 ->
  let b := Z.log2 (Z.abs n) in let j := (b + 1) / 8 in
  0 <= j /\ 8 * j <= b + 1 <= 8 * j + 7 /\ 2 ^ b <= - n < 2 ^ (b + 1) /\ 0 <= b.
Proof.
  intros Hn b j. pose proof (Z.log2_nonneg (Z.abs n)). pose proof (Z.log2_spec (Z.abs n)).
  fold b in H, H0. pose proof (Z.div_mod (b + 1) 8). pose proof (Z.mod_pos_bound (b + 1) 8).
  unfold j. rewrite <- Z.add_1_r in H0. rewrite Z.abs_neq in H0 by lia.
  pose proof (Z.div_pos (b + 1) 8). lia.
Qed.

(** A sign bit multiple of [j] bytes has its lowest set bit at [8 * j - 1] and [j] whole bytes
    of magnitude bits. *)
Lemma sign_bit_multiple_bits o j n :
  1 <= j -> 1 <= o <= 127 -> n = - ((2 * o + 1) * 2 ^ (8 * j - 1)) ->
  n < 0 /\ mpz_scan1 n = 8 * j - 1 /\ (Z.log2 (Z.abs n) + 1) / 8 = j.
Proof.
  intros Hj Ho Hn. pose proof (Z.pow_pos_nonneg 2 (8 * j - 1)) as Hp.
  assert (n < 0) by nia. split; [done|].
  destruct (mpz_scan1_spec n) as [Ht [q Hq]]; [lia|]. split.
  - apply (odd_part_unique q (- o - 1)); lia.
  - destruct (negative_bits n) as (H0 & H1 & H2 & H3); [done|]. set (b := Z.log2 (Z.abs n)) in *.
    assert (2 ^ (8 * j - 1 + 1) <= - n < 2 ^ (8 * j - 1 + 8)) as [H4 H5]
      by (rewrite Hn, !Z.pow_add_r by lia; nia).
    assert (8 * j < b + 1).
    { apply (Z.pow_lt_mono_r_iff 2); try lia. replace (8 * j) with (8 * j - 1 + 1) by lia. lia. }
    assert (b < 8 * j + 7).
    { apply (Z.pow_lt_mono_r_iff 2); try lia. replace (8 * j + 7) with (8 * j - 1 + 8) by lia. lia. }
    symmetry. apply (Z.div_unique _ _ _ (b + 1 - 8 * j)); lia.
Qed.

(** When [j] bytes are too few the encoding denotes another number. *)
Lemma import_truncated o j n :
  1 <= j -> 1 <= o <= 127 -> n = - ((2 * o + 1) * 2 ^ (8 * j - 1)) ->
  import_twos_complement (mpz_export (n + 1 * 2 ^ (8 * j))) <> n.
Proof.
  intros Hj Ho Hn E. pose proof (Z.pow_pos_nonneg 2 (8 * j - 1)) as Hp.
  pose proof (pow2_half (8 * j) ltac:(lia)) as Hh.
  set (v := (2 * o - 1) * 2 ^ (8 * j - 1)).
  replace (n + 1 * 2 ^ (8 * j)) with (- v) in E by (unfold v; nia).
  assert (0 < v) by (unfold v; nia).
  unfold import_twos_complement in E.
  rewrite mpz_export_spec, mpz_import_spec, Z.abs_opp, Z.abs_eq, of_to_digits in E by lia.
  case_match; [|lia]. set (L := zlen (to_digits 256 v)) in *.
  assert (HL : 0 <= L) by apply zlen_nonneg.
  assert (Ho2 : o * 2 ^ (8 * j + 1) = 2 ^ (8 * L)).
  { replace (8 * j + 1) with (8 * j - 1 + 2) by lia. rewrite Z.pow_add_r by lia. unfold v in *. lia. }
  assert (8 * j + 1 <= 8 * L < 8 * j + 8); [|lia]. split.
  - apply (Z.pow_le_mono_r_iff 2); [lia..|]. rewrite <- Ho2. pose proof (Z.pow_pos_nonneg 2 (8 * j + 1)). nia.
  - apply (Z.pow_lt_mono_r_iff 2); [lia..|]. rewrite <- Ho2.
    replace (8 * j + 8) with (8 * j + 1 + 7) by lia. rewrite (Z.pow_add_r 2 (8 * j + 1)) by lia.
    pose proof (Z.pow_pos_nonneg 2 (8 * j + 1)). nia.
Qed.

Lemma twos_complement_round_trip n :
  import_twos_complement (export_twos_complement n) = n <-> ~ sign_bit_multiple n.
Proof.
  destruct (Z.leb_spec 0 n) as [Hn|Hn].
  { rewrite import_export_nonneg by done. split; [|done].
    intros _ (o & j & Hj & Ho & ->). pose proof (Z.pow_pos_nonneg 2 (8 * j - 1)). nia. }
  unfold export_twos_complement. rewrite mpz_sizeinbase_2 by lia.
  destruct (Z.eqb_spec n 0); [lia|]. destruct (Z.ltb_spec n 0); [|lia].
  destruct (negative_bits n Hn) as (Hj & Hb & Ha & Hb0).
  set (b := Z.log2 (Z.abs n)) in *. set (j := (b + 1) / 8) in *.
  destruct (mpz_scan1_spec n) as [Ht [q Hq]]; [lia|].
  replace (8 * (j + 1 - 1) - 1) with (8 * j - 1) by lia. replace (j + 1 - 1) with j by lia.
  destruct (Z.eqb_spec (mpz_scan1 n) (8 * j - 1)) as [Et|Et].
  - rewrite Et in Hq. assert (1 <= j) by lia. pose proof (Z.pow_pos_nonneg 2 (8 * j - 1)) as Hp.
    assert (Hq' : n = - ((2 * (- q - 1) + 1) * 2 ^ (8 * j - 1))) by lia.
    assert (Hub : - q - 1 <= 127).
    { assert (- n < 2 ^ (8 * j - 1) * 2 ^ 8).
      { eapply Z.lt_le_trans; [apply Ha|]. rewrite <- Z.pow_add_r by lia. apply Z.pow_le_mono_r; lia. }
      nia. }
    destruct (decide (q = -1)) as [->|].
    + split; [|intros _; apply import_unsigned; lia].
      intros _ (o & j' & Hj' & Ho & E).
      destruct (odd_part_unique 0 o (8 * j - 1) (8 * j' - 1)); lia.
    + split; [|intros []; exists (- q - 1), j; repeat split; [done|nia|done|done]].
      intros E. exfalso. revert E. apply (import_truncated (- q - 1) j); [done|nia|done].
  - split.
    + intros _ (o & j' & Hj' & Ho & E).
      destruct (sign_bit_multiple_bits o j' n Hj' Ho E) as (_ & E1 & E2). apply Et. unfold j, b. lia.
    + intros _. apply import_unsigned; [lia|]. split; [|lia].
      assert (2 ^ (b + 1) <= 2 ^ (8 * (j + 1) - 1)) by (apply Z.pow_le_mono_r; lia). lia.
Qed.

(** C21: the two's complement encoding of a varint reads back as the varint for every integer
    except the negative odd multiples [-(o * 2^(8j-1))], 3 <= o <= 255, for which it does not. *)
Theorem import_export_twos_complement n :
  import_twos_complement (export_twos_complement n) = n <-> ~ sign_bit_multiple n.
Proof. apply twos_complement_round_trip. Qed.

End TwosComplement.

(** ** Lemmas on decimals *)

Lemma sub_bytes_app a b c : sub_bytes (a ++ b ++ c) (zlen a) (zlen b) = b.
Proof.
  unfold sub_bytes. rewrite drop_zlen. unfold zlen. rewrite Nat2Z.id. apply take_app_length.
Qed.

Lemma sub_bytes_app_end a b : sub_bytes (a ++ b) (zlen a) (zlen b) = b.
Proof. rewrite <- (app_nil_r b) at 1. apply sub_bytes_app. Qed.

Lemma sub_bytes_app_start b c : sub_bytes (b ++ c) 0 (zlen b) = b.
Proof. apply (sub_bytes_app []). Qed.

(** Both sides of a point put after the first [zlen a] digits. *)
Lemma sub_bytes_split m a b :
  sub_bytes (m ++ a ++ b) 0 (zlen m + zlen a) = m ++ a /\
  sub_bytes (m ++ a ++ b) (zlen m + zlen a) (zlen b) = b.
Proof.
  rewrite app_assoc, <- zlen_app. by split; [apply sub_bytes_app_start|apply sub_bytes_app_end].
Qed.

Lemma isdigit_class c :
  isdigit c = true -> (c =? 46) = false /\ (c =? 101) || (c =? 69) = false /\ isxdigit c = true.
Proof. unfold isxdigit, isdigit. lia. Qed.

Lemma scan_digits ds r in_len point dot :
  Forall (fun c => isdigit c = true) ds -> point + zlen ds <= in_len ->
  scan_decimal (ds ++ r) in_len point dot = scan_decimal r in_len (point + zlen ds) dot.
Proof.
  intros H. revert point. induction H as [|c ds Hc _ IH]; intros point Hl.
  - cbn [app]. by rewrite zlen_nil, Z.add_0_r.
  - rewrite zlen_cons in *. pose proof (zlen_nonneg ds).
    cbn [app scan_decimal]. destruct (isdigit_class c Hc) as (-> & -> & ->).
    destruct (Z.ltb_spec point in_len); [|lia]. cbn [negb].
    rewrite IH by lia. f_equal. lia.
Qed.

(** A decimal as the driver writes it: a sign, digits, a fraction and an exponent. *)
Definition frac_bytes (f : option bytes) : bytes := from_option (cons 46) [] f.
Definition exp_bytes (e : option Z) : bytes := from_option show_exponent [] e.

(** The exponent the formatter writes is the one the parser reads. *)
Lemma parse_exponent_spec pre e :
  in_s 63 e ->
  let s := pre ++ show_exponent e in
  parse_exponent s (zlen s) (zlen pre) = inr e.
Proof.
  intros He s. pose proof (show_nat_isdigit (Z.abs e) ltac:(lia)) as Hd.
  pose proof (show_nat_ne_nil 10 (Z.abs e) ltac:(lia) ltac:(lia)) as Hne.
  pose proof (strto_dec10 (e <? 0) (Z.abs e) ltac:(lia)) as Hst.
  set (ds := show_nat 10 (Z.abs e)) in *. set (sg := if e <? 0 then 45 else 43) in *.
  assert (Hl : 0 < zlen ds).
  { destruct ds; [done|]. rewrite zlen_cons. pose proof (zlen_nonneg ds). lia. }
  assert (Hs : zlen s = zlen pre + 2 + zlen ds).
  { unfold s, show_exponent. rewrite zlen_app, !zlen_cons. fold ds. lia. }
  assert (H1 : char_at s (zlen pre + 1) = sg) by (unfold s, show_exponent; by rewrite char_at_app, char_at_1 by lia).
  unfold parse_exponent. rewrite H1.
  assert (Hrest : drop (Z.to_nat (if sg =? 43 then zlen pre + 1 + 1 else zlen pre + 1)) s =
                  minus_bytes (e <? 0) ++ ds /\
                  negb (char_at s (if sg =? 43 then zlen pre + 1 + 1 else zlen pre + 1) =? 45) &&
                  negb (isdigit (char_at s (if sg =? 43 then zlen pre + 1 + 1 else zlen pre + 1))) = false /\
                  (if sg =? 43 then zlen pre + 1 + 1 else zlen pre + 1) + zlen (minus_bytes (e <? 0) ++ ds)
                  = zlen s /\
                  (zlen s <=? if sg =? 43 then zlen pre + 1 + 1 else zlen pre + 1) = false).
  { rewrite zlen_app, Hs. unfold s, show_exponent. fold ds sg. unfold sg.
    destruct (Z.ltb_spec e 0); cbn [minus_bytes Z.eqb Pos.eqb app].
    - replace (pre ++ 69 :: 45 :: ds) with ((pre ++ [69]) ++ 45 :: ds) by by rewrite <- app_assoc.
      replace (zlen pre + 1) with (zlen (pre ++ [69])) by by rewrite zlen_app.
      rewrite drop_zlen, char_at_app0, char_at_0, ?zlen_app, ?zlen_cons, ?zlen_nil. repeat split; lia.
    - replace (pre ++ 69 :: 43 :: ds) with ((pre ++ [69; 43]) ++ ds) by by rewrite <- app_assoc.
      replace (zlen pre + 1 + 1) with (zlen (pre ++ [69; 43])) by (rewrite zlen_app; unfold zlen; cbn; lia).
      rewrite drop_zlen, char_at_app0, ?zlen_app, ?zlen_cons, ?zlen_nil. change (zlen (@nil Z)) with 0. repeat split; try lia.
      destruct ds; [done|]. rewrite char_at_0. apply Forall_cons_1 in Hd as [-> _]. lia. }
  destruct Hrest as (-> & -> & Hend & ->). unfold strtol. rewrite Hst.
  cbn [strto_magnitude strto_neg strto_consumed].
  unfold in_s, INT64_MIN, INT64_MAX in *.
  replace (if e <? 0 then - Z.abs e else Z.abs e) with e by (destruct (Z.ltb_spec e 0); lia).
  destruct (Z.ltb_spec e (- 2 ^ 63)); [lia|]. destruct (Z.ltb_spec (2 ^ 63 - 1) e); [lia|].
  by rewrite Hend, Z.eqb_refl.
Qed.

Section Decimals.
Context `{G : Gmp} `{!GmpLaws G}.

Definition frac_digits (f : option bytes) : bytes := match f with Some f => f | None => [] end.

Definition exp_value (e : option Z) : Z := match e with Some e => e | None => 0 end.

Lemma zlen_minus_bytes neg : zlen (minus_bytes neg) = if neg then 1 else 0.
Proof. by destruct neg. Qed.

(** The scan stops at the exponent or at the end. *)
Lemma scan_exp e in_len point dot :
  scan_decimal (exp_bytes e) in_len point dot = inr (point, dot).
Proof. destruct e; cbn; [by case_match|done]. Qed.

Lemma scan_frac f e in_len point :
  Forall (fun c => isdigit c = true) (frac_digits f) -> point + zlen (frac_bytes f) <= in_len ->
  scan_decimal (frac_bytes f ++ exp_bytes e) in_len point (-1) =
  inr (point + zlen (frac_bytes f), if f is Some _ then point else -1).
Proof.
  intros Hf Hl. destruct f as [f|]; cbn [frac_bytes from_option app] in *.
  - rewrite zlen_cons in *. pose proof (zlen_nonneg f). cbn [scan_decimal].
    destruct (Z.ltb_spec point in_len); [|lia]. rewrite Z.eqb_refl. cbn [Z.eqb negb].
    rewrite scan_digits, scan_exp by (done || lia). do 2 f_equal. lia.
  - rewrite scan_exp. change (zlen (@nil Z)) with 0. do 2 f_equal. lia.
Qed.

(** The first byte of a decimal's digits, and what follows a leading zero. *)
Lemma decimal_hd ip f e :
  Forall (fun c => isdigit c = true) ip ->
  Forall (fun c => isdigit c = true) (frac_digits f) ->
  ip ++ frac_digits f <> [] ->
  (f = None -> forall c l, ip = c :: l -> c <> 48) ->
  let t := ip ++ frac_bytes f ++ exp_bytes e in
  (char_at t 0 =? 43) = false /\ (char_at t 0 =? 45) = false /\
  (char_at t 0 =? 48) && ((char_at t 1 =? 98) || (char_at t 1 =? 120)) = false /\
  (char_at t 0 =? 48) && negb (bool_decide (is_Some f)) = false.
Proof.
  intros Hip Hf Hne Hz t. unfold t.
  destruct ip as [|c ip]; [|apply Forall_cons_1 in Hip as [Hc Hip]].
  { destruct f; [|done]. cbn [frac_bytes from_option app]. by rewrite !char_at_0. }
  cbn [app]. rewrite !char_at_0, char_at_1. destruct (isdigit_not_sign c Hc) as [-> ->].
  destruct (Z.eqb_spec c 48) as [->|]; [|done]. cbn [andb].
  destruct f as [f|]; [|by destruct (Hz eq_refl 48 ip)].
  rewrite bool_decide_eq_true_2 by done. repeat split.
  destruct ip as [|d ip]; [done|]. apply Forall_cons_1 in Hip as [Hd _].
  cbn [app]. rewrite char_at_0. unfold isdigit in Hd. lia.
Qed.

(** The end of the parser: the digits are converted and the exponent read. *)
Lemma decimal_tail neg ds pre e scale :
  Forall (fun c => isdigit c = true) ds -> ds <> [] -> 0 <= scale < 2 ^ 31 -> in_s 63 (exp_value e) ->
  let s := pre ++ exp_bytes e in
  let v := of_digits 10 (map digit_val ds) in
  match mpz_set_str (minus_bytes neg ++ ds) 10 with
  | None => Threw UnableToExtract
  | Some number =>
      if zlen pre <? zlen s then
        match parse_exponent s (zlen s) (zlen pre) with
        | inl e => Threw e
        | inr diff => Parsed (number, wrapS 64 (scale - diff))
        end
      else Parsed (number, scale)
  end = Parsed (if neg then - v else v, scale - exp_value e).
Proof.
  intros Hd Hne Hsc He s v. destruct (mpz_set_str_10 ds Hne Hd) as [Hpos Hneg].
  assert (mpz_set_str (minus_bytes neg ++ ds) 10 = Some (if neg then - v else v)) as ->
    by by destruct neg.
  unfold s. rewrite zlen_app. destruct e as [e|]; cbn [exp_bytes from_option exp_value].
  - rewrite <- zlen_app, parse_exponent_spec by done.
    destruct (Z.ltb_spec (zlen pre) (zlen (pre ++ show_exponent e))) as [|Hge].
    + rewrite wrapS_id; [done|lia|]. unfold in_s in *. cbn [exp_value] in He. lia.
    + rewrite zlen_app in Hge. unfold show_exponent in Hge. rewrite !zlen_cons in Hge.
      pose proof (zlen_nonneg (show_nat 10 (Z.abs e))). lia.
  - change (zlen (@nil Z)) with 0. destruct (Z.ltb_spec (zlen pre) (zlen pre + 0)); [lia|].
    by rewrite Z.sub_0_r.
Qed.

(** What the parser makes of a decimal in the formatter's shape. *)
Lemma parse_decimal_spec neg ip f e :
  Forall (fun c => isdigit c = true) ip ->
  Forall (fun c => isdigit c = true) (frac_digits f) ->
  ip ++ frac_digits f <> [] ->
  (f = None -> forall c l, ip = c :: l -> c <> 48) ->
  in_s 63 (exp_value e) ->
  let s := minus_bytes neg ++ ip ++ frac_bytes f ++ exp_bytes e in
  zlen s < 2 ^ 31 ->
  let v := of_digits 10 (map digit_val (ip ++ frac_digits f)) in
  php_scylladb_parse_decimal s = Parsed (if neg then - v else v, zlen (frac_digits f) - exp_value e).
Proof.
  intros Hip Hf Hne Hz He s Hlen v.
  destruct (decimal_hd ip f e Hip Hf Hne Hz) as (H43 & H45 & Hpre & Hoct).
  set (t := ip ++ frac_bytes f ++ exp_bytes e) in *.
  assert (Hi : int_len s = zlen s).
  { apply wrapS_id; [done|]. unfold in_s. pose proof (zlen_nonneg s). lia. }
  assert (Hsign : (char_at s 0 =? 45) = neg /\
                  (if (char_at s 0 =? 43) || neg then 1 else 0) = zlen (minus_bytes neg)).
  { unfold s. destruct neg; cbn [minus_bytes app]; [done|]. by rewrite H45, H43. }
  destruct Hsign as [Hneg Hstart].
  assert (Hc0 : char_at s (zlen (minus_bytes neg)) = char_at t 0) by (unfold s; apply char_at_app0).
  assert (Hc1 : char_at s (zlen (minus_bytes neg) + 1) = char_at t 1) by (unfold s; by apply char_at_app).
  unfold php_scylladb_parse_decimal. rewrite Hi, Hneg, Hstart, Hc0, Hc1, Hpre.
  unfold s at 1. rewrite drop_zlen. unfold t at 1.
  assert (Hzs : zlen s = zlen (minus_bytes neg) + zlen ip + zlen (frac_bytes f) + zlen (exp_bytes e)).
  { unfold s, t. rewrite !zlen_app. lia. }
  pose proof (zlen_nonneg (exp_bytes e)). pose proof (zlen_nonneg (frac_bytes f)).
  rewrite scan_digits, scan_frac by (done || lia).
  set (m := zlen (minus_bytes neg)) in *. assert (Hm : 0 <= m) by apply zlen_nonneg.
  pose proof (zlen_nonneg ip) as Hzi.
  assert (Hout : 0 < zlen (ip ++ frac_digits f)).
  { destruct (ip ++ frac_digits f) as [|x l]; [done|]. rewrite zlen_cons. pose proof (zlen_nonneg l). lia. }
  rewrite zlen_app in Hout.
  destruct f as [f|]; cbn [frac_bytes frac_digits from_option] in *.
  - rewrite zlen_cons in *. fold (minus_bytes neg). fold m.
    replace (m + zlen ip =? -1) with false by lia. rewrite andb_false_r. cbn [negb].
    replace (_ - 1 =? 0) with false by lia.
    replace (m + zlen ip - m) with (zlen ip) by lia.
    replace (m + zlen ip + (1 + zlen f) - (m + zlen ip) - 1) with (zlen f) by lia.
    replace (m + zlen ip + (1 + zlen f) - 1 - (m + zlen ip)) with (zlen f) by lia.
    replace (m + zlen ip + (1 + zlen f)) with (zlen (minus_bytes neg ++ ip ++ 46 :: f))
      by (rewrite !zlen_app, zlen_cons; fold m; lia).
    assert (sub_bytes s m (zlen ip) = ip) as -> by apply sub_bytes_app.
    assert (sub_bytes s (m + zlen ip + 1) (zlen f) = f) as ->.
    { replace s with ((minus_bytes neg ++ ip ++ [46]) ++ f ++ exp_bytes e)
        by (unfold s, t; by rewrite <- !app_assoc).
      replace (m + zlen ip + 1) with (zlen (minus_bytes neg ++ ip ++ [46]))
        by (rewrite !zlen_app, zlen_cons; fold m; change (zlen (@nil Z)) with 0; lia).
      apply sub_bytes_app. }
    replace s with ((minus_bytes neg ++ ip ++ 46 :: f) ++ exp_bytes e)
      by (unfold s, t; by rewrite <- !app_assoc).
    apply decimal_tail; [by apply Forall_app|by destruct ip|pose proof (zlen_nonneg f); lia|done].
  - change (zlen (@nil Z)) with 0 in *. rewrite Z.add_0_r, Z.eqb_refl, andb_true_r.
    rewrite andb_true_r in Hoct. rewrite Hoct. cbn [negb]. fold (minus_bytes neg). fold m.
    replace (_ - 0 =? 0) with false by lia.
    replace (m + zlen ip - m) with (zlen ip) by lia.
    replace (m + zlen ip) with (zlen (minus_bytes neg ++ ip)) by by rewrite zlen_app.
    assert (sub_bytes s m (zlen ip) = ip) as -> by apply sub_bytes_app.
    replace s with ((minus_bytes neg ++ ip) ++ exp_bytes e) by (unfold s, t; by rewrite <- !app_assoc).
    rewrite app_nil_r in Hne. unfold v. rewrite app_nil_r. by apply decimal_tail.
Qed.

(** The digits of a number and where the formatter puts the point. *)
Lemma show_dec_split n : show_dec n = minus_bytes (n <? 0) ++ show_nat 10 (Z.abs n).
Proof.
  unfold show_dec. destruct (Z.ltb_spec n 0); cbn [minus_bytes app]; repeat f_equal; lia.
Qed.

(** [printed n scale s]: [s] is a decimal in the shape of [parse_decimal_spec] with the value
    [n] and the scale [scale]. *)
Definition printed (n scale : Z) (s : bytes) : Prop :=
  let ds := show_nat 10 (Z.abs n) in
  exists ip f e,
    s = minus_bytes (n <? 0) ++ ip ++ frac_bytes f ++ exp_bytes e /\
    of_digits 10 (map digit_val (ip ++ frac_digits f)) = Z.abs n /\
    Forall (fun c => isdigit c = true) (ip ++ frac_digits f) /\ ip <> [] /\
    zlen (frac_digits f) - exp_value e = scale /\
    (f = None -> ip = ds /\ (scale = 0 \/ (0 <? scale) && (-6 <=? zlen ds - scale - 1) = false)).

Lemma show_nat_facts n :
  let ds := show_nat 10 (Z.abs n) in
  Forall (fun c => isdigit c = true) ds /\ of_digits 10 (map digit_val ds) = Z.abs n /\
  ds <> [] /\ 1 <= zlen ds.
Proof.
  intros ds. assert (Hne : ds <> []) by (apply show_nat_ne_nil; lia).
  split_and!; [apply show_nat_isdigit; lia|apply show_nat_value; lia|done|].
  destruct ds as [|c l]; [done|]. rewrite zlen_cons. pose proof (zlen_nonneg l). lia.
Qed.

(** The point after the first [k] digits, with or without an exponent. *)
Lemma printed_split n scale k e :
  let m := minus_bytes (n <? 0) in let ds := show_nat 10 (Z.abs n) in
  1 <= k <= zlen ds -> zlen ds - k - exp_value e = scale ->
  printed n scale (sub_bytes (m ++ ds) 0 (zlen m + k) ++ [46] ++
                   sub_bytes (m ++ ds) (zlen m + k) (zlen ds - k) ++ exp_bytes e).
Proof.
  intros m ds Hk Hs. destruct (show_nat_facts n) as (Hd & Hv & Hne & Hl). fold ds in Hd, Hv.
  destruct (split_at ds k) as (a & b & E & Ha & Hb); [lia|]. exists a, (Some b), e.
  destruct (sub_bytes_split m a b) as [Hsa Hsb].
  cbn [frac_bytes frac_digits from_option]. rewrite <- E in Hsa, Hsb |- *. rewrite <- Hb, <- Ha, Hsa, Hsb.
  rewrite <- app_assoc. split_and!; [done|done|done| |lia|done].
  intros ->. change (zlen (@nil Z)) with 0 in Ha. lia.
Qed.

(** The formatter's output. *)
Lemma format_decimal_shape n scale : printed n scale (php_scylladb_format_decimal n scale).
Proof.
  destruct (show_nat_facts n) as (Hd & Hv & Hne & Hl).
  unfold php_scylladb_format_decimal, php_scylladb_format_integer.
  rewrite mpz_get_str_10, show_dec_split, zlen_app.
  replace (if n <? 0 then 1 else 0) with (zlen (minus_bytes (n <? 0))) by apply zlen_minus_bytes.
  set (m := minus_bytes (n <? 0)) in *. set (ds := show_nat 10 (Z.abs n)) in *.
  replace (zlen m + zlen ds - zlen m) with (zlen ds) by lia.
  destruct (Z.eqb_spec scale 0) as [->|Hs0].
  { exists ds, None, None. cbn. rewrite !app_nil_r. split_and!; auto. }
  destruct ((0 <? scale) && (-6 <=? zlen ds - scale - 1)) eqn:Hplain;
    [destruct (Z.leb_spec (zlen ds - scale) 0)|destruct (Z.eqb_spec (zlen ds) 1)].
  - exists [48], (Some (repeat 48 (Z.to_nat (- (zlen ds - scale))) ++ ds)), None.
    cbn [frac_bytes frac_digits exp_bytes exp_value from_option].
    rewrite sub_bytes_app_start, sub_bytes_app_end, app_nil_r, !map_app, map_repeat. split; [done|].
    change (map digit_val [48]) with (repeat 0 1). change (digit_val 48) with 0.
    rewrite !of_digits_app, !of_digits_zeros, Hv. split_and!; [lia| |done| |done].
    + constructor; [done|]. apply Forall_app. split; [|done]. apply Forall_forall.
      by intros x ->%repeat_spec.
    + rewrite zlen_app, zlen_repeat. lia.
  - pose proof (printed_split n scale (zlen ds - scale) None) as Hp. cbn [exp_bytes from_option] in Hp.
    rewrite app_nil_r in Hp. fold m ds in Hp. rewrite (Z.add_comm (zlen ds - scale)).
    replace (zlen m + zlen ds - (zlen m + (zlen ds - scale))) with (zlen ds - (zlen ds - scale)) by lia.
    apply Hp; [lia|cbn; lia].
  - exists ds, None, (Some (zlen ds - scale - 1)). cbn [frac_bytes frac_digits exp_bytes exp_value from_option app].
    rewrite !app_nil_r. replace (1 + zlen m) with (zlen (m ++ ds)) by (rewrite zlen_app; lia).
    rewrite <- (app_nil_r (m ++ ds)) at 1. rewrite sub_bytes_app_start, <- app_assoc.
    split_and!; auto. change (zlen (@nil Z)) with 0. lia.
  - replace (if zlen m =? 1 then 2 else 1) with (zlen m + 1)
      by (unfold m; rewrite zlen_minus_bytes; by destruct (n <? 0)).
    apply (printed_split n scale 1 (Some (zlen ds - scale - 1))); [fold ds; lia|cbn [exp_value]; fold ds; lia].
Qed.

(** Zero in scientific notation: the leading zero sends the string to the octal parser. *)
Lemma parse_zero_exponent e :
  zlen (48 :: show_exponent e) < 2 ^ 31 ->
  php_scylladb_parse_decimal (48 :: show_exponent e) = Threw InvalidInteger.
Proof.
  intros Hlen. set (s := 48 :: show_exponent e) in *.
  assert (Hx : Exists (fun c => isspace c = false /\ digit_val c >= 8) (show_exponent e)).
  { constructor. split; [done|]. by cbn. }
  assert (Hnn : Forall (fun c => c <> 0) (show_exponent e)).
  { repeat (apply Forall_cons; [by try destruct (e <? 0)|]). apply show_nat_no_nul; lia. }
  assert (Hi : int_len s = zlen s).
  { apply wrapS_id; [done|]. unfold in_s. pose proof (zlen_nonneg s). lia. }
  assert (Hv : php_scylladb_parse_varint s = Threw InvalidInteger).
  { unfold php_scylladb_parse_varint. pose proof (prepare_spec [] None 48 (show_exponent e)) as Hp.
    cbn [sign_bytes app] in Hp. fold s in Hp. rewrite Hp by done. clear Hp.
    change (bool_decide _ && _ && _) with false. change (zlen (@nil Z)) with 0. cbn [cv_ok cv_pos cv_base cv_negative].
    change (drop (Z.to_nat (0 + 0 + 0)) s) with (48 :: show_exponent e).
    rewrite mpz_set_str_0_octal_invalid; [by case_match|done|].
    unfold show_exponent. intros x r Hr. by inversion Hr. }
  unfold php_scylladb_parse_decimal. rewrite Hi. change (char_at s 0) with 48.
  cbn [Z.eqb Pos.eqb orb]. change (char_at s (0 + 1)) with 69. change (char_at s 0) with 48.
  cbn [Z.eqb Pos.eqb orb andb]. change (drop (Z.to_nat 0) s) with ([48] ++ exp_bytes (Some e)).
  rewrite scan_digits; [|by repeat constructor|unfold s; rewrite !zlen_cons; pose proof (zlen_nonneg (show_exponent e)); change (zlen (@nil Z)) with 0; lia].
  rewrite scan_exp, Hv. done.
Qed.

(** A decimal printed by [php_scylladb_format_decimal] parses back to the same unscaled value
    and scale, except zero in scientific notation, which the octal rule of the parser rejects. *)
Theorem parse_format_decimal n scale :
  in_s 32 scale -> zlen (php_scylladb_format_decimal n scale) < 2 ^ 31 ->
  php_scylladb_parse_decimal (php_scylladb_format_decimal n scale) =
    if (n =? 0) && negb ((0 <=? scale) && (scale <=? 6)) then Threw InvalidInteger
    else Parsed (n, scale).
Proof.
  intros Hsc Hlen. destruct ((n =? 0) && negb _) eqn:Hbad.
  { apply andb_true_iff in Hbad as [->%Z.eqb_eq Hs].
    assert (E : php_scylladb_format_decimal 0 scale = 48 :: show_exponent (1 - scale - 1)).
    { unfold php_scylladb_format_decimal. rewrite mpz_get_str_10.
      destruct (Z.eqb_spec scale 0); [lia|]. change (zlen (show_dec 0) - (if 0 <? 0 then 1 else 0)) with 1.
      by destruct (Z.ltb_spec 0 scale), (Z.leb_spec (-6) (1 - scale - 1)); try lia. }
    rewrite E in *. by apply parse_zero_exponent. }
  destruct (decide (n = 0 /\ scale = 0)) as [[-> ->]|Hnz].
  { unfold php_scylladb_format_decimal, php_scylladb_format_integer. rewrite mpz_get_str_10.
    transitivity (with_scale_0 (match mpz_set_str [48] 0 with
                                | None => Threw InvalidInteger | Some z => Parsed z end)); [done|].
    by rewrite mpz_set_str_0_zero. }
  destruct (format_decimal_shape n scale) as (ip & f & e & E & Hv & Hd & Hne & Hs & Hf).
  rewrite E in *. apply Forall_app in Hd as [Hd1 Hd2].
  rewrite (parse_decimal_spec (n <? 0) ip f e); try done.
  - rewrite Hv, Hs. do 2 f_equal. destruct (Z.ltb_spec n 0); lia.
  - by destruct ip.
  - intros -> c l ->. destruct (Hf eq_refl) as [Hds Hp]. destruct (decide (n = 0)) as [->|].
    + change (zlen (show_nat 10 (Z.abs 0))) with 1 in Hp. lia.
    + destruct (show_nat_hd 10 (Z.abs n)) as (c' & l' & E' & _ & Hc); [lia..|]. congruence.
  - rewrite !zlen_app in Hlen. unfold in_s in *.
    assert (zlen (frac_digits f) <= zlen (frac_bytes f)).
    { destruct f; cbn; rewrite ?zlen_cons; lia. }
    pose proof (zlen_nonneg (minus_bytes (n <? 0))). pose proof (zlen_nonneg ip).
    pose proof (zlen_nonneg (frac_digits f)). pose proof (zlen_nonneg (exp_bytes e)). lia.
Qed.

End Decimals.

(** ** A GMP implementation, and witnesses *)

Module GmpModel.

Definition set_str (s : bytes) (base : Z) : option Z :=
  let '(_, s1) := span isspace s in
  let '(neg, s2) := match s1 with
                    | c :: r => if c =? 45 then (true, r) else (false, s1)
                    | [] => (false, s1)
                    end in
  let '(b, s3) := strto_prefix base s2 in
  let ds := List.filter (fun c => negb (isspace c)) s3 in
  if bool_decide (ds = []) then None
  else if forallb (fun c => digit_val c <? b) ds
  then Some (let v := of_digits b (map digit_val ds) in if neg then - v else v)
  else None.

(** The number of trailing zero bits. *)
Fixpoint pos_scan1 (p : positive) : Z :=
  match p with xO q => 1 + pos_scan1 q | _ => 0 end.

Definition scan1 (n : Z) : Z := match n with Z0 => 0 | Zpos p | Zneg p => pos_scan1 p end.

#[export] Instance gmp : Gmp := {|
  mpz_set_str := set_str;
  mpz_get_str b n := if n <? 0 then 45 :: show_nat b (- n) else show_nat b n;
  mpz_sizeinbase n b := zlen (show_nat b (Z.abs n));
  mpz_scan1 := scan1;
  mpz_export n := to_digits 256 (Z.abs n);
  mpz_import := of_digits 256
|}.

Lemma filter_digits ds :
  Forall (fun c => isdigit c = true) ds -> List.filter (fun c => negb (isspace c)) ds = ds.
Proof. induction 1; cbn; [done|]. rewrite isdigit_not_space by done. cbn. by f_equal. Qed.

Lemma forallb_digits b ds :
  10 <= b -> Forall (fun c => isdigit c = true) ds -> forallb (fun c => digit_val c <? b) ds = true.
Proof.
  intros Hb H. apply forallb_forall. intros c Hc.
  rewrite Forall_forall in H. pose proof (digit_val_isdigit c (H c Hc)). lia.
Qed.

Lemma pos_scan1_spec p : 0 <= pos_scan1 p /\ exists q, Zpos p = (2 * q + 1) * 2 ^ pos_scan1 p.
Proof.
  induction p as [p _|p [IH [q Hq]]|]; cbn [pos_scan1].
  - split; [done|]. exists (Zpos p). lia.
  - split; [lia|]. exists q. rewrite Pos2Z.inj_xO, Hq, Z.pow_add_r by lia. lia.
  - split; [done|]. by exists 0.
Qed.

Lemma digits_2_length n : 0 < n -> zlen (to_digits 2 n) = Z.log2 n + 1.
Proof. intros. apply to_digits_length; [lia|apply Z.log2_nonneg|by apply Z.log2_spec]. Qed.

Lemma set_str_digits b c ds :
  10 <= b -> Forall (fun c => isdigit c = true) (c :: ds) -> strto_prefix b (c :: ds) = (b, c :: ds) ->
  set_str (c :: ds) b = Some (of_digits b (map digit_val (c :: ds))) /\
  set_str (45 :: c :: ds) b = Some (- of_digits b (map digit_val (c :: ds))).
Proof.
  intros Hb Hd Hp. pose proof (Forall_cons_1 _ _ _ Hd) as [Hc _]. unfold set_str.
  rewrite (span_stops isspace (c :: ds)) by by apply isdigit_not_space.
  rewrite (span_stops isspace (45 :: c :: ds)) by done.
  destruct (isdigit_not_sign c Hc) as [_ ->]. rewrite Z.eqb_refl, Hp, filter_digits by done.
  by rewrite forallb_digits by done.
Qed.

#[export] Instance gmp_laws : GmpLaws gmp.
Proof.
  constructor.
  - done.
  - intros [|c ds] Hne Hd; [done|]. apply set_str_digits; [lia|done|].
    destruct (Z.eqb_spec c 48) as [->|]; [|by apply strto_prefix_nonzero].
    cbn. by destruct ds as [|? [|? ?]].
  - intros c ds Hc Hd. cbn [mpz_set_str gmp]. unfold set_str.
    pose proof (Forall_cons_1 _ _ _ Hd) as [Hc' _].
    rewrite span_stops by by apply isdigit_not_space. destruct (isdigit_not_sign c Hc') as [_ ->].
    rewrite strto_prefix_nonzero by done. cbn [Z.eqb]. rewrite filter_digits by done.
    by rewrite forallb_digits by done.
  - done.
  - intros ds Hx Hnp. cbn [mpz_set_str gmp]. unfold set_str. rewrite span_stops by done.
    assert (strto_prefix 0 (48 :: ds) = (8, 48 :: ds)) as Hpre.
    { destruct ds as [|x [|d r]]; [done..|]. destruct (Hnp x _ eq_refl). cbn.
      by destruct (Z.eqb_spec (tolower x) 120), (Z.eqb_spec (tolower x) 98). }
    cbn [Z.eqb Pos.eqb]. rewrite Hpre. cbn [List.filter isspace Z.eqb Pos.eqb orb negb].
    destruct (forallb _ _) eqn:Hall; [|by case_bool_decide].
    rewrite forallb_forall in Hall. apply Exists_exists in Hx as (c & Hin & Hsp & Hv).
    exfalso. specialize (Hall c). destruct (Z.ltb_spec (digit_val c) 8); [lia|].
    discriminate Hall. cbn. right. apply filter_In. by rewrite Hsp.
  - intros n Hn. cbn [mpz_sizeinbase gmp]. unfold show_nat. destruct (Z.eqb_spec (Z.abs n) 0); [lia|].
    unfold zlen. rewrite length_map. apply digits_2_length. lia.
  - intros [|p|p] Hn; [done| |]; cbn [mpz_scan1 gmp scan1]; destruct (pos_scan1_spec p) as [Hp [q Hq]];
      (split; [done|]); [by exists q|]. exists (- q - 1). rewrite <- Pos2Z.opp_pos, Hq. lia.
  - done.
  - done.
Qed.

End GmpModel.

Import GmpModel.

Lemma parse_bigint_literal_witness :
  php_scylladb_parse_bigint ([32] ++ sign_bytes (Some true) ++ literal Hex (2 ^ 63)) = Parsed (- 2 ^ 63) /\
  php_scylladb_parse_bigint ([32] ++ sign_bytes None ++ literal Dec (2 ^ 63)) = Threw BigintRange.
Proof.
  split.
  - rewrite (parse_bigint_literal [32] (Some true) Hex (2 ^ 63)); [reflexivity|by repeat constructor|lia|reflexivity].
  - rewrite (parse_bigint_literal [32] None Dec (2 ^ 63)); [reflexivity|by repeat constructor|lia|reflexivity].
Defined.

Lemma parse_int_literal_witness :
  php_scylladb_parse_int ([] ++ sign_bytes None ++ literal Dec (2 ^ 32 + 5)) = Parsed 5.
Proof.
  rewrite (parse_int_literal [] None Dec (2 ^ 32 + 5)); [reflexivity|constructor|lia|reflexivity].
Defined.

Lemma parse_format_decimal_witness :
  php_scylladb_parse_decimal (php_scylladb_format_decimal (-1234) 12) = Parsed (-1234, 12) /\
  php_scylladb_parse_decimal (php_scylladb_format_decimal 0 (-2)) = Threw InvalidInteger.
Proof.
  split.
  - rewrite (parse_format_decimal (-1234) 12); [reflexivity|unfold in_s; lia|reflexivity].
  - rewrite (parse_format_decimal 0 (-2)); [reflexivity|unfold in_s; lia|reflexivity].
Defined.

Lemma import_export_twos_complement_witness :
  import_twos_complement (export_twos_complement (-384)) <> -384 /\
  import_twos_complement (export_twos_complement (-129)) = -129.
Proof.
  split.
  - intros H. apply (proj1 (import_export_twos_complement (-384)) H). exists 1, 1. lia.
  - apply (import_export_twos_complement (-129)). intros (o & j & Hj & Ho & E).
    pose proof (Z.pow_le_mono_r 2 7 (8 * j - 1)). lia.
Defined.
