(* ===== verification/Numeric.v ===== *)
(** The integer classes of the extension: [Tinyint] (src/Numbers/Tinyint.c), [Smallint]
    (src/Numbers/Smallint.c), [Bigint] (src/Numbers/Bigint.c) and [Varint] (src/Numbers/Varint.c).

    A method returns a value or throws; [Undefined] is a signed overflow of C or a conversion of
    a double that its integer type cannot hold.  The small integers are computed at [int] width
    and stored at theirs, as C promotes them.  A finite double is [m * 2^e]. *)
From S2P Require Import Prelude CLib NumberParser.

(** ** PHP values *)

Inductive double := Finite (m e : Z) | Infinite (positive : bool) | NaN.

Inductive zval :=
| IsLong (z : Z)
| IsDouble (d : double)
| IsString (s : bytes)
| IsTinyint (v : Z)
| IsSmallint (v : Z)
| IsBigint (v : Z)
| IsVarint (v : Z)
| IsOther.

(** The exceptions the classes throw. *)
Inductive exception := RangeException | DivideByZeroException | InvalidArgumentException (e : option parse_error).

Inductive result :=
| Value (v : Z)
| Throws (e : exception)
| Undefined.

(** The integer part of a double, as a conversion to an integer type takes it. *)
Definition trunc (d : double) : option Z :=
  match d with
  | Finite m e => Some (if 0 <=? e then m * 2 ^ e else Z.quot m (2 ^ (- e)))
  | _ => None
  end.

(** [(cass_int32_t)d], undefined when the integer part does not fit. *)
Definition to_int32 (d : double) : option Z :=
  match trunc d with
  | Some z => if (INT_MIN <=? z) && (z <=? INT_MAX) then Some z else None
  | None => None
  end.

(** ** Tinyint and Smallint *)

Section Small.
(** The width of the class: 8 or 16. *)
Context (w : Z).

Definition min_w : Z := - 2 ^ (w - 1).
Definition max_w : Z := 2 ^ (w - 1) - 1.

(** [php_scylladb_{tiny,small}int_init]; [self] picks the value out of an object of the class. *)
Definition small_init (self : zval -> option Z) (value : zval) : result :=
  let checked number := if (number <? min_w) || (max_w <? number) then Throws RangeException
                        else Value (wrapS w number) in
  match self value with
  | Some v => Value v
  | None =>
      match value with
      | IsLong v => checked (wrapS 32 v)
      | IsDouble d => match to_int32 d with Some number => checked number | None => Undefined end
      | IsString s =>
          match php_scylladb_parse_int s with
          | SilentRange => Throws RangeException
          | Threw e => Throws (InvalidArgumentException (Some e))
          | Parsed number => checked number
          end
      | _ => Throws (InvalidArgumentException None)
      end
  end.

Definition small_add (a b : Z) : result :=
  let r := wrapS w (a + b) in
  if negb (r - b =? a) then Throws RangeException else Value r.

Definition small_sub (a b : Z) : result :=
  let r := wrapS w (a - b) in
  if negb (r + b =? a) then Throws RangeException else Value r.

Definition small_mul (a b : Z) : result :=
  let r := wrapS w (a * b) in
  if negb (b =? 0) && negb (Z.quot r b =? a) then Throws RangeException else Value r.

Definition small_div (a b : Z) : result :=
  if b =? 0 then Throws DivideByZeroException else Value (wrapS w (Z.quot a b)).

Definition small_mod (a b : Z) : result :=
  if b =? 0 then Throws DivideByZeroException else Value (wrapS w (Z.rem a b)).

Definition small_abs (a : Z) : result :=
  if a =? min_w then Throws RangeException
  else Value (if a <? 0 then wrapS w (- a) else a).

Definition small_neg (a : Z) : result :=
  if a =? min_w then Throws RangeException else Value (wrapS w (- a)).

(** [sqrtl]: the square root of [n], rounded to the 64 bits of a long double's significand (the
    nearest of the two neighbours; a root is never halfway), as a multiple of [2^-p]. *)
Definition sqrtl_scale (n : Z) : Z := 63 - Z.log2 (Z.sqrt n).

Definition sqrtl (n : Z) : Z :=
  let p := sqrtl_scale n in
  let f := Z.sqrt (n * 2 ^ (2 * p)) in
  if f * f + f <? n * 2 ^ (2 * p) then f + 1 else f.

(** The integer part of the root. *)
Definition sqrtl_trunc (n : Z) : Z := sqrtl n / 2 ^ sqrtl_scale n.

Definition small_sqrt (a : Z) : result :=
  if a <? 0 then Throws RangeException else Value (wrapS w (sqrtl_trunc a)).

Definition small_compare (a b : Z) : Z := if a =? b then 0 else if a <? b then -1 else 1.

Definition small_hash_value (a : Z) : Z := wrapU 32 (31 * 17 + a).

Definition small_to_string (a : Z) : bytes := show_dec a.

End Small.

(** The methods of the two classes. *)
Definition tinyint_self (z : zval) : option Z := match z with IsTinyint v => Some v | _ => None end.
Definition php_scylladb_tinyint_init : zval -> result := small_init 8 tinyint_self.
Definition Tinyint_add := small_add 8.
Definition Tinyint_sub := small_sub 8.
Definition Tinyint_mul := small_mul 8.
Definition Tinyint_div := small_div 8.
Definition Tinyint_mod := small_mod 8.
Definition Tinyint_abs := small_abs 8.
Definition Tinyint_neg := small_neg 8.
Definition Tinyint_sqrt := small_sqrt 8.
Definition php_scylladb_tinyint_compare := small_compare.
Definition php_scylladb_tinyint_hash_value := small_hash_value.

Definition smallint_self (z : zval) : option Z := match z with IsSmallint v => Some v | _ => None end.
Definition php_scylladb_smallint_init : zval -> result := small_init 16 smallint_self.
Definition Smallint_add := small_add 16.
Definition Smallint_sub := small_sub 16.
Definition Smallint_mul := small_mul 16.
Definition Smallint_div := small_div 16.
Definition Smallint_mod := small_mod 16.
Definition Smallint_abs := small_abs 16.
Definition Smallint_neg := small_neg 16.
Definition Smallint_sqrt := small_sqrt 16.
Definition php_scylladb_smallint_compare := small_compare.
Definition php_scylladb_smallint_hash_value := small_hash_value.

(** ** Bigint *)

(** A signed 64-bit result, undefined when it overflows. *)
Definition int64 (z : Z) : result := if (INT64_MIN <=? z) && (z <=? INT64_MAX) then Value z else Undefined.

(** Comparison of a double with an integer; a NaN is neither above nor below. *)
Definition double_gt (d : double) (z : Z) : bool :=
  match d with
  | Finite m e => if 0 <=? e then z <? m * 2 ^ e else z * 2 ^ (- e) <? m
  | Infinite positive => positive
  | NaN => false
  end.

Definition double_lt (d : double) (z : Z) : bool :=
  match d with
  | Finite m e => if 0 <=? e then m * 2 ^ e <? z else m <? z * 2 ^ (- e)
  | Infinite positive => negb positive
  | NaN => false
  end.

(** [zend_dval_to_lval] is PHP's conversion of a double; [(double)INT64_MAX] is 2^63. *)
Definition php_scylladb_bigint_init (zend_dval_to_lval : double -> Z) (value : zval) : result :=
  match value with
  | IsLong v => Value v
  | IsDouble d =>
      if double_gt d (2 ^ 63) || double_lt d INT64_MIN then Throws RangeException
      else Value (zend_dval_to_lval d)
  | IsString s =>
      match php_scylladb_parse_bigint s with
      | Parsed v => Value v
      | Threw BigintRange => Throws RangeException
      | Threw e => Throws (InvalidArgumentException (Some e))
      | SilentRange => Throws RangeException
      end
  | IsBigint v => Value v
  | _ => Throws (InvalidArgumentException None)
  end.

Definition Bigint_add (a b : Z) : result := int64 (a + b).
Definition Bigint_sub (a b : Z) : result := int64 (a - b).
Definition Bigint_mul (a b : Z) : result := int64 (a * b).
Definition Bigint_div (a b : Z) : result := if b =? 0 then Throws DivideByZeroException else int64 (Z.quot a b).

(** The remainder of INT64_MIN and -1 is undefined with the quotient. *)
Definition Bigint_mod (a b : Z) : result :=
  if b =? 0 then Throws DivideByZeroException
  else match int64 (Z.quot a b) with Undefined => Undefined | _ => Value (Z.rem a b) end.

Definition Bigint_abs (a : Z) : result :=
  if a =? INT64_MIN then Throws RangeException else if a <? 0 then int64 (- a) else Value a.
Definition Bigint_neg (a : Z) : result := int64 (- a).
Definition Bigint_sqrt (a : Z) : result := if a <? 0 then Throws RangeException else int64 (sqrtl_trunc a).
Definition php_scylladb_bigint_compare (a b : Z) : Z := if a =? b then 0 else if a <? b then -1 else 1.
Definition php_scylladb_bigint_hash_value (a : Z) : Z := wrapU 32 (Z.lxor a (Z.shiftr a 32)).
Definition Bigint_to_string (a : Z) : bytes := show_dec a.

(** ** Varint *)

(** The GMP functions on the values of varints. *)
Class GmpArith := {
  mpz_set_d : double -> Z;
  mpz_add : Z -> Z -> Z;
  mpz_sub : Z -> Z -> Z;
  mpz_mul : Z -> Z -> Z;
  mpz_div : Z -> Z -> Z;
  mpz_mod : Z -> Z -> Z;
  mpz_abs : Z -> Z;
  mpz_neg : Z -> Z;
  mpz_sqrt : Z -> Z
}.

(** What GMP documents: [mpz_div] rounds down, [mpz_mod] is never negative whatever the sign of
    the divisor, [mpz_sqrt] is the integer part of the root. *)
Class GmpArithLaws (A : GmpArith) : Prop := {
  mpz_add_spec a b : mpz_add a b = a + b;
  mpz_sub_spec a b : mpz_sub a b = a - b;
  mpz_mul_spec a b : mpz_mul a b = a * b;
  mpz_div_spec a b : b <> 0 -> mpz_div a b = a / b;
  mpz_mod_spec a b : b <> 0 -> mpz_mod a b = a mod (Z.abs b);
  mpz_abs_spec a : mpz_abs a = Z.abs a;
  mpz_neg_spec a : mpz_neg a = - a;
  mpz_sqrt_spec a : 0 <= a -> mpz_sqrt a = Z.sqrt a
}.

Section Varint.
Context `{G : Gmp} `{A : GmpArith}.

(** A varint whose string does not parse keeps the value it had, 0, under the exception. *)
Definition php_scylladb_varint_init (num : zval) : result :=
  match num with
  | IsLong v => Value v
  | IsDouble d => Value (mpz_set_d d)
  | IsString s =>
      match php_scylladb_parse_varint s with
      | Parsed v => Value v
      | Threw e => Throws (InvalidArgumentException (Some e))
      | SilentRange => Throws RangeException
      end
  | IsVarint v => Value v
  | _ => Throws (InvalidArgumentException None)
  end.

Definition Varint_add (a b : Z) : result := Value (mpz_add a b).
Definition Varint_sub (a b : Z) : result := Value (mpz_sub a b).
Definition Varint_mul (a b : Z) : result := Value (mpz_mul a b).
Definition Varint_div (a b : Z) : result := if b =? 0 then Throws DivideByZeroException else Value (mpz_div a b).
Definition Varint_mod (a b : Z) : result := if b =? 0 then Throws DivideByZeroException else Value (mpz_mod a b).
Definition Varint_abs (a : Z) : result := Value (mpz_abs a).
Definition Varint_neg (a : Z) : result := Value (mpz_neg a).
Definition Varint_sqrt (a : Z) : result := if a <? 0 then Throws RangeException else Value (mpz_sqrt a).

(** [to_long] *)
Definition Varint_to_long (a : Z) : result :=
  if a <? INT64_MIN then Throws RangeException
  else if INT64_MAX <? a then Throws RangeException
  else Value a.

End Varint.

(** ** Small integers *)

(** A wrapped result differs from the exact one by a multiple of the range. *)
Lemma wrapS_out w z : 0 < w -> ~ in_s w z -> 2 ^ w <= Z.abs (wrapS w z - z).
Proof.
  intros Hw Hz. pose proof (pow2_half w Hw) as Hh. pose proof (wrapS_range w z Hw) as Hr.
  unfold wrapS, in_s in *. set (m := 2 ^ w) in *. assert (Hm : 0 < m) by (unfold m; lia).
  pose proof (Z.div_mod (z + 2 ^ (w - 1)) m ltac:(lia)) as E.
  set (k := (z + 2 ^ (w - 1)) / m) in *.
  assert (Ek : (z + 2 ^ (w - 1)) mod m - 2 ^ (w - 1) - z = - (k * m)) by lia.
  rewrite Ek, Z.abs_opp, Z.abs_mul, (Z.abs_eq m) by lia.
  assert (k <> 0) by (intros E0; rewrite E0 in *; lia). nia.
Qed.

Lemma wrapS_exact w z : 0 < w -> (wrapS w z = z <-> in_s w z).
Proof. intros Hw. split; [intros <-; by apply wrapS_range|by apply wrapS_id]. Qed.

(** The division a product is checked with notices every wrap. *)
Lemma mul_check w a b :
  0 < w -> in_s w a -> in_s w b -> b <> 0 -> (Z.quot (wrapS w (a * b)) b = a <-> in_s w (a * b)).
Proof.
  intros Hw Ha Hb Hb0. split.
  - intros Hq. destruct (decide (- 2 ^ (w - 1) <= a * b < 2 ^ (w - 1))) as [Hi|Ho]; [done|]. exfalso.
    pose proof (wrapS_out w (a * b) Hw Ho) as Hd. pose proof (pow2_half w Hw).
    pose proof (Z.quot_rem' (wrapS w (a * b)) b) as Hqr. rewrite Hq in Hqr.
    pose proof (Z.rem_bound_abs (wrapS w (a * b)) b Hb0) as Hrb. unfold in_s in Hb. lia.
  - intros Hi. rewrite wrapS_id by done. by apply Z.quot_mul.
Qed.

Lemma quot_m1 a : Z.quot a (-1) = - a.
Proof. pose proof (Z.quot_opp_r a 1 ltac:(lia)) as E. by rewrite Z.quot_1_r in E. Qed.

Lemma quot_range w a b : 0 < w -> in_s w a -> b <> 0 -> ~ (a = min_w w /\ b = -1) -> in_s w (Z.quot a b).
Proof.
  intros Hw Ha Hb Hm. unfold in_s, min_w in *.
  pose proof (Z.quot_abs a b Hb) as Hq.
  destruct (decide (Z.abs b = 1)) as [H1|H1].
  - destruct (decide (b = 1)) as [->|]; [rewrite Z.quot_1_r; lia|].
    assert (b = -1) as -> by lia. rewrite quot_m1. lia.
  - pose proof (Z.quot_lt (Z.abs a) (Z.abs b)). destruct (decide (a = 0)) as [->|]; [rewrite Z.quot_0_l; lia|].
    assert (0 < 2 ^ (w - 1)) by (apply Z.pow_pos_nonneg; lia). lia.
Qed.

Definition exact (w z : Z) : result := if (min_w w <=? z) && (z <=? max_w w) then Value z else Throws RangeException.

Lemma exact_in w z : in_s w z -> exact w z = Value z.
Proof. unfold exact, min_w, max_w, in_s. intros H. by replace (_ && _) with true by lia. Qed.

Lemma exact_out w z : ~ in_s w z -> exact w z = Throws RangeException.
Proof. unfold exact, min_w, max_w, in_s. intros H. by replace (_ && _) with false by lia. Qed.

(** A check that passes exactly on representable results makes the operation exact. *)
Lemma checked_exact w z b (c : bool) :
  0 < w -> (c = true <-> in_s w z) ->
  (if negb c then Throws RangeException else Value (wrapS w z)) = exact w z \/ b = 0.
Proof.
  intros Hw Hc. left. destruct c; cbn [negb].
  - assert (Hi : in_s w z) by by apply Hc. by rewrite exact_in, wrapS_id.
  - rewrite exact_out; [done|]. intros Hi. by apply Hc in Hi.
Qed.

(** The arithmetic of [Tinyint] and [Smallint] ([w] = 8 and 16) is that of the integers.
    Sums, differences and products are exact, or throw the range exception exactly when the
    result is not representable; quotients and remainders truncate towards zero and throw on a
    zero divisor; only the quotient of the least value and -1, which is not representable,
    wraps around to the least value instead of throwing. *)
Theorem small_arithmetic_exact w a b :
  0 < w -> in_s w a -> in_s w b ->
  small_add w a b = exact w (a + b) /\
  small_sub w a b = exact w (a - b) /\
  small_mul w a b = exact w (a * b) /\
  small_neg w a = exact w (- a) /\
  small_abs w a = exact w (Z.abs a) /\
  (b = 0 -> small_div w a b = Throws DivideByZeroException /\ small_mod w a b = Throws DivideByZeroException) /\
  (b <> 0 -> small_mod w a b = Value (Z.rem a b) /\
     small_div w a b = Value (if (a =? min_w w) && (b =? -1) then min_w w else Z.quot a b)).
Proof.
  intros Hw Ha Hb. assert (Hp : 0 < 2 ^ (w - 1)) by (apply Z.pow_pos_nonneg; lia). pose proof (pow2_half w Hw) as Hh.
  split_and!.
  - destruct (checked_exact w (a + b) 1 (wrapS w (a + b) - b =? a) Hw) as [E|]; [|exact E|done].
    rewrite <- wrapS_exact by done. lia.
  - destruct (checked_exact w (a - b) 1 (wrapS w (a - b) + b =? a) Hw) as [E|]; [|exact E|done].
    rewrite <- wrapS_exact by done. lia.
  - unfold small_mul. destruct (Z.eqb_spec b 0) as [->|Hb0]; cbn [negb andb].
    + rewrite Z.mul_0_r, wrapS_id, exact_in by (try done; unfold in_s; lia). done.
    + destruct (checked_exact w (a * b) 1 (Z.quot (wrapS w (a * b)) b =? a) Hw) as [E|]; [|exact E|done].
      rewrite <- mul_check by done. apply Z.eqb_eq.
  - unfold small_neg, exact, min_w, max_w, in_s in *. destruct (Z.eqb_spec a (- 2 ^ (w - 1))).
    + by replace (_ && _) with false by lia.
    + rewrite wrapS_id by (try done; unfold in_s; lia). by replace (_ && _) with true by lia.
  - unfold small_abs, exact, min_w, max_w, in_s in *. destruct (Z.eqb_spec a (- 2 ^ (w - 1))).
    + by replace (_ && _) with false by lia.
    + replace (_ && _) with true by lia. destruct (Z.ltb_spec a 0); f_equal; [|lia].
      rewrite wrapS_id by (try done; unfold in_s; lia). lia.
  - by intros ->.
  - intros Hb0. unfold small_mod, small_div. replace (b =? 0) with false by lia. split; f_equal.
    + apply wrapS_id; [done|]. pose proof (Z.rem_bound_abs a b Hb0). unfold in_s in *. lia.
    + destruct (decide (a = min_w w /\ b = -1)) as [[-> ->]|Hn].
      * rewrite Z.eqb_refl. cbn [andb Z.eqb Pos.eqb]. unfold min_w. rewrite quot_m1, Z.opp_involutive.
        rewrite wrapS_cases by lia. replace (2 ^ (w - 1) <? - 2 ^ (w - 1)) with false by lia.
        rewrite Z.ltb_irrefl. lia.
      * replace (_ && _) with false by lia. apply wrapS_id; [done|]. by apply quot_range.
Qed.

Lemma small_arithmetic_exact_witness :
  Smallint_mul (-300) 200 = Throws RangeException /\ Smallint_div (-32768) (-1) = Value (-32768).
Proof.
  split.
  - apply (small_arithmetic_exact 16 (-300) 200); unfold in_s; lia.
  - refine (proj2 (proj2 (proj2 (proj2 (proj2 (proj2 (proj2 (small_arithmetic_exact 16 (-32768) (-1) _ _ _)))))) _)); unfold in_s; lia.
Defined.

(** ** Square roots *)

Lemma sqrtl_trunc_spec n : 0 <= n < 2 ^ 63 -> sqrtl_trunc n = Z.sqrt n.
Proof.
  intros Hn. unfold sqrtl_trunc, sqrtl. set (p := sqrtl_scale n). set (s := Z.sqrt n).
  assert (Hs0 : 0 <= s) by apply Z.sqrt_nonneg.
  pose proof (Z.sqrt_spec n ltac:(lia)) as [Hlo Hhi]. fold s in Hlo, Hhi.
  assert (Hs : s < 2 ^ 32) by (change (2 ^ 63) with (2 ^ 63) in Hn; nia).
  assert (Hp : s + 1 <= 2 ^ p).
  { unfold p, sqrtl_scale. fold s. destruct (decide (s = 0)) as [->|]; [cbn; lia|].
    pose proof (Z.log2_spec s ltac:(lia)) as [_ Hl]. assert (Z.log2 s < 32) by (apply Z.log2_lt_pow2; lia).
    pose proof (Z.log2_nonneg s). etransitivity; [|apply (Z.pow_le_mono_r 2 (Z.succ (Z.log2 s))); lia]. lia. }
  assert (Hp0 : 0 <= p). { destruct (decide (0 <= p)); [done|]. rewrite Z.pow_neg_r in Hp by lia. lia. }
  replace (2 ^ (2 * p)) with (2 ^ p * 2 ^ p) by (rewrite <- Z.pow_add_r by lia; f_equal; lia).
  set (P := 2 ^ p) in *. set (N := n * (P * P)). set (f := Z.sqrt N).
  assert (HN : 0 <= N) by (unfold N; nia).
  pose proof (Z.sqrt_spec N HN) as [Hf1 Hf2]. fold f in Hf1, Hf2. assert (Hf0 : 0 <= f) by apply Z.sqrt_nonneg.
  assert (Hf : s * P <= f).
  { unfold f. apply Z.sqrt_le_square; [done|unfold N; nia|]. unfold N. nia. }
  assert (Hup : forall r, r = f \/ (r = f + 1 /\ f * f + f < N) -> s * P <= r < (s + 1) * P).
  { intros r [-> | [-> Hr]]; (split; [lia|]).
    - assert (f * f <= N) by lia. unfold N in *. nia.
    - assert (HK : N <= (s + 1) * P * ((s + 1) * P) - P * P) by (unfold N; nia).
      destruct (decide (f + 1 < (s + 1) * P)) as [|Hge]; [done|]. exfalso.
      assert (f + 1 >= (s + 1) * P) by lia. nia. }
  symmetry. apply Z.div_unique with (r := (if f * f + f <? N then f + 1 else f) - s * P); [left|ring].
  assert (s * P <= (if f * f + f <? N then f + 1 else f) < (s + 1) * P).
  { destruct (Z.ltb_spec (f * f + f) N); apply Hup; [by right|by left]. }
  lia.
Qed.

(** ** Bigint *)

(** The square roots of [Bigint], [Smallint] and [Tinyint] are the integer square roots, for
    every value: the rounding of the long double never carries the root up to the next integer.
    Negative values throw. *)
Theorem bigint_sqrt_exact a :
  in_s 64 a ->
  Bigint_sqrt a = (if a <? 0 then Throws RangeException else Value (Z.sqrt a)) /\
  (forall w, (w = 8 \/ w = 16) -> in_s w a ->
     small_sqrt w a = if a <? 0 then Throws RangeException else Value (Z.sqrt a)).
Proof.
  intros Ha. unfold Bigint_sqrt, small_sqrt. destruct (Z.ltb_spec a 0); [done|].
  unfold in_s in Ha. rewrite sqrtl_trunc_spec by lia.
  assert (Hs : 0 <= Z.sqrt a <= a) by (split; [apply Z.sqrt_nonneg|by apply Z.sqrt_le_lin]). split.
  - unfold int64, INT64_MIN, INT64_MAX. by replace (_ && _) with true by lia.
  - intros w Hw Haw. f_equal. apply wrapS_id; [lia|]. unfold in_s in *. lia.
Qed.

Lemma bigint_sqrt_exact_witness : Bigint_sqrt 9223372030926249000 = Value 3037000498.
Proof. apply (proj1 (bigint_sqrt_exact 9223372030926249000 ltac:(unfold in_s; lia))). Defined.

(** The arithmetic of [Bigint] has no range check.  Each operation gives the exact result
    when it fits 64 bits - quotients and remainders towards zero, an exception for a zero divisor
    - and otherwise overflows a signed integer, which C leaves undefined; for the quotient and
    the remainder this happens exactly for INT64_MIN and -1, for the negation exactly for
    INT64_MIN, which only the absolute value guards with an exception. *)
Theorem bigint_arithmetic a b :
  in_s 64 a -> in_s 64 b ->
  let total z := if (INT64_MIN <=? z) && (z <=? INT64_MAX) then Value z else Undefined in
  Bigint_add a b = total (a + b) /\ Bigint_sub a b = total (a - b) /\ Bigint_mul a b = total (a * b) /\
  Bigint_neg a = (if a =? INT64_MIN then Undefined else Value (- a)) /\
  Bigint_abs a = (if a =? INT64_MIN then Throws RangeException else Value (Z.abs a)) /\
  Bigint_div a b = (if b =? 0 then Throws DivideByZeroException
                    else if (a =? INT64_MIN) && (b =? -1) then Undefined else Value (Z.quot a b)) /\
  Bigint_mod a b = (if b =? 0 then Throws DivideByZeroException
                    else if (a =? INT64_MIN) && (b =? -1) then Undefined else Value (Z.rem a b)).
Proof.
  intros Ha Hb total. unfold in_s in Ha, Hb.
  assert (Hq : b <> 0 -> int64 (Z.quot a b) = if (a =? INT64_MIN) && (b =? -1) then Undefined else Value (Z.quot a b)).
  { intros Hb0. destruct (decide (a = INT64_MIN /\ b = -1)) as [[-> ->]|Hn]; [done|].
    replace (_ && _) with false by lia. pose proof (quot_range 64 a b ltac:(lia) Ha Hb0 Hn) as Hr.
    unfold int64, in_s, INT64_MIN, INT64_MAX in *. by replace (_ && _) with true by lia. }
  split_and!; try done.
  - unfold Bigint_neg, int64, INT64_MIN, INT64_MAX. destruct (Z.eqb_spec a (- 2 ^ 63)) as [->|]; [done|].
    by replace (_ && _) with true by lia.
  - unfold Bigint_abs, int64, INT64_MIN, INT64_MAX. destruct (Z.eqb_spec a (- 2 ^ 63)) as [->|]; [done|].
    destruct (Z.ltb_spec a 0); [replace (_ && _) with true by lia|]; f_equal; lia.
  - unfold Bigint_div. destruct (Z.eqb_spec b 0); [done|]. by apply Hq.
  - unfold Bigint_mod. destruct (Z.eqb_spec b 0); [done|]. rewrite Hq by done. by destruct (_ && _).
Qed.

Lemma bigint_arithmetic_witness : Bigint_mod (- 2 ^ 63) (-1) = Undefined.
Proof. apply (bigint_arithmetic (- 2 ^ 63) (-1)); unfold in_s; lia. Defined.

(** ** Strings and PHP integers *)

Lemma show_dec_literal v : show_dec v = sign_bytes (if v <? 0 then Some true else None) ++ literal Dec (Z.abs v).
Proof. rewrite show_dec_split. by destruct (v <? 0). Qed.

Lemma show_dec_short v : in_s 64 v -> zlen (show_dec v) < 2 ^ 31.
Proof.
  intros Hv. rewrite show_dec_split, zlen_app, zlen_minus_bytes. unfold in_s in Hv.
  pose proof (show_nat_length 10 (Z.abs v) 20 ltac:(lia) ltac:(lia) ltac:(lia)). case_match; lia.
Qed.

Lemma parse_int_show v : in_s 32 v -> php_scylladb_parse_int (show_dec v) = Parsed v.
Proof.
  intros Hv. unfold in_s in Hv. rewrite show_dec_literal, <- (app_nil_l (_ ++ _)).
  rewrite parse_int_of_literal; [| constructor|lia|].
  2: { cbn [app]. rewrite <- show_dec_literal. apply show_dec_short. unfold in_s. lia. }
  unfold low32, ULONG_MAX, INT_MIN, INT_MAX. rewrite wrapU_id by (unfold in_u; lia).
  destruct (Z.ltb_spec v 0); cbn [signed]; rewrite ?Z.opp_involutive; case_match; f_equal; lia.
Qed.

Lemma parse_bigint_show v : in_s 64 v -> php_scylladb_parse_bigint (show_dec v) = Parsed v.
Proof.
  intros Hv. pose proof (show_dec_short v Hv) as Hl. unfold in_s in Hv. rewrite show_dec_literal in *.
  rewrite <- (app_nil_l (_ ++ _)). rewrite parse_bigint_of_literal; [|constructor|lia|exact Hl].
  unfold INT64_MIN, INT64_MAX. destruct (Z.ltb_spec v 0); cbn [signed]; case_match; f_equal; lia.
Qed.

(** conversions into the integer classes.  A value printed with [__toString] and given back
    to the constructor is the value, in every class; a PHP integer [v] given to [Tinyint] or
    [Smallint] is cut to its low 32 bits before the range check, so it is checked against the
    range exactly when it fits 32 bits, and 2^32 is accepted as 0. *)
Theorem integer_conversions v :
  (in_s 8 v -> php_scylladb_tinyint_init (IsString (show_dec v)) = Value v) /\
  (in_s 16 v -> php_scylladb_smallint_init (IsString (show_dec v)) = Value v) /\
  (forall dval, in_s 64 v -> php_scylladb_bigint_init dval (IsString (Bigint_to_string v)) = Value v) /\
  php_scylladb_smallint_init (IsLong v) = exact 16 (wrapS 32 v) /\
  php_scylladb_tinyint_init (IsLong v) = exact 8 (wrapS 32 v) /\
  (in_s 32 v -> php_scylladb_smallint_init (IsLong v) = exact 16 v) /\
  php_scylladb_smallint_init (IsLong (2 ^ 32)) = Value 0.
Proof.
  assert (Hchk : forall w number, 0 < w -> (if (number <? min_w w) || (max_w w <? number) then Throws RangeException
            else Value (wrapS w number)) = exact w number).
  { intros w number Hw. unfold exact, min_w, max_w.
    destruct (Z.ltb_spec number (- 2 ^ (w - 1))), (Z.ltb_spec (2 ^ (w - 1) - 1) number); cbn [orb];
      [by replace (_ && _) with false by lia..|]. replace (_ && _) with true by lia.
    rewrite wrapS_id by (try done; unfold in_s; lia). done. }
  split_and!; try done.
  - intros Hv. cbn. rewrite parse_int_show by (unfold in_s in *; lia). rewrite Hchk by lia. by apply exact_in.
  - intros Hv. cbn. rewrite parse_int_show by (unfold in_s in *; lia). rewrite Hchk by lia. by apply exact_in.
  - intros dval Hv. cbn. unfold Bigint_to_string. by rewrite parse_bigint_show.
  - cbn. by apply Hchk.
  - cbn. by apply Hchk.
  - intros Hv. cbn. rewrite (wrapS_id 32) by (try done; lia). by apply Hchk.
Qed.

Lemma integer_conversions_witness : php_scylladb_smallint_init (IsString (bs "-12345")) = Value (-12345).
Proof. apply (proj1 (proj2 (integer_conversions (-12345)))). unfold in_s. lia. Defined.

(** ** Varint *)

Section VarintLaws.
Context `{G : Gmp} `{A : GmpArith} `{L : !GmpArithLaws A}.

(** Division of varints rounds down and the remainder is never negative: with a positive divisor the two recompose the dividend, with a
    negative one they do so only when it divides the dividend, since the quotient rounds down
    while the remainder is taken for the absolute value of the divisor. *)
Theorem varint_division a b q r :
  Varint_div a b = Value q -> Varint_mod a b = Value r ->
  b <> 0 /\ 0 <= r < Z.abs b /\ (0 < b -> a = q * b + r) /\ (b < 0 -> (a = q * b + r <-> (b | a))).
Proof using L.
  unfold Varint_div, Varint_mod. destruct (Z.eqb_spec b 0) as [|Hb]; [done|]. intros [= <-] [= <-].
  rewrite mpz_div_spec, mpz_mod_spec by done. split_and!; try done.
  - apply Z.mod_pos_bound. lia.
  - apply Z.mod_pos_bound. lia.
  - intros Hp. rewrite Z.abs_eq by lia. pose proof (Z.div_mod a b Hb). lia.
  - intros Hneg. rewrite Z.abs_neq by lia. pose proof (Z.div_mod a b Hb) as E.
    split.
    + intros Ea. assert (Er : a mod b = a mod - b) by lia.
      pose proof (Z.mod_neg_bound a b Hneg). pose proof (Z.mod_pos_bound a (- b) ltac:(lia)).
      apply Z.mod_divide; [done|]. lia.
    + intros Hd. assert (Hd' : (- b | a)) by by apply Z.divide_opp_l.
      apply Z.mod_divide in Hd; [|done]. apply Z.mod_divide in Hd'; [|lia]. lia.
Qed.

End VarintLaws.

(** The operations over the integers satisfy the documented behaviour. *)
Module GmpArithModel.

#[export] Instance gmp_arith : GmpArith := {|
  mpz_set_d d := default 0 (trunc d);
  mpz_add := Z.add; mpz_sub := Z.sub; mpz_mul := Z.mul; mpz_div := Z.div;
  mpz_mod a b := a mod Z.abs b; mpz_abs := Z.abs; mpz_neg := Z.opp; mpz_sqrt := Z.sqrt |}.

#[export] Instance gmp_arith_laws : GmpArithLaws gmp_arith.
Proof. by constructor. Qed.

End GmpArithModel.

Lemma varint_division_witness :
  Varint_div (A := GmpArithModel.gmp_arith) 7 (-2) = Value (-4) /\
  Varint_mod (A := GmpArithModel.gmp_arith) 7 (-2) = Value 1 /\ ~ (7 = (-4) * (-2) + 1).
Proof.
  split; [reflexivity|]. split; [reflexivity|].
  pose proof (varint_division (A := GmpArithModel.gmp_arith) (L := GmpArithModel.gmp_arith_laws)
    7 (-2) (-4) 1 eq_refl eq_refl) as (_ & _ & _ & H).
  intros E. apply (H ltac:(lia)) in E. by apply Z.mod_divide in E.
Defined.
