(* ===== verification/InetUtil.v ===== *)
(** Parsing and printing of IP addresses (src/InetUtil.c).

    Buffers are checked: the input is the bytes of the string and its terminator, the output the
    16 bytes of [address], and an access outside of them makes the parser return [OutOfBounds].
    The parser's loop runs on fuel. *)
From S2P Require Import Prelude CLib.

Definition IP_MAX_ADDRLEN : Z := 50.
Definition TOKEN_MAX_LEN : nat := 4.
Definition CASS_INET_V4_LENGTH : Z := 4.
Definition CASS_INET_V6_LENGTH : Z := 16.

Inductive ip_address_token_type :=
| TOKEN_END | TOKEN_COLON | TOKEN_DOT | TOKEN_HEX | TOKEN_DEC | TOKEN_ILLEGAL.

Inductive inet_parser_state :=
| STATE_START | STATE_FIELD | STATE_COMPRESSED | STATE_AFTERHEX | STATE_AFTERDEC
| STATE_IPV4BYTE | STATE_IPV4DOT | STATE_AFTERCOLON | STATE_END.

#[export] Instance token_type_eq : EqDecision ip_address_token_type.
Proof. solve_decision. Defined.

#[export] Instance inet_state_eq : EqDecision inet_parser_state.
Proof. solve_decision. Defined.

(** The domain flag: 0 until it is known. *)
Inductive inet_domain := NoDomain | IPV4 | IPV6.

(** What the parser expected, per use of [EXPECTING_TOKEN]. *)
Inductive expectation :=
| AddressFieldOrColon | AColon | AnAddressField | AColonOrADot | AnIPv4Byte | ADot | EndOfAddress.

(** The exceptions, one constructor per message, with the values they print. *)
Inductive inet_error :=
| InetNulByte (in_len offset : Z)
| InetTooLong
| IllegalCharacter (ch pos : Z)
| UnexpectedToken (type : ip_address_token_type) (pos : Z) (expected : expectation)
| DuplicateCompression (pos : Z)
| LeadingZero (token : bytes) (pos : Z)
| SegmentRange (value pos : Z)
| CompressedFull
| IndexOutOfBounds (src_pos dst_pos : Z)
| OnlyBytes (n : Z)
| ExceedsMaximum.

Record CassInet := { inet_address : bytes; address_length : Z }.

#[export] Instance CassInet_eq : EqDecision CassInet.
Proof. solve_decision. Defined.

(** ** Checked memory *)

Definition rd (buf : bytes) (i : Z) : option Z := if i <? 0 then None else buf !! Z.to_nat i.

Definition wr (buf : bytes) (i v : Z) : option bytes :=
  if (0 <=? i) && (i <? zlen buf) then Some (<[Z.to_nat i := v]> buf) else None.

(** ** Tokens *)

(** The loop over hexadecimal digits: at most [k] more, at offset [p]. *)
Fixpoint token_run (k : nat) (buf : bytes) (p : Z) (is_hex : bool) (token : bytes)
  : option (bool * bytes) :=
  match k with
  | O => Some (is_hex, token)
  | S k' =>
      match rd buf p with
      | None => None
      | Some ch =>
          if isxdigit ch
          then token_run k' buf (p + 1) (is_hex || negb (isdigit ch)) (token ++ [tolower ch])
          else Some (is_hex, token)
      end
  end.

(** The token at offset [p] and the offset after it. *)
Definition ip_address_tokenize (buf : bytes) (p : Z)
  : option (ip_address_token_type * bytes * Z) :=
  match rd buf p with
  | None => None
  | Some ch =>
      if isxdigit ch then
        match token_run TOKEN_MAX_LEN buf p false [] with
        | None => None
        | Some (is_hex, token) =>
            Some (if is_hex then TOKEN_HEX else TOKEN_DEC, token, p + zlen token)
        end
      else
        Some (if ch =? 0 then TOKEN_END
              else if ch =? 58 then TOKEN_COLON
              else if ch =? 46 then TOKEN_DOT
              else TOKEN_ILLEGAL, [ch], p + 1)
  end.

(** ** The parser *)

Record inet_parser := {
  in_ptr : Z;
  token_len : Z;
  pstate : inet_parser_state;
  ppos : Z;
  compress_pos : Z;
  ipv4_pos : Z;
  address : bytes;
  domain : inet_domain
}.

Definition inet_start : inet_parser := {|
  in_ptr := 0; token_len := -1; pstate := STATE_START; ppos := -1; compress_pos := -1;
  ipv4_pos := -1; address := repeat 0 16; domain := NoDomain |}.

Inductive turn :=
| Continue (p : inet_parser)
| Break (p : inet_parser)
| Throw (e : inet_error)
| OutOfBounds.

Definition set_state (s : inet_parser_state) (p : inet_parser) : inet_parser := {|
  in_ptr := in_ptr p; token_len := token_len p; pstate := s; ppos := ppos p;
  compress_pos := compress_pos p; ipv4_pos := ipv4_pos p; address := address p; domain := domain p |}.

Definition set_pos (n : Z) (p : inet_parser) : inet_parser := {|
  in_ptr := in_ptr p; token_len := token_len p; pstate := pstate p; ppos := n;
  compress_pos := compress_pos p; ipv4_pos := ipv4_pos p; address := address p; domain := domain p |}.

(** Store two or one bytes at the next positions and advance. *)
Definition push2 (b1 b2 : Z) (p : inet_parser) : option inet_parser :=
  match wr (address p) (ppos p + 1) b1 with
  | None => None
  | Some a =>
      match wr a (ppos p + 2) b2 with
      | None => None
      | Some a' => Some {|
          in_ptr := in_ptr p; token_len := token_len p; pstate := pstate p; ppos := ppos p + 2;
          compress_pos := compress_pos p; ipv4_pos := ipv4_pos p; address := a'; domain := domain p |}
      end
  end.

Definition on_colon_compressed (p : inet_parser) (at_pos : Z) : turn :=
  if negb (compress_pos p =? -1) then Throw (DuplicateCompression at_pos)
  else Continue {|
    in_ptr := in_ptr p; token_len := token_len p; pstate := STATE_FIELD; ppos := ppos p;
    compress_pos := if ppos p =? -1 then 0 else ppos p + 1;
    ipv4_pos := ipv4_pos p; address := address p; domain := domain p |}.

Definition on_field (p : inet_parser) (type : ip_address_token_type) (token : bytes) (at_pos : Z) : turn :=
  if bool_decide (type = TOKEN_END) && (ppos p + 1 =? compress_pos p) then Break p
  else
    let next := match type with
                | TOKEN_HEX => Some STATE_AFTERHEX
                | TOKEN_DEC => Some STATE_AFTERDEC
                | _ => None
                end in
    match next with
    | None => Throw (UnexpectedToken type at_pos AnAddressField)
    | Some s =>
        let p := set_state s p in
        if CASS_INET_V6_LENGTH <? ppos p + 3 then Break (set_pos (ppos p + 2) p)
        else
          let field := (strtoull token 16).1.1 in
          match push2 (Z.shiftr (Z.land field 65280) 8) (Z.land field 255) p with
          | None => OutOfBounds
          | Some p' => Continue p'
          end
    end.

(** [prev] is the length of the token before the dot: the bytes stored for it are taken back and
    the token is read again as a decimal byte. *)
Definition on_first_dot (p : inet_parser) (prev : Z) (type : ip_address_token_type) (at_pos : Z) : turn :=
  if ppos p <? 1 then Throw (UnexpectedToken type at_pos AnAddressField)
  else
    match wr (address p) (ppos p) 0 with
    | None => OutOfBounds
    | Some a =>
        match wr a (ppos p - 1) 0 with
        | None => OutOfBounds
        | Some a' => Continue {|
            in_ptr := in_ptr p - (prev + 1); token_len := token_len p; pstate := STATE_IPV4BYTE;
            ppos := ppos p - 2; compress_pos := compress_pos p; ipv4_pos := 0; address := a';
            domain := domain p |}
        end
    end.

Definition on_ipv4_byte (p : inet_parser) (type : ip_address_token_type) (token : bytes) (at_pos : Z) : turn :=
  if negb (bool_decide (type = TOKEN_DEC)) then Throw (UnexpectedToken type at_pos AnIPv4Byte)
  else if (1 <? token_len p) && (char_at token 0 =? 48) then Throw (LeadingZero token at_pos)
  else
    let ipv4_byte := wrapS 32 (strtol token 10).1.1 in
    if (ipv4_byte <? 0) || (255 <? ipv4_byte) then Throw (SegmentRange ipv4_byte at_pos)
    else if CASS_INET_V6_LENGTH <? ppos p + 2 then Break (set_pos (ppos p + 1) p)
    else
      match wr (address p) (ppos p + 1) ipv4_byte with
      | None => OutOfBounds
      | Some a =>
          let n := ipv4_pos p + 1 in
          let last := n =? CASS_INET_V4_LENGTH in
          Continue {|
            in_ptr := in_ptr p; token_len := token_len p;
            pstate := if last then STATE_END else STATE_IPV4DOT;
            ppos := ppos p + 1; compress_pos := compress_pos p; ipv4_pos := n; address := a;
            domain := if last && (compress_pos p =? -1) && (ppos p + 2 =? CASS_INET_V4_LENGTH)
                      then IPV4 else domain p |}
      end.

(** One turn of the loop: a token is read and the state acts on it; [STATE_START] and
    [STATE_AFTERCOLON] fall through to the states below them. *)
Definition inet_turn (buf : bytes) (p0 : inet_parser) : turn :=
  match ip_address_tokenize buf (in_ptr p0) with
  | None => OutOfBounds
  | Some (type, token, next) =>
      let prev := if -1 <? token_len p0 then token_len p0 else 0 in
      let p := {| in_ptr := next; token_len := zlen token; pstate := pstate p0; ppos := ppos p0;
                  compress_pos := compress_pos p0; ipv4_pos := ipv4_pos p0; address := address p0;
                  domain := domain p0 |} in
      let at_pos := next - 1 in
      let unexpected e := Throw (UnexpectedToken type at_pos e) in
      match type with
      | TOKEN_ILLEGAL => Throw (IllegalCharacter (char_at token 0) at_pos)
      | _ =>
          match pstate p with
          | STATE_START =>
              match type with
              | TOKEN_COLON => Continue (set_state STATE_COMPRESSED p)
              | TOKEN_HEX | TOKEN_DEC => on_field (set_state STATE_FIELD p) type token at_pos
              | _ => unexpected AddressFieldOrColon
              end
          | STATE_AFTERCOLON =>
              match type with
              | TOKEN_COLON => on_colon_compressed (set_state STATE_COMPRESSED p) at_pos
              | _ => on_field (set_state STATE_FIELD p) type token at_pos
              end
          | STATE_COMPRESSED =>
              match type with
              | TOKEN_COLON => on_colon_compressed p at_pos
              | _ => unexpected AColon
              end
          | STATE_FIELD => on_field p type token at_pos
          | STATE_AFTERHEX =>
              match type with
              | TOKEN_END => Break p
              | TOKEN_COLON => Continue (set_state STATE_AFTERCOLON p)
              | _ => unexpected AColon
              end
          | STATE_AFTERDEC =>
              match type with
              | TOKEN_END => Break p
              | TOKEN_COLON => Continue (set_state STATE_AFTERCOLON p)
              | TOKEN_DOT => on_first_dot p prev type at_pos
              | _ => unexpected AColonOrADot
              end
          | STATE_IPV4BYTE => on_ipv4_byte p type token at_pos
          | STATE_IPV4DOT =>
              match type with
              | TOKEN_DOT => Continue (set_state STATE_IPV4BYTE p)
              | _ => unexpected ADot
              end
          | STATE_END =>
              match type with
              | TOKEN_END => Break p
              | _ => unexpected EndOfAddress
              end
          end
      end
  end.

(** The loop; [None] when the fuel runs out. *)
Fixpoint inet_loop (fuel : nat) (buf : bytes) (p : inet_parser) : option turn :=
  match fuel with
  | O => None
  | S f => match inet_turn buf p with
           | Continue p' => inet_loop f buf p'
           | t => Some t
           end
  end.

(** Moving the bytes after the compressed zeroes to the end, from the last one. *)
Fixpoint move_bytes (k : nat) (i move_len compress : Z) (a : bytes) : inet_error + option bytes :=
  match k with
  | O => inr (Some a)
  | S k' =>
      let src_pos := compress + move_len - i - 1 in
      let dst_pos := CASS_INET_V6_LENGTH - i - 1 in
      if (0 <=? src_pos) && (src_pos <? CASS_INET_V6_LENGTH) && (0 <=? dst_pos) && (dst_pos <? CASS_INET_V6_LENGTH)
      then
        match rd a src_pos with
        | None => inr None
        | Some v =>
            match wr a dst_pos v with
            | None => inr None
            | Some a1 => match wr a1 src_pos 0 with
                         | None => inr None
                         | Some a2 => move_bytes k' (i + 1) move_len compress a2
                         end
            end
        end
      else inl (IndexOutOfBounds src_pos dst_pos)
  end.

Inductive inet_result :=
| InetOk (i : CassInet)
| InetThrew (e : inet_error)
| InetOutOfBounds.

Definition cass_inet_init_v4 (a : bytes) : CassInet := {| inet_address := take 4 a; address_length := CASS_INET_V4_LENGTH |}.
Definition cass_inet_init_v6 (a : bytes) : CassInet := {| inet_address := take 16 a; address_length := CASS_INET_V6_LENGTH |}.

(** After the loop. *)
Definition inet_finish (p : inet_parser) : inet_result :=
  match domain p with
  | IPV4 => InetOk (cass_inet_init_v4 (address p))
  | IPV6 => InetOk (cass_inet_init_v6 (address p))
  | NoDomain =>
      if negb (compress_pos p =? -1) then
        if CASS_INET_V6_LENGTH <=? ppos p + 1 then InetThrew CompressedFull
        else
          let pos := ppos p + 1 in
          if negb (pos =? compress_pos p) then
            let move_len := pos - compress_pos p in
            match move_bytes (Z.to_nat move_len) 0 move_len (compress_pos p) (address p) with
            | inl e => InetThrew e
            | inr None => InetOutOfBounds
            | inr (Some a) => InetOk (cass_inet_init_v6 a)
            end
          else InetOk (cass_inet_init_v6 (address p))
      else if ppos p + 1 <? CASS_INET_V6_LENGTH then InetThrew (OnlyBytes (ppos p + 1))
      else if CASS_INET_V6_LENGTH <? ppos p + 1 then InetThrew ExceedsMaximum
      else InetOk (cass_inet_init_v6 (address p))
  end.

(** Enough turns: each one consumes a byte, except one that takes back a token. *)
Definition inet_fuel (s : bytes) : nat := length s + 10.

Definition php_scylladb_parse_ip_address (s : bytes) : option inet_result :=
  let in_len := zlen s in
  if negb (in_len =? strlen s) then Some (InetThrew (InetNulByte in_len (strlen s)))
  else if IP_MAX_ADDRLEN - 1 <? in_len then Some (InetThrew InetTooLong)
  else match inet_loop (inet_fuel s) (s ++ [0]) inet_start with
       | None => None
       | Some (Continue _) => None
       | Some (Break p) => Some (inet_finish p)
       | Some (Throw e) => Some (InetThrew e)
       | Some OutOfBounds => Some InetOutOfBounds
       end.

(** [zend_strpprintf] of the groups in lower-case hexadecimal, and of the bytes in decimal. *)
Definition group (a : bytes) (i : Z) : Z := char_at a (2 * i) * 256 + char_at a (2 * i + 1).

Fixpoint join (sep : Z) (l : list bytes) : bytes :=
  match l with
  | [] => []
  | [x] => x
  | x :: l' => x ++ sep :: join sep l'
  end.

Definition php_scylladb_format_address (inet : CassInet) : bytes :=
  let a := inet_address inet in
  if 4 <? address_length inet
  then join 58 (map (fun i => show_nat 16 (group a i)) [0; 1; 2; 3; 4; 5; 6; 7])
  else join 46 (map (fun i => show_dec (char_at a i)) [0; 1; 2; 3]).

Example parse_v4 : php_scylladb_parse_ip_address (bs "192.168.0.1") =
  Some (InetOk {| inet_address := [192; 168; 0; 1]; address_length := 4 |}).
Proof. reflexivity. Qed.

Example parse_v6 : php_scylladb_parse_ip_address (bs "2001:db8::1.2.3.4") =
  Some (InetOk {| inet_address := [32; 1; 13; 184; 0; 0; 0; 0; 0; 0; 0; 0; 1; 2; 3; 4]; address_length := 16 |}).
Proof. reflexivity. Qed.

(** ** Lemmas on memory *)

Lemma rd_app_terminated s i :
  Forall (fun c => c <> 0) s -> 0 <= i <= zlen s ->
  exists c, rd (s ++ [0]) i = Some c /\ (c = 0 <-> i = zlen s).
Proof.
  intros Hs Hi. unfold rd, zlen in *. destruct (Z.ltb_spec i 0); [lia|].
  destruct (decide (i = Z.of_nat (length s))) as [->|].
  - exists 0. rewrite Nat2Z.id, lookup_app_r, Nat.sub_diag by lia. done.
  - rewrite lookup_app_l by lia. destruct (lookup_lt_is_Some_2 s (Z.to_nat i)) as [c Hc]; [lia|].
    exists c. split; [done|]. rewrite Forall_lookup in Hs. pose proof (Hs _ _ Hc). split; [done|lia].
Qed.

Lemma wr_Some buf i v :
  0 <= i < zlen buf -> wr buf i v = Some (<[Z.to_nat i := v]> buf).
Proof. intros. unfold wr. by replace ((0 <=? i) && (i <? zlen buf)) with true by lia. Qed.

Lemma zlen_insert {A} (l : list A) i x : zlen (<[i := x]> l) = zlen l.
Proof. unfold zlen. by rewrite length_insert. Qed.

Lemma is_byte_insert l i x : Forall is_byte l -> is_byte x -> Forall is_byte (<[i := x]> l).
Proof. intros. by apply Forall_insert. Qed.

#[export] Hint Resolve is_byte_insert : cdata.

(** ** Tokens *)

Lemma isxdigit_nonzero c : isxdigit c = true -> c <> 0.
Proof. intros H ->. by vm_compute in H. Qed.

Lemma token_run_spec k s p is_hex token :
  Forall (fun c => c <> 0) s -> 0 <= p <= zlen s ->
  exists h t, token_run k (s ++ [0]) p is_hex token = Some (h, token ++ t) /\
    zlen t <= Z.of_nat k /\ p + zlen t <= zlen s /\
    (k <> O -> (exists c, rd (s ++ [0]) p = Some c /\ isxdigit c = true) -> 1 <= zlen t).
Proof.
  intros Hs. revert p is_hex token. induction k as [|k IH]; intros p is_hex token Hp.
  - exists is_hex, []. cbn [token_run]. rewrite app_nil_r. change (zlen (@nil Z)) with 0.
    split_and!; [done|lia|lia|done].
  - cbn [token_run]. destruct (rd_app_terminated s p Hs Hp) as (c & Hc & Hz). rewrite Hc.
    destruct (isxdigit c) eqn:Hx.
    + pose proof (isxdigit_nonzero c Hx).
      destruct (IH (p + 1) (is_hex || negb (isdigit c)) (token ++ [tolower c])) as (h & t & E & H1 & H2 & _).
      { assert (p <> zlen s) by tauto. lia. }
      exists h, (tolower c :: t). rewrite E, <- app_assoc, zlen_cons. pose proof (zlen_nonneg t).
      split_and!; [done|lia|lia|lia].
    + exists is_hex, []. rewrite app_nil_r. change (zlen (@nil Z)) with 0.
      split_and!; [done|lia|lia|]. intros _ (c' & Hc' & Hx'). congruence.
Qed.

(** Reading a token inside the string stays inside it; only the terminator is a [TOKEN_END]. *)
Lemma tokenize_spec s p :
  Forall (fun c => c <> 0) s -> 0 <= p <= zlen s ->
  exists type token, ip_address_tokenize (s ++ [0]) p = Some (type, token, p + zlen token) /\
    1 <= zlen token <= 4 /\ (type = TOKEN_END \/ p + zlen token <= zlen s).
Proof.
  intros Hs Hp. unfold ip_address_tokenize.
  destruct (rd_app_terminated s p Hs Hp) as (c & Hc & Hz). rewrite Hc.
  destruct (isxdigit c) eqn:Hx.
  - destruct (token_run_spec TOKEN_MAX_LEN s p false [] Hs Hp) as (h & t & -> & H1 & H2 & H3).
    cbn [app]. eexists _, t. split; [done|]. split; [|by right].
    split; [|done]. apply H3; [done|]. by exists c.
  - eexists _, [c]. split; [done|]. change (zlen [c]) with 1. split; [lia|].
    destruct (Z.eqb_spec c 0); [by left|right]. assert (p <> zlen s) by tauto. lia.
Qed.

(** ** The invariant of the loop *)

Definition before_ipv4 (s : inet_parser_state) : bool :=
  match s with STATE_IPV4BYTE | STATE_IPV4DOT | STATE_END => false | _ => true end.

Record inet_mem (p : inet_parser) : Prop := {
  im_pos : -1 <= ppos p <= 17;
  im_address : zlen (address p) = 16;
  im_bytes : Forall is_byte (address p);
  im_compress : compress_pos p = -1 \/ 0 <= compress_pos p <= ppos p + 1;
  im_domain : domain p <> IPV6
}.

Record inet_inv (n : Z) (p : inet_parser) : Prop := {
  ii_mem : inet_mem p;
  ii_ptr : 0 <= in_ptr p <= n;
  ii_pos : ppos p <= 15;
  ii_dec : pstate p = STATE_AFTERDEC ->
           1 <= token_len p <= 4 /\ token_len p <= in_ptr p /\ compress_pos p <= ppos p - 1
}.

Definition inet_measure (n : Z) (p : inet_parser) : Z :=
  (n + 1 - in_ptr p) + (if before_ipv4 (pstate p) then 6 else 0).

Lemma inet_start_inv n : 0 <= n -> inet_inv n inet_start.
Proof.
  intros. split; cbn; [split; cbn|..]; try lia; try done; try by left.
  by repeat constructor.
Qed.

(** What a turn may do: go on with the invariant and a smaller measure, leave the loop with the
    buffers intact, or throw; never touch memory outside of the buffers. *)
Definition turn_ok (n m : Z) (t : turn) : Prop :=
  match t with
  | Continue p' => inet_inv n p' /\ inet_measure n p' < m
  | Break p' => inet_mem p'
  | Throw (IndexOutOfBounds _ _) => False
  | Throw _ => True
  | OutOfBounds => False
  end.

(** The parser after it read a token inside the string. *)
Record token_read (n m : Z) (p : inet_parser) : Prop := {
  tr_mem : inet_mem p;
  tr_pos : ppos p <= 15;
  tr_len : 1 <= token_len p <= 4 /\ token_len p <= in_ptr p;
  tr_measure : n + 1 - in_ptr p < m
}.

Ltac inet_simpl :=
  unfold set_state, set_pos, inet_measure in *; cbn [in_ptr token_len pstate ppos compress_pos ipv4_pos address domain before_ipv4] in *.

Lemma push2_ok b1 b2 p :
  inet_mem p -> ppos p + 2 <= 15 -> is_byte b1 -> is_byte b2 ->
  exists a, push2 b1 b2 p = Some {|
      in_ptr := in_ptr p; token_len := token_len p; pstate := pstate p; ppos := ppos p + 2;
      compress_pos := compress_pos p; ipv4_pos := ipv4_pos p; address := a; domain := domain p |} /\
    zlen a = 16 /\ Forall is_byte a.
Proof.
  intros [Hp Ha Hb _ _] Hpos H1 H2. unfold push2.
  rewrite wr_Some by lia. rewrite wr_Some by (rewrite zlen_insert; lia).
  eexists. split; [done|]. rewrite !zlen_insert. auto with cdata.
Qed.

Lemma field_bytes f :
  is_byte (Z.shiftr (Z.land f 65280) 8) /\ is_byte (Z.land f 255).
Proof.
  change 65280 with (255 * 2 ^ 8). rewrite <- Z.shiftl_mul_pow2, Z.shiftr_land, Z.shiftr_shiftl_l by lia.
  change (Z.shiftl 255 (8 - 8)) with (Z.ones 8). change 255 with (Z.ones 8).
  rewrite !Z.land_ones by lia. unfold is_byte. change 256 with (2 ^ 8).
  split; apply Z.mod_pos_bound; lia.
Qed.

Lemma inet_mem_set_state st p : inet_mem p -> inet_mem (set_state st p).
Proof. by intros []. Qed.

Lemma store_field_ok n m p st f :
  token_read n (m - 6) p -> in_ptr p <= n -> before_ipv4 st = true ->
  turn_ok n m
    (if CASS_INET_V6_LENGTH <? ppos (set_state st p) + 3 then Break (set_pos (ppos (set_state st p) + 2) (set_state st p))
     else match push2 (Z.shiftr (Z.land f 65280) 8) (Z.land f 255) (set_state st p) with
          | None => OutOfBounds
          | Some p' => Continue p'
          end).
Proof.
  intros [Hm Hp Hl Hq] Hn Hst. destruct (field_bytes f) as [Hb1 Hb2].
  pose proof (inet_mem_set_state st p Hm) as Hm'. unfold CASS_INET_V6_LENGTH.
  destruct Hm as [Hm1 Hm2 Hm3 Hm4 Hm5]. destruct (Z.ltb_spec 16 (ppos (set_state st p) + 3)).
  { split; inet_simpl; auto; lia. }
  destruct (push2_ok _ _ _ Hm' ltac:(inet_simpl; lia) Hb1 Hb2) as (a & -> & Ha & Hb).
  inet_simpl. split; [|inet_simpl; rewrite Hst; lia].
  split; [split; inet_simpl; auto; lia|inet_simpl; lia|inet_simpl; lia|inet_simpl; lia].
Qed.

Lemma on_field_ok n m p type token at_pos :
  token_read n (m - 6) p -> type = TOKEN_END \/ in_ptr p <= n -> turn_ok n m (on_field p type token at_pos).
Proof.
  intros Ht Hn. unfold on_field. case_match; [by destruct Ht|].
  destruct type; try done; (destruct Hn as [|Hn]; [done|]); by apply store_field_ok.
Qed.

Lemma on_colon_compressed_ok n m p at_pos :
  token_read n (m - 6) p -> in_ptr p <= n -> turn_ok n m (on_colon_compressed p at_pos).
Proof.
  intros [[Hm1 Hm2 Hm3 Hm4 Hm5] Hp Hl Hq] Hn. unfold on_colon_compressed. case_match; [done|].
  split; [|inet_simpl; lia].
  split; [split; inet_simpl; auto|inet_simpl..]; try done; try lia.
  right. case_match; lia.
Qed.

Lemma on_first_dot_ok n m p prev type at_pos :
  token_read n (m - 6) p -> in_ptr p <= n -> 1 <= prev <= 4 -> prev + 1 <= in_ptr p ->
  compress_pos p <= ppos p - 1 -> turn_ok n m (on_first_dot p prev type at_pos).
Proof.
  intros [[Hm1 Hm2 Hm3 Hm4 Hm5] Hp Hl Hq] Hn Hprev Hle Hc. unfold on_first_dot.
  destruct (Z.ltb_spec (ppos p) 1); [done|].
  rewrite wr_Some by lia. rewrite wr_Some by (rewrite zlen_insert; lia).
  split; [|inet_simpl; lia].
  split; [split; inet_simpl; auto|inet_simpl..]; rewrite ?zlen_insert; try done; try lia.
  repeat (apply is_byte_insert; [|done]). done.
Qed.

Lemma on_ipv4_byte_ok n m p type token at_pos :
  token_read n m p -> type = TOKEN_END \/ in_ptr p <= n -> turn_ok n m (on_ipv4_byte p type token at_pos).
Proof.
  intros [[Hm1 Hm2 Hm3 Hm4 Hm5] Hp Hl Hq] Hn. unfold on_ipv4_byte.
  case_bool_decide as Ht; [|done]. subst. destruct Hn as [|Hn]; [done|]. cbn [negb].
  case_match; [done|]. destruct (_ || _) eqn:Hr; [done|]. unfold CASS_INET_V6_LENGTH, CASS_INET_V4_LENGTH.
  destruct (Z.ltb_spec 16 (ppos p + 2)); [split; inet_simpl; auto; lia|].
  rewrite wr_Some by lia. split.
  - split; [split; inet_simpl; rewrite ?zlen_insert; auto|inet_simpl..]; try lia.
    + apply is_byte_insert; [done|]. unfold is_byte. lia.
    + by case_match.
    + by case_match.
  - inet_simpl. destruct (ipv4_pos p + 1 =? 4); inet_simpl; lia.
Qed.

(** One turn from a state of the invariant. *)
Lemma inet_turn_ok s p :
  Forall (fun c => c <> 0) s -> inet_inv (zlen s) p ->
  turn_ok (zlen s) (inet_measure (zlen s) p) (inet_turn (s ++ [0]) p).
Proof.
  intros Hs [Hm Hptr Hpos Hdec]. unfold inet_turn.
  destruct (tokenize_spec s (in_ptr p) Hs Hptr) as (type & token & -> & Hl & Hn).
  set (p1 := {| in_ptr := in_ptr p + zlen token; token_len := zlen token; pstate := pstate p; ppos := ppos p;
                compress_pos := compress_pos p; ipv4_pos := ipv4_pos p; address := address p;
                domain := domain p |}).
  assert (Hm1 : inet_mem p1) by (destruct Hm; by split).
  assert (Hp1 : in_ptr p1 = in_ptr p + zlen token /\ token_len p1 = zlen token /\ ppos p1 = ppos p /\
                compress_pos p1 = compress_pos p) by done.
  assert (Hr : token_read (zlen s) (zlen s + 1 - in_ptr p) p1) by (split; [done|lia..]).
  assert (Hr6 : before_ipv4 (pstate p) = true -> token_read (zlen s) (inet_measure (zlen s) p - 6) p1).
  { intros E. unfold inet_measure. rewrite E. by replace (_ + 6 - 6) with (zlen s + 1 - in_ptr p) by lia. }
  assert (Hrs : forall st, before_ipv4 (pstate p) = true ->
                token_read (zlen s) (inet_measure (zlen s) p - 6) (set_state st p1)).
  { intros st E. destruct (Hr6 E) as [? ? ? ?]. split; [by apply inet_mem_set_state|done..]. }
  assert (Hin : type <> TOKEN_END -> in_ptr p1 <= zlen s) by (intros; destruct Hn; [done|lia]).
  assert (Hcont : forall st, type <> TOKEN_END -> st <> STATE_AFTERDEC ->
                before_ipv4 (pstate p) = true \/ before_ipv4 st = false ->
                turn_ok (zlen s) (inet_measure (zlen s) p) (Continue (set_state st p1))).
  { intros st Ht Hst Hb. specialize (Hin Ht). split.
    - split; [by apply inet_mem_set_state|cbn [in_ptr set_state]; lia|done|done].
    - unfold inet_measure. cbn [in_ptr pstate set_state]. destruct Hb as [->| ->]; repeat case_match; lia. }
  assert (He : type = TOKEN_END \/ in_ptr p1 <= zlen s) by (destruct Hn; [by left|right; lia]).
  change (pstate p1) with (pstate p).
  destruct type; [| | | | |done]; destruct (pstate p) eqn:Est; cbn [turn_ok]; try done;
    try (apply Hcont; [done|done|by auto]);
    try (apply on_field_ok; [by auto|done]);
    try (apply on_colon_compressed_ok; [by auto|by auto]);
    try (apply on_ipv4_byte_ok; [by unfold inet_measure; rewrite Est; cbn; rewrite Z.add_0_r|done]).
  destruct (Hdec eq_refl) as (Hd1 & Hd2 & Hd3).
  replace (-1 <? token_len p) with true by lia.
  apply on_first_dot_ok; [by auto|by auto|done|lia|lia].
Qed.

Lemma inet_loop_ok fuel s p :
  Forall (fun c => c <> 0) s -> inet_inv (zlen s) p -> inet_measure (zlen s) p < Z.of_nat fuel ->
  exists t, inet_loop fuel (s ++ [0]) p = Some t /\
    match t with
    | Break p' => inet_mem p'
    | Throw (IndexOutOfBounds _ _) => False
    | Throw _ => True
    | _ => False
    end.
Proof.
  intros Hs. revert p. induction fuel as [|f IH]; intros p Hp Hf.
  - destruct Hp as [_ Hp _ _]. unfold inet_measure in Hf. case_match; lia.
  - cbn [inet_loop]. pose proof (inet_turn_ok s p Hs Hp) as Ht.
    destruct (inet_turn _ p) as [p'| | |]; cbn [turn_ok] in Ht; [|by eauto..].
    destruct Ht as [Hi Hd]. apply IH; [done|lia].
Qed.

Lemma move_bytes_ok k i move_len compress a :
  zlen a = 16 -> Forall is_byte a -> 0 <= compress -> 0 <= i -> compress + move_len <= 15 ->
  i + Z.of_nat k = move_len ->
  exists a', move_bytes k i move_len compress a = inr (Some a') /\ zlen a' = 16 /\ Forall is_byte a'.
Proof.
  revert i a. induction k as [|k IH]; intros i a Ha Hb Hc Hi Hm Hk; cbn [move_bytes]; [by eauto|].
  unfold CASS_INET_V6_LENGTH. replace (_ && _ && _ && _) with true by lia.
  assert (exists v, rd a (compress + move_len - i - 1) = Some v /\ is_byte v) as (v & -> & Hv).
  { unfold rd. replace (_ <? 0) with false by lia.
    destruct (lookup_lt_is_Some_2 a (Z.to_nat (compress + move_len - i - 1))) as [v Hv].
    - unfold zlen in Ha. lia.
    - exists v. split; [done|]. rewrite Forall_lookup in Hb. eauto. }
  rewrite wr_Some by lia. rewrite wr_Some by (rewrite zlen_insert; lia).
  apply IH; rewrite ?zlen_insert; try lia.
  apply is_byte_insert; [by apply is_byte_insert|]. unfold is_byte. lia.
Qed.

(** The results the parser may return: an address of one of the two lengths, or an exception
    other than the internal bounds check. *)
Definition inet_result_ok (r : inet_result) : Prop :=
  match r with
  | InetOk i => (address_length i = 4 \/ address_length i = 16) /\
                zlen (inet_address i) = address_length i /\ Forall is_byte (inet_address i)
  | InetThrew (IndexOutOfBounds _ _) => False
  | InetThrew _ => True
  | InetOutOfBounds => False
  end.

Lemma init_v6_ok a : zlen a = 16 -> Forall is_byte a -> inet_result_ok (InetOk (cass_inet_init_v6 a)).
Proof.
  intros Ha Hb. cbn. unfold zlen in *. rewrite length_take. split; [by right|]. split; [|by apply Forall_take].
  unfold CASS_INET_V6_LENGTH. lia.
Qed.

Lemma inet_finish_ok p : inet_mem p -> inet_result_ok (inet_finish p).
Proof.
  intros [Hp Ha Hb Hc Hd]. unfold inet_finish, CASS_INET_V6_LENGTH.
  destruct (domain p); [|cbn|done].
  - destruct (Z.eqb_spec (compress_pos p) (-1)); cbn [negb].
    + repeat case_match; try done. by apply init_v6_ok.
    + destruct (Z.leb_spec 16 (ppos p + 1)); [done|].
      destruct (Z.eqb_spec (ppos p + 1) (compress_pos p)); cbn [negb]; [by apply init_v6_ok|].
      destruct (move_bytes_ok (Z.to_nat (ppos p + 1 - compress_pos p)) 0 (ppos p + 1 - compress_pos p)
                  (compress_pos p) (address p)) as (a & -> & Ha' & Hb'); try lia; [done|].
      by apply init_v6_ok.
  - unfold zlen in *. rewrite length_take. split; [by left|]. split; [|by apply Forall_take].
    unfold CASS_INET_V4_LENGTH. lia.
Qed.

(** *** Theorems *)

(** C22: the IP address parser returns on every input - its loop ends within the fuel -, never
    reads or writes outside of its buffers, never meets its own bounds check, and what it accepts
    is an address of 4 or 16 bytes. *)
Theorem parse_ip_address_safe s :
  exists r, php_scylladb_parse_ip_address s = Some r /\ inet_result_ok r.
Proof.
  unfold php_scylladb_parse_ip_address, IP_MAX_ADDRLEN.
  destruct (Z.eqb_spec (zlen s) (strlen s)) as [Hl|]; [|by eexists]. cbn [negb].
  case_match; [by eexists|].
  assert (Hs : Forall (fun c => c <> 0) s) by by apply strlen_full.
  destruct (inet_loop_ok (inet_fuel s) s inet_start Hs) as (t & -> & Ht).
  { apply inet_start_inv, zlen_nonneg. }
  { unfold inet_measure, inet_fuel, zlen. cbn [in_ptr inet_start pstate before_ipv4]. lia. }
  destruct t as [|p'|e|]; try done; eexists; (split; [done|]); [by apply inet_finish_ok|by destruct e].
Qed.

(** ** What the parser reads *)

Lemma rd_app pre s i : 0 <= i -> rd (pre ++ s) (zlen pre + i) = rd s i.
Proof.
  intros Hi. unfold rd. pose proof (zlen_nonneg pre). replace (zlen pre + i <? 0) with false by lia.
  replace (i <? 0) with false by lia. unfold zlen.
  rewrite Z2Nat.inj_add, Nat2Z.id, lookup_app_r by lia. f_equal. lia.
Qed.

Lemma rd_app0 pre c s : rd (pre ++ c :: s) (zlen pre) = Some c.
Proof. rewrite <- (Z.add_0_r (zlen pre)). by rewrite rd_app. Qed.

(** A run of lower-case digits that ends at a character that is none. *)
Lemma token_run_digits k pre ds c rest is_hex token :
  Forall (fun c => isxdigit c = true /\ tolower c = c) ds -> isxdigit c = false -> zlen ds <= Z.of_nat k ->
  token_run k (pre ++ ds ++ c :: rest) (zlen pre) is_hex token =
  Some (is_hex || negb (forallb isdigit ds), token ++ ds).
Proof.
  intros Hd Hc. revert k pre is_hex token.
  induction Hd as [|d ds [Hx Hl] _ IH]; intros k pre is_hex token Hk.
  - cbn [app forallb negb]. rewrite orb_false_r, app_nil_r. destruct k; [done|].
    cbn [token_run]. by rewrite rd_app0, Hc.
  - rewrite zlen_cons in Hk. pose proof (zlen_nonneg ds). destruct k as [|k]; [lia|].
    cbn [app token_run]. rewrite rd_app0, Hx, Hl.
    replace (pre ++ d :: ds ++ c :: rest) with ((pre ++ [d]) ++ ds ++ c :: rest) by by rewrite <- app_assoc.
    replace (zlen pre + 1) with (zlen (pre ++ [d])) by by rewrite zlen_app.
    rewrite IH by lia. cbn [forallb]. rewrite <- app_assoc. cbn [app].
    by destruct is_hex, (isdigit d), (forallb isdigit ds).
Qed.

Definition number_type (ds : bytes) : ip_address_token_type :=
  if forallb isdigit ds then TOKEN_DEC else TOKEN_HEX.

Lemma tokenize_digits pre ds c rest :
  Forall (fun c => isxdigit c = true /\ tolower c = c) ds -> isxdigit c = false -> 1 <= zlen ds <= 4 ->
  ip_address_tokenize (pre ++ ds ++ c :: rest) (zlen pre) = Some (number_type ds, ds, zlen pre + zlen ds).
Proof.
  intros Hd Hc Hl. unfold ip_address_tokenize.
  pose proof (token_run_digits TOKEN_MAX_LEN pre ds c rest false [] Hd Hc) as Hr.
  rewrite Hr by (unfold TOKEN_MAX_LEN; lia). destruct ds as [|d ds]; [change (zlen (@nil Z)) with 0 in Hl; lia|].
  cbn [app]. rewrite rd_app0. apply Forall_cons_1 in Hd as [[-> _] _]. cbn [orb].
  unfold number_type. by destruct (forallb isdigit (d :: ds)).
Qed.

Lemma tokenize_char pre c rest :
  isxdigit c = false ->
  ip_address_tokenize (pre ++ c :: rest) (zlen pre) =
  Some (if c =? 0 then TOKEN_END else if c =? 58 then TOKEN_COLON else if c =? 46 then TOKEN_DOT
        else TOKEN_ILLEGAL, [c], zlen pre + 1).
Proof. intros Hc. unfold ip_address_tokenize. by rewrite rd_app0, Hc. Qed.

(** Characters of a printed number. *)
Lemma show_nat_xdigit b n :
  2 <= b <= 16 -> 0 <= n -> Forall (fun c => isxdigit c = true /\ tolower c = c) (show_nat b n).
Proof.
  intros Hb Hn. unfold show_nat. destruct (Z.eqb_spec n 0); [by repeat constructor|].
  apply Forall_map. eapply Forall_impl; [|apply (to_digits_range b n); lia].
  cbn. intros d Hd. unfold digit_char, isxdigit, isdigit, isupper_hex, islower_hex, tolower.
  destruct (Z.ltb_spec d 10); (split; [lia|]); by replace ((65 <=? _) && _) with false by lia.
Qed.

(** ** Runs of the loop *)

Inductive inet_steps (buf : bytes) : inet_parser -> inet_parser -> Prop :=
| steps_refl p : inet_steps buf p p
| steps_cons p p1 p2 : inet_turn buf p = Continue p1 -> inet_steps buf p1 p2 -> inet_steps buf p p2.

Lemma steps_trans buf p1 p2 p3 : inet_steps buf p1 p2 -> inet_steps buf p2 p3 -> inet_steps buf p1 p3.
Proof. induction 1; eauto using inet_steps. Qed.

Lemma steps_one buf p p1 : inet_turn buf p = Continue p1 -> inet_steps buf p p1.
Proof. eauto using inet_steps. Qed.

(** The loop ends where a run of turns ends. *)
Lemma loop_steps buf p p' q :
  inet_steps buf p p' -> inet_turn buf p' = Break q ->
  forall fuel t, inet_loop fuel buf p = Some t -> t = Break q.
Proof.
  induction 1 as [p|p p1 p2 H1 _ IH]; intros Hb [|f] t; cbn [inet_loop]; try done.
  - rewrite Hb. congruence.
  - rewrite H1. by apply IH.
Qed.

Lemma parse_by_steps s p q :
  Forall (fun c => c <> 0) s -> zlen s <= 49 ->
  inet_steps (s ++ [0]) inet_start p -> inet_turn (s ++ [0]) p = Break q ->
  php_scylladb_parse_ip_address s = Some (inet_finish q).
Proof.
  intros Hs Hl Hst Hb. unfold php_scylladb_parse_ip_address, IP_MAX_ADDRLEN.
  rewrite strlen_no_nul, Z.eqb_refl by done. replace (50 - 1 <? zlen s) with false by lia. cbn [negb].
  destruct (inet_loop_ok (inet_fuel s) s inet_start Hs) as (t & E & _).
  { apply inet_start_inv, zlen_nonneg. }
  { unfold inet_measure, inet_fuel, zlen. cbn [in_ptr inet_start pstate before_ipv4]. lia. }
  rewrite E. by rewrite (loop_steps _ _ _ _ Hst Hb _ _ E).
Qed.

(** ** Runs over fields *)

(** The parser with [done] stored, the rest of [address] still zero. *)
Definition parser_at (ptr tl : Z) (st : inet_parser_state) (done : bytes) (compress ip4 : Z) : inet_parser := {|
  in_ptr := ptr; token_len := tl; pstate := st; ppos := zlen done - 1; compress_pos := compress;
  ipv4_pos := ip4; address := done ++ repeat 0 (16 - length done); domain := NoDomain |}.

Lemma wr_next done v :
  zlen done < 16 ->
  wr (done ++ repeat 0 (16 - length done)) (zlen done) v =
  Some ((done ++ [v]) ++ repeat 0 (16 - length (done ++ [v]))).
Proof.
  intros H. unfold zlen in H. rewrite wr_Some.
  2: { unfold zlen. rewrite length_app, repeat_length. lia. }
  f_equal. unfold zlen. rewrite Nat2Z.id.
  replace (length done) with (length done + 0)%nat at 1 by lia. rewrite insert_app_r.
  rewrite length_app. cbn [length]. replace (16 - length done)%nat with (S (16 - (length done + 1))) by lia.
  cbn [repeat]. rewrite <- app_assoc. done.
Qed.

(** The two bytes of a group. *)
Definition group_bytes (g : Z) : bytes := [g / 256; g mod 256].

Lemma group_split g :
  0 <= g < 65536 ->
  Z.shiftr (Z.land g 65280) 8 = g / 256 /\ Z.land g 255 = g mod 256.
Proof.
  intros Hg. change 65280 with (255 * 2 ^ 8).
  rewrite <- Z.shiftl_mul_pow2, Z.shiftr_land, Z.shiftr_shiftl_l by lia.
  change (Z.shiftl 255 (8 - 8)) with (Z.ones 8). change 255 with (Z.ones 8).
  rewrite !Z.land_ones, Z.shiftr_div_pow2 by lia. split; [|done].
  apply Z.mod_small. split; [apply Z.div_pos; lia|apply Z.div_lt_upper_bound; lia].
Qed.

Lemma push_group g ptr tl st done compress ip4 :
  0 <= g < 65536 -> zlen done <= 14 ->
  push2 (Z.shiftr (Z.land g 65280) 8) (Z.land g 255) (parser_at ptr tl st done compress ip4) =
  Some (parser_at ptr tl st (done ++ group_bytes g) compress ip4).
Proof.
  intros Hg Hd. destruct (group_split g Hg) as [-> ->]. unfold push2, parser_at, group_bytes.
  cbn [address ppos in_ptr token_len pstate compress_pos ipv4_pos domain].
  replace (zlen done - 1 + 1) with (zlen done) by lia. rewrite wr_next by lia.
  replace (zlen done - 1 + 2) with (zlen (done ++ [g / 256])) by (rewrite zlen_app; change (zlen [_]) with 1; lia).
  rewrite wr_next by (rewrite zlen_app; change (zlen [_]) with 1; lia).
  f_equal. f_equal.
  - rewrite !zlen_app, !zlen_cons, zlen_nil. lia.
  - by rewrite <- (app_assoc done [_] [_]).
Qed.

(** The states that accept a field, and the state after one. *)
Definition field_state (st : inet_parser_state) : Prop :=
  st = STATE_START \/ st = STATE_AFTERCOLON \/ st = STATE_FIELD.

Definition after_number (ds : bytes) : inet_parser_state :=
  if forallb isdigit ds then STATE_AFTERDEC else STATE_AFTERHEX.

Lemma field_turn pre ds c rest st tl done compress ip4 g :
  field_state st -> Forall (fun c => isxdigit c = true /\ tolower c = c) ds -> isxdigit c = false ->
  1 <= zlen ds <= 4 -> (strtoull ds 16).1.1 = g -> 0 <= g < 65536 -> zlen done <= 14 ->
  inet_turn (pre ++ ds ++ c :: rest) (parser_at (zlen pre) tl st done compress ip4) =
  Continue (parser_at (zlen pre + zlen ds) (zlen ds) (after_number ds) (done ++ group_bytes g) compress ip4).
Proof.
  intros Hst Hds Hc Hl Hg Hr Hd. unfold inet_turn. cbn [in_ptr parser_at].
  rewrite tokenize_digits by done.
  assert (Hf : forall st', on_field (parser_at (zlen pre + zlen ds) (zlen ds) st' done compress ip4)
             (number_type ds) ds (zlen pre + zlen ds - 1) =
           Continue (parser_at (zlen pre + zlen ds) (zlen ds) (after_number ds) (done ++ group_bytes g) compress ip4)).
  { intros st'. unfold on_field. rewrite Hg. unfold number_type, after_number.
    destruct (forallb isdigit ds); cbn [bool_decide decide decide_rel andb];
      (rewrite bool_decide_eq_false_2 by done); cbn [andb];
      unfold set_state; cbn [ppos parser_at]; unfold CASS_INET_V6_LENGTH;
      replace (16 <? zlen done - 1 + 3) with false by lia;
      (match goal with |- context [push2 _ _ ?p] =>
         change p with (parser_at (zlen pre + zlen ds) (zlen ds) (pstate p) done compress ip4) end);
      cbn [pstate]; by rewrite push_group by done. }
  unfold parser_at in Hf |- *; destruct Hst as [-> | [-> | ->]]; cbn [pstate];
    unfold number_type in *; destruct (forallb isdigit ds); exact (Hf STATE_FIELD).
Qed.

Definition after_field (st : inet_parser_state) : Prop := st = STATE_AFTERHEX \/ st = STATE_AFTERDEC.

Lemma after_number_field ds : after_field (after_number ds).
Proof. unfold after_number. case_match; [by right|by left]. Qed.

Lemma colon_turn pre rest tl st done compress ip4 :
  after_field st ->
  inet_turn (pre ++ 58 :: rest) (parser_at (zlen pre) tl st done compress ip4) =
  Continue (parser_at (zlen pre + 1) 1 STATE_AFTERCOLON done compress ip4).
Proof.
  intros Hst. unfold inet_turn. cbn [in_ptr parser_at]. rewrite tokenize_char by done.
  by destruct Hst as [-> | ->].
Qed.

Lemma end_turn pre tl st done compress ip4 :
  after_field st \/ (st = STATE_FIELD /\ compress = zlen done) ->
  inet_turn (pre ++ [0]) (parser_at (zlen pre) tl st done compress ip4) =
  Break (parser_at (zlen pre + 1) 1 st done compress ip4).
Proof.
  intros Hst. unfold inet_turn. cbn [in_ptr parser_at]. rewrite tokenize_char by done.
  destruct Hst as [[-> | ->] | [-> ->]]; cbn [pstate parser_at Z.eqb]; [done..|].
  unfold on_field. rewrite bool_decide_eq_true_2 by done. unfold parser_at. cbn [ppos compress_pos andb].
  replace (zlen done - 1 + 1 =? zlen done) with true by lia. done.
Qed.

(** A group as it is printed. *)
Definition hex (g : Z) : bytes := show_nat 16 g.

Definition is_group (g : Z) : Prop := 0 <= g < 65536.

Lemma hex_facts g :
  is_group g ->
  Forall (fun c => isxdigit c = true /\ tolower c = c) (hex g) /\ 1 <= zlen (hex g) <= 4 /\
  (strtoull (hex g) 16).1.1 = g.
Proof.
  intros Hg. unfold is_group, hex in *. split; [apply show_nat_xdigit; lia|].
  split; [apply show_nat_length; lia|]. unfold strtoull. rewrite strto_show by lia.
  cbn [strto_magnitude strto_neg]. unfold ULONG_MAX. replace (_ <? g) with false by lia.
  apply wrapU_id. unfold in_u. lia.
Qed.

Lemma join_cons sep x l : l <> [] -> join sep (x :: l) = x ++ sep :: join sep l.
Proof. by destruct l. Qed.

Lemma fields_run gs c rest compress ip4 :
  Forall is_group gs -> gs <> [] -> isxdigit c = false ->
  forall pre tl0 st done, field_state st -> zlen done + 2 * zlen gs <= 16 ->
  exists tl st', after_field st' /\
    inet_steps (pre ++ join 58 (map hex gs) ++ c :: rest) (parser_at (zlen pre) tl0 st done compress ip4)
      (parser_at (zlen pre + zlen (join 58 (map hex gs))) tl st' (done ++ flat_map group_bytes gs) compress ip4).
Proof.
  intros Hgs Hne Hc. induction Hgs as [|g gs Hg Hgs IH]; [done|]. intros pre tl0 st done Hst Hd.
  destruct (hex_facts g Hg) as (Hx & Hl & Hv). rewrite zlen_cons in Hd. pose proof (zlen_nonneg gs).
  destruct (decide (gs = [])) as [->|Hne'].
  - cbn [map join flat_map]. rewrite app_nil_r. eexists _, _. split; [apply after_number_field|].
    apply steps_one. apply field_turn; try done. lia.
  - cbn [map flat_map]. rewrite join_cons by by destruct gs.
    destruct (IH Hne' (pre ++ hex g ++ [58]) 1 STATE_AFTERCOLON (done ++ group_bytes g)) as (tl & st' & Hst' & Hrun).
    { right. by left. } { rewrite zlen_app. change (zlen (group_bytes g)) with 2. lia. }
    exists tl, st'. split; [done|]. eapply steps_cons.
    { rewrite <- app_assoc. cbn [app]. apply field_turn; try done. lia. }
    eapply steps_cons.
    { rewrite <- app_assoc. cbn [app]. rewrite app_assoc, <- zlen_app. apply colon_turn, after_number_field. }
    match type of Hrun with inet_steps ?b1 ?x1 ?y1 =>
      match goal with |- inet_steps ?b2 ?x2 ?y2 =>
        replace b2 with b1 by (rewrite <- !app_assoc; reflexivity);
        replace x2 with x1 by (f_equal; rewrite !zlen_app, zlen_cons, zlen_nil; lia);
        replace y2 with y1 by (rewrite <- app_assoc; f_equal; rewrite !zlen_app, !zlen_cons, zlen_nil; lia)
      end end.
    exact Hrun.
Qed.

Lemma join_length k l :
  Forall (fun x => zlen x <= k) l -> 0 <= k -> zlen (join 58 l) <= (k + 1) * zlen l.
Proof.
  intros H Hk. induction H as [|x l Hx H IH]; [unfold zlen; cbn [join length]; lia|].
  rewrite zlen_cons. pose proof (zlen_nonneg l).
  destruct (decide (l = [])) as [->|]; [cbn [join]; change (zlen (@nil bytes)) with 0; nia|].
  rewrite join_cons, zlen_app, zlen_cons by done. nia.
Qed.

Lemma join_no_nul sep l :
  sep <> 0 -> Forall (Forall (fun c => c <> 0)) l -> Forall (fun c => c <> 0) (join sep l).
Proof.
  intros Hs. induction 1 as [|x l Hx H IH]; [done|].
  destruct (decide (l = [])) as [->|]; [done|]. rewrite join_cons by done.
  apply Forall_app. split; [done|]. by constructor.
Qed.

Lemma hex_no_nul g : is_group g -> Forall (fun c => c <> 0) (hex g).
Proof.
  intros Hg. destruct (hex_facts g Hg) as (Hx & _). eapply Forall_impl; [|exact Hx].
  cbn. intros c [Hc _]. by apply isxdigit_nonzero.
Qed.

Lemma groups_text gs :
  Forall is_group gs ->
  Forall (fun c => c <> 0) (join 58 (map hex gs)) /\ zlen (join 58 (map hex gs)) <= 5 * zlen gs.
Proof.
  intros Hgs. split.
  - apply join_no_nul; [done|]. apply Forall_map. eapply Forall_impl; [apply hex_no_nul|done].
  - replace (zlen gs) with (zlen (map hex gs)) by (unfold zlen; by rewrite length_map).
    apply (join_length 4); [|lia]. apply Forall_map. eapply Forall_impl; [|exact Hgs].
    cbn. intros g Hg. destruct (hex_facts g Hg) as (_ & ? & _). lia.
Qed.

Lemma zlen_flat_map_groups gs : zlen (flat_map group_bytes gs) = 2 * zlen gs.
Proof. induction gs as [|g gs IH]; [done|]. cbn [flat_map]. rewrite zlen_app, IH, zlen_cons. by change (zlen (group_bytes g)) with 2; lia. Qed.

(** Eight groups without compression. *)
Lemma parse_eight_groups gs :
  Forall is_group gs -> length gs = 8%nat ->
  php_scylladb_parse_ip_address (join 58 (map hex gs)) =
  Some (InetOk (cass_inet_init_v6 (flat_map group_bytes gs))).
Proof.
  intros Hgs Hl. destruct (groups_text gs Hgs) as [Hnn Hlen].
  assert (Hz : zlen gs = 8) by (unfold zlen; by rewrite Hl).
  destruct (fields_run gs 0 [] (-1) (-1) Hgs) with (pre := @nil Z) (tl0 := -1) (st := STATE_START) (done := @nil Z)
    as (tl & st' & Hst' & Hrun); [by destruct gs|done|by left|rewrite Hz; done|].
  cbn [app] in Hrun. change (zlen (@nil Z) + ?x) with (0 + x) in Hrun. rewrite Z.add_0_l in Hrun.
  erewrite parse_by_steps; [|done|lia|exact Hrun|apply end_turn; by left].
  unfold inet_finish, parser_at. cbn [domain compress_pos ppos address]. rewrite zlen_flat_map_groups, Hz.
  cbn. f_equal. f_equal. pose proof (zlen_flat_map_groups gs) as Hf. rewrite Hz in Hf. unfold zlen in Hf.
  replace (length (flat_map group_bytes gs)) with 16%nat by lia. cbn [Nat.sub repeat]. by rewrite app_nil_r.
Qed.

(** ** Compression *)

Lemma wr_app0 pre x s v : wr (pre ++ x :: s) (zlen pre) v = Some (pre ++ v :: s).
Proof.
  pose proof (zlen_nonneg s). rewrite wr_Some.
  2: { rewrite zlen_app, zlen_cons. pose proof (zlen_nonneg pre). lia. }
  f_equal. unfold zlen. rewrite Nat2Z.id.
  replace (length pre) with (length pre + 0)%nat by lia. by rewrite insert_app_r.
Qed.

Lemma repeat_snoc {A} (x : A) n : repeat x (S n) = repeat x n ++ [x].
Proof. rewrite <- Nat.add_1_r. apply repeat_app. Qed.

Lemma move_bytes_spec d1 da gap :
  forall db, zlen d1 + zlen da + Z.of_nat (S gap) + zlen db = 16 ->
  move_bytes (length da) (zlen db) (zlen da + zlen db) (zlen d1) (d1 ++ da ++ repeat 0 (S gap) ++ db) =
  inr (Some (d1 ++ repeat 0 (S gap) ++ da ++ db)).
Proof.
  induction da as [|v da IH] using rev_ind; intros db Hl; [done|].
  rewrite zlen_app in Hl. change (zlen [v]) with 1 in Hl.
  rewrite length_app, Nat.add_1_r, zlen_app. change (zlen [v]) with 1. cbn [move_bytes].
  pose proof (zlen_nonneg d1). pose proof (zlen_nonneg da). pose proof (zlen_nonneg db).
  unfold CASS_INET_V6_LENGTH. replace (_ && _) with true by lia.
  set (pre := d1 ++ da). assert (Hp : zlen pre = zlen d1 + zlen da) by (unfold pre; apply zlen_app).
  replace (zlen d1 + (zlen da + 1 + zlen db) - zlen db - 1) with (zlen pre) by lia.
  replace (d1 ++ (da ++ [v]) ++ repeat 0 (S gap) ++ db) with (pre ++ v :: repeat 0 (S gap) ++ db)
    by (unfold pre; rewrite <- !app_assoc; reflexivity).
  rewrite rd_app0. rewrite repeat_snoc.
  replace (pre ++ v :: (repeat 0 gap ++ [0]) ++ db) with ((pre ++ v :: repeat 0 gap) ++ 0 :: db)
    by (rewrite <- !app_assoc; reflexivity).
  replace (16 - zlen db - 1) with (zlen (pre ++ v :: repeat 0 gap))
    by (rewrite zlen_app, zlen_cons, Hp; unfold zlen; rewrite repeat_length; unfold zlen in *; lia).
  rewrite wr_app0.
  replace ((pre ++ v :: repeat 0 gap) ++ v :: db) with (pre ++ v :: repeat 0 gap ++ v :: db) by by rewrite <- app_assoc.
  rewrite wr_app0. specialize (IH (v :: db)). rewrite zlen_cons in IH.
  replace (pre ++ 0 :: repeat 0 gap ++ v :: db) with (d1 ++ da ++ repeat 0 (S gap) ++ v :: db)
    by (unfold pre; rewrite <- app_assoc; reflexivity).
  replace (zlen db + 1) with (1 + zlen db) by lia.
  replace (zlen da + 1 + zlen db) with (zlen da + (1 + zlen db)) by lia.
  rewrite IH by lia. by rewrite <- repeat_snoc, <- (app_assoc da).
Qed.

(** [::] in front of everything, and after a field. *)
Lemma leading_compression rest :
  inet_steps (58 :: 58 :: rest) inet_start (parser_at 2 1 STATE_FIELD [] 0 (-1)).
Proof.
  eapply steps_cons; [reflexivity|]. eapply steps_cons; [reflexivity|]. apply steps_refl.
Qed.

Lemma inner_compression pre rest tl st done ip4 :
  after_field st -> done <> [] ->
  inet_steps (pre ++ 58 :: 58 :: rest) (parser_at (zlen pre) tl st done (-1) ip4)
    (parser_at (zlen pre + 2) 1 STATE_FIELD done (zlen done) ip4).
Proof.
  intros Hst Hd. assert (0 < zlen done). { destruct done; [done|]. rewrite zlen_cons. pose proof (zlen_nonneg done). lia. }
  eapply steps_cons; [by apply colon_turn|]. apply steps_one. unfold inet_turn. cbn [in_ptr parser_at].
  replace (zlen pre + 1) with (zlen (pre ++ [58])) by by rewrite zlen_app.
  replace (pre ++ 58 :: 58 :: rest) with ((pre ++ [58]) ++ 58 :: rest) by by rewrite <- app_assoc.
  rewrite tokenize_char by done. cbn [Z.eqb Pos.eqb]. unfold parser_at. cbn [pstate]. unfold on_colon_compressed, set_state.
  cbn [compress_pos ppos Z.eqb negb in_ptr token_len ipv4_pos address domain]. 
  replace (zlen done - 1 =? -1) with false by lia. do 2 f_equal; [|lia].
  rewrite zlen_app. change (zlen [58]) with 1. lia.
Qed.

(** The end of a compressed address. *)
Lemma finish_compressed ptr tl st d1 d2 ip4 :
  zlen d1 + zlen d2 <= 15 ->
  inet_finish (parser_at ptr tl st (d1 ++ d2) (zlen d1) ip4) =
  InetOk (cass_inet_init_v6 (d1 ++ repeat 0 (16 - length d1 - length d2) ++ d2)).
Proof.
  intros Hl. pose proof (zlen_nonneg d1). pose proof (zlen_nonneg d2).
  unfold inet_finish, parser_at. cbn [domain compress_pos ppos address]. rewrite zlen_app.
  replace (zlen d1 =? -1) with false by lia. cbn [negb]. unfold CASS_INET_V6_LENGTH.
  replace (16 <=? zlen d1 + zlen d2 - 1 + 1) with false by lia.
  replace (zlen d1 + zlen d2 - 1 + 1) with (zlen d1 + zlen d2) by lia.
  rewrite length_app, Nat.sub_add_distr, <- app_assoc.
  destruct (Z.eqb_spec (zlen d1 + zlen d2) (zlen d1)) as [E|E]; cbn [negb].
  - destruct d2; [|rewrite zlen_cons in E; pose proof (zlen_nonneg d2); lia]. cbn [app]. by rewrite app_nil_r.
  - replace (zlen d1 + zlen d2 - zlen d1) with (zlen d2) by lia.
    replace (Z.to_nat (zlen d2)) with (length d2) by (unfold zlen; lia).
    destruct (16 - length d1 - length d2)%nat as [|gap] eqn:Eg; [unfold zlen in *; lia|].
    pose proof (move_bytes_spec d1 d2 gap []) as Hm. change (zlen (@nil Z)) with 0 in Hm.
    rewrite !app_nil_r, (Z.add_0_r (zlen d2)) in Hm. rewrite Hm; [done|]. unfold zlen in *. lia.
Qed.

(** A colon pair between two runs of groups. *)
Definition compressed_text (l1 l2 : list Z) : bytes :=
  join 58 (map hex l1) ++ 58 :: 58 :: join 58 (map hex l2).

Lemma head_run l1 rest :
  Forall is_group l1 -> 2 * zlen l1 <= 14 ->
  let b1 := flat_map group_bytes l1 in
  let text := join 58 (map hex l1) in
  inet_steps (text ++ 58 :: 58 :: rest) inet_start
    (parser_at (zlen text + 2) 1 STATE_FIELD b1 (zlen b1) (-1)).
Proof.
  intros Hl1 Hlen b1 text. unfold b1, text. destruct (decide (l1 = [])) as [->|Hne].
  - apply leading_compression.
  - destruct (fields_run l1 58 (58 :: rest) (-1) (-1) Hl1 Hne eq_refl [] (-1) STATE_START [])
      as (tl & st & Hst & Hrun); [by left|rewrite zlen_nil; lia|].
    cbn [app] in Hrun. rewrite zlen_nil, Z.add_0_l in Hrun.
    eapply steps_trans; [exact Hrun|]. apply inner_compression; [done|].
    destruct l1; [done|]. by cbn [flat_map group_bytes app].
Qed.

Lemma tail_run pre l2 b1 :
  Forall is_group l2 -> zlen b1 + 2 * zlen l2 <= 14 ->
  exists q, let b2 := flat_map group_bytes l2 in
    (exists p, inet_steps (pre ++ join 58 (map hex l2) ++ [0])
                 (parser_at (zlen pre) 1 STATE_FIELD b1 (zlen b1) (-1)) p /\
               inet_turn (pre ++ join 58 (map hex l2) ++ [0]) p = Break q) /\
    inet_finish q = InetOk (cass_inet_init_v6 (b1 ++ repeat 0 (16 - length b1 - length b2) ++ b2)).
Proof.
  intros Hl2 Hlen. pose proof (zlen_nonneg l2). destruct (decide (l2 = [])) as [->|Hne].
  - eexists. split; [eexists; split; [apply steps_refl|apply end_turn; by right]|].
    rewrite <- (app_nil_r b1) at 1. apply finish_compressed. cbn [flat_map]. change (zlen (@nil Z)) with 0. change (zlen (@nil Z)) with 0 in Hlen. lia.
  - destruct (fields_run l2 0 [] (zlen b1) (-1) Hl2 Hne eq_refl pre 1 STATE_FIELD b1)
      as (tl & st & Hst & Hrun); [by right; right|lia|].
    eexists. split.
    + eexists. split; [exact Hrun|]. rewrite app_assoc, <- zlen_app. apply end_turn. by left.
    + apply finish_compressed. rewrite zlen_flat_map_groups. lia.
Qed.

(** The compressed notation of an IPv6 address is read as specified: for all sequences of
    groups [l1] and [l2] of at most seven groups together, the text "[l1]::[l2]" with the groups
    in hexadecimal parses to the groups of [l1], then zero groups up to the length of an address,
    then the groups of [l2]; a full address of eight groups parses to their bytes. *)
Theorem parse_ipv6_groups l1 l2 :
  Forall is_group l1 -> Forall is_group l2 ->
  let b1 := flat_map group_bytes l1 in
  let b2 := flat_map group_bytes l2 in
  ((length l1 + length l2 <= 7)%nat ->
   php_scylladb_parse_ip_address (compressed_text l1 l2) =
   Some (InetOk (cass_inet_init_v6 (b1 ++ repeat 0 (16 - length b1 - length b2) ++ b2)))) /\
  ((length l1 = 8)%nat ->
   php_scylladb_parse_ip_address (join 58 (map hex l1)) = Some (InetOk (cass_inet_init_v6 b1))).
Proof.
  intros Hl1 Hl2 b1 b2. split; [|by apply parse_eight_groups]. intros Hlen.
  assert (Hz : zlen l1 + zlen l2 <= 7) by (unfold zlen; lia).
  destruct (groups_text l1 Hl1) as [Hn1 Hs1]. destruct (groups_text l2 Hl2) as [Hn2 Hs2].
  assert (Hb1 : zlen b1 = 2 * zlen l1) by apply zlen_flat_map_groups.
  pose proof (zlen_nonneg l1). pose proof (zlen_nonneg l2).
  destruct (tail_run (join 58 (map hex l1) ++ [58; 58]) l2 b1 Hl2) as (q & (p & Hp & Hq) & Hf); [lia|].
  pose proof (head_run l1 (join 58 (map hex l2) ++ [0]) Hl1) as Hh.
  assert (E : (join 58 (map hex l1) ++ [58; 58]) ++ join 58 (map hex l2) ++ [0] =
          compressed_text l1 l2 ++ [0]).
  { unfold compressed_text. rewrite <- !app_assoc. reflexivity. }
  rewrite E in *. rewrite zlen_app in Hp. change (zlen [58; 58]) with 2 in Hp.
  unfold compressed_text in *. rewrite <- app_assoc in E, Hp, Hq. cbn [app] in E, Hp, Hq.
  erewrite parse_by_steps; [by rewrite Hf| | | |].
  - apply Forall_app. split; [done|]. by repeat constructor.
  - rewrite zlen_app, !zlen_cons. lia.
  - rewrite <- app_assoc. cbn [app]. eapply steps_trans; [apply Hh; lia|exact Hp].
  - rewrite <- app_assoc. cbn [app]. exact Hq.
Qed.

Lemma parse_ipv6_groups_witness :
  php_scylladb_parse_ip_address (bs "2001:db8::ff00:1") =
  Some (InetOk (cass_inet_init_v6 [32; 1; 13; 184; 0; 0; 0; 0; 0; 0; 0; 0; 255; 0; 0; 1])).
Proof.
  apply (proj1 (parse_ipv6_groups [8193; 3512] [65280; 1] ltac:(repeat constructor; unfold is_group; lia)
    ltac:(repeat constructor; unfold is_group; lia))).
  cbn. lia.
Defined.

(** ** Dotted quads *)

(** What the parser relies on for the text of a byte. *)
Definition byte_text_ok (d : Z) : bool :=
  let t := show_dec d in
  let g := (strtoull t 16).1.1 in
  forallb isdigit t && forallb (fun c => isxdigit c && (tolower c =? c)) t &&
  (1 <=? zlen t) && (zlen t <=? 3) && (wrapS 32 (strtol t 10).1.1 =? d) &&
  negb ((1 <? zlen t) && (char_at t 0 =? 48)) && (0 <=? g) && (g <? 65536).

Lemma byte_text d : 0 <= d < 256 -> byte_text_ok d = true.
Proof. by_bytes d. Qed.

Lemma byte_text_facts d :
  0 <= d < 256 ->
  let t := show_dec d in
  number_type t = TOKEN_DEC /\ after_number t = STATE_AFTERDEC /\
  Forall (fun c => isxdigit c = true /\ tolower c = c) t /\ 1 <= zlen t <= 3 /\
  wrapS 32 (strtol t 10).1.1 = d /\ (1 <? zlen t) && (char_at t 0 =? 48) = false /\
  0 <= (strtoull t 16).1.1 < 65536.
Proof.
  intros Hd t. pose proof (byte_text d Hd) as H. unfold byte_text_ok in H. fold t in H.
  repeat (apply andb_prop in H as [H ?]). apply negb_true_iff in H2. unfold number_type, after_number. rewrite H.
  split_and!; try done; try lia. rewrite forallb_forall in H6. apply List.Forall_forall.
  intros c Hc. apply H6 in Hc. apply andb_prop in Hc as [? ?]. split; [done|lia].
Qed.

Lemma first_dot_turn pre ds rest done g compress ip4 :
  zlen done <= 14 ->
  inet_turn (pre ++ ds ++ 46 :: rest)
    (parser_at (zlen pre + zlen ds) (zlen ds) STATE_AFTERDEC (done ++ group_bytes g) compress ip4) =
  Continue (parser_at (zlen pre) 1 STATE_IPV4BYTE done compress 0).
Proof.
  intros Hd. unfold inet_turn. cbn [in_ptr parser_at]. rewrite app_assoc, <- zlen_app, tokenize_char by done.
  unfold parser_at. cbn [Z.eqb Pos.eqb pstate token_len]. pose proof (zlen_nonneg ds). pose proof (zlen_nonneg done).
  replace (-1 <? zlen ds) with true by lia. unfold on_first_dot. cbn [ppos address in_ptr compress_pos domain token_len].
  rewrite zlen_app. change (zlen (group_bytes g)) with 2. unfold group_bytes.
  replace (zlen done + 2 - 1 <? 1) with false by lia.
  replace (done ++ [g / 256; g mod 256]) with ((done ++ [g / 256]) ++ [g mod 256]) at 1 by by rewrite <- app_assoc.
  rewrite <- (app_assoc (done ++ [g / 256])). cbn [app].
  replace (zlen done + 2 - 1) with (zlen (done ++ [g / 256])) by (rewrite zlen_app; change (zlen [_]) with 1; lia).
  rewrite wr_app0. rewrite <- app_assoc. cbn [app].
  replace (zlen (done ++ [g / 256]) - 1) with (zlen done) by (rewrite zlen_app; change (zlen [_]) with 1; lia).
  rewrite wr_app0. rewrite !zlen_app. change (zlen [46]) with 1. change (zlen [_]) with 1. do 2 f_equal; try lia.
  rewrite length_app. cbn [length]. f_equal. unfold zlen in Hd.
  replace (16 - length done)%nat with (S (S (16 - (length done + 2)))) by lia. done.
Qed.

(** A byte of the quad; the fourth one ends it and, when nothing but the quad was stored, makes
    the address an IPv4 address. *)
Definition after_byte (ptr tl : Z) (done : bytes) (compress n : Z) : inet_parser :=
  let p := parser_at ptr tl (if n =? 4 then STATE_END else STATE_IPV4DOT) done compress n in
  {| in_ptr := in_ptr p; token_len := token_len p; pstate := pstate p; ppos := ppos p;
     compress_pos := compress; ipv4_pos := n; address := address p;
     domain := if (n =? 4) && (compress =? -1) && (zlen done =? 4) then IPV4 else NoDomain |}.

Lemma byte_turn pre d c rest tl done compress n :
  0 <= d < 256 -> isxdigit c = false -> zlen done <= 15 ->
  inet_turn (pre ++ show_dec d ++ c :: rest) (parser_at (zlen pre) tl STATE_IPV4BYTE done compress n) =
  Continue (after_byte (zlen pre + zlen (show_dec d)) (zlen (show_dec d)) (done ++ [d]) compress (n + 1)).
Proof.
  intros Hd Hc Hl. destruct (byte_text_facts d Hd) as (Ht & _ & Hx & Hn & Hv & Hz & _).
  unfold inet_turn. cbn [in_ptr parser_at]. rewrite tokenize_digits by (try done; lia). rewrite Ht.
  unfold parser_at. cbn [pstate]. unfold on_ipv4_byte, CASS_INET_V4_LENGTH, CASS_INET_V6_LENGTH.
  rewrite bool_decide_eq_true_2 by done. cbn [negb token_len ppos address in_ptr ipv4_pos domain compress_pos].
  rewrite Hz, Hv. replace ((d <? 0) || (255 <? d)) with false by lia.
  replace (16 <? zlen done - 1 + 2) with false by lia.
  replace (zlen done - 1 + 1) with (zlen done) by lia. rewrite wr_next by lia.
  unfold after_byte, parser_at. cbn [in_ptr token_len pstate ppos address]. rewrite zlen_app. change (zlen [d]) with 1.
  replace (zlen done - 1 + 2) with (zlen done + 1) by lia. do 2 f_equal. lia.
Qed.

Lemma dot_turn pre rest tl done compress n :
  n <> 4 ->
  inet_turn (pre ++ 46 :: rest) (after_byte (zlen pre) tl done compress n) =
  Continue (parser_at (zlen pre + 1) 1 STATE_IPV4BYTE done compress n).
Proof.
  intros Hn. unfold inet_turn, after_byte, parser_at. cbn [in_ptr]. rewrite tokenize_char by done.
  replace (n =? 4) with false by lia. done.
Qed.

Lemma byte_dot_run pre d rest tl done compress n :
  0 <= d < 256 -> zlen done <= 15 -> n + 1 <> 4 ->
  inet_steps (pre ++ show_dec d ++ 46 :: rest) (parser_at (zlen pre) tl STATE_IPV4BYTE done compress n)
    (parser_at (zlen (pre ++ show_dec d ++ [46])) 1 STATE_IPV4BYTE (done ++ [d]) compress (n + 1)).
Proof.
  intros Hd Hl Hn. eapply steps_cons; [by apply byte_turn|].
  replace (parser_at (zlen (pre ++ show_dec d ++ [46])) 1 STATE_IPV4BYTE (done ++ [d]) compress (n + 1))
    with (parser_at (zlen (pre ++ show_dec d) + 1) 1 STATE_IPV4BYTE (done ++ [d]) compress (n + 1)).
  - apply steps_one. rewrite app_assoc, <- zlen_app. by apply dot_turn.
  - f_equal. rewrite !zlen_app. change (zlen [46]) with 1. lia.
Qed.

Lemma parse_quad a b c d :
  Forall is_byte [a; b; c; d] ->
  php_scylladb_parse_ip_address (join 46 (map show_dec [a; b; c; d])) =
  Some (InetOk {| inet_address := [a; b; c; d]; address_length := 4 |}).
Proof.
  intros H. apply Forall_cons_1 in H as [Ha H]. apply Forall_cons_1 in H as [Hb H].
  apply Forall_cons_1 in H as [Hc H]. apply Forall_cons_1 in H as [Hd _]. unfold is_byte in *.
  destruct (byte_text_facts a Ha) as (_ & Haft & Hxa & Hla & _ & _ & Hga).
  destruct (byte_text_facts b Hb) as (_ & _ & Hxb & Hlb & _).
  destruct (byte_text_facts c Hc) as (_ & _ & Hxc & Hlc & _).
  destruct (byte_text_facts d Hd) as (_ & _ & Hxd & Hld & _).
  assert (Hnn : forall t, Forall (fun c => isxdigit c = true /\ tolower c = c) t -> Forall (fun c => c <> 0) t).
  { intros t Ht. eapply Forall_impl; [|exact Ht]. cbn. intros x [Hx _]. by apply isxdigit_nonzero. }
  cbn [map join].
  set (pa := show_dec a ++ [46]). set (pb := pa ++ show_dec b ++ [46]). set (pc := pb ++ show_dec c ++ [46]).
  assert (E : (show_dec a ++ 46 :: show_dec b ++ 46 :: show_dec c ++ 46 :: show_dec d) ++ [0] =
              pc ++ show_dec d ++ [0]).
  { unfold pc, pb, pa. rewrite <- !app_assoc. cbn [app]. rewrite <- !app_assoc. cbn [app]. by rewrite <- !app_assoc. }
  etransitivity; [eapply parse_by_steps|].
  - repeat (first [apply Forall_app; split; [by apply Hnn|]|constructor; [done|]]). by apply Hnn.
  - rewrite !zlen_app, !zlen_cons, !zlen_app, !zlen_cons, !zlen_app, !zlen_cons. lia.
  - rewrite E. eapply steps_cons.
    { unfold pc, pb, pa. rewrite <- !app_assoc. cbn [app].
      eapply (field_turn [] (show_dec a) 46 _ STATE_START (-1) [] (-1) (-1)); try done; [by left|lia]. }
    rewrite Haft. eapply steps_cons.
    { unfold pc, pb, pa. rewrite <- !app_assoc. cbn [app]. by apply (first_dot_turn [] (show_dec a) _ []). }
    eapply steps_trans.
    { unfold pc, pb, pa. rewrite <- !app_assoc. cbn [app]. by apply (byte_dot_run [] a _ 1 [] (-1) 0). }
    cbn [app]. fold pa. eapply steps_trans.
    { unfold pc, pb. rewrite <- !app_assoc. cbn [app]. by apply (byte_dot_run pa b _ 1 [a] (-1) 1). }
    cbn [app]. fold pb. eapply steps_trans.
    { unfold pc. rewrite <- !app_assoc. cbn [app]. by apply (byte_dot_run pb c _ 1 [a; b] (-1) 2). }
    cbn [app]. fold pc. apply steps_one. by apply (byte_turn pc d 0 [] 1 [a; b; c] (-1) 3).
  - rewrite E. unfold inet_turn, after_byte, parser_at. cbn [in_ptr].
    rewrite app_assoc, <- zlen_app, tokenize_char by done. reflexivity.
  - reflexivity.
Qed.

(** ** Printed addresses *)

(** An address the driver hands out: 4 or 16 bytes, and the matching length. *)
Definition valid_inet (i : CassInet) : Prop :=
  (address_length i = 4 \/ address_length i = 16) /\
  zlen (inet_address i) = address_length i /\ Forall is_byte (inet_address i).

Lemma group_join x y : is_byte x -> is_byte y -> is_group (x * 256 + y).
Proof. unfold is_byte, is_group. lia. Qed.

Lemma group_join_bytes x y : is_byte x -> is_byte y -> group_bytes (x * 256 + y) = [x; y].
Proof.
  unfold is_byte, group_bytes. intros Hx Hy. rewrite Z.div_add_l, Z.div_small, Z.add_0_r by lia.
  f_equal. f_equal. rewrite Z.add_comm, Z.mod_add by lia. by apply Z.mod_small.
Qed.

Lemma address_groups b0 b1 b2 b3 b4 b5 b6 b7 b8 b9 b10 b11 b12 b13 b14 b15 :
  map (group [b0; b1; b2; b3; b4; b5; b6; b7; b8; b9; b10; b11; b12; b13; b14; b15]) [0; 1; 2; 3; 4; 5; 6; 7] =
  [b0 * 256 + b1; b2 * 256 + b3; b4 * 256 + b5; b6 * 256 + b7; b8 * 256 + b9; b10 * 256 + b11; b12 * 256 + b13; b14 * 256 + b15].
Proof. reflexivity. Qed.

(** Printing an address and parsing the text gives the address back, for every IPv4 and
    every IPv6 address. *)
Theorem parse_format_address i :
  valid_inet i ->
  php_scylladb_parse_ip_address (php_scylladb_format_address i) = Some (InetOk i).
Proof.
  destruct i as [a n]. unfold valid_inet. cbn [address_length inet_address].
  intros ([-> | ->] & Hl & Hb); unfold zlen in Hl; unfold php_scylladb_format_address; cbn [address_length inet_address].
  - destruct a as [|x0 [|x1 [|x2 [|x3 [|]]]]]; cbn [length] in Hl; try lia. by apply parse_quad.
  - do 16 (destruct a as [|? a]; cbn [length] in Hl; [lia|]). destruct a; cbn [length] in Hl; [|lia].
    repeat match goal with H : Forall _ (_ :: _) |- _ => apply Forall_cons_1 in H as [? H] end.
    match goal with |- context [group ?a _] =>
      etransitivity; [apply (parse_eight_groups (map (group a) [0; 1; 2; 3; 4; 5; 6; 7])); [|done]|] end.
    + rewrite address_groups. repeat apply Forall_cons_2; try apply Forall_nil_2; by apply group_join.
    + rewrite address_groups. cbn [flat_map].
      rewrite !group_join_bytes by done. reflexivity.
Qed.

Lemma parse_format_address_witness :
  php_scylladb_parse_ip_address (bs "fe80:0:0:0:1:0:ff:8") =
  Some (InetOk {| inet_address := [254; 128; 0; 0; 0; 0; 0; 0; 0; 1; 0; 0; 0; 255; 0; 8]; address_length := 16 |}).
Proof.
  apply (parse_format_address {| inet_address := [254; 128; 0; 0; 0; 0; 0; 0; 0; 1; 0; 0; 0; 255; 0; 8]; address_length := 16 |}).
  split; [by right|]. split; [done|]. repeat constructor; unfold is_byte; lia.
Defined.
