(* ===== verification/Serialization.v ===== *)
(** Big-endian serialization (third-party/cpp-driver/src/serialization.hpp), variable-length
    integers and durations (encode.cpp, utils.hpp).

    An [encode_x] gives the bytes it writes, in order; a [decode_x] reads them from the front of a
    list of bytes.  Shifts and casts are written as in the source. *)
From S2P Require Import Prelude.

(** [static_cast<char>] and the unsigned reading of a [char]. *)
Definition u8 (z : Z) : Z := wrapU 8 z.

Definition encode_byte (value : Z) : bytes := [u8 value].
Definition decode_byte (input : bytes) : Z := u8 (char_at input 0).

Definition encode_int8 (value : Z) : bytes := [u8 value].
Definition decode_int8 (input : bytes) : Z := wrapS 8 (char_at input 0).

Definition encode_uint16 (value : Z) : bytes := [u8 (Z.shiftr value 8); u8 (Z.shiftr value 0)].
Definition decode_uint16 (input : bytes) : Z :=
  wrapU 16 (Z.lor (Z.shiftl (u8 (char_at input 1)) 0) (Z.shiftl (u8 (char_at input 0)) 8)).

Definition encode_int16 (value : Z) : bytes := [u8 (Z.shiftr value 8); u8 (Z.shiftr value 0)].
Definition decode_int16 (input : bytes) : Z :=
  wrapS 16 (Z.lor (Z.shiftl (u8 (char_at input 1)) 0) (Z.shiftl (u8 (char_at input 0)) 8)).

(** The four bytes of a 32-bit integer, as the signed and unsigned versions combine them. *)
Definition bytes4 (input : bytes) : Z :=
  Z.lor (Z.lor (Z.lor (Z.shiftl (u8 (char_at input 3)) 0) (Z.shiftl (u8 (char_at input 2)) 8))
    (Z.shiftl (u8 (char_at input 1)) 16)) (Z.shiftl (u8 (char_at input 0)) 24).

Definition encode_uint32 (value : Z) : bytes :=
  [u8 (Z.shiftr value 24); u8 (Z.shiftr value 16); u8 (Z.shiftr value 8); u8 (Z.shiftr value 0)].
Definition decode_uint32 (input : bytes) : Z := wrapU 32 (bytes4 input).

Definition encode_int32 (value : Z) : bytes :=
  [u8 (Z.shiftr value 24); u8 (Z.shiftr value 16); u8 (Z.shiftr value 8); u8 (Z.shiftr value 0)].
Definition decode_int32 (input : bytes) : Z := wrapS 32 (bytes4 input).

Definition encode_int64 (value : Z) : bytes :=
  [u8 (Z.shiftr value 56); u8 (Z.shiftr value 48); u8 (Z.shiftr value 40); u8 (Z.shiftr value 32);
   u8 (Z.shiftr value 24); u8 (Z.shiftr value 16); u8 (Z.shiftr value 8); u8 (Z.shiftr value 0)].
Definition decode_int64 (input : bytes) : Z :=
  wrapS 64 (Z.lor (Z.lor (Z.lor (Z.lor (Z.lor (Z.lor (Z.lor
    (Z.shiftl (u8 (char_at input 7)) 0) (Z.shiftl (u8 (char_at input 6)) 8))
    (Z.shiftl (u8 (char_at input 5)) 16)) (Z.shiftl (u8 (char_at input 4)) 24))
    (Z.shiftl (u8 (char_at input 3)) 32)) (Z.shiftl (u8 (char_at input 2)) 40))
    (Z.shiftl (u8 (char_at input 1)) 48)) (Z.shiftl (u8 (char_at input 0)) 56)).

(** ** UUIDs *)

Record CassUuid := { time_and_version : Z; clock_seq_and_node : Z }.

#[export] Instance CassUuid_eq : EqDecision CassUuid.
Proof. solve_decision. Defined.

(** The low byte of what is left of the time after [n] shifts. *)
Definition time_byte (time : Z) (n : Z) : Z := u8 (Z.land (Z.shiftr time (8 * n)) 255).

(** time_low, time_mid and time_hi_and_version, each big-endian; then the clock and the node. *)
Definition encode_uuid (uuid : CassUuid) : bytes :=
  let time := time_and_version uuid in
  [time_byte time 3; time_byte time 2; time_byte time 1; time_byte time 0;
   time_byte time 5; time_byte time 4; time_byte time 7; time_byte time 6] ++
  map (fun i => time_byte (clock_seq_and_node uuid) i) [7; 6; 5; 4; 3; 2; 1; 0].

Definition decode_uuid (input : bytes) : CassUuid :=
  let b i := u8 (char_at input i) in
  {| time_and_version :=
       Z.lor (Z.lor (Z.lor (Z.lor (Z.lor (Z.lor (Z.lor (b 3) (Z.shiftl (b 2) 8)) (Z.shiftl (b 1) 16))
         (Z.shiftl (b 0) 24)) (Z.shiftl (b 5) 32)) (Z.shiftl (b 4) 40)) (Z.shiftl (b 7) 48)) (Z.shiftl (b 6) 56);
     clock_seq_and_node :=
       fold_left (fun acc i => Z.lor acc (Z.shiftl (b (15 - i)) (8 * i))) [0; 1; 2; 3; 4; 5; 6; 7] 0 |}.

(** ** Variable-length integers *)

Definition encode_zig_zag (n : Z) : Z := wrapU 64 (Z.lxor (wrapS 64 (Z.shiftl n 1)) (Z.shiftr n 63)).

Definition decode_zig_zag (n : Z) : Z :=
  wrapS 64 (Z.lxor (Z.shiftr n 1) (wrapU 64 (- Z.land n 1))).

(** The leading zeros of a 64-bit word. *)
Definition num_leading_zeros (value : Z) : Z :=
  if value =? 0 then 64 else 63 - Z.log2 (wrapU 64 value).

Definition vint_size (value : Z) : Z :=
  let magnitude := num_leading_zeros (Z.lor value 1) in
  if magnitude =? 0 then 9 else 9 - (magnitude - 1) / 7.

(** The loop that writes [n] bytes from the last one to the first. *)
Fixpoint vint_bytes (n : nat) (value : Z) (after : bytes) : bytes :=
  match n with
  | O => after
  | S n' => vint_bytes n' (Z.shiftr value 8) (Z.land value 255 :: after)
  end.

Definition encode_vint (value value_size : Z) : bytes :=
  if value_size =? 1 then [u8 value]
  else match vint_bytes (Z.to_nat value_size) value [] with
       | [] => []
       | first :: rest => u8 (Z.lor first (Z.lnot (Z.shiftr 255 (value_size - 1)))) :: rest
       end.

(** The bytes of a vint after the first one. *)
Fixpoint vint_value (output : Z) (l : bytes) : Z :=
  match l with
  | [] => output
  | b :: l' => vint_value (Z.lor (wrapU 64 (Z.shiftl output 8)) (Z.land b 255)) l'
  end.

(** The number of bytes that follow the first byte of a vint. *)
Definition vint_extra (first_byte : Z) : Z := num_leading_zeros (Z.land (Z.lnot first_byte) 255) - 56.

Record CassDuration := { months : Z; days : Z; nanos : Z }.

#[export] Instance CassDuration_eq : EqDecision CassDuration.
Proof. solve_decision. Defined.

Definition encode_internal (value : CassDuration) (with_length : bool) : bytes :=
  let zigzag_values := map encode_zig_zag [months value; days value; nanos value] in
  let vint_sizes := map vint_size zigzag_values in
  let data_size := fold_left Z.add vint_sizes 0 in
  (if with_length then encode_int32 data_size else []) ++
  concat (zip_with encode_vint zigzag_values vint_sizes).

(** ** Combining bytes *)

Lemma lor_shiftl a b k : 0 <= k -> 0 <= a < 2 ^ k -> Z.lor a (Z.shiftl b k) = a + b * 2 ^ k.
Proof.
  intros Hk Ha. rewrite <- Z.shiftl_mul_pow2 by done.
  assert (E : Z.land a (Z.shiftl b k) = 0).
  { apply Z.bits_inj'. intros n Hn. rewrite Z.land_spec, Z.bits_0. destruct (Z.ltb_spec n k).
    - rewrite Z.shiftl_spec_low by done. apply andb_false_r.
    - rewrite <- (Z.mod_small a (2 ^ k)) by done. by rewrite Z.mod_pow2_bits_high by lia. }
  by rewrite <- Z.lxor_lor, <- Z.add_nocarry_lxor.
Qed.

Lemma u8_range z : 0 <= u8 z < 256.
Proof. apply (wrapU_range 8). lia. Qed.

Lemma u8_byte z : is_byte z -> u8 z = z.
Proof. intros H. apply wrapU_id. done. Qed.

Lemma u8_shift v k : 0 <= k -> u8 (Z.shiftr v k) = v / 2 ^ k mod 256.
Proof. intros Hk. unfold u8, wrapU. by rewrite Z.shiftr_div_pow2. Qed.

Lemma u8_idem z : u8 (u8 z) = u8 z.
Proof. apply u8_byte, u8_range. Qed.

(** The digits of a number to the base 256, up to a multiple of the base's power. *)
Lemma div_step v k k' : 0 <= k -> k' = k + 8 -> v / 2 ^ k = v / 2 ^ k mod 256 + 256 * (v / 2 ^ k').
Proof.
  intros Hk ->. rewrite Z.pow_add_r, <- Z.div_div by lia. change (2 ^ 8) with 256.
  pose proof (Z.div_mod (v / 2 ^ k) 256). lia.
Qed.

(** Turn a disjunction of shifted bytes into their weighted sum, from the innermost on. *)
Ltac sum_bytes :=
  repeat match goal with
  | |- context [Z.lor ?a (Z.shiftl ?b ?k)] =>
      lazymatch a with context [Z.lor] => fail | _ => rewrite (lor_shiftl a b k) by lia end
  end.

(** Read the bytes at literal offsets. *)
Ltac eval_char_at :=
  unfold char_at;
  repeat match goal with
  | |- context [Z.to_nat ?n] => let v := eval vm_compute in (Z.to_nat n) in change (Z.to_nat n) with v
  end; cbn [nth].

Ltac know_bytes := repeat match goal with
  | |- context [u8 ?z] => lazymatch goal with H : 0 <= u8 z < 256 |- _ => fail | _ => pose proof (u8_range z) end
  end.

Lemma bytes4_sum b0 b1 b2 b3 r :
  bytes4 (b0 :: b1 :: b2 :: b3 :: r) = u8 b3 + u8 b2 * 2 ^ 8 + u8 b1 * 2 ^ 16 + u8 b0 * 2 ^ 24.
Proof.
  unfold bytes4. eval_char_at. rewrite Z.shiftl_0_r. know_bytes. sum_bytes. lia.
Qed.

(** ** Integers *)

Lemma wrap_congr w a b : 0 <= w -> (2 ^ w | a - b) -> wrapU w a = wrapU w b.
Proof.
  intros Hw [k Hk]. unfold wrapU. replace a with (b + k * 2 ^ w) by lia. apply Z.mod_add. lia.
Qed.

Lemma wrapS_congr w a b : 0 <= w -> (2 ^ w | a - b) -> wrapS w a = wrapS w b.
Proof.
  intros Hw [k Hk]. unfold wrapS. replace (a + 2 ^ (w - 1)) with (b + 2 ^ (w - 1) + k * 2 ^ w) by lia.
  rewrite Z.mod_add by lia. done.
Qed.

Lemma encode_int32_value v r :
  (2 ^ 32 | bytes4 (encode_int32 v ++ r) - v).
Proof.
  cbn [encode_int32 app]. rewrite bytes4_sum, !u8_idem, !u8_shift by lia.
  pose proof (div_step v 0 8 ltac:(lia) eq_refl). pose proof (div_step v 8 16 ltac:(lia) eq_refl).
  pose proof (div_step v 16 24 ltac:(lia) eq_refl). pose proof (div_step v 24 32 ltac:(lia) eq_refl).
  rewrite Z.pow_0_r, Z.div_1_r in *. exists (- (v / 2 ^ 32)). lia.
Qed.

Lemma decode_encode_int32 v r : in_s 32 v -> decode_int32 (encode_int32 v ++ r) = v.
Proof.
  intros Hv. unfold decode_int32. rewrite (wrapS_congr 32 _ v) by (lia || apply encode_int32_value).
  apply wrapS_id; [lia|done].
Qed.

Lemma decode_encode_uint32 v r : in_u 32 v -> decode_uint32 (encode_uint32 v ++ r) = v.
Proof.
  intros Hv. unfold decode_uint32. rewrite (wrap_congr 32 _ v) by (lia || apply encode_int32_value).
  by apply wrapU_id.
Qed.

Lemma bytes2_value v r :
  (2 ^ 16 | Z.lor (Z.shiftl (u8 (char_at (encode_uint16 v ++ r) 1)) 0) (Z.shiftl (u8 (char_at (encode_uint16 v ++ r) 0)) 8) - v).
Proof.
  cbn [encode_uint16 app]. eval_char_at. rewrite Z.shiftl_0_r. know_bytes. sum_bytes. rewrite !u8_idem, !u8_shift by lia.
  pose proof (div_step v 0 8 ltac:(lia) eq_refl). pose proof (div_step v 8 16 ltac:(lia) eq_refl).
  rewrite Z.pow_0_r, Z.div_1_r in *. exists (- (v / 2 ^ 16)). lia.
Qed.

Lemma decode_encode_uint16 v r : in_u 16 v -> decode_uint16 (encode_uint16 v ++ r) = v.
Proof.
  intros Hv. unfold decode_uint16. rewrite (wrap_congr 16 _ v) by (lia || apply bytes2_value). by apply wrapU_id.
Qed.

Lemma decode_encode_int16 v r : in_s 16 v -> decode_int16 (encode_int16 v ++ r) = v.
Proof.
  intros Hv. unfold decode_int16. change (encode_int16 v) with (encode_uint16 v).
  rewrite (wrapS_congr 16 _ v) by (lia || apply bytes2_value). apply wrapS_id; [lia|done].
Qed.

Lemma decode_encode_int8 v r : in_s 8 v -> decode_int8 (encode_int8 v ++ r) = v.
Proof.
  intros Hv. unfold decode_int8, encode_int8. cbn [app]. eval_char_at. rewrite (wrapS_congr 8 _ v); [apply wrapS_id; [lia|done]|lia|].
  unfold u8, wrapU. pose proof (Z.div_mod v (2 ^ 8)). exists (- (v / 2 ^ 8)). lia.
Qed.

(** The eight bytes of a number. *)
Lemma eight_bytes v :
  v mod 256 + v / 2 ^ 8 mod 256 * 2 ^ 8 + v / 2 ^ 16 mod 256 * 2 ^ 16 + v / 2 ^ 24 mod 256 * 2 ^ 24 +
  v / 2 ^ 32 mod 256 * 2 ^ 32 + v / 2 ^ 40 mod 256 * 2 ^ 40 + v / 2 ^ 48 mod 256 * 2 ^ 48 + v / 2 ^ 56 mod 256 * 2 ^ 56 =
  v - v / 2 ^ 64 * 2 ^ 64.
Proof.
  pose proof (div_step v 0 8 ltac:(lia) eq_refl) as H0. pose proof (div_step v 8 16 ltac:(lia) eq_refl) as H1.
  pose proof (div_step v 16 24 ltac:(lia) eq_refl) as H2. pose proof (div_step v 24 32 ltac:(lia) eq_refl) as H3.
  pose proof (div_step v 32 40 ltac:(lia) eq_refl) as H4. pose proof (div_step v 40 48 ltac:(lia) eq_refl) as H5.
  pose proof (div_step v 48 56 ltac:(lia) eq_refl) as H6. pose proof (div_step v 56 64 ltac:(lia) eq_refl) as H7.
  rewrite Z.pow_0_r, Z.div_1_r in *. lia.
Qed.

Lemma decode_encode_int64 v r : in_s 64 v -> decode_int64 (encode_int64 v ++ r) = v.
Proof.
  intros Hv. unfold decode_int64. cbn [encode_int64 app]. eval_char_at. rewrite Z.shiftl_0_r. know_bytes. sum_bytes.
  rewrite !u8_idem, !u8_shift, Z.pow_0_r, Z.div_1_r by lia. rewrite eight_bytes, (wrapS_congr 64 _ v).
  - apply wrapS_id; [lia|done].
  - lia.
  - exists (- (v / 2 ^ 64)). lia.
Qed.

Lemma time_byte_value t n : 0 <= n -> u8 (time_byte t n) = t / 2 ^ (8 * n) mod 256.
Proof.
  intros Hn. unfold time_byte. rewrite u8_idem. change 255 with (Z.ones 8). rewrite Z.land_ones by lia.
  unfold u8, wrapU. rewrite Z.mod_mod, Z.shiftr_div_pow2 by lia. done.
Qed.

Definition valid_uuid (u : CassUuid) : Prop := in_u 64 (time_and_version u) /\ in_u 64 (clock_seq_and_node u).

Lemma decode_encode_uuid u r : valid_uuid u -> decode_uuid (encode_uuid u ++ r) = u.
Proof.
  destruct u as [t c]. intros [Ht Hc]. cbn in Ht, Hc. unfold decode_uuid, encode_uuid.
  cbn [time_and_version clock_seq_and_node map app fold_left]. eval_char_at. rewrite !Z.lor_0_l. cbn [Z.mul]. rewrite !Z.shiftl_0_r.
  know_bytes. f_equal; sum_bytes; rewrite !time_byte_value by lia; cbn [Z.mul Pos.mul]; rewrite Z.pow_0_r, Z.div_1_r, eight_bytes;
    rewrite Z.div_small; try done; lia.
Qed.

(** ** Zig-zag *)

Lemma wrapU_wrapS w z : 0 <= w -> wrapU w (wrapS w z) = wrapU w z.
Proof.
  intros Hw. apply wrap_congr; [done|]. unfold wrapS.
  pose proof (Z.div_mod (z + 2 ^ (w - 1)) (2 ^ w) ltac:(lia)).
  exists (- ((z + 2 ^ (w - 1)) / 2 ^ w)). lia.
Qed.

Lemma encode_zig_zag_value n :
  in_s 64 n -> encode_zig_zag n = if 0 <=? n then 2 * n else - 2 * n - 1.
Proof.
  intros Hn. unfold in_s in Hn. unfold encode_zig_zag. rewrite Z.shiftl_mul_pow2, Z.shiftr_div_pow2 by lia.
  destruct (Z.leb_spec 0 n).
  - rewrite (Z.div_small n) by lia. rewrite Z.lxor_0_r, wrapU_wrapS, wrapU_id by (unfold in_u; lia). lia.
  - replace (n / 2 ^ 63) with (-1) by (apply Z.div_unique with (r := n + 2 ^ 63); lia).
    rewrite Z.lxor_m1_r. unfold Z.lnot. rewrite <- (wrapU_id 64 (- 2 * n - 1)) by (unfold in_u; lia).
    apply wrap_congr; [lia|]. unfold wrapS.
    pose proof (Z.div_mod (n * 2 ^ 1 + 2 ^ (64 - 1)) (2 ^ 64) ltac:(lia)).
    exists ((n * 2 ^ 1 + 2 ^ (64 - 1)) / 2 ^ 64). lia.
Qed.

Lemma lxor_ones a k : 0 <= k -> 0 <= a < 2 ^ k -> Z.lxor a (Z.ones k) = Z.ones k - a.
Proof.
  intros Hk Ha. assert (Hb : forall n, 0 <= n -> Z.testbit a n = Z.testbit a n && (n <? k)).
  { intros n Hn. destruct (Z.ltb_spec n k); [by rewrite andb_true_r|].
    rewrite andb_false_r, <- (Z.mod_small a (2 ^ k)) by done. by apply Z.mod_pow2_bits_high. }
  rewrite Z.sub_nocarry_ldiff.
  - apply Z.bits_inj'. intros n Hn. rewrite Z.lxor_spec, Z.ldiff_spec, (Hb n Hn), !Z.testbit_ones_nonneg by done.
    by destruct (Z.testbit a n), (n <? k).
  - apply Z.bits_inj'. intros n Hn. rewrite Z.ldiff_spec, Z.bits_0, (Hb n Hn), !Z.testbit_ones_nonneg by done.
    by destruct (Z.testbit a n), (n <? k).
Qed.

Lemma land_1 x : Z.land x 1 = x mod 2.
Proof. apply (Z.land_ones x 1). lia. Qed.

Lemma decode_encode_zig_zag n : in_s 64 n -> decode_zig_zag (encode_zig_zag n) = n.
Proof.
  intros Hn. rewrite encode_zig_zag_value by done. unfold decode_zig_zag, in_s in *.
  rewrite Z.shiftr_div_pow2, land_1 by lia. change (2 ^ 1) with 2.
  destruct (Z.leb_spec 0 n).
  - replace (2 * n / 2) with n by (rewrite Z.mul_comm, Z.div_mul; lia).
    replace (2 * n mod 2) with 0 by (rewrite Z.mul_comm, Z.mod_mul; lia). 
    change (wrapU 64 (Z.opp 0)) with 0. rewrite Z.lxor_0_r. apply wrapS_id; [lia|unfold in_s; lia].
  - replace ((-2 * n - 1) / 2) with (- n - 1) by (apply Z.div_unique with (r := 1); lia).
    replace ((-2 * n - 1) mod 2) with 1 by (apply Z.mod_unique with (q := - n - 1); lia).
    change (wrapU 64 (Z.opp 1)) with (Z.ones 64). rewrite lxor_ones by lia. rewrite (wrapS_congr 64 _ n); [apply wrapS_id; [lia|unfold in_s; lia]|lia|].
    change (Z.ones 64) with (2 ^ 64 - 1). exists 1. lia.
Qed.

(** ** Variable-length integers *)

Lemma vint_bytes_app n : forall v after, vint_bytes n v after = vint_bytes n v [] ++ after.
Proof.
  induction n as [|n IH]; intros v after; [done|]. cbn [vint_bytes]. rewrite IH, (IH _ [_]), <- app_assoc. done.
Qed.

Lemma vint_bytes_length n v : length (vint_bytes n v []) = n.
Proof.
  revert v. induction n as [|n IH]; intros v; [done|]. cbn [vint_bytes]. rewrite vint_bytes_app, length_app, IH. cbn. lia.
Qed.

(** What the decoder computes from an accumulator that has room left. *)
Lemma vint_value_bytes n : forall acc v,
  0 <= acc -> acc * 2 ^ (8 * Z.of_nat n) + 2 ^ (8 * Z.of_nat n) <= 2 ^ 64 ->
  vint_value acc (vint_bytes n v []) = acc * 2 ^ (8 * Z.of_nat n) + v mod 2 ^ (8 * Z.of_nat n).
Proof.
  induction n as [|n IH]; intros acc v Hacc Hfit.
  - cbn. rewrite Z.mod_1_r. lia.
  - cbn [vint_bytes]. rewrite vint_bytes_app.
    assert (Happ : forall l out, vint_value out (l ++ [Z.land v 255]) =
              Z.lor (wrapU 64 (Z.shiftl (vint_value out l) 8)) (Z.land (Z.land v 255) 255)).
    { induction l as [|b l IHl]; intros out; [done|]. cbn [app vint_value]. apply IHl. }
    rewrite Happ. replace (8 * Z.of_nat (S n)) with (8 * Z.of_nat n + 8) in * by lia.
    rewrite Z.pow_add_r in * by lia. set (B := 2 ^ (8 * Z.of_nat n)) in *. assert (0 < B) by (unfold B; lia).
    change (2 ^ 8) with 256 in *. rewrite IH by nia. fold B.
    change 255 with (Z.ones 8). rewrite !Z.land_ones, Z.mod_mod, Z.shiftr_div_pow2, Z.shiftl_mul_pow2 by lia.
    change (2 ^ 8) with 256. pose proof (Z.mod_pos_bound (v / 256) B ltac:(lia)).
    rewrite wrapU_id by (unfold in_u; nia).
    rewrite Z.lor_comm, <- (Z.shiftl_mul_pow2 _ 8), lor_shiftl by (try lia; apply Z.mod_pos_bound; lia).
    rewrite (Z.mul_comm B 256), Z.rem_mul_r by lia. change (2 ^ 8) with 256. ring.
Qed.

Lemma vint_bytes_head n : forall v after,
  vint_bytes (S n) v after = Z.land (Z.shiftr v (8 * Z.of_nat n)) 255 :: vint_bytes n v after.
Proof.
  induction n as [|n IH]; intros v after; [by rewrite Z.shiftr_0_r|].
  change (vint_bytes (S (S n)) v after) with (vint_bytes (S n) (Z.shiftr v 8) (Z.land v 255 :: after)).
  rewrite IH. f_equal. rewrite Z.shiftr_shiftr by lia. do 2 f_equal. lia.
Qed.

Lemma vint_bytes_byte n v : Forall is_byte (vint_bytes n v []).
Proof.
  revert v. induction n as [|n IH]; intros v; [constructor|]. rewrite vint_bytes_head. constructor; [|apply IH].
  change 255 with (Z.ones 8). rewrite Z.land_ones by lia. apply Z.mod_pos_bound. lia.
Qed.

Lemma lor_1 v : Z.lor v 1 = 1 + v / 2 * 2.
Proof.
  change (v / 2 * 2) with (v / 2 * 2 ^ 1). rewrite <- lor_shiftl by lia.
  replace (Z.shiftl (v / 2) 1) with (Z.ldiff v (Z.ones 1)) by (rewrite Z.ldiff_ones_r, Z.shiftr_div_pow2 by lia; done).
  apply Z.bits_inj'. intros n Hn. rewrite !Z.lor_spec, Z.ldiff_spec. change (Z.ones 1) with 1.
  by destruct (Z.testbit v n), (Z.testbit 1 n).
Qed.

Lemma vint_size_spec v :
  in_u 64 v -> 1 <= vint_size v <= 9 /\ (vint_size v <= 8 -> v < 2 ^ (7 * vint_size v)).
Proof.
  intros Hv. unfold in_u in Hv. unfold vint_size, num_leading_zeros.
  set (x := Z.lor v 1). assert (Hx : v <= x < 2 ^ 64 /\ 1 <= x).
  { unfold x. rewrite lor_1. pose proof (Z.div_mod v 2). pose proof (Z.mod_pos_bound v 2). lia. }
  replace (x =? 0) with false by lia. rewrite wrapU_id by (unfold in_u; lia).
  pose proof (Z.log2_spec x ltac:(lia)) as [_ Hl]. pose proof (Z.log2_nonneg x).
  assert (Z.log2 x < 64) by (apply Z.log2_lt_pow2; lia).
  destruct (Z.eqb_spec (63 - Z.log2 x) 0); [lia|]. set (s := 9 - _).
  assert (Hs : 7 * s >= Z.log2 x + 1 /\ 1 <= s <= 9) by
    (unfold s; pose proof (Z.div_mod (63 - Z.log2 x - 1) 7); pose proof (Z.mod_pos_bound (63 - Z.log2 x - 1) 7); lia).
  split; [lia|]. intros _. eapply Z.le_lt_trans; [apply Hx|]. eapply Z.lt_le_trans; [exact Hl|]. apply Z.pow_le_mono_r; lia.
Qed.

(** The first byte of a vint of two to eight bytes: its size bits and the bits of the value. *)
Definition first_byte_ok (s first : Z) : bool :=
  let f := u8 (Z.lor first (Z.lnot (Z.shiftr 255 (s - 1)))) in
  negb (first <? 2 ^ (8 - s)) ||
  ((127 <? f) && (f <? 256) && (vint_extra f =? s - 1) && (Z.land f (Z.shiftr 255 (s - 1)) =? first)).

Lemma first_byte_check s first :
  2 <= s <= 9 -> 0 <= first < 256 -> first < 2 ^ (8 - s) \/ (s = 9 /\ first = 0) ->
  let f := u8 (Z.lor first (Z.lnot (Z.shiftr 255 (s - 1)))) in
  127 < f < 256 /\ vint_extra f = s - 1 /\ Z.land f (Z.shiftr 255 (s - 1)) = first.
Proof.
  intros Hs Hf [Hb | [-> ->]]; [|by vm_compute].
  assert (H : first_byte_ok s first = true).
  { assert (Es : s = 2 \/ s = 3 \/ s = 4 \/ s = 5 \/ s = 6 \/ s = 7 \/ s = 8 \/ s = 9) by lia.
    destruct Es as [-> | [-> | [-> | [-> | [-> | [-> | [-> | ->]]]]]]]; revert Hf; clear Hb; by_bytes first. }
  unfold first_byte_ok in H. set (f := u8 _) in *. apply orb_prop in H as [H | H]; [lia|].
  repeat (apply andb_prop in H as [H ?]). cbn zeta. clearbody f. split_and!; lia.
Qed.

Lemma encode_vint_shape v :
  in_u 64 v ->
  exists f rest, encode_vint v (vint_size v) = f :: rest /\ is_byte f /\ Forall is_byte rest /\
    zlen rest = vint_size v - 1 /\
    ((vint_size v = 1 /\ f = v /\ f <= 127 /\ rest = []) \/
     (127 < f /\ vint_extra f = zlen rest /\ vint_value (Z.land f (Z.shiftr 255 (zlen rest))) rest = v)).
Proof.
  intros Hv. destruct (vint_size_spec v Hv) as [Hs Hfit]. set (s := vint_size v) in *. unfold encode_vint, in_u in *.
  destruct (Z.eqb_spec s 1) as [E|E].
  - rewrite E in Hfit. specialize (Hfit ltac:(lia)). change (2 ^ (7 * 1)) with 128 in Hfit.
    exists v, []. rewrite u8_byte by (unfold is_byte; lia). split; [done|]. split; [unfold is_byte; lia|].
    split; [done|]. split; [by rewrite E|]. left. split_and!; try done. lia.
  - destruct (Z.to_nat s) as [|n] eqn:En; [lia|]. assert (Hn : s = Z.of_nat n + 1) by lia.
    rewrite vint_bytes_head. set (first := Z.land _ _).
    assert (Efirst : first = v / 2 ^ (8 * (s - 1)) mod 256).
    { unfold first. change 255 with (Z.ones 8). rewrite Z.land_ones, Z.shiftr_div_pow2 by lia. do 3 f_equal. lia. }
    assert (Hdiv : v / 2 ^ (8 * (s - 1)) < 2 ^ (8 - s) \/ (s = 9 /\ v / 2 ^ (8 * (s - 1)) = 0)).
    { destruct (decide (s = 9)) as [->|]; [right; split; [done|]; by apply Z.div_small|left].
      apply Z.div_lt_upper_bound; [lia|]. rewrite <- Z.pow_add_r by lia. replace (8 * (s - 1) + (8 - s)) with (7 * s) by lia.
      apply Hfit. lia. }
    assert (Hpos : 0 <= v / 2 ^ (8 * (s - 1))) by (apply Z.div_pos; lia).
    assert (Hsmall : v / 2 ^ (8 * (s - 1)) < 256).
    { destruct Hdiv as [Hd | [_ ->]]; [|lia]. eapply Z.lt_le_trans; [exact Hd|]. apply (Z.pow_le_mono_r 2 (8 - s) 8); lia. }
    rewrite Z.mod_small in Efirst by lia. rewrite <- Efirst in *.
    destruct (first_byte_check s first ltac:(lia) ltac:(lia) Hdiv) as (Hf & Hx & Hl).
    eexists _, _. split; [done|]. split; [unfold is_byte; lia|]. split; [apply vint_bytes_byte|].
    assert (Hz : zlen (vint_bytes n v []) = s - 1) by (unfold zlen; rewrite vint_bytes_length; lia).
    split; [done|]. right. rewrite Hz. split_and!; [lia|done|]. rewrite Hl, vint_value_bytes.
    + replace (8 * Z.of_nat n) with (8 * (s - 1)) by lia. rewrite Efirst at 1.
      pose proof (Z.div_mod v (2 ^ (8 * (s - 1)))). lia.
    + lia.
    + replace (8 * Z.of_nat n) with (8 * (s - 1)) by lia.
      destruct Hdiv as [Hd | [-> ->]]; [|cbn; lia].
      assert (first + 1 <= 2 ^ (8 - s)) by lia. transitivity (2 ^ (8 - s) * 2 ^ (8 * (s - 1))); [nia|].
      destruct (decide (s = 9)) as [->|]; [cbn in *; lia|].
      rewrite <- Z.pow_add_r by lia. apply Z.pow_le_mono_r; lia.
Qed.

(** ** Strings, lists and maps (Buffer)

    A string is passed with its size; the lists cast the sizes to sixteen bits. *)

Definition copy (value : bytes) (size : Z) : bytes := take (Z.to_nat size) value.

Definition encode_long_string (value : bytes) (size : Z) : bytes := encode_int32 size ++ copy value size.

(** A negative size, of a null, writes the size only. *)
Definition encode_bytes (value : bytes) (size : Z) : bytes :=
  encode_int32 size ++ (if 0 <? size then copy value size else []).

Definition encode_string (value : bytes) (size : Z) : bytes := encode_uint16 size ++ copy value size.

Definition encode_string_list (value : list bytes) : bytes :=
  encode_uint16 (wrapU 16 (zlen value)) ++
  concat (map (fun s => encode_string s (wrapU 16 (zlen s))) value).

Definition encode_string_map (value : list (bytes * bytes)) : bytes :=
  encode_uint16 (wrapU 16 (zlen value)) ++
  concat (map (fun kv => encode_string kv.1 (wrapU 16 (zlen kv.1)) ++ encode_string kv.2 (wrapU 16 (zlen kv.2))) value).

Lemma copy_all s : copy s (zlen s) = s.
Proof. unfold copy, zlen. rewrite Nat2Z.id. by apply firstn_all. Qed.
