(* ===== verification/UtHash.v ===== *)
(** The hash table of sets and maps (src/Type/uthash.h, version 1.9.9, with the hash function and
    the comparison that src/Type/ValueHash.h plugs into it).

    An element has an address, its key and the hash of the key when it was added.  The elements
    are linked in the order they were added ([items]), and each is linked in the chain of one
    bucket.  [HASH_FIND] compares with the elements of a bucket only, without comparing hashes
    first.  Counters are mathematical integers: a table holds fewer than 2^32 elements. *)
From stdpp Require Import sets.
From S2P Require Import Prelude.
#[local] Open Scope Z_scope.

Definition HASH_INITIAL_NUM_BUCKETS : Z := 32.
Definition HASH_INITIAL_NUM_BUCKETS_LOG2 : Z := 5.
Definition HASH_BKT_CAPACITY_THRESH : Z := 10.

Record handle (K : Type) := { addr : nat; hkey : K; hashv : Z }.
Arguments addr {K}. Arguments hkey {K}. Arguments hashv {K}. Arguments Build_handle {K}.

Record bucket (K : Type) := { chain : list (handle K); expand_mult : Z }.
Arguments chain {K}. Arguments expand_mult {K}. Arguments Build_bucket {K}.

Record hash_table (K : Type) := {
  num_buckets : Z;
  log2_num_buckets : Z;
  buckets : list (bucket K);
  ineff_expands : Z;
  noexpand : bool
}.
Arguments num_buckets {K}. Arguments log2_num_buckets {K}. Arguments buckets {K}.
Arguments ineff_expands {K}. Arguments noexpand {K}. Arguments Build_hash_table {K}.

(** The head of a hash: its elements with their values, the table of the first element, and the
    next address that is free. *)
Record hash (K V : Type) := {
  items : list (handle K * V);
  tbl : option (hash_table K);
  next_addr : nat
}.
Arguments items {K V}. Arguments tbl {K V}. Arguments next_addr {K V}. Arguments Build_hash {K V}.

Definition empty_hash {K V} : hash K V := {| items := []; tbl := None; next_addr := 0 |}.

Definition empty_bucket {K} : bucket K := {| chain := []; expand_mult := 0 |}.

Section uthash.
Context {K V : Type} (value_hash : K -> Z) (value_compare : K -> K -> Z).

Definition num_items (h : hash K V) : Z := zlen (items h).

(** [HASH_MAKE_TABLE] *)
Definition make_table : hash_table K := {|
  num_buckets := HASH_INITIAL_NUM_BUCKETS;
  log2_num_buckets := HASH_INITIAL_NUM_BUCKETS_LOG2;
  buckets := replicate (Z.to_nat HASH_INITIAL_NUM_BUCKETS) empty_bucket;
  ineff_expands := 0;
  noexpand := false
|}.

(** [HASH_TO_BKT] *)
Definition to_bkt (hv num_bkts : Z) : nat := Z.to_nat (Z.land hv (num_bkts - 1)).

Definition chain_at (t : hash_table K) (i : nat) : list (handle K) :=
  match buckets t !! i with Some b => chain b | None => [] end.

(** [HASH_FIND] and [HASH_FIND_IN_BKT] *)
Definition hash_find (key : K) (h : hash K V) : option (handle K) :=
  match tbl h with
  | None => None
  | Some t =>
      List.find (fun out => value_compare (hkey out) key =? 0) (chain_at t (to_bkt (value_hash key) (num_buckets t)))
  end.

(** One element moved to its new bucket, with the count of those that exceed the ideal length. *)
Definition move_handle (ideal num : Z) (acc : list (bucket K) * Z) (e : handle K) : list (bucket K) * Z :=
  let '(new_buckets, nonideal_items) := acc in
  let bkt := to_bkt (hashv e) num in
  let count := match new_buckets !! bkt with Some b => zlen (chain b) + 1 | None => 1 end in
  (alter (fun b => {| chain := e :: chain b;
                      expand_mult := if ideal <? count then count / ideal else expand_mult b |}) bkt new_buckets,
   if ideal <? count then nonideal_items + 1 else nonideal_items).

(** [HASH_EXPAND_BUCKETS], for a table of [n] items *)
Definition expand_buckets (n : Z) (t : hash_table K) : hash_table K :=
  let num := 2 * num_buckets t in
  let ideal_chain_maxlen := Z.shiftr n (log2_num_buckets t + 1) + (if Z.land n (num - 1) =? 0 then 0 else 1) in
  let '(new_buckets, nonideal_items) :=
    fold_left (move_handle ideal_chain_maxlen num) (concat (map chain (buckets t)))
      (replicate (Z.to_nat num) empty_bucket, 0) in
  let ineff := if Z.shiftr n 1 <? nonideal_items then ineff_expands t + 1 else 0 in
  {| num_buckets := num; log2_num_buckets := log2_num_buckets t + 1; buckets := new_buckets;
     ineff_expands := ineff; noexpand := (1 <? ineff) || noexpand t |}.

(** [HASH_ADD_TO_BKT], for a table of [n] items *)
Definition add_to_bkt (n : Z) (e : handle K) (t : hash_table K) : hash_table K :=
  let bkt := to_bkt (hashv e) (num_buckets t) in
  let t' := {| num_buckets := num_buckets t; log2_num_buckets := log2_num_buckets t;
               buckets := alter (fun b => {| chain := e :: chain b; expand_mult := expand_mult b |}) bkt (buckets t);
               ineff_expands := ineff_expands t; noexpand := noexpand t |} in
  match buckets t' !! bkt with
  | Some b =>
      if ((expand_mult b + 1) * HASH_BKT_CAPACITY_THRESH <=? zlen (chain b)) && negb (noexpand t)
      then expand_buckets n t' else t'
  | None => t'
  end.

(** [HASH_ADD_KEYPTR] of a new element *)
Definition hash_add (key : K) (value : V) (h : hash K V) : hash K V :=
  let e := {| addr := next_addr h; hkey := key; hashv := value_hash key |} in
  let items' := items h ++ [(e, value)] in
  let t := match tbl h with None => make_table | Some t => t end in
  {| items := items'; tbl := Some (add_to_bkt (zlen items') e t); next_addr := S (next_addr h) |}.

(** [HASH_DELETE] of an element; the table goes with the last one. *)
Definition hash_delete (e : handle K) (h : hash K V) : hash K V :=
  match items h with
  | [_] => {| items := []; tbl := None; next_addr := next_addr h |}
  | _ =>
      let keep := fun x : handle K => negb (addr x =? addr e)%nat in
      {| items := List.filter (fun x => keep (fst x)) (items h);
         tbl := match tbl h with
                | Some t =>
                    let bkt := to_bkt (hashv e) (num_buckets t) in
                    Some {| num_buckets := num_buckets t; log2_num_buckets := log2_num_buckets t;
                            buckets := alter (fun b => {| chain := List.filter keep (chain b); expand_mult := expand_mult b |}) bkt (buckets t);
                            ineff_expands := ineff_expands t; noexpand := noexpand t |}
                | None => None
                end;
         next_addr := next_addr h |}
  end.

(** The value of an element is replaced in place. *)
Definition hash_update (e : handle K) (value : V) (h : hash K V) : hash K V :=
  {| items := map (fun x => if (addr (fst x) =? addr e)%nat then (fst x, value) else x) (items h);
     tbl := tbl h; next_addr := next_addr h |}.

(** ** The chains hold the elements *)

Record table_ok (t : hash_table K) (l : list (handle K)) : Prop := {
  size_ok : num_buckets t = 2 ^ log2_num_buckets t /\ 0 <= log2_num_buckets t;
  length_ok : length (buckets t) = Z.to_nat (num_buckets t);
  chains_ok : forall i e, e ∈ chain_at t i <-> e ∈ l /\ to_bkt (hashv e) (num_buckets t) = i
}.

Lemma to_bkt_lt hv k : 0 <= k -> (to_bkt hv (2 ^ k) < Z.to_nat (2 ^ k))%nat.
Proof.
  intros Hk. unfold to_bkt. replace (2 ^ k - 1) with (Z.ones k) by (rewrite Z.ones_equiv; lia).
  rewrite Z.land_ones by done. pose proof (Z.mod_pos_bound hv (2 ^ k)). lia.
Qed.

Definition chain_of (bl : list (bucket K)) (i : nat) : list (handle K) :=
  match bl !! i with Some b => chain b | None => [] end.

Lemma chain_of_alter bl f j i :
  (j < length bl)%nat ->
  chain_of (alter f j bl) i = if decide (i = j) then match bl !! j with Some b => chain (f b) | None => [] end else chain_of bl i.
Proof.
  intros Hj. unfold chain_of. destruct (decide (i = j)) as [->|].
  - rewrite list_lookup_alter_eq. by destruct (bl !! j).
  - by rewrite list_lookup_alter_ne.
Qed.

(** A chain that gets one more element. *)
Lemma chain_of_push bl e j i x m :
  (j < length bl)%nat ->
  x ∈ chain_of (alter (fun b => {| chain := e :: chain b; expand_mult := m b |}) j bl) i <->
  (x = e /\ i = j) \/ x ∈ chain_of bl i.
Proof.
  intros Hj. rewrite chain_of_alter by done. destruct (decide (i = j)) as [->|Hne]; [|naive_solver].
  unfold chain_of. destruct (lookup_lt_is_Some_2 bl j Hj) as [b Hb]. rewrite Hb. cbn [chain]. rewrite elem_of_cons. naive_solver.
Qed.

Lemma chain_of_empty n i : chain_of (replicate n (@empty_bucket K)) i = [].
Proof.
  unfold chain_of. destruct (replicate n empty_bucket !! i) as [b|] eqn:E; [|done].
  apply lookup_replicate in E as [-> _]. done.
Qed.

Lemma move_handles_chains ideal k l : 0 <= k ->
  forall bl n, length bl = Z.to_nat (2 ^ k) ->
  length (fold_left (move_handle ideal (2 ^ k)) l (bl, n)).1 = Z.to_nat (2 ^ k) /\
  forall i x, x ∈ chain_of (fold_left (move_handle ideal (2 ^ k)) l (bl, n)).1 i <->
              (x ∈ l /\ to_bkt (hashv x) (2 ^ k) = i) \/ x ∈ chain_of bl i.
Proof.
  intros Hk. induction l as [|e l IH]; intros bl n Hl; cbn [fold_left].
  - split; [done|]. cbn [fst]. intros i x. rewrite elem_of_nil. naive_solver.
  - unfold move_handle at 2 4. set (m := fun b : bucket K => _). pose proof (to_bkt_lt (hashv e) k Hk) as Hb.
    edestruct IH as [Hl' Hc]; [by rewrite length_alter|]. split; [exact Hl'|]. intros i x. rewrite Hc.
    unfold m. rewrite chain_of_push by lia. rewrite elem_of_cons. naive_solver.
Qed.

Lemma concat_chains bl x : x ∈ concat (map chain bl) <-> exists i, x ∈ chain_of bl i.
Proof.
  rewrite list_elem_of_In, in_concat. setoid_rewrite in_map_iff. unfold chain_of. split.
  - intros (c & (b & <- & Hb) & Hx). apply list_elem_of_In, list_elem_of_lookup_1 in Hb as [i Hi]. exists i. rewrite Hi. by apply list_elem_of_In.
  - intros [i Hx]. destruct (bl !! i) as [b|] eqn:E; [|by apply elem_of_nil in Hx].
    exists (chain b). split; [exists b; split; [done|]|by apply list_elem_of_In]. eapply list_elem_of_In, list_elem_of_lookup_2. done.
Qed.

Lemma expand_ok n t l : table_ok t l -> table_ok (expand_buckets n t) l.
Proof.
  intros [[Hn Hk] Hl Hc]. unfold expand_buckets. set (ideal := Z.shiftr n _ + _).
  assert (E : 2 * num_buckets t = 2 ^ (log2_num_buckets t + 1)) by (rewrite Z.pow_add_r by lia; lia). rewrite E.
  edestruct (move_handles_chains ideal (log2_num_buckets t + 1) (concat (map chain (buckets t))) ltac:(lia)
    (replicate (Z.to_nat (2 ^ (log2_num_buckets t + 1))) empty_bucket) 0) as [Hlen Hch]; [apply length_replicate|].
  destruct (fold_left _ _ _) as [bl m]. cbn [fst] in Hlen, Hch. split; cbn [num_buckets log2_num_buckets buckets].
  - split; [done|lia].
  - done.
  - intros i x. unfold chain_at. cbn [buckets]. fold (chain_of bl i). rewrite Hch, chain_of_empty, elem_of_nil, concat_chains.
    split; [intros [[[j Hj] Hi] | []]; split; [|done]; by apply (Hc j x) in Hj as [? _]|].
    intros [Hx Hi]. left. split; [|done]. exists (to_bkt (hashv x) (num_buckets t)). by apply Hc.
Qed.

Lemma add_to_bkt_ok n e t l : table_ok t l -> table_ok (add_to_bkt n e t) (l ++ [e]).
Proof.
  intros [[Hn Hk] Hl Hc]. unfold add_to_bkt. cbn [buckets]. set (t' := Build_hash_table _ _ _ _ _).
  assert (Ht : table_ok t' (l ++ [e])).
  { pose proof (to_bkt_lt (hashv e) _ Hk) as Hb. rewrite <- Hn in Hb. split; cbn [num_buckets log2_num_buckets buckets t'].
    - done.
    - by rewrite length_alter.
    - intros i x. unfold chain_at. cbn [buckets t']. fold (chain_of (alter (fun b => {| chain := e :: chain b; expand_mult := expand_mult b |}) (to_bkt (hashv e) (num_buckets t)) (buckets t)) i).
      rewrite chain_of_push by lia. rewrite elem_of_app, list_elem_of_singleton. specialize (Hc i x). unfold chain_at in Hc. fold (chain_of (buckets t) i) in Hc.
      rewrite Hc. naive_solver. }
  repeat case_match; auto using expand_ok.
Qed.

Lemma make_table_ok : table_ok make_table [].
Proof.
  split; [done|by vm_compute|]. intros i e. unfold chain_at. cbn [buckets make_table].
  fold (chain_of (replicate (Z.to_nat HASH_INITIAL_NUM_BUCKETS) (@empty_bucket K)) i). rewrite chain_of_empty, !elem_of_nil. naive_solver.
Qed.
End uthash.

(** ** What the table needs of its keys

    The comparison is an equivalence on the keys that may be stored, and equal keys have the same
    hash. *)
Class HashedKey {K} (value_hash : K -> Z) (value_compare : K -> K -> Z) (key_ok : K -> Prop) := {
  compare_refl a : key_ok a -> value_compare a a = 0;
  compare_sym a b : key_ok a -> key_ok b -> value_compare a b = 0 -> value_compare b a = 0;
  compare_trans a b c : key_ok a -> key_ok b -> key_ok c -> value_compare a b = 0 -> value_compare b c = 0 -> value_compare a c = 0;
  hash_respects a b : key_ok a -> key_ok b -> value_compare a b = 0 -> value_hash a = value_hash b
}.

(** ** The contents of a table: a list of pairs with distinct keys, in the order of insertion *)

Section contents.
Context {K V : Type} (value_hash : K -> Z) (value_compare : K -> K -> Z) (key_ok : K -> Prop).

Definition contents (h : hash K V) : list (K * V) := map (fun x => (hkey (fst x), snd x)) (items h).

Definition assoc_find (key : K) (l : list (K * V)) : option (K * V) :=
  List.find (fun kv => value_compare (fst kv) key =? 0) l.

Definition assoc_put (key : K) (value : V) (l : list (K * V)) : list (K * V) :=
  match assoc_find key l with
  | Some _ => map (fun kv => if value_compare (fst kv) key =? 0 then (fst kv, value) else kv) l
  | None => l ++ [(key, value)]
  end.

Definition assoc_del (key : K) (l : list (K * V)) : list (K * V) :=
  List.filter (fun kv => negb (value_compare (fst kv) key =? 0)) l.

Record hash_ok (h : hash K V) : Prop := {
  tbl_ok : match tbl h with None => items h = [] | Some t => items h <> [] /\ table_ok t (items h).*1 end;
  addrs_ok : NoDup (addr <$> (items h).*1);
  fresh_ok : Forall (fun e => (addr e < next_addr h)%nat) (items h).*1;
  keys_ok : Forall (fun e => key_ok (hkey e) /\ hashv e = value_hash (hkey e)) (items h).*1;
  distinct_ok : forall e1 e2, e1 ∈ (items h).*1 -> e2 ∈ (items h).*1 -> value_compare (hkey e1) (hkey e2) = 0 -> e1 = e2
}.

Lemma empty_hash_ok : hash_ok empty_hash.
Proof.
  split; cbn; try done; try constructor. intros e1 e2 H. by apply elem_of_nil in H.
Qed.

Context `{HK : HashedKey K value_hash value_compare key_ok}.

Lemma find_In {A} (f : A -> bool) l x : List.find f l = Some x -> x ∈ l /\ f x = true.
Proof. intros H. apply find_some in H as [H ?]. split; [by apply list_elem_of_In|done]. Qed.

Lemma find_none_In {A} (f : A -> bool) l x : List.find f l = None -> x ∈ l -> f x = false.
Proof. intros H Hx. eapply find_none in H; [done|by apply list_elem_of_In]. Qed.

(** [HASH_FIND] finds an element whose key equals the given one if there is any. *)
Lemma hash_find_elem key h :
  hash_ok h -> key_ok key ->
  match hash_find value_hash value_compare key h with
  | Some e => e ∈ (items h).*1 /\ value_compare (hkey e) key = 0
  | None => forall e, e ∈ (items h).*1 -> value_compare (hkey e) key <> 0
  end.
Proof using HK.
  intros Hh Hkey. pose proof (tbl_ok h Hh) as Ht. unfold hash_find. destruct (tbl h) as [t|].
  - destruct Ht as [_ [[Hn Hk] Hl Hc]]. destruct (List.find _ _) as [e|] eqn:E.
    + apply find_In in E as [He Hz]. apply Hc in He as [He _]. split; [done|lia].
    + intros e He Hz. assert (Hin : e ∈ chain_at t (to_bkt (value_hash key) (num_buckets t))).
      { apply Hc. split; [done|]. pose proof (keys_ok h Hh) as Hks. eapply Forall_forall in Hks; [|by apply list_elem_of_In].
        destruct Hks as [Hke ->]. by rewrite (hash_respects (hkey e) key). }
      eapply find_none_In in E; [|exact Hin]. cbn beta in E. lia.
  - rewrite Ht. intros e He. by apply elem_of_nil in He.
Qed.

Lemma elem_of_items_fst (h : hash K V) e : e ∈ (items h).*1 <-> exists v, (e, v) ∈ items h.
Proof. rewrite list_elem_of_fmap. split; [intros ([? v] & -> & H); by exists v|intros [v H]; by exists (e, v)]. Qed.

Lemma addr_inj (h : hash K V) e1 v1 e2 v2 :
  hash_ok h -> (e1, v1) ∈ items h -> (e2, v2) ∈ items h -> addr e1 = addr e2 -> (e1, v1) = (e2, v2).
Proof using.
  intros Hh H1 H2 E. pose proof (addrs_ok h Hh) as Hnd. rewrite <- list_fmap_compose in Hnd.
  apply list_elem_of_lookup_1 in H1 as [i Hi]. apply list_elem_of_lookup_1 in H2 as [j Hj].
  assert (i = j) as ->.
  { eapply NoDup_lookup; [exact Hnd| |]; rewrite list_lookup_fmap; [rewrite Hi|rewrite Hj]; cbn; [done|by rewrite E]. }
  congruence.
Qed.

Lemma same_addr (h : hash K V) e1 e2 : hash_ok h -> e1 ∈ (items h).*1 -> e2 ∈ (items h).*1 -> addr e1 = addr e2 -> e1 = e2.
Proof using.
  intros Hh H1 H2 E. apply elem_of_items_fst in H1 as [v1 H1]. apply elem_of_items_fst in H2 as [v2 H2].
  pose proof (addr_inj h e1 v1 e2 v2 Hh H1 H2 E). congruence.
Qed.

Lemma key_ok_of (h : hash K V) e : hash_ok h -> e ∈ (items h).*1 -> key_ok (hkey e).
Proof using.
  intros Hh He. pose proof (keys_ok h Hh) as Hks. eapply Forall_forall in Hks; [|by apply list_elem_of_In]. apply Hks.
Qed.

(** An element is the one found exactly when its key equals the one looked for. *)
Lemma found_iff key h e x :
  hash_ok h -> key_ok key -> hash_find value_hash value_compare key h = Some e -> x ∈ (items h).*1 ->
  (addr x =? addr e)%nat = (value_compare (hkey x) key =? 0).
Proof using HK.
  intros Hh Hkey E Hx. pose proof (hash_find_elem key h Hh Hkey) as H. rewrite E in H. destruct H as [He Hz].
  destruct (Nat.eqb_spec (addr x) (addr e)) as [Ha|Ha].
  - rewrite (same_addr h x e Hh Hx He Ha). by rewrite Hz.
  - symmetry. apply Z.eqb_neq. intros Hc. apply Ha. f_equal. apply (distinct_ok h Hh); [done..|].
    eapply compare_trans; [by eapply key_ok_of|exact Hkey|by eapply key_ok_of|done|].
    apply compare_sym; [by eapply key_ok_of|done|done].
Qed.

Lemma filter_ext_in' {A} (f g : A -> bool) l : (forall x, x ∈ l -> f x = g x) -> List.filter f l = List.filter g l.
Proof. intros H. apply filter_ext_in. intros x Hx. apply H. by apply list_elem_of_In. Qed.

Lemma find_spec key h :
  hash_ok h -> key_ok key ->
  match hash_find value_hash value_compare key h with
  | Some e => exists v, (e, v) ∈ items h /\ assoc_find key (contents h) = Some (hkey e, v)
  | None => assoc_find key (contents h) = None
  end.
Proof using HK.
  intros Hh Hkey. pose proof (hash_find_elem key h Hh Hkey) as H. destruct (hash_find _ _ key h) as [e|] eqn:E.
  - destruct (assoc_find key (contents h)) as [[k v]|] eqn:Ef.
    + apply find_In in Ef as [Hin Hz]. cbn [fst] in Hz. apply list_elem_of_fmap in Hin as ([e' v'] & [= -> ->] & Hin).
      assert (addr e' = addr e) as Ha.
      { apply Nat.eqb_eq. rewrite (found_iff key h e e' Hh Hkey E); [done|]. apply elem_of_items_fst. by exists v'. }
      destruct H as [He _]. apply elem_of_items_fst in He as [w He]. pose proof (addr_inj h _ _ _ _ Hh Hin He Ha) as [= -> ->].
      by exists w.
    + destruct H as [He Hz]. apply elem_of_items_fst in He as [v He].
      eapply (find_none_In _ _ (hkey e, v)) in Ef; [cbn [fst] in Ef; lia|]. apply list_elem_of_fmap. by exists (e, v).
  - destruct (assoc_find key (contents h)) as [[k v]|] eqn:Ef; [|done]. apply find_In in Ef as [Hin Hz]. cbn [fst] in Hz.
    apply list_elem_of_fmap in Hin as ([e' v'] & [= -> ->] & Hin). destruct (H e'); [|lia]. apply elem_of_items_fst. by exists v'.
Qed.

Lemma add_ok key value h :
  hash_ok h -> key_ok key -> hash_find value_hash value_compare key h = None ->
  hash_ok (hash_add value_hash key value h) /\ contents (hash_add value_hash key value h) = contents h ++ [(key, value)].
Proof using HK.
  intros Hh Hkey E. pose proof (hash_find_elem key h Hh Hkey) as Hnone. rewrite E in Hnone. pose proof Hh as [Ht Ha Hf Hks Hd].
  split; [|by unfold contents, hash_add; cbn [items]; rewrite map_app].
  assert (Hnew : forall e, e ∈ (items h).*1 -> value_compare key (hkey e) <> 0).
  { intros e He Hz. apply (Hnone e He). apply compare_sym; [done|by eapply key_ok_of|done]. }
  split; unfold hash_add; cbn [items tbl next_addr]; rewrite fmap_app; cbn [fmap list_fmap fst].
  - split; [by destruct (items h)|]. apply add_to_bkt_ok. destruct (tbl h) as [t|]; [apply Ht|rewrite Ht; apply make_table_ok].
  - rewrite fmap_app. apply list.NoDup_app. split; [done|]. split; [|apply NoDup_singleton]. intros a Hin Hin'.
    apply list_elem_of_singleton in Hin' as ->. apply list_elem_of_fmap in Hin as (e & Ea & He).
    eapply Forall_forall in Hf; [|by apply list_elem_of_In]. cbn [addr] in Ea. lia.
  - apply Forall_app. split; [|repeat constructor; cbn; lia]. eapply Forall_impl; [|exact Hf]. cbn. lia.
  - apply Forall_app. split; [done|]. by repeat constructor.
  - intros e1 e2 H1 H2 Hz. apply elem_of_app in H1 as [H1 | ->%list_elem_of_singleton]; apply elem_of_app in H2 as [H2 | ->%list_elem_of_singleton].
    + by apply Hd.
    + by destruct (Hnone e1 H1).
    + by destruct (Hnew e2 H2).
    + done.
Qed.

Lemma update_items_fst (e : handle K) (value : V) (l : list (handle K * V)) :
  (map (fun x => if (addr (fst x) =? addr e)%nat then (fst x, value) else x) l).*1 = l.*1.
Proof. induction l as [|[x v] l IH]; [done|]. cbn [map fmap list_fmap]. f_equal; [by case_match|exact IH]. Qed.

Lemma update_ok key value h e :
  hash_ok h -> key_ok key -> hash_find value_hash value_compare key h = Some e ->
  hash_ok (hash_update e value h) /\
  contents (hash_update e value h) = map (fun kv => if value_compare (fst kv) key =? 0 then (fst kv, value) else kv) (contents h).
Proof using HK.
  intros Hh Hkey E. pose proof Hh as [Ht Ha Hf Hks Hd]. split.
  - split; unfold hash_update; cbn [items tbl next_addr]; rewrite ?update_items_fst; try done.
    destruct (tbl h); [split; [|apply Ht]; destruct Ht as [Hne _]; by destruct (items h)|by rewrite Ht].
  - unfold contents, hash_update. cbn [items]. rewrite !map_map. apply map_ext_in. intros [x v] Hx%list_elem_of_In. cbn [fst snd].
    rewrite (found_iff key h e x Hh Hkey E) by (apply elem_of_items_fst; by exists v).
    by destruct (value_compare (hkey x) key =? 0).
Qed.

Lemma filter_fst (f : handle K -> bool) (l : list (handle K * V)) : (List.filter (fun x => f (fst x)) l).*1 = List.filter f l.*1.
Proof. induction l as [|[x v] l IH]; [done|]. cbn. case_match; cbn; by rewrite ?IH. Qed.

Lemma elem_of_lfilter {A} (f : A -> bool) l x : x ∈ List.filter f l <-> x ∈ l /\ f x = true.
Proof. rewrite !list_elem_of_In. apply filter_In. Qed.

Lemma lfilter_sublist {A} (f : A -> bool) (l : list A) : sublist (List.filter f l) l.
Proof. induction l as [|x l IH]; cbn; [constructor|]. case_match; by constructor. Qed.

Lemma lfilter_Forall {A} (f : A -> bool) (P : A -> Prop) l : Forall P l -> Forall P (List.filter f l).
Proof. induction 1; cbn; [constructor|]. case_match; by try constructor. Qed.

Lemma filter_true {A} (f : A -> bool) (l : list A) : (forall x, x ∈ l -> f x = true) -> List.filter f l = l.
Proof.
  induction l as [|x l IH]; intros H; [done|]. cbn. rewrite (H x) by (by left). f_equal. apply IH. intros y Hy. apply H. by right.
Qed.

Lemma delete_table_ok (e : handle K) t l :
  table_ok t l -> (forall x, x ∈ l -> addr x = addr e -> x = e) ->
  let keep := fun x : handle K => negb (addr x =? addr e)%nat in
  table_ok {| num_buckets := num_buckets t; log2_num_buckets := log2_num_buckets t;
              buckets := alter (fun b => {| chain := List.filter keep (chain b); expand_mult := expand_mult b |})
                           (to_bkt (hashv e) (num_buckets t)) (buckets t);
              ineff_expands := ineff_expands t; noexpand := noexpand t |} (List.filter keep l).
Proof using.
  intros [[Hn Hk] Hl Hc] Hadr keep. split; cbn [num_buckets log2_num_buckets buckets]; [done|by rewrite length_alter|].
  pose proof (to_bkt_lt (hashv e) _ Hk) as Hb. rewrite <- Hn in Hb.
  intros i x. unfold chain_at. cbn [buckets]. fold (chain_of (alter (fun b => {| chain := List.filter keep (chain b); expand_mult := expand_mult b |})
    (to_bkt (hashv e) (num_buckets t)) (buckets t)) i). rewrite chain_of_alter by lia. rewrite elem_of_lfilter.
  specialize (Hc i x). unfold chain_at in Hc. fold (chain_of (buckets t) i) in Hc. destruct (decide (i = _)) as [->|Hne].
  - unfold chain_of in Hc. destruct (buckets t !! _) as [b|]; cbn [chain]; [rewrite elem_of_lfilter, Hc|rewrite elem_of_nil in *]; naive_solver.
  - rewrite Hc. split; [|naive_solver]. intros [Hx Hi]. split; [|done]. split; [done|]. unfold keep.
    destruct (Nat.eqb_spec (addr x) (addr e)) as [Ha|]; [|done]. rewrite (Hadr x Hx Ha) in Hi. by destruct Hne.
Qed.

Lemma delete_items_ok (e : handle K) h :
  hash_ok h -> e ∈ (items h).*1 ->
  let keep := fun x : handle K => negb (addr x =? addr e)%nat in
  hash_ok (hash_delete e h) /\ items (hash_delete e h) = List.filter (fun x => keep (fst x)) (items h).
Proof using.
  clear HK. intros Hh He keep. pose proof Hh as [Ht Ha Hf Hks Hd]. unfold hash_delete.
  destruct (items h) as [|x0 [|x1 l]] eqn:El; [by apply elem_of_nil in He| |].
  - apply list_elem_of_singleton in He as ->. cbn [List.filter fst]. unfold keep. rewrite Nat.eqb_refl. cbn [negb]. split; [|done].
    split; cbn [items tbl next_addr]; try done; try constructor. intros e1 e2 H. by apply elem_of_nil in H.
  - rewrite <- El in *. split; [|done]. destruct (tbl h) as [t|] eqn:Et; [|by rewrite Ht in El].
    assert (Hsub : sublist (List.filter keep (items h).*1) (items h).*1) by apply lfilter_sublist.
    assert (Efst : (List.filter (fun x => negb (addr (fst x) =? addr e)%nat) (items h)).*1 = List.filter keep (items h).*1)
      by apply (filter_fst keep).
    split; cbn [items tbl next_addr]; rewrite ?Efst.
    + destruct Ht as [_ Ht]. split.
      * intros Hnil. assert (Hfst : List.filter keep (items h).*1 = []) by (rewrite <- filter_fst; unfold keep; by rewrite Hnil).
        assert (Hx : forall x, x ∈ (items h).*1 -> addr x = addr e).
        { intros x Hx. destruct (keep x) eqn:Ekeep; [exfalso|unfold keep in Ekeep; by destruct (Nat.eqb_spec (addr x) (addr e))].
          assert (Hin : x ∈ List.filter keep (items h).*1) by (by apply elem_of_lfilter). rewrite Hfst in Hin. by apply elem_of_nil in Hin. }
        rewrite El in Ha, Hx. cbn [fmap list_fmap] in Ha. apply NoDup_cons_1_1 in Ha. apply Ha.
        rewrite (Hx x0.1), (Hx x1.1) by (cbn; set_solver). set_solver.
      * apply (delete_table_ok e t _ Ht). intros x Hx E. eapply same_addr; [exact Hh|done..].
    + eapply sublist_NoDup; [exact Ha|]. by apply fmap_sublist.
    + apply lfilter_Forall, Hf.
    + apply lfilter_Forall, Hks.
    + intros e1 e2 H1 H2. apply elem_of_lfilter in H1 as [H1 _]. apply elem_of_lfilter in H2 as [H2 _]. by apply Hd.
Qed.

Lemma delete_ok key h e :
  hash_ok h -> key_ok key -> hash_find value_hash value_compare key h = Some e ->
  hash_ok (hash_delete e h) /\ contents (hash_delete e h) = assoc_del key (contents h).
Proof using HK.
  intros Hh Hkey E. pose proof (hash_find_elem key h Hh Hkey) as H. rewrite E in H. destruct H as [He _].
  destruct (delete_items_ok e h Hh He) as [Hok Ei]. split; [done|]. unfold contents, assoc_del. rewrite Ei.
  rewrite filter_map_swap. f_equal. apply filter_ext_in'. intros [x v] Hx. cbn [fst].
  rewrite (found_iff key h e x Hh Hkey E); [done|]. apply elem_of_items_fst. by exists v.
Qed.

(** Looking a key up, then updating or adding: what a map's [set] does to its table. *)
Definition hash_put (key : K) (value : V) (h : hash K V) : hash K V :=
  match hash_find value_hash value_compare key h with
  | None => hash_add value_hash key value h
  | Some e => hash_update e value h
  end.

Definition hash_remove (key : K) (h : hash K V) : hash K V :=
  match hash_find value_hash value_compare key h with
  | None => h
  | Some e => hash_delete e h
  end.

Definition hash_get (key : K) (h : hash K V) : option V :=
  match hash_find value_hash value_compare key h with
  | None => None
  | Some e => option_map snd (List.find (fun x => (addr (fst x) =? addr e)%nat) (items h))
  end.

Lemma put_ok key value h :
  hash_ok h -> key_ok key ->
  hash_ok (hash_put key value h) /\ contents (hash_put key value h) = assoc_put key value (contents h).
Proof using HK.
  intros Hh Hkey. unfold hash_put, assoc_put. pose proof (find_spec key h Hh Hkey) as Hf.
  destruct (hash_find _ _ key h) as [e|] eqn:E.
  - destruct Hf as (v & _ & ->). by apply update_ok.
  - rewrite Hf. by apply add_ok.
Qed.

Lemma remove_ok key h :
  hash_ok h -> key_ok key ->
  hash_ok (hash_remove key h) /\ contents (hash_remove key h) = assoc_del key (contents h).
Proof using HK.
  intros Hh Hkey. unfold hash_remove. pose proof (find_spec key h Hh Hkey) as Hf.
  destruct (hash_find _ _ key h) as [e|] eqn:E; [by apply delete_ok|]. split; [done|].
  unfold assoc_del. symmetry. apply filter_true. intros kv Hin. pose proof (find_none_In _ _ kv Hf Hin) as H. cbn beta in H. by rewrite H.
Qed.

Lemma get_ok key h : hash_ok h -> key_ok key -> hash_get key h = option_map snd (assoc_find key (contents h)).
Proof using HK.
  intros Hh Hkey. unfold hash_get. pose proof (find_spec key h Hh Hkey) as Hf.
  destruct (hash_find _ _ key h) as [e|] eqn:E; [|by rewrite Hf]. destruct Hf as (v & Hin & ->).
  destruct (List.find _ (items h)) as [[x w]|] eqn:Ef.
  - apply find_In in Ef as [Hx Ha]. cbn [fst] in Ha. apply Nat.eqb_eq in Ha.
    pose proof (addr_inj h _ _ _ _ Hh Hx Hin Ha) as [= -> ->]. done.
  - eapply (find_none_In _ _ (e, v)) in Ef; [|done]. cbn [fst] in Ef. by rewrite Nat.eqb_refl in Ef.
Qed.

Inductive hash_op :=
| Put (key : K) (value : V)
| Remove (key : K).

Definition op_key (o : hash_op) : K := match o with Put key _ | Remove key => key end.

Definition hash_run (o : hash_op) (h : hash K V) : hash K V :=
  match o with Put key value => hash_put key value h | Remove key => hash_remove key h end.
Definition assoc_run (o : hash_op) (l : list (K * V)) : list (K * V) :=
  match o with Put key value => assoc_put key value l | Remove key => assoc_del key l end.

Lemma run_ops_ok ops : forall h,
  hash_ok h -> Forall (fun o => key_ok (op_key o)) ops ->
  hash_ok (fold_left (fun h o => hash_run o h) ops h) /\
  contents (fold_left (fun h o => hash_run o h) ops h) = fold_left (fun l o => assoc_run o l) ops (contents h).
Proof using HK.
  induction ops as [|o ops IH]; intros h Hh Hops; [done|]. apply Forall_cons_1 in Hops as [Ho Hops]. cbn [fold_left].
  assert (Hstep : hash_ok (hash_run o h) /\ contents (hash_run o h) = assoc_run o (contents h)).
  { destruct o; [by apply put_ok|by apply remove_ok]. }
  destruct Hstep as [Hok Ec]. destruct (IH _ Hok Hops) as [H1 H2]. split; [done|]. by rewrite H2, Ec.
Qed.

(** C25: the hash table implements a list of pairs.  For keys whose comparison is an equivalence
    that the hash respects, any sequence of additions, updates and removals - through the growth of
    the bucket array - leaves the pairs of the list to which the same operations were applied, in
    the order of insertion, and looking a key up finds the value under the equal key of the list. *)
Theorem uthash_refines ops key :
  Forall (fun o => key_ok (op_key o)) ops -> key_ok key ->
  let h := fold_left (fun h o => hash_run o h) ops empty_hash in
  let l := fold_left (fun l o => assoc_run o l) ops [] in
  contents h = l /\ num_items h = zlen l /\ hash_get key h = option_map snd (assoc_find key l).
Proof using HK.
  intros Hops Hkey h l. destruct (run_ops_ok ops empty_hash empty_hash_ok Hops) as [Hok Ec]. split_and!.
  - exact Ec.
  - unfold num_items, l. change (@nil (K * V)) with (contents (@empty_hash K V)). rewrite <- Ec. unfold contents, zlen. by rewrite length_map.
  - unfold h. rewrite get_ok by done. by rewrite Ec.
Qed.
End contents.

(** Integers as keys; the multiples of 32 share a bucket until the table grows. *)
Definition int_key_hash (z : Z) : Z := wrapU 32 z.
Definition int_key_compare (a b : Z) : Z := a - b.

#[local] Instance int_hashed_key : HashedKey int_key_hash int_key_compare (fun _ => True).
Proof. unfold int_key_compare. split; intros; try lia. by replace a with b by lia. Qed.

Definition example_ops : list (@hash_op Z Z) := map (fun i => Put (32 * Z.of_nat i) (Z.of_nat i)) (seq 0 12) ++ [Remove 64; Put 32 99].

Lemma uthash_refines_witness :
  hash_get int_key_hash int_key_compare 32
    (fold_left (fun h o => hash_run int_key_hash int_key_compare o h) example_ops empty_hash) = Some 99 /\
  num_items (fold_left (fun h o => hash_run int_key_hash int_key_compare o h) example_ops empty_hash) = 11.
Proof.
  destruct (uthash_refines int_key_hash int_key_compare (fun _ => True) example_ops 32) as (_ & Hn & Hg).
  - repeat constructor.
  - exact I.
  - split; [rewrite Hg; vm_compute; reflexivity|rewrite Hn; vm_compute; reflexivity].
Defined.
