(* ===== verification/Types.v ===== *)
(** Cassandra types as the extension represents them (src/Type/TypeFactory.c) and their
    comparison. *)
From S2P Require Import Prelude.

(** [CassValueType] *)
Definition CASS_VALUE_TYPE_CUSTOM : Z := 0.
Definition CASS_VALUE_TYPE_ASCII : Z := 1.
Definition CASS_VALUE_TYPE_BIGINT : Z := 2.
Definition CASS_VALUE_TYPE_BLOB : Z := 3.
Definition CASS_VALUE_TYPE_BOOLEAN : Z := 4.
Definition CASS_VALUE_TYPE_COUNTER : Z := 5.
Definition CASS_VALUE_TYPE_DECIMAL : Z := 6.
Definition CASS_VALUE_TYPE_DOUBLE : Z := 7.
Definition CASS_VALUE_TYPE_FLOAT : Z := 8.
Definition CASS_VALUE_TYPE_INT : Z := 9.
Definition CASS_VALUE_TYPE_TEXT : Z := 10.
Definition CASS_VALUE_TYPE_TIMESTAMP : Z := 11.
Definition CASS_VALUE_TYPE_UUID : Z := 12.
Definition CASS_VALUE_TYPE_VARCHAR : Z := 13.
Definition CASS_VALUE_TYPE_VARINT : Z := 14.
Definition CASS_VALUE_TYPE_TIMEUUID : Z := 15.
Definition CASS_VALUE_TYPE_INET : Z := 16.
Definition CASS_VALUE_TYPE_DATE : Z := 17.
Definition CASS_VALUE_TYPE_TIME : Z := 18.
Definition CASS_VALUE_TYPE_SMALL_INT : Z := 19.
Definition CASS_VALUE_TYPE_TINY_INT : Z := 20.
Definition CASS_VALUE_TYPE_DURATION : Z := 21.
Definition CASS_VALUE_TYPE_LIST : Z := 32.
Definition CASS_VALUE_TYPE_MAP : Z := 33.
Definition CASS_VALUE_TYPE_SET : Z := 34.
Definition CASS_VALUE_TYPE_UDT : Z := 48.
Definition CASS_VALUE_TYPE_TUPLE : Z := 49.

(** The types: a scalar by its code, a custom type by its class, the types of elements, and the
    fields of a user type, whose names may be missing. *)
Inductive php_scylladb_type :=
| TScalar (type : Z)
| TCustom (class_name : bytes)
| TCollection (value_type : php_scylladb_type)
| TMap (key_type value_type : php_scylladb_type)
| TSet (value_type : php_scylladb_type)
| TTuple (types : list php_scylladb_type)
| TUserType (keyspace type_name : option bytes) (types : list (bytes * php_scylladb_type)).

Definition type_code (t : php_scylladb_type) : Z :=
  match t with
  | TScalar type => type
  | TCustom _ => CASS_VALUE_TYPE_CUSTOM
  | TCollection _ => CASS_VALUE_TYPE_LIST
  | TMap _ _ => CASS_VALUE_TYPE_MAP
  | TSet _ => CASS_VALUE_TYPE_SET
  | TTuple _ => CASS_VALUE_TYPE_TUPLE
  | TUserType _ _ _ => CASS_VALUE_TYPE_UDT
  end.

(** The sign of [memcmp] of strings of one length. *)
Fixpoint memcmp (s1 s2 : bytes) : Z :=
  match s1, s2 with
  | c1 :: s1', c2 :: s2' => if c1 =? c2 then memcmp s1' s2' else if c1 <? c2 then -1 else 1
  | _, _ => 0
  end.

Definition php5to7_string_compare (s1 s2 : bytes) : Z :=
  if negb (zlen s1 =? zlen s2) then if zlen s1 <? zlen s2 then -1 else 1 else memcmp s1 s2.

Definition udt_name_compare (name1 name2 : option bytes) : Z :=
  match name1, name2 with
  | Some n1, Some n2 => php5to7_string_compare n1 n2
  | _, _ => 0
  end.

Definition is_string_type (type : Z) : bool := (type =? CASS_VALUE_TYPE_VARCHAR) || (type =? CASS_VALUE_TYPE_TEXT).

(** The first result that is not zero. *)
Definition then_compare (r1 r2 : Z) : Z := if negb (r1 =? 0) then r1 else r2.

(** The loop over the elements of two hash tables of one length. *)
Fixpoint compare_lists {A B} (compare : A -> B -> Z) (l1 : list A) (l2 : list B) : Z :=
  match l1, l2 with
  | x1 :: l1', x2 :: l2' => then_compare (compare x1 x2) (compare_lists compare l1' l2')
  | _, _ => 0
  end.

Definition compare_counts {A B} (l1 : list A) (l2 : list B) : Z :=
  if zlen l1 =? zlen l2 then 0 else if zlen l1 <? zlen l2 then -1 else 1.

Fixpoint php_scylladb_type_compare (type1 type2 : php_scylladb_type) {struct type1} : Z :=
  if negb (type_code type1 =? type_code type2) then
    if is_string_type (type_code type1) && is_string_type (type_code type2) then 0
    else if type_code type1 <? type_code type2 then -1 else 1
  else
    match type1, type2 with
    | TCollection v1, TCollection v2 => php_scylladb_type_compare v1 v2
    | TMap k1 v1, TMap k2 v2 => then_compare (php_scylladb_type_compare k1 k2) (php_scylladb_type_compare v1 v2)
    | TSet v1, TSet v2 => php_scylladb_type_compare v1 v2
    | TTuple l1, TTuple l2 => then_compare (compare_counts l1 l2) (compare_lists php_scylladb_type_compare l1 l2)
    | TUserType ks1 n1 l1, TUserType ks2 n2 l2 =>
        then_compare (udt_name_compare ks1 ks2)
          (then_compare (udt_name_compare n1 n2)
             (then_compare (compare_counts l1 l2)
                (compare_lists (fun f1 f2 : bytes * php_scylladb_type =>
                   then_compare (php5to7_string_compare (fst f1) (fst f2)) (php_scylladb_type_compare (snd f1) (snd f2))) l1 l2)))
    | _, _ => 0
    end.

(** ** Types up to their aliases *)

(** Induction that reaches the types in lists. *)
Section type_induction.
Context (P : php_scylladb_type -> Prop).
Context (Hscalar : forall c, P (TScalar c)) (Hcustom : forall n, P (TCustom n)).
Context (Hcollection : forall t, P t -> P (TCollection t)) (Hmap : forall k v, P k -> P v -> P (TMap k v)).
Context (Hset : forall t, P t -> P (TSet t)) (Htuple : forall l, Forall P l -> P (TTuple l)).
Context (Hudt : forall ks n l, Forall (fun f => P (snd f)) l -> P (TUserType ks n l)).

Fixpoint type_rec (t : php_scylladb_type) : P t :=
  match t with
  | TScalar c => Hscalar c
  | TCustom n => Hcustom n
  | TCollection v => Hcollection v (type_rec v)
  | TMap k v => Hmap k v (type_rec k) (type_rec v)
  | TSet v => Hset v (type_rec v)
  | TTuple l => Htuple l ((fix go l : Forall P l := match l with [] => @List.Forall_nil _ P | x :: l' => @List.Forall_cons _ P x l' (type_rec x) (go l') end) l)
  | TUserType ks n l =>
      let Q := fun f : bytes * php_scylladb_type => P (snd f) in
      Hudt ks n l ((fix go l : Forall Q l := match l with [] => @List.Forall_nil _ Q | x :: l' => @List.Forall_cons _ Q x l' (type_rec (snd x)) (go l') end) l)
  end.
End type_induction.

(** Scalars have scalar codes and user types have their names. *)
Fixpoint well_named (t : php_scylladb_type) : bool :=
  match t with
  | TScalar c => (1 <=? c) && (c <=? CASS_VALUE_TYPE_DURATION)
  | TCustom _ => true
  | TCollection v | TSet v => well_named v
  | TMap k v => well_named k && well_named v
  | TTuple l => forallb well_named l
  | TUserType ks n l =>
      match ks, n with Some _, Some _ => forallb (fun f => well_named (snd f)) l | _, _ => false end
  end.

(** Text is varchar, and the class of a custom type is not looked at. *)
Fixpoint canonical (t : php_scylladb_type) : php_scylladb_type :=
  match t with
  | TScalar c => TScalar (if c =? CASS_VALUE_TYPE_TEXT then CASS_VALUE_TYPE_VARCHAR else c)
  | TCustom _ => TCustom []
  | TCollection v => TCollection (canonical v)
  | TMap k v => TMap (canonical k) (canonical v)
  | TSet v => TSet (canonical v)
  | TTuple l => TTuple (map canonical l)
  | TUserType ks n l => TUserType ks n (map (fun f => (fst f, canonical (snd f))) l)
  end.

Lemma then_compare_0 r1 r2 : then_compare r1 r2 = 0 <-> r1 = 0 /\ r2 = 0.
Proof. unfold then_compare. destruct (Z.eqb_spec r1 0); cbn; lia. Qed.

Lemma memcmp_0 s1 : forall s2, zlen s1 = zlen s2 -> memcmp s1 s2 = 0 <-> s1 = s2.
Proof.
  induction s1 as [|c1 s1 IH]; intros [|c2 s2] Hl; rewrite ?zlen_cons, ?zlen_nil in Hl.
  - done.
  - pose proof (zlen_nonneg s2). lia.
  - pose proof (zlen_nonneg s1). lia.
  - cbn [memcmp]. destruct (Z.eqb_spec c1 c2) as [->|Hne].
    + rewrite IH by lia. split; [by intros ->|intros E; by simplify_eq].
    + split; [case_match; lia|intros [= ? _]; done].
Qed.

Lemma string_compare_0 s1 s2 : php5to7_string_compare s1 s2 = 0 <-> s1 = s2.
Proof.
  unfold php5to7_string_compare. destruct (Z.eqb_spec (zlen s1) (zlen s2)); cbn [negb]; [by apply memcmp_0|].
  split; [case_match; lia|by intros ->].
Qed.

Lemma compare_counts_0 {A B} (l1 : list A) (l2 : list B) : compare_counts l1 l2 = 0 <-> zlen l1 = zlen l2.
Proof. unfold compare_counts. destruct (Z.eqb_spec (zlen l1) (zlen l2)); [done|]. split; [case_match; lia|done]. Qed.

(** Lists compare as equal exactly when their images under a normal form are equal. *)
Lemma compare_lists_0 {A C} (compare : A -> A -> Z) (nf : A -> C) (ok : A -> bool) l1 :
  Forall (fun x => forall y, ok x = true -> ok y = true -> compare x y = 0 <-> nf x = nf y) l1 ->
  forall l2, forallb ok l1 = true -> forallb ok l2 = true -> zlen l1 = zlen l2 ->
  compare_lists compare l1 l2 = 0 <-> map nf l1 = map nf l2.
Proof.
  induction 1 as [|x l1 Hx _ IH]; intros [|y l2] H1 H2 Hl; rewrite ?zlen_cons, ?zlen_nil in Hl.
  - done.
  - pose proof (zlen_nonneg l2). lia.
  - pose proof (zlen_nonneg l1). lia.
  - cbn [forallb] in H1, H2. apply andb_prop in H1 as [Ho1 H1]. apply andb_prop in H2 as [Ho2 H2].
    cbn [compare_lists map]. rewrite then_compare_0, Hx, IH by (done || lia). split; [intros [-> ->]; done|intros E; by simplify_eq].
Qed.

Lemma map_zlen {A B} (f : A -> B) l : zlen (map f l) = zlen l.
Proof. unfold zlen. by rewrite length_map. Qed.

(** Lists of one normal form have one length. *)
Lemma counted_lists_0 {A C} (compare : A -> A -> Z) (nf : A -> C) (ok : A -> bool) l1 l2 :
  Forall (fun x => forall y, ok x = true -> ok y = true -> compare x y = 0 <-> nf x = nf y) l1 ->
  forallb ok l1 = true -> forallb ok l2 = true ->
  then_compare (compare_counts l1 l2) (compare_lists compare l1 l2) = 0 <-> map nf l1 = map nf l2.
Proof.
  intros H H1 H2. rewrite then_compare_0, compare_counts_0. split.
  - intros [Hl Hc]. by apply (compare_lists_0 compare nf ok l1 H l2).
  - intros E. assert (Hl : zlen l1 = zlen l2) by (by rewrite <- (map_zlen nf l1), E, map_zlen).
    split; [done|]. by apply (compare_lists_0 compare nf ok l1 H l2).
Qed.

Lemma scalar_type_compare c1 c2 :
  php_scylladb_type_compare (TScalar c1) (TScalar c2) = 0 <-> canonical (TScalar c1) = canonical (TScalar c2).
Proof.
  cbn [php_scylladb_type_compare type_code canonical]. unfold is_string_type, CASS_VALUE_TYPE_VARCHAR, CASS_VALUE_TYPE_TEXT.
  destruct (Z.eqb_spec c1 c2) as [->|Hne]; cbn [negb]; [done|].
  destruct (Z.eqb_spec c1 13), (Z.eqb_spec c1 10), (Z.eqb_spec c2 13), (Z.eqb_spec c2 10); cbn [orb andb]; subst; try done;
    (split; [case_match; lia|intros [= ?]; lia]).
Qed.

Lemma different_codes t1 t2 :
  type_code t1 <> type_code t2 -> is_string_type (type_code t1) && is_string_type (type_code t2) = false ->
  php_scylladb_type_compare t1 t2 <> 0.
Proof.
  intros Hne Hs. assert (E : (type_code t1 =? type_code t2) = false) by lia.
  destruct t1; cbn [php_scylladb_type_compare]; rewrite E, Hs; cbn [negb]; case_match; lia.
Qed.

(** Types of different kinds are different. *)
Ltac different_kinds :=
  split; [intros Hc; exfalso; revert Hc; apply different_codes|intros [=]];
  cbn [type_code well_named] in *;
  unfold is_string_type, CASS_VALUE_TYPE_DURATION, CASS_VALUE_TYPE_CUSTOM, CASS_VALUE_TYPE_LIST, CASS_VALUE_TYPE_MAP,
    CASS_VALUE_TYPE_SET, CASS_VALUE_TYPE_TUPLE, CASS_VALUE_TYPE_UDT, CASS_VALUE_TYPE_VARCHAR, CASS_VALUE_TYPE_TEXT in *; lia.

Lemma type_compare_canonical t1 : forall t2,
  well_named t1 = true -> well_named t2 = true -> php_scylladb_type_compare t1 t2 = 0 <-> canonical t1 = canonical t2.
Proof.
  induction t1 as [c|n|v IH|k v IHk IHv|v IH|l IH|ks n l IH] using type_rec; intros t2 H1 H2; destruct t2; try different_kinds.
  - apply scalar_type_compare.
  - done.
  - cbn in *. rewrite IH by done. split; [by intros ->|intros E; by simplify_eq].
  - cbn in *. apply andb_prop in H1 as [? ?]. apply andb_prop in H2 as [? ?]. rewrite then_compare_0, IHk, IHv by done. split; [intros [-> ->]; done|intros E; by simplify_eq].
  - cbn in *. rewrite IH by done. split; [by intros ->|intros E; by simplify_eq].
  - cbn in H1, H2. change (php_scylladb_type_compare _ _) with (then_compare (compare_counts l types) (compare_lists php_scylladb_type_compare l types)).
    rewrite (counted_lists_0 _ canonical well_named) by done. cbn [canonical]. split; [by intros ->|intros E; by simplify_eq].
  - destruct ks as [ks|], n as [n|], keyspace as [ks'|], type_name as [n'|]; try done. cbn [well_named] in H1, H2.
    change (php_scylladb_type_compare _ _) with
      (then_compare (php5to7_string_compare ks ks') (then_compare (php5to7_string_compare n n')
         (then_compare (compare_counts l types) (compare_lists (fun f1 f2 : bytes * php_scylladb_type =>
            then_compare (php5to7_string_compare (fst f1) (fst f2)) (php_scylladb_type_compare (snd f1) (snd f2))) l types)))).
    rewrite 2!then_compare_0, !string_compare_0, (counted_lists_0 _ (fun f => (fst f, canonical (snd f))) (fun f => well_named (snd f))).
    + cbn [canonical]. split; [intros (-> & -> & ->); done|intros E; by simplify_eq].
    + eapply Forall_impl; [|exact IH]. intros [f1 t1] Hf [f2 t2] Ho1 Ho2. cbn in *. rewrite then_compare_0, string_compare_0, Hf by done.
      split; [intros [-> ->]; done|intros E; by simplify_eq].
    + done.
    + done.
Qed.

(** A user type without names, and two that differ in their names. *)
Definition udt_of (ks : option bytes) : php_scylladb_type := TUserType ks (Some (bs "t")) [(bs "f", TScalar CASS_VALUE_TYPE_INT)].

(** Equality of types.  Types whose user types have their names compare as equal exactly when
    they are the same type up to the alias of text and varchar and the class of custom types, which
    is not compared, so the comparison is an equivalence on them.  A user type without a keyspace equals those of every keyspace, so on types
    without names the comparison is not transitive. *)
Theorem type_equality t1 t2 :
  well_named t1 = true -> well_named t2 = true ->
  (php_scylladb_type_compare t1 t2 = 0 <-> canonical t1 = canonical t2) /\
  php_scylladb_type_compare (TCustom (bs "A")) (TCustom (bs "B")) = 0 /\
  (php_scylladb_type_compare (udt_of (Some (bs "a"))) (udt_of None) = 0 /\
   php_scylladb_type_compare (udt_of None) (udt_of (Some (bs "b"))) = 0 /\
   php_scylladb_type_compare (udt_of (Some (bs "a"))) (udt_of (Some (bs "b"))) <> 0).
Proof.
  intros H1 H2. split_and!; [by apply type_compare_canonical|by vm_compute..].
Qed.

Lemma type_equality_witness :
  canonical (TMap (TScalar CASS_VALUE_TYPE_TEXT) (udt_of (Some (bs "a")))) =
  canonical (TMap (TScalar CASS_VALUE_TYPE_VARCHAR) (udt_of (Some (bs "a")))).
Proof.
  apply (proj1 (type_equality (TMap (TScalar CASS_VALUE_TYPE_TEXT) (udt_of (Some (bs "a"))))
    (TMap (TScalar CASS_VALUE_TYPE_VARCHAR) (udt_of (Some (bs "a")))) eq_refl eq_refl)). vm_compute. reflexivity.
Defined.
