(* ===== verification/Values.v ===== *)
(** PHP values of Cassandra types: comparison and hash (src/Type/ValueHash.c and the handlers of
    the value classes), and validation against a type (src/Type/Conversions.c).

    A value of a class is the class with its data; a set or a map holds its hash table, a tuple or a
    user type value what was set, with its position or name, in the order it was set.  Doubles
    and floats are their bits.  [zend_hash], PHP's hash of a string, is a parameter.  Comparison
    recurs on both arguments in turn: its first argument bounds the nesting depth of the values. *)
From stdpp Require Import sets.
From S2P Require Import Prelude InetUtil Serialization UtHash Types.
#[local] Open Scope Z_scope.

(** Objects of the classes without elements. *)
Inductive scalar_object :=
| Bigint (v : Z)
| Smallint (v : Z)
| Tinyint (v : Z)
| Varint (v : Z)
| Decimal (v scale : Z)
| Float (bits : Z)
| Blob (data : bytes)
| Uuid (u : CassUuid)
| Timeuuid (u : CassUuid)
| Timestamp (v : Z)
| Date (v : Z)
| Time (v : Z)
| Duration (d : CassDuration)
| Inet (a : CassInet).

Inductive zval :=
| ZNull
| ZFalse
| ZTrue
| ZLong (v : Z)
| ZDouble (bits : Z)
| ZString (s : bytes)
| ZArray
| ZScalar (o : scalar_object)
| ZSet (type : php_scylladb_type) (entries : hash zval unit)
| ZMap (type : php_scylladb_type) (entries : hash zval zval)
| ZCollection (type : php_scylladb_type) (values : list zval)
| ZTuple (type : php_scylladb_type) (values : list (Z * zval))
| ZUserTypeValue (type : php_scylladb_type) (values : list (bytes * zval)).

(** [Z_TYPE_P]: IS_NULL is 1 and IS_OBJECT is 8. *)
Definition z_type (v : zval) : Z :=
  match v with
  | ZNull => 1
  | ZFalse => 2
  | ZTrue => 3
  | ZLong _ => 4
  | ZDouble _ => 5
  | ZString _ => 6
  | ZArray => 7
  | _ => 8
  end.

Definition scalar_class (o : scalar_object) : bytes :=
  match o with
  | Bigint _ => bs "Cassandra\Bigint"
  | Smallint _ => bs "Cassandra\Smallint"
  | Tinyint _ => bs "Cassandra\Tinyint"
  | Varint _ => bs "Cassandra\Varint"
  | Decimal _ _ => bs "Cassandra\Decimal"
  | Float _ => bs "Cassandra\Float"
  | Blob _ => bs "Cassandra\Blob"
  | Uuid _ => bs "Cassandra\Uuid"
  | Timeuuid _ => bs "Cassandra\Timeuuid"
  | Timestamp _ => bs "Cassandra\Timestamp"
  | Date _ => bs "Cassandra\Date"
  | Time _ => bs "Cassandra\Time"
  | Duration _ => bs "Cassandra\Duration"
  | Inet _ => bs "Cassandra\Inet"
  end.

Definition class_name (v : zval) : bytes :=
  match v with
  | ZScalar o => scalar_class o
  | ZSet _ _ => bs "Cassandra\Set"
  | ZMap _ _ => bs "Cassandra\Map"
  | ZCollection _ _ => bs "Cassandra\Collection"
  | ZTuple _ _ => bs "Cassandra\Tuple"
  | ZUserTypeValue _ _ => bs "Cassandra\UserTypeValue"
  | _ => []
  end.

(** ** Hash *)

Section values.
Context (zend_hash : bytes -> Z).

Definition php_scylladb_bigint_hash (value : Z) : Z := wrapU 32 (Z.lxor value (Z.shiftr value 32)).

Definition php_scylladb_combine_hash (seed hv : Z) : Z :=
  Z.lxor seed (wrapU 32 (hv + 0x9e3779b9 + wrapU 32 (Z.shiftl seed 6) + Z.shiftr seed 2)).

(** The 64-bit limbs of a magnitude, lowest first. *)
Fixpoint limbs (n : nat) (m : Z) : list Z :=
  match n with
  | O => []
  | S n' => if m =? 0 then [] else wrapU 64 m :: limbs n' (Z.shiftr m 64)
  end.
Definition mpz_limbs (v : Z) : list Z := limbs (Z.to_nat (Z.log2 (Z.abs v) / 64 + 1)) (Z.abs v).

Definition php_scylladb_mpz_hash (seed v : Z) : Z :=
  fold_left (fun hv limb => php_scylladb_combine_hash hv (php_scylladb_bigint_hash (wrapS 64 limb))) (mpz_limbs v) seed.

(** [zend_isnan] and [double_to_bits], on the bits of a double. *)
Definition double_isnan (bits : Z) : bool := (Z.land (Z.shiftr bits 52) 2047 =? 2047) && negb (Z.land bits (2 ^ 52 - 1) =? 0).
Definition double_to_bits (bits : Z) : Z := if double_isnan bits then 0x7ff8000000000000 else wrapS 64 bits.

Definition float_isnan (bits : Z) : bool := (Z.land (Z.shiftr bits 23) 255 =? 255) && negb (Z.land bits (2 ^ 23 - 1) =? 0).
Definition float_to_bits (bits : Z) : Z := if float_isnan bits then 0x7fc00000 else wrapS 32 bits.

(** The order of numbers that are not NaN, from the bits: a sign and a magnitude. *)
Definition magnitude (w bits : Z) : Z := if bits <? 2 ^ (w - 1) then bits else - (bits - 2 ^ (w - 1)).
Definition double_lt (a b : Z) : bool := negb (double_isnan a) && negb (double_isnan b) && (magnitude 64 a <? magnitude 64 b).
Definition float_lt (a b : Z) : bool := negb (float_isnan a) && negb (float_isnan b) && (magnitude 32 a <? magnitude 32 b).

(** The hash handlers of the scalar classes. *)
Definition scalar_hash (o : scalar_object) : Z :=
  match o with
  | Bigint v => wrapU 32 (Z.lxor v (Z.shiftr v 32))
  | Smallint v | Tinyint v => wrapU 32 (31 * 17 + v)
  | Varint v => php_scylladb_mpz_hash 0 v
  | Decimal v scale => php_scylladb_mpz_hash (wrapU 32 scale) v
  | Float bits => wrapU 32 (float_to_bits bits)
  | Blob data => wrapU 32 (zend_hash data)
  | Uuid u =>
      php_scylladb_combine_hash (php_scylladb_bigint_hash (wrapS 64 (time_and_version u)))
        (php_scylladb_bigint_hash (wrapS 64 (clock_seq_and_node u)))
  | Timeuuid u =>
      php_scylladb_combine_hash (wrapU 32 (Z.lxor (time_and_version u) (Z.shiftr (time_and_version u) 32)))
        (wrapU 32 (Z.lxor (clock_seq_and_node u) (Z.shiftr (clock_seq_and_node u) 32)))
  | Timestamp v | Time v => php_scylladb_bigint_hash v
  | Date v => wrapU 32 (31 * 17 + v)
  | Duration d =>
      php_scylladb_combine_hash (php_scylladb_combine_hash (php_scylladb_combine_hash 0 (wrapU 32 (months d)))
        (wrapU 32 (days d))) (wrapU 32 (nanos d))
  | Inet a => wrapU 32 (zend_hash (inet_address a))
  end.

Fixpoint php_scylladb_value_hash (v : zval) : Z :=
  match v with
  | ZLong n => php_scylladb_bigint_hash n
  | ZDouble bits => php_scylladb_bigint_hash (double_to_bits bits)
  | ZTrue => 1
  | ZFalse => 0
  | ZString s => wrapU 32 (zend_hash s)
  | ZScalar o => scalar_hash o
  | ZSet _ entries =>
      fold_left (fun hv e => php_scylladb_combine_hash hv (php_scylladb_value_hash (hkey (fst e)))) (items entries) 0
  | ZMap _ entries =>
      fold_left (fun hv e => php_scylladb_combine_hash
        (php_scylladb_combine_hash hv (php_scylladb_value_hash (hkey (fst e)))) (php_scylladb_value_hash (snd e))) (items entries) 0
  | ZCollection _ values =>
      fold_left (fun hv x => php_scylladb_combine_hash hv (php_scylladb_value_hash x)) values 0
  | ZTuple _ values =>
      fold_left (fun hv x => php_scylladb_combine_hash hv (php_scylladb_value_hash (snd x))) values 0
  | ZUserTypeValue _ values =>
      fold_left (fun hv x => php_scylladb_combine_hash hv (php_scylladb_value_hash (snd x))) values 0
  | ZNull | ZArray => 0
  end.

(** ** Comparison *)

(** [PHP_SCYLLADB_COMPARE] *)
Definition compare_ints (a b : Z) : Z := if a <? b then -1 else if b <? a then 1 else 0.

(** The sign of [strcmp] and of [zend_binary_strcmp]. *)
Fixpoint strcmp (s1 s2 : bytes) : Z :=
  match s1, s2 with
  | [], [] => 0
  | [], _ :: _ => -1
  | _ :: _, [] => 1
  | c1 :: s1', c2 :: s2' => if c1 =? c2 then strcmp s1' s2' else if c1 <? c2 then -1 else 1
  end.

Definition double_compare (d1 d2 : Z) : Z :=
  if double_lt d1 d2 then -1
  else if double_lt d2 d1 then 1
  else compare_ints (double_to_bits d1) (double_to_bits d2).

Definition php_scylladb_float_compare (f1 f2 : Z) : Z :=
  if float_lt f1 f2 then -1
  else if float_lt f2 f1 then 1
  else compare_ints (float_to_bits f1) (float_to_bits f2).

Definition php_scylladb_uuid_compare (u1 u2 : CassUuid) : Z :=
  if negb (time_and_version u1 =? time_and_version u2) then if time_and_version u1 <? time_and_version u2 then -1 else 1
  else if negb (clock_seq_and_node u1 =? clock_seq_and_node u2) then
    if clock_seq_and_node u1 <? clock_seq_and_node u2 then -1 else 1
  else 0.

Definition php_scylladb_duration_compare (l r : CassDuration) : Z :=
  if months l <? months r then -1
  else if months r <? months l then 1
  else if days l <? days r then -1
  else if days r <? days l then 1
  else if nanos l <? nanos r then -1
  else if nanos l =? nanos r then 0 else 1.

Definition php_scylladb_blob_compare (b1 b2 : bytes) : Z :=
  if zlen b1 =? zlen b2 then memcmp b1 b2 else if zlen b1 <? zlen b2 then -1 else 1.

Definition php_scylladb_inet_compare (a1 a2 : CassInet) : Z :=
  if negb (address_length a1 =? address_length a2) then if address_length a1 <? address_length a2 then -1 else 1
  else memcmp (inet_address a1) (inet_address a2).

Definition php_scylladb_decimal_compare (v1 scale1 v2 scale2 : Z) : Z :=
  if scale1 =? scale2 then compare_ints v1 v2 else if scale1 <? scale2 then -1 else 1.

(** The compare handlers of the scalar classes. *)
Definition scalar_compare (o1 o2 : scalar_object) : Z :=
  match o1, o2 with
  | Bigint a, Bigint b | Smallint a, Smallint b | Tinyint a, Tinyint b | Varint a, Varint b
  | Timestamp a, Timestamp b | Date a, Date b | Time a, Time b => compare_ints a b
  | Decimal v1 s1, Decimal v2 s2 => php_scylladb_decimal_compare v1 s1 v2 s2
  | Float a, Float b => php_scylladb_float_compare a b
  | Blob a, Blob b => php_scylladb_blob_compare a b
  | Uuid a, Uuid b | Timeuuid a, Timeuuid b => php_scylladb_uuid_compare a b
  | Duration a, Duration b => php_scylladb_duration_compare a b
  | Inet a, Inet b => php_scylladb_inet_compare a b
  | _, _ => strcmp (scalar_class o1) (scalar_class o2)
  end.

(** Some element has no counterpart. *)
Fixpoint compare_entries {A} (f : A -> Z) (l : list A) : Z :=
  match l with
  | [] => 0
  | e :: l' => then_compare (f e) (compare_entries f l')
  end.

Fixpoint php_scylladb_value_compare (depth : nat) (v1 v2 : zval) : Z :=
  match depth with
  | O => 1
  | S depth' =>
      let compare := php_scylladb_value_compare depth' in
      if negb (z_type v1 =? z_type v2) then if z_type v1 <? z_type v2 then -1 else 1
      else
        match v1, v2 with
        | ZNull, ZNull | ZTrue, ZTrue | ZFalse, ZFalse => 0
        | ZLong a, ZLong b => compare_ints a b
        | ZDouble a, ZDouble b => double_compare a b
        | ZString a, ZString b => strcmp a b
        | ZScalar a, ZScalar b => scalar_compare a b
        | ZSet t1 h1, ZSet t2 h2 =>
            then_compare (php_scylladb_type_compare t1 t2)
              (then_compare (compare_counts (items h1) (items h2))
                 (compare_entries (fun e =>
                    if hash_find php_scylladb_value_hash compare (hkey (fst e)) h2 is Some _ then 0 else 1) (items h1)))
        | ZMap t1 h1, ZMap t2 h2 =>
            then_compare (php_scylladb_type_compare t1 t2)
              (then_compare (compare_counts (items h1) (items h2))
                 (compare_entries (fun e =>
                    match hash_get php_scylladb_value_hash compare (hkey (fst e)) h2 with
                    | Some value => compare (snd e) value
                    | None => 1
                    end) (items h1)))
        | ZCollection t1 l1, ZCollection t2 l2 =>
            then_compare (php_scylladb_type_compare t1 t2)
              (then_compare (compare_counts l1 l2) (compare_lists compare l1 l2))
        | ZTuple t1 l1, ZTuple t2 l2 =>
            then_compare (php_scylladb_type_compare t1 t2)
              (then_compare (compare_counts l1 l2)
                 (compare_lists (fun f1 f2 : Z * zval => compare (snd f1) (snd f2)) l1 l2))
        | ZUserTypeValue t1 l1, ZUserTypeValue t2 l2 =>
            then_compare (php_scylladb_type_compare t1 t2)
              (then_compare (compare_counts l1 l2)
                 (compare_lists (fun f1 f2 : bytes * zval => compare (snd f1) (snd f2)) l1 l2))
        | ZArray, ZArray => 1
        | _, _ => strcmp (class_name v1) (class_name v2)
        end
  end.

(** ** Validation *)

(** Accepted, refused with an exception that names what was expected, or refused without one. *)
Inductive validation := Valid | Expecting (what : bytes) | Mismatch.

Definition expecting (ok : bool) (what : string) : validation := if ok then Valid else Expecting (bs what).

Definition same_type (t1 t2 : php_scylladb_type) : validation :=
  if php_scylladb_type_compare t1 t2 =? 0 then Valid else Mismatch.

Definition is_string (v : zval) : bool := match v with ZString _ => true | _ => false end.
Definition is_double (v : zval) : bool := match v with ZDouble _ => true | _ => false end.
Definition is_long (v : zval) : bool := match v with ZLong _ => true | _ => false end.
Definition is_bool (v : zval) : bool := match v with ZTrue | ZFalse => true | _ => false end.
Definition of_class (f : scalar_object -> bool) (v : zval) : bool := match v with ZScalar o => f o | _ => false end.

Definition php_scylladb_validate_object (object : zval) (type : php_scylladb_type) : validation :=
  match object with
  | ZNull => Valid
  | _ =>
    match type with
    | TScalar c =>
        if (c =? CASS_VALUE_TYPE_VARCHAR) || (c =? CASS_VALUE_TYPE_TEXT) || (c =? CASS_VALUE_TYPE_ASCII)
        then expecting (is_string object) "a string"
        else if c =? CASS_VALUE_TYPE_DOUBLE then expecting (is_double object) "a float"
        else if c =? CASS_VALUE_TYPE_INT then expecting (is_long object) "an int"
        else if c =? CASS_VALUE_TYPE_BOOLEAN then expecting (is_bool object) "a boolean"
        else if c =? CASS_VALUE_TYPE_FLOAT
        then expecting (of_class (fun o => match o with Float _ => true | _ => false end) object) "an instance of Cassandra\Float"
        else if (c =? CASS_VALUE_TYPE_COUNTER) || (c =? CASS_VALUE_TYPE_BIGINT)
        then expecting (of_class (fun o => match o with Bigint _ => true | _ => false end) object) "an instance of Cassandra\Bigint"
        else if c =? CASS_VALUE_TYPE_SMALL_INT
        then expecting (of_class (fun o => match o with Smallint _ => true | _ => false end) object) "an instance of Cassandra\Smallint"
        else if c =? CASS_VALUE_TYPE_TINY_INT
        then expecting (of_class (fun o => match o with Tinyint _ => true | _ => false end) object) "an instance of Cassandra\Tinyint"
        else if c =? CASS_VALUE_TYPE_BLOB
        then expecting (of_class (fun o => match o with Blob _ => true | _ => false end) object) "an instance of Cassandra\Blob"
        else if c =? CASS_VALUE_TYPE_DECIMAL
        then expecting (of_class (fun o => match o with Decimal _ _ => true | _ => false end) object) "an instance of Cassandra\Decimal"
        else if c =? CASS_VALUE_TYPE_DURATION
        then expecting (of_class (fun o => match o with Duration _ => true | _ => false end) object) "an instance of Cassandra\Duration"
        else if c =? CASS_VALUE_TYPE_TIMESTAMP
        then expecting (of_class (fun o => match o with Timestamp _ => true | _ => false end) object) "an instance of Cassandra\Timestamp"
        else if c =? CASS_VALUE_TYPE_DATE
        then expecting (of_class (fun o => match o with Date _ => true | _ => false end) object) "an instance of Cassandra\Date"
        else if c =? CASS_VALUE_TYPE_TIME
        then expecting (of_class (fun o => match o with Time _ => true | _ => false end) object) "an instance of Cassandra\Time"
        else if c =? CASS_VALUE_TYPE_UUID
        then expecting (of_class (fun o => match o with Uuid _ => true | _ => false end) object) "an instance of Cassandra\Uuid"
        else if c =? CASS_VALUE_TYPE_VARINT
        then expecting (of_class (fun o => match o with Varint _ => true | _ => false end) object) "an instance of Cassandra\Varint"
        else if c =? CASS_VALUE_TYPE_TIMEUUID
        then expecting (of_class (fun o => match o with Timeuuid _ => true | _ => false end) object) "an instance of Cassandra\Timeuuid"
        else if c =? CASS_VALUE_TYPE_INET
        then expecting (of_class (fun o => match o with Inet _ => true | _ => false end) object) "an instance of Cassandra\Inet"
        else Expecting (bs "a simple Cassandra value")
    | TMap _ _ => match object with ZMap t _ => same_type t type | _ => Expecting (bs "an instance of Cassandra\Map") end
    | TSet _ => match object with ZSet t _ => same_type t type | _ => Expecting (bs "an instance of Cassandra\Set") end
    | TCollection _ => match object with ZCollection t _ => same_type t type | _ => Expecting (bs "an instance of Cassandra\Collection") end
    | TTuple _ => match object with ZTuple t _ => same_type t type | _ => Expecting (bs "an instance of Cassandra\Tuple") end
    | TUserType _ _ _ =>
        match object with ZUserTypeValue t _ => same_type t type | _ => Expecting (bs "an instance of Cassandra\UserTypeValue") end
    | TCustom _ => Expecting (bs "a simple Cassandra value")
    end
  end.

(** ** Values up to equality *)

(** Values that contain neither a set nor a map, with complete types. *)
Fixpoint hashable (v : zval) : bool :=
  match v with
  | ZNull | ZFalse | ZTrue | ZLong _ | ZString _ => true
  | ZDouble bits => (0 <=? bits) && (bits <? 2 ^ 64)
  | ZScalar (Float bits) => (0 <=? bits) && (bits <? 2 ^ 32)
  | ZScalar (Inet a) => zlen (inet_address a) =? address_length a
  | ZScalar _ => true
  | ZArray | ZSet _ _ | ZMap _ _ => false
  | ZCollection t l => well_named t && forallb hashable l
  | ZTuple t l => well_named t && forallb (fun f => hashable (snd f)) l
  | ZUserTypeValue t l => well_named t && forallb (fun f => hashable (snd f)) l
  end.

Definition list_depth (l : list nat) : nat := fold_right Nat.max 0%nat l.

Fixpoint value_depth (v : zval) : nat :=
  match v with
  | ZSet _ h => S (list_depth (map (fun e => value_depth (hkey (fst e))) (items h)))
  | ZMap _ h => S (list_depth (map (fun e => Nat.max (value_depth (hkey (fst e))) (value_depth (snd e))) (items h)))
  | ZCollection _ l => S (list_depth (map value_depth l))
  | ZTuple _ l => S (list_depth (map (fun f => value_depth (snd f)) l))
  | ZUserTypeValue _ l => S (list_depth (map (fun f => value_depth (snd f)) l))
  | _ => 0%nat
  end.

Definition key_ok (depth : nat) (v : zval) : Prop := hashable v = true /\ (value_depth v < depth)%nat.

(** One bit pattern for every NaN, canonical types, no positions in tuples and no field names: what
    equality looks at. *)
Fixpoint normal (v : zval) : zval :=
  match v with
  | ZDouble bits => ZDouble (double_to_bits bits)
  | ZScalar (Float bits) => ZScalar (Float (float_to_bits bits))
  | ZCollection t l => ZCollection (canonical t) (map normal l)
  | ZTuple t l => ZTuple (canonical t) (map (fun f => (0, normal (snd f))) l)
  | ZUserTypeValue t l => ZUserTypeValue (canonical t) (map (fun f => ([], normal (snd f))) l)
  | v => v
  end.

Lemma compare_ints_0 a b : compare_ints a b = 0 <-> a = b.
Proof. unfold compare_ints. destruct (Z.ltb_spec a b), (Z.ltb_spec b a); lia. Qed.

Lemma strcmp_0 s1 : forall s2, strcmp s1 s2 = 0 <-> s1 = s2.
Proof.
  induction s1 as [|c1 s1 IH]; intros [|c2 s2]; cbn [strcmp]; try done.
  destruct (Z.eqb_spec c1 c2) as [->|]; [rewrite IH|split; [case_match; lia|intros [= ? _]; done]].
  split; [by intros ->|intros E; by simplify_eq].
Qed.

Lemma wrapS_inj w a b : 0 < w -> in_u w a -> in_u w b -> wrapS w a = wrapS w b -> a = b.
Proof.
  intros Hw Ha Hb E. unfold in_u in *. rewrite <- (wrapU_id w a), <- (wrapU_id w b) by done.
  rewrite <- (wrapU_wrapS w a), <- (wrapU_wrapS w b) by lia. by rewrite E.
Qed.

(** Numbers with the same bits are not ordered, so equality is equality of the canonical bits. *)
Lemma double_compare_0 a b :
  in_u 64 a -> in_u 64 b -> double_compare a b = 0 <-> double_to_bits a = double_to_bits b.
Proof.
  intros Ha Hb. unfold double_compare. split.
  - case_match; [lia|]. case_match; [lia|]. apply compare_ints_0.
  - intros E. assert (Hn : double_lt a b = false /\ double_lt b a = false).
    { unfold double_lt, double_to_bits in *. destruct (double_isnan a) eqn:Na, (double_isnan b) eqn:Nb; cbn [negb andb]; try done.
      apply (wrapS_inj 64) in E; [|lia|done..]. subst. rewrite Z.ltb_irrefl. done. }
    destruct Hn as [-> ->]. by apply compare_ints_0.
Qed.

Lemma float_compare_0 a b :
  in_u 32 a -> in_u 32 b -> php_scylladb_float_compare a b = 0 <-> float_to_bits a = float_to_bits b.
Proof.
  intros Ha Hb. unfold php_scylladb_float_compare. split.
  - case_match; [lia|]. case_match; [lia|]. apply compare_ints_0.
  - intros E. assert (Hn : float_lt a b = false /\ float_lt b a = false).
    { unfold float_lt, float_to_bits in *. destruct (float_isnan a) eqn:Na, (float_isnan b) eqn:Nb; cbn [negb andb]; try done.
      apply (wrapS_inj 32) in E; [|lia|done..]. subst. rewrite Z.ltb_irrefl. done. }
    destruct Hn as [-> ->]. by apply compare_ints_0.
Qed.

Lemma uuid_compare_0 u1 u2 : php_scylladb_uuid_compare u1 u2 = 0 <-> u1 = u2.
Proof.
  destruct u1 as [t1 c1], u2 as [t2 c2]. unfold php_scylladb_uuid_compare. cbn.
  destruct (Z.eqb_spec t1 t2), (Z.eqb_spec c1 c2); cbn [negb]; subst; (split; [|intros [=]; lia]); try done; case_match; lia.
Qed.

Lemma duration_compare_0 d1 d2 : php_scylladb_duration_compare d1 d2 = 0 <-> d1 = d2.
Proof.
  destruct d1 as [m1 dd1 n1], d2 as [m2 dd2 n2]. unfold php_scylladb_duration_compare. cbn. split.
  - repeat case_match; try lia. intros _. f_equal; lia.
  - intros [=]. subst. by rewrite !Z.ltb_irrefl, Z.eqb_refl.
Qed.

Lemma blob_compare_0 b1 b2 : php_scylladb_blob_compare b1 b2 = 0 <-> b1 = b2.
Proof.
  unfold php_scylladb_blob_compare. destruct (Z.eqb_spec (zlen b1) (zlen b2)); [by apply memcmp_0|].
  split; [case_match; lia|by intros ->].
Qed.

Lemma decimal_compare_0 v1 s1 v2 s2 : php_scylladb_decimal_compare v1 s1 v2 s2 = 0 <-> v1 = v2 /\ s1 = s2.
Proof.
  unfold php_scylladb_decimal_compare. destruct (Z.eqb_spec s1 s2); [rewrite compare_ints_0; naive_solver|]. case_match; naive_solver.
Qed.

Lemma inet_compare_0 a1 a2 :
  zlen (inet_address a1) = address_length a1 -> zlen (inet_address a2) = address_length a2 ->
  php_scylladb_inet_compare a1 a2 = 0 <-> a1 = a2.
Proof.
  destruct a1 as [b1 l1], a2 as [b2 l2]. unfold php_scylladb_inet_compare. cbn. intros <- <-.
  destruct (Z.eqb_spec (zlen b1) (zlen b2)) as [E|]; cbn [negb].
  - rewrite memcmp_0 by done. split; [by intros ->|intros E'; by simplify_eq].
  - split; [case_match; lia|intros E'; by simplify_eq].
Qed.

Lemma scalar_compare_0 o1 o2 :
  hashable (ZScalar o1) = true -> hashable (ZScalar o2) = true ->
  scalar_compare o1 o2 = 0 <-> normal (ZScalar o1) = normal (ZScalar o2).
Proof.
  intros H1 H2. destruct o1, o2; cbn [scalar_compare normal hashable] in *;
    try lazymatch goal with |- strcmp _ _ = 0 <-> _ => split; [intros Hc; exfalso; revert Hc; by vm_compute|intros E; discriminate E] end.
  all: rewrite ?compare_ints_0, ?decimal_compare_0, ?blob_compare_0, ?uuid_compare_0, ?duration_compare_0, ?inet_compare_0 by lia.
  all: try (split; [intros; destruct_and?; by subst|intros E; by simplify_eq]).
  rewrite float_compare_0 by (unfold in_u; lia). split; [by intros ->|intros E; by simplify_eq].
Qed.

Lemma list_depth_lt l n : (list_depth l < S n)%nat -> Forall (fun d => (d < S n)%nat) l.
Proof. induction l as [|d l IH]; cbn [list_depth fold_right]; intros H; constructor; [lia|]. apply IH. unfold list_depth. lia. Qed.

(** The elements of a hashable value are hashable and less deep. *)
Lemma elements_ok {A} (f : A -> zval) (l : list A) n :
  forallb (fun x => hashable (f x)) l = true -> (S (list_depth (map (fun x => value_depth (f x)) l)) < S n)%nat ->
  Forall (fun x => key_ok n (f x)) l.
Proof.
  intros Hh Hd. apply Nat.succ_lt_mono in Hd. induction l as [|x l IH]; [constructor|].
  cbn [forallb] in Hh. apply andb_prop in Hh as [Hx Hh]. cbn [map list_depth fold_right] in Hd.
  constructor; [split; [done|lia]|]. apply IH; [done|]. unfold list_depth. lia.
Qed.

Definition key_okb (n : nat) (v : zval) : bool := hashable v && (value_depth v <? n)%nat.

Lemma key_okb_spec n v : key_okb n v = true <-> key_ok n v.
Proof. unfold key_okb, key_ok. rewrite andb_true_iff, Nat.ltb_lt. done. Qed.

Lemma forallb_key_ok {A} (f : A -> zval) (l : list A) n :
  Forall (fun x => key_ok n (f x)) l -> forallb (fun x => key_okb n (f x)) l = true.
Proof. induction 1 as [|x l Hx _ IH]; [done|]. cbn. rewrite IH, andb_true_r. by apply key_okb_spec. Qed.

(** Two lists of elements whose comparison is known. *)
Lemma elements_compare {A C} (f : A -> zval) (nf : A -> C) compare n l1 l2 :
  Forall (fun x => key_ok n (f x)) l1 -> Forall (fun x => key_ok n (f x)) l2 ->
  (forall x y, key_ok n (f x) -> key_ok n (f y) -> compare x y = 0 <-> nf x = nf y) ->
  then_compare (compare_counts l1 l2) (compare_lists compare l1 l2) = 0 <-> map nf l1 = map nf l2.
Proof.
  intros H1 H2 Hc. apply (counted_lists_0 compare nf (fun x => key_okb n (f x))).
  - eapply Forall_impl; [|exact H1]. intros x _ y Hx Hy. apply Hc; by apply key_okb_spec.
  - by apply forallb_key_ok.
  - by apply forallb_key_ok.
Qed.

Ltac split_ok H :=
  let Hh := fresh "Hh" in let Hd := fresh "Hd" in
  destruct H as [Hh Hd]; cbn [hashable value_depth] in Hh, Hd.

(** Values of different kinds. *)
Lemma type_differ n a b : z_type a <> z_type b -> php_scylladb_value_compare (S n) a b <> 0.
Proof.
  intros H. cbn [php_scylladb_value_compare]. destruct (Z.eqb_spec (z_type a) (z_type b)); [done|]. cbn [negb]. case_match; lia.
Qed.

Definition element_classes : list bytes :=
  [bs "Cassandra\Collection"; bs "Cassandra\Tuple"; bs "Cassandra\UserTypeValue"].

Lemma scalar_class_differs o c : c ∈ element_classes -> strcmp (scalar_class o) c <> 0 /\ strcmp c (scalar_class o) <> 0.
Proof.
  unfold element_classes. intros Hc. repeat (apply elem_of_cons in Hc as [-> | Hc]); try (by apply elem_of_nil in Hc); destruct o; by vm_compute.
Qed.

Ltac kinds_differ :=
  split; [intros Hc; exfalso; revert Hc|intros E; first [discriminate E|match goal with o : scalar_object |- _ => destruct o; discriminate E end]];
  first [ apply type_differ; cbn [z_type]; lia
        | cbn [php_scylladb_value_compare z_type Z.eqb Pos.eqb negb class_name];
          lazymatch goal with
          | |- strcmp (scalar_class _) _ = 0 -> False => apply scalar_class_differs; unfold element_classes; set_solver
          | |- strcmp _ (scalar_class _) = 0 -> False => apply scalar_class_differs; unfold element_classes; set_solver
          | |- strcmp _ _ = 0 -> False => by vm_compute
          end ].

Lemma value_compare_normal n : forall a b,
  key_ok n a -> key_ok n b -> php_scylladb_value_compare n a b = 0 <-> normal a = normal b.
Proof.
  induction n as [|n IH]; intros a b Ha Hb; [split_ok Ha; lia|].
  assert (Hlist : forall t1 l1 t2 l2, well_named t1 && forallb hashable l1 = true -> well_named t2 && forallb hashable l2 = true ->
    (S (list_depth (map value_depth l1)) < S n)%nat -> (S (list_depth (map value_depth l2)) < S n)%nat ->
    then_compare (php_scylladb_type_compare t1 t2)
      (then_compare (compare_counts l1 l2) (compare_lists (php_scylladb_value_compare n) l1 l2)) = 0 <->
    canonical t1 = canonical t2 /\ map normal l1 = map normal l2).
  { intros t1 l1 t2 l2 H1 H2 D1 D2. apply andb_prop in H1 as [W1 H1]. apply andb_prop in H2 as [W2 H2].
    rewrite then_compare_0, type_compare_canonical by done.
    rewrite (elements_compare id normal _ n); [done| | |exact IH]; by apply (elements_ok id). }
  assert (Hfields : forall K (k : K) (l1 l2 : list (K * zval)), forallb (fun f => hashable (snd f)) l1 = true -> forallb (fun f => hashable (snd f)) l2 = true ->
    (S (list_depth (map (fun f => value_depth (snd f)) l1)) < S n)%nat -> (S (list_depth (map (fun f => value_depth (snd f)) l2)) < S n)%nat ->
    then_compare (compare_counts l1 l2) (compare_lists (fun f1 f2 : K * zval => php_scylladb_value_compare n (snd f1) (snd f2)) l1 l2) = 0 <->
    map (fun f => (k, normal (snd f))) l1 = map (fun f => (k, normal (snd f))) l2).
  { intros K k l1 l2 H1 H2 D1 D2. apply (elements_compare snd _ _ n); [by apply elements_ok|by apply elements_ok|].
    intros [x1 x2] [y1 y2] Hx Hy. cbn in *. rewrite IH by done. split; [by intros ->|intros E; by simplify_eq]. }
  split_ok Ha. split_ok Hb.
  destruct a, b; try discriminate Hh; try discriminate Hh0; try kinds_differ; cbn [php_scylladb_value_compare z_type Z.eqb Pos.eqb negb normal];
    cbn [hashable value_depth] in Hh, Hh0, Hd, Hd0.
  - done.
  - done.
  - done.
  - rewrite compare_ints_0. split; [by intros ->|intros E; by simplify_eq].
  - rewrite double_compare_0 by (unfold in_u; lia). split; [by intros ->|intros E; by simplify_eq].
  - rewrite strcmp_0. split; [by intros ->|intros E; by simplify_eq].
  - by apply scalar_compare_0.
  - rewrite Hlist by done. split; [intros [-> ->]; done|intros E; by simplify_eq].
  - apply andb_prop in Hh as [W1 Hh]. apply andb_prop in Hh0 as [W2 Hh0].
    rewrite then_compare_0, type_compare_canonical, (Hfields _ 0) by done. split; [intros [-> ->]; done|intros E; by simplify_eq].
  - apply andb_prop in Hh as [W1 Hh]. apply andb_prop in Hh0 as [W2 Hh0].
    rewrite then_compare_0, type_compare_canonical, (Hfields _ (@nil Z)) by done. split; [intros [-> ->]; done|intros E; by simplify_eq].
Qed.

Lemma fold_hash {A B} (f : A -> zval) (nf : A -> B) n l1 :
  (forall x y, key_ok n (f x) -> key_ok n (f y) -> nf x = nf y -> php_scylladb_value_hash (f x) = php_scylladb_value_hash (f y)) ->
  forall l2 seed, Forall (fun x => key_ok n (f x)) l1 -> Forall (fun x => key_ok n (f x)) l2 -> map nf l1 = map nf l2 ->
  fold_left (fun hv x => php_scylladb_combine_hash hv (php_scylladb_value_hash (f x))) l1 seed =
  fold_left (fun hv x => php_scylladb_combine_hash hv (php_scylladb_value_hash (f x))) l2 seed.
Proof.
  intros Hf. induction l1 as [|x l1 IH]; intros [|y l2] seed H1 H2 E; try discriminate E; [done|].
  cbn [map] in E. injection E as Ex El. apply Forall_cons_1 in H1 as [Hx H1]. apply Forall_cons_1 in H2 as [Hy H2].
  cbn [fold_left]. rewrite (Hf x y) by done. by apply IH.
Qed.

Lemma value_hash_normal n : forall a b,
  key_ok n a -> key_ok n b -> normal a = normal b -> php_scylladb_value_hash a = php_scylladb_value_hash b.
Proof.
  induction n as [|n IH]; intros a b Ha Hb E; [split_ok Ha; lia|]. split_ok Ha. split_ok Hb.
  destruct a, b; try discriminate Hh; try discriminate Hh0; cbn [hashable value_depth] in Hh, Hh0, Hd, Hd0;
    try discriminate E; try (destruct o; discriminate E); cbn [normal] in E.
  all: try (by simplify_eq).
  - injection E as E. cbn [php_scylladb_value_hash]. by rewrite E.
  - destruct o, o0; try discriminate E; try (by simplify_eq). injection E as E. cbn. by rewrite E.
  - injection E as _ E. apply andb_prop in Hh as [_ Hh]. apply andb_prop in Hh0 as [_ Hh0].
    apply (fold_hash id normal n); [exact IH|by apply (elements_ok id)|by apply (elements_ok id)|exact E].
  - injection E as _ E. apply andb_prop in Hh as [_ Hh]. apply andb_prop in Hh0 as [_ Hh0].
    apply (fold_hash snd (fun f => (0, normal (snd f))) n); [|by apply elements_ok|by apply elements_ok|exact E].
    intros x y Hx Hy Exy. injection Exy as Exy. by apply IH.
  - injection E as _ E. apply andb_prop in Hh as [_ Hh]. apply andb_prop in Hh0 as [_ Hh0].
    apply (fold_hash snd (fun f => (@nil Z, normal (snd f))) n); [|by apply elements_ok|by apply elements_ok|exact E].
    intros x y Hx Hy Exy. injection Exy as Exy. by apply IH.
Qed.

#[export] Instance value_hashed_key n : HashedKey php_scylladb_value_hash (php_scylladb_value_compare n) (key_ok n).
Proof.
  split.
  - intros a Ha. by apply value_compare_normal.
  - intros a b Ha Hb. rewrite !value_compare_normal by done. done.
  - intros a b c Ha Hb Hc. rewrite !value_compare_normal by done. congruence.
  - intros a b Ha Hb. rewrite value_compare_normal by done. by apply (value_hash_normal n).
Qed.

(** Sets of integers, from their elements in the order they are added. *)
Definition int_set (l : list Z) : zval :=
  ZSet (TSet (TScalar CASS_VALUE_TYPE_INT))
    (fold_left (fun h x => hash_put php_scylladb_value_hash (php_scylladb_value_compare 1) (ZLong x) tt h) l empty_hash).

(** C26: equality and hash of values agree, except for sets and maps.  Values without sets and maps
    compare as equal exactly when they are the same up to the alias of varchar and text and the bit
    pattern of NaN - positive and negative zero differ - and equal values have equal hashes.  Tuples
    and user type values compare by their values in the order they were set: where a value was set does
    not matter, so that tuples (1, null) and (null, 1) are equal.  Sets compare as equal whatever order their elements were added in, but their hash depends on it: the
    sets of 1 and 2 and of 2 and 1 are equal and hash differently. *)
Theorem equal_values_hash n a b :
  key_ok n a -> key_ok n b ->
  (php_scylladb_value_compare n a b = 0 <-> normal a = normal b) /\
  (php_scylladb_value_compare n a b = 0 -> php_scylladb_value_hash a = php_scylladb_value_hash b) /\
  (forall t, well_named t = true ->
    php_scylladb_value_compare 2 (ZTuple (TTuple [t; t]) [(0, ZLong 1)]) (ZTuple (TTuple [t; t]) [(1, ZLong 1)]) = 0) /\
  php_scylladb_value_compare 2 (int_set [1; 2]) (int_set [2; 1]) = 0 /\
  php_scylladb_value_hash (int_set [1; 2]) <> php_scylladb_value_hash (int_set [2; 1]).
Proof.
  intros Ha Hb. split; [by apply value_compare_normal|]. split; [|split; [|split; [by vm_compute|by vm_compute]]].
  - intros E. by apply (hash_respects (key_ok := key_ok n)).
  - intros t Ht. apply value_compare_normal; [..|done]; (split; [cbn [hashable well_named forallb snd]; by rewrite Ht|cbn; lia]).
Qed.
End values.

Lemma equal_values_hash_witness :
  let a := ZTuple (TTuple [TScalar CASS_VALUE_TYPE_TEXT]) [(0, ZString (bs "x")); (1, ZDouble 0x7ff8000000000001)] in
  let b := ZTuple (TTuple [TScalar CASS_VALUE_TYPE_VARCHAR]) [(0, ZString (bs "x")); (1, ZDouble 0xfff8000000000000)] in
  php_scylladb_value_hash (fun _ => 0) a = php_scylladb_value_hash (fun _ => 0) b.
Proof.
  intros a b. refine (proj1 (proj2 (equal_values_hash (fun _ => 0) 2 a b _ _)) _).
  - split; [vm_compute; reflexivity|vm_compute; lia].
  - split; [vm_compute; reflexivity|vm_compute; lia].
  - vm_compute. reflexivity.
Defined.
