(* ===== verification/Collections.v ===== *)
(** Sets, maps and collections (src/Set.c, src/Map.c, src/Collection.c).

    Sets and maps keep their elements in the hash table of [UtHash] and iterate with two pointers
    to elements: the current one, and the one after it, kept so that the current element can be
    removed.  A pointer to an element that is not in the table any more is dangling; reading
    through it is [None] in [current_value] and [next].  Values are immutable: an object that is
    stored and changed later through another reference is outside of this model.  [depth] bounds
    the nesting of the values. *)
From S2P Require Import Prelude UtHash Types Values.

(** ** Iteration *)

Section iteration.
Context {V : Type}.

Record iterator := { iter_curr : option nat; iter_temp : option nat }.

(** [hh.next] of the element at an address; [None] when there is no such element. *)
Fixpoint hh_next (a : nat) (l : list (handle zval * V)) : option (option nat) :=
  match l with
  | [] => None
  | x :: l' =>
      if (addr (fst x) =? a)%nat then Some (match l' with [] => None | y :: _ => Some (addr (fst y)) end)
      else hh_next a l'
  end.

Definition head_addr (l : list (handle zval * V)) : option nat :=
  match l with [] => None | x :: _ => Some (addr (fst x)) end.

Definition rewind (h : hash zval V) : iterator := {|
  iter_curr := head_addr (items h);
  iter_temp := head_addr (tail (items h))
|}.

Definition next (h : hash zval V) (it : iterator) : option iterator :=
  match iter_temp it with
  | None => Some {| iter_curr := None; iter_temp := None |}
  | Some a =>
      match hh_next a (items h) with
      | Some a' => Some {| iter_curr := Some a; iter_temp := a' |}
      | None => None
      end
  end.

Definition valid (it : iterator) : bool := if iter_curr it is Some _ then true else false.

(** The element under the iterator: absent when the iterator is past the end; [None] when the
    pointer is dangling. *)
Definition current_value (h : hash zval V) (it : iterator) : option (option (zval * V)) :=
  match iter_curr it with
  | None => Some None
  | Some a =>
      match List.find (fun x => (addr (fst x) =? a)%nat) (items h) with
      | Some (e, v) => Some (Some (hkey e, v))
      | None => None
      end
  end.

(** What removing an element does to the iterator; [hh.next] of that element is read before. *)
Definition iter_remove (e : handle zval) (h : hash zval V) (it : iterator) : iterator :=
  if bool_decide (iter_temp it = Some (addr e)) then
    {| iter_curr := iter_curr it; iter_temp := match hh_next (addr e) (items h) with Some a => a | None => None end |}
  else it.
End iteration.

Arguments iterator : clear implicits.

(** ** Sets *)

Inductive exception :=
| NullNotSupported (what : bytes)
| InvalidArgument (expected : bytes).

(** What a method returns, or the exception it throws with the value it returns. *)
Record reply (A : Type) := { returned : A; thrown : option exception }.
Arguments returned {A}. Arguments thrown {A}. Arguments Build_reply {A}.

Definition quiet {A} (a : A) : reply A := {| returned := a; thrown := None |}.
Definition throwing {A} (a : A) (e : exception) : reply A := {| returned := a; thrown := Some e |}.

Record php_scylladb_set := {
  set_value_type : php_scylladb_type;
  set_entries : hash zval unit;
  set_iter : iterator;
  iter_index : Z;
  set_dirty : bool;
  set_hashv : Z
}.

(** ** Maps *)

Record php_scylladb_map := {
  map_key_type : php_scylladb_type;
  map_value_type : php_scylladb_type;
  map_entries : hash zval zval;
  map_iter : iterator;
  map_dirty : bool;
  map_hashv : Z
}.

(** ** Collections: a PHP array of values under increasing indexes *)

Record php_scylladb_collection := {
  collection_value_type : php_scylladb_type;
  collection_values : list (Z * zval);
  next_free_element : Z;
  collection_dirty : bool;
  collection_hashv : Z
}.

Section collections.
Context (zend_hash : bytes -> Z) (depth : nat).

Abbreviation vhash := (php_scylladb_value_hash zend_hash).
Abbreviation vcompare := (php_scylladb_value_compare zend_hash depth).

(** [php_scylladb_validate_object] refused the value. *)
Definition refused {A} (a : A) (v : validation) : reply A :=
  match v with Expecting what => throwing a (InvalidArgument what) | _ => quiet a end.

Definition is_null (v : zval) : bool := match v with ZNull => true | _ => false end.
Definition accepted (v : validation) : bool := match v with Valid => true | _ => false end.

Definition new_set (value_type : php_scylladb_type) : php_scylladb_set := {|
  set_value_type := value_type;
  set_entries := empty_hash;
  set_iter := {| iter_curr := None; iter_temp := None |};
  iter_index := 0;
  set_dirty := true;
  set_hashv := 0
|}.

Definition php_scylladb_set_add (set : php_scylladb_set) (object : zval) : reply bool * php_scylladb_set :=
  if is_null object then (throwing false (NullNotSupported (bs "sets")), set)
  else
    let v := php_scylladb_validate_object object (set_value_type set) in
    if negb (accepted v) then (refused false v, set)
    else match hash_find vhash vcompare object (set_entries set) with
         | None => (quiet true, {| set_value_type := set_value_type set;
                                   set_entries := hash_add vhash object tt (set_entries set);
                                   set_iter := set_iter set; iter_index := iter_index set;
                                   set_dirty := true; set_hashv := set_hashv set |})
         | Some _ => (quiet true, set)
         end.

Definition php_scylladb_set_del (set : php_scylladb_set) (object : zval) : reply bool * php_scylladb_set :=
  let v := php_scylladb_validate_object object (set_value_type set) in
  if negb (accepted v) then (refused false v, set)
  else match hash_find vhash vcompare object (set_entries set) with
       | Some e => (quiet true, {| set_value_type := set_value_type set;
                                   set_entries := hash_delete e (set_entries set);
                                   set_iter := iter_remove e (set_entries set) (set_iter set);
                                   iter_index := iter_index set;
                                   set_dirty := true; set_hashv := set_hashv set |})
       | None => (quiet false, set)
       end.

Definition php_scylladb_set_has (set : php_scylladb_set) (object : zval) : reply bool :=
  let v := php_scylladb_validate_object object (set_value_type set) in
  if negb (accepted v) then refused false v
  else quiet (if hash_find vhash vcompare object (set_entries set) is Some _ then true else false).

Definition set_values (set : php_scylladb_set) : list zval := map (fun x => hkey (fst x)) (items (set_entries set)).
Definition set_count (set : php_scylladb_set) : Z := num_items (set_entries set).

Definition set_rewind (set : php_scylladb_set) : php_scylladb_set := {|
  set_value_type := set_value_type set; set_entries := set_entries set;
  set_iter := rewind (set_entries set); iter_index := 0;
  set_dirty := set_dirty set; set_hashv := set_hashv set
|}.

(** [None]: the next pointer is dangling. *)
Definition set_next (set : php_scylladb_set) : option php_scylladb_set :=
  match next (set_entries set) (set_iter set) with
  | Some it => Some {| set_value_type := set_value_type set; set_entries := set_entries set;
                       set_iter := it; iter_index := iter_index set + 1;
                       set_dirty := set_dirty set; set_hashv := set_hashv set |}
  | None => None
  end.

Definition set_current (set : php_scylladb_set) : option (option zval) :=
  option_map (option_map fst) (current_value (set_entries set) (set_iter set)).

Definition php_scylladb_set_hash_value (set : php_scylladb_set) : Z * php_scylladb_set :=
  if negb (set_dirty set) then (set_hashv set, set)
  else
    let hv := fold_left (fun hv e => php_scylladb_combine_hash hv (vhash (hkey (fst e)))) (items (set_entries set)) 0 in
    (hv, {| set_value_type := set_value_type set; set_entries := set_entries set; set_iter := set_iter set;
            iter_index := iter_index set; set_dirty := false; set_hashv := hv |}).

Definition new_map (key_type value_type : php_scylladb_type) : php_scylladb_map := {|
  map_key_type := key_type; map_value_type := value_type; map_entries := empty_hash;
  map_iter := {| iter_curr := None; iter_temp := None |}; map_dirty := true; map_hashv := 0
|}.

Definition php_scylladb_map_set (m : php_scylladb_map) (zkey zvalue : zval) : reply bool * php_scylladb_map :=
  if is_null zkey then (throwing false (NullNotSupported (bs "maps")), m)
  else if is_null zvalue then (throwing false (NullNotSupported (bs "maps")), m)
  else
    let vk := php_scylladb_validate_object zkey (map_key_type m) in
    if negb (accepted vk) then (refused false vk, m)
    else
      let vv := php_scylladb_validate_object zvalue (map_value_type m) in
      if negb (accepted vv) then (refused false vv, m)
      else
        (quiet true,
         {| map_key_type := map_key_type m; map_value_type := map_value_type m;
            map_entries := match hash_find vhash vcompare zkey (map_entries m) with
                           | None => hash_add vhash zkey zvalue (map_entries m)
                           | Some e => hash_update e zvalue (map_entries m)
                           end;
            map_iter := map_iter m; map_dirty := true; map_hashv := map_hashv m |}).

Definition php_scylladb_map_get (m : php_scylladb_map) (zkey : zval) : reply (option zval) :=
  let v := php_scylladb_validate_object zkey (map_key_type m) in
  if negb (accepted v) then refused None v
  else quiet (hash_get vhash vcompare zkey (map_entries m)).

Definition php_scylladb_map_del (m : php_scylladb_map) (zkey : zval) : reply bool * php_scylladb_map :=
  let v := php_scylladb_validate_object zkey (map_key_type m) in
  if negb (accepted v) then (refused false v, m)
  else match hash_find vhash vcompare zkey (map_entries m) with
       | Some e => (quiet true, {| map_key_type := map_key_type m; map_value_type := map_value_type m;
                                   map_entries := hash_delete e (map_entries m);
                                   map_iter := iter_remove e (map_entries m) (map_iter m);
                                   map_dirty := true; map_hashv := map_hashv m |})
       | None => (quiet false, m)
       end.

Definition php_scylladb_map_has (m : php_scylladb_map) (zkey : zval) : reply bool :=
  let v := php_scylladb_validate_object zkey (map_key_type m) in
  if negb (accepted v) then refused false v
  else quiet (if hash_find vhash vcompare zkey (map_entries m) is Some _ then true else false).

Definition map_keys (m : php_scylladb_map) : list zval := map (fun x => hkey (fst x)) (items (map_entries m)).
Definition map_values (m : php_scylladb_map) : list zval := map snd (items (map_entries m)).
Definition map_count (m : php_scylladb_map) : Z := num_items (map_entries m).

Definition map_rewind (m : php_scylladb_map) : php_scylladb_map := {|
  map_key_type := map_key_type m; map_value_type := map_value_type m; map_entries := map_entries m;
  map_iter := rewind (map_entries m); map_dirty := map_dirty m; map_hashv := map_hashv m
|}.

Definition map_next (m : php_scylladb_map) : option php_scylladb_map :=
  match next (map_entries m) (map_iter m) with
  | Some it => Some {| map_key_type := map_key_type m; map_value_type := map_value_type m; map_entries := map_entries m;
                       map_iter := it; map_dirty := map_dirty m; map_hashv := map_hashv m |}
  | None => None
  end.

Definition map_current (m : php_scylladb_map) : option (option (zval * zval)) := current_value (map_entries m) (map_iter m).

Definition php_scylladb_map_hash_value (m : php_scylladb_map) : Z * php_scylladb_map :=
  if negb (map_dirty m) then (map_hashv m, m)
  else
    let hv := fold_left (fun hv e => php_scylladb_combine_hash (php_scylladb_combine_hash hv (vhash (hkey (fst e)))) (vhash (snd e)))
                (items (map_entries m)) 0 in
    (hv, {| map_key_type := map_key_type m; map_value_type := map_value_type m; map_entries := map_entries m;
            map_iter := map_iter m; map_dirty := false; map_hashv := hv |}).

(** ** Operations of collections *)

Definition new_collection (value_type : php_scylladb_type) : php_scylladb_collection := {|
  collection_value_type := value_type; collection_values := []; next_free_element := 0;
  collection_dirty := true; collection_hashv := 0
|}.

(** [zend_hash_next_index_insert] *)
Definition php_scylladb_collection_add (object : zval) (c : php_scylladb_collection) : php_scylladb_collection := {|
  collection_value_type := collection_value_type c;
  collection_values := collection_values c ++ [(next_free_element c, object)];
  next_free_element := next_free_element c + 1;
  collection_dirty := true; collection_hashv := collection_hashv c
|}.

(** The first argument that is null or not of the type stops the call before anything is added. *)
Fixpoint collection_check (args : list zval) (t : php_scylladb_type) : option (reply (option Z)) :=
  match args with
  | [] => None
  | a :: args' =>
      if is_null a then Some (throwing None (NullNotSupported (bs "collections")))
      else
        let v := php_scylladb_validate_object a t in
        if negb (accepted v) then Some (refused None v) else collection_check args' t
  end.

(** [Collection::add]: the number of elements, or false ([None]). *)
Definition collection_add (args : list zval) (c : php_scylladb_collection) : reply (option Z) * php_scylladb_collection :=
  match collection_check args (collection_value_type c) with
  | Some r => (r, c)
  | None =>
      let c' := fold_left (fun c a => php_scylladb_collection_add a c) args c in
      (quiet (Some (zlen (collection_values c'))), c')
  end.

Definition php_scylladb_collection_get (index : Z) (c : php_scylladb_collection) : option zval :=
  option_map snd (List.find (fun x => fst x =? wrapU 64 index) (collection_values c)).

Definition php_scylladb_collection_del (index : Z) (c : php_scylladb_collection) : bool * php_scylladb_collection :=
  if List.find (fun x => fst x =? wrapU 64 index) (collection_values c) is Some _ then
    (true, {| collection_value_type := collection_value_type c;
              collection_values := List.filter (fun x => negb (fst x =? wrapU 64 index)) (collection_values c);
              next_free_element := next_free_element c;
              collection_dirty := true; collection_hashv := collection_hashv c |})
  else (false, c).

(** [is_equal_function] is PHP's own comparison. *)
Definition php_scylladb_collection_find (is_equal : zval -> zval -> bool) (object : zval) (c : php_scylladb_collection) : option Z :=
  option_map fst (List.find (fun x => is_equal object (snd x)) (collection_values c)).

Definition collection_count (c : php_scylladb_collection) : Z := zlen (collection_values c).

Definition php_scylladb_collection_hash_value (c : php_scylladb_collection) : Z * php_scylladb_collection :=
  if negb (collection_dirty c) then (collection_hashv c, c)
  else
    let hv := fold_left (fun hv x => php_scylladb_combine_hash hv (vhash (snd x))) (collection_values c) 0 in
    (hv, {| collection_value_type := collection_value_type c; collection_values := collection_values c;
            next_free_element := next_free_element c; collection_dirty := false; collection_hashv := hv |}).
End collections.

(** ** Iteration is safe *)

Section iteration_facts.
Context {V : Type}.

Definition addrs (h : hash zval V) : list nat := map (fun x => addr (fst x)) (items h).

(** The iterator at the [k]-th element. *)
Definition iter_at (h : hash zval V) (k : nat) : iterator := {|
  iter_curr := option_map (fun x => addr (fst x)) (items h !! k);
  iter_temp := option_map (fun x => addr (fst x)) (items h !! S k)
|}.

Lemma hh_next_lookup (l : list (handle zval * V)) k x :
  NoDup (map (fun x => addr (fst x)) l) -> l !! k = Some x ->
  hh_next (addr (fst x)) l = Some (option_map (fun x => addr (fst x)) (l !! S k)).
Proof.
  revert k. induction l as [|y l IH]; intros k Hnd Hk; [done|]. cbn [map] in Hnd. cbn [hh_next]. destruct k as [|k].
  - injection Hk as ->. rewrite Nat.eqb_refl. by destruct l.
  - change ((y :: l) !! S k) with (l !! k) in Hk. change ((y :: l) !! S (S k)) with (l !! S k).
    pose proof (NoDup_cons_1_1 _ _ Hnd) as Hy. destruct (Nat.eqb_spec (addr (fst y)) (addr (fst x))) as [E|].
    + destruct Hy. rewrite E. apply list_elem_of_fmap. exists x. split; [done|]. by eapply list_elem_of_lookup_2.
    + apply IH; [by apply NoDup_cons_1_2 in Hnd|done].
Qed.

Lemma rewind_at (h : hash zval V) : rewind h = iter_at h 0.
Proof. unfold rewind, iter_at. by destruct (items h) as [|x [|y l]]. Qed.

Lemma next_at (h : hash zval V) k : NoDup (addrs h) -> (k < length (items h))%nat -> next h (iter_at h k) = Some (iter_at h (S k)).
Proof.
  intros Hnd Hk. unfold next, iter_at. cbn [iter_temp]. destruct (items h !! S k) as [x|] eqn:E; cbn [option_map].
  - rewrite (hh_next_lookup _ (S k) x) by done. done.
  - rewrite (lookup_ge_None_2 (items h) (S (S k))) by (apply lookup_ge_None_1 in E; lia). done.
Qed.

Lemma find_addr (h : hash zval V) k x :
  NoDup (addrs h) -> items h !! k = Some x -> List.find (fun y => (addr (fst y) =? addr (fst x))%nat) (items h) = Some x.
Proof.
  unfold addrs. generalize (items h) as l. intros l. revert k. induction l as [|y l IH]; intros k Hnd Hk; [done|].
  cbn [map] in Hnd. cbn [List.find]. destruct k as [|k]; [injection Hk as ->; by rewrite Nat.eqb_refl|].
  destruct (Nat.eqb_spec (addr (fst y)) (addr (fst x))) as [E|].
  - destruct (NoDup_cons_1_1 _ _ Hnd). rewrite E. apply list_elem_of_fmap. exists x. split; [done|]. by apply (list_elem_of_lookup_2 _ k).
  - apply (IH k); [by apply NoDup_cons_1_2 in Hnd|done].
Qed.

Lemma current_at (h : hash zval V) k :
  NoDup (addrs h) -> current_value h (iter_at h k) = Some (contents h !! k).
Proof.
  intros Hnd. unfold current_value, iter_at. cbn [iter_curr]. unfold contents. rewrite list_lookup_fmap.
  destruct (items h !! k) as [[e v]|] eqn:E; cbn [option_map]; [|done].
  by rewrite (find_addr h k (e, v) Hnd E).
Qed.

(** The pointer to the next element is null or points to an element. *)
Definition iter_ok (h : hash zval V) (it : iterator) : Prop :=
  match iter_temp it with None => True | Some a => a ∈ addrs h end.

Lemma hh_next_ok (l : list (handle zval * V)) a :
  NoDup (map (fun x => addr (fst x)) l) -> a ∈ map (fun x => addr (fst x)) l ->
  exists r, hh_next a l = Some r /\ forall b, r = Some b -> b ∈ map (fun x => addr (fst x)) l /\ b <> a.
Proof.
  intros Hnd Ha. apply list_elem_of_lookup_1 in Ha as [k Hk]. rewrite list_lookup_fmap in Hk.
  destruct (l !! k) as [x|] eqn:E; [|done]. injection Hk as <-. rewrite (hh_next_lookup l k x) by done. eexists. split; [done|].
  intros b Hb. destruct (l !! S k) as [y|] eqn:Ey; [|done]. injection Hb as <-. split.
  - apply list_elem_of_fmap. exists y. split; [done|]. by eapply list_elem_of_lookup_2.
  - intros Eq. assert (S k = k); [|lia].
    apply (NoDup_lookup _ (S k) k (addr (fst y)) Hnd); rewrite list_lookup_fmap; [by rewrite Ey|rewrite E; cbn; by rewrite Eq].
Qed.

Lemma iter_ok_rewind (h : hash zval V) : iter_ok h (rewind h).
Proof.
  rewrite rewind_at. unfold iter_ok, iter_at. cbn [iter_temp]. destruct (items h !! 1%nat) as [x|] eqn:E; [|done]. cbn.
  apply list_elem_of_fmap. exists x. split; [done|]. by eapply list_elem_of_lookup_2.
Qed.

Lemma iter_ok_next (h : hash zval V) it : NoDup (addrs h) -> iter_ok h it -> exists it', next h it = Some it' /\ iter_ok h it'.
Proof.
  intros Hnd Hit. unfold iter_ok, next in *. destruct (iter_temp it) as [a|]; [|by eexists].
  destruct (hh_next_ok _ a Hnd Hit) as (r & -> & Hr). eexists. split; [done|]. cbn. destruct r as [b|]; [|done]. by apply (Hr b).
Qed.
End iteration_facts.

(** ** Sets and maps implement finite sets and maps *)

Section correctness.
Context (zend_hash : bytes -> Z) (depth : nat).

Abbreviation vhash := (php_scylladb_value_hash zend_hash).
Abbreviation vcompare := (php_scylladb_value_compare zend_hash depth).
Abbreviation hash_ok := (hash_ok vhash vcompare (key_ok depth)).

Lemma hash_ok_addrs {V} (h : hash zval V) : hash_ok h -> NoDup (addrs h).
Proof. intros H. pose proof (addrs_ok _ _ _ h H) as Hnd. by rewrite <- list_fmap_compose in Hnd. Qed.

Lemma iter_ok_add {V} (h : hash zval V) it key value : iter_ok h it -> iter_ok (hash_add vhash key value h) it.
Proof.
  unfold iter_ok, addrs, hash_add. cbn [items]. destruct (iter_temp it); [|done]. rewrite map_app, elem_of_app. by left.
Qed.

Lemma delete_addrs {V} (h : hash zval V) e a :
  hash_ok h -> e ∈ (items h).*1 -> a ∈ addrs (hash_delete e h) <-> a ∈ addrs h /\ a <> addr e.
Proof.
  intros Hh He. destruct (delete_items_ok _ _ _ e h Hh He) as [_ Ei]. unfold addrs. rewrite Ei.
  rewrite !list_elem_of_In, !in_map_iff. setoid_rewrite filter_In. split.
  - intros ([x v] & <- & Hin & Hk). cbn [fst] in *. split; [by exists (x, v)|]. by destruct (Nat.eqb_spec (addr x) (addr e)).
  - intros [([x v] & <- & Hin) Hne]. exists (x, v). split_and!; try done. cbn [fst] in *. by destruct (Nat.eqb_spec (addr x) (addr e)).
Qed.

Lemma iter_ok_remove {V} (h : hash zval V) it e :
  hash_ok h -> e ∈ (items h).*1 -> iter_ok h it -> iter_ok (hash_delete e h) (iter_remove e h it).
Proof.
  intros Hh He Hit. pose proof (hash_ok_addrs h Hh) as Hnd. unfold iter_ok, iter_remove in *.
  destruct (bool_decide_reflect (iter_temp it = Some (addr e))) as [Et|Et]; cbn [iter_temp].
  - rewrite Et in Hit. destruct (hh_next_ok (items h) (addr e) Hnd Hit) as (r & -> & Hr). destruct r as [b|]; [|done].
    destruct (Hr b eq_refl). by apply delete_addrs.
  - destruct (iter_temp it) as [a|]; [|done]. apply delete_addrs; [done..|]. split; [done|]. congruence.
Qed.

(** The current element survives the removal of another one and dangles when it is removed. *)
Lemma current_after_remove {V} (h : hash zval V) it key e x :
  hash_ok h -> key_ok depth key -> hash_find vhash vcompare key h = Some e -> current_value h it = Some (Some x) ->
  current_value (hash_delete e h) (iter_remove e h it) = if vcompare (fst x) key =? 0 then None else Some (Some x).
Proof.
  intros Hh Hkey Ef Hc. pose proof (hash_find_elem vhash vcompare (key_ok depth) key h Hh Hkey) as He. rewrite Ef in He. destruct He as [He _].
  destruct (delete_items_ok _ _ _ e h Hh He) as [Hok Ei]. pose proof (hash_ok_addrs h Hh) as Hnd. pose proof (hash_ok_addrs _ Hok) as Hnd'.
  assert (Ecurr : iter_curr (iter_remove e h it) = iter_curr it) by (unfold iter_remove; by case_bool_decide). unfold current_value in *. rewrite Ecurr.
  destruct (iter_curr it) as [a|]; [|done]. destruct (List.find _ (items h)) as [[c v]|] eqn:Ec; [|done]. injection Hc as <-.
  apply find_In in Ec as [Hin Ha]. cbn [fst] in *. apply Nat.eqb_eq in Ha as <-.
  rewrite <- (found_iff vhash vcompare (key_ok depth) key h e c Hh Hkey Ef) by (apply elem_of_items_fst; by exists v).
  destruct (Nat.eqb_spec (addr c) (addr e)) as [Ea|Ea].
  - destruct (List.find _ _) as [[c' v']|] eqn:Ef'; [exfalso|done]. apply find_In in Ef' as [Hin' Ha']. cbn [fst] in Ha'.
    apply Nat.eqb_eq in Ha'. assert (Hdel : addr c' ∈ addrs (hash_delete e h)) by (apply list_elem_of_fmap; by exists (c', v')).
    apply delete_addrs in Hdel as [_ ?]; [congruence|done..].
  - assert (Hin' : (c, v) ∈ items (hash_delete e h)).
    { rewrite Ei. apply elem_of_lfilter. split; [done|]. cbn [fst]. by destruct (Nat.eqb_spec (addr c) (addr e)). }
    apply list_elem_of_lookup_1 in Hin' as [k Hk]. pose proof (find_addr _ k (c, v) Hnd' Hk) as Hfa. cbn [fst] in Hfa. by rewrite Hfa.
Qed.

Record set_ok (s : php_scylladb_set) : Prop := {
  set_table_ok : hash_ok (set_entries s);
  set_iter_ok : iter_ok (set_entries s) (set_iter s);
  set_cache_ok : set_dirty s = false -> set_hashv s = vhash (ZSet (TSet (set_value_type s)) (set_entries s))
}.

Record map_ok (m : php_scylladb_map) : Prop := {
  map_table_ok : hash_ok (map_entries m);
  map_iter_ok : iter_ok (map_entries m) (map_iter m);
  map_cache_ok : map_dirty m = false -> map_hashv m = vhash (ZMap (TMap (map_key_type m) (map_value_type m)) (map_entries m))
}.

(** An abstract set: its elements in order, without equal ones. *)
Definition add_value (v : zval) (l : list zval) : list zval :=
  if existsb (fun x => vcompare x v =? 0) l then l else l ++ [v].
Definition remove_value (v : zval) (l : list zval) : list zval := List.filter (fun x => negb (vcompare x v =? 0)) l.
Definition has_value (v : zval) (l : list zval) : bool := existsb (fun x => vcompare x v =? 0) l.

Lemma set_values_contents s : set_values s = map fst (contents (set_entries s)).
Proof. unfold set_values, contents. rewrite map_map. done. Qed.

Lemma assoc_find_exists {V} (l : list (zval * V)) key :
  (if assoc_find vcompare key l is Some _ then true else false) = existsb (fun x => vcompare x key =? 0) (map fst l).
Proof. unfold assoc_find. induction l as [|[k v] l IH]; [done|]. cbn. by destruct (vcompare k key =? 0). Qed.

Lemma find_has {V} (h : hash zval V) key :
  hash_ok h -> key_ok depth key ->
  (if hash_find vhash vcompare key h is Some _ then true else false) = has_value key (map fst (contents h)).
Proof.
  intros Hh Hk. unfold has_value. rewrite <- assoc_find_exists. pose proof (find_spec vhash vcompare (key_ok depth) key h Hh Hk) as Hf.
  destruct (hash_find _ _ key h) as [e|]; [destruct Hf as (v & _ & ->); done|by rewrite Hf].
Qed.

Lemma filter_fst_map {V} (f : zval -> bool) (l : list (zval * V)) : map fst (List.filter (fun kv => f (fst kv)) l) = List.filter f (map fst l).
Proof. induction l as [|[k v] l IH]; [done|]. cbn. case_match; cbn; by rewrite IH. Qed.

Lemma set_add_ok s v :
  set_ok s -> key_ok depth v ->
  let '(r, s') := php_scylladb_set_add zend_hash depth s v in
  set_ok s' /\
  (if returned r then v <> ZNull /\ php_scylladb_validate_object v (set_value_type s) = Valid /\ thrown r = None /\
                      set_values s' = add_value v (set_values s)
   else s' = s /\ (v = ZNull \/ php_scylladb_validate_object v (set_value_type s) <> Valid)).
Proof.
  intros Hs Hk. pose proof Hs as [Ht Hi Hc]. unfold php_scylladb_set_add. destruct (is_null v) eqn:En.
  { split; [done|]. cbn. split; [done|]. left. by destruct v. }
  destruct (php_scylladb_validate_object v (set_value_type s)) eqn:Ev; cbn [accepted negb]; [|by split; [done|]; cbn; split; [done|right]..].
  pose proof (find_has (set_entries s) v Ht Hk) as Hhas. destruct (hash_find vhash vcompare v (set_entries s)) as [e|] eqn:Ef.
  - split; [done|]. cbn [returned quiet thrown]. split_and!; try done; [by intros ->|]. unfold add_value. rewrite set_values_contents.
    unfold has_value in Hhas. by rewrite <- Hhas.
  - destruct (add_ok vhash vcompare (key_ok depth) v tt (set_entries s) Ht Hk Ef) as [Hok Ec]. split.
    + split; cbn [set_entries set_iter set_dirty]; [done|by apply iter_ok_add|done].
    + cbn [returned quiet thrown]. split_and!; try done; [by intros ->|]. rewrite !set_values_contents. cbn [set_entries]. rewrite Ec, map_app.
      unfold add_value. unfold has_value in Hhas. by rewrite <- Hhas.
Qed.

Lemma set_del_ok s v :
  set_ok s -> key_ok depth v ->
  let '(r, s') := php_scylladb_set_del zend_hash depth s v in
  set_ok s' /\
  (php_scylladb_validate_object v (set_value_type s) = Valid ->
   returned r = has_value v (set_values s) /\ set_values s' = remove_value v (set_values s)) /\
  (php_scylladb_validate_object v (set_value_type s) <> Valid -> returned r = false /\ s' = s).
Proof.
  intros Hs Hk. pose proof Hs as [Ht Hi Hc]. unfold php_scylladb_set_del.
  destruct (php_scylladb_validate_object v (set_value_type s)) eqn:Ev; cbn [accepted negb]; [|by split_and!..].
  pose proof (find_has (set_entries s) v Ht Hk) as Hhas. rewrite <- set_values_contents in Hhas.
  destruct (hash_find vhash vcompare v (set_entries s)) as [e|] eqn:Ef.
  - destruct (delete_ok vhash vcompare (key_ok depth) v (set_entries s) e Ht Hk Ef) as [Hok Ec].
    pose proof (hash_find_elem vhash vcompare (key_ok depth) v (set_entries s) Ht Hk) as He. rewrite Ef in He. split; [|split; [|done]].
    + split; cbn [set_entries set_iter set_dirty]; [done|apply iter_ok_remove; [done|apply He|done]|done].
    + intros _. cbn [returned quiet]. split; [done|]. rewrite !set_values_contents. cbn [set_entries]. rewrite Ec.
      unfold assoc_del, remove_value. apply (filter_fst_map (fun k => negb (vcompare k v =? 0))).
  - split; [done|]. split; [|done]. intros _. split; [done|]. unfold remove_value. symmetry. apply filter_true.
    intros x Hx. destruct (vcompare x v =? 0) eqn:Ex; [exfalso|done]. symmetry in Hhas. unfold has_value in Hhas.
    assert (existsb (fun x => vcompare x v =? 0) (set_values s) = true); [|congruence]. apply existsb_exists. exists x. split; [by apply list_elem_of_In|done].
Qed.

Inductive set_op :=
| SetAdd (v : zval)
| SetRemove (v : zval)
| SetRewind
| SetNext
| SetHash.

(** [None]: a dangling pointer is read. *)
Definition set_run (o : set_op) (s : php_scylladb_set) : option php_scylladb_set :=
  match o with
  | SetAdd v => Some (snd (php_scylladb_set_add zend_hash depth s v))
  | SetRemove v => Some (snd (php_scylladb_set_del zend_hash depth s v))
  | SetRewind => Some (set_rewind s)
  | SetNext => set_next s
  | SetHash => Some (snd (php_scylladb_set_hash_value zend_hash s))
  end.

Definition op_value_ok (o : set_op) : Prop :=
  match o with SetAdd v | SetRemove v => key_ok depth v | _ => True end.

Inductive set_reachable : php_scylladb_set -> Prop :=
| set_reachable_new t : set_reachable (new_set t)
| set_reachable_run o s s' : set_reachable s -> op_value_ok o -> set_run o s = Some s' -> set_reachable s'.

Lemma set_hash_ok s : set_ok s ->
  set_ok (snd (php_scylladb_set_hash_value zend_hash s)) /\
  fst (php_scylladb_set_hash_value zend_hash s) = vhash (ZSet (TSet (set_value_type s)) (set_entries s)).
Proof.
  intros Hs. pose proof Hs as [Ht Hi Hc]. unfold php_scylladb_set_hash_value. destruct (set_dirty s) eqn:Ed; cbn [negb].
  - split; [|done]. by split.
  - split; [done|]. by apply Hc.
Qed.

Lemma set_next_ok s : set_ok s -> exists s', set_next s = Some s' /\ set_ok s'.
Proof.
  intros [Ht Hi Hc]. unfold set_next. destruct (iter_ok_next _ _ (hash_ok_addrs _ Ht) Hi) as (it & -> & Hit).
  eexists. split; [done|]. by split.
Qed.

Lemma set_run_ok o s : set_ok s -> op_value_ok o -> exists s', set_run o s = Some s' /\ set_ok s'.
Proof.
  intros Hs Ho. destruct o as [v|v| | |]; cbn [set_run].
  - pose proof (set_add_ok s v Hs Ho) as H. destruct (php_scylladb_set_add _ _ s v).
    eexists. split; [done|]. apply H.
  - pose proof (set_del_ok s v Hs Ho) as H. destruct (php_scylladb_set_del _ _ s v).
    eexists. split; [done|]. apply H.
  - eexists. split; [done|]. destruct Hs as [Ht Hi Hc]. split; cbn; [done|apply iter_ok_rewind|done].
  - by apply set_next_ok.
  - eexists. split; [done|]. by apply set_hash_ok.
Qed.

Lemma reachable_set_ok s : set_reachable s -> set_ok s.
Proof.
  induction 1 as [t|o s s' _ IH Ho E].
  - split; [apply empty_hash_ok|done|done].
  - destruct (set_run_ok o s IH Ho) as (s2 & E2 & Hok). by simplify_eq.
Qed.

(** C27: a set is a set.  In every state that adding, removing, iterating and hashing lead to,
    [add] refuses null and values of another type and otherwise appends the value unless an equal
    one is there, [remove] takes the equal one out and says whether there was one, [has] says
    whether there is one, the count is the number of elements, and the cached hash is the hash of
    the elements.  The elements contain no set or map. *)
Theorem set_implements s v :
  set_reachable s -> key_ok depth v ->
  (let '(r, s') := php_scylladb_set_add zend_hash depth s v in
   if returned r then v <> ZNull /\ php_scylladb_validate_object v (set_value_type s) = Valid /\ thrown r = None /\
                      set_values s' = add_value v (set_values s)
   else s' = s /\ (v = ZNull \/ php_scylladb_validate_object v (set_value_type s) <> Valid)) /\
  (php_scylladb_validate_object v (set_value_type s) = Valid ->
   let '(r, s') := php_scylladb_set_del zend_hash depth s v in
   returned r = has_value v (set_values s) /\ set_values s' = remove_value v (set_values s) /\
   returned (php_scylladb_set_has zend_hash depth s v) = has_value v (set_values s)) /\
  set_count s = zlen (set_values s) /\
  fst (php_scylladb_set_hash_value zend_hash s) = vhash (ZSet (TSet (set_value_type s)) (set_entries s)).
Proof.
  intros Hs Hk. apply reachable_set_ok in Hs. split_and!.
  - pose proof (set_add_ok s v Hs Hk) as H. destruct (php_scylladb_set_add _ _ s v). apply H.
  - intros Hv. pose proof (set_del_ok s v Hs Hk) as H. destruct (php_scylladb_set_del _ _ s v) as [r s']. destruct H as (_ & H & _).
    destruct (H Hv) as [H1 H2]. split_and!; try done. unfold php_scylladb_set_has. rewrite Hv. cbn [accepted negb returned quiet].
    rewrite set_values_contents. apply find_has; [apply Hs|done].
  - unfold set_count, num_items, set_values. by rewrite map_zlen.
  - by apply set_hash_ok.
Qed.

Fixpoint next_times (k : nat) (s : php_scylladb_set) : option php_scylladb_set :=
  match k with
  | O => Some s
  | S k' => match next_times k' s with Some s' => set_next s' | None => None end
  end.

Lemma next_times_at k s : set_ok s -> (k <= length (set_values s))%nat ->
  exists s', next_times k (set_rewind s) = Some s' /\ set_entries s' = set_entries s /\ set_iter s' = iter_at (set_entries s) k.
Proof.
  intros Hs. unfold set_values. rewrite length_map. induction k as [|k IH]; intros Hk; cbn [next_times].
  - eexists. split; [done|]. split; [done|]. apply rewind_at.
  - destruct IH as (s' & -> & He & Hi); [lia|]. unfold set_next. rewrite He, Hi, next_at; [|apply hash_ok_addrs, Hs|lia].
    eexists. split; [done|]. done.
Qed.

(** Iterating over a set.  From [rewind], [next] reaches the elements one by one in the order
    they were added and then the end.  While elements are added and removed, [next] never reads a
    dangling pointer, and the current element can be read until it is removed itself; after that,
    reading it reads freed memory. *)
Theorem set_iteration s :
  set_reachable s ->
  (forall k, (k <= length (set_values s))%nat ->
     exists s', next_times k (set_rewind s) = Some s' /\ set_current s' = Some (set_values s !! k)) /\
  (exists s', set_next s = Some s') /\
  (forall x v, key_ok depth v -> php_scylladb_validate_object v (set_value_type s) = Valid ->
     set_current s = Some (Some x) -> has_value v (set_values s) = true ->
     set_current (snd (php_scylladb_set_del zend_hash depth s v)) = if vcompare x v =? 0 then None else Some (Some x)).
Proof.
  intros Hs. apply reachable_set_ok in Hs. split_and!.
  - intros k Hk. destruct (next_times_at k s Hs Hk) as (s' & E & He & Hi). exists s'. split; [done|]. unfold set_current.
    rewrite He, Hi, current_at by (apply hash_ok_addrs, Hs). cbn [option_map]. rewrite set_values_contents, list_lookup_fmap. done.
  - destruct (set_next_ok s Hs) as (s' & E & _). by exists s'.
  - intros x v Hk Hv Hc Hh. unfold php_scylladb_set_del. rewrite Hv. cbn [accepted negb].
    rewrite set_values_contents, <- find_has in Hh by (apply Hs || done).
    destruct (hash_find vhash vcompare v (set_entries s)) as [e|] eqn:Ef; [|done]. unfold set_current in *. cbn [snd set_entries set_iter].
    destruct (current_value (set_entries s) (set_iter s)) as [[[k u]|]|] eqn:Ec; try done. injection Hc as <-.
    rewrite (current_after_remove (set_entries s) (set_iter s) v e (k, u)) by (apply Hs || done). cbn [fst]. by destruct (vcompare k v =? 0).
Qed.
End correctness.

(** Three strings, and a loop that removes the element it is at. *)
Definition example_set : php_scylladb_set :=
  fold_left (fun s x => snd (php_scylladb_set_add (fun _ => 0) 1 s (ZString (bs x)))) ["a"%string; "b"%string; "a"%string; "c"%string]
    (new_set (TScalar CASS_VALUE_TYPE_TEXT)).

Lemma example_set_reachable : set_reachable (fun _ => 0) 1 example_set.
Proof.
  unfold example_set. cbn [fold_left].
  do 4 (eapply (set_reachable_run _ _ (SetAdd _)); [| |reflexivity]; [|split; [reflexivity|cbn; lia]]). constructor.
Qed.

Lemma set_implements_witness :
  set_values (snd (php_scylladb_set_del (fun _ => 0) 1 example_set (ZString (bs "b")))) = [ZString (bs "a"); ZString (bs "c")].
Proof.
  pose proof (proj1 (proj2 (set_implements (fun _ => 0) 1 example_set (ZString (bs "b")) example_set_reachable
    (conj eq_refl (le_n 1)))) eq_refl) as H.
  destruct (php_scylladb_set_del (fun _ => 0) 1 example_set (ZString (bs "b"))) as [r s'].
  destruct H as (_ & H & _). cbn [snd]. rewrite H. vm_compute. reflexivity.
Defined.

Lemma set_iteration_witness :
  set_current (snd (php_scylladb_set_del (fun _ => 0) 1 (set_rewind example_set) (ZString (bs "a")))) = None.
Proof.
  assert (Hr : set_reachable (fun _ => 0) 1 (set_rewind example_set)).
  { eapply (set_reachable_run _ _ SetRewind); [exact example_set_reachable|exact I|reflexivity]. }
  refine (proj2 (proj2 (set_iteration (fun _ => 0) 1 (set_rewind example_set) Hr)) (ZString (bs "a")) (ZString (bs "a")) _ _ _ _).
  - split; [reflexivity|cbn; lia].
  - vm_compute. reflexivity.
  - vm_compute. reflexivity.
  - vm_compute. reflexivity.
Defined.

(** ** Maps *)

Section maps.
Context (zend_hash : bytes -> Z) (depth : nat).

Abbreviation vhash := (php_scylladb_value_hash zend_hash).
Abbreviation vcompare := (php_scylladb_value_compare zend_hash depth).
Abbreviation map_ok := (map_ok zend_hash depth).

Definition map_pairs (m : php_scylladb_map) : list (zval * zval) := contents (map_entries m).

Lemma map_set_ok m k v :
  map_ok m -> key_ok depth k ->
  let '(r, m') := php_scylladb_map_set zend_hash depth m k v in
  map_ok m' /\
  (if returned r then map_pairs m' = assoc_put vcompare k v (map_pairs m) /\ k <> ZNull /\ v <> ZNull /\
                      php_scylladb_validate_object k (map_key_type m) = Valid /\ php_scylladb_validate_object v (map_value_type m) = Valid
   else m' = m).
Proof.
  intros Hm Hk. pose proof Hm as [Ht Hi Hc]. unfold php_scylladb_map_set.
  destruct (is_null k) eqn:Enk; [done|]. destruct (is_null v) eqn:Env; [done|].
  destruct (php_scylladb_validate_object k (map_key_type m)) eqn:Ek; cbn [accepted negb]; [|done..].
  destruct (php_scylladb_validate_object v (map_value_type m)) eqn:Ev; cbn [accepted negb]; [|done..].
  destruct (put_ok vhash vcompare (key_ok depth) k v (map_entries m) Ht Hk) as [Hok Ec]. cbn [returned quiet]. split.
  - split; cbn [map_entries map_iter map_dirty].
    + exact Hok.
    + destruct (hash_find vhash vcompare k (map_entries m)) as [e|]; [|by apply iter_ok_add]. unfold iter_ok, addrs in *.
      destruct (iter_temp (map_iter m)); [|done]. unfold hash_update. cbn [items]. rewrite map_map.
      erewrite map_ext; [exact Hi|]. intros x. cbn. by case_match.
    + done.
  - split_and!; try done; [by intros ->|by intros ->].
Qed.

Lemma map_del_ok m k :
  map_ok m -> key_ok depth k -> php_scylladb_validate_object k (map_key_type m) = Valid ->
  let '(r, m') := php_scylladb_map_del zend_hash depth m k in
  map_ok m' /\ returned r = has_value zend_hash depth k (map_keys m) /\ map_pairs m' = assoc_del vcompare k (map_pairs m).
Proof.
  intros Hm Hk Hv. pose proof Hm as [Ht Hi Hc]. unfold php_scylladb_map_del. rewrite Hv. cbn [accepted negb].
  assert (Ekeys : map_keys m = map fst (contents (map_entries m))) by (unfold map_keys, contents; by rewrite map_map).
  pose proof (find_has zend_hash depth (map_entries m) k Ht Hk) as Hhas. rewrite <- Ekeys in Hhas.
  destruct (remove_ok vhash vcompare (key_ok depth) k (map_entries m) Ht Hk) as [Hok Ec]. unfold hash_remove in Hok, Ec.
  pose proof (hash_find_elem vhash vcompare (key_ok depth) k (map_entries m) Ht Hk) as He.
  destruct (hash_find vhash vcompare k (map_entries m)) as [e|] eqn:Ef.
  - split; [|by split]. split; cbn; [done|apply (iter_ok_remove zend_hash depth); [done|apply He|done]|done].
  - by split_and!.
Qed.

Inductive map_op :=
| MapSet (k v : zval)
| MapRemove (k : zval)
| MapRewind
| MapNext
| MapHash.

Definition map_run (o : map_op) (m : php_scylladb_map) : option php_scylladb_map :=
  match o with
  | MapSet k v => Some (snd (php_scylladb_map_set zend_hash depth m k v))
  | MapRemove k => Some (snd (php_scylladb_map_del zend_hash depth m k))
  | MapRewind => Some (map_rewind m)
  | MapNext => map_next m
  | MapHash => Some (snd (php_scylladb_map_hash_value zend_hash m))
  end.

Definition map_op_ok (o : map_op) : Prop :=
  match o with MapSet k _ | MapRemove k => key_ok depth k | _ => True end.

Inductive map_reachable : php_scylladb_map -> Prop :=
| map_reachable_new kt vt : map_reachable (new_map kt vt)
| map_reachable_run o m m' : map_reachable m -> map_op_ok o -> map_run o m = Some m' -> map_reachable m'.

Lemma map_run_ok o m : map_ok m -> map_op_ok o -> exists m', map_run o m = Some m' /\ map_ok m'.
Proof.
  intros Hm Ho. pose proof Hm as [Ht Hi Hc]. destruct o as [k v|k| | |]; cbn [map_run].
  - pose proof (map_set_ok m k v Hm Ho) as H. destruct (php_scylladb_map_set _ _ m k v). eexists. split; [done|]. apply H.
  - destruct (php_scylladb_validate_object k (map_key_type m)) eqn:Ev.
    + pose proof (map_del_ok m k Hm Ho Ev) as H. destruct (php_scylladb_map_del _ _ m k). eexists. split; [done|]. apply H.
    + unfold php_scylladb_map_del. rewrite Ev. by eexists.
    + unfold php_scylladb_map_del. rewrite Ev. by eexists.
  - eexists. split; [done|]. split; cbn; [done|apply iter_ok_rewind|done].
  - unfold map_next. destruct (iter_ok_next _ _ (hash_ok_addrs zend_hash depth _ Ht) Hi) as (it & -> & Hit). eexists. split; [done|]. by split.
  - eexists. split; [done|]. unfold php_scylladb_map_hash_value. destruct (map_dirty m); [|done]. cbn [negb snd]. by split.
Qed.

Lemma reachable_map_ok m : map_reachable m -> map_ok m.
Proof.
  induction 1 as [kt vt|o m m' _ IH Ho E].
  - split; [apply empty_hash_ok|done|done].
  - destruct (map_run_ok o m IH Ho) as (m2 & E2 & Hok). by simplify_eq.
Qed.

(** A map is a map.  In every state that setting, removing, iterating and hashing lead to,
    [set] refuses nulls and values of other types and leaves the map unchanged then, and otherwise
    replaces the value under an equal key in its place or appends the pair; [get] reads the value
    under an equal key; [remove] takes that pair out and says whether there was one; [next] never
    reads a dangling pointer; and the cached hash is the hash of the pairs.  The keys contain no
    set or map. *)
Theorem map_implements m k v :
  map_reachable m -> key_ok depth k ->
  (let '(r, m') := php_scylladb_map_set zend_hash depth m k v in
   if returned r then map_pairs m' = assoc_put vcompare k v (map_pairs m) /\ k <> ZNull /\ v <> ZNull /\
                      php_scylladb_validate_object k (map_key_type m) = Valid /\ php_scylladb_validate_object v (map_value_type m) = Valid
   else m' = m) /\
  (php_scylladb_validate_object k (map_key_type m) = Valid ->
   let '(r, m') := php_scylladb_map_del zend_hash depth m k in
   returned r = has_value zend_hash depth k (map_keys m) /\ map_pairs m' = assoc_del vcompare k (map_pairs m) /\
   returned (php_scylladb_map_get zend_hash depth m k) = option_map snd (assoc_find vcompare k (map_pairs m))) /\
  (exists m', map_next m = Some m') /\
  fst (php_scylladb_map_hash_value zend_hash m) = vhash (ZMap (TMap (map_key_type m) (map_value_type m)) (map_entries m)).
Proof.
  intros Hr Hk. pose proof (reachable_map_ok m Hr) as Hm. pose proof Hm as [Ht Hi Hc]. split_and!.
  - pose proof (map_set_ok m k v Hm Hk) as H. destruct (php_scylladb_map_set _ _ m k v). apply H.
  - intros Hv. pose proof (map_del_ok m k Hm Hk Hv) as H. destruct (php_scylladb_map_del _ _ m k) as [r m']. destruct H as (_ & ? & ?).
    split_and!; try done. unfold php_scylladb_map_get. rewrite Hv. cbn. by apply (get_ok vhash vcompare (key_ok depth)).
  - destruct (map_run_ok MapNext m Hm I) as (m' & E & _). by exists m'.
  - unfold php_scylladb_map_hash_value. destruct (map_dirty m) eqn:Ed; [done|]. by apply Hc.
Qed.
End maps.

Definition example_map : php_scylladb_map :=
  snd (php_scylladb_map_set (fun _ => 0) 1 (new_map (TScalar CASS_VALUE_TYPE_INT) (TScalar CASS_VALUE_TYPE_TEXT))
         (ZLong 7) (ZString (bs "x"))).

Lemma map_implements_witness :
  map_pairs (snd (php_scylladb_map_set (fun _ => 0) 1 example_map (ZLong 7) (ZString (bs "y")))) = [(ZLong 7, ZString (bs "y"))].
Proof.
  assert (Hr : map_reachable (fun _ => 0) 1 example_map).
  { eapply (map_reachable_run _ _ (MapSet _ _)); [| |reflexivity]; [constructor|split; [reflexivity|cbn; lia]]. }
  destruct (map_implements (fun _ => 0) 1 example_map (ZLong 7) (ZString (bs "y")) Hr (conj eq_refl (le_n 1))) as [H _].
  destruct (php_scylladb_map_set (fun _ => 0) 1 example_map (ZLong 7) (ZString (bs "y"))) as [r m'] eqn:E.
  assert (Er : returned r = true) by (vm_compute in E; injection E as <- _; reflexivity).
  cbv beta iota in H. rewrite Er in H. destruct H as (H & _). cbn [snd]. rewrite H. vm_compute. reflexivity.
Defined.

(** ** Collections *)

Section collection_facts.
Context (zend_hash : bytes -> Z).

(** The indexes are distinct and below the next one. *)
Definition collection_ok (c : php_scylladb_collection) : Prop :=
  NoDup (map fst (collection_values c)) /\ Forall (fun x => 0 <= fst x < next_free_element c) (collection_values c).

Lemma collection_add_ok a c : collection_ok c -> 0 <= next_free_element c -> collection_ok (php_scylladb_collection_add a c).
Proof.
  intros [Hnd Hf] Hn. unfold collection_ok, php_scylladb_collection_add. cbn [collection_values next_free_element]. split.
  - rewrite map_app. apply list.NoDup_app. split; [done|]. split; [|apply NoDup_singleton].
    intros i Hi ->%list_elem_of_singleton. apply list_elem_of_fmap in Hi as (x & Ex & Hx).
    eapply Forall_forall in Hf; [|by apply list_elem_of_In]. cbn in *. lia.
  - apply Forall_app. split; [|repeat constructor; cbn; lia]. eapply Forall_impl; [|exact Hf]. cbn. lia.
Qed.

Lemma collection_fold_add args c :
  collection_values (fold_left (fun c a => php_scylladb_collection_add a c) args c) =
    collection_values c ++ imap (fun i a => (next_free_element c + Z.of_nat i, a)) args /\
  next_free_element (fold_left (fun c a => php_scylladb_collection_add a c) args c) = next_free_element c + zlen args.
Proof.
  revert c. induction args as [|a args IH]; intros c; cbn [fold_left].
  - rewrite app_nil_r. cbn. unfold zlen. cbn. split; [done|lia].
  - destruct (IH (php_scylladb_collection_add a c)) as [-> ->]. cbn [collection_values next_free_element php_scylladb_collection_add]. split.
    + rewrite <- app_assoc. f_equal. cbn [imap app]. f_equal; [f_equal; lia|]. apply imap_ext. intros i x _. cbn. f_equal. lia.
    + rewrite zlen_cons. lia.
Qed.

Lemma collection_check_none args t :
  collection_check args t = None <-> Forall (fun a => a <> ZNull /\ php_scylladb_validate_object a t = Valid) args.
Proof.
  induction args as [|a args IH]; cbn [collection_check]; [by split|].
  destruct (is_null a) eqn:En; [split; [done|intros [[Ha _] _]%Forall_cons_1; by destruct a]|].
  destruct (php_scylladb_validate_object a t) eqn:Ev; cbn [accepted negb].
  - rewrite IH. split; [intros H; constructor; [split; [by intros ->|done]|done]|by intros [_ H]%Forall_cons_1].
  - split; [done|intros [[_ Ha] _]%Forall_cons_1; congruence].
  - split; [done|intros [[_ Ha] _]%Forall_cons_1; congruence].
Qed.

Lemma collection_find_lookup c i a :
  collection_ok c -> (i, a) ∈ collection_values c -> List.find (fun x => fst x =? i) (collection_values c) = Some (i, a).
Proof.
  intros [Hnd _] Hin. induction (collection_values c) as [|[j b] l IH]; [by apply elem_of_nil in Hin|].
  cbn [map] in Hnd. cbn [List.find fst]. apply elem_of_cons in Hin as [[= <- <-] | Hin]; [by rewrite Z.eqb_refl|].
  destruct (Z.eqb_spec j i) as [->|]; [|apply IH; [by apply NoDup_cons_1_2 in Hnd|done]].
  destruct (NoDup_cons_1_1 _ _ Hnd). apply list_elem_of_fmap. by exists (i, a).
Qed.

(** A collection keeps its elements under stable indexes.  [add] checks all its arguments
    first and adds all or none of them, in order, under the next indexes; [get] reads the element
    under an index; [remove] takes it out, says whether it was there, and leaves every other
    element under its index - indexes are not reused. *)
Theorem collection_implements c args i :
  collection_ok c -> 0 <= next_free_element c -> in_u 63 i ->
  (let '(r, c') := collection_add args c in
   if returned r is Some n then
     Forall (fun a => a <> ZNull /\ php_scylladb_validate_object a (collection_value_type c) = Valid) args /\ n = zlen (collection_values c') /\
     collection_values c' = collection_values c ++ imap (fun j a => (next_free_element c + Z.of_nat j, a)) args
   else c' = c) /\
  (forall a, (i, a) ∈ collection_values c -> php_scylladb_collection_get i c = Some a) /\
  (let '(removed, c') := php_scylladb_collection_del i c in
   collection_ok c' /\ next_free_element c' = next_free_element c /\
   removed = (if php_scylladb_collection_get i c is Some _ then true else false) /\ php_scylladb_collection_get i c' = None /\
   forall j, in_u 63 j -> j <> i -> php_scylladb_collection_get j c' = php_scylladb_collection_get j c).
Proof using.
  intros Hc Hn Hi. assert (Ew : forall j, in_u 63 j -> wrapU 64 j = j) by (intros j Hj; apply wrapU_id; unfold in_u in *; lia). split_and!.
  - unfold collection_add. destruct (collection_check args (collection_value_type c)) as [r|] eqn:Ec.
    + destruct (returned r) eqn:Er; [exfalso|done]. clear -Ec Er. revert Ec. induction args as [|a args IH]; [done|]. cbn [collection_check].
      destruct (is_null a); [intros [= <-]; done|]. destruct (php_scylladb_validate_object a (collection_value_type c)); cbn [accepted negb]; [done|intros [= <-]; done..].
    + cbn [returned quiet]. apply collection_check_none in Ec. split_and!; try done. by destruct (collection_fold_add args c) as [-> _].
  - intros a Ha. unfold php_scylladb_collection_get. rewrite Ew by done. by rewrite (collection_find_lookup c i a).
  - unfold php_scylladb_collection_del, php_scylladb_collection_get. rewrite Ew by done.
    destruct (List.find (fun x => fst x =? i) (collection_values c)) as [[i' a]|] eqn:Ef.
    + cbn [collection_values next_free_element option_map]. split_and!; try done.
      * destruct Hc as [Hnd Hf]. split; cbn [collection_values next_free_element]; [|by apply lfilter_Forall].
        eapply sublist_NoDup; [exact Hnd|]. apply fmap_sublist, lfilter_sublist.
      * destruct (List.find _ (List.filter _ _)) as [x|] eqn:Ex; [exfalso|done]. apply find_In in Ex as [Hx Ei]. apply elem_of_lfilter in Hx as [_ Hx]. by rewrite Ei in Hx.
      * intros j Hj Hne. rewrite Ew by done. f_equal. clear -Hne. induction (collection_values c) as [|[k b] l IH]; [done|]. cbn [List.filter List.find fst].
        destruct (Z.eqb_spec k i) as [->|]; cbn [negb]; [replace (i =? j) with false by lia; done|]. cbn [List.find fst]. by destruct (k =? j).
    + rewrite Ef. by split_and!.
Qed.
End collection_facts.

Lemma collection_implements_witness :
  php_scylladb_collection_get 1
    (snd (php_scylladb_collection_del 0 (snd (collection_add [ZLong 10; ZLong 20] (new_collection (TScalar CASS_VALUE_TYPE_INT)))))) = Some (ZLong 20).
Proof.
  set (c := snd (collection_add [ZLong 10; ZLong 20] (new_collection (TScalar CASS_VALUE_TYPE_INT)))).
  assert (Hc : collection_ok c).
  { split; [vm_compute; apply NoDup_ListNoDup; repeat constructor; cbn; lia|repeat constructor; vm_compute; congruence]. }
  destruct (collection_implements c [] 0 Hc ltac:(vm_compute; congruence) ltac:(split; vm_compute; congruence)) as (_ & _ & H).
  destruct (php_scylladb_collection_del 0 c) as [b c']. destruct H as (_ & _ & _ & _ & H). cbn [snd].
  rewrite (H 1 ltac:(split; vm_compute; congruence) ltac:(lia)). vm_compute. reflexivity.
Defined.
