(* ===== verification/Uuids.v ===== *)
(** UUIDs (third-party/cpp-driver/src/uuids.cpp, src/Uuid.c, src/DateTime/Timeuuid.c, src/UuidGen.c)
    and monotonic timestamps (timestamp_generator.cpp).

    The generators advance one atomic counter with compare-and-exchange loops that any number of
    threads run at once; an event is one atomic action of one thread, and clocks may return
    anything.  Text is parsed and printed byte by byte. *)
From Stdlib Require Import Sorting.Sorted.
From S2P Require Import Prelude Serialization.

Definition TIME_OFFSET_BETWEEN_UTC_AND_EPOCH : Z := 0x01B21DD213814000.
Definition MIN_CLOCK_SEQ_AND_NODE : Z := 0x8080808080808080.
Definition MAX_CLOCK_SEQ_AND_NODE : Z := 0x7f7f7f7f7f7f7f7f.

Definition to_milliseconds (timestamp : Z) : Z := timestamp / 10000.
Definition from_unix_timestamp (timestamp : Z) : Z := wrapU 64 (wrapU 64 (timestamp * 10000) + TIME_OFFSET_BETWEEN_UTC_AND_EPOCH).
Definition set_version (timestamp version : Z) : Z :=
  Z.lor (Z.land timestamp 0x0FFFFFFFFFFFFFFF) (wrapU 64 (Z.shiftl version 60)).

Definition cass_uuid_min_from_time (timestamp : Z) : CassUuid :=
  {| time_and_version := set_version (from_unix_timestamp timestamp) 1; clock_seq_and_node := MIN_CLOCK_SEQ_AND_NODE |}.
Definition cass_uuid_max_from_time (timestamp : Z) : CassUuid :=
  {| time_and_version := set_version (from_unix_timestamp timestamp) 1; clock_seq_and_node := MAX_CLOCK_SEQ_AND_NODE |}.

Definition cass_uuid_timestamp (uuid : CassUuid) : Z :=
  to_milliseconds (wrapU 64 (Z.land (time_and_version uuid) 0x0FFFFFFFFFFFFFFF - TIME_OFFSET_BETWEEN_UTC_AND_EPOCH)).
Definition cass_uuid_version (uuid : CassUuid) : Z := Z.land (Z.shiftr (time_and_version uuid) 60) 0x0F.

(** ** Text *)

Definition half_byte_to_hex (n : Z) : Z := if n <? 10 then 48 + n else 97 + (n - 10).

(** [None] is the entry -1 of the table. *)
Definition hex_to_half_byte (c : Z) : option Z :=
  if (48 <=? c) && (c <=? 57) then Some (c - 48)
  else if (65 <=? c) && (c <=? 70) then Some (c - 55)
  else if (97 <=? c) && (c <=? 102) then Some (c - 87)
  else None.

(** The loop from byte [i] on. *)
Fixpoint uuid_string_loop (i : Z) (encoded : bytes) : bytes :=
  match encoded with
  | [] => []
  | byte :: rest =>
      (if (i =? 4) || (i =? 6) || (i =? 8) || (i =? 10) then [45] else []) ++
      [half_byte_to_hex (Z.land (Z.shiftr byte 4) 0x0F); half_byte_to_hex (Z.land byte 0x0F)] ++ uuid_string_loop (i + 1) rest
  end.
Definition cass_uuid_string (uuid : CassUuid) : bytes := uuid_string_loop 0 (encode_uuid uuid).

(** The loop that reads [n] more bytes; one hyphen may stand before each. *)
Fixpoint uuid_parse_loop (n : nat) (str : bytes) : option bytes :=
  match n with
  | O => Some []
  | S n' =>
      match (match str with c :: rest => if c =? 45 then rest else str | [] => [] end) with
      | p0 :: p1 :: rest =>
          match hex_to_half_byte (u8 p0), hex_to_half_byte (u8 p1) with
          | Some h0, Some h1 =>
              match uuid_parse_loop n' rest with
              | Some buf => Some (u8 (Z.shiftl h0 4 + h1) :: buf)
              | None => None
              end
          | _, _ => None
          end
      | _ => None
      end
  end.

(** [None] is [CASS_ERROR_LIB_BAD_PARAMS]. *)
Definition cass_uuid_from_string_n (str : bytes) : option CassUuid :=
  if negb (zlen str =? 36) then None
  else match uuid_parse_loop 16 str with
       | Some buf => Some (decode_uuid buf)
       | None => None
       end.

(** ** Generators *)

(** [UuidGen]: the part of an id that stays the same, from a random number and the node. *)
Definition new_clock_seq_and_node (random node : Z) : Z :=
  Z.lor (Z.lor (Z.shiftl (Z.land random 0x3FFF) 48) 0x8000000000000000) node.

Definition generate_random (random1 random2 : Z) : CassUuid :=
  {| time_and_version := set_version random1 4;
     clock_seq_and_node := Z.lor (Z.land random2 0x3FFFFFFFFFFFFFFF) 0x8000000000000000 |}.

Definition from_time (clock_seq_and_node timestamp : Z) : CassUuid :=
  {| time_and_version := set_version (from_unix_timestamp timestamp) 1; clock_seq_and_node := clock_seq_and_node |}.

Definition generate_time (clock_seq_and_node timestamp : Z) : CassUuid :=
  {| time_and_version := set_version timestamp 1; clock_seq_and_node := clock_seq_and_node |}.

(** The candidate of [monotonic_timestamp] for the loaded value and the clock in milliseconds. *)
Definition uuid_candidate (last now_ms : Z) : Z :=
  let now := from_unix_timestamp now_ms in
  if last <? now then now else wrapU 64 (last + 1).

(** [MonotonicTimestampGenerator::compute_next], without its warnings. *)
Definition compute_next (last current : Z) : Z := if current <=? last then wrapS 64 (last + 1) else current.

(** ** Compare-and-exchange loops *)

Section counter.
Context (candidate : Z -> Z -> Z).

(** A thread outside of the loop's critical part, or with the value it loaded and its candidate. *)
Inductive thread := Idle | Loaded (last next : Z).

Record counter := {
  shared : Z;               (* the atomic *)
  threads : list thread;
  results : list Z          (* what the loops returned, the latest first *)
}.

Inductive event :=
| Load (t : nat) (clock : Z)    (* read the clock, load the atomic, compute the candidate *)
| Exchange (t : nat).           (* compare_exchange_strong *)

Definition counter_step (e : event) (s : counter) : counter :=
  match e with
  | Load t clock =>
      match threads s !! t with
      | Some Idle => {| shared := shared s; threads := <[t := Loaded (shared s) (candidate (shared s) clock)]> (threads s);
                        results := results s |}
      | _ => s
      end
  | Exchange t =>
      match threads s !! t with
      | Some (Loaded last next) =>
          if shared s =? last
          then {| shared := next; threads := <[t := Idle]> (threads s); results := next :: results s |}
          else {| shared := shared s; threads := <[t := Idle]> (threads s); results := results s |}
      | _ => s
      end
  end.

Definition new_counter (n : nat) : counter := {| shared := 0; threads := replicate n Idle; results := [] |}.

Definition run (es : list event) (n : nat) : counter := fold_left (fun s e => counter_step e s) es (new_counter n).
End counter.

(** ** Construction from PHP *)

Inductive uuid_result :=
| UuidOk (u : CassUuid)
| InvalidUuid
| WrongVersion (version : Z)
| NegativeTimestamp (timestamp : Z).

(** [Uuid::__construct] and [php_scylladb_uuid_init] with a string, or with the random numbers of
    the generator. *)
Definition php_scylladb_uuid_init (value : option bytes) (random1 random2 : Z) : uuid_result :=
  match value with
  | None => UuidOk (generate_random random1 random2)
  | Some s => if cass_uuid_from_string_n s is Some u then UuidOk u else InvalidUuid
  end.

(** The argument of [Timeuuid::__construct]: none, a string or an integer. *)
Inductive timeuuid_argument := NoArgument | StringArgument (s : bytes) | LongArgument (n : Z).

Definition php_scylladb_timeuuid_init (arg : timeuuid_argument) (clock_seq_and_node generated : Z) : uuid_result :=
  match arg with
  | NoArgument => UuidOk (generate_time clock_seq_and_node generated)
  | StringArgument s =>
      match cass_uuid_from_string_n s with
      | None => InvalidUuid
      | Some u => if negb (cass_uuid_version u =? 1) then WrongVersion (cass_uuid_version u) else UuidOk u
      end
  | LongArgument timestamp =>
      if timestamp <? 0 then NegativeTimestamp timestamp else UuidOk (from_time clock_seq_and_node timestamp)
  end.

Definition Timeuuid_time (u : CassUuid) : Z := cass_uuid_timestamp u / 1000.

(** ** Text *)

(** One byte, through its two digits. *)
Definition byte_text_ok (b : Z) : bool :=
  let h := half_byte_to_hex (Z.land (Z.shiftr b 4) 0x0F) in
  let l := half_byte_to_hex (Z.land b 0x0F) in
  negb (h =? 45) &&
  match hex_to_half_byte (u8 h), hex_to_half_byte (u8 l) with
  | Some x, Some y => u8 (Z.shiftl x 4 + y) =? b
  | _, _ => false
  end.

Lemma uuid_byte_text b : is_byte b -> byte_text_ok b = true.
Proof. intros Hb. revert Hb. unfold is_byte. by_bytes b. Qed.

Lemma parse_string_loop l : Forall is_byte l -> forall i, uuid_parse_loop (length l) (uuid_string_loop i l) = Some l.
Proof.
  induction 1 as [|b l Hb _ IH]; intros i; [done|]. cbn [length uuid_parse_loop uuid_string_loop].
  pose proof (uuid_byte_text b Hb) as Hok. unfold byte_text_ok in Hok. apply andb_prop in Hok as [Hh Hv].
  set (h := half_byte_to_hex (Z.land (Z.shiftr b 4) 15)) in *. set (lo := half_byte_to_hex (Z.land b 15)) in *.
  destruct (Z.eqb_spec h 45) as [|Hne]; [done|].
  assert (E : match (if (i =? 4) || (i =? 6) || (i =? 8) || (i =? 10) then [45] else []) ++ [h; lo] ++ uuid_string_loop (i + 1) l with
              | c :: rest => if c =? 45 then rest else (if (i =? 4) || (i =? 6) || (i =? 8) || (i =? 10) then [45] else []) ++ [h; lo] ++ uuid_string_loop (i + 1) l
              | [] => []
              end = h :: lo :: uuid_string_loop (i + 1) l).
  { destruct ((i =? 4) || (i =? 6) || (i =? 8) || (i =? 10)); cbn; [done|]. by destruct (Z.eqb_spec h 45). }
  rewrite E, IH. destruct (hex_to_half_byte (u8 h)) as [x|]; [|done]. destruct (hex_to_half_byte (u8 lo)) as [y|]; [|done].
  apply Z.eqb_eq in Hv. by rewrite Hv.
Qed.

Lemma encode_uuid_bytes u : Forall is_byte (encode_uuid u).
Proof. unfold encode_uuid. cbn [map app]. repeat (apply List.Forall_cons; [apply u8_range|]). apply List.Forall_nil. Qed.

Lemma uuid_text_length u : zlen (cass_uuid_string u) = 36.
Proof. reflexivity. Qed.

Lemma parse_uuid_string u : valid_uuid u -> cass_uuid_from_string_n (cass_uuid_string u) = Some u.
Proof.
  intros Hu. unfold cass_uuid_from_string_n. rewrite uuid_text_length. cbn [Z.eqb Pos.eqb negb].
  change 16%nat with (length (encode_uuid u)). unfold cass_uuid_string. rewrite parse_string_loop by apply encode_uuid_bytes.
  f_equal. rewrite <- (app_nil_r (encode_uuid u)). by apply decode_encode_uuid.
Qed.

(** A hexadecimal digit. *)
Definition is_hex (c : Z) : bool := if hex_to_half_byte (u8 c) is Some _ then true else false.

(** What the parser read: the digits in order, without the hyphens. *)
Lemma parse_loop_digits n : forall str buf, uuid_parse_loop n str = Some buf ->
  length buf = n /\ (2 * n <= length (List.filter is_hex str))%nat.
Proof.
  induction n as [|n IH]; intros str buf H; [injection H as <-; split; [done|lia]|]. cbn [uuid_parse_loop] in H.
  set (s := match str with [] => [] | c :: rest => if c =? 45 then rest else str end) in *.
  assert (Hs : (length (List.filter is_hex s) <= length (List.filter is_hex str))%nat).
  { unfold s. destruct str as [|c rest]; [done|]. destruct (c =? 45); [|done]. cbn [List.filter]. destruct (is_hex c); cbn [length]; lia. }
  clearbody s. destruct s as [|p0 [|p1 rest]]; try done.
  destruct (hex_to_half_byte (u8 p0)) eqn:E0; [|done]. destruct (hex_to_half_byte (u8 p1)) eqn:E1; [|done].
  destruct (uuid_parse_loop n rest) as [b|] eqn:Er; [|done]. injection H as <-. destruct (IH _ _ Er) as [Hl Hd].
  cbn [List.filter] in Hs. unfold is_hex in Hs at 1 2. rewrite E0, E1 in Hs. cbn [length] in *. split; lia.
Qed.

(** the text of UUIDs.  Printing a UUID and parsing the text gives it back.  A text that is
    accepted has 36 characters, at least 32 of them hexadecimal digits - but not the hyphens, whose
    place and number are free, nor what follows the last digit: 32 zeros and four letters z are
    accepted. *)
Theorem uuid_text u str :
  valid_uuid u -> cass_uuid_from_string_n str <> None ->
  cass_uuid_from_string_n (cass_uuid_string u) = Some u /\
  zlen str = 36 /\ 32 <= zlen (List.filter is_hex str) /\
  cass_uuid_from_string_n (bs "00000000000000000000000000000000zzzz") = Some {| time_and_version := 0; clock_seq_and_node := 0 |}.
Proof.
  intros Hu Hstr. split; [by apply parse_uuid_string|]. unfold cass_uuid_from_string_n in Hstr.
  destruct (Z.eqb_spec (zlen str) 36); cbn [negb] in Hstr; [|done]. split; [done|]. split; [|by vm_compute].
  destruct (uuid_parse_loop 16 str) as [buf|] eqn:E; [|done]. apply parse_loop_digits in E as [_ E]. unfold zlen. lia.
Qed.

Lemma uuid_text_witness :
  cass_uuid_from_string_n (cass_uuid_string {| time_and_version := 0x11e752a35f344f20; clock_seq_and_node := 0x915b5f4f349b532d |}) =
  Some {| time_and_version := 0x11e752a35f344f20; clock_seq_and_node := 0x915b5f4f349b532d |}.
Proof.
  refine (proj1 (uuid_text _ (bs "5f344f20-52a3-11e7-915b-5f4f349b532d") _ _)).
  - split; split; vm_compute; congruence.
  - vm_compute. discriminate.
Defined.

(** ** Time and version *)

Lemma version_clear t : Z.land t 0x0FFFFFFFFFFFFFFF = t mod 2 ^ 60.
Proof. change 0x0FFFFFFFFFFFFFFF with (Z.ones 60). apply Z.land_ones. lia. Qed.

Lemma set_version_value t v : 0 <= v < 16 -> set_version t v = t mod 2 ^ 60 + v * 2 ^ 60.
Proof.
  intros Hv. unfold set_version. rewrite version_clear. rewrite wrapU_id.
  - apply lor_shiftl; [lia|]. apply Z.mod_pos_bound. lia.
  - rewrite Z.shiftl_mul_pow2 by lia. unfold in_u. lia.
Qed.

Lemma time_of_set_version t v csn :
  0 <= v < 16 -> let u := {| time_and_version := set_version t v; clock_seq_and_node := csn |} in
  Z.land (time_and_version u) 0x0FFFFFFFFFFFFFFF = t mod 2 ^ 60 /\ cass_uuid_version u = v.
Proof.
  intros Hv u. pose proof (Z.mod_pos_bound t (2 ^ 60) ltac:(lia)). unfold cass_uuid_version. cbn [time_and_version u].
  rewrite version_clear, set_version_value by done. split.
  - rewrite Z.mod_add by lia. apply Z.mod_mod. lia.
  - rewrite Z.shiftr_div_pow2, Z.div_add, Z.div_small by lia. change 15 with (Z.ones 4). rewrite Z.land_ones by lia. apply Z.mod_small. lia.
Qed.

(** The time and the version of a UUID.  A time-based UUID made from a time in milliseconds
    has version 1 and gives that time back, for every time before the year 5236; PHP's
    [Timeuuid::time] is that time in seconds.  Random ones have version 4 and the variant of
    RFC 4122.  [Timeuuid] accepts only texts of version 1 and refuses negative times. *)
Theorem uuid_time ts csn r1 r2 s g :
  0 <= ts -> ts * 10000 + TIME_OFFSET_BETWEEN_UTC_AND_EPOCH < 2 ^ 60 -> in_u 64 r2 ->
  cass_uuid_version (from_time csn ts) = 1 /\ cass_uuid_timestamp (from_time csn ts) = ts /\
  php_scylladb_timeuuid_init (LongArgument ts) csn g = UuidOk (from_time csn ts) /\ Timeuuid_time (from_time csn ts) = ts / 1000 /\
  cass_uuid_timestamp (cass_uuid_min_from_time ts) = ts /\ cass_uuid_timestamp (cass_uuid_max_from_time ts) = ts /\
  (cass_uuid_version (generate_random r1 r2) = 4 /\ Z.shiftr (clock_seq_and_node (generate_random r1 r2)) 62 = 2) /\
  (forall u, php_scylladb_timeuuid_init (StringArgument s) csn g = UuidOk u -> cass_uuid_version u = 1).
Proof.
  intros H0 H1 Hr. unfold TIME_OFFSET_BETWEEN_UTC_AND_EPOCH in *.
  assert (Eu : from_unix_timestamp ts = ts * 10000 + 0x01B21DD213814000).
  { unfold from_unix_timestamp, TIME_OFFSET_BETWEEN_UTC_AND_EPOCH. rewrite (wrapU_id 64 (ts * 10000)) by (unfold in_u; lia). apply wrapU_id. unfold in_u. lia. }
  assert (Ht : forall c, cass_uuid_timestamp {| time_and_version := set_version (from_unix_timestamp ts) 1; clock_seq_and_node := c |} = ts).
  { intros c. unfold cass_uuid_timestamp. destruct (time_of_set_version (from_unix_timestamp ts) 1 c ltac:(lia)) as [-> _].
    rewrite Eu, Z.mod_small, wrapU_id by (unfold in_u, TIME_OFFSET_BETWEEN_UTC_AND_EPOCH; lia).
    unfold to_milliseconds, TIME_OFFSET_BETWEEN_UTC_AND_EPOCH.
    replace (ts * 10000 + 122192928000000000 - 122192928000000000) with (ts * 10000) by lia. apply Z.div_mul. lia. }
  split_and!; try (by apply Ht).
  - apply time_of_set_version. lia.
  - cbn. by replace (ts <? 0) with false by lia.
  - unfold Timeuuid_time. by rewrite (Ht csn : cass_uuid_timestamp (from_time csn ts) = ts).
  - apply (time_of_set_version r1 4). lia.
  - cbn [generate_random clock_seq_and_node]. change 0x3FFFFFFFFFFFFFFF with (Z.ones 62). rewrite Z.land_ones by lia.
    change 0x8000000000000000 with (Z.shiftl 2 62). pose proof (Z.mod_pos_bound r2 (2 ^ 62) ltac:(lia)).
    rewrite lor_shiftl, Z.shiftr_div_pow2, Z.div_add, Z.div_small by lia. done.
  - intros u. cbn. destruct (cass_uuid_from_string_n s) as [v|]; [|done]. destruct (Z.eqb_spec (cass_uuid_version v) 1); [|done]. by intros [= <-].
Qed.

Lemma uuid_time_witness : cass_uuid_timestamp (from_time 5 1700000000000) = 1700000000000.
Proof.
  refine (proj1 (proj2 (uuid_time 1700000000000 5 0 0 [] 0 _ _ _))).
  - lia.
  - vm_compute. reflexivity.
  - split; vm_compute; congruence.
Defined.

(** ** Counters *)

Section counter_facts.
Context (candidate : Z -> Z -> Z) (clock_ok : Z -> Prop) (bound limit : Z).
Context (Hcandidate : forall last clock,
  clock_ok clock -> 0 <= last -> last + 1 < limit -> last < candidate last clock <= Z.max (last + 1) bound).

Definition event_ok (e : event) : Prop := match e with Load _ clock => clock_ok clock | Exchange _ => True end.

(** The results are strictly increasing, the counter is the last one of them or zero, and the
    candidate of a thread exceeds what it loaded. *)
Record counter_ok (s : counter) : Prop := {
  sorted_ok : StronglySorted Z.gt (results s);
  shared_ok : 0 <= shared s <= bound + zlen (results s);
  latest_ok : Forall (fun r => r <= shared s) (results s);
  positive_ok : Forall (fun r => 0 < r) (results s);
  threads_ok : Forall (fun t => match t with Idle => True | Loaded last next => last < next <= bound + zlen (results s) + 1 end) (threads s)
}.

Lemma forall_weaken_threads m m' l : m <= m' ->
  Forall (fun t => match t with Idle => True | Loaded last next => last < next <= bound + m + 1 end) l ->
  Forall (fun t => match t with Idle => True | Loaded last next => last < next <= bound + m' + 1 end) l.
Proof. intros Hm. apply Forall_impl. intros [|last next]; lia. Qed.

Lemma counter_step_ok e s :
  counter_ok s -> event_ok e -> bound + zlen (results s) + 1 < limit ->
  counter_ok (counter_step candidate e s) /\ zlen (results (counter_step candidate e s)) <= zlen (results s) + 1.
Proof using Hcandidate.
  intros Hs He Hl. pose proof Hs as [Hsort Hsh Hlat Hpos Hth]. destruct e as [t clock|t]; cbn [counter_step].
  - destruct (threads s !! t) as [[|last next]|] eqn:Et; try (split; [done|lia]). cbn [results]. split; [|lia].
    pose proof (Hcandidate (shared s) clock He ltac:(lia) ltac:(lia)) as Hc.
    split; cbn [results shared threads]; try done. apply Forall_insert; [done|]. pose proof (zlen_nonneg (results s)). lia.
  - destruct (threads s !! t) as [[|last next]|] eqn:Et; try (split; [done|lia]).
    assert (Hn : last < next <= bound + zlen (results s) + 1).
    { eapply (Forall_lookup_1 _ _ _ _ Hth Et). }
    destruct (Z.eqb_spec (shared s) last) as [<-|]; cbn [results].
    + rewrite zlen_cons. split; [|lia]. split; cbn [results shared threads]; rewrite ?zlen_cons.
      * constructor; [done|]. eapply Forall_impl; [|exact Hlat]. cbn. lia.
      * lia.
      * constructor; [lia|]. eapply Forall_impl; [|exact Hlat]. cbn. lia.
      * constructor; [lia|done].
      * apply Forall_insert; [|done]. eapply forall_weaken_threads; [|exact Hth]. lia.
    + split; [|lia]. split; cbn [results shared threads]; try done. by apply Forall_insert.
Qed.

Lemma counter_run_ok es : forall s,
  counter_ok s -> Forall event_ok es -> bound + zlen (results s) + zlen es + 1 < limit ->
  counter_ok (fold_left (fun s e => counter_step candidate e s) es s) /\
  zlen (results (fold_left (fun s e => counter_step candidate e s) es s)) <= zlen (results s) + zlen es.
Proof using Hcandidate.
  induction es as [|e es IH]; intros s Hs Hes Hl; [split; [done|]; cbn [fold_left]; rewrite zlen_nil; lia|].
  apply Forall_cons_1 in Hes as [He Hes]. rewrite zlen_cons in Hl. pose proof (zlen_nonneg es). cbn [fold_left].
  destruct (counter_step_ok e s Hs He ltac:(lia)) as [Hs' Hz]. destruct (IH _ Hs' Hes ltac:(lia)) as [H1 H2].
  split; [done|]. rewrite zlen_cons. lia.
Qed.

Lemma new_counter_ok n : 0 <= bound -> counter_ok (new_counter n).
Proof.
  intros Hb. split; cbn [new_counter results shared threads]; [apply SSorted_nil|change (zlen (@nil Z)) with 0; lia|apply List.Forall_nil|apply List.Forall_nil|by apply Forall_replicate].
Qed.

Lemma sorted_nodup (l : list Z) : StronglySorted Z.gt l -> NoDup l.
Proof.
  induction 1 as [|x l _ IH Hx]; constructor; [|done]. intros Hin. eapply Forall_forall in Hx; [|by apply list_elem_of_In]. lia.
Qed.

(** The counter changes only when a result is returned. *)
Lemma shared_unchanged e s : results (counter_step candidate e s) = results s -> shared (counter_step candidate e s) = shared s.
Proof using.
  destruct e as [t clock|t]; cbn [counter_step]; destruct (threads s !! t) as [[|last next]|]; try done.
  destruct (shared s =? last); [|done]. cbn [results]. intros E. exfalso. apply (f_equal length) in E. cbn in E. lia.
Qed.

Lemma results_grow e s : (length (results s) <= length (results (counter_step candidate e s)))%nat.
Proof using. destruct e as [t clock|t]; cbn [counter_step]; repeat case_match; cbn; lia. Qed.

Definition event_thread (e : event) : nat := match e with Load t _ | Exchange t => t end.

Lemma results_grow_run es : forall s, (length (results s) <= length (results (fold_left (fun s e => counter_step candidate e s) es s)))%nat.
Proof using.
  induction es as [|e es IH]; intros s; [done|]. cbn [fold_left]. pose proof (results_grow e s). specialize (IH (counter_step candidate e s)). lia.
Qed.

Lemma results_suffix e s : results s `suffix_of` results (counter_step candidate e s).
Proof using.
  destruct e as [t clock|t]; cbn [counter_step]; repeat case_match; cbn; try done. by exists [next].
Qed.

Lemma others_unchanged es t : forall s,
  Forall (fun e => event_thread e <> t) es ->
  let s' := fold_left (fun s e => counter_step candidate e s) es s in
  threads s' !! t = threads s !! t /\ (length (results s') = length (results s) -> shared s' = shared s /\ results s' = results s).
Proof using.
  induction es as [|e es IH]; intros s Hes; [done|]. apply Forall_cons_1 in Hes as [He Hes]. cbn [fold_left] in *.
  destruct (IH (counter_step candidate e s) Hes) as [Ht Hr]. split.
  - rewrite Ht. destruct e as [u clock|u]; cbn [counter_step event_thread] in *; repeat case_match; try done; cbn [threads]; by rewrite list_lookup_insert_ne.
  - intros El. pose proof (results_grow e s) as H1. pose proof (results_grow_run es (counter_step candidate e s)) as H2.
    destruct (Hr ltac:(lia)) as [Esh Er]. assert (E0 : results (counter_step candidate e s) = results s).
    { destruct (results_suffix e s) as [k Hk]. rewrite Hk in *. destruct k as [|x k]; [done|]. rewrite length_app in *. cbn in *. lia. }
    rewrite Esh, Er, E0. split; [by apply shared_unchanged|done].
Qed.

(** A thread whose exchange fails was overtaken by one that returned. *)
Lemma lock_free t clock es s :
  threads s !! t = Some Idle -> Forall (fun e => event_thread e <> t) es ->
  let s' := fold_left (fun s e => counter_step candidate e s) es (counter_step candidate (Load t clock) s) in
  length (results s') = length (results s) ->
  results (counter_step candidate (Exchange t) s') = candidate (shared s) clock :: results s.
Proof using.
  intros Hidle Hes s' El. set (s1 := counter_step candidate (Load t clock) s) in *.
  assert (E1 : s1 = {| shared := shared s; threads := <[t := Loaded (shared s) (candidate (shared s) clock)]> (threads s); results := results s |}).
  { unfold s1. cbn [counter_step]. by rewrite Hidle. }
  destruct (others_unchanged es t s1 Hes) as [Ht Hr]. fold s' in Ht, Hr. rewrite E1 in Ht, Hr. cbn [threads results shared] in *.
  rewrite list_lookup_insert_eq in Ht by (by eapply lookup_lt_Some). destruct (Hr El) as [Esh Er].
  cbn [counter_step]. rewrite Ht, Esh, Z.eqb_refl. cbn [results]. by rewrite Er.
Qed.
End counter_facts.

(** ** The generators *)

Lemma uuid_candidate_bounds bound last now_ms :
  0 <= now_ms /\ from_unix_timestamp now_ms <= bound -> 0 <= last -> last + 1 < 2 ^ 60 ->
  last < uuid_candidate last now_ms <= Z.max (last + 1) bound.
Proof.
  intros [H0 Hb] Hl Hlim. unfold uuid_candidate. destruct (Z.ltb_spec last (from_unix_timestamp now_ms)); [lia|].
  rewrite wrapU_id by (unfold in_u; lia). lia.
Qed.

Lemma generate_time_inj csn : forall t1 t2, 0 <= t1 < 2 ^ 60 -> 0 <= t2 < 2 ^ 60 -> generate_time csn t1 = generate_time csn t2 -> t1 = t2.
Proof.
  intros t1 t2 H1 H2 E. injection E as E. rewrite !set_version_value, !Z.mod_small in E by lia. lia.
Qed.

Lemma map_nodup_in {A B} (f : A -> B) (P : A -> Prop) l :
  (forall x y, P x -> P y -> f x = f y -> x = y) -> Forall P l -> NoDup l -> NoDup (map f l).
Proof.
  intros Hinj HP Hnd. induction Hnd as [|x l Hx Hnd IH]; [constructor|]. apply Forall_cons_1 in HP as [Hpx HP]. cbn [map]. constructor; [|by apply IH].
  intros Hin. apply list_elem_of_fmap in Hin as (y & E & Hy). apply Hx. eapply Forall_forall in HP; [|by apply list_elem_of_In].
  by rewrite (Hinj x y Hpx HP E).
Qed.

(** C28: time-based UUIDs are unique.  However the atomic actions of any number of threads
    interleave, and whatever their clocks return - also when they go back - the timestamps that the
    generator returns are strictly increasing and the UUIDs made from them pairwise different, of
    version 1, as long as clocks and counter stay below 2^60 (the year 5236).  The loop is
    lock-free: a thread whose exchange fails was overtaken by a thread that returned. *)
Theorem uuid_generator_unique n es csn bound :
  0 <= bound -> bound + zlen es + 1 < 2 ^ 60 ->
  Forall (event_ok (fun now_ms => 0 <= now_ms /\ from_unix_timestamp now_ms <= bound)) es ->
  let s := run uuid_candidate es n in
  StronglySorted Z.gt (results s) /\
  NoDup (map (generate_time csn) (results s)) /\
  Forall (fun r => cass_uuid_version (generate_time csn r) = 1) (results s) /\
  (forall t now_ms es', threads s !! t = Some Idle -> Forall (fun e => event_thread e <> t) es' ->
     let s' := fold_left (fun s e => counter_step uuid_candidate e s) es' (counter_step uuid_candidate (Load t now_ms) s) in
     length (results s') = length (results s) ->
     results (counter_step uuid_candidate (Exchange t) s') = uuid_candidate (shared s) now_ms :: results s).
Proof.
  intros Hb Hl Hes s. pose proof (zlen_nonneg es) as Hz.
  destruct (counter_run_ok uuid_candidate _ bound (2 ^ 60) (uuid_candidate_bounds bound) es (new_counter n) (new_counter_ok bound n Hb) Hes
    ltac:(cbn [new_counter results]; rewrite zlen_nil; lia)) as [[Hsort Hsh Hlat Hpos _] Hlen].
  fold (run uuid_candidate es n) in Hsort, Hsh, Hlat, Hpos, Hlen. fold s in Hsort, Hsh, Hlat, Hpos, Hlen.
  cbn [new_counter results] in Hlen. rewrite zlen_nil in Hlen. split_and!.
  - done.
  - eapply (map_nodup_in _ (fun r => 0 <= r < 2 ^ 60)); [apply generate_time_inj| |by apply sorted_nodup].
    rewrite List.Forall_forall in *. intros r Hr. specialize (Hlat r Hr). specialize (Hpos r Hr). cbn beta in *. lia.
  - apply List.Forall_forall. intros r _. apply (time_of_set_version r 1 csn). lia.
  - intros t now_ms es' Hidle Hother. by apply lock_free.
Qed.

(** Two threads whose clocks show the same millisecond; the second one's exchange fails once. *)
Lemma uuid_generator_unique_witness :
  NoDup (map (generate_time 7) (results (run uuid_candidate [Load 0 1000; Load 1 1000; Exchange 0; Exchange 1; Load 1 1000; Exchange 1] 2))).
Proof.
  refine (proj1 (proj2 (uuid_generator_unique 2 [Load 0 1000; Load 1 1000; Exchange 0; Exchange 1; Load 1 1000; Exchange 1] 7
    (from_unix_timestamp 1000) _ _ _))).
  - vm_compute. congruence.
  - vm_compute. reflexivity.
  - repeat constructor; cbn; try lia; vm_compute; congruence.
Defined.

Lemma compute_next_bounds bound last current :
  current <= bound -> 0 <= last -> last + 1 < 2 ^ 63 - 1 -> last < compute_next last current <= Z.max (last + 1) bound.
Proof.
  intros Hb Hl Hlim. unfold compute_next. destruct (Z.leb_spec current last); [|lia]. rewrite wrapS_id by (unfold in_s; lia). lia.
Qed.

(** The monotonic timestamp generator.  The timestamps that [next] returns to any number of
    threads are strictly increasing, whatever the clocks return, as long as they stay below the
    largest 64-bit integer. *)
Theorem timestamps_increase n es bound :
  0 <= bound -> bound + zlen es + 1 < 2 ^ 63 - 1 -> Forall (event_ok (fun current => current <= bound)) es ->
  let s := run compute_next es n in
  StronglySorted Z.gt (results s) /\ NoDup (results s) /\ Forall (fun r => 0 < r < 2 ^ 63) (results s).
Proof.
  intros Hb Hl Hes s. pose proof (zlen_nonneg es) as Hz.
  destruct (counter_run_ok compute_next _ bound (2 ^ 63 - 1) (compute_next_bounds bound) es (new_counter n) (new_counter_ok bound n Hb) Hes
    ltac:(cbn [new_counter results]; rewrite zlen_nil; lia)) as [[Hsort Hsh Hlat Hpos _] Hlen].
  fold (run compute_next es n) in Hsort, Hsh, Hlat, Hpos, Hlen. fold s in Hsort, Hsh, Hlat, Hpos, Hlen.
  cbn [new_counter results] in Hlen. rewrite zlen_nil in Hlen. split_and!; [done|by apply sorted_nodup|].
  rewrite List.Forall_forall in *. intros r Hr. specialize (Hlat r Hr). specialize (Hpos r Hr). cbn beta in *. lia.
Qed.

Lemma timestamps_increase_witness : StronglySorted Z.gt (results (run compute_next [Load 0 50; Exchange 0; Load 0 40; Exchange 0] 1)).
Proof.
  refine (proj1 (timestamps_increase 1 [Load 0 50; Exchange 0; Load 0 40; Exchange 0] 50 _ _ _)).
  - lia.
  - vm_compute. reflexivity.
  - repeat constructor; cbn; lia.
Defined.
