(* ===== verification/StreamManager.v ===== *)
(** Stream ids of a connection (third-party/cpp-driver/src/stream_manager.hpp).

    A request in flight holds a stream id.  The free ids are the set bits of an array of words;
    [pending] maps the ids in use to their callbacks.  The section at the end states what the
    connection relies on as an abstract allocator and shows that the bit set implements it. *)
From stdpp Require Import gmap.
From S2P Require Import Prelude.
#[local] Open Scope Z_scope.

Definition CASS_MAX_STREAMS : Z := 32768.
Definition NUM_BITS_PER_WORD : Z := 64.

Section manager.
Context {T : Type}.

Record StreamManager := {
  offset : Z;            (* size_t *)
  words : list Z;        (* word_t *)
  pending : gmap Z T
}.

Definition max_streams : Z := CASS_MAX_STREAMS.
Definition num_words : Z := max_streams / NUM_BITS_PER_WORD.

Definition new_stream_manager : StreamManager := {|
  offset := 0;
  words := replicate (Z.to_nat num_words) (wrapU 64 (Z.lnot 0));
  pending := ∅
|}.

(** The index of the lowest set bit. *)
Fixpoint pos_trailing_zeros (p : positive) : Z :=
  match p with
  | xO p' => 1 + pos_trailing_zeros p'
  | _ => 0
  end.
Definition count_trailing_zeros (word : Z) : Z :=
  match word with Zpos p => pos_trailing_zeros p | _ => 0 end.

Definition word_at (l : list Z) (index : Z) : Z := default 0 (l !! Z.to_nat index).

(** The bit, negative if there is none, and the words. *)
Definition get_and_set_first_available_stream (index : Z) (l : list Z) : Z * list Z :=
  let word := word_at l index in
  if word =? 0 then (-1, l)
  else
    let stream := count_trailing_zeros word in
    (stream, <[Z.to_nat index := Z.lxor word (Z.shiftl 1 stream)]> l).

(** The loop of [acquire_stream], with [n] turns left. *)
Fixpoint acquire_loop (n : nat) (i start : Z) (l : list Z) : Z * list Z :=
  match n with
  | O => (-1, l)
  | S n' =>
      let index := wrapU 64 (i + start) mod num_words in
      let '(bit, l') := get_and_set_first_available_stream index l in
      if 0 <=? bit then (bit + NUM_BITS_PER_WORD * index, l') else acquire_loop n' (i + 1) start l'
  end.

Definition acquire_stream (m : StreamManager) : Z * StreamManager :=
  let '(stream, l) := acquire_loop (Z.to_nat num_words) 0 (offset m) (words m) in
  (stream, {| offset := wrapU 64 (offset m + 1); words := l; pending := pending m |}).

Definition acquire (item : T) (m : StreamManager) : Z * StreamManager :=
  let '(stream, m') := acquire_stream m in
  if stream <? 0 then (-1, m')
  else (stream, {| offset := offset m'; words := words m'; pending := <[stream := item]> (pending m') |}).

(** [None]: an assertion fails. *)
Definition release_stream (stream : Z) (m : StreamManager) : option StreamManager :=
  let index := stream / NUM_BITS_PER_WORD in
  let bit := stream mod NUM_BITS_PER_WORD in
  if Z.land (word_at (words m) index) (Z.shiftl 1 bit) =? 0 then
    Some {| offset := offset m;
            words := <[Z.to_nat index := Z.lor (word_at (words m) index) (Z.shiftl 1 bit)]> (words m);
            pending := pending m |}
  else None.

Definition release_stream_id (stream : Z) (m : StreamManager) : option StreamManager :=
  if (0 <=? stream) && (stream <? max_streams) && bool_decide (is_Some (pending m !! stream)) then
    release_stream stream {| offset := offset m; words := words m; pending := delete stream (pending m) |}
  else None.

Definition get (stream : Z) (m : StreamManager) : option T := pending m !! stream.

Definition pending_streams (m : StreamManager) : Z := Z.of_nat (size (pending m)).
Definition available_streams (m : StreamManager) : Z := max_streams - pending_streams m.

(** ** The words hold the free ids *)

Definition free (l : list Z) (stream : Z) : bool := Z.testbit (word_at l (stream / 64)) (stream mod 64).

Record consistent (m : StreamManager) : Prop := {
  words_length : length (words m) = 512%nat;
  words_range : Forall (in_u 64) (words m);
  words_free : forall s, 0 <= s < max_streams -> free (words m) s = negb (bool_decide (is_Some (pending m !! s)));
  pending_range : forall s, is_Some (pending m !! s) -> 0 <= s < max_streams
}.

Lemma num_words_value : num_words = 512.
Proof. reflexivity. Qed.

Lemma word_at_lookup l index :
  0 <= index < 512 -> length l = 512%nat -> Forall (in_u 64) l ->
  l !! Z.to_nat index = Some (word_at l index) /\ in_u 64 (word_at l index).
Proof.
  intros Hi Hl Hr. unfold word_at. destruct (lookup_lt_is_Some_2 l (Z.to_nat index)) as [w Hw]; [lia|].
  rewrite Hw. split; [done|]. eapply Forall_lookup_1; done.
Qed.

Lemma word_at_insert l index index' w :
  0 <= index < 512 -> 0 <= index' -> length l = 512%nat ->
  word_at (<[Z.to_nat index := w]> l) index' = if index =? index' then w else word_at l index'.
Proof.
  intros Hi Hi' Hl. unfold word_at. destruct (Z.eqb_spec index index') as [<-|].
  - rewrite list_lookup_insert_eq by lia. done.
  - rewrite list_lookup_insert_ne by lia. done.
Qed.

Lemma trailing_zeros_bit p : Z.testbit (Zpos p) (pos_trailing_zeros p) = true /\ 0 <= pos_trailing_zeros p.
Proof.
  induction p as [p _|p [IH Hp]|]; [done| |done]. cbn [pos_trailing_zeros]. split; [|lia].
  change (Zpos p~0) with (2 * Zpos p). rewrite Z.add_comm. change (pos_trailing_zeros p + 1) with (Z.succ (pos_trailing_zeros p)).
  by rewrite Z.testbit_even_succ.
Qed.

Lemma bit_below w k n : 0 <= w < 2 ^ n -> 0 <= n -> 0 <= k -> Z.testbit w k = true -> k < n.
Proof.
  intros Hw Hn Hk Hb. destruct (Z.ltb_spec k n); [done|]. rewrite <- (Z.mod_small w (2 ^ n)), Z.mod_pow2_bits_high in Hb by lia. done.
Qed.

Lemma ctz_spec w : in_u 64 w -> w <> 0 -> 0 <= count_trailing_zeros w < 64 /\ Z.testbit w (count_trailing_zeros w) = true.
Proof.
  intros Hw Hn. unfold in_u in Hw. destruct w as [|p|p]; try lia. cbn [count_trailing_zeros].
  destruct (trailing_zeros_bit p) as [Hb H0]. split; [split; [done|]|done]. by eapply (bit_below (Zpos p)).
Qed.

Lemma shiftl_1_bit k n : 0 <= k -> 0 <= n -> Z.testbit (Z.shiftl 1 k) n = (k =? n).
Proof. intros Hk Hn. rewrite Z.shiftl_1_l. by apply Z.pow2_bits_eqb. Qed.

Lemma in_u_bits w : 0 <= w -> (forall n, 64 <= n -> Z.testbit w n = false) -> in_u 64 w.
Proof.
  intros H0 Hb. split; [done|]. destruct (Z.ltb_spec w (2 ^ 64)); [done|exfalso].
  assert (Hl : 64 <= Z.log2 w) by (apply Z.log2_le_pow2; lia). pose proof (Z.bit_log2 w ltac:(lia)). by rewrite Hb in *.
Qed.

Lemma in_u_high w n : in_u 64 w -> 64 <= n -> Z.testbit w n = false.
Proof. intros Hw Hn. unfold in_u in Hw. rewrite <- (Z.mod_small w (2 ^ 64)) by lia. by apply Z.mod_pow2_bits_high. Qed.

Lemma lxor_bit_range w k : in_u 64 w -> 0 <= k < 64 -> in_u 64 (Z.lxor w (Z.shiftl 1 k)).
Proof.
  intros Hw Hk. apply in_u_bits.
  - apply Z.lxor_nonneg. unfold in_u in Hw. rewrite Z.shiftl_1_l. split; intros; lia.
  - intros n Hn. rewrite Z.lxor_spec, shiftl_1_bit, in_u_high by (done || lia). by replace (k =? n) with false by lia.
Qed.

Lemma lor_bit_range w k : in_u 64 w -> 0 <= k < 64 -> in_u 64 (Z.lor w (Z.shiftl 1 k)).
Proof.
  intros Hw Hk. apply in_u_bits.
  - apply Z.lor_nonneg. unfold in_u in Hw. rewrite Z.shiftl_1_l. lia.
  - intros n Hn. rewrite Z.lor_spec, shiftl_1_bit, in_u_high by (done || lia). by replace (k =? n) with false by lia.
Qed.

Lemma land_bit w k : 0 <= k -> (Z.land w (Z.shiftl 1 k) =? 0) = negb (Z.testbit w k).
Proof.
  intros Hk. destruct (Z.testbit w k) eqn:E; cbn.
  - apply Z.eqb_neq. intros H. assert (Hb : Z.testbit (Z.land w (Z.shiftl 1 k)) k = true)
      by (rewrite Z.land_spec, E, shiftl_1_bit, Z.eqb_refl by lia; done).
    by rewrite H, Z.bits_0 in Hb.
  - apply Z.eqb_eq, Z.bits_inj'. intros n Hn. rewrite Z.land_spec, shiftl_1_bit, Z.bits_0 by lia.
    destruct (Z.eqb_spec k n) as [<-|]; [by rewrite E|apply andb_false_r].
Qed.

(** The ids of a word, by quotient and remainder. *)
Lemma stream_div index bit : 0 <= bit < 64 -> (bit + 64 * index) / 64 = index /\ (bit + 64 * index) mod 64 = bit.
Proof.
  intros Hb. split; [symmetry; apply Z.div_unique with (r := bit); lia|symmetry; apply Z.mod_unique with (q := index); lia].
Qed.

(** A changed bit of one word is a changed id. *)
Lemma free_insert l s w s' :
  length l = 512%nat -> 0 <= s < max_streams -> 0 <= s' < max_streams ->
  (forall n, 0 <= n < 64 -> n <> s mod 64 -> Z.testbit w n = Z.testbit (word_at l (s / 64)) n) ->
  free (<[Z.to_nat (s / 64) := w]> l) s' = if s =? s' then Z.testbit w (s mod 64) else free l s'.
Proof.
  unfold max_streams, CASS_MAX_STREAMS. intros Hl Hs Hs' Hw. unfold free.
  pose proof (Z.div_mod s 64). pose proof (Z.div_mod s' 64). pose proof (Z.mod_pos_bound s 64). pose proof (Z.mod_pos_bound s' 64).
  rewrite word_at_insert by (done || lia). destruct (Z.eqb_spec s s') as [<-|Hne]; [by rewrite Z.eqb_refl|].
  destruct (Z.eqb_spec (s / 64) (s' / 64)) as [E|]; [|done]. rewrite Hw by lia. by rewrite E.
Qed.

Lemma num_words_wrap z : wrapU 64 z mod 512 = z mod 512.
Proof. unfold wrapU. apply Z.mod_mod_divide. by exists (2 ^ 55). Qed.

(** What a search over [n] words finds. *)
Lemma acquire_loop_spec n : forall i start l,
  length l = 512%nat -> Forall (in_u 64) l ->
  let '(stream, l') := acquire_loop n i start l in
  (stream = -1 /\ l' = l /\ forall j, i <= j < i + Z.of_nat n -> word_at l ((j + start) mod 512) = 0) \/
  (0 <= stream < max_streams /\ free l stream = true /\
   l' = <[Z.to_nat (stream / 64) := Z.lxor (word_at l (stream / 64)) (Z.shiftl 1 (stream mod 64))]> l).
Proof.
  induction n as [|n IH]; intros i start l Hl Hr; cbn [acquire_loop].
  { left. split; [done|]. split; [done|]. lia. }
  rewrite num_words_value, num_words_wrap. set (index := (i + start) mod 512).
  assert (Hi : 0 <= index < 512) by (apply Z.mod_pos_bound; lia).
  destruct (word_at_lookup l index Hi Hl Hr) as [_ Hw]. unfold get_and_set_first_available_stream.
  destruct (Z.eqb_spec (word_at l index) 0) as [E0|E0].
  - cbn [Z.leb Z.compare]. specialize (IH (i + 1) start l Hl Hr).
    destruct (acquire_loop n (i + 1) start l) as [stream l']. destruct IH as [(-> & -> & H) | H]; [left|by right].
    split_and!; try done. intros j Hj. destruct (decide (j = i)) as [->|]; [done|]. apply H. lia.
  - destruct (ctz_spec _ Hw E0) as [Hb Ht]. set (bit := count_trailing_zeros _) in *. replace (0 <=? bit) with true by lia.
    unfold NUM_BITS_PER_WORD. destruct (stream_div index bit Hb) as [Ed Em]. right. unfold free. rewrite Ed, Em.
    unfold max_streams, CASS_MAX_STREAMS. split_and!; try done; lia.
Qed.

Lemma no_free_stream l start :
  (forall j, 0 <= j < 512 -> word_at l ((j + start) mod 512) = 0) -> forall s, 0 <= s < max_streams -> free l s = false.
Proof.
  intros H s Hs. unfold max_streams, CASS_MAX_STREAMS in Hs. unfold free.
  assert (Hd : 0 <= s / 64 < 512) by (pose proof (Z.div_mod s 64); pose proof (Z.mod_pos_bound s 64); lia).
  specialize (H ((s / 64 - start) mod 512) ltac:(apply Z.mod_pos_bound; lia)).
  rewrite Z.add_mod_idemp_l in H by lia. replace (s / 64 - start + start) with (s / 64) in H by lia.
  rewrite Z.mod_small in H by lia. rewrite H. apply Z.bits_0.
Qed.

Lemma new_consistent : consistent new_stream_manager.
Proof.
  split.
  - apply length_replicate.
  - apply Forall_replicate. by vm_compute.
  - intros s Hs. cbn [words pending new_stream_manager]. rewrite lookup_empty. rewrite bool_decide_false by (by intros []).
    unfold free, word_at. unfold max_streams, CASS_MAX_STREAMS in Hs. rewrite lookup_replicate_2 by
      (pose proof (Z.div_mod s 64); pose proof (Z.mod_pos_bound s 64); change (Z.to_nat num_words) with 512%nat; lia).
    cbn [default id]. change (wrapU 64 (Z.lnot 0)) with (Z.ones 64). rewrite Z.testbit_ones_nonneg by (apply Z.mod_pos_bound || idtac; lia || apply Z.mod_pos_bound; lia).
    cbn. apply Z.ltb_lt, Z.mod_pos_bound. lia.
  - intros s [x Hx]. cbn [pending new_stream_manager] in Hx. by rewrite lookup_empty in Hx.
Qed.

(** Whether a search succeeds, in terms of the number of pending requests. *)
Lemma pending_full m :
  consistent m -> (forall s, 0 <= s < max_streams -> is_Some (pending m !! s)) <-> pending_streams m = max_streams.
Proof.
  intros Hc. unfold pending_streams. rewrite <- (size_dom (D := gset Z)).
  set (all := list_to_set (seqZ 0 max_streams) : gset Z).
  assert (Hall : size all = Z.to_nat max_streams) by (unfold all; rewrite size_list_to_set by apply NoDup_seqZ; apply length_seqZ).
  assert (Hin : forall s, s ∈ all <-> 0 <= s < max_streams) by
    (intros s; unfold all; rewrite elem_of_list_to_set, elem_of_seqZ; lia). clearbody all.
  assert (Hsub : dom (pending m) ⊆ all) by (intros s Hs; apply Hin, Hc, elem_of_dom, Hs).
  split.
  - intros H. replace (dom (pending m)) with all; [rewrite Hall; apply Z2Nat.id; unfold max_streams, CASS_MAX_STREAMS; lia|].
    apply leibniz_equiv. split; [intros Hs; apply elem_of_dom, H, Hin, Hs|apply Hsub].
  - intros H s Hs. apply elem_of_dom. rewrite (set_subseteq_size_eq (dom (pending m)) all Hsub).
    + by apply Hin.
    + rewrite Hall. lia.
Qed.

(** ** The abstract allocator *)

Inductive op :=
| Acquire (item : T)
| Release (stream : Z)
| Get (stream : Z).

Inductive reply :=
| Stream (stream : Z)      (* negative: none *)
| Released
| Found (item : option T).

(** What the operations promise, on the map of the requests in flight alone. *)
Inductive spec_step (p : gmap Z T) : op -> gmap Z T -> reply -> Prop :=
| spec_acquire item s :
    0 <= s < max_streams -> p !! s = None -> spec_step p (Acquire item) (<[s := item]> p) (Stream s)
| spec_exhausted item :
    (forall s, 0 <= s < max_streams -> is_Some (p !! s)) -> spec_step p (Acquire item) p (Stream (-1))
| spec_release s : is_Some (p !! s) -> spec_step p (Release s) (delete s p) Released
| spec_get s : spec_step p (Get s) p (Found (p !! s)).

(** Only streams in use are released. *)
Definition allowed (p : gmap Z T) (o : op) : Prop :=
  match o with Release s => is_Some (p !! s) | _ => True end.

Definition run_op (o : op) (m : StreamManager) : option (reply * StreamManager) :=
  match o with
  | Acquire item => let '(s, m') := acquire item m in Some (Stream s, m')
  | Release s => match release_stream_id s m with Some m' => Some (Released, m') | None => None end
  | Get s => Some (Found (get s m), m)
  end.

Inductive reachable : StreamManager -> Prop :=
| reachable_new : reachable new_stream_manager
| reachable_step m o r m' :
    reachable m -> allowed (pending m) o -> run_op o m = Some (r, m') -> reachable m'.

Lemma consistent_insert m s w p off :
  consistent m -> 0 <= s < max_streams -> in_u 64 w ->
  (forall n, 0 <= n < 64 -> n <> s mod 64 -> Z.testbit w n = Z.testbit (word_at (words m) (s / 64)) n) ->
  (forall s', s' <> s -> p !! s' = pending m !! s') ->
  Z.testbit w (s mod 64) = negb (bool_decide (is_Some (p !! s))) ->
  consistent {| offset := off; words := <[Z.to_nat (s / 64) := w]> (words m); pending := p |}.
Proof.
  intros [Hl Hr Hf Hp] Hs Hw Hn Hp' Hb. split; cbn [words pending].
  - by rewrite length_insert.
  - by apply Forall_insert.
  - intros s' Hs'. rewrite free_insert by done. destruct (Z.eqb_spec s s') as [<-|]; [done|]. rewrite Hp' by done. by apply Hf.
  - intros s' H. destruct (decide (s' = s)) as [->|]; [done|]. apply Hp. by rewrite <- Hp'.
Qed.

Lemma acquire_spec item m :
  consistent m ->
  exists s m', acquire item m = (s, m') /\ consistent m' /\
    ((s = -1 /\ pending m' = pending m /\ forall k, 0 <= k < max_streams -> is_Some (pending m !! k)) \/
     (0 <= s < max_streams /\ pending m !! s = None /\ pending m' = <[s := item]> (pending m))).
Proof.
  intros Hc. pose proof Hc as [Hl Hr Hf Hp]. unfold acquire, acquire_stream.
  pose proof (acquire_loop_spec (Z.to_nat num_words) 0 (offset m) (words m) Hl Hr) as H.
  destruct (acquire_loop _ _ _ _) as [s l']. destruct H as [(-> & -> & H) | (Hs & Hfree & ->)].
  - cbn [Z.ltb Z.compare]. eexists _, _. split; [done|]. split; [by split|]. left. split_and!; try done.
    intros k Hk. pose proof (no_free_stream _ _ H k Hk) as H0. rewrite Hf in H0 by done.
    apply negb_false_iff in H0. by apply bool_decide_eq_true in H0.
  - replace (s <? 0) with false by lia. eexists _, _. split; [done|]. cbn [offset words pending]. rewrite Hf in Hfree by done.
    pose proof (Hf s Hs) as Hbit. rewrite Hfree in Hbit. apply negb_true_iff, bool_decide_eq_false in Hfree.
    pose proof (Z.mod_pos_bound s 64 ltac:(lia)).
    split; [|right; split_and!; [lia..| |done]; by apply eq_None_not_Some].
    destruct (word_at_lookup (words m) (s / 64)) as [_ Hw]; [|done..|].
    { unfold max_streams, CASS_MAX_STREAMS in Hs. pose proof (Z.div_mod s 64). lia. }
    apply consistent_insert; try done.
    + by apply lxor_bit_range.
    + intros n Hn Hne. rewrite Z.lxor_spec, shiftl_1_bit by lia. replace (s mod 64 =? n) with false by lia. apply xorb_false_r.
    + intros s' Hne. by rewrite lookup_insert_ne.
    + rewrite Z.lxor_spec, shiftl_1_bit, Z.eqb_refl, lookup_insert_eq by lia. unfold free in Hbit. rewrite Hbit.
      by rewrite bool_decide_true.
Qed.

Lemma release_spec s m :
  consistent m -> is_Some (pending m !! s) ->
  exists m', release_stream_id s m = Some m' /\ consistent m' /\ pending m' = delete s (pending m).
Proof.
  intros Hc Hs. pose proof Hc as [Hl Hr Hf Hp]. pose proof (Hp s Hs) as Hrange. pose proof (Hf s Hrange) as Hbit.
  rewrite bool_decide_true in Hbit by done. unfold free in Hbit. unfold release_stream_id, release_stream, NUM_BITS_PER_WORD. cbn [offset words pending].
  rewrite bool_decide_true by done. replace (0 <=? s) with true by lia. replace (s <? max_streams) with true by lia. cbn [andb].
  pose proof (Z.mod_pos_bound s 64 ltac:(lia)). rewrite land_bit, Hbit by lia. eexists. split; [done|]. split; [|done].
  destruct (word_at_lookup (words m) (s / 64)) as [_ Hw]; [|done..|].
  { unfold max_streams, CASS_MAX_STREAMS in Hrange. pose proof (Z.div_mod s 64). lia. }
  apply consistent_insert; try done.
  - by apply lor_bit_range.
  - intros n Hn Hne. rewrite Z.lor_spec, shiftl_1_bit by lia. replace (s mod 64 =? n) with false by lia. apply orb_false_r.
  - intros s' Hne. by rewrite lookup_delete_ne.
  - rewrite Z.lor_spec, shiftl_1_bit, Z.eqb_refl, orb_true_r, lookup_delete_eq by lia. by rewrite bool_decide_false by (by intros []).
Qed.

Lemma run_op_spec m o :
  consistent m -> allowed (pending m) o ->
  exists r m', run_op o m = Some (r, m') /\ consistent m' /\ spec_step (pending m) o (pending m') r.
Proof.
  intros Hc Ha. destruct o as [item|s|s]; cbn [run_op].
  - destruct (acquire_spec item m Hc) as (s & m' & -> & Hc' & [(-> & E & H) | (Hs & Hn & E)]);
      eexists _, _; (split; [done|]; split; [done|]); rewrite E; by constructor.
  - destruct (release_spec s m Hc Ha) as (m' & -> & Hc' & E). eexists _, _. split; [done|]. split; [done|]. rewrite E. by constructor.
  - eexists _, _. split; [done|]. split; [done|]. constructor.
Qed.

Lemma reachable_consistent m : reachable m -> consistent m.
Proof.
  induction 1 as [|m o r m' _ IH Ha E]; [apply new_consistent|].
  destruct (run_op_spec m o IH Ha) as (r' & m2 & E' & Hc & _). by simplify_eq.
Qed.

(** C24: stream ids are allocated correctly.  In every state that operations lead to, each
    operation that releases only ids in use completes without failing an assertion and behaves
    as the abstract allocator: an id that is handed out is in range and belongs to no other
    request in flight, a response finds the request it was sent for, and a released id is free
    again.  A request gets no id exactly when all 32768 are in use. *)
Theorem stream_manager_refines m :
  reachable m ->
  (forall o, allowed (pending m) o -> exists r m', run_op o m = Some (r, m') /\ spec_step (pending m) o (pending m') r) /\
  (forall item, fst (acquire item m) = -1 <-> available_streams m = 0).
Proof.
  intros Hm. apply reachable_consistent in Hm. split.
  - intros o Ho. destruct (run_op_spec m o Hm Ho) as (r & m' & E & _ & H). by eexists _, _.
  - intros item. unfold available_streams. destruct (acquire_spec item m Hm) as (s & m' & -> & _ & H). cbn [fst].
    pose proof (pending_full m Hm) as Hfull. split.
    + intros ->. destruct H as [(_ & _ & H) | ([H _] & _)]; [|lia]. apply Hfull in H. lia.
    + intros E. destruct H as [(-> & _) | (Hs & Hn & _)]; [done|exfalso]. destruct Hfull as [_ Hfull].
      destruct (Hfull ltac:(lia) s Hs) as [x Hx]. congruence.
Qed.
End manager.

(** Two requests, the first of which is answered. *)
Lemma stream_manager_refines_witness :
  exists m : @StreamManager bool, reachable m /\ pending m !! 64 = Some false /\
  exists r m', run_op (Acquire true) m = Some (r, m') /\ spec_step (pending m) (Acquire true) (pending m') r.
Proof.
  pose (m1 := snd (acquire true (@new_stream_manager bool))). pose (m2 := snd (acquire false m1)).
  pose (m3 := default m2 (release_stream_id 0 m2)).
  assert (H1 : reachable m1) by (eapply (reachable_step _ (Acquire true) (Stream 0)); [constructor|done|vm_compute; reflexivity]).
  assert (H2 : reachable m2) by (eapply (reachable_step _ (Acquire false) (Stream 64)); [exact H1|done|vm_compute; reflexivity]).
  assert (H3 : reachable m3) by (eapply (reachable_step _ (Release 0) Released); [exact H2|by vm_compute; eexists|vm_compute; reflexivity]).
  exists m3. split; [exact H3|]. split; [vm_compute; reflexivity|].
  exact (proj1 (stream_manager_refines m3 H3) (Acquire true) I).
Defined.
