(* ===== verification/RetryPolicy.v ===== *)
(** The driver's retry policies (third-party/cpp-driver/src/retry_policy.{hpp,cpp}).

    [CassConsistency] and [CassWriteType] are the driver's enumerations, [RetryDecision] what a
    policy answers.  The virtual interface is the record [RetryPolicy]; its four implementations are
    values of it, the logging one over a child policy. *)
From S2P Require Import Prelude.

Inductive CassConsistency :=
| CASS_CONSISTENCY_UNKNOWN | CASS_CONSISTENCY_ANY | CASS_CONSISTENCY_ONE | CASS_CONSISTENCY_TWO
| CASS_CONSISTENCY_THREE | CASS_CONSISTENCY_QUORUM | CASS_CONSISTENCY_ALL
| CASS_CONSISTENCY_LOCAL_QUORUM | CASS_CONSISTENCY_EACH_QUORUM | CASS_CONSISTENCY_SERIAL
| CASS_CONSISTENCY_LOCAL_SERIAL | CASS_CONSISTENCY_LOCAL_ONE.

Inductive CassWriteType :=
| CASS_WRITE_TYPE_UNKNOWN | CASS_WRITE_TYPE_SIMPLE | CASS_WRITE_TYPE_BATCH
| CASS_WRITE_TYPE_UNLOGGED_BATCH | CASS_WRITE_TYPE_COUNTER | CASS_WRITE_TYPE_BATCH_LOG
| CASS_WRITE_TYPE_CAS | CASS_WRITE_TYPE_VIEW | CASS_WRITE_TYPE_CDC.

#[export] Instance CassConsistency_eq : EqDecision CassConsistency.
Proof. solve_decision. Defined.

#[export] Instance CassWriteType_eq : EqDecision CassWriteType.
Proof. solve_decision. Defined.

Inductive RetryDecisionType := RETURN_ERROR | RETRY | IGNORE.

#[export] Instance RetryDecisionType_eq : EqDecision RetryDecisionType.
Proof. solve_decision. Defined.

Record RetryDecision := {
  decision_type : RetryDecisionType;
  decision_consistency : CassConsistency;
  retry_current_host_ : bool
}.

#[export] Instance RetryDecision_eq : EqDecision RetryDecision.
Proof. solve_decision. Defined.

Definition return_error : RetryDecision :=
  {| decision_type := RETURN_ERROR; decision_consistency := CASS_CONSISTENCY_UNKNOWN; retry_current_host_ := false |}.
Definition retry (cl : CassConsistency) : RetryDecision :=
  {| decision_type := RETRY; decision_consistency := cl; retry_current_host_ := true |}.
Definition retry_next_host (cl : CassConsistency) : RetryDecision :=
  {| decision_type := RETRY; decision_consistency := cl; retry_current_host_ := false |}.
Definition ignore : RetryDecision :=
  {| decision_type := IGNORE; decision_consistency := CASS_CONSISTENCY_UNKNOWN; retry_current_host_ := false |}.

Definition max_likely_to_work (received : Z) : RetryDecision :=
  if 3 <=? received then retry CASS_CONSISTENCY_THREE
  else if received =? 2 then retry CASS_CONSISTENCY_TWO
  else if received =? 1 then retry CASS_CONSISTENCY_ONE
  else return_error.

(** The virtual functions of a policy, in the order of the header. *)
Record RetryPolicy := {
  on_read_timeout : CassConsistency -> Z -> Z -> bool -> Z -> RetryDecision;
  on_write_timeout : CassConsistency -> Z -> Z -> CassWriteType -> Z -> RetryDecision;
  on_unavailable : CassConsistency -> Z -> Z -> Z -> RetryDecision;
  on_request_error : CassConsistency -> Z -> RetryDecision
}.

(** ** The implementations *)

Definition DefaultRetryPolicy_on_read_timeout cl received required (data_recevied : bool) num_retries :=
  if negb (num_retries =? 0) then return_error
  else if (required <=? received) && negb data_recevied then retry cl
  else return_error.

Definition DefaultRetryPolicy_on_write_timeout cl (received required : Z) write_type num_retries :=
  if negb (num_retries =? 0) then return_error
  else if bool_decide (write_type = CASS_WRITE_TYPE_BATCH_LOG) then retry cl
  else return_error.

Definition DefaultRetryPolicy_on_unavailable cl (required alive : Z) num_retries :=
  if num_retries =? 0 then retry_next_host cl else return_error.

Definition DefaultRetryPolicy_on_request_error cl (num_retries : Z) := retry_next_host cl.

Definition DefaultRetryPolicy : RetryPolicy := {|
  on_read_timeout := DefaultRetryPolicy_on_read_timeout;
  on_write_timeout := DefaultRetryPolicy_on_write_timeout;
  on_unavailable := DefaultRetryPolicy_on_unavailable;
  on_request_error := DefaultRetryPolicy_on_request_error |}.

Definition DowngradingConsistencyRetryPolicy_on_read_timeout cl received required (data_recevied : bool) num_retries :=
  if negb (num_retries =? 0) then return_error
  else if bool_decide (cl = CASS_CONSISTENCY_SERIAL) || bool_decide (cl = CASS_CONSISTENCY_LOCAL_SERIAL)
  then return_error
  else if received <? required then max_likely_to_work received
  else if negb data_recevied then retry cl
  else return_error.

Definition DowngradingConsistencyRetryPolicy_on_write_timeout cl (received required : Z) write_type num_retries :=
  if negb (num_retries =? 0) then return_error
  else match write_type with
       | CASS_WRITE_TYPE_SIMPLE | CASS_WRITE_TYPE_BATCH => if 0 <? received then ignore else return_error
       | CASS_WRITE_TYPE_UNLOGGED_BATCH => max_likely_to_work received
       | CASS_WRITE_TYPE_BATCH_LOG => retry cl
       | _ => return_error
       end.

Definition DowngradingConsistencyRetryPolicy_on_unavailable (cl : CassConsistency) (required alive : Z) num_retries :=
  if negb (num_retries =? 0) then return_error else max_likely_to_work alive.

Definition DowngradingConsistencyRetryPolicy_on_request_error cl (num_retries : Z) := retry_next_host cl.

Definition DowngradingConsistencyRetryPolicy : RetryPolicy := {|
  on_read_timeout := DowngradingConsistencyRetryPolicy_on_read_timeout;
  on_write_timeout := DowngradingConsistencyRetryPolicy_on_write_timeout;
  on_unavailable := DowngradingConsistencyRetryPolicy_on_unavailable;
  on_request_error := DowngradingConsistencyRetryPolicy_on_request_error |}.

Definition FallthroughRetryPolicy : RetryPolicy := {|
  on_read_timeout _ _ _ _ _ := return_error;
  on_write_timeout _ _ _ _ _ := return_error;
  on_unavailable _ _ _ _ := return_error;
  on_request_error _ _ := return_error |}.

(** The logging policy answers what its child answers; the lines it writes are not modelled. *)
Definition LoggingRetryPolicy (child : RetryPolicy) : RetryPolicy := {|
  on_read_timeout cl received required data n := on_read_timeout child cl received required data n;
  on_write_timeout cl received required wt n := on_write_timeout child cl received required wt n;
  on_unavailable cl required alive n := on_unavailable child cl required alive n;
  on_request_error cl n := on_request_error child cl n |}.

(** The policies a session can be given: a logging policy is not put over a logging policy
    ([cass_retry_policy_logging_new] returns null). *)
Inductive policy_type := DEFAULT | DOWNGRADING | FALLTHROUGH | LOGGING (child : policy_type).

Definition cass_retry_policy_logging_new (child : policy_type) : option policy_type :=
  match child with
  | LOGGING _ => None
  | _ => Some (LOGGING child)
  end.

Fixpoint policy_of (t : policy_type) : RetryPolicy :=
  match t with
  | DEFAULT => DefaultRetryPolicy
  | DOWNGRADING => DowngradingConsistencyRetryPolicy
  | FALLTHROUGH => FallthroughRetryPolicy
  | LOGGING child => LoggingRetryPolicy (policy_of child)
  end.

(** ** Properties *)

(** The replicas a consistency level asks for, where the number does not depend on the cluster. *)
Definition replicas_needed (cl : CassConsistency) : option Z :=
  match cl with
  | CASS_CONSISTENCY_ONE | CASS_CONSISTENCY_LOCAL_ONE => Some 1
  | CASS_CONSISTENCY_TWO => Some 2
  | CASS_CONSISTENCY_THREE => Some 3
  | _ => None
  end.

(** A decision that is an error, or a retry on the same host at a level that [n] replicas meet. *)
Definition within (n : Z) (d : RetryDecision) : Prop :=
  d = return_error \/
  exists cl k, d = retry cl /\ replicas_needed cl = Some k /\ 1 <= k <= n.

Lemma max_likely_within n : within n (max_likely_to_work n).
Proof.
  unfold max_likely_to_work. repeat case_match; [right; eexists _, _..|by left];
    (split; [done|]); (split; [done|]); lia.
Qed.

(** The policy with the logging taken off. *)
Fixpoint unlogged (t : policy_type) : policy_type :=
  match t with LOGGING child => unlogged child | _ => t end.

Lemma policy_of_unlogged t :
  let p := policy_of t in
  let q := policy_of (unlogged t) in
  (forall cl a b d n, on_read_timeout p cl a b d n = on_read_timeout q cl a b d n) /\
  (forall cl a b w n, on_write_timeout p cl a b w n = on_write_timeout q cl a b w n) /\
  (forall cl a b n, on_unavailable p cl a b n = on_unavailable q cl a b n) /\
  (forall cl n, on_request_error p cl n = on_request_error q cl n).
Proof. induction t as [| | |t IH]; cbn; [by split_and!..|exact IH]. Qed.

Lemma unlogged_cases t : unlogged t = DEFAULT \/ unlogged t = DOWNGRADING \/ unlogged t = FALLTHROUGH.
Proof. induction t as [| | |t IH]; cbn; auto. Qed.

(** Reason on a policy by cases on the policy under the logging. *)
Ltac by_policy t :=
  let H := fresh in
  destruct (policy_of_unlogged t) as (Hrt & Hwt & Hun & Hre);
  rewrite ?Hrt, ?Hwt, ?Hun, ?Hre;
  destruct (unlogged_cases t) as [H | [H | H]]; rewrite H; cbn.

(** A policy never asks for a second retry after a timeout or an unavailable error. *)
Lemma no_second_retry t cl a b d w n :
  n <> 0 ->
  on_read_timeout (policy_of t) cl a b d n = return_error /\
  on_write_timeout (policy_of t) cl a b w n = return_error /\
  on_unavailable (policy_of t) cl a b n = return_error.
Proof.
  intros Hn. apply Z.eqb_neq in Hn.
  by_policy t; [unfold DefaultRetryPolicy_on_read_timeout, DefaultRetryPolicy_on_write_timeout,
    DefaultRetryPolicy_on_unavailable|unfold DowngradingConsistencyRetryPolicy_on_read_timeout,
    DowngradingConsistencyRetryPolicy_on_write_timeout, DowngradingConsistencyRetryPolicy_on_unavailable|];
    rewrite ?Hn; done.
Qed.

(** Every policy a session can have, under any number of logging wrappers, stays within what
    the cluster showed.  It never retries a timeout or an unavailable error a second time; a
    retry after a read timeout keeps the level (only when all replicas answered and none sent the
    data) or lowers it to one that the replicas that answered can meet; a retry after an
    unavailable error moves to the next host or lowers the level to the replicas that are alive;
    and a write timeout is ignored only by the downgrading policy, when a replica acknowledged a
    simple or batch write. *)
Theorem retry_policy_sound t cl a b d w n :
  let p := policy_of t in
  (n <> 0 -> on_read_timeout p cl a b d n = return_error /\
             on_write_timeout p cl a b w n = return_error /\
             on_unavailable p cl a b n = return_error) /\
  ((on_read_timeout p cl a b d n = retry cl /\ b <= a /\ d = false) \/
   within a (on_read_timeout p cl a b d n)) /\
  (on_unavailable p cl a b n = retry_next_host cl \/ within b (on_unavailable p cl a b n)) /\
  (decision_type (on_write_timeout p cl a b w n) = IGNORE <->
   unlogged t = DOWNGRADING /\ n = 0 /\ 0 < a /\
   (w = CASS_WRITE_TYPE_SIMPLE \/ w = CASS_WRITE_TYPE_BATCH)).
Proof.
  intros p. unfold p. split; [by apply no_second_retry|].
  by_policy t.
  - unfold DefaultRetryPolicy_on_read_timeout, DefaultRetryPolicy_on_write_timeout, DefaultRetryPolicy_on_unavailable.
    split_and!.
    + repeat case_match; [by right; left|left|by right; left]. by destruct d; [lia|split; [done|lia]].
    + case_match; [by left|by right; left].
    + repeat case_match; split; try done; by intros [? _].
  - unfold DowngradingConsistencyRetryPolicy_on_read_timeout, DowngradingConsistencyRetryPolicy_on_write_timeout,
      DowngradingConsistencyRetryPolicy_on_unavailable.
    split_and!.
    + repeat case_match; try (by right; left); [right; apply max_likely_within|].
      left. destruct d; [done|]. split; [done|lia].
    + right. case_match; [by left|apply max_likely_within].
    + destruct (Z.eqb_spec n 0); cbn [negb]; [|split; [done|intros (_ & ? & _); lia]].
      unfold max_likely_to_work. destruct w; repeat case_match; split; try done; try (intros (_ & _ & ? & [? | ?]); done || lia);
      intros _; split_and!; try done; try lia; auto.
  - split_and!; try (by right; left). split; [done|by intros [? _]].
Qed.

Lemma retry_policy_sound_witness :
  on_read_timeout (policy_of (LOGGING DOWNGRADING)) CASS_CONSISTENCY_QUORUM 2 3 false 1 = return_error.
Proof.
  apply (proj1 (retry_policy_sound (LOGGING DOWNGRADING) CASS_CONSISTENCY_QUORUM 2 3 false CASS_WRITE_TYPE_SIMPLE 1)).
  done.
Defined.
