(* ===== verification/Decoder.v ===== *)
(** Decoding of server responses (third-party/cpp-driver/src/decoder.{hpp,cpp}).

    A decoder is a window - [input], [remaining] - on the memory that holds the response.  A
    decoding function succeeds with a value and an advanced window, fails (returns false), throws
    what a container throws when it is asked for an impossible size, or reads outside of the
    memory ([Fault]).  [remaining] is a [size_t] and wraps around. *)
From stdpp Require Import gmap.
From S2P Require Import Prelude RetryPolicy InetUtil Serialization.
#[local] Open Scope Z_scope.

Record decoder := {
  mem : bytes;
  input : Z;
  remaining : Z;
  supports_v5 : bool; (* protocol_version_ >= CASS_PROTOCOL_VERSION_V5 *)
  is_null : bool (* input_ == NULL *)
}.

Inductive decoded (A : Type) :=
| Ok (a : A) (d : decoder)
| Failed
| Thrown
| Fault.
Arguments Ok {A} _ _. Arguments Failed {A}. Arguments Thrown {A}. Arguments Fault {A}.

Definition dec (A : Type) : Type := decoder -> decoded A.

Definition ret {A} (a : A) : dec A := fun d => Ok a d.
Definition fail {A} : dec A := fun _ => Failed.
Definition throw {A} : dec A := fun _ => Thrown.

Definition bind {A B} (m : dec A) (f : A -> dec B) : dec B := fun d =>
  match m d with
  | Ok a d' => f a d'
  | Failed => Failed
  | Thrown => Thrown
  | Fault => Fault
  end.

Declare Scope dec_scope.
Delimit Scope dec_scope with dec.
Notation "'let!' x ':=' m 'in' k" := (bind m (fun x => k)) (at level 10, x name, m at level 100, k at level 200) : dec_scope.
Notation "m ';;;' k" := (bind m (fun _ => k)) (at level 199, k at level 200, right associativity) : dec_scope.
#[local] Open Scope dec_scope.

(** ** Primitives *)

Definition SIZE_MAX : Z := 2 ^ 64 - 1.

(** [CHECK_REMAINING] *)
Definition check_remaining (size : Z) : dec unit := fun d =>
  if remaining d <? wrapU 64 size then Failed else Ok tt d.

(** The [n] bytes at the window's start. *)
Definition peek (n : Z) : dec bytes := fun d =>
  if (0 <=? input d) && (input d + n <=? zlen (mem d))
  then Ok (take (Z.to_nat n) (drop (Z.to_nat (input d)) (mem d))) d else Fault.

(** [input_ += n; remaining_ -= n] *)
Definition advance (n : Z) : dec unit := fun d => Ok tt {|
  mem := mem d; input := input d + n; remaining := wrapU 64 (remaining d - n);
  supports_v5 := supports_v5 d; is_null := is_null d |}.

(** A checked read of a fixed number of bytes. *)
Definition read (n : Z) : dec bytes :=
  (check_remaining n;;; let! b := peek n in advance n;;; ret b).

(** ** Fixed-size values *)

Definition d_byte : dec Z := let! b := read 1 in ret (decode_byte b).
Definition d_int8 : dec Z := let! b := read 1 in ret (decode_int8 b).
Definition d_uint16 : dec Z := let! b := read 2 in ret (decode_uint16 b).
Definition d_int16 : dec Z := let! b := read 2 in ret (decode_int16 b).
Definition d_uint32 : dec Z := let! b := read 4 in ret (decode_uint32 b).
Definition d_int32 : dec Z := let! b := read 4 in ret (decode_int32 b).
Definition d_int64 : dec Z := let! b := read 8 in ret (decode_int64 b).
Definition d_uuid : dec CassUuid := let! b := read 16 in ret (decode_uuid b).

(** Values read in place, at the front of the window. *)
Definition as_byte : dec Z := (check_remaining 1;;; let! b := peek 1 in ret (decode_byte b)).
Definition as_bool : dec bool := let! v := as_byte in ret (negb (v =? 0)).
Definition as_int8 : dec Z := (check_remaining 1;;; let! b := peek 1 in ret (decode_int8 b)).
Definition as_uint32 : dec Z := (check_remaining 4;;; let! b := peek 4 in ret (decode_uint32 b)).
Definition as_int16 : dec Z := (check_remaining 2;;; let! b := peek 2 in ret (decode_int16 b)).
Definition as_int32 : dec Z := (check_remaining 4;;; let! b := peek 4 in ret (decode_int32 b)).
Definition as_int64 : dec Z := (check_remaining 8;;; let! b := peek 8 in ret (decode_int64 b)).
Definition as_uuid : dec CassUuid := (check_remaining 16;;; let! b := peek 16 in ret (decode_uuid b)).

(** ** Strings and byte arrays *)

Definition d_string : dec bytes :=
  let! string_size := d_uint16 in read string_size.

(** A negative size is converted to [size_t] by the check. *)
Definition d_long_string : dec bytes :=
  let! string_size := d_int32 in read string_size.

(** [None] is a null pointer. *)
Definition d_bytes : dec (option bytes) :=
  let! bytes_size := d_int32 in
  if bytes_size <? 0 then ret None else let! b := read bytes_size in ret (Some b).

(** A loop that decodes [n] elements. *)
Fixpoint d_repeat {A} (n : nat) (m : dec A) : dec (list A) :=
  match n with
  | O => ret []
  | S n' => let! a := m in let! l := d_repeat n' m in ret (a :: l)
  end.

Definition d_counted {A} (m : dec A) : dec (list A) :=
  let! count := d_uint16 in d_repeat (Z.to_nat count) m.

Definition d_stringlist : dec (list bytes) := d_counted d_string.

(** [std::map::insert] keeps the value of a key that is already there. *)
Definition map_insert {V} (m : gmap bytes V) (kv : bytes * V) : gmap bytes V :=
  if m !! kv.1 is Some _ then m else <[kv.1 := kv.2]> m.
Definition map_of {V} (l : list (bytes * V)) : gmap bytes V := fold_left map_insert l ∅.

Definition d_string_map : dec (gmap bytes bytes) :=
  let! l := d_counted (let! key := d_string in let! value := d_string in ret (key, value)) in ret (map_of l).
Definition d_string_multimap : dec (gmap bytes (list bytes)) :=
  let! l := d_counted (let! key := d_string in let! value := d_stringlist in ret (key, value)) in ret (map_of l).

(** The list is read without moving the window: [total_read] bytes of it are behind. *)
Fixpoint stringlist_loop (n : nat) (total_read : Z) : dec (list bytes) :=
  match n with
  | O => ret []
  | S n' =>
      (check_remaining (total_read + 2);;;
       let! b := peek (total_read + 2) in
       let string_size := decode_uint16 (drop (Z.to_nat total_read) b) in
       check_remaining (total_read + 2 + string_size);;;
       let! s := peek (total_read + 2 + string_size) in
       let! l := stringlist_loop n' (total_read + 2 + string_size) in
       ret (drop (Z.to_nat (total_read + 2)) s :: l))
  end.

Definition as_stringlist : dec (list bytes) :=
  (check_remaining 2;;; let! b := peek 2 in stringlist_loop (Z.to_nat (decode_uint16 b)) 2).

Definition d_custom_payload : dec (list (bytes * option bytes)) :=
  d_counted (let! name := d_string in let! value := d_bytes in ret (name, value)).
Definition d_warnings : dec (list bytes) := d_counted d_string.

(** [CASS_VALUE_TYPE_CUSTOM] is 0. *)
Definition d_option : dec (Z * option bytes) :=
  let! type := d_uint16 in
  if type =? 0 then let! class_name := d_string in ret (type, Some class_name) else ret (type, None).

(** ** Addresses *)

Definition d_inet : dec CassInet :=
  let! address_length := d_byte in
  if CASS_INET_V6_LENGTH <? address_length then fail
  else let! b := read address_length in ret {| inet_address := b; address_length := address_length |}.

(** [Address(address, address_length, port)] and [is_valid_and_resolved]: 4 or 16 bytes. *)
Definition d_inet_address : dec (CassInet * Z) :=
  let! inet := d_inet in
  let! port := d_int32 in
  if (address_length inet =? 4) || (address_length inet =? 16) then ret (inet, port) else fail.

Definition as_inet (address_length : Z) : dec CassInet :=
  let length := wrapU 8 address_length in
  if CASS_INET_V6_LENGTH <? length then fail
  else (check_remaining length;;; let! b := peek length in ret {| inet_address := b; address_length := length |}).

Definition d_write_type : dec CassWriteType :=
  let! write_type := d_string in
  if bool_decide (write_type = bs "SIMPLE") then ret CASS_WRITE_TYPE_SIMPLE
  else if bool_decide (write_type = bs "BATCH") then ret CASS_WRITE_TYPE_BATCH
  else if bool_decide (write_type = bs "UNLOGGED_BATCH") then ret CASS_WRITE_TYPE_UNLOGGED_BATCH
  else if bool_decide (write_type = bs "COUNTER") then ret CASS_WRITE_TYPE_COUNTER
  else if bool_decide (write_type = bs "BATCH_LOG") then ret CASS_WRITE_TYPE_BATCH_LOG
  else if bool_decide (write_type = bs "CAS") then ret CASS_WRITE_TYPE_CAS
  else if bool_decide (write_type = bs "VIEW") then ret CASS_WRITE_TYPE_VIEW
  else if bool_decide (write_type = bs "CDC") then ret CASS_WRITE_TYPE_CDC
  else fail.

(** [output.reserve(output_size)] throws for a size that is negative. *)
Definition d_failures : dec (list (CassInet * Z) * Z) :=
  let! output_size := d_int32 in
  fun d =>
    if supports_v5 d then
      (if output_size <? 0 then throw
       else let! l := d_repeat (Z.to_nat output_size)
                        (let! endpoint := d_inet in let! failurecode := d_uint16 in ret (endpoint, failurecode)) in
            ret (l, output_size)) d
    else ret ([], output_size) d.

(** ** Variable-length integers *)

Definition d_vint : dec Z :=
  let! first := read 1 in
  let first_byte := u8 (char_at first 0) in
  if first_byte <=? 127 then ret first_byte
  else
    let extra_bytes := vint_extra first_byte in
    let! b := read extra_bytes in
    ret (vint_value (Z.land first_byte (Z.shiftr 255 extra_bytes)) b).

Definition as_decimal : dec (bytes * Z) :=
  (check_remaining 4;;; let! b := peek 4 in
   fun d => if wrapU 64 (remaining d - 4) =? 0 then Failed
            else (let! all := peek (remaining d) in ret (drop 4 all, decode_int32 b)) d).

(** The decoder is copied: the window of the value does not move. *)
Definition as_duration : dec CassDuration := fun d =>
  match (let! m := d_vint in
         let! dd := d_vint in
         let! n := d_vint in
         ret {| months := wrapS 32 (decode_zig_zag m); days := wrapS 32 (decode_zig_zag dd);
                nanos := decode_zig_zag n |}) d with
  | Ok r _ => Ok r d
  | x => x
  end.

(** ** Values *)

(** What values ask about a data type; [field_count] is the number of types of a tuple or of
    fields of a user type. *)
Record DataType := { is_collection : bool; is_string_or_bytes : bool; field_count : option Z }.

Record Value := {
  data_type : option DataType;
  count : Z;
  value_decoder : decoder;
  value_is_null : bool
}.

(** [Decoder()] *)
Definition null_decoder : decoder :=
  {| mem := []; input := 0; remaining := 0; supports_v5 := false; is_null := true |}.

(** The constructors of [Value]: invalid, null, regular, collection. *)
Definition invalid_value : Value :=
  {| data_type := None; count := 0; value_decoder := null_decoder; value_is_null := false |}.
Definition null_value (t : DataType) : Value :=
  {| data_type := Some t; count := 0; value_decoder := null_decoder; value_is_null := true |}.
Definition regular_value (t : DataType) (d : decoder) : Value :=
  {| data_type := Some t; count := default 0 (field_count t); value_decoder := d; value_is_null := false |}.
Definition collection_value (t : DataType) (n : Z) (d : decoder) : Value :=
  {| data_type := Some t; count := n; value_decoder := d; value_is_null := false |}.

(** [Value::update]: whether it succeeded, and the value; a scalar keeps its count. *)
Definition value_update (t : DataType) (d : decoder) (v : Value) : decoded (bool * Value) :=
  let with_count n d' := {| data_type := Some t; count := n; value_decoder := d'; value_is_null := is_null d |} in
  if negb (is_null d) then
    if is_collection t then
      match d_int32 d with
      | Ok n d' => Ok (true, with_count n d') d'
      | Failed => Ok (false, with_count (count v) d) d
      | Thrown => Thrown
      | Fault => Fault
      end
    else Ok (true, with_count (default (count v) (field_count t)) d) d
  else Ok (true, with_count 0 d) d.

(** The sub-decoder of [size] bytes, which the source does not compare with what remains. *)
Definition sub_decoder (size : Z) (d : decoder) : decoder := {|
  mem := mem d; input := input d; remaining := size; supports_v5 := supports_v5 d; is_null := is_null d |}.

Definition decode_value (t : DataType) : dec Value := fun d0 =>
  match d_int32 d0 with
  | Ok size d =>
      if 0 <=? size then
        let sub := sub_decoder size d in
        (advance size;;; fun d =>
           if negb (is_collection t) then
             if negb (is_string_or_bytes t) && (size =? 0) then Ok (null_value t) d else Ok (regular_value t sub) d
           else match d_int32 sub with
                | Ok n sub' => Ok (collection_value t n sub') d
                | Failed => Ok invalid_value d
                | Thrown => Thrown
                | Fault => Fault
                end) d
      else Ok (null_value t) d
  | Failed => Ok invalid_value d0
  | Thrown => Thrown
  | Fault => Fault
  end.

Definition update_value (t : DataType) (v : Value) : dec (bool * Value) := fun d0 =>
  match d_int32 d0 with
  | Ok size d =>
      if 0 <=? size then
        let sub := sub_decoder size d in
        (advance size;;; fun d =>
           match value_update t sub v with
           | Ok r _ => Ok r d
           | Failed => Failed
           | Thrown => Thrown
           | Fault => Fault
           end) d
      else match value_update t null_decoder v with
           | Ok r _ => Ok r d
           | Failed => Failed
           | Thrown => Thrown
           | Fault => Fault
           end
  | Failed => Ok (false, v) d0
  | Thrown => Thrown
  | Fault => Fault
  end.

(** ** Bounds *)

(** The window lies in the memory. *)
Definition in_bounds (d : decoder) : Prop :=
  0 <= input d /\ 0 <= remaining d < 2 ^ 63 /\ input d + remaining d <= zlen (mem d).

(** The window moved forward and still ends where it ended. *)
Definition advances (d d' : decoder) : Prop :=
  mem d' = mem d /\ supports_v5 d' = supports_v5 d /\ input d <= input d' /\
  input d' + remaining d' = input d + remaining d.

Definition safe {A} (m : dec A) (Q : A -> Prop) : Prop :=
  forall d, in_bounds d ->
  match m d with
  | Ok a d' => Q a /\ in_bounds d' /\ advances d d'
  | Failed => True
  | Thrown | Fault => False
  end.

Lemma advances_refl d : advances d d.
Proof. by split_and!. Qed.

Lemma advances_trans d1 d2 d3 : advances d1 d2 -> advances d2 d3 -> advances d1 d3.
Proof. intros (? & ? & ? & ?) (? & ? & ? & ?). split_and!; try congruence; lia. Qed.

Lemma safe_ret {A} (a : A) (Q : A -> Prop) : Q a -> safe (ret a) Q.
Proof. intros Ha d Hd. split_and!; try done. Qed.

Lemma safe_fail {A} (Q : A -> Prop) : safe fail Q.
Proof. by intros d Hd. Qed.

Lemma safe_bind {A B} (m : dec A) (f : A -> dec B) P Q :
  safe m P -> (forall a, P a -> safe (f a) Q) -> safe (bind m f) Q.
Proof.
  intros Hm Hf d Hd. unfold bind. specialize (Hm d Hd). destruct (m d) as [a d1| | |]; try done.
  destruct Hm as (Ha & Hd1 & H1). specialize (Hf a Ha d1 Hd1). destruct (f a d1) as [b d2| | |]; try done.
  destruct Hf as (Hb & Hd2 & H2). split_and!; [done..|]. by eapply advances_trans.
Qed.

Lemma safe_weaken {A} (m : dec A) (P Q : A -> Prop) : (forall a, P a -> Q a) -> safe m P -> safe m Q.
Proof.
  intros HPQ Hm d Hd. specialize (Hm d Hd). destruct (m d); try done. destruct Hm as (? & ? & ?). split_and!; auto.
Qed.

(** A checked read is in bounds for every size that an [int32_t], a [uint16_t] or a constant can
    hold: a negative one is larger than any window once converted. *)
Lemma check_remaining_cases n d :
  in_bounds d -> - 2 ^ 63 <= n < 2 ^ 63 ->
  check_remaining n d = if (0 <=? n) && (n <=? remaining d) then Ok tt d else Failed.
Proof.
  intros (Hi & Hr & Hl) Hn. unfold check_remaining. destruct (Z.leb_spec 0 n); cbn [andb].
  - rewrite wrapU_id by (unfold in_u; lia). destruct (Z.ltb_spec (remaining d) n), (Z.leb_spec n (remaining d)); try lia; done.
  - assert (E : wrapU 64 n = n + 2 ^ 64).
    { unfold wrapU. symmetry. apply Z.mod_unique with (q := -1); lia. }
    rewrite E. by replace (remaining d <? n + 2 ^ 64) with true by lia.
Qed.

Lemma peek_in n d :
  in_bounds d -> 0 <= n <= remaining d ->
  exists b, peek n d = Ok b d /\ zlen b = n /\ b = take (Z.to_nat n) (drop (Z.to_nat (input d)) (mem d)).
Proof.
  intros (Hi & Hr & Hl) Hn. unfold peek. replace (_ && _) with true by lia. eexists. split; [done|]. split; [|done].
  unfold zlen in *. rewrite length_take, length_drop. lia.
Qed.

Lemma read_cases n d :
  in_bounds d -> - 2 ^ 63 <= n < 2 ^ 63 ->
  (read n d = Failed /\ (n < 0 \/ remaining d < n)) \/
  (0 <= n <= remaining d /\ exists b d', read n d = Ok b d' /\ zlen b = n /\
     b = take (Z.to_nat n) (drop (Z.to_nat (input d)) (mem d)) /\
     in_bounds d' /\ advances d d' /\ input d' = input d + n).
Proof.
  intros Hd Hn. unfold read, bind. rewrite check_remaining_cases by done.
  destruct (Z.leb_spec 0 n); cbn [andb]; [|left; split; [done|lia]].
  destruct (Z.leb_spec n (remaining d)); [|left; split; [done|lia]].
  right. split; [done|]. destruct (peek_in n d Hd ltac:(lia)) as (b & -> & Hb & Eb). pose proof Hd as (Hi & Hr & Hl).
  eexists _, _. cbn. split; [done|]. split; [done|]. split; [done|].
  rewrite wrapU_id by (unfold in_u; lia). unfold in_bounds, advances. cbn. split_and!; try done; lia.
Qed.

Lemma safe_read n : - 2 ^ 63 <= n < 2 ^ 63 -> safe (read n) (fun b => zlen b = n).
Proof.
  intros Hn d Hd. destruct (read_cases n d Hd Hn) as [[-> _] | (_ & b & d' & -> & Hb & _ & Hd' & Ha & _)]; [done|].
  by split_and!.
Qed.

Lemma safe_peek {A} n (f : bytes -> A) :
  0 <= n < 2 ^ 63 -> safe (check_remaining n;;; let! b := peek n in ret (f b)) (fun _ => True).
Proof.
  intros Hn d Hd. unfold bind. rewrite check_remaining_cases by (done || lia).
  destruct (Z.leb_spec 0 n); cbn [andb]; [|done]. destruct (Z.leb_spec n (remaining d)); [|done].
  destruct (peek_in n d Hd ltac:(lia)) as (b & -> & _). by split_and!.
Qed.

Lemma safe_map {A B} (m : dec A) (f : A -> B) P Q : safe m P -> (forall a, P a -> Q (f a)) -> safe (let! a := m in ret (f a)) Q.
Proof. intros Hm Hf. eapply safe_bind; [exact Hm|]. intros a Ha. by apply safe_ret, Hf. Qed.

Create HintDb decoding.

Lemma safe_uint16 : safe d_uint16 (fun v => 0 <= v < 65536).
Proof. eapply safe_map; [apply safe_read; lia|]. intros b _. apply (wrapU_range 16). lia. Qed.

Lemma safe_int32 : safe d_int32 (fun v => - 2 ^ 31 <= v < 2 ^ 31).
Proof. eapply safe_map; [apply safe_read; lia|]. intros b _. apply (wrapS_range 32). lia. Qed.

Lemma safe_byte : safe d_byte (fun v => 0 <= v < 256).
Proof. eapply safe_map; [apply safe_read; lia|]. intros b _. apply u8_range. Qed.

Lemma safe_string : safe d_string (fun b => 0 <= zlen b < 65536).
Proof.
  eapply safe_bind; [apply safe_uint16|]. intros n Hn; cbn beta in Hn. eapply safe_weaken; [|apply safe_read; lia].
  cbn. intros b Hb. lia.
Qed.

Lemma safe_bytes : safe d_bytes (fun _ => True).
Proof.
  eapply safe_bind; [apply safe_int32|]. intros n Hn; cbn beta in Hn. case_match; [by apply safe_ret|].
  eapply safe_map; [apply safe_read; lia|]. done.
Qed.

Lemma safe_repeat {A} n (m : dec A) P : safe m P -> safe (d_repeat n m) (Forall P).
Proof.
  intros Hm. induction n as [|n IH]; [by apply safe_ret|]. cbn [d_repeat].
  eapply safe_bind; [exact Hm|]. intros a Ha. eapply safe_map; [exact IH|]. intros l Hl. by constructor.
Qed.

Lemma safe_counted {A} (m : dec A) P : safe m P -> safe (d_counted m) (Forall P).
Proof. intros Hm. eapply safe_bind; [apply safe_uint16|]. intros n _. by apply safe_repeat. Qed.

Lemma safe_inet : safe d_inet (fun i => 0 <= address_length i <= 16 /\ zlen (inet_address i) = address_length i).
Proof.
  eapply safe_bind; [apply safe_byte|]. intros n Hn; cbn beta in Hn. unfold CASS_INET_V6_LENGTH.
  destruct (Z.ltb_spec 16 n); [apply safe_fail|].
  eapply safe_map; [apply safe_read; lia|]. cbn. intros b Hb. lia.
Qed.

Lemma vint_extra_range f : 0 <= f < 256 -> 127 < f -> 1 <= vint_extra f <= 8.
Proof.
  intros Hf H. assert (E : (negb (127 <? f) || ((1 <=? vint_extra f) && (vint_extra f <=? 8))) = true) by (revert Hf; clear H; by_bytes f).
  lia.
Qed.

Lemma safe_vint : safe d_vint (fun _ => True).
Proof.
  eapply safe_bind; [apply safe_read; lia|]. intros first Hfirst; cbn beta in Hfirst. cbn zeta.
  pose proof (u8_range (char_at first 0)) as Hr. destruct (Z.leb_spec (u8 (char_at first 0)) 127); [by apply safe_ret|].
  pose proof (vint_extra_range _ Hr ltac:(lia)). eapply safe_map; [apply safe_read; lia|]. done.
Qed.

Lemma safe_decimal : safe as_decimal (fun _ => True).
Proof.
  intros d Hd. unfold as_decimal, bind. rewrite check_remaining_cases by (done || lia).
  destruct (Z.leb_spec 0 4); [|lia]. cbn [andb]. destruct (Z.leb_spec 4 (remaining d)); [|done].
  destruct (peek_in 4 d Hd ltac:(lia)) as (b & -> & _). destruct (wrapU 64 (remaining d - 4) =? 0); [done|].
  destruct (peek_in (remaining d) d Hd ltac:(destruct Hd; lia)) as (c & -> & _). by split_and!.
Qed.

Lemma safe_duration : safe as_duration (fun _ => True).
Proof.
  intros d Hd. unfold as_duration.
  match goal with |- context [match ?m d with _ => _ end] => assert (Hs : safe m (fun _ => True)) end.
  { eapply safe_bind; [apply safe_vint|]. intros m _. eapply safe_bind; [apply safe_vint|]. intros dd _.
    eapply safe_map; [apply safe_vint|]. done. }
  specialize (Hs d Hd). by destruct (bind _ _ d).
Qed.

(** In one step: a checked look at the first [n] bytes. *)
Lemma look_cases {A} n (f : bytes -> dec A) d :
  in_bounds d -> 0 <= n < 2 ^ 64 ->
  (check_remaining n;;; let! b := peek n in f b) d = Failed \/
  (n <= remaining d /\ exists b, zlen b = n /\ (check_remaining n;;; let! b := peek n in f b) d = f b d).
Proof.
  intros Hd Hn. unfold bind. unfold check_remaining. rewrite wrapU_id by (unfold in_u; lia).
  destruct (Z.ltb_spec (remaining d) n); [by left|].
  right. split; [done|]. destruct (peek_in n d Hd ltac:(lia)) as (b & -> & Hb & _). by exists b.
Qed.

Ltac look Hle b :=
  match goal with Hd : in_bounds ?d |- context [bind (check_remaining ?n) (fun _ => bind (peek ?n) ?f) ?d] =>
    destruct (look_cases n f d Hd ltac:(lia)) as [-> | (Hle & b & _ & ->)]; [done|]
  end.

Lemma decode_uint16_range b : 0 <= decode_uint16 b < 65536.
Proof. apply (wrapU_range 16). lia. Qed.

Lemma stringlist_loop_safe n : forall total d,
  in_bounds d -> 0 <= total <= remaining d ->
  match stringlist_loop n total d with Ok _ d' => d' = d | Failed => True | Thrown | Fault => False end.
Proof.
  induction n as [|n IH]; intros total d Hd Ht; [done|]. cbn [stringlist_loop]. pose proof Hd as (_ & Hr & _).
  look Hle b. pose proof (decode_uint16_range (drop (Z.to_nat total) b)). cbn zeta. set (k := decode_uint16 _) in *.
  look Hle2 c. unfold bind. specialize (IH (total + 2 + k) d Hd ltac:(lia)). by destruct (stringlist_loop n (total + 2 + k) d).
Qed.

Lemma safe_as_stringlist : safe as_stringlist (fun _ => True).
Proof.
  intros d Hd. unfold as_stringlist.
  look Hle b.
  pose proof (stringlist_loop_safe (Z.to_nat (decode_uint16 b)) 2 d Hd ltac:(lia)) as H.
  destruct (stringlist_loop _ _ d); try done. by subst.
Qed.

Lemma safe_write_type : safe d_write_type (fun _ => True).
Proof.
  eapply safe_bind; [apply safe_string|]. intros s _. repeat case_match; try (by apply safe_ret). apply safe_fail.
Qed.

Lemma safe_pair {A B} (m1 : dec A) (m2 : dec B) P1 P2 :
  safe m1 P1 -> safe m2 P2 -> safe (let! a := m1 in let! b := m2 in ret (a, b)) (fun _ => True).
Proof. intros H1 H2. eapply safe_bind; [exact H1|]. intros a _. eapply safe_map; [exact H2|]. done. Qed.

#[local] Hint Resolve safe_uint16 safe_int32 safe_byte safe_string safe_bytes safe_inet safe_vint safe_decimal
  safe_duration safe_as_stringlist safe_write_type safe_pair safe_counted : decoding.

Definition any {A} : A -> Prop := fun _ => True.

Lemma safe_any {A} (m : dec A) P : safe m P -> safe m any.
Proof. by apply safe_weaken. Qed.

(** ** Values *)

Lemma advance_in n d : in_bounds d -> 0 <= n <= remaining d -> exists d', advance n d = Ok tt d' /\ in_bounds d'.
Proof.
  intros (Hi & Hr & Hl) Hn. eexists. split; [done|]. unfold in_bounds. cbn.
  rewrite wrapU_id by (unfold in_u; lia). lia.
Qed.

Lemma sub_in_bounds size d : in_bounds d -> 0 <= size <= remaining d -> in_bounds (sub_decoder size d).
Proof. intros (Hi & Hr & Hl) Hn. unfold in_bounds. cbn. lia. Qed.

Lemma null_in_bounds : in_bounds null_decoder.
Proof. by vm_compute. Qed.

Lemma value_update_in_bounds t d v :
  in_bounds d -> exists b v' d', value_update t d v = Ok (b, v') d' /\ in_bounds (value_decoder v').
Proof.
  intros Hd. unfold value_update. destruct (is_null d); cbn [negb]; [by eexists _, _, _|].
  destruct (is_collection t); [|by eexists _, _, _]. pose proof (safe_int32 d Hd) as H.
  destruct (d_int32 d); try done; [|by eexists _, _, _]. eexists _, _, _. split; [done|]. apply H.
Qed.

(** A response of four bytes that claims a value of eight. *)
Definition short_response : decoder :=
  {| mem := [0; 0; 0; 8]; input := 0; remaining := 4; supports_v5 := false; is_null := false |}.
Definition bigint_type : DataType := {| is_collection := false; is_string_or_bytes := false; field_count := None |}.

(** The size a response claims for a value is that of bytes it has. *)
Definition value_fits (d : decoder) : Prop := match d_int32 d with Ok size d1 => size <= remaining d1 | _ => True end.

Lemma int32_not_thrown d : d_int32 d <> Thrown.
Proof.
  unfold d_int32, read, bind, check_remaining. destruct (remaining d <? wrapU 64 4); [done|]. unfold peek. by destruct (_ && _).
Qed.

(** The remaining bytes behind a value that does not fit wrap around. *)
Lemma advance_past size d : in_bounds d -> size < 2 ^ 31 -> remaining d < size -> exists d', advance size d = Ok tt d' /\ 2 ^ 63 < remaining d'.
Proof.
  intros (Hi & Hr & Hl) Hs Hgt. eexists. split; [done|]. cbn.
  replace (wrapU 64 (remaining d - size)) with (remaining d - size + 2 ^ 64); [lia|]. unfold wrapU. apply Z.mod_unique with (q := -1); lia.
Qed.

Lemma decode_value_bounds t d : in_bounds d ->
  (value_fits d -> exists v d', decode_value t d = Ok v d' /\ in_bounds d' /\ in_bounds (value_decoder v)) /\
  (~ value_fits d -> match decode_value t d with Ok _ d' => 2 ^ 63 < remaining d' | Fault => is_collection t = true | _ => False end).
Proof.
  intros Hd. pose proof (safe_int32 d Hd) as H32. unfold value_fits, decode_value. destruct (d_int32 d) as [size d1| | |] eqn:E; try done.
  2:{ split; [intros _; eexists _, _; split; [done|]; split; [done|apply null_in_bounds]|by intros []]. }
  destruct H32 as (Hs & Hd1 & _); cbn beta in Hs. pose proof Hd1 as (_ & Hr1 & _). split; intros Hf; (destruct (Z.leb_spec 0 size); [|first [lia | eexists _, _; split; [done|]; split; [done|apply null_in_bounds]]]); unfold bind.
  - destruct (advance_in size d1 Hd1 ltac:(lia)) as (d2 & -> & Hd2). pose proof (sub_in_bounds size d1 Hd1 ltac:(lia)) as Hsub. destruct (is_collection t); cbn [negb].
    + pose proof (safe_int32 _ Hsub) as Hc. destruct (d_int32 (sub_decoder size d1)) as [c w| | |]; try done.
      * eexists _, _. split; [done|]. split; [done|]. by destruct Hc as (_ & ? & _).
      * eexists _, _. split; [done|]. split; [done|]. apply null_in_bounds.
    + case_match; eexists _, _; (split; [done|]; split; [done|]); [apply null_in_bounds|done].
  - destruct (advance_past size d1 Hd1 ltac:(lia) ltac:(lia)) as (d2 & -> & Hd2). destruct (is_collection t); cbn [negb]; [|by destruct (_ && _)].
    pose proof (int32_not_thrown (sub_decoder size d1)). by destruct (d_int32 (sub_decoder size d1)).
Qed.

Lemma update_value_bounds t v0 d : in_bounds d ->
  (value_fits d -> exists b v d', update_value t v0 d = Ok (b, v) d' /\ in_bounds d' /\ (b = true -> in_bounds (value_decoder v))) /\
  (~ value_fits d -> match update_value t v0 d with Ok _ d' => 2 ^ 63 < remaining d' | Fault => is_collection t = true | _ => False end).
Proof.
  intros Hd. pose proof (safe_int32 d Hd) as H32. unfold value_fits, update_value. destruct (d_int32 d) as [size d1| | |] eqn:E; try done.
  2:{ split; [intros _; by eexists _, _, _|by intros []]. }
  destruct H32 as (Hs & Hd1 & _); cbn beta in Hs. pose proof Hd1 as (_ & Hr1 & _). split; intros Hf; (destruct (Z.leb_spec 0 size); [|try lia]); unfold bind.
  - destruct (advance_in size d1 Hd1 ltac:(lia)) as (d2 & -> & Hd2). destruct (value_update_in_bounds t _ v0 (sub_in_bounds size d1 Hd1 ltac:(lia))) as (b & v & w & -> & Hv). by eexists _, _, _.
  - destruct (value_update_in_bounds t _ v0 null_in_bounds) as (b & v & w & -> & Hv). by eexists _, _, _.
  - destruct (advance_past size d1 Hd1 ltac:(lia) ltac:(lia)) as (d2 & -> & Hd2). unfold value_update. destruct (negb _), (is_collection t); try done.
    pose proof (int32_not_thrown (sub_decoder size d1)). by destruct (d_int32 (sub_decoder size d1)).
Qed.

(** C18: decoding and the bounds of the response.  Every decoding function but two, on any memory and
    any window in it, returns a value with a window that still ends at the same place and lies in
    the memory, or reports failure; it reads nothing outside of the memory, whatever sizes and
    counts the response claims.  The list of failures of a protocol v5 error alone can throw,
    exactly when its count is negative.  The two are those of a column's value, which do not compare
    its size with the bytes left: [decode_value] and [update_value] give windows in the memory when
    the size fits; when it does not, the count of the remaining bytes wraps around to more than
    2^63, or the count of a collection's elements is read outside of the memory.  A response of four
    bytes that claims a bigint makes reading it fault. *)
Theorem decoding_in_bounds :
  (safe d_byte any /\ safe d_int8 any /\ safe d_uint16 any /\ safe d_int16 any /\ safe d_uint32 any /\
  safe d_int32 any /\ safe d_int64 any /\ safe d_uuid any /\ safe d_string any /\ safe d_long_string any /\
  safe d_bytes any /\ safe d_stringlist any /\ safe d_string_map any /\ safe d_string_multimap any /\
  safe d_custom_payload any /\ safe d_warnings any /\ safe d_option any /\ safe d_inet any /\
  safe d_inet_address any /\ (forall n, safe (as_inet n) any) /\ safe d_write_type any /\ safe d_vint any /\
  safe as_decimal any /\ safe as_duration any /\ safe as_stringlist any /\ safe as_bool any /\ safe as_int8 any /\ safe as_uint32 any /\
  safe as_int16 any /\ safe as_int32 any /\
  safe as_int64 any /\ safe as_uuid any /\
  (forall d, in_bounds d -> d_failures d <> Fault /\
     (d_failures d = Thrown <-> supports_v5 d = true /\ exists n d', d_int32 d = Ok n d' /\ n < 0))) /\
  (forall t d, in_bounds d ->
     (value_fits d -> exists v d', decode_value t d = Ok v d' /\ in_bounds d' /\ in_bounds (value_decoder v)) /\
     (~ value_fits d -> match decode_value t d with Ok _ d' => 2 ^ 63 < remaining d' | Fault => is_collection t = true | _ => False end)) /\
  (forall t v0 d, in_bounds d ->
     (value_fits d -> exists b v d', update_value t v0 d = Ok (b, v) d' /\ in_bounds d' /\ (b = true -> in_bounds (value_decoder v))) /\
     (~ value_fits d -> match update_value t v0 d with Ok _ d' => 2 ^ 63 < remaining d' | Fault => is_collection t = true | _ => False end)) /\
  (in_bounds short_response /\ exists v d, decode_value bigint_type short_response = Ok v d /\ as_int64 (value_decoder v) = Fault).
Proof.
  assert (Hread : forall A n (f : bytes -> A), 0 <= n < 100 -> safe (let! b := read n in ret (f b)) any).
  { intros A n f Hn. eapply safe_map; [apply safe_read; lia|done]. }
  assert (Hpair : safe (let! e := d_inet in let! c := d_uint16 in ret (e, c)) any) by (eapply safe_pair; auto with decoding).
  split; [|split; [exact decode_value_bounds|split; [exact update_value_bounds|split; [repeat split; vm_compute; congruence|eexists _, _; split; reflexivity]]]].
  split_and!; try (by apply Hread; lia); try (by eapply safe_any; auto with decoding); try (by apply safe_peek; lia).
  - eapply safe_bind; [apply safe_int32|]. intros n Hn; cbn beta in Hn. eapply safe_any, safe_read. lia.
  - eapply safe_any, safe_counted; auto with decoding.
  - eapply safe_map; [eapply safe_counted, safe_pair; auto with decoding|done].
  - eapply safe_map; [eapply safe_counted, safe_pair; [auto with decoding|eapply safe_counted; auto with decoding]|done].
  - eapply safe_any, safe_counted, safe_pair; auto with decoding.
  - eapply safe_any, safe_counted; auto with decoding.
  - eapply safe_bind; [apply safe_uint16|]. intros t _. case_match; [|by apply safe_ret].
    eapply safe_map; [apply safe_string|done].
  - eapply safe_bind; [apply safe_inet|]. intros i _. eapply safe_bind; [apply safe_int32|]. intros p _.
    case_match; [by apply safe_ret|apply safe_fail].
  - intros n. unfold as_inet, CASS_INET_V6_LENGTH. case_match; [apply safe_fail|].
    apply safe_peek. pose proof (wrapU_range 8 n ltac:(lia)) as Hr. unfold in_u in Hr. lia.
  - eapply safe_bind; [apply (safe_peek 1); lia|]. intros v _. by apply safe_ret.
  - intros d Hd. unfold d_failures, bind. pose proof (safe_int32 d Hd) as H32.
    destruct (d_int32 d) as [n d1| | |] eqn:E1; try done; [|split; [done|split; [done|intros (_ & ? & ? & ? & _); done]]].
    destruct H32 as (_ & Hd1 & Ha). destruct Ha as (_ & Hv & _). rewrite Hv.
    destruct (supports_v5 d); [|split; [done|split; [done|intros [? _]; done]]].
    destruct (Z.ltb_spec n 0); [split; [done|]; split; [intros _; split; [done|by eexists _, _]|done]|].
    pose proof (safe_repeat (Z.to_nat n) _ _ Hpair d1 Hd1) as Hrep. unfold bind in Hrep.
    destruct (d_repeat _ _ d1); try done; (split; [done|split; [done|intros (_ & n' & d' & [= <- <-] & ?); lia]]).
Qed.

(** ** Round trips *)

Definition window (d : decoder) : bytes := take (Z.to_nat (remaining d)) (drop (Z.to_nat (input d)) (mem d)).

(** [m] reads the bytes [e] as [v] and leaves what follows them. *)
Definition reads {A} (m : dec A) (e : bytes) (v : A) : Prop :=
  forall d rest, in_bounds d -> window d = e ++ rest ->
  exists d', m d = Ok v d' /\ in_bounds d' /\ window d' = rest.

Lemma window_length d : in_bounds d -> zlen (window d) = remaining d.
Proof. intros (Hi & Hr & Hl). unfold window, zlen in *. rewrite length_take, length_drop. lia. Qed.

Lemma reads_ret {A} (v : A) : reads (ret v) [] v.
Proof. intros d rest Hd Hw. by exists d. Qed.

Lemma reads_bind {A B} (m : dec A) (f : A -> dec B) e1 e2 a b :
  reads m e1 a -> reads (f a) e2 b -> reads (bind m f) (e1 ++ e2) b.
Proof.
  intros Hm Hf d rest Hd Hw. rewrite <- app_assoc in Hw. destruct (Hm d _ Hd Hw) as (d1 & E1 & Hd1 & Hw1).
  destruct (Hf d1 rest Hd1 Hw1) as (d2 & E2 & Hd2 & Hw2). exists d2. unfold bind. by rewrite E1.
Qed.

Lemma reads_map {A B} (m : dec A) (f : A -> B) e a : reads m e a -> reads (let! x := m in ret (f x)) e (f a).
Proof. intros Hm. rewrite <- (app_nil_r e). eapply reads_bind; [exact Hm|apply reads_ret]. Qed.

Lemma reads_read e : zlen e < 2 ^ 63 -> reads (read (zlen e)) e e.
Proof.
  intros Hl d rest Hd Hw. pose proof (zlen_nonneg e) as He. pose proof (window_length d Hd) as Hlen.
  rewrite Hw, zlen_app in Hlen. pose proof (zlen_nonneg rest).
  destruct (read_cases (zlen e) d Hd ltac:(lia)) as [[_ ?] | (_ & b & d' & E & Hb & Eb & Hd' & Ha & Hi)]; [lia|].
  exists d'. pose proof Ha as (Em & _ & _ & Er). pose proof Hd as (Hi0 & Hr0 & Hl0).
  assert (Hwin : window d = b ++ window d').
  { unfold window. rewrite Em, Hi, Eb. replace (remaining d) with (zlen e + remaining d') by lia.
    destruct Hd' as (_ & Hr' & _). rewrite !Z2Nat.inj_add by lia.
    rewrite <- drop_drop, <- take_take_drop. done. }
  assert (b = e /\ window d' = rest) as [-> ->].
  { rewrite Hwin in Hw. apply app_inj_1; [unfold zlen in *; lia|done]. }
  done.
Qed.

(** A fixed-size value is read from its own encoding. *)
Lemma reads_fixed {A} n (f : bytes -> A) e v :
  zlen e = n -> n < 100 -> (forall r, f (e ++ r) = v) -> reads (let! b := read n in ret (f b)) e v.
Proof.
  intros Hl Hn Hf. rewrite <- (Hf []), app_nil_r. subst n. apply reads_map, reads_read. lia.
Qed.

Lemma reads_uint16 v : in_u 16 v -> reads d_uint16 (encode_uint16 v) v.
Proof. intros Hv. apply reads_fixed; [done..|]. intros r. by apply decode_encode_uint16. Qed.

Lemma reads_int32 v : in_s 32 v -> reads d_int32 (encode_int32 v) v.
Proof. intros Hv. apply reads_fixed; [done..|]. intros r. by apply decode_encode_int32. Qed.

Lemma reads_string s : zlen s < 65536 -> reads d_string (encode_string s (wrapU 16 (zlen s))) s.
Proof.
  intros Hs. pose proof (zlen_nonneg s). rewrite wrapU_id by (unfold in_u; lia). unfold encode_string. rewrite copy_all.
  eapply reads_bind; [apply reads_uint16; unfold in_u; lia|]. apply reads_read. lia.
Qed.

Lemma reads_long_string s : zlen s < 2 ^ 31 -> reads d_long_string (encode_long_string s (zlen s)) s.
Proof.
  intros Hs. pose proof (zlen_nonneg s). unfold encode_long_string. rewrite copy_all.
  eapply reads_bind; [apply reads_int32; unfold in_s; lia|]. apply reads_read. lia.
Qed.

Lemma reads_bytes s : zlen s < 2 ^ 31 -> reads d_bytes (encode_bytes s (zlen s)) (Some s).
Proof.
  intros Hs. pose proof (zlen_nonneg s). unfold encode_bytes. rewrite copy_all.
  eapply reads_bind; [apply reads_int32; unfold in_s; lia|]. cbn beta.
  replace (zlen s <? 0) with false by lia. apply reads_map.
  replace (if 0 <? zlen s then s else []) with s; [apply reads_read; lia|].
  destruct s as [|c s]; [done|]. rewrite zlen_cons. pose proof (zlen_nonneg s). by replace (0 <? 1 + zlen s) with true by lia.
Qed.

Lemma reads_null s size : - 2 ^ 31 <= size < 0 -> reads d_bytes (encode_bytes s size) None.
Proof.
  intros Hs. eapply reads_bind; [apply reads_int32; unfold in_s; lia|]. cbn beta.
  replace (size <? 0) with true by lia. replace (0 <? size) with false by lia. apply reads_ret.
Qed.

Lemma reads_repeat {A} (m : dec A) (e : A -> bytes) l :
  Forall (fun a => reads m (e a) a) l -> reads (d_repeat (length l) m) (concat (map e l)) l.
Proof.
  induction 1 as [|a l Ha _ IH]; [apply reads_ret|]. cbn [d_repeat length map concat].
  eapply reads_bind; [exact Ha|]. apply (reads_map _ (cons a)), IH.
Qed.

Lemma reads_counted {A} (m : dec A) (e : A -> bytes) l :
  zlen l < 65536 -> Forall (fun a => reads m (e a) a) l ->
  reads (d_counted m) (encode_uint16 (wrapU 16 (zlen l)) ++ concat (map e l)) l.
Proof.
  intros Hl He. pose proof (zlen_nonneg l). rewrite wrapU_id by (unfold in_u; lia).
  eapply reads_bind; [apply reads_uint16; unfold in_u; lia|]. cbn beta. unfold zlen. rewrite Nat2Z.id. by apply reads_repeat.
Qed.

Lemma reads_pair {A B} (m1 : dec A) (m2 : dec B) e1 e2 a b :
  reads m1 e1 a -> reads m2 e2 b -> reads (let! x := m1 in let! y := m2 in ret (x, y)) (e1 ++ e2) (a, b).
Proof. intros H1 H2. eapply reads_bind; [exact H1|]. by apply reads_map. Qed.

Lemma reads_vint v : in_u 64 v -> reads d_vint (encode_vint v (vint_size v)) v.
Proof.
  intros Hv. destruct (encode_vint_shape v Hv) as (f & rest & -> & Hf & _ & _ & Hcase).
  change (f :: rest) with ([f] ++ rest). eapply reads_bind; [apply (reads_read [f]); done|]. cbn beta zeta.
  change (char_at [f] 0) with f. rewrite u8_byte by done. destruct Hcase as [(_ & -> & Hle & ->) | (Hgt & Hx & Hval)].
  - replace (v <=? 127) with true by lia. apply reads_ret.
  - replace (f <=? 127) with false by lia. rewrite Hx, <- Hval.
    apply (reads_map _ (vint_value _)), reads_read. rewrite <- Hx. unfold vint_extra, num_leading_zeros. case_match; [lia|]. pose proof (Z.log2_nonneg (wrapU 64 (Z.land (Z.lnot f) 255))). lia.
Qed.

Lemma reads_string_list l :
  zlen l < 65536 -> Forall (fun s => zlen s < 65536) l -> reads d_stringlist (encode_string_list l) l.
Proof.
  intros Hl Hs. unfold d_stringlist, encode_string_list. apply (reads_counted d_string); [exact Hl|].
  eapply Forall_impl; [|exact Hs]. intros s. apply reads_string.
Qed.

Lemma map_of_nodup {V} (l : list (bytes * V)) : NoDup l.*1 -> map_of l = list_to_map l.
Proof.
  intros Hnd. unfold map_of. cut (forall m : gmap bytes V, (forall k, k ∈ l.*1 -> m !! k = None) ->
    fold_left map_insert l m = list_to_map l ∪ m).
  { intros H. rewrite H; [apply (right_id_L ∅ (∪))|]. intros k _. apply lookup_empty. }
  induction l as [|[k v] l IH]; intros m Hm; [symmetry; apply (left_id_L ∅ (∪))|]. cbn [fold_left fmap list_fmap fst] in *.
  pose proof (NoDup_cons_1_1 _ _ Hnd) as Hk. apply NoDup_cons_1_2 in Hnd. unfold map_insert at 2. cbn [fst snd].
  rewrite (Hm k) by (by left). cbn [list_to_map foldr]. cbn. rewrite IH; [|done|].
  - rewrite <- insert_union_l. rewrite insert_union_r; [done|]. by apply not_elem_of_list_to_map_1.
  - intros k' Hk'. rewrite lookup_insert_ne; [apply Hm; by right|]. intros ->. done.
Qed.

Lemma reads_string_map l :
  zlen l < 65536 -> Forall (fun kv => zlen kv.1 < 65536 /\ zlen kv.2 < 65536) l -> NoDup l.*1 ->
  reads d_string_map (encode_string_map l) (list_to_map l).
Proof.
  intros Hl Hs Hnd. rewrite <- map_of_nodup by done. unfold d_string_map, encode_string_map. apply reads_map.
  apply (reads_counted (let! key := d_string in let! value := d_string in ret (key, value))
    (fun kv => encode_string kv.1 (wrapU 16 (zlen kv.1)) ++ encode_string kv.2 (wrapU 16 (zlen kv.2)))); [exact Hl|].
  eapply Forall_impl; [|exact Hs]. intros [k s] [Hk Hv]. by apply reads_pair; apply reads_string.
Qed.

Definition valid_duration (x : CassDuration) : Prop := in_s 32 (months x) /\ in_s 32 (days x) /\ in_s 64 (nanos x).

Lemma zig_zag_in n : in_s 64 n -> in_u 64 (encode_zig_zag n).
Proof. intros _. apply wrapU_range. lia. Qed.

Lemma as_duration_encoded x d :
  valid_duration x -> in_bounds d -> window d = encode_internal x false -> as_duration d = Ok x d.
Proof.
  destruct x as [m dd n]. intros (Hm & Hdd & Hn) Hd Hw. cbn in Hm, Hdd, Hn. unfold as_duration.
  assert (Hm' : in_s 64 m) by (unfold in_s in *; lia). assert (Hdd' : in_s 64 dd) by (unfold in_s in *; lia).
  match goal with |- context [match ?k d with _ => _ end] =>
    assert (Hk : reads k (encode_internal {| months := m; days := dd; nanos := n |} false) {| months := m; days := dd; nanos := n |}) end.
  { unfold encode_internal. cbn [map zip_with concat months days nanos app].
    eapply reads_bind; [apply reads_vint, zig_zag_in, Hm'|]. eapply reads_bind; [apply reads_vint, zig_zag_in, Hdd'|].
    eapply reads_bind; [apply reads_vint, zig_zag_in, Hn|]. cbn beta. rewrite !decode_encode_zig_zag by done.
    rewrite !wrapS_id by (done || lia). apply reads_ret. }
  destruct (Hk d [] Hd) as (d' & -> & _); [by rewrite app_nil_r|done].
Qed.

(** What the driver encodes it decodes.  The decoding functions read the bytes of the
    encoding functions back - integers of every width, UUIDs, strings, byte arrays and nulls, lists
    and maps of strings, variable-length integers - and leave what follows them, and a duration's
    bytes are read as that duration.  The sizes are those the encodings can carry. *)
Theorem decode_encode :
  (forall v, in_s 8 v -> reads d_int8 (encode_int8 v) v) /\
  (forall v, in_s 16 v -> reads d_int16 (encode_int16 v) v) /\
  (forall v, in_u 16 v -> reads d_uint16 (encode_uint16 v) v) /\
  (forall v, in_s 32 v -> reads d_int32 (encode_int32 v) v) /\
  (forall v, in_u 32 v -> reads d_uint32 (encode_uint32 v) v) /\
  (forall v, in_s 64 v -> reads d_int64 (encode_int64 v) v) /\
  (forall u, valid_uuid u -> reads d_uuid (encode_uuid u) u) /\
  (forall s, zlen s < 2 ^ 16 -> reads d_string (encode_string s (wrapU 16 (zlen s))) s) /\
  (forall s, zlen s < 2 ^ 31 -> reads d_long_string (encode_long_string s (zlen s)) s) /\
  (forall s, zlen s < 2 ^ 31 -> reads d_bytes (encode_bytes s (zlen s)) (Some s)) /\
  (forall s size, - 2 ^ 31 <= size < 0 -> reads d_bytes (encode_bytes s size) None) /\
  (forall l, zlen l < 2 ^ 16 -> Forall (fun s => zlen s < 2 ^ 16) l -> reads d_stringlist (encode_string_list l) l) /\
  (forall l, zlen l < 2 ^ 16 -> Forall (fun kv => zlen kv.1 < 2 ^ 16 /\ zlen kv.2 < 2 ^ 16) l -> NoDup l.*1 ->
     reads d_string_map (encode_string_map l) (list_to_map l)) /\
  (forall v, in_u 64 v -> reads d_vint (encode_vint v (vint_size v)) v) /\
  (forall x d, valid_duration x -> in_bounds d -> window d = encode_internal x false -> as_duration d = Ok x d).
Proof.
  split_and!; auto using reads_uint16, reads_int32, reads_string, reads_long_string, reads_bytes, reads_null, reads_vint,
    as_duration_encoded; intros v Hv.
  - apply reads_fixed; [done..|]. intros r. by apply decode_encode_int8.
  - apply reads_fixed; [done..|]. intros r. by apply decode_encode_int16.
  - apply reads_fixed; [done..|]. intros r. by apply decode_encode_uint32.
  - apply reads_fixed; [done..|]. intros r. by apply decode_encode_int64.
  - apply reads_fixed; [done..|]. intros r. by apply decode_encode_uuid.
  - intros Hl. by apply reads_string_list.
  - intros Hl Hnd. by apply reads_string_map.
Qed.

Lemma decode_encode_witness :
  exists d, d_stringlist {| mem := 7 :: encode_string_list [bs "STATUS_CHANGE"; bs ""] ++ [9]; input := 1; remaining := 20;
                            supports_v5 := false; is_null := false |} = Ok [bs "STATUS_CHANGE"; bs ""] d /\ window d = [9].
Proof.
  destruct decode_encode as (_ & _ & _ & _ & _ & _ & _ & _ & _ & _ & _ & H & _).
  destruct (H [bs "STATUS_CHANGE"; bs ""] ltac:(vm_compute; done) ltac:(repeat constructor)
    {| mem := 7 :: encode_string_list [bs "STATUS_CHANGE"; bs ""] ++ [9]; input := 1; remaining := 20;
       supports_v5 := false; is_null := false |} [9]) as (d & E & _ & Hw).
  - split_and!; vm_compute; congruence.
  - vm_compute. reflexivity.
  - exists d. split; [exact E|exact Hw].
Defined.
