(* ===== verification/RequestHandler.v ===== *)
(** The execution of a request (third-party/cpp-driver/src/request_handler.{hpp,cpp}, with the
    request states of request_callback.cpp, the constant speculative execution plan of
    speculative_execution.hpp and the chained keyspace callback of pooled_connection.cpp).

    A [handler] is a RequestHandler with its RequestExecutions, its future and the in-flight
    counters of the hosts.  The query plan is the list of hosts [compute_next] will still return.
    The connection pool and the sockets are not modelled: what they answer is read from two tapes
    of replies, one for [find_least_busy] followed by [PooledConnection::write], one for
    [Connection::write_and_flush].  Everything that calls back into the handler - a finished
    write, a response, a closed connection, a timer, the callbacks the execution hands itself to -
    is an [event]; [step] runs the handler's code for it.

    [held] says who keeps a reference to an execution and will call it; an execution that nobody
    holds is destroyed, and with it its timer, and the handler with the last of them. *)
From S2P Require Import Prelude RetryPolicy.
From stdpp Require Import gmap.
#[local] Open Scope Z_scope.

(** ** Data *)

Inductive CassError :=
| CASS_ERROR_LIB_NO_HOSTS_AVAILABLE | CASS_ERROR_LIB_WRITE_ERROR | CASS_ERROR_LIB_REQUEST_TIMED_OUT
| CASS_ERROR_LIB_UNEXPECTED_RESPONSE | CASS_ERROR_LIB_UNABLE_TO_SET_KEYSPACE
| CASS_ERROR_LIB_MESSAGE_ENCODE | CASS_ERROR_LIB_BAD_PARAMS | CASS_ERROR_LIB_PARAMETER_UNSET
| CASS_ERROR_SERVER (code : Z).

#[export] Instance CassError_eq : EqDecision CassError.
Proof. solve_decision. Defined.

Definition CQL_ERROR_SERVER_ERROR : Z := 0x0000.
Definition CQL_ERROR_UNAVAILABLE : Z := 0x1000.
Definition CQL_ERROR_OVERLOADED : Z := 0x1001.
Definition CQL_ERROR_IS_BOOTSTRAPPING : Z := 0x1002.
Definition CQL_ERROR_WRITE_TIMEOUT : Z := 0x1100.
Definition CQL_ERROR_READ_TIMEOUT : Z := 0x1200.
Definition CQL_ERROR_UNPREPARED : Z := 0x2500.

(** What the handler reads of an error response. *)
Record ErrorResponse := {
  error_code : Z;
  error_consistency : CassConsistency;
  error_received : Z;
  error_required : Z;
  error_data_present : Z;
  error_write_type : CassWriteType;
  error_prepared_id : Z
}.

Inductive ResultKind :=
| CASS_RESULT_KIND_VOID | CASS_RESULT_KIND_ROWS | CASS_RESULT_KIND_SET_KEYSPACE
| CASS_RESULT_KIND_PREPARED | CASS_RESULT_KIND_SCHEMA_CHANGE.

#[export] Instance ResultKind_eq : EqDecision ResultKind.
Proof. solve_decision. Defined.

Record ResultResponse := {
  result_kind : ResultKind;
  no_metadata : bool;
  has_tracing_id : bool;
  (** whether the session's listener takes the response over *)
  listener_waits : bool
}.

Inductive Response :=
| ResultResp (r : ResultResponse)
| ErrorResp (e : ErrorResponse)
| OtherResp
| EmptyResult.

Inductive Opcode := CQL_OPCODE_QUERY | CQL_OPCODE_EXECUTE | CQL_OPCODE_BATCH | CQL_OPCODE_PREPARE.

#[export] Instance Opcode_eq : EqDecision Opcode.
Proof. solve_decision. Defined.

(** The request and its wrapper: what does not change while the request runs. *)
Record Request := {
  opcode : Opcode;
  is_idempotent : bool;
  record_attempted_addresses : bool;
  request_timeout_ms : Z;
  wrapper_consistency : CassConsistency;
  retry_policy : option RetryPolicy;
  skip_metadata : bool;
  find_prepared_query : Z -> bool
}.

(** RequestCallback::State. *)
Inductive State :=
| REQUEST_STATE_NEW | REQUEST_STATE_WRITING | REQUEST_STATE_READING
| REQUEST_STATE_READ_BEFORE_WRITE | REQUEST_STATE_FINISHED.

#[export] Instance State_eq : EqDecision State.
Proof. solve_decision. Defined.

Inductive holder :=
| HeldByNone
| HeldByConnection
| HeldByKeyspace (** a ChainedSetKeyspaceCallback *)
| HeldByPrepare (** a PrepareCallback *)
| HeldByListener (r : Response) (** the listener, which will set this response *).

Record execution := {
  current_host : option Z;
  num_retries : Z;
  retry_consistency : CassConsistency;
  state : State;
  read_before_write_response : option Response;
  schedule_timer : bool;
  held : holder
}.

(** What the future holds once it is set. *)
Inductive outcome :=
| SetResponse (address : Z) (r : Response)
| SetErrorWithResponse (address : Z) (r : Response) (code : CassError)
| SetErrorWithAddress (address : Z) (code : CassError)
| SetError (code : CassError).

(** The errors an encoder reports with [on_error] before it returns them. *)
Inductive encode_error :=
| REQUEST_ERROR_UNSUPPORTED_PROTOCOL | REQUEST_ERROR_BATCH_WITH_NAMED_VALUES | REQUEST_ERROR_PARAMETER_UNSET.

Definition encode_error_code (e : encode_error) : CassError :=
  match e with
  | REQUEST_ERROR_UNSUPPORTED_PROTOCOL => CASS_ERROR_LIB_MESSAGE_ENCODE
  | REQUEST_ERROR_BATCH_WITH_NAMED_VALUES => CASS_ERROR_LIB_BAD_PARAMS
  | REQUEST_ERROR_PARAMETER_UNSET => CASS_ERROR_LIB_PARAMETER_UNSET
  end.

(** The results of SocketRequest and Request writes. *)
Inductive write_result :=
| WRITTEN
| SOCKET_REQUEST_ERROR_CLOSED
| SOCKET_REQUEST_ERROR_NO_HANDLER
| REQUEST_ERROR_ENCODE (e : encode_error)
| REQUEST_ERROR_NO_DATA_WRITTEN
| REQUEST_ERROR_OTHER.

(** [Connection::write] of a PREPARE or USE request, whose encoding does not fail. *)
Inductive conn_reply := ConnWritten | ConnNoStream | ConnClosed | ConnNoHandler.

(** [find_least_busy] and [PooledConnection::write]. *)
Inductive pool_reply :=
| NoConnection
| NoStream
| Wrote (r : write_result)
| SetsKeyspace (c : conn_reply).

Record handler := {
  is_done : bool;
  running_executions : Z;
  query_plan : list Z;
  plan_delay_ms : Z;
  plan_count : Z;
  timer_running : bool;
  future : option outcome;
  attempted_addresses : list Z;
  inflight : gmap Z Z;
  executions : list execution;
  pool_tape : list pool_reply;
  conn_tape : list conn_reply;
  assert_failed : bool
}.

(** ** Updates *)

Definition with_done (b : bool) (s : handler) : handler := {|
  is_done := b; running_executions := running_executions s; query_plan := query_plan s;
  plan_delay_ms := plan_delay_ms s; plan_count := plan_count s; timer_running := timer_running s;
  future := future s; attempted_addresses := attempted_addresses s; inflight := inflight s;
  executions := executions s; pool_tape := pool_tape s; conn_tape := conn_tape s;
  assert_failed := assert_failed s |}.

Definition with_running (n : Z) (s : handler) : handler := {|
  is_done := is_done s; running_executions := n; query_plan := query_plan s;
  plan_delay_ms := plan_delay_ms s; plan_count := plan_count s; timer_running := timer_running s;
  future := future s; attempted_addresses := attempted_addresses s; inflight := inflight s;
  executions := executions s; pool_tape := pool_tape s; conn_tape := conn_tape s;
  assert_failed := assert_failed s |}.

Definition with_plan (l : list Z) (s : handler) : handler := {|
  is_done := is_done s; running_executions := running_executions s; query_plan := l;
  plan_delay_ms := plan_delay_ms s; plan_count := plan_count s; timer_running := timer_running s;
  future := future s; attempted_addresses := attempted_addresses s; inflight := inflight s;
  executions := executions s; pool_tape := pool_tape s; conn_tape := conn_tape s;
  assert_failed := assert_failed s |}.

Definition with_count (n : Z) (s : handler) : handler := {|
  is_done := is_done s; running_executions := running_executions s; query_plan := query_plan s;
  plan_delay_ms := plan_delay_ms s; plan_count := n; timer_running := timer_running s;
  future := future s; attempted_addresses := attempted_addresses s; inflight := inflight s;
  executions := executions s; pool_tape := pool_tape s; conn_tape := conn_tape s;
  assert_failed := assert_failed s |}.

Definition with_timer (b : bool) (s : handler) : handler := {|
  is_done := is_done s; running_executions := running_executions s; query_plan := query_plan s;
  plan_delay_ms := plan_delay_ms s; plan_count := plan_count s; timer_running := b;
  future := future s; attempted_addresses := attempted_addresses s; inflight := inflight s;
  executions := executions s; pool_tape := pool_tape s; conn_tape := conn_tape s;
  assert_failed := assert_failed s |}.

(** The first outcome a future is given is the one it keeps. *)
Definition with_future (o : outcome) (s : handler) : handler := {|
  is_done := is_done s; running_executions := running_executions s; query_plan := query_plan s;
  plan_delay_ms := plan_delay_ms s; plan_count := plan_count s; timer_running := timer_running s;
  future := match future s with None => Some o | Some o' => Some o' end;
  attempted_addresses := attempted_addresses s; inflight := inflight s;
  executions := executions s; pool_tape := pool_tape s; conn_tape := conn_tape s;
  assert_failed := assert_failed s |}.

Definition with_attempted (l : list Z) (s : handler) : handler := {|
  is_done := is_done s; running_executions := running_executions s; query_plan := query_plan s;
  plan_delay_ms := plan_delay_ms s; plan_count := plan_count s; timer_running := timer_running s;
  future := future s; attempted_addresses := l; inflight := inflight s;
  executions := executions s; pool_tape := pool_tape s; conn_tape := conn_tape s;
  assert_failed := assert_failed s |}.

Definition with_inflight (m : gmap Z Z) (s : handler) : handler := {|
  is_done := is_done s; running_executions := running_executions s; query_plan := query_plan s;
  plan_delay_ms := plan_delay_ms s; plan_count := plan_count s; timer_running := timer_running s;
  future := future s; attempted_addresses := attempted_addresses s; inflight := m;
  executions := executions s; pool_tape := pool_tape s; conn_tape := conn_tape s;
  assert_failed := assert_failed s |}.

Definition with_executions (l : list execution) (s : handler) : handler := {|
  is_done := is_done s; running_executions := running_executions s; query_plan := query_plan s;
  plan_delay_ms := plan_delay_ms s; plan_count := plan_count s; timer_running := timer_running s;
  future := future s; attempted_addresses := attempted_addresses s; inflight := inflight s;
  executions := l; pool_tape := pool_tape s; conn_tape := conn_tape s;
  assert_failed := assert_failed s |}.

Definition with_tapes (p : list pool_reply) (c : list conn_reply) (s : handler) : handler := {|
  is_done := is_done s; running_executions := running_executions s; query_plan := query_plan s;
  plan_delay_ms := plan_delay_ms s; plan_count := plan_count s; timer_running := timer_running s;
  future := future s; attempted_addresses := attempted_addresses s; inflight := inflight s;
  executions := executions s; pool_tape := p; conn_tape := c;
  assert_failed := assert_failed s |}.

Definition asserting (b : bool) (s : handler) : handler := {|
  is_done := is_done s; running_executions := running_executions s; query_plan := query_plan s;
  plan_delay_ms := plan_delay_ms s; plan_count := plan_count s; timer_running := timer_running s;
  future := future s; attempted_addresses := attempted_addresses s; inflight := inflight s;
  executions := executions s; pool_tape := pool_tape s; conn_tape := conn_tape s;
  assert_failed := assert_failed s || negb b |}.

Definition upd (i : nat) (f : execution -> execution) (s : handler) : handler :=
  with_executions (alter f i (executions s)) s.

Definition exec_with_host (h : option Z) (e : execution) : execution := {|
  current_host := h; num_retries := num_retries e; retry_consistency := retry_consistency e;
  state := state e; read_before_write_response := read_before_write_response e;
  schedule_timer := schedule_timer e; held := held e |}.

Definition exec_with_retries (n : Z) (e : execution) : execution := {|
  current_host := current_host e; num_retries := n; retry_consistency := retry_consistency e;
  state := state e; read_before_write_response := read_before_write_response e;
  schedule_timer := schedule_timer e; held := held e |}.

Definition exec_with_consistency (cl : CassConsistency) (e : execution) : execution := {|
  current_host := current_host e; num_retries := num_retries e; retry_consistency := cl;
  state := state e; read_before_write_response := read_before_write_response e;
  schedule_timer := schedule_timer e; held := held e |}.

Definition exec_with_state (st : State) (e : execution) : execution := {|
  current_host := current_host e; num_retries := num_retries e; retry_consistency := retry_consistency e;
  state := st; read_before_write_response := read_before_write_response e;
  schedule_timer := schedule_timer e; held := held e |}.

Definition exec_with_response (r : option Response) (e : execution) : execution := {|
  current_host := current_host e; num_retries := num_retries e; retry_consistency := retry_consistency e;
  state := state e; read_before_write_response := r;
  schedule_timer := schedule_timer e; held := held e |}.

Definition exec_with_timer (b : bool) (e : execution) : execution := {|
  current_host := current_host e; num_retries := num_retries e; retry_consistency := retry_consistency e;
  state := state e; read_before_write_response := read_before_write_response e;
  schedule_timer := b; held := held e |}.

Definition exec_with_holder (h : holder) (e : execution) : execution := {|
  current_host := current_host e; num_retries := num_retries e; retry_consistency := retry_consistency e;
  state := state e; read_before_write_response := read_before_write_response e;
  schedule_timer := schedule_timer e; held := h |}.

Definition hold (i : nat) (h : holder) (s : handler) : handler := upd i (exec_with_holder h) s.

Definition host_of (i : nat) (s : handler) : option Z :=
  match executions s !! i with Some e => current_host e | None => None end.

(** ** RequestCallback *)

(** The transitions [RequestCallback::set_state] allows. *)
Definition state_allowed (cur next : State) : bool :=
  match cur with
  | REQUEST_STATE_NEW => bool_decide (next = REQUEST_STATE_NEW) || bool_decide (next = REQUEST_STATE_WRITING)
  | REQUEST_STATE_WRITING =>
      bool_decide (next = REQUEST_STATE_READING) || bool_decide (next = REQUEST_STATE_READ_BEFORE_WRITE) ||
      bool_decide (next = REQUEST_STATE_FINISHED)
  | REQUEST_STATE_READING => bool_decide (next = REQUEST_STATE_FINISHED)
  | REQUEST_STATE_READ_BEFORE_WRITE => bool_decide (next = REQUEST_STATE_FINISHED)
  | REQUEST_STATE_FINISHED => bool_decide (next = REQUEST_STATE_NEW)
  end.

(** A transition that is not allowed fails an assertion and leaves the state. *)
Definition set_state (i : nat) (next : State) (s : handler) : handler :=
  match executions s !! i with
  | None => s
  | Some e => if state_allowed (state e) next then upd i (exec_with_state next) s else asserting false s
  end.

(** The consistency of a request: the one of the retry first. *)
Definition consistency (q : Request) (e : execution) : CassConsistency :=
  if bool_decide (retry_consistency e = CASS_CONSISTENCY_UNKNOWN) then wrapper_consistency q
  else retry_consistency e.

(** ** RequestHandler *)

(** [query_plan_->compute_next()] *)
Definition next_host (s : handler) : option Z * handler :=
  match query_plan s with
  | [] => (None, s)
  | h :: l => (Some h, with_plan l s)
  end.

(** [ConstantSpeculativeExecutionPlan::next_execution]; a count of 0 is the plan without
    speculative executions. *)
Definition next_execution (s : handler) : Z * handler :=
  let count := plan_count s - 1 in
  (if 0 <=? count then plan_delay_ms s else -1, with_count count s).

Definition start_request (q : Request) (s : handler) : handler :=
  if timer_running s then s
  else if 0 <? request_timeout_ms q then with_timer true s else s.

Definition stop_request (s : handler) : handler := with_timer false (with_done true s).

Definition handler_set_response (host : Z) (r : Response) (s : handler) : handler :=
  let s := stop_request s in
  let s := with_running (running_executions s - 1) s in
  with_future (SetResponse host r) s.

(** [skip]: the last execution that ran out of hosts reports it. *)
Definition handler_set_error (code : CassError) (s : handler) : handler :=
  let s := stop_request s in
  if bool_decide (code = CASS_ERROR_LIB_NO_HOSTS_AVAILABLE) then
    let s := with_running (running_executions s - 1) s in
    if 0 <? running_executions s then s else with_future (SetError code) s
  else with_future (SetError code) s.

Definition handler_set_error_on_host (host : option Z) (code : CassError) (s : handler) : handler :=
  let s := stop_request s in
  let report s := match host with
                  | Some h => with_future (SetErrorWithAddress h code) s
                  | None => handler_set_error code s
                  end in
  if bool_decide (code = CASS_ERROR_LIB_NO_HOSTS_AVAILABLE) then
    let s := with_running (running_executions s - 1) s in
    if 0 <? running_executions s then s else report s
  else report s.

Definition handler_set_error_with_error_response (host : Z) (r : Response) (code : CassError) (s : handler) : handler :=
  let s := stop_request s in
  let s := with_running (running_executions s - 1) s in
  with_future (SetErrorWithResponse host r code) s.

Definition on_timeout (s : handler) : handler :=
  handler_set_error CASS_ERROR_LIB_REQUEST_TIMED_OUT (with_timer false s).

(** ** RequestExecution *)

Definition increment_inflight_requests (h : Z) (s : handler) : handler :=
  with_inflight (<[h := default 0 (inflight s !! h) + 1]> (inflight s)) s.

Definition decrement_inflight_requests (h : option Z) (s : handler) : handler :=
  match h with
  | Some h => with_inflight (<[h := default 0 (inflight s !! h) - 1]> (inflight s)) s
  | None => s
  end.

(** [RequestExecution::next_host] *)
Definition exec_next_host (i : nat) (s : handler) : handler :=
  let (h, s) := next_host s in upd i (exec_with_host h) s.

Definition exec_set_response (i : nat) (r : Response) (s : handler) : handler :=
  match host_of i s with
  | Some h => handler_set_response h r s
  | None => asserting false s
  end.

Definition exec_set_error (i : nat) (code : CassError) (s : handler) : handler :=
  handler_set_error_on_host (host_of i s) code s.

Definition exec_set_error_with_error_response (i : nat) (r : Response) (code : CassError) (s : handler) : handler :=
  match host_of i s with
  | Some h => handler_set_error_with_error_response h r code s
  | None => asserting false s
  end.

Definition exec_on_error (i : nat) (code : CassError) (s : handler) : handler :=
  exec_set_error i code (decrement_inflight_requests (host_of i s) s).

(** The constructor of RequestExecution: the execution takes the next host of the plan. *)
Definition new_execution (s : handler) : handler :=
  let (h, s) := next_host s in
  with_executions (executions s ++ [{|
    current_host := h; num_retries := 0; retry_consistency := CASS_CONSISTENCY_UNKNOWN;
    state := REQUEST_STATE_NEW; read_before_write_response := None;
    schedule_timer := false; held := HeldByNone |}]) s.

(** [execute], over the retry loop it starts. *)
Definition execute_with (internal_retry : nat -> handler -> option handler) (s : handler) : option handler :=
  let i := length (executions s) in
  let s := new_execution s in
  internal_retry i (with_running (running_executions s + 1) s).

Definition on_write (execute : handler -> option handler) (q : Request) (i : nat) (s : handler) : option handler :=
  match host_of i s with
  | None => Some (asserting false s)
  | Some h =>
      let s := increment_inflight_requests h s in
      let s := if record_attempted_addresses q
               then with_attempted (attempted_addresses s ++ [h]) s else s in
      let s := start_request q s in
      if is_idempotent q then
        let (timeout, s) := next_execution s in
        if timeout =? 0 then execute s
        else if 0 <? timeout then Some (upd i (exec_with_timer true) s)
        else Some s
      else Some s
  end.

Definition pop_pool (s : handler) : pool_reply * handler :=
  match pool_tape s with
  | [] => (NoConnection, s)
  | r :: l => (r, with_tapes l (conn_tape s) s)
  end.

Definition pop_conn (s : handler) : conn_reply * handler :=
  match conn_tape s with
  | [] => (ConnNoStream, s)
  | c :: l => (c, with_tapes (pool_tape s) l s)
  end.

(** The loop of [internal_retry]: try the current host and the ones after it until a write
    settles the request. *)
Fixpoint retry_loop (fuel : nat) (q : Request) (i : nat) (s : handler) : option handler :=
  match fuel with
  | O => None
  | S f =>
      let internal_retry j s := if is_done s then Some s else retry_loop f q j s in
      match host_of i s with
      | None => Some (handler_set_error CASS_ERROR_LIB_NO_HOSTS_AVAILABLE s)
      | Some _ =>
          let (reply, s) := pop_pool s in
          match reply with
          | NoConnection | NoStream => retry_loop f q i (exec_next_host i s)
          | SetsKeyspace ConnWritten => Some (hold i HeldByKeyspace s)
          | SetsKeyspace (ConnNoStream | ConnClosed) => retry_loop f q i (exec_next_host i s)
          | SetsKeyspace ConnNoHandler => Some (handler_set_error CASS_ERROR_LIB_WRITE_ERROR s)
          | Wrote r =>
              match on_write (execute_with internal_retry) q i s with
              | None => None
              | Some s =>
                  match r with
                  | WRITTEN => Some (set_state i REQUEST_STATE_WRITING (hold i HeldByConnection s))
                  | SOCKET_REQUEST_ERROR_CLOSED => retry_loop f q i (exec_next_host i s)
                  | SOCKET_REQUEST_ERROR_NO_HANDLER => Some (handler_set_error CASS_ERROR_LIB_WRITE_ERROR s)
                  | REQUEST_ERROR_ENCODE e => Some (exec_on_error i (encode_error_code e) s)
                  | REQUEST_ERROR_NO_DATA_WRITTEN => Some (exec_on_error i CASS_ERROR_LIB_MESSAGE_ENCODE s)
                  | REQUEST_ERROR_OTHER => Some (handler_set_error CASS_ERROR_LIB_WRITE_ERROR s)
                  end
              end
          end
      end
  end.

(** Each turn of the loop and each nested execution takes a host from the plan. *)
Definition retry_fuel (s : handler) : nat := length (query_plan s) + 2.

Definition internal_retry (q : Request) (i : nat) (s : handler) : option handler :=
  if is_done s then Some s else retry_loop (retry_fuel s) q i s.

Definition execute (q : Request) (s : handler) : option handler := execute_with (internal_retry q) s.

Definition exec_retry_current_host (q : Request) (i : nat) (s : handler) : option handler :=
  internal_retry q i (set_state i REQUEST_STATE_NEW s).

Definition exec_retry_next_host (q : Request) (i : nat) (s : handler) : option handler :=
  exec_retry_current_host q i (exec_next_host i s).

Definition on_retry_current_host (q : Request) (i : nat) (s : handler) : option handler :=
  exec_retry_current_host q i s.

Definition on_retry_next_host (q : Request) (i : nat) (s : handler) : option handler :=
  exec_retry_next_host q i (decrement_inflight_requests (host_of i s) s).

(** ** Responses *)

Definition on_result_response (q : Request) (i : nat) (r : ResultResponse) (s : handler) : handler :=
  let set_or_wait waits :=
    if waits : bool then hold i (HeldByListener (ResultResp r)) s else exec_set_response i (ResultResp r) s in
  match result_kind r with
  | CASS_RESULT_KIND_ROWS =>
      if bool_decide (opcode q = CQL_OPCODE_EXECUTE) && no_metadata r && negb (skip_metadata q)
      then exec_on_error i CASS_ERROR_LIB_UNEXPECTED_RESPONSE s
      else set_or_wait (has_tracing_id r && listener_waits r)
  | CASS_RESULT_KIND_SCHEMA_CHANGE => set_or_wait (listener_waits r)
  | CASS_RESULT_KIND_SET_KEYSPACE => set_or_wait true
  | CASS_RESULT_KIND_PREPARED =>
      (** [notify_result_metadata_changed] asserts that the request is a PREPARE *)
      let s := asserting (bool_decide (opcode q = CQL_OPCODE_PREPARE)) s in
      if listener_waits r then hold i (HeldByListener (ResultResp r)) s else exec_set_response i (ResultResp r) s
  | CASS_RESULT_KIND_VOID => set_or_wait false
  end.

Definition on_error_unprepared (q : Request) (i : nat) (error : ErrorResponse) (s : handler) : option handler :=
  let prepare :=
    let (reply, s) := pop_conn s in
    match reply with
    | ConnWritten => Some (hold i HeldByPrepare s)
    | _ => exec_retry_current_host q i s
    end in
  match opcode q with
  | CQL_OPCODE_EXECUTE => prepare
  | CQL_OPCODE_BATCH =>
      if find_prepared_query q (error_prepared_id error) then prepare
      else Some (exec_set_error i CASS_ERROR_LIB_UNEXPECTED_RESPONSE s)
  | _ => Some (exec_set_error i CASS_ERROR_LIB_UNEXPECTED_RESPONSE s)
  end.

(** What the retry policy answers to an error; an error without a case is returned. *)
Definition error_decision (q : Request) (e : execution) (error : ErrorResponse) : RetryDecision :=
  match retry_policy q with
  | None => return_error
  | Some p =>
      let c := error_code error in
      if c =? CQL_ERROR_READ_TIMEOUT then
        on_read_timeout p (error_consistency error) (error_received error) (error_required error)
          (0 <? error_data_present error) (num_retries e)
      else if c =? CQL_ERROR_WRITE_TIMEOUT then
        if is_idempotent q then
          on_write_timeout p (error_consistency error) (error_received error) (error_required error)
            (error_write_type error) (num_retries e)
        else return_error
      else if c =? CQL_ERROR_UNAVAILABLE then
        on_unavailable p (error_consistency error) (error_required error) (error_received error) (num_retries e)
      else if (c =? CQL_ERROR_OVERLOADED) || (c =? CQL_ERROR_SERVER_ERROR) then
        if is_idempotent q then on_request_error p (consistency q e) (num_retries e) else return_error
      else return_error
  end.

Definition on_error_response (q : Request) (i : nat) (error : ErrorResponse) (s : handler) : option handler :=
  match executions s !! i with
  | None => None
  | Some e =>
      if error_code error =? CQL_ERROR_IS_BOOTSTRAPPING then exec_retry_next_host q i s
      else if error_code error =? CQL_ERROR_UNPREPARED then on_error_unprepared q i error s
      else
        let decision := error_decision q e error in
        match decision_type decision with
        | RETURN_ERROR =>
            Some (exec_set_error_with_error_response i (ErrorResp error) (CASS_ERROR_SERVER (error_code error)) s)
        | RETRY =>
            let s := upd i (exec_with_consistency (decision_consistency decision)) s in
            match (if retry_current_host_ decision then exec_retry_current_host q i s
                   else exec_retry_next_host q i s) with
            | None => None
            | Some s => Some (upd i (fun e => exec_with_retries (num_retries e + 1) e) s)
            end
        | IGNORE => Some (exec_set_response i EmptyResult s)
        end
  end.

Definition on_set (q : Request) (i : nat) (r : Response) (s : handler) : option handler :=
  let s := asserting (bool_decide (is_Some (host_of i s))) s in
  let s := decrement_inflight_requests (host_of i s) s in
  match r with
  | ResultResp r => Some (on_result_response q i r s)
  | ErrorResp e => on_error_response q i e s
  | _ => Some (exec_set_error i CASS_ERROR_LIB_UNEXPECTED_RESPONSE s)
  end.

(** ** Events *)

(** The answer to the USE request of a [ChainedSetKeyspaceCallback]. *)
Inductive keyspace_reply :=
| KeyspaceSet (w : option write_result) (** then the request is written: [None] without a stream *)
| KeyspaceError (** an error, another result or a failed write of the USE request *)
| KeyspaceUnexpected
| KeyspaceTimeout.

(** The answer to the PREPARE request of a [PrepareCallback]. *)
Inductive prepare_reply :=
| PreparedId (matches : bool)
| PrepareFailed (** another result, an error, a failed write or a timeout *)
| PrepareUnexpected.

Inductive event :=
| WriteFinished (i : nat) (ok : bool)
| ResponseRead (i : nat) (r : Response)
| ConnectionClosed (i : nat)
| KeyspaceReply (i : nat) (k : keyspace_reply)
| PrepareReply (i : nat) (p : prepare_reply)
| ListenerDone (i : nat)
| SpeculativeTimer (i : nat)
| RequestTimer.

(** A held execution that a connection releases to its callback. *)
Definition release (i : nat) (s : handler) : handler := hold i HeldByNone s.

(** [Connection::write] of the request after its keyspace is set, on the same connection. *)
Definition write_chained (q : Request) (i : nat) (w : option write_result) (s : handler) : option handler :=
  match w with
  | None => on_retry_current_host q i s
  | Some r =>
      match on_write (execute q) q i s with
      | None => None
      | Some s =>
          match r with
          | WRITTEN => Some (set_state i REQUEST_STATE_WRITING (hold i HeldByConnection s))
          | REQUEST_ERROR_ENCODE e => on_retry_current_host q i (exec_on_error i (encode_error_code e) s)
          | REQUEST_ERROR_NO_DATA_WRITTEN => on_retry_current_host q i (exec_on_error i CASS_ERROR_LIB_MESSAGE_ENCODE s)
          | _ => on_retry_current_host q i s
          end
      end
  end.

Definition on_keyspace_reply (q : Request) (i : nat) (k : keyspace_reply) (s : handler) : option handler :=
  match k with
  | KeyspaceSet w => write_chained q i w s
  | KeyspaceError => Some (exec_on_error i CASS_ERROR_LIB_UNABLE_TO_SET_KEYSPACE s)
  | KeyspaceUnexpected => Some (exec_on_error i CASS_ERROR_LIB_UNEXPECTED_RESPONSE s)
  | KeyspaceTimeout => on_retry_next_host q i s
  end.

Definition on_prepare_reply (q : Request) (i : nat) (p : prepare_reply) (s : handler) : option handler :=
  match p with
  | PreparedId true => on_retry_current_host q i s
  | PreparedId false => Some (handler_set_error CASS_ERROR_LIB_UNEXPECTED_RESPONSE s)
  | PrepareFailed => on_retry_next_host q i s
  | PrepareUnexpected => Some s
  end.

(** [RequestCallback::on_close], for a request whose response is awaited. *)
Definition on_close (q : Request) (i : nat) (s : handler) : option handler :=
  let s := set_state i REQUEST_STATE_FINISHED s in
  if is_idempotent q then on_retry_next_host q i s
  else Some (exec_on_error i CASS_ERROR_LIB_REQUEST_TIMED_OUT s).

(** [Connection::on_write] *)
Definition connection_on_write (q : Request) (i : nat) (e : execution) (ok : bool) (s : handler) : option handler :=
  match state e with
  | REQUEST_STATE_WRITING =>
      if ok then Some (set_state i REQUEST_STATE_READING s)
      else Some (exec_on_error i CASS_ERROR_LIB_WRITE_ERROR (set_state i REQUEST_STATE_FINISHED (release i s)))
  | REQUEST_STATE_READ_BEFORE_WRITE =>
      match read_before_write_response e with
      | Some r => on_set q i r (set_state i REQUEST_STATE_FINISHED (release i s))
      | None => Some s
      end
  | _ => Some s
  end.

(** [Connection::on_read], for the stream of the request. *)
Definition connection_on_read (q : Request) (i : nat) (e : execution) (r : Response) (s : handler) : option handler :=
  match state e with
  | REQUEST_STATE_READING => on_set q i r (set_state i REQUEST_STATE_FINISHED (release i s))
  | REQUEST_STATE_WRITING =>
      Some (upd i (exec_with_response (Some r)) (set_state i REQUEST_STATE_READ_BEFORE_WRITE s))
  | _ => Some s
  end.

Definition is_held (e : execution) : bool :=
  match held e with HeldByNone => false | _ => true end.

Definition alive (s : handler) : bool := existsb is_held (executions s).

(** The code that runs for an event; [None] when the event cannot happen. *)
Definition step (q : Request) (ev : event) (s : handler) : option handler :=
  let on i h (f : execution -> option handler) :=
    match executions s !! i with
    | Some e => if h (held e) : bool then f e else None
    | None => None
    end in
  let by_connection h := match h with HeldByConnection => true | _ => false end in
  match ev with
  | WriteFinished i ok => on i by_connection (fun e =>
      match state e with
      | REQUEST_STATE_WRITING | REQUEST_STATE_READ_BEFORE_WRITE => connection_on_write q i e ok s
      | _ => None
      end)
  | ResponseRead i r => on i by_connection (fun e =>
      match state e with
      | REQUEST_STATE_WRITING | REQUEST_STATE_READING => connection_on_read q i e r s
      | _ => None
      end)
  | ConnectionClosed i => on i by_connection (fun e =>
      if bool_decide (state e = REQUEST_STATE_READING) then on_close q i (release i s) else None)
  | KeyspaceReply i k =>
      on i (fun h => match h with HeldByKeyspace => true | _ => false end) (fun _ => on_keyspace_reply q i k (release i s))
  | PrepareReply i p =>
      on i (fun h => match h with HeldByPrepare => true | _ => false end) (fun _ => on_prepare_reply q i p (release i s))
  | ListenerDone i =>
      on i (fun h => match h with HeldByListener _ => true | _ => false end) (fun e =>
        match held e with
        | HeldByListener r => Some (exec_set_response i r (release i s))
        | _ => None
        end)
  | SpeculativeTimer i =>
      on i (fun h => match h with HeldByNone | HeldByListener _ => false | _ => true end) (fun e =>
        if schedule_timer e then execute q (upd i (exec_with_timer false) s) else None)
  | RequestTimer => if timer_running s && alive s then Some (on_timeout s) else None
  end.

(** A handler after [init], with the hosts of its query plan. *)
Definition new_handler (plan : list Z) (delay count : Z) (pool : list pool_reply) (conn : list conn_reply) : handler := {|
  is_done := false; running_executions := 0; query_plan := plan; plan_delay_ms := delay; plan_count := count;
  timer_running := false; future := None; attempted_addresses := []; inflight := ∅; executions := [];
  pool_tape := pool; conn_tape := conn; assert_failed := false |}.

(** The states of a request whose events all satisfy [ok]. *)
Inductive reachable (q : Request) (ok : event -> Prop) (s0 : handler) : handler -> Prop :=
| reach_start s : execute q s0 = Some s -> reachable q ok s0 s
| reach_step s ev s' : reachable q ok s0 s -> ok ev -> step q ev s = Some s' -> reachable q ok s0 s'.

Fixpoint run (q : Request) (evs : list event) (s : handler) : option handler :=
  match evs with
  | [] => Some s
  | ev :: evs => match step q ev s with Some s => run q evs s | None => None end
  end.

(** ** The retry loop returns *)

Lemma next_host_plan s :
  length (query_plan (next_host s).2) = pred (length (query_plan s)) /\
  executions (next_host s).2 = executions s /\
  ((next_host s).1 = None <-> query_plan s = []).
Proof. unfold next_host. destruct (query_plan s) eqn:E; cbn; rewrite ?E; by split_and!. Qed.

Lemma host_of_upd_host i h s : host_of i (upd i (exec_with_host h) s) = None \/ host_of i (upd i (exec_with_host h) s) = h.
Proof.
  unfold host_of, upd. cbn. rewrite list_lookup_alter_eq. destruct (executions s !! i); [by right|by left].
Qed.

Lemma exec_next_host_plan i s :
  length (query_plan (exec_next_host i s)) = pred (length (query_plan s)) /\
  (query_plan s = [] -> host_of i (exec_next_host i s) = None).
Proof.
  unfold exec_next_host. pose proof (next_host_plan s) as (Hl & _ & Hn).
  destruct (next_host s) as [h s1]. cbn in *. split; [done|].
  intros E. apply Hn in E as ->. by destruct (host_of_upd_host i None s1).
Qed.

Lemma pop_pool_same s :
  query_plan (pop_pool s).2 = query_plan s /\ executions (pop_pool s).2 = executions s.
Proof. unfold pop_pool. by destruct (pool_tape s). Qed.

(** What a loop from [s] needs: a host costs a turn, and one more for the end of the plan. *)
Definition enough (fuel : nat) (i : nat) (s : handler) : Prop :=
  (length (query_plan s) + (if host_of i s is Some _ then 2 else 1) <= fuel)%nat.

Definition returns (s : handler) (r : option handler) : Prop :=
  exists s', r = Some s' /\ (length (query_plan s') <= length (query_plan s))%nat.

Lemma handler_set_error_plan c s : query_plan (handler_set_error c s) = query_plan s.
Proof. unfold handler_set_error. by repeat case_match. Qed.

Lemma exec_on_error_plan i c s : query_plan (exec_on_error i c s) = query_plan s.
Proof.
  unfold exec_on_error, exec_set_error, handler_set_error_on_host, decrement_inflight_requests.
  repeat case_match; cbn; by rewrite ?handler_set_error_plan.
Qed.

Lemma set_state_plan i st s : query_plan (set_state i st s) = query_plan s.
Proof. unfold set_state. by repeat case_match. Qed.

Lemma returns_mono s s1 r : (length (query_plan s1) <= length (query_plan s))%nat -> returns s1 r -> returns s r.
Proof. intros H (s' & -> & H'). exists s'. split; [done|lia]. Qed.

Lemma execute_with_returns fuel loop s :
  (forall i s, enough fuel i s -> returns s (loop i s)) ->
  (length (query_plan s) + 1 <= fuel)%nat -> returns s (execute_with loop s).
Proof.
  intros Hloop Hf. unfold execute_with, new_execution, next_host.
  destruct (query_plan s) as [|h l] eqn:E; (eapply returns_mono; [|apply Hloop]); cbn [length] in Hf.
  - cbn. by rewrite E.
  - unfold enough, host_of. cbn. rewrite lookup_app_r, Nat.sub_diag by done. cbn. rewrite E. cbn. lia.
  - cbn. rewrite E. cbn. lia.
  - unfold enough. case_match; cbn; lia.
Qed.

Lemma on_write_returns ex q i s :
  (forall s', query_plan s' = query_plan s -> returns s' (ex s')) -> returns s (on_write ex q i s).
Proof.
  intros Hex. unfold on_write. destruct (host_of i s) as [h|]; [|by eexists].
  match goal with |- context [start_request q ?x] => set (s1 := start_request q x) end.
  assert (E : query_plan s1 = query_plan s) by (unfold s1, start_request; by repeat case_match).
  destruct (is_idempotent q); [|exists s1; by rewrite E].
  unfold next_execution. set (t := if 0 <=? plan_count s1 - 1 then plan_delay_ms s1 else -1).
  set (s2 := with_count _ s1).
  assert (E2 : query_plan s2 = query_plan s) by by rewrite <- E.
  destruct (t =? 0); [|destruct (0 <? t)].
  - eapply returns_mono; [|by apply Hex]. by rewrite E2.
  - eexists. split; [done|]. cbn. by rewrite E.
  - eexists. split; [done|]. by rewrite E2.
Qed.

Lemma retry_loop_returns fuel q : forall i s, enough fuel i s -> returns s (retry_loop fuel q i s).
Proof.
  induction fuel as [|f IH]; intros i s Hf; unfold enough in Hf; [case_match; lia|]. cbn [retry_loop].
  destruct (host_of i s) as [h|] eqn:Eh.
  2: { eexists. split; [done|]. by rewrite handler_set_error_plan. }
  destruct (pop_pool_same s) as [Ep Ee]. destruct (pop_pool s) as [reply s1]. cbn in Ep, Ee.
  assert (Hnext : forall s2, (length (query_plan s2) <= length (query_plan s))%nat ->
            returns s (retry_loop f q i (exec_next_host i s2))).
  { intros s2 H2. destruct (exec_next_host_plan i s2) as [Hl Hn].
    eapply returns_mono; [|apply IH; unfold enough].
    - lia.
    - destruct (query_plan s2) eqn:E2; [rewrite Hn by done; cbn in *; lia|].
      case_match; cbn in *; lia. }
  assert (Hnested : returns s1 (on_write (execute_with (fun j s => if is_done s then Some s else retry_loop f q j s)) q i s1)).
  { apply on_write_returns. intros s2 E2. apply (execute_with_returns f); [|rewrite E2, Ep; lia].
    intros j s3 H3. case_match; [by eexists|by apply IH]. }
  destruct reply as [| |r|[]]; try (apply Hnext; by rewrite Ep).
  - destruct Hnested as (s2 & -> & H2). rewrite Ep in H2.
    destruct r; try (eexists; split; [done|]);
      rewrite ?handler_set_error_plan, ?exec_on_error_plan, ?set_state_plan; try done.
    by apply Hnext.
  - eexists. split; [done|]. cbn. by rewrite Ep.
  - eexists. split; [done|]. rewrite handler_set_error_plan. by rewrite Ep.
Qed.

Lemma internal_retry_returns q i s : returns s (internal_retry q i s).
Proof.
  unfold internal_retry. case_match; [by eexists|]. apply retry_loop_returns.
  unfold enough, retry_fuel. case_match; lia.
Qed.

(** ** What every step preserves *)

(** A change that leaves the plan and the hosts of the executions, and only completes the request
    or records an attempt. *)
Record micro (s s' : handler) : Prop := {
  micro_plan : query_plan s' = query_plan s;
  micro_hosts : map current_host (executions s') = map current_host (executions s);
  micro_done : is_done s = true -> is_done s' = true;
  micro_future : forall o, future s = Some o -> future s' = Some o;
  micro_attempted : attempted_addresses s' = attempted_addresses s \/
    exists i h, host_of i s = Some h /\ attempted_addresses s' = attempted_addresses s ++ [h]
}.

Lemma map_host_alter f i l :
  (forall e, current_host (f e) = current_host e) -> map current_host (alter f i l) = map current_host l.
Proof.
  intros Hf. revert i. induction l as [|e l IH]; intros [|i]; cbn; [done..| |].
  - by rewrite Hf.
  - f_equal. apply IH.
Qed.

Lemma micro_upd i f s : (forall e, current_host (f e) = current_host e) -> micro s (upd i f s).
Proof. intros Hf. constructor; try done; [by apply map_host_alter|by left]. Qed.

Lemma micro_refl s : micro s s.
Proof. constructor; try done. by left. Qed.

Lemma micro_set_state i st s : micro s (set_state i st s).
Proof. unfold set_state. repeat case_match; [by apply micro_upd| |apply micro_refl]. constructor; try done. by left. Qed.

Create HintDb pres.

Section Preservation.
Context (q : Request) (P : handler -> Prop).
Context (P_micro : forall s s', P s -> micro s s' -> P s').
Context (P_next : forall i s, P s -> P (exec_next_host i s)).
Context (P_new : forall s, P s -> P (new_execution s)).

Definition preserved (r : option handler) : Prop := forall s', r = Some s' -> P s'.

Ltac micro_step := constructor; try done; by left.

Lemma pres_stop s : P s -> P (stop_request s).
Proof using P_micro. intros H. apply (P_micro s); [done|]. constructor; try done. by left. Qed.

Lemma pres_future o s : P s -> P (with_future o s).
Proof using P_micro. intros H. apply (P_micro s); [done|]. constructor; try done; [|by left]. cbn. by intros o' ->. Qed.

Lemma pres_running n s : P s -> P (with_running n s).
Proof using P_micro. intros H. apply (P_micro s); [done|]. micro_step. Qed.

Lemma pres_timer b s : P s -> P (with_timer b s).
Proof using P_micro. intros H. apply (P_micro s); [done|]. micro_step. Qed.

Lemma pres_assert b s : P s -> P (asserting b s).
Proof using P_micro. intros H. apply (P_micro s); [done|]. micro_step. Qed.

Lemma pres_upd i f s : (forall e, current_host (f e) = current_host e) -> P s -> P (upd i f s).
Proof using P_micro. intros Hf H. apply (P_micro s); [done|]. by apply micro_upd. Qed.

Lemma pres_set_state i st s : P s -> P (set_state i st s).
Proof using P_micro. intros H. eapply P_micro; [done|]. apply micro_set_state. Qed.

Lemma pres_decrement h s : P s -> P (decrement_inflight_requests h s).
Proof using P_micro. intros H. destruct h; [|done]. apply (P_micro s); [done|]. micro_step. Qed.

Lemma pres_pop_pool s : P s -> P (pop_pool s).2.
Proof using P_micro. intros H. apply (P_micro s); [done|]. unfold pop_pool. case_match; cbn; micro_step. Qed.

Lemma pres_pop_conn s : P s -> P (pop_conn s).2.
Proof using P_micro. intros H. apply (P_micro s); [done|]. unfold pop_conn. case_match; cbn; micro_step. Qed.

#[local] Hint Resolve pres_stop pres_future pres_running pres_timer pres_assert pres_set_state pres_decrement P_next P_new : pres.
#[local] Hint Extern 1 (P (upd _ _ _)) => apply pres_upd; [done|] : pres.
#[local] Hint Extern 1 (P (hold _ _ _)) => apply pres_upd; [done|] : pres.
#[local] Hint Extern 1 (P (release _ _)) => apply pres_upd; [done|] : pres.

Lemma pres_set_error c s : P s -> P (handler_set_error c s).
Proof using P_micro. unfold handler_set_error. intros H. repeat case_match; auto with pres. Qed.
#[local] Hint Resolve pres_set_error : pres.

Lemma pres_exec_set_error i c s : P s -> P (exec_set_error i c s).
Proof using P_micro. unfold exec_set_error, handler_set_error_on_host. intros H. repeat case_match; auto with pres. Qed.
#[local] Hint Resolve pres_exec_set_error : pres.

Lemma pres_exec_on_error i c s : P s -> P (exec_on_error i c s).
Proof using P_micro. unfold exec_on_error. auto with pres. Qed.

Lemma pres_exec_set_response i r s : P s -> P (exec_set_response i r s).
Proof using P_micro. unfold exec_set_response, handler_set_response. intros H. case_match; auto with pres. Qed.

Lemma pres_exec_set_error_response i r c s : P s -> P (exec_set_error_with_error_response i r c s).
Proof using P_micro.
  unfold exec_set_error_with_error_response, handler_set_error_with_error_response. intros H. case_match; auto with pres.
Qed.
#[local] Hint Resolve pres_exec_on_error pres_exec_set_response pres_exec_set_error_response : pres.

Lemma pres_on_write ex i s :
  (forall s, P s -> preserved (ex s)) -> P s -> preserved (on_write ex q i s).
Proof using P_micro.
  intros Hex H. unfold on_write. destruct (host_of i s) as [h|] eqn:Eh; [|intros s' [= <-]; auto with pres].
  match goal with |- context [start_request q ?x] => set (s1 := x) end.
  assert (H1 : P s1).
  { apply (P_micro s); [done|]. unfold s1. case_match; constructor; try done; [right; by exists i, h|by left]. }
  assert (H2 : P (start_request q s1)) by (unfold start_request; repeat case_match; auto with pres).
  destruct (is_idempotent q); [|by intros s' [= <-]]. unfold next_execution.
  set (s2 := start_request q s1) in *. cbn zeta.
  assert (H3 : P (with_count (plan_count s2 - 1) s2)). { apply (P_micro s2); [done|]. micro_step. }
  set (t := if 0 <=? plan_count s2 - 1 then plan_delay_ms s2 else -1).
  destruct (t =? 0); [by apply Hex|]. destruct (0 <? t); intros s' [= <-]; auto with pres.
Qed.

Lemma pres_loop fuel : forall i s, P s -> preserved (retry_loop fuel q i s).
Proof using P_micro P_next P_new.
  induction fuel as [|f IH]; intros i s H; [done|]. cbn [retry_loop].
  case_match; [|intros s' [= <-]; auto with pres].
  pose proof (pres_pop_pool s H) as H1. destruct (pop_pool s) as [reply s1]. cbn in H1.
  destruct reply as [| |r|[]]; try (apply IH; by auto with pres); try (intros s' [= <-]; by auto with pres).
  pose proof (pres_on_write (execute_with (fun j s => if is_done s then Some s else retry_loop f q j s)) i s1) as Hw.
  destruct (on_write _ q i s1) as [s2|]; [|done]. assert (H2 : P s2).
  { apply Hw; [|done|done]. intros s3 H3. unfold execute_with. cbn zeta.
    case_match; [intros s' [= <-]|apply IH]; auto with pres. }
  destruct r; try (intros s' [= <-]; by auto with pres). apply IH. auto with pres.
Qed.

Lemma pres_internal_retry i s : P s -> preserved (internal_retry q i s).
Proof using P_micro P_next P_new. intros H. unfold internal_retry. case_match; [by intros s' [= <-]|by apply pres_loop]. Qed.

Lemma pres_execute s : P s -> preserved (execute q s).
Proof using P_micro P_next P_new. intros H. apply pres_internal_retry. auto with pres. Qed.

Lemma pres_retry_current i s : P s -> preserved (exec_retry_current_host q i s).
Proof using P_micro P_next P_new. intros H. apply pres_internal_retry. auto with pres. Qed.

Lemma pres_retry_next i s : P s -> preserved (exec_retry_next_host q i s).
Proof using P_micro P_next P_new. intros H. apply pres_retry_current. auto with pres. Qed.

Lemma pres_on_retry_next i s : P s -> preserved (on_retry_next_host q i s).
Proof using P_micro P_next P_new. intros H. apply pres_retry_next. auto with pres. Qed.
#[local] Hint Resolve pres_execute pres_retry_current pres_retry_next pres_on_retry_next : pres.
#[local] Hint Extern 1 (preserved (Some _)) => intros ? [= <-] : pres.
#[local] Hint Extern 1 (preserved None) => intros ? [=] : pres.

Lemma pres_on_error_response i e s : P s -> preserved (on_error_response q i e s).
Proof using P_micro P_next P_new.
  intros H. unfold on_error_response, on_error_unprepared.
  pose proof (pres_pop_conn s H) as Hc. destruct (pop_conn s) as [reply s1]. cbn in Hc.
  destruct (executions s !! i) as [x|]; [|auto with pres].
  destruct (_ =? CQL_ERROR_IS_BOOTSTRAPPING); [by auto with pres|].
  destruct (_ =? CQL_ERROR_UNPREPARED); [repeat case_match; by auto with pres|].
  destruct (decision_type _); [by auto with pres| |by auto with pres].
  set (s2 := upd _ _ s). assert (H2 : P s2) by (unfold s2; auto with pres).
  pose proof (pres_retry_current i s2 H2) as Ha. pose proof (pres_retry_next i s2 H2) as Hb.
  destruct (retry_current_host_ _);
    [destruct (exec_retry_current_host q i s2)|destruct (exec_retry_next_host q i s2)]; try (by auto with pres);
    intros s' [= <-]; (apply pres_upd; [done|]); first [by apply Ha|by apply Hb].
Qed.

Lemma pres_on_set i r s : P s -> preserved (on_set q i r s).
Proof using P_micro P_next P_new.
  intros H. unfold on_set. destruct r; [| |by auto 6 with pres..].
  - intros s' [= <-]. unfold on_result_response. repeat case_match; auto 6 with pres.
  - apply pres_on_error_response. auto with pres.
Qed.
#[local] Hint Resolve pres_on_set : pres.

Lemma pres_write_chained i w s : P s -> preserved (write_chained q i w s).
Proof using P_micro P_next P_new.
  intros H. unfold write_chained, on_retry_current_host. destruct w as [r|]; [|by auto with pres].
  pose proof (pres_on_write (execute q) i s (pres_execute) H) as Hw.
  destruct (on_write _ q i s) as [s1|]; [|auto with pres]. assert (H1 : P s1) by by apply Hw.
  destruct r; auto with pres.
Qed.
#[local] Hint Resolve pres_write_chained : pres.

Lemma pres_step ev s : P s -> preserved (step q ev s).
Proof using P_micro P_next P_new.
  intros H. unfold step, connection_on_write, connection_on_read, on_close, on_keyspace_reply, on_prepare_reply,
    on_retry_current_host, on_timeout.
  destruct ev; repeat case_match; auto 8 with pres.
Qed.

End Preservation.

Lemma reachable_ind' q ok s0 (P : handler -> Prop) :
  (forall s s', P s -> micro s s' -> P s') -> (forall i s, P s -> P (exec_next_host i s)) ->
  (forall s, P s -> P (new_execution s)) -> P s0 -> forall s, reachable q ok s0 s -> P s.
Proof.
  intros Hm Hn Hw H0 s. induction 1 as [s Hs|s ev s' _ IH _ Hs].
  - by eapply pres_execute; [..|exact Hs].
  - by eapply pres_step; [..|exact IH|exact Hs].
Qed.

(** ** Hosts *)

Definition hosts (s : handler) : list Z := omap id (map current_host (executions s)).

(** The hosts the executions work on and the hosts of the plan that are left come from the
    original plan, each as often as it was there; so do the addresses that were attempted. *)
Definition follows (plan : list Z) (s : handler) : Prop :=
  hosts s ++ query_plan s ⊆+ plan /\ Forall (fun h => h ∈ plan) (attempted_addresses s).

Lemma host_of_hosts i s h : host_of i s = Some h -> h ∈ hosts s.
Proof.
  unfold host_of, hosts. intros H. apply list_elem_of_omap. exists (Some h). split; [|done].
  destruct (executions s !! i) as [e|] eqn:E; [|done]. apply list_elem_of_fmap. exists e. split; [done|].
  by eapply list_elem_of_lookup_2.
Qed.

Lemma alter_None {A} (f : A -> A) (i : nat) (l : list A) : l !! i = None -> alter f i l = l.
Proof.
  revert i. induction l as [|x l IH]; intros [|i] H; cbn in *; [done..|]. f_equal. by apply IH.
Qed.

Lemma alter_alter {A} (f g : A -> A) (i : nat) (l : list A) : alter g i (alter f i l) = alter (g ∘ f) i l.
Proof. revert i. induction l as [|x l IH]; intros [|i]; cbn; [done..|]. f_equal. apply IH. Qed.

Lemma NoDup_submultiset {A} (l k : list A) : l ⊆+ k -> NoDup k -> NoDup l.
Proof. intros [k' ->]%submseteq_Permutation Hk. by apply NoDup_app in Hk as [? _]. Qed.

Lemma NoDup_somes {A} (l : list (option A)) (i j : nat) x :
  NoDup (omap id l) -> l !! i = Some (Some x) -> l !! j = Some (Some x) -> i = j.
Proof.
  assert (Hin : forall (l : list (option A)) (i : nat), l !! i = Some (Some x) -> x ∈ omap id l).
  { intros k n H. apply list_elem_of_omap. exists (Some x). split; [|done]. by eapply list_elem_of_lookup_2. }
  revert i j. induction l as [|o l IH]; intros i j Hnd Hi Hj; [done|].
  destruct i as [|i], j as [|j]; cbn in Hi, Hj; [done| | |].
  - injection Hi as ->. cbn in Hnd. apply NoDup_cons in Hnd as [Hx _]. by apply Hin in Hj.
  - injection Hj as ->. cbn in Hnd. apply NoDup_cons in Hnd as [Hx _]. by apply Hin in Hi.
  - f_equal. apply IH; [|done..]. destruct o; [|done]. cbn in Hnd. by apply NoDup_cons in Hnd as [_ ?].
Qed.

Lemma hosts_with_host i h s e :
  executions s !! i = Some e ->
  exists A B, hosts s = A ++ option_list (current_host e) ++ B /\
    hosts (upd i (exec_with_host h) s) = A ++ option_list h ++ B.
Proof.
  intros He. apply list_elem_of_split_length in He as (l1 & l2 & El & Hi). unfold hosts, upd. cbn. rewrite El, Hi.
  rewrite alter_app_r_alt, Nat.sub_diag by done. cbn. rewrite !map_app, !omap_app. cbn.
  exists (omap id (map current_host l1)), (omap id (map current_host l2)). split; f_equal; by destruct (current_host e), h.
Qed.

Lemma follows_micro plan s s' : follows plan s -> micro s s' -> follows plan s'.
Proof.
  intros [Hh Ha] [Ep Eh _ _ Hat]. unfold follows, hosts in *. rewrite Ep, Eh. split; [done|].
  destruct Hat as [-> | (i & h & Hi & ->)]; [done|]. apply Forall_app. split; [done|]. constructor; [|done].
  eapply elem_of_submseteq; [|exact Hh]. apply elem_of_app. left. by eapply host_of_hosts.
Qed.

Lemma follows_next plan i s : follows plan s -> follows plan (exec_next_host i s).
Proof.
  intros [Hh Ha]. unfold exec_next_host, next_host.
  destruct (query_plan s) as [|h l] eqn:Eq; (split; [|done]); (etransitivity; [|exact Hh]);
    (destruct (executions s !! i) as [e|] eqn:Ee;
     [|unfold hosts, upd; cbn; rewrite alter_None by done; rewrite ?Eq; solve_submseteq]).
  - destruct (hosts_with_host i None s e Ee) as (A & B & -> & ->). cbn. rewrite Eq. solve_submseteq.
  - destruct (hosts_with_host i (Some h) (with_plan l s) e Ee) as (A & B & E1 & ->).
    change (hosts (with_plan l s)) with (hosts s) in E1. rewrite E1. cbn. solve_submseteq.
Qed.

Lemma follows_new plan s : follows plan s -> follows plan (new_execution s).
Proof.
  intros [Hh Ha]. unfold new_execution, next_host, follows, hosts in *.
  destruct (query_plan s) as [|h l] eqn:Eq; (split; [|done]); (etransitivity; [|exact Hh]); cbn;
    rewrite map_app, omap_app, ?Eq; cbn; solve_submseteq.
Qed.

(** C23: a request keeps to its query plan, whatever the connections answer and in whatever
    order: every address it attempts is a host of the plan, and when the plan names no host
    twice, two executions of the request, speculative ones included, never work on the same host. *)
Theorem query_plan_respected q ok plan delay count pool conn s :
  reachable q ok (new_handler plan delay count pool conn) s ->
  Forall (fun h => h ∈ plan) (attempted_addresses s) /\
  (NoDup plan -> forall i j h, host_of i s = Some h -> host_of j s = Some h -> i = j).
Proof.
  intros Hr. assert (Hf : follows plan s).
  { eapply (reachable_ind' q ok _ (follows plan)); [apply follows_micro|apply follows_next|apply follows_new| |exact Hr].
    by split. }
  destruct Hf as [Hh Ha]. split; [done|]. intros Hnd i j h Hi Hj.
  apply (NoDup_submultiset _ _ Hh), NoDup_app in Hnd as [Hnd _]. unfold host_of in *.
  eapply NoDup_somes; [exact Hnd|..]; rewrite list_lookup_fmap.
  - by destruct (executions s !! i); [cbn; f_equal|].
  - by destruct (executions s !! j); [cbn; f_equal|].
Qed.

Lemma query_plan_respected_witness :
  exists s, host_of 0 s = Some 7 /\ host_of 1 s = Some 8 /\ Forall (fun h => h ∈ [7; 8; 9]) (attempted_addresses s).
Proof.
  set (q := {| opcode := CQL_OPCODE_QUERY; is_idempotent := true; record_attempted_addresses := true;
               request_timeout_ms := 1000; wrapper_consistency := CASS_CONSISTENCY_ONE; retry_policy := None;
               skip_metadata := false; find_prepared_query := fun _ => false |}).
  eexists. split; [|split].
  3: { refine (proj1 (query_plan_respected q (fun _ => True) [7; 8; 9] 0 1 [Wrote WRITTEN; Wrote WRITTEN] [] _ _)).
       apply reach_start. vm_compute. reflexivity. }
  - reflexivity.
  - reflexivity.
Defined.

(** ** Completion is final *)

Lemma internal_retry_done q i s : is_done s = true -> internal_retry q i s = Some s.
Proof. unfold internal_retry. by intros ->. Qed.

(** Parts of the state the operations on executions and the future leave alone. *)
Definition core (s : handler) : bool * list Z := (is_done s, attempted_addresses s).

Lemma core_set_state i st s : core (set_state i st s) = core s.
Proof. unfold set_state. by repeat case_match. Qed.
Lemma core_decrement h s : core (decrement_inflight_requests h s) = core s.
Proof. by destruct h. Qed.
Lemma core_next_host i s : core (exec_next_host i s) = core s.
Proof. unfold exec_next_host, next_host. by destruct (query_plan s). Qed.
Lemma core_pop_conn s : core (pop_conn s).2 = core s.
Proof. unfold pop_conn. by destruct (conn_tape s). Qed.

Create Rewrite HintDb core.
#[local] Hint Rewrite core_set_state core_decrement core_next_host core_pop_conn : core.

Lemma done_core s a b : core s = (a, b) -> is_done s = a /\ attempted_addresses s = b.
Proof. by intros [= -> ->]. Qed.

Section Quiet.
Context (q : Request) (a : list Z).

(** A done request that attempted [a]. *)
Definition quiet (s : handler) : Prop := core s = (true, a).
Definition quiet_result (r : option handler) : Prop := forall s, r = Some s -> quiet s.

Lemma quiet_retry i s : quiet s -> quiet_result (exec_retry_current_host q i s).
Proof using.
  intros H. unfold exec_retry_current_host. rewrite internal_retry_done; [intros s' [= <-]; unfold quiet; by autorewrite with core|].
  assert (H' : quiet (set_state i REQUEST_STATE_NEW s)) by (unfold quiet; by autorewrite with core). by injection H'.
Qed.

Lemma quiet_error c s : quiet s -> quiet (handler_set_error c s).
Proof using. unfold quiet, handler_set_error, core. intros [= H E]. repeat case_match; cbn; by rewrite E. Qed.

Lemma quiet_exec_error i c s : quiet s -> quiet (exec_set_error i c s).
Proof using.
  intros H. unfold exec_set_error, handler_set_error_on_host. injection H as H E.
  repeat case_match; unfold quiet, core; cbn; try (by rewrite E);
    apply (quiet_error c); unfold quiet, core; cbn; by rewrite E.
Qed.

Lemma quiet_exec_on_error i c s : quiet s -> quiet (exec_on_error i c s).
Proof using. intros H. apply quiet_exec_error. unfold quiet. by autorewrite with core. Qed.

Lemma quiet_exec_response i r s : quiet s -> quiet (exec_set_response i r s).
Proof using. intros [= H E]. unfold exec_set_response, quiet, core. case_match; cbn; by rewrite ?H, E. Qed.

Lemma quiet_exec_error_response i r c s : quiet s -> quiet (exec_set_error_with_error_response i r c s).
Proof using. intros [= H E]. unfold exec_set_error_with_error_response, quiet, core. case_match; cbn; by rewrite ?H, E. Qed.

Lemma quiet_retry_next i s : quiet s -> quiet_result (exec_retry_next_host q i s).
Proof using. intros H. apply quiet_retry. unfold quiet. by autorewrite with core. Qed.

Lemma quiet_on_retry_next i s : quiet s -> quiet_result (on_retry_next_host q i s).
Proof using. intros H. apply quiet_retry_next. unfold quiet. by autorewrite with core. Qed.

Lemma quiet_new s : quiet s -> quiet_result (execute q s).
Proof using.
  intros [= H E]. unfold execute, execute_with. cbn zeta.
  set (s1 := with_running _ _). assert (H1 : quiet s1).
  { unfold quiet, core, s1, new_execution, next_host. destruct (query_plan s); cbn; by rewrite H, E. }
  rewrite internal_retry_done by by injection H1. by intros s' [= <-].
Qed.

Lemma quiet_set_state i st s : quiet s -> quiet (set_state i st s).
Proof using. intros H. unfold quiet. by rewrite core_set_state. Qed.

Lemma quiet_upd i f s : quiet s -> quiet (upd i f s).
Proof using. done. Qed.

Lemma quiet_asserting b s : quiet s -> quiet (asserting b s).
Proof using. done. Qed.

Create HintDb quiet.
#[local] Hint Resolve quiet_retry quiet_error quiet_exec_error quiet_exec_on_error quiet_exec_response
  quiet_exec_error_response quiet_retry_next quiet_on_retry_next quiet_new quiet_set_state quiet_asserting quiet_upd : quiet.
#[local] Hint Extern 1 (quiet_result (Some _)) => intros ? [= <-] : quiet.
#[local] Hint Extern 1 (quiet_result None) => intros ? [=] : quiet.

Lemma quiet_on_error_response i e s : quiet s -> quiet_result (on_error_response q i e s).
Proof using.
  intros H. unfold on_error_response, on_error_unprepared.
  assert (Hc : quiet (pop_conn s).2) by (unfold quiet; by autorewrite with core).
  destruct (pop_conn s) as [reply s1]. cbn in Hc.
  destruct (executions s !! i) as [x|]; [|auto with quiet].
  destruct (_ =? CQL_ERROR_IS_BOOTSTRAPPING); [by auto with quiet|].
  destruct (_ =? CQL_ERROR_UNPREPARED); [repeat case_match; by auto with quiet|].
  destruct (decision_type _); [by auto with quiet| |by auto with quiet].
  set (s2 := upd _ _ s). assert (H2 : quiet s2) by done.
  pose proof (quiet_retry i s2 H2) as Ha. pose proof (quiet_retry_next i s2 H2) as Hb.
  destruct (retry_current_host_ _);
    [destruct (exec_retry_current_host q i s2)|destruct (exec_retry_next_host q i s2)]; try (by auto with quiet);
    intros s' [= <-]; first [exact (Ha _ eq_refl)|exact (Hb _ eq_refl)].
Qed.

Lemma quiet_on_set i r s : quiet s -> quiet_result (on_set q i r s).
Proof using.
  intros H. unfold on_set. set (s0 := asserting _ s). assert (H0 : quiet s0) by done.
  assert (H1 : quiet (decrement_inflight_requests (host_of i s0) s0)) by (unfold quiet; by autorewrite with core).
  destruct r; [|by apply quiet_on_error_response|by auto with quiet..].
  intros s' [= <-]. unfold on_result_response. repeat case_match; auto with quiet.
Qed.
#[local] Hint Resolve quiet_on_set : quiet.

Lemma quiet_step ev s :
  (forall i k, ev <> KeyspaceReply i k) -> quiet s -> quiet_result (step q ev s).
Proof using.
  intros Hev H. unfold step, connection_on_write, connection_on_read, on_close, on_prepare_reply,
    on_retry_current_host, on_timeout.
  destruct ev as [i ok|i r|i|i k|i p|i|i|]; [..|by destruct (timer_running s && alive s); auto with quiet];
    try (by destruct (Hev i k));
    destruct (executions s !! i) as [e|]; try (by auto with quiet);
    assert (Hrel : quiet (release i s)) by done;
    repeat case_match; auto with quiet.
Qed.

End Quiet.

(** What a request has completed with is kept. *)
Definition kept (o : outcome) (s : handler) : Prop := future s = Some o.

Lemma kept_next o i s : kept o s -> kept o (exec_next_host i s).
Proof. unfold exec_next_host, next_host, kept. by destruct (query_plan s). Qed.

Lemma kept_new o s : kept o s -> kept o (new_execution s).
Proof. unfold new_execution, next_host, kept. by destruct (query_plan s). Qed.

Lemma kept_micro o s s' : kept o s -> micro s s' -> kept o s'.
Proof. intros Hs [_ _ _ Hf _]. by apply Hf. Qed.

Lemma retry_keeps q i s o s' : kept o s -> exec_retry_current_host q i s = Some s' -> kept o s'.
Proof. intros Hs. eapply (pres_retry_current q (kept o)); eauto using kept_next, kept_new, kept_micro. Qed.

Lemma step_keeps q ev s o s' : kept o s -> step q ev s = Some s' -> kept o s'.
Proof. intros Hs. eapply (pres_step q (kept o)); eauto using kept_next, kept_new, kept_micro. Qed.

Lemma step_stays_done q ev s s' : is_done s = true -> step q ev s = Some s' -> is_done s' = true.
Proof.
  intros Hs. eapply (pres_step q (fun x => is_done x = true)); [| | |done].
  - intros x x' Hx [_ _ Hd _ _]. by apply Hd.
  - intros i x Hx. unfold exec_next_host, next_host. by destruct (query_plan x).
  - intros x Hx. unfold new_execution, next_host. by destruct (query_plan x).
Qed.

(** A write in a done request adds its own attempt, and starts nothing. *)
Lemma on_write_done q a i s s' : quiet a s -> on_write (execute q) q i s = Some s' -> quiet a s' \/ exists h, host_of i s = Some h /\ quiet (a ++ [h]) s'.
Proof.
  intros H. unfold on_write. destruct (host_of i s) as [h|]; [|intros [= <-]; left; by apply quiet_asserting].
  set (s1 := if record_attempted_addresses q then _ else _).
  assert (quiet a s1 \/ quiet (a ++ [h]) s1) as H1.
  { injection H as Hd Ea. unfold s1, quiet, core. destruct (record_attempted_addresses q); [right|left]; unfold increment_inflight_requests; cbn; by rewrite Hd, Ea. }
  assert (forall b, quiet b s1 -> forall s2, (let s := start_request q s1 in
      if is_idempotent q then let (timeout, s) := next_execution s in if timeout =? 0 then execute q s else if 0 <? timeout then Some (upd i (exec_with_timer true) s) else Some s else Some s) = Some s2 -> quiet b s2) as Hk.
  { intros b Hb s2. cbn zeta. assert (quiet b (start_request q s1)) as H2 by (unfold start_request; by repeat case_match).
    destruct (is_idempotent q); [|by intros [= <-]]. unfold next_execution. repeat case_match; try (by intros [= <-]); try (by apply quiet_new); simplify_eq; try (by intros [= <-]); try by apply quiet_new. }
  intros E. destruct H1 as [H1|H1]; [left|right; exists h; split; [done|]]; by eapply Hk.
Qed.

Lemma write_chained_done q a i w s s' : quiet a s -> write_chained q i w s = Some s' -> quiet a s' \/ exists h, host_of i s = Some h /\ quiet (a ++ [h]) s'.
Proof.
  intros H. unfold write_chained, on_retry_current_host. destruct w as [r|]; [|intros E; left; by eapply quiet_retry].
  destruct (on_write (execute q) q i s) as [s1|] eqn:Ew; [|done]. intros E.
  assert (forall b, quiet b s1 -> quiet b s') as Hk.
  { intros b Hb. destruct r; try (by eapply (quiet_retry q b); [|exact E]); try (eapply (quiet_retry q b); [|exact E]; by apply quiet_exec_on_error).
    injection E as <-. by apply quiet_set_state. }
  destruct (on_write_done q a i s s1 H Ew) as [H1|(h & Hh & H1)]; [left; by apply Hk|right; exists h; split; [done|by apply Hk]].
Qed.

Lemma keyspace_reply_done q a i k s s' : quiet a s -> step q (KeyspaceReply i k) s = Some s' -> quiet a s' \/ exists h, host_of i s = Some h /\ quiet (a ++ [h]) s'.
Proof.
  intros H. cbn [step]. unfold host_of at 1. destruct (executions s !! i) as [e|] eqn:He; [|done]. destruct (held e) eqn:Hh; try done.
  assert (Hrel : quiet a (release i s)) by done. destruct k as [w| | |]; cbn [on_keyspace_reply]; intros E.
  - destruct (write_chained_done q a i w _ s' Hrel E) as [?|(h & Hh' & ?)]; [by left|right; exists h; split; [|done]]. unfold host_of, release, hold, upd in Hh'. cbn in Hh'. rewrite list_lookup_alter_eq, He in Hh'. exact Hh'.
  - injection E as <-. left. by apply quiet_exec_on_error.
  - injection E as <-. left. by apply quiet_exec_on_error.
  - left. by eapply quiet_on_retry_next.
Qed.

(** C9: what completes a request is final.  Whatever happens after - responses of other
    executions, timers, errors -, the future keeps the outcome it was given first and the request
    stays done.  Once it is done no event adds an attempt, with one exception: an execution that had
    sent a USE before writes its request to that host when the USE is answered. *)
Theorem completion_is_final q ev s s' :
  step q ev s = Some s' ->
  (forall o, future s = Some o -> future s' = Some o) /\
  (is_done s = true -> is_done s' = true) /\
  (is_done s = true -> attempted_addresses s' = attempted_addresses s \/
    exists i k e h, ev = KeyspaceReply i k /\ executions s !! i = Some e /\ held e = HeldByKeyspace /\ current_host e = Some h /\
      attempted_addresses s' = attempted_addresses s ++ [h]).
Proof.
  intros Hs. split_and!; [intros o Ho; by eapply step_keeps|intros Hd; by eapply step_stays_done|].
  intros Hdone. assert (H0 : quiet (attempted_addresses s) s) by (unfold quiet, core; by rewrite Hdone).
  assert ((exists i k, ev = KeyspaceReply i k) \/ forall i k, ev <> KeyspaceReply i k) as [(i & k & ->)|Hev] by (destruct ev; eauto).
  - destruct (keyspace_reply_done q _ i k s s' H0 Hs) as [H|(h & Hh & H)]; [left; by injection H|]. right. cbn [step] in Hs. unfold host_of in Hh.
    destruct (executions s !! i) as [e|] eqn:He; [|done]. exists i, k, e, h. split_and!; try done; [by destruct (held e)|by injection H].
  - left. assert (Hq : quiet (attempted_addresses s) s') by (eapply quiet_step; [exact Hev|exact H0|exact Hs]). by injection Hq.
Qed.

Definition sample_request : Request := {|
  opcode := CQL_OPCODE_QUERY; is_idempotent := true; record_attempted_addresses := true;
  request_timeout_ms := 1000; wrapper_consistency := CASS_CONSISTENCY_ONE;
  retry_policy := Some DefaultRetryPolicy; skip_metadata := false; find_prepared_query := fun _ => false |}.

(** Two executions run and the first one answers: the request is done.  Then the host of the second answers with an error that would be retried on the third host of the plan; or, when the second had sent a USE, that is answered. *)
Definition answered_first : Response := ResultResp {| result_kind := CASS_RESULT_KIND_VOID; no_metadata := false; has_tracing_id := false; listener_waits := false |}.
Definition done_trace : list event := [WriteFinished 0 true; SpeculativeTimer 0; WriteFinished 1 true; ResponseRead 0 answered_first].
Definition overloaded : Response := ErrorResp {|
  error_code := CQL_ERROR_OVERLOADED; error_consistency := CASS_CONSISTENCY_ONE; error_received := 0;
  error_required := 0; error_data_present := 0; error_write_type := CASS_WRITE_TYPE_UNKNOWN; error_prepared_id := 0 |}.

Definition run_new (pool : list pool_reply) (evs : list event) : option handler :=
  match execute sample_request (new_handler [7; 8; 9] 50 1 pool []) with Some s => run sample_request evs s | None => None end.

(** The states after the first answer, and the events that follow. *)
Definition first_answered : handler := default (new_handler [] 0 0 [] []) (run_new [Wrote WRITTEN; Wrote WRITTEN; Wrote WRITTEN] done_trace).
Definition using_keyspace : handler :=
  default (new_handler [] 0 0 [] []) (run_new [Wrote WRITTEN; SetsKeyspace ConnWritten] [WriteFinished 0 true; SpeculativeTimer 0; ResponseRead 0 answered_first]).
Definition use_answered : event := KeyspaceReply 1 (KeyspaceSet (Some WRITTEN)).

Lemma completion_is_final_witness :
  (is_done first_answered = true /\ attempted_addresses first_answered = [7; 8] /\
   exists s', step sample_request (ResponseRead 1 overloaded) first_answered = Some s' /\ is_done s' = true /\ future s' = Some (SetResponse 7 answered_first) /\ attempted_addresses s' = [7; 8]) /\
  (is_done using_keyspace = true /\ attempted_addresses using_keyspace = [7] /\
   exists s', step sample_request use_answered using_keyspace = Some s' /\ future s' = Some (SetResponse 7 answered_first) /\ attempted_addresses s' = [7; 8]).
Proof.
  split; (split; [vm_compute; reflexivity|]; split; [vm_compute; reflexivity|]).
  - destruct (step sample_request (ResponseRead 1 overloaded) first_answered) as [s'|] eqn:Hs; [|exfalso; vm_compute in Hs; discriminate Hs].
    destruct (completion_is_final sample_request _ _ _ Hs) as (H1 & H2 & H3). exists s'. split; [reflexivity|]. split; [apply H2; vm_compute; reflexivity|]. split; [apply H1; vm_compute; reflexivity|].
    destruct H3 as [H|(i & k & e & h & Hev & _)]; [vm_compute; reflexivity|rewrite H; vm_compute; reflexivity|discriminate Hev].
  - destruct (step sample_request use_answered using_keyspace) as [s'|] eqn:Hs; [|exfalso; vm_compute in Hs; discriminate Hs].
    destruct (completion_is_final sample_request _ _ _ Hs) as (H1 & _ & H3). exists s'. split; [reflexivity|]. split; [apply H1; vm_compute; reflexivity|].
    vm_compute in Hs. injection Hs as <-. reflexivity.
Defined.

(** ** Assertions *)

(** The responses a server gives to a request of this kind. *)
Definition response_ok (q : Request) (r : Response) : Prop :=
  match r with
  | ResultResp r => result_kind r = CASS_RESULT_KIND_PREPARED -> opcode q = CQL_OPCODE_PREPARE
  | _ => True
  end.

Definition event_ok (q : Request) (ev : event) : Prop :=
  match ev with
  | ResponseRead _ r => response_ok q r
  | _ => True
  end.

Section Assertions.
Context (q : Request).

(** What an execution looks like to who holds it. *)
Definition exec_ok (e : execution) : Prop :=
  match held e with
  | HeldByNone => state e = REQUEST_STATE_NEW \/ state e = REQUEST_STATE_FINISHED
  | HeldByConnection =>
      is_Some (current_host e) /\
      match state e with
      | REQUEST_STATE_WRITING | REQUEST_STATE_READING => True
      | REQUEST_STATE_READ_BEFORE_WRITE =>
          exists r, read_before_write_response e = Some r /\ response_ok q r
      | _ => False
      end
  | HeldByKeyspace => is_Some (current_host e) /\ state e = REQUEST_STATE_NEW
  | HeldByPrepare | HeldByListener _ => is_Some (current_host e) /\ state e = REQUEST_STATE_FINISHED
  end.

Definition view (s : handler) : list execution * bool := (executions s, assert_failed s).

Definition good (s : handler) : Prop := assert_failed s = false /\ Forall exec_ok (executions s).
Definition good_result (r : option handler) : Prop := forall s, r = Some s -> good s.

(** Execution [i] is on the stack: nobody holds it. *)
Definition idle (i : nat) (st : State) (h : option Z) (s : handler) : Prop :=
  good s /\ exists e, executions s !! i = Some e /\ held e = HeldByNone /\ state e = st /\ current_host e = h.

Lemma good_view s s' : view s' = view s -> good s -> good s'.
Proof using. unfold good. by intros [= -> ->]. Qed.

Lemma idle_view i st h s s' : view s' = view s -> idle i st h s -> idle i st h s'.
Proof using. intros Hv [Hg He]. split; [by eapply good_view|]. injection Hv as -> _. exact He. Qed.

Lemma view_set_error c s : view (handler_set_error c s) = view s.
Proof using. unfold handler_set_error. by repeat case_match. Qed.
Lemma view_exec_set_error i c s : view (exec_set_error i c s) = view s.
Proof using. unfold exec_set_error, handler_set_error_on_host. repeat case_match; rewrite ?view_set_error; done. Qed.
Lemma view_decrement h s : view (decrement_inflight_requests h s) = view s.
Proof using. by destruct h. Qed.
Lemma view_exec_on_error i c s : view (exec_on_error i c s) = view s.
Proof using. unfold exec_on_error. by rewrite view_exec_set_error, view_decrement. Qed.
Lemma view_pop_pool s : view (pop_pool s).2 = view s.
Proof using. unfold pop_pool. by destruct (pool_tape s). Qed.
Lemma view_pop_conn s : view (pop_conn s).2 = view s.
Proof using. unfold pop_conn. by destruct (conn_tape s). Qed.

Lemma idle_host i st h s : idle i st h s -> host_of i s = h.
Proof using. intros [_ (e & He & _ & _ & <-)]. unfold host_of. by rewrite He. Qed.

Lemma idle_good i st h s : idle i st h s -> good s.
Proof using. by intros [? _]. Qed.

Lemma view_exec_response i st h s r : idle i st (Some h) s -> view (exec_set_response i r s) = view s.
Proof using. intros Hi. unfold exec_set_response. by rewrite (idle_host _ _ _ _ Hi). Qed.
Lemma view_exec_error_response i st h s r c :
  idle i st (Some h) s -> view (exec_set_error_with_error_response i r c s) = view s.
Proof using. intros Hi. unfold exec_set_error_with_error_response. by rewrite (idle_host _ _ _ _ Hi). Qed.

(** Updates of one execution. *)
Lemma good_upd i f s :
  (forall e, executions s !! i = Some e -> exec_ok (f e)) -> good s -> good (upd i f s).
Proof using.
  intros Hf [Ha Hg]. split; [done|]. cbn. rewrite Forall_lookup in Hg |- *. intros j e.
  destruct (decide (i = j)) as [<-|Hne].
  - rewrite list_lookup_alter_eq. destruct (executions s !! i) eqn:E; [|done]. cbn. intros [= <-]. by apply Hf.
  - rewrite list_lookup_alter_ne by done. by apply Hg.
Qed.

Lemma idle_upd i st h st' h' f s :
  idle i st h s ->
  (forall e, held e = HeldByNone -> state e = st -> current_host e = h ->
     held (f e) = HeldByNone /\ state (f e) = st' /\ current_host (f e) = h') ->
  (st' = REQUEST_STATE_NEW \/ st' = REQUEST_STATE_FINISHED) -> idle i st' h' (upd i f s).
Proof using.
  intros [Hg (e & He & Hh & Hs & Hc)] Hf Hst. destruct (Hf e Hh Hs Hc) as (Hh' & Hs' & Hc'). split.
  - apply good_upd; [|done]. intros e' He'. assert (e' = e) as -> by congruence. unfold exec_ok. by rewrite Hh', Hs'.
  - exists (f e). cbn. by rewrite list_lookup_alter_eq, He.
Qed.

Lemma idle_next i st h s :
  idle i st h s -> idle i st (next_host s).1 (exec_next_host i s).
Proof using.
  intros Hi. assert (Hst : st = REQUEST_STATE_NEW \/ st = REQUEST_STATE_FINISHED).
  { destruct Hi as [[_ Hg] (e & He & Hh & Hs & _)]. rewrite Forall_lookup in Hg. specialize (Hg i e He).
    unfold exec_ok in Hg. by rewrite Hh, Hs in Hg. }
  unfold exec_next_host. assert (Hv : view (next_host s).2 = view s) by (unfold next_host; by destruct (query_plan s)).
  destruct (next_host s) as [h' s1]. cbn in *.
  eapply idle_upd; [by eapply idle_view| |done]. done.
Qed.

Lemma idle_hold i st h hd s :
  idle i st (Some h) s ->
  (hd = HeldByKeyspace /\ st = REQUEST_STATE_NEW) \/
  ((hd = HeldByPrepare \/ exists r, hd = HeldByListener r) /\ st = REQUEST_STATE_FINISHED) ->
  good (hold i hd s).
Proof using.
  intros [Hg (e & He & _ & Hs & Hc)] Hhd. apply good_upd; [|done]. intros e' He'. assert (e' = e) as -> by congruence.
  unfold exec_ok. cbn. rewrite Hs, Hc. by destruct Hhd as [[-> ->]|[[->|[r ->]] ->]].
Qed.

Lemma idle_written i h s :
  idle i REQUEST_STATE_NEW (Some h) s ->
  good (set_state i REQUEST_STATE_WRITING (hold i HeldByConnection s)).
Proof using.
  intros [Hg (e & He & _ & Hs & Hc)]. unfold set_state, hold. cbn. rewrite list_lookup_alter_eq, He. cbn. rewrite Hs. cbn.
  unfold upd. cbn. rewrite alter_alter.
  change (good (upd i (exec_with_state REQUEST_STATE_WRITING ∘ exec_with_holder HeldByConnection) s)).
  apply good_upd; [|done].
  intros e' He'. assert (e' = e) as -> by congruence. unfold exec_ok. cbn. by rewrite Hc.
Qed.

(** The retry loop, on an execution that is ready to be written. *)
Definition frame (n : nat) (s s' : handler) : Prop :=
  forall k, (k < n)%nat -> executions s' !! k = executions s !! k.

Definition good_from (n : nat) (s : handler) (r : option handler) : Prop :=
  forall s', r = Some s' -> good s' /\ frame n s s' /\ (length (executions s) <= length (executions s'))%nat.

Lemma good_from_view n s s' r : view s' = view s -> good_from n s' r -> good_from n s r.
Proof using. intros [= E _] H x Hx. destruct (H x Hx) as (? & Hf & Hl). unfold frame in *. by rewrite E in Hf, Hl. Qed.

Lemma good_from_Some n s s' :
  good s' -> frame n s s' -> length (executions s') = length (executions s) -> good_from n s (Some s').
Proof using. intros ? ? Hl x [= <-]. split_and!; [done..|lia]. Qed.

Lemma upd_frame n i f s : (n <= i)%nat -> frame n s (upd i f s).
Proof using. intros Hn k Hk. cbn. rewrite list_lookup_alter_ne by lia. done. Qed.

Lemma set_state_frame i st s :
  frame i s (set_state i st s) /\ length (executions (set_state i st s)) = length (executions s).
Proof using.
  unfold set_state. repeat case_match; (split; [|cbn; by rewrite ?length_alter]); [by apply upd_frame|done..].
Qed.

Lemma good_new s :
  good s -> idle (length (executions s)) REQUEST_STATE_NEW (next_host s).1 (new_execution s).
Proof using.
  intros [Ha Hg]. unfold new_execution, next_host. destruct (query_plan s);
    (split; [split; [done|]; cbn; apply Forall_app; split; [done|]; constructor; [by left|done]|]);
    eexists; cbn; rewrite lookup_app_r, Nat.sub_diag by done; by split_and!.
Qed.

Lemma new_frame s : frame (length (executions s)) s (new_execution s) /\
  length (executions (new_execution s)) = S (length (executions s)).
Proof using.
  unfold new_execution, next_host. destruct (query_plan s); cbn; (split; [|rewrite length_app; cbn; lia]);
    intros k Hk; cbn; by rewrite lookup_app_l.
Qed.

(** What an [internal_retry] must satisfy. *)
Definition loop_ok (loop : nat -> handler -> option handler) : Prop :=
  forall i h s, idle i REQUEST_STATE_NEW h s -> good_from i s (loop i s).

Lemma execute_with_good loop s :
  loop_ok loop -> good s -> good_from (length (executions s)) s (execute_with loop s).
Proof using.
  intros Hl Hg x Hx. unfold execute_with in Hx. cbn zeta in Hx.
  destruct (new_frame s) as [Hf Hn]. apply (Hl _ (next_host s).1) in Hx as (Hgx & Hfx & Hlx).
  - split; [done|]. split; [|cbn in Hlx; rewrite Hn in Hlx; lia]. intros k Hk. rewrite Hfx by done. by apply Hf.
  - eapply idle_view; [|by apply good_new]. done.
Qed.

Lemma on_write_idle ex i h s :
  (forall s, good s -> good_from (length (executions s)) s (ex s)) ->
  idle i REQUEST_STATE_NEW (Some h) s ->
  forall s', on_write ex q i s = Some s' -> idle i REQUEST_STATE_NEW (Some h) s' /\ frame i s s' /\
    (length (executions s) <= length (executions s'))%nat.
Proof using.
  intros Hex Hi s'. unfold on_write. rewrite (idle_host _ _ _ _ Hi).
  match goal with |- context [start_request q ?x] => set (s1 := start_request q x) end.
  assert (E : view s1 = view s) by (unfold s1, start_request; by repeat case_match).
  assert (Hsame : forall s2, view s2 = view s -> idle i REQUEST_STATE_NEW (Some h) s2 /\ frame i s s2 /\
                    (length (executions s) <= length (executions s2))%nat).
  { intros s2 E2. split; [by eapply idle_view|]. injection E2 as E2 _. unfold frame. by rewrite E2. }
  destruct (is_idempotent q); [|intros [= <-]; by apply Hsame]. unfold next_execution.
  set (t := if 0 <=? plan_count s1 - 1 then plan_delay_ms s1 else -1). set (s2 := with_count _ s1).
  assert (E2 : view s2 = view s) by done. destruct (t =? 0); [|destruct (0 <? t)].
  - intros Hx. apply Hex in Hx as (Hg & Hf & Hl); [|eapply good_view; [done|]; by eapply idle_good].
    assert (Ex : executions s2 = executions s) by by injection E2.
    destruct Hi as [Hgs (e & He & Hrest)]. unfold frame in Hf. rewrite Ex in Hf, Hl.
    assert (i < length (executions s))%nat by by eapply lookup_lt_Some.
    split; [|split; [intros k Hk; apply Hf; lia|done]]. split; [done|]. exists e. by rewrite Hf.
  - intros [= <-]. destruct (Hsame s2 E2) as (Hi2 & Hf2 & Hl2). split_and!.
    + eapply idle_upd; [exact Hi2| |by left]. done.
    + intros k Hk. rewrite upd_frame with (n := i) by lia. by apply Hf2.
    + cbn. rewrite length_alter. exact Hl2.
  - intros [= <-]. by apply Hsame.
Qed.

Lemma exec_next_frame i s :
  frame i s (exec_next_host i s) /\ length (executions (exec_next_host i s)) = length (executions s).
Proof using.
  unfold exec_next_host, next_host. destruct (query_plan s); (split; [|cbn; by rewrite length_alter]);
    intros k Hk; cbn; by rewrite list_lookup_alter_ne by lia.
Qed.

Lemma retry_loop_good fuel : loop_ok (retry_loop fuel q).
Proof using.
  induction fuel as [|f IH]; intros i h s Hi; [done|]. cbn [retry_loop]. rewrite (idle_host _ _ _ _ Hi).
  assert (Hkeep : forall s2, idle i REQUEST_STATE_NEW h s -> view s2 = view s -> good_from i s (Some s2)).
  { intros s2 _ E. apply (good_from_view i s s2); [done|]. apply good_from_Some; [|done..].
    eapply good_view; [exact E|]. by eapply idle_good. }
  destruct h as [h|]; [|apply Hkeep; [done|apply view_set_error]].
  pose proof (view_pop_pool s) as Ev. destruct (pop_pool s) as [reply s1]. cbn in Ev.
  assert (Hi1 : idle i REQUEST_STATE_NEW (Some h) s1) by by eapply idle_view.
  assert (Hnext : forall s2, idle i REQUEST_STATE_NEW (Some h) s2 -> frame i s s2 ->
            (length (executions s) <= length (executions s2))%nat -> good_from i s (retry_loop f q i (exec_next_host i s2))).
  { intros s2 H2 Hf Hl x Hx. destruct (exec_next_frame i s2) as [Hf2 Hl2].
    apply (IH i (next_host s2).1) in Hx as (Hg & Hfx & Hlx); [|by eapply idle_next].
    split; [done|]. split; [|lia]. intros k Hk. rewrite Hfx, Hf2 by done. by apply Hf. }
  assert (Hs1 : frame i s s1 /\ (length (executions s) <= length (executions s1))%nat).
  { unfold frame. injection Ev as -> _. done. }
  destruct Hs1 as [Hf1 Hl1]. destruct reply as [| |r|[]]; try (by apply Hnext).
  - destruct (on_write _ q i s1) as [s2|] eqn:Ew; [|done].
    eapply on_write_idle in Ew as (H2 & Hf2 & Hl2); [|intros s3 H3; apply execute_with_good; [|done]|exact Hi1].
    2: { intros j h' s4 H4 x. case_match; [intros [= <-]; split; [by eapply idle_good|done]|by apply (IH _ h')]. }
    assert (Hf : frame i s s2) by (intros k Hk; rewrite Hf2 by done; by apply Hf1).
    assert (Hkeep2 : forall s3, view s3 = view s2 -> good_from i s (Some s3)).
    { intros s3 E x [= <-]. split; [eapply good_view; [exact E|]; by eapply idle_good|].
      injection E as E _. unfold frame. rewrite E. split; [done|lia]. }
    destruct r; try (apply Hkeep2; first [by apply view_set_error|by apply view_exec_on_error]).
    + intros x [= <-]. split; [by eapply idle_written|].
      destruct (set_state_frame i REQUEST_STATE_WRITING (hold i HeldByConnection s2)) as [Hf3 ->].
      cbn. rewrite length_alter. split; [|lia]. intros k Hk. rewrite Hf3 by done. cbn.
      rewrite list_lookup_alter_ne by lia. by apply Hf.
    + apply Hnext; [done..|lia].
  - apply good_from_view with s1; [done|]. apply good_from_Some; [|by apply upd_frame|cbn; by rewrite length_alter].
    eapply idle_hold; [exact Hi1|by left].
  - apply Hkeep; [done|]. by rewrite view_set_error.
Qed.

Lemma internal_retry_good i h s : idle i REQUEST_STATE_NEW h s -> good_result (internal_retry q i s).
Proof using.
  intros Hi s'. unfold internal_retry. case_match; [intros [= <-]; by eapply idle_good|].
  intros Hs. by eapply retry_loop_good in Hs as [? _].
Qed.

Lemma set_state_allowed i st s e :
  executions s !! i = Some e -> state_allowed (state e) st = true -> set_state i st s = upd i (exec_with_state st) s.
Proof using. unfold set_state. by intros -> ->. Qed.

Lemma idle_reset i st h s :
  idle i st h s -> idle i REQUEST_STATE_NEW h (set_state i REQUEST_STATE_NEW s).
Proof using.
  intros Hi. pose proof Hi as [[_ Hg] (e & He & Hh & Hs & _)]. rewrite Forall_lookup in Hg. specialize (Hg i e He).
  unfold exec_ok in Hg. rewrite Hh in Hg. unfold set_state. rewrite He.
  destruct Hg as [-> | ->]; cbn; (eapply idle_upd; [exact Hi|done|by left]).
Qed.

Lemma retry_current_good i st h s : idle i st h s -> good_result (exec_retry_current_host q i s).
Proof using. intros Hi. eapply internal_retry_good. by eapply idle_reset. Qed.

Lemma retry_next_good i st h s : idle i st h s -> good_result (exec_retry_next_host q i s).
Proof using. intros Hi. eapply retry_current_good. by eapply idle_next. Qed.

Lemma on_retry_next_good i st h s : idle i st h s -> good_result (on_retry_next_host q i s).
Proof using. intros Hi. eapply retry_next_good. eapply idle_view; [apply view_decrement|exact Hi]. Qed.

Lemma keep_good s s' : view s' = view s -> good s -> good_result (Some s').
Proof using. intros Hv Hg x [= <-]. by eapply good_view. Qed.

Lemma good_retries i s : good s -> good (upd i (fun e => exec_with_retries (num_retries e + 1) e) s).
Proof using.
  intros Hg. apply good_upd; [|done]. intros e He. destruct Hg as [_ Hg]. rewrite Forall_lookup in Hg. exact (Hg i e He).
Qed.

Lemma on_error_response_good i h e s :
  idle i REQUEST_STATE_FINISHED (Some h) s -> good_result (on_error_response q i e s).
Proof using.
  intros Hi. pose proof (idle_good _ _ _ _ Hi) as Hg. unfold on_error_response, on_error_unprepared.
  destruct (executions s !! i) as [x|]; [|done].
  destruct (_ =? CQL_ERROR_IS_BOOTSTRAPPING); [by eapply retry_next_good|].
  destruct (_ =? CQL_ERROR_UNPREPARED).
  { pose proof (view_pop_conn s) as Hc. destruct (pop_conn s) as [reply s1]. cbn in Hc.
    assert (Hi1 : idle i REQUEST_STATE_FINISHED (Some h) s1) by by eapply idle_view.
    assert (Hbad : good_result (Some (exec_set_error i CASS_ERROR_LIB_UNEXPECTED_RESPONSE s)))
      by (eapply keep_good; [apply view_exec_set_error|done]).
    assert (Hprep : good_result (match reply with ConnWritten => Some (hold i HeldByPrepare s1) | _ => exec_retry_current_host q i s1 end)).
    { destruct reply; [|by eapply retry_current_good..]. intros y [= <-]. eapply idle_hold; [exact Hi1|].
      right. split; [by left|done]. }
    repeat case_match; done. }
  destruct (decision_type _).
  - eapply keep_good; [by eapply view_exec_error_response|done].
  - set (s2 := upd _ _ s). assert (H2 : idle i REQUEST_STATE_FINISHED (Some h) s2).
    { eapply idle_upd; [exact Hi|done|by right]. }
    pose proof (retry_current_good i _ _ s2 H2) as Ha. pose proof (retry_next_good i _ _ s2 H2) as Hb.
    destruct (retry_current_host_ _);
      [destruct (exec_retry_current_host q i s2)|destruct (exec_retry_next_host q i s2)]; try done;
      intros y [= <-]; apply good_retries; first [exact (Ha _ eq_refl)|exact (Hb _ eq_refl)].
  - eapply keep_good; [by eapply view_exec_response|done].
Qed.

Lemma on_set_good i h r s :
  idle i REQUEST_STATE_FINISHED (Some h) s -> response_ok q r -> good_result (on_set q i r s).
Proof using.
  intros Hi Hr. unfold on_set. rewrite (idle_host _ _ _ _ Hi), bool_decide_eq_true_2 by by eexists.
  set (s1 := asserting true s). assert (E1 : view s1 = view s).
  { unfold view, s1, asserting. cbn. by rewrite orb_false_r. }
  assert (H2 : idle i REQUEST_STATE_FINISHED (Some h) (decrement_inflight_requests (host_of i s1) s1)).
  { eapply idle_view; [apply view_decrement|]. by eapply idle_view. }
  set (s2 := decrement_inflight_requests _ s1) in *. pose proof (idle_good _ _ _ _ H2) as Hg2.
  destruct r as [r|e| |]; [|by eapply on_error_response_good|by (eapply keep_good; [apply view_exec_set_error|])..].
  intros x [= <-]. unfold on_result_response.
  assert (Hwait : forall b, good (if b : bool then hold i (HeldByListener (ResultResp r)) s2 else exec_set_response i (ResultResp r) s2)).
  { intros []; [eapply idle_hold; [exact H2|]; right; split; [right; by eexists|done]|].
    eapply good_view; [by eapply view_exec_response|done]. }
  cbn in Hr. destruct (result_kind r); cbn zeta.
  - exact (Hwait false).
  - destruct (_ && _ && _); [|apply Hwait]. eapply good_view; [apply view_exec_on_error|done].
  - exact (Hwait true).
  - rewrite bool_decide_eq_true_2 by by apply Hr.
    assert (E3 : view (asserting true s2) = view s2) by (unfold view, asserting; cbn; by rewrite orb_false_r).
    assert (H3 : idle i REQUEST_STATE_FINISHED (Some h) (asserting true s2)) by by eapply idle_view.
    destruct (listener_waits r); [eapply idle_hold; [exact H3|]; right; split; [right; by eexists|done]|].
    eapply good_view; [by eapply view_exec_response|by eapply idle_good].
  - apply Hwait.
Qed.

Lemma internal_retry_loop_ok : loop_ok (internal_retry q).
Proof using.
  intros i h s Hi x. unfold internal_retry. case_match; [intros [= <-]; split; [by eapply idle_good|done]|].
  by apply (retry_loop_good _ _ h).
Qed.

Lemma write_chained_good i h w s :
  idle i REQUEST_STATE_NEW (Some h) s -> good_result (write_chained q i w s).
Proof using.
  intros Hi. unfold write_chained, on_retry_current_host. destruct w as [r|]; [|by eapply retry_current_good].
  destruct (on_write _ q i s) as [s1|] eqn:Ew; [|done].
  eapply on_write_idle in Ew as (H1 & _); [|intros s2 H2; apply execute_with_good; [|done]|exact Hi].
  2: { apply internal_retry_loop_ok. }
  destruct r; try (by eapply retry_current_good);
    [intros x [= <-]; by eapply idle_written|..];
    (eapply retry_current_good; eapply idle_view; [apply view_exec_on_error|exact H1]).
Qed.

(** Executions that a callback lets go of. *)
Lemma idle_release i s e :
  good s -> executions s !! i = Some e -> (state e = REQUEST_STATE_NEW \/ state e = REQUEST_STATE_FINISHED) ->
  idle i (state e) (current_host e) (release i s).
Proof using.
  intros Hg He Hs. split; [|eexists; cbn; by rewrite list_lookup_alter_eq, He].
  apply good_upd; [|done]. intros e' He'. by assert (e' = e) as -> by congruence.
Qed.

Lemma idle_finish i s e :
  good s -> executions s !! i = Some e -> state_allowed (state e) REQUEST_STATE_FINISHED = true ->
  idle i REQUEST_STATE_FINISHED (current_host e) (set_state i REQUEST_STATE_FINISHED (release i s)).
Proof using.
  intros Hg He Hs. unfold set_state, release, hold. cbn. rewrite list_lookup_alter_eq, He. cbn. rewrite Hs.
  unfold upd. cbn. rewrite alter_alter.
  change (idle i REQUEST_STATE_FINISHED (current_host e)
            (upd i (exec_with_state REQUEST_STATE_FINISHED ∘ exec_with_holder HeldByNone) s)).
  split; [|eexists; cbn; by rewrite list_lookup_alter_eq, He].
  apply good_upd; [|done]. intros e' He'. assert (e' = e) as -> by congruence. by right.
Qed.

Lemma execute_good s : good s -> good_result (execute q s).
Proof using. intros Hg x Hx. apply execute_with_good in Hx as [? _]; [done|apply internal_retry_loop_ok|done]. Qed.

Lemma good_timer i b s : good s -> good (upd i (exec_with_timer b) s).
Proof using.
  intros Hg. apply good_upd; [|done]. intros e He. destruct Hg as [_ Hg]. rewrite Forall_lookup in Hg. exact (Hg i e He).
Qed.

Lemma step_good ev s : event_ok q ev -> good s -> good_result (step q ev s).
Proof using.
  intros Hev Hg. pose proof Hg as [_ Hall]. rewrite Forall_lookup in Hall.
  destruct ev as [i ok|i r|i|i k|i p|i|i|]; cbn [step];
    [..|case_match; [|done]; eapply keep_good; [apply view_set_error|done]];
    (destruct (executions s !! i) as [e|] eqn:He; [|done]); specialize (Hall i e He); unfold exec_ok in Hall;
    destruct (held e) eqn:Hh; try done; destruct Hall as [Hhost Hst].
  - (* WriteFinished *)
    unfold connection_on_write. destruct Hhost as [h Hhost]. destruct (state e) eqn:Es; try done.
    + destruct ok.
      * intros x [= <-]. erewrite set_state_allowed by (done || by rewrite Es). apply good_upd; [|done].
        intros e' He'. assert (e' = e) as -> by congruence. unfold exec_ok. cbn. by rewrite Hh, Hhost.
      * eapply keep_good; [apply view_exec_on_error|]. eapply idle_good, idle_finish; [done..|]. by rewrite Es.
    + destruct Hst as (r & -> & Hr). eapply on_set_good; [|done]. rewrite <- Hhost. apply idle_finish; [done..|]. by rewrite Es.
  - (* ResponseRead *)
    unfold connection_on_read. destruct Hhost as [h Hhost]. destruct (state e) eqn:Es; try done.
    + intros x [= <-]. erewrite set_state_allowed by (done || by rewrite Es). unfold upd. cbn. rewrite alter_alter.
      match goal with |- good (with_executions (alter ?f i _) _) => change (good (upd i f s)) end.
      apply good_upd; [|done]. intros e' He'. assert (e' = e) as -> by congruence. unfold exec_ok. cbn. rewrite Hh, Hhost.
      split; [done|]. by exists r.
    + eapply on_set_good; [|done]. rewrite <- Hhost. apply idle_finish; [done..|]. by rewrite Es.
  - (* ConnectionClosed *)
    case_bool_decide as Es; [|done]. assert (Hi := idle_finish i s e Hg He). rewrite Es in Hi. specialize (Hi eq_refl).
    clear Hst. unfold on_close. destruct (is_idempotent q); [by eapply on_retry_next_good|].
    eapply keep_good; [apply view_exec_on_error|by eapply idle_good].
  - (* KeyspaceReply *)
    pose proof (idle_release i s e Hg He (or_introl Hst)) as Hi. rewrite Hst in Hi. destruct Hhost as [h Hhost]. rewrite Hhost in Hi.
    destruct k; cbn [on_keyspace_reply]; [by eapply write_chained_good| | |by eapply on_retry_next_good];
      (eapply keep_good; [apply view_exec_on_error|by eapply idle_good]).
  - (* PrepareReply *)
    pose proof (idle_release i s e Hg He (or_intror Hst)) as Hi.
    destruct p as [[]| |]; cbn [on_prepare_reply]; [by eapply retry_current_good| |by eapply on_retry_next_good|].
    + eapply keep_good; [apply view_set_error|by eapply idle_good].
    + intros x [= <-]. by eapply idle_good.
  - (* ListenerDone *)
    pose proof (idle_release i s e Hg He (or_intror Hst)) as Hi. destruct Hhost as [h Hhost]. rewrite Hhost in Hi.
    eapply keep_good; [by eapply view_exec_response|by eapply idle_good].
  - destruct (schedule_timer e); [|done]. by apply execute_good, good_timer.
  - destruct (schedule_timer e); [|done]. by apply execute_good, good_timer.
  - destruct (schedule_timer e); [|done]. by apply execute_good, good_timer.
Qed.

End Assertions.

(** No assertion of the request's code fails, in any interleaving of write completions,
    responses, closed connections, timers and nested callbacks in which the server answers only
    PREPARE requests with a prepared result: every change of a request's state is one that
    [set_state] allows, and a response, an error or a write always finds a current host. *)
Theorem assertions_hold q plan delay count pool conn s :
  reachable q (event_ok q) (new_handler plan delay count pool conn) s -> assert_failed s = false.
Proof.
  intros Hr. assert (Hg : good q s); [|apply Hg].
  induction Hr as [s Hs|s ev s' _ IH Hev Hs].
  - eapply execute_good; [|exact Hs]. by split.
  - by eapply step_good.
Qed.

Lemma assertions_hold_witness :
  exists s, run sample_request [ResponseRead 0 OtherResp; WriteFinished 0 true] s <> None /\ assert_failed s = false.
Proof.
  eexists. split.
  2: { eapply (assertions_hold sample_request [7; 8] 100 1 [NoConnection; Wrote WRITTEN] []).
       apply reach_start. vm_compute. reflexivity. }
  vm_compute. discriminate.
Defined.

(** ** Requests that are not lost *)

Section NotLost.
Context (q : Request).

(** A request with its one execution, without speculative ones, that waits for its future. *)
Record pending (p : execution -> Prop) (s : handler) : Prop := {
  pending_future : future s = None;
  pending_done : is_done s = false;
  pending_running : running_executions s = 1;
  pending_count : plan_count s <= 0;
  pending_exec : exists e, executions s = [e] /\ schedule_timer e = false /\ p e
}.

Definition waiting : handler -> Prop := pending (fun e => is_held e = true /\ is_Some (current_host e)).
Definition running (h : option Z) : handler -> Prop := pending (fun e => current_host e = h).

Definition settled (s : handler) : Prop := is_Some (future s) \/ waiting s.
Definition settles (r : option handler) : Prop := forall s, r = Some s -> settled s.

Lemma pending_upd (p p' : execution -> Prop) f s :
  pending p s -> (forall e, schedule_timer (f e) = schedule_timer e) -> (forall e, p e -> p' (f e)) ->
  pending p' (upd 0 f s).
Proof using.
  intros [Hf Hd Hr Hc (e & He & Ht & Hp)] Hft Hfp. constructor; [done..|].
  exists (f e). cbn. rewrite He. split_and!; [done| |by apply Hfp]. by rewrite Hft.
Qed.

Lemma pending_same p s s' :
  pending p s -> future s' = future s -> is_done s' = is_done s -> running_executions s' = running_executions s ->
  plan_count s' = plan_count s -> executions s' = executions s -> pending p s'.
Proof using. intros [Hf Hd Hr Hc He] E1 E2 E3 E4 E5. constructor; by rewrite ?E1, ?E2, ?E3, ?E4, ?E5. Qed.

Lemma running_host h s : running h s -> host_of 0 s = h.
Proof using. intros [_ _ _ _ (e & He & _ & <-)]. unfold host_of. by rewrite He. Qed.

Lemma running_decrement h h' s : running h s -> running h (decrement_inflight_requests h' s).
Proof using. intros H. destruct h'; [|done]. by apply (pending_same _ s). Qed.

Lemma running_next h s : running h s -> running (next_host s).1 (exec_next_host 0 s).
Proof using.
  intros H. unfold exec_next_host, next_host.
  destruct (query_plan s); cbn; (eapply pending_upd; [|done|done]); by apply (pending_same _ s).
Qed.

Lemma running_set_state h st s : running h s -> running h (set_state 0 st s).
Proof using.
  intros H. unfold set_state. repeat case_match; [by eapply pending_upd; [exact H|..]| |done].
  by apply (pending_same _ s).
Qed.

Lemma running_hold h hd s : hd <> HeldByNone -> running (Some h) s -> waiting (hold 0 hd s).
Proof using.
  intros Hhd H. eapply pending_upd; [exact H|done|]. intros e He. unfold is_held. cbn. rewrite He.
  split; [by destruct hd|done].
Qed.

(** The ways to complete. *)
Lemma with_future_set o s : is_Some (future (with_future o s)).
Proof using. cbn. destruct (future s); by eexists. Qed.

Lemma set_error_settles c s : c <> CASS_ERROR_LIB_NO_HOSTS_AVAILABLE -> is_Some (future (handler_set_error c s)).
Proof using. intros Hc. unfold handler_set_error. rewrite bool_decide_eq_false_2 by done. apply with_future_set. Qed.

Lemma no_hosts_settles h s : running h s -> is_Some (future (handler_set_error CASS_ERROR_LIB_NO_HOSTS_AVAILABLE s)).
Proof using. intros [_ _ Hr _ _]. unfold handler_set_error. cbn [stop_request with_running with_timer with_done running_executions].
  rewrite Hr. apply with_future_set. Qed.

Lemma exec_error_settles i c s : c <> CASS_ERROR_LIB_NO_HOSTS_AVAILABLE -> is_Some (future (exec_set_error i c s)).
Proof using.
  intros Hc. unfold exec_set_error, handler_set_error_on_host. rewrite bool_decide_eq_false_2 by done.
  destruct (host_of i s); [apply with_future_set|by apply set_error_settles].
Qed.

Lemma on_error_settles i c s : c <> CASS_ERROR_LIB_NO_HOSTS_AVAILABLE -> is_Some (future (exec_on_error i c s)).
Proof using. apply exec_error_settles. Qed.

Lemma response_settles h r s : running (Some h) s -> is_Some (future (exec_set_response 0 r s)).
Proof using. intros H. unfold exec_set_response. rewrite (running_host _ _ H). apply with_future_set. Qed.

Lemma error_response_settles h r c s : running (Some h) s -> is_Some (future (exec_set_error_with_error_response 0 r c s)).
Proof using. intros H. unfold exec_set_error_with_error_response. rewrite (running_host _ _ H). apply with_future_set. Qed.

Lemma encode_code_not_hosts e : encode_error_code e <> CASS_ERROR_LIB_NO_HOSTS_AVAILABLE.
Proof using. by destruct e. Qed.

Lemma on_write_running ex h s :
  running (Some h) s -> exists s', on_write ex q 0 s = Some s' /\ running (Some h) s'.
Proof using.
  intros H. unfold on_write. rewrite (running_host _ _ H).
  match goal with |- context [start_request q ?x] => set (s1 := start_request q x) end.
  assert (H1 : running (Some h) s1) by (apply (pending_same _ s); [done|unfold s1, start_request; by repeat case_match..]).
  destruct (is_idempotent q); [|by exists s1]. unfold next_execution.
  replace (0 <=? plan_count s1 - 1) with false by (destruct H1; lia). cbn.
  eexists. split; [done|]. destruct H1 as [? ? ? Hc ?]. constructor; try done. cbn. lia.
Qed.

Lemma retry_loop_settles fuel : forall h s, running h s -> settles (retry_loop fuel q 0 s).
Proof using.
  induction fuel as [|f IH]; intros h s H; [done|]. cbn [retry_loop]. rewrite (running_host _ _ H).
  destruct h as [h|]; [|intros x [= <-]; left; by eapply no_hosts_settles].
  assert (H1 : running (Some h) (pop_pool s).2).
  { unfold pop_pool. destruct (pool_tape s); [done|]. by apply (pending_same _ s). }
  destruct (pop_pool s) as [reply s1]. cbn in H1.
  assert (Hnext : forall s2, running (Some h) s2 -> settles (retry_loop f q 0 (exec_next_host 0 s2))).
  { intros s2 H2. eapply IH. by eapply running_next. }
  destruct reply as [| |r|[]]; try (by apply Hnext).
  - destruct (on_write_running (execute_with (fun j s => if is_done s then Some s else retry_loop f q j s)) h s1 H1)
      as (s2 & -> & H2).
    destruct r; try (by apply Hnext); intros x [= <-];
      try (left; first [apply set_error_settles|apply on_error_settles]; first [done|apply encode_code_not_hosts]).
    right. pose proof (running_hold h HeldByConnection s2 ltac:(done) H2) as Hw.
    unfold set_state. repeat case_match; [by eapply pending_upd; [exact Hw|..]| |done]. by apply (pending_same _ _ _ Hw).
  - intros x [= <-]. right. by apply (running_hold h).
  - intros x [= <-]. left. by apply set_error_settles.
Qed.

Lemma internal_retry_settles h s : running h s -> settles (internal_retry q 0 s).
Proof using. intros H x. unfold internal_retry. rewrite (pending_done _ _ H). by eapply retry_loop_settles. Qed.

Lemma retry_current_settles h s : running h s -> settles (exec_retry_current_host q 0 s).
Proof using. intros H. eapply internal_retry_settles. by apply running_set_state. Qed.

Lemma retry_next_settles h s : running h s -> settles (exec_retry_next_host q 0 s).
Proof using. intros H. eapply retry_current_settles. by eapply running_next. Qed.

Lemma on_retry_next_settles h s : running h s -> settles (on_retry_next_host q 0 s).
Proof using. intros H. eapply retry_next_settles. by apply running_decrement. Qed.

Lemma on_error_response_settles h e s : running (Some h) s -> settles (on_error_response q 0 e s).
Proof using.
  intros H. unfold on_error_response, on_error_unprepared. destruct (executions s !! 0%nat) as [x|]; [|done].
  destruct (_ =? CQL_ERROR_IS_BOOTSTRAPPING); [by eapply retry_next_settles|].
  destruct (_ =? CQL_ERROR_UNPREPARED).
  { assert (H1 : running (Some h) (pop_conn s).2).
    { unfold pop_conn. destruct (conn_tape s); [done|]. by apply (pending_same _ s). }
    destruct (pop_conn s) as [reply s1]. cbn in H1.
    assert (Hbad : settles (Some (exec_set_error 0 CASS_ERROR_LIB_UNEXPECTED_RESPONSE s))).
    { intros y [= <-]. left. by apply exec_error_settles. }
    assert (Hprep : settles (match reply with ConnWritten => Some (hold 0 HeldByPrepare s1) | _ => exec_retry_current_host q 0 s1 end)).
    { destruct reply; [|by eapply retry_current_settles..]. intros y [= <-]. right. by apply (running_hold h). }
    destruct (opcode q); try done. by destruct (find_prepared_query q (error_prepared_id e)). }
  destruct (decision_type _).
  - intros y [= <-]. left. by eapply error_response_settles.
  - set (s2 := upd _ _ s). assert (H2 : running (Some h) s2) by by eapply pending_upd; [exact H|..].
    pose proof (retry_current_settles _ s2 H2) as Ha. pose proof (retry_next_settles _ s2 H2) as Hb.
    assert (Hfin : forall y, settled y -> settled (upd 0 (fun e => exec_with_retries (num_retries e + 1) e) y)).
    { intros y [Hy | Hy]; [by left|right]. by eapply pending_upd; [exact Hy|..]. }
    destruct (retry_current_host_ _);
      [destruct (exec_retry_current_host q 0 s2)|destruct (exec_retry_next_host q 0 s2)]; try done;
      intros y [= <-]; apply Hfin; first [exact (Ha _ eq_refl)|exact (Hb _ eq_refl)].
  - intros y [= <-]. left. by eapply response_settles.
Qed.

Lemma running_asserting h b s : running h s -> running h (asserting b s).
Proof using. intros H. by apply (pending_same _ s). Qed.

Lemma on_set_settles h r s : running (Some h) s -> settles (on_set q 0 r s).
Proof using.
  intros H. unfold on_set. set (b := bool_decide _). set (s1 := decrement_inflight_requests _ _).
  assert (H1 : running (Some h) s1) by by apply running_decrement, running_asserting.
  destruct r as [r|e| |]; [|by eapply on_error_response_settles|by (intros y [= <-]; left; apply exec_error_settles)..].
  intros y [= <-]. unfold on_result_response.
  assert (Hw : forall s b, running (Some h) s ->
     settled (if b : bool then hold 0 (HeldByListener (ResultResp r)) s else exec_set_response 0 (ResultResp r) s)).
  { intros s2 [] H2; [right; by apply (running_hold h)|left; by eapply response_settles]. }
  destruct (result_kind r); cbn zeta; [exact (Hw s1 false H1)| |exact (Hw s1 true H1)|apply Hw; by apply running_asserting|by apply Hw].
  destruct (_ && _ && _); [left; by apply on_error_settles|by apply Hw].
Qed.

Lemma write_chained_settles h w s : running (Some h) s -> settles (write_chained q 0 w s).
Proof using.
  intros H. unfold write_chained, on_retry_current_host. destruct w as [r|]; [|by eapply retry_current_settles].
  destruct (on_write_running (execute q) h s H) as (s1 & -> & H1).
  assert (Hkeep : forall c, c <> CASS_ERROR_LIB_NO_HOSTS_AVAILABLE -> settles (exec_retry_current_host q 0 (exec_on_error 0 c s1))).
  { intros c Hc y Hy. left. destruct (on_error_settles 0 c s1 Hc) as [o Ho].
    exists o. by eapply (retry_keeps q 0 (exec_on_error 0 c s1)). }
  destruct r; try (by eapply retry_current_settles); try (apply Hkeep; first [done|apply encode_code_not_hosts]).
  intros y [= <-]. right. pose proof (running_hold h HeldByConnection s1 ltac:(done) H1) as Hw.
  unfold set_state. repeat case_match; [by eapply pending_upd; [exact Hw|..]| |done]. by apply (pending_same _ _ _ Hw).
Qed.

(** Events of a run in which no PREPARE is answered with an unexpected message. *)
Definition prepare_answered (ev : event) : Prop :=
  match ev with PrepareReply _ PrepareUnexpected => False | _ => True end.

Lemma waiting_release h s e :
  executions s = [e] -> current_host e = Some h -> waiting s -> running (Some h) (release 0 s).
Proof using.
  intros He Hh [Hf Hd Hr Hc (e' & He' & Ht & _)]. constructor; [done..|]. rewrite He in He'. injection He' as <-.
  eexists. cbn. rewrite He. by split_and!.
Qed.

Lemma waiting_upd f s :
  waiting s -> (forall e, schedule_timer (f e) = schedule_timer e /\ held (f e) = held e /\ current_host (f e) = current_host e) ->
  waiting (upd 0 f s).
Proof using.
  intros Hw Hf. eapply pending_upd; [exact Hw|apply Hf|]. intros e [Hh Hc]. destruct (Hf e) as (_ & E1 & E2).
  unfold is_held in *. by rewrite E1, E2.
Qed.

Lemma waiting_set_state st s : waiting s -> waiting (set_state 0 st s).
Proof using.
  intros Hw. unfold set_state. repeat case_match; [by apply waiting_upd| |done]. by apply (pending_same _ s).
Qed.

Lemma step_settles ev s : prepare_answered ev -> waiting s -> settles (step q ev s).
Proof using.
  intros Hev Hw. pose proof Hw as [_ _ _ _ (e & He & Ht & Hheld & h & Hhost)].
  pose proof (waiting_release h s e He Hhost Hw) as Hrel.
  assert (Hfin : running (Some h) (set_state 0 REQUEST_STATE_FINISHED (release 0 s))) by by apply running_set_state.
  assert (Herr : forall c s', c <> CASS_ERROR_LIB_NO_HOSTS_AVAILABLE -> settles (Some (exec_on_error 0 c s'))).
  { intros c s' Hc y [= <-]. left. by apply on_error_settles. }
  assert (Hsame : forall s', waiting s' -> settles (Some s')) by (intros s' Hs' y [= <-]; by right).
  destruct ev as [i ok|i r|i|i k|i p|i|i|]; cbn [step];
    [..|case_match; [|done]; intros y [= <-]; left; by apply set_error_settles];
    rewrite He; (destruct i as [|i]; [cbn [lookup list_lookup]|done]); destruct (held e) eqn:Hh; try done.
  - unfold connection_on_write. destruct (state e); try done.
    + destruct ok; [apply Hsame; by apply waiting_set_state|by apply Herr].
    + destruct (read_before_write_response e); [by eapply on_set_settles|by apply Hsame].
  - unfold connection_on_read. destruct (state e); try done.
    + apply Hsame, waiting_upd; [by apply waiting_set_state|done].
    + by eapply on_set_settles.
  - case_bool_decide; [|done]. unfold on_close. destruct (is_idempotent q); [by eapply on_retry_next_settles|by apply Herr].
  - destruct k; cbn [on_keyspace_reply]; [by eapply write_chained_settles|by apply Herr..|by eapply on_retry_next_settles].
  - destruct p as [[]| |]; cbn [on_prepare_reply]; [by eapply retry_current_settles| |by eapply on_retry_next_settles|done].
    intros y [= <-]. left. by apply set_error_settles.
  - intros y [= <-]. left. by eapply response_settles.
  - by rewrite Ht.
  - by rewrite Ht.
  - by rewrite Ht.
Qed.

End NotLost.

(** Nothing will ever happen to the request again, and its future is not set. *)
Definition lost (q : Request) (s : handler) : Prop := future s = None /\ forall ev, step q ev s = None.

Lemma nothing_held q s :
  timer_running s = false -> Forall (fun e => held e = HeldByNone) (executions s) -> forall ev, step q ev s = None.
Proof.
  intros Ht Hall ev. rewrite Forall_lookup in Hall.
  destruct ev; cbn [step]; [..|by rewrite Ht]; (destruct (executions s !! i) as [e|] eqn:E; [|done]);
    by rewrite (Hall i e E).
Qed.

(** A run of the handler reaches a state. *)
Lemma run_reachable q ok s0 evs : forall s s',
  reachable q ok s0 s -> Forall ok evs -> run q evs s = Some s' -> reachable q ok s0 s'.
Proof.
  induction evs as [|ev evs IH]; intros s s' Hr Hok Hs; cbn in Hs; [by injection Hs as <-|].
  apply Forall_cons_1 in Hok as [H1 H2]. destruct (step q ev s) as [s1|] eqn:E; [|done].
  eapply IH; [|done|exact Hs]. by eapply reach_step.
Qed.

(** A PREPARE that is answered with neither a result nor an error drops the request. *)
Lemma unexpected_prepare_lost q s e : executions s = [e] -> held e = HeldByPrepare -> future s = None ->
  exists s', step q (PrepareReply 0 PrepareUnexpected) s = Some s' /\ lost q s'.
Proof.
  intros He Hh Hf. cbn [step]. rewrite He. cbn [lookup list_lookup]. rewrite Hh. eexists. split; [done|]. split; [done|].
  intros ev. assert (executions (release 0 s) = [exec_with_holder HeldByNone e]) as Ee by (unfold release, hold, upd; cbn; by rewrite He).
  destruct ev as [i|i|i|i|i|i|i|]; cbn [step]; rewrite ?Ee; try (destruct i; done). unfold alive. rewrite Ee. cbn. by destruct (timer_running _).
Qed.

(** C10: a request is never lost, when it has no speculative executions and no PREPARE that is sent for it is
    answered with a message that is neither a result nor an error: in every state it can reach, its
    future is set, or exactly one execution is running and a connection, a chained keyspace or
    prepare callback or the session's listener holds it and will call it back.  Both conditions are needed: when such a PREPARE
    is answered that way the future is not set and nothing can happen any more, not even its timeout;
    speculative executions are those of [speculative_request_lost]. *)
Theorem request_not_lost q plan delay count pool conn s :
  count <= 0 ->
  reachable q prepare_answered (new_handler plan delay count pool conn) s ->
  (is_Some (future s) \/
   (is_done s = false /\ running_executions s = 1 /\ exists e, executions s = [e] /\ is_held e = true)) /\
  (forall e, future s = None -> executions s = [e] -> held e = HeldByPrepare ->
   exists s', step q (PrepareReply 0 PrepareUnexpected) s = Some s' /\ lost q s').
Proof.
  intros Hc Hr. split; [|intros e Hf He Hh; by eapply unexpected_prepare_lost]. assert (Hs : settled s).
  2: { destruct Hs as [? | [_ Hd Hrun _ (e & He & _ & Hh & _)]]; [by left|right]. split_and!; [done..|by exists e]. }
  induction Hr as [s Hs|s ev s' _ [[o IH] | IH] Hev Hs].
  - unfold execute, execute_with in Hs. eapply (internal_retry_settles q); [|exact Hs].
    instantiate (1 := (next_host (new_handler plan delay count pool conn)).1).
    unfold new_execution, next_host. destruct plan; (constructor; [done..|]; eexists; split_and!; [done..|]; reflexivity).
  - left. exists o. by eapply step_keeps.
  - by eapply step_settles.
Qed.

(** The host closes the connection and the next one does not write; and an EXECUTE whose statement the host does not know is prepared there. *)
Definition prepared_request : Request := {|
  opcode := CQL_OPCODE_EXECUTE; is_idempotent := true; record_attempted_addresses := true;
  request_timeout_ms := 1000; wrapper_consistency := CASS_CONSISTENCY_ONE;
  retry_policy := Some DefaultRetryPolicy; skip_metadata := false; find_prepared_query := fun _ => true |}.
Definition unprepared : Response := ErrorResp {|
  error_code := CQL_ERROR_UNPREPARED; error_consistency := CASS_CONSISTENCY_ONE; error_received := 0;
  error_required := 0; error_data_present := 0; error_write_type := CASS_WRITE_TYPE_UNKNOWN; error_prepared_id := 0 |}.
Definition preparing : handler :=
  default (new_handler [] 0 0 [] [])
    (s ← execute prepared_request (new_handler [7] 0 0 [Wrote WRITTEN] [ConnWritten]); run prepared_request [WriteFinished 0 true; ResponseRead 0 unprepared] s).

Lemma request_not_lost_witness :
  (exists s, run sample_request [WriteFinished 0 true; ConnectionClosed 0] s <> None /\
    (is_Some (future s) \/
     (is_done s = false /\ running_executions s = 1 /\ exists e, executions s = [e] /\ is_held e = true))) /\
  timer_running preparing = true /\ exists s', step prepared_request (PrepareReply 0 PrepareUnexpected) preparing = Some s' /\ lost prepared_request s'.
Proof.
  split; [|split; [vm_compute; reflexivity|]].
  - eexists. split.
    2: { eapply (request_not_lost sample_request [7; 8] 0 0 [Wrote WRITTEN; NoStream] []); [lia|].
         apply reach_start. vm_compute. reflexivity. }
    vm_compute. discriminate.
  - destruct (execute prepared_request (new_handler [7] 0 0 [Wrote WRITTEN] [ConnWritten])) as [s0|] eqn:E0; [|exfalso; vm_compute in E0; discriminate E0].
    assert (run prepared_request [WriteFinished 0 true; ResponseRead 0 unprepared] s0 = Some preparing) as E1 by (vm_compute in E0; injection E0 as <-; vm_compute; reflexivity).
    destruct (request_not_lost prepared_request [7] 0 0 [Wrote WRITTEN] [ConnWritten] preparing) as [_ H]; [lia| |].
    + eapply run_reachable; [apply reach_start; exact E0| |exact E1]. by repeat constructor.
    + eapply H; [vm_compute; reflexivity|vm_compute; reflexivity|reflexivity].
Defined.

(** ** Requests that are lost *)

Definition read_timeout : Response := ErrorResp {|
  error_code := CQL_ERROR_READ_TIMEOUT; error_consistency := CASS_CONSISTENCY_ONE; error_received := 1;
  error_required := 1; error_data_present := 0; error_write_type := CASS_WRITE_TYPE_UNKNOWN; error_prepared_id := 0 |}.

(** With speculative executions a request can be lost.  A request with a timeout and the
    default retry policy runs on the only host of its plan; its speculative execution finds no
    host left, which marks the whole request done and stops its timer although the first
    execution still runs; the host then answers with a read timeout that the policy retries, and
    the retry of a done request does nothing: the future is never set, and no timer is left. *)
Theorem speculative_request_lost :
  exists s, reachable sample_request (fun _ => True) (new_handler [7] 50 1 [Wrote WRITTEN; Wrote WRITTEN] []) s /\
    attempted_addresses s = [7] /\ lost sample_request s.
Proof.
  eexists. split; [|split; [|split; [|apply nothing_held]]].
  - eapply run_reachable with (evs := [WriteFinished 0 true; SpeculativeTimer 0; ResponseRead 0 read_timeout]).
    + apply reach_start. vm_compute. reflexivity.
    + by repeat constructor.
    + vm_compute. reflexivity.
  - reflexivity.
  - reflexivity.
  - reflexivity.
  - by repeat constructor.
Qed.

(** The counter of in-flight requests of a host is decremented for a request that was never
    counted when its keyspace cannot be set. *)
Lemma inflight_negative :
  exists s, execute sample_request (new_handler [7] 0 0 [SetsKeyspace ConnWritten] []) = Some s /\
    exists s', step sample_request (KeyspaceReply 0 KeyspaceError) s = Some s' /\ inflight s' !! 7 = Some (-1).
Proof. eexists. split; [reflexivity|]. eexists. split; reflexivity. Qed.

(** Starting and retrying an execution always returns: the loop over the hosts ends, with
    the executions that are started while it runs, and none of them makes the query plan longer;
    so does every new execution. *)
Theorem retry_terminates q s :
  (forall i, exists s', internal_retry q i s = Some s' /\ (length (query_plan s') <= length (query_plan s))%nat) /\
  (exists s', execute q s = Some s' /\ (length (query_plan s') <= length (query_plan s))%nat).
Proof.
  split; [intros i; apply internal_retry_returns|].
  unfold execute, execute_with. set (s1 := with_running _ _). destruct (internal_retry_returns q (length (executions s)) s1) as (s' & -> & Hl).
  exists s'. split; [done|]. etransitivity; [exact Hl|]. unfold s1, new_execution, next_host.
  destruct (query_plan s) eqn:E; cbn; rewrite ?E; cbn; lia.
Qed.
