(* ===== verification/Notifier.v ===== *)
(** Completion notification of a single future ([FutureNotifier.c], [FutureUtil.c]), with the
    future of the driver it watches ([future.cpp]).

    A notifier is a reference-counted eventfd shared by the PHP future object, the handles
    that expose its descriptor and the driver's completion callback, which runs on another
    thread.  Every atomic action of the two threads is one step: the sections the driver runs
    under the future's mutex, the atomic operations on the reference count, the writes to the
    descriptor.  Memory is explicit: an access to a notifier that does not exist, or to its
    closed descriptor, sets [fault]. *)
From S2P Require Import Prelude.

(** ** The driver's future *)

(** The completion callback of a future is its function and data; [C] says which it is. *)
Record Future (C : Type) : Type := { is_set_ : bool; callback_ : option C }.
Arguments is_set_ {C}.
Arguments callback_ {C}.

(** [Future::set_callback]: whether the callback is now registered, and whether it is to be run
    at once. *)
Definition set_callback {C} (cb : C) (f : Future C) : bool * bool * Future C :=
  match callback_ f with
  | Some _ => (false, false, f)
  | None => (true, is_set_ f, {| is_set_ := is_set_ f; callback_ := Some cb |})
  end.

(** [Future::internal_set]: the callback to run. *)
Definition internal_set {C} (f : Future C) : option C * Future C :=
  (callback_ f, {| is_set_ := true; callback_ := callback_ f |}).

(** Who has registered the callback of the future a notifier watches. *)
Inductive completion_callback := NotifyCallback | OtherCallback.

(** ** The notifier *)

Record notifier : Type := { refcount : Z; counter : Z }.

Definition new_notifier : notifier := {| refcount := 1; counter := 0 |}.

(** The memory of the notifier: [None] when there is none, or it has been freed and its
    descriptor closed. *)
Definition php_scylladb_notifier_addref (m : option notifier) : option (option notifier) :=
  n ← m; Some (Some {| refcount := refcount n + 1; counter := counter n |}).

Definition php_scylladb_notifier_unref (m : option notifier) : option (option notifier) :=
  n ← m; Some (if refcount n =? 1 then None else Some {| refcount := refcount n - 1; counter := counter n |}).

(** Its assertion is part of it. *)
Definition php_scylladb_notifier_unref_extra (m : option notifier) : option (option notifier) :=
  n ← m; if 1 <? refcount n then Some (Some {| refcount := refcount n - 1; counter := counter n |}) else None.

Definition php_scylladb_notifier_poke (m : option notifier) : option (option notifier) :=
  n ← m; Some (Some {| refcount := refcount n; counter := counter n + 1 |}).

(** ** Threads *)

(** [php_scylladb_notify_cb]: its two actions. *)
Inductive callback_pc := CbPoke | CbUnref.

(** [php_scylladb_future_ensure_notifier], between two actions. *)
Inductive ensure_pc :=
| EnsureCreate
| EnsureAddref
| EnsureSetCallback
| EnsureInCallback (pc : callback_pc)
| EnsureUnrefExtra
| EnsureFailed
| EnsureUnref
| EnsureRecheck
| EnsurePoke
| EnsureStore.

Record notifier_state : Type := {
  future : option (Future completion_callback);
  memory : option notifier;
  notifier_slot : bool;
  php_thread : option ensure_pc;
  io_thread : option callback_pc;
  object_alive : bool;
  handles : Z;
  exceptions : Z;
  fault : bool
}.

Definition set_future (f : option (Future completion_callback)) (s : notifier_state) : notifier_state :=
  {| future := f; memory := memory s; notifier_slot := notifier_slot s; php_thread := php_thread s;
     io_thread := io_thread s; object_alive := object_alive s; handles := handles s; exceptions := exceptions s; fault := fault s |}.
Definition set_slot (b : bool) (s : notifier_state) : notifier_state :=
  {| future := future s; memory := memory s; notifier_slot := b; php_thread := php_thread s;
     io_thread := io_thread s; object_alive := object_alive s; handles := handles s; exceptions := exceptions s; fault := fault s |}.
Definition set_php (pc : option ensure_pc) (s : notifier_state) : notifier_state :=
  {| future := future s; memory := memory s; notifier_slot := notifier_slot s; php_thread := pc;
     io_thread := io_thread s; object_alive := object_alive s; handles := handles s; exceptions := exceptions s; fault := fault s |}.
Definition set_io (pc : option callback_pc) (s : notifier_state) : notifier_state :=
  {| future := future s; memory := memory s; notifier_slot := notifier_slot s; php_thread := php_thread s;
     io_thread := pc; object_alive := object_alive s; handles := handles s; exceptions := exceptions s; fault := fault s |}.
Definition set_handles (n : Z) (s : notifier_state) : notifier_state :=
  {| future := future s; memory := memory s; notifier_slot := notifier_slot s; php_thread := php_thread s;
     io_thread := io_thread s; object_alive := object_alive s; handles := n; exceptions := exceptions s; fault := fault s |}.
Definition set_dead (s : notifier_state) : notifier_state :=
  {| future := future s; memory := memory s; notifier_slot := notifier_slot s; php_thread := php_thread s;
     io_thread := io_thread s; object_alive := false; handles := handles s; exceptions := exceptions s; fault := fault s |}.
Definition throw_exception (s : notifier_state) : notifier_state :=
  {| future := future s; memory := memory s; notifier_slot := notifier_slot s; php_thread := php_thread s;
     io_thread := io_thread s; object_alive := object_alive s; handles := handles s; exceptions := exceptions s + 1; fault := fault s |}.

(** Perform an action on the notifier's memory. *)
Definition on_memory (f : option notifier -> option (option notifier)) (s : notifier_state) : notifier_state :=
  match f (memory s) with
  | Some m =>
      {| future := future s; memory := m; notifier_slot := notifier_slot s; php_thread := php_thread s;
         io_thread := io_thread s; object_alive := object_alive s; handles := handles s; exceptions := exceptions s; fault := fault s |}
  | None =>
      {| future := future s; memory := memory s; notifier_slot := notifier_slot s; php_thread := php_thread s;
         io_thread := io_thread s; object_alive := object_alive s; handles := handles s; exceptions := exceptions s; fault := true |}
  end.

(** [pemalloc]: the memory must be free. *)
Definition allocate (s : notifier_state) : notifier_state :=
  on_memory (fun m => match m with None => Some (Some new_notifier) | Some _ => None end) s.

Definition cass_future_ready (s : notifier_state) : bool :=
  match future s with Some f => is_set_ f | None => false end.

(** One action of [php_scylladb_notify_cb]. *)
Definition notify_cb_step (pc : callback_pc) (s : notifier_state) : option callback_pc * notifier_state :=
  match pc with
  | CbPoke => (Some CbUnref, on_memory php_scylladb_notifier_poke s)
  | CbUnref => (None, on_memory php_scylladb_notifier_unref s)
  end.

(** One action of [php_scylladb_future_ensure_notifier]; [created] is whether eventfd gives a
    descriptor. *)
Definition ensure_step (created : bool) (pc : ensure_pc) (s : notifier_state) : notifier_state :=
  match pc with
  | EnsureCreate =>
      if created then set_php (Some EnsureAddref) (allocate s)
      else set_php None (throw_exception s)
  | EnsureAddref => set_php (Some EnsureSetCallback) (on_memory php_scylladb_notifier_addref s)
  | EnsureSetCallback =>
      match future s with
      | None => s
      | Some f =>
          let '(ok, run, f) := set_callback NotifyCallback f in
          set_php (Some (if ok then if run then EnsureInCallback CbPoke else EnsureRecheck else EnsureUnrefExtra))
            (set_future (Some f) s)
      end
  | EnsureInCallback pc =>
      let '(next, s) := notify_cb_step pc s in
      set_php (Some (match next with Some pc => EnsureInCallback pc | None => EnsureRecheck end)) s
  | EnsureUnrefExtra => set_php (Some EnsureFailed) (on_memory php_scylladb_notifier_unref_extra s)
  | EnsureFailed =>
      if cass_future_ready s then set_php (Some EnsureRecheck) s
      else set_php (Some EnsureUnref) (throw_exception s)
  | EnsureUnref => set_php None (on_memory php_scylladb_notifier_unref s)
  | EnsureRecheck => set_php (Some (if cass_future_ready s then EnsurePoke else EnsureStore)) s
  | EnsurePoke => set_php (Some EnsureStore) (on_memory php_scylladb_notifier_poke s)
  | EnsureStore => set_php None (set_slot true s)
  end.

(** What can happen: the driver resolves the future; its callback takes a step; the PHP thread
    takes a step; PHP code asks for the notifier, makes or drops a handle of the descriptor,
    or drops the future object. *)
Inductive notifier_label :=
| LResolve
| LCallback
| LEnsureStep (created : bool)
| LEnsure
| LHandle
| LDropHandle
| LFree.

Definition notifier_step (l : notifier_label) (s : notifier_state) : option notifier_state :=
  match l with
  | LResolve =>
      f ← future s;
      if is_set_ f then None
      else
        let '(cb, f) := internal_set f in
        Some (set_future (Some f) (match cb with Some NotifyCallback => set_io (Some CbPoke) s | _ => s end))
  | LCallback =>
      pc ← io_thread s;
      let '(next, s) := notify_cb_step pc s in Some (set_io next s)
  | LEnsureStep created => pc ← php_thread s; Some (ensure_step created pc s)
  | LEnsure =>
      match php_thread s with
      | Some _ => None
      | None =>
          if negb (object_alive s) then None
          else if notifier_slot s then Some s
          else match future s with
               | None => Some (throw_exception s)
               | Some _ => Some (set_php (Some EnsureCreate) s)
               end
      end
  | LHandle =>
      match php_thread s with
      | Some _ => None
      | None =>
          if object_alive s && notifier_slot s
          then Some (set_handles (handles s + 1) (on_memory php_scylladb_notifier_addref s)) else None
      end
  | LDropHandle =>
      match php_thread s with
      | Some _ => None
      | None => if 0 <? handles s then Some (set_handles (handles s - 1) (on_memory php_scylladb_notifier_unref s)) else None
      end
  | LFree =>
      match php_thread s with
      | Some _ => None
      | None =>
          if object_alive s
          then Some (set_dead (if notifier_slot s then set_slot false (on_memory php_scylladb_notifier_unref s) else s))
          else None
      end
  end.

Definition notifier_run (ls : list notifier_label) (s : notifier_state) : option notifier_state :=
  fold_left (fun o l => s ← o; notifier_step l s) ls (Some s).

(** A future object as the extension creates it, over a future of the driver whose callback is
    free or already taken. *)
Definition watched (f : Future completion_callback) : notifier_state :=
  {| future := Some f; memory := None; notifier_slot := false; php_thread := None; io_thread := None;
     object_alive := true; handles := 0; exceptions := 0; fault := false |}.

Definition initial_future (f : Future completion_callback) : Prop := callback_ f <> Some NotifyCallback.

(** ** The invariant *)

(** References held by the PHP thread while it sets the notifier up, and by the callback. *)
Definition setup_refs (pc : option ensure_pc) : Z :=
  match pc with None | Some EnsureCreate => 0 | Some _ => 1 end.

Definition callback_refs (s : notifier_state) : Z :=
  match php_thread s with
  | Some (EnsureSetCallback | EnsureInCallback _ | EnsureUnrefExtra) => 1
  | _ =>
      match io_thread s, future s with
      | Some _, _ => 1
      | None, Some {| is_set_ := false; callback_ := Some NotifyCallback |} => 1
      | _, _ => 0
      end
  end.

Definition references (s : notifier_state) : Z :=
  (if notifier_slot s then 1 else 0) + handles s + setup_refs (php_thread s) + callback_refs s.

Definition registered_by_us (s : notifier_state) : bool :=
  match future s with Some {| callback_ := Some NotifyCallback |} => true | _ => false end.

(** The program points after the callback has been registered, or has failed to be. *)
Definition past_registration (pc : option ensure_pc) : bool :=
  match pc with
  | Some (EnsureInCallback _ | EnsureRecheck | EnsurePoke | EnsureStore) => true
  | _ => false
  end.

(** The end of a successful setup. *)
Definition set_up (s : notifier_state) : bool :=
  notifier_slot s || match php_thread s with Some EnsureStore => true | _ => false end.

Definition readable (m : option notifier) : bool := match m with Some n => 0 <? counter n | None => false end.

(** Which combinations of program points, flags and readability occur. *)
Definition phase_ok (s : notifier_state) : bool :=
  let php := php_thread s in
  let ready := cass_future_ready s in
  let registered := registered_by_us s in
  let slot := notifier_slot s in
  implb slot (match php with None => object_alive s | Some _ => false end) &&
  implb (match php with None => false | Some _ => true end)
    (object_alive s && match future s with None => false | Some _ => true end) &&
  implb (match io_thread s with None => false | Some _ => true end) (registered && ready) &&
  implb (match php with Some (EnsureInCallback _) => true | _ => false end)
    (registered && ready && match io_thread s with None => true | Some _ => false end) &&
  implb (match php with Some (EnsureUnrefExtra | EnsureFailed) => true | _ => false end) (negb registered) &&
  implb (match php with Some EnsureRecheck => true | _ => false end) (registered || ready) &&
  implb (match php with Some EnsurePoke => true | _ => false end) ready &&
  implb registered (past_registration php || slot || negb (object_alive s)) &&
  implb (set_up s) (registered || ready) &&
  implb (readable (memory s)) ready &&
  implb (set_up s && ready) (match io_thread s with Some CbPoke => true | _ => readable (memory s) end).

Record notifier_inv (s : notifier_state) : Prop := {
  inv_fault : fault s = false;
  inv_handles : 0 <= handles s /\ (object_alive s = true -> notifier_slot s = false -> handles s = 0);
  inv_refs : match memory s with
             | Some n => refcount n = references s /\ 0 < references s /\ 0 <= counter n
             | None => references s = 0
             end;
  inv_phase : phase_ok s = true
}.

Lemma watched_inv f : initial_future f -> notifier_inv (watched f).
Proof.
  destruct f as [b cb]. unfold initial_future; cbn [callback_]. intros Hf.
  constructor; try done; destruct cb as [ [] |], b; done.
Qed.

(** Evaluate the invariant on a state whose program points and flags are known. *)
Ltac unfold_inv :=
  unfold phase_ok, references, callback_refs, setup_refs, readable, set_up, registered_by_us, cass_future_ready in *;
  cbn in *.

Ltac solve_inv :=
  unfold_inv;
  unfold on_memory; cbn;
  repeat match goal with
  | H : context [?a =? ?b] |- _ => destruct (Z.eqb_spec a b)
  | |- context [?a =? ?b] => destruct (Z.eqb_spec a b)
  | |- context [1 <? ?b] => destruct (Z.ltb_spec 1 b)
  end; try lia;
  constructor; unfold_inv;
  repeat match goal with
  | H : context [?a <? ?b] |- _ => destruct (Z.ltb_spec a b)
  | |- context [?a <? ?b] => destruct (Z.ltb_spec a b)
  end; try discriminate; try reflexivity; try lia.

Ltac notifier_cases f php io slot alive m :=
  destruct f as [ [ [] [ [] |] ] |], php as [ [ | | | [] | | | | | | ] |], io as [ [] |], slot, alive;
  try discriminate; destruct m as [ [rc ct] |].

Lemma notifier_step_inv l s s' : notifier_inv s -> notifier_step l s = Some s' -> notifier_inv s'.
Proof.
  intros [Hf Hh Hr Hp] H. destruct s as [f m slot php io alive hs ex flt]. cbn in Hf, Hh. subst flt.
  destruct l; cbn in H.
  - notifier_cases f php io slot alive m; cbn in H; injection H as <-; solve_inv.
  - notifier_cases f php io slot alive m; cbn in H; injection H as <-; solve_inv.
  - destruct created; notifier_cases f php io slot alive m; cbn in H; injection H as <-; solve_inv.
  - notifier_cases f php io slot alive m; cbn in H; injection H as <-; solve_inv.
  - notifier_cases f php io slot alive m; cbn in H; injection H as <-; solve_inv.
  - destruct (Z.ltb_spec 0 hs); [|by destruct php].
    notifier_cases f php io slot alive m; cbn in H; injection H as <-; solve_inv.
  - notifier_cases f php io slot alive m; cbn in H; injection H as <-; solve_inv.
Qed.

Lemma notifier_run_inv ls : forall s s', notifier_inv s -> notifier_run ls s = Some s' -> notifier_inv s'.
Proof.
  unfold notifier_run. induction ls as [|l ls IH]; intros s s' Hs H; cbn in H; [by simplify_eq|].
  destruct (notifier_step l s) as [s1|] eqn:E.
  - apply (IH s1 s'); [by apply (notifier_step_inv l s)|done].
  - exfalso. clear -H. induction ls; [done|by apply IHls].
Qed.

Lemma references_none s : notifier_inv s -> references s = 0 -> memory s = None.
Proof. intros [_ _ Hr _] H. destruct (memory s); [lia|done]. Qed.

Lemma published_notifier s : notifier_inv s -> notifier_slot s = true ->
  exists n, memory s = Some n /\ (cass_future_ready s = true -> io_thread s = None -> 0 < counter n).
Proof.
  intros [_ Hh Hr Hp] Hslot. destruct s as [f m slot php io alive hs ex flt]. cbn in Hslot. subst slot.
  destruct m as [n|].
  - exists n. split; [done|]. cbn in *. intros Hready ->. unfold phase_ok, set_up in Hp. cbn in Hp.
    rewrite Hready, !andb_true_iff in Hp. destruct Hp as [_ Hp]. cbn in Hp. lia.
  - exfalso. unfold references, callback_refs, setup_refs in Hr. cbn in *.
    repeat case_match; cbn in *; lia.
Qed.

(** C29: for every interleaving of the PHP thread and the driver's callback, whether the callback
    of the future was free or taken, and whatever the program does with the future, its handles
    and its descriptor: no step touches a notifier that is freed or its closed descriptor; the
    descriptor is readable only if the future is resolved, and a descriptor that has been
    published is readable once the future is resolved and its callback has run; and when the
    object, the handles and the callback are gone, the notifier is freed. *)
Theorem notifier_contract f ls s :
  initial_future f -> notifier_run ls (watched f) = Some s ->
  fault s = false /\
  (readable (memory s) = true -> cass_future_ready s = true) /\
  (notifier_slot s = true -> cass_future_ready s = true -> io_thread s = None -> readable (memory s) = true) /\
  (object_alive s = false -> handles s = 0 -> io_thread s = None ->
   (registered_by_us s = true -> cass_future_ready s = true) -> memory s = None).
Proof.
  intros Hf Hrun. pose proof (notifier_run_inv ls _ _ (watched_inv f Hf) Hrun) as Hinv.
  pose proof Hinv as [Hfault Hh Hr Hp]. split_and!; [done| | |].
  - intros Hread. unfold phase_ok in Hp. rewrite !andb_true_iff, Hread in Hp.
    destruct Hp as [[_ Hp] _]. done.
  - intros Hslot Hready Hio. destruct (published_notifier s Hinv Hslot) as (n & -> & H). specialize (H Hready Hio). cbn. lia.
  - intros Halive Hh0 Hio Hcb. apply (references_none s Hinv).
    unfold phase_ok in Hp. rewrite !andb_true_iff, Halive in Hp. clear Hr Hh Hinv Hrun.
    unfold references, callback_refs, registered_by_us, cass_future_ready in *.
    destruct Hp as [[[[[[[[[[H1 H2] _] _] _] _] _] _] _] _] _].
    destruct (notifier_slot s), (php_thread s); try done. rewrite Hio, Hh0.
    destruct (future s) as [ [ [] [ [] |] ] |]; try done. by specialize (Hcb eq_refl).
Qed.

(** Example: the future is resolved between the registration of the callback and the second
    check, and the object is dropped before the callback has run. *)
Definition late_callback : list notifier_label :=
  [LEnsure; LEnsureStep true; LEnsureStep true; LEnsureStep true; LResolve; LEnsureStep true; LEnsureStep true;
   LEnsureStep true; LFree; LCallback; LCallback].

Definition pending_future : Future completion_callback := {| is_set_ := false; callback_ := None |}.

Lemma notifier_contract_witness :
  exists s, notifier_run late_callback (watched pending_future) = Some s /\ fault s = false /\ memory s = None.
Proof.
  destruct (notifier_run late_callback (watched pending_future)) as [s|] eqn:E; [|discriminate E].
  exists s. split; [done|].
  destruct (notifier_contract pending_future late_callback s ltac:(discriminate) E) as (H & _ & _ & Hfree).
  split; [exact H|]. vm_compute in E. injection E as <-. apply Hfree; reflexivity.
Defined.
