(* ===== verification/Reactor.v ===== *)
(** The shared reactor ([Async/Reactor.c]): one descriptor and one queue of completions for many
    futures of the driver.

    The PHP thread registers futures and polls; the callbacks of the driver run on other threads
    and append to the queue under a mutex.  Each atomic action is one step, so that every
    interleaving is a run: an operation on an atomic field, a lock or unlock, a write to or a read
    of the descriptor, the sections of the driver under a future's mutex; what only the PHP
    thread reads and writes belongs to the step before it.  Callbacks of [Reactor::add] are PHP
    code, which may call the reactor again: [callers] is the stack of the polls that are inside a
    callback.  Memory is explicit: an access to a registration that is freed, or to the queue of
    a freed reactor, and a failed assertion set [corrupt]. *)
From S2P Require Import Prelude Notifier.
From stdpp Require Import gmap.
#[local] Open Scope Z_scope.

(** ** State *)

Record reg : Type := {
  reg_refcount : Z;
  enqueued : bool;
  future_obj : option nat;
  reg_future : option nat;
  reg_slot : nat;
  fcc : bool;
  next_ready : option nat;
  prev_reg : option nat;
  next_reg : option nat
}.

Definition set_reg_refcount (v : Z) (s : reg) : reg :=
  {| reg_refcount := v; enqueued := enqueued s; future_obj := future_obj s; reg_future := reg_future s; reg_slot := reg_slot s; fcc := fcc s; next_ready := next_ready s; prev_reg := prev_reg s; next_reg := next_reg s |}.
Definition set_enqueued (v : bool) (s : reg) : reg :=
  {| reg_refcount := reg_refcount s; enqueued := v; future_obj := future_obj s; reg_future := reg_future s; reg_slot := reg_slot s; fcc := fcc s; next_ready := next_ready s; prev_reg := prev_reg s; next_reg := next_reg s |}.
Definition set_future_obj (v : option nat) (s : reg) : reg :=
  {| reg_refcount := reg_refcount s; enqueued := enqueued s; future_obj := v; reg_future := reg_future s; reg_slot := reg_slot s; fcc := fcc s; next_ready := next_ready s; prev_reg := prev_reg s; next_reg := next_reg s |}.
Definition set_reg_future (v : option nat) (s : reg) : reg :=
  {| reg_refcount := reg_refcount s; enqueued := enqueued s; future_obj := future_obj s; reg_future := v; reg_slot := reg_slot s; fcc := fcc s; next_ready := next_ready s; prev_reg := prev_reg s; next_reg := next_reg s |}.
Definition set_reg_slot (v : nat) (s : reg) : reg :=
  {| reg_refcount := reg_refcount s; enqueued := enqueued s; future_obj := future_obj s; reg_future := reg_future s; reg_slot := v; fcc := fcc s; next_ready := next_ready s; prev_reg := prev_reg s; next_reg := next_reg s |}.
Definition set_fcc (v : bool) (s : reg) : reg :=
  {| reg_refcount := reg_refcount s; enqueued := enqueued s; future_obj := future_obj s; reg_future := reg_future s; reg_slot := reg_slot s; fcc := v; next_ready := next_ready s; prev_reg := prev_reg s; next_reg := next_reg s |}.
Definition set_next_ready (v : option nat) (s : reg) : reg :=
  {| reg_refcount := reg_refcount s; enqueued := enqueued s; future_obj := future_obj s; reg_future := reg_future s; reg_slot := reg_slot s; fcc := fcc s; next_ready := v; prev_reg := prev_reg s; next_reg := next_reg s |}.
Definition set_prev_reg (v : option nat) (s : reg) : reg :=
  {| reg_refcount := reg_refcount s; enqueued := enqueued s; future_obj := future_obj s; reg_future := reg_future s; reg_slot := reg_slot s; fcc := fcc s; next_ready := next_ready s; prev_reg := v; next_reg := next_reg s |}.
Definition set_next_reg (v : option nat) (s : reg) : reg :=
  {| reg_refcount := reg_refcount s; enqueued := enqueued s; future_obj := future_obj s; reg_future := reg_future s; reg_slot := reg_slot s; fcc := fcc s; next_ready := next_ready s; prev_reg := prev_reg s; next_reg := v |}.

(** An object of a class that implements [Cassandra\Future], with the slots of
    [php_scylladb_future_slots]; [pins] counts the references the reactor holds. *)
Record future_object : Type := {
  obj_future : option nat;
  obj_notifier : bool;
  reactor_reg : option nat;
  pins : Z
}.

Definition set_obj_future (v : option nat) (s : future_object) : future_object :=
  {| obj_future := v; obj_notifier := obj_notifier s; reactor_reg := reactor_reg s; pins := pins s |}.
Definition set_obj_notifier (v : bool) (s : future_object) : future_object :=
  {| obj_future := obj_future s; obj_notifier := v; reactor_reg := reactor_reg s; pins := pins s |}.
Definition set_reactor_reg (v : option nat) (s : future_object) : future_object :=
  {| obj_future := obj_future s; obj_notifier := obj_notifier s; reactor_reg := v; pins := pins s |}.
Definition set_pins (v : Z) (s : future_object) : future_object :=
  {| obj_future := obj_future s; obj_notifier := obj_notifier s; reactor_reg := reactor_reg s; pins := v |}.

Inductive thread := Php | Io (r : nat).

#[export] Instance thread_eq_dec : EqDecision thread.
Proof. solve_decision. Defined.

(** The actions of [reg_enqueue]. *)
Inductive enqueue_pc := ECas | ELock | EPush | ESignal | EUnlock.

#[export] Instance enqueue_pc_eq_dec : EqDecision enqueue_pc.
Proof. solve_decision. Defined.

(** Why the queue is consumed: by [poll] with its limit, or discarded by [reset] or [destroy]. *)
Inductive consumer := Poll (max : Z) | Discard (destroy : bool).

(** The program points of the PHP thread: PHP code; [add]; the loop of [reactor_drain];
    [poll] from the first read of the descriptor to the last unlock. *)
Inductive php_pc :=
| PUser
| PSetCallback (r f : nat)
| PInCallback (r f : nat) (pc : enqueue_pc)
| PCheck (r f : nat) (ok : bool)
| PEnqueue (r : nat) (pc : enqueue_pc)
| PWait (r : option nat) (destroy : bool)
| PDrain (c : consumer)
| PSplice (c : consumer)
| PTake (c : consumer)
| PSpliceUnlock (c : consumer) (head : option nat)
| PConsume (c : consumer) (head : option nat) (taken : Z) (out : list nat)
| PRequeue (head : nat) (thrown : bool) (out : list nat)
| PRequeueLink (head : nat) (thrown : bool) (out : list nat)
| PRequeueSignal (thrown : bool) (out : list nat)
| PRequeueUnlock (thrown : bool) (out : list nat)
| PReclaim (thrown : bool) (out : list nat)
| PResetDrain (destroy : bool).

(** A poll that is inside the callback of the registration [caller_reg]. *)
Record caller : Type := { caller_reg : nat; caller_head : option nat; caller_taken : Z; caller_max : Z; caller_out : list nat }.

(** What the program can observe: a future was registered, given to PHP code, or dropped when the
    reactor was reset. *)
Inductive event := Added (o : nat) | Delivered (o : nat) | Dropped (o : nat).

Record reactor_state : Type := {
  regs : gmap nat reg;
  fresh_reg : nat;
  objects : gmap nat future_object;
  futures : gmap nat (Future (option nat));
  refs : Z;
  fd_counter : Z;
  mutex : option thread;
  ready_head : option nat;
  ready_tail : option nat;
  registered : option nat;
  pending : Z;
  freed : bool;
  io : gmap nat enqueue_pc;
  php : php_pc;
  callers : list caller;
  log : list event;
  corrupt : bool
}.

Definition set_regs (v : gmap nat reg) (s : reactor_state) : reactor_state :=
  {| regs := v; fresh_reg := fresh_reg s; objects := objects s; futures := futures s; refs := refs s; fd_counter := fd_counter s; mutex := mutex s; ready_head := ready_head s; ready_tail := ready_tail s; registered := registered s; pending := pending s; freed := freed s; io := io s; php := php s; callers := callers s; log := log s; corrupt := corrupt s |}.
Definition set_fresh_reg (v : nat) (s : reactor_state) : reactor_state :=
  {| regs := regs s; fresh_reg := v; objects := objects s; futures := futures s; refs := refs s; fd_counter := fd_counter s; mutex := mutex s; ready_head := ready_head s; ready_tail := ready_tail s; registered := registered s; pending := pending s; freed := freed s; io := io s; php := php s; callers := callers s; log := log s; corrupt := corrupt s |}.
Definition set_objects (v : gmap nat future_object) (s : reactor_state) : reactor_state :=
  {| regs := regs s; fresh_reg := fresh_reg s; objects := v; futures := futures s; refs := refs s; fd_counter := fd_counter s; mutex := mutex s; ready_head := ready_head s; ready_tail := ready_tail s; registered := registered s; pending := pending s; freed := freed s; io := io s; php := php s; callers := callers s; log := log s; corrupt := corrupt s |}.
Definition set_futures (v : gmap nat (Future (option nat))) (s : reactor_state) : reactor_state :=
  {| regs := regs s; fresh_reg := fresh_reg s; objects := objects s; futures := v; refs := refs s; fd_counter := fd_counter s; mutex := mutex s; ready_head := ready_head s; ready_tail := ready_tail s; registered := registered s; pending := pending s; freed := freed s; io := io s; php := php s; callers := callers s; log := log s; corrupt := corrupt s |}.
Definition set_refs (v : Z) (s : reactor_state) : reactor_state :=
  {| regs := regs s; fresh_reg := fresh_reg s; objects := objects s; futures := futures s; refs := v; fd_counter := fd_counter s; mutex := mutex s; ready_head := ready_head s; ready_tail := ready_tail s; registered := registered s; pending := pending s; freed := freed s; io := io s; php := php s; callers := callers s; log := log s; corrupt := corrupt s |}.
Definition set_fd_counter (v : Z) (s : reactor_state) : reactor_state :=
  {| regs := regs s; fresh_reg := fresh_reg s; objects := objects s; futures := futures s; refs := refs s; fd_counter := v; mutex := mutex s; ready_head := ready_head s; ready_tail := ready_tail s; registered := registered s; pending := pending s; freed := freed s; io := io s; php := php s; callers := callers s; log := log s; corrupt := corrupt s |}.
Definition set_mutex (v : option thread) (s : reactor_state) : reactor_state :=
  {| regs := regs s; fresh_reg := fresh_reg s; objects := objects s; futures := futures s; refs := refs s; fd_counter := fd_counter s; mutex := v; ready_head := ready_head s; ready_tail := ready_tail s; registered := registered s; pending := pending s; freed := freed s; io := io s; php := php s; callers := callers s; log := log s; corrupt := corrupt s |}.
Definition set_ready_head (v : option nat) (s : reactor_state) : reactor_state :=
  {| regs := regs s; fresh_reg := fresh_reg s; objects := objects s; futures := futures s; refs := refs s; fd_counter := fd_counter s; mutex := mutex s; ready_head := v; ready_tail := ready_tail s; registered := registered s; pending := pending s; freed := freed s; io := io s; php := php s; callers := callers s; log := log s; corrupt := corrupt s |}.
Definition set_ready_tail (v : option nat) (s : reactor_state) : reactor_state :=
  {| regs := regs s; fresh_reg := fresh_reg s; objects := objects s; futures := futures s; refs := refs s; fd_counter := fd_counter s; mutex := mutex s; ready_head := ready_head s; ready_tail := v; registered := registered s; pending := pending s; freed := freed s; io := io s; php := php s; callers := callers s; log := log s; corrupt := corrupt s |}.
Definition set_registered (v : option nat) (s : reactor_state) : reactor_state :=
  {| regs := regs s; fresh_reg := fresh_reg s; objects := objects s; futures := futures s; refs := refs s; fd_counter := fd_counter s; mutex := mutex s; ready_head := ready_head s; ready_tail := ready_tail s; registered := v; pending := pending s; freed := freed s; io := io s; php := php s; callers := callers s; log := log s; corrupt := corrupt s |}.
Definition set_pending (v : Z) (s : reactor_state) : reactor_state :=
  {| regs := regs s; fresh_reg := fresh_reg s; objects := objects s; futures := futures s; refs := refs s; fd_counter := fd_counter s; mutex := mutex s; ready_head := ready_head s; ready_tail := ready_tail s; registered := registered s; pending := v; freed := freed s; io := io s; php := php s; callers := callers s; log := log s; corrupt := corrupt s |}.
Definition set_freed (v : bool) (s : reactor_state) : reactor_state :=
  {| regs := regs s; fresh_reg := fresh_reg s; objects := objects s; futures := futures s; refs := refs s; fd_counter := fd_counter s; mutex := mutex s; ready_head := ready_head s; ready_tail := ready_tail s; registered := registered s; pending := pending s; freed := v; io := io s; php := php s; callers := callers s; log := log s; corrupt := corrupt s |}.
Definition set_io (v : gmap nat enqueue_pc) (s : reactor_state) : reactor_state :=
  {| regs := regs s; fresh_reg := fresh_reg s; objects := objects s; futures := futures s; refs := refs s; fd_counter := fd_counter s; mutex := mutex s; ready_head := ready_head s; ready_tail := ready_tail s; registered := registered s; pending := pending s; freed := freed s; io := v; php := php s; callers := callers s; log := log s; corrupt := corrupt s |}.
Definition set_php (v : php_pc) (s : reactor_state) : reactor_state :=
  {| regs := regs s; fresh_reg := fresh_reg s; objects := objects s; futures := futures s; refs := refs s; fd_counter := fd_counter s; mutex := mutex s; ready_head := ready_head s; ready_tail := ready_tail s; registered := registered s; pending := pending s; freed := freed s; io := io s; php := v; callers := callers s; log := log s; corrupt := corrupt s |}.
Definition set_callers (v : list caller) (s : reactor_state) : reactor_state :=
  {| regs := regs s; fresh_reg := fresh_reg s; objects := objects s; futures := futures s; refs := refs s; fd_counter := fd_counter s; mutex := mutex s; ready_head := ready_head s; ready_tail := ready_tail s; registered := registered s; pending := pending s; freed := freed s; io := io s; php := php s; callers := v; log := log s; corrupt := corrupt s |}.
Definition set_log (v : list event) (s : reactor_state) : reactor_state :=
  {| regs := regs s; fresh_reg := fresh_reg s; objects := objects s; futures := futures s; refs := refs s; fd_counter := fd_counter s; mutex := mutex s; ready_head := ready_head s; ready_tail := ready_tail s; registered := registered s; pending := pending s; freed := freed s; io := io s; php := php s; callers := callers s; log := v; corrupt := corrupt s |}.
Definition set_corrupt (v : bool) (s : reactor_state) : reactor_state :=
  {| regs := regs s; fresh_reg := fresh_reg s; objects := objects s; futures := futures s; refs := refs s; fd_counter := fd_counter s; mutex := mutex s; ready_head := ready_head s; ready_tail := ready_tail s; registered := registered s; pending := pending s; freed := freed s; io := io s; php := php s; callers := callers s; log := log s; corrupt := v |}.

(** ** Memory *)

Definition fail_memory (s : reactor_state) : reactor_state := set_corrupt true s.

(** Read or write a registration. *)
Definition with_reg (r : nat) (s : reactor_state) (f : reg -> reactor_state) : reactor_state :=
  match regs s !! r with Some g => f g | None => fail_memory s end.

Definition put_reg (r : nat) (g : reg) (s : reactor_state) : reactor_state := set_regs (<[r := g]> (regs s)) s.

Definition change_reg (r : nat) (f : reg -> reg) (s : reactor_state) : reactor_state :=
  with_reg r s (fun g => put_reg r (f g) s).

Definition change_opt (r : option nat) (f : reg -> reg) (s : reactor_state) : reactor_state :=
  match r with Some r => change_reg r f s | None => s end.

Definition change_object (o : nat) (f : future_object -> future_object) (s : reactor_state) : reactor_state :=
  set_objects (alter f o (objects s)) s.

Definition add_pin (o : nat) : reactor_state -> reactor_state := change_object o (fun b => set_pins (pins b + 1) b).
Definition release_pin (o : nat) : reactor_state -> reactor_state := change_object o (fun b => set_pins (pins b - 1) b).

Definition record_event (e : event) (s : reactor_state) : reactor_state := set_log (log s ++ [e]) s.

(** ** Registrations *)

Definition new_reg (o : nat) (f : option nat) (callback : bool) (next : option nat) : reg :=
  {| reg_refcount := 2; enqueued := false; future_obj := Some o; reg_future := f; reg_slot := o; fcc := callback;
     next_ready := None; prev_reg := None; next_reg := next |}.

(** [reg_create] and the number of the registration. *)
Definition reg_create (o : nat) (f : option nat) (callback : bool) (s : reactor_state) : nat * reactor_state :=
  let r := fresh_reg s in
  let s := set_fresh_reg (S r) (set_refs (refs s + 1) s) in
  let s := change_object o (set_reactor_reg (Some r)) (add_pin o s) in
  let s := put_reg r (new_reg o f callback (registered s)) s in
  let s := change_opt (registered s) (set_prev_reg (Some r)) s in
  (r, set_pending (pending s + 1) (set_registered (Some r) s)).

(** [php_scylladb_reactor_unref]. *)
Definition reactor_unref (s : reactor_state) : reactor_state :=
  if refs s =? 1 then set_freed true (set_refs 0 s) else set_refs (refs s - 1) s.

Definition reg_release (r : nat) (s : reactor_state) : reactor_state :=
  with_reg r s (fun g =>
    if reg_refcount g =? 2 then
      let s := match future_obj g with Some o => release_pin o s | None => s end in
      set_regs (delete r (regs s)) (reactor_unref s)
    else put_reg r (set_reg_refcount (reg_refcount g - 2) g) s).

Definition reg_unregister (r : nat) (s : reactor_state) : reactor_state :=
  with_reg r s (fun g =>
    let s := match prev_reg g with
             | Some p => change_reg p (set_next_reg (next_reg g)) s
             | None => set_registered (next_reg g) s
             end in
    let s := change_opt (next_reg g) (set_prev_reg (prev_reg g)) s in
    let s := change_reg r (fun g => set_next_reg None (set_prev_reg None g)) s in
    set_pending (pending s - 1) s).

(** ** The queue *)

(** The body of [reg_enqueue] between lock and signal. *)
Definition push_ready (r : nat) (s : reactor_state) : reactor_state :=
  let s := change_reg r (set_next_ready None) s in
  let s := match ready_tail s with
           | Some t => change_reg t (set_next_ready (Some r)) s
           | None => set_ready_head (Some r) s
           end in
  set_ready_tail (Some r) s.

(** One action of [reg_enqueue] by thread [t]; [None] while the mutex is held by another thread.
    The next program point is [None] when it returns. *)
Definition enqueue_step (t : thread) (r : nat) (pc : enqueue_pc) (s : reactor_state) : option (option enqueue_pc * reactor_state) :=
  match pc with
  | ECas =>
      match regs s !! r with
      | None => Some (None, fail_memory s)
      | Some g => if enqueued g then Some (None, s) else Some (Some ELock, put_reg r (set_enqueued true g) s)
      end
  | ELock =>
      if freed s then Some (None, fail_memory s)
      else match mutex s with
           | Some _ => None
           | None => Some (Some EPush, with_reg r s (fun _ => set_mutex (Some t) s))
           end
  | EPush => Some (Some ESignal, push_ready r s)
  | ESignal =>
      if freed s then Some (None, fail_memory s) else Some (Some EUnlock, set_fd_counter (fd_counter s + 1) s)
  | EUnlock => if freed s then Some (None, fail_memory s) else Some (None, set_mutex None s)
  end.

(** The walk of [reactor_requeue] to the end of the list. *)
Fixpoint last_ready (fuel : nat) (r : nat) (s : reactor_state) : option nat :=
  match fuel with
  | O => None
  | S fuel' =>
      g ← regs s !! r;
      match next_ready g with None => Some r | Some r' => last_ready fuel' r' s end
  end.

(** [reactor_requeue] under the lock. *)
Definition requeue_front (head : nat) (s : reactor_state) : reactor_state :=
  match last_ready (S (size (regs s))) head s with
  | None => fail_memory s
  | Some tail =>
      let s := change_reg tail (set_next_ready (ready_head s)) s in
      let s := set_ready_head (Some head) s in
      match ready_tail s with None => set_ready_tail (Some tail) s | Some _ => s end
  end.

(** The loop of [reactor_reclaim]: the first and the last of the new registrations. *)
Fixpoint reclaim_loop (out : list nat) (head tail : option nat) (s : reactor_state) : option nat * reactor_state :=
  match out with
  | [] => (head, s)
  | o :: out' =>
      match objects s !! o with
      | None => reclaim_loop out' head tail s
      | Some b =>
          let '(r, s) := reg_create o (obj_future b) false s in
          let s := change_reg r (fun g => set_next_ready None (set_enqueued true g)) s in
          match tail with
          | Some t => reclaim_loop out' head (Some r) (change_reg t (set_next_ready (Some r)) s)
          | None => reclaim_loop out' (Some r) (Some r) s
          end
      end
  end.

(** ** The PHP thread *)

Definition future_ready (f : nat) (s : reactor_state) : bool :=
  match futures s !! f with Some fu => is_set_ fu | None => false end.

(** The head of the loop of [reactor_drain]. *)
Definition drain_loop (destroy : bool) (s : reactor_state) : reactor_state :=
  match registered s with
  | None => set_php (PResetDrain destroy) s
  | Some r => set_php (PWait (Some r) destroy) s
  end.

(** The end of [reactor_consume]: its callers go on with what is left. *)
Definition after_consume (c : consumer) (head : option nat) (thrown : bool) (out : list nat) (s : reactor_state) : reactor_state :=
  match c, head with
  | Poll _, Some h => set_php (PRequeue h thrown out) s
  | Poll _, None => set_php (PReclaim thrown out) s
  | Discard destroy, _ => drain_loop destroy s
  end.

Definition consumer_max (c : consumer) : Z := match c with Poll max => max | Discard _ => 0 end.

(** One turn of the loop of [reactor_consume], up to the call of a callback. *)
Definition consume_turn (c : consumer) (r : nat) (taken : Z) (out : list nat) (s : reactor_state) : reactor_state :=
  with_reg r s (fun g =>
    let head := next_ready g in
    let s := reg_unregister r s in
    match future_obj g with
    | None => set_php (PConsume c head (taken + 1) out) (reg_release r s)
    | Some o =>
        let s := change_object (reg_slot g) (set_reactor_reg None) s in
        match c with
        | Poll max =>
            if fcc g then
              let s := record_event (Delivered o) s in
              set_php PUser
                (set_callers ({| caller_reg := r; caller_head := head; caller_taken := taken; caller_max := max; caller_out := out |} :: callers s) s)
            else
              set_php (PConsume c head (taken + 1) (out ++ [o])) (reg_release r (change_reg r (set_future_obj None) s))
        | Discard _ =>
            let s := record_event (Dropped o) (release_pin o s) in
            set_php (PConsume c head (taken + 1) out) (reg_release r (change_reg r (set_future_obj None) s))
        end
    end).

(** The callback of a poll has returned or thrown. *)
Definition callback_done (k : caller) (s : reactor_state) : reactor_state :=
  with_reg (caller_reg k) s (fun g =>
    let s := match future_obj g with Some o => release_pin o s | None => s end in
    reg_release (caller_reg k) (change_reg (caller_reg k) (set_future_obj None) s)).

(** [poll] returns: without an exception its array goes to PHP code. *)
Definition poll_returns (thrown : bool) (out : list nat) (s : reactor_state) : reactor_state :=
  if thrown then set_php PUser s
  else set_php PUser (foldl (fun s o => record_event (Delivered o) (release_pin o s)) s out).

Definition claim_reactor (b : future_object) : bool :=
  match reactor_reg b with Some _ => false | None => negb (obj_notifier b) end.

Definition claim_notifier (b : future_object) : bool :=
  match reactor_reg b with Some _ => false | None => true end.

(** [Cassandra\Async\Reactor::add], up to the registration with the driver. *)
Definition reactor_add (o : nat) (callback : bool) (s : reactor_state) : reactor_state :=
  match objects s !! o with
  | None => s
  | Some b =>
      if claim_reactor b then
        let '(r, s) := reg_create o (obj_future b) callback (record_event (Added o) s) in
        match obj_future b with
        | None => set_php (PEnqueue r ECas) s
        | Some f => set_php (PSetCallback r f) s
        end
      else s
  end.

(** The roll back of a registration the driver has refused. *)
Definition add_fails (r : nat) (s : reactor_state) : reactor_state :=
  with_reg r s (fun g =>
    let s := change_object (reg_slot g) (set_reactor_reg None) s in
    let s := match future_obj g with Some o => record_event (Dropped o) s | None => s end in
    set_php PUser (reg_release r (reg_unregister r s))).

(** [Cassandra\Async\Reactor::poll] with its argument. *)
Definition reactor_poll (max : option Z) (s : reactor_state) : reactor_state :=
  match max with
  | None => set_php (PDrain (Poll 0)) s
  | Some m => if m <? 1 then s else set_php (PDrain (Poll (wrapU 32 m))) s
  end.

(** Continue with [k] after an action of [reg_enqueue] has left no further one. *)
Definition php_enqueue (r : nat) (pc : enqueue_pc) (more : enqueue_pc -> php_pc) (k : php_pc) (s : reactor_state) : option reactor_state :=
  '(next, s) ← enqueue_step Php r pc s;
  Some (set_php (match next with Some pc => more pc | None => k end) s).

Definition php_lock (k : php_pc) (s : reactor_state) : option reactor_state :=
  match mutex s with Some _ => None | None => Some (set_php k (set_mutex (Some Php) s)) end.

(** One step of the PHP thread inside the extension; [None] when it waits for a future or the
    mutex, and in PHP code. *)
Definition php_step (s : reactor_state) : option reactor_state :=
  match php s with
  | PUser => None
  | PSetCallback r f =>
      fu ← futures s !! f;
      let '(ok, run, fu) := set_callback (Some r) fu in
      Some (set_php (if ok then if run then PInCallback r f ECas else PCheck r f true else PCheck r f false)
        (set_futures (<[f := fu]> (futures s)) s))
  | PInCallback r f pc => php_enqueue r pc (PInCallback r f) (PCheck r f true) s
  | PCheck r f ok =>
      let ready := future_ready f s in
      if negb ok && negb ready then Some (add_fails r s)
      else if negb ok || ready then Some (set_php (PEnqueue r ECas) s)
      else Some (set_php PUser s)
  | PEnqueue r pc => php_enqueue r pc (PEnqueue r) PUser s
  | PWait None destroy => Some (set_php (PDrain (Discard destroy)) s)
  | PWait (Some r) destroy =>
      match regs s !! r with
      | None => Some (fail_memory s)
      | Some g =>
          match reg_future g with
          | Some f => if future_ready f s then Some (set_php (PWait (next_reg g) destroy) s) else None
          | None => Some (set_php (PWait (next_reg g) destroy) s)
          end
      end
  | PDrain c => if 0 <? fd_counter s then Some (set_fd_counter 0 s) else Some (set_php (PSplice c) s)
  | PSplice c => php_lock (PTake c) s
  | PTake c =>
      Some (set_php (PSpliceUnlock c (ready_head s)) (set_ready_tail None (set_ready_head None s)))
  | PSpliceUnlock c head =>
      let s := set_mutex None s in
      Some match c, head with
           | Discard destroy, None => drain_loop destroy s
           | _, _ => set_php (PConsume c head 0 []) s
           end
  | PConsume c head taken out =>
      Some match head with
           | Some r => if (consumer_max c =? 0) || (taken <? consumer_max c) then consume_turn c r taken out s
                       else after_consume c head false out s
           | None => after_consume c head false out s
           end
  | PRequeue head thrown out => php_lock (PRequeueLink head thrown out) s
  | PRequeueLink head thrown out => Some (set_php (PRequeueSignal thrown out) (requeue_front head s))
  | PRequeueSignal thrown out => Some (set_php (PRequeueUnlock thrown out) (set_fd_counter (fd_counter s + 1) s))
  | PRequeueUnlock thrown out => Some (set_php (PReclaim thrown out) (set_mutex None s))
  | PReclaim thrown out =>
      Some match thrown, out with
           | true, _ :: _ =>
               let '(head, s) := reclaim_loop out None None s in
               let s := foldl (fun s o => release_pin o s) s out in
               match head with
               | Some h => set_php (PRequeue h thrown []) s
               | None => poll_returns thrown [] s
               end
           | _, _ => poll_returns thrown out s
           end
  | PResetDrain destroy =>
      if destroy then Some (set_php PUser (reactor_unref s))
      else if 0 <? fd_counter s then Some (set_fd_counter 0 s)
      else Some (set_php PUser s)
  end.

(** What PHP code can do: make a future object (over a future of the driver, or resolved on
    construction), watch it by its own descriptor, use the reactor, return from a callback or
    throw; and the end of the request and of the process. *)
Inductive user_action :=
| UNew (o : nat) (f : option nat)
| UWatch (o : nat)
| UAdd (o : nat) (callback : bool)
| UPoll (max : option Z)
| UReturn
| UThrow
| UReset
| UDestroy.

Definition watch (o : nat) (s : reactor_state) : reactor_state :=
  match objects s !! o with
  | Some b =>
      if claim_notifier b then
        match obj_future b with
        | None => change_object o (set_obj_notifier true) s
        | Some f =>
            match futures s !! f with
            | None => s
            | Some fu =>
                let '(ok, _, fu) := set_callback None fu in
                let s := set_futures (<[f := fu]> (futures s)) s in
                if ok || is_set_ fu then change_object o (set_obj_notifier true) s else s
            end
        end
      else s
  | None => s
  end.

Definition user_step (u : user_action) (s : reactor_state) : option reactor_state :=
  if freed s then None
  else match php s with
  | PUser =>
      match u with
      | UNew o f =>
          match objects s !! o, f ≫= fun f => futures s !! f with
          | None, None =>
              let s := set_objects (<[o := {| obj_future := f; obj_notifier := false; reactor_reg := None; pins := 0 |}]> (objects s)) s in
              Some match f with
                   | Some f => set_futures (<[f := {| is_set_ := false; callback_ := None |}]> (futures s)) s
                   | None => s
                   end
          | _, _ => None
          end
      | UWatch o => Some (watch o s)
      | UAdd o callback => Some (reactor_add o callback s)
      | UPoll max => Some (reactor_poll max s)
      | UReturn =>
          match callers s with
          | [] => None
          | k :: ks =>
              Some (set_php (PConsume (Poll (caller_max k)) (caller_head k) (caller_taken k + 1) (caller_out k))
                (callback_done k (set_callers ks s)))
          end
      | UThrow =>
          match callers s with
          | [] => None
          | k :: ks => Some (after_consume (Poll (caller_max k)) (caller_head k) true (caller_out k) (callback_done k (set_callers ks s)))
          end
      | UReset => match callers s with [] => Some (drain_loop false s) | _ => None end
      | UDestroy => match callers s with [] => Some (drain_loop true s) | _ => None end
      end
  | _ => None
  end.

Inductive reactor_label := LResolved (f : nat) | LIo (r : nat) | LPhp | LUser (u : user_action).

Definition reactor_step (l : reactor_label) (s : reactor_state) : option reactor_state :=
  match l with
  | LResolved f =>
      fu ← futures s !! f;
      if is_set_ fu then None
      else
        let '(cb, fu) := internal_set fu in
        let s := set_futures (<[f := fu]> (futures s)) s in
        Some match cb with Some (Some r) => set_io (<[r := ECas]> (io s)) s | _ => s end
  | LIo r =>
      pc ← io s !! r;
      '(next, s) ← enqueue_step (Io r) r pc s;
      Some (set_io (match next with Some pc => <[r := pc]> (io s) | None => delete r (io s) end) s)
  | LPhp => php_step s
  | LUser u => user_step u s
  end.

(** [php_scylladb_reactor_create]. *)
Definition reactor_create : reactor_state :=
  {| regs := ∅; fresh_reg := 0; objects := ∅; futures := ∅; refs := 1; fd_counter := 0; mutex := None;
     ready_head := None; ready_tail := None; registered := None; pending := 0; freed := false;
     io := ∅; php := PUser; callers := []; log := []; corrupt := false |}.

Fixpoint reactor_run (ls : list reactor_label) (s : reactor_state) : option reactor_state :=
  match ls with
  | [] => Some s
  | l :: ls' => s ← reactor_step l s; reactor_run ls' s
  end.

(** ** A schedule the code does not survive *)

(** The driver marks the future resolved and is about to run the callback; [add] sees the future
    resolved and queues the registration itself; [poll] delivers and frees it; then the callback
    runs on it. *)
Definition overtaken_callback : list reactor_label :=
  [LUser (UNew 0 (Some 0%nat)); LUser (UAdd 0 false); LPhp; LResolved 0; LPhp; LPhp; LPhp; LPhp; LPhp; LPhp;
   LUser (UPoll None); LPhp; LPhp; LPhp; LPhp; LPhp; LPhp; LPhp; LPhp; LIo 0].

Lemma reactor_use_after_free :
  exists s, reactor_run overtaken_callback reactor_create = Some s /\ corrupt s = true.
Proof. eexists. split; [vm_compute; reflexivity|reflexivity]. Qed.

(** A schedule is prompt when [add] never decides to queue a registration whose callback the driver
    has yet to start. *)
Definition overtakes (s : reactor_state) : bool :=
  match php s with
  | PCheck r f true => future_ready f s && match io s !! r with Some ECas => true | _ => false end
  | _ => false
  end.

Fixpoint prompt (ls : list reactor_label) (s : reactor_state) : bool :=
  match ls with
  | [] => true
  | l :: ls' =>
      negb (match l with LPhp => overtakes s | _ => false end) &&
      match reactor_step l s with Some s' => prompt ls' s' | None => true end
  end.
