(* ===== verification/ReactorInv.v ===== *)
(** The invariant of the shared reactor ([Reactor.v]) and what follows from it: memory safety,
    no lost wake-up, and every registered future is delivered once. *)
From S2P Require Import Prelude Notifier Reactor.
From stdpp Require Import gmap.
#[local] Open Scope Z_scope.

(** ** Lists in memory *)

Fixpoint chain (m : gmap nat reg) (head : option nat) (l : list nat) : Prop :=
  match l with
  | [] => head = None
  | r :: l' => head = Some r /\ exists g, m !! r = Some g /\ chain m (next_ready g) l'
  end.

(** A segment of the doubly linked list: the elements before and after it are [prev] and [next]. *)
Fixpoint dseg (m : gmap nat reg) (prev head last next : option nat) (l : list nat) : Prop :=
  match l with
  | [] => head = next /\ last = prev
  | r :: l' => head = Some r /\ exists g, m !! r = Some g /\ prev_reg g = prev /\ dseg m (Some r) (next_reg g) last next l'
  end.

Definition dlist (m : gmap nat reg) (head : option nat) (l : list nat) : Prop := exists last, dseg m None head last None l.

(** Two memories agree on a part of the registrations [l]. *)
Definition agree {A} (p : reg -> A) (l : list nat) (m m' : gmap nat reg) : Prop :=
  forall r, r ∈ l -> p <$> m !! r = p <$> m' !! r.

Lemma agree_lookup {A} (p : reg -> A) l m m' r g :
  agree p l m m' -> r ∈ l -> m !! r = Some g -> exists g', m' !! r = Some g' /\ p g' = p g.
Proof.
  intros Ha Hr Hg. specialize (Ha r Hr). rewrite Hg in Ha. destruct (m' !! r) as [g'|]; [|done].
  exists g'. cbn in Ha. split; [done|congruence].
Qed.

Lemma agree_cons {A} (p : reg -> A) r l m m' : agree p (r :: l) m m' -> agree p l m m'.
Proof. intros H x Hx. apply H. by right. Qed.

Lemma chain_agree m m' l : agree next_ready l m m' -> forall h, chain m h l -> chain m' h l.
Proof.
  induction l as [|r l IH]; intros Ha h H; [done|]. cbn in *. destruct H as (-> & g & Hg & H). split; [done|].
  destruct (agree_lookup _ _ _ _ r g Ha) as (g' & Hg' & E); [by left|done|].
  exists g'. split; [done|]. rewrite E. apply IH; [by apply agree_cons in Ha|done].
Qed.

Definition links (g : reg) : option nat * option nat := (prev_reg g, next_reg g).

Lemma dseg_agree m m' l : agree links l m m' -> forall p h q n, dseg m p h q n l -> dseg m' p h q n l.
Proof.
  induction l as [|r l IH]; intros Ha p h q n H; [done|]. cbn in *. destruct H as (-> & g & Hg & Hp & H). split; [done|].
  destruct (agree_lookup _ _ _ _ r g Ha) as (g' & Hg' & E); [by left|done|].
  unfold links in E. exists g'. split; [done|]. injection E as Ep En. split; [congruence|]. rewrite En.
  apply IH; [by apply agree_cons in Ha|done].
Qed.

Lemma dseg_app m l1 l2 : forall p h q n,
  dseg m p h q n (l1 ++ l2) <-> exists j k, dseg m p h j k l1 /\ dseg m j k q n l2.
Proof.
  induction l1 as [|r l1 IH]; intros p h q n; cbn.
  - split; [intros H; by exists p, h|]. by intros (j & k & [-> ->] & H).
  - split.
    + intros (-> & g & Hg & Hp & H). apply IH in H as (j & k & H1 & H2). exists j, k. split; [|done]. split; [done|]. by exists g.
    + intros (j & k & (-> & g & Hg & Hp & H1) & H2). split; [done|]. exists g. split; [done|]. split; [done|].
      apply IH. by exists j, k.
Qed.

(** The element before a segment's end is redirected. *)
Lemma dseg_set_next m l x p h j k n : NoDup (l ++ [x]) ->
  dseg m p h j k (l ++ [x]) -> j = Some x /\ dseg (alter (set_next_reg n) x m) p h j n (l ++ [x]).
Proof.
  intros Hnd. rewrite !dseg_app. intros (j' & k' & H1 & H2). cbn in H2. destruct H2 as (-> & g & Hg & Hp & Hk & ->).
  split; [done|]. exists j', (Some x). split.
  - apply (dseg_agree m); [|done]. intros y Hy. rewrite lookup_alter_ne; [done|]. intros <-.
    apply list.NoDup_app in Hnd as (_ & Hnd & _). apply (Hnd x Hy). by left.
  - cbn. split; [done|]. rewrite lookup_alter_eq, Hg. eexists. split; [done|]. done.
Qed.

Lemma dseg_set_prev m l x p q n p' : NoDup (x :: l) ->
  dseg m p (Some x) q n (x :: l) -> dseg (alter (set_prev_reg p') x m) p' (Some x) q n (x :: l).
Proof.
  intros Hnd (_ & g & Hg & Hp & H). split; [done|]. rewrite lookup_alter_eq, Hg. eexists. split; [done|]. split; [done|].
  cbn. apply (dseg_agree m); [|done]. intros y Hy. rewrite lookup_alter_ne; [done|]. intros <-.
  by apply NoDup_cons_1_1 in Hnd.
Qed.

Lemma dseg_live m l : forall p h q n r, dseg m p h q n l -> r ∈ l -> is_Some (m !! r).
Proof.
  induction l as [|x l IH]; intros p h q n r H Hr; [by apply elem_of_nil in Hr|]. cbn in H. destruct H as (-> & g & Hg & _ & H).
  apply elem_of_cons in Hr as [->|Hr]; [by exists g|by eapply IH].
Qed.

Lemma chain_live m l : forall h r, chain m h l -> r ∈ l -> is_Some (m !! r).
Proof.
  induction l as [|x l IH]; intros h r H Hr; [by apply elem_of_nil in Hr|]. cbn in H. destruct H as (-> & g & Hg & H).
  apply elem_of_cons in Hr as [->|Hr]; [by exists g|by apply (IH (next_ready g))].
Qed.

Lemma chain_unique m l : forall h l', chain m h l -> chain m h l' -> l = l'.
Proof.
  induction l as [|r l IH]; intros h l' H H'; destruct l' as [|r' l']; cbn in *; try done.
  - destruct H' as [? _]. congruence.
  - destruct H as [? _]. congruence.
  - destruct H as (-> & g & Hg & H), H' as (E & g' & Hg' & H'). simplify_eq. f_equal. by eapply IH.
Qed.

(** Appending an element: the last one is linked to it. *)
Lemma chain_snoc m l : forall h r t,
  chain m h (l ++ [t]) -> r ∉ l ++ [t] -> NoDup (l ++ [t]) -> (exists g, m !! r = Some g /\ next_ready g = None) ->
  forall gt, m !! t = Some gt -> chain (<[t := set_next_ready (Some r) gt]> m) h (l ++ [t] ++ [r]).
Proof.
  induction l as [|x l IH]; intros h r t H Hr Hnd Hg gt Ht.
  - cbn in *. destruct H as (-> & g & Hg' & H). split; [done|]. rewrite lookup_insert_eq. eexists. split; [done|]. cbn.
    split; [done|]. destruct Hg as (gr & Hgr & Hn). exists gr. split; [|done]. rewrite lookup_insert_ne; [done|].
    intros ->. apply Hr. by left.
  - cbn [app] in *. cbn in H |- *. destruct H as (-> & g & Hg' & H). split; [done|].
    apply NoDup_cons_1_1 in Hnd as Hx. apply NoDup_cons_1_2 in Hnd.
    assert (x <> t) by (intros ->; apply Hx; apply elem_of_app; right; by left).
    exists g. rewrite lookup_insert_ne by done. split; [done|]. apply IH; try done.
    intros Hin. apply Hr. by right.
Qed.

Lemma chain_last m l : forall fuel h t s,
  regs s = m -> chain m (Some h) (l ++ [t]) -> (length l < fuel)%nat -> last_ready fuel h s = Some t.
Proof.
  induction l as [|x l IH]; intros fuel h t s Hs H Hf; (destruct fuel as [|fuel]; [lia|]); cbn [app] in *; cbn in H;
    destruct H as (E & g & Hg & H); simplify_eq; cbn [last_ready]; rewrite Hg; cbn.
  - by rewrite H.
  - destruct (next_ready g) as [h'|] eqn:En.
    + apply (IH fuel); [done|done|cbn in Hf; lia].
    + destruct l; cbn in H; by destruct H.
Qed.

(** Joining two lists: the end of the first is linked to the head of the second. *)
Lemma chain_join m l : forall h h2 l2 t gt,
  chain m h (l ++ [t]) -> NoDup (l ++ [t]) -> chain m h2 l2 -> (forall x, x ∈ l ++ [t] -> x ∉ l2) -> m !! t = Some gt ->
  chain (<[t := set_next_ready h2 gt]> m) h ((l ++ [t]) ++ l2).
Proof.
  induction l as [|x l IH]; intros h h2 l2 t gt H Hnd H2 Hd Ht.
  - cbn in *. destruct H as (-> & g & Hg' & H). split; [done|]. rewrite lookup_insert_eq. eexists. split; [done|]. cbn.
    apply (chain_agree m); [|done]. intros y Hy. rewrite lookup_insert_ne; [done|]. intros <-. apply (Hd t); [by left|done].
  - cbn [app] in *. cbn in H |- *. destruct H as (-> & g & Hg' & H). split; [done|].
    apply NoDup_cons_1_1 in Hnd as Hx. apply NoDup_cons_1_2 in Hnd.
    assert (x <> t) by (intros ->; apply Hx; apply elem_of_app; right; by left).
    exists g. rewrite lookup_insert_ne by done. split; [done|]. apply IH; try done.
    intros y Hy. apply Hd. by right.
Qed.

(** ** Updates of the memory *)

(** What the lists do not hold. *)
Definition core (g : reg) : Z * bool * option nat * option nat * nat * bool :=
  (reg_refcount g, enqueued g, future_obj g, reg_future g, reg_slot g, fcc g).

Definition same {A} (p : reg -> A) (m m' : gmap nat reg) : Prop := forall r, p <$> m !! r = p <$> m' !! r.

#[export] Instance same_preorder {A} (p : reg -> A) : PreOrder (same p).
Proof. split; [done|]. intros m1 m2 m3 H1 H2 r. by rewrite (H1 r), (H2 r). Qed.

Lemma same_agree {A} (p : reg -> A) l m m' : same p m m' -> agree p l m m'.
Proof. intros H r _. apply H. Qed.

Lemma same_alter {A} (p : reg -> A) f r m : (forall g, p (f g) = p g) -> same p m (alter f r m).
Proof.
  intros Hf x. destruct (decide (x = r)) as [->|].
  - rewrite lookup_alter_eq. destruct (m !! r); cbn; by rewrite ?Hf.
  - by rewrite lookup_alter_ne.
Qed.

Lemma same_lookup {A} (p : reg -> A) m m' r g : same p m m' -> m !! r = Some g -> exists g', m' !! r = Some g' /\ p g' = p g.
Proof. intros H. apply (agree_lookup p [r]); [by apply same_agree|by left]. Qed.

Lemma same_is_Some {A} (p : reg -> A) m m' r : same p m m' -> is_Some (m !! r) <-> is_Some (m' !! r).
Proof. intros H. specialize (H r). destruct (m !! r), (m' !! r); cbn in H; try done; split; intros [? ?]; done. Qed.

Lemma insert_alter f r g (m : gmap nat reg) : m !! r = Some g -> <[r := f g]> m = alter f r m.
Proof.
  intros H. apply map_eq. intros x. destruct (decide (x = r)) as [->|].
  - by rewrite lookup_insert_eq, lookup_alter_eq, H.
  - by rewrite lookup_insert_ne, lookup_alter_ne.
Qed.

Lemma change_reg_eq r f s : is_Some (regs s !! r) -> change_reg r f s = set_regs (alter f r (regs s)) s.
Proof. intros [g Hg]. unfold change_reg, with_reg, put_reg. rewrite Hg. by rewrite (insert_alter f r g). Qed.

Lemma alter_live f x (m : gmap nat reg) y : is_Some (m !! y) -> is_Some (alter f x m !! y).
Proof. intros H. by apply (same_is_Some (fun _ => tt) m _ y (same_alter (fun _ => tt) f x m (fun _ => eq_refl))). Qed.

Lemma snoc_cases {A} (l : list A) : l = [] \/ exists l' x, l = l' ++ [x].
Proof. induction l as [|x l _] using rev_ind; [by left|right]. by exists l, x. Qed.

Lemma reg_unregister_ok r s l1 l2 : dlist (regs s) (registered s) (l1 ++ r :: l2) -> NoDup (l1 ++ r :: l2) ->
  exists m h, reg_unregister r s = set_pending (pending s - 1) (set_registered h (set_regs m s)) /\
    same core (regs s) m /\ same next_ready (regs s) m /\ dlist m h (l1 ++ l2).
Proof.
  intros [q H] Hnd. apply dseg_app in H as (j & k & H1 & H2). cbn in H2. destruct H2 as (-> & g & Hg & Hp & H2).
  assert (r ∉ l1 /\ r ∉ l2 /\ NoDup l1 /\ NoDup l2 /\ forall x, x ∈ l1 -> x ∉ l2) as (Hr1 & Hr2 & Hn1 & Hn2 & Hd).
  { apply list.NoDup_app in Hnd as (Hn1 & Hd & Hn2). apply NoDup_cons_1_1 in Hn2 as ?. apply NoDup_cons_1_2 in Hn2.
    split_and!; try done; intros; [intros Hin; apply (Hd r Hin); by left|]. intros Hin. apply (Hd x); [done|by right]. }
  (* the previous element *)
  set (m1 := match j with Some p => alter (set_next_reg (next_reg g)) p (regs s) | None => regs s end).
  set (h1 := match j with Some p => registered s | None => next_reg g end).
  assert (dseg m1 None h1 j (next_reg g) l1 /\ dseg m1 (Some r) (next_reg g) q None l2 /\ m1 !! r = Some g) as (H1' & H2' & Hg1).
  { destruct (snoc_cases l1) as [->|(l1' & x & ->)].
    - cbn in H1. destruct H1 as [_ ->]. by subst m1 h1.
    - destruct (dseg_set_next _ _ _ _ _ _ _ (next_reg g) Hn1 H1) as [-> Hset]. subst m1 h1. split; [done|].
      assert (x <> r) by (intros ->; apply Hr1; apply elem_of_app; right; by left).
      rewrite lookup_alter_ne by done. split; [|done]. apply (dseg_agree (regs s)); [|done].
      intros y Hy. rewrite lookup_alter_ne; [done|]. intros <-. apply (Hd x); [|done]. apply elem_of_app; right; by left. }
  (* the next element *)
  set (m2 := match next_reg g with Some p => alter (set_prev_reg j) p m1 | None => m1 end).
  assert (dseg m2 None h1 j (next_reg g) l1 /\ dseg m2 j (next_reg g) q None l2 \/
          l2 = [] /\ dseg m2 None h1 j None l1) as Hseg.
  { destruct l2 as [|x l2'].
    - right. split; [done|]. cbn in H2'. destruct H2' as [E _]. subst m2. by rewrite E in *.
    - left. assert (next_reg g = Some x) as E by (by destruct H2'). subst m2. rewrite E in *. split.
      + apply (dseg_agree m1); [|done]. intros y Hy. rewrite lookup_alter_ne; [done|]. intros <-. apply (Hd x Hy). by left.
      + by apply (dseg_set_prev _ _ _ (Some r)). }
  set (m3 := alter (fun g => set_next_reg None (set_prev_reg None g)) r m2).
  assert (forall x, x <> r -> m3 !! x = m2 !! x) as Hm3 by (intros x ?; by apply lookup_alter_ne).
  exists m3, h1. split; [|split; [|split]].
  - unfold reg_unregister, with_reg. rewrite Hg, Hp. unfold m3, m2, m1, h1. clear -Hg H1 H2 Hn1.
    assert (is_Some (regs s !! r)) as Hr by (by exists g).
    assert (forall p, j = Some p -> is_Some (regs s !! p)) as Hj.
    { intros p ->. destruct (snoc_cases l1) as [->|(l1' & x & ->)]; [cbn in H1; by destruct H1|].
      destruct (dseg_set_next _ _ _ _ _ _ _ None Hn1 H1) as [[= ->] _].
      apply (dseg_live _ _ _ _ _ _ x H1). apply elem_of_app; right; by left. }
    assert (forall p, next_reg g = Some p -> is_Some (regs s !! p)) as Hk.
    { intros p E. rewrite E in H2. destruct l2; cbn in H2; destruct H2 as [E' H2]; [done|]. destruct H2 as (g' & Hg' & _). simplify_eq. by exists g'. }
    destruct j as [p|]; [rewrite (change_reg_eq p) by eauto|]; (destruct (next_reg g) as [n|] eqn:En; cbn [change_opt];
      [rewrite (change_reg_eq n) by (cbn; repeat apply alter_live; eauto)|];
      rewrite (change_reg_eq r) by (cbn; repeat apply alter_live; eauto); by destruct s).
  - subst m3 m2 m1. destruct j, (next_reg g);
      repeat (etransitivity; [|apply same_alter; done]); reflexivity.
  - subst m3 m2 m1. destruct j, (next_reg g);
      repeat (etransitivity; [|apply same_alter; done]); reflexivity.
  - destruct Hseg as [[Ha Hb]|[-> Ha]].
    + exists q. apply dseg_app. exists j, (next_reg g). split; (apply (dseg_agree m2); [|done]); intros x Hx; rewrite Hm3; try done; intros ->; done.
    + exists j. rewrite app_nil_r. apply (dseg_agree m2); [|done]. intros x Hx; rewrite Hm3; try done; intros ->; done.
Qed.

(** The two memories agree on all other registrations. *)
Definition same_but {A} (r : nat) (p : reg -> A) (m m' : gmap nat reg) : Prop :=
  forall x, x <> r -> p <$> m !! x = p <$> m' !! x.

Lemma same_but_agree {A} r (p : reg -> A) l m m' : same_but r p m m' -> r ∉ l -> agree p l m m'.
Proof. intros H Hr x Hx. apply H. by intros ->. Qed.

Definition pin_registered (r : nat) (b : future_object) : future_object :=
  set_reactor_reg (Some r) (set_pins (pins b + 1) b).

Lemma alter_twice {A} (f g : A -> A) i (m : gmap nat A) : alter f i (alter g i m) = alter (fun x => f (g x)) i m.
Proof.
  apply map_eq. intros x. destruct (decide (x = i)) as [->|].
  - rewrite !lookup_alter_eq. by destruct (m !! i).
  - by rewrite !lookup_alter_ne.
Qed.

Lemma reg_create_ok o f cb s dl :
  dlist (regs s) (registered s) dl -> NoDup dl -> regs s !! fresh_reg s = None ->
  let r := fresh_reg s in
  exists m, reg_create o f cb s =
    (r, set_pending (pending s + 1) (set_registered (Some r) (set_regs m (set_objects (alter (pin_registered r) o (objects s))
          (set_fresh_reg (S r) (set_refs (refs s + 1) s)))))) /\
    m !! r = Some (new_reg o f cb (registered s)) /\
    same_but r core (regs s) m /\ same_but r next_ready (regs s) m /\ dlist m (Some r) (r :: dl).
Proof.
  intros [q Hd] Hnd Hfresh r.
  assert (r ∉ dl) as Hr by (intros Hin; pose proof (dseg_live _ _ _ _ _ _ r Hd Hin) as [g E]; unfold r in E; congruence).
  set (m0 := <[r := new_reg o f cb (registered s)]> (regs s)).
  set (m := match registered s with Some h => alter (set_prev_reg (Some r)) h m0 | None => m0 end).
  assert (forall h, registered s = Some h -> h ∈ dl) as Hh.
  { intros h E. rewrite E in Hd. destruct dl; cbn in Hd; destruct Hd as [E' Hd]; [done|]. simplify_eq. by left. }
  assert (forall x, x <> r -> m0 !! x = regs s !! x) as Hm0 by (intros x Hx; subst m0; by rewrite lookup_insert_ne by congruence).
  exists m. split; [|split; [|split; [|split]]].
  - unfold reg_create. fold r. cbn [registered set_objects change_object add_pin set_fresh_reg set_refs put_reg set_regs].
    subst m. destruct (registered s) as [h|] eqn:E; cbn [change_opt].
    + rewrite change_reg_eq.
      2: { cbn. rewrite lookup_insert_ne by (intros <-; by apply Hr, Hh). by apply (dseg_live _ _ _ _ _ _ h Hd), Hh. }
      f_equal. destruct s. cbn in *. unfold change_object, add_pin. cbn. rewrite alter_twice. by subst.
    + f_equal. destruct s. cbn in *. unfold change_object, add_pin. cbn. rewrite alter_twice. by subst.
  - subst m. destruct (registered s) as [h|] eqn:E; [rewrite lookup_alter_ne by (intros ->; by apply Hr, Hh)|]; apply lookup_insert_eq.
  - intros x Hx. subst m. destruct (registered s) as [h|]; [rewrite <- (same_alter core (set_prev_reg (Some r)) h m0 (fun _ => eq_refl) x)|]; by rewrite Hm0.
  - intros x Hx. subst m. destruct (registered s) as [h|]; [rewrite <- (same_alter next_ready (set_prev_reg (Some r)) h m0 (fun _ => eq_refl) x)|]; by rewrite Hm0.
  - assert (dseg m0 None (registered s) q None dl) as Hd0.
    { apply (dseg_agree (regs s)); [|done]. intros x Hx. rewrite Hm0; [done|]. by intros ->. }
    destruct dl as [|h dl].
    + cbn in Hd. destruct Hd as [E _]. exists (Some r). cbn. split; [done|]. subst m. rewrite E. eexists. split; [apply lookup_insert_eq|done].
    + assert (registered s = Some h) as E by (by destruct Hd). exists q. split; [done|].
      subst m. rewrite E in *. assert (h <> r) by (intros ->; apply Hr; by left).
      exists (new_reg o f cb (Some h)). rewrite lookup_alter_ne by done. split; [subst m0; by rewrite E, lookup_insert_eq|].
      split; [done|]. cbn [next_reg new_reg]. by apply (dseg_set_prev _ _ _ None).
Qed.

(** ** The invariant *)

Definition enq (s : reactor_state) (r : nat) : option bool := enqueued <$> regs s !! r.
Definition future_of (s : reactor_state) (r : nat) : option (option nat) := reg_future <$> regs s !! r.

Lemma core_enq s s' x : core <$> regs s !! x = core <$> regs s' !! x -> enq s' x = enq s x.
Proof. unfold enq. destruct (regs s !! x) as [g|], (regs s' !! x) as [g'|]; cbn; unfold core; congruence. Qed.

Lemma core_future s s' x : core <$> regs s !! x = core <$> regs s' !! x -> future_of s' x = future_of s x.
Proof. unfold future_of. destruct (regs s !! x) as [g|], (regs s' !! x) as [g'|]; cbn; unfold core; congruence. Qed.

(** Where a thread is inside [reg_enqueue]. *)
Definition php_enqueue_pc (p : php_pc) : option (nat * enqueue_pc) :=
  match p with PInCallback r _ pc => Some (r, pc) | PEnqueue r pc => Some (r, pc) | _ => None end.

Definition pc_of (s : reactor_state) (t : thread) : option (nat * enqueue_pc) :=
  match t with Php => php_enqueue_pc (php s) | Io r => (fun pc => (r, pc)) <$> io s !! r end.

Definition before_push (pc : enqueue_pc) : bool := match pc with ELock | EPush => true | _ => false end.
Definition holds_lock (pc : enqueue_pc) : bool := match pc with EPush | ESignal | EUnlock => true | _ => false end.

(** Thread [t] has claimed the push of [r] and not made it. *)
Definition in_flight (s : reactor_state) (t : thread) (r : nat) : Prop :=
  exists pc, pc_of s t = Some (r, pc) /\ before_push pc = true.

Definition php_locked (p : php_pc) : bool :=
  match p with
  | PTake _ | PSpliceUnlock _ _ | PRequeueLink _ _ _ | PRequeueSignal _ _ | PRequeueUnlock _ _ => true
  | PInCallback _ _ pc | PEnqueue _ pc => holds_lock pc
  | _ => false
  end.

Definition locked (s : reactor_state) (t : thread) : Prop :=
  match t with
  | Php => php_locked (php s) = true
  | Io r => exists pc, io s !! r = Some pc /\ holds_lock pc = true
  end.

(** A wake-up is on its way: a thread is about to write to the descriptor, or the PHP thread is about
    to look at the queue. *)
Definition php_wakes (p : php_pc) : bool :=
  match p with
  | PInCallback _ _ ESignal | PEnqueue _ ESignal | PRequeueSignal _ _ | PDrain _ | PSplice _ | PTake _ => true
  | _ => false
  end.

Definition waking (s : reactor_state) : Prop :=
  0 < fd_counter s \/ (exists r, io s !! r = Some ESignal) \/ php_wakes (php s) = true.

Definition local_head (p : php_pc) : option nat :=
  match p with
  | PSpliceUnlock _ h | PConsume _ h _ _ => h
  | PRequeue h _ _ | PRequeueLink h _ _ => Some h
  | _ => None
  end.

(** The driver will run the callback for [r] when a future is resolved. *)
Definition waiting (s : reactor_state) (r : nat) : Prop :=
  exists f fu, futures s !! f = Some fu /\ callback_ fu = Some (Some r) /\ is_set_ fu = false.

Definition unknown_to_driver (s : reactor_state) (r : nat) : Prop :=
  forall f fu, futures s !! f = Some fu -> callback_ fu <> Some (Some r).

(** The registration [add] still has to make known to the driver or to queue. *)
Definition php_adding (p : php_pc) : option nat :=
  match p with
  | PSetCallback r _ | PInCallback r _ ECas | PCheck r _ false | PEnqueue r ECas => Some r
  | _ => None
  end.

(** What the PHP thread knows at its program points. *)
Definition php_knows (s : reactor_state) (rl dl : list nat) : Prop :=
  match php s with
  | PSetCallback r f =>
      r ∈ dl /\ enq s r = Some false /\ future_of s r = Some (Some f) /\ io s !! r = None /\ unknown_to_driver s r
  | PInCallback r f pc =>
      r ∈ dl /\ future_of s r = Some (Some f) /\
      (pc = ECas -> enq s r = Some false /\ io s !! r = None) /\ (holds_lock pc = true -> pc <> EPush -> r ∈ rl) /\
      exists fu, futures s !! f = Some fu /\ callback_ fu = Some (Some r) /\ is_set_ fu = true
  | PCheck r f true =>
      r ∈ dl /\ future_of s r = Some (Some f) /\ exists fu, futures s !! f = Some fu /\ callback_ fu = Some (Some r)
  | PCheck r f false =>
      r ∈ dl /\ future_of s r = Some (Some f) /\ enq s r = Some false /\ io s !! r = None /\ unknown_to_driver s r
  | PEnqueue r pc =>
      r ∈ dl /\ (pc = ECas -> io s !! r <> Some ECas /\ ~ waiting s r) /\ (holds_lock pc = true -> pc <> EPush -> r ∈ rl)
  | PWait (Some r) _ => r ∈ dl /\ callers s = []
  | PWait None _ => callers s = []
  | PDrain (Discard _) | PSplice (Discard _) | PTake (Discard _) | PSpliceUnlock (Discard _) _ | PConsume (Discard _) _ _ _ =>
      callers s = []
  | PResetDrain _ => dl = [] /\ callers s = []
  | _ => True
  end.

Definition live (s : reactor_state) (dl : list nat) : list nat := dl ++ map caller_reg (callers s).

(** The lists in memory. *)
Record shape (s : reactor_state) (rl ll : list nat) (kl : list (list nat)) (dl : list nat) : Prop := {
  s_corrupt : corrupt s = false;
  s_ready : chain (regs s) (ready_head s) rl;
  s_tail : ready_tail s = last rl;
  s_local : chain (regs s) (local_head (php s)) ll;
  s_callers : Forall2 (fun k l => chain (regs s) (caller_head k) l) (callers s) kl;
  s_dlist : dlist (regs s) (registered s) dl;
  s_pending : pending s = zlen dl;
  s_nodup : NoDup (live s dl);
  s_dom : forall r, is_Some (regs s !! r) <-> r ∈ live s dl;
  s_regs : forall r g, regs s !! r = Some g -> reg_refcount g = 2 /\ (r < fresh_reg s)%nat /\ future_obj g = Some (reg_slot g);
  s_refs : refs s = if freed s then 0 else 1 + zlen (live s dl);
  s_freed : freed s = true -> dl = [] /\ callers s = [] /\ php s = PUser;
  s_counter : 0 <= fd_counter s
}.

(** Who is where: the queue, the threads and the driver. *)
Record flow (s : reactor_state) (rl ll : list nat) (kl : list (list nat)) (dl : list nat) : Prop := {
  f_nodup : NoDup (rl ++ ll ++ concat kl);
  f_queue : forall r, r ∈ rl ++ ll ++ concat kl -> r ∈ dl /\ enq s r = Some true /\ forall t, ~ in_flight s t r;
  f_enqueued : forall r, r ∈ dl -> enq s r = Some true -> r ∈ rl ++ ll ++ concat kl \/ exists t, in_flight s t r;
  f_flight : forall t r, in_flight s t r -> r ∈ dl /\ enq s r = Some true;
  f_flight_one : forall t t' r, in_flight s t r -> in_flight s t' r -> t = t';
  f_io_cas : forall r, io s !! r = Some ECas -> r ∈ dl /\ enq s r = Some false;
  f_io_pushed : forall r pc, io s !! r = Some pc -> holds_lock pc = true -> pc <> EPush -> r ∈ rl;
  f_idle : forall r, r ∈ dl -> enq s r = Some false -> php_adding (php s) = Some r \/ io s !! r = Some ECas \/ waiting s r;
  f_known : forall f fu r, futures s !! f = Some fu -> callback_ fu = Some (Some r) ->
    (r < fresh_reg s)%nat /\ (forall o, future_of s r = Some o -> o = Some f) /\
    (is_set_ fu = false -> r ∈ dl /\ enq s r = Some false /\ io s !! r = None /\ php_adding (php s) <> Some r);
  f_php : php_knows s rl dl;
  f_mutex : forall t, mutex s = Some t <-> locked s t;
  f_wakes : rl <> [] -> waking s
}.

Definition reactor_inv (s : reactor_state) : Prop := exists rl ll kl dl, shape s rl ll kl dl /\ flow s rl ll kl dl.

Lemma reactor_create_inv : reactor_inv reactor_create.
Proof.
  exists [], [], [], [].
  assert (forall t r, ~ in_flight reactor_create t r) as Hfl by (intros [|x] r (pc & H & _); done).
  split; constructor; try done; try (by constructor).
  all: try (intros r H; by apply elem_of_nil in H).
  all: try (intros t r H; by apply Hfl in H).
  all: try (intros t t' r H; by apply Hfl in H).
  - by exists None.
  - intros r. cbn. rewrite lookup_empty. split; [intros [? ?]; done|intros H; by apply elem_of_nil in H].
  - intros [|r]; split; cbn; try done. intros (pc & H & _). by rewrite lookup_empty in H.
Qed.

(** Steps that leave the lists alone. *)
Lemma shape_frame s s' rl ll kl dl : shape s rl ll kl dl ->
  regs s' = regs s -> ready_head s' = ready_head s -> ready_tail s' = ready_tail s -> callers s' = callers s ->
  registered s' = registered s -> pending s' = pending s -> fresh_reg s' = fresh_reg s -> refs s' = refs s ->
  freed s' = freed s -> corrupt s' = corrupt s -> local_head (php s') = local_head (php s) ->
  (freed s = true -> php s' = PUser) -> 0 <= fd_counter s' -> shape s' rl ll kl dl.
Proof.
  intros [] Er Eh Et Ec Eg Ep Ef Es Ed Eo El Hf Hc. unfold live in *.
  constructor; unfold live; rewrite ?Er, ?Eh, ?Et, ?Ec, ?Eg, ?Ep, ?Ef, ?Es, ?Ed, ?Eo, ?El; auto.
  intros H. destruct (s_freed0 H) as (? & ? & _). auto.
Qed.

(** Steps of the PHP thread outside [reg_enqueue], which may take registrations out of the queue. *)
Lemma flow_gen s s' rl ll kl dl rl' ll' kl' dl' : flow s rl ll kl dl ->
  io s' = io s -> futures s' = futures s -> fresh_reg s' = fresh_reg s ->
  (forall x, x ∈ dl' -> x ∈ dl /\ enq s' x = enq s x) ->
  (forall x o, future_of s' x = Some o -> future_of s x = Some o) ->
  NoDup (rl' ++ ll' ++ concat kl') ->
  (forall x, x ∈ rl' ++ ll' ++ concat kl' <-> x ∈ rl ++ ll ++ concat kl /\ x ∈ dl') ->
  (forall x, x ∈ dl -> x ∉ dl' -> (forall t, ~ in_flight s t x) /\ io s !! x <> Some ECas /\ ~ waiting s x) ->
  php_enqueue_pc (php s) = None -> php_enqueue_pc (php s') = None ->
  php_adding (php s') = None -> (forall x, php_adding (php s) = Some x -> x ∉ dl') ->
  php_knows s' rl' dl' -> (forall t, mutex s' = Some t <-> locked s' t) -> (rl' <> [] -> waking s') ->
  (forall r pc, io s !! r = Some pc -> holds_lock pc = true -> pc <> EPush -> r ∈ rl') ->
  flow s' rl' ll' kl' dl'.
Proof.
  intros [] Ei Ef En Hdl Hfut Hnd HQ Hgone Hp Hp' Ha' Ha Hk Hm Hw Hio.
  assert (forall t r, in_flight s' t r <-> in_flight s t r) as Hfl.
  { intros [|r0] r; unfold in_flight, pc_of; [by rewrite Hp, Hp'|by rewrite Ei]. }
  assert (forall r, waiting s' r <-> waiting s r) as Hwt by (intros r; unfold waiting; by rewrite Ef).
  assert (forall t r, in_flight s t r -> r ∈ dl') as Hfd.
  { intros t r H. destruct (decide (r ∈ dl')) as [|Hn]; [done|]. exfalso.
    destruct (f_flight0 t r H). by destruct (Hgone r) as (Hg & _); [..|by apply (Hg t)]. }
  constructor; try done.
  - intros r [Hr Hd]%HQ. destruct (f_queue0 r Hr) as (_ & He & Hf). split; [done|]. split; [by rewrite (proj2 (Hdl r Hd))|].
    intros t. by rewrite Hfl.
  - intros r Hd He. destruct (Hdl r Hd) as [Hd0 E]. rewrite E in He. destruct (f_enqueued0 r Hd0 He) as [Hq|[t Ht]].
    + left. by apply HQ.
    + right. exists t. by apply Hfl.
  - intros t r H. apply Hfl in H. split; [by apply (Hfd t)|]. rewrite (proj2 (Hdl r (Hfd t r H))). by apply (f_flight0 t).
  - intros t t' r H H'. apply Hfl in H, H'. by apply (f_flight_one0 t t' r).
  - intros r. rewrite Ei. intros H. destruct (f_io_cas0 r H) as [Hd He].
    destruct (decide (r ∈ dl')) as [Hd'|Hn]; [split; [done|]; by rewrite (proj2 (Hdl r Hd'))|].
    exfalso. by destruct (Hgone r Hd Hn) as (_ & ? & _).
  - intros r pc. rewrite Ei. apply Hio.
  - intros r Hd He. destruct (Hdl r Hd) as [Hd0 E]. rewrite E in He. rewrite Ei, Hwt.
    destruct (f_idle0 r Hd0 He) as [H|[H|H]]; [|by auto|by auto]. exfalso. by apply (Ha r).
  - intros f fu r. rewrite Ef, En, Ei. intros Hf Hc. destruct (f_known0 f fu r Hf Hc) as (H1 & H2 & H3). split; [done|]. split; [eauto|].
    intros Hs. destruct (H3 Hs) as (Hd & He & Hi & _). assert (r ∈ dl') as Hd'.
    { destruct (decide (r ∈ dl')) as [|Hn]; [done|]. exfalso. destruct (Hgone r Hd Hn) as (_ & _ & Hw'). apply Hw'. by exists f, fu. }
    rewrite (proj2 (Hdl r Hd')), Ha'. done.
Qed.

(** What the PHP thread knows is not changed by the steps of the driver and its callbacks. *)
Lemma php_knows_env s s' rl rl' dl : php_knows s rl dl -> php s' = php s -> callers s' = callers s ->
  (forall r, future_of s' r = future_of s r) -> (forall r, r ∈ rl -> r ∈ rl') ->
  (forall r, php_adding (php s) = Some r ->
    enq s' r = enq s r /\ ((io s !! r = None -> io s' !! r = None) /\ (io s' !! r = Some ECas -> io s !! r = Some ECas)) /\
    (unknown_to_driver s r -> unknown_to_driver s' r) /\ (waiting s' r -> waiting s r)) ->
  (forall f fu r, futures s !! f = Some fu -> callback_ fu = Some (Some r) ->
    exists fu', futures s' !! f = Some fu' /\ callback_ fu' = Some (Some r) /\ (is_set_ fu = true -> is_set_ fu' = true)) ->
  php_knows s' rl' dl.
Proof.
  intros Hk Ep Ec Hfut Hrl Hadd Hcb. unfold php_knows in *. rewrite Ep. destruct (php s) as [|r f|r f pc|r f ok|r pc|[r|] d|[]|[]|[]|[] ?|[]|??[]|??[]| | | |]; cbn in Hadd; try done.
  - destruct Hk as (? & ? & ? & ? & ?). destruct (Hadd r eq_refl) as (E1 & [Hn _] & Hun & _). rewrite Hfut, E1. auto 10.
  - destruct Hk as (? & ? & Hcas & Hin & fu & Hfu & Hc & Hset). rewrite Hfut. split_and!; try done; [|by auto|].
    + intros ->. destruct (Hadd r eq_refl) as (E1 & [Hn _] & _). rewrite E1. destruct (Hcas eq_refl). auto.
    + destruct (Hcb f fu r Hfu Hc) as (fu' & ? & ? & ?). exists fu'. auto.
  - destruct ok.
    + destruct Hk as (? & ? & fu & Hfu & Hc). rewrite Hfut. split_and!; try done.
      destruct (Hcb f fu r Hfu Hc) as (fu' & ? & ? & ?). by exists fu'.
    + destruct Hk as (? & ? & ? & ? & ?). destruct (Hadd r eq_refl) as (E1 & [Hn _] & Hun & _). rewrite Hfut, E1. auto 10.
  - destruct Hk as (? & Hcas & Hin). split_and!; [done| |by auto]. intros ->.
    destruct (Hadd r eq_refl) as (_ & [_ Hn] & _ & Hw). destruct (Hcas eq_refl). auto.
  - by rewrite Ec.
  - by rewrite Ec.
  - by rewrite Ec.
  - by rewrite Ec.
  - by rewrite Ec.
  - by rewrite Ec.
  - by rewrite Ec.
  - by rewrite Ec.
Qed.

Lemma adding_not_waiting s rl ll kl dl r : flow s rl ll kl dl -> php_adding (php s) = Some r -> ~ waiting s r.
Proof. intros Hf Ha (f & fu & H & Hc & Hu). by destruct (f_known _ _ _ _ _ Hf f fu r H Hc) as (_ & _ & Hn); destruct (Hn Hu) as (_ & _ & _ & ?). Qed.

(** Marking a future as resolved. *)
Definition resolved (f : nat) (cb : option (option nat)) (m m' : gmap nat (Future (option nat))) : Prop :=
  m !! f = Some {| is_set_ := false; callback_ := cb |} /\ m' = <[f := {| is_set_ := true; callback_ := cb |}]> m.

Lemma resolved_back f cb m m' f2 fu2 r : resolved f cb m m' -> m' !! f2 = Some fu2 -> callback_ fu2 = Some (Some r) ->
  exists fu, m !! f2 = Some fu /\ callback_ fu = Some (Some r) /\ (is_set_ fu2 = false -> f2 <> f /\ is_set_ fu = false).
Proof.
  intros [Hf ->] H Hc. destruct (decide (f2 = f)) as [->|Hne].
  - rewrite lookup_insert_eq in H. simplify_eq. by eexists.
  - rewrite lookup_insert_ne in H by done. by exists fu2.
Qed.

Lemma resolved_forth f cb m m' f2 fu2 r : resolved f cb m m' -> m !! f2 = Some fu2 -> callback_ fu2 = Some (Some r) ->
  exists fu, m' !! f2 = Some fu /\ callback_ fu = Some (Some r) /\ (is_set_ fu2 = true -> is_set_ fu = true) /\
    (f2 <> f -> is_set_ fu = is_set_ fu2).
Proof.
  intros [Hf ->] H Hc. destruct (decide (f2 = f)) as [->|Hne].
  - rewrite lookup_insert_eq. simplify_eq. by eexists.
  - rewrite lookup_insert_ne by done. by exists fu2.
Qed.

Lemma resolve_flow f cb s s' rl ll kl dl : flow s rl ll kl dl -> resolved f cb (futures s) (futures s') ->
  io s' = match cb with Some (Some r) => <[r := ECas]> (io s) | _ => io s end ->
  regs s' = regs s -> fresh_reg s' = fresh_reg s -> php s' = php s -> callers s' = callers s -> mutex s' = mutex s ->
  fd_counter s' = fd_counter s -> flow s' rl ll kl dl.
Proof.
  intros Hf Hres Eio Er En Ep Ec Em Efd. pose proof Hf as [].
  assert (forall r, enq s' r = enq s r) as He by (intros; unfold enq; by rewrite Er).
  assert (forall r, future_of s' r = future_of s r) as Hfo by (intros; unfold future_of; by rewrite Er).
  assert (forall r, cb = Some (Some r) -> waiting s r) as Hcb.
  { intros r ->. exists f. eexists. by split; [apply Hres|]. }
  assert (forall r, cb = Some (Some r) -> r ∈ dl /\ enq s r = Some false /\ io s !! r = None /\ php_adding (php s) <> Some r) as Hnew.
  { intros r E. destruct Hres as [Hfut _]. apply (f_known0 f _ r Hfut); by subst. }
  assert (forall r, io s' !! r = io s !! r \/ cb = Some (Some r) /\ io s' !! r = Some ECas) as Hio.
  { intros r. rewrite Eio. destruct cb as [[x|]|]; try (by left). destruct (decide (x = r)) as [->|].
    - right. by rewrite lookup_insert_eq. - left. by rewrite lookup_insert_ne. }
  assert (forall r pc, pc <> ECas -> io s' !! r = Some pc <-> io s !! r = Some pc) as Hpc.
  { intros r pc Hpc. destruct (Hio r) as [->|[Hr ->]]; [done|]. destruct (Hnew r Hr) as (_ & _ & -> & _). split; [congruence|done]. }
  assert (forall t r, in_flight s' t r <-> in_flight s t r) as Hfl.
  { intros [|x] r; unfold in_flight, pc_of; [by rewrite Ep|]. split; intros (pc & H & Hb); exists pc; (split; [|done]);
      apply fmap_Some in H as (pc' & H & E); injection E as -> ->; (assert (pc' <> ECas) by (by intros ->)); apply fmap_Some; exists pc'; (split; [|done]); by apply Hpc. }
  assert (forall r, waiting s' r -> waiting s r) as Hwb.
  { intros r (f2 & fu2 & H & Hc & Hu). destruct (resolved_back _ _ _ _ _ _ _ Hres H Hc) as (fu & ? & ? & Hx). exists f2, fu. destruct (Hx Hu). done. }
  constructor; try done.
  - intros r Hr. rewrite He. destruct (f_queue0 r Hr) as (? & ? & Hn). split_and!; try done. intros t. by rewrite Hfl.
  - intros r Hd. rewrite He. intros Hq. destruct (f_enqueued0 r Hd Hq) as [?|[t ?]]; [by left|right]. exists t. by apply Hfl.
  - intros t r H%Hfl. rewrite He. by apply (f_flight0 t).
  - intros t t' r H%Hfl H'%Hfl. by apply (f_flight_one0 t t' r).
  - intros r H. rewrite He. destruct (Hio r) as [E|[E _]]; [rewrite E in H; by apply f_io_cas0|]. by destruct (Hnew r E) as (? & ? & _).
  - intros r pc H Hl Hne. apply (f_io_pushed0 r pc); [|done..]. apply Hpc; [by intros ->|done].
  - intros r Hd. rewrite He, Ep. intros Hfalse. destruct (f_idle0 r Hd Hfalse) as [?|[H|(f2 & fu2 & H & Hc & Hu)]]; [by left| |].
    + right; left. destruct (Hio r) as [->|[_ ->]]; done.
    + right. destruct (resolved_forth _ _ _ _ _ _ _ Hres H Hc) as (fu & H1 & H2 & _ & H3).
      destruct (decide (f2 = f)) as [->|Hne].
      * left. destruct Hres as [Hfut _]. rewrite Hfut in H. simplify_eq. cbn in *. subst cb. rewrite Eio. apply lookup_insert_eq.
      * right. exists f2, fu. split_and!; try done. rewrite H3; done.
  - intros f2 fu2 r H Hc. rewrite En, Ep, He. destruct (resolved_back _ _ _ _ _ _ _ Hres H Hc) as (fu & H1 & H2 & H3).
    destruct (f_known0 f2 fu r H1 H2) as (Hlt & Hfut & Hunset). split; [done|]. split; [intros o; rewrite Hfo; apply Hfut|].
    intros Hu. destruct (H3 Hu) as [Hne Hu']. destruct (Hunset Hu') as (Hd & Hq & Hi & Ha). split_and!; try done.
    destruct (Hio r) as [->|[E _]]; [done|]. exfalso. apply Hne. destruct Hres as [Hf0 _].
    destruct (f_known0 f _ r Hf0 E) as (_ & Hfut' & _). unfold enq, future_of in *. destruct (regs s !! r) as [g|]; [|done].
    specialize (Hfut _ eq_refl). specialize (Hfut' _ eq_refl). congruence.
  - apply (php_knows_env s s' rl rl dl); try done.
    + intros r Ha. rewrite He. split; [done|]. split; [|split].
      * destruct (Hio r) as [->|[E _]]; [done|]. by destruct (Hnew r E) as (_ & _ & _ & ?).
      * intros Hu f2 fu2 H Hc. destruct (resolved_back _ _ _ _ _ _ _ Hres H Hc) as (fu & H1 & H2 & _). by apply (Hu f2 fu).
      * apply Hwb.
    + intros f2 fu2 r H Hc. destruct (resolved_forth _ _ _ _ _ _ _ Hres H Hc) as (fu & H1 & H2 & H3 & _). by exists fu.
  - intros t. rewrite Em, f_mutex0. destruct t as [|r]; cbn; [by rewrite Ep|].
    split; intros (pc & H & Hl); exists pc; (split; [|done]); (apply Hpc; [by intros ->|done]).
  - intros Hne. destruct (f_wakes0 Hne) as [?|[[r ?]|?]]; unfold waking; rewrite ?Efd, ?Ep; auto.
    right; left. exists r. by apply Hpc.
Qed.

Lemma resolve_inv f s s' : reactor_inv s -> reactor_step (LResolved f) s = Some s' -> reactor_inv s'.
Proof.
  intros (rl & ll & kl & dl & Hs & Hf) H. cbn in H.
  destruct (futures s !! f) as [[set cb]|] eqn:Ef; [|done]. cbn in H. destruct set; [done|]. injection H as <-.
  exists rl, ll, kl, dl. split.
  - destruct cb as [[r|]|]; (apply (shape_frame s); try done; try apply Hs; intros Hfr; apply (s_freed _ _ _ _ _ Hs Hfr)).
  - apply (resolve_flow f cb s); destruct cb as [[r|]|]; done.
Qed.

(** ** Steps of [reg_enqueue] *)

Lemma io_pc s r pc : io s !! r = Some pc <-> pc_of s (Io r) = Some (r, pc).
Proof. cbn. rewrite fmap_Some. split; [intros; by exists pc|]. intros (pc' & H & E). congruence. Qed.

Lemma pc_of_reg s t r pc : pc_of s t = Some (r, pc) -> t = Php \/ t = Io r.
Proof. destruct t as [|x]; [by left|]. cbn. intros H. apply fmap_Some in H as (pc' & _ & E). right. congruence. Qed.

(** Thread [t] goes from one program point to another; the others stay. *)
Definition thread_moves (s s' : reactor_state) (t : thread) (r : nat) (pc : enqueue_pc) (next : option enqueue_pc) : Prop :=
  pc_of s t = Some (r, pc) /\ pc_of s' t = (fun pc => (r, pc)) <$> next /\ (forall t', t' <> t -> pc_of s' t' = pc_of s t') /\
  (forall x, x <> r -> php_adding (php s') = Some x <-> php_adding (php s) = Some x) /\
  (pc = ECas \/ (php_adding (php s') = Some r <-> php_adding (php s) = Some r)).

Lemma moves_in_flight s s' t r pc next t' x : thread_moves s s' t r pc next ->
  in_flight s' t' x <-> (t' <> t /\ in_flight s t' x) \/ (t' = t /\ x = r /\ exists pc', next = Some pc' /\ before_push pc' = true).
Proof.
  intros (Hpc & Hpc' & Hother & _). unfold in_flight. destruct (decide (t' = t)) as [->|Hne].
  - split.
    + intros (pc' & H & Hb). right. rewrite Hpc' in H. apply fmap_Some in H as (pc2 & -> & E). split; [done|]. simplify_eq. eauto.
    + intros [[? _]|(_ & -> & pc' & -> & Hb)]; [done|]. exists pc'. by rewrite Hpc'.
  - rewrite Hother by done. split; [by left|]. intros [[_ ?]|[? _]]; done.
Qed.

Lemma moves_io s s' t r pc next x : thread_moves s s' t r pc next -> x <> r -> io s' !! x = io s !! x.
Proof.
  intros (Hpc & _ & Hother & _) Hx. assert (Io x <> t) as Hne by (intros <-; destruct (pc_of_reg _ _ _ _ Hpc); congruence).
  specialize (Hother _ Hne). cbn in Hother. destruct (io s' !! x), (io s !! x); cbn in Hother; congruence.
Qed.

(** The registration a moving thread works on is not waiting for the driver. *)
Lemma moves_not_waiting s s' rl ll kl dl t r pc next : flow s rl ll kl dl -> thread_moves s s' t r pc next -> ~ waiting s r.
Proof.
  intros Hf (Hpc & _) Hw. assert (enq s r = Some false /\ io s !! r = None /\ php_adding (php s) <> Some r) as (He & Hi & Ha).
  { destruct Hw as (f & fu & H & Hc & Hu). destruct (f_known _ _ _ _ _ Hf f fu r H Hc) as (_ & _ & Hn). by destruct (Hn Hu) as (_ & ? & ? & ?). }
  destruct t as [|x]; [|pose proof (pc_of_reg _ _ _ _ Hpc) as [?|E]; [done|injection E as ->]; apply io_pc in Hpc; congruence].
  destruct (before_push pc) eqn:Hb.
  { destruct (f_flight _ _ _ _ _ Hf Php r) as [_ ?]; [by exists pc|congruence]. }
  destruct (holds_lock pc) eqn:Hl.
  { assert (r ∈ rl) as Hr.
    { pose proof (f_php _ _ _ _ _ Hf) as Hk. unfold php_knows in Hk. cbn in Hpc. destruct (php s); try done; cbn in Hpc; simplify_eq;
        destruct pc; try done; naive_solver. }
    destruct (f_queue _ _ _ _ _ Hf r) as (_ & ? & _); [apply elem_of_app; by left|congruence]. }
  destruct pc; try done. apply Ha. cbn in Hpc. destruct (php s); cbn in Hpc |- *; try done; by simplify_eq.
Qed.

(** The compare-and-swap succeeds. *)
Lemma flow_cas s s' t r rl ll kl dl : flow s rl ll kl dl -> thread_moves s s' t r ECas (Some ELock) ->
  futures s' = futures s -> fresh_reg s' = fresh_reg s -> regs s' = alter (set_enqueued true) r (regs s) ->
  r ∈ dl -> enq s r = Some false -> php_adding (php s') <> Some r -> (forall t', locked s' t' <-> locked s t') -> mutex s' = mutex s ->
  php_knows s' rl dl -> (rl <> [] -> waking s') -> flow s' rl ll kl dl.
Proof.
  intros Hf Hm Efu En Er Hd Hfalse Hna Hlk Em Hk Hw. pose proof Hf as [].
  assert (forall x, x <> r -> enq s' x = enq s x) as He by (intros x ?; unfold enq; by rewrite Er, lookup_alter_ne by congruence).
  assert (enq s' r = Some true) as Her.
  { unfold enq in *. rewrite Er, lookup_alter_eq. destruct (regs s !! r); done. }
  assert (forall x, future_of s' x = future_of s x) as Hfo.
  { intros x. unfold future_of. rewrite Er. symmetry. by apply (same_alter reg_future (set_enqueued true) r (regs s)). }
  assert (forall t' x, ~ in_flight s t' x \/ x <> r) as Hnf.
  { intros t' x. destruct (decide (x = r)) as [->|]; [left|by right]. intros H. destruct (f_flight0 t' r H). congruence. }
  assert (forall t' x, in_flight s t' x -> t' <> t) as Hnt.
  { intros t' x (pc & H & Hb) ->. destruct Hm as [E _]. rewrite E in H. simplify_eq. }
  assert (forall x, waiting s' x <-> waiting s x) as Hwt by (intros x; unfold waiting; by rewrite Efu).
  assert (forall x pc, io s' !! x = Some pc -> pc <> ELock -> io s !! x = Some pc /\ (x = r -> t <> Io r)) as Hio.
  { intros x pc H Hne. destruct (decide (x = r)) as [->|]; [|by rewrite <- (moves_io _ _ _ _ _ _ _ Hm)]. destruct Hm as (_ & Hpc' & Ho & _).
    destruct (decide (t = Io r)) as [->|Hn]; [exfalso; apply io_pc in H; rewrite Hpc' in H; cbn in H; congruence|].
    split; [|done]. apply io_pc. rewrite <- Ho by congruence. by apply io_pc. }
  constructor; try done.
  - intros x Hx. destruct (f_queue0 x Hx) as (Hxd & Htrue & Hn). assert (x <> r) as Hxr by (intros ->; congruence). rewrite He by done.
    split_and!; try done. intros t'. rewrite (moves_in_flight _ _ _ _ _ _ t' x Hm). intros [[_ H]|(_ & -> & _)]; [by apply (Hn t')|done].
  - intros x Hx Htrue. destruct (decide (x = r)) as [->|Hne].
    + right. exists t. apply (moves_in_flight _ _ _ _ _ _ t r Hm). right. eauto.
    + rewrite He in Htrue by done. destruct (f_enqueued0 x Hx Htrue) as [?|[t' H]]; [by left|right]. exists t'.
      apply (moves_in_flight _ _ _ _ _ _ t' x Hm). left. split; [by apply (Hnt t' x)|done].
  - intros t' x H%(moves_in_flight _ _ _ _ _ _ t' x Hm). destruct H as [[_ H]|(_ & -> & _)]; [|done].
    destruct (f_flight0 t' x H). destruct (Hnf t' x); [done|]. by rewrite He.
  - intros t1 t2 x H1%(moves_in_flight _ _ _ _ _ _ t1 x Hm) H2%(moves_in_flight _ _ _ _ _ _ t2 x Hm).
    destruct H1 as [[_ H1]|(-> & -> & _)], H2 as [[_ H2]|(-> & Ex & _)]; try done; [by apply (f_flight_one0 t1 t2 x)|subst x; by destruct (Hnf t1 r)|by destruct (Hnf t2 r)].
  - intros x H. destruct (Hio x ECas H) as [H' Hr]; [done|]. destruct (f_io_cas0 x H') as [Hx Hxf].
    destruct (decide (x = r)) as [->|]; [|by rewrite He]. exfalso.
    assert (t = Php) as -> by (destruct Hm as [E _]; destruct (pc_of_reg _ _ _ _ E) as [?|?]; [done|by destruct Hr]).
    destruct Hm as (E & _). unfold php_knows in f_php0. cbn in E. destruct (php s); try done; cbn in E; simplify_eq; naive_solver.
  - intros x pc H Hl Hne. apply (f_io_pushed0 x pc); try done. by apply Hio; [|intros ->].
  - intros x Hx Hxf. assert (x <> r) as Hne by (intros ->; congruence). rewrite He in Hxf by done. rewrite Hwt, (moves_io _ _ _ _ _ _ x Hm Hne).
    destruct Hm as (_ & _ & _ & Hadd & _). rewrite (Hadd x Hne). by apply f_idle0.
  - intros f fu x H Hc. rewrite Efu in H. rewrite En. destruct (f_known0 f fu x H Hc) as (H1 & H2 & H3). split; [done|]. split; [intros o; rewrite Hfo; apply H2|].
    intros Hu. destruct (H3 Hu) as (Hx & Hxf & Hi & Ha). assert (x <> r) as Hne.
    { intros ->. apply (moves_not_waiting _ _ _ _ _ _ _ _ _ _ Hf Hm). by exists f, fu. }
    rewrite He by done. rewrite (moves_io _ _ _ _ _ _ x Hm Hne). destruct Hm as (_ & _ & _ & Hadd & _). by rewrite (Hadd x Hne).
  - intros t'. rewrite Em, Hlk. apply f_mutex0.
Qed.

(** The steps that change no registration. *)
Lemma flow_pc s s' t r pc next rl ll kl dl : flow s rl ll kl dl -> thread_moves s s' t r pc next ->
  futures s' = futures s -> fresh_reg s' = fresh_reg s -> regs s' = regs s -> enq s r = Some true ->
  before_push pc = match next with Some pc' => before_push pc' | None => false end -> next <> Some ECas ->
  (forall pc', next = Some pc' -> holds_lock pc' = true -> pc' <> EPush -> r ∈ rl) ->
  (forall t', mutex s' = Some t' <-> locked s' t') ->
  php_knows s' rl dl -> (rl <> [] -> waking s') -> flow s' rl ll kl dl.
Proof.
  intros Hf Hm Efu En Er Htrue Hb Hnc Hin Hmx Hk Hw. pose proof Hf as [].
  assert (forall x, enq s' x = enq s x) as He by (intros x; unfold enq; by rewrite Er).
  assert (forall x, future_of s' x = future_of s x) as Hfo by (intros x; unfold future_of; by rewrite Er).
  assert (forall t' x, in_flight s' t' x <-> in_flight s t' x) as Hfl.
  { intros t' x. rewrite (moves_in_flight _ _ _ _ _ _ t' x Hm). destruct Hm as (Hpc & _). split.
    - intros [[_ ?]|(-> & -> & pc' & -> & Hb')]; [done|]. exists pc. by rewrite Hb.
    - intros H. destruct (decide (t' = t)) as [->|]; [right|by left]. destruct H as (pc2 & H & Hb2). rewrite Hpc in H. simplify_eq.
      split_and!; try done. destruct next as [pc'|]; [|congruence]. exists pc'. split; [done|congruence]. }
  assert (forall x, waiting s' x <-> waiting s x) as Hwt by (intros x; unfold waiting; by rewrite Efu).
  assert (forall pc', io s' !! r = Some pc' -> next = Some pc' \/ io s !! r = Some pc') as Hio.
  { intros pc' H. destruct Hm as (_ & Hpc' & Ho & _). apply io_pc in H. destruct (decide (t = Io r)) as [->|Hne].
    - left. rewrite Hpc' in H. destruct next; cbn in H; congruence.
    - right. apply io_pc. by rewrite <- Ho by congruence. }
  constructor; try done.
  - intros x Hx. rewrite He. destruct (f_queue0 x Hx) as (? & ? & Hn). split_and!; try done. intros t'. by rewrite Hfl.
  - intros x Hx. rewrite He. intros Hxt. destruct (f_enqueued0 x Hx Hxt) as [?|[t' ?]]; [by left|right]. exists t'. by apply Hfl.
  - intros t' x H%Hfl. rewrite He. by apply (f_flight0 t').
  - intros t1 t2 x H1%Hfl H2%Hfl. by apply (f_flight_one0 t1 t2 x).
  - intros x H. rewrite He. destruct (decide (x = r)) as [->|]; [|rewrite (moves_io _ _ _ _ _ _ _ Hm) in H by done; by apply f_io_cas0].
    destruct (Hio ECas H); [done|by apply f_io_cas0].
  - intros x pc' H Hl Hne. destruct (decide (x = r)) as [->|]; [|rewrite (moves_io _ _ _ _ _ _ _ Hm) in H by done; by apply (f_io_pushed0 x pc')].
    destruct (Hio pc' H); [by eapply Hin|by eapply f_io_pushed0].
  - intros x Hx. rewrite He, Hwt. intros Hxf. assert (x <> r) as Hne by (intros ->; congruence).
    rewrite (moves_io _ _ _ _ _ _ x Hm Hne). destruct Hm as (_ & _ & _ & Hadd & _). rewrite (Hadd x Hne). by apply f_idle0.
  - intros f fu x H Hc. rewrite Efu in H. rewrite En, He. destruct (f_known0 f fu x H Hc) as (H1 & H2 & H3). split; [done|]. split; [intros o; rewrite Hfo; apply H2|].
    intros Hu. destruct (H3 Hu) as (Hx & Hxf & Hi & Ha). assert (x <> r) as Hne by (intros ->; congruence).
    rewrite (moves_io _ _ _ _ _ _ x Hm Hne). destruct Hm as (_ & _ & _ & Hadd & _). by rewrite (Hadd x Hne).
Qed.

(** The push: the registration goes to the end of the queue. *)
Lemma flow_push s s' t r rl ll kl dl : flow s rl ll kl dl -> thread_moves s s' t r EPush (Some ESignal) ->
  futures s' = futures s -> fresh_reg s' = fresh_reg s -> same core (regs s) (regs s') -> enq s r = Some true -> r ∈ dl ->
  (forall t', mutex s' = Some t' <-> locked s' t') ->
  php_knows s' (rl ++ [r]) dl -> waking s' -> flow s' (rl ++ [r]) ll kl dl.
Proof.
  intros Hf Hm Efu En Hcore Htrue Hrd Hmx Hk Hw. pose proof Hf as [].
  assert (forall x, enq s' x = enq s x) as He by (intros x; by apply core_enq).
  assert (forall x, future_of s' x = future_of s x) as Hfo by (intros x; by apply core_future).
  assert (in_flight s t r) as Hfr by (exists EPush; by destruct Hm).
  assert (forall t' x, in_flight s' t' x <-> in_flight s t' x /\ x <> r) as Hfl.
  { intros t' x. rewrite (moves_in_flight _ _ _ _ _ _ t' x Hm). split.
    - intros [[Hne H]|(_ & _ & pc' & E & Hb)]; [|by simplify_eq]. split; [done|]. intros ->. apply Hne. by apply (f_flight_one0 t' t r).
    - intros [H Hx]. left. split; [|done]. intros ->. destruct H as (pc & H & _), Hm as (Hpc & _). congruence. }
  assert (forall x, waiting s' x <-> waiting s x) as Hwt by (intros x; unfold waiting; by rewrite Efu).
  assert (forall pc', io s' !! r = Some pc' -> pc' = ESignal \/ io s !! r = Some pc') as Hio.
  { intros pc' H. destruct Hm as (_ & Hpc' & Ho & _). apply io_pc in H. destruct (decide (t = Io r)) as [->|Hne].
    - left. rewrite Hpc' in H. cbn in H. congruence.
    - right. apply io_pc. by rewrite <- Ho by congruence. }
  assert (r ∉ rl ++ ll ++ concat kl) as Hrq by (intros H; destruct (f_queue0 r H) as (_ & _ & Hn); by apply (Hn t)).
  assert (forall x, x ∈ (rl ++ [r]) ++ ll ++ concat kl <-> x ∈ rl ++ ll ++ concat kl \/ x = r) as HQ.
  { intros x. rewrite !elem_of_app, list_elem_of_singleton. tauto. }
  constructor; try done.
  - rewrite <- app_assoc. cbn [app]. rewrite <- Permutation_middle. by apply NoDup_cons_2.
  - intros x Hx. rewrite He. apply HQ in Hx as [Hx| ->].
    + destruct (f_queue0 x Hx) as (Hxd & Hxt & Hn). split_and!; try done. intros t'. rewrite Hfl. intros [H _]. by apply (Hn t').
    + split_and!; try done. intros t'. rewrite Hfl. by intros [_ ?].
  - intros x Hx. rewrite He. intros Hxt. destruct (f_enqueued0 x Hx Hxt) as [?|[t' ?]]; [left; apply HQ; by left|].
    destruct (decide (x = r)) as [->|]; [left; apply HQ; by right|right]. exists t'. by apply Hfl.
  - intros t' x [H _]%Hfl. rewrite He. by apply (f_flight0 t').
  - intros t1 t2 x [H1 _]%Hfl [H2 _]%Hfl. by apply (f_flight_one0 t1 t2 x).
  - intros x H. rewrite He. destruct (decide (x = r)) as [->|]; [|rewrite (moves_io _ _ _ _ _ _ _ Hm) in H by done; by apply f_io_cas0].
    destruct (Hio ECas H); [done|by apply f_io_cas0].
  - intros x pc' H Hl Hne. rewrite elem_of_app, list_elem_of_singleton. destruct (decide (x = r)) as [->|]; [by right|left].
    rewrite (moves_io _ _ _ _ _ _ _ Hm) in H by done. by apply (f_io_pushed0 x pc').
  - intros x Hx. rewrite He, Hwt. intros Hxf. assert (x <> r) as Hne by (intros ->; congruence).
    rewrite (moves_io _ _ _ _ _ _ x Hm Hne). destruct Hm as (_ & _ & _ & Hadd & _). rewrite (Hadd x Hne). by apply f_idle0.
  - intros f fu x H Hc. rewrite Efu in H. rewrite En, He. destruct (f_known0 f fu x H Hc) as (H1 & H2 & H3). split; [done|]. split; [intros o; rewrite Hfo; apply H2|].
    intros Hu. destruct (H3 Hu) as (Hx & Hxf & Hi & Ha). assert (x <> r) as Hne by (intros ->; congruence).
    rewrite (moves_io _ _ _ _ _ _ x Hm Hne). destruct Hm as (_ & _ & _ & Hadd & _). by rewrite (Hadd x Hne).
Qed.

(** ** Shape: the queue *)

Lemma push_ready_ok s rl ll kl dl r :
  shape s rl ll kl dl -> r ∈ dl -> NoDup rl -> (forall x, x ∈ rl -> x ∈ dl) -> r ∉ rl ->
  exists m h, push_ready r s = set_ready_tail (Some r) (set_ready_head h (set_regs m s)) /\
    same core (regs s) m /\ same links (regs s) m /\ chain m h (rl ++ [r]) /\
    (forall l h', (forall x, x ∈ l -> x ∉ rl ++ [r]) -> chain (regs s) h' l -> chain m h' l).
Proof.
  intros Hs Hr Hnd Hsub Hrl. pose proof (s_ready _ _ _ _ _ Hs) as Hc. pose proof (s_tail _ _ _ _ _ Hs) as Ht.
  assert (forall x, x ∈ dl -> is_Some (regs s !! x)) as Hlive by (intros x Hx; apply (s_dom _ _ _ _ _ Hs), elem_of_app; by left).
  unfold push_ready. rewrite change_reg_eq by auto. set (m1 := alter (set_next_ready None) r (regs s)).
  assert (forall x, x <> r -> m1 !! x = regs s !! x) as Hm1 by (intros x ?; by apply lookup_alter_ne).
  assert (exists g, m1 !! r = Some g /\ next_ready g = None) as Hg1.
  { destruct (Hlive r Hr) as [g Hg]. exists (set_next_ready None g). subst m1. by rewrite lookup_alter_eq, Hg. }
  assert (same core (regs s) m1 /\ same links (regs s) m1) as [Hc1 Hl1] by (split; by apply same_alter).
  assert (forall l h', r ∉ l -> chain (regs s) h' l -> chain m1 h' l) as Hk1.
  { intros l h' Hl. apply chain_agree. intros x Hx. rewrite Hm1; [done|]. by intros ->. }
  destruct (snoc_cases rl) as [->|(l & t & ->)].
  - cbn in Hc, Ht. exists m1, (Some r). replace (ready_tail (set_regs m1 s)) with (@None nat) by done.
    split; [by destruct s|]. split; [done|]. split; [done|]. split.
    + cbn. split; [done|]. destruct Hg1 as (g & ? & ?). by exists g.
    + intros l h' Hl. apply Hk1. intros Hin. apply (Hl r Hin). by left.
  - rewrite last_snoc in Ht. replace (ready_tail (set_regs m1 s)) with (Some t) by done.
    assert (t ∈ l ++ [t]) as Htin by (apply elem_of_app; right; by left).
    assert (is_Some (m1 !! t)) as [gt Hgt] by (by apply alter_live, Hlive, Hsub).
    rewrite change_reg_eq by (by exists gt). cbn [regs set_regs]. rewrite <- (insert_alter _ t gt) by done.
    exists (<[t := set_next_ready (Some r) gt]> m1), (ready_head s). split; [by destruct s|].
    rewrite (insert_alter (set_next_ready (Some r))) by done. split_and!.
    + etransitivity; [exact Hc1|]. by apply same_alter.
    + etransitivity; [exact Hl1|]. by apply same_alter.
    + rewrite <- (insert_alter _ t gt), <- app_assoc by done. apply chain_snoc; try done. by apply Hk1.
    + intros l2 h' Hl2 H. apply (chain_agree m1); [|apply Hk1; [|done]].
      * intros x Hx. rewrite lookup_alter_ne; [done|]. intros <-. apply (Hl2 t Hx). apply elem_of_app. by left.
      * intros Hin. apply (Hl2 r Hin). apply elem_of_app. right. by left.
Qed.

(** The parts of the shape the steps of [reg_enqueue] leave alone. *)
Definition body (g : reg) : Z * option nat * nat := (reg_refcount g, future_obj g, reg_slot g).

Lemma same_body m m' : same core m m' -> same body m m'.
Proof. intros H r. specialize (H r). destruct (m !! r), (m' !! r); cbn in *; try done. unfold core, body in *. congruence. Qed.

Lemma shape_core s s' rl ll kl dl : shape s rl ll kl dl -> same body (regs s) (regs s') -> same links (regs s) (regs s') ->
  callers s' = callers s -> registered s' = registered s -> pending s' = pending s -> fresh_reg s' = fresh_reg s -> refs s' = refs s ->
  freed s' = freed s -> corrupt s' = corrupt s -> (freed s = true -> php s' = PUser) -> 0 <= fd_counter s' ->
  forall rl' ll', chain (regs s') (ready_head s') rl' -> ready_tail s' = last rl' -> chain (regs s') (local_head (php s')) ll' ->
  Forall2 (fun k l => chain (regs s') (caller_head k) l) (callers s) kl -> shape s' rl' ll' kl dl.
Proof.
  intros [] Hcore Hlinks Ec Eg Ep Ef Es Ed Eo Hf Hc rl' ll' Hr Ht Hl Hk. unfold live in *.
  constructor; unfold live; rewrite ?Ec, ?Eg, ?Ep, ?Ef, ?Es, ?Ed, ?Eo; auto.
  - destruct s_dlist0 as [q H]. exists q. by apply (dseg_agree (regs s)); [apply same_agree|].
  - intros r. rewrite <- s_dom0. symmetry. by apply (same_is_Some body).
  - intros r g Hg. destruct (same_lookup body (regs s') (regs s) r g) as (g' & Hg' & E); [|done|].
    { intros x. symmetry. apply Hcore. }
    destruct (s_regs0 r g' Hg') as (? & ? & ?). unfold body in E. split_and!; [congruence|done|congruence].
  - intros H. destruct (s_freed0 H) as (? & ? & _). auto.
Qed.

(** [s'] is the state [s1] after an action of [reg_enqueue], with the program point of the thread
    updated. *)
Record moved (s1 s' : reactor_state) : Prop := {
  m_regs : regs s' = regs s1; m_fresh : fresh_reg s' = fresh_reg s1; m_futures : futures s' = futures s1;
  m_refs : refs s' = refs s1; m_counter : fd_counter s' = fd_counter s1; m_mutex : mutex s' = mutex s1;
  m_head : ready_head s' = ready_head s1; m_tail : ready_tail s' = ready_tail s1; m_registered : registered s' = registered s1;
  m_pending : pending s' = pending s1; m_freed : freed s' = freed s1; m_callers : callers s' = callers s1;
  m_corrupt : corrupt s' = corrupt s1
}.

Definition next_holds (next : option enqueue_pc) : bool := match next with Some pc => holds_lock pc | None => false end.

Record thread_step (s s1 s' : reactor_state) (t : thread) (r : nat) (pc : enqueue_pc) (next : option enqueue_pc) (rl dl : list nat) : Prop := {
  t_step : enqueue_step t r pc s = Some (next, s1);
  t_moved : moved s1 s';
  t_moves : thread_moves s s' t r pc next;
  t_local : local_head (php s) = None /\ local_head (php s') = None \/ php s' = php s;
  t_reg : r ∈ dl;
  t_cas : pc = ECas -> enq s r = Some false -> php_adding (php s') <> Some r;
  t_locked : locked s t <-> holds_lock pc = true;
  t_locked' : locked s' t <-> next_holds next = true;
  t_others : forall t', t' <> t -> locked s' t' <-> locked s t';
  t_pushed : pc = ESignal -> r ∈ rl;
  t_knows : forall rl', (forall x, x ∈ rl -> x ∈ rl') -> (pc = EPush -> r ∈ rl') -> php_knows s' rl' dl;
  t_wakes : next = Some ESignal -> waking s';
  t_waking : pc <> ESignal -> fd_counter s' = fd_counter s -> waking s -> waking s'
}.

Lemma live_not_freed s rl ll kl dl r : shape s rl ll kl dl -> r ∈ dl -> freed s = false.
Proof.
  intros Hs Hr. destruct (freed s) eqn:E; [|done]. destruct (s_freed _ _ _ _ _ Hs E) as (-> & _). by apply elem_of_nil in Hr.
Qed.

Lemma live_reg s rl ll kl dl r : shape s rl ll kl dl -> r ∈ dl -> is_Some (regs s !! r).
Proof. intros Hs Hr. apply (s_dom _ _ _ _ _ Hs), elem_of_app. by left. Qed.

Lemma queue_sub s rl ll kl dl x : flow s rl ll kl dl -> x ∈ rl ++ ll ++ concat kl -> x ∈ dl.
Proof. intros Hf Hx. by apply (f_queue _ _ _ _ _ Hf). Qed.

Lemma mutex_moves s s' t pc next : (forall t', mutex s = Some t' <-> locked s t') ->
  (forall t', t' <> t -> locked s' t' <-> locked s t') -> (locked s t <-> holds_lock pc = true) -> (locked s' t <-> next_holds next = true) ->
  mutex s' = (if next_holds next then Some t else if holds_lock pc then None else mutex s) ->
  (next_holds next = true -> holds_lock pc = true \/ mutex s = None) ->
  forall t', mutex s' = Some t' <-> locked s' t'.
Proof.
  intros Hm Ho Hl Hl' E Hn t'. destruct (decide (t' = t)) as [->|Hne].
  - rewrite Hl', E. destruct (next_holds next); [done|]. destruct (holds_lock pc) eqn:Eh; [done|]. rewrite Hm, Hl. done.
  - rewrite (Ho t' Hne), <- Hm, E. destruct (next_holds next).
    + split; [congruence|]. intros E'. destruct (Hn eq_refl) as [Hh|Hh]; [|congruence]. apply Hl, Hm in Hh. congruence.
    + destruct (holds_lock pc) eqn:Eh; [|done]. split; [done|]. intros E'. assert (mutex s = Some t) by (by apply Hm, Hl). congruence.
Qed.

Lemma flight_in_dl s rl ll kl dl t r pc : flow s rl ll kl dl -> pc_of s t = Some (r, pc) -> before_push pc = true -> enq s r = Some true.
Proof. intros Hf Hpc Hb. by apply (f_flight _ _ _ _ _ Hf t r); exists pc. Qed.

Lemma enqueue_inv s s1 s' t r pc next rl ll kl dl :
  shape s rl ll kl dl -> flow s rl ll kl dl -> thread_step s s1 s' t r pc next rl dl -> reactor_inv s'.
Proof.
  intros Hs Hf [].
  pose proof (live_not_freed _ _ _ _ _ _ Hs t_reg0) as Hfreed.
  destruct (live_reg _ _ _ _ _ _ Hs t_reg0) as [g Hg].
  pose proof t_moves0 as (Hpc & _).
  assert (NoDup rl) as Hnd by (pose proof (f_nodup _ _ _ _ _ Hf) as H; by apply list.NoDup_app in H as (? & _)).
  assert (forall x, x ∈ rl -> x ∈ dl) as Hsub by (intros x Hx; apply (queue_sub _ _ _ _ _ x Hf), elem_of_app; by left).
  assert (pc <> EPush -> php_knows s' rl dl) as Hk by (intros Hne; apply t_knows0; [done|done]).
  destruct t_moved0.
  destruct pc; cbn in t_step0.
  - (* compare and swap *)
    rewrite Hg in t_step0. destruct (enqueued g) eqn:Eq; injection t_step0 as <- <-.
    + exists rl, ll, kl, dl. split.
      * apply (shape_frame s); try done; [|by rewrite Hfreed|by rewrite m_counter0; apply Hs]. by destruct t_local0 as [[-> ->]| ->].
      * eapply (flow_pc s s' t r ECas None); try done; [by unfold enq; rewrite Hg; cbn; rewrite Eq| | |].
        -- apply (mutex_moves s s' t ECas None); try done. apply Hf.
        -- by apply Hk.
        -- intros Hne. apply t_waking0; [done|done|by apply Hf].
    + exists rl, ll, kl, dl. change (regs s' = <[r := set_enqueued true g]> (regs s)) in m_regs0.
      rewrite (insert_alter (set_enqueued true) r g) in m_regs0 by done. split.
      * apply (shape_core s s' rl ll kl dl); try done; rewrite ?m_regs0, ?m_head0, ?m_tail0; try (by apply same_alter).
        -- by rewrite Hfreed.
        -- rewrite m_counter0. apply Hs.
        -- apply (chain_agree (regs s)); [by apply same_agree, same_alter|apply Hs].
        -- apply Hs.
        -- replace (local_head (php s')) with (local_head (php s)) by (by destruct t_local0 as [[-> ->]| ->]).
           apply (chain_agree (regs s)); [by apply same_agree, same_alter|apply Hs].
        -- eapply Forall2_impl; [apply Hs|]. intros k l Hc. cbn. apply (chain_agree (regs s)); [by apply same_agree, same_alter|done].
      * assert (enq s r = Some false) as Hfalse by (unfold enq; rewrite Hg; cbn; by rewrite Eq).
        apply (flow_cas s s' t r); try done.
        -- by apply t_cas0.
        -- intros t'. destruct (decide (t' = t)) as [->|Hne]; [rewrite t_locked'0, t_locked0; done|by apply t_others0].
        -- by apply Hk.
        -- intros Hne. apply t_waking0; [done|done|by apply Hf].
  - (* lock *)
    rewrite Hfreed in t_step0. destruct (mutex s) as [?|] eqn:Emu; [done|]. unfold with_reg in t_step0. rewrite Hg in t_step0. injection t_step0 as <- <-.
    exists rl, ll, kl, dl. split.
    + apply (shape_frame s); try done; [|by rewrite Hfreed|by rewrite m_counter0; apply Hs]. by destruct t_local0 as [[-> ->]| ->].
    + eapply (flow_pc s s' t r ELock (Some EPush)); try done.
      * by apply (flight_in_dl _ _ _ _ _ t r ELock Hf).
      * intros pc' [= <-]. done.
      * apply (mutex_moves s s' t ELock (Some EPush)); try done; [apply Hf|by right].
      * by apply Hk.
      * intros Hne. apply t_waking0; [done|done|by apply Hf].
  - (* push *)
    injection t_step0 as <- <-.
    assert (r ∉ rl) as Hrl.
    { intros Hin. destruct (f_queue _ _ _ _ _ Hf r) as (_ & _ & Hn); [apply elem_of_app; by left|]. apply (Hn t). by exists EPush. }
    destruct (push_ready_ok s rl ll kl dl r Hs t_reg0 Hnd Hsub Hrl) as (m & h & E & Hcore & Hlinks & Hch & Hoth). rewrite E in *. cbn in *.
    assert (forall x, x ∈ ll ++ concat kl -> x ∉ rl ++ [r]) as Hdis.
    { intros x Hx [Hin|Hin]%elem_of_app.
      - pose proof (f_nodup _ _ _ _ _ Hf) as H. apply list.NoDup_app in H as (_ & H & _). by apply (H x).
      - apply list_elem_of_singleton in Hin as ->. destruct (f_queue _ _ _ _ _ Hf r) as (_ & _ & Hn); [apply elem_of_app; by right|]. apply (Hn t). by exists EPush. }
    exists (rl ++ [r]), ll, kl, dl. split.
    + apply (shape_core s s' rl ll kl dl); try done; rewrite ?m_regs0, ?m_head0, ?m_tail0; try done.
      * by apply same_body.
      * by rewrite Hfreed.
      * rewrite m_counter0. apply Hs.
      * by rewrite last_snoc.
      * replace (local_head (php s')) with (local_head (php s)) by (by destruct t_local0 as [[-> ->]| ->]).
        apply Hoth; [|apply Hs]. intros x Hx. apply Hdis, elem_of_app. by left.
      * pose proof (s_callers _ _ _ _ _ Hs) as Hc. assert (forall x, x ∈ concat kl -> x ∉ rl ++ [r]) as Hd2 by (intros x Hx; apply Hdis, elem_of_app; by right).
        clear -Hc Hoth Hd2. induction Hc as [|k l ks ls Hkl _ IH]; constructor; [|apply IH; intros x Hx; apply Hd2; cbn; apply elem_of_app; by right].
        apply Hoth; [|done]. intros x Hx. apply Hd2. cbn. apply elem_of_app. by left.
    + apply (flow_push s s' t r); try done.
      * by rewrite m_regs0.
      * by apply (flight_in_dl _ _ _ _ _ t r EPush Hf).
      * apply (mutex_moves s s' t EPush (Some ESignal)); try done; [apply Hf| |by left].
        rewrite m_mutex0. cbn. apply (f_mutex _ _ _ _ _ Hf). by apply t_locked0.
      * apply t_knows0; [intros x Hx; apply elem_of_app; by left|intros _; apply elem_of_app; right; by left].
      * by apply t_wakes0.
  - (* signal *)
    rewrite Hfreed in t_step0. injection t_step0 as <- <-. exists rl, ll, kl, dl. split.
    + apply (shape_frame s); try done; [|by rewrite Hfreed|rewrite m_counter0; cbn; pose proof (s_counter _ _ _ _ _ Hs); lia].
      by destruct t_local0 as [[-> ->]| ->].
    + eapply (flow_pc s s' t r ESignal (Some EUnlock)); try done.
      * by apply (f_queue _ _ _ _ _ Hf), elem_of_app; left; apply t_pushed0.
      * intros pc' [= <-] _ _. by apply t_pushed0.
      * apply (mutex_moves s s' t ESignal (Some EUnlock)); try done; [apply Hf| |by left].
        rewrite m_mutex0. cbn. apply (f_mutex _ _ _ _ _ Hf). by apply t_locked0.
      * by apply Hk.
      * intros _. left. rewrite m_counter0. cbn. pose proof (s_counter _ _ _ _ _ Hs). lia.
  - (* unlock *)
    rewrite Hfreed in t_step0. injection t_step0 as <- <-. exists rl, ll, kl, dl.
    assert (r ∈ rl) as Hin.
    { destruct t as [|x].
      - pose proof (f_php _ _ _ _ _ Hf) as Hkn. unfold php_knows in Hkn. cbn in Hpc. destruct (php s); try done; cbn in Hpc; simplify_eq; naive_solver.
      - destruct (pc_of_reg _ _ _ _ Hpc) as [|[= ->]]; [done|]. apply io_pc in Hpc. by apply (f_io_pushed _ _ _ _ _ Hf r EUnlock). }
    split.
    + apply (shape_frame s); try done; [|by rewrite Hfreed|by rewrite m_counter0; apply Hs]. by destruct t_local0 as [[-> ->]| ->].
    + eapply (flow_pc s s' t r EUnlock None); try done.
      * by apply (f_queue _ _ _ _ _ Hf), elem_of_app; left.
      * apply (mutex_moves s s' t EUnlock None); try done. apply Hf.
      * by apply Hk.
      * intros Hne. apply t_waking0; [done|done|by apply Hf].
Qed.

(** What an action of [reg_enqueue] leaves alone. *)
Lemma enqueue_effect t r pc s next s1 : is_Some (regs s !! r) -> enqueue_step t r pc s = Some (next, s1) ->
  io s1 = io s /\ php s1 = php s /\ futures s1 = futures s /\ callers s1 = callers s /\
  (pc <> ESignal -> fd_counter s1 = fd_counter s) /\ next <> Some ECas /\
  same reg_future (regs s) (regs s1) /\ (forall x, x <> r \/ pc <> ECas -> enq s1 x = enq s x).
Proof.
  intros [g Hg] H.
  assert (forall A (p : reg -> A), (forall o g, p (set_next_ready o g) = p g) -> same p (regs s) (regs (push_ready r s))) as Hpush.
  { intros A p Hp. unfold push_ready. rewrite (change_reg_eq r) by (by exists g). cbn [ready_tail set_regs].
    etransitivity; [by apply (same_alter p (set_next_ready None) r)|]. destruct (ready_tail s) as [x|]; [|done].
    unfold change_reg, with_reg. cbn [regs set_regs]. destruct (alter _ r (regs s) !! x) as [gx|] eqn:E; [|done].
    cbn [regs set_regs set_ready_tail put_reg]. rewrite (insert_alter (set_next_ready (Some r))) by done. by apply same_alter. }
  assert (io (push_ready r s) = io s /\ php (push_ready r s) = php s /\ futures (push_ready r s) = futures s /\
    callers (push_ready r s) = callers s /\ fd_counter (push_ready r s) = fd_counter s) as (P1 & P2 & P3 & P4 & P5).
  { unfold push_ready, change_reg, with_reg. rewrite Hg. cbn. destruct (ready_tail s); [|done]. by case_match. }
  destruct pc; cbn in H; unfold with_reg in H; rewrite ?Hg in H; repeat case_match; simplify_eq; split_and!; try done.
  - cbn. rewrite (insert_alter (set_enqueued true)) by done. by apply same_alter.
  - intros x [Hx|?]; [|done]. unfold enq. cbn. by rewrite lookup_insert_ne.
  - by apply Hpush.
  - intros x _. unfold enq. symmetry. by apply Hpush.
Qed.

(** A callback of the driver takes a step. *)
Lemma io_inv r s s' : reactor_inv s -> reactor_step (LIo r) s = Some s' -> reactor_inv s'.
Proof.
  intros (rl & ll & kl & dl & Hs & Hf) H. cbn [reactor_step] in H.
  destruct (io s !! r) as [pc|] eqn:Epc; [|done]. cbn in H.
  destruct (enqueue_step (Io r) r pc s) as [[next s1]|] eqn:Est; [|done]. cbn in H.
  assert (r ∈ dl) as Hr.
  { destruct (before_push pc) eqn:Hb.
    - apply (f_flight _ _ _ _ _ Hf (Io r) r). exists pc. split; [by apply io_pc|done].
    - destruct pc; try done; [by apply (f_io_cas _ _ _ _ _ Hf)|..]; apply (queue_sub _ _ _ _ _ r Hf), elem_of_app; left; by eapply (f_io_pushed _ _ _ _ _ Hf). }
  destruct (enqueue_effect _ _ _ _ _ _ (live_reg _ _ _ _ _ _ Hs Hr) Est) as (Eio & Ephp & Efu & Eca & Efd & Hnc & Hfo & Hen).
  set (io' := match next with Some pc => <[r := pc]> (io s1) | None => delete r (io s1) end) in H. injection H as <-.
  assert (io' !! r = next) as Hio by (subst io'; destruct next; [apply lookup_insert_eq|apply lookup_delete_eq]).
  assert (forall x, x <> r -> io' !! x = io s !! x) as Hio'.
  { intros x Hx. subst io'. rewrite Eio. destruct next; [by rewrite lookup_insert_ne|by rewrite lookup_delete_ne]. }
  assert (php_adding (php s) = Some r -> pc <> ECas) as Hadd.
  { intros Ha ->. pose proof (f_php _ _ _ _ _ Hf) as Hk. unfold php_knows in Hk.
    destruct (php s) as [|? ?|? ? []|? ? []|? []| | | | | | | | | | | | ]; try done; cbn in Ha; simplify_eq; naive_solver. }
  apply (enqueue_inv s s1 (set_io io' s1) (Io r) r pc next rl ll kl dl); try done.
  constructor; try done.
  - split; [by apply io_pc|]. split; [cbn; rewrite Hio; by destruct next|]. split; [|cbn; rewrite Ephp; split; [done|by right]].
    intros [|x] Hx; cbn; [by rewrite Ephp|]. rewrite Hio'; [done|]. congruence.
  - by right.
  - intros -> _. cbn. rewrite Ephp. intros Ha. by apply Hadd in Ha.
  - cbn. rewrite Epc. split; [intros (pc' & [= <-] & Hl); done|]. intros Hl. by exists pc.
  - cbn. rewrite Hio. split; [intros (pc' & -> & Hl); done|]. destruct next as [pc'|]; [|done]. intros Hl. by exists pc'.
  - intros [|x] Hx; cbn; [by rewrite Ephp|]. rewrite Hio' by congruence. done.
  - intros ->. by apply (f_io_pushed _ _ _ _ _ Hf r ESignal).
  - intros rl' Hsub Hpush. apply (php_knows_env s _ rl rl'); try done; [apply Hf|..].
    + intros x. specialize (Hfo x). unfold future_of. cbn. congruence.
    + intros x Ha. assert (x <> r \/ pc <> ECas) as Hx by (destruct (decide (x = r)) as [->|]; [right; by apply Hadd|by left]).
      split; [by apply Hen|]. split; [|split].
      * cbn. destruct (decide (x = r)) as [->|Hne]; [|by rewrite Hio']. rewrite Hio, Epc. split; [done|]. intros E. congruence.
      * intros Hu f fu. cbn. rewrite Efu. apply Hu.
      * unfold waiting. cbn. by rewrite Efu.
    + intros f fu x Hfu Hc. cbn. rewrite Efu. by exists fu.
  - intros ->. right; left. exists r. cbn. by rewrite Hio.
  - intros Hne Hfd' [Hw|[[x Hx]|Hw]]; [left; cbn; by rewrite Efd|right; left|right; right; cbn; by rewrite Ephp].
    exists x. cbn. rewrite Hio'; [done|]. intros ->. congruence.
Qed.

(** The PHP thread takes a step of [reg_enqueue]. *)
Lemma php_enqueue_inv s s' r pc more k :
  reactor_inv s -> php s = more pc -> php_enqueue r pc more k s = Some s' ->
  (exists f, more = PInCallback r f /\ k = PCheck r f true) \/ (more = PEnqueue r /\ k = PUser) -> reactor_inv s'.
Proof.
  intros (rl & ll & kl & dl & Hs & Hf) Ep H Hmk. unfold php_enqueue in H.
  destruct (enqueue_step Php r pc s) as [[next s1]|] eqn:Est; [|done]. cbn in H. injection H as <-.
  pose proof (f_php _ _ _ _ _ Hf) as Hk. unfold php_knows in Hk. rewrite Ep in Hk.
  assert (forall pc, php_enqueue_pc (more pc) = Some (r, pc) /\ local_head (more pc) = None /\
    (php_adding (more pc) = if decide (pc = ECas) then Some r else None) /\ php_locked (more pc) = holds_lock pc /\
    php_wakes (more pc) = bool_decide (pc = ESignal)) as Hmore by (by destruct Hmk as [(f & -> & _)|[-> _]]; intros []).
  assert (php_enqueue_pc k = None /\ local_head k = None /\ php_adding k = None /\ php_locked k = false) as (K1 & K2 & K3 & K4)
    by (by destruct Hmk as [(f & _ & ->)|[_ ->]]).
  assert (r ∈ dl /\ (holds_lock pc = true -> pc <> EPush -> r ∈ rl)) as [Hr Hin].
  { destruct Hmk as [(f & -> & _)|[-> _]]; [destruct Hk as (? & _ & _ & ? & _)|destruct Hk as (? & _ & ?)]; done. }
  destruct (enqueue_effect _ _ _ _ _ _ (live_reg _ _ _ _ _ _ Hs Hr) Est) as (Eio & Ephp & Efu & Eca & Efd & Hnc & Hfo & Hen).
  assert (next = Some ESignal -> pc = EPush) as Hsig by (intros ->; destruct pc; cbn in Est; repeat case_match; by simplify_eq).
  assert (next = Some EUnlock -> pc = ESignal) as Hunl by (intros ->; destruct pc; cbn in Est; repeat case_match; by simplify_eq).
  set (p' := match next with Some pc => more pc | None => k end).
  apply (enqueue_inv s s1 (set_php p' s1) Php r pc next rl ll kl dl); try done.
  constructor; try done.
  - split; [cbn; rewrite Ep; apply Hmore|]. split; [subst p'; cbn; destruct next; [apply Hmore|done]|].
    split; [intros [|x] Hx; [done|]; cbn; by rewrite Eio|]. cbn. rewrite Ep.
    destruct (Hmore pc) as (_ & _ & E1 & _). assert (php_adding p' = None) as E2.
    { subst p'. destruct next as [pc'|]; [|done]. destruct (Hmore pc') as (_ & _ & -> & _). by rewrite decide_False by congruence. }
    rewrite E1, E2. destruct (decide (pc = ECas)) as [->|]; split; try done; [intros x ?; split; congruence|by left|by right].
  - left. rewrite Ep. split; [apply Hmore|]. subst p'. cbn. destruct next; [apply Hmore|done].
  - intros -> _. subst p'. cbn. destruct next as [pc'|]; [|by rewrite K3]. destruct (Hmore pc') as (_ & _ & -> & _). by rewrite decide_False by congruence.
  - cbn. rewrite Ep. by destruct (Hmore pc) as (_ & _ & _ & -> & _).
  - subst p'. cbn. destruct next as [pc'|]; [by destruct (Hmore pc') as (_ & _ & _ & -> & _)|by rewrite K4].
  - intros [|x] Hx; [done|]. cbn. by rewrite Eio.
  - intros ->. by apply Hin.
  - intros rl' Hsub Hpush.
    assert (forall pc', next = Some pc' -> holds_lock pc' = true -> pc' <> EPush -> r ∈ rl') as Hin'.
    { intros pc' E Hl Hne. destruct pc'; try done; [apply Hpush; by apply Hsig|apply Hsub, Hin; [by rewrite Hunl|by rewrite Hunl]]. }
    unfold php_knows. subst p'. cbn [php set_php]. destruct Hmk as [(f & -> & ->)|[-> ->]]; [|destruct next; [|done]].
    + destruct Hk as (_ & Hfut & _ & _ & fu & Hfu & Hc & Hset). assert (future_of s1 r = Some (Some f)) as Hfut'.
      { specialize (Hfo r). unfold future_of in *. congruence. }
      destruct next as [pc'|]; cbn [futures set_php]; rewrite Efu; split_and!; try done; [|by apply Hin'|by exists fu|by exists fu].
      intros ->. done.
    + split_and!; try done; [by intros ->|by apply Hin'].
  - intros ->. right; right. subst p'. cbn. by destruct (Hmore ESignal) as (_ & _ & _ & _ & ->).
  - intros Hne Hfd' [Hw|[[x Hx]|Hw]]; [left; cbn; by rewrite Efd|right; left; exists x; cbn; by rewrite Eio|exfalso].
    rewrite Ep in Hw. destruct (Hmore pc) as (_ & _ & _ & _ & E). rewrite E in Hw. by apply bool_decide_eq_true_1 in Hw.
Qed.
