(* ===== verification/ReactorSafe.v ===== *)
(** The steps of the PHP thread keep the reactor's invariant; the theorems about the reactor. *)
From S2P Require Import Prelude Notifier Reactor ReactorInv.
From stdpp Require Import gmap.
#[local] Open Scope Z_scope.

(** ** Registering a future *)

(** Steps that only move the PHP thread, outside [reg_enqueue] or to its start. *)
Lemma flow_move s s' rl ll kl dl : flow s rl ll kl dl ->
  io s' = io s -> futures s' = futures s -> fresh_reg s' = fresh_reg s -> regs s' = regs s ->
  (forall t r, in_flight s' t r <-> in_flight s t r) ->
  (forall x, x ∈ dl -> enq s x = Some false -> php_adding (php s) = Some x -> php_adding (php s') = Some x) ->
  (forall x, waiting s x -> php_adding (php s') <> Some x) ->
  php_knows s' rl dl -> (forall t, mutex s' = Some t <-> locked s' t) -> (rl <> [] -> waking s') -> flow s' rl ll kl dl.
Proof.
  intros [] Ei Ef En Er Hfl Ha Hw Hk Hm Hwk.
  assert (forall x, enq s' x = enq s x) as He by (intros x; unfold enq; by rewrite Er).
  assert (forall x, future_of s' x = future_of s x) as Hfo by (intros x; unfold future_of; by rewrite Er).
  assert (forall x, waiting s' x <-> waiting s x) as Hwt by (intros x; unfold waiting; by rewrite Ef).
  constructor; try done.
  - intros r Hr. rewrite He. destruct (f_queue r Hr) as (? & ? & Hn). split_and!; try done. intros t. by rewrite Hfl.
  - intros r Hd. rewrite He. intros Hq. destruct (f_enqueued r Hd Hq) as [?|[t ?]]; [by left|right]. exists t. by apply Hfl.
  - intros t r H%Hfl. rewrite He. by apply (f_flight t).
  - intros t t' r H%Hfl H'%Hfl. by apply (f_flight_one t t' r).
  - intros r. rewrite Ei, He. apply f_io_cas.
  - intros r pc. rewrite Ei. apply f_io_pushed.
  - intros r Hd. rewrite He, Ei, Hwt. intros Hq. destruct (f_idle r Hd Hq) as [?|?]; [left; by apply Ha|by right].
  - intros f fu r. rewrite Ef, En, Ei, He. intros H Hc. destruct (f_known f fu r H Hc) as (H1 & H2 & H3). split; [done|].
    split; [intros o; rewrite Hfo; apply H2|]. intros Hu. destruct (H3 Hu) as (? & ? & ? & _). split_and!; try done. apply Hw. by exists f, fu.
Qed.

(** The PHP thread neither is nor will be past the compare-and-swap. *)
Lemma no_php_flight s s' : io s' = io s ->
  (forall r pc, php_enqueue_pc (php s) = Some (r, pc) -> before_push pc = false) ->
  (forall r pc, php_enqueue_pc (php s') = Some (r, pc) -> before_push pc = false) ->
  forall t r, in_flight s' t r <-> in_flight s t r.
Proof.
  intros Ei H H' [|x] r; unfold in_flight, pc_of; [|by rewrite Ei].
  split; intros (pc & E & Hb); [apply H' in E|apply H in E]; congruence.
Qed.

(** The lock does not change hands. *)
Lemma mutex_same s s' : (forall t, mutex s = Some t <-> locked s t) -> mutex s' = mutex s -> io s' = io s ->
  php_locked (php s') = php_locked (php s) -> forall t, mutex s' = Some t <-> locked s' t.
Proof. intros H Em Ei Ep [|r]; rewrite Em, H; cbn; [by rewrite Ep|by rewrite Ei]. Qed.

Lemma waking_same s s' : waking s -> fd_counter s' = fd_counter s -> io s' = io s ->
  (php_wakes (php s) = true -> php_wakes (php s') = true) -> waking s'.
Proof. intros [H|[[r H]|H]] Ef Ei Ep; [left; by rewrite Ef|right; left; exists r; by rewrite Ei|right; right; auto]. Qed.

(** [cass_future_set_callback] accepts the callback. *)
Lemma flow_set_callback s s' r f b rl ll kl dl : flow s rl ll kl dl -> php s = PSetCallback r f ->
  futures s !! f = Some {| is_set_ := b; callback_ := None |} -> futures s' = <[f := {| is_set_ := b; callback_ := Some (Some r) |}]> (futures s) ->
  io s' = io s -> fresh_reg s' = fresh_reg s -> regs s' = regs s -> mutex s' = mutex s -> fd_counter s' = fd_counter s ->
  (forall x g, regs s !! x = Some g -> (x < fresh_reg s)%nat) ->
  php s' = (if b then PInCallback r f ECas else PCheck r f true) -> flow s' rl ll kl dl.
Proof.
  intros Hf Ep Hfut Ef Ei En Er Em Efd Hlt Ep'. pose proof Hf as []. unfold php_knows in f_php. rewrite Ep in f_php.
  destruct f_php as (Hr & Hfalse & Hfo & Hio & Hunk).
  assert (forall x, enq s' x = enq s x) as He by (intros x; unfold enq; by rewrite Er).
  assert (forall x, future_of s' x = future_of s x) as Hfo' by (intros x; unfold future_of; by rewrite Er).
  assert (forall x, waiting s' x <-> waiting s x \/ (x = r /\ b = false)) as Hw.
  { intros x. unfold waiting. rewrite Ef. split.
    - intros (f2 & fu2 & H & Hc & Hu). destruct (decide (f2 = f)) as [->|Hne].
      + rewrite lookup_insert_eq in H. simplify_eq. cbn in *. simplify_eq. by right.
      + rewrite lookup_insert_ne in H by done. left. by exists f2, fu2.
    - intros [(f2 & fu2 & H & Hc & Hu)|[-> ->]].
      + exists f2, fu2. split; [|done]. rewrite lookup_insert_ne; [done|]. intros <-. rewrite Hfut in H. by simplify_eq.
      + eexists f, _. split; [apply lookup_insert_eq|done]. }
  assert (forall t x, in_flight s' t x <-> in_flight s t x) as Hfl.
  { apply no_php_flight; [done|by rewrite Ep|]. rewrite Ep'. destruct b; cbn; [by intros ? ? [= <- <-]|done]. }
  constructor; try done.
  - intros x Hx. rewrite He. destruct (f_queue x Hx) as (? & ? & Hn). split_and!; try done. intros t. by rewrite Hfl.
  - intros x Hd. rewrite He. intros Hq. destruct (f_enqueued x Hd Hq) as [?|[t ?]]; [by left|right]. exists t. by apply Hfl.
  - intros t x H%Hfl. rewrite He. by apply (f_flight t).
  - intros t t' x H%Hfl H'%Hfl. by apply (f_flight_one t t' x).
  - intros x. rewrite Ei, He. apply f_io_cas.
  - intros x pc. rewrite Ei. apply f_io_pushed.
  - intros x Hd. rewrite He, Ei, Hw, Ep'. intros Hq. destruct (f_idle x Hd Hq) as [Ha|[?|?]]; [|by auto|by auto].
    rewrite Ep in Ha. cbn in Ha. simplify_eq. destruct b; [by left|]. by right; right; right.
  - intros f2 fu2 x H Hc. rewrite En, Ei, He. rewrite Ef in H. destruct (decide (f2 = f)) as [->|Hne].
    + rewrite lookup_insert_eq in H. simplify_eq. cbn in *. simplify_eq. unfold enq in Hfalse.
      destruct (regs s !! x) as [g|] eqn:Eg; [|done]. split; [by apply (Hlt x g)|].
      split; [intros o; rewrite Hfo'; congruence|]. intros ->. rewrite Ep'. cbn. unfold enq. rewrite Eg. split_and!; done.
    + rewrite lookup_insert_ne in H by done. destruct (f_known f2 fu2 x H Hc) as (H1 & H2 & H3). split; [done|].
      split; [intros o; rewrite Hfo'; apply H2|]. intros Hu. destruct (H3 Hu) as (? & ? & ? & Ha). split_and!; try done.
      rewrite Ep'. rewrite Ep in Ha. destruct b; cbn in *; done.
  - unfold php_knows. rewrite Ep', Ef. destruct b; rewrite ?Hfo', ?Ei, ?He.
    + split_and!; try done. eexists. split; [apply lookup_insert_eq|done].
    + split_and!; try done. eexists. split; [apply lookup_insert_eq|done].
  - apply (mutex_same s); try done. rewrite Ep, Ep'. by destruct b.
  - intros Hne. apply (waking_same s); try done; [by apply f_wakes|]. by rewrite Ep.
Qed.

(** ** Taking registrations out *)

Lemma reg_release_eq r s g : regs s !! r = Some g -> reg_refcount g = 2 -> refs s <> 1 ->
  reg_release r s = set_regs (delete r (regs s)) (set_refs (refs s - 1)
    (match future_obj g with Some o => release_pin o s | None => s end)).
Proof.
  intros Hg H2 Hr. unfold reg_release, with_reg. rewrite Hg, H2. cbn [Z.eqb].
  destruct (future_obj g); unfold reactor_unref; cbn; (destruct (Z.eqb_spec (refs s) 1); [done|]); reflexivity.
Qed.

Lemma unregister_live s rl ll kl dl r : shape s rl ll kl dl -> r ∈ dl ->
  exists m h dl', reg_unregister r s = set_pending (pending s - 1) (set_registered h (set_regs m s)) /\
    same core (regs s) m /\ same next_ready (regs s) m /\ dlist m h dl' /\ dl ≡ₚ r :: dl'.
Proof.
  intros Hs Hr. apply list_elem_of_split in Hr as (l1 & l2 & ->).
  pose proof (s_nodup _ _ _ _ _ Hs) as Hnd. unfold live in Hnd. apply list.NoDup_app in Hnd as (Hnd & _).
  destruct (reg_unregister_ok r s l1 l2 (s_dlist _ _ _ _ _ Hs) Hnd) as (m & h & E & Hc & Hn & Hd).
  exists m, h, (l1 ++ l2). split_and!; try done. symmetry. apply Permutation_middle.
Qed.

Lemma chain_but r m m' l h : same_but r next_ready m m' -> r ∉ l -> chain m h l -> chain m' h l.
Proof. intros H Hr. apply chain_agree. by apply (same_but_agree r). Qed.

Lemma callers_but r m m' (ks : list caller) kl : same_but r next_ready m m' -> r ∉ concat kl ->
  Forall2 (fun k l => chain m (caller_head k) l) ks kl -> Forall2 (fun k l => chain m' (caller_head k) l) ks kl.
Proof.
  intros H Hr Hk. induction Hk as [|k l ks kl Hc _ IH]; [constructor|]. cbn in Hr. rewrite elem_of_app in Hr.
  constructor; [apply (chain_but r m); tauto|apply IH; tauto].
Qed.

Lemma same_same_but {A} (p : reg -> A) r m m' : same p m m' -> same_but r p m m'.
Proof. intros H x _. apply H. Qed.

Lemma same_but_delete {A} (p : reg -> A) r m m' : same_but r p m m' -> same_but r p m (delete r m').
Proof. intros H x Hx. rewrite lookup_delete_ne by congruence. by apply H. Qed.

(** A registration leaves the memory. *)
Lemma shape_delete s s' r rl ll kl dl rl' ll' kl' dl' m : shape s rl ll kl dl -> freed s = false ->
  regs s' = delete r m -> same_but r core (regs s) m -> live s dl ≡ₚ r :: live s' dl' ->
  dlist m (registered s') dl' -> pending s' = zlen dl' -> refs s' = refs s - 1 -> freed s' = freed s -> corrupt s' = corrupt s ->
  fresh_reg s' = fresh_reg s -> fd_counter s' = fd_counter s ->
  chain (regs s') (ready_head s') rl' -> ready_tail s' = last rl' -> chain (regs s') (local_head (php s')) ll' ->
  Forall2 (fun k l => chain (regs s') (caller_head k) l) (callers s') kl' -> shape s' rl' ll' kl' dl'.
Proof.
  intros [] Hfr Er Hcore Hlive Hd Hp Hrefs Ef Ec En Efd Hch Ht Hl Hk.
  assert (NoDup (r :: live s' dl')) as Hnd by (by rewrite <- Hlive).
  assert (r ∉ live s' dl') as Hr by (by apply NoDup_cons_1_1 in Hnd).
  assert (forall x, is_Some (regs s' !! x) <-> x <> r /\ is_Some (regs s !! x)) as Hdom.
  { intros x. rewrite Er. destruct (decide (x = r)) as [->|Hx].
    - rewrite lookup_delete_eq. split; [intros [? ?]; done|]. by intros [? _].
    - rewrite lookup_delete_ne by congruence. specialize (Hcore x Hx). destruct (regs s !! x), (m !! x); try done; split.
      + by intros [? ?].
      + by intros [? [? ?]]. }
  constructor; try done; try congruence.
  - rewrite Er. destruct Hd as [q Hq]. exists q. apply (dseg_agree m); [|done]. intros x Hx. rewrite lookup_delete_ne; [done|].
    intros <-. apply Hr. apply elem_of_app. by left.
  - by apply NoDup_cons_1_2 in Hnd.
  - intros x. rewrite Hdom, s_dom, Hlive, elem_of_cons. split; [by intros [? [?|?]]|]. intros Hx. split; [|by right]. by intros ->.
  - intros x g Hg. assert (x <> r) as Hx by (intros ->; by rewrite Er, lookup_delete_eq in Hg). rewrite Er, lookup_delete_ne in Hg by congruence.
    specialize (Hcore x Hx). rewrite Hg in Hcore. destruct (regs s !! x) as [g0|] eqn:E0; [|done]. cbn in Hcore. injection Hcore as H1 _ H2 _ H3 _.
    destruct (s_regs x g0 E0) as (? & ? & ?). rewrite En. split_and!; [congruence|done|congruence].
  - rewrite Hrefs, s_refs, Hfr, Ef, Hfr. assert (zlen (live s dl) = 1 + zlen (live s' dl')) by (unfold zlen; rewrite Hlive; cbn; lia). lia.
Qed.

(** A registration the PHP thread takes out of the queue. *)
Lemma flow_take s s' r rl ll ll' kl dl dl' kl' : flow s rl (r :: ll) kl dl -> NoDup dl ->
  io s' = io s -> futures s' = futures s -> fresh_reg s' = fresh_reg s -> dl ≡ₚ r :: dl' ->
  same_but r core (regs s) (regs s') -> (forall g, regs s' !! r = Some g -> future_of s r = Some (reg_future g)) ->
  php_enqueue_pc (php s) = None -> php_enqueue_pc (php s') = None -> php_adding (php s) = None -> php_adding (php s') = None ->
  ll' ++ concat kl' = ll ++ concat kl ->
  php_knows s' rl dl' -> (forall t, mutex s' = Some t <-> locked s' t) -> (rl <> [] -> waking s') ->
  flow s' rl ll' kl' dl'.
Proof.
  intros Hf Hndl Ei Ef En Hdl Hcore Hfr Hp Hp' Ha Ha' EQ Hk Hm Hw.
  assert (NoDup (rl ++ r :: ll ++ concat kl)) as Hnd by (apply Hf).
  assert (r ∉ rl ++ ll ++ concat kl /\ NoDup (rl ++ ll ++ concat kl)) as [Hr Hnd'].
  { rewrite <- Permutation_middle in Hnd. split; [by apply NoDup_cons_1_1 in Hnd|by apply NoDup_cons_1_2 in Hnd]. }
  destruct (f_queue _ _ _ _ _ Hf r) as (Hrd & Htrue & Hrf); [apply elem_of_app; right; by left|].
  assert (forall x, x ∈ dl' -> x <> r) as Hne.
  { intros x Hx ->. assert (NoDup (r :: dl')) as H; [|by apply NoDup_cons_1_1 in H].
    by rewrite <- Hdl. }
  apply (flow_gen s s' rl (r :: ll) kl dl); try done.
  - intros x Hx. split; [rewrite Hdl; by right|]. apply core_enq, Hcore. by apply Hne.
  - intros x o Ho. destruct (decide (x = r)) as [->|Hx].
    + unfold future_of in Ho. destruct (regs s' !! r) as [g|] eqn:Eg; [|done]. cbn in Ho. simplify_eq. by apply Hfr.
    + by rewrite <- (core_future s s' x (Hcore x Hx)).
  - by rewrite EQ.
  - intros x. rewrite EQ. cbn [app]. rewrite !elem_of_app, elem_of_cons, elem_of_app. split.
    + intros Hx. assert (x ∈ dl) as Hxd.
      { apply (queue_sub _ _ _ _ _ x Hf). rewrite !elem_of_app, elem_of_cons. tauto. }
      split; [tauto|]. rewrite Hdl, elem_of_cons in Hxd. destruct Hxd as [->|?]; [|done]. exfalso. apply Hr. rewrite !elem_of_app. done.
    + intros [Hx Hxd]. apply Hne in Hxd. tauto.
  - intros x Hxd Hx. rewrite Hdl, elem_of_cons in Hxd. destruct Hxd as [->|?]; [|done]. split; [done|]. split.
    + intros E. destruct (f_io_cas _ _ _ _ _ Hf r E). congruence.
    + intros (f & fu & H & Hc & Hu). destruct (f_known _ _ _ _ _ Hf f fu r H Hc) as (_ & _ & H3). destruct (H3 Hu) as (_ & ? & _). congruence.
  - by rewrite Ha.
  - intros x pc H Hl Hx. apply (f_io_pushed _ _ _ _ _ Hf x pc H Hl Hx).
Qed.

(** A registration goes from the registered ones to those whose callback runs. *)
Lemma shape_call s s' k rl ll kl dl ll' kl' dl' : shape s rl ll kl dl -> freed s = false ->
  same core (regs s) (regs s') -> dl ≡ₚ caller_reg k :: dl' -> callers s' = k :: callers s ->
  dlist (regs s') (registered s') dl' -> pending s' = zlen dl' -> refs s' = refs s -> freed s' = freed s -> corrupt s' = corrupt s ->
  fresh_reg s' = fresh_reg s -> fd_counter s' = fd_counter s ->
  chain (regs s') (ready_head s') rl -> ready_tail s' = ready_tail s -> chain (regs s') (local_head (php s')) ll' ->
  Forall2 (fun k l => chain (regs s') (caller_head k) l) (callers s') kl' -> shape s' rl ll' kl' dl'.
Proof.
  intros [] Hfr Hcore Hdl Ek Hd Hp Hrefs Ef Ec En Efd Hch Ht Hl Hk.
  assert (live s dl ≡ₚ live s' dl') as Hlive by (unfold live; rewrite Ek, Hdl; cbn; apply Permutation_middle).
  constructor; try done; try congruence.
  - by rewrite <- Hlive.
  - intros x. rewrite <- Hlive, <- s_dom. symmetry. by apply (same_is_Some core).
  - intros x g Hg. specialize (Hcore x). rewrite Hg in Hcore. destruct (regs s !! x) as [g0|] eqn:E0; [|done]. cbn in Hcore. injection Hcore as H1 _ H2 _ H3 _.
    destruct (s_regs x g0 E0) as (? & ? & ?). rewrite En. split_and!; [congruence|done|congruence].
  - rewrite Hrefs, s_refs, Hfr, Ef, Hfr. assert (zlen (live s dl) = zlen (live s' dl')) by (unfold zlen; by rewrite Hlive). lia.
Qed.

Lemma perm_zlen {A} (l l' : list A) r : l ≡ₚ r :: l' -> zlen l' = zlen l - 1.
Proof. intros H. unfold zlen. rewrite H. cbn. lia. Qed.

Lemma dl_nodup s rl ll kl dl : shape s rl ll kl dl -> NoDup dl.
Proof. intros Hs. pose proof (s_nodup _ _ _ _ _ Hs) as H. by apply list.NoDup_app in H as (? & _). Qed.

(** The queue and the lists of the callers do not hold [r]. *)
Lemma take_disjoint s rl r ll kl dl : flow s rl (r :: ll) kl dl -> r ∉ rl /\ r ∉ ll /\ r ∉ concat kl.
Proof.
  intros Hf. assert (NoDup (rl ++ r :: ll ++ concat kl)) as Hnd by (apply Hf).
  rewrite <- Permutation_middle in Hnd. apply NoDup_cons_1_1 in Hnd. rewrite !elem_of_app in Hnd. tauto.
Qed.

(** The fields the PHP thread does not write when it takes a registration out. *)
Record fields (s' s : reactor_state) : Prop := {
  e_io : io s' = io s; e_futures : futures s' = futures s; e_fresh : fresh_reg s' = fresh_reg s; e_mutex : mutex s' = mutex s;
  e_counter : fd_counter s' = fd_counter s; e_freed : freed s' = freed s; e_corrupt : corrupt s' = corrupt s
}.

Lemma consume_inv s c r taken out : reactor_inv s -> php s = PConsume c (Some r) taken out -> reactor_inv (consume_turn c r taken out s).
Proof.
  intros (rl & ll & kl & dl & Hs & Hf) Ep.
  pose proof (s_local _ _ _ _ _ Hs) as Hl. rewrite Ep in Hl. cbn in Hl. destruct ll as [|x ll]; [done|]. destruct Hl as ([= <-] & g & Hg & Hl).
  destruct (take_disjoint _ _ _ _ _ _ Hf) as (Hr1 & Hr2 & Hr3).
  assert (r ∈ dl) as Hr by (apply (queue_sub _ _ _ _ _ r Hf), elem_of_app; right; by left).
  pose proof (live_not_freed _ _ _ _ _ _ Hs Hr) as Hfr.
  destruct (s_regs _ _ _ _ _ Hs r g Hg) as (H2 & Hlt & Hobj).
  destruct (unregister_live _ _ _ _ _ r Hs Hr) as (m & h & dl' & Eu & Hcore & Hnext & Hd & Hdl).
  destruct (same_lookup core (regs s) m r g Hcore Hg) as (g' & Hg' & Ecore).
  assert (reg_refcount g' = 2 /\ reg_future g' = reg_future g) as [H2' Hfg] by (unfold core in Ecore; split; congruence).
  assert (refs s <> 1) as Hrefs.
  { rewrite (s_refs _ _ _ _ _ Hs), Hfr. unfold live. rewrite zlen_app. pose proof (perm_zlen _ _ _ Hdl). pose proof (zlen_nonneg dl').
    pose proof (zlen_nonneg (map caller_reg (callers s))). lia. }
  assert (forall p, php_locked p = false -> forall s', mutex s' = mutex s -> io s' = io s -> php s' = p -> forall t, mutex s' = Some t <-> locked s' t) as Hmx.
  { intros p Hp s' Em Ei Ep'. apply (mutex_same s); try done; [apply Hf|]. by rewrite Ep, Ep'. }
  assert (forall s', fd_counter s' = fd_counter s -> io s' = io s -> rl <> [] -> waking s') as Hwk.
  { intros s' Efd Ei Hne. apply (waking_same s); try done; [by apply Hf|]. by rewrite Ep. }
  assert (callers s = [] \/ exists max, c = Poll max) as Hc.
  { pose proof (f_php _ _ _ _ _ Hf) as Hk. unfold php_knows in Hk. rewrite Ep in Hk. destruct c; [right; by eexists|by left]. }
  (* without a callback *)
  assert (forall s1 out', regs s1 = m -> registered s1 = h -> pending s1 = pending s - 1 -> refs s1 = refs s -> freed s1 = freed s -> corrupt s1 = corrupt s ->
    fresh_reg s1 = fresh_reg s -> fd_counter s1 = fd_counter s -> io s1 = io s -> futures s1 = futures s -> ready_head s1 = ready_head s ->
    ready_tail s1 = ready_tail s -> callers s1 = callers s -> mutex s1 = mutex s ->
    reactor_inv (set_php (PConsume c (next_ready g) (taken + 1) out') (reg_release r (change_reg r (set_future_obj None) s1)))) as Hgone.
  { intros s1 out' E1 E2 E3 E4 E5 E6 E7 E8 E9 E10 E11 E12 E13 E14.
    rewrite change_reg_eq by (rewrite E1; by exists g').
    rewrite (reg_release_eq r _ (set_future_obj None g')); [|by cbn; rewrite E1, lookup_alter_eq, Hg'|done|by cbn; rewrite E4].
    cbn [future_obj set_future_obj].
    assert (forall A (p : reg -> A), same p (regs s) m -> same_but r p (regs s) (delete r (alter (set_future_obj None) r m))) as Hbut.
    { intros A p Hp x Hx. rewrite lookup_delete_ne, lookup_alter_ne by congruence. apply Hp. }
    match goal with |- reactor_inv ?x => set (s2 := x) end.
    assert (fields s2 s) as Hfields by (constructor; subst s2; cbn; congruence).
    assert (regs s2 = delete r (alter (set_future_obj None) r m)) as R1 by (subst s2; cbn; by rewrite E1).
    assert (registered s2 = h /\ pending s2 = pending s - 1 /\ refs s2 = refs s - 1 /\ ready_head s2 = ready_head s /\ ready_tail s2 = ready_tail s /\
      callers s2 = callers s /\ php s2 = PConsume c (next_ready g) (taken + 1) out') as (R2 & R3 & R4 & R5 & R6 & R7 & R8)
      by (subst s2; cbn; rewrite E4; split_and!; congruence).
    clearbody s2. destruct Hfields. exists rl, ll, kl, dl'. split.
    - apply (shape_delete s s2 r rl (r :: ll) kl dl rl ll kl dl' (alter (set_future_obj None) r m)); try done; rewrite ?R1, ?R2, ?R3, ?R5, ?R6, ?R7, ?R8.
      + intros x Hx. rewrite lookup_alter_ne by congruence. apply Hcore.
      + unfold live. by rewrite R7, Hdl.
      + destruct Hd as [q Hq]. exists q. apply (dseg_agree m); [|done]. apply same_agree. by apply same_alter.
      + rewrite (s_pending _ _ _ _ _ Hs). symmetry. by apply (perm_zlen _ _ r).
      + apply (chain_but r (regs s)); [by apply Hbut|done|apply Hs].
      + apply Hs.
      + by apply (chain_but r (regs s)); [by apply Hbut|..].
      + apply (callers_but r (regs s)); [by apply Hbut|done|apply Hs].
    - apply (flow_take s s2 r rl ll ll kl dl dl' kl); try done; rewrite ?R1, ?R8, ?Ep; try done.
      + by apply (dl_nodup _ _ _ _ _ Hs).
      + by apply Hbut.
      + intros g1. by rewrite lookup_delete_eq.
      + unfold php_knows. rewrite R8, R7. destruct c; [done|]. by destruct Hc as [?|[? ?]].
      + by apply (Hmx (php s2)); [rewrite R8|..].
      + by apply Hwk. }
  unfold consume_turn, with_reg. rewrite Hg, Hobj, Eu. destruct c as [max|d].
  - destruct (fcc g).
    + match goal with |- reactor_inv ?x => set (s2 := x) end.
      assert (fields s2 s) as Hfields by (constructor; by subst s2).
      set (k := {| caller_reg := r; caller_head := next_ready g; caller_taken := taken; caller_max := max; caller_out := out |}) in *.
      assert (regs s2 = m /\ registered s2 = h /\ pending s2 = pending s - 1 /\ refs s2 = refs s /\ ready_head s2 = ready_head s /\ ready_tail s2 = ready_tail s /\
        callers s2 = k :: callers s /\ php s2 = PUser) as (R1 & R2 & R3 & R4 & R5 & R6 & R7 & R8) by done.
      clearbody s2. destruct Hfields. exists rl, [], (ll :: kl), dl'. split.
      * apply (shape_call s s2 k rl (r :: ll) kl dl [] (ll :: kl) dl'); try done; rewrite ?R1, ?R2, ?R3, ?R5, ?R6, ?R7, ?R8; try done.
        -- rewrite (s_pending _ _ _ _ _ Hs). symmetry. by apply (perm_zlen _ _ r).
        -- apply (chain_agree (regs s)); [by apply same_agree|apply Hs].
        -- constructor; [cbn; by apply (chain_agree (regs s)); [apply same_agree|]|].
           apply (callers_but r (regs s)); [by apply same_same_but|done|apply Hs].
      * apply (flow_take s s2 r rl ll [] kl dl dl' (ll :: kl)); try done; rewrite ?R1, ?R8, ?Ep; try done.
        -- by apply (dl_nodup _ _ _ _ _ Hs).
        -- by apply same_same_but.
        -- intros g1 E. unfold future_of. rewrite Hg. cbn. congruence.
        -- unfold php_knows. by rewrite R8.
        -- by apply (Hmx (php s2)); [rewrite R8|..].
        -- by apply Hwk.
    + apply Hgone; done.
  - apply Hgone; done.
Qed.

(** ** Steps that leave the lists alone *)

Record still (s' s : reactor_state) : Prop := {
  q_regs : regs s' = regs s; q_fresh : fresh_reg s' = fresh_reg s; q_futures : futures s' = futures s; q_refs : refs s' = refs s;
  q_head : ready_head s' = ready_head s; q_tail : ready_tail s' = ready_tail s; q_registered : registered s' = registered s;
  q_pending : pending s' = pending s; q_freed : freed s' = freed s; q_io : io s' = io s; q_callers : callers s' = callers s;
  q_corrupt : corrupt s' = corrupt s
}.

Lemma lock_taken s s' : (forall t, mutex s = Some t <-> locked s t) -> mutex s = None -> mutex s' = Some Php -> io s' = io s ->
  php_locked (php s') = true -> forall t, mutex s' = Some t <-> locked s' t.
Proof.
  intros H En Em Ei Ep [|r]; rewrite Em; cbn; [by rewrite Ep|]. rewrite Ei. split; [done|].
  intros Hl. apply (H (Io r)) in Hl. congruence.
Qed.

Lemma lock_left s s' : (forall t, mutex s = Some t <-> locked s t) -> php_locked (php s) = true -> mutex s' = None -> io s' = io s ->
  php_locked (php s') = false -> forall t, mutex s' = Some t <-> locked s' t.
Proof.
  intros H Hl Em Ei Ep t. rewrite Em. assert (mutex s = Some Php) as E by (by apply (H Php)). destruct t as [|r]; cbn; [by rewrite Ep|].
  rewrite Ei. split; [done|]. intros Hr. apply (H (Io r)) in Hr. congruence.
Qed.

(** The PHP thread moves between program points outside [reg_enqueue]. *)
Lemma quiet_inv s s' rl ll kl dl : shape s rl ll kl dl -> flow s rl ll kl dl -> still s' s -> freed s = false ->
  local_head (php s') = local_head (php s) -> php_enqueue_pc (php s) = None -> php_enqueue_pc (php s') = None ->
  php_adding (php s) = None -> php_adding (php s') = None -> php_knows s' rl dl ->
  (forall t, mutex s' = Some t <-> locked s' t) -> (rl <> [] -> waking s') -> 0 <= fd_counter s' -> reactor_inv s'.
Proof.
  intros Hs Hf [] Hfr El Hp Hp' Ha Ha' Hk Hm Hw Hc. exists rl, ll, kl, dl. split.
  - apply (shape_frame s); try done. congruence.
  - apply (flow_move s); try done.
    + apply no_php_flight; [done|..]; [by rewrite Hp|by rewrite Hp'].
    + by rewrite Ha.
    + by rewrite Ha'.
Qed.

Lemma busy_not_freed s rl ll kl dl : shape s rl ll kl dl -> php s <> PUser -> freed s = false.
Proof. intros Hs Hp. destruct (freed s) eqn:E; [|done]. by destruct (s_freed _ _ _ _ _ Hs E) as (_ & _ & ?). Qed.

(** The first registration is registered. *)
Lemma registered_in s rl ll kl dl r : shape s rl ll kl dl -> registered s = Some r -> r ∈ dl.
Proof.
  intros Hs E. destruct (s_dlist _ _ _ _ _ Hs) as [q H]. rewrite E in H. destruct dl; cbn in H; destruct H as [E' _]; [done|].
  injection E' as ->. by left.
Qed.

Lemma registered_none s rl ll kl dl : shape s rl ll kl dl -> registered s = None -> dl = [].
Proof. intros Hs E. destruct (s_dlist _ _ _ _ _ Hs) as [q H]. rewrite E in H. destruct dl; [done|]. cbn in H. by destruct H. Qed.

Lemma next_reg_in s rl ll kl dl r g r' : shape s rl ll kl dl -> r ∈ dl -> regs s !! r = Some g -> next_reg g = Some r' -> r' ∈ dl.
Proof.
  intros Hs Hr Hg E. destruct (s_dlist _ _ _ _ _ Hs) as [q H]. apply list_elem_of_split in Hr as (l1 & l2 & ->).
  apply dseg_app in H as (j & k & _ & H2). cbn in H2. destruct H2 as (-> & g' & Hg' & _ & H2). simplify_eq.
  rewrite E in H2. destruct l2 as [|x l2]; cbn in H2; destruct H2 as [E' _]; [done|]. injection E' as ->.
  apply elem_of_app. right. right. by left.
Qed.

(** The head of the loop of [reactor_drain] from a state with no lock and no local list. *)
Lemma drain_loop_inv s0 s rl ll kl dl d : shape s0 rl ll kl dl -> flow s0 rl ll kl dl -> still s s0 -> freed s0 = false ->
  local_head (php s0) = None -> php_enqueue_pc (php s0) = None -> php_adding (php s0) = None -> callers s0 = [] ->
  (forall p, php_locked p = false -> forall t, mutex s = Some t <-> locked (set_php p s) t) ->
  (rl <> [] -> forall p, waking (set_php p s)) -> 0 <= fd_counter s -> reactor_inv (drain_loop d s).
Proof.
  intros Hs Hf [] Hfr El Hp Ha Hc Hm Hw Hfd. unfold drain_loop. destruct (registered s) as [r|] eqn:Er.
  - apply (quiet_inv s0 _ rl ll kl dl); try done; [constructor; cbn; congruence|..].
    + unfold php_knows. cbn. split; [|congruence]. apply (registered_in _ _ _ _ _ _ Hs). congruence.
    + by apply Hm.
    + intros Hne. by apply Hw.
  - apply (quiet_inv s0 _ rl ll kl dl); try done; [constructor; cbn; congruence|..].
    + unfold php_knows. cbn. split; [|congruence]. apply (registered_none _ _ _ _ _ Hs). congruence.
    + by apply Hm.
    + intros Hne. by apply Hw.
Qed.

Lemma waking_any s s' : waking s -> php_wakes (php s) = false -> fd_counter s' = fd_counter s -> io s' = io s -> waking s'.
Proof. intros H Hp. intros. apply (waking_same s); try done. congruence. Qed.

(** An unlocked program point to another. *)
Lemma unlocked_any s s' rl ll kl dl : flow s rl ll kl dl -> php_locked (php s) = false -> mutex s' = mutex s -> io s' = io s ->
  php_locked (php s') = false -> forall t, mutex s' = Some t <-> locked s' t.
Proof. intros Hf Hl Em Ei Hl'. apply (mutex_same s); try done; [apply Hf|congruence]. Qed.

(** [reactor_drain] waits for a registration. *)
Lemma wait_inv s s' o d : reactor_inv s -> php s = PWait o d -> php_step s = Some s' -> reactor_inv s'.
Proof.
  intros (rl & ll & kl & dl & Hs & Hf) Ep H. unfold php_step in H. rewrite Ep in H.
  pose proof (f_php _ _ _ _ _ Hf) as Hk. unfold php_knows in Hk. rewrite Ep in Hk.
  assert (forall p, local_head p = None -> php_enqueue_pc p = None -> php_adding p = None -> php_locked p = false ->
    php_knows (set_php p s) rl dl -> reactor_inv (set_php p s)) as Hgo.
  { intros p H1 H2 H3 H4 H5. apply (quiet_inv s _ rl ll kl dl); try done; rewrite ?Ep; try done.
    - apply (busy_not_freed _ _ _ _ _ Hs). by rewrite Ep.
    - apply (unlocked_any s _ _ _ _ _ Hf); try done. by rewrite Ep.
    - intros Hne. apply (waking_any s); try done; [by apply Hf|by rewrite Ep].
    - apply Hs. }
  destruct o as [r|]; [|injection H as <-; by apply Hgo].
  destruct Hk as [Hr Hc]. destruct (live_reg _ _ _ _ _ _ Hs Hr) as [g Hg]. rewrite Hg in H.
  assert (s' = set_php (PWait (next_reg g) d) s) as -> by (destruct (reg_future g); [destruct (future_ready _ _)|]; congruence).
  apply Hgo; try done. unfold php_knows. cbn. destruct (next_reg g) as [r'|] eqn:E; [|done].
  split; [|done]. by apply (next_reg_in _ _ _ _ _ r g r' Hs).
Qed.

(** [reactor_drain] and [poll] before the queue is taken. *)
Lemma fetch_inv s s' c : reactor_inv s -> php s = PDrain c \/ php s = PSplice c -> php_step s = Some s' -> reactor_inv s'.
Proof.
  intros (rl & ll & kl & dl & Hs & Hf) Ep H. unfold php_step in H.
  assert (freed s = false) as Hfr by (apply (busy_not_freed _ _ _ _ _ Hs); by destruct Ep as [->| ->]).
  pose proof (f_php _ _ _ _ _ Hf) as Hk. unfold php_knows in Hk. pose proof (s_counter _ _ _ _ _ Hs).
  destruct Ep as [Ep|Ep]; rewrite Ep in H, Hk.
  - destruct (0 <? fd_counter s); injection H as <-; (apply (quiet_inv s _ rl ll kl dl); try done; try (cbn; rewrite ?Ep; done)).
    + unfold php_knows. cbn. by rewrite Ep.
    + apply (unlocked_any s _ _ _ _ _ Hf); try done; cbn; by rewrite Ep.
    + intros _. right; right. cbn. by rewrite Ep.
    + apply (unlocked_any s _ _ _ _ _ Hf); try done; cbn; by rewrite Ep.
    + intros _. by right; right.
  - unfold php_lock in H. destruct (mutex s) eqn:Em; [done|]. injection H as <-.
    apply (quiet_inv s _ rl ll kl dl); try done; rewrite ?Ep; try done.
    + apply (lock_taken s); try done. apply Hf.
    + intros _. by right; right.
Qed.

(** The queue has been taken. *)
Lemma splice_unlock_inv s s' c h : reactor_inv s -> php s = PSpliceUnlock c h -> php_step s = Some s' -> reactor_inv s'.
Proof.
  intros (rl & ll & kl & dl & Hs & Hf) Ep H. unfold php_step in H. rewrite Ep in H.
  assert (freed s = false) as Hfr by (apply (busy_not_freed _ _ _ _ _ Hs); by rewrite Ep).
  pose proof (f_php _ _ _ _ _ Hf) as Hk. unfold php_knows in Hk. rewrite Ep in Hk. pose proof (s_counter _ _ _ _ _ Hs).
  assert (forall p, php_locked p = false -> forall t, None = Some t <-> locked (set_php p (set_mutex None s)) t) as Hm.
  { intros p Hp. apply (lock_left s (set_php p (set_mutex None s))); try done; [apply Hf|by rewrite Ep]. }
  assert (rl <> [] -> forall p, waking (set_php p (set_mutex None s))) as Hw.
  { intros Hne p. apply (waking_any s); try done; [by apply Hf|by rewrite Ep]. }
  assert (php_knows (set_php (PConsume c h 0 []) (set_mutex None s)) rl dl -> reactor_inv (set_php (PConsume c h 0 []) (set_mutex None s))) as Hgo.
  { intros Hkn. apply (quiet_inv s _ rl ll kl dl); try done; rewrite ?Ep; try done; [by apply Hm|by auto]. }
  destruct c as [max|d]; [|destruct h as [r|]]; injection H as <-; try by apply Hgo.
  apply (drain_loop_inv s (set_mutex None s) rl ll kl dl); try done; by rewrite Ep.
Qed.

(** [reactor_consume] ends. *)
Lemma after_consume_inv s0 s c head thrown out rl ll kl dl : shape s0 rl ll kl dl -> flow s0 rl ll kl dl -> still s s0 -> freed s0 = false ->
  local_head (php s0) = head -> php_enqueue_pc (php s0) = None -> php_adding (php s0) = None -> php_locked (php s0) = false -> php_wakes (php s0) = false ->
  mutex s = mutex s0 -> fd_counter s = fd_counter s0 ->
  match c with Discard _ => head = None /\ callers s0 = [] | Poll _ => True end -> reactor_inv (after_consume c head thrown out s).
Proof.
  intros Hs Hf Hq Hfr Hl Hp Ha Hlk Hwk Em Efd Hc. pose proof Hq as [].
  assert (0 <= fd_counter s) as Hfd by (rewrite Efd; apply Hs).
  assert (forall p, local_head p = head -> php_enqueue_pc p = None -> php_adding p = None -> php_locked p = false ->
    php_knows (set_php p s) rl dl -> reactor_inv (set_php p s)) as Hgo.
  { intros p H1 H2 H3 H4 H5. apply (quiet_inv s0 _ rl ll kl dl); try done; [cbn; congruence|..].
    - by apply (unlocked_any s0 _ _ _ _ _ Hf).
    - intros Hne. apply (waking_any s0); try done. by apply Hf. }
  unfold after_consume. destruct c as [max|d]; [destruct head; by apply Hgo|]. destruct Hc as [-> Hc].
  apply (drain_loop_inv s0 s rl ll kl dl); try done.
  - intros p H4. by apply (unlocked_any s0 (set_php p s) _ _ _ _ Hf).
  - intros Hne p. apply (waking_any s0); try done. by apply Hf.
Qed.

Lemma consume_step_inv s s' c head taken out : reactor_inv s -> php s = PConsume c head taken out -> php_step s = Some s' -> reactor_inv s'.
Proof.
  intros Hi Ep H. unfold php_step in H. rewrite Ep in H.
  assert (head = None \/ (exists max, c = Poll max) \/ (consumer_max c =? 0) || (taken <? consumer_max c) = true) as Hc
    by (destruct c; [right; left; by eexists|by right; right]).
  assert (match c with Discard _ => head = None | Poll _ => True end -> reactor_inv (after_consume c head false out s)) as Hend.
  { intros Hd. destruct Hi as (rl & ll & kl & dl & Hs & Hf). pose proof (f_php _ _ _ _ _ Hf) as Hk. unfold php_knows in Hk. rewrite Ep in Hk.
    apply (after_consume_inv s s c head false out rl ll kl dl); try done; rewrite ?Ep; try done.
    - apply (busy_not_freed _ _ _ _ _ Hs). by rewrite Ep.
    - by destruct c. }
  destruct head as [r|]; [|injection H as <-; apply Hend; by destruct c].
  destruct (_ || _) eqn:E; injection H as <-; [by apply consume_inv|]. apply Hend. by destruct c.
Qed.

Lemma local_nil s rl ll kl dl : shape s rl ll kl dl -> local_head (php s) = None -> ll = [].
Proof. intros Hs E. pose proof (s_local _ _ _ _ _ Hs) as H. rewrite E in H. destruct ll; [done|]. cbn in H. by destruct H. Qed.

Lemma php_holds s rl ll kl dl r pc : flow s rl ll kl dl -> php_locked (php s) = true -> io s !! r = Some pc -> holds_lock pc = false.
Proof.
  intros Hf Hp Hio. destruct (holds_lock pc) eqn:E; [|done]. assert (mutex s = Some Php) as E1 by (by apply (f_mutex _ _ _ _ _ Hf)).
  assert (mutex s = Some (Io r)) as E2 by (apply (f_mutex _ _ _ _ _ Hf); by exists pc). congruence.
Qed.

(** The lists are rearranged by the PHP thread, which holds the lock. *)
Lemma flow_queue s s' rl ll kl dl rl' ll' : flow s rl ll kl dl ->
  io s' = io s -> futures s' = futures s -> fresh_reg s' = fresh_reg s -> same core (regs s) (regs s') -> mutex s' = mutex s ->
  rl' ++ ll' ≡ₚ rl ++ ll -> php_locked (php s) = true -> php_locked (php s') = true ->
  php_enqueue_pc (php s) = None -> php_enqueue_pc (php s') = None -> php_adding (php s) = None -> php_adding (php s') = None ->
  php_knows s' rl' dl -> (rl' <> [] -> waking s') -> flow s' rl' ll' kl dl.
Proof.
  intros Hf Ei Ef En Hcore Em Hperm Hl Hl' Hp Hp' Ha Ha' Hk Hw.
  assert (rl' ++ ll' ++ concat kl ≡ₚ rl ++ ll ++ concat kl) as HP by (by rewrite !app_assoc, Hperm).
  apply (flow_gen s s' rl ll kl dl); try done.
  - intros x Hx. split; [done|]. apply core_enq, Hcore.
  - intros x o Ho. by rewrite <- (core_future s s' x (Hcore x)).
  - rewrite HP. apply Hf.
  - intros x. rewrite HP. split; [|by intros [? _]]. intros Hx. split; [done|]. by apply (queue_sub _ _ _ _ _ x Hf).
  - by rewrite Ha.
  - apply (mutex_same s); try done; [apply Hf|congruence].
  - intros r pc Hio Hh _. rewrite (php_holds _ _ _ _ _ r pc Hf Hl Hio) in Hh. done.
Qed.

Lemma take_inv s s' c : reactor_inv s -> php s = PTake c -> php_step s = Some s' -> reactor_inv s'.
Proof.
  intros (rl & ll & kl & dl & Hs & Hf) Ep H. unfold php_step in H. rewrite Ep in H. injection H as <-.
  assert (ll = []) as -> by (apply (local_nil _ _ _ _ _ Hs); by rewrite Ep).
  assert (freed s = false) as Hfr by (apply (busy_not_freed _ _ _ _ _ Hs); by rewrite Ep).
  pose proof (f_php _ _ _ _ _ Hf) as Hk. unfold php_knows in Hk. rewrite Ep in Hk.
  exists [], rl, kl, dl. split.
  - apply (shape_core s _ rl [] kl dl); try done; [congruence|apply Hs..].
  - apply (flow_queue s _ rl [] kl dl); try done; rewrite ?Ep; try done. by rewrite app_nil_r.
Qed.

Lemma nodup_size (m : gmap nat reg) l : NoDup l -> (forall x, x ∈ l -> is_Some (m !! x)) -> (length l <= size m)%nat.
Proof.
  intros Hnd Hin. rewrite <- size_dom, <- (size_list_to_set (C := gset nat) l Hnd). apply subseteq_size.
  intros x Hx. apply elem_of_dom, Hin. by apply elem_of_list_to_set in Hx.
Qed.

(** What was not consumed goes back to the front of the queue. *)
Lemma requeue_link_inv s s' h thrown out : reactor_inv s -> php s = PRequeueLink h thrown out -> php_step s = Some s' -> reactor_inv s'.
Proof.
  intros (rl & ll & kl & dl & Hs & Hf) Ep H. unfold php_step in H. rewrite Ep in H. injection H as <-.
  assert (freed s = false) as Hfr by (apply (busy_not_freed _ _ _ _ _ Hs); by rewrite Ep).
  pose proof (s_local _ _ _ _ _ Hs) as Hl. rewrite Ep in Hl. cbn in Hl.
  destruct (snoc_cases ll) as [->|(l & t & ->)]; [done|].
  pose proof (f_nodup _ _ _ _ _ Hf) as Hnd. apply list.NoDup_app in Hnd as (Hn1 & Hd1 & Hnd). apply list.NoDup_app in Hnd as (Hn2 & Hd2 & _).
  assert (forall x, x ∈ l ++ [t] -> is_Some (regs s !! x)) as Hlive.
  { intros x Hx. apply (live_reg _ _ _ _ _ x Hs), (queue_sub _ _ _ _ _ x Hf). rewrite !elem_of_app in *. tauto. }
  assert (t ∈ l ++ [t]) as Ht by (apply elem_of_app; right; by left). destruct (Hlive t Ht) as [gt Hgt].
  assert (last_ready (S (size (regs s))) h s = Some t) as Elast.
  { apply (chain_last (regs s) l); [done|done|]. pose proof (nodup_size (regs s) (l ++ [t]) Hn2 Hlive) as Hz. rewrite length_app in Hz. cbn in Hz. lia. }
  unfold requeue_front. rewrite Elast. rewrite change_reg_eq by done.
  match goal with |- reactor_inv ?x => set (s2 := x) end.
  set (m := alter (set_next_ready (ready_head s)) t (regs s)).
  assert (same core (regs s) m /\ same links (regs s) m) as [Hcore Hlinks] by (split; by apply same_alter).
  assert (regs s2 = m /\ ready_head s2 = Some h /\ ready_tail s2 = last ((l ++ [t]) ++ rl) /\ php s2 = PRequeueSignal thrown out) as (R1 & R2 & R3 & R4).
  { subst s2. cbn [ready_tail set_ready_head set_regs]. rewrite (s_tail _ _ _ _ _ Hs).
    destruct (snoc_cases rl) as [->|(rl' & t' & ->)].
    - cbn. by rewrite app_nil_r, last_snoc.
    - rewrite !app_assoc, !last_snoc. cbn. rewrite (s_tail _ _ _ _ _ Hs), last_snoc. done. }
  assert (still s2 (set_regs m (set_ready_head (ready_head s2) (set_ready_tail (ready_tail s2) s))) /\ mutex s2 = mutex s /\ fd_counter s2 = fd_counter s) as (Hstill & Em & Efd).
  { subst s2. cbn [ready_tail set_ready_head set_regs]. destruct (ready_tail s); done. }
  clearbody s2. destruct Hstill. cbn in *.
  assert (forall l2 h2, (forall x, x ∈ l2 -> x ∉ l ++ [t]) -> chain (regs s) h2 l2 -> chain m h2 l2) as Hother.
  { intros l2 h2 Hx. apply chain_agree. intros x Hin. subst m. rewrite lookup_alter_ne; [done|]. intros <-. by apply (Hx t). }
  exists ((l ++ [t]) ++ rl), [], kl, dl. split.
  - apply (shape_core s s2 rl (l ++ [t]) kl dl); try done; rewrite ?R1, ?R2, ?R3, ?R4; try done.
    + by apply same_body.
    + congruence.
    + rewrite Efd. apply Hs.
    + subst m. rewrite <- (ReactorInv.insert_alter (set_next_ready (ready_head s)) t gt) by done. apply chain_join; try done; [apply Hs|].
      intros x Hx Hin. apply (Hd1 x Hin). apply elem_of_app. by left.
    + pose proof (s_callers _ _ _ _ _ Hs) as Hc. assert (forall x, x ∈ concat kl -> x ∉ l ++ [t]) as Hdis by (intros x Hx Hin; by apply (Hd2 x Hin)).
      clear -Hc Hother Hdis. induction Hc as [|k l1 ks ls Hkl _ IH]; constructor; [|apply IH; intros x Hx; apply Hdis; cbn; apply elem_of_app; by right].
      apply Hother; [|done]. intros x Hx. apply Hdis. cbn. apply elem_of_app. by left.
  - apply (flow_queue s s2 rl (l ++ [t]) kl dl); try done; rewrite ?R1, ?R4, ?Ep; try done.
    + rewrite app_nil_r. apply Permutation_app_comm.
    + unfold php_knows. by rewrite R4.
    + intros _. right; right. by rewrite R4.
Qed.

Lemma requeue_inv s s' : reactor_inv s ->
  match php s with PRequeue _ _ _ | PRequeueSignal _ _ | PRequeueUnlock _ _ => True | _ => False end -> php_step s = Some s' -> reactor_inv s'.
Proof.
  intros (rl & ll & kl & dl & Hs & Hf) Hp H. unfold php_step in H.
  assert (freed s = false) as Hfr by (apply (busy_not_freed _ _ _ _ _ Hs); by destruct (php s)).
  pose proof (s_counter _ _ _ _ _ Hs) as Hfd. pose proof (f_mutex _ _ _ _ _ Hf) as Hm.
  destruct (php s) eqn:Ep; try done.
  - unfold php_lock in H. destruct (mutex s) eqn:Em; [done|]. injection H as <-.
    apply (quiet_inv s _ rl ll kl dl); try done; rewrite ?Ep; try done.
    + apply (lock_taken s); try done; apply Hf.
    + intros Hne. apply (waking_any s); try done; [by apply Hf|by rewrite Ep].
  - injection H as <-. apply (quiet_inv s _ rl ll kl dl); try done; rewrite ?Ep; try done.
    + apply (mutex_same s); try done. by rewrite Ep.
    + intros Hne. left. cbn. lia.
    + cbn. lia.
  - injection H as <-. apply (quiet_inv s _ rl ll kl dl); try done; rewrite ?Ep; try done.
    + apply (lock_left s); try done. by rewrite Ep.
    + intros Hne. apply (waking_any s); try done; [by apply Hf|by rewrite Ep].
Qed.

(** ** The rest of [add] *)

Lemma set_callback_inv s s' r f : reactor_inv s -> php s = PSetCallback r f -> php_step s = Some s' -> reactor_inv s'.
Proof.
  intros (rl & ll & kl & dl & Hs & Hf) Ep H. unfold php_step in H. rewrite Ep in H.
  assert (freed s = false) as Hfr by (apply (busy_not_freed _ _ _ _ _ Hs); by rewrite Ep).
  pose proof (f_php _ _ _ _ _ Hf) as Hk. unfold php_knows in Hk. rewrite Ep in Hk.
  destruct (futures s !! f) as [[b [cb|]]|] eqn:Efu; [| |done]; cbn in H; injection H as <-; exists rl, ll, kl, dl.
  - rewrite insert_id by done. split.
    + apply (shape_frame s); try done; [by rewrite Ep|congruence|apply Hs].
    + apply (flow_move s); try done; rewrite ?Ep; try done.
      * apply no_php_flight; [done|by rewrite Ep|done].
      * intros x Hw E. cbn in E. simplify_eq. apply (adding_not_waiting _ _ _ _ _ x Hf); [by rewrite Ep|done].
      * by destruct Hk as (? & ? & ? & ? & ?).
      * apply (unlocked_any s _ _ _ _ _ Hf); try done. by rewrite Ep.
      * intros Hne. apply (waking_any s); try done; [by apply Hf|by rewrite Ep].
  - split.
    + apply (shape_frame s); try done; [rewrite Ep; by destruct b|congruence|apply Hs].
    + apply (flow_set_callback s _ r f b rl ll kl dl); try done. intros x g Hg. by apply (s_regs _ _ _ _ _ Hs x g).
Qed.

(** The driver has refused the callback and the future is pending: the registration is undone. *)
Lemma add_fails_inv s r f : reactor_inv s -> php s = PCheck r f false -> reactor_inv (add_fails r s).
Proof.
  intros (rl & ll & kl & dl & Hs & Hf) Ep. pose proof (f_php _ _ _ _ _ Hf) as Hk. unfold php_knows in Hk. rewrite Ep in Hk.
  destruct Hk as (Hr & Hfut & Hfalse & Hio & Hunk). destruct (live_reg _ _ _ _ _ _ Hs Hr) as [g Hg].
  assert (freed s = false) as Hfr by (apply (busy_not_freed _ _ _ _ _ Hs); by rewrite Ep).
  destruct (s_regs _ _ _ _ _ Hs r g Hg) as (H2 & Hlt & Hobj).
  assert (ll = []) as -> by (apply (local_nil _ _ _ _ _ Hs); by rewrite Ep).
  unfold add_fails, with_reg. rewrite Hg, Hobj.
  set (s1 := record_event (Dropped (reg_slot g)) (change_object (reg_slot g) (set_reactor_reg None) s)).
  assert (shape s1 rl [] kl dl) as Hs1 by (apply (shape_frame s); try done; [congruence|apply Hs]).
  destruct (unregister_live _ _ _ _ _ r Hs1 Hr) as (m & h & dl' & Eu & Hcore & Hnext & Hd & Hdl). rewrite Eu.
  destruct (same_lookup core (regs s1) m r g Hcore Hg) as (g' & Hg' & Ecore).
  assert (refs s <> 1) as Hrefs.
  { rewrite (s_refs _ _ _ _ _ Hs), Hfr. unfold live. rewrite zlen_app. pose proof (perm_zlen _ _ _ Hdl). pose proof (zlen_nonneg dl').
    pose proof (zlen_nonneg (map caller_reg (callers s))). lia. }
  rewrite (reg_release_eq r _ g'); [|done|unfold core in Ecore; congruence|done].
  match goal with |- reactor_inv ?x => set (s2 := x) end.
  assert (fields s2 s) as Hfields by (constructor; subst s2; by destruct (future_obj g')).
  assert (regs s2 = delete r m) as R1 by (subst s2; by destruct (future_obj g')).
  assert (registered s2 = h /\ pending s2 = pending s - 1 /\ refs s2 = refs s - 1 /\ ready_head s2 = ready_head s /\ ready_tail s2 = ready_tail s /\
    callers s2 = callers s /\ php s2 = PUser) as (R2 & R3 & R4 & R5 & R6 & R7 & R8) by (subst s2; by destruct (future_obj g')).
  assert (forall A (p : reg -> A), same p (regs s) m -> same_but r p (regs s) (delete r m)) as Hbut
    by (intros A p Hp; apply same_but_delete; by apply same_same_but).
  clearbody s2. destruct Hfields.
  assert (r ∉ rl ++ [] ++ concat kl) as Hrq by (intros Hin; destruct (f_queue _ _ _ _ _ Hf r Hin) as (_ & ? & _); congruence).
  rewrite !elem_of_app in Hrq.
  assert (forall x, x ∈ dl' -> x <> r) as Hne.
  { intros x Hx ->. assert (NoDup (r :: dl')) as H by (rewrite <- Hdl; apply (dl_nodup _ _ _ _ _ Hs)). by apply NoDup_cons_1_1 in H. }
  exists rl, [], kl, dl'. split.
  - apply (shape_delete s s2 r rl [] kl dl rl [] kl dl' m); try done; rewrite ?R1, ?R2, ?R3, ?R5, ?R6, ?R7, ?R8; try done.
    + by apply same_same_but.
    + unfold live. by rewrite R7, Hdl.
    + rewrite (s_pending _ _ _ _ _ Hs). symmetry. by apply (perm_zlen _ _ r).
    + apply (chain_but r (regs s)); [by apply Hbut|tauto|apply Hs].
    + apply Hs.
    + apply (callers_but r (regs s)); [by apply Hbut|tauto|apply Hs].
  - apply (flow_gen s s2 rl [] kl dl); try done; rewrite ?R8, ?Ep; try done.
    + intros x Hx. split; [rewrite Hdl; by right|]. apply core_enq. rewrite R1. apply Hbut; [done|by apply Hne].
    + intros x o Ho. destruct (decide (x = r)) as [->|Hx]; [unfold future_of in Ho; by rewrite R1, lookup_delete_eq in Ho|].
      rewrite <- (core_future s s2 x); [done|]. rewrite R1. by apply Hbut.
    + apply Hf.
    + intros x. split; [|by intros [? _]]. intros Hx. split; [done|]. pose proof (queue_sub _ _ _ _ _ x Hf Hx) as Hxd.
      rewrite Hdl, elem_of_cons in Hxd. destruct Hxd as [->|]; [|done]. rewrite !elem_of_app in Hx. tauto.
    + intros x Hxd Hx. rewrite Hdl, elem_of_cons in Hxd. destruct Hxd as [->|]; [|done]. split_and!.
      * intros t Ht. destruct (f_flight _ _ _ _ _ Hf t r Ht). congruence.
      * by rewrite Hio.
      * intros (f' & fu & H & Hc & _). by apply (Hunk f' fu).
    + intros x [= <-] Hx. by apply Hne in Hx.
    + unfold php_knows. by rewrite R8.
    + apply (unlocked_any s _ _ _ _ _ Hf); try done; rewrite ?R8, ?Ep; done.
    + intros Hne'. apply (waking_any s); try done; [by apply Hf|by rewrite Ep].
    + apply Hf.
Qed.

Lemma check_inv s s' r f ok : reactor_inv s -> overtakes s = false -> php s = PCheck r f ok -> php_step s = Some s' -> reactor_inv s'.
Proof.
  intros Hi Ho Ep H. unfold php_step in H. rewrite Ep in H.
  destruct (negb ok && negb (future_ready f s)) eqn:E1.
  { destruct ok; [done|]. injection H as <-. by apply (add_fails_inv s r f). }
  destruct Hi as (rl & ll & kl & dl & Hs & Hf). pose proof (f_php _ _ _ _ _ Hf) as Hk. unfold php_knows in Hk. rewrite Ep in Hk.
  assert (freed s = false) as Hfr by (apply (busy_not_freed _ _ _ _ _ Hs); by rewrite Ep).
  assert (forall p, php_locked p = false -> (forall t, mutex (set_php p s) = Some t <-> locked (set_php p s) t)) as Hm
    by (intros p Hp; apply (unlocked_any s _ _ _ _ _ Hf); try done; by rewrite Ep).
  assert (forall p, rl <> [] -> waking (set_php p s)) as Hw by (intros p Hne; apply (waking_any s); try done; [by apply Hf|by rewrite Ep]).
  destruct (negb ok || future_ready f s) eqn:E2.
  - injection H as <-.
    assert (r ∈ dl /\ io s !! r <> Some ECas /\ ~ waiting s r) as (Hr & Hio & Hwt).
    { destruct ok.
      - destruct Hk as (Hr & Hfut & fu & Hfu & Hc). split; [done|]. unfold overtakes in Ho. rewrite Ep in Ho. cbn in E2. rewrite E2 in Ho. cbn in Ho.
        split; [intros E; by rewrite E in Ho|]. intros (f' & fu' & H & Hc' & Hu). destruct (f_known _ _ _ _ _ Hf f' fu' r H Hc') as (_ & H2 & _).
        specialize (H2 _ Hfut). simplify_eq. unfold future_ready in E2. rewrite Hfu in E2. congruence.
      - destruct Hk as (Hr & _ & _ & Hio & Hunk). split; [done|]. split; [by rewrite Hio|]. intros (f' & fu & H & Hc & _). by apply (Hunk f' fu). }
    exists rl, ll, kl, dl. split.
    + apply (shape_frame s); try done; [by rewrite Ep|congruence|apply Hs].
    + apply (flow_move s); try done; rewrite ?Ep.
      * apply no_php_flight; [done|by rewrite Ep|]. by intros ? ? [= <- <-].
      * by destruct ok.
      * intros x Hx [= <-]. done.
      * by apply Hm.
      * by apply Hw.
  - injection H as <-. destruct ok; [|done]. apply (quiet_inv s _ rl ll kl dl); try done; rewrite ?Ep; try done; [by apply Hm|by apply Hw|apply Hs].
Qed.

(** ** New registrations *)

Lemma fresh_absent s rl ll kl dl : shape s rl ll kl dl -> regs s !! fresh_reg s = None /\ fresh_reg s ∉ dl.
Proof.
  intros Hs. assert (regs s !! fresh_reg s = None) as E.
  { destruct (regs s !! fresh_reg s) as [g|] eqn:E; [|done]. destruct (s_regs _ _ _ _ _ Hs _ _ E) as (_ & ? & _). lia. }
  split; [done|]. intros Hin. destruct (live_reg _ _ _ _ _ _ Hs Hin). congruence.
Qed.

Lemma shape_register s s' rl ll kl dl ll' g : shape s rl ll kl dl -> freed s = false -> let r := fresh_reg s in
  same_but r body (regs s) (regs s') -> regs s' !! r = Some g -> reg_refcount g = 2 -> future_obj g = Some (reg_slot g) ->
  dlist (regs s') (registered s') (r :: dl) -> pending s' = pending s + 1 -> refs s' = refs s + 1 -> fresh_reg s' = S r ->
  freed s' = freed s -> corrupt s' = corrupt s -> fd_counter s' = fd_counter s -> callers s' = callers s -> ready_tail s' = ready_tail s ->
  chain (regs s') (ready_head s') rl -> chain (regs s') (local_head (php s')) ll' ->
  Forall2 (fun k l => chain (regs s') (caller_head k) l) (callers s) kl -> shape s' rl ll' kl (r :: dl).
Proof.
  intros Hs Hfr r Hbody Hg H2 Hobj Hd Hp Hrefs En Ef Ec Efd Ek Et Hch Hl Hk.
  pose proof (fresh_absent _ _ _ _ _ Hs) as [Hno Hnd]. fold r in Hno, Hnd. destruct Hs. unfold live in *.
  assert (r ∉ dl ++ map caller_reg (callers s)) as Hr by (rewrite <- s_dom, Hno; by intros [? ?]).
  constructor; unfold live; rewrite ?Ek; try done; try congruence.
  - by rewrite zlen_cons, Hp, s_pending, Z.add_comm.
  - cbn. by apply NoDup_cons_2.
  - intros x. cbn. rewrite elem_of_cons, <- s_dom. destruct (decide (x = r)) as [->|Hx].
    + rewrite Hg. split; [by left|by eexists].
    + specialize (Hbody x Hx). assert (is_Some (regs s' !! x) <-> is_Some (regs s !! x)) as -> by (destruct (regs s !! x), (regs s' !! x); try done; by split; eexists).
      split; [by right|]. by intros [?|?].
  - intros x gx Hx. rewrite En. destruct (decide (x = r)) as [->|Hxr]; [simplify_eq; split_and!; [done|lia|done]|].
    specialize (Hbody x Hxr). rewrite Hx in Hbody. destruct (regs s !! x) as [g0|] eqn:E0; [|done]. cbn in Hbody. injection Hbody as B1 B2 B3.
    destruct (s_regs x g0 E0) as (? & ? & ?). split_and!; [congruence|unfold r; lia|congruence].
  - rewrite Hrefs, s_refs, Ef, Hfr. cbn. rewrite zlen_cons. lia.
Qed.

Lemma fresh_not_io s rl ll kl dl r : flow s rl ll kl dl -> r ∉ dl -> io s !! r = None.
Proof.
  intros Hf Hr. destruct (io s !! r) as [pc|] eqn:E; [|done]. exfalso. apply Hr. destruct (before_push pc) eqn:Hb.
  - apply (f_flight _ _ _ _ _ Hf (Io r) r). exists pc. split; [by apply io_pc|done].
  - destruct pc; try done; [by apply (f_io_cas _ _ _ _ _ Hf)|..]; apply (queue_sub _ _ _ _ _ r Hf), elem_of_app; left; by eapply (f_io_pushed _ _ _ _ _ Hf).
Qed.

Lemma flow_register s s' rl ll kl dl ll' b : flow s rl ll kl dl -> let r := fresh_reg s in r ∉ dl ->
  io s' = io s -> futures s' = futures s -> fresh_reg s' = S r -> same_but r core (regs s) (regs s') -> enq s' r = Some b ->
  NoDup (rl ++ ll' ++ concat kl) ->
  (forall x, x ∈ rl ++ ll' ++ concat kl <-> x ∈ rl ++ ll ++ concat kl \/ (x = r /\ b = true)) ->
  php_enqueue_pc (php s) = None -> (forall x pc, php_enqueue_pc (php s') = Some (x, pc) -> before_push pc = false) ->
  php_adding (php s) = None -> php_adding (php s') = (if b then None else Some r) ->
  php_knows s' rl (r :: dl) -> (forall t, mutex s' = Some t <-> locked s' t) -> (rl <> [] -> waking s') -> flow s' rl ll' kl (r :: dl).
Proof.
  intros Hf r Hr Ei Ef En Hcore Hb Hnd HQ Hp Hp' Ha Ha' Hk Hm Hw.
  pose proof (fresh_not_io _ _ _ _ _ _ Hf Hr) as Hio.
  assert (forall x, x ∈ dl -> x <> r) as Hne by (by intros x Hx ->).
  assert (forall x, x <> r -> enq s' x = enq s x) as He by (intros x Hx; by apply core_enq, Hcore).
  assert (forall t x, in_flight s' t x <-> in_flight s t x) as Hfl by (apply no_php_flight; [done|by rewrite Hp|done]).
  assert (forall t, ~ in_flight s t r) as Hrf by (intros t H; by apply (f_flight _ _ _ _ _ Hf) in H as [? _]).
  assert (forall x, waiting s' x <-> waiting s x) as Hwt by (intros x; unfold waiting; by rewrite Ef).
  destruct Hf. constructor; try done.
  - intros x [Hx|[-> ->]]%HQ.
    + destruct (f_queue x Hx) as (? & ? & Hn). rewrite He by auto. split; [by right|]. split; [done|]. intros t. by rewrite Hfl.
    + split; [by left|]. split; [done|]. intros t. by rewrite Hfl.
  - intros x [->|Hx]%elem_of_cons E.
    + left. apply HQ. right. split; [done|]. congruence.
    + rewrite He in E by auto. destruct (f_enqueued x Hx E) as [?|[t ?]]; [left; apply HQ; by left|right]. exists t. by apply Hfl.
  - intros t x H%Hfl. destruct (f_flight t x H) as [Hx ?]. rewrite He by auto. split; [by right|done].
  - intros t t' x H%Hfl H'%Hfl. by apply (f_flight_one t t' x).
  - intros x. rewrite Ei. intros H. destruct (f_io_cas x H) as [Hx ?]. rewrite He by auto. split; [by right|done].
  - intros x pc. rewrite Ei. apply f_io_pushed.
  - intros x Hx E. rewrite Ei, Hwt. apply elem_of_cons in Hx as [->|Hx].
    + left. rewrite Ha'. by replace b with false by congruence.
    + rewrite He in E by auto. destruct (f_idle x Hx E) as [H|?]; [congruence|by right].
  - intros f fu x. rewrite Ef, En, Ei. intros H Hc. destruct (f_known f fu x H Hc) as (H1 & H2 & H3).
    assert (x <> r) as Hx by (unfold r; lia). split; [lia|]. split.
    + intros o. rewrite (core_future s s' x (Hcore x Hx)). apply H2.
    + intros Hu. destruct (H3 Hu) as (? & ? & ? & _). rewrite He by done. split_and!; try done; [by right|].
      rewrite Ha'. destruct b; [done|]. congruence.
Qed.

Lemma core_body r m m' : same_but r core m m' -> same_but r body m m'.
Proof. intros H x Hx. specialize (H x Hx). destruct (m !! x), (m' !! x); cbn in *; try done. unfold core, body in *. congruence. Qed.

Lemma fresh_not_queued s rl ll kl dl r : flow s rl ll kl dl -> r ∉ dl -> r ∉ rl /\ r ∉ ll /\ r ∉ concat kl.
Proof.
  intros Hf Hr. assert (r ∉ rl ++ ll ++ concat kl) as H by (intros H; by apply (queue_sub _ _ _ _ _ r Hf) in H).
  rewrite !elem_of_app in H. tauto.
Qed.

Lemma fresh_unknown s rl ll kl dl : flow s rl ll kl dl -> unknown_to_driver s (fresh_reg s).
Proof. intros Hf f fu H Hc. destruct (f_known _ _ _ _ _ Hf f fu _ H Hc) as [? _]. lia. Qed.

Lemma reactor_add_inv s o cb : reactor_inv s -> freed s = false -> php s = PUser -> reactor_inv (reactor_add o cb s).
Proof.
  intros (rl & ll & kl & dl & Hs & Hf) Hfr Ep. unfold reactor_add. destruct (objects s !! o) as [b|] eqn:Eo; [|by exists rl, ll, kl, dl].
  destruct (claim_reactor b); [|by exists rl, ll, kl, dl]. assert (ll = []) as -> by (apply (local_nil _ _ _ _ _ Hs); by rewrite Ep).
  destruct (fresh_absent _ _ _ _ _ Hs) as [Hno Hnd].
  destruct (reg_create_ok o (obj_future b) cb (record_event (Added o) s) dl) as (m & Er & Hm & Hcore & Hnext & Hd);
    [apply Hs|apply (dl_nodup _ _ _ _ _ Hs)|done|].
  cbn zeta in *. cbn in Hm, Hcore, Hnext, Hd. rewrite Er. clear Er.
  set (r := fresh_reg s) in *. destruct (fresh_not_queued _ _ _ _ _ _ Hf Hnd) as (Hr1 & _ & Hr3).
  match goal with |- context [match obj_future b with Some f => set_php _ ?x | None => _ end] => set (s1 := x) end.
  assert (forall p, local_head p = None -> (forall x pc, php_enqueue_pc p = Some (x, pc) -> before_push pc = false) -> php_locked p = false ->
    php_adding p = Some r -> php_knows (set_php p s1) rl (r :: dl) -> reactor_inv (set_php p s1)) as Hgo.
  { intros p H1 H2 H3 H4 H5. exists rl, [], kl, (r :: dl). split.
    - eapply (shape_register s _ rl [] kl dl []); try done.
      + by apply core_body.
      + apply (chain_but r (regs s)); [done|done|apply Hs].
      + apply (callers_but r (regs s)); [done|done|apply Hs].
    - apply (flow_register s _ rl [] kl dl [] false); try done.
      + unfold enq. cbn. fold r. by rewrite Hm.
      + apply Hf.
      + intros x. split; [by left|]. by intros [?|[_ ?]].
      + by rewrite Ep.
      + by rewrite Ep.
      + apply (unlocked_any s _ _ _ _ _ Hf); try done. by rewrite Ep.
      + intros Hne. apply (waking_any s); try done; [by apply Hf|by rewrite Ep]. }
  pose proof (fresh_not_io _ _ _ _ _ _ Hf Hnd) as Hio. pose proof (fresh_unknown _ _ _ _ _ Hf) as Hunk. fold r in Hunk.
  destruct (obj_future b) as [f|] eqn:Efut; apply Hgo; try done; try (by intros ? ? [= <- <-]); unfold php_knows; cbn.
  - split_and!; [by left|unfold enq; cbn; fold r; by rewrite Hm|unfold future_of; cbn; fold r; by rewrite Hm|done|done].
  - split; [by left|]. split; [|done]. intros _. fold r. rewrite Hio. split; [done|]. intros (f & fu & H & Hc & _). by apply (Hunk f fu).
Qed.

(** ** [reactor_reclaim] *)

(** The PHP thread as if it had nothing more to reclaim. *)
Definition reclaimed (thrown : bool) (head : option nat) : php_pc :=
  match head with Some h => PRequeue h thrown [] | None => PReclaim thrown [] end.

Lemma reclaim_one s thrown head rl ll kl dl o b f : shape (set_php (reclaimed thrown head) s) rl ll kl dl ->
  flow (set_php (reclaimed thrown head) s) rl ll kl dl -> freed s = false ->
  forall r s1, reg_create o f b s = (r, s1) ->
  let s2 := change_reg r (fun g => set_next_ready None (set_enqueued true g)) s1 in
  let s3 := match last ll with Some t => change_reg t (set_next_ready (Some r)) s2 | None => s2 end in
  let head' := match last ll with Some _ => head | None => Some r end in
  shape (set_php (reclaimed thrown head') s3) rl (ll ++ [r]) kl (r :: dl) /\ flow (set_php (reclaimed thrown head') s3) rl (ll ++ [r]) kl (r :: dl).
Proof.
  intros Hs Hf Hfr r s1 Er s2 s3 head'.
  destruct (fresh_absent _ _ _ _ _ Hs) as [Hno Hnd].
  destruct (reg_create_ok o f b s dl) as (m & Er' & Hm & Hcore & Hnext & Hd); [apply Hs|apply (dl_nodup _ _ _ _ _ Hs)|done|].
  rewrite Er' in Er. injection Er as Hr Es1. cbn in Hnd. rewrite Hr in *. clear Er'.
  destruct (fresh_not_queued _ _ _ _ _ _ Hf Hnd) as (Hr1 & Hr2 & Hr3).
  pose proof (s_local _ _ _ _ _ Hs) as Hl. assert (local_head (reclaimed thrown head) = head) as Elh by (by destruct head). cbn in Hl. rewrite Elh in Hl.
  pose proof (f_nodup _ _ _ _ _ Hf) as Hndq.
  set (g2 := set_next_ready None (set_enqueued true (new_reg o f b (registered s)))).
  set (m2 := <[r := g2]> m).
  assert (s2 = set_regs m2 s1) as E2 by (subst s2; unfold change_reg, with_reg, put_reg; rewrite <- Es1; cbn [regs set_pending set_registered set_regs]; by rewrite Hm).
  assert (same_but r core (regs s) m2 /\ same_but r next_ready (regs s) m2) as [Hcore2 Hnext2].
  { split; intros x Hx; subst m2; rewrite lookup_insert_ne by congruence; auto. }
  assert (same links m m2) as Hlinks2.
  { subst m2. assert (g2 = (fun g => set_next_ready None (set_enqueued true g)) (new_reg o f b (registered s))) as -> by done.
    rewrite (ReactorInv.insert_alter (fun g => set_next_ready None (set_enqueued true g))) by done. by apply same_alter. }
  assert (m2 !! r = Some g2) as Hm2 by apply lookup_insert_eq.
  assert (exists m3, s3 = set_regs m3 s1 /\ same core m2 m3 /\ same links m2 m3 /\ chain m3 head' (ll ++ [r]) /\
    (forall l h, (forall x, x ∈ l -> x ∉ ll ++ [r]) -> chain m2 h l -> chain m3 h l)) as (m3 & E3 & Hcore3 & Hlinks3 & Hch & Hoth).
  { subst s3 head'. rewrite E2. destruct (snoc_cases ll) as [->|(l & t & ->)].
    - exists m2. split; [done|]. split; [done|]. split; [done|]. split; [|done]. cbn. split; [done|]. by exists g2.
    - rewrite last_snoc. assert (t ∈ l ++ [t]) as Ht by (apply elem_of_app; right; by left).
      assert (t <> r) as Htr by (by intros ->).
      assert (chain m2 head (l ++ [t])) as Hl2 by (by apply (chain_but r (regs s))).
      destruct (chain_live _ _ _ t Hl2 Ht) as [gt Hgt]. exists (<[t := set_next_ready (Some r) gt]> m2).
      split; [unfold change_reg, with_reg, put_reg; cbn [regs set_regs]; rewrite Hgt; by destruct s1|].
      rewrite (ReactorInv.insert_alter (set_next_ready (Some r))) by done. split; [by apply same_alter|]. split; [by apply same_alter|]. split.
      + rewrite <- (ReactorInv.insert_alter _ t gt), <- app_assoc by done. apply chain_snoc; try done; [|by exists g2].
        apply list.NoDup_app in Hndq as (_ & _ & Hndq). by apply list.NoDup_app in Hndq as (? & _).
      + intros l2 h Hl2'. apply chain_agree. intros x Hx. rewrite lookup_alter_ne; [done|]. intros <-. apply (Hl2' t Hx). apply elem_of_app. by left. }
  assert (forall x, x <> r -> core <$> regs s !! x = core <$> m3 !! x) as Hcore4 by (intros x Hx; by rewrite (Hcore2 x Hx), (Hcore3 x)).
  destruct (same_lookup core m2 m3 r g2 Hcore3 Hm2) as (g3 & Hm3 & Ecore). unfold core in Ecore. cbn in Ecore. injection Ecore as C1 C2 C3 C4 C5 C6.
  assert (local_head (reclaimed thrown head') = head') as Elh' by (by destruct head').
  set (s4 := set_php (reclaimed thrown head') s3). assert (s4 = set_php (reclaimed thrown head') (set_regs m3 s1)) as E4 by (subst s4; by rewrite E3).
  assert (forall (l : list nat), r ∉ l -> (forall x, x ∈ l -> x ∉ ll) -> forall x, x ∈ l -> x ∉ ll ++ [r]) as Hdis.
  { intros l Hrl Hll x Hx [Hin|Hin]%elem_of_app; [by apply (Hll x)|]. apply list_elem_of_singleton in Hin as ->. done. }
  apply list.NoDup_app in Hndq as (Hnrl & Hd1 & Hndq). apply list.NoDup_app in Hndq as (Hnll & Hd2 & Hnkl).
  rewrite <- Hr in *.
  assert (io s4 = io s /\ futures s4 = futures s /\ fresh_reg s4 = S (fresh_reg s) /\ regs s4 = m3 /\ php s4 = reclaimed thrown head' /\
    mutex s4 = mutex s /\ fd_counter s4 = fd_counter s) as (F1 & F2 & F3 & F4 & F5 & F6 & F7) by (rewrite E4, <- Es1; done).
  assert (registered s4 = Some (fresh_reg s) /\ pending s4 = pending s + 1 /\ refs s4 = refs s + 1 /\ freed s4 = freed s /\ corrupt s4 = corrupt s /\
    callers s4 = callers s /\ ready_head s4 = ready_head s /\ ready_tail s4 = ready_tail s) as (G1 & G2 & G3 & G4 & G5 & G6 & G7 & G8)
    by (rewrite E4, <- Es1; done).
  clearbody s4. split.
  - apply (shape_register (set_php (reclaimed thrown head) s) s4 rl ll kl dl (ll ++ [fresh_reg s]) g3); try done; rewrite ?F4, ?F5, ?G1, ?G7; try done.
    + by apply core_body.
    + by rewrite C3, C5.
    + destruct Hd as [q Hq]. exists q. apply (dseg_agree m2); [by apply same_agree|]. apply (dseg_agree m); [by apply same_agree|done].
    + apply Hoth; [apply Hdis; [done|]; intros x Hx Hin; apply (Hd1 x Hx), elem_of_app; by left|]. apply (chain_but (fresh_reg s) (regs s)); [done|done|apply Hs].
    + by rewrite Elh'.
    + pose proof (s_callers _ _ _ _ _ Hs) as Hc. cbn in Hc |- *. assert (forall x, x ∈ concat kl -> x ∉ ll ++ [fresh_reg s]) as Hdk.
      { apply Hdis; [done|]. intros x Hx Hin. by apply (Hd2 x Hin). }
      clear -Hc Hoth Hdk Hnext2. induction Hc as [|k l ks ls Hkl _ IH]; constructor; [|apply IH; intros x Hx; apply Hdk; cbn; apply elem_of_app; by right].
      assert (forall x, x ∈ l -> x ∉ ll ++ [fresh_reg s]) as Hx by (intros x Hx; apply Hdk; cbn; apply elem_of_app; by left).
      apply Hoth; [done|]. apply (chain_but (fresh_reg s) (regs s)); [done|intros Hin; apply (Hx _ Hin), elem_of_app; right; by left|done].
  - apply (flow_register (set_php (reclaimed thrown head) s) s4 rl ll kl dl (ll ++ [fresh_reg s]) true); try done; rewrite ?F4, ?F5; try done.
    + unfold enq. rewrite F4. cbn. rewrite Hm3. cbn. by rewrite C2.
    + rewrite <- app_assoc. cbn [app]. rewrite (app_assoc rl), <- Permutation_middle, <- app_assoc. apply NoDup_cons_2; [|apply Hf]. rewrite !elem_of_app. tauto.
    + intros x. rewrite !elem_of_app, list_elem_of_singleton. cbn. tauto.
    + by destruct head.
    + by destruct head'.
    + by destruct head.
    + by destruct head'.
    + unfold php_knows. rewrite F5. by destruct head'.
    + apply (unlocked_any _ s4 _ _ _ _ Hf); try done; [by destruct head|rewrite F5; by destruct head'].
    + intros Hne. apply (waking_any (set_php (reclaimed thrown head) s)); try done; [by apply Hf|by destruct head].
Qed.

Lemma reclaim_loop_ok thrown out : forall head s rl ll kl dl, shape (set_php (reclaimed thrown head) s) rl ll kl dl ->
  flow (set_php (reclaimed thrown head) s) rl ll kl dl -> freed s = false ->
  exists h' s' ll' dl', reclaim_loop out head (last ll) s = (h', s') /\ freed s' = false /\
    shape (set_php (reclaimed thrown h') s') rl ll' kl dl' /\ flow (set_php (reclaimed thrown h') s') rl ll' kl dl'.
Proof.
  induction out as [|o out IH]; intros head s rl ll kl dl Hs Hf Hfr; [by exists head, s, ll, dl|].
  cbn [reclaim_loop]. destruct (objects s !! o) as [b|]; [|by apply (IH head s rl ll kl dl)].
  destruct (reg_create o (obj_future b) false s) as [r s1] eqn:Er.
  destruct (reclaim_one s thrown head rl ll kl dl o false (obj_future b) Hs Hf Hfr r s1 Er) as [Hs' Hf'].
  assert (forall x s3, shape (set_php x s3) rl (ll ++ [r]) kl (r :: dl) -> freed s3 = false) as Hfr'
    by (intros x s3 H; apply (live_not_freed _ _ _ _ _ r H); by left).
  destruct (last ll) as [t|].
  - specialize (Hfr' _ _ Hs'). destruct (IH _ _ _ _ _ _ Hs' Hf' Hfr') as (h' & s' & ll' & dl' & E & H). rewrite last_snoc in E. by exists h', s', ll', dl'.
  - specialize (Hfr' _ _ Hs'). destruct (IH _ _ _ _ _ _ Hs' Hf' Hfr') as (h' & s' & ll' & dl' & E & H). rewrite last_snoc in E. by exists h', s', ll', dl'.
Qed.

(** Nothing but the objects and the log changes. *)
Record kept (s' s : reactor_state) : Prop := { k_still : still s' s; k_mutex : mutex s' = mutex s; k_counter : fd_counter s' = fd_counter s }.

#[local] Instance kept_preorder : PreOrder kept.
Proof. split; [by intros s|]. intros s1 s2 s3 [[] ? ?] [[] ? ?]. constructor; [constructor|..]; congruence. Qed.

Lemma foldl_kept {A} (f : reactor_state -> A -> reactor_state) l : (forall s a, kept (f s a) s) -> forall s, kept (foldl f s l) s.
Proof. intros Hf. induction l as [|a l IH]; intros s; cbn; [reflexivity|]. etransitivity; [apply IH|apply Hf]. Qed.

(** From one unlocked program point to another with the same local list. *)
Lemma kept_inv s s' rl ll kl dl : shape s rl ll kl dl -> flow s rl ll kl dl -> kept s' s -> freed s = false ->
  local_head (php s') = local_head (php s) -> php_enqueue_pc (php s) = None -> php_enqueue_pc (php s') = None ->
  php_adding (php s) = None -> php_adding (php s') = None -> php_locked (php s) = false -> php_locked (php s') = false ->
  php_wakes (php s) = false -> php_knows s' rl dl -> reactor_inv s'.
Proof.
  intros Hs Hf [Hst Em Efd] Hfr Hl Hp Hp' Ha Ha' Hlk Hlk' Hwk Hk. apply (quiet_inv s s' rl ll kl dl); try done.
  - apply (unlocked_any s s' _ _ _ _ Hf); try done. by destruct Hst.
  - intros Hne. apply (waking_any s); try done; [by apply Hf|by destruct Hst].
  - rewrite Efd. apply Hs.
Qed.

Lemma kept_php p p' s s' : kept s' (set_php p s) -> kept (set_php p' s') (set_php p s).
Proof. intros [[] ? ?]. constructor; [constructor|..]; cbn in *; done. Qed.

Lemma poll_returns_kept thrown out s : kept (poll_returns thrown out s) s /\ php (poll_returns thrown out s) = PUser.
Proof.
  unfold poll_returns. destruct thrown; [done|]. split; [|done]. assert (forall s', kept s' s -> kept (set_php PUser s') s) as H
    by (intros s' [[] ? ?]; constructor; [constructor|..]; done).
  apply H. by apply foldl_kept.
Qed.

Lemma reclaim_inv s s' thrown out : reactor_inv s -> php s = PReclaim thrown out -> php_step s = Some s' -> reactor_inv s'.
Proof.
  intros (rl & ll & kl & dl & Hs & Hf) Ep H. unfold php_step in H. rewrite Ep in H.
  assert (freed s = false) as Hfr by (apply (busy_not_freed _ _ _ _ _ Hs); by rewrite Ep).
  assert (s' = poll_returns thrown out s \/ thrown = true) as [->| ->] by (destruct thrown; [by right|left; congruence]).
  { destruct (poll_returns_kept thrown out s) as [Hk Ep']. apply (kept_inv s _ rl ll kl dl); rewrite ?Ep, ?Ep'; try done.
    unfold php_knows. by rewrite Ep'. }
  destruct out as [|o out].
  { injection H as <-. apply (kept_inv s _ rl ll kl dl); rewrite ?Ep; done. }
  assert (ll = []) as -> by (apply (local_nil _ _ _ _ _ Hs); by rewrite Ep).
  destruct (reclaim_loop_ok true (o :: out) None s rl [] kl dl) as (h' & s1 & ll' & dl' & E & Hfr1 & Hs1 & Hf1); [| |done|].
  { apply (shape_frame s); try done; [by rewrite Ep|congruence|apply Hs]. }
  { apply (flow_move s); try done; rewrite ?Ep; try done.
    - apply no_php_flight; [done|by rewrite Ep|done].
    - apply (unlocked_any s _ _ _ _ _ Hf); try done. by rewrite Ep.
    - intros Hne. apply (waking_any s); try done; [by apply Hf|by rewrite Ep]. }
  change (last []) with (@None nat) in E. rewrite E in H. injection H as <-.
  assert (forall f : reactor_state -> nat -> reactor_state, (forall s a, kept (f s a) s) -> forall l p, kept (set_php p (foldl f s1 l)) (set_php (reclaimed true h') s1)) as Hfold.
  { intros f H l p. pose proof (foldl_kept f l H s1) as [[] ? ?]. constructor; [constructor|..]; done. }
  destruct h' as [h|]; (eapply (kept_inv _ _ rl ll' kl dl' Hs1 Hf1); try done; by apply (Hfold (fun s o => release_pin o s) ltac:(done) (o :: out))).
Qed.

(** ** Callbacks return *)

Lemma caller_in s rl ll kl dl k ks : shape s rl ll kl dl -> callers s = k :: ks ->
  live s dl ≡ₚ caller_reg k :: dl ++ map caller_reg ks /\ caller_reg k ∉ dl ++ map caller_reg ks /\ is_Some (regs s !! caller_reg k).
Proof.
  intros Hs E. assert (live s dl ≡ₚ caller_reg k :: dl ++ map caller_reg ks) as HP by (unfold live; rewrite E; cbn; by rewrite <- Permutation_middle).
  split; [done|]. split.
  - pose proof (s_nodup _ _ _ _ _ Hs) as Hnd. rewrite HP in Hnd. by apply NoDup_cons_1_1 in Hnd.
  - apply (s_dom _ _ _ _ _ Hs). rewrite HP. by left.
Qed.

(** The callback's registration is freed; the poll goes on with its list. *)
Lemma callback_done_inv s k ks : reactor_inv s -> freed s = false -> php s = PUser -> callers s = k :: ks ->
  let p := PConsume (Poll (caller_max k)) (caller_head k) (caller_taken k + 1) (caller_out k) in
  exists rl ll kl dl, shape (set_php p (callback_done k (set_callers ks s))) rl ll kl dl /\
    flow (set_php p (callback_done k (set_callers ks s))) rl ll kl dl /\ freed (callback_done k (set_callers ks s)) = false.
Proof.
  intros (rl & ll & kl & dl & Hs & Hf) Hfr Ep Ek p.
  assert (ll = []) as -> by (apply (local_nil _ _ _ _ _ Hs); by rewrite Ep).
  destruct (caller_in _ _ _ _ _ _ _ Hs Ek) as (HP & Hr & [g Hg]). set (r := caller_reg k) in *.
  destruct (s_regs _ _ _ _ _ Hs r g Hg) as (H2 & Hlt & Hobj).
  pose proof (s_callers _ _ _ _ _ Hs) as Hc. rewrite Ek in Hc. apply Forall2_cons_inv_l in Hc as (l & kl' & Hl & Hkl & ->).
  assert (refs s <> 1) as Hrefs.
  { rewrite (s_refs _ _ _ _ _ Hs), Hfr. unfold zlen. rewrite HP. cbn. lia. }
  set (m := alter (set_future_obj None) r (regs s)).
  set (s2 := set_php p (callback_done k (set_callers ks s))).
  assert (s2 = set_php p (set_regs (delete r m) (set_refs (refs s - 1) (set_regs m (release_pin (reg_slot g) (set_callers ks s)))))) as E2.
  { subst s2. unfold callback_done. fold r. unfold with_reg. cbn [regs set_callers]. rewrite Hg, Hobj. rewrite change_reg_eq by (by exists g). 
    rewrite (reg_release_eq r _ (set_future_obj None g)); [done|by cbn; rewrite lookup_alter_eq, Hg|done|done]. }
  assert (fields s2 s) as Hfields by (rewrite E2; constructor; done).
  assert (regs s2 = delete r m /\ registered s2 = registered s /\ pending s2 = pending s /\ refs s2 = refs s - 1 /\ ready_head s2 = ready_head s /\
    ready_tail s2 = ready_tail s /\ callers s2 = ks /\ php s2 = p) as (R1 & R2 & R3 & R4 & R5 & R6 & R7 & R8) by (rewrite E2; done).
  assert (freed (callback_done k (set_callers ks s)) = freed s2) as Hfr2 by done. clearbody s2. destruct Hfields.
  assert (forall A (q : reg -> A), same_but r q (regs s) (delete r m)) as Hbut.
  { intros A q x Hx. subst m. by rewrite lookup_delete_ne, lookup_alter_ne by congruence. }
  assert (r ∉ dl) as Hrd by (intros H; apply Hr, elem_of_app; by left).
  destruct (fresh_not_queued _ _ _ _ _ _ Hf Hrd) as (Hr1 & _ & Hr3). cbn in Hr3. rewrite elem_of_app in Hr3.
  exists rl, l, kl', dl. split; [|split; [|congruence]].
  - apply (shape_delete s s2 r rl [] (l :: kl') dl rl l kl' dl m); try done; rewrite ?R1, ?R2, ?R3, ?R5, ?R6, ?R7, ?R8; try done; try apply Hs.
    + intros x Hx. subst m. by rewrite lookup_alter_ne by congruence.
    + rewrite HP. unfold live. by rewrite R7.
    + destruct (s_dlist _ _ _ _ _ Hs) as [q Hq]. exists q. apply (dseg_agree (regs s)); [|done]. apply same_agree. by apply same_alter.
    + apply (chain_but r (regs s)); [by apply Hbut|done|apply Hs].
    + apply (chain_but r (regs s)); [by apply Hbut|tauto|done].
    + apply (callers_but r (regs s)); [by apply Hbut|tauto|done].
  - apply (flow_gen s s2 rl [] (l :: kl') dl); try done; rewrite ?R8, ?Ep; try done.
    + intros x Hx. split; [done|]. apply core_enq. rewrite R1. apply Hbut. by intros ->.
    + intros x o Ho. unfold future_of in *. rewrite R1 in Ho. destruct (decide (x = r)) as [->|Hx]; [by rewrite lookup_delete_eq in Ho|].
      by rewrite (Hbut _ reg_future x Hx).
    + apply Hf.
    + intros x. split; [|by intros [? _]]. intros Hx. split; [done|]. by apply (queue_sub _ _ _ _ _ x Hf).
    + unfold php_knows. by rewrite R8.
    + apply (unlocked_any s _ _ _ _ _ Hf); try done; by rewrite ?R8, ?Ep.
    + intros Hne. apply (waking_any s); try done; [by apply Hf|by rewrite Ep].
    + apply Hf.
Qed.

(** ** Reset, destroy, and the actions of PHP code *)

Lemma reset_drain_inv s s' d : reactor_inv s -> php s = PResetDrain d -> php_step s = Some s' -> reactor_inv s'.
Proof.
  intros (rl & ll & kl & dl & Hs & Hf) Ep H. unfold php_step in H. rewrite Ep in H.
  assert (freed s = false) as Hfr by (apply (busy_not_freed _ _ _ _ _ Hs); by rewrite Ep).
  pose proof (f_php _ _ _ _ _ Hf) as Hk. unfold php_knows in Hk. rewrite Ep in Hk. destruct Hk as [-> Hc].
  assert (rl = []) as ->.
  { destruct rl as [|x rl]; [done|]. exfalso. apply (elem_of_nil x). apply (queue_sub _ _ _ _ _ x Hf). by left. }
  destruct d.
  - injection H as <-. assert (refs s = 1) as Hr by (rewrite (s_refs _ _ _ _ _ Hs), Hfr; unfold live; by rewrite Hc).
    unfold reactor_unref. rewrite Hr. cbn. exists [], ll, kl, []. split.
    + pose proof Hs as []. unfold live in *. constructor; unfold live; try done. by rewrite Ep in s_local.
    + apply (flow_move s); try done; rewrite ?Ep; try done.
      * apply no_php_flight; [done|by rewrite Ep|done].
      * apply (unlocked_any s _ _ _ _ _ Hf); try done. by rewrite Ep.
  - assert (php s' = PResetDrain false \/ php s' = PUser) as Hp' by (destruct (0 <? fd_counter s); injection H as <-; [by left|by right]).
    assert (still s' s /\ mutex s' = mutex s /\ 0 <= fd_counter s') as (Hst & Em & Hfd).
    { pose proof (s_counter _ _ _ _ _ Hs). destruct (0 <? fd_counter s); injection H as <-; cbn; done. }
    assert (local_head (php s') = None /\ php_enqueue_pc (php s') = None /\ php_adding (php s') = None /\ php_locked (php s') = false) as (H1 & H2 & H3 & H4)
      by (by destruct Hp' as [->| ->]).
    apply (quiet_inv s s' [] ll kl []); try done; rewrite ?Ep; try done.
    + unfold php_knows. destruct Hst. destruct Hp' as [->| ->]; [|done]. split; [done|congruence].
    + apply (unlocked_any s s' _ _ _ _ Hf); try done; [by rewrite Ep|by destruct Hst].
Qed.

(** The driver's futures change where no registration is involved. *)
Lemma flow_futures s s' rl ll kl dl : flow s rl ll kl dl -> php s = PUser -> php s' = php s ->
  (forall f fu r, callback_ fu = Some (Some r) -> futures s' !! f = Some fu <-> futures s !! f = Some fu) ->
  regs s' = regs s -> io s' = io s -> fresh_reg s' = fresh_reg s -> mutex s' = mutex s -> fd_counter s' = fd_counter s ->
  flow s' rl ll kl dl.
Proof.
  intros [] Ep Ep' Hfut Er Ei En Em Efd.
  assert (forall x, enq s' x = enq s x) as He by (intros x; unfold enq; by rewrite Er).
  assert (forall x, future_of s' x = future_of s x) as Hfo by (intros x; unfold future_of; by rewrite Er).
  assert (forall x, waiting s' x <-> waiting s x) as Hwt.
  { intros x. unfold waiting. split; intros (f & fu & H & Hc & Hu); exists f, fu; split_and!; try done; by apply (Hfut f fu x). }
  assert (forall t x, in_flight s' t x <-> in_flight s t x) as Hfl by (intros [|y] x; unfold in_flight, pc_of; by rewrite ?Ep', ?Ei).
  constructor; try done.
  - intros x Hx. rewrite He. destruct (f_queue x Hx) as (? & ? & Hn). split_and!; try done. intros t. by rewrite Hfl.
  - intros x Hd. rewrite He. intros Hq. destruct (f_enqueued x Hd Hq) as [?|[t ?]]; [by left|right]. exists t. by apply Hfl.
  - intros t x H%Hfl. rewrite He. by apply (f_flight t).
  - intros t t' x H%Hfl H'%Hfl. by apply (f_flight_one t t' x).
  - intros x. rewrite Ei, He. apply f_io_cas.
  - intros x pc. rewrite Ei. apply f_io_pushed.
  - intros x Hd. rewrite He, Ei, Hwt, Ep'. apply (f_idle x Hd).
  - intros f fu x H Hc. rewrite En, Ei, He, Ep'. apply (Hfut f fu x Hc) in H. destruct (f_known f fu x H Hc) as (H1 & H2 & H3).
    split; [done|]. split; [intros o; rewrite Hfo; apply H2|done].
  - unfold php_knows. by rewrite Ep', Ep.
  - apply (mutex_same s); try done. by rewrite Ep'.
  - intros Hne. apply (waking_same s); try done; [by apply f_wakes|]. by rewrite Ep'.
Qed.

Lemma futures_inv s s' rl ll kl dl : shape s rl ll kl dl -> flow s rl ll kl dl -> php s = PUser -> php s' = php s -> freed s = false ->
  (forall f fu r, callback_ fu = Some (Some r) -> futures s' !! f = Some fu <-> futures s !! f = Some fu) ->
  kept (set_futures (futures s) s') s -> reactor_inv s'.
Proof.
  intros Hs Hf Ep Ep' Hfr Hfut [[] Em Efd]. cbn in *. exists rl, ll, kl, dl. split.
  - apply (shape_frame s); try done; [by rewrite Ep'|congruence|rewrite Efd; apply Hs].
  - by apply (flow_futures s).
Qed.

Lemma insert_no_callback (m : gmap nat (Future (option nat))) f fu0 : (forall fu r, m !! f = Some fu -> callback_ fu <> Some (Some r)) ->
  (forall r, callback_ fu0 <> Some (Some r)) -> forall f' fu r, callback_ fu = Some (Some r) -> <[f := fu0]> m !! f' = Some fu <-> m !! f' = Some fu.
Proof.
  intros Hm Hfu f' fu r Hc. destruct (decide (f' = f)) as [->|Hne]; [|by rewrite lookup_insert_ne].
  rewrite lookup_insert_eq. split; intros H; [simplify_eq; by apply Hfu in Hc|by apply (Hm fu r) in H].
Qed.

Lemma watch_inv s o : reactor_inv s -> php s = PUser -> freed s = false -> reactor_inv (watch o s).
Proof.
  intros (rl & ll & kl & dl & Hs & Hf) Ep Hfr. assert (reactor_inv s) as Hi by (by exists rl, ll, kl, dl).
  unfold watch. destruct (objects s !! o) as [b|]; [|done]. destruct (claim_notifier b); [|done].
  destruct (obj_future b) as [f|]; [|by apply (futures_inv s _ rl ll kl dl)].
  destruct (futures s !! f) as [fu|] eqn:Efu; [|done]. destruct (set_callback None fu) as [[ok run] fu'] eqn:Ec.
  assert (forall f' fu2 r, callback_ fu2 = Some (Some r) -> <[f := fu']> (futures s) !! f' = Some fu2 <-> futures s !! f' = Some fu2) as Hfut.
  { unfold set_callback in Ec. destruct fu as [b0 [cb|]]; cbn in Ec; injection Ec as <- <- <-.
    - intros f' fu2 r _. by rewrite insert_id.
    - apply insert_no_callback; [intros ? ? E; by simplify_eq|done]. }
  destruct (ok || is_set_ fu'); by apply (futures_inv s _ rl ll kl dl).
Qed.

Lemma user_inv s s' u : reactor_inv s -> user_step u s = Some s' -> reactor_inv s'.
Proof.
  intros Hi H. unfold user_step in H. destruct (freed s) eqn:Hfr; [done|]. destruct (php s) eqn:Ep; try done.
  assert (forall d, callers s = [] -> reactor_inv (drain_loop d s)) as Hdrain.
  { intros d Hc. destruct Hi as (rl & ll & kl & dl & Hs & Hf). apply (drain_loop_inv s s rl ll kl dl); rewrite ?Ep; try done; [| |apply Hs].
    - intros p Hp. apply (unlocked_any s (set_php p s) _ _ _ _ Hf); try done. by rewrite Ep.
    - intros Hne p. apply (waking_any s); try done; [by apply Hf|by rewrite Ep]. }
  destruct u as [o f|o|o cb|max| | | |].
  - destruct Hi as (rl & ll & kl & dl & Hs & Hf).
    destruct (objects s !! o); [done|]. destruct (f ≫= _) eqn:Ef; [done|]. injection H as <-. destruct f as [f|]; [|by apply (futures_inv s _ rl ll kl dl)].
    cbn in Ef. apply (futures_inv s _ rl ll kl dl); try done. apply insert_no_callback; [intros ? ? E; congruence|done].
  - injection H as <-. by apply watch_inv.
  - injection H as <-. by apply reactor_add_inv.
  - injection H as <-. unfold reactor_poll. destruct Hi as (rl & ll & kl & dl & Hs & Hf).
    assert (forall m, reactor_inv (set_php (PDrain (Poll m)) s)) as Hd.
    { intros m. apply (quiet_inv s _ rl ll kl dl); rewrite ?Ep; try done; [|by right; right|apply Hs].
      apply (unlocked_any s _ _ _ _ _ Hf); try done. by rewrite Ep. }
    destruct max as [m|]; [|done]. destruct (m <? 1); [by exists rl, ll, kl, dl|done].
  - destruct (callers s) as [|k ks] eqn:Ek; [done|]. injection H as <-.
    destruct (callback_done_inv s k ks Hi Hfr Ep Ek) as (rl & ll & kl & dl & Hs & Hf & _). by exists rl, ll, kl, dl.
  - destruct (callers s) as [|k ks] eqn:Ek; [done|]. injection H as <-.
    destruct (callback_done_inv s k ks Hi Hfr Ep Ek) as (rl & ll & kl & dl & Hs & Hf & Hfr').
    by apply (after_consume_inv _ (callback_done k (set_callers ks s)) (Poll (caller_max k)) (caller_head k) true (caller_out k) rl ll kl dl Hs Hf).
  - destruct (callers s) eqn:Ek; [|done]. injection H as <-. auto.
  - destruct (callers s) eqn:Ek; [|done]. injection H as <-. auto.
Qed.

Lemma php_inv s s' : reactor_inv s -> overtakes s = false -> php_step s = Some s' -> reactor_inv s'.
Proof.
  intros Hi Ho H. destruct (php s) eqn:Ep.
  - unfold php_step in H. by rewrite Ep in H.
  - by apply (set_callback_inv s s' r f).
  - unfold php_step in H. rewrite Ep in H. apply (php_enqueue_inv s s' r pc (PInCallback r f) (PCheck r f true)); try done. left. by exists f.
  - by apply (check_inv s s' r f ok).
  - unfold php_step in H. rewrite Ep in H. apply (php_enqueue_inv s s' r pc (PEnqueue r) PUser); try done. by right.
  - by apply (wait_inv s s' r destroy).
  - apply (fetch_inv s s' c); auto.
  - apply (fetch_inv s s' c); auto.
  - by apply (take_inv s s' c).
  - by apply (splice_unlock_inv s s' c head).
  - by apply (consume_step_inv s s' c head taken out).
  - apply (requeue_inv s s'); [done|by rewrite Ep|done].
  - by apply (requeue_link_inv s s' head thrown out).
  - apply (requeue_inv s s'); [done|by rewrite Ep|done].
  - apply (requeue_inv s s'); [done|by rewrite Ep|done].
  - by apply (reclaim_inv s s' thrown out).
  - by apply (reset_drain_inv s s' destroy).
Qed.

Lemma reactor_step_inv l s s' : reactor_inv s -> (l = LPhp -> overtakes s = false) -> reactor_step l s = Some s' -> reactor_inv s'.
Proof.
  intros Hi Ho H. destruct l as [f|r| |u].
  - by apply (resolve_inv f s).
  - by apply (io_inv r s).
  - by apply (php_inv s); [|apply Ho|].
  - by apply (user_inv s s' u).
Qed.

Lemma reactor_run_inv ls : forall s s', reactor_inv s -> prompt ls s = true -> reactor_run ls s = Some s' -> reactor_inv s'.
Proof.
  induction ls as [|l ls IH]; intros s s' Hi Hp H; cbn in H, Hp; [by simplify_eq|].
  apply andb_true_iff in Hp as [Ho Hp]. destruct (reactor_step l s) as [s1|] eqn:E; [|done]. cbn in H.
  apply (IH s1 s'); [|done|done]. apply (reactor_step_inv l s); [done| |done].
  intros ->. by apply negb_true_iff in Ho.
Qed.

Lemma reachable_inv ls s : prompt ls reactor_create = true -> reactor_run ls reactor_create = Some s -> reactor_inv s.
Proof. intros. apply (reactor_run_inv ls reactor_create); [apply reactor_create_inv|done..]. Qed.

(** ** Theorems *)

Lemma no_registration_no_callback s rl ll kl dl : shape s rl ll kl dl -> flow s rl ll kl dl -> dl = [] ->
  io s = ∅ /\ forall r, ~ waiting s r.
Proof.
  intros Hs Hf ->. split.
  - apply map_eq. intros r. rewrite lookup_empty. apply (fresh_not_io _ _ _ _ _ _ Hf). by intros H%elem_of_nil.
  - intros r (f & fu & H & Hc & Hu). destruct (f_known _ _ _ _ _ Hf f fu r H Hc) as (_ & _ & H3). destruct (H3 Hu) as (Hr & _). by apply elem_of_nil in Hr.
Qed.

(** C6: In every schedule in which [add] does not overtake a callback the driver is about to start, no freed
    registration and no freed reactor is touched; when the reactor is freed no registration is left, no callback
    is running and none of the driver's futures will start one.  In a schedule where [add] overtakes the callback
    of a future that has just been resolved, the callback runs on a freed registration. *)
Theorem reactor_safe :
  (forall ls s, prompt ls reactor_create = true -> reactor_run ls reactor_create = Some s ->
    corrupt s = false /\ (freed s = true -> regs s = ∅ /\ io s = ∅ /\ forall r, ~ waiting s r)) /\
  (exists s, prompt overtaken_callback reactor_create = false /\ reactor_run overtaken_callback reactor_create = Some s /\ corrupt s = true).
Proof.
  split; [|destruct reactor_use_after_free as (s & H1 & H2); by exists s].
  intros ls s Hp H. destruct (reachable_inv ls s Hp H) as (rl & ll & kl & dl & Hs & Hf). split; [apply Hs|].
  intros Hfr. destruct (s_freed _ _ _ _ _ Hs Hfr) as (-> & Hc & _). split; [|by apply (no_registration_no_callback s rl ll kl [])].
  apply map_eq. intros r. rewrite lookup_empty. destruct (regs s !! r) eqn:E; [|done]. exfalso.
  assert (is_Some (regs s !! r)) as Hr by (by eexists). apply (s_dom _ _ _ _ _ Hs) in Hr. unfold live in Hr. rewrite Hc in Hr. by apply elem_of_nil in Hr.
Qed.

(** The registration's future is resolved. *)
Definition resolved_reg (s : reactor_state) (g : reg) : bool :=
  match reg_future g with Some f => future_ready f s | None => true end.

Lemma resolved_not_waiting s rl ll kl dl r g : flow s rl ll kl dl -> regs s !! r = Some g -> resolved_reg s g = true -> ~ waiting s r.
Proof.
  intros Hf Hg Hr (f & fu & H & Hc & Hu). destruct (f_known _ _ _ _ _ Hf f fu r H Hc) as (_ & H2 & _).
  assert (reg_future g = Some f) as E by (apply H2; unfold future_of; by rewrite Hg).
  unfold resolved_reg, future_ready in Hr. rewrite E, H in Hr. congruence.
Qed.

(** C7: A completion is never lost: while PHP code runs, a queue that is not empty keeps the descriptor readable
    or a callback is about to write to it; and when no callback of the driver or of PHP is running, every
    registration whose future is resolved is in the queue, and [pending] is the number of registrations. *)
Theorem reactor_wakes ls s : prompt ls reactor_create = true -> reactor_run ls reactor_create = Some s -> php s = PUser ->
  (ready_head s <> None -> 0 < fd_counter s \/ exists r, io s !! r = Some ESignal) /\
  (callers s = [] -> io s = ∅ -> pending s = Z.of_nat (size (regs s)) /\
    exists queue, chain (regs s) (ready_head s) queue /\ (queue <> [] -> 0 < fd_counter s) /\
      forall r g, regs s !! r = Some g -> resolved_reg s g = true -> r ∈ queue).
Proof.
  intros Hp H Ep. destruct (reachable_inv ls s Hp H) as (rl & ll & kl & dl & Hs & Hf).
  assert (rl <> [] -> 0 < fd_counter s \/ exists r, io s !! r = Some ESignal) as Hw.
  { intros Hne. destruct (f_wakes _ _ _ _ _ Hf Hne) as [?|[?|E]]; [by left|by right|]. by rewrite Ep in E. }
  split.
  { intros Hh. apply Hw. intros ->. apply Hh. apply (s_ready _ _ _ _ _ Hs). }
  intros Hc Hio. assert (ll = []) as -> by (apply (local_nil _ _ _ _ _ Hs); by rewrite Ep).
  assert (kl = []) as -> by (pose proof (s_callers _ _ _ _ _ Hs) as Hk; rewrite Hc in Hk; by inversion Hk).
  assert (forall r, is_Some (regs s !! r) <-> r ∈ dl) as Hdom.
  { intros r. rewrite (s_dom _ _ _ _ _ Hs). unfold live. by rewrite Hc, app_nil_r. }
  split.
  { rewrite (s_pending _ _ _ _ _ Hs). unfold zlen. f_equal. rewrite <- size_dom.
    rewrite <- (size_list_to_set (C := gset nat) dl (dl_nodup _ _ _ _ _ Hs)). f_equal. apply set_eq. intros r. by rewrite elem_of_dom, Hdom, elem_of_list_to_set. }
  exists rl. split; [apply Hs|]. split.
  { intros Hne. destruct (Hw Hne) as [?|[r Hr]]; [done|]. by rewrite Hio, lookup_empty in Hr. }
  intros r g Hg Hres. assert (r ∈ dl) as Hr by (apply Hdom; by exists g). assert (enq s r = Some (enqueued g)) as Eq by (unfold enq; by rewrite Hg).
  destruct (enqueued g).
  - destruct (f_enqueued _ _ _ _ _ Hf r Hr Eq) as [Hin|[t (pc & Hpc & Hb)]]; [by rewrite app_nil_r in Hin|].
    destruct t; cbn in Hpc; [by rewrite Ep in Hpc|by rewrite Hio, lookup_empty in Hpc].
  - destruct (f_idle _ _ _ _ _ Hf r Hr Eq) as [E|[E|E]]; [by rewrite Ep in E|by rewrite Hio, lookup_empty in E|].
    by apply (resolved_not_waiting _ _ _ _ _ _ g Hf) in E.
Qed.

(** Two futures, one resolved by the driver while the other is registered, then a poll with a limit and the end
    of the process. *)
Definition two_futures : list reactor_label :=
  [LUser (UNew 0 (Some 0%nat)); LUser (UNew 1 None); LUser (UAdd 0 false); LPhp; LPhp; LResolved 0; LUser (UAdd 1 false);
   LPhp; LIo 0; LPhp; LPhp; LPhp; LPhp; LIo 0; LIo 0; LIo 0; LIo 0].

Lemma reactor_wakes_witness : exists s, reactor_run two_futures reactor_create = Some s /\ ready_head s = Some 1%nat /\
  (ready_head s <> None -> 0 < fd_counter s \/ exists r, io s !! r = Some ESignal) /\
  (callers s = [] -> io s = ∅ -> pending s = Z.of_nat (size (regs s)) /\
    exists queue, chain (regs s) (ready_head s) queue /\ (queue <> [] -> 0 < fd_counter s) /\
      forall r g, regs s !! r = Some g -> resolved_reg s g = true -> r ∈ queue).
Proof.
  eexists. split; [vm_compute; reflexivity|]. split; [reflexivity|].
  apply (reactor_wakes two_futures); [vm_compute; reflexivity|vm_compute; reflexivity|reflexivity].
Defined.

Definition two_futures_destroyed : list reactor_label :=
  two_futures ++ [LUser (UPoll (Some 1))] ++ replicate 12 LPhp ++ [LUser UDestroy] ++ replicate 10 LPhp.

Lemma reactor_safe_witness : exists s, reactor_run two_futures_destroyed reactor_create = Some s /\ freed s = true /\
  log s = [Added 0; Added 1; Delivered 1; Dropped 0] /\
  corrupt s = false /\ (freed s = true -> regs s = ∅ /\ io s = ∅ /\ forall r, ~ waiting s r).
Proof.
  eexists. split; [vm_compute; reflexivity|]. split; [reflexivity|]. split; [reflexivity|].
  apply (proj1 reactor_safe two_futures_destroyed); vm_compute; reflexivity.
Defined.
