(* ===== verification/ReactorOnce.v ===== *)
(** The books of the shared reactor: every future that was registered is given to PHP code once, or
    dropped once when the reactor is reset, or still held. *)
From S2P Require Import Prelude Notifier Reactor ReactorInv ReactorSafe.
From stdpp Require Import gmap.
#[local] Open Scope Z_scope.

#[export] Instance event_eq_dec : EqDecision event.
Proof. solve_decision. Defined.

(** ** Counting *)

Definition occurs {A} `{EqDecision A} (x : A) (l : list A) : Z := zlen (filter (eq x) l).

Lemma occurs_app {A} `{EqDecision A} (x : A) l l' : occurs x (l ++ l') = occurs x l + occurs x l'.
Proof. unfold occurs. by rewrite filter_app, zlen_app. Qed.

Lemma occurs_cons {A} `{EqDecision A} (x y : A) l : occurs x (y :: l) = (if decide (x = y) then 1 else 0) + occurs x l.
Proof. unfold occurs. rewrite filter_cons. destruct (decide (x = y)); [by rewrite zlen_cons|done]. Qed.

Lemma occurs_snoc {A} `{EqDecision A} (x y : A) l : occurs x (l ++ [y]) = occurs x l + (if decide (x = y) then 1 else 0).
Proof. rewrite occurs_app, occurs_cons. change (occurs x []) with 0. lia. Qed.

Lemma occurs_nonneg {A} `{EqDecision A} (x : A) l : 0 <= occurs x l.
Proof. apply zlen_nonneg. Qed.

(** The registrations of an object that wait to be delivered: those of running callbacks are not. *)
Definition holds (o : nat) (ks : list caller) (rg : nat * reg) : Prop := future_obj rg.2 = Some o /\ rg.1 ∉ map caller_reg ks.

#[local] Instance holds_dec o ks rg : Decision (holds o ks rg).
Proof. unfold holds. apply _. Defined.

Definition held_in (o : nat) (ks : list caller) (m : gmap nat reg) : Z := Z.of_nat (size (filter (holds o ks) m)).

Definition held (o : nat) (s : reactor_state) : Z := held_in o (callers s) (regs s).

(** The objects a poll has taken and not yet returned. *)
Definition php_out (p : php_pc) : list nat :=
  match p with
  | PConsume _ _ _ out | PRequeue _ _ out | PRequeueLink _ _ out | PRequeueSignal _ out | PRequeueUnlock _ out | PReclaim _ out => out
  | _ => []
  end.

Definition outs (s : reactor_state) : list nat := php_out (php s) ++ concat (map caller_out (callers s)).

Definition ledger (o : nat) (s : reactor_state) : Z :=
  occurs (Added o) (log s) - occurs (Delivered o) (log s) - occurs (Dropped o) (log s) - held o s - occurs o (outs s).

Record books (s : reactor_state) : Prop := {
  b_ledger : forall o, ledger o s = 0;
  b_slots : forall r g, regs s !! r = Some g -> is_Some (objects s !! reg_slot g);
  b_outs : forall o, o ∈ outs s -> is_Some (objects s !! o);
  b_discard : forall d h t out, php s = PConsume (Discard d) h t out -> out = []
}.

(** ** The count of registrations *)

Definition same_object (g : reg) : option nat * nat := (future_obj g, reg_slot g).

Lemma size_dom_eq (m m' : gmap nat reg) : (forall r, is_Some (m !! r) <-> is_Some (m' !! r)) -> size m = size m'.
Proof. intros H. rewrite <- !size_dom. f_equal. apply set_eq. intros r. by rewrite !elem_of_dom. Qed.

Lemma filter_some (P : nat * reg -> Prop) `{forall x, Decision (P x)} (m : gmap nat reg) r :
  is_Some (filter P m !! r) <-> exists g, m !! r = Some g /\ P (r, g).
Proof.
  split; [intros [g Hg]; apply map_lookup_filter_Some in Hg; by exists g|]. intros (g & Hg & HP). exists g. by apply map_lookup_filter_Some.
Qed.

Lemma held_same o ks m m' : same future_obj m m' -> held_in o ks m = held_in o ks m'.
Proof.
  intros H. unfold held_in. f_equal. apply size_dom_eq. intros r. rewrite !filter_some. unfold holds. cbn.
  split; intros (g & Hg & Ho & Hk).
  - destruct (same_lookup future_obj m m' r g H Hg) as (g' & Hg' & E). exists g'. split_and!; [done|congruence|done].
  - specialize (H r). rewrite Hg in H. destruct (m !! r) as [g'|] eqn:E; [|done]. exists g'. split_and!; [done|cbn in H; congruence|done].
Qed.

(** One registration more. *)
Lemma held_insert o ks m m' r g : m !! r = None -> m' !! r = Some g -> same_but r future_obj m m' -> r ∉ map caller_reg ks ->
  held_in o ks m' = held_in o ks m + (if decide (future_obj g = Some o) then 1 else 0).
Proof.
  intros Hno Hg Hbut Hr. assert (held_in o ks m' = held_in o ks (<[r := g]> m)) as ->.
  { apply held_same. intros x. destruct (decide (x = r)) as [->|Hx]; [by rewrite lookup_insert_eq, Hg|].
    rewrite lookup_insert_ne by congruence. symmetry. by apply Hbut. }
  unfold held_in. destruct (decide (future_obj g = Some o)) as [E|E].
  - rewrite map_filter_insert_True by done. rewrite map_size_insert_None; [lia|]. apply map_lookup_filter_None. by left.
  - rewrite map_filter_insert_False by (by intros [? _]). rewrite delete_id by done. lia.
Qed.

(** One registration less, by release or because its callback is called. *)
Lemma held_drop o ks ks' m m' r g : m !! r = Some g -> r ∉ map caller_reg ks -> same_but r future_obj m m' ->
  (m' !! r = None /\ ks' = ks \/ exists k, ks' = k :: ks /\ caller_reg k = r) ->
  held_in o ks' m' = held_in o ks m - (if decide (future_obj g = Some o) then 1 else 0).
Proof.
  intros Hg Hr Hbut Hgone. assert (held_in o ks' m' = held_in o ks (delete r m)) as ->.
  { unfold held_in. f_equal. apply size_dom_eq. intros x. rewrite !filter_some. unfold holds. cbn. destruct (decide (x = r)) as [->|Hx].
    - rewrite lookup_delete_eq. split; [|by intros (? & ? & _)]. intros (g' & Hg' & _ & Hk). destruct Hgone as [[E _]|(k & -> & <-)]; [congruence|].
      exfalso. apply Hk. by left.
    - rewrite lookup_delete_ne by congruence. specialize (Hbut x Hx).
      assert (x ∉ map caller_reg ks' <-> x ∉ map caller_reg ks) as Hks.
      { destruct Hgone as [[_ ->]|(k & -> & <-)]; [done|]. cbn. rewrite elem_of_cons. tauto. }
      split; intros (g' & Hg' & Ho & Hk); rewrite Hg' in Hbut.
      + destruct (m !! x) as [g2|]; [|done]. exists g2. cbn in Hbut. split_and!; [done|congruence|tauto].
      + destruct (m' !! x) as [g2|]; [|done]. exists g2. cbn in Hbut. split_and!; [done|congruence|tauto]. }
  unfold held_in. rewrite map_filter_delete. destruct (decide (future_obj g = Some o)) as [E|E].
  - assert (filter (holds o ks) m !! r = Some g) as Hf by (by apply map_lookup_filter_Some). rewrite map_size_delete_Some by (by eexists).
    assert (size (filter (holds o ks) m) <> 0%nat); [|lia]. intros H0. apply map_size_empty_inv in H0. rewrite H0 in Hf. by rewrite lookup_empty in Hf.
  - rewrite delete_id; [lia|]. apply map_lookup_filter_None. right. intros g' Hg' [E' _]. cbn in E'. simplify_eq.
Qed.

(** The registration of a callback that has returned. *)
Lemma held_return o k ks m m' : caller_reg k ∉ map caller_reg ks -> same_but (caller_reg k) future_obj m m' -> m' !! caller_reg k = None ->
  held_in o ks m' = held_in o (k :: ks) m.
Proof.
  intros Hk Hbut Hno. unfold held_in. f_equal. apply size_dom_eq. intros x. rewrite !filter_some. unfold holds. cbn. destruct (decide (x = caller_reg k)) as [->|Hx].
  - rewrite Hno. split; [by intros (? & ? & _)|]. intros (g & _ & _ & Hn). exfalso. apply Hn. by left.
  - specialize (Hbut x Hx). split; intros (g & Hg & Ho & Hn); rewrite Hg in Hbut.
    + destruct (m !! x) as [g2|]; [|done]. exists g2. cbn in Hbut. rewrite elem_of_cons. split_and!; [done|congruence|tauto].
    + destruct (m' !! x) as [g2|]; [|done]. exists g2. cbn in Hbut. rewrite elem_of_cons in Hn. split_and!; [done|congruence|tauto].
Qed.

(** ** Steps that do not touch the books *)

Definition objects_kept (s s' : reactor_state) : Prop := forall o, is_Some (objects s !! o) -> is_Some (objects s' !! o).

Lemma change_object_kept o f s : objects_kept s (change_object o f s).
Proof.
  intros x [b Hb]. cbn. destruct (decide (x = o)) as [->|]; [rewrite lookup_alter_eq, Hb|rewrite lookup_alter_ne by congruence; rewrite Hb]; by eexists.
Qed.

Lemma books_frame s s' : books s -> same same_object (regs s) (regs s') -> callers s' = callers s -> log s' = log s ->
  php_out (php s') = php_out (php s) -> objects_kept s s' -> (forall d h t out, php s' = PConsume (Discard d) h t out -> out = []) -> books s'.
Proof.
  intros [] Hr Ec El Ep Ho Hd.
  assert (outs s' = outs s) as Eo by (unfold outs; by rewrite Ep, Ec).
  constructor; [|..|done].
  - intros o. rewrite <- (b_ledger0 o). unfold ledger, held. rewrite El, Ec, Eo. f_equal. f_equal. apply held_same.
    intros r. specialize (Hr r). destruct (regs s !! r), (regs s' !! r); cbn in *; try done. unfold same_object in Hr. congruence.
  - intros r g Hg. specialize (Hr r). rewrite Hg in Hr. destruct (regs s !! r) as [g0|] eqn:E; [|done]. cbn in Hr. unfold same_object in Hr.
    apply Ho. replace (reg_slot g) with (reg_slot g0) by congruence. by apply (b_slots0 r).
  - intros o. rewrite Eo. intros Hin. by apply Ho, b_outs0.
Qed.

(** The rest of the state is as the frame wants it. *)
Ltac frame s := apply (books_frame s); try done; try exact (fun o H => H).

Lemma change_next_same x v s : same same_object (regs s) (regs (change_reg x (set_next_ready v) s)).
Proof.
  unfold change_reg, with_reg. destruct (regs s !! x) as [g|] eqn:E; [|done]. cbn. rewrite (ReactorInv.insert_alter (set_next_ready v)) by done. by apply same_alter.
Qed.

Lemma change_reg_rest x f s : callers (change_reg x f s) = callers s /\ log (change_reg x f s) = log s /\ php (change_reg x f s) = php s /\
  objects (change_reg x f s) = objects s /\ ready_tail (change_reg x f s) = ready_tail s.
Proof. unfold change_reg, with_reg. by destruct (regs s !! x). Qed.

Lemma push_ready_rest r s : same same_object (regs s) (regs (push_ready r s)) /\ callers (push_ready r s) = callers s /\ log (push_ready r s) = log s /\
  php (push_ready r s) = php s /\ objects (push_ready r s) = objects s.
Proof.
  unfold push_ready. set (s1 := change_reg r (set_next_ready None) s). pose proof (change_next_same r None s) as H1.
  destruct (change_reg_rest r (set_next_ready None) s) as (E1 & E2 & E3 & E4 & _). fold s1 in H1, E1, E2, E3, E4. clearbody s1. destruct (ready_tail s1) as [t|]; [|done].
  destruct (change_reg_rest t (set_next_ready (Some r)) s1) as (F1 & F2 & F3 & F4 & _). cbn.
  split; [etransitivity; [exact H1|apply change_next_same]|]. split_and!; congruence.
Qed.

Lemma enqueue_rest t r pc s next s1 : enqueue_step t r pc s = Some (next, s1) ->
  same same_object (regs s) (regs s1) /\ callers s1 = callers s /\ log s1 = log s /\ php s1 = php s /\ objects s1 = objects s.
Proof.
  intros H. destruct pc; cbn in H.
  - destruct (regs s !! r) as [g|] eqn:Hg; [destruct (enqueued g)|]; injection H as <- <-; try done. cbn.
    rewrite (ReactorInv.insert_alter (set_enqueued true)) by done. split; [by apply same_alter|done].
  - destruct (freed s); [by injection H as <- <-|]. destruct (mutex s); [done|]. unfold with_reg in H. destruct (regs s !! r); by injection H as <- <-.
  - injection H as <- <-. apply push_ready_rest.
  - destruct (freed s); by injection H as <- <-.
  - destruct (freed s); by injection H as <- <-.
Qed.

Lemma requeue_rest h s : same same_object (regs s) (regs (requeue_front h s)) /\ callers (requeue_front h s) = callers s /\
  log (requeue_front h s) = log s /\ php (requeue_front h s) = php s /\ objects (requeue_front h s) = objects s.
Proof.
  unfold requeue_front. destruct (last_ready _ h s) as [t|]; [|done].
  pose proof (change_next_same t (ready_head s) s). destruct (change_reg_rest t (set_next_ready (ready_head s)) s) as (? & ? & ? & ? & _).
  cbn. by destruct (ready_tail (change_reg t (set_next_ready (ready_head s)) s)).
Qed.

Lemma not_discard_out p : match p with PConsume (Discard _) _ _ (_ :: _) => False | _ => True end ->
  forall d h t out, p = PConsume (Discard d) h t out -> out = [].
Proof. intros H d h t out ->. by destruct out. Qed.

(** ** Taking, calling, dropping *)

Lemma reg_release_rest r s g : regs s !! r = Some g -> reg_refcount g = 2 ->
  regs (reg_release r s) = delete r (regs s) /\ log (reg_release r s) = log s /\ callers (reg_release r s) = callers s /\
  php (reg_release r s) = php s /\ objects_kept s (reg_release r s).
Proof.
  intros Hg H2. unfold reg_release, with_reg. rewrite Hg, H2. cbn. unfold reactor_unref.
  destruct (future_obj g); cbn; (destruct (refs s =? 1); cbn); (split; [done|]); (split; [done|]); (split; [done|]); (split; [done|]);
    first [exact (fun o H => H)|exact (change_object_kept _ _ s)].
Qed.

(** The registration [r] is released after its object was taken out of it. *)
Lemma take_out_rest r s m g : regs s = m -> m !! r = Some g -> reg_refcount g = 2 ->
  let s' := reg_release r (change_reg r (set_future_obj None) s) in
  (forall A (p : reg -> A), same_but r p m (regs s')) /\ regs s' !! r = None /\ log s' = log s /\ callers s' = callers s /\
  php s' = php s /\ objects_kept s s'.
Proof.
  intros <- Hg H2 s'. set (s1 := set_regs (alter (set_future_obj None) r (regs s)) s).
  assert (s' = reg_release r s1) as E by (subst s'; by rewrite change_reg_eq).
  destruct (reg_release_rest r s1 (set_future_obj None g)) as (Er & El & Ec & Ep & Ho); [cbn; by rewrite lookup_alter_eq, Hg|done|].
  rewrite E, Er. split; [intros A p x Hx; cbn; by rewrite lookup_delete_ne, lookup_alter_ne by congruence|]. split; [apply lookup_delete_eq|].
  done.
Qed.

(** No registration changes its slot. *)
Definition slots_kept (m m' : gmap nat reg) : Prop := forall x g, m' !! x = Some g -> reg_slot <$> m !! x = Some (reg_slot g).

Lemma books_take s s' o out r g : books s -> regs s !! r = Some g -> future_obj g = Some o -> o = reg_slot g -> r ∉ map caller_reg (callers s) ->
  same_but r future_obj (regs s) (regs s') -> slots_kept (regs s) (regs s') -> objects_kept s s' ->
  (forall d h t out, php s' = PConsume (Discard d) h t out -> out = []) ->
  (regs s' !! r = None /\ callers s' = callers s \/ exists k, callers s' = k :: callers s /\ caller_reg k = r) ->
  (log s' = log s ++ [Delivered o] \/ log s' = log s ++ [Dropped o]) /\ out = [] \/ log s' = log s /\ out = [o] ->
  outs s' ≡ₚ out ++ outs s -> books s'.
Proof.
  intros [] Hg Ho Hslot Hr Hfo Hslots Hobj Hd Hgone Hlog Hout. constructor; try done.
  - intros o'. specialize (b_ledger0 o'). unfold ledger, held in *. rewrite (held_drop o' _ _ _ _ r g Hg Hr Hfo Hgone), Ho.
    assert (occurs o' (outs s') = occurs o' (out ++ outs s)) as -> by (unfold occurs, zlen; by rewrite Hout). rewrite occurs_app.
    destruct Hlog as [[[-> | ->] ->]|[-> ->]]; rewrite ?occurs_snoc, ?occurs_cons; change (occurs o' []) with 0;
      repeat case_decide; simplify_eq; try done; lia.
  - intros x gx Hx. apply Hslots in Hx. destruct (regs s !! x) as [g0|] eqn:E; [|done]. cbn in Hx. injection Hx as <-. by apply Hobj, (b_slots0 x).
  - intros x Hx. rewrite Hout, elem_of_app in Hx. apply Hobj. destruct Hx as [Hx|Hx]; [|by apply b_outs0].
    destruct Hlog as [[_ ->]|[_ ->]]; [by apply elem_of_nil in Hx|]. apply list_elem_of_singleton in Hx as ->. rewrite Hslot. by apply (b_slots0 r).
Qed.

Lemma core_slots m m' : same core m m' -> slots_kept m m' /\ same future_obj m m'.
Proof.
  intros H. split; intros x; specialize (H x).
  - intros g E. rewrite E in H. destruct (m !! x); cbn in *; [|done]. unfold core in H. congruence.
  - destruct (m !! x), (m' !! x); cbn in *; try done. unfold core in H. congruence.
Qed.

Lemma slots_trans m1 m2 m3 r : slots_kept m1 m2 -> same_but r reg_slot m2 m3 -> m3 !! r = None -> slots_kept m1 m3.
Proof.
  intros H Hb Hr x g Hx. assert (x <> r) as Hne by (by intros ->; congruence). specialize (Hb x Hne). rewrite Hx in Hb.
  destruct (m2 !! x) as [g2|] eqn:E; [|done]. rewrite (H x g2 E). cbn in Hb. congruence.
Qed.

Lemma consume_books s c r taken out : reactor_inv s -> books s -> php s = PConsume c (Some r) taken out -> books (consume_turn c r taken out s).
Proof.
  intros (rl & ll & kl & dl & Hs & Hf) Hb Ep.
  pose proof (s_local _ _ _ _ _ Hs) as Hl. rewrite Ep in Hl. cbn in Hl. destruct ll as [|x ll]; [done|]. destruct Hl as ([= <-] & g & Hg & Hl).
  assert (r ∈ dl) as Hr by (apply (queue_sub _ _ _ _ _ r Hf), elem_of_app; right; by left).
  destruct (s_regs _ _ _ _ _ Hs r g Hg) as (H2 & Hlt & Hobj).
  assert (r ∉ map caller_reg (callers s)) as Hrk.
  { pose proof (s_nodup _ _ _ _ _ Hs) as Hnd. apply list.NoDup_app in Hnd as (_ & Hnd & _). by apply Hnd. }
  destruct (unregister_live _ _ _ _ _ r Hs Hr) as (m & h & dl' & Eu & Hcore & _).
  destruct (same_lookup core (regs s) m r g Hcore Hg) as (g' & Hg' & Ecore).
  assert (reg_refcount g' = 2) as H2' by (unfold core in Ecore; congruence).
  destruct (core_slots _ _ Hcore) as [Hslots Hfo].
  pose proof (not_discard_out (php s)) as Hnd. pose proof (b_discard _ Hb) as Hbd. rewrite Ep in Hnd, Hbd.
  unfold consume_turn, with_reg. rewrite Hg, Hobj, Eu. set (o := reg_slot g) in *.
  (* the registration is released *)
  assert (forall s1 out' new, regs s1 = m -> callers s1 = callers s -> objects_kept s s1 -> (match c with Discard _ => out' = [] | _ => True end) ->
    (log s1 = log s ++ [Delivered o] \/ log s1 = log s ++ [Dropped o]) /\ new = [] \/ log s1 = log s /\ new = [o] -> out' ≡ₚ new ++ out ->
    books (set_php (PConsume c (next_ready g) (taken + 1) out') (reg_release r (change_reg r (set_future_obj None) s1)))) as Hgone.
  { intros s1 out' new E1 E2 E3 E4 E5 E6. destruct (take_out_rest r s1 m g' E1 Hg' H2') as (Hbut & Hno & El & Ec & _ & Hok).
    set (s2 := reg_release r _) in *. clearbody s2. apply (books_take s _ o new r g); try done.
    - intros x Hx. cbn. by rewrite <- (Hbut _ future_obj x Hx).
    - cbn. by apply (slots_trans _ m _ r).
    - intros x Hx. by apply Hok, E3.
    - cbn. apply not_discard_out. destruct c; [done|]. by rewrite E4.
    - left. cbn. split; [done|congruence].
    - cbn. by rewrite El.
    - unfold outs. cbn. rewrite Ec, E2, Ep, E6. cbn. by rewrite app_assoc. }
  destruct c as [max|d].
  - destruct (fcc g).
    + apply (books_take s _ o [] r g); try done.
      * cbn. intros x _. apply Hfo.
      * exact (change_object_kept o (set_reactor_reg None) s).
      * right. by eexists.
      * left. split; [by left|done].
      * unfold outs. cbn. by rewrite Ep.
    + apply (Hgone _ _ [o]); try done; [exact (change_object_kept o (set_reactor_reg None) s)|by right|]. apply Permutation_app_comm.
  - rewrite (Hbd d _ _ _ eq_refl) in *. apply (Hgone _ _ []); try done; [|left; split; [by right|done]].
    intros x Hx. unfold record_event, release_pin. cbn [objects set_log]. apply (change_object_kept _ _ (change_object o (set_reactor_reg None) s)). by apply (change_object_kept o (set_reactor_reg None) s).
Qed.

Lemma add_fails_books s r f : reactor_inv s -> books s -> php s = PCheck r f false -> books (add_fails r s).
Proof.
  intros (rl & ll & kl & dl & Hs & Hf) Hb Ep. pose proof (f_php _ _ _ _ _ Hf) as Hk. unfold php_knows in Hk. rewrite Ep in Hk. destruct Hk as (Hr & _).
  destruct (live_reg _ _ _ _ _ _ Hs Hr) as [g Hg]. destruct (s_regs _ _ _ _ _ Hs r g Hg) as (H2 & Hlt & Hobj).
  assert (r ∉ map caller_reg (callers s)) as Hrk.
  { pose proof (s_nodup _ _ _ _ _ Hs) as Hnd. apply list.NoDup_app in Hnd as (_ & Hnd & _). by apply Hnd. }
  assert (freed s = false) as Hfr by (apply (busy_not_freed _ _ _ _ _ Hs); by rewrite Ep).
  unfold add_fails, with_reg. rewrite Hg, Hobj. set (o := reg_slot g) in *.
  set (s1 := record_event (Dropped o) (change_object o (set_reactor_reg None) s)).
  assert (shape s1 rl ll kl dl) as Hs1 by (apply (shape_frame s); try done; [congruence|apply Hs]).
  destruct (unregister_live _ _ _ _ _ r Hs1 Hr) as (m & h & dl' & Eu & Hcore & _). rewrite Eu.
  destruct (same_lookup core (regs s) m r g Hcore Hg) as (g' & Hg' & Ecore). destruct (core_slots _ _ Hcore) as [Hslots Hfo].
  set (s2 := set_pending _ _). destruct (reg_release_rest r s2 g' Hg') as (Er & El & Ec & _ & Hok); [unfold core in Ecore; congruence|].
  set (s3 := reg_release r s2) in *. clearbody s3. apply (books_take s _ o [] r g); try done; cbn; rewrite ?Er, ?El, ?Ec.
  - intros x Hx. cbn. rewrite lookup_delete_ne by congruence. apply Hfo.
  - apply (slots_trans _ m _ r); [done|intros x Hx; by rewrite lookup_delete_ne by congruence|apply lookup_delete_eq].
  - intros x Hx. apply Hok. by apply (change_object_kept o (set_reactor_reg None) s).
  - left. split; [apply lookup_delete_eq|done].
  - left. split; [by right|done].
  - unfold outs. cbn. by rewrite ?Ec, Ep.
Qed.

Lemma books_create s s' o r g : books s -> regs s !! r = None -> regs s' !! r = Some g -> same_object g = (Some o, o) ->
  same_but r same_object (regs s) (regs s') -> r ∉ map caller_reg (callers s) -> objects_kept s s' -> is_Some (objects s !! o) ->
  callers s' = callers s -> (forall d h t out, php s' = PConsume (Discard d) h t out -> out = []) ->
  (log s' = log s ++ [Added o] /\ outs s' = outs s \/ log s' = log s /\ outs s = o :: outs s') -> books s'.
Proof.
  intros [] Hno Hg Ho Hbut Hr Hobj Hso Ec Hd Hlog. injection Ho as Ho Hslot.
  assert (same_but r future_obj (regs s) (regs s')) as Hfo.
  { intros x Hx. specialize (Hbut x Hx). destruct (regs s !! x), (regs s' !! x); cbn in *; try done. unfold same_object in Hbut. congruence. }
  constructor; try done.
  - intros o'. specialize (b_ledger0 o'). unfold ledger, held in *. rewrite Ec, (held_insert o' _ _ _ r g Hno Hg Hfo Hr), Ho.
    destruct Hlog as [[-> ->]|[-> Eo]]; [rewrite !occurs_snoc|rewrite Eo, occurs_cons in b_ledger0]; repeat case_decide; simplify_eq; try done; lia.
  - intros x gx Hx. apply Hobj. destruct (decide (x = r)) as [->|Hxr]; [simplify_eq; done|].
    specialize (Hbut x Hxr). rewrite Hx in Hbut. destruct (regs s !! x) as [g0|] eqn:E; [|done]. cbn in Hbut. unfold same_object in Hbut.
    replace (reg_slot gx) with (reg_slot g0) by congruence. by apply (b_slots0 x).
  - intros x Hx. apply Hobj, b_outs0. destruct Hlog as [[_ <-]|[_ ->]]; [done|by right].
Qed.

Lemma fresh_not_caller s rl ll kl dl : shape s rl ll kl dl -> fresh_reg s ∉ map caller_reg (callers s).
Proof.
  intros Hs Hin. destruct (fresh_absent _ _ _ _ _ Hs) as [Hno _].
  assert (is_Some (regs s !! fresh_reg s)) as [g E]; [|congruence]. apply (s_dom _ _ _ _ _ Hs), elem_of_app. by right.
Qed.

Lemma core_object r m m' : same_but r core m m' -> same_but r same_object m m'.
Proof. intros H x Hx. specialize (H x Hx). destruct (m !! x), (m' !! x); cbn in *; try done. unfold core, same_object in *. congruence. Qed.

Lemma alter_objects_kept f o s s' : objects s' = alter f o (objects s) -> objects_kept s s'.
Proof. intros E x Hx. rewrite E. by apply (change_object_kept o f s). Qed.

Lemma reactor_add_books s o cb : reactor_inv s -> books s -> php s = PUser -> books (reactor_add o cb s).
Proof.
  intros (rl & ll & kl & dl & Hs & Hf) Hb Ep. unfold reactor_add. destruct (objects s !! o) as [b|] eqn:Eo; [|done].
  destruct (claim_reactor b); [|done]. destruct (fresh_absent _ _ _ _ _ Hs) as [Hno Hnd].
  destruct (reg_create_ok o (obj_future b) cb (record_event (Added o) s) dl) as (m & Er & Hm & Hcore & _);
    [apply Hs|apply (dl_nodup _ _ _ _ _ Hs)|done|]. cbn in Hm, Hcore. rewrite Er.
  assert (forall p, php_out p = [] -> (forall d h t out, p = PConsume (Discard d) h t out -> out = []) ->
    books (set_php p (set_pending (pending s + 1) (set_registered (Some (fresh_reg s)) (set_regs m (set_objects (alter (pin_registered (fresh_reg s)) o (objects s))
          (set_fresh_reg (S (fresh_reg s)) (set_refs (refs s + 1) (record_event (Added o) s))))))))) as Hgo.
  { intros p Hp Hd. eapply (books_create s _ o (fresh_reg s)); try done.
    - by apply core_object.
    - by apply (fresh_not_caller _ _ _ _ _ Hs).
    - by apply (alter_objects_kept (pin_registered (fresh_reg s)) o).
    - left. split; [done|]. unfold outs. cbn. by rewrite Hp, Ep. }
  destruct (obj_future b); by apply Hgo.
Qed.

Lemma callback_done_books s k ks p : reactor_inv s -> books s -> php s = PUser -> callers s = k :: ks ->
  php_out p = caller_out k -> (forall d h t out, p = PConsume (Discard d) h t out -> out = []) ->
  books (set_php p (callback_done k (set_callers ks s))).
Proof.
  intros (rl & ll & kl & dl & Hs & Hf) Hb Ep Ek Hp Hd. destruct (caller_in _ _ _ _ _ _ _ Hs Ek) as (HP & Hr & [g Hg]).
  destruct (s_regs _ _ _ _ _ Hs _ g Hg) as (H2 & Hlt & Hobj).
  unfold callback_done, with_reg. cbn [regs set_callers]. rewrite Hg, Hobj. set (s1 := release_pin (reg_slot g) (set_callers ks s)).
  destruct (take_out_rest (caller_reg k) s1 (regs s) g eq_refl Hg H2) as (Hbut & Hno & El & Ec & _ & Hok).
  set (s2 := reg_release _ _) in *. clearbody s2.
  assert (outs (set_php p s2) = outs s) as Eo by (unfold outs; cbn; by rewrite Ec, Hp, Ep, Ek).
  assert (forall x, is_Some (objects s !! x) -> is_Some (objects s2 !! x)) as Ho.
  { intros x Hx. apply Hok. by apply (change_object_kept (reg_slot g) (fun b => set_pins (pins b - 1) b) s). }
  destruct Hb. constructor; try done.
  - intros o. rewrite <- (b_ledger0 o). unfold ledger. rewrite Eo. unfold held. cbn [log callers regs set_php]. rewrite El, Ec, Ek. cbn [log s1 callers].
    f_equal. f_equal. apply held_return; [|by apply Hbut|done]. intros Hin. apply Hr, elem_of_app. by right.
  - intros x gx Hx. cbn in Hx |- *. apply Ho. assert (x <> caller_reg k) as Hne by (intros ->; congruence).
    specialize (Hbut _ reg_slot x Hne). rewrite Hx in Hbut. destruct (regs s !! x) as [g0|] eqn:E; [|done]. cbn in Hbut. injection Hbut as <-. by apply (b_slots0 x).
  - intros x. rewrite Eo. intros Hx. by apply Ho, b_outs0.
Qed.

Lemma reclaim_loop_books out : forall head s rl ll kl dl, shape (set_php (reclaimed true head) s) rl ll kl dl ->
  flow (set_php (reclaimed true head) s) rl ll kl dl -> freed s = false -> books (set_php (PReclaim true out) s) ->
  forall h' s', reclaim_loop out head (last ll) s = (h', s') -> books (set_php (PReclaim true []) s').
Proof.
  induction out as [|o out IH]; intros head s rl ll kl dl Hs Hf Hfr Hb h' s' H; cbn [reclaim_loop] in H; [by simplify_eq|].
  assert (is_Some (objects s !! o)) as [b Eo] by (apply (b_outs _ Hb); apply elem_of_app; left; by left). rewrite Eo in H.
  destruct (reg_create o (obj_future b) false s) as [r s1] eqn:Er.
  destruct (reclaim_one s true head rl ll kl dl o false (obj_future b) Hs Hf Hfr r s1 Er) as [Hs' Hf'].
  assert (forall x s3, shape (set_php x s3) rl (ll ++ [r]) kl (r :: dl) -> freed s3 = false) as Hfr'
    by (intros x s3 H0; apply (live_not_freed _ _ _ _ _ r H0); by left).
  specialize (Hfr' _ _ Hs'). cbv zeta in *.
  set (s2 := change_reg r (fun g => set_next_ready None (set_enqueued true g)) s1) in *.
  set (s3 := match last ll with Some t => change_reg t (set_next_ready (Some r)) s2 | None => s2 end) in *.
  assert (books (set_php (PReclaim true out) s3)) as Hb3.
  { destruct (fresh_absent _ _ _ _ _ Hs) as [Hno Hnd].
    destruct (reg_create_ok o (obj_future b) false s dl) as (m & Er' & Hm & Hcore & _); [apply Hs|apply (dl_nodup _ _ _ _ _ Hs)|done|].
    rewrite Er' in Er. injection Er as Hr Es1. cbn in Hno. rewrite Hr in *.
    assert (regs s1 = m /\ callers s1 = callers s /\ log s1 = log s /\ objects s1 = alter (pin_registered r) o (objects s)) as (A1 & A2 & A3 & A4) by (by rewrite <- Es1).
    assert (s2 = set_regs (alter (fun g => set_next_ready None (set_enqueued true g)) r m) s1) as E2 by (subst s2; rewrite change_reg_eq; rewrite A1; [done|by rewrite Hm]).
    assert (same same_object m (regs s3) /\ callers s3 = callers s /\ log s3 = log s /\ objects s3 = objects s1) as (B1 & B2 & B3 & B4).
    { assert (same same_object m (regs s2)) as B by (rewrite E2; by apply same_alter). subst s3. destruct (last ll) as [t|].
      - destruct (change_reg_rest t (set_next_ready (Some r)) s2) as (-> & -> & _ & -> & _). rewrite E2 at 2 3 4. cbn.
        split; [|done]. etransitivity; [exact B|]. apply change_next_same.
      - rewrite E2 at 2 3 4. done. }
    destruct (same_lookup same_object m (regs s3) r _ B1 Hm) as (g3 & Hg3 & Eg3).
    apply (books_create _ _ o r g3 Hb); try done; cbn; rewrite ?A4; try done.
    - intros x Hx. cbn. rewrite <- (B1 x). by apply (core_object r _ _ Hcore).
    - rewrite <- Hr. by apply (fresh_not_caller _ _ _ _ _ Hs).
    - apply (alter_objects_kept (pin_registered r) o). cbn. by rewrite B4.
    - right. split; [done|]. unfold outs. cbn. by rewrite B2. }
  destruct (last ll) as [t|] eqn:El.
  - apply (IH head s3 rl (ll ++ [r]) kl (r :: dl) Hs' Hf' Hfr' Hb3 h' s'). by rewrite last_snoc.
  - apply (IH (Some r) s3 rl (ll ++ [r]) kl (r :: dl) Hs' Hf' Hfr' Hb3 h' s'). by rewrite last_snoc.
Qed.

Lemma delivered_occurs o out : occurs (Delivered o) (map Delivered out) = occurs o out /\ occurs (Added o) (map Delivered out) = 0 /\
  occurs (Dropped o) (map Delivered out) = 0.
Proof.
  induction out as [|x out (IH1 & IH2 & IH3)]; [done|]. cbn [map]. rewrite !occurs_cons, IH1, IH2, IH3.
  repeat case_decide; simplify_eq; done.
Qed.

Lemma deliver_all_rest out : forall s, let s' := foldl (fun s o => record_event (Delivered o) (release_pin o s)) s out in
  log s' = log s ++ map Delivered out /\ regs s' = regs s /\ callers s' = callers s /\ objects_kept s s'.
Proof.
  induction out as [|o out IH]; intros s; cbn; [rewrite app_nil_r; split; [done|]; split; [done|]; split; [done|exact (fun o H => H)]|].
  destruct (IH (record_event (Delivered o) (release_pin o s))) as (-> & -> & -> & H). cbn. rewrite <- app_assoc. split; [done|]. split; [done|]. split; [done|].
  intros x Hx. apply H. by apply (change_object_kept o (fun b => set_pins (pins b - 1) b) s).
Qed.

Lemma poll_returns_books s out : books s -> php s = PReclaim false out -> books (poll_returns false out s).
Proof.
  intros [] Ep. destruct (deliver_all_rest out s) as (El & Er & Ec & Ho). unfold poll_returns.
  set (s1 := foldl _ s out) in *. clearbody s1.
  assert (outs s = out ++ outs (set_php PUser s1)) as Eo by (unfold outs; cbn; by rewrite Ep, Ec).
  constructor; try done.
  - intros o. specialize (b_ledger0 o). unfold ledger, held in *. cbn [log callers regs set_php]. rewrite El, Er, Ec, !occurs_app.
    destruct (delivered_occurs o out) as (-> & -> & ->). rewrite Eo, occurs_app in b_ledger0. lia.
  - intros x g. cbn. rewrite Er. intros Hx. by apply Ho, (b_slots0 x).
  - intros x Hx. apply Ho, b_outs0. rewrite Eo. apply elem_of_app. by right.
Qed.

Lemma release_all_rest out : forall s, let s' := foldl (fun s o => release_pin o s) s out in
  log s' = log s /\ regs s' = regs s /\ callers s' = callers s /\ objects_kept s s'.
Proof.
  induction out as [|o out IH]; intros s; cbn; [split; [done|]; split; [done|]; split; [done|exact (fun o H => H)]|].
  destruct (IH (release_pin o s)) as (-> & -> & -> & H). split; [done|]. split; [done|]. split; [done|].
  intros x Hx. apply H. by apply (change_object_kept o (fun b => set_pins (pins b - 1) b) s).
Qed.

Lemma reclaim_books s s' thrown out : reactor_inv s -> books s -> php s = PReclaim thrown out -> php_step s = Some s' -> books s'.
Proof.
  intros (rl & ll & kl & dl & Hs & Hf) Hb Ep H. unfold php_step in H. rewrite Ep in H. destruct thrown; [|by injection H as <-; apply poll_returns_books].
  destruct out as [|o out]; [injection H as <-; frame s; by rewrite Ep|].
  assert (freed s = false) as Hfr by (apply (busy_not_freed _ _ _ _ _ Hs); by rewrite Ep).
  assert (ll = []) as -> by (apply (local_nil _ _ _ _ _ Hs); by rewrite Ep).
  destruct (reclaim_loop (o :: out) None None s) as [h' s1] eqn:El.
  assert (books (set_php (PReclaim true []) s1)) as Hb1.
  { apply (reclaim_loop_books (o :: out) None s rl [] kl dl) with (h' := h'); try done.
    - apply (shape_frame s); try done; [by rewrite Ep|congruence|apply Hs].
    - apply (flow_move s); try done; rewrite ?Ep; try done.
      + apply no_php_flight; [done|by rewrite Ep|done].
      + apply (unlocked_any s _ _ _ _ _ Hf); try done. by rewrite Ep.
      + intros Hne. apply (waking_any s); try done; [by apply Hf|by rewrite Ep].
    - replace (set_php (PReclaim true (o :: out)) s) with s; [done|]. destruct s. cbn in Ep. by rewrite Ep. }
  destruct (release_all_rest (o :: out) s1) as (L1 & L2 & L3 & L4). set (s2 := foldl _ s1 _) in *. injection H as <-. clearbody s2.
  destruct h' as [h|]; frame (set_php (PReclaim true []) s1); cbn; by rewrite ?L2.
Qed.

(** ** Every step *)

Lemma drain_loop_books d s : books s -> php_out (php s) = [] -> books (drain_loop d s).
Proof. intros Hb Hp. unfold drain_loop. destruct (registered s); frame s. Qed.

Lemma php_books s s' : reactor_inv s -> books s -> php_step s = Some s' -> books s'.
Proof.
  intros Hi Hb H. pose proof (b_discard _ Hb) as Hd.
  destruct (php s) eqn:Ep; try (by apply (reclaim_books s s' thrown out)); unfold php_step in H; rewrite Ep in H; try done.
  - destruct (futures s !! f) as [fu|]; [|done]. cbn in H. destruct (set_callback (Some r) fu) as [[ok run] fu']. injection H as <-.
    frame s; [by rewrite Ep; destruct ok, run|by destruct ok, run].
  - unfold php_enqueue in H. destruct (enqueue_step Php r pc s) as [[next s1]|] eqn:E; [|done]. cbn in H. injection H as <-.
    destruct (enqueue_rest _ _ _ _ _ _ E) as (H1 & H2 & H3 & H4 & H5). frame s; [by rewrite Ep; destruct next|intros x; cbn; by rewrite H5|by destruct next].
  - destruct (negb ok && _) eqn:E1; [injection H as <-; destruct ok; [done|by apply (add_fails_books s r f)]|].
    destruct (negb ok || _); injection H as <-; frame s; by rewrite Ep.
  - unfold php_enqueue in H. destruct (enqueue_step Php r pc s) as [[next s1]|] eqn:E; [|done]. cbn in H. injection H as <-.
    destruct (enqueue_rest _ _ _ _ _ _ E) as (H1 & H2 & H3 & H4 & H5). frame s; [by rewrite Ep; destruct next|intros x; cbn; by rewrite H5|by destruct next].
  - destruct r as [r|]; [|injection H as <-; frame s; by rewrite Ep].
    destruct (regs s !! r) as [g|]; [|injection H as <-; frame s; cbn; by rewrite Ep].
    destruct (reg_future g) as [f|]; [destruct (future_ready f s); [|done]|]; injection H as <-; frame s; by rewrite Ep.
  - destruct (0 <? fd_counter s); injection H as <-; frame s; cbn; by rewrite Ep.
  - unfold php_lock in H. destruct (mutex s); [done|]. injection H as <-. frame s; by rewrite Ep.
  - injection H as <-. frame s; by rewrite Ep.
  - destruct c as [max|d]; [|destruct head as [h|]]; injection H as <-.
    + frame s; by rewrite Ep.
    + frame s; [by rewrite Ep|]. by apply not_discard_out.
    + apply (drain_loop_books d (set_mutex None s)); [|cbn; by rewrite Ep]. frame s. cbn. by rewrite Ep.
  - assert (forall h, (c = Poll (consumer_max c) \/ h = None) -> h = head -> books (after_consume c h false out s)) as Hend.
    { intros h Hc ->. unfold after_consume. destruct c as [max|d]; [destruct head; frame s; by rewrite Ep|].
      apply drain_loop_books; [done|]. rewrite Ep. by apply (Hd d head taken out). }
    destruct head as [r|]; [|injection H as <-; apply Hend; by auto]. destruct ((consumer_max c =? 0) || _) eqn:E; injection H as <-; [by apply consume_books|].
    apply Hend; [|done]. destruct c; [by left|done].
  - unfold php_lock in H. destruct (mutex s); [done|]. injection H as <-. frame s; by rewrite Ep.
  - injection H as <-. destruct (requeue_rest head s) as (H1 & H2 & H3 & H4 & H5). frame s; [by rewrite Ep|intros x; cbn; by rewrite H5].
  - injection H as <-. frame s; by rewrite Ep.
  - injection H as <-. frame s; by rewrite Ep.
  - destruct destroy; [injection H as <-; unfold reactor_unref; destruct (refs s =? 1); frame s; by rewrite Ep|].
    destruct (0 <? fd_counter s); injection H as <-; frame s; cbn; by rewrite Ep.
Qed.

Lemma user_books s s' u : reactor_inv s -> books s -> user_step u s = Some s' -> books s'.
Proof.
  intros Hi Hb H. unfold user_step in H. destruct (freed s); [done|]. destruct (php s) eqn:Ep; try done.
  assert (php_out (php s) = []) as Eo by (by rewrite Ep).
  destruct u as [o f|o|o cb|max| | | |].
  - destruct (objects s !! o); [done|]. destruct (f ≫= _); [done|]. injection H as <-.
    assert (forall s1, objects s1 = <[o := {| obj_future := f; obj_notifier := false; reactor_reg := None; pins := 0 |}]> (objects s) -> objects_kept s s1) as Hk.
    { intros s1 E x [b Hx]. rewrite E. destruct (decide (x = o)) as [->|]; [rewrite lookup_insert_eq|rewrite lookup_insert_ne by congruence; rewrite Hx]; by eexists. }
    destruct f; (frame s; [by apply Hk|by cbn; rewrite Ep]).
  - injection H as <-. unfold watch. destruct (objects s !! o) as [b|]; [|done]. destruct (claim_notifier b); [|done].
    assert (forall s1, objects s1 = alter (set_obj_notifier true) o (objects s) -> objects_kept s s1) as Hk by (apply alter_objects_kept).
    destruct (obj_future b) as [f|]; [|frame s; [by apply Hk|by cbn; rewrite Ep]]. destruct (futures s !! f) as [fu|]; [|done].
    destruct (set_callback None fu) as [[ok run] fu']. destruct (ok || is_set_ fu'); frame s; try (by apply Hk); by cbn; rewrite Ep.
  - injection H as <-. by apply reactor_add_books.
  - injection H as <-. unfold reactor_poll. destruct max as [m|]; [destruct (m <? 1); [done|]|]; by frame s.
  - destruct (callers s) as [|k ks] eqn:Ek; [done|]. injection H as <-. by apply callback_done_books.
  - destruct (callers s) as [|k ks] eqn:Ek; [done|]. injection H as <-. unfold after_consume. destruct (caller_head k); by apply callback_done_books.
  - destruct (callers s); [|done]. injection H as <-. by apply drain_loop_books.
  - destruct (callers s); [|done]. injection H as <-. by apply drain_loop_books.
Qed.

Lemma step_books l s s' : reactor_inv s -> books s -> reactor_step l s = Some s' -> books s'.
Proof.
  intros Hi Hb H. pose proof (b_discard _ Hb) as Hd. destruct l as [f|r| |u]; [..|by apply (php_books s)|by apply (user_books s s' u)]; cbn [reactor_step] in H.
  - destruct (futures s !! f) as [[b cb]|]; [|done]. cbn in H. destruct b; [done|]. injection H as <-. destruct cb as [[r|]|]; frame s.
  - destruct (io s !! r) as [pc|]; [|done]. cbn in H. destruct (enqueue_step (Io r) r pc s) as [[next s1]|] eqn:E; [|done]. cbn in H. injection H as <-.
    destruct (enqueue_rest _ _ _ _ _ _ E) as (H1 & H2 & H3 & H4 & H5). frame s; cbn; rewrite ?H4; try done. intros x. cbn. by rewrite H5.
Qed.

Lemma create_books : books reactor_create.
Proof.
  constructor; try done.
  intros o Ho. by apply elem_of_nil in Ho.
Qed.

Lemma run_books ls : forall s s', reactor_inv s -> books s -> prompt ls s = true -> reactor_run ls s = Some s' -> books s'.
Proof.
  induction ls as [|l ls IH]; intros s s' Hi Hb Hp H; cbn in H, Hp; [by simplify_eq|].
  apply andb_true_iff in Hp as [Ho Hp]. destruct (reactor_step l s) as [s1|] eqn:E; [|done]. cbn in H.
  apply (IH s1 s'); [|by apply (step_books l s)|done|done]. apply (reactor_step_inv l s); [done| |done].
  intros ->. by apply negb_true_iff in Ho.
Qed.

(** C8: Every registration ends once: at any moment of a prompt schedule the number of times an object was
    registered is the number of times it was given to PHP code, plus the number of times it was dropped, plus the
    registrations the reactor still holds and the places of the object in the batches of polls that have not
    returned yet; in PHP code outside any callback, only the held registrations are left. *)
Theorem reactor_once ls s o : prompt ls reactor_create = true -> reactor_run ls reactor_create = Some s ->
  occurs (Added o) (log s) = occurs (Delivered o) (log s) + occurs (Dropped o) (log s) + held o s + occurs o (outs s) /\
  (php s = PUser -> callers s = [] -> outs s = [] /\ held o s = Z.of_nat (size (filter (fun rg => future_obj rg.2 = Some o) (regs s)))).
Proof.
  intros Hp H. pose proof (run_books ls _ _ reactor_create_inv create_books Hp H) as Hb. split.
  - pose proof (b_ledger _ Hb o) as E. unfold ledger in E. lia.
  - intros Ep Ec. unfold outs, held, held_in. rewrite Ep, Ec. split; [done|]. f_equal. apply size_dom_eq. intros r. rewrite !filter_some.
    split; intros (g & Hg & Ho); exists g; (split; [done|]); [by destruct Ho|]. split; [done|]. apply not_elem_of_nil.
Qed.

(** The callback of the first future throws: the second, already taken, is put back. *)
Definition throwing_callback : list reactor_label :=
  [LUser (UNew 0 None); LUser (UNew 1 None); LUser (UAdd 1 false)] ++ replicate 5 LPhp ++ [LUser (UAdd 0 true)] ++ replicate 5 LPhp ++
  [LUser (UPoll None)] ++ replicate 7 LPhp ++ [LUser UThrow] ++ replicate 6 LPhp.

Lemma reactor_once_witness : exists s, reactor_run throwing_callback reactor_create = Some s /\ php s = PUser /\
  log s = [Added 1; Added 0; Delivered 0] /\
  occurs (Added 1%nat) (log s) = occurs (Delivered 1%nat) (log s) + occurs (Dropped 1%nat) (log s) + held 1 s + occurs 1%nat (outs s) /\
  (php s = PUser -> callers s = [] -> outs s = [] /\ held 1 s = Z.of_nat (size (filter (fun rg => future_obj rg.2 = Some 1%nat) (regs s)))).
Proof.
  eexists. split; [vm_compute; reflexivity|]. split; [reflexivity|]. split; [reflexivity|].
  apply (reactor_once throwing_callback); vm_compute; reflexivity.
Defined.
