(* ===== verification/CacheKey.v ===== *)
(** The fingerprints under which clusters, sessions and prepared statements are kept between
    requests ([php_scylladb_cache_key.h]): FNV-1a over the bytes of the fields, and what the bytes
    determine.  A hash is the fold of [php_scylladb_cache_key_mix_byte] over a string of bytes, so
    that two mixing sequences with the same bytes have the same key whatever the prime; the
    converse is the absence of collisions, which the theorems that need it assume. *)
From S2P Require Import Prelude.

Definition PHP_SCYLLADB_FNV1A_OFFSET : Z := 0xcbf29ce484222325.
Definition PHP_SCYLLADB_FNV1A_PRIME : Z := 0x100000001b3.

Definition php_scylladb_cache_key_init : Z := PHP_SCYLLADB_FNV1A_OFFSET.

Definition php_scylladb_cache_key_mix_byte (h b : Z) : Z := wrapU 64 (Z.lxor h b * PHP_SCYLLADB_FNV1A_PRIME).

Definition php_scylladb_cache_key_mix_bytes (h : Z) (buf : bytes) : Z := fold_left php_scylladb_cache_key_mix_byte buf h.

(** The bytes of a 64-bit integer in memory (little endian). *)
Definition memory64 (v : Z) : bytes := map (fun i => Z.land (Z.shiftr (wrapU 64 v) (8 * i)) 255) [0; 1; 2; 3; 4; 5; 6; 7].

Definition php_scylladb_cache_key_mix_int (h v : Z) : Z := php_scylladb_cache_key_mix_bytes h (memory64 v).
Definition php_scylladb_cache_key_mix_ulong (h v : Z) : Z := php_scylladb_cache_key_mix_bytes h (memory64 v).

Definition php_scylladb_cache_key_mix_zstr (h : Z) (s : option bytes) : Z :=
  match s with
  | None => php_scylladb_cache_key_mix_byte h 0
  | Some s => php_scylladb_cache_key_mix_byte (php_scylladb_cache_key_mix_bytes h s) 0
  end.

(** The loop of [mix_cstr] stops at the first NUL. *)
Fixpoint mix_cstr_loop (h : Z) (s : bytes) : Z :=
  match s with
  | [] => h
  | c :: s' => if c =? 0 then h else mix_cstr_loop (php_scylladb_cache_key_mix_byte h c) s'
  end.

Definition php_scylladb_cache_key_mix_cstr (h : Z) (s : option bytes) : Z :=
  match s with
  | None => php_scylladb_cache_key_mix_byte h 0
  | Some s => php_scylladb_cache_key_mix_byte (mix_cstr_loop h s) 0
  end.

(** ** The bytes behind a key *)

Definition zstr_bytes (s : option bytes) : bytes := default [] s ++ [0].

(** A C string up to its terminator. *)
Definition c_string (s : bytes) : bytes := take (Z.to_nat (strlen s)) s.

Definition cstr_bytes (s : option bytes) : bytes := c_string (default [] s) ++ [0].

Lemma mix_bytes_app h a b : php_scylladb_cache_key_mix_bytes h (a ++ b) = php_scylladb_cache_key_mix_bytes (php_scylladb_cache_key_mix_bytes h a) b.
Proof. apply fold_left_app. Qed.

Lemma mix_zstr_bytes h s : php_scylladb_cache_key_mix_zstr h s = php_scylladb_cache_key_mix_bytes h (zstr_bytes s).
Proof. unfold zstr_bytes. rewrite mix_bytes_app. by destruct s. Qed.

Lemma mix_cstr_loop_bytes s : forall h, mix_cstr_loop h s = php_scylladb_cache_key_mix_bytes h (c_string s).
Proof.
  induction s as [|c s IH]; intros h; [done|]. unfold c_string. cbn [mix_cstr_loop strlen]. destruct (Z.eqb_spec c 0) as [->|]; [done|].
  pose proof (strlen_le s). rewrite IH. unfold c_string. replace (Z.to_nat (1 + strlen s)) with (S (Z.to_nat (strlen s))) by lia. done.
Qed.

Lemma mix_cstr_bytes h s : php_scylladb_cache_key_mix_cstr h s = php_scylladb_cache_key_mix_bytes h (cstr_bytes s).
Proof. unfold cstr_bytes. rewrite mix_bytes_app. destruct s as [s|]; [|done]. cbn. by rewrite mix_cstr_loop_bytes. Qed.

(** ** What the bytes determine *)

Definition no_nul (s : bytes) : Prop := 0 ∉ s.

(** A string without NUL ends at its separator. *)
Lemma separator_inj s1 : forall s2 r1 r2, no_nul s1 -> no_nul s2 -> s1 ++ 0 :: r1 = s2 ++ 0 :: r2 -> s1 = s2 /\ r1 = r2.
Proof.
  induction s1 as [|c s1 IH]; intros [|c' s2] r1 r2 H1 H2 E; cbn in E; simplify_eq.
  - done.
  - exfalso. apply H2. by left.
  - exfalso. apply H1. by left.
  - destruct (IH s2 r1 r2) as [-> ->]; [..|done]; [intros Hin; apply H1; by right|intros Hin; apply H2; by right|done].
Qed.

(** The separator as the code relies on it: a string may be absent or empty, both are the separator. *)
Lemma zstr_inj s1 s2 r1 r2 : no_nul (default [] s1) -> no_nul (default [] s2) ->
  zstr_bytes s1 ++ r1 = zstr_bytes s2 ++ r2 -> default [] s1 = default [] s2 /\ r1 = r2.
Proof. unfold zstr_bytes. rewrite <- !app_assoc. cbn. apply separator_inj. Qed.

Lemma memory64_length v : length (memory64 v) = 8%nat.
Proof. reflexivity. Qed.

Lemma memory64_inj v v' : memory64 v = memory64 v' -> wrapU 64 v = wrapU 64 v'.
Proof.
  intros H. apply Z.bits_inj'. intros n Hn. destruct (Z_le_gt_dec 64 n) as [Hge|Hlt].
  { assert (forall x, Z.testbit (wrapU 64 x) n = false) as Hhigh; [|by rewrite !Hhigh].
    intros x. unfold wrapU. by rewrite Z.mod_pow2_bits_high by lia. }
  assert (Z.land (Z.shiftr (wrapU 64 v) (8 * (n / 8))) 255 = Z.land (Z.shiftr (wrapU 64 v') (8 * (n / 8))) 255) as E.
  { unfold memory64 in H. cbn [map] in H. injection H as H0 H1 H2 H3 H4 H5 H6 H7.
    assert (0 <= n / 8 < 8) as Hk by (split; [apply Z.div_pos; lia|apply Z.div_lt_upper_bound; lia]).
    assert (n / 8 = 0 \/ n / 8 = 1 \/ n / 8 = 2 \/ n / 8 = 3 \/ n / 8 = 4 \/ n / 8 = 5 \/ n / 8 = 6 \/ n / 8 = 7) as Hc by lia.
    destruct Hc as [->|[->|[->|[->|[->|[->|[->| ->]]]]]]]; done. }
  pose proof (Z.div_mod n 8 ltac:(lia)) as Hdm. pose proof (Z.mod_pos_bound n 8 ltac:(lia)) as Hmod.
  assert (forall x, Z.testbit (Z.land (Z.shiftr x (8 * (n / 8))) 255) (n mod 8) = Z.testbit x n) as Hbit.
  { intros x. rewrite Z.land_spec. change 255 with (Z.ones 8). rewrite Z.ones_spec_low by lia. rewrite andb_true_r, Z.shiftr_spec by lia. f_equal. lia. }
  rewrite <- (Hbit (wrapU 64 v)), <- (Hbit (wrapU 64 v')). by rewrite E.
Qed.

Lemma int_inj v v' r r' : memory64 v ++ r = memory64 v' ++ r' -> wrapU 64 v = wrapU 64 v' /\ r = r'.
Proof. intros H. apply app_inj_1 in H as [H ->]; [|done]. split; [by apply memory64_inj|done]. Qed.
