(* ===== verification/ClusterBuilder.v ===== *)
(** [Cassandra\Cluster\Builder] ([Cluster/Builder.c], [Cluster/BuilderHandlers.c]): the settings of
    a cluster, their validation, and the keys of persistent clusters.

    The struct is its integer fields, its string fields and its objects: a field of the struct is
    an element of [int_field] or [str_field], so that a setter is an update at a field.  Doubles are
    IEEE binary64 ([SpecFloat]); a conversion of a double that does not fit its integer type is
    [Undefined].  Arguments have the types the methods declare. *)
From S2P Require Import Prelude CacheKey.
From Stdlib Require Import SpecFloat.

(** ** Doubles *)

Abbreviation double := spec_float.

Definition double_zero : double := S754_zero false.
(** 1000.0 *)
Definition double_1000 : double := S754_finite false 8796093022208000 (-43).

Definition double_mul (a b : double) : double := SFmul 53 1024 a b.
Definition double_lt (a b : double) : bool := SFltb a b.
Definition double_le (a b : double) : bool := SFleb a b.

(** [ceil], whose value is an integer unless the argument is infinite or not a number. *)
Definition double_ceil (d : double) : option Z :=
  match d with
  | S754_zero _ => Some 0
  | S754_finite s m e =>
      let v := if s then Zneg m else Zpos m in
      Some (if 0 <=? e then v * 2 ^ e else - ((- v) / 2 ^ (- e)))
  | _ => None
  end.

(** The conversion of an integral double to [uint32_t], where it is defined. *)
Definition to_uint32 (v : option Z) : option Z :=
  match v with Some v => if (0 <=? v) && (v <? 2 ^ 32) then Some v else None | None => None end.

Definition seconds_to_ms (d : double) : option Z := to_uint32 (double_ceil (double_mul d double_1000)).
Definition seconds (d : double) : option Z := to_uint32 (double_ceil d).

(** ** The struct *)

Inductive int_field :=
| used_hosts_per_remote_dc | connect_timeout | default_consistency | default_page_size | protocol_version
| io_threads | core_connections_per_host | max_connections_per_host | reconnect_interval | tcp_keepalive_delay
| enable_latency_aware_routing | enable_tcp_nodelay | enable_tcp_keepalive | enable_schema
| enable_hostname_resolution | enable_randomized_contact_points | allow_remote_dcs_for_local_cl
| use_token_aware_routing | connection_heartbeat_interval | request_timeout | reconnect_max_interval
| speculative_execution_delay | speculative_execution_max | coalesce_delay | new_request_ratio
| connection_idle_timeout | max_schema_wait_time | resolve_timeout | monitor_reporting_interval | queue_size_io
| tracing_consistency | tracing_max_wait_time | tracing_retry_wait_time | prepare_on_all_hosts
| prepare_on_up_or_add_host | shuffle_replicas | no_compact | beta_protocol | port | reconnect_policy
| load_balancing_policy | persist.

Inductive str_field :=
| contact_points | username | password | local_dc | blacklist_hosts | whitelist_hosts | blacklist_dcs | whitelist_dcs
| local_rack | application_name | application_version | local_address.

#[export] Instance int_field_eq_dec : EqDecision int_field.
Proof. solve_decision. Defined.

#[export] Instance str_field_eq_dec : EqDecision str_field.
Proof. solve_decision. Defined.

Record builder : Type := {
  ints : int_field -> Z;
  strs : str_field -> option bytes;
  retry_policy : option nat;
  timestamp_gen : option nat;
  ssl_options : option nat;
  execution_profiles : list (bytes * nat);
  default_timeout : option double
}.

Definition set_int (f : int_field) (v : Z) (b : builder) : builder :=
  {| ints := fun f' => if decide (f' = f) then v else ints b f'; strs := strs b; retry_policy := retry_policy b;
     timestamp_gen := timestamp_gen b; ssl_options := ssl_options b; execution_profiles := execution_profiles b;
     default_timeout := default_timeout b |}.
Definition set_str (f : str_field) (v : option bytes) (b : builder) : builder :=
  {| ints := ints b; strs := fun f' => if decide (f' = f) then v else strs b f'; retry_policy := retry_policy b;
     timestamp_gen := timestamp_gen b; ssl_options := ssl_options b; execution_profiles := execution_profiles b;
     default_timeout := default_timeout b |}.
Definition set_retry_policy (v : option nat) (b : builder) : builder :=
  {| ints := ints b; strs := strs b; retry_policy := v; timestamp_gen := timestamp_gen b; ssl_options := ssl_options b;
     execution_profiles := execution_profiles b; default_timeout := default_timeout b |}.
Definition set_timestamp_gen (v : option nat) (b : builder) : builder :=
  {| ints := ints b; strs := strs b; retry_policy := retry_policy b; timestamp_gen := v; ssl_options := ssl_options b;
     execution_profiles := execution_profiles b; default_timeout := default_timeout b |}.
Definition set_ssl_options (v : option nat) (b : builder) : builder :=
  {| ints := ints b; strs := strs b; retry_policy := retry_policy b; timestamp_gen := timestamp_gen b; ssl_options := v;
     execution_profiles := execution_profiles b; default_timeout := default_timeout b |}.
Definition set_execution_profiles (v : list (bytes * nat)) (b : builder) : builder :=
  {| ints := ints b; strs := strs b; retry_policy := retry_policy b; timestamp_gen := timestamp_gen b; ssl_options := ssl_options b;
     execution_profiles := v; default_timeout := default_timeout b |}.
Definition set_default_timeout (v : option double) (b : builder) : builder :=
  {| ints := ints b; strs := strs b; retry_policy := retry_policy b; timestamp_gen := timestamp_gen b; ssl_options := ssl_options b;
     execution_profiles := execution_profiles b; default_timeout := v |}.

(** The conversion to a field's type. *)
Inductive width := U32 | S32 | U16 | Bool | Enum (n : Z).

Definition field_width (f : int_field) : width :=
  match f with
  | speculative_execution_max | coalesce_delay | new_request_ratio => S32
  | enable_latency_aware_routing | enable_tcp_nodelay | enable_tcp_keepalive | enable_schema | enable_hostname_resolution
  | enable_randomized_contact_points | allow_remote_dcs_for_local_cl | use_token_aware_routing | prepare_on_all_hosts
  | prepare_on_up_or_add_host | shuffle_replicas | no_compact | beta_protocol | persist => Bool
  | port => U16
  | reconnect_policy => Enum 2
  | load_balancing_policy => Enum 4
  | _ => U32
  end.

Definition fits (w : width) (v : Z) : Prop :=
  match w with U32 => in_u 32 v | S32 => in_s 32 v | U16 => in_u 16 v | Bool => 0 <= v < 2 | Enum n => 0 <= v < n end.

Definition cass_bool (b : bool) : Z := if b then 1 else 0.

Definition LOAD_BALANCING_DEFAULT : Z := 0.
Definition LOAD_BALANCING_ROUND_ROBIN : Z := 1.
Definition LOAD_BALANCING_DC_AWARE_ROUND_ROBIN : Z := 2.
Definition LOAD_BALANCING_RACK_AWARE : Z := 3.
Definition RECONNECT_POLICY_CONSTANT : Z := 0.
Definition RECONNECT_POLICY_EXPONENTIAL : Z := 1.

(** ** Construction *)

(** The INI directives the builder is seeded with: the integers by the field they seed. *)
Record ini : Type := {
  ini_int : int_field -> Z;
  ini_str : str_field -> option bytes;
  ini_reconnect_policy : option bytes;
  allow_persistent : bool;
  expose_credentials : bool;
  max_persistent_clusters : Z
}.

Definition seed_str (v : option bytes) : option bytes := match v with Some (_ :: _) => v | _ => None end.

Definition equals_literal_ci (s : option bytes) (literal : bytes) : bool :=
  match s with Some s => bool_decide (map tolower s = literal) | None => false end.

Definition php_scylladb_cluster_builder_new (g : ini) : builder :=
  let strs f :=
    match f with
    | contact_points => match seed_str (ini_str g contact_points) with Some s => Some s | None => Some (bs "127.0.0.1") end
    | local_dc | local_rack | application_name | application_version | local_address => seed_str (ini_str g f)
    | username | password | blacklist_hosts | whitelist_hosts | blacklist_dcs | whitelist_dcs => None
    end in
  {| ints f :=
       match f with
       | load_balancing_policy => match strs local_rack with Some _ => LOAD_BALANCING_RACK_AWARE | None => LOAD_BALANCING_DEFAULT end
       | reconnect_policy =>
           if equals_literal_ci (ini_reconnect_policy g) (bs "exponential") then RECONNECT_POLICY_EXPONENTIAL else RECONNECT_POLICY_CONSTANT
       | used_hosts_per_remote_dc | allow_remote_dcs_for_local_cl => 0
       | persist => cass_bool (allow_persistent g)
       | enable_tcp_keepalive => cass_bool (0 <? ini_int g tcp_keepalive_delay)
       | port => wrapU 16 (ini_int g port)
       | speculative_execution_max | coalesce_delay | new_request_ratio => wrapS 32 (ini_int g f)
       | _ => match field_width f with Bool => cass_bool (negb (ini_int g f =? 0)) | _ => wrapU 32 (ini_int g f) end
       end;
     strs := strs; retry_policy := None; timestamp_gen := None; ssl_options := None; execution_profiles := []; default_timeout := None |}.

(** ** The setters *)

(** A call returns the object, or throws [InvalidArgumentException] with the argument's name and
    what it must be, or has no defined behaviour. *)
Inductive outcome (A : Type) := Returns (a : A) | InvalidArgument (name expected : bytes) | Undefined.
Arguments Returns {A} _.
Arguments InvalidArgument {A} _ _.
Arguments Undefined {A}.

Definition php_scylladb_validate_consistency (consistency : Z) : bool :=
  match wrapU 32 consistency with
  | 0 | 1 | 2 | 3 | 4 | 5 | 6 | 7 | 8 | 9 | 10 => true
  | _ => false
  end.

(** [php_scylladb_build_hosts_str]: [None] for an argument that is not a string. *)
Fixpoint build_hosts_loop (acc : bytes) (first : bool) (args : list (option bytes)) : option bytes :=
  match args with
  | [] => Some acc
  | None :: _ => None
  | Some host :: args' => build_hosts_loop (if first then acc ++ host else acc ++ bs "," ++ host) false args'
  end.

Definition php_scylladb_build_hosts_str (args : list (option bytes)) : option bytes := build_hosts_loop [] true args.

Definition php_scylladb_parse_hosts (f : str_field) (args : list (option bytes)) (b : builder) : outcome builder :=
  match php_scylladb_build_hosts_str args with
  | None => InvalidArgument (bs "hosts") (bs "a string ip address or hostname")
  | Some hosts => Returns (set_str f (Some hosts) b)
  end.

Definition store (f : int_field) (v : option Z) (b : builder) : outcome builder :=
  match v with Some v => Returns (set_int f v b) | None => Undefined end.

Definition php_scylladb_set_timeout (f : int_field) (timeout : double) (b : builder) : outcome builder :=
  if double_lt timeout double_zero then InvalidArgument (bs "timeout") (bs "a positive number") else store f (seconds_to_ms timeout) b.

Definition php_scylladb_set_interval_secs (f : int_field) (interval : double) (b : builder) : outcome builder :=
  if double_lt interval double_zero then InvalidArgument (bs "interval") (bs "a positive number") else store f (seconds interval) b.

(** A string or [nullptr] for an empty one. *)
Definition php_scylladb_builder_set_str (f : str_field) (src : bytes) (b : builder) : builder := set_str f (seed_str (Some src)) b.

(** [zend_hash_update]: in place, or at the end. *)
Fixpoint zend_hash_update (name : bytes) (v : nat) (t : list (bytes * nat)) : list (bytes * nat) :=
  match t with
  | [] => [(name, v)]
  | (n, w) :: t' => if bool_decide (n = name) then (n, v) :: t' else (n, w) :: zend_hash_update name v t'
  end.

Inductive builder_call :=
| withDefaultConsistency (consistency : Z)
| withDefaultPageSize (pageSize : Z)
| withDefaultTimeout (timeout : double)
| withContactPoints (args : list (option bytes))
| withPort (p : Z)
| withRoundRobinLoadBalancingPolicy
| withDatacenterAwareRoundRobinLoadBalancingPolicy (dc : bytes) (hostPerRemoteDatacenter : Z) (allow : bool)
| withBlackListHosts (args : list (option bytes))
| withWhiteListHosts (args : list (option bytes))
| withBlackListDCs (args : list (option bytes))
| withWhiteListDCs (args : list (option bytes))
| withTokenAwareRouting (enabled : bool)
| withCredentials (user pass : bytes)
| withConnectTimeout (timeout : double)
| withRequestTimeout (timeout : double)
| withSSL (options : nat)
| withPersistentSessions (enabled : bool)
| withProtocolVersion (enum_case : bool) (version : Z)
| withIOThreads (count : Z)
| withConnectionsPerHost (core max : Z)
| withReconnectInterval (timeout : double)
| withLatencyAwareRouting (enabled : bool)
| withTCPNodelay (enabled : bool)
| withTCPKeepalive (delay : option double)
| withRackAwareLoadBalancingPolicy (dc rack : bytes)
| withApplicationName (name : bytes)
| withApplicationVersion (version : bytes)
| withExponentialReconnect (base_interval max_interval : double)
| withConstantSpeculativeExecutionPolicy (delay : double) (max_executions : Z)
| withNoSpeculativeExecutionPolicy
| withCoalesceDelay (delay_us : Z)
| withNewRequestRatio (ratio : Z)
| withExecutionProfile (name : option bytes) (profile : nat)
| withRetryPolicy (policy : nat)
| withTimestampGenerator (gen : nat)
| withSchemaMetadata (enabled : bool)
| withHostnameResolution (enabled : bool)
| withRandomizedContactPoints (enabled : bool)
| withConnectionHeartbeatInterval (interval : double).

Definition Builder_withDefaultConsistency (consistency : Z) (b : builder) : outcome builder :=
  if negb (php_scylladb_validate_consistency consistency) then InvalidArgument (bs "consistency") (bs "one of Cassandra::CONSISTENCY_*")
  else Returns (set_int default_consistency (wrapU 32 consistency) b).

Definition Builder_withDefaultPageSize (pageSize : Z) (b : builder) : outcome builder :=
  if pageSize <? 0 then InvalidArgument (bs "pageSize") (bs "a positive integer or null")
  else Returns (set_int default_page_size (wrapU 32 pageSize) b).

Definition Builder_withDefaultTimeout (timeout : double) (b : builder) : outcome builder :=
  if double_lt timeout double_zero then InvalidArgument (bs "timeout") (bs "a positive number or null")
  else Returns (set_default_timeout (Some timeout) b).

Definition Builder_withPort (p : Z) (b : builder) : outcome builder :=
  if (p <? 1) || (65535 <? p) then InvalidArgument (bs "port") (bs "an integer between 1 and 65535")
  else Returns (set_int port (wrapU 16 p) b).

Definition Builder_withRoundRobinLoadBalancingPolicy (b : builder) : outcome builder :=
  Returns (set_int load_balancing_policy LOAD_BALANCING_ROUND_ROBIN (set_str local_dc None b)).

Definition Builder_withDatacenterAware (dc : bytes) (hosts : Z) (allow : bool) (b : builder) : outcome builder :=
  if hosts <? 0 then InvalidArgument (bs "hostPerRemoteDatacenter") (bs "a positive integer")
  else Returns (set_int allow_remote_dcs_for_local_cl (cass_bool allow) (set_int used_hosts_per_remote_dc (wrapU 32 hosts)
         (set_str local_dc (Some dc) (set_int load_balancing_policy LOAD_BALANCING_DC_AWARE_ROUND_ROBIN b)))).

Definition Builder_withCredentials (user pass : bytes) (b : builder) : outcome builder :=
  Returns (set_str password (Some pass) (set_str username (Some user) b)).

Definition Builder_withPersistentSessions (g : ini) (enabled : bool) (b : builder) : outcome builder :=
  Returns (set_int persist (cass_bool (enabled && allow_persistent g)) b).

Definition Builder_withProtocolVersion (enum_case : bool) (version : Z) (b : builder) : outcome builder :=
  if negb enum_case && (version <? 1) then InvalidArgument (bs "version") (bs "a positive number")
  else Returns (set_int protocol_version (wrapU 32 version) b).

Definition Builder_withIOThreads (count : Z) (b : builder) : outcome builder :=
  if (count <? 1) || (128 <? count) then InvalidArgument (bs "count") (bs "a number between 1 and 128")
  else Returns (set_int io_threads (wrapU 32 count) b).

Definition Builder_withConnectionsPerHost (core max : Z) (b : builder) : outcome builder :=
  if (128 <? core) || (core <? 1) then InvalidArgument (bs "core") (bs "a number between 1 and 128")
  else if (128 <? max) || (max <? 1) then InvalidArgument (bs "max") (bs "a number between 1 and 128")
  else if max <? core then InvalidArgument (bs "core") (bs "greater than max")
  else Returns (set_int max_connections_per_host (wrapU 32 max) (set_int core_connections_per_host (wrapU 32 core) b)).

Definition Builder_withTCPKeepalive (delay : option double) (b : builder) : outcome builder :=
  match delay with
  | None => Returns (set_int tcp_keepalive_delay 0 (set_int enable_tcp_keepalive 0 b))
  | Some delay =>
      if double_lt delay double_zero then InvalidArgument (bs "delay") (bs "a positive number or null")
      else store tcp_keepalive_delay (seconds delay) (set_int enable_tcp_keepalive 1 b)
  end.

Definition Builder_withRackAware (dc rack : bytes) (b : builder) : outcome builder :=
  Returns (set_int load_balancing_policy LOAD_BALANCING_RACK_AWARE
    (php_scylladb_builder_set_str local_rack rack (php_scylladb_builder_set_str local_dc dc b))).

Definition Builder_withExponentialReconnect (base_interval max_interval : double) (b : builder) : outcome builder :=
  if double_le base_interval double_zero then InvalidArgument (bs "baseInterval") (bs "a positive number")
  else if double_lt max_interval base_interval then InvalidArgument (bs "maxInterval") (bs "greater than or equal to the base interval")
  else match seconds_to_ms base_interval, seconds_to_ms max_interval with
       | Some base, Some max =>
           Returns (set_int reconnect_max_interval max (set_int reconnect_interval base
             (set_int reconnect_policy RECONNECT_POLICY_EXPONENTIAL b)))
       | _, _ => Undefined
       end.

Definition Builder_withConstantSpeculativeExecutionPolicy (delay : double) (max_executions : Z) (b : builder) : outcome builder :=
  if double_le delay double_zero then InvalidArgument (bs "delay") (bs "a positive number")
  else if max_executions <=? 0 then InvalidArgument (bs "maxSpeculativeExecutions") (bs "a positive integer")
  else store speculative_execution_delay (seconds_to_ms delay) (set_int speculative_execution_max (wrapS 32 max_executions) b).

Definition Builder_withCoalesceDelay (delay_us : Z) (b : builder) : outcome builder :=
  if delay_us <=? 0 then InvalidArgument (bs "microseconds") (bs "a positive integer")
  else Returns (set_int coalesce_delay (wrapS 32 delay_us) b).

Definition Builder_withNewRequestRatio (ratio : Z) (b : builder) : outcome builder :=
  if (ratio <? 1) || (100 <? ratio) then InvalidArgument (bs "ratio") (bs "between 1 and 100")
  else Returns (set_int new_request_ratio (wrapS 32 ratio) b).

Definition Builder_withExecutionProfile (name : option bytes) (profile : nat) (b : builder) : outcome builder :=
  match name with
  | None => InvalidArgument (bs "name") (bs "a string or an enum case")
  | Some [] => InvalidArgument (bs "name") (bs "a non-empty string")
  | Some name => Returns (set_execution_profiles (zend_hash_update name profile (execution_profiles b)) b)
  end.

(** The methods that store their argument as it is. *)

Definition Builder_withContactPoints (args : list (option bytes)) (b : builder) : outcome builder := php_scylladb_parse_hosts contact_points args b.
Definition Builder_withBlackListHosts (args : list (option bytes)) (b : builder) : outcome builder := php_scylladb_parse_hosts blacklist_hosts args b.
Definition Builder_withWhiteListHosts (args : list (option bytes)) (b : builder) : outcome builder := php_scylladb_parse_hosts whitelist_hosts args b.
Definition Builder_withBlackListDCs (args : list (option bytes)) (b : builder) : outcome builder := php_scylladb_parse_hosts blacklist_dcs args b.
Definition Builder_withWhiteListDCs (args : list (option bytes)) (b : builder) : outcome builder := php_scylladb_parse_hosts whitelist_dcs args b.
Definition Builder_withTokenAwareRouting (enabled : bool) (b : builder) : outcome builder := Returns (set_int use_token_aware_routing (cass_bool enabled) b).
Definition Builder_withConnectTimeout (timeout : double) (b : builder) : outcome builder := php_scylladb_set_timeout connect_timeout timeout b.
Definition Builder_withRequestTimeout (timeout : double) (b : builder) : outcome builder := php_scylladb_set_timeout request_timeout timeout b.
Definition Builder_withSSL (options : nat) (b : builder) : outcome builder := Returns (set_ssl_options (Some options) b).
Definition Builder_withReconnectInterval (timeout : double) (b : builder) : outcome builder := php_scylladb_set_timeout reconnect_interval timeout b.
Definition Builder_withLatencyAwareRouting (enabled : bool) (b : builder) : outcome builder := Returns (set_int enable_latency_aware_routing (cass_bool enabled) b).
Definition Builder_withTCPNodelay (enabled : bool) (b : builder) : outcome builder := Returns (set_int enable_tcp_nodelay (cass_bool enabled) b).
Definition Builder_withApplicationName (name : bytes) (b : builder) : outcome builder := Returns (php_scylladb_builder_set_str application_name name b).
Definition Builder_withApplicationVersion (version : bytes) (b : builder) : outcome builder := Returns (php_scylladb_builder_set_str application_version version b).
Definition Builder_withNoSpeculativeExecutionPolicy (b : builder) : outcome builder := Returns (set_int speculative_execution_delay 0 b).
Definition Builder_withRetryPolicy (policy : nat) (b : builder) : outcome builder := Returns (set_retry_policy (Some policy) b).
Definition Builder_withTimestampGenerator (gen : nat) (b : builder) : outcome builder := Returns (set_timestamp_gen (Some gen) b).
Definition Builder_withSchemaMetadata (enabled : bool) (b : builder) : outcome builder := Returns (set_int enable_schema (cass_bool enabled) b).
Definition Builder_withHostnameResolution (enabled : bool) (b : builder) : outcome builder := Returns (set_int enable_hostname_resolution (cass_bool enabled) b).
Definition Builder_withRandomizedContactPoints (enabled : bool) (b : builder) : outcome builder := Returns (set_int enable_randomized_contact_points (cass_bool enabled) b).
Definition Builder_withConnectionHeartbeatInterval (interval : double) (b : builder) : outcome builder := php_scylladb_set_interval_secs connection_heartbeat_interval interval b.

Definition builder_apply (g : ini) (c : builder_call) (b : builder) : outcome builder :=
  match c with
  | withDefaultConsistency consistency => Builder_withDefaultConsistency consistency b
  | withDefaultPageSize pageSize => Builder_withDefaultPageSize pageSize b
  | withDefaultTimeout timeout => Builder_withDefaultTimeout timeout b
  | withContactPoints args => Builder_withContactPoints args b
  | withPort p => Builder_withPort p b
  | withRoundRobinLoadBalancingPolicy => Builder_withRoundRobinLoadBalancingPolicy b
  | withDatacenterAwareRoundRobinLoadBalancingPolicy dc hosts allow => Builder_withDatacenterAware dc hosts allow b
  | withBlackListHosts args => Builder_withBlackListHosts args b
  | withWhiteListHosts args => Builder_withWhiteListHosts args b
  | withBlackListDCs args => Builder_withBlackListDCs args b
  | withWhiteListDCs args => Builder_withWhiteListDCs args b
  | withTokenAwareRouting enabled => Builder_withTokenAwareRouting enabled b
  | withCredentials user pass => Builder_withCredentials user pass b
  | withConnectTimeout timeout => Builder_withConnectTimeout timeout b
  | withRequestTimeout timeout => Builder_withRequestTimeout timeout b
  | withSSL options => Builder_withSSL options b
  | withPersistentSessions enabled => Builder_withPersistentSessions g enabled b
  | withProtocolVersion enum_case version => Builder_withProtocolVersion enum_case version b
  | withIOThreads count => Builder_withIOThreads count b
  | withConnectionsPerHost core max => Builder_withConnectionsPerHost core max b
  | withReconnectInterval timeout => Builder_withReconnectInterval timeout b
  | withLatencyAwareRouting enabled => Builder_withLatencyAwareRouting enabled b
  | withTCPNodelay enabled => Builder_withTCPNodelay enabled b
  | withTCPKeepalive delay => Builder_withTCPKeepalive delay b
  | withRackAwareLoadBalancingPolicy dc rack => Builder_withRackAware dc rack b
  | withApplicationName name => Builder_withApplicationName name b
  | withApplicationVersion version => Builder_withApplicationVersion version b
  | withExponentialReconnect base max => Builder_withExponentialReconnect base max b
  | withConstantSpeculativeExecutionPolicy delay max => Builder_withConstantSpeculativeExecutionPolicy delay max b
  | withNoSpeculativeExecutionPolicy => Builder_withNoSpeculativeExecutionPolicy b
  | withCoalesceDelay delay_us => Builder_withCoalesceDelay delay_us b
  | withNewRequestRatio ratio => Builder_withNewRequestRatio ratio b
  | withExecutionProfile name profile => Builder_withExecutionProfile name profile b
  | withRetryPolicy policy => Builder_withRetryPolicy policy b
  | withTimestampGenerator gen => Builder_withTimestampGenerator gen b
  | withSchemaMetadata enabled => Builder_withSchemaMetadata enabled b
  | withHostnameResolution enabled => Builder_withHostnameResolution enabled b
  | withRandomizedContactPoints enabled => Builder_withRandomizedContactPoints enabled b
  | withConnectionHeartbeatInterval interval => Builder_withConnectionHeartbeatInterval interval b
  end.

(** A program that goes on after an exception with the builder as it was. *)
Fixpoint builder_run (g : ini) (cs : list builder_call) (b : builder) : option builder :=
  match cs with
  | [] => Some b
  | c :: cs' =>
      match builder_apply g c b with
      | Returns b' => builder_run g cs' b'
      | InvalidArgument _ _ => builder_run g cs' b
      | Undefined => None
      end
  end.
