(* ===== verification/IniSettings.v ===== *)
(** The INI directives of the extension ([php_scylladb.c]): their handlers, the defaults of
    [GINIT], and the registration that leaves in the module globals either a value its handler
    accepts or the default.

    [OnUpdateBool], [OnUpdateStr] and [OnUpdateLongGEZero] belong to the engine: the parsers of a
    boolean and of a quantity are the parameters [parse_bool] and [parse_quantity], of which only
    the values of the default strings matter. *)
From S2P Require Import Prelude CLib ClusterBuilder.

Inductive zend_result := SUCCESS | FAILURE.

(** ** Handlers *)

Definition ZEND_STRTOL (s : bytes) : Z := (strtol s 10).1.1.
Definition ZEND_LONG_MAX : Z := INT64_MAX.

(** A handler gets the new value and the global it may store into, and returns the global's value. *)
Definition php_scylladb_ini_bounded_long (new_value : option bytes) (out min max : Z) : zend_result * Z :=
  match new_value with
  | None => (SUCCESS, out)
  | Some s =>
      let value := ZEND_STRTOL s in
      if (value <? min) || (max <? value) then (FAILURE, out) else (SUCCESS, value)
  end.

Definition strcasecmp_eq (a b : bytes) : bool := bool_decide (map tolower a = map tolower b).

(** The argument is a C string. *)
Definition php_scylladb_consistency_map : list (bytes * Z) :=
  [(bs "any", 0); (bs "one", 1); (bs "two", 2); (bs "three", 3); (bs "quorum", 4); (bs "all", 5);
   (bs "local_quorum", 6); (bs "each_quorum", 7); (bs "serial", 8); (bs "local_serial", 9); (bs "local_one", 10)].

Fixpoint consistency_lookup (name : bytes) (t : list (bytes * Z)) : Z :=
  match t with
  | [] => -1
  | (literal, value) :: t' => if strcasecmp_eq name literal then value else consistency_lookup name t'
  end.

Definition php_scylladb_consistency_from_name (name : bytes) : Z :=
  consistency_lookup (CacheKey.c_string name) php_scylladb_consistency_map.

(** [OnUpdateDefaultConsistency] and [OnUpdateTracingConsistency]. *)
Definition OnUpdateConsistency (new_value : option bytes) (out : Z) : zend_result * Z :=
  match new_value with
  | None => (SUCCESS, out)
  | Some s => let consistency := php_scylladb_consistency_from_name s in if consistency <? 0 then (FAILURE, out) else (SUCCESS, consistency)
  end.

Inductive ini_handler :=
| OnUpdatePositiveLong | OnUpdatePort | OnUpdateProtocolVersion | OnUpdateNewRequestRatio | OnUpdatePersistentMax
| OnUpdateDefaultConsistency | OnUpdateTracingConsistency | OnUpdateLongGEZero | OnUpdateBool.

Section registration.
Context (parse_quantity : bytes -> Z) (parse_bool : bytes -> bool).

Definition on_modify (h : ini_handler) (new_value : bytes) (out : Z) : zend_result * Z :=
  match h with
  | OnUpdatePositiveLong => php_scylladb_ini_bounded_long (Some new_value) out 1 ZEND_LONG_MAX
  | OnUpdatePort => php_scylladb_ini_bounded_long (Some new_value) out 1 65535
  | OnUpdateProtocolVersion => php_scylladb_ini_bounded_long (Some new_value) out 1 5
  | OnUpdateNewRequestRatio => php_scylladb_ini_bounded_long (Some new_value) out 1 100
  | OnUpdatePersistentMax => php_scylladb_ini_bounded_long (Some new_value) out (-1) ZEND_LONG_MAX
  | OnUpdateDefaultConsistency | OnUpdateTracingConsistency => OnUpdateConsistency (Some new_value) out
  | OnUpdateLongGEZero => if parse_quantity new_value <? 0 then (FAILURE, out) else (SUCCESS, parse_quantity new_value)
  | OnUpdateBool => (SUCCESS, cass_bool (parse_bool new_value))
  end.

(** The engine's registration of an entry: the configured value when its handler takes it, else
    the entry's default string. *)
Definition zend_register_ini_entry (h : ini_handler) (value : bytes) (configured : option bytes) (out : Z) : Z :=
  match configured with
  | Some s => match on_modify h s out with (SUCCESS, v) => v | (FAILURE, v) => (on_modify h value v).2 end
  | None => (on_modify h value out).2
  end.
End registration.

(** ** The table *)

(** The handler of the directive that seeds a field of the builder; a field without a directive
    of its own has none. *)
Definition ini_entry_handler (f : int_field) : option ini_handler :=
  match f with
  | port => Some OnUpdatePort
  | connect_timeout | request_timeout | default_page_size | io_threads | core_connections_per_host | max_connections_per_host
  | reconnect_interval | reconnect_max_interval | coalesce_delay | connection_idle_timeout | max_schema_wait_time
  | resolve_timeout | queue_size_io | tracing_max_wait_time | tracing_retry_wait_time => Some OnUpdatePositiveLong
  | default_consistency => Some OnUpdateDefaultConsistency
  | tracing_consistency => Some OnUpdateTracingConsistency
  | protocol_version => Some OnUpdateProtocolVersion
  | new_request_ratio => Some OnUpdateNewRequestRatio
  | connection_heartbeat_interval | tcp_keepalive_delay | speculative_execution_delay | speculative_execution_max
  | monitor_reporting_interval => Some OnUpdateLongGEZero
  | use_token_aware_routing | enable_latency_aware_routing | enable_tcp_nodelay | enable_schema | enable_hostname_resolution
  | enable_randomized_contact_points | prepare_on_all_hosts | prepare_on_up_or_add_host | shuffle_replicas | no_compact
  | beta_protocol => Some OnUpdateBool
  | used_hosts_per_remote_dc | enable_tcp_keepalive | allow_remote_dcs_for_local_cl | reconnect_policy
  | load_balancing_policy | persist => None
  end.

(** [PHP_GINIT]: the integers of the globals before the directives are registered. *)
Definition php_scylladb_ginit (f : int_field) : Z :=
  match f with
  | port => 9042
  | connect_timeout => 5000
  | request_timeout => 12000
  | default_consistency => 6
  | default_page_size => 5000
  | protocol_version => 4
  | io_threads => 1
  | core_connections_per_host => 1
  | max_connections_per_host => 2
  | reconnect_interval => 2000
  | connection_heartbeat_interval => 30
  | tcp_keepalive_delay => 0
  | reconnect_max_interval => 60000
  | speculative_execution_delay => 0
  | speculative_execution_max => 2
  | coalesce_delay => 200
  | new_request_ratio => 50
  | connection_idle_timeout => 60
  | max_schema_wait_time => 10000
  | resolve_timeout => 2000
  | monitor_reporting_interval => 300
  | queue_size_io => 8192
  | tracing_consistency => 1
  | tracing_max_wait_time => 15
  | tracing_retry_wait_time => 3
  | _ => 0
  end.

(** The default string of a directive: the number of [GINIT] in decimal, the name of a
    consistency, "1" or "0". *)
Definition ini_entry_value (f : int_field) : bytes :=
  match f with
  | default_consistency => bs "LOCAL_QUORUM"
  | tracing_consistency => bs "ONE"
  | use_token_aware_routing | enable_latency_aware_routing | enable_tcp_nodelay | enable_schema
  | enable_randomized_contact_points | prepare_on_all_hosts | prepare_on_up_or_add_host | shuffle_replicas => bs "1"
  | enable_hostname_resolution | no_compact | beta_protocol => bs "0"
  | f => show_dec (php_scylladb_ginit f)
  end.

Inductive persistent_kind := PERSISTENT_CLUSTERS | PERSISTENT_SESSIONS | PERSISTENT_PREPARED_STATEMENTS.

Definition max_persistent_default (k : persistent_kind) : Z :=
  match k with PERSISTENT_CLUSTERS => 16 | PERSISTENT_SESSIONS => 16 | PERSISTENT_PREPARED_STATEMENTS => 1000 end.

(** php.ini: what is written under each directive. *)
Record php_ini : Type := {
  conf_int : int_field -> option bytes;
  conf_str : str_field -> option bytes;
  conf_reconnect_policy : option bytes;
  conf_max_persistent : persistent_kind -> option bytes;
  conf_allow_persistent : option bytes;
  conf_expose_credentials : option bytes
}.

Section register.
Context (parse_quantity : bytes -> Z) (parse_bool : bytes -> bool).

Definition ini_str_value (f : str_field) : bytes := match f with contact_points => bs "127.0.0.1" | _ => [] end.

Definition max_persistent (conf : php_ini) (k : persistent_kind) : Z :=
  zend_register_ini_entry parse_quantity parse_bool OnUpdatePersistentMax (show_dec (max_persistent_default k))
    (conf_max_persistent conf k) (max_persistent_default k).

(** [REGISTER_INI_ENTRIES] *)
Definition register_ini_entries (conf : php_ini) : ini :=
  {| ini_int f :=
       match ini_entry_handler f with
       | Some h => zend_register_ini_entry parse_quantity parse_bool h (ini_entry_value f) (conf_int conf f) (php_scylladb_ginit f)
       | None => php_scylladb_ginit f
       end;
     ini_str f := Some (default (ini_str_value f) (conf_str conf f));
     ini_reconnect_policy := Some (default (bs "constant") (conf_reconnect_policy conf));
     allow_persistent := negb (zend_register_ini_entry parse_quantity parse_bool OnUpdateBool (bs "1") (conf_allow_persistent conf) 0 =? 0);
     expose_credentials :=
       negb (zend_register_ini_entry parse_quantity parse_bool OnUpdateBool (bs "0") (conf_expose_credentials conf) 0 =? 0);
     max_persistent_clusters := max_persistent conf PERSISTENT_CLUSTERS |}.
End register.

(** ** What registration promises *)

(** The number a directive's string stands for, and whether it may be used. *)
Definition ini_number (parse_quantity : bytes -> Z) (parse_bool : bytes -> bool) (h : ini_handler) (s : bytes) : Z :=
  match h with
  | OnUpdateDefaultConsistency | OnUpdateTracingConsistency => php_scylladb_consistency_from_name s
  | OnUpdateLongGEZero => parse_quantity s
  | OnUpdateBool => cass_bool (parse_bool s)
  | _ => ZEND_STRTOL s
  end.

Definition ini_range (h : ini_handler) : Z * option Z :=
  match h with
  | OnUpdatePositiveLong => (1, None)
  | OnUpdatePort => (1, Some 65535)
  | OnUpdateProtocolVersion => (1, Some 5)
  | OnUpdateNewRequestRatio => (1, Some 100)
  | OnUpdatePersistentMax => (-1, None)
  | OnUpdateDefaultConsistency | OnUpdateTracingConsistency => (0, Some 10)
  | OnUpdateLongGEZero => (0, None)
  | OnUpdateBool => (0, Some 1)
  end.

Definition in_ini_range (h : ini_handler) (v : Z) : bool :=
  ((ini_range h).1 <=? v) && match (ini_range h).2 with Some max => v <=? max | None => true end.

Definition ini_or_default parse_quantity parse_bool (h : ini_handler) (configured : option bytes) (dflt : Z) : Z :=
  match configured with
  | Some s => let v := ini_number parse_quantity parse_bool h s in if in_ini_range h v then v else dflt
  | None => dflt
  end.

Lemma consistency_lookup_range name t : Forall (fun e : bytes * Z => 0 <= e.2 <= 10) t -> -1 <= consistency_lookup name t <= 10.
Proof.
  induction 1 as [|[literal value] t Hv _ IH]; cbn; [lia|]. cbn in Hv. destruct (strcasecmp_eq _ _); lia.
Qed.

Lemma consistency_from_name_range name : -1 <= php_scylladb_consistency_from_name name <= 10.
Proof. apply consistency_lookup_range. unfold php_scylladb_consistency_map. repeat constructor; cbn; lia. Qed.

Lemma strtol_range s b : in_s 64 (strtol s b).1.1.
Proof.
  unfold strtol, in_s, INT64_MIN, INT64_MAX. cbv zeta. change (64 - 1) with 63.
  destruct (Z.ltb_spec (if strto_neg (strto s b) then - strto_magnitude (strto s b) else strto_magnitude (strto s b)) (- 2 ^ 63)); [cbn; lia|].
  destruct (Z.ltb_spec (2 ^ 63 - 1) (if strto_neg (strto s b) then - strto_magnitude (strto s b) else strto_magnitude (strto s b))); cbn; lia.
Qed.

Lemma ini_bounded_long_spec s out min max :
  php_scylladb_ini_bounded_long (Some s) out min max =
  if (min <=? ZEND_STRTOL s) && (ZEND_STRTOL s <=? max) then (SUCCESS, ZEND_STRTOL s) else (FAILURE, out).
Proof.
  unfold php_scylladb_ini_bounded_long. rewrite (Z.leb_antisym _ min), (Z.leb_antisym max). by destruct (_ <? min), (max <? _).
Qed.

Section spec.
Context (parse_quantity : bytes -> Z) (parse_bool : bytes -> bool).

Lemma on_modify_spec h s out :
  on_modify parse_quantity parse_bool h s out =
  if in_ini_range h (ini_number parse_quantity parse_bool h s) then (SUCCESS, ini_number parse_quantity parse_bool h s) else (FAILURE, out).
Proof.
  assert (ZEND_STRTOL s <= ZEND_LONG_MAX) as Hmax.
  { pose proof (strtol_range s 10) as H. unfold in_s in H. unfold ZEND_STRTOL, ZEND_LONG_MAX, INT64_MAX. change (64 - 1) with 63 in H. lia. }
  assert ((ZEND_STRTOL s <=? ZEND_LONG_MAX) = true) as Htrue by lia.
  pose proof (consistency_from_name_range s).
  unfold on_modify, in_ini_range, ini_range, ini_number.
  destruct h; cbn [fst snd]; rewrite ?ini_bounded_long_spec, ?Htrue; try reflexivity.
  1, 2: unfold OnUpdateConsistency; destruct (Z.ltb_spec (php_scylladb_consistency_from_name s) 0);
    destruct (Z.leb_spec 0 (php_scylladb_consistency_from_name s)); destruct (Z.leb_spec (php_scylladb_consistency_from_name s) 10); cbn; try lia; reflexivity.
  - rewrite (Z.leb_antisym _ 0). by destruct (_ <? 0).
  - by destruct (parse_bool s).
Qed.

Lemma register_entry_spec h value configured out :
  in_ini_range h (ini_number parse_quantity parse_bool h value) = true ->
  zend_register_ini_entry parse_quantity parse_bool h value configured out =
  ini_or_default parse_quantity parse_bool h configured (ini_number parse_quantity parse_bool h value).
Proof.
  intros Hv. unfold zend_register_ini_entry, ini_or_default.
  destruct configured as [s|]; rewrite on_modify_spec; [|by rewrite Hv].
  cbv zeta. destruct (in_ini_range h (ini_number parse_quantity parse_bool h s)); [done|]. by rewrite on_modify_spec, Hv.
Qed.
End spec.

(** The engine reads a decimal number as that number, and "1" and "0" as the booleans. *)
Record engine_parsers (parse_quantity : bytes -> Z) (parse_bool : bytes -> bool) : Prop := {
  quantity_decimal : forall n, 0 <= n < 2 ^ 63 -> parse_quantity (show_dec n) = n;
  bool_one : parse_bool (bs "1") = true;
  bool_zero : parse_bool (bs "0") = false
}.

(** The value of a directive that is not set, or set to something its handler rejects. *)
Definition ini_default (f : int_field) : Z :=
  match ini_entry_handler f with
  | Some OnUpdateBool => cass_bool (bool_decide (ini_entry_value f = bs "1"))
  | _ => php_scylladb_ginit f
  end.

Lemma ini_default_number parse_quantity parse_bool f h : engine_parsers parse_quantity parse_bool -> ini_entry_handler f = Some h ->
  ini_number parse_quantity parse_bool h (ini_entry_value f) = ini_default f /\ in_ini_range h (ini_default f) = true.
Proof.
  intros [Hq H1 H0] Hh. destruct f; cbn in Hh; try discriminate Hh; injection Hh as <-; unfold ini_number, ini_default; cbn [ini_entry_handler].
  all: split; [|by vm_compute].
  all: first [by vm_compute | by rewrite ?H1, ?H0 | cbn [ini_entry_value]; apply Hq; cbn; lia | unfold ini_entry_value; rewrite ?H1, ?H0; by vm_compute].
Qed.

Lemma strtol_decimal n : 0 <= n < 2 ^ 63 -> ZEND_STRTOL (show_dec n) = n.
Proof.
  intros Hn. unfold ZEND_STRTOL, strtol, show_dec. rewrite (proj2 (Z.ltb_ge n 0)) by lia.
  pose proof (strto_dec10 false n ltac:(lia)) as E. cbn [minus_bytes app] in E. rewrite E. cbn [strto_neg strto_magnitude]. unfold INT64_MIN, INT64_MAX.
  rewrite (proj2 (Z.ltb_ge n (- 2 ^ 63))), (proj2 (Z.ltb_ge (2 ^ 63 - 1) n)) by lia. done.
Qed.

(** Registration of the INI directives, whatever php.ini holds.  A directive whose string its
    handler accepts puts the number the string stands for in the module globals; one that is
    absent, malformed or out of its range leaves the documented default, which is also the value
    [GINIT] put there, so that [ini_get] and the driver agree.  The seed of every builder field is
    therefore in the range of its directive: the port in 1..65535, the protocol version in 1..5, the
    new-request ratio in 1..100, the consistencies in 0..10, the timeouts and counts at least 1. *)
Theorem ini_registration (parse_quantity : bytes -> Z) (parse_bool : bytes -> bool) (conf : php_ini) (f : int_field) (h : ini_handler) :
  engine_parsers parse_quantity parse_bool ->
  ini_entry_handler f = Some h ->
  let v := ini_int (register_ini_entries parse_quantity parse_bool conf) f in
  v = ini_or_default parse_quantity parse_bool h (conf_int conf f) (ini_default f) /\ in_ini_range h v = true.
Proof.
  intros Hp Hh v. destruct (ini_default_number _ _ _ _ Hp Hh) as [Hd Hr].
  assert (v = ini_or_default parse_quantity parse_bool h (conf_int conf f) (ini_default f)) as Hv.
  { subst v. cbn. rewrite Hh. by rewrite register_entry_spec, Hd by (by rewrite Hd). }
  split; [done|]. rewrite Hv. unfold ini_or_default. destruct (conf_int conf f) as [s|]; [|done]. cbv zeta.
  by destruct (in_ini_range h (ini_number parse_quantity parse_bool h s)) eqn:E.
Qed.

(** A php.ini with a port out of range, a ratio in range and a consistency by name. *)
Definition some_php_ini : php_ini :=
  {| conf_int f := match f with port => Some (bs "70000") | new_request_ratio => Some (bs " 75") | default_consistency => Some (bs "Quorum") | _ => None end;
     conf_str _ := None; conf_reconnect_policy := None; conf_max_persistent _ := None; conf_allow_persistent := None;
     conf_expose_credentials := None |}.

Lemma ini_registration_witness :
  engine_parsers ZEND_STRTOL (fun s => bool_decide (s = bs "1")) /\
  map (ini_int (register_ini_entries ZEND_STRTOL (fun s => bool_decide (s = bs "1")) some_php_ini)) [port; new_request_ratio; default_consistency] = [9042; 75; 4] /\
  in_ini_range OnUpdatePort (ini_int (register_ini_entries ZEND_STRTOL (fun s => bool_decide (s = bs "1")) some_php_ini) port) = true.
Proof.
  assert (engine_parsers ZEND_STRTOL (fun s => bool_decide (s = bs "1"))) as Hp by (split; [apply strtol_decimal|done|done]).
  split; [exact Hp|]. split; [by vm_compute|].
  exact (proj2 (ini_registration ZEND_STRTOL (fun s => bool_decide (s = bs "1")) some_php_ini port OnUpdatePort Hp eq_refl)).
Defined.
