(* ===== verification/BuilderTyping.v ===== *)
(** The invariant of [Cassandra\Cluster\Builder]: what every field holds after any sequence of
    calls, and what [build] and the property table rely on when they dereference a field. *)
From S2P Require Import Prelude ClusterBuilder IniSettings.
From Stdlib Require Import SpecFloat.

(** What a field holds beyond its C type. *)
Definition field_range (g : ini) (f : int_field) (v : Z) : Prop :=
  match f with
  | port => 1 <= v
  | default_consistency | tracing_consistency => v <= 10
  | new_request_ratio => 1 <= v <= 100
  | persist => v = 1 -> allow_persistent g = true
  | _ => True
  end.

Record builder_ok (g : ini) (b : builder) : Prop := {
  ok_fits : forall f, fits (field_width f) (ints b f);
  ok_range : forall f, field_range g f (ints b f);
  ok_contact_points : is_Some (strs b contact_points);
  ok_credentials : is_Some (strs b username) <-> is_Some (strs b password);
  ok_local_dc : ints b load_balancing_policy = LOAD_BALANCING_DC_AWARE_ROUND_ROBIN -> is_Some (strs b local_dc);
  ok_profiles : Forall (fun e => e.1 <> []) (execution_profiles b) /\ NoDup (map fst (execution_profiles b))
}.

(** The settings of the globals the builder relies on. *)
Record ini_ok (g : ini) : Prop := {
  ini_port : 1 <= ini_int g port <= 65535;
  ini_consistency : 0 <= ini_int g default_consistency <= 10;
  ini_tracing : 0 <= ini_int g tracing_consistency <= 10;
  ini_ratio : 1 <= ini_int g new_request_ratio <= 100
}.

(** ** Preservation by the updates *)

Lemma set_int_ok g f v b : builder_ok g b -> fits (field_width f) v -> field_range g f v -> v <> LOAD_BALANCING_DC_AWARE_ROUND_ROBIN \/ f <> load_balancing_policy ->
  builder_ok g (set_int f v b).
Proof.
  intros [H1 H2 H3 H4 H5 H6] Hv Hr Hl. split; cbn; try done.
  - intros f'. by destruct (decide (f' = f)) as [->|].
  - intros f'. by destruct (decide (f' = f)) as [->|].
  - destruct (decide (load_balancing_policy = f)) as [<-|]; [|done]. by destruct Hl.
Qed.

Lemma set_str_ok g f v b : builder_ok g b -> f <> username -> f <> password -> is_Some v \/ (f <> contact_points /\ f <> local_dc) -> builder_ok g (set_str f v b).
Proof.
  intros [H1 H2 H3 H4 H5 H6] Hu Hp Hv. split; cbn; try done.
  - destruct (decide (contact_points = f)) as [<-|]; [|done]. by destruct Hv as [|[? _]].
  - by destruct (decide (username = f)), (decide (password = f)).
  - intros Hl. destruct (decide (local_dc = f)) as [<-|]; [|by apply H5]. by destruct Hv as [|[_ ?]].
Qed.

Lemma local_dc_ok g v b : builder_ok g b -> ints b load_balancing_policy <> LOAD_BALANCING_DC_AWARE_ROUND_ROBIN -> builder_ok g (set_str local_dc v b).
Proof. intros [H1 H2 H3 H4 H5 H6] Hl. by split; cbn. Qed.

Lemma credentials_ok g u p b : builder_ok g b -> builder_ok g (set_str password (Some p) (set_str username (Some u) b)).
Proof. intros [H1 H2 H3 H4 H5 H6]. split; cbn; try done. Qed.

Lemma zend_hash_update_names name v t : map fst (zend_hash_update name v t) = if bool_decide (name ∈ map fst t) then map fst t else map fst t ++ [name].
Proof.
  induction t as [|[n w] t IH]; [done|]. cbn [zend_hash_update]. destruct (bool_decide_reflect (n = name)) as [E|E].
  - subst n. cbn. rewrite bool_decide_eq_true_2; [done|]. by left.
  - cbn. rewrite IH. destruct (decide (name ∈ map fst t)) as [Hin|Hin].
    + rewrite !bool_decide_eq_true_2; [done|by right|done].
    + rewrite !bool_decide_eq_false_2; [done| |done]. intros [?|?]%elem_of_cons; done.
Qed.

Lemma profiles_ok g name v b : builder_ok g b -> name <> [] -> builder_ok g (set_execution_profiles (zend_hash_update name v (execution_profiles b)) b).
Proof.
  intros [H1 H2 H3 H4 H5 [H6 H7]] Hn. split; cbn; try done. split.
  - clear H7. induction H6 as [|[n w] t Hh Ht IH]; cbn; [by constructor|]. case_bool_decide; constructor; done.
  - rewrite zend_hash_update_names. case_bool_decide as Hin; [done|]. apply list.NoDup_app. split; [done|]. split; [|apply NoDup_singleton].
    intros x Hx Hx'. apply list_elem_of_singleton in Hx' as ->. done.
Qed.

Lemma object_ok g b b' : builder_ok g b -> ints b' = ints b -> strs b' = strs b -> execution_profiles b' = execution_profiles b -> builder_ok g b'.
Proof. intros [H1 H2 H3 H4 H5 H6] E1 E2 E3. by split; rewrite ?E1, ?E2, ?E3. Qed.

Lemma to_uint32_fits v n : to_uint32 v = Some n -> in_u 32 n.
Proof. unfold to_uint32, in_u. intros H. repeat case_match; simplify_eq. lia. Qed.

Lemma cass_bool_fits x : 0 <= cass_bool x < 2.
Proof. by destruct x. Qed.

Lemma wrapU32 v : in_u 32 (wrapU 32 v).
Proof. by apply wrapU_range. Qed.

Lemma wrapS32 v : in_s 32 (wrapS 32 v).
Proof. by apply wrapS_range. Qed.

#[export] Hint Resolve set_int_ok set_str_ok credentials_ok profiles_ok : builder.
#[export] Hint Extern 1 (fits _ _) => first [apply wrapU32 | apply wrapS32 | apply cass_bool_fits] : builder.
#[export] Hint Extern 1 (field_range _ _ _) => exact I : builder.
#[export] Hint Extern 1 (_ <> _ \/ _) => by right : builder.
#[export] Hint Extern 1 (is_Some _ \/ _) => left; by eexists : builder.
#[export] Hint Extern 1 (is_Some _ \/ _) => by right : builder.
#[export] Hint Extern 1 (_ <> _) => discriminate : builder.

(** A field that a double is stored in has no range of its own. *)
Definition plain_u32 (f : int_field) : Prop :=
  match f with
  | connect_timeout | request_timeout | reconnect_interval | connection_heartbeat_interval | tcp_keepalive_delay
  | speculative_execution_delay | reconnect_max_interval => True
  | _ => False
  end.

Lemma plain_u32_ok g f n b : plain_u32 f -> builder_ok g b -> in_u 32 n -> builder_ok g (set_int f n b).
Proof. intros Hf Hb Hn. apply set_int_ok; [done| | |]; destruct f; try done; by right. Qed.

Lemma store_ok g f v b b' : plain_u32 f -> builder_ok g b -> store f (to_uint32 v) b = Returns b' -> builder_ok g b'.
Proof.
  unfold store. intros Hf Hb H. destruct (to_uint32 v) eqn:E; [|done]. injection H as <-. eapply plain_u32_ok; [done|done|].
  by eapply to_uint32_fits.
Qed.

Lemma timeout_ok g f timeout b b' : plain_u32 f -> builder_ok g b -> php_scylladb_set_timeout f timeout b = Returns b' -> builder_ok g b'.
Proof. unfold php_scylladb_set_timeout. intros Hf Hb H. case_match; [done|]. by eapply store_ok. Qed.

Lemma interval_ok g f interval b b' : plain_u32 f -> builder_ok g b -> php_scylladb_set_interval_secs f interval b = Returns b' -> builder_ok g b'.
Proof. unfold php_scylladb_set_interval_secs. intros Hf Hb H. case_match; [done|]. by eapply store_ok. Qed.

Lemma hosts_ok g f args b b' : f <> username -> f <> password -> builder_ok g b -> php_scylladb_parse_hosts f args b = Returns b' -> builder_ok g b'.
Proof. unfold php_scylladb_parse_hosts. intros Hu Hp Hb H. case_match; [|done]. injection H as <-. eauto with builder. Qed.

Lemma validate_consistency_range v : php_scylladb_validate_consistency v = true -> 0 <= wrapU 32 v <= 10.
Proof. unfold php_scylladb_validate_consistency. intros H. repeat case_match; try done; lia. Qed.

Lemma range_wrap lo hi v w : (v <? lo) || (hi <? v) = false -> 0 <= lo -> hi < 2 ^ w -> wrapU w v = v /\ lo <= v <= hi.
Proof. intros [H1 H2]%orb_false_iff Hlo Hhi. split; [apply wrapU_id; unfold in_u; lia|lia]. Qed.

Lemma connections_ok g core max b b' : builder_ok g b -> Builder_withConnectionsPerHost core max b = Returns b' -> builder_ok g b'.
Proof. unfold Builder_withConnectionsPerHost. intros Hb H. repeat case_match; simplify_eq. eauto 7 with builder. Qed.

Lemma keepalive_ok g delay b b' : builder_ok g b -> Builder_withTCPKeepalive delay b = Returns b' -> builder_ok g b'.
Proof.
  unfold Builder_withTCPKeepalive. intros Hb H. destruct delay as [delay|].
  - case_match; [done|]. eapply (store_ok g); [| |exact H]; [exact I|]. apply set_int_ok; [done|cbn; lia|done|by right].
  - injection H as <-. apply set_int_ok; [|cbn; unfold in_u; lia|done|by right]. apply set_int_ok; [done|cbn; lia|done|by right].
Qed.

Lemma exponential_ok g base max b b' : builder_ok g b -> Builder_withExponentialReconnect base max b = Returns b' -> builder_ok g b'.
Proof.
  unfold Builder_withExponentialReconnect, seconds_to_ms. intros Hb H. repeat case_match; simplify_eq.
  apply plain_u32_ok; [done| |by eapply to_uint32_fits]. apply plain_u32_ok; [done| |by eapply to_uint32_fits].
  apply set_int_ok; [done|cbn; unfold RECONNECT_POLICY_EXPONENTIAL; lia|done|by right].
Qed.

Lemma speculative_ok g delay max b b' : builder_ok g b -> Builder_withConstantSpeculativeExecutionPolicy delay max b = Returns b' -> builder_ok g b'.
Proof.
  unfold Builder_withConstantSpeculativeExecutionPolicy. intros Hb H. repeat case_match; try done.
  eapply (store_ok g); [| |exact H]; [exact I|]. eauto with builder.
Qed.

Lemma policy_ok g v b : 0 <= v < 4 -> v <> LOAD_BALANCING_DC_AWARE_ROUND_ROBIN -> builder_ok g b -> builder_ok g (set_int load_balancing_policy v b).
Proof. intros Hv Hd Hb. apply set_int_ok; [done|done|done|by left]. Qed.

Lemma round_robin_ok g b b' : builder_ok g b -> Builder_withRoundRobinLoadBalancingPolicy b = Returns b' -> builder_ok g b'.
Proof.
  intros Hb [= <-]. change (builder_ok g (set_str local_dc None (set_int load_balancing_policy LOAD_BALANCING_ROUND_ROBIN b))).
  apply local_dc_ok; [|done]. by apply policy_ok.
Qed.

Lemma rack_aware_ok g dc rack b b' : builder_ok g b -> Builder_withRackAware dc rack b = Returns b' -> builder_ok g b'.
Proof.
  intros Hb [= <-].
  change (builder_ok g (set_str local_rack (seed_str (Some rack)) (set_str local_dc (seed_str (Some dc)) (set_int load_balancing_policy LOAD_BALANCING_RACK_AWARE b)))).
  apply set_str_ok; [|done|done|by right]. apply local_dc_ok; [|done]. by apply policy_ok.
Qed.

Lemma dc_aware_ok g dc hosts allow b b' : builder_ok g b -> Builder_withDatacenterAware dc hosts allow b = Returns b' -> builder_ok g b'.
Proof.
  unfold Builder_withDatacenterAware. intros Hb H. case_match; [done|]. injection H as <-.
  apply set_int_ok; [|apply cass_bool_fits|done|by right]. apply set_int_ok; [|apply wrapU32|done|by right].
  destruct Hb as [H1 H2 H3 H4 H5 H6]. split; cbn; try done.
  - intros f. by destruct (decide (f = _)) as [->|].
  - intros f. by destruct (decide (f = _)) as [->|].
Qed.

Lemma builder_apply_ok g c b b' : builder_ok g b -> builder_apply g c b = Returns b' -> builder_ok g b'.
Proof.
  intros Hb H. destruct c; cbn [builder_apply] in H.
  all: try (injection H as <-; first [eapply object_ok; [exact Hb|done..] | apply set_int_ok; [done|first [apply cass_bool_fits|cbn; unfold in_u; lia]|done|by right] | apply set_str_ok; [done|done|done|by right]]).
  all: try first [by eapply timeout_ok; [..|exact H] | by eapply interval_ok; [..|exact H] | by eapply hosts_ok; [..|exact H] | by eapply connections_ok
    | by eapply keepalive_ok | by eapply exponential_ok | by eapply speculative_ok | by eapply round_robin_ok | by eapply rack_aware_ok | by eapply dc_aware_ok].
  - unfold Builder_withDefaultConsistency in H. destruct (php_scylladb_validate_consistency consistency) eqn:E; [|done]. injection H as <-.
    apply validate_consistency_range in E. apply set_int_ok; [done|apply wrapU32|cbn; lia|by right].
  - unfold Builder_withDefaultPageSize in H. case_match; [done|]. injection H as <-. eauto with builder.
  - unfold Builder_withDefaultTimeout in H. case_match; [done|]. injection H as <-. by eapply object_ok.
  - unfold Builder_withPort in H. destruct ((p <? 1) || (65535 <? p)) eqn:E; [done|]. injection H as <-.
    apply (range_wrap _ _ _ 16) in E as [-> ?]; [|lia..]. apply set_int_ok; [done|cbn; unfold in_u; lia|cbn; lia|by right].
  - injection H as <-. by apply credentials_ok.
  - injection H as <-. apply set_int_ok; [done|apply cass_bool_fits| |by right]. cbn. by destruct enabled, (allow_persistent g).
  - unfold Builder_withProtocolVersion in H. case_match; [done|]. injection H as <-. eauto with builder.
  - unfold Builder_withIOThreads in H. case_match; [done|]. injection H as <-. eauto with builder.
  - unfold Builder_withCoalesceDelay in H. case_match; [done|]. injection H as <-. eauto with builder.
  - unfold Builder_withNewRequestRatio in H. destruct ((ratio <? 1) || (100 <? ratio)) eqn:E; [done|]. injection H as <-.
    apply orb_false_iff in E as [E1 E2]. rewrite wrapS_id by (unfold in_s; lia). apply set_int_ok; [done|cbn; unfold in_s; lia|cbn; lia|by right].
  - unfold Builder_withExecutionProfile in H. destruct name as [[|]|]; [done| |done]. injection H as <-. by apply profiles_ok.
Qed.

Lemma builder_run_ok g cs : forall b b', builder_ok g b -> builder_run g cs b = Some b' -> builder_ok g b'.
Proof.
  induction cs as [|c cs IH]; intros b b' Hb H; cbn in H; [by simplify_eq|].
  destruct (builder_apply g c b) eqn:E; [|by eapply IH|done]. eapply IH; [|exact H]. by eapply builder_apply_ok.
Qed.

Lemma builder_new_ok g : ini_ok g -> builder_ok g (php_scylladb_cluster_builder_new g).
Proof.
  intros [Hp Hc Ht Hr].
  assert (wrapU 16 (ini_int g port) = ini_int g port) as Ep by (apply wrapU_id; unfold in_u; lia).
  assert (wrapU 32 (ini_int g default_consistency) = ini_int g default_consistency) as Ec by (apply wrapU_id; unfold in_u; lia).
  assert (wrapU 32 (ini_int g tracing_consistency) = ini_int g tracing_consistency) as Et by (apply wrapU_id; unfold in_u; lia).
  assert (wrapS 32 (ini_int g new_request_ratio) = ini_int g new_request_ratio) as Er by (apply wrapS_id; unfold in_s; lia).
  split.
  - intros f. destruct f; cbn; rewrite ?Ep, ?Ec, ?Et, ?Er; unfold in_u, in_s; try lia; try apply cass_bool_fits; try apply wrapU32; try apply wrapS32.
    by repeat case_match.
  - intros f. destruct f; cbn; rewrite ?Ep, ?Ec, ?Et, ?Er; try done; try lia. by destruct (allow_persistent g).
  - cbn. by repeat case_match.
  - done.
  - cbn. by repeat case_match.
  - by repeat constructor.
Qed.

Lemma ini_range_field parse_quantity parse_bool conf f h : engine_parsers parse_quantity parse_bool -> ini_entry_handler f = Some h ->
  in_ini_range h (ini_int (register_ini_entries parse_quantity parse_bool conf) f) = true.
Proof.
  intros Hp Hh. destruct (ini_default_number _ _ _ _ Hp Hh) as [Hd Hr]. cbn. rewrite Hh, register_entry_spec, Hd by (by rewrite Hd).
  unfold ini_or_default. destruct (conf_int conf f) as [s|]; [|done]. cbv zeta. by destruct (in_ini_range h (ini_number parse_quantity parse_bool h s)) eqn:E.
Qed.

Lemma registered_ini_ok parse_quantity parse_bool conf : engine_parsers parse_quantity parse_bool -> ini_ok (register_ini_entries parse_quantity parse_bool conf).
Proof.
  intros Hp.
  pose proof (ini_range_field _ _ conf port _ Hp eq_refl) as H1. pose proof (ini_range_field _ _ conf default_consistency _ Hp eq_refl) as H2.
  pose proof (ini_range_field _ _ conf tracing_consistency _ Hp eq_refl) as H3. pose proof (ini_range_field _ _ conf new_request_ratio _ Hp eq_refl) as H4.
  set (g := register_ini_entries parse_quantity parse_bool conf) in *. clearbody g. unfold in_ini_range in *. cbn in H1, H2, H3, H4.
  apply andb_true_iff in H1, H2, H3, H4. split; lia.
Qed.

(** ** The property table *)

Inductive property :=
| PNull | PStr (s : bytes) | PLong (v : Z) | PDouble (d : double) | PBool (v : Z) | PObj (o : nat) | PProtocolVersion (v : Z).

(** A [double] made of an unsigned integer, and its bits. *)
Definition double_of (v : Z) : double := binary_normalize 53 1024 v 0 false.
Definition double_div (a b : double) : double := SFdiv 53 1024 a b.

Definition double_bits (d : double) : Z :=
  let sign (s : bool) := if s then 2 ^ 63 else 0 in
  match d with
  | S754_zero s => sign s
  | S754_infinity s => sign s + 0x7ff * 2 ^ 52
  | S754_nan => 0x7ff8 * 2 ^ 48
  | S754_finite s m e => sign s + if 2 ^ 52 <=? Zpos m then (e + 1075) * 2 ^ 52 + (Zpos m - 2 ^ 52) else Zpos m
  end.

Definition milliseconds (v : Z) : property := PDouble (double_div (double_of v) double_1000).

(** [ZVAL_STR_COPY]: the pointer is dereferenced. *)
Definition str_copy (s : option bytes) : option property := option_map PStr s.
Definition str_or_null (s : option bytes) : property := match s with Some s => PStr s | None => PNull end.
Definition obj_or_null (o : option nat) : property := match o with Some o => PObj o | None => PNull end.

(** [zend_enum_get_case_by_value] on [Cassandra\ProtocolVersion]: V1 to V5. *)
Definition protocol_version_property (v : Z) : property := if (1 <=? v) && (v <=? 5) then PProtocolVersion v else PLong v.

Section properties.
Context (g : ini) (b : builder).

(** The datacenter, the hosts per remote datacenter and the use of remote datacenters. *)
Definition dc_properties : option (property * property * property) :=
  if ints b load_balancing_policy =? LOAD_BALANCING_DC_AWARE_ROUND_ROBIN then
    match str_copy (strs b local_dc) with
    | Some dc => Some (dc, PLong (ints b used_hosts_per_remote_dc), PBool (ints b allow_remote_dcs_for_local_cl))
    | None => None
    end
  else Some (str_or_null (strs b local_dc), PNull, PNull).

Definition credential_properties : option (list (bytes * property)) :=
  match strs b username with
  | Some user =>
      match (if expose_credentials g then str_copy (strs b password) else Some (PStr (bs "***"))) with
      | Some pass => Some [(bs "username", PStr user); (bs "password", pass)]
      | None => None
      end
  | None => Some [(bs "username", PNull); (bs "password", PNull)]
  end.

Definition speculative_properties : list (bytes * property) :=
  if 0 <? ints b speculative_execution_delay then
    [(bs "speculativeExecutionDelay", milliseconds (ints b speculative_execution_delay)); (bs "speculativeExecutionMax", PLong (ints b speculative_execution_max))]
  else [(bs "speculativeExecutionDelay", PNull); (bs "speculativeExecutionMax", PNull)].

(** The table in its insertion order; [None] when a null pointer is dereferenced.  [Z_LVAL] of the
    double in [default_timeout] reads its bits. *)
Definition php_scylladb_cluster_builder_properties : option (list (bytes * property)) :=
  match str_copy (strs b contact_points), dc_properties, credential_properties with
  | Some hosts, Some (dc, hosts_per_remote, use_remote), Some credentials => Some (
      [(bs "contactPoints", hosts); (bs "loadBalancingPolicy", PLong (ints b load_balancing_policy)); (bs "localDatacenter", dc);
       (bs "localRack", str_or_null (strs b local_rack)); (bs "applicationName", str_or_null (strs b application_name));
       (bs "applicationVersion", str_or_null (strs b application_version));
       (bs "reconnectPolicy", PStr (if ints b reconnect_policy =? RECONNECT_POLICY_EXPONENTIAL then bs "exponential" else bs "constant"));
       (bs "reconnectMaxInterval", milliseconds (ints b reconnect_max_interval))] ++ speculative_properties ++
      [(bs "hostPerRemoteDatacenter", hosts_per_remote); (bs "useRemoteDatacenterForLocalConsistencies", use_remote);
       (bs "useTokenAwareRouting", PBool (ints b use_token_aware_routing))] ++ credentials ++
      [(bs "connectTimeout", milliseconds (ints b connect_timeout)); (bs "requestTimeout", milliseconds (ints b request_timeout));
       (bs "sslOptions", obj_or_null (ssl_options b)); (bs "defaultConsistency", PLong (ints b default_consistency));
       (bs "defaultPageSize", PLong (ints b default_page_size));
       (bs "defaultTimeout", match default_timeout b with Some d => PLong (wrapS 64 (double_bits d)) | None => PNull end);
       (bs "usePersistentSessions", PBool (ints b persist)); (bs "protocolVersion", protocol_version_property (ints b protocol_version));
       (bs "ioThreads", PLong (ints b io_threads)); (bs "coreConnectionPerHost", PLong (ints b core_connections_per_host));
       (bs "maxConnectionsPerHost", PLong (ints b max_connections_per_host)); (bs "reconnectInterval", milliseconds (ints b reconnect_interval));
       (bs "latencyAwareRouting", PBool (ints b enable_latency_aware_routing)); (bs "tcpNodelay", PBool (ints b enable_tcp_nodelay));
       (bs "tcpKeepalive", if negb (ints b enable_tcp_keepalive =? 0) then PDouble (double_of (ints b tcp_keepalive_delay)) else PNull);
       (bs "retryPolicy", obj_or_null (retry_policy b)); (bs "timestampGenerator", obj_or_null (timestamp_gen b));
       (bs "schemaMetadata", PBool (ints b enable_schema));
       (bs "blacklist_hosts", str_or_null (strs b blacklist_hosts)); (bs "whitelist_hosts", str_or_null (strs b whitelist_hosts));
       (bs "blacklist_dcs", str_or_null (strs b blacklist_dcs)); (bs "whitelist_dcs", str_or_null (strs b whitelist_dcs));
       (bs "hostnameResolution", PBool (ints b enable_hostname_resolution));
       (bs "randomizedContactPoints", PBool (ints b enable_randomized_contact_points));
       (bs "connectionHeartbeatInterval", PLong (ints b connection_heartbeat_interval))])
  | _, _, _ => None
  end.
End properties.

Lemma properties_defined g b : builder_ok g b -> is_Some (php_scylladb_cluster_builder_properties g b).
Proof.
  intros [_ _ [hosts Hh] Hcred Hdc _]. unfold php_scylladb_cluster_builder_properties, dc_properties, credential_properties. rewrite Hh. cbn [str_copy option_map].
  destruct (Z.eqb_spec (ints b load_balancing_policy) LOAD_BALANCING_DC_AWARE_ROUND_ROBIN) as [E|_].
  - destruct (Hdc E) as [dc ->]. cbn [str_copy option_map]. destruct (strs b username) eqn:Eu; [|done].
    destruct (proj1 Hcred (mk_is_Some _ _ eq_refl)) as [p ->]. by destruct (expose_credentials g).
  - destruct (strs b username) eqn:Eu; [|done].
    destruct (proj1 Hcred (mk_is_Some _ _ eq_refl)) as [p ->]. by destruct (expose_credentials g).
Qed.

(** C30: The builder is well typed whatever php.ini and the program do.  After any calls on a builder
    seeded from the registered directives (exceptions thrown by a call leave it as it was), every
    integer field holds a value of its C type, the port is at least 1, the consistencies are at
    most 10, the new-request ratio is in 1..100, persistence is on only when the operator allows it,
    contact points are set, a user name comes with a password and conversely, a datacenter-aware
    policy has a local datacenter, profile names are distinct and not empty; so that the property
    table, which dereferences those pointers unchecked, is always defined. *)
Theorem builder_typed (parse_quantity : bytes -> Z) (parse_bool : bytes -> bool) (conf : php_ini) (cs : list builder_call) (b : builder) :
  engine_parsers parse_quantity parse_bool ->
  let g := register_ini_entries parse_quantity parse_bool conf in
  builder_run g cs (php_scylladb_cluster_builder_new g) = Some b ->
  builder_ok g b /\ is_Some (php_scylladb_cluster_builder_properties g b).
Proof.
  intros Hp g Hrun. assert (builder_ok g b) as Hb.
  { eapply builder_run_ok; [|exact Hrun]. apply builder_new_ok. by apply registered_ini_ok. }
  split; [done|]. by apply properties_defined.
Qed.

Definition strtol_bool (s : bytes) : bool := bool_decide (s = bs "1").

Definition typed_calls : list builder_call :=
  [withDatacenterAwareRoundRobinLoadBalancingPolicy (bs "dc1") 2 true; withPort 0; withPort 19042; withCredentials (bs "cassandra") (bs "secret");
   withConnectionsPerHost 4 2; withConnectTimeout double_1000; withPersistentSessions true].

Lemma builder_typed_witness :
  engine_parsers ZEND_STRTOL strtol_bool /\
  exists b, builder_run (register_ini_entries ZEND_STRTOL strtol_bool some_php_ini) typed_calls
              (php_scylladb_cluster_builder_new (register_ini_entries ZEND_STRTOL strtol_bool some_php_ini)) = Some b /\
    map (ints b) [port; connect_timeout; core_connections_per_host; persist] = [19042; 1000000; 1; 1] /\
    is_Some (php_scylladb_cluster_builder_properties (register_ini_entries ZEND_STRTOL strtol_bool some_php_ini) b).
Proof.
  assert (engine_parsers ZEND_STRTOL strtol_bool) as Hp by (split; [apply strtol_decimal|done|done]).
  split; [exact Hp|]. eexists. split; [reflexivity|]. split; [by vm_compute|].
  exact (proj2 (builder_typed ZEND_STRTOL strtol_bool some_php_ini typed_calls _ Hp eq_refl)).
Defined.

(** The password does not reach the property table.  With [cassandra.expose_credentials] off,
    two builders that differ only in the password have the same table, so that no dump, cast or
    debug renderer built on it can tell them apart; the operator who turns the directive on gets the
    password itself. *)
Theorem password_redacted (g : ini) (b : builder) (user p1 p2 : bytes) :
  strs b username = Some user ->
  (expose_credentials g = false ->
   php_scylladb_cluster_builder_properties g (set_str password (Some p1) b) = php_scylladb_cluster_builder_properties g (set_str password (Some p2) b)) /\
  (expose_credentials g = true -> forall t,
   php_scylladb_cluster_builder_properties g (set_str password (Some p1) b) = Some t -> (bs "password", PStr p1) ∈ t).
Proof.
  intros Hu. split; intros He.
  - unfold php_scylladb_cluster_builder_properties, credential_properties, dc_properties. rewrite He. reflexivity.
  - intros t Ht. unfold php_scylladb_cluster_builder_properties in Ht.
    assert (credential_properties g (set_str password (Some p1) b) = Some [(bs "username", PStr user); (bs "password", PStr p1)]) as E.
    { unfold credential_properties. change (strs (set_str password (Some p1) b) username) with (strs b username). by rewrite Hu, He. }
    rewrite E in Ht. destruct (str_copy _); [|done]. destruct (dc_properties _) as [[[dc hpr] ur]|]; [|done]. injection Ht as <-.
    do 8 (apply elem_of_cons; right). apply elem_of_app. right. do 4 (apply elem_of_cons; right). apply elem_of_cons. by left.
Qed.

Lemma password_redacted_witness :
  exists g b, strs b username = Some (bs "cassandra") /\ expose_credentials g = false /\
    php_scylladb_cluster_builder_properties g (set_str password (Some (bs "secret")) b) =
    php_scylladb_cluster_builder_properties g (set_str password (Some (bs "other")) b) /\
    bool_decide (is_Some (php_scylladb_cluster_builder_properties g (set_str password (Some (bs "other")) b))) = true.
Proof.
  exists (register_ini_entries ZEND_STRTOL strtol_bool some_php_ini).
  exists (set_str username (Some (bs "cassandra")) (php_scylladb_cluster_builder_new (register_ini_entries ZEND_STRTOL strtol_bool some_php_ini))).
  split; [reflexivity|]. split; [by vm_compute|]. split; [|by vm_compute].
  refine (proj1 (password_redacted _ _ (bs "cassandra") (bs "secret") (bs "other") _) _); [reflexivity|by vm_compute].
Defined.
