(* ===== verification/DriverErrors.v ===== *)
(** The error codes of the driver and the exception class the extension throws for each
    ([exception_class] in [php_scylladb.c]). *)
From S2P Require Import Prelude.

(** [CassError], by the codes the extension names. *)
Inductive CassError :=
| CASS_ERROR_LIB_BAD_PARAMS | CASS_ERROR_LIB_INDEX_OUT_OF_BOUNDS | CASS_ERROR_LIB_INVALID_ITEM_COUNT
| CASS_ERROR_LIB_INVALID_VALUE_TYPE | CASS_ERROR_LIB_INVALID_STATEMENT_TYPE | CASS_ERROR_LIB_NAME_DOES_NOT_EXIST
| CASS_ERROR_LIB_NULL_VALUE | CASS_ERROR_SSL_INVALID_CERT | CASS_ERROR_SSL_INVALID_PRIVATE_KEY | CASS_ERROR_SSL_NO_PEER_CERT
| CASS_ERROR_SSL_INVALID_PEER_CERT | CASS_ERROR_SSL_IDENTITY_MISMATCH | CASS_ERROR_LIB_NO_STREAMS
| CASS_ERROR_LIB_UNABLE_TO_INIT | CASS_ERROR_LIB_MESSAGE_ENCODE | CASS_ERROR_LIB_HOST_RESOLUTION
| CASS_ERROR_LIB_UNEXPECTED_RESPONSE | CASS_ERROR_LIB_REQUEST_QUEUE_FULL | CASS_ERROR_LIB_NO_AVAILABLE_IO_THREAD
| CASS_ERROR_LIB_WRITE_ERROR | CASS_ERROR_LIB_NO_HOSTS_AVAILABLE | CASS_ERROR_LIB_UNABLE_TO_SET_KEYSPACE
| CASS_ERROR_LIB_UNABLE_TO_DETERMINE_PROTOCOL | CASS_ERROR_LIB_UNABLE_TO_CONNECT | CASS_ERROR_LIB_UNABLE_TO_CLOSE
| CASS_ERROR_LIB_REQUEST_TIMED_OUT | CASS_ERROR_LIB_CALLBACK_ALREADY_SET | CASS_ERROR_LIB_NOT_IMPLEMENTED
| CASS_ERROR_SERVER_SERVER_ERROR | CASS_ERROR_SERVER_PROTOCOL_ERROR | CASS_ERROR_SERVER_BAD_CREDENTIALS
| CASS_ERROR_SERVER_UNAVAILABLE | CASS_ERROR_SERVER_OVERLOADED | CASS_ERROR_SERVER_IS_BOOTSTRAPPING
| CASS_ERROR_SERVER_TRUNCATE_ERROR | CASS_ERROR_SERVER_WRITE_TIMEOUT | CASS_ERROR_SERVER_READ_TIMEOUT
| CASS_ERROR_SERVER_SYNTAX_ERROR | CASS_ERROR_SERVER_UNAUTHORIZED | CASS_ERROR_SERVER_INVALID_QUERY
| CASS_ERROR_SERVER_CONFIG_ERROR | CASS_ERROR_SERVER_ALREADY_EXISTS | CASS_ERROR_SERVER_UNPREPARED
| CASS_ERROR_LIB_NO_PAGING_STATE | CASS_ERROR_LIB_PARAMETER_UNSET | CASS_OK | CASS_ERROR_LIB_INTERNAL_ERROR
| CASS_ERROR_LIB_INVALID_ERROR_RESULT_TYPE | CASS_ERROR_LIB_INVALID_FUTURE_TYPE | CASS_ERROR_LIB_INVALID_CUSTOM_TYPE
| CASS_ERROR_LIB_INVALID_DATA | CASS_ERROR_LIB_NOT_ENOUGH_DATA | CASS_ERROR_LIB_EXECUTION_PROFILE_INVALID
| CASS_ERROR_LIB_INVALID_STATE | CASS_ERROR_LIB_NO_CUSTOM_PAYLOAD | CASS_ERROR_LIB_NO_TRACING_ID
| CASS_ERROR_SERVER_FUNCTION_FAILURE | CASS_ERROR_SERVER_READ_FAILURE | CASS_ERROR_SERVER_WRITE_FAILURE
| CASS_ERROR_SSL_CLOSED | CASS_ERROR_SSL_PROTOCOL_ERROR | CASS_ERROR_LAST_ENTRY.

#[export] Instance cass_error_eq_dec : EqDecision CassError.
Proof. solve_decision. Defined.

Inductive exception_ce :=
| InvalidArgumentException | RuntimeException | TimeoutException | LogicException | ServerException | ProtocolException
| AuthenticationException | UnavailableException | OverloadedException | IsBootstrappingException | TruncateException
| WriteTimeoutException | ReadTimeoutException | InvalidSyntaxException | UnauthorizedException | InvalidQueryException
| ConfigurationException | AlreadyExistsException | UnpreparedException.

Definition exception_class (rc : CassError) : exception_ce :=
  match rc with
  | CASS_ERROR_LIB_BAD_PARAMS | CASS_ERROR_LIB_INDEX_OUT_OF_BOUNDS | CASS_ERROR_LIB_INVALID_ITEM_COUNT
  | CASS_ERROR_LIB_INVALID_VALUE_TYPE | CASS_ERROR_LIB_INVALID_STATEMENT_TYPE | CASS_ERROR_LIB_NAME_DOES_NOT_EXIST
  | CASS_ERROR_LIB_NULL_VALUE | CASS_ERROR_SSL_INVALID_CERT | CASS_ERROR_SSL_INVALID_PRIVATE_KEY
  | CASS_ERROR_SSL_NO_PEER_CERT | CASS_ERROR_SSL_INVALID_PEER_CERT | CASS_ERROR_SSL_IDENTITY_MISMATCH => InvalidArgumentException
  | CASS_ERROR_LIB_NO_STREAMS | CASS_ERROR_LIB_UNABLE_TO_INIT | CASS_ERROR_LIB_MESSAGE_ENCODE
  | CASS_ERROR_LIB_HOST_RESOLUTION | CASS_ERROR_LIB_UNEXPECTED_RESPONSE | CASS_ERROR_LIB_REQUEST_QUEUE_FULL
  | CASS_ERROR_LIB_NO_AVAILABLE_IO_THREAD | CASS_ERROR_LIB_WRITE_ERROR | CASS_ERROR_LIB_NO_HOSTS_AVAILABLE
  | CASS_ERROR_LIB_UNABLE_TO_SET_KEYSPACE | CASS_ERROR_LIB_UNABLE_TO_DETERMINE_PROTOCOL | CASS_ERROR_LIB_UNABLE_TO_CONNECT
  | CASS_ERROR_LIB_UNABLE_TO_CLOSE => RuntimeException
  | CASS_ERROR_LIB_REQUEST_TIMED_OUT => TimeoutException
  | CASS_ERROR_LIB_CALLBACK_ALREADY_SET | CASS_ERROR_LIB_NOT_IMPLEMENTED => LogicException
  | CASS_ERROR_SERVER_SERVER_ERROR => ServerException
  | CASS_ERROR_SERVER_PROTOCOL_ERROR => ProtocolException
  | CASS_ERROR_SERVER_BAD_CREDENTIALS => AuthenticationException
  | CASS_ERROR_SERVER_UNAVAILABLE => UnavailableException
  | CASS_ERROR_SERVER_OVERLOADED => OverloadedException
  | CASS_ERROR_SERVER_IS_BOOTSTRAPPING => IsBootstrappingException
  | CASS_ERROR_SERVER_TRUNCATE_ERROR => TruncateException
  | CASS_ERROR_SERVER_WRITE_TIMEOUT => WriteTimeoutException
  | CASS_ERROR_SERVER_READ_TIMEOUT => ReadTimeoutException
  | CASS_ERROR_SERVER_SYNTAX_ERROR => InvalidSyntaxException
  | CASS_ERROR_SERVER_UNAUTHORIZED => UnauthorizedException
  | CASS_ERROR_SERVER_INVALID_QUERY => InvalidQueryException
  | CASS_ERROR_SERVER_CONFIG_ERROR => ConfigurationException
  | CASS_ERROR_SERVER_ALREADY_EXISTS => AlreadyExistsException
  | CASS_ERROR_SERVER_UNPREPARED => UnpreparedException
  | _ => RuntimeException
  end.
