(* ===== verification/ExecutionProfile.v ===== *)
(** [Cassandra\ExecutionProfile] ([ExecutionProfile.c]): the setters of a profile, each of which
    checks its arguments, folds them into the profile's fingerprint and applies them to the driver's
    [CassExecProfile]; and the codes the driver answers with.

    The driver's side is [execution_profile.cpp] of the bundled driver; a policy or generator object
    is its address. *)
From S2P Require Import Prelude DriverErrors CacheKey ClusterBuilder.
From Stdlib Require Import SpecFloat.

(** ** Driver strings *)

(** [std::getline] up to a delimiter, repeated. *)
Fixpoint split_on (d : Z) (token : bytes) (s : bytes) : list bytes :=
  match s with
  | [] => [token]
  | c :: s' => if c =? d then token :: split_on d [] s' else split_on d (token ++ [c]) s'
  end.

Fixpoint trim_front (s : bytes) : bytes := match s with c :: s' => if isspace c then trim_front s' else s | [] => [] end.
Definition trim (s : bytes) : bytes := rev (trim_front (rev (trim_front s))).

(** [explode] appends the tokens that are not empty once trimmed. *)
Definition explode (s : bytes) (vec : list bytes) : list bytes :=
  vec ++ filter (fun t => t <> []) (map trim (split_on 44 [] s)).

(** The filtering setters: an empty string clears the list, another one adds to it. *)
Definition set_filtering (s : bytes) (vec : list bytes) : list bytes := match s with [] => [] | _ => explode s vec end.

(** ** The driver's profile *)

Inductive lb_policy := RoundRobinPolicy | DCAwarePolicy (dc : bytes) (used_hosts_per_remote_dc : Z) (skip_remote_dcs : bool) | RackAwarePolicy (dc rack : bytes).

Inductive speculative_policy := NoSpeculativeExecution | ConstantSpeculativeExecution (delay_ms max : Z).

Inductive filter_list := WhiteListHosts | BlackListHosts | WhiteListDCs | BlackListDCs.

#[export] Instance filter_list_eq_dec : EqDecision filter_list.
Proof. solve_decision. Defined.

(** [None] stands for the sentinels the constructor leaves (an unknown consistency, the largest timeout,
    null policies): the cluster's default profile then decides. *)
Record exec_profile : Type := {
  ep_consistency : option Z;
  ep_serial_consistency : option Z;
  ep_request_timeout : option Z;
  ep_retry_policy : option Z;
  ep_load_balancing : option lb_policy;
  ep_token_aware : bool;
  ep_shuffle_replicas : bool;
  ep_latency_aware : bool;
  ep_latency_settings : option (double * Z * Z * Z * Z);
  ep_speculative : option speculative_policy;
  ep_filters : filter_list -> list bytes
}.

Definition cass_execution_profile_new : exec_profile :=
  {| ep_consistency := None; ep_serial_consistency := None; ep_request_timeout := None; ep_retry_policy := None; ep_load_balancing := None;
     ep_token_aware := true; ep_shuffle_replicas := true; ep_latency_aware := false; ep_latency_settings := None; ep_speculative := None;
     ep_filters := fun _ => [] |}.

(** The arguments as the driver gets them. *)
Inductive exec_call :=
| set_consistency (v : Z)
| set_serial_consistency (v : Z)
| set_request_timeout (ms : Z)
| set_retry_policy (policy : Z)
| set_load_balance_round_robin
| set_load_balance_dc_aware_n (dc : bytes) (used : Z) (allow : bool)
| set_token_aware_routing (enabled : bool)
| set_token_aware_routing_shuffle_replicas (enabled : bool)
| set_latency_aware_routing (enabled : bool)
| set_latency_aware_routing_settings (threshold : double) (scale_ms retry_period_ms update_rate_ms min_measured : Z)
| set_constant_speculative_execution_policy (delay_ms max : Z)
| set_no_speculative_execution_policy
| set_filter (l : filter_list) (hosts : bytes).

(** The value of an optional setting after the call that makes it. *)
Definition cass_execution_profile_set (c : exec_call) (p : exec_profile) : CassError * exec_profile :=
  let done p' := (CASS_OK, p') in
  match p with
  | Build_exec_profile co se ti re lb ta sh la ls sp fi =>
      match c with
      | set_consistency v => done (Build_exec_profile (Some v) se ti re lb ta sh la ls sp fi)
      | set_serial_consistency v => done (Build_exec_profile co (Some v) ti re lb ta sh la ls sp fi)
      | set_request_timeout ms => done (Build_exec_profile co se (Some ms) re lb ta sh la ls sp fi)
      | set_retry_policy policy => done (Build_exec_profile co se ti (Some policy) lb ta sh la ls sp fi)
      | set_load_balance_round_robin => done (Build_exec_profile co se ti re (Some RoundRobinPolicy) ta sh la ls sp fi)
      | set_load_balance_dc_aware_n dc used allow =>
          match dc with
          | [] => (CASS_ERROR_LIB_BAD_PARAMS, p)
          | _ => done (Build_exec_profile co se ti re (Some (DCAwarePolicy dc used (negb allow))) ta sh la ls sp fi)
          end
      | set_token_aware_routing enabled => done (Build_exec_profile co se ti re lb enabled sh la ls sp fi)
      | set_token_aware_routing_shuffle_replicas enabled => done (Build_exec_profile co se ti re lb ta enabled la ls sp fi)
      | set_latency_aware_routing enabled => done (Build_exec_profile co se ti re lb ta sh enabled ls sp fi)
      | set_latency_aware_routing_settings threshold scale retry update min =>
          done (Build_exec_profile co se ti re lb ta sh la
            (Some (threshold, wrapU 64 (scale * 1000 * 1000), wrapU 64 (retry * 1000 * 1000), update, min)) sp fi)
      | set_constant_speculative_execution_policy delay max =>
          if (delay <? 0) || (max <? 0) then (CASS_ERROR_LIB_BAD_PARAMS, p)
          else done (Build_exec_profile co se ti re lb ta sh la ls (Some (ConstantSpeculativeExecution delay max)) fi)
      | set_no_speculative_execution_policy => done (Build_exec_profile co se ti re lb ta sh la ls (Some NoSpeculativeExecution) fi)
      | set_filter l hosts =>
          done (Build_exec_profile co se ti re lb ta sh la ls sp
            (fun l' => if decide (l' = l) then set_filtering (c_string hosts) (fi l) else fi l'))
      end
  end.

(** ** The PHP object *)

Record execution_profile : Type := { config_hash : Z; profile : exec_profile; held_policy : option Z }.

Definition php_scylladb_execution_profile_new : execution_profile :=
  {| config_hash := php_scylladb_cache_key_init; profile := cass_execution_profile_new; held_policy := None |}.

Definition mix (f : Z -> Z) (p : execution_profile) : execution_profile :=
  {| config_hash := f (config_hash p); profile := profile p; held_policy := held_policy p |}.

Definition hold (policy : Z) (p : execution_profile) : execution_profile :=
  {| config_hash := config_hash p; profile := profile p; held_policy := Some policy |}.

Definition php_scylladb_profile_this (tag : bytes) : execution_profile -> execution_profile :=
  mix (fun h => php_scylladb_cache_key_mix_cstr h (Some tag)).

(** The argument goes through [int]. *)
Definition PHP_SCYLLADB_PROFILE_MIX_INT (v : Z) : execution_profile -> execution_profile :=
  mix (fun h => php_scylladb_cache_key_mix_int h (wrapS 32 v)).

Definition mix_str (s : bytes) : execution_profile -> execution_profile := mix (fun h => php_scylladb_cache_key_mix_zstr h (Some s)).

Inductive profile_outcome :=
| PReturns (p : execution_profile)
| PInvalid (name expected : bytes)
| PThrows (rc : CassError) (p : execution_profile)
| PUndefined.

(** [ASSERT_SUCCESS] on a driver call. *)
Definition driver (c : exec_call) (p : execution_profile) : profile_outcome :=
  let '(rc, e) := cass_execution_profile_set c (profile p) in
  let p' := {| config_hash := config_hash p; profile := e; held_policy := held_policy p |} in
  match rc with CASS_OK => PReturns p' | _ => PThrows rc p' end.

(** The conversions of an integral double to 64 bits, where they are defined, and of a double to
    [int], by truncation. *)
Definition to_uint64 (v : option Z) : option Z := match v with Some v => if (0 <=? v) && (v <? 2 ^ 64) then Some v else None | None => None end.
Definition to_int64 (v : option Z) : option Z := match v with Some v => if (- 2 ^ 63 <=? v) && (v <? 2 ^ 63) then Some v else None | None => None end.

Definition double_trunc (d : double) : option Z :=
  match d with
  | S754_zero _ => Some 0
  | S754_finite s m e => let v := if s then Zneg m else Zpos m in Some (if 0 <=? e then v * 2 ^ e else Z.quot v (2 ^ (- e)))
  | _ => None
  end.

Definition to_int (v : option Z) : option Z := match v with Some v => if (INT_MIN <=? v) && (v <=? INT_MAX) then Some v else None | None => None end.

Definition scaled_ms (d : double) : option Z := double_ceil (double_mul d double_1000).

Inductive profile_call :=
| P_withConsistency (consistency : Z)
| P_withSerialConsistency (consistency : Z)
| P_withRequestTimeout (timeout : double)
| P_withRetryPolicy (policy : Z)
| P_withRoundRobinLoadBalancingPolicy
| P_withDatacenterAware (local_dc : bytes) (hosts_per_remote_dc : Z) (allow : bool)
| P_withTokenAwareRouting (enabled : bool)
| P_withTokenAwareRoutingShuffleReplicas (enabled : bool)
| P_withLatencyAwareRouting (enabled : bool)
| P_withLatencyAwareRoutingSettings (exclusion_threshold scale retry_period update_rate : double) (min_measured : Z)
| P_withConstantSpeculativeExecutionPolicy (delay : double) (max_executions : Z)
| P_withNoSpeculativeExecutionPolicy
| P_filter (l : filter_list) (args : list (option bytes)).

Definition php_scylladb_validate_serial_consistency (consistency : Z) : bool :=
  match wrapU 32 consistency with 8 | 9 => true | _ => false end.

Definition P_Consistency (consistency : Z) (p : execution_profile) : profile_outcome :=
  if negb (php_scylladb_validate_consistency consistency) then PInvalid (bs "consistency") (bs "one of Cassandra::CONSISTENCY_*")
  else driver (set_consistency (wrapU 32 consistency)) (PHP_SCYLLADB_PROFILE_MIX_INT consistency (php_scylladb_profile_this (bs "consistency") p)).

Definition P_SerialConsistency (consistency : Z) (p : execution_profile) : profile_outcome :=
  if negb (php_scylladb_validate_serial_consistency consistency)
  then PInvalid (bs "consistency") (bs "Cassandra::CONSISTENCY_SERIAL or Cassandra::CONSISTENCY_LOCAL_SERIAL")
  else driver (set_serial_consistency (wrapU 32 consistency))
         (PHP_SCYLLADB_PROFILE_MIX_INT consistency (php_scylladb_profile_this (bs "serial_consistency") p)).

Definition P_RequestTimeout (timeout : double) (p : execution_profile) : profile_outcome :=
  if double_lt timeout double_zero then PInvalid (bs "timeout") (bs "a positive number")
  else match to_uint64 (scaled_ms timeout) with
       | None => PUndefined
       | Some ms => driver (set_request_timeout ms) (PHP_SCYLLADB_PROFILE_MIX_INT ms (php_scylladb_profile_this (bs "request_timeout") p))
       end.

Definition P_RetryPolicy (policy : Z) (p : execution_profile) : profile_outcome :=
  driver (set_retry_policy policy) (PHP_SCYLLADB_PROFILE_MIX_INT policy (hold policy (php_scylladb_profile_this (bs "retry_policy") p))).

Definition P_DatacenterAware (dc : bytes) (hosts : Z) (allow : bool) (p : execution_profile) : profile_outcome :=
  if hosts <? 0 then PInvalid (bs "hostPerRemoteDatacenter") (bs "zero or a positive integer")
  else driver (set_load_balance_dc_aware_n dc (wrapU 32 hosts) allow)
         (PHP_SCYLLADB_PROFILE_MIX_INT (cass_bool allow) (PHP_SCYLLADB_PROFILE_MIX_INT hosts (mix_str dc (php_scylladb_profile_this (bs "lb_dc_aware") p)))).

Definition P_Bool (tag : bytes) (c : bool -> exec_call) (enabled : bool) (p : execution_profile) : profile_outcome :=
  driver (c enabled) (PHP_SCYLLADB_PROFILE_MIX_INT (cass_bool enabled) (php_scylladb_profile_this tag p)).

Definition P_LatencySettings (threshold scale retry_period update_rate : double) (min_measured : Z) (p : execution_profile) : profile_outcome :=
  if double_lt threshold double_zero || double_lt scale double_zero || double_lt retry_period double_zero || double_lt update_rate double_zero || (min_measured <? 0)
  then PInvalid (bs "latency aware routing settings") (bs "positive numbers")
  else match to_uint64 (scaled_ms scale), to_uint64 (scaled_ms retry_period), to_uint64 (scaled_ms update_rate), to_int (double_trunc (double_mul threshold double_1000)) with
       | Some scale_ms, Some retry_ms, Some update_ms, Some t =>
           driver (set_latency_aware_routing_settings threshold scale_ms retry_ms update_ms min_measured)
             (PHP_SCYLLADB_PROFILE_MIX_INT min_measured (PHP_SCYLLADB_PROFILE_MIX_INT update_ms (PHP_SCYLLADB_PROFILE_MIX_INT retry_ms
               (PHP_SCYLLADB_PROFILE_MIX_INT scale_ms (PHP_SCYLLADB_PROFILE_MIX_INT t (php_scylladb_profile_this (bs "latency_aware_settings") p))))))
       | _, _, _, _ => PUndefined
       end.

Definition P_Speculative (delay : double) (max_executions : Z) (p : execution_profile) : profile_outcome :=
  if double_le delay double_zero then PInvalid (bs "delay") (bs "a positive number")
  else if max_executions <=? 0 then PInvalid (bs "maxSpeculativeExecutions") (bs "a positive integer")
  else match to_int64 (scaled_ms delay) with
       | None => PUndefined
       | Some ms => driver (set_constant_speculative_execution_policy ms (wrapS 32 max_executions))
           (PHP_SCYLLADB_PROFILE_MIX_INT max_executions (PHP_SCYLLADB_PROFILE_MIX_INT ms (php_scylladb_profile_this (bs "speculative") p)))
       end.

Definition P_RoundRobin (p : execution_profile) : profile_outcome :=
  driver set_load_balance_round_robin (php_scylladb_profile_this (bs "lb_round_robin") p).

Definition P_NoSpeculative (p : execution_profile) : profile_outcome :=
  driver set_no_speculative_execution_policy (php_scylladb_profile_this (bs "no_speculative") p).

Definition filter_tag (l : filter_list) : bytes :=
  match l with WhiteListHosts => bs "whitelist_hosts" | BlackListHosts => bs "blacklist_hosts" | WhiteListDCs => bs "whitelist_dcs" | BlackListDCs => bs "blacklist_dcs" end.

Definition php_scylladb_profile_filter (l : filter_list) (args : list (option bytes)) (p : execution_profile) : profile_outcome :=
  match php_scylladb_build_hosts_str args with
  | None => PInvalid (bs "hosts") (bs "a string ip address, hostname or datacenter name")
  | Some joined => driver (set_filter l joined) (mix_str joined (php_scylladb_profile_this (filter_tag l) p))
  end.

Definition profile_apply (c : profile_call) (p : execution_profile) : profile_outcome :=
  match c with
  | P_withConsistency consistency => P_Consistency consistency p
  | P_withSerialConsistency consistency => P_SerialConsistency consistency p
  | P_withRequestTimeout timeout => P_RequestTimeout timeout p
  | P_withRetryPolicy policy => P_RetryPolicy policy p
  | P_withRoundRobinLoadBalancingPolicy => P_RoundRobin p
  | P_withDatacenterAware dc hosts allow => P_DatacenterAware dc hosts allow p
  | P_withTokenAwareRouting enabled => P_Bool (bs "token_aware") set_token_aware_routing enabled p
  | P_withTokenAwareRoutingShuffleReplicas enabled => P_Bool (bs "shuffle_replicas") set_token_aware_routing_shuffle_replicas enabled p
  | P_withLatencyAwareRouting enabled => P_Bool (bs "latency_aware") set_latency_aware_routing enabled p
  | P_withLatencyAwareRoutingSettings t s r u m => P_LatencySettings t s r u m p
  | P_withConstantSpeculativeExecutionPolicy delay max => P_Speculative delay max p
  | P_withNoSpeculativeExecutionPolicy => P_NoSpeculative p
  | P_filter l args => php_scylladb_profile_filter l args p
  end.

(** A program that goes on after an exception. *)
Fixpoint profile_run (cs : list profile_call) (p : execution_profile) : option execution_profile :=
  match cs with
  | [] => Some p
  | c :: cs' =>
      match profile_apply c p with
      | PReturns p' | PThrows _ p' => profile_run cs' p'
      | PInvalid _ _ => profile_run cs' p
      | PUndefined => None
      end
  end.

(** ** What the fingerprint determines *)

(** The driver call a setter makes, when its arguments are accepted. *)
Definition recorded (c : profile_call) : option exec_call :=
  match c with
  | P_withConsistency v => if php_scylladb_validate_consistency v then Some (set_consistency (wrapU 32 v)) else None
  | P_withSerialConsistency v => if php_scylladb_validate_serial_consistency v then Some (set_serial_consistency (wrapU 32 v)) else None
  | P_withRequestTimeout t => if double_lt t double_zero then None else option_map set_request_timeout (to_uint64 (scaled_ms t))
  | P_withRetryPolicy policy => Some (set_retry_policy policy)
  | P_withRoundRobinLoadBalancingPolicy => Some set_load_balance_round_robin
  | P_withDatacenterAware dc hosts allow => if hosts <? 0 then None else Some (set_load_balance_dc_aware_n dc (wrapU 32 hosts) allow)
  | P_withTokenAwareRouting e => Some (set_token_aware_routing e)
  | P_withTokenAwareRoutingShuffleReplicas e => Some (set_token_aware_routing_shuffle_replicas e)
  | P_withLatencyAwareRouting e => Some (set_latency_aware_routing e)
  | P_withLatencyAwareRoutingSettings t s r u m =>
      if double_lt t double_zero || double_lt s double_zero || double_lt r double_zero || double_lt u double_zero || (m <? 0) then None
      else match to_uint64 (scaled_ms s), to_uint64 (scaled_ms r), to_uint64 (scaled_ms u) with
           | Some s, Some r, Some u => Some (set_latency_aware_routing_settings t s r u m)
           | _, _, _ => None
           end
  | P_withConstantSpeculativeExecutionPolicy d max =>
      if double_le d double_zero || (max <=? 0) then None
      else option_map (fun ms => set_constant_speculative_execution_policy ms (wrapS 32 max)) (to_int64 (scaled_ms d))
  | P_withNoSpeculativeExecutionPolicy => Some set_no_speculative_execution_policy
  | P_filter l args => option_map (set_filter l) (php_scylladb_build_hosts_str args)
  end.

Definition exec_tag (e : exec_call) : bytes :=
  match e with
  | set_consistency _ => bs "consistency"
  | set_serial_consistency _ => bs "serial_consistency"
  | set_request_timeout _ => bs "request_timeout"
  | set_retry_policy _ => bs "retry_policy"
  | set_load_balance_round_robin => bs "lb_round_robin"
  | set_load_balance_dc_aware_n _ _ _ => bs "lb_dc_aware"
  | set_token_aware_routing _ => bs "token_aware"
  | set_token_aware_routing_shuffle_replicas _ => bs "shuffle_replicas"
  | set_latency_aware_routing _ => bs "latency_aware"
  | set_latency_aware_routing_settings _ _ _ _ _ => bs "latency_aware_settings"
  | set_constant_speculative_execution_policy _ _ => bs "speculative"
  | set_no_speculative_execution_policy => bs "no_speculative"
  | set_filter l _ => filter_tag l
  end.

(** An argument through [int], in memory. *)
Definition int_arg (v : Z) : bytes := memory64 (wrapS 32 v).

Definition exec_args (e : exec_call) : bytes :=
  match e with
  | set_consistency v | set_serial_consistency v | set_request_timeout v | set_retry_policy v => int_arg v
  | set_load_balance_round_robin | set_no_speculative_execution_policy => []
  | set_load_balance_dc_aware_n dc used allow => zstr_bytes (Some dc) ++ int_arg used ++ int_arg (cass_bool allow)
  | set_token_aware_routing b | set_token_aware_routing_shuffle_replicas b | set_latency_aware_routing b => int_arg (cass_bool b)
  | set_latency_aware_routing_settings t s r u m =>
      int_arg (default 0 (to_int (double_trunc (double_mul t double_1000)))) ++ int_arg s ++ int_arg r ++ int_arg u ++ int_arg m
  | set_constant_speculative_execution_policy d max => int_arg d ++ int_arg max
  | set_filter _ hosts => zstr_bytes (Some hosts)
  end.

Definition exec_bytes (e : exec_call) : bytes := exec_tag e ++ 0 :: exec_args e.

Lemma tag_no_nul e : no_nul (exec_tag e).
Proof. unfold no_nul. destruct e as [| | | | | | | | | | | |[| | |]]; cbn; by apply (bool_decide_eq_true_1 (~ _)); vm_compute. Qed.

Lemma c_string_no_nul s : no_nul s -> c_string s = s.
Proof.
  intros H. unfold c_string. rewrite strlen_no_nul; [|apply List.Forall_forall; intros x Hx ->; apply H; by apply list_elem_of_In].
  unfold zlen. rewrite Nat2Z.id. by apply firstn_all.
Qed.

Lemma wrapS_wrapU v : wrapS 32 (wrapU 32 v) = wrapS 32 v.
Proof. unfold wrapS, wrapU. by rewrite Zplus_mod_idemp_l. Qed.

Lemma driver_spec e q p' : driver e q = PReturns p' \/ (exists rc, driver e q = PThrows rc p') ->
  config_hash p' = config_hash q /\ profile p' = (cass_execution_profile_set e (profile q)).2.
Proof.
  unfold driver. destruct (cass_execution_profile_set e (profile q)) as [rc x]. intros [H|[rc' H]]; destruct rc; simplify_eq; done.
Qed.

Lemma driver_cases e q : (exists p', driver e q = PReturns p') \/ (exists rc p', driver e q = PThrows rc p').
Proof. unfold driver. destruct (cass_execution_profile_set e (profile q)) as [rc x]. destruct rc; eauto. Qed.

Lemma this_hash tag p : no_nul tag -> config_hash (php_scylladb_profile_this tag p) = php_scylladb_cache_key_mix_bytes (config_hash p) (tag ++ [0]).
Proof. intros H. unfold php_scylladb_profile_this, mix. cbn [config_hash]. rewrite mix_cstr_bytes. unfold cstr_bytes. cbn [default]. by rewrite c_string_no_nul. Qed.

Lemma hold_hash v p : config_hash (hold v p) = config_hash p.
Proof. done. Qed.

Lemma str_hash s p : config_hash (mix_str s p) = php_scylladb_cache_key_mix_bytes (config_hash p) (zstr_bytes (Some s)).
Proof. apply mix_zstr_bytes. Qed.

Lemma int_hash v p : config_hash (PHP_SCYLLADB_PROFILE_MIX_INT v p) = php_scylladb_cache_key_mix_bytes (config_hash p) (int_arg v).
Proof. done. Qed.

Lemma int_arg_wrapU v : int_arg (wrapU 32 v) = int_arg v.
Proof. unfold int_arg. by rewrite wrapS_wrapU. Qed.

Lemma int_arg_wrapS v : int_arg (wrapS 32 v) = int_arg v.
Proof. unfold int_arg. by rewrite (wrapS_id 32 (wrapS 32 v)) by (try apply wrapS_range; lia). Qed.

Lemma exec_bytes_split e : exec_bytes e = (exec_tag e ++ [0]) ++ exec_args e.
Proof. unfold exec_bytes. by rewrite <- app_assoc. Qed.

Opaque int_arg bs zstr_bytes.

(** The fingerprint of a profile that went through the tag of [e] and then through its arguments. *)
Ltac profile_hash e :=
  right; eexists; split; [reflexivity|]; split; [|reflexivity];
  rewrite exec_bytes_split, mix_bytes_app; cbn [exec_args exec_tag];
  rewrite ?int_hash, ?str_hash, ?int_hash, ?hold_hash, this_hash by (change (no_nul (exec_tag e)); apply tag_no_nul);
  rewrite ?int_arg_wrapU, ?int_arg_wrapS, ?mix_bytes_app; reflexivity.

(** A call the profile accepts folds the call's bytes into the fingerprint and makes the driver call;
    one it refuses changes nothing. *)
Lemma profile_apply_spec c p :
  match recorded c with
  | Some e => profile_apply c p = PUndefined \/
      exists q, profile_apply c p = driver e q /\ config_hash q = php_scylladb_cache_key_mix_bytes (config_hash p) (exec_bytes e) /\ profile q = profile p
  | None => (exists n x, profile_apply c p = PInvalid n x) \/ profile_apply c p = PUndefined
  end.
Proof.
  destruct c as [v|v|t|policy| |dc hosts allow|e|e|e|t s r u m|d max| |l args]; cbn [recorded profile_apply].
  - unfold P_Consistency. destruct (php_scylladb_validate_consistency v); cbn [negb]; [|by left; eexists _, _].
    profile_hash (set_consistency (wrapU 32 v)).
  - unfold P_SerialConsistency. destruct (php_scylladb_validate_serial_consistency v); cbn [negb]; [|by left; eexists _, _].
    profile_hash (set_serial_consistency (wrapU 32 v)).
  - unfold P_RequestTimeout. destruct (double_lt t double_zero); [by left; eexists _, _|].
    destruct (to_uint64 (scaled_ms t)) as [ms|]; cbn [option_map]; [|by right]. profile_hash (set_request_timeout ms).
  - profile_hash (set_retry_policy policy).
  - profile_hash set_load_balance_round_robin.
  - unfold P_DatacenterAware. destruct (hosts <? 0); [by left; eexists _, _|]. profile_hash (set_load_balance_dc_aware_n dc (wrapU 32 hosts) allow).
  - profile_hash (set_token_aware_routing e).
  - profile_hash (set_token_aware_routing_shuffle_replicas e).
  - profile_hash (set_latency_aware_routing e).
  - unfold P_LatencySettings. destruct (_ || _); [by left; eexists _, _|].
    destruct (to_uint64 (scaled_ms s)) as [s'|]; [|by right]. destruct (to_uint64 (scaled_ms r)) as [r'|]; [|by right].
    destruct (to_uint64 (scaled_ms u)) as [u'|]; [|by right].
    destruct (to_int (double_trunc (double_mul t double_1000))) as [t'|] eqn:Et; [|by left].
    assert (t' = default 0 (to_int (double_trunc (double_mul t double_1000)))) as -> by (by rewrite Et).
    profile_hash (set_latency_aware_routing_settings t s' r' u' m).
  - unfold P_Speculative. destruct (double_le d double_zero); cbn [orb]; [by left; eexists _, _|]. destruct (max <=? 0); [by left; eexists _, _|].
    destruct (to_int64 (scaled_ms d)) as [ms|]; cbn [option_map]; [|by right]. profile_hash (set_constant_speculative_execution_policy ms (wrapS 32 max)).
  - profile_hash set_no_speculative_execution_policy.
  - unfold php_scylladb_profile_filter. destruct (php_scylladb_build_hosts_str args) as [hosts|]; cbn [option_map]; [|by left; eexists _, _].
    profile_hash (set_filter l hosts).
Qed.

Transparent int_arg bs zstr_bytes.

(** The arguments that survive the fingerprint: strings without NUL, numbers that fit in 32 bits.
    The latency-aware settings, whose threshold is kept to a thousandth, do not. *)
Definition exact_call (e : exec_call) : Prop :=
  match e with
  | set_consistency v | set_serial_consistency v | set_request_timeout v | set_retry_policy v => in_u 32 v
  | set_load_balance_dc_aware_n dc used _ => no_nul dc /\ in_u 32 used
  | set_constant_speculative_execution_policy d max => in_u 32 d /\ in_s 32 max
  | set_filter _ hosts => no_nul hosts
  | set_latency_aware_routing_settings _ _ _ _ _ => False
  | _ => True
  end.

Lemma wrapS32_inj v v' : - 2 ^ 32 < v - v' < 2 ^ 32 -> wrapU 64 (wrapS 32 v) = wrapU 64 (wrapS 32 v') -> v = v'.
Proof.
  unfold wrapU, wrapS. change (32 - 1) with 31. change (2 ^ 32) with 4294967296. change (2 ^ 31) with 2147483648. change (2 ^ 64) with 18446744073709551616.
  intros Hd H. Z.to_euclidean_division_equations. lia.
Qed.

Lemma int_arg_inj v v' r r' : - 2 ^ 32 < v - v' < 2 ^ 32 -> int_arg v ++ r = int_arg v' ++ r' -> v = v' /\ r = r'.
Proof. intros Hd H. apply int_inj in H as [H ->]. split; [by apply wrapS32_inj|done]. Qed.

Lemma bool_arg_inj b b' r r' : int_arg (cass_bool b) ++ r = int_arg (cass_bool b') ++ r' -> b = b' /\ r = r'.
Proof. intros H. apply int_arg_inj in H as [H ->]; [|destruct b, b'; cbn; lia]. by destruct b, b'. Qed.

Lemma str_arg_inj s s' r r' : no_nul s -> no_nul s' -> zstr_bytes (Some s) ++ r = zstr_bytes (Some s') ++ r' -> s = s' /\ r = r'.
Proof. exact (zstr_inj (Some s) (Some s') r r'). Qed.

Opaque int_arg bs zstr_bytes.

Lemma exec_args_inj e e' r r' : exact_call e -> exact_call e' -> exec_tag e = exec_tag e' -> exec_args e ++ r = exec_args e' ++ r' -> e = e' /\ r = r'.
Proof.
  intros He He' Htag Hargs.
  destruct e as [v|v|v|v| |dc used allow|b|b|b|t s rp u m|d max| |[| | |] hosts], e' as [v'|v'|v'|v'| |dc' used' allow'|b'|b'|b'|t' s' rp' u' m'|d' max'| |[| | |] hosts'];
    try (exfalso; clear - Htag; vm_compute in Htag; discriminate Htag); cbn [exec_args exact_call] in *; unfold in_u, in_s in *; try done.
  1-4: apply int_arg_inj in Hargs as [-> ->]; [done|lia].
  { rewrite <- !app_assoc in Hargs. apply str_arg_inj in Hargs as [-> Hargs]; [|tauto..]. apply int_arg_inj in Hargs as [-> Hargs]; [|lia].
    by apply bool_arg_inj in Hargs as [-> ->]. }
  1-3: by apply bool_arg_inj in Hargs as [-> ->].
  { rewrite <- !app_assoc in Hargs. apply int_arg_inj in Hargs as [-> Hargs]; [|lia]. by apply int_arg_inj in Hargs as [-> ->]; [|lia]. }
  1-4: by apply str_arg_inj in Hargs as [-> ->].
Qed.

Transparent int_arg bs zstr_bytes.

Lemma exec_bytes_inj e e' r r' : exact_call e -> exact_call e' -> exec_bytes e ++ r = exec_bytes e' ++ r' -> e = e' /\ r = r'.
Proof.
  intros He He' H. unfold exec_bytes in H. rewrite <- !app_assoc in H. cbn [app] in H.
  apply separator_inj in H as [Htag Hargs]; [|apply tag_no_nul..]. by apply exec_args_inj.
Qed.

Lemma history_inj es : forall es', Forall exact_call es -> Forall exact_call es' -> concat (map exec_bytes es) = concat (map exec_bytes es') -> es = es'.
Proof.
  assert (forall e r, exec_bytes e ++ r <> []) as Hne.
  { intros e r H. unfold exec_bytes in H. rewrite <- app_assoc in H. by destruct (exec_tag e). }
  induction es as [|e es IH]; intros [|e' es'] He He' H; cbn in H; [done| | |].
  - by destruct (Hne e' (concat (map exec_bytes es'))).
  - by destruct (Hne e (concat (map exec_bytes es))).
  - inversion He; inversion He'; subst. apply exec_bytes_inj in H as [-> H]; [|done..]. by rewrite (IH es').
Qed.

Definition history (cs : list profile_call) : list exec_call := omap recorded cs.

Lemma profile_run_spec cs : forall p p', profile_run cs p = Some p' ->
  config_hash p' = php_scylladb_cache_key_mix_bytes (config_hash p) (concat (map exec_bytes (history cs))) /\
  profile p' = fold_left (fun q e => (cass_execution_profile_set e q).2) (history cs) (profile p).
Proof.
  induction cs as [|c cs IH]; intros p p' H; cbn in H; [by simplify_eq|].
  pose proof (profile_apply_spec c p) as Hc. unfold history. cbn [omap list_omap]. destruct (recorded c) as [e|] eqn:Er.
  - destruct Hc as [Hu|(q & Ea & Hh & Hp)]; [by rewrite Hu in H|]. cbn [map concat fold_left]. rewrite mix_bytes_app, <- Hh, <- Hp.
    rewrite Ea in H. destruct (driver_cases e q) as [[r Er']|[rc [r Er']]]; rewrite Er' in H; apply IH in H as [-> ->];
      (destruct (driver_spec e q r) as [-> ->]; [by eauto|done]).
  - destruct Hc as [(n & x & Hc)|Hc]; rewrite Hc in H; [|done]. by apply IH.
Qed.

(** No two of these histories collide under FNV-1a, which the cache relies on. *)
Definition no_collision (s1 s2 : bytes) : Prop :=
  php_scylladb_cache_key_mix_bytes php_scylladb_cache_key_init s1 = php_scylladb_cache_key_mix_bytes php_scylladb_cache_key_init s2 -> s1 = s2.

(** The fingerprint of an execution profile stands for its configuration.  Two profiles on which
    any setters were called (including calls that throw) and whose fingerprints are equal have the
    same driver configuration, provided FNV-1a does not collide on the two histories and the
    arguments survive the fingerprint's conversions (strings without NUL, times and counts below
    2^32); so that mixing [config_hash] into the key of a persistent cluster separates clusters that
    differ in a profile.  The provisos are needed: a request timeout of 2^32 ms more has the same
    fingerprint. *)
Theorem profile_fingerprint (cs1 cs2 : list profile_call) (p1 p2 : execution_profile) :
  profile_run cs1 php_scylladb_execution_profile_new = Some p1 ->
  profile_run cs2 php_scylladb_execution_profile_new = Some p2 ->
  Forall exact_call (history cs1) -> Forall exact_call (history cs2) ->
  no_collision (concat (map exec_bytes (history cs1))) (concat (map exec_bytes (history cs2))) ->
  config_hash p1 = config_hash p2 ->
  profile p1 = profile p2.
Proof.
  intros [Hh1 ->]%profile_run_spec [Hh2 ->]%profile_run_spec He1 He2 Hnc E. rewrite Hh1, Hh2 in E. apply Hnc in E. by rewrite (history_inj _ _ He1 He2 E).
Qed.

Definition profile_calls_1 : list profile_call := [P_withConsistency 6; P_withDatacenterAware (bs "") 1 true; P_filter WhiteListHosts [Some (bs "10.0.0.1"); Some (bs " 10.0.0.2")]].
Definition profile_calls_2 : list profile_call := [P_withConsistency 99; P_withConsistency 6; P_withDatacenterAware (bs "") 4294967297 true; P_filter WhiteListHosts [Some (bs "10.0.0.1, 10.0.0.2")]].

Lemma profile_fingerprint_witness :
  exists p1 p2, profile_run profile_calls_1 php_scylladb_execution_profile_new = Some p1 /\
    profile_run profile_calls_2 php_scylladb_execution_profile_new = Some p2 /\
    profile p1 = profile p2 /\ ep_filters (profile p1) WhiteListHosts = [bs "10.0.0.1"; bs "10.0.0.2"].
Proof.
  eexists _, _. split; [reflexivity|]. split; [reflexivity|]. split; [|by vm_compute].
  refine (profile_fingerprint profile_calls_1 profile_calls_2 _ _ eq_refl eq_refl _ _ _ _).
  1, 2: repeat constructor; try (by apply (bool_decide_eq_true_1 (~ _)); vm_compute); unfold in_u; by vm_compute.
  - intros _. by vm_compute.
  - by vm_compute.
Defined.

(** The request timeouts of 79 ms and of 2^32 + 79 ms have one fingerprint. *)
Lemma timeout_alias :
  match profile_run [P_withRequestTimeout (SFdiv 53 1024 (binary_normalize 53 1024 79 0 false) double_1000)] php_scylladb_execution_profile_new,
        profile_run [P_withRequestTimeout (binary_normalize 53 1024 34359739 (-3) false)] php_scylladb_execution_profile_new with
  | Some p1, Some p2 =>
      config_hash p1 = config_hash p2 /\ ep_request_timeout (profile p1) = Some 79 /\ ep_request_timeout (profile p2) = Some (2 ^ 32 + 79)
  | _, _ => False
  end.
Proof. by vm_compute. Qed.
