(* ===== verification/ClusterBuild.v ===== *)
(** [Builder::build] ([Cluster/Builder.c]): the calls it makes on the driver's [CassCluster], the
    error of each ([cluster_config.cpp] of the bundled driver), and the configuration they leave.

    The calls run in a small state monad over the [CassCluster]: [ASSERT_SUCCESS] stops at the first
    call that does not answer [CASS_OK], [unchecked] drops the answer.  Whether the driver can resolve
    a local address is a parameter. *)
From S2P Require Import Prelude DriverErrors CacheKey ClusterBuilder ExecutionProfile.

(** ** The driver's cluster *)

(** The members of [Config] and of its default profile that hold a number or a flag. *)
Inductive cfg_field :=
| port_ | protocol_version_ | use_beta_protocol_version_ | thread_count_io_ | queue_size_io_ | core_connections_per_host_
| connect_timeout_ms_ | resolve_timeout_ms_ | max_schema_wait_time_ms_ | max_tracing_wait_time_ms_ | retry_tracing_wait_time_ms_
| tracing_consistency_ | coalesce_delay_us_ | new_request_ratio_ | tcp_nodelay_enable_ | tcp_keepalive_enable_
| tcp_keepalive_delay_secs_ | connection_idle_timeout_secs_ | connection_heartbeat_interval_secs_ | use_schema_
| use_hostname_resolution_ | use_randomized_contact_points_ | prepare_on_all_hosts_ | prepare_on_up_or_add_host_ | no_compact_
| monitor_reporting_interval_secs_ | request_timeout_ms_ | token_aware_routing_ | token_aware_routing_shuffle_replicas_ | latency_aware_routing_.

#[export] Instance cfg_field_eq_dec : EqDecision cfg_field.
Proof. solve_decision. Defined.

Inductive reconnection := ConstantReconnection (delay_ms : Z) | ExponentialReconnection (base_ms max_ms : Z).

Record CassCluster : Type := {
  cfg : cfg_field -> Z;
  contacts : list bytes;
  filters : filter_list -> list bytes;
  credentials : option (bytes * bytes);
  lb : lb_policy;
  reconnect : reconnection;
  speculative : speculative_policy;
  local_addr : option bytes;
  app_name : bytes;
  app_version : bytes;
  ssl_context : option nat;
  retry : option nat;
  timestamps : option nat;
  profiles : list (bytes * exec_profile)
}.

(** [Config::Config] *)
Definition cass_cluster_new : CassCluster :=
  {| cfg f :=
       match f with
       | port_ => 9042 | protocol_version_ => 4 | use_beta_protocol_version_ => 0 | thread_count_io_ => 1 | queue_size_io_ => 8192
       | core_connections_per_host_ => 1 | connect_timeout_ms_ => 5000 | resolve_timeout_ms_ => 5000 | max_schema_wait_time_ms_ => 10000
       | max_tracing_wait_time_ms_ => 15 | retry_tracing_wait_time_ms_ => 3 | tracing_consistency_ => 1 | coalesce_delay_us_ => 200
       | new_request_ratio_ => 50 | tcp_nodelay_enable_ => 1 | tcp_keepalive_enable_ => 1 | tcp_keepalive_delay_secs_ => 0
       | connection_idle_timeout_secs_ => 60 | connection_heartbeat_interval_secs_ => 30 | use_schema_ => 1 | use_hostname_resolution_ => 0
       | use_randomized_contact_points_ => 1 | prepare_on_all_hosts_ => 1 | prepare_on_up_or_add_host_ => 1 | no_compact_ => 0
       | monitor_reporting_interval_secs_ => 300 | request_timeout_ms_ => 12000 | token_aware_routing_ => 1
       | token_aware_routing_shuffle_replicas_ => 1 | latency_aware_routing_ => 0
       end;
     contacts := []; filters := fun _ => []; credentials := None; lb := DCAwarePolicy [] 0 true;
     reconnect := ExponentialReconnection 2000 600000; speculative := NoSpeculativeExecution; local_addr := Some (bs "0.0.0.0");
     app_name := []; app_version := []; ssl_context := None; retry := None; timestamps := None; profiles := [] |}.

Definition put (f : cfg_field) (v : Z) (c : CassCluster) : CassCluster :=
  {| cfg := fun f' => if decide (f' = f) then v else cfg c f'; contacts := contacts c; filters := filters c; credentials := credentials c;
     lb := lb c; reconnect := reconnect c; speculative := speculative c; local_addr := local_addr c; app_name := app_name c;
     app_version := app_version c; ssl_context := ssl_context c; retry := retry c; timestamps := timestamps c; profiles := profiles c |}.

(** The members that are not numbers, by the update of one of them. *)
Inductive member :=
| Contacts (v : list bytes) | Filter (l : filter_list) (v : list bytes) | Credentials (user pass : bytes) | Lb (v : lb_policy)
| Reconnect (v : reconnection) | Speculative (v : speculative_policy) | LocalAddr (v : option bytes) | AppName (v : bytes) | AppVersion (v : bytes)
| Ssl (v : nat) | Retry (v : nat) | Timestamps (v : nat) | Profile (name : bytes) (v : exec_profile).

(** [profiles_] is a map from names to copies. *)
Fixpoint set_profile (name : bytes) (v : exec_profile) (t : list (bytes * exec_profile)) : list (bytes * exec_profile) :=
  match t with
  | [] => [(name, v)]
  | (n, w) :: t' => if bool_decide (n = name) then (n, v) :: t' else (n, w) :: set_profile name v t'
  end.

Definition put_member (m : member) (c : CassCluster) : CassCluster :=
  {| cfg := cfg c;
     contacts := match m with Contacts v => v | _ => contacts c end;
     filters := match m with Filter l v => fun l' => if decide (l' = l) then v else filters c l' | _ => filters c end;
     credentials := match m with Credentials u p => Some (u, p) | _ => credentials c end;
     lb := match m with Lb v => v | _ => lb c end;
     reconnect := match m with Reconnect v => v | _ => reconnect c end;
     speculative := match m with Speculative v => v | _ => speculative c end;
     local_addr := match m with LocalAddr v => v | _ => local_addr c end;
     app_name := match m with AppName v => v | _ => app_name c end;
     app_version := match m with AppVersion v => v | _ => app_version c end;
     ssl_context := match m with Ssl v => Some v | _ => ssl_context c end;
     retry := match m with Retry v => Some v | _ => retry c end;
     timestamps := match m with Timestamps v => Some v | _ => timestamps c end;
     profiles := match m with Profile n v => set_profile n v (profiles c) | _ => profiles c end |}.

(** ** Driver calls *)

Definition driver_call : Type := CassCluster -> CassError * CassCluster.

Definition ok (u : CassCluster -> CassCluster) : driver_call := fun c => (CASS_OK, u c).
Definition guarded (g : bool) (u : CassCluster -> CassCluster) : driver_call := fun c => if g then (CASS_OK, u c) else (CASS_ERROR_LIB_BAD_PARAMS, c).

Definition cass_cluster_set_port (v : Z) : driver_call := guarded (0 <? v) (put port_ v).

(** [ProtocolVersion]: 3 and 4, or the DSE versions up to 0x42. *)
Definition highest_supported (is_dse : bool) : Z := if is_dse then 0x42 else 4.
Definition protocol_version_supported (v : Z) : bool := (3 <=? v) && (v <=? highest_supported (negb (Z.land v 0x40 =? 0))).

Definition cass_cluster_set_protocol_version (v : Z) : driver_call := fun c =>
  if negb (cfg c use_beta_protocol_version_ =? 0) then (CASS_ERROR_LIB_BAD_PARAMS, c)
  else guarded (protocol_version_supported v) (put protocol_version_ v) c.

Definition cass_cluster_set_use_beta_protocol_version (enable : Z) : driver_call :=
  ok (fun c => put protocol_version_ (if negb (enable =? 0) then 5 else highest_supported false) (put use_beta_protocol_version_ enable c)).

Definition cass_cluster_set_num_threads_io (v : Z) : driver_call := guarded (negb (v =? 0)) (put thread_count_io_ v).
Definition cass_cluster_set_queue_size_io (v : Z) : driver_call := guarded (negb (v =? 0)) (put queue_size_io_ v).
Definition cass_cluster_set_core_connections_per_host (v : Z) : driver_call := guarded (negb (v =? 0)) (put core_connections_per_host_ v).
Definition cass_cluster_set_max_connections_per_host (v : Z) : driver_call := ok id.
Definition cass_cluster_set_coalesce_delay (v : Z) : driver_call := guarded (0 <=? v) (put coalesce_delay_us_ v).
Definition cass_cluster_set_new_request_ratio (v : Z) : driver_call := guarded ((0 <? v) && (v <=? 100)) (put new_request_ratio_ v).

Definition cass_cluster_set_contact_points_n (s : bytes) : driver_call :=
  ok (fun c => put_member (Contacts (match s with [] => [] | _ => explode s (contacts c) end)) c).

Definition cass_cluster_set_exponential_reconnect (base max : Z) : driver_call :=
  guarded ((1 <? base) && (1 <? max) && (base <=? max)) (put_member (Reconnect (ExponentialReconnection base max))).
Definition cass_cluster_set_constant_reconnect (delay : Z) : driver_call := ok (put_member (Reconnect (ConstantReconnection delay))).

Definition cass_cluster_set_constant_speculative_execution_policy (delay max : Z) : driver_call :=
  guarded ((0 <=? delay) && (0 <=? max)) (put_member (Speculative (ConstantSpeculativeExecution delay max))).

Definition cass_cluster_set_tcp_keepalive (enabled delay : Z) : driver_call :=
  ok (fun c => put tcp_keepalive_delay_secs_ delay (put tcp_keepalive_enable_ enabled c)).

(** The names are C strings. *)
Definition cass_cluster_set_load_balance_dc_aware (dc : bytes) (used : Z) (allow : Z) : driver_call :=
  ok (put_member (Lb (DCAwarePolicy (c_string dc) used (allow =? 0)))).
Definition cass_cluster_set_load_balance_rack_aware (dc rack : bytes) : driver_call :=
  guarded (negb (strlen dc =? 0) && negb (strlen rack =? 0)) (put_member (Lb (RackAwarePolicy (c_string dc) (c_string rack)))).

Definition cass_cluster_set_filtering_n (l : filter_list) (s : bytes) : driver_call :=
  ok (fun c => put_member (Filter l (set_filtering s (filters c l))) c).

Definition cass_cluster_set_execution_profile_n (name : bytes) (p : exec_profile) : driver_call :=
  guarded (bool_decide (name <> [])) (put_member (Profile name p)).

(** An empty name is the unset address. *)
Definition cass_cluster_set_local_address_n (is_valid_and_resolved : bytes -> bool) (name : bytes) : driver_call := fun c =>
  match name with
  | [] => (CASS_OK, put_member (LocalAddr None) c)
  | _ => if is_valid_and_resolved name then (CASS_OK, put_member (LocalAddr (Some name)) c) else (CASS_ERROR_LIB_HOST_RESOLUTION, c)
  end.

(** ** The calls of [build] *)

(** The state and the code an exception was thrown for, when one was. *)
Definition action : Type := CassCluster -> option CassError * CassCluster.

Definition ASSERT_SUCCESS (d : driver_call) : action := fun c =>
  let '(rc, c') := d c in match rc with CASS_OK => (None, c') | _ => (Some rc, c') end.
Definition unchecked (d : driver_call) : action := fun c => (None, (d c).2).
Definition skip : action := fun c => (None, c).
Definition seq (a1 a2 : action) : action := fun c => match a1 c with (None, c') => a2 c' | (Some e, c') => (Some e, c') end.

Declare Scope action_scope.
Delimit Scope action_scope with action.
Bind Scope action_scope with action.
Notation "a1 ;; a2" := (seq a1 a2) (at level 100, a2 at level 200, right associativity) : action_scope.

Definition when_some {A} (o : option A) (f : A -> action) : action := match o with Some x => f x | None => skip end.

(** [SAFE_ZEND_STRING] *)
Definition safe (s : option bytes) : bytes := default [] s.

Section calls.
Context (is_valid_and_resolved : bytes -> bool) (profile_object : nat -> execution_profile) (b : builder).

Definition build_load_balancing : action :=
  if ints b load_balancing_policy =? LOAD_BALANCING_ROUND_ROBIN then unchecked (ok (put_member (Lb RoundRobinPolicy)))
  else if ints b load_balancing_policy =? LOAD_BALANCING_DC_AWARE_ROUND_ROBIN then
    ASSERT_SUCCESS (cass_cluster_set_load_balance_dc_aware (safe (strs b local_dc)) (ints b used_hosts_per_remote_dc) (ints b allow_remote_dcs_for_local_cl))
  else if ints b load_balancing_policy =? LOAD_BALANCING_RACK_AWARE then
    unchecked (cass_cluster_set_load_balance_rack_aware (safe (strs b local_dc)) (safe (strs b local_rack)))
  else skip.

Definition build_filters : action :=
  (when_some (strs b blacklist_hosts) (fun s => unchecked (cass_cluster_set_filtering_n BlackListHosts s));;
   when_some (strs b whitelist_hosts) (fun s => unchecked (cass_cluster_set_filtering_n WhiteListHosts s));;
   when_some (strs b blacklist_dcs) (fun s => unchecked (cass_cluster_set_filtering_n BlackListDCs s));;
   when_some (strs b whitelist_dcs) (fun s => unchecked (cass_cluster_set_filtering_n WhiteListDCs s)))%action.

(** [password] is not null when [username] is not. *)
Definition build_credentials : action :=
  when_some (strs b username) (fun user => unchecked (ok (put_member (Credentials user (safe (strs b password)))))).

Definition build_reconnect : action :=
  if ints b reconnect_policy =? RECONNECT_POLICY_EXPONENTIAL
  then ASSERT_SUCCESS (cass_cluster_set_exponential_reconnect (ints b reconnect_interval) (ints b reconnect_max_interval))
  else unchecked (cass_cluster_set_constant_reconnect (ints b reconnect_interval)).

Definition build_speculative : action :=
  if 0 <? ints b speculative_execution_delay
  then ASSERT_SUCCESS (cass_cluster_set_constant_speculative_execution_policy (ints b speculative_execution_delay) (ints b speculative_execution_max))
  else skip.

Fixpoint build_profiles (t : list (bytes * nat)) : action :=
  match t with
  | [] => skip
  | (name, p) :: t' => (ASSERT_SUCCESS (cass_cluster_set_execution_profile_n name (profile (profile_object p)));; build_profiles t')%action
  end.

(** A call that stores a number and cannot fail. *)
Definition store_number (f : cfg_field) (v : Z) : action := unchecked (ok (put f v)).

Definition build_calls : action :=
  (build_load_balancing;;
   build_filters;;
   store_number token_aware_routing_ (ints b use_token_aware_routing);;
   build_credentials;;
   store_number connect_timeout_ms_ (ints b connect_timeout);;
   store_number request_timeout_ms_ (ints b request_timeout);;
   when_some (ssl_options b) (fun ssl => unchecked (ok (put_member (Ssl ssl))));;
   ASSERT_SUCCESS (cass_cluster_set_contact_points_n (safe (strs b contact_points)));;
   ASSERT_SUCCESS (cass_cluster_set_port (ints b port));;
   ASSERT_SUCCESS (cass_cluster_set_protocol_version (wrapS 32 (ints b protocol_version)));;
   ASSERT_SUCCESS (cass_cluster_set_num_threads_io (ints b io_threads));;
   ASSERT_SUCCESS (cass_cluster_set_core_connections_per_host (ints b core_connections_per_host));;
   ASSERT_SUCCESS (cass_cluster_set_max_connections_per_host (ints b max_connections_per_host));;
   build_reconnect;;
   build_speculative;;
   ASSERT_SUCCESS (cass_cluster_set_coalesce_delay (ints b coalesce_delay));;
   store_number connection_idle_timeout_secs_ (ints b connection_idle_timeout);;
   store_number max_schema_wait_time_ms_ (ints b max_schema_wait_time);;
   store_number resolve_timeout_ms_ (ints b resolve_timeout);;
   store_number token_aware_routing_shuffle_replicas_ (ints b shuffle_replicas);;
   unchecked (cass_cluster_set_use_beta_protocol_version (ints b beta_protocol));;
   store_number prepare_on_all_hosts_ (ints b prepare_on_all_hosts);;
   ASSERT_SUCCESS (cass_cluster_set_new_request_ratio (ints b new_request_ratio));;
   ASSERT_SUCCESS (cass_cluster_set_queue_size_io (ints b queue_size_io));;
   store_number monitor_reporting_interval_secs_ (ints b monitor_reporting_interval);;
   store_number prepare_on_up_or_add_host_ (ints b prepare_on_up_or_add_host);;
   store_number no_compact_ (ints b no_compact);;
   store_number tracing_consistency_ (ints b tracing_consistency);;
   store_number max_tracing_wait_time_ms_ (ints b tracing_max_wait_time);;
   store_number retry_tracing_wait_time_ms_ (ints b tracing_retry_wait_time);;
   when_some (strs b local_address) (fun s => ASSERT_SUCCESS (cass_cluster_set_local_address_n is_valid_and_resolved s));;
   build_profiles (execution_profiles b);;
   when_some (strs b application_name) (fun s => unchecked (ok (put_member (AppName s))));;
   when_some (strs b application_version) (fun s => unchecked (ok (put_member (AppVersion s))));;
   store_number latency_aware_routing_ (ints b enable_latency_aware_routing);;
   store_number tcp_nodelay_enable_ (ints b enable_tcp_nodelay);;
   unchecked (cass_cluster_set_tcp_keepalive (ints b enable_tcp_keepalive) (ints b tcp_keepalive_delay));;
   store_number use_schema_ (ints b enable_schema);;
   ASSERT_SUCCESS (ok (put use_hostname_resolution_ (ints b enable_hostname_resolution)));;
   ASSERT_SUCCESS (ok (put use_randomized_contact_points_ (ints b enable_randomized_contact_points)));;
   store_number connection_heartbeat_interval_secs_ (ints b connection_heartbeat_interval);;
   when_some (timestamp_gen b) (fun gen => unchecked (ok (put_member (Timestamps gen))));;
   when_some (retry_policy b) (fun policy => unchecked (ok (put_member (Retry policy)))))%action.
End calls.

(** ** Running the calls *)

Definition opt_member {A} (o : option A) (F : A -> CassCluster -> member) (c : CassCluster) : CassCluster :=
  match o with Some x => put_member (F x c) c | None => c end.

Lemma seq_silent a k c : (a c).1 = None -> seq a k c = k (a c).2.
Proof. unfold seq. destruct (a c) as [[e|] c']; [done|]. by intros _. Qed.

Lemma seq_store f v k c : seq (store_number f v) k c = k (put f v c).
Proof. done. Qed.

Lemma seq_unchecked u k c : seq (unchecked (ok u)) k c = k (u c).
Proof. done. Qed.

Lemma seq_ok u k c : seq (ASSERT_SUCCESS (ok u)) k c = k (u c).
Proof. done. Qed.

Lemma seq_guard g u k c : seq (ASSERT_SUCCESS (guarded g u)) k c = if g then k (u c) else (Some CASS_ERROR_LIB_BAD_PARAMS, c).
Proof. by destruct g. Qed.

Lemma seq_opt {A} (o : option A) (F : A -> CassCluster -> member) k c :
  seq (when_some o (fun x => unchecked (ok (fun c => put_member (F x c) c)))) k c = k (opt_member o F c).
Proof. by destruct o. Qed.

Lemma opt_frame {A B} (g : CassCluster -> B) (o : option A) F c : (forall x c, g (put_member (F x c) c) = g c) -> g (opt_member o F c) = g c.
Proof. intros H. destruct o; [apply H|done]. Qed.

Lemma opt_cfg {A} (o : option A) F c : cfg (opt_member o F c) = cfg c.
Proof. by destruct o. Qed.

(** The protocol version is set before the beta protocol is. *)
Lemma seq_version v k c : cfg c use_beta_protocol_version_ = 0 ->
  seq (ASSERT_SUCCESS (cass_cluster_set_protocol_version v)) k c =
  if protocol_version_supported v then k (put protocol_version_ v c) else (Some CASS_ERROR_LIB_BAD_PARAMS, c).
Proof. intros H. unfold seq, ASSERT_SUCCESS, cass_cluster_set_protocol_version, guarded. rewrite H. cbn. by destruct (protocol_version_supported v). Qed.

Section outcome.
Context (is_valid_and_resolved : bytes -> bool) (profile_object : nat -> execution_profile) (b : builder).

Definition build_policy (c : CassCluster) : CassCluster :=
  if ints b load_balancing_policy =? LOAD_BALANCING_ROUND_ROBIN then put_member (Lb RoundRobinPolicy) c
  else if ints b load_balancing_policy =? LOAD_BALANCING_DC_AWARE_ROUND_ROBIN then
    put_member (Lb (DCAwarePolicy (c_string (safe (strs b local_dc))) (ints b used_hosts_per_remote_dc) (ints b allow_remote_dcs_for_local_cl =? 0))) c
  else if (ints b load_balancing_policy =? LOAD_BALANCING_RACK_AWARE) && negb (strlen (safe (strs b local_dc)) =? 0) && negb (strlen (safe (strs b local_rack)) =? 0) then
    put_member (Lb (RackAwarePolicy (c_string (safe (strs b local_dc))) (c_string (safe (strs b local_rack))))) c
  else c.

Lemma seq_load_balancing k c : seq (build_load_balancing b) k c = k (build_policy c).
Proof.
  unfold build_load_balancing, build_policy. destruct (_ =? LOAD_BALANCING_ROUND_ROBIN); [done|]. destruct (_ =? LOAD_BALANCING_DC_AWARE_ROUND_ROBIN); [done|].
  destruct (_ =? LOAD_BALANCING_RACK_AWARE); [|done]. unfold cass_cluster_set_load_balance_rack_aware, guarded, unchecked, seq.
  by destruct (strlen (safe (strs b local_dc)) =? 0), (strlen (safe (strs b local_rack)) =? 0).
Qed.

Definition build_filter_lists (c : CassCluster) : CassCluster :=
  opt_member (strs b whitelist_dcs) (fun s c => Filter WhiteListDCs (set_filtering s (filters c WhiteListDCs)))
    (opt_member (strs b blacklist_dcs) (fun s c => Filter BlackListDCs (set_filtering s (filters c BlackListDCs)))
      (opt_member (strs b whitelist_hosts) (fun s c => Filter WhiteListHosts (set_filtering s (filters c WhiteListHosts)))
        (opt_member (strs b blacklist_hosts) (fun s c => Filter BlackListHosts (set_filtering s (filters c BlackListHosts))) c))).

Lemma seq_filters k c : seq (build_filters b) k c = k (build_filter_lists c).
Proof. unfold build_filters, build_filter_lists, seq. by destruct (strs b blacklist_hosts), (strs b whitelist_hosts), (strs b blacklist_dcs), (strs b whitelist_dcs). Qed.

Definition reconnect_ok : bool :=
  negb (ints b reconnect_policy =? RECONNECT_POLICY_EXPONENTIAL)
  || ((1 <? ints b reconnect_interval) && (1 <? ints b reconnect_max_interval) && (ints b reconnect_interval <=? ints b reconnect_max_interval)).

Definition reconnect_of : reconnection :=
  if ints b reconnect_policy =? RECONNECT_POLICY_EXPONENTIAL then ExponentialReconnection (ints b reconnect_interval) (ints b reconnect_max_interval)
  else ConstantReconnection (ints b reconnect_interval).

Lemma seq_reconnect k c : seq (build_reconnect b) k c = if reconnect_ok then k (put_member (Reconnect reconnect_of) c) else (Some CASS_ERROR_LIB_BAD_PARAMS, c).
Proof. unfold build_reconnect, reconnect_ok, reconnect_of. destruct (_ =? RECONNECT_POLICY_EXPONENTIAL); [|done]. apply seq_guard. Qed.

(** Speculation is requested by a positive delay. *)
Definition speculative_delay : option Z := if 0 <? ints b speculative_execution_delay then Some (ints b speculative_execution_delay) else None.

Definition speculative_ok : bool := negb (0 <? ints b speculative_execution_delay) || (0 <=? ints b speculative_execution_max).

Lemma seq_speculative k c :
  seq (build_speculative b) k c =
  if speculative_ok then k (opt_member speculative_delay (fun d _ => Speculative (ConstantSpeculativeExecution d (ints b speculative_execution_max))) c)
  else (Some CASS_ERROR_LIB_BAD_PARAMS, c).
Proof.
  unfold build_speculative, speculative_ok, speculative_delay. destruct (Z.ltb_spec 0 (ints b speculative_execution_delay)); [|done].
  unfold cass_cluster_set_constant_speculative_execution_policy. rewrite seq_guard. by rewrite (proj2 (Z.leb_le 0 _)) by lia.
Qed.

Definition address_ok : bool :=
  match strs b local_address with None | Some [] => true | Some name => is_valid_and_resolved name end.

Lemma seq_address k c :
  seq (when_some (strs b local_address) (fun s => ASSERT_SUCCESS (cass_cluster_set_local_address_n is_valid_and_resolved s))) k c =
  if address_ok then k (opt_member (strs b local_address) (fun s _ => LocalAddr (match s with [] => None | _ => Some s end)) c)
  else (Some CASS_ERROR_LIB_HOST_RESOLUTION, c).
Proof.
  unfold address_ok, seq, when_some, ASSERT_SUCCESS, cass_cluster_set_local_address_n.
  destruct (strs b local_address) as [[|x s]|]; [done| |done]. by destruct (is_valid_and_resolved (x :: s)).
Qed.

Fixpoint profile_members (t : list (bytes * nat)) (c : CassCluster) : CassCluster :=
  match t with [] => c | (n, p) :: t' => profile_members t' (put_member (Profile n (profile (profile_object p))) c) end.

Definition names_ok (t : list (bytes * nat)) : bool := forallb (fun e => bool_decide (e.1 <> [])) t.

Lemma seq_profiles t : forall k c,
  exists c', seq (build_profiles profile_object t) k c = if names_ok t then k (profile_members t c) else (Some CASS_ERROR_LIB_BAD_PARAMS, c').
Proof.
  induction t as [|[n p] t IH]; intros k c; [by exists c|].
  assert (forall g u a, seq (seq (ASSERT_SUCCESS (guarded g u)) a) k c = if g then seq a k (u c) else (Some CASS_ERROR_LIB_BAD_PARAMS, c)) as Hs.
  { intros [] u a; done. }
  cbn [build_profiles]. unfold cass_cluster_set_execution_profile_n. rewrite Hs. cbn [names_ok forallb fst]. destruct (bool_decide (n <> [])); [|by exists c].
  cbn [andb]. apply IH.
Qed.

(** The checks of a build in their order, and the code of the first that fails. *)
Definition build_checks : list (bool * CassError) :=
  [(0 <? ints b port, CASS_ERROR_LIB_BAD_PARAMS);
   (protocol_version_supported (wrapS 32 (ints b protocol_version)), CASS_ERROR_LIB_BAD_PARAMS);
   (negb (ints b io_threads =? 0), CASS_ERROR_LIB_BAD_PARAMS);
   (negb (ints b core_connections_per_host =? 0), CASS_ERROR_LIB_BAD_PARAMS);
   (reconnect_ok, CASS_ERROR_LIB_BAD_PARAMS);
   (speculative_ok, CASS_ERROR_LIB_BAD_PARAMS);
   (0 <=? ints b coalesce_delay, CASS_ERROR_LIB_BAD_PARAMS);
   ((0 <? ints b new_request_ratio) && (ints b new_request_ratio <=? 100), CASS_ERROR_LIB_BAD_PARAMS);
   (negb (ints b queue_size_io =? 0), CASS_ERROR_LIB_BAD_PARAMS);
   (address_ok, CASS_ERROR_LIB_HOST_RESOLUTION);
   (names_ok (execution_profiles b), CASS_ERROR_LIB_BAD_PARAMS)].

(** The numbers the driver is left with: the builder's, except the protocol version. *)
Definition built_cfg (f : cfg_field) : Z :=
  match f with
  | port_ => ints b port
  | protocol_version_ => if negb (ints b beta_protocol =? 0) then 5 else 4
  | use_beta_protocol_version_ => ints b beta_protocol
  | thread_count_io_ => ints b io_threads
  | queue_size_io_ => ints b queue_size_io
  | core_connections_per_host_ => ints b core_connections_per_host
  | connect_timeout_ms_ => ints b connect_timeout
  | resolve_timeout_ms_ => ints b resolve_timeout
  | max_schema_wait_time_ms_ => ints b max_schema_wait_time
  | max_tracing_wait_time_ms_ => ints b tracing_max_wait_time
  | retry_tracing_wait_time_ms_ => ints b tracing_retry_wait_time
  | tracing_consistency_ => ints b tracing_consistency
  | coalesce_delay_us_ => ints b coalesce_delay
  | new_request_ratio_ => ints b new_request_ratio
  | tcp_nodelay_enable_ => ints b enable_tcp_nodelay
  | tcp_keepalive_enable_ => ints b enable_tcp_keepalive
  | tcp_keepalive_delay_secs_ => ints b tcp_keepalive_delay
  | connection_idle_timeout_secs_ => ints b connection_idle_timeout
  | connection_heartbeat_interval_secs_ => ints b connection_heartbeat_interval
  | use_schema_ => ints b enable_schema
  | use_hostname_resolution_ => ints b enable_hostname_resolution
  | use_randomized_contact_points_ => ints b enable_randomized_contact_points
  | prepare_on_all_hosts_ => ints b prepare_on_all_hosts
  | prepare_on_up_or_add_host_ => ints b prepare_on_up_or_add_host
  | no_compact_ => ints b no_compact
  | monitor_reporting_interval_secs_ => ints b monitor_reporting_interval
  | request_timeout_ms_ => ints b request_timeout
  | token_aware_routing_ => ints b use_token_aware_routing
  | token_aware_routing_shuffle_replicas_ => ints b shuffle_replicas
  | latency_aware_routing_ => ints b enable_latency_aware_routing
  end.

(** The policy of the builder; a rack-aware policy without a datacenter or a rack is the default one. *)
Definition built_lb : lb_policy :=
  let dc := c_string (safe (strs b local_dc)) in
  let rack := c_string (safe (strs b local_rack)) in
  if ints b load_balancing_policy =? LOAD_BALANCING_ROUND_ROBIN then RoundRobinPolicy
  else if ints b load_balancing_policy =? LOAD_BALANCING_DC_AWARE_ROUND_ROBIN then
    DCAwarePolicy dc (ints b used_hosts_per_remote_dc) (ints b allow_remote_dcs_for_local_cl =? 0)
  else if (ints b load_balancing_policy =? LOAD_BALANCING_RACK_AWARE) && bool_decide (dc <> []) && bool_decide (rack <> []) then RackAwarePolicy dc rack
  else DCAwarePolicy [] 0 true.

Definition filter_field (l : filter_list) : str_field :=
  match l with WhiteListHosts => whitelist_hosts | BlackListHosts => blacklist_hosts | WhiteListDCs => whitelist_dcs | BlackListDCs => blacklist_dcs end.

(** A [CassCluster] that holds the builder's settings. *)
Record configured (c : CassCluster) : Prop := {
  configured_cfg : forall f, cfg c f = built_cfg f;
  configured_contacts : contacts c = explode (safe (strs b contact_points)) [];
  configured_filters : forall l, filters c l = match strs b (filter_field l) with Some s => explode s [] | None => [] end;
  configured_credentials : credentials c = match strs b username with Some user => Some (user, safe (strs b password)) | None => None end;
  configured_lb : lb c = built_lb;
  configured_reconnect : reconnect c = reconnect_of;
  configured_speculative :
    speculative c = match speculative_delay with Some d => ConstantSpeculativeExecution d (ints b speculative_execution_max) | None => NoSpeculativeExecution end;
  configured_address : local_addr c = match strs b local_address with None => Some (bs "0.0.0.0") | Some [] => None | Some s => Some s end;
  configured_app : app_name c = safe (strs b application_name) /\ app_version c = safe (strs b application_version);
  configured_objects : ssl_context c = ssl_options b /\ retry c = retry_policy b /\ timestamps c = timestamp_gen b;
  configured_profiles :
    profiles c = fold_left (fun t e => set_profile e.1 (profile (profile_object e.2)) t) (execution_profiles b) []
}.
End outcome.

Fixpoint first_error (t : list (bool * CassError)) : option CassError :=
  match t with [] => None | (ok, e) :: t' => if ok then first_error t' else Some e end.

Lemma filtering_empty s : set_filtering s [] = explode s [].
Proof. by destruct s. Qed.

Lemma build_policy_frame {B} (g : CassCluster -> B) b c : (forall v c, g (put_member (Lb v) c) = g c) -> g (build_policy b c) = g c.
Proof. intros H. unfold build_policy. by repeat case_match. Qed.

Lemma c_string_empty s : bool_decide (c_string s <> []) = negb (strlen s =? 0).
Proof.
  unfold c_string. pose proof (strlen_le s). destruct (Z.eqb_spec (strlen s) 0) as [->|]; [done|]. cbn [negb]. apply bool_decide_eq_true.
  destruct s as [|c s]; [done|]. destruct (Z.to_nat (strlen (c :: s))) eqn:E; [lia|done].
Qed.

Lemma build_policy_lb b c : lb c = DCAwarePolicy [] 0 true -> lb (build_policy b c) = built_lb b.
Proof. intros H. unfold build_policy, built_lb. rewrite !c_string_empty. by repeat case_match. Qed.

Lemma profile_members_frame {B} (g : CassCluster -> B) po t : (forall n v c, g (put_member (Profile n v) c) = g c) -> forall c, g (profile_members po t c) = g c.
Proof. intros H. induction t as [|[n p] t IH]; intros c; cbn; [done|]. by rewrite IH, H. Qed.

Lemma profile_members_profiles po t : forall c,
  profiles (profile_members po t c) = fold_left (fun t e => set_profile e.1 (profile (po e.2)) t) t (profiles c).
Proof. induction t as [|[n p] t IH]; intros c; cbn; [done|]. by rewrite IH. Qed.

Lemma build_filter_lists_frame {B} (g : CassCluster -> B) b c : (forall l v c, g (put_member (Filter l v) c) = g c) -> g (build_filter_lists b c) = g c.
Proof. intros H. unfold build_filter_lists. by rewrite !(opt_frame g) by auto. Qed.

Lemma build_filter_lists_filters b c l : filters c l = [] ->
  filters (build_filter_lists b c) l = match strs b (filter_field l) with Some s => explode s [] | None => [] end.
Proof.
  intros H. unfold build_filter_lists, opt_member.
  destruct l; cbn [filter_field]; destruct (strs b whitelist_dcs), (strs b blacklist_dcs), (strs b whitelist_hosts), (strs b blacklist_hosts); cbn; by rewrite ?H, ?filtering_empty.
Qed.
