(* ===== verification/BuildOutcome.v ===== *)
(** What [Builder::build] throws and what it leaves in the driver. *)
From S2P Require Import Prelude DriverErrors CacheKey ClusterBuilder IniSettings BuilderTyping ExecutionProfile ClusterBuild.

Section outcome.
Context (is_valid_and_resolved : bytes -> bool) (profile_object : nat -> execution_profile) (b : builder).

(** The state before the first check. *)
Definition before_checks : CassCluster :=
  opt_member (ssl_options b) (fun ssl _ => Ssl ssl)
    (put request_timeout_ms_ (ints b request_timeout) (put connect_timeout_ms_ (ints b connect_timeout)
      (opt_member (strs b username) (fun user _ => Credentials user (safe (strs b password)))
        (put token_aware_routing_ (ints b use_token_aware_routing) (build_filter_lists b (build_policy b cass_cluster_new)))))).

Lemma before_checks_frame {B} (g : CassCluster -> B) :
  (forall f v c, g (put f v c) = g c) -> (forall l v c, g (put_member (Filter l v) c) = g c) -> (forall v c, g (put_member (Lb v) c) = g c) ->
  (forall u p c, g (put_member (Credentials u p) c) = g c) -> (forall v c, g (put_member (Ssl v) c) = g c) ->
  g before_checks = g cass_cluster_new.
Proof.
  intros Hput Hf Hl Hc Hs. unfold before_checks. rewrite (opt_frame g), !Hput, (opt_frame g), Hput, (build_filter_lists_frame g), (build_policy_frame g); auto.
Qed.

Lemma before_checks_cfg f : cfg before_checks f =
  match f with
  | token_aware_routing_ => ints b use_token_aware_routing
  | connect_timeout_ms_ => ints b connect_timeout
  | request_timeout_ms_ => ints b request_timeout
  | _ => cfg cass_cluster_new f
  end.
Proof.
  unfold before_checks. rewrite opt_cfg. cbn [put cfg]. rewrite opt_cfg. cbn [put cfg].
  rewrite (build_filter_lists_frame cfg), (build_policy_frame cfg) by done. by destruct f.
Qed.

Lemma before_checks_filters l : filters before_checks l = match strs b (filter_field l) with Some s => explode s [] | None => [] end.
Proof.
  unfold before_checks. rewrite (opt_frame filters) by done. cbn [put filters]. rewrite (opt_frame filters) by done. cbn [put filters].
  apply build_filter_lists_filters. by rewrite (build_policy_frame filters).
Qed.

Lemma before_checks_lb : lb before_checks = built_lb b.
Proof.
  unfold before_checks. rewrite (opt_frame lb) by done. cbn [put lb]. rewrite (opt_frame lb) by done. cbn [put lb].
  rewrite (build_filter_lists_frame lb) by done. by apply build_policy_lb.
Qed.

Lemma before_checks_credentials :
  credentials before_checks = match strs b username with Some user => Some (user, safe (strs b password)) | None => None end.
Proof.
  unfold before_checks. rewrite (opt_frame credentials) by done. cbn [put credentials]. destruct (strs b username); [done|]. cbn.
  by rewrite (build_filter_lists_frame credentials), (build_policy_frame credentials) by done.
Qed.

Lemma before_checks_ssl : ssl_context before_checks = ssl_options b.
Proof.
  unfold before_checks. destruct (ssl_options b); [done|]. cbn [opt_member put ssl_context]. rewrite (opt_frame ssl_context) by done. cbn [put ssl_context].
  by rewrite (build_filter_lists_frame ssl_context), (build_policy_frame ssl_context) by done.
Qed.

Lemma seq_contact_points k c :
  seq (ASSERT_SUCCESS (cass_cluster_set_contact_points_n (safe (strs b contact_points)))) k c =
  k (put_member (Contacts (match safe (strs b contact_points) with [] => [] | _ => explode (safe (strs b contact_points)) (contacts c) end)) c).
Proof. done. Qed.

Lemma seq_beta v k c :
  seq (unchecked (cass_cluster_set_use_beta_protocol_version v)) k c =
  k (put protocol_version_ (if negb (v =? 0) then 5 else 4) (put use_beta_protocol_version_ v c)).
Proof. done. Qed.

Lemma seq_keepalive e d k c :
  seq (unchecked (cass_cluster_set_tcp_keepalive e d)) k c = k (put tcp_keepalive_delay_secs_ d (put tcp_keepalive_enable_ e c)).
Proof. done. Qed.

(** The members of the cluster after the last call. *)
Definition after_checks (c : CassCluster) : CassCluster :=
  opt_member (retry_policy b) (fun p _ => Retry p) (opt_member (timestamp_gen b) (fun g _ => Timestamps g)
    (put connection_heartbeat_interval_secs_ (ints b connection_heartbeat_interval)
      (put use_randomized_contact_points_ (ints b enable_randomized_contact_points) (put use_hostname_resolution_ (ints b enable_hostname_resolution)
        (put use_schema_ (ints b enable_schema) (put tcp_keepalive_delay_secs_ (ints b tcp_keepalive_delay) (put tcp_keepalive_enable_ (ints b enable_tcp_keepalive)
          (put tcp_nodelay_enable_ (ints b enable_tcp_nodelay) (put latency_aware_routing_ (ints b enable_latency_aware_routing)
            (opt_member (strs b application_version) (fun s _ => AppVersion s) (opt_member (strs b application_name) (fun s _ => AppName s)
              (profile_members profile_object (execution_profiles b) (opt_member (strs b local_address) (fun s _ => LocalAddr (match s with [] => None | _ => Some s end)) c))))))))))))).

(** The numbers between the checks. *)
Definition checked_numbers (c : CassCluster) : CassCluster :=
  put retry_tracing_wait_time_ms_ (ints b tracing_retry_wait_time) (put max_tracing_wait_time_ms_ (ints b tracing_max_wait_time)
    (put tracing_consistency_ (ints b tracing_consistency) (put no_compact_ (ints b no_compact) (put prepare_on_up_or_add_host_ (ints b prepare_on_up_or_add_host)
      (put monitor_reporting_interval_secs_ (ints b monitor_reporting_interval) (put queue_size_io_ (ints b queue_size_io)
        (put new_request_ratio_ (ints b new_request_ratio) (put prepare_on_all_hosts_ (ints b prepare_on_all_hosts)
          (put protocol_version_ (if negb (ints b beta_protocol =? 0) then 5 else 4) (put use_beta_protocol_version_ (ints b beta_protocol)
            (put token_aware_routing_shuffle_replicas_ (ints b shuffle_replicas) (put resolve_timeout_ms_ (ints b resolve_timeout)
              (put max_schema_wait_time_ms_ (ints b max_schema_wait_time) (put connection_idle_timeout_secs_ (ints b connection_idle_timeout)
                (put coalesce_delay_us_ (ints b coalesce_delay)
  (opt_member (speculative_delay b) (fun d _ => Speculative (ConstantSpeculativeExecution d (ints b speculative_execution_max)))
    (put_member (Reconnect (reconnect_of b)) (put core_connections_per_host_ (ints b core_connections_per_host) (put thread_count_io_ (ints b io_threads)
      (put protocol_version_ (wrapS 32 (ints b protocol_version)) (put port_ (ints b port)
        (put_member (Contacts (match safe (strs b contact_points) with [] => [] | _ => explode (safe (strs b contact_points)) (contacts c) end)) c)))))))))))))))))))))).

Lemma build_calls_run :
  match first_error (build_checks is_valid_and_resolved b) with
  | Some e => exists c, build_calls is_valid_and_resolved profile_object b cass_cluster_new = (Some e, c)
  | None => build_calls is_valid_and_resolved profile_object b cass_cluster_new = (None, after_checks (checked_numbers before_checks))
  end.
Proof.
  unfold build_calls.
  rewrite seq_load_balancing, seq_filters, seq_store. unfold build_credentials. rewrite (seq_opt _ (fun user _ => Credentials user (safe (strs b password)))).
  rewrite !seq_store, (seq_opt _ (fun ssl _ => Ssl ssl)). fold before_checks.
  pose proof (before_checks_cfg use_beta_protocol_version_) as Hbeta. cbn in Hbeta. set (c1 := before_checks) in *. clearbody c1.
  rewrite seq_contact_points. unfold cass_cluster_set_port. rewrite seq_guard. cbn [build_checks first_error]. destruct (0 <? ints b port); [|by eexists].
  rewrite seq_version by exact Hbeta. destruct (protocol_version_supported _); [|by eexists].
  unfold cass_cluster_set_num_threads_io. rewrite seq_guard. destruct (negb (ints b io_threads =? 0)); [|by eexists].
  unfold cass_cluster_set_core_connections_per_host. rewrite seq_guard. destruct (negb (ints b core_connections_per_host =? 0)); [|by eexists].
  unfold cass_cluster_set_max_connections_per_host. rewrite seq_ok. cbn [id].
  rewrite seq_reconnect. destruct (reconnect_ok b); [|by eexists]. rewrite seq_speculative. destruct (speculative_ok b); [|by eexists].
  unfold cass_cluster_set_coalesce_delay. rewrite seq_guard. destruct (0 <=? ints b coalesce_delay); [|by eexists].
  rewrite !seq_store, seq_beta, seq_store. unfold cass_cluster_set_new_request_ratio. rewrite seq_guard.
  destruct ((0 <? ints b new_request_ratio) && (ints b new_request_ratio <=? 100)); [|by eexists].
  unfold cass_cluster_set_queue_size_io. rewrite seq_guard. destruct (negb (ints b queue_size_io =? 0)); [|by eexists].
  rewrite !seq_store, seq_address. destruct (address_ok _ b); [|by eexists].
  match goal with |- context [seq (build_profiles _ ?t) ?k ?c] => destruct (seq_profiles profile_object t k c) as [c' ->] end.
  destruct (names_ok (execution_profiles b)); [|by eexists].
  rewrite (seq_opt _ (fun s _ => AppName s)), (seq_opt _ (fun s _ => AppVersion s)), !seq_store, seq_keepalive, !seq_store, !seq_ok, seq_store, (seq_opt _ (fun g _ => Timestamps g)).
  unfold after_checks, checked_numbers. by destruct (retry_policy b).
Qed.

Lemma final_cfg f : cfg (after_checks (checked_numbers before_checks)) f = built_cfg b f.
Proof.
  unfold after_checks. rewrite !opt_cfg. cbn [put cfg]. rewrite !opt_cfg, (profile_members_frame cfg), opt_cfg by done. unfold checked_numbers. cbn [put put_member cfg].
  rewrite opt_cfg. cbn [put put_member cfg]. pose proof (before_checks_cfg f) as Hf. by destruct f.
Qed.

Lemma after_frame {B} (g : CassCluster -> B) :
  (forall f v c, g (put f v c) = g c) -> (forall v c, g (put_member (Retry v) c) = g c) -> (forall v c, g (put_member (Timestamps v) c) = g c) ->
  (forall v c, g (put_member (AppName v) c) = g c) -> (forall v c, g (put_member (AppVersion v) c) = g c) ->
  (forall v c, g (put_member (LocalAddr v) c) = g c) -> (forall n v c, g (put_member (Profile n v) c) = g c) ->
  forall c, g (after_checks c) = g c.
Proof.
  intros Hput Hr Ht Hn Hv Ha Hp c. unfold after_checks.
  rewrite (opt_frame g), (opt_frame g), !Hput, (opt_frame g), (opt_frame g), (profile_members_frame g), (opt_frame g); auto.
Qed.

Lemma numbers_frame {B} (g : CassCluster -> B) :
  (forall f v c, g (put f v c) = g c) -> (forall v c, g (put_member (Speculative v) c) = g c) -> (forall v c, g (put_member (Reconnect v) c) = g c) ->
  (forall v c, g (put_member (Contacts v) c) = g c) -> forall c, g (checked_numbers c) = g c.
Proof. intros Hput Hs Hr Hc c. unfold checked_numbers. rewrite !Hput, (opt_frame g), Hr, !Hput, Hc; auto. Qed.

(** Without the objects and the profiles, a member that only one call writes. *)
Lemma final_configured : configured profile_object b (after_checks (checked_numbers before_checks)).
Proof.
  split.
  - apply final_cfg.
  - rewrite (after_frame contacts) by done. unfold checked_numbers. cbn [put put_member contacts]. rewrite (opt_frame contacts) by done.
    cbn [put put_member contacts]. rewrite (before_checks_frame contacts) by done. by destruct (safe (strs b contact_points)).
  - intros l. rewrite (after_frame filters), (numbers_frame filters) by done. apply before_checks_filters.
  - rewrite (after_frame credentials), (numbers_frame credentials) by done. apply before_checks_credentials.
  - rewrite (after_frame lb), (numbers_frame lb) by done. apply before_checks_lb.
  - rewrite (after_frame reconnect) by done. unfold checked_numbers. cbn [put put_member reconnect]. by rewrite (opt_frame reconnect) by done.
  - rewrite (after_frame speculative) by done. unfold checked_numbers. cbn [put put_member speculative]. destruct (speculative_delay b); [done|].
    cbn [opt_member put put_member speculative]. by rewrite (before_checks_frame speculative) by done.
  - unfold after_checks. rewrite !(opt_frame local_addr) by done. cbn [put local_addr]. rewrite !(opt_frame local_addr), (profile_members_frame local_addr) by done.
    destruct (strs b local_address) as [[|x s]|]; [done|done|]. cbn [opt_member]. by rewrite (numbers_frame local_addr), (before_checks_frame local_addr) by done.
  - unfold after_checks. rewrite !(opt_frame app_name), !(opt_frame app_version) by done. cbn [put app_name app_version].
    rewrite (opt_frame app_name) by done. destruct (strs b application_version), (strs b application_name); cbn [opt_member put_member app_name app_version safe default];
      rewrite ?(profile_members_frame app_name), ?(opt_frame app_name), ?(numbers_frame app_name), ?(before_checks_frame app_name),
        ?(profile_members_frame app_version), ?(opt_frame app_version), ?(numbers_frame app_version), ?(before_checks_frame app_version) by done; done.
  - split; [|split].
    + rewrite (after_frame ssl_context), (numbers_frame ssl_context) by done. apply before_checks_ssl.
    + unfold after_checks. destruct (retry_policy b); [done|]. cbn [opt_member]. rewrite (opt_frame retry) by done. cbn [put retry].
      by rewrite !(opt_frame retry), (profile_members_frame retry), (opt_frame retry), (numbers_frame retry), (before_checks_frame retry) by done.
    + unfold after_checks. rewrite (opt_frame timestamps) by done. destruct (timestamp_gen b); [done|]. cbn [opt_member put timestamps].
      by rewrite !(opt_frame timestamps), (profile_members_frame timestamps), (opt_frame timestamps), (numbers_frame timestamps), (before_checks_frame timestamps) by done.
  - unfold after_checks. rewrite !(opt_frame profiles) by done. cbn [put profiles]. rewrite !(opt_frame profiles) by done.
    rewrite profile_members_profiles, (opt_frame profiles), (numbers_frame profiles), (before_checks_frame profiles) by done. done.
Qed.

Lemma build_outcome_cases :
  match first_error (build_checks is_valid_and_resolved b) with
  | Some e => exists c, build_calls is_valid_and_resolved profile_object b cass_cluster_new = (Some e, c)
  | None => exists c, build_calls is_valid_and_resolved profile_object b cass_cluster_new = (None, c) /\ configured profile_object b c
  end.
Proof. pose proof build_calls_run as H. destruct (first_error _); [done|]. eexists. split; [exact H|]. apply final_configured. Qed.
End outcome.

(** The parameters of a well-typed builder that the driver refuses. *)
Definition refused_parameters (b : builder) : bool :=
  negb (protocol_version_supported (wrapS 32 (ints b protocol_version))) || (ints b io_threads =? 0) || (ints b core_connections_per_host =? 0)
  || negb (reconnect_ok b) || negb (speculative_ok b) || (ints b coalesce_delay <? 0) || (ints b queue_size_io =? 0).

Lemma names_ok_typed g b : builder_ok g b -> names_ok (execution_profiles b) = true.
Proof.
  intros Hb. destruct (ok_profiles _ _ Hb) as [Hn _]. unfold names_ok. induction Hn as [|e t He _ IH]; [done|]. cbn. rewrite IH.
  by rewrite bool_decide_eq_true_2.
Qed.

Lemma first_error_typed res g b : builder_ok g b ->
  first_error (build_checks res b) =
  if refused_parameters b then Some CASS_ERROR_LIB_BAD_PARAMS else if address_ok res b then None else Some CASS_ERROR_LIB_HOST_RESOLUTION.
Proof.
  intros Hb. pose proof (ok_range _ _ Hb port) as Hp. pose proof (ok_range _ _ Hb new_request_ratio) as Hr. cbn in Hp, Hr.
  unfold build_checks, refused_parameters, first_error.
  assert ((0 <? ints b port) = true) as -> by lia.
  assert ((0 <? ints b new_request_ratio) && (ints b new_request_ratio <=? 100) = true) as -> by lia.
  rewrite (names_ok_typed g b Hb), (Z.leb_antisym (ints b coalesce_delay)).
  destruct (protocol_version_supported _); [|done]. destruct (ints b io_threads =? 0); [done|]. destruct (ints b core_connections_per_host =? 0); [done|].
  destruct (reconnect_ok b); [|done]. destruct (speculative_ok b); [|done]. destruct (ints b coalesce_delay <? 0); [done|].
  destruct (ints b queue_size_io =? 0); [done|]. cbn. by destruct (address_ok res b).
Qed.

(** The settings the driver's cluster is not told: the extension keeps them, except the maximum number of
    connections, which the driver drops. *)
Definition kept_by_the_extension (f : int_field) : bool := match f with default_consistency | default_page_size | persist => true | _ => false end.

Lemma build_calls_ignore res po f v b c : f = max_connections_per_host \/ kept_by_the_extension f = true -> build_calls res po (set_int f v b) c = build_calls res po b c.
Proof. intros [->|Hf]; [reflexivity|destruct f; try discriminate Hf; reflexivity]. Qed.

(** A rack-aware policy without a datacenter or a rack. *)
Definition incomplete_rack (b : builder) : Prop :=
  ints b load_balancing_policy = LOAD_BALANCING_RACK_AWARE /\ (c_string (safe (strs b local_dc)) = [] \/ c_string (safe (strs b local_rack)) = []).

Lemma incomplete_rack_lb b : incomplete_rack b -> built_lb b = lb cass_cluster_new.
Proof. intros [E [Hd|Hr]]; unfold built_lb; rewrite E; [rewrite Hd|rewrite Hr, (bool_decide_eq_false_2 ([] <> [])), andb_false_r by naive_solver]; done. Qed.

(** C31: What [build] throws, exactly.  A builder the program made (seeded from the registered
    directives and changed by any calls) throws [InvalidArgumentException] when the driver refuses a
    parameter: a protocol version other than 3, 4 or a DSE one, no I/O threads, no core connections, an empty
    queue, an exponential reconnection whose delays are at most 1 ms or out of order, a negative
    number of speculative executions or a negative coalescing delay; otherwise [RuntimeException]
    when the local address does not resolve; and otherwise it succeeds, and the driver's cluster
    holds the builder's settings with three exceptions.  The protocol version is the newest one, or the
    beta one, whatever was asked for; the maximum number of connections to a host has no effect at
    all; and a rack-aware policy whose datacenter or rack is empty is dropped, so that the driver's
    default, datacenter-aware policy stays.  The default consistency and page size and persistence
    are not the driver's: the extension keeps them. *)
Theorem build_throws (parse_quantity : bytes -> Z) (parse_bool : bytes -> bool) (conf : php_ini) (cs : list builder_call) (b : builder)
    (is_valid_and_resolved : bytes -> bool) (po : nat -> execution_profile) :
  engine_parsers parse_quantity parse_bool ->
  builder_run (register_ini_entries parse_quantity parse_bool conf) cs
    (php_scylladb_cluster_builder_new (register_ini_entries parse_quantity parse_bool conf)) = Some b ->
  match build_calls is_valid_and_resolved po b cass_cluster_new with
  | (Some rc, _) =>
      (exception_class rc = InvalidArgumentException /\ refused_parameters b = true) \/
      (exception_class rc = RuntimeException /\ refused_parameters b = false /\ address_ok is_valid_and_resolved b = false)
  | (None, c) =>
      refused_parameters b = false /\ address_ok is_valid_and_resolved b = true /\ configured po b c /\
      cfg c protocol_version_ = (if negb (ints b beta_protocol =? 0) then 5 else 4) /\ (incomplete_rack b -> lb c = lb cass_cluster_new)
  end /\
  (forall f v, f = max_connections_per_host \/ kept_by_the_extension f = true ->
     build_calls is_valid_and_resolved po (set_int f v b) cass_cluster_new = build_calls is_valid_and_resolved po b cass_cluster_new).
Proof.
  intros Hp Hrun. split; [|intros; by apply build_calls_ignore]. assert (builder_ok (register_ini_entries parse_quantity parse_bool conf) b) as Hb.
  { eapply builder_run_ok; [|exact Hrun]. apply builder_new_ok. by apply registered_ini_ok. }
  pose proof (build_outcome_cases is_valid_and_resolved po b) as H. rewrite (first_error_typed _ _ _ Hb) in H.
  destruct (refused_parameters b).
  - destruct H as [c ->]. by left.
  - destruct (address_ok is_valid_and_resolved b); [destruct H as (c & -> & Hc)|destruct H as [c ->]].
    + split_and!; [done..| |].
      * by rewrite (configured_cfg _ _ _ Hc).
      * intros Hr. by rewrite (configured_lb _ _ _ Hc), incomplete_rack_lb.
    + by right.
Qed.

(** An exponential reconnection followed by a longer constant interval; the third version of the protocol, eight connections and
    a rack-aware policy of which the rack is empty. *)
Definition crossed_intervals : list builder_call :=
  [withExponentialReconnect (double_of 1) (double_of 10); withReconnectInterval (double_of 20)].
Definition dropped_settings : list builder_call :=
  [withProtocolVersion false 3; withConnectionsPerHost 2 8; withRackAwareLoadBalancingPolicy (bs "dc1") []].

Lemma build_throws_witness :
  engine_parsers ZEND_STRTOL strtol_bool /\
  (exists b, builder_run (register_ini_entries ZEND_STRTOL strtol_bool some_php_ini) crossed_intervals
              (php_scylladb_cluster_builder_new (register_ini_entries ZEND_STRTOL strtol_bool some_php_ini)) = Some b /\
    refused_parameters b = true /\
    match build_calls (fun _ => true) (fun _ => php_scylladb_execution_profile_new) b cass_cluster_new with
    | (Some rc, _) => exception_class rc = InvalidArgumentException
    | _ => False
    end) /\
  (exists b c, builder_run (register_ini_entries ZEND_STRTOL strtol_bool some_php_ini) dropped_settings
              (php_scylladb_cluster_builder_new (register_ini_entries ZEND_STRTOL strtol_bool some_php_ini)) = Some b /\
    build_calls (fun _ => true) (fun _ => php_scylladb_execution_profile_new) b cass_cluster_new = (None, c) /\
    ints b protocol_version = 3 /\ cfg c protocol_version_ = 4 /\ lb c = lb cass_cluster_new /\
    ints b max_connections_per_host = 8 /\
    build_calls (fun _ => true) (fun _ => php_scylladb_execution_profile_new) (set_int max_connections_per_host 2 b) cass_cluster_new = (None, c)).
Proof.
  assert (engine_parsers ZEND_STRTOL strtol_bool) as Hp by (split; [apply strtol_decimal|done|done]).
  split; [exact Hp|]. split.
  - eexists. split; [reflexivity|]. split; [by vm_compute|].
    pose proof (build_throws ZEND_STRTOL strtol_bool some_php_ini crossed_intervals _ (fun _ => true) (fun _ => php_scylladb_execution_profile_new) Hp eq_refl) as [H _].
    destruct (build_calls _ _ _ _) as [[rc|] c].
    + destruct H as [[H _]|(_ & H & _)]; [exact H|]. exfalso. revert H. by vm_compute.
    + destruct H as [H _]. exfalso. revert H. by vm_compute.
  - eexists.
    pose proof (build_throws ZEND_STRTOL strtol_bool some_php_ini dropped_settings _ (fun _ => true) (fun _ => php_scylladb_execution_profile_new) Hp eq_refl) as [H Hi].
    destruct (build_calls _ _ _ _) as [[rc|] c] eqn:E.
    + exfalso. destruct H as [[_ H]|(_ & _ & H)]; revert H; by vm_compute.
    + destruct H as (_ & _ & _ & Hv & Hr). exists c. split; [reflexivity|]. split; [exact E|]. split; [reflexivity|]. split; [rewrite Hv; reflexivity|]. split; [|split; [reflexivity|]].
      * apply Hr. split; [reflexivity|right; reflexivity].
      * apply Hi. by left.
Defined.
