(* ===== verification/PersistentCluster.v ===== *)
(** Persistent clusters ([Builder::build] with persistence on, [php_scylladb_persistent_can_cache],
    [DefaultCluster]'s destructor): the fingerprint of a builder, the persistent list it indexes, and
    the ownership of the driver's clusters. *)
From S2P Require Import Prelude DriverErrors CacheKey ClusterBuilder IniSettings BuilderTyping ExecutionProfile ClusterBuild BuildOutcome.
From stdpp Require Import gmap.
Open Scope Z_scope.

(** ** The fingerprint *)

(** The fields in the order they are mixed. *)
Definition key_fields : list (str_field + int_field) :=
  [inl contact_points; inr port; inr load_balancing_policy; inl local_dc; inr used_hosts_per_remote_dc; inr allow_remote_dcs_for_local_cl;
   inr use_token_aware_routing; inl username; inl password; inr connect_timeout; inr request_timeout; inr protocol_version; inr io_threads;
   inr core_connections_per_host; inr max_connections_per_host; inr reconnect_interval; inr enable_latency_aware_routing; inr enable_tcp_nodelay;
   inr enable_tcp_keepalive; inr tcp_keepalive_delay; inr enable_schema; inr enable_hostname_resolution; inr enable_randomized_contact_points;
   inr connection_heartbeat_interval; inl whitelist_hosts; inl whitelist_dcs; inl blacklist_hosts; inl blacklist_dcs; inl local_rack;
   inl application_name; inl application_version; inr reconnect_policy; inr reconnect_max_interval; inr speculative_execution_delay;
   inr speculative_execution_max; inr coalesce_delay; inr new_request_ratio; inl local_address; inr connection_idle_timeout;
   inr max_schema_wait_time; inr resolve_timeout; inr monitor_reporting_interval; inr queue_size_io; inr tracing_consistency;
   inr tracing_max_wait_time; inr tracing_retry_wait_time; inr prepare_on_all_hosts; inr prepare_on_up_or_add_host; inr shuffle_replicas;
   inr no_compact; inr beta_protocol].

Definition mix_field (b : builder) (h : Z) (f : str_field + int_field) : Z :=
  match f with inl s => php_scylladb_cache_key_mix_zstr h (strs b s) | inr i => php_scylladb_cache_key_mix_int h (ints b i) end.

Definition mix_profile (po : nat -> execution_profile) (h : Z) (e : bytes * nat) : Z :=
  php_scylladb_cache_key_mix_ulong (php_scylladb_cache_key_mix_zstr h (Some e.1)) (config_hash (po e.2)).

Definition cluster_cache_key (po : nat -> execution_profile) (b : builder) : Z :=
  let h := php_scylladb_cache_key_mix_cstr php_scylladb_cache_key_init (Some (bs "cassandra")) in
  fold_left (mix_profile po) (execution_profiles b) (fold_left (mix_field b) key_fields h).

(** The bytes behind the key. *)
Definition field_bytes (b : builder) (f : str_field + int_field) : bytes :=
  match f with inl s => zstr_bytes (strs b s) | inr i => memory64 (ints b i) end.
Definition profile_bytes (po : nat -> execution_profile) (e : bytes * nat) : bytes := zstr_bytes (Some e.1) ++ memory64 (config_hash (po e.2)).
Definition cluster_key_bytes (po : nat -> execution_profile) (b : builder) : bytes :=
  cstr_bytes (Some (bs "cassandra")) ++ concat (map (field_bytes b) key_fields) ++ concat (map (profile_bytes po) (execution_profiles b)).

Lemma mix_int_bytes h v : php_scylladb_cache_key_mix_int h v = php_scylladb_cache_key_mix_bytes h (memory64 v).
Proof. unfold php_scylladb_cache_key_mix_int. reflexivity. Qed.

Lemma mix_ulong_bytes h v : php_scylladb_cache_key_mix_ulong h v = php_scylladb_cache_key_mix_bytes h (memory64 v).
Proof. unfold php_scylladb_cache_key_mix_ulong. reflexivity. Qed.

Lemma mix_field_bytes b h f : mix_field b h f = php_scylladb_cache_key_mix_bytes h (field_bytes b f).
Proof. unfold mix_field, field_bytes. destruct f as [s|i]; [apply mix_zstr_bytes|apply mix_int_bytes]. Qed.

Lemma mix_profile_bytes po h e : mix_profile po h e = php_scylladb_cache_key_mix_bytes h (profile_bytes po e).
Proof. unfold mix_profile, profile_bytes. rewrite mix_zstr_bytes, mix_ulong_bytes, mix_bytes_app. reflexivity. Qed.

(** Mixing one item after another mixes the concatenation of their bytes. *)
Lemma mix_all {A} (mix1 : Z -> A -> Z) (item : A -> bytes) (t : list A) :
  (forall h x, mix1 h x = php_scylladb_cache_key_mix_bytes h (item x)) ->
  forall h, fold_left mix1 t h = php_scylladb_cache_key_mix_bytes h (concat (map item t)).
Proof. intros H. induction t as [|x t IH]; intros h; [reflexivity|]. cbn [fold_left map concat]. rewrite IH, H, mix_bytes_app. reflexivity. Qed.

Lemma cluster_key_hash po b : cluster_cache_key po b = php_scylladb_cache_key_mix_bytes php_scylladb_cache_key_init (cluster_key_bytes po b).
Proof.
  unfold cluster_cache_key, cluster_key_bytes. rewrite (mix_all _ _ _ (mix_profile_bytes po)), (mix_all _ _ _ (mix_field_bytes b)), mix_cstr_bytes.
  rewrite mix_bytes_app, mix_bytes_app. reflexivity.
Qed.

(** ** What the bytes determine *)

(** The builders whose strings survive the fingerprint: no NUL in a hashed string, a user name that
    is not empty. *)
Record keyable (po : nat -> execution_profile) (b : builder) : Prop := {
  key_fits : forall i, fits (field_width i) (ints b i);
  key_strings : forall s, no_nul (default [] (strs b s));
  key_names : forall e, e ∈ execution_profiles b -> no_nul e.1 /\ in_u 64 (config_hash (po e.2));
  key_user : strs b username <> Some [];
  key_address : strs b local_address <> Some []
}.

Lemma fits_range w v v' : match w with Enum n => n <= 2 ^ 32 | _ => True end -> fits w v -> fits w v' -> wrapU 64 v = wrapU 64 v' -> v = v'.
Proof.
  intros Hw Hv Hv' H.
  assert (- 2 ^ 31 <= v < 2 ^ 32 /\ - 2 ^ 31 <= v' < 2 ^ 32) as [Hr Hr'] by (destruct w; unfold fits, in_u, in_s in *; lia).
  unfold wrapU in H. change (2 ^ 32) with 4294967296 in *. change (2 ^ 31) with 2147483648 in *. change (2 ^ 64) with 18446744073709551616 in *.
  Z.to_euclidean_division_equations. lia.
Qed.

Lemma field_enum_small i : match field_width i with Enum n => n <= 2 ^ 32 | _ => True end.
Proof. destruct i; cbn; lia. Qed.

(** The value of a field as the fingerprint sees it. *)
Definition same_field (b1 b2 : builder) (f : str_field + int_field) : Prop :=
  match f with inl s => default [] (strs b1 s) = default [] (strs b2 s) | inr i => ints b1 i = ints b2 i end.

Lemma field_bytes_inj po1 po2 b1 b2 f r1 r2 : keyable po1 b1 -> keyable po2 b2 -> field_bytes b1 f ++ r1 = field_bytes b2 f ++ r2 -> same_field b1 b2 f /\ r1 = r2.
Proof.
  intros K1 K2 H. destruct f as [s|i]; cbn in *.
  - by apply zstr_inj in H; [|apply (key_strings _ _ K1)|apply (key_strings _ _ K2)].
  - apply int_inj in H as [H ->]. split; [|done].
    eapply fits_range; [apply field_enum_small|apply (key_fits _ _ K1)|apply (key_fits _ _ K2)|exact H].
Qed.

Lemma fields_inj po1 po2 b1 b2 fs : keyable po1 b1 -> keyable po2 b2 -> forall r1 r2,
  concat (map (field_bytes b1) fs) ++ r1 = concat (map (field_bytes b2) fs) ++ r2 -> Forall (same_field b1 b2) fs /\ r1 = r2.
Proof.
  intros K1 K2. induction fs as [|f fs IH]; intros r1 r2 H; [by split; [constructor|]|]. cbn [map concat] in H. rewrite <- !app_assoc in H.
  eapply field_bytes_inj in H as [Hf H]; [|exact K1|exact K2]. apply IH in H as [Hfs ->]. split; [by constructor|done].
Qed.

Definition profile_key (po : nat -> execution_profile) (e : bytes * nat) : bytes * Z := (e.1, config_hash (po e.2)).

Lemma profiles_inj po1 po2 t1 : forall t2,
  (forall e, e ∈ t1 -> no_nul e.1 /\ in_u 64 (config_hash (po1 e.2))) -> (forall e, e ∈ t2 -> no_nul e.1 /\ in_u 64 (config_hash (po2 e.2))) ->
  concat (map (profile_bytes po1) t1) = concat (map (profile_bytes po2) t2) -> map (profile_key po1) t1 = map (profile_key po2) t2.
Proof.
  assert (forall po e r, profile_bytes po e ++ r <> []) as Hne.
  { intros po e r. unfold profile_bytes, zstr_bytes. by destruct (default [] (Some e.1)). }
  induction t1 as [|e1 t1 IH]; intros [|e2 t2] H1 H2 H; cbn [map concat] in H.
  - done.
  - by destruct (Hne po2 e2 (concat (map (profile_bytes po2) t2))).
  - by destruct (Hne po1 e1 (concat (map (profile_bytes po1) t1))).
  - unfold profile_bytes at 1 3 in H. rewrite <- !app_assoc in H.
    destruct (H1 e1 ltac:(by left)) as [Hn1 Hh1], (H2 e2 ltac:(by left)) as [Hn2 Hh2].
    apply zstr_inj in H as [En H]; [|done..]. apply int_inj in H as [Eh H]. rewrite !wrapU_id in Eh by done.
    cbn. unfold profile_key at 1 3. cbn in En. rewrite En, Eh. f_equal. apply IH; [intros e He; apply H1; by right|intros e He; apply H2; by right|done].
Qed.

Lemma cluster_key_inj po1 po2 b1 b2 : keyable po1 b1 -> keyable po2 b2 -> cluster_key_bytes po1 b1 = cluster_key_bytes po2 b2 ->
  Forall (same_field b1 b2) key_fields /\ map (profile_key po1) (execution_profiles b1) = map (profile_key po2) (execution_profiles b2).
Proof.
  intros K1 K2 H. unfold cluster_key_bytes in H. apply app_inv_head in H. eapply fields_inj in H as [Hf H]; [|exact K1|exact K2].
  split; [done|]. eapply profiles_inj; [apply (key_names _ _ K1)|apply (key_names _ _ K2)|exact H].
Qed.

(** ** What a cached cluster serves *)

(** The driver's cluster holds every setting of the builder but its SSL options, its retry policy and
    its timestamp generator. *)
Record serves (po : nat -> execution_profile) (b : builder) (c : CassCluster) : Prop := {
  serves_cfg : forall f, cfg c f = built_cfg b f;
  serves_contacts : contacts c = explode (safe (strs b contact_points)) [];
  serves_filters : forall l, filters c l = match strs b (filter_field l) with Some s => explode s [] | None => [] end;
  serves_credentials : credentials c = match strs b username with Some user => Some (user, safe (strs b password)) | None => None end;
  serves_lb : lb c = built_lb b;
  serves_reconnect : reconnect c = reconnect_of b;
  serves_speculative :
    speculative c = match speculative_delay b with Some d => ConstantSpeculativeExecution d (ints b speculative_execution_max) | None => NoSpeculativeExecution end;
  serves_address : local_addr c = match strs b local_address with None => Some (bs "0.0.0.0") | Some [] => None | Some s => Some s end;
  serves_app : app_name c = safe (strs b application_name) /\ app_version c = safe (strs b application_version);
  serves_profiles : profiles c = fold_left (fun t e => set_profile e.1 (profile (po e.2)) t) (execution_profiles b) []
}.

Lemma configured_serves po b c : configured po b c -> serves po b c.
Proof. intros [? ? ? ? ? ? ? ? ? ? ?]. by split. Qed.

(** Profiles with one fingerprint have one configuration. *)
Definition profiles_sound (po1 po2 : nat -> execution_profile) (b1 b2 : builder) : Prop :=
  forall e1 e2, e1 ∈ execution_profiles b1 -> e2 ∈ execution_profiles b2 ->
  config_hash (po1 e1.2) = config_hash (po2 e2.2) -> profile (po1 e1.2) = profile (po2 e2.2).

Lemma filter_default b l : match strs b (filter_field l) with Some s => explode s [] | None => [] end = explode (default [] (strs b (filter_field l))) [].
Proof. by destruct (strs b (filter_field l)). Qed.

Lemma option_default_inj (o1 o2 : option bytes) : o1 <> Some [] -> o2 <> Some [] -> default [] o1 = default [] o2 -> o1 = o2.
Proof. destruct o1 as [[|]|], o2 as [[|]|]; cbn; intros; simplify_eq; done. Qed.

Lemma fold_profiles_same po1 po2 t1 : forall t2 t, map (profile_key po1) t1 = map (profile_key po2) t2 ->
  (forall e1 e2, e1 ∈ t1 -> e2 ∈ t2 -> config_hash (po1 e1.2) = config_hash (po2 e2.2) -> profile (po1 e1.2) = profile (po2 e2.2)) ->
  fold_left (fun t e => set_profile e.1 (profile (po1 e.2)) t) t1 t = fold_left (fun t e => set_profile e.1 (profile (po2 e.2)) t) t2 t.
Proof.
  induction t1 as [|e1 t1 IH]; intros [|e2 t2] t H Hs; cbn in H; try done. injection H as En Eh Et. cbn.
  rewrite (Hs e1 e2) by (try (by left); done). rewrite En. apply IH; [done|]. intros x1 x2 H1 H2. apply Hs; by right.
Qed.

Section agreement.
Context (po1 po2 : nat -> execution_profile) (b1 b2 : builder) (K1 : keyable po1 b1) (K2 : keyable po2 b2).
Context (Hf : Forall (same_field b1 b2) key_fields).
Context (Hp : map (profile_key po1) (execution_profiles b1) = map (profile_key po2) (execution_profiles b2)).
Context (Hs : profiles_sound po1 po2 b1 b2).

Lemma same_str s : default [] (strs b1 s) = default [] (strs b2 s).
Proof. pose proof (proj1 (Forall_forall _ _) Hf (inl s)) as H. apply H. destruct s; apply (bool_decide_eq_true_1 (_ ∈ key_fields)); by vm_compute. Qed.

Lemma same_int i : i <> default_consistency -> i <> default_page_size -> i <> persist -> ints b1 i = ints b2 i.
Proof. intros. pose proof (proj1 (Forall_forall _ _) Hf (inr i)) as H'. apply H'. destruct i; try done; apply (bool_decide_eq_true_1 (_ ∈ key_fields)); by vm_compute. Qed.

Lemma same_serves c : serves po1 b1 c -> serves po2 b2 c.
Proof.
  intros [H1 H2 H3 H4 H5 H6 H7 H8 H9 H10].
  assert (strs b1 username = strs b2 username) as Eu by (apply option_default_inj; [apply (key_user _ _ K1)|apply (key_user _ _ K2)|apply same_str]).
  assert (strs b1 local_address = strs b2 local_address) as Ea by (apply option_default_inj; [apply (key_address _ _ K1)|apply (key_address _ _ K2)|apply same_str]).
  split.
  - intros f. rewrite H1. destruct f; cbn; by rewrite !same_int.
  - rewrite H2. unfold safe. by rewrite same_str.
  - intros l. by rewrite H3, !filter_default, same_str.
  - rewrite H4, Eu. unfold safe. by rewrite same_str.
  - rewrite H5. unfold built_lb, safe. by rewrite !same_str, !same_int.
  - rewrite H6. unfold reconnect_of. by rewrite !same_int.
  - rewrite H7. unfold speculative_delay. by rewrite !same_int.
  - by rewrite H8, Ea.
  - destruct H9 as [-> ->]. unfold safe. by rewrite !same_str.
  - rewrite H10. by apply fold_profiles_same.
Qed.
End agreement.

(** ** The persistent list and the cluster objects *)

(** A cluster is its handle; a session or a statement is of another type. *)
Inductive resource := RCluster (h : nat) | ROther.

Record cluster_object : Type := {
  obj_persist : bool;
  obj_cluster : nat;
  obj_key : Z;
  obj_consistency : Z;
  obj_page_size : Z;
  obj_timeout : option double
}.

(** The driver's clusters that are allocated, [EG(persistent_list)], the module's counter, the PHP
    objects. *)
Record world : Type := {
  live : gmap nat CassCluster;
  plist : gmap Z resource;
  persistent_clusters : Z;
  next : nat;
  objects : gmap nat cluster_object;
  next_object : nat
}.

Definition php_scylladb_persistent_can_cache (limit used : Z) : bool := (limit <? 0) || (used <? limit).

Section world.
Context (is_valid_and_resolved : bytes -> bool) (max_clusters : Z).

Definition new_object (b : builder) (p : bool) (h : nat) (key : Z) : cluster_object :=
  {| obj_persist := p; obj_cluster := h; obj_key := key; obj_consistency := ints b default_consistency;
     obj_page_size := ints b default_page_size; obj_timeout := default_timeout b |}.

(** The lookup of [build]: an entry of the list that is a cluster. *)
Definition cached (w : world) (key : Z) : option nat := match plist w !! key with Some (RCluster h) => Some h | _ => None end.

Definition Builder_build (po : nat -> execution_profile) (b : builder) (w : world) : option CassError * world :=
  let wants := negb (ints b persist =? 0) in
  let key := if wants then cluster_cache_key po b else 0 in
  match (if wants then cached w key else None) with
  | Some h =>
      (None, {| live := live w; plist := plist w; persistent_clusters := persistent_clusters w; next := next w;
                objects := <[next_object w := new_object b true h key]> (objects w); next_object := S (next_object w) |})
  | None =>
      let p := wants && php_scylladb_persistent_can_cache max_clusters (persistent_clusters w) in
      let h := next w in
      match build_calls is_valid_and_resolved po b cass_cluster_new with
      | (Some rc, c) =>
          (* the object goes away with the exception: its destructor frees the cluster unless it persists *)
          (Some rc, {| live := if p then <[h := c]> (live w) else live w; plist := plist w; persistent_clusters := persistent_clusters w;
                       next := S h; objects := objects w; next_object := S (next_object w) |})
      | (None, c) =>
          (None, {| live := <[h := c]> (live w); plist := if p then <[key := RCluster h]> (plist w) else plist w;
                    persistent_clusters := if p then wrapU 32 (persistent_clusters w + 1) else persistent_clusters w; next := S h;
                    objects := <[next_object w := new_object b p h key]> (objects w); next_object := S (next_object w) |})
      end
  end.

Definition php_scylladb_default_cluster_free (i : nat) (w : world) : world :=
  match objects w !! i with
  | None => w
  | Some o =>
      {| live := if obj_persist o then live w else delete (obj_cluster o) (live w); plist := plist w; persistent_clusters := persistent_clusters w;
         next := next w; objects := delete i (objects w); next_object := next_object w |}
  end.

Definition empty_world : world :=
  {| live := ∅; plist := ∅; persistent_clusters := 0; next := 0; objects := ∅; next_object := 0 |}.

(** The builders a program builds with, and the clusters objects it drops, in any order. *)
Inductive reachable (U : (nat -> execution_profile) -> builder -> Prop) : world -> Prop :=
| reachable_empty : reachable U empty_world
| reachable_build po b w : reachable U w -> U po b -> reachable U (Builder_build po b w).2
| reachable_free i w : reachable U w -> reachable U (php_scylladb_default_cluster_free i w).

(** ** The invariant *)

Definition cluster_entry (e : Z * resource) : Prop := match e.2 with RCluster _ => True | ROther => False end.

#[local] Instance cluster_entry_dec e : Decision (cluster_entry e).
Proof. destruct e as [k []]; [left|right]; cbn; tauto. Defined.

Definition entries (w : world) : nat := size (filter cluster_entry (plist w)).

Record world_ok (U : (nat -> execution_profile) -> builder -> Prop) (w : world) : Prop := {
  ok_live : forall h, is_Some (live w !! h) -> (h < next w)%nat;
  ok_entry : forall k h, plist w !! k = Some (RCluster h) ->
    exists po b c, U po b /\ cluster_cache_key po b = k /\ live w !! h = Some c /\ configured po b c;
  ok_object : forall i o, objects w !! i = Some o -> (i < next_object w)%nat /\ is_Some (live w !! obj_cluster o);
  ok_private : forall i o, objects w !! i = Some o -> obj_persist o = false ->
    (forall k, plist w !! k <> Some (RCluster (obj_cluster o))) /\
    (forall j o', objects w !! j = Some o' -> obj_cluster o' = obj_cluster o -> j = i);
  ok_count : persistent_clusters w = wrapU 32 (Z.of_nat (entries w));
  ok_bound : 0 <= max_clusters < 2 ^ 32 -> Z.of_nat (entries w) <= max_clusters
}.

Lemma empty_ok U : world_ok U empty_world.
Proof.
  split; cbn.
  - intros h [? H]. by rewrite lookup_empty in H.
  - intros k h H. by rewrite lookup_empty in H.
  - intros i o H. by rewrite lookup_empty in H.
  - intros i o H. by rewrite lookup_empty in H.
  - done.
  - unfold entries. cbn. rewrite map_filter_empty, map_size_empty. lia.
Qed.

Lemma free_ok U i w : world_ok U w -> world_ok U (php_scylladb_default_cluster_free i w).
Proof.
  intros [H1 H2 H3 H4 H5 H6]. unfold php_scylladb_default_cluster_free. destruct (objects w !! i) as [o|] eqn:Eo; [|by split].
  destruct (obj_persist o) eqn:Ep.
  - split; cbn; try done.
    + intros j o' [Hj H]%lookup_delete_Some. by apply H3.
    + intros j o' [Hj H]%lookup_delete_Some Hp. destruct (H4 j o' H Hp) as [Ha Hb]. split; [done|].
      intros j' o'' [_ H']%lookup_delete_Some. by apply Hb.
  - destruct (H4 i o Eo Ep) as [Hn Hu]. split; cbn; try done.
    + intros h [c [_ Hc]%lookup_delete_Some]. apply H1. by exists c.
    + intros k h Hk. destruct (H2 k h Hk) as (po & b & c & HU & Hkey & Hc & Hcf). exists po, b, c. split_and!; try done.
      rewrite lookup_delete_ne; [done|]. intros E. apply (Hn k). by rewrite E.
    + intros j o' [Hj H]%lookup_delete_Some. destruct (H3 j o' H) as [Hlt [c Hc]]. split; [done|]. exists c. rewrite lookup_delete_ne; [done|].
      intros E. apply Hj. symmetry. by eapply Hu.
    + intros j o' [Hj H]%lookup_delete_Some Hp. destruct (H4 j o' H Hp) as [Ha Hb]. split; [done|].
      intros j' o'' [_ H']%lookup_delete_Some. by apply Hb.
Qed.

(** The object of a hit shares the cluster of the entry. *)
Lemma hit_ok U b key h w : world_ok U w -> cached w key = Some h ->
  world_ok U {| live := live w; plist := plist w; persistent_clusters := persistent_clusters w; next := next w;
                objects := <[next_object w := new_object b true h key]> (objects w); next_object := S (next_object w) |}.
Proof.
  intros [H1 H2 H3 H4 H5 H6] Hc. unfold cached in Hc. destruct (plist w !! key) as [[h'|]|] eqn:Ek; simplify_eq.
  destruct (H2 key h Ek) as (po & b' & c & _ & _ & Hl & _). split; cbn; try done.
  - intros i o [[<- <-]|[Hi H]]%lookup_insert_Some; [split; [lia|by exists c]|]. destruct (H3 i o H). split; [lia|done].
  - intros i o [[<- <-]|[Hi H]]%lookup_insert_Some Hp; [done|]. destruct (H4 i o H Hp) as [Ha Hb]. split; [done|].
    intros j o' [[<- <-]|[Hj H']]%lookup_insert_Some E; [|by eapply Hb]. cbn in E. subst h. by destruct (Ha key).
Qed.

Lemma entries_insert w key h : cached w key = None -> size (filter cluster_entry (<[key := RCluster h]> (plist w))) = S (entries w).
Proof.
  intros Hc. rewrite map_filter_insert_True by done. rewrite map_size_insert_None; [done|]. apply map_lookup_filter_None. unfold cached in Hc.
  destruct (plist w !! key) as [[h'|]|] eqn:Ek; [done| |by left]. right. intros x Hx. simplify_eq. by intros [].
Qed.

(** A cluster that was just configured, kept for later or owned by its object. *)
Lemma miss_ok U po b p w key c : world_ok U w -> U po b -> (p = true -> key = cluster_cache_key po b /\ cached w key = None) ->
  (p = true -> php_scylladb_persistent_can_cache max_clusters (persistent_clusters w) = true) -> configured po b c ->
  world_ok U {| live := <[next w := c]> (live w); plist := if p then <[key := RCluster (next w)]> (plist w) else plist w;
                persistent_clusters := if p then wrapU 32 (persistent_clusters w + 1) else persistent_clusters w; next := S (next w);
                objects := <[next_object w := new_object b p (next w) key]> (objects w); next_object := S (next_object w) |}.
Proof.
  intros [H1 H2 H3 H4 H5 H6] HU Hkey Hcan Hconf.
  assert (live w !! next w = None) as Hfresh. { destruct (live w !! next w) eqn:E; [|done]. exfalso. specialize (H1 (next w) ltac:(by eexists)). lia. }
  assert (forall k, plist w !! k <> Some (RCluster (next w))) as Hnew.
  { intros k Hk. destruct (H2 _ _ Hk) as (po' & b' & c' & _ & _ & Hl & _). congruence. }
  assert (forall i o, objects w !! i = Some o -> obj_cluster o <> next w) as Hobj.
  { intros i o Ho E. destruct (H3 i o Ho) as [_ [c' Hc']]. congruence. }
  split; cbn.
  - intros h [c' [[<- <-]|[_ Hl]]%lookup_insert_Some]; [lia|]. specialize (H1 h ltac:(by eexists)). lia.
  - intros k h Hk. destruct p.
    + destruct (Hkey eq_refl) as [-> _]. apply lookup_insert_Some in Hk as [[<- E]|[_ Hk]].
      * injection E as <-. exists po, b, c. split_and!; try done. by rewrite lookup_insert_eq.
      * destruct (H2 k h Hk) as (po' & b' & c' & HU' & Hk' & Hl & Hc'). exists po', b', c'. split_and!; try done. rewrite lookup_insert_ne; [done|congruence].
    + destruct (H2 k h Hk) as (po' & b' & c' & HU' & Hk' & Hl & Hc'). exists po', b', c'. split_and!; try done. rewrite lookup_insert_ne; [done|congruence].
  - intros i o [[<- <-]|[_ Ho]]%lookup_insert_Some; [split; [lia|]; exists c; cbn; by rewrite lookup_insert_eq|].
    destruct (H3 i o Ho) as [Hi [c' Hc']]. split; [lia|]. exists c'. rewrite lookup_insert_ne; [done|congruence].
  - intros i o Ho Hp. apply lookup_insert_Some in Ho as [[<- <-]|[Hi Ho]].
    + cbn in Hp. subst p. split; [done|]. intros j o' [[<- _]|[_ Ho']]%lookup_insert_Some E; [done|]. cbn in E. by destruct (Hobj j o' Ho').
    + destruct (H4 i o Ho Hp) as [Ha Hb]. split.
      * intros k Hk. destruct p; [|by apply (Ha k)]. apply lookup_insert_Some in Hk as [[_ E]|[_ Hk]]; [|by apply (Ha k)].
        injection E as E. by destruct (Hobj i o Ho).
      * intros j o' [[<- <-]|[_ Ho']]%lookup_insert_Some E; [|by eapply Hb]. cbn in E. by destruct (Hobj i o Ho).
  - destruct p; [|done]. destruct (Hkey eq_refl) as [_ Hc]. unfold entries. cbn. rewrite entries_insert, H5 by done. unfold wrapU. rewrite Zplus_mod_idemp_l. f_equal. lia.
  - intros Hm. specialize (H6 Hm). unfold entries at 1. cbn. destruct p; [|done]. destruct (Hkey eq_refl) as [_ Hc]. rewrite entries_insert by done.
    specialize (Hcan eq_refl). unfold php_scylladb_persistent_can_cache in Hcan. rewrite H5, wrapU_id in Hcan by (unfold in_u; lia). lia.
Qed.

(** A build that throws leaves the objects and the list. *)
Lemma thrown_ok U p w c : world_ok U w ->
  world_ok U {| live := if p : bool then <[next w := c]> (live w) else live w; plist := plist w; persistent_clusters := persistent_clusters w;
                next := S (next w); objects := objects w; next_object := S (next_object w) |}.
Proof.
  intros [H1 H2 H3 H4 H5 H6].
  assert (live w !! next w = None) as Hfresh. { destruct (live w !! next w) eqn:E; [|done]. exfalso. specialize (H1 (next w) ltac:(by eexists)). lia. }
  assert (forall h c', live w !! h = Some c' -> (if p then <[next w := c]> (live w) else live w) !! h = Some c') as Hkeep.
  { intros h c' Hl. destruct p; [|done]. rewrite lookup_insert_ne; [done|congruence]. }
  split; cbn; try done.
  - intros h [c' Hl]. destruct p.
    + apply lookup_insert_Some in Hl as [[<- _]|[_ Hl]]; [lia|]. specialize (H1 h ltac:(by eexists)). lia.
    + specialize (H1 h ltac:(by eexists)). lia.
  - intros k h Hk. destruct (H2 k h Hk) as (po & b & c' & HU & Hk' & Hl & Hc'). exists po, b, c'. split_and!; try done. by apply Hkeep.
  - intros i o Ho. destruct (H3 i o Ho) as [Hi [c' Hc']]. split; [lia|]. exists c'. by apply Hkeep.
Qed.

Lemma build_ok U po b w : world_ok U w -> U po b -> world_ok U (Builder_build po b w).2.
Proof.
  intros Hw HU. unfold Builder_build. cbv zeta. destruct (negb (ints b persist =? 0)) eqn:Ew.
  - destruct (cached w (cluster_cache_key po b)) as [h|] eqn:Ec; [by apply hit_ok|].
    pose proof (build_outcome_cases is_valid_and_resolved po b) as H. destruct (build_calls _ _ _ _) as [[e|] c]; cbn [andb snd].
    + by apply thrown_ok.
    + destruct (first_error _); [by destruct H|]. destruct H as (c' & [= <-] & Hc). apply (miss_ok U po b); done.
  - pose proof (build_outcome_cases is_valid_and_resolved po b) as H. destruct (build_calls _ _ _ _) as [[e|] c]; cbn [andb snd].
    + by apply (thrown_ok U false).
    + destruct (first_error _); [by destruct H|]. destruct H as (c' & [= <-] & Hc). by apply (miss_ok U po b false).
Qed.

Lemma reachable_ok U w : reachable U w -> world_ok U w.
Proof. induction 1; [apply empty_ok|by apply build_ok|by apply free_ok]. Qed.
End world.

(** The builders of a program: their strings survive the fingerprint, FNV-1a does not collide on
    them, and the fingerprints of their profiles are sound. *)
Record separated (U : (nat -> execution_profile) -> builder -> Prop) : Prop := {
  sep_keyable : forall po b, U po b -> keyable po b;
  sep_hash : forall po1 b1 po2 b2, U po1 b1 -> U po2 b2 -> no_collision (cluster_key_bytes po1 b1) (cluster_key_bytes po2 b2);
  sep_profiles : forall po1 b1 po2 b2, U po1 b1 -> U po2 b2 -> profiles_sound po1 po2 b1 b2
}.

(** A cached cluster under the key of a builder serves that builder. *)
Lemma cached_serves U max_clusters w po b h : separated U -> world_ok max_clusters U w -> U po b -> cached w (cluster_cache_key po b) = Some h ->
  exists c, live w !! h = Some c /\ serves po b c.
Proof.
  intros [Hk Hh Hp] Hw HU Hc. unfold cached in Hc. destruct (plist w !! cluster_cache_key po b) as [[h'|]|] eqn:Ek; simplify_eq.
  destruct (ok_entry _ _ _ Hw _ _ Ek) as (po' & b' & c & HU' & Hkey & Hl & Hconf). exists c. split; [done|].
  rewrite !cluster_key_hash in Hkey. apply (Hh _ _ _ _ HU' HU) in Hkey. apply cluster_key_inj in Hkey as [Hf Hpk]; [|by apply Hk..].
  apply (same_serves po' po b' b); try done; [by apply Hk|by apply Hk|by apply Hp|by apply configured_serves].
Qed.

(** C17: A persistent cluster is as good as a fresh one.  In every state a program reaches by building
    clusters and dropping cluster objects, with any persistence settings and any cap on the number of
    persistent clusters, the driver's cluster behind every object is allocated, and a [build] that
    returns gives an object with the builder's consistency and page size whose cluster holds every
    setting of the builder except its SSL options, retry policy and timestamp generator, whether it
    was configured now or comes from the persistent list; a [build] that throws does so with the code
    of the first check that fails, and only when no cluster was cached.  The hypotheses on the
    program's builders are that no hashed string has a NUL, user names are not empty, FNV-1a does not
    collide on them, and profiles with one fingerprint have one configuration. *)
Theorem persistent_cluster_serves (is_valid_and_resolved : bytes -> bool) (max_clusters : Z)
    (U : (nat -> execution_profile) -> builder -> Prop) (w : world) (po : nat -> execution_profile) (b : builder) :
  separated U -> reachable is_valid_and_resolved max_clusters U w -> U po b ->
  (forall i o, objects w !! i = Some o -> is_Some (live w !! obj_cluster o)) /\
  match Builder_build is_valid_and_resolved max_clusters po b w with
  | (None, w') => exists o c, objects w' !! next_object w = Some o /\ live w' !! obj_cluster o = Some c /\ serves po b c /\
      obj_consistency o = ints b default_consistency /\ obj_page_size o = ints b default_page_size
  | (Some e, w') => first_error (build_checks is_valid_and_resolved b) = Some e /\ objects w' = objects w /\
      (ints b persist <> 0 -> cached w (cluster_cache_key po b) = None)
  end.
Proof.
  intros Hsep Hr HU. apply reachable_ok in Hr as Hw. split; [intros i o Ho; by destruct (ok_object _ _ _ Hw i o Ho)|].
  pose proof (build_outcome_cases is_valid_and_resolved po b) as H. unfold Builder_build. cbv zeta.
  destruct (Z.eqb_spec (ints b persist) 0) as [E|E]; cbn [negb].
  - destruct (build_calls _ _ _ _) as [[e|] c]; cbn [andb]; destruct (first_error _); destruct H as [c' H]; simplify_eq.
    + split_and!; done.
    + by destruct H.
    + destruct H as [[= <-] Hc]. eexists _, c. cbn. rewrite lookup_insert_eq. split; [done|]. cbn. rewrite lookup_insert_eq.
      split; [done|]. split; [by apply configured_serves|done].
  - destruct (cached w (cluster_cache_key po b)) as [h|] eqn:Ec.
    + destruct (cached_serves _ _ _ _ _ _ Hsep Hw HU Ec) as (c & Hl & Hs). eexists _, c. cbn. rewrite lookup_insert_eq. split_and!; done.
    + destruct (build_calls _ _ _ _) as [[e|] c]; cbn [andb]; destruct (first_error _); destruct H as [c' H]; simplify_eq.
      * split_and!; done.
      * by destruct H.
      * destruct H as [[= <-] Hc]. eexists _, c. cbn. rewrite lookup_insert_eq. split; [done|]. cbn. rewrite lookup_insert_eq.
        split; [done|]. split; [by apply configured_serves|done].
Qed.

(** ** Examples *)

Definition example_ini : ini := register_ini_entries ZEND_STRTOL strtol_bool some_php_ini.
Definition plain_builder : builder := php_scylladb_cluster_builder_new example_ini.
Definition ssl_builder : builder := set_ssl_options (Some 7%nat) plain_builder.
Definition no_profiles (_ : nat) : execution_profile := php_scylladb_execution_profile_new.

Definition two_builders (po : nat -> execution_profile) (b : builder) : Prop := po = no_profiles /\ (b = plain_builder \/ b = ssl_builder).

Lemma two_builders_separated : separated two_builders.
Proof.
  assert (forall b, b = plain_builder \/ b = ssl_builder -> keyable no_profiles b) as Hk.
  { intros b [-> | ->]; (split; [intros i; destruct i; cbn; unfold in_u, in_s; by vm_compute| |by intros e He; apply elem_of_nil in He|done|done]);
      intros s; destruct s; apply (bool_decide_eq_true_1 (~ _)); by vm_compute. }
  split.
  - intros po b [-> Hb]. by apply Hk.
  - intros po1 b1 po2 b2 [-> [-> | ->]] [-> [-> | ->]] _; done.
  - intros po1 b1 po2 b2 [-> [-> | ->]] [-> [-> | ->]] e1 e2 He; by apply elem_of_nil in He.
Qed.

Definition always_resolves (_ : bytes) : bool := true.

Definition after_plain : world := (Builder_build always_resolves 16 no_profiles plain_builder empty_world).2.

Lemma after_plain_reachable : reachable always_resolves 16 two_builders after_plain.
Proof. apply reachable_build; [apply reachable_empty|]. split; [done|by left]. Qed.

(** The builder with SSL options gets the cluster without them. *)
Lemma persistent_cluster_serves_witness :
  exists w' o c, Builder_build always_resolves 16 no_profiles ssl_builder after_plain = (None, w') /\ objects w' !! 1%nat = Some o /\
    live w' !! obj_cluster o = Some c /\ serves no_profiles ssl_builder c.
Proof.
  destruct (persistent_cluster_serves always_resolves 16 two_builders after_plain no_profiles ssl_builder two_builders_separated after_plain_reachable
    (conj eq_refl (or_intror eq_refl))) as [_ H].
  destruct (Builder_build always_resolves 16 no_profiles ssl_builder after_plain) as [[e|] w'] eqn:E.
  - exfalso. clear H. assert ((Builder_build always_resolves 16 no_profiles ssl_builder after_plain).1 = None) as E1 by (by vm_compute). by rewrite E in E1.
  - destruct H as (o & c & Ho & Hl & Hs & _). exists w', o, c. split; [reflexivity|]. split; [exact Ho|]. split; [exact Hl|exact Hs].
Defined.

Lemma ssl_options_lost :
  let '(e, w) := Builder_build always_resolves 16 no_profiles ssl_builder after_plain in
  e = None /\ ssl_options ssl_builder = Some 7%nat /\
  match objects w !! 1%nat with Some o => match live w !! obj_cluster o with Some c => ssl_context c = None | None => False end | None => False end.
Proof. by vm_compute. Qed.

(** A NUL moves the boundary between the user name and the password. *)
Lemma credentials_alias :
  let b1 := set_str password (Some (bs "c")) (set_str username (Some [97; 0; 98]) plain_builder) in
  let b2 := set_str password (Some [98; 0; 99]) (set_str username (Some (bs "a")) plain_builder) in
  cluster_cache_key no_profiles b1 = cluster_cache_key no_profiles b2.
Proof. by vm_compute. Qed.

(** A build that throws with persistence on leaves its cluster allocated: no object has it, the list
    does not, and nothing will free it. *)
Lemma failed_build_leaks :
  let '(e, w) := Builder_build always_resolves 16 no_profiles (set_int protocol_version 5 plain_builder) empty_world in
  e = Some CASS_ERROR_LIB_BAD_PARAMS /\ is_Some (live w !! 0%nat) /\ objects w = ∅ /\ plist w = ∅.
Proof. vm_compute. split; [done|]. split; [by eexists|done]. Qed.

(** The number of persistent clusters is bounded.  In every reachable state the module's counter is
    the number of clusters in the persistent list (modulo its 32 bits), and with a cap of
    [max_persistent_clusters] from 0 to 2^32 - 1 neither exceeds the cap; a cap of 0 keeps none. *)
Theorem persistent_clusters_capped (is_valid_and_resolved : bytes -> bool) (max_clusters : Z) (U : (nat -> execution_profile) -> builder -> Prop) (w : world) :
  reachable is_valid_and_resolved max_clusters U w ->
  persistent_clusters w = wrapU 32 (Z.of_nat (entries w)) /\
  (0 <= max_clusters < 2 ^ 32 -> persistent_clusters w = Z.of_nat (entries w) /\ Z.of_nat (entries w) <= max_clusters).
Proof.
  intros Hr%reachable_ok. split; [apply (ok_count _ _ _ Hr)|]. intros Hm. pose proof (ok_bound _ _ _ Hr Hm). split; [|done].
  rewrite (ok_count _ _ _ Hr). apply wrapU_id. unfold in_u. lia.
Qed.

Lemma persistent_clusters_capped_witness : reachable always_resolves 16 two_builders after_plain /\ persistent_clusters after_plain = 1 /\ Z.of_nat (entries after_plain) <= 16.
Proof.
  split; [exact after_plain_reachable|]. split; [by vm_compute|].
  refine (proj2 (proj2 (persistent_clusters_capped always_resolves 16 two_builders after_plain after_plain_reachable) _)). lia.
Defined.
