(* ===== verification/Sessions.v ===== *)
(** Sessions ([Cluster/DefaultCluster.c], [FutureSession.c], [FutureUtil.c], the destructors of
    [DefaultSession.c] and [php_scylladb.c]): who owns the driver's sessions and futures, and who may
    still touch them.

    A [CassSession] or [CassFuture] is a handle; touching or freeing one that is not allocated is a
    fault, the result [None].  What the driver does is an input: a wait takes the code the future
    resolves with, or nothing when it times out (or the timeout is refused). *)
From S2P Require Import Prelude DriverErrors CacheKey ClusterBuilder PersistentCluster.
From stdpp Require Import gmap.
Open Scope Z_scope.

(** ** State *)

Inductive future_state := Pending | Resolved (rc : CassError).

(** [php_scylladb_psession] *)
Record psession : Type := { ps_session : nat; ps_future : nat }.

(** [php_scylladb_session], with the references to it. *)
Record session_object : Type := {
  so_persist : bool;
  so_session : nat;
  so_key : Z;
  so_keyspace : option bytes;
  so_consistency : Z;
  so_page_size : Z;
  so_refs : nat
}.

(** [php_scylladb_future_session] *)
Record future_session : Type := {
  fo_persist : bool;
  fo_session : option nat;
  fo_future : option nat;
  fo_key : Z;
  fo_keyspace : option bytes;
  fo_consistency : Z;
  fo_page_size : Z;
  fo_default_session : option nat;
  fo_exception : option CassError
}.

Record state : Type := {
  (** the driver's sessions, with the cluster and the keyspace they connect to *)
  sessions : gmap nat (nat * option bytes);
  futures : gmap nat future_state;
  entries_of : gmap Z psession;
  persistent_sessions : Z;
  session_objects : gmap nat session_object;
  future_objects : gmap nat future_session;
  fresh : nat
}.

Definition set_driver (ss : gmap nat (nat * option bytes)) (fs : gmap nat future_state) (w : state) : state :=
  {| sessions := ss; futures := fs; entries_of := entries_of w; persistent_sessions := persistent_sessions w; session_objects := session_objects w;
     future_objects := future_objects w; fresh := fresh w |}.
Definition set_entries (es : gmap Z psession) (n : Z) (w : state) : state :=
  {| sessions := sessions w; futures := futures w; entries_of := es; persistent_sessions := n; session_objects := session_objects w;
     future_objects := future_objects w; fresh := fresh w |}.
Definition set_objects (os : gmap nat session_object) (fs : gmap nat future_session) (w : state) : state :=
  {| sessions := sessions w; futures := futures w; entries_of := entries_of w; persistent_sessions := persistent_sessions w; session_objects := os;
     future_objects := fs; fresh := fresh w |}.
Definition bump (w : state) : state :=
  {| sessions := sessions w; futures := futures w; entries_of := entries_of w; persistent_sessions := persistent_sessions w;
     session_objects := session_objects w; future_objects := future_objects w; fresh := S (fresh w) |}.

(** ** The driver *)

Definition cass_future_free (f : nat) (w : state) : option state :=
  match futures w !! f with Some _ => Some (set_driver (sessions w) (delete f (futures w)) w) | None => None end.
Definition cass_session_free (s : nat) (w : state) : option state :=
  match sessions w !! s with Some _ => Some (set_driver (delete s (sessions w)) (futures w) w) | None => None end.

(** [php_scylladb_session_dtor] *)
Definition php_scylladb_session_dtor (ps : psession) (w : state) : option state :=
  w ← cass_future_free (ps_future ps) w; w ← cass_session_free (ps_session ps) w;
  Some (set_entries (entries_of w) (wrapU 32 (persistent_sessions w - 1)) w).

(** [zend_hash_index_del]: whether there was an entry. *)
Definition zend_hash_index_del (key : Z) (w : state) : option (bool * state) :=
  match entries_of w !! key with
  | None => Some (false, w)
  | Some ps => w ← php_scylladb_session_dtor ps (set_entries (delete key (entries_of w)) (persistent_sessions w) w); Some (true, w)
  end.

(** [php_scylladb_future_wait_timed] and the code of [cass_future_error_code]: [inl] when the wait fails. *)
Definition php_scylladb_future_wait_timed (f : nat) (wait : option CassError) (w : state) : option ((unit + CassError) * state) :=
  match futures w !! f with
  | None => None
  | Some (Resolved rc) => Some (inr rc, w)
  | Some Pending =>
      match wait with
      | None => Some (inl tt, w)
      | Some rc => Some (inr rc, set_driver (sessions w) (<[f := Resolved rc]> (futures w)) w)
      end
  end.

(** ** Operations *)

Definition session_cache_key (cluster_key : Z) (keyspace : option bytes) : Z :=
  php_scylladb_cache_key_mix_cstr (php_scylladb_cache_key_mix_cstr (php_scylladb_cache_key_mix_ulong php_scylladb_cache_key_init cluster_key) (Some (bs ":session:")))
    (Some (default [] keyspace)).

Section operations.
Context (max_sessions : Z).

(** [cass_session_new] and [cass_session_connect]: a session and its future. *)
Definition cass_session_connect (cluster : nat) (keyspace : option bytes) (w : state) : nat * state :=
  (fresh w, bump (set_driver (<[fresh w := (cluster, keyspace)]> (sessions w)) (<[fresh w := Pending]> (futures w)) w)).

(** The cached session, or a new one that is kept when there is room; with whether it persists. *)
Definition find_or_connect (cl : cluster_object) (keyspace : option bytes) (key : Z) (w : state) : bool * psession * state :=
  match (if obj_persist cl then entries_of w !! key else None) with
  | Some ps => (true, ps, w)
  | None =>
      let p := obj_persist cl && php_scylladb_persistent_can_cache max_sessions (persistent_sessions w) in
      let '(n, w1) := cass_session_connect (obj_cluster cl) keyspace w in
      let ps := {| ps_session := n; ps_future := n |} in
      (p, ps, if p then set_entries (<[key := ps]> (entries_of w1)) (wrapU 32 (persistent_sessions w1 + 1)) w1 else w1)
  end.

Definition request_key (cl : cluster_object) (keyspace : option bytes) : Z :=
  if obj_persist cl then session_cache_key (obj_key cl) keyspace else obj_key cl.

Inductive result := Session (i : nat) | Future (i : nat) | Throws (rc : option CassError) | NoSession | Answer (b : bool) | Done.

(** The failure of a wait in [connect]: the entry goes, or the future; then the object that was to be
    returned, with the session it owns. *)
Definition connect_failed (p : bool) (key : Z) (ps : psession) (rc : option CassError) (w : state) : option (result * state) :=
  if p then '(_, w) ← zend_hash_index_del key w; Some (Throws rc, w)
  else w ← cass_future_free (ps_future ps) w; w ← cass_session_free (ps_session ps) w; Some (Throws rc, w).

Definition new_session (p : bool) (s : nat) (key : Z) (keyspace : option bytes) (consistency page_size : Z) (refs : nat) (w : state) : result * state :=
  (Session (fresh w),
   bump (set_objects (<[fresh w := {| so_persist := p; so_session := s; so_key := key; so_keyspace := keyspace; so_consistency := consistency;
                                      so_page_size := wrapS 32 page_size; so_refs := refs |}]> (session_objects w)) (future_objects w) w)).

Definition DefaultCluster_connect (cl : cluster_object) (keyspace : option bytes) (wait : option CassError) (w : state) : option (result * state) :=
  let key := request_key cl keyspace in
  let '(p, ps, w) := find_or_connect cl keyspace key w in
  '(r, w) ← php_scylladb_future_wait_timed (ps_future ps) wait w;
  match r with
  | inl _ => connect_failed p key ps None w
  | inr CASS_OK =>
      w ← (if p then Some w else cass_future_free (ps_future ps) w);
      Some (new_session p (ps_session ps) key keyspace (obj_consistency cl) (obj_page_size cl) 1 w)
  | inr rc => connect_failed p key ps (Some rc) w
  end.

Definition DefaultCluster_connectAsync (cl : cluster_object) (keyspace : option bytes) (w : state) : result * state :=
  let key := request_key cl keyspace in
  let '(p, ps, w) := find_or_connect cl keyspace key w in
  (Future (fresh w),
   bump (set_objects (session_objects w)
     (<[fresh w := {| fo_persist := p; fo_session := Some (ps_session ps); fo_future := Some (ps_future ps); fo_key := key; fo_keyspace := keyspace;
                      fo_consistency := obj_consistency cl; fo_page_size := wrapS 32 (obj_page_size cl); fo_default_session := None; fo_exception := None |}]>
      (future_objects w)) w)).

Definition change_future (j : nat) (f : future_session -> future_session) (w : state) : state :=
  set_objects (session_objects w) (alter f j (future_objects w)) w.

Definition with_session (s : option nat) (o : future_session) : future_session :=
  {| fo_persist := fo_persist o; fo_session := s; fo_future := fo_future o; fo_key := fo_key o; fo_keyspace := fo_keyspace o;
     fo_consistency := fo_consistency o; fo_page_size := fo_page_size o; fo_default_session := fo_default_session o; fo_exception := fo_exception o |}.
Definition with_future (f : option nat) (o : future_session) : future_session :=
  {| fo_persist := fo_persist o; fo_session := fo_session o; fo_future := f; fo_key := fo_key o; fo_keyspace := fo_keyspace o;
     fo_consistency := fo_consistency o; fo_page_size := fo_page_size o; fo_default_session := fo_default_session o; fo_exception := fo_exception o |}.
Definition with_default_session (i : option nat) (o : future_session) : future_session :=
  {| fo_persist := fo_persist o; fo_session := fo_session o; fo_future := fo_future o; fo_key := fo_key o; fo_keyspace := fo_keyspace o;
     fo_consistency := fo_consistency o; fo_page_size := fo_page_size o; fo_default_session := i; fo_exception := fo_exception o |}.
Definition with_exception (rc : option CassError) (o : future_session) : future_session :=
  {| fo_persist := fo_persist o; fo_session := fo_session o; fo_future := fo_future o; fo_key := fo_key o; fo_keyspace := fo_keyspace o;
     fo_consistency := fo_consistency o; fo_page_size := fo_page_size o; fo_default_session := fo_default_session o; fo_exception := rc |}.

(** [zend_hash_index_del] with the future forgotten when there was an entry. *)
Definition drop_entry (j : nat) (key : Z) (w : state) : option state :=
  '(found, w) ← zend_hash_index_del key w; Some (if found : bool then change_future j (with_future None) w else w).

(** The object that was to be returned goes away with the exception. *)
Definition drop_session (p : bool) (s : nat) (w : state) : option state := if p then Some w else cass_session_free s w.

Definition FutureSession_get (j : nat) (wait : option CassError) (w : state) : option (result * state) :=
  match future_objects w !! j with
  | None => Some (Done, w)
  | Some o =>
      match fo_exception o, fo_default_session o, fo_session o, fo_future o with
      | Some rc, _, _, _ => Some (Throws (Some rc), w)
      | None, Some i, _, _ =>
          Some (Session i, set_objects (alter (fun x => {| so_persist := so_persist x; so_session := so_session x; so_key := so_key x; so_keyspace := so_keyspace x;
            so_consistency := so_consistency x; so_page_size := so_page_size x; so_refs := S (so_refs x) |}) i (session_objects w)) (future_objects w) w)
      | None, None, Some s, Some f =>
          let w := if fo_persist o then w else change_future j (with_session None) w in
          '(r, w) ← php_scylladb_future_wait_timed f wait w;
          match r with
          | inl _ =>
              w ← (if fo_persist o && negb (fo_key o =? 0) then drop_entry j (fo_key o) w else Some w);
              w ← drop_session (fo_persist o) s w; Some (Throws None, w)
          | inr CASS_OK =>
              let '(r, w) := new_session (fo_persist o) s (fo_key o) (fo_keyspace o) (fo_consistency o) (fo_page_size o) 2 w in
              Some (r, match r with Session i => change_future j (with_default_session (Some i)) w | _ => w end)
          | inr rc =>
              w ← (if fo_persist o then drop_entry j (fo_key o) (change_future j (with_exception (Some rc)) w) else Some w);
              w ← drop_session (fo_persist o) s w; Some (Throws (Some rc), w)
          end
      | _, _, _, _ => Some (NoSession, w)
      end
  end.

(** [php_scylladb_future_is_ready] reads the future. *)
Definition FutureSession_isReady (j : nat) (w : state) : option (result * state) :=
  match future_objects w !! j with
  | None => Some (Done, w)
  | Some o =>
      match fo_default_session o, fo_exception o, fo_future o with
      | None, None, Some f => match futures w !! f with None => None | Some Pending => Some (Answer false, w) | Some (Resolved _) => Some (Answer true, w) end
      | _, _, _ => Some (Answer true, w)
      end
  end.

(** A reference to a session object goes away; the last one destroys it. *)
Definition release_session (i : nat) (w : state) : option state :=
  match session_objects w !! i with
  | None => Some w
  | Some o =>
      match so_refs o with
      | S (S n) =>
          Some (set_objects (<[i := {| so_persist := so_persist o; so_session := so_session o; so_key := so_key o; so_keyspace := so_keyspace o;
            so_consistency := so_consistency o; so_page_size := so_page_size o; so_refs := S n |}]> (session_objects w)) (future_objects w) w)
      | _ => drop_session (so_persist o) (so_session o) (set_objects (delete i (session_objects w)) (future_objects w) w)
      end
  end.

(** [php_scylladb_future_session_free] *)
Definition php_scylladb_future_session_free (j : nat) (w : state) : option state :=
  match future_objects w !! j with
  | None => Some w
  | Some o =>
      w ← (if fo_persist o then Some w else match fo_future o with Some f => cass_future_free f w | None => Some w end);
      w ← (if fo_persist o then Some w else match fo_session o with Some s => cass_session_free s w | None => Some w end);
      let w := set_objects (session_objects w) (delete j (future_objects w)) w in
      match fo_default_session o with Some i => release_session i w | None => Some w end
  end.
End operations.

(** ** Runs *)

Inductive op :=
| OpConnect (cl : cluster_object) (keyspace : option bytes) (wait : option CassError)
| OpConnectAsync (cl : cluster_object) (keyspace : option bytes)
| OpGet (j : nat) (wait : option CassError)
| OpIsReady (j : nat)
| OpReleaseSession (i : nat)
| OpFreeFuture (j : nat)
| OpResolve (f : nat) (rc : CassError).

(** The driver resolves a future once. *)
Definition driver_resolves (f : nat) (rc : CassError) (w : state) : state :=
  match futures w !! f with Some Pending => set_driver (sessions w) (<[f := Resolved rc]> (futures w)) w | _ => w end.

Definition run_op (max_sessions : Z) (o : op) (w : state) : option (result * state) :=
  match o with
  | OpConnect cl keyspace wait => DefaultCluster_connect max_sessions cl keyspace wait w
  | OpConnectAsync cl keyspace => Some (DefaultCluster_connectAsync max_sessions cl keyspace w)
  | OpGet j wait => FutureSession_get j wait w
  | OpIsReady j => FutureSession_isReady j w
  | OpReleaseSession i => w ← release_session i w; Some (Done, w)
  | OpFreeFuture j => w ← php_scylladb_future_session_free j w; Some (Done, w)
  | OpResolve f rc => Some (Done, driver_resolves f rc w)
  end.

Definition empty_state : state :=
  {| sessions := ∅; futures := ∅; entries_of := ∅; persistent_sessions := 0; session_objects := ∅; future_objects := ∅; fresh := 0 |}.

(** A wait that does not end well. *)
Definition wait_fails (f : nat) (wait : option CassError) (w : state) : Prop :=
  match futures w !! f with
  | Some (Resolved rc) => rc <> CASS_OK
  | _ => wait <> Some CASS_OK
  end.

(** No future object but [except] waits for the entry of a key. *)
Definition nobody_waits (key : Z) (except : option nat) (w : state) : Prop :=
  forall j o, future_objects w !! j = Some o -> Some j <> except -> fo_persist o = true -> fo_key o = key -> fo_future o = None.

(** The operations that give up on a persistent session do so when no other future object waits for it. *)
Definition exclusive (o : op) (w : state) : Prop :=
  match o with
  | OpConnect cl keyspace wait =>
      obj_persist cl = true -> forall ps, entries_of w !! request_key cl keyspace = Some ps -> wait_fails (ps_future ps) wait w ->
      nobody_waits (request_key cl keyspace) None w
  | OpGet j wait =>
      forall x f, future_objects w !! j = Some x -> fo_persist x = true -> fo_future x = Some f -> wait_fails f wait w -> nobody_waits (fo_key x) (Some j) w
  | _ => True
  end.

Inductive reaches (max_sessions : Z) : state -> Prop :=
| reaches_empty : reaches max_sessions empty_state
| reaches_op o w r w' : reaches max_sessions w -> exclusive o w -> run_op max_sessions o w = Some (r, w') -> reaches max_sessions w'.

(** ** The invariant *)

Inductive owner := OEntry (k : Z) | OSession (i : nat) | OFuture (j : nat).

(** A session object borrows the session of an entry that is connected, or owns its own. *)
Definition session_ok (so : nat -> owner) (w : state) (i : nat) (o : session_object) : Prop :=
  if so_persist o
  then exists ps, entries_of w !! so_key o = Some ps /\ ps_session ps = so_session o /\ futures w !! ps_future ps = Some (Resolved CASS_OK)
  else is_Some (sessions w !! so_session o) /\ so (so_session o) = OSession i.

(** A future object borrows its session and future from the entry, or owns its future, and its session
    until [get] hands it over. *)
Definition future_ok (so fo : nat -> owner) (w : state) (j : nat) (o : future_session) : Prop :=
  if fo_persist o
  then forall f, fo_future o = Some f -> exists ps, entries_of w !! fo_key o = Some ps /\ ps_future ps = f /\ fo_session o = Some (ps_session ps)
  else (exists f, fo_future o = Some f /\ is_Some (futures w !! f) /\ fo f = OFuture j) /\
       (forall s, fo_session o = Some s -> is_Some (sessions w !! s) /\ so s = OFuture j).

Record owned (so fo : nat -> owner) (w : state) : Prop := {
  own_sessions : forall s, is_Some (sessions w !! s) -> (s < fresh w)%nat;
  own_futures : forall f, is_Some (futures w !! f) -> (f < fresh w)%nat;
  own_session_ids : forall i, is_Some (session_objects w !! i) -> (i < fresh w)%nat;
  own_future_ids : forall j, is_Some (future_objects w !! j) -> (j < fresh w)%nat;
  own_entries : forall k ps, entries_of w !! k = Some ps ->
    is_Some (sessions w !! ps_session ps) /\ so (ps_session ps) = OEntry k /\ is_Some (futures w !! ps_future ps) /\ fo (ps_future ps) = OEntry k;
  own_session_objects : forall i o, session_objects w !! i = Some o -> session_ok so w i o;
  own_future_objects : forall j o, future_objects w !! j = Some o -> future_ok so fo w j o;
  own_count : persistent_sessions w = wrapU 32 (Z.of_nat (size (entries_of w)))
}.

(** The state without an entry. *)
Definition without_entry (k : Z) (ps : psession) (w : state) : state :=
  {| sessions := delete (ps_session ps) (sessions w); futures := delete (ps_future ps) (futures w); entries_of := delete k (entries_of w);
     persistent_sessions := wrapU 32 (persistent_sessions w - 1); session_objects := session_objects w; future_objects := future_objects w; fresh := fresh w |}.

Lemma del_eq so fo k ps w : owned so fo w -> entries_of w !! k = Some ps -> zend_hash_index_del k w = Some (true, without_entry k ps w).
Proof.
  intros H Hk. destruct (own_entries _ _ _ H k ps Hk) as ([s Hs] & _ & [f Hf] & _). unfold zend_hash_index_del. rewrite Hk.
  unfold php_scylladb_session_dtor, cass_future_free, cass_session_free. cbn. rewrite Hf. cbn. rewrite Hs. done.
Qed.

Lemma delete_owned so fo k ps w : owned so fo w -> entries_of w !! k = Some ps ->
  (forall i o, session_objects w !! i = Some o -> so_persist o = true -> so_key o <> k) -> nobody_waits k None w ->
  owned so fo (without_entry k ps w).
Proof.
  intros H Hk Hso Hfo. destruct (own_entries _ _ _ H k ps Hk) as (_ & Eso & _ & Efo). split; cbn.
  - intros s [x [_ Hx]%lookup_delete_Some]. apply (own_sessions _ _ _ H). by exists x.
  - intros f [x [_ Hx]%lookup_delete_Some]. apply (own_futures _ _ _ H). by exists x.
  - apply (own_session_ids _ _ _ H).
  - apply (own_future_ids _ _ _ H).
  - intros k' ps' [Hne Hk']%lookup_delete_Some. destruct (own_entries _ _ _ H k' ps' Hk') as (Hs & E1 & Hf & E2). split_and!; try done.
    + rewrite lookup_delete_ne; [done|congruence].
    + rewrite lookup_delete_ne; [done|congruence].
  - intros i o Ho. pose proof (own_session_objects _ _ _ H i o Ho) as Hi. unfold session_ok in *. cbn. destruct (so_persist o) eqn:Ep.
    + destruct Hi as (ps' & Hk' & Es & Ef). pose proof (Hso i o Ho Ep) as Hne. destruct (own_entries _ _ _ H _ _ Hk') as (_ & E1 & _ & E2).
      exists ps'. rewrite !lookup_delete_ne; [done|congruence..].
    + destruct Hi as [Hs E]. split; [|done]. rewrite lookup_delete_ne; [done|congruence].
  - intros j o Ho. pose proof (own_future_objects _ _ _ H j o Ho) as Hj. unfold future_ok in *. cbn. destruct (fo_persist o) eqn:Ep.
    + intros f Hf. destruct (Hj f Hf) as (ps' & Hk' & E). exists ps'. rewrite lookup_delete_ne; [done|]. intros E'. by rewrite (Hfo j o) in Hf.
    + destruct Hj as [(f & Hf & Hl & E) Hs]. split.
      * exists f. rewrite lookup_delete_ne; [done|congruence].
      * intros s Hs'. destruct (Hs s Hs') as [Hl' E']. split; [|done]. rewrite lookup_delete_ne; [done|congruence].
  - rewrite (own_count _ _ _ H), map_size_delete_Some by (by eexists). assert (size (entries_of w) <> 0%nat).
    { intros E. apply map_size_empty_iff in E. by rewrite E, lookup_empty in Hk. }
    unfold wrapU. rewrite Zminus_mod_idemp_l. f_equal. lia.
Qed.

(** ** Steps *)

Lemma resolve_owned so fo f rc w : owned so fo w -> futures w !! f = Some Pending -> owned so fo (set_driver (sessions w) (<[f := Resolved rc]> (futures w)) w).
Proof.
  intros H Hf. assert (forall x, is_Some (futures w !! x) -> is_Some (<[f := Resolved rc]> (futures w) !! x)) as Hk.
  { intros x Hx. destruct (decide (x = f)) as [->|]; [rewrite lookup_insert_eq; by eexists|by rewrite lookup_insert_ne]. }
  destruct H as [H1 H2 H3 H4 H5 H6 H7 H8]. split; cbn; try done.
  - intros x [y [[<- _]|[_ Hy]]%lookup_insert_Some]; apply H2; by eexists.
  - intros k ps Hps. destruct (H5 k ps Hps) as (? & ? & ? & ?). split_and!; try done. by apply Hk.
  - intros i o Ho. specialize (H6 i o Ho). unfold session_ok in *. cbn. destruct (so_persist o); [|done].
    destruct H6 as (ps & Hps & Es & Ef). exists ps. split_and!; try done. rewrite lookup_insert_ne; [done|congruence].
  - intros j o Ho. specialize (H7 j o Ho). unfold future_ok in *. cbn. destruct (fo_persist o); [done|].
    destruct H7 as [(x & Hx & Hl & E) Hs]. split; [|done]. exists x. split_and!; try done. by apply Hk.
Qed.

(** A wait on a future that is allocated returns; what it says is what the future holds from then on. *)
Lemma wait_owned so fo f wait w : owned so fo w -> is_Some (futures w !! f) ->
  exists r w', php_scylladb_future_wait_timed f wait w = Some (r, w') /\ owned so fo w' /\ entries_of w' = entries_of w /\ sessions w' = sessions w /\
    session_objects w' = session_objects w /\ future_objects w' = future_objects w /\ fresh w' = fresh w /\ is_Some (futures w' !! f) /\
    (forall x, is_Some (futures w !! x) -> is_Some (futures w' !! x)) /\
    (r = inr CASS_OK -> futures w' !! f = Some (Resolved CASS_OK)) /\ (r <> inr CASS_OK -> wait_fails f wait w /\ futures w' !! f <> Some (Resolved CASS_OK)).
Proof.
  intros H [[|rc] Hf]; unfold php_scylladb_future_wait_timed, wait_fails; rewrite Hf.
  - destruct wait as [rc|]; eexists _, _; (split; [reflexivity|]).
    + split; [by apply resolve_owned|]. cbn. rewrite lookup_insert_eq. split_and!; try done.
      * intros x Hx. destruct (decide (x = f)) as [->|]; [rewrite lookup_insert_eq; by eexists|by rewrite lookup_insert_ne].
      * by intros [= ->].
      * intros Hr. split; congruence.
    + rewrite Hf. split_and!; try done.
  - eexists _, _. split; [reflexivity|]. rewrite Hf. split_and!; try done; [by intros [= ->]|]. intros Hr. split; congruence.
Qed.

Definition unclaimed_session (so : nat -> owner) (s : nat) (w : state) : Prop :=
  (forall k, so s <> OEntry k) /\ (forall i o, session_objects w !! i = Some o -> so_persist o = false -> so_session o <> s) /\
  (forall j o, future_objects w !! j = Some o -> fo_persist o = false -> fo_session o <> Some s).

Definition unclaimed_future (fo : nat -> owner) (f : nat) (w : state) : Prop :=
  (forall k, fo f <> OEntry k) /\ (forall j o, future_objects w !! j = Some o -> fo_persist o = false -> fo_future o <> Some f).

Lemma free_session_owned so fo s w : owned so fo w -> is_Some (sessions w !! s) -> unclaimed_session so s w ->
  cass_session_free s w = Some (set_driver (delete s (sessions w)) (futures w) w) /\ owned so fo (set_driver (delete s (sessions w)) (futures w) w).
Proof.
  intros [H1 H2 H3 H4 H5 H6 H7 H8] [x Hs] (U1 & U2 & U3). split; [unfold cass_session_free; by rewrite Hs|]. split; cbn; try done.
  - intros y [z [_ Hz]%lookup_delete_Some]. apply H1. by exists z.
  - intros k ps Hps. destruct (H5 k ps Hps) as (Hl & E & ? & ?). split_and!; try done. rewrite lookup_delete_ne; [done|]. intros ->. by apply (U1 k).
  - intros i o Ho. pose proof (H6 i o Ho) as Hi. unfold session_ok in *. cbn. destruct (so_persist o) eqn:Ep; [done|]. destruct Hi as [Hl E].
    split; [|done]. rewrite lookup_delete_ne; [done|]. intros E'. by apply (U2 i o).
  - intros j o Ho. pose proof (H7 j o Ho) as Hj. unfold future_ok in *. cbn. destruct (fo_persist o) eqn:Ep; [done|]. destruct Hj as [Hf Hss].
    split; [done|]. intros y Hy. destruct (Hss y Hy) as [Hl E]. split; [|done]. rewrite lookup_delete_ne; [done|]. intros ->. by apply (U3 j o).
Qed.

Lemma free_future_owned so fo f w : owned so fo w -> is_Some (futures w !! f) -> unclaimed_future fo f w ->
  cass_future_free f w = Some (set_driver (sessions w) (delete f (futures w)) w) /\ owned so fo (set_driver (sessions w) (delete f (futures w)) w).
Proof.
  intros [H1 H2 H3 H4 H5 H6 H7 H8] [x Hf] (U1 & U2). split; [unfold cass_future_free; by rewrite Hf|]. split; cbn; try done.
  - intros y [z [_ Hz]%lookup_delete_Some]. apply H2. by exists z.
  - intros k ps Hps. destruct (H5 k ps Hps) as (Hl & E & Hl' & E'). split_and!; try done. rewrite lookup_delete_ne; [done|]. intros ->. by apply (U1 k).
  - intros i o Ho. pose proof (H6 i o Ho) as Hi. unfold session_ok in *. cbn. destruct (so_persist o) eqn:Ep; [|done].
    destruct Hi as (ps & Hps & Es & Ef). destruct (H5 _ _ Hps) as (_ & _ & _ & E). exists ps. split_and!; try done.
    rewrite lookup_delete_ne; [done|]. intros ->. by apply (U1 (so_key o)).
  - intros j o Ho. pose proof (H7 j o Ho) as Hj. unfold future_ok in *. cbn. destruct (fo_persist o) eqn:Ep; [done|]. destruct Hj as [(y & Hy & Hl & E) Hss].
    split; [|done]. exists y. split_and!; try done. rewrite lookup_delete_ne; [done|]. intros ->. by apply (U2 j o).
Qed.

(** Changing the owner of something nobody claims. *)
Definition give (s : nat) (x : owner) (so : nat -> owner) : nat -> owner := fun y => if decide (y = s) then x else so y.

Lemma give_session_owned so fo s x w : owned so fo w -> unclaimed_session so s w -> owned (give s x so) fo w.
Proof.
  intros [H1 H2 H3 H4 H5 H6 H7 H8] (U1 & U2 & U3). split; try done.
  - intros k ps Hps. destruct (H5 k ps Hps) as (? & E & ?). split_and!; try tauto. unfold give. case_decide as Ed; [|done]. subst s. by destruct (U1 k).
  - intros i o Ho. pose proof (H6 i o Ho) as Hi. unfold session_ok in *. destruct (so_persist o) eqn:Ep; [done|]. destruct Hi as [Hl E]. split; [done|].
    unfold give. case_decide as Ed; [|done]. by destruct (U2 i o Ho Ep).
  - intros j o Ho. pose proof (H7 j o Ho) as Hj. unfold future_ok in *. destruct (fo_persist o) eqn:Ep; [done|]. destruct Hj as [Hf Hs]. split; [done|].
    intros y Hy. destruct (Hs y Hy) as [Hl E]. split; [done|]. unfold give. case_decide as Ed; [|done]. subst y. by destruct (U3 j o Ho Ep).
Qed.

Lemma give_future_owned so fo f x w : owned so fo w -> unclaimed_future fo f w -> owned so (give f x fo) w.
Proof.
  intros [H1 H2 H3 H4 H5 H6 H7 H8] (U1 & U2). split; try done.
  - intros k ps Hps. destruct (H5 k ps Hps) as (? & ? & ? & E). split_and!; try done. unfold give. case_decide as Ed; [|done]. subst f. by destruct (U1 k).
  - intros j o Ho. pose proof (H7 j o Ho) as Hj. unfold future_ok in *. destruct (fo_persist o) eqn:Ep; [done|]. destruct Hj as [(y & Hy & Hl & E) Hs].
    split; [|done]. exists y. split_and!; try done. unfold give. case_decide as Ed; [|done]. subst y. by destruct (U2 j o Ho Ep).
Qed.

Lemma alloc_owned so fo x t w : owned so fo w ->
  owned (give (fresh w) x so) (give (fresh w) x fo) (bump (set_driver (<[fresh w := t]> (sessions w)) (<[fresh w := Pending]> (futures w)) w)).
Proof.
  intros [H1 H2 H3 H4 H5 H6 H7 H8].
  assert (forall s, is_Some (sessions w !! s) -> s <> fresh w) as N1 by (intros s Hs ->; specialize (H1 _ Hs); lia).
  assert (forall f, is_Some (futures w !! f) -> f <> fresh w) as N2 by (intros f Hf ->; specialize (H2 _ Hf); lia).
  assert (forall s (g : nat -> owner), s <> fresh w -> give (fresh w) x g s = g s) as G by (intros s g Hs; unfold give; by rewrite decide_False).
  split; cbn; try done.
  - intros s [y [[<- _]|[_ Hy]]%lookup_insert_Some]; [lia|]. specialize (H1 s ltac:(by eexists)). lia.
  - intros f [y [[<- _]|[_ Hy]]%lookup_insert_Some]; [lia|]. specialize (H2 f ltac:(by eexists)). lia.
  - intros i Hi. specialize (H3 i Hi). lia.
  - intros j Hj. specialize (H4 j Hj). lia.
  - intros k ps Hps. destruct (H5 k ps Hps) as (Hs & E1 & Hf & E2). rewrite !lookup_insert_ne by (by apply not_eq_sym; auto). rewrite !G by auto. done.
  - intros i o Ho. specialize (H6 i o Ho). unfold session_ok in *. cbn. destruct (so_persist o).
    + destruct H6 as (ps & Hps & Es & Ef). exists ps. rewrite lookup_insert_ne; [done|]. apply not_eq_sym, N2. by eexists.
    + destruct H6 as [Hl E]. rewrite lookup_insert_ne by (by apply not_eq_sym; auto). by rewrite G by auto.
  - intros j o Ho. specialize (H7 j o Ho). unfold future_ok in *. cbn. destruct (fo_persist o); [done|]. destruct H7 as [(f & Hf & Hl & E) Hs]. split.
    + exists f. rewrite lookup_insert_ne by (by apply not_eq_sym; auto). by rewrite G by auto.
    + intros s Hs'. destruct (Hs s Hs') as [Hl' E']. rewrite lookup_insert_ne by (by apply not_eq_sym; auto). by rewrite G by auto.
Qed.

Lemma enter_owned so fo key ps w : owned so fo w -> entries_of w !! key = None -> is_Some (sessions w !! ps_session ps) -> so (ps_session ps) = OEntry key ->
  is_Some (futures w !! ps_future ps) -> fo (ps_future ps) = OEntry key ->
  owned so fo (set_entries (<[key := ps]> (entries_of w)) (wrapU 32 (persistent_sessions w + 1)) w).
Proof.
  intros [H1 H2 H3 H4 H5 H6 H7 H8] Hk Hs Es Hf Ef. split; cbn; try done.
  - intros k ps' [[<- <-]|[_ Hps]]%lookup_insert_Some; [done|by apply H5].
  - intros i o Ho. specialize (H6 i o Ho). unfold session_ok in *. cbn. destruct (so_persist o); [|done].
    destruct H6 as (ps' & Hps & E). exists ps'. rewrite lookup_insert_ne; [done|congruence].
  - intros j o Ho. specialize (H7 j o Ho). unfold future_ok in *. cbn. destruct (fo_persist o); [|done].
    intros f Hf'. destruct (H7 f Hf') as (ps' & Hps & E). exists ps'. rewrite lookup_insert_ne; [done|congruence].
  - rewrite map_size_insert_None, H8 by done. unfold wrapU. rewrite Zplus_mod_idemp_l. f_equal. lia.
Qed.

Lemma find_owned max so fo cl keyspace key x w p ps w' : owned so fo w -> find_or_connect max cl keyspace key w = (p, ps, w') ->
  exists so' fo', owned so' fo' w' /\ session_objects w' = session_objects w /\ future_objects w' = future_objects w /\
    is_Some (sessions w' !! ps_session ps) /\ is_Some (futures w' !! ps_future ps) /\
    (p = true -> entries_of w' !! key = Some ps /\ obj_persist cl = true /\
      ((w' = w) \/ (entries_of w !! key = None))) /\
    (p = false -> so' (ps_session ps) = x /\ fo' (ps_future ps) = x /\ (fresh w <= ps_session ps)%nat /\ (fresh w <= ps_future ps)%nat /\
      fresh w' = S (fresh w) /\ ~ is_Some (sessions w !! ps_session ps) /\ ~ is_Some (futures w !! ps_future ps)).
Proof.
  intros H E. unfold find_or_connect in E. destruct (if obj_persist cl then entries_of w !! key else None) as [ps0|] eqn:Ec.
  - injection E as <- <- <-. destruct (obj_persist cl); [|done]. destruct (own_entries _ _ _ H _ _ Ec) as (Hs & _ & Hf & _).
    exists so, fo. split_and!; try done. intros _. split_and!; try done. by left.
  - destruct (cass_session_connect (obj_cluster cl) keyspace w) as [n w1] eqn:Ew. unfold cass_session_connect in Ew. injection Ew as <- <-.
    destruct (obj_persist cl && php_scylladb_persistent_can_cache max (persistent_sessions w)) eqn:Ep; injection E as <- <- <-; cbn.
    + apply andb_true_iff in Ep as [Ep _]. rewrite Ep in Ec.
      exists (give (fresh w) (OEntry key) so), (give (fresh w) (OEntry key) fo). rewrite !lookup_insert_eq. split_and!; try done; [|intros _; split_and!; try done; by right].
      exact (enter_owned _ _ key {| ps_session := fresh w; ps_future := fresh w |} _ (alloc_owned so fo (OEntry key) (obj_cluster cl, keyspace) w H) Ec
        ltac:(cbn; rewrite lookup_insert_eq; by eexists) ltac:(unfold give; cbn; by rewrite decide_True) ltac:(cbn; rewrite lookup_insert_eq; by eexists)
        ltac:(unfold give; cbn; by rewrite decide_True)).
    + exists (give (fresh w) x so), (give (fresh w) x fo). rewrite !lookup_insert_eq. split_and!; try done; [by apply alloc_owned|]. intros _.
      assert (forall g : nat -> owner, give (fresh w) x g (fresh w) = x) as G by (intros g; unfold give; by rewrite decide_True). rewrite !G. split_and!; try done.
      * intros Hs. pose proof (own_sessions _ _ _ H _ Hs). lia.
      * intros Hf. pose proof (own_futures _ _ _ H _ Hf). lia.
Qed.

Lemma new_session_owned so fo p s key keyspace consistency page refs w : owned so fo w ->
  (if p : bool then exists ps, entries_of w !! key = Some ps /\ ps_session ps = s /\ futures w !! ps_future ps = Some (Resolved CASS_OK)
   else is_Some (sessions w !! s) /\ so s = OSession (fresh w)) ->
  owned so fo (new_session p s key keyspace consistency page refs w).2.
Proof.
  intros [H1 H2 H3 H4 H5 H6 H7 H8] Hs. split; cbn; try done.
  - intros x Hx. specialize (H1 x Hx). lia.
  - intros x Hx. specialize (H2 x Hx). lia.
  - intros i [o [[<- _]|[_ Ho]]%lookup_insert_Some]; [lia|]. specialize (H3 i ltac:(by eexists)). lia.
  - intros j Hj. specialize (H4 j Hj). lia.
  - intros i o [[<- <-]|[_ Ho]]%lookup_insert_Some; [|by apply H6]. unfold session_ok. cbn. destruct p; [|done].
    destruct Hs as (ps & Hps & Es & Ef). by exists ps.
Qed.

Lemma entry_not_used so fo key ps w : owned so fo w -> entries_of w !! key = Some ps -> futures w !! ps_future ps <> Some (Resolved CASS_OK) ->
  forall i o, session_objects w !! i = Some o -> so_persist o = true -> so_key o <> key.
Proof.
  intros H Hk Hf i o Ho Hp E. pose proof (own_session_objects _ _ _ H i o Ho) as Hi. unfold session_ok in Hi. rewrite Hp, E in Hi.
  destruct Hi as (ps' & Hps & _ & Hr). congruence.
Qed.

Lemma connect_failed_owned so fo p key ps rc w : owned so fo w ->
  is_Some (sessions w !! ps_session ps) -> is_Some (futures w !! ps_future ps) -> futures w !! ps_future ps <> Some (Resolved CASS_OK) ->
  (p = true -> entries_of w !! key = Some ps /\ nobody_waits key None w) ->
  (p = false -> unclaimed_session so (ps_session ps) w /\ unclaimed_future fo (ps_future ps) w) ->
  exists r w', connect_failed p key ps rc w = Some (r, w') /\ owned so fo w'.
Proof.
  intros H Hs Hf Hr Hp Hn. unfold connect_failed. destruct p.
  - destruct (Hp eq_refl) as [Hk Hw]. rewrite (del_eq so fo _ ps) by done. eexists _, _. split; [reflexivity|].
    apply delete_owned; [done|done| |done]. by eapply entry_not_used.
  - destruct (Hn eq_refl) as [Us Uf]. destruct (free_future_owned _ _ _ _ H Hf Uf) as [-> H']. cbn [mbind option_bind].
    destruct (free_session_owned _ _ (ps_session ps) _ H' Hs) as [-> H'']; [done|]. eexists _, _. split; [reflexivity|done].
Qed.

(** Resources that nobody had before are not claimed by anyone. *)
Lemma fresh_unclaimed so fo so' fo' w w' s f x : owned so fo w -> session_objects w' = session_objects w -> future_objects w' = future_objects w ->
  ~ is_Some (sessions w !! s) -> ~ is_Some (futures w !! f) -> so' s = x -> fo' f = x -> (forall k, x <> OEntry k) ->
  unclaimed_session so' s w' /\ unclaimed_future fo' f w'.
Proof.
  intros H Eo Ef Hs Hf Es Eff Hx. split.
  - split; [intros k; rewrite Es; apply Hx|]. split.
    + intros i o. rewrite Eo. intros Ho Hp E. pose proof (own_session_objects _ _ _ H i o Ho) as Hi. unfold session_ok in Hi. rewrite Hp in Hi. subst s. tauto.
    + intros j o. rewrite Ef. intros Ho Hp E. pose proof (own_future_objects _ _ _ H j o Ho) as Hj. unfold future_ok in Hj. rewrite Hp in Hj.
      destruct Hj as [_ Hj]. destruct (Hj s E). done.
  - split; [intros k; rewrite Eff; apply Hx|]. intros j o. rewrite Ef. intros Ho Hp E. pose proof (own_future_objects _ _ _ H j o Ho) as Hj.
    unfold future_ok in Hj. rewrite Hp in Hj. destruct Hj as [(y & Hy & Hl & _) _]. congruence.
Qed.

Lemma no_entry_nobody so fo key w : owned so fo w -> entries_of w !! key = None -> nobody_waits key None w.
Proof.
  intros H Hk j o Ho _ Hp E. pose proof (own_future_objects _ _ _ H j o Ho) as Hj. unfold future_ok in Hj. rewrite Hp in Hj.
  destruct (fo_future o) as [f|]; [|done]. destruct (Hj f eq_refl) as (ps & Hps & _). congruence.
Qed.

Lemma connect_owned max so fo cl keyspace wait w : owned so fo w -> exclusive (OpConnect cl keyspace wait) w ->
  exists r w' so' fo', DefaultCluster_connect max cl keyspace wait w = Some (r, w') /\ owned so' fo' w'.
Proof.
  intros H Hex. unfold DefaultCluster_connect. set (key := request_key cl keyspace) in *.
  destruct (find_or_connect max cl keyspace key w) as [[p ps] w1] eqn:E.
  destruct (find_owned _ _ _ _ _ _ (OSession (S (fresh w))) _ _ _ _ H E) as (so1 & fo1 & H1 & Eo & Ef & Hs & Hf & Hp & Hn).
  destruct (wait_owned so1 fo1 _ wait w1 H1 Hf) as (r & w2 & Ew & H2 & Ee2 & Es2 & Eo2 & Ef2 & Efr & Hf2 & _ & Hok & Hbad). rewrite Ew. cbn [mbind option_bind].
  assert (p = false -> unclaimed_session so1 (ps_session ps) w2 /\ unclaimed_future fo1 (ps_future ps) w2) as Hun.
  { intros ->. destruct (Hn eq_refl) as (E1 & E2 & _ & _ & _ & N1 & N2). apply (fresh_unclaimed so fo so1 fo1 w w2 _ _ (OSession (S (fresh w)))); try done; congruence. }
  assert (p = true -> r <> inr CASS_OK -> entries_of w2 !! key = Some ps /\ nobody_waits key None w2) as Hwait.
  { intros -> Hr. destruct (Hp eq_refl) as (Hk & Hcl & Hw). rewrite Ee2. split; [done|]. intros j o Hj. rewrite Ef2, Ef in Hj. revert j o Hj.
    change (nobody_waits key None w). destruct Hw as [-> | Hnone]; [|by eapply no_entry_nobody]. apply Hex with (ps := ps); [done|done|]. by apply Hbad. }
  assert (forall rc, r <> inr CASS_OK -> exists r' w' so' fo', connect_failed p key ps rc w2 = Some (r', w') /\ owned so' fo' w') as Hfail.
  { intros rc Hr. destruct (connect_failed_owned so1 fo1 p key ps rc w2) as (r' & w' & ? & ?); try done.
    - by rewrite Es2.
    - by apply Hbad.
    - intros Ep. by apply Hwait.
    - by exists r', w', so1, fo1. }
  destruct r as [[]|rc]; [by apply Hfail|]. destruct (decide (rc = CASS_OK)) as [->|Hrc].
  - destruct p; cbn [mbind option_bind].
    + eexists _, _, so1, fo1. split; [reflexivity|]. apply new_session_owned; [done|]. destruct (Hp eq_refl) as (Hk & _). exists ps. rewrite Ee2. split_and!; try done.
      by apply Hok.
    + destruct (Hun eq_refl) as [Us Uf]. destruct (free_future_owned _ _ _ _ H2 Hf2 Uf) as [-> H3]. cbn [mbind option_bind]. eexists _, _, so1, fo1.
      split; [reflexivity|]. apply new_session_owned; [done|]. cbn. rewrite Es2, Efr. destruct (Hn eq_refl) as (-> & _ & _ & _ & -> & _). done.
  - assert (inr rc <> (inr CASS_OK : unit + CassError)) as Hne by congruence. destruct (Hfail (Some rc) Hne) as (r' & w' & so' & fo' & Hc & Ho').
    exists r', w', so', fo'. split; [|done]. by destruct rc.
Qed.

Lemma async_owned max so fo cl keyspace w : owned so fo w -> exists so' fo', owned so' fo' (DefaultCluster_connectAsync max cl keyspace w).2.
Proof.
  intros H. unfold DefaultCluster_connectAsync. set (key := request_key cl keyspace) in *.
  destruct (find_or_connect max cl keyspace key w) as [[p ps] w1] eqn:E.
  destruct (find_owned _ _ _ _ _ _ (OFuture (S (fresh w))) _ _ _ _ H E) as (so1 & fo1 & [H1 H2 H3 H4 H5 H6 H7 H8] & Eo & Ef & Hs & Hf & Hp & Hn).
  exists so1, fo1. split; cbn; try done.
  - intros x Hx. specialize (H1 x Hx). lia.
  - intros x Hx. specialize (H2 x Hx). lia.
  - intros i Hi. specialize (H3 i Hi). lia.
  - intros j [o [[<- _]|[_ Ho]]%lookup_insert_Some]; [lia|]. specialize (H4 j ltac:(by eexists)). lia.
  - intros j o [[<- <-]|[_ Ho]]%lookup_insert_Some; [|by apply H7]. unfold future_ok. cbn. destruct p.
    + intros f [= <-]. exists ps. by destruct (Hp eq_refl) as [? _].
    + destruct (Hn eq_refl) as (E1 & E2 & _ & _ & Efr & _). split; [exists (ps_future ps)|intros s [= <-]]; by rewrite Efr.
Qed.

(** A future object changes, and nothing else. *)
Lemma change_future_owned so fo j g w : owned so fo w ->
  (forall o, future_objects w !! j = Some o -> future_ok so fo w j o -> future_ok so fo w j (g o)) -> owned so fo (change_future j g w).
Proof.
  intros [H1 H2 H3 H4 H5 H6 H7 H8] Hg. split; cbn; try done.
  - intros x Hx. apply H4. destruct (decide (x = j)) as [->|]; [|by rewrite lookup_alter_ne in Hx]. rewrite lookup_alter_eq in Hx. by destruct (future_objects w !! j), Hx.
  - intros x o Ho. destruct (decide (x = j)) as [->|].
    + rewrite lookup_alter_eq in Ho. destruct (future_objects w !! j) as [o'|] eqn:E; [|done]. injection Ho as <-. by apply Hg, H7.
    + rewrite lookup_alter_ne in Ho by done. by apply H7.
Qed.

Lemma forget_future_ok so fo w j o : fo_persist o = true -> future_ok so fo w j (with_future None o).
Proof. intros Hp. unfold future_ok. cbn. by rewrite Hp. Qed.

Lemma drop_entry_owned so fo j key ps w o : owned so fo w -> entries_of w !! key = Some ps -> future_objects w !! j = Some o -> fo_persist o = true ->
  futures w !! ps_future ps <> Some (Resolved CASS_OK) -> nobody_waits key (Some j) w ->
  exists w', drop_entry j key w = Some w' /\ owned so fo w'.
Proof.
  intros H Hk Ho Hp Hr Hw. unfold drop_entry. rewrite (del_eq so fo _ ps) by done. eexists. split; [reflexivity|].
  assert (owned so fo (change_future j (with_future None) w)) as H'.
  { apply change_future_owned; [done|]. intros o' Ho' _. apply forget_future_ok. congruence. }
  change (owned so fo (without_entry key ps (change_future j (with_future None) w))). apply delete_owned; [done|done| |].
  - exact (entry_not_used so fo key ps w H Hk Hr).
  - intros j' o' Ho' _ Hp' Ek. cbn in Ho'. destruct (decide (j' = j)) as [->|].
    + rewrite lookup_alter_eq, Ho in Ho'. by injection Ho' as <-.
    + rewrite lookup_alter_ne in Ho' by done. apply (Hw j' o'); [done|congruence|done|done].
Qed.

Lemma nobody_change key j g w : (forall o, fo_persist (g o) = fo_persist o /\ fo_key (g o) = fo_key o /\ fo_future (g o) = fo_future o) ->
  nobody_waits key (Some j) w -> nobody_waits key (Some j) (change_future j g w).
Proof.
  intros Hg Hw j' o' Ho' Hj Hp Hk. cbn in Ho'. rewrite lookup_alter_ne in Ho' by congruence. by apply (Hw j' o').
Qed.

(** The session of a future that does not persist goes to the session object [get] makes, or is freed
    with it. *)
Lemma handed_over so fo j o s w : owned so fo w -> future_objects w !! j = Some o -> fo_persist o = false -> fo_session o = Some s ->
  owned so fo (change_future j (with_session None) w) /\ unclaimed_session so s (change_future j (with_session None) w) /\ is_Some (sessions w !! s).
Proof.
  intros H Ho Hp Hs. pose proof (own_future_objects _ _ _ H j o Ho) as Hj. unfold future_ok in Hj. rewrite Hp in Hj. destruct Hj as [Hf Hss].
  destruct (Hss s Hs) as [Hl E]. split_and!; [|split_and!|done].
  - apply change_future_owned; [done|]. intros o' Ho' Hj. assert (o' = o) as -> by congruence. unfold future_ok in *. cbn. rewrite Hp in *. by split; [apply Hj|].
  - intros k. congruence.
  - intros i x Hx Hpx Ex. pose proof (own_session_objects _ _ _ H i x Hx) as Hi. unfold session_ok in Hi. rewrite Hpx, Ex in Hi. destruct Hi as [_ Hi]. congruence.
  - intros j' x Hx Hpx Ex. cbn in Hx. destruct (decide (j' = j)) as [->|].
    + rewrite lookup_alter_eq, Ho in Hx. by injection Hx as <-.
    + rewrite lookup_alter_ne in Hx by done. pose proof (own_future_objects _ _ _ H j' x Hx) as Hj'. unfold future_ok in Hj'. rewrite Hpx in Hj'.
      destruct Hj' as [_ Hj']. destruct (Hj' s Ex) as [_ E']. congruence.
Qed.

Lemma unclaimed_same so s w w' : session_objects w' = session_objects w -> future_objects w' = future_objects w -> unclaimed_session so s w -> unclaimed_session so s w'.
Proof. unfold unclaimed_session. by intros -> ->. Qed.

(** [get] that gives up on a persistent entry. *)
Lemma give_up_owned so fo j o f g w : owned so fo w -> future_objects w !! j = Some o -> fo_persist o = true -> fo_future o = Some f ->
  futures w !! f <> Some (Resolved CASS_OK) -> nobody_waits (fo_key o) (Some j) w ->
  (forall o, fo_persist (g o) = fo_persist o /\ fo_key (g o) = fo_key o /\ fo_future (g o) = fo_future o /\ fo_session (g o) = fo_session o) ->
  exists w', drop_entry j (fo_key o) (change_future j g w) = Some w' /\ owned so fo w'.
Proof.
  intros H Ho Hp Hf Hr Hw Hg. pose proof (own_future_objects _ _ _ H j o Ho) as Hj. unfold future_ok in Hj. rewrite Hp in Hj.
  destruct (Hj f Hf) as (ps & Hk & Ef & _). subst f.
  apply (drop_entry_owned so fo j (fo_key o) ps _ (g o)); cbn; try done.
  - apply change_future_owned; [done|]. intros o' Ho' Hj'. destruct (Hg o') as (E1 & E2 & E3 & E4). unfold future_ok in *. by rewrite E1, E2, E3, E4.
  - by rewrite lookup_alter_eq, Ho.
  - destruct (Hg o) as (E1 & _). congruence.
  - apply nobody_change; [|done]. intros x. destruct (Hg x) as (? & ? & ? & ?). done.
Qed.

Lemma alter_id {A} (j : nat) (m : gmap nat A) : alter (fun x => x) j m = m.
Proof. apply map_eq. intros i. destruct (decide (i = j)) as [->|]; [rewrite lookup_alter_eq; by destruct (m !! j)|by rewrite lookup_alter_ne]. Qed.

Lemma change_future_id j w : change_future j (fun o => o) w = w.
Proof. unfold change_future. rewrite alter_id. by destruct w. Qed.

Lemma get_persistent so fo j o s f wait w : owned so fo w -> exclusive (OpGet j wait) w -> future_objects w !! j = Some o -> fo_persist o = true ->
  fo_exception o = None -> fo_default_session o = None -> fo_session o = Some s -> fo_future o = Some f ->
  exists r w', FutureSession_get j wait w = Some (r, w') /\ owned so fo w'.
Proof.
  intros H Hex Ho Hp Hx Hd Hs Hf. unfold FutureSession_get. rewrite Ho, Hx, Hd, Hs, Hf, Hp. cbv zeta.
  pose proof (own_future_objects _ _ _ H j o Ho) as Hj. unfold future_ok in Hj. rewrite Hp in Hj. destruct (Hj f Hf) as (ps & Hk & Ef & Es).
  destruct (own_entries _ _ _ H _ _ Hk) as (_ & _ & Hl & _). rewrite Ef in Hl.
  destruct (wait_owned so fo f wait w H Hl) as (r & w2 & Ew & H2 & Ee2 & Es2 & Eo2 & Ef2 & Efr & Hf2 & _ & Hok & Hbad). rewrite Ew. cbn [mbind option_bind].
  assert (r <> inr CASS_OK -> nobody_waits (fo_key o) (Some j) w2) as Hw.
  { intros Hr j' o'. rewrite Ef2. destruct (Hbad Hr) as [Hfail _]. apply (Hex o f Ho Hp Hf Hfail). }
  rewrite <- Ef2 in Ho. destruct r as [[]|rc].
  - assert (inl () <> (inr CASS_OK : unit + CassError)) as Hr by done. destruct (negb (fo_key o =? 0)); cbn [andb].
    + rewrite <- (change_future_id j w2).
      destruct (give_up_owned so fo j o f (fun o => o) w2) as (w3 & E3 & H3); try done; [by apply Hbad|by apply Hw|]. rewrite E3. cbn. by eexists _, _.
    + cbn. by eexists _, _.
  - destruct (decide (rc = CASS_OK)) as [->|Hrc].
    + cbv beta iota. destruct (new_session true s (fo_key o) (fo_keyspace o) (fo_consistency o) (fo_page_size o) 2 w2) as [r3 w3] eqn:En.
      assert (owned so fo w3) as H3.
      { pose proof (new_session_owned so fo true s (fo_key o) (fo_keyspace o) (fo_consistency o) (fo_page_size o) 2 w2 H2) as Hn. rewrite En in Hn. apply Hn.
        exists ps. rewrite Ee2, Ef. split_and!; [done|congruence|by apply Hok]. }
      eexists _, _. split; [reflexivity|]. destruct r3; try done. apply change_future_owned; [done|]. intros x _ Hx'. exact Hx'.
    + destruct (give_up_owned so fo j o f (with_exception (Some rc)) w2) as (w3 & E3 & H3); try done; [apply Hbad; congruence|apply Hw; congruence|].
      exists (Throws (Some rc)), w3. split; [|done]. destruct rc; try done; rewrite E3; done.
Qed.

Lemma get_private so fo j o s f wait w : owned so fo w -> future_objects w !! j = Some o -> fo_persist o = false ->
  fo_exception o = None -> fo_default_session o = None -> fo_session o = Some s -> fo_future o = Some f ->
  exists r w' so', FutureSession_get j wait w = Some (r, w') /\ owned so' fo w'.
Proof.
  intros H Ho Hp Hx Hd Hs Hf. unfold FutureSession_get. rewrite Ho, Hx, Hd, Hs, Hf, Hp. cbv zeta.
  pose proof (own_future_objects _ _ _ H j o Ho) as Hj. unfold future_ok in Hj. rewrite Hp in Hj. destruct Hj as [(f' & Ef & Hl & _) _].
  assert (f' = f) as -> by congruence. destruct (handed_over so fo j o s w H Ho Hp Hs) as (H1 & U1 & Hls).
  destruct (wait_owned so fo f wait _ H1 Hl) as (r & w2 & Ew & H2 & _ & Es2 & Eo2 & Ef2 & _). rewrite Ew. cbn [mbind option_bind andb drop_session].
  assert (unclaimed_session so s w2) as U2 by (by eapply unclaimed_same).
  destruct (free_session_owned so fo s w2 H2 ltac:(by rewrite Es2) U2) as [Efree H3].
  destruct r as [[]|rc]; [rewrite Efree; cbn; by eexists _, _, so|]. destruct (decide (rc = CASS_OK)) as [->|Hrc].
  - cbv beta iota. destruct (new_session false s (fo_key o) (fo_keyspace o) (fo_consistency o) (fo_page_size o) 2 w2) as [r3 w3] eqn:En.
    assert (owned (give s (OSession (fresh w2)) so) fo w3) as H4.
    { pose proof (new_session_owned (give s (OSession (fresh w2)) so) fo false s (fo_key o) (fo_keyspace o) (fo_consistency o) (fo_page_size o) 2 w2) as Hn.
      rewrite En in Hn. apply Hn; [by apply give_session_owned|]. split; [by rewrite Es2|]. unfold give. by rewrite decide_True. }
    eexists _, _, _. split; [reflexivity|]. destruct r3; try done. apply change_future_owned; [done|]. intros x _ Hx'. exact Hx'.
  - exists (Throws (Some rc)). eexists _, so. split; [|exact H3]. destruct rc; try done; rewrite Efree; done.
Qed.

(** A session object changes its count of references, and nothing else. *)
Lemma recount_owned so fo i o o' w : owned so fo w -> session_objects w !! i = Some o ->
  so_persist o' = so_persist o -> so_session o' = so_session o -> so_key o' = so_key o ->
  owned so fo (set_objects (<[i := o']> (session_objects w)) (future_objects w) w).
Proof.
  intros [H1 H2 H3 H4 H5 H6 H7 H8] Ho E1 E2 E3. split; cbn; try done.
  - intros x [y [[<- _]|[_ Hy]]%lookup_insert_Some]; apply H3; by eexists.
  - intros x y [[<- <-]|[_ Hy]]%lookup_insert_Some; [|by apply H6]. specialize (H6 _ _ Ho). unfold session_ok in *. cbn. by rewrite E1, E2, E3.
Qed.

Lemma alter_present {A} (f : A -> A) (j : nat) (m : gmap nat A) x : m !! j = Some x -> alter f j m = <[j := f x]> m.
Proof.
  intros Hj. apply map_eq. intros i. destruct (decide (i = j)) as [->|]; [by rewrite lookup_alter_eq, lookup_insert_eq, Hj|by rewrite lookup_alter_ne, lookup_insert_ne].
Qed.

Lemma alter_missing {A} (f : A -> A) (j : nat) (m : gmap nat A) : m !! j = None -> alter f j m = m.
Proof. intros Hj. apply map_eq. intros i. destruct (decide (i = j)) as [->|]; [by rewrite lookup_alter_eq, Hj|by rewrite lookup_alter_ne]. Qed.

Lemma get_owned so fo j wait w : owned so fo w -> exclusive (OpGet j wait) w ->
  exists r w' so', FutureSession_get j wait w = Some (r, w') /\ owned so' fo w'.
Proof.
  intros H Hex. destruct (future_objects w !! j) as [o|] eqn:Ho; [|unfold FutureSession_get; rewrite Ho; by eexists _, _, so].
  destruct (fo_exception o) as [rc|] eqn:Hx; [unfold FutureSession_get; rewrite Ho, Hx; by eexists _, _, so|].
  destruct (fo_default_session o) as [i|] eqn:Hd.
  { unfold FutureSession_get. rewrite Ho, Hx, Hd. eexists _, _, so. split; [reflexivity|]. destruct (session_objects w !! i) as [x|] eqn:Ei.
    - rewrite (alter_present _ _ _ _ Ei). by eapply recount_owned.
    - rewrite alter_missing by done. by destruct w. }
  destruct (fo_session o) as [s|] eqn:Hs; [|unfold FutureSession_get; rewrite Ho, Hx, Hd, Hs; by eexists _, _, so].
  destruct (fo_future o) as [f|] eqn:Hf; [|unfold FutureSession_get; rewrite Ho, Hx, Hd, Hs, Hf; by eexists _, _, so].
  destruct (fo_persist o) eqn:Hp; [|by eapply get_private].
  destruct (get_persistent so fo j o s f wait w) as (r & w' & E & H'); try done. by exists r, w', so.
Qed.

Lemma ready_owned so fo j w : owned so fo w -> exists r, FutureSession_isReady j w = Some (r, w).
Proof.
  intros H. unfold FutureSession_isReady. destruct (future_objects w !! j) as [o|] eqn:Ho; [|by eexists].
  destruct (fo_default_session o); [by eexists|]. destruct (fo_exception o); [by eexists|]. destruct (fo_future o) as [f|] eqn:Hf; [|by eexists].
  pose proof (own_future_objects _ _ _ H j o Ho) as Hj. unfold future_ok in Hj. assert (is_Some (futures w !! f)) as [[|rc] ->]; [|by eexists..].
  destruct (fo_persist o).
  - destruct (Hj f Hf) as (ps & Hk & <- & _). by apply (own_entries _ _ _ H _ _ Hk).
  - destruct Hj as [(f' & E & Hl & _) _]. congruence.
Qed.

Lemma delete_object_owned so fo i w : owned so fo w -> owned so fo (set_objects (delete i (session_objects w)) (future_objects w) w).
Proof.
  intros [H1 H2 H3 H4 H5 H6 H7 H8]. split; cbn; try done.
  - intros x [y [_ Hy]%lookup_delete_Some]. apply H3. by eexists.
  - intros x y [_ Hy]%lookup_delete_Some. by apply H6.
Qed.

Lemma delete_future_owned so fo j w : owned so fo w -> owned so fo (set_objects (session_objects w) (delete j (future_objects w)) w).
Proof.
  intros [H1 H2 H3 H4 H5 H6 H7 H8]. split; cbn; try done.
  - intros x [y [_ Hy]%lookup_delete_Some]. apply H4. by eexists.
  - intros x y [_ Hy]%lookup_delete_Some. by apply H7.
Qed.

Lemma release_owned so fo i w : owned so fo w -> exists w', release_session i w = Some w' /\ owned so fo w'.
Proof.
  intros H. unfold release_session. destruct (session_objects w !! i) as [o|] eqn:Ho; [|by eexists].
  assert (exists w', drop_session (so_persist o) (so_session o) (set_objects (delete i (session_objects w)) (future_objects w) w) = Some w' /\ owned so fo w') as Hd.
  { pose proof (own_session_objects _ _ _ H i o Ho) as Hi. unfold session_ok in Hi. unfold drop_session.
    destruct (so_persist o) eqn:Hp; [eexists; split; [done|by apply delete_object_owned]|]. destruct Hi as [Hl E].
    destruct (free_session_owned so fo (so_session o) (set_objects (delete i (session_objects w)) (future_objects w) w)) as [-> H']; [by apply delete_object_owned|done| |by eexists].
    split_and!; cbn.
    - intros k. congruence.
    - intros x y [Hne Hy]%lookup_delete_Some Hpy Ey. pose proof (own_session_objects _ _ _ H x y Hy) as Hx. unfold session_ok in Hx. rewrite Hpy, Ey in Hx. destruct Hx. congruence.
    - intros j y Hy Hpy Ey. pose proof (own_future_objects _ _ _ H j y Hy) as Hj. unfold future_ok in Hj. rewrite Hpy in Hj. destruct Hj as [_ Hj]. destruct (Hj _ Ey). congruence. }
  destruct (so_refs o) as [|[|n]]; [done|done|]. eexists. split; [reflexivity|]. by eapply recount_owned.
Qed.

(** What a future object that does not persist owns is free to go with it. *)
Lemma private_unclaimed so fo j o w : owned so fo w -> future_objects w !! j = Some o -> fo_persist o = false ->
  let w' := set_objects (session_objects w) (delete j (future_objects w)) w in
  (exists f, fo_future o = Some f /\ is_Some (futures w !! f) /\ unclaimed_future fo f w') /\
  (forall s, fo_session o = Some s -> is_Some (sessions w !! s) /\ unclaimed_session so s w').
Proof.
  intros H Ho Hp. cbv zeta. pose proof (own_future_objects _ _ _ H j o Ho) as Hj. unfold future_ok in Hj. rewrite Hp in Hj. destruct Hj as [(f & Hf & Hl & E) Hs]. split.
  - exists f. do 2 (split; [done|]). split; [intros k; congruence|]. cbn. intros x y [Hne Hy]%lookup_delete_Some Hpy Ey.
    pose proof (own_future_objects _ _ _ H x y Hy) as Hx. unfold future_ok in Hx. rewrite Hpy in Hx. destruct Hx as [(g & Hg & _ & Eg) _]. congruence.
  - intros s Es. destruct (Hs s Es) as [Hls Eo]. split; [done|]. split_and!.
    + intros k. congruence.
    + intros x y Hy Hpy Ey. pose proof (own_session_objects _ _ _ H x y Hy) as Hx. unfold session_ok in Hx. rewrite Hpy, Ey in Hx. destruct Hx. congruence.
    + cbn. intros x y [Hne Hy]%lookup_delete_Some Hpy Ey. pose proof (own_future_objects _ _ _ H x y Hy) as Hx. unfold future_ok in Hx. rewrite Hpy in Hx.
      destruct Hx as [_ Hx]. destruct (Hx s Ey). congruence.
Qed.

Lemma free_owned so fo j w : owned so fo w -> exists w', php_scylladb_future_session_free j w = Some w' /\ owned so fo w'.
Proof.
  intros H. unfold php_scylladb_future_session_free. destruct (future_objects w !! j) as [o|] eqn:Ho; [|by eexists].
  assert (forall w, owned so fo w -> exists w', match fo_default_session o with Some i => release_session i w | None => Some w end = Some w' /\ owned so fo w') as Hrel.
  { intros x Hx. destruct (fo_default_session o) as [i|]; [by apply release_owned|by eexists]. }
  pose proof (delete_future_owned so fo j w H) as Hd. destruct (fo_persist o) eqn:Hp; cbn [mbind option_bind]; [by apply Hrel|].
  destruct (private_unclaimed so fo j o w H Ho Hp) as [(f & Hf & Hl & Uf) Hs]. rewrite Hf.
  destruct (free_future_owned so fo f _ Hd Hl Uf) as [_ H1]. destruct Hl as [x Hl]. unfold cass_future_free. rewrite Hl. cbn [mbind option_bind].
  destruct (fo_session o) as [s|]; cbn [mbind option_bind]; [|by apply Hrel]. destruct (Hs s eq_refl) as [Hls Us].
  destruct (free_session_owned so fo s _ H1 Hls Us) as [_ H2]. destruct Hls as [y Hls]. unfold cass_session_free. cbn. rewrite Hls. cbn. by apply Hrel.
Qed.

Lemma op_owned max so fo o w : owned so fo w -> exclusive o w -> exists r w' so' fo', run_op max o w = Some (r, w') /\ owned so' fo' w'.
Proof.
  intros H Hex. destruct o as [cl keyspace wait|cl keyspace|j wait|j|i|j|f rc]; cbn [run_op].
  - by eapply connect_owned.
  - destruct (async_owned max so fo cl keyspace w H) as (so' & fo' & H'). destruct (DefaultCluster_connectAsync max cl keyspace w) as [r w']. by exists r, w', so', fo'.
  - destruct (get_owned so fo j wait w H Hex) as (r & w' & so' & E & H'). by exists r, w', so', fo.
  - destruct (ready_owned so fo j w H) as [r E]. by exists r, w, so, fo.
  - destruct (release_owned so fo i w H) as (w' & -> & H'). by exists Done, w', so, fo.
  - destruct (free_owned so fo j w H) as (w' & -> & H'). by exists Done, w', so, fo.
  - exists Done, (driver_resolves f rc w), so, fo. split; [done|]. unfold driver_resolves. destruct (futures w !! f) as [[|]|] eqn:E; try done. by apply resolve_owned.
Qed.

Lemma empty_owned so fo : owned so fo empty_state.
Proof. split; cbn; try done; try (intros x [y Hy]; done). Qed.

Lemma reaches_owned max w : reaches max w -> exists so fo, owned so fo w.
Proof.
  induction 1 as [|o w r w' _ (so & fo & IH) Hex E]; [exists (fun _ => OEntry 0), (fun _ => OEntry 0); apply empty_owned|].
  destruct (op_owned max so fo o w IH Hex) as (r' & w'' & so' & fo' & E' & H'). rewrite E in E'. injection E' as <- <-. by exists so', fo'.
Qed.

Lemma owned_live so fo w i o : owned so fo w -> session_objects w !! i = Some o -> is_Some (sessions w !! so_session o).
Proof.
  intros H Ho. pose proof (own_session_objects _ _ _ H i o Ho) as Hi. unfold session_ok in Hi. destruct (so_persist o); [|tauto].
  destruct Hi as (ps & Hk & <- & _). by apply (own_entries _ _ _ H _ _ Hk).
Qed.

(** ** What the theorems need of a run *)

Definition run_ops (max_sessions : Z) (t : list op) (w : state) : option state :=
  foldl (fun w o => w ← w; '(_, w) ← run_op max_sessions o w; Some w) (Some w) t.

Definition a_cluster : cluster_object :=
  {| obj_persist := true; obj_cluster := 0; obj_key := 7; obj_consistency := 6; obj_page_size := 5000; obj_timeout := None |}.

(** Two futures of one persistent session; the first gives up. *)
Definition two_waiters : list op := [OpConnectAsync a_cluster None; OpConnectAsync a_cluster None; OpGet 1 None].

Lemma connect_hit max so fo cl keyspace ps wait w : owned so fo w -> obj_persist cl = true -> entries_of w !! request_key cl keyspace = Some ps ->
  futures w !! ps_future ps = Some (Resolved CASS_OK) ->
  DefaultCluster_connect max cl keyspace wait w =
    Some (new_session true (ps_session ps) (request_key cl keyspace) keyspace (obj_consistency cl) (obj_page_size cl) 1 w).
Proof.
  intros H Hp Hk Hf. unfold DefaultCluster_connect, find_or_connect. rewrite Hp, Hk. unfold php_scylladb_future_wait_timed. rewrite Hf. reflexivity.
Qed.

(** C13: as long as [connect] and [get] give up on a persistent session only when no other future
    object waits for it, no operation on clusters, sessions and session futures touches a session or a
    future the driver has freed, in any order of connects, waits, failures and releases; every session
    object holds a session that is allocated; the module's counter is the number of persistent sessions
    (modulo [2^32]); and a persistent session that is connected is shared, without waiting, by whoever
    asks for it next.  The condition is needed: with two futures of one pending session, when the first
    times out the second reads a future that is gone. *)
Theorem sessions_safe :
  (forall max w o, reaches max w -> exclusive o w -> exists r w', run_op max o w = Some (r, w') /\ reaches max w') /\
  (forall max w i o, reaches max w -> session_objects w !! i = Some o -> is_Some (sessions w !! so_session o)) /\
  (forall max w, reaches max w -> persistent_sessions w = wrapU 32 (Z.of_nat (size (entries_of w)))) /\
  (forall max w cl keyspace ps wait, reaches max w -> obj_persist cl = true -> entries_of w !! request_key cl keyspace = Some ps ->
    futures w !! ps_future ps = Some (Resolved CASS_OK) ->
    exists w' o, run_op max (OpConnect cl keyspace wait) w = Some (Session (fresh w), w') /\ session_objects w' !! fresh w = Some o /\
      so_session o = ps_session ps /\ sessions w' = sessions w) /\
  (exists w, run_ops 16 two_waiters empty_state = Some w /\ run_op 16 (OpGet 2 None) w = None).
Proof.
  split_and!.
  - intros max w o Hr Hex. destruct (reaches_owned max w Hr) as (so & fo & H). destruct (op_owned max so fo o w H Hex) as (r & w' & _ & _ & E & _).
    exists r, w'. split; [done|]. by eapply reaches_op.
  - intros max w i o Hr Ho. destruct (reaches_owned max w Hr) as (so & fo & H). by eapply owned_live.
  - intros max w Hr. destruct (reaches_owned max w Hr) as (so & fo & H). by eapply own_count.
  - intros max w cl keyspace ps wait Hr Hp Hk Hf. destruct (reaches_owned max w Hr) as (so & fo & H).
    eexists _, _. cbn [run_op]. rewrite (connect_hit max so fo cl keyspace ps wait w H Hp Hk Hf). split; [reflexivity|].
    split; [cbn; by rewrite lookup_insert_eq|done].
  - eexists. split; [vm_compute; reflexivity|vm_compute; reflexivity].
Qed.

Lemma sessions_safe_witness :
  exists r w', run_op 16 (OpConnect a_cluster None (Some CASS_OK)) empty_state = Some (r, w') /\ reaches 16 w'.
Proof.
  destruct sessions_safe as [H _]. apply H; [constructor|]. intros _ ps Hps. cbn in Hps. discriminate Hps.
Defined.
