(* ===== verification/DataTypes.v ===== *)
(** The driver's data types (third-party/cpp-driver/src/data_type.{hpp,cpp}) and how the extension
    builds one beside each of its types (src/Type/TypeFactory.c, src/Type/UserType.c,
    src/Type/Tuple.c), and the values an application hands to the driver: encode.hpp, collection.hpp,
    tuple.hpp, abstract_data.hpp, user_type_value.hpp.

    A value is what the driver was given; a collection or tuple holds the encoded elements, as the
    driver does.  The index of the fields of a user type is a hash table in the driver; here it is the
    list of fields that it finds. *)
From S2P Require Import Prelude InetUtil Serialization DriverErrors Types Decoder.
#[local] Open Scope Z_scope.

(** ** Types *)

(** [DataType], [CustomType], [CollectionType] or [TupleType], [UserType] *)
Inductive CassDataType :=
| DSimple (vt : Z)
| DCustom (class_name : bytes)
| DComposite (vt : Z) (types : list CassDataType)
| DUser (keyspace type_name : bytes) (fields : list (bytes * CassDataType)).

Definition value_type (t : CassDataType) : Z :=
  match t with
  | DSimple vt | DComposite vt _ => vt
  | DCustom _ => CASS_VALUE_TYPE_CUSTOM
  | DUser _ _ _ => CASS_VALUE_TYPE_UDT
  end.

(** [types()] *)
Definition sub_types (t : CassDataType) : list CassDataType := match t with DComposite _ l => l | _ => [] end.
Definition fields (t : CassDataType) : list (bytes * CassDataType) := match t with DUser _ _ l => l | _ => [] end.

Definition is_int64_type (vt : Z) : bool :=
  (vt =? CASS_VALUE_TYPE_BIGINT) || (vt =? CASS_VALUE_TYPE_COUNTER) || (vt =? CASS_VALUE_TYPE_TIMESTAMP) || (vt =? CASS_VALUE_TYPE_TIME).
Definition is_text_type (vt : Z) : bool :=
  (vt =? CASS_VALUE_TYPE_ASCII) || (vt =? CASS_VALUE_TYPE_TEXT) || (vt =? CASS_VALUE_TYPE_VARCHAR).
Definition is_bytes_type (vt : Z) : bool :=
  (vt =? CASS_VALUE_TYPE_BLOB) || (vt =? CASS_VALUE_TYPE_VARINT) || (vt =? CASS_VALUE_TYPE_CUSTOM).
Definition is_uuid_type (vt : Z) : bool := (vt =? CASS_VALUE_TYPE_TIMEUUID) || (vt =? CASS_VALUE_TYPE_UUID).
Definition is_collection_type (vt : Z) : bool :=
  (vt =? CASS_VALUE_TYPE_LIST) || (vt =? CASS_VALUE_TYPE_MAP) || (vt =? CASS_VALUE_TYPE_SET).

Definition is_nil {A} (l : list A) : bool := match l with [] => true | _ => false end.

Definition equals_both_not_empty (s1 s2 : bytes) : bool := is_nil s1 || is_nil s2 || bool_decide (s1 = s2).

Fixpoint all_pairs {A B} (f : A -> B -> bool) (l1 : list A) (l2 : list B) : bool :=
  match l1, l2 with x :: l1', y :: l2' => f x y && all_pairs f l1' l2' | _, _ => true end.

(** [DataType::equals] and its overrides *)
Fixpoint equals (t1 t2 : CassDataType) : bool :=
  match t1 with
  | DSimple vt =>
      if (vt =? CASS_VALUE_TYPE_TEXT) || (vt =? CASS_VALUE_TYPE_VARCHAR)
      then (value_type t2 =? CASS_VALUE_TYPE_TEXT) || (value_type t2 =? CASS_VALUE_TYPE_VARCHAR)
      else vt =? value_type t2
  | DCustom c1 => match t2 with DCustom c2 => equals_both_not_empty c1 c2 | _ => false end
  | DComposite vt l1 =>
      (vt =? value_type t2) &&
      (is_nil l1 || is_nil (sub_types t2) || (length l1 =? length (sub_types t2))%nat && all_pairs equals l1 (sub_types t2))
  | DUser ks1 n1 l1 =>
      match t2 with
      | DUser ks2 n2 l2 =>
          equals_both_not_empty ks1 ks2 && equals_both_not_empty n1 n2 &&
          all_pairs (fun f1 f2 : bytes * CassDataType => bool_decide (fst f1 = fst f2) && equals (snd f1) (snd f2)) l1 l2
      | _ => false
      end
  end.

(** What decoding asks of a type. *)
Definition data_type_view (t : CassDataType) : DataType := {|
  is_collection := is_collection_type (value_type t);
  is_string_or_bytes := is_text_type (value_type t) || is_bytes_type (value_type t);
  field_count :=
    if value_type t =? CASS_VALUE_TYPE_TUPLE then Some (zlen (sub_types t))
    else if value_type t =? CASS_VALUE_TYPE_UDT then Some (zlen (fields t)) else None
|}.

(** [PHP_SCYLLADB_SCALAR_TYPES_MAP] *)
Definition scalar_types : list Z :=
  [CASS_VALUE_TYPE_ASCII; CASS_VALUE_TYPE_BIGINT; CASS_VALUE_TYPE_SMALL_INT; CASS_VALUE_TYPE_TINY_INT; CASS_VALUE_TYPE_BLOB;
   CASS_VALUE_TYPE_BOOLEAN; CASS_VALUE_TYPE_COUNTER; CASS_VALUE_TYPE_DECIMAL; CASS_VALUE_TYPE_DOUBLE; CASS_VALUE_TYPE_DURATION;
   CASS_VALUE_TYPE_FLOAT; CASS_VALUE_TYPE_INT; CASS_VALUE_TYPE_TEXT; CASS_VALUE_TYPE_TIMESTAMP; CASS_VALUE_TYPE_DATE; CASS_VALUE_TYPE_TIME;
   CASS_VALUE_TYPE_UUID; CASS_VALUE_TYPE_VARCHAR; CASS_VALUE_TYPE_VARINT; CASS_VALUE_TYPE_TIMEUUID; CASS_VALUE_TYPE_INET].

Definition is_scalar_type (vt : Z) : bool := existsb (Z.eqb vt) scalar_types.

Definition all_some {A B} (f : A -> option B) : list A -> option (list B) :=
  fix go l := match l with
              | [] => Some []
              | x :: l' => match f x with Some y => option_map (cons y) (go l') | None => None end
              end.

Section from_data_type.
(** Whether the extension is built with custom types. *)
Context (have_custom_type : bool).

(** [php_scylladb_type_from_data_type]: the extension's type for a type of the driver; [None] when
    there is none (a custom type in a build without them) or the driver's type lacks its sub-types. *)
Fixpoint php_scylladb_type_from_data_type (t : CassDataType) : option php_scylladb_type :=
  match t with
  | DSimple vt => if is_scalar_type vt then Some (TScalar vt) else None
  | DCustom c => if have_custom_type then Some (TCustom c) else None
  | DComposite vt l =>
      if vt =? CASS_VALUE_TYPE_LIST then match l with v :: _ => option_map TCollection (php_scylladb_type_from_data_type v) | [] => None end
      else if vt =? CASS_VALUE_TYPE_MAP
      then match l with
           | k :: v :: _ =>
               match php_scylladb_type_from_data_type k, php_scylladb_type_from_data_type v with Some k', Some v' => Some (TMap k' v') | _, _ => None end
           | _ => None
           end
      else if vt =? CASS_VALUE_TYPE_SET then match l with v :: _ => option_map TSet (php_scylladb_type_from_data_type v) | [] => None end
      else if vt =? CASS_VALUE_TYPE_TUPLE then option_map TTuple (all_some php_scylladb_type_from_data_type l)
      else None
  | DUser ks n l =>
      option_map (TUserType (Some ks) (Some n))
        (all_some (fun f => option_map (pair (fst f)) (php_scylladb_type_from_data_type (snd f))) l)
  end.
End from_data_type.

Section data_type_of.
(** The names a user type has in the driver: those of the extension's type when they were set with
    [withName] and [withKeyspace], none when the type came with a result. *)
Context (names : option bytes -> bytes).

(** The [data_type] of a type. *)
Fixpoint data_type_of (t : php_scylladb_type) : CassDataType :=
  match t with
  | TScalar c => DSimple c
  | TCustom _ => DCustom []
  | TCollection v => DComposite CASS_VALUE_TYPE_LIST [data_type_of v]
  | TMap k v => DComposite CASS_VALUE_TYPE_MAP [data_type_of k; data_type_of v]
  | TSet v => DComposite CASS_VALUE_TYPE_SET [data_type_of v]
  | TTuple l => DComposite CASS_VALUE_TYPE_TUPLE (map data_type_of l)
  | TUserType ks n l => DUser (names ks) (names n) (map (fun f => (fst f, data_type_of (snd f))) l)
  end.
End data_type_of.

(** ** Values *)

Inductive element :=
| Unset
| Nul
| Buf (b : bytes)
| Coll (t : CassDataType) (items : list bytes).

Inductive cass_value :=
| VNull
| VInt8 (v : Z) | VInt16 (v : Z) | VInt32 (v : Z) | VUint32 (v : Z) | VInt64 (v : Z)
| VFloat (bits : Z) | VDouble (bits : Z) | VBool (b : bool)
| VString (s : bytes) | VBytes (s : bytes) | VUuid (u : CassUuid) | VInet (a : CassInet)
| VDecimal (varint : bytes) (scale : Z) | VDuration (d : CassDuration)
| VCollection (t : CassDataType) (items : list bytes)
| VTuple (t : CassDataType) (items : list bytes)
| VUserType (t : CassDataType) (elements : list element).

(** [encode_float] and [encode_double] write the bits as an integer. *)
Definition encode_float (bits : Z) : bytes := encode_uint32 bits.
Definition encode_double (bits : Z) : bytes := encode_int64 (wrapS 64 bits).

(** [Collection::get_count], [encode_items] and [encode] *)
Definition get_count (t : CassDataType) (items : list bytes) : Z :=
  wrapS 32 (if value_type t =? CASS_VALUE_TYPE_MAP then zlen items / 2 else zlen items).
Definition encode_items (items : list bytes) : bytes := concat (map (fun i => encode_int32 (zlen i) ++ i) items).
Definition encode_collection (t : CassDataType) (items : list bytes) : bytes := encode_int32 (get_count t items) ++ encode_items items.

(** [Tuple::encode_buffers]: an item that was not set is empty. *)
Definition encode_tuple (items : list bytes) : bytes := concat (map (fun i => if is_nil i then encode_int32 (-1) else i) items).

(** [AbstractData::encode_buffers] *)
Definition encode_element (e : element) : bytes :=
  match e with
  | Unset | Nul | Buf [] => encode_int32 (-1)
  | Buf b => b
  | Coll t items => let b := encode_collection t items in encode_int32 (zlen b) ++ b
  end.
Definition encode_elements (l : list element) : bytes := concat (map encode_element l).

(** [encode] *)
Definition encode (v : cass_value) : bytes :=
  match v with
  | VNull => []
  | VInt8 z => encode_int8 z
  | VInt16 z => encode_int16 z
  | VInt32 z => encode_int32 z
  | VUint32 z => encode_uint32 z
  | VInt64 z => encode_int64 z
  | VFloat b => encode_float b
  | VDouble b => encode_double b
  | VBool b => encode_byte (if b then 1 else 0)
  | VString s | VBytes s => s
  | VUuid u => encode_uuid u
  | VInet a => copy (inet_address a) (address_length a)
  | VDecimal varint scale => encode_int32 scale ++ varint
  | VDuration d => encode_internal d false
  | VCollection t items => encode_collection t items
  | VTuple _ items => encode_tuple items
  | VUserType _ l => encode_elements l
  end.

(** [encode_with_length] *)
Definition encode_with_length (v : cass_value) : bytes :=
  match v with VNull => encode_int32 (-1) | _ => encode_int32 (zlen (encode v)) ++ encode v end.

(** [IsValidDataType] *)
Definition is_valid_data_type (v : cass_value) (t : CassDataType) : bool :=
  let vt := value_type t in
  match v with
  | VNull => true
  | VInt8 _ => vt =? CASS_VALUE_TYPE_TINY_INT
  | VInt16 _ => vt =? CASS_VALUE_TYPE_SMALL_INT
  | VInt32 _ => vt =? CASS_VALUE_TYPE_INT
  | VUint32 _ => vt =? CASS_VALUE_TYPE_DATE
  | VInt64 _ => is_int64_type vt
  | VFloat _ => vt =? CASS_VALUE_TYPE_FLOAT
  | VDouble _ => vt =? CASS_VALUE_TYPE_DOUBLE
  | VBool _ => vt =? CASS_VALUE_TYPE_BOOLEAN
  | VString _ => is_text_type vt || is_bytes_type vt
  | VBytes _ => is_bytes_type vt
  | VUuid _ => is_uuid_type vt
  | VInet _ => vt =? CASS_VALUE_TYPE_INET
  | VDecimal _ _ => vt =? CASS_VALUE_TYPE_DECIMAL
  | VDuration _ => vt =? CASS_VALUE_TYPE_DURATION
  | VCollection t' _ | VTuple t' _ | VUserType t' _ => equals t' t
  end.

(** ** Building values *)

(** [cass_collection_new_from_data_type] and the like: [None] is a null pointer. *)
Definition cass_collection_new (t : CassDataType) : option (list bytes) := if is_collection_type (value_type t) then Some [] else None.
Definition cass_tuple_new (t : CassDataType) : option (list bytes) :=
  if value_type t =? CASS_VALUE_TYPE_TUPLE then Some (map (fun _ => []) (sub_types t)) else None.
Definition cass_user_type_new (t : CassDataType) : option (list element) :=
  if value_type t =? CASS_VALUE_TYPE_UDT then Some (map (fun _ => Unset) (fields t)) else None.

(** [Collection::check] *)
Definition collection_check (t : CassDataType) (items : list bytes) (v : cass_value) : bool :=
  match sub_types t with
  | [k; x] => if value_type t =? CASS_VALUE_TYPE_MAP then is_valid_data_type v (if Nat.even (length items) then k else x) else true
  | [x] => if value_type t =? CASS_VALUE_TYPE_MAP then true else is_valid_data_type v x
  | _ => true
  end.

(** [Collection::append] *)
Definition cass_collection_append (t : CassDataType) (items : list bytes) (v : cass_value) : CassError + list bytes :=
  if collection_check t items v then inr (items ++ [encode v]) else inl CASS_ERROR_LIB_INVALID_VALUE_TYPE.

(** [Tuple::set]; [None] is a write behind the last item, which the check lets through. *)
Definition cass_tuple_set (t : CassDataType) (items : list bytes) (index : Z) (v : cass_value) : option (CassError + list bytes) :=
  if zlen items <? index then Some (inl CASS_ERROR_LIB_INDEX_OUT_OF_BOUNDS)
  else if match sub_types t !! Z.to_nat index with Some x => negb (is_valid_data_type v x) | None => false end
  then Some (inl CASS_ERROR_LIB_INVALID_VALUE_TYPE)
  else if index =? zlen items then None
  else Some (inr (<[Z.to_nat index := encode_with_length v]> items)).

(** [AbstractData::set] *)
Definition element_of (v : cass_value) : CassError + element :=
  match v with
  | VNull => inr Nul
  | VCollection t items =>
      if (value_type t =? CASS_VALUE_TYPE_MAP) && Nat.odd (length items) then inl CASS_ERROR_LIB_INVALID_ITEM_COUNT else inr (Coll t items)
  | _ => inr (Buf (encode_with_length v))
  end.

Definition abstract_set (types : list (option CassDataType)) (l : list element) (index : nat) (v : cass_value) : CassError + list element :=
  if (length l <=? index)%nat then inl CASS_ERROR_LIB_INDEX_OUT_OF_BOUNDS
  else if match types !! index with Some (Some x) => negb (is_valid_data_type v x) | _ => false end then inl CASS_ERROR_LIB_INVALID_VALUE_TYPE
  else match element_of v with inl rc => inl rc | inr e => inr (<[index := e]> l) end.

(** [tolower] in the C locale, and [iequals] *)
Definition tolower (c : Z) : Z := if (65 <=? c) && (c <=? 90) then c + 32 else c.
Definition iequals (s1 s2 : bytes) : bool := bool_decide (map tolower s1 = map tolower s2).

(** [CaseInsensitiveHashTable::get_indices]: a quoted name is matched exactly. *)
Definition quoted (name : bytes) : option bytes :=
  match name with
  | 34 :: r => if List.last name 0 =? 34 then Some (take (length r - 1) r) else None
  | _ => None
  end.
Fixpoint find_indices {A} (f : A -> bool) (i : nat) (l : list A) : list nat :=
  match l with [] => [] | x :: l' => (if f x then [i] else []) ++ find_indices f (S i) l' end.
Definition get_indices (entries : list bytes) (name : bytes) : list nat :=
  match quoted name with
  | Some inner => find_indices (fun n => bool_decide (n = inner)) 0 entries
  | None => find_indices (iequals name) 0 entries
  end.

(** [AbstractData::set] by name: every field the name denotes. *)
Fixpoint set_indices (types : list (option CassDataType)) (l : list element) (indices : list nat) (v : cass_value) : CassError + list element :=
  match indices with
  | [] => inr l
  | i :: r => match abstract_set types l i v with inl rc => inl rc | inr l' => set_indices types l' r v end
  end.
Definition set_by_name (entries : list bytes) (types : list (option CassDataType)) (l : list element) (name : bytes) (v : cass_value) : CassError + list element :=
  match get_indices entries name with
  | [] => inl CASS_ERROR_LIB_NAME_DOES_NOT_EXIST
  | found => set_indices types l found v
  end.
