(* ===== verification/Conversions.v ===== *)
(** PHP values to values of the driver (src/Type/Conversions.c): the elements of sets, maps and
    lists, the components of tuples, the fields of user type values.

    The three setters of the source are copies of one switch over the type; [element_value] is the
    switch.  A value that is not of the class the switch takes it for is read through the wrong
    structure: [Undefined].  The functions recur through the values. *)
From S2P Require Import Prelude InetUtil Serialization DriverErrors NumberParser UtHash Types Values Decoder DataTypes.
#[local] Open Scope Z_scope.

(** Why a conversion returned 0. *)
Inductive refusal :=
| DriverError (rc : CassError)        (* thrown with [exception_class rc] *)
| Expected (what : bytes)             (* an argument of another class *)
| Unexplained                         (* 0 with no exception *)
| UnsupportedType                     (* "Unsupported collection type" *)
| NoMemory.                           (* the driver returned a null pointer *)

Inductive conv (A : Type) :=
| Converted (a : A)
| Refused (r : refusal)
| Undefined.
Arguments Converted {A}. Arguments Refused {A}. Arguments Undefined {A}.

Definition conv_bind {A B} (m : conv A) (f : A -> conv B) : conv B :=
  match m with Converted a => f a | Refused r => Refused r | Undefined => Undefined end.
Notation "x <~ m ; k" := (conv_bind m (fun x => k)) (at level 100, m at level 200, k at level 200, right associativity).

(** [CHECK_ERROR] *)
Definition checked {A} (r : CassError + A) : conv A := match r with inl rc => Refused (DriverError rc) | inr a => Converted a end.

(** A C string ends at its first NUL. *)
Fixpoint c_string (s : bytes) : bytes := match s with [] => [] | c :: r => if c =? 0 then [] else c :: c_string r end.

(** A loop that stops at the first failure. *)
Fixpoint conv_fold {A B} (f : A -> B -> conv A) (a : A) (l : list B) : conv A :=
  match l with [] => Converted a | x :: l' => a' <~ f a x; conv_fold f a' l' end.

Section conversions.
Context {G : Gmp} (names : option bytes -> bytes).

Abbreviation data_type_of := (DataTypes.data_type_of names).

(** The part of the switch that does not recur; [cstr]: the string is passed without its length. *)
Definition scalar_value (cstr : bool) (type : Z) (value : zval) : conv cass_value :=
  if (type =? CASS_VALUE_TYPE_TEXT) || (type =? CASS_VALUE_TYPE_ASCII) || (type =? CASS_VALUE_TYPE_VARCHAR)
  then match value with ZString s => Converted (VString (if cstr then c_string s else s)) | _ => Undefined end
  else if (type =? CASS_VALUE_TYPE_BIGINT) || (type =? CASS_VALUE_TYPE_COUNTER)
  then match value with ZScalar (Bigint v) => Converted (VInt64 v) | _ => Undefined end
  else if type =? CASS_VALUE_TYPE_SMALL_INT then match value with ZScalar (Smallint v) => Converted (VInt16 v) | _ => Undefined end
  else if type =? CASS_VALUE_TYPE_TINY_INT then match value with ZScalar (Tinyint v) => Converted (VInt8 v) | _ => Undefined end
  else if type =? CASS_VALUE_TYPE_BLOB then match value with ZScalar (Blob s) => Converted (VBytes s) | _ => Undefined end
  else if type =? CASS_VALUE_TYPE_BOOLEAN then Converted (VBool (match value with ZTrue => true | _ => false end))
  else if type =? CASS_VALUE_TYPE_DOUBLE then match value with ZDouble bits => Converted (VDouble bits) | _ => Undefined end
  else if type =? CASS_VALUE_TYPE_FLOAT then match value with ZScalar (Float bits) => Converted (VFloat bits) | _ => Undefined end
  else if type =? CASS_VALUE_TYPE_INT then match value with ZLong v => Converted (VInt32 (wrapS 32 v)) | _ => Undefined end
  else if type =? CASS_VALUE_TYPE_TIMESTAMP then match value with ZScalar (Timestamp v) => Converted (VInt64 v) | _ => Undefined end
  else if type =? CASS_VALUE_TYPE_DATE then match value with ZScalar (Date v) => Converted (VUint32 v) | _ => Undefined end
  else if type =? CASS_VALUE_TYPE_TIME then match value with ZScalar (Time v) => Converted (VInt64 v) | _ => Undefined end
  else if (type =? CASS_VALUE_TYPE_UUID) || (type =? CASS_VALUE_TYPE_TIMEUUID)
  then match value with ZScalar (Uuid u) | ZScalar (Timeuuid u) => Converted (VUuid u) | _ => Undefined end
  else if type =? CASS_VALUE_TYPE_VARINT then match value with ZScalar (Varint v) => Converted (VBytes (export_twos_complement v)) | _ => Undefined end
  else if type =? CASS_VALUE_TYPE_DECIMAL
  then match value with ZScalar (Decimal v scale) => Converted (VDecimal (export_twos_complement v) (wrapS 32 scale)) | _ => Undefined end
  else if type =? CASS_VALUE_TYPE_DURATION then match value with ZScalar (Duration d) => Converted (VDuration d) | _ => Undefined end
  else if type =? CASS_VALUE_TYPE_INET then match value with ZScalar (Inet a) => Converted (VInet a) | _ => Undefined end
  else Refused UnsupportedType.

(** The collections, tuples and user type values, given what their elements become. *)
Section containers.
Context (element_value : bool -> Z -> zval -> conv cass_value).

Definition php_scylladb_collection_append (t : CassDataType) (items : list bytes) (value : zval) (type : Z) : conv (list bytes) :=
  v <~ element_value false type value; checked (cass_collection_append t items v).

Definition php_scylladb_tuple_set (t : CassDataType) (items : list bytes) (index : Z) (value : zval) (type : Z) : conv (list bytes) :=
  v <~ match value with ZNull => Converted VNull | _ => element_value false type value end;
  match cass_tuple_set t items index v with None => Undefined | Some r => checked r end.

(** The name is a C string too. *)
Definition php_scylladb_user_type_set (t : CassDataType) (l : list element) (name : bytes) (value : zval) (type : Z) : conv (list element) :=
  v <~ match value with ZNull => Converted VNull | _ => element_value true type value end;
  checked (set_by_name (map fst (fields t)) (map (fun f => Some (snd f)) (fields t)) l (c_string name) v).

(** [php_scylladb_validate_object] in a condition *)
Definition validated (value : zval) (t : php_scylladb_type) : conv unit :=
  match php_scylladb_validate_object value t with Valid => Converted tt | Expecting what => Refused (Expected what) | Mismatch => Refused Unexplained end.

Definition new_object {A} (o : option A) : conv A := match o with Some a => Converted a | None => Refused NoMemory end.

(** What an object's type has: [t] for PHP and [data_type] for the driver. *)
Definition php_scylladb_collection_from_set (data_type : CassDataType) (t : php_scylladb_type) (entries : hash zval unit) : conv cass_value :=
  match t with
  | TSet value_type =>
      items <~ new_object (cass_collection_new data_type);
      items <~ conv_fold (fun items e => php_scylladb_collection_append data_type items (hkey (fst e)) (type_code value_type))
                 items (UtHash.items entries);
      Converted (VCollection data_type items)
  | _ => Undefined
  end.

Definition php_scylladb_collection_from_collection (data_type : CassDataType) (t : php_scylladb_type) (values : list zval) : conv cass_value :=
  match t with
  | TCollection value_type =>
      items <~ new_object (cass_collection_new data_type);
      items <~ conv_fold (fun items x => php_scylladb_collection_append data_type items x (type_code value_type)) items values;
      Converted (VCollection data_type items)
  | _ => Undefined
  end.

Definition php_scylladb_collection_from_map (data_type : CassDataType) (t : php_scylladb_type) (entries : hash zval zval) : conv cass_value :=
  match t with
  | TMap key_type value_type =>
      items <~ new_object (cass_collection_new data_type);
      items <~ conv_fold (fun items e =>
                 items <~ php_scylladb_collection_append data_type items (hkey (fst e)) (type_code key_type);
                 php_scylladb_collection_append data_type items (snd e) (type_code value_type)) items (UtHash.items entries);
      Converted (VCollection data_type items)
  | _ => Undefined
  end.

Definition php_scylladb_tuple_from_tuple (data_type : CassDataType) (t : php_scylladb_type) (values : list (Z * zval)) : conv cass_value :=
  match t with
  | TTuple types =>
      items <~ new_object (cass_tuple_new data_type);
      items <~ conv_fold (fun items f =>
                 match types !! Z.to_nat (fst f) with
                 | None => Refused Unexplained
                 | Some sub => _ <~ validated (snd f) sub; php_scylladb_tuple_set data_type items (fst f) (snd f) (type_code sub)
                 end) items values;
      Converted (VTuple data_type items)
  | _ => Undefined
  end.

(** [zend_hash_find] among the fields of a user type *)
Definition field_type (name : bytes) (types : list (bytes * php_scylladb_type)) : option php_scylladb_type :=
  option_map snd (List.find (fun s => bool_decide (fst s = name)) types).

Definition php_scylladb_user_type_from_user_type_value (data_type : CassDataType) (t : php_scylladb_type) (values : list (bytes * zval)) : conv cass_value :=
  match t with
  | TUserType _ _ types =>
      l <~ new_object (cass_user_type_new data_type);
      l <~ conv_fold (fun l f =>
             match field_type (fst f) types with
             | None => Refused Unexplained
             | Some sub => _ <~ validated (snd f) sub; php_scylladb_user_type_set data_type l (fst f) (snd f) (type_code sub)
             end) l values;
      Converted (VUserType data_type l)
  | _ => Undefined
  end.
End containers.

(** The switch.  The driver's type of an object is that of its PHP type, as it is when no field of a user type repeats ([TypeObjects.type_objects_agree]). *)
Fixpoint element_value (cstr : bool) (type : Z) (value : zval) {struct value} : conv cass_value :=
  if type =? CASS_VALUE_TYPE_LIST then
    match value with ZCollection t values => php_scylladb_collection_from_collection element_value (data_type_of t) t values | _ => Undefined end
  else if type =? CASS_VALUE_TYPE_MAP then
    match value with ZMap t entries => php_scylladb_collection_from_map element_value (data_type_of t) t entries | _ => Undefined end
  else if type =? CASS_VALUE_TYPE_SET then
    match value with ZSet t entries => php_scylladb_collection_from_set element_value (data_type_of t) t entries | _ => Undefined end
  else if type =? CASS_VALUE_TYPE_TUPLE then
    match value with ZTuple t values => php_scylladb_tuple_from_tuple element_value (data_type_of t) t values | _ => Undefined end
  else if type =? CASS_VALUE_TYPE_UDT then
    match value with ZUserTypeValue t values => php_scylladb_user_type_from_user_type_value element_value (data_type_of t) t values | _ => Undefined end
  else scalar_value cstr type value.
End conversions.
