(* ===== verification/ResultDecoder.v ===== *)
(** Columns to PHP values (src/Database/ResultDecoder.c), with the getters and iterators of the
    driver it uses (value.cpp, collection_iterator.cpp, map_iterator.cpp,
    user_type_field_iterator.cpp).

    A value of the driver is a window on the response ([Decoder]); its type is the type that is
    passed along with it.  The iterators stop without an error when an element cannot be decoded.  A
    string, an integer, a boolean or a double that is short makes [php_scylladb_value] destroy the
    caller's variable, which it has not written: where that variable is not initialised, as in the
    loops over elements and columns, the behaviour is undefined.  The exceptions that adding to a set or a map throws do not stop the decoding: they are collected. *)
From S2P Require Import Prelude InetUtil Serialization DriverErrors NumberParser UtHash Types Values Collections Decoder DataTypes.
#[local] Open Scope Z_scope.

Inductive outcome (A : Type) :=
| Success (a : A) (pending : list exception)
| Failure (rc : CassError)
| Destroyed (rc : CassError)   (* a failure that destroyed the caller's variable without having written it *)
| Crash.
Arguments Success {A}. Arguments Failure {A}. Arguments Destroyed {A}. Arguments Crash {A}.

Definition outcome_bind {A B} (m : outcome A) (f : A -> outcome B) : outcome B :=
  match m with
  | Success a p => match f a with Success b q => Success b (p ++ q) | Failure rc => Failure rc | Destroyed rc => Destroyed rc | Crash => Crash end
  | Failure rc => Failure rc
  | Destroyed rc => Destroyed rc
  | Crash => Crash
  end.
Notation "x <== m ; k" := (outcome_bind m (fun x => k)) (at level 100, m at level 200, k at level 200, right associativity).

(** A failure in front of the first write to [out], which [zval_ptr_dtor (out)] then destroys. *)
Definition before_writing {A} (m : outcome A) : outcome A := match m with Failure rc => Destroyed rc | m => m end.

(** A value that is read into a variable that is not initialised: destroying it is undefined. *)
Definition into_uninitialised {A} (m : outcome A) : outcome A := match m with Destroyed _ => Crash | m => m end.

(** ** Getters *)

(** [as_float], [as_double] (the bits) and [as_string_ref] *)
Definition as_float : dec Z := as_uint32.
Definition as_double : dec Z := fun d => match as_int64 d with Ok v d' => Ok (wrapU 64 v) d' | Failed => Failed | Thrown => Thrown | Fault => Fault end.
Definition as_string_ref : dec bytes := fun d => peek (remaining d) d.

(** [cass_value_get_*] of a value that is not null and of the type: [err] when the data is short. *)
Definition cass_value_get {A} (m : dec A) (err : CassError) (value : Value) : outcome A :=
  match m (value_decoder value) with Ok a _ => Success a [] | Failed => Failure err | Thrown | Fault => Crash end.

Definition cass_value_get_int8 := cass_value_get as_int8 CASS_ERROR_LIB_NOT_ENOUGH_DATA.
Definition cass_value_get_int16 := cass_value_get as_int16 CASS_ERROR_LIB_NOT_ENOUGH_DATA.
Definition cass_value_get_int32 := cass_value_get as_int32 CASS_ERROR_LIB_NOT_ENOUGH_DATA.
Definition cass_value_get_uint32 := cass_value_get as_uint32 CASS_ERROR_LIB_NOT_ENOUGH_DATA.
Definition cass_value_get_int64 := cass_value_get as_int64 CASS_ERROR_LIB_NOT_ENOUGH_DATA.
Definition cass_value_get_float := cass_value_get as_float CASS_ERROR_LIB_NOT_ENOUGH_DATA.
Definition cass_value_get_double := cass_value_get as_double CASS_ERROR_LIB_NOT_ENOUGH_DATA.
Definition cass_value_get_bool := cass_value_get as_bool CASS_ERROR_LIB_NOT_ENOUGH_DATA.
Definition cass_value_get_uuid := cass_value_get as_uuid CASS_ERROR_LIB_NOT_ENOUGH_DATA.
Definition cass_value_get_inet (value : Value) := cass_value_get (as_inet (remaining (value_decoder value))) CASS_ERROR_LIB_INVALID_DATA value.
Definition cass_value_get_bytes := cass_value_get as_string_ref CASS_ERROR_LIB_NOT_ENOUGH_DATA.
Definition cass_value_get_duration := cass_value_get as_duration CASS_ERROR_LIB_NOT_ENOUGH_DATA.
Definition cass_value_get_decimal := cass_value_get as_decimal CASS_ERROR_LIB_NOT_ENOUGH_DATA.

(** ** Iterators *)

(** [CollectionIterator] over [n] elements of type [t], and what is done with each. *)
Fixpoint each_value {A} (f : A -> Value -> outcome A) (t : CassDataType) (n : nat) (a : A) (d : decoder) : outcome A :=
  match n with
  | O => Success a []
  | S n' =>
      match decode_value (data_type_view t) d with
      | Ok v d' => match data_type v with None => Success a [] | Some _ => a' <== f a v; each_value f t n' a' d' end
      | _ => Crash
      end
  end.

(** [MapIterator] *)
Fixpoint each_pair {A} (f : A -> Value -> Value -> outcome A) (kt vt : CassDataType) (n : nat) (a : A) (d : decoder) : outcome A :=
  match n with
  | O => Success a []
  | S n' =>
      match decode_value (data_type_view kt) d with
      | Ok k d1 =>
          match data_type k with
          | None => Success a []
          | Some _ =>
              match decode_value (data_type_view vt) d1 with
              | Ok v d2 => match data_type v with None => Success a [] | Some _ => a' <== f a k v; each_pair f kt vt n' a' d2 end
              | _ => Crash
              end
          end
      | _ => Crash
      end
  end.

(** [TupleIterator] and [UserTypeFieldIterator]; what is done with each component that is not null. *)
Fixpoint each_component {A T} (f : A -> Z -> T -> Value -> outcome A) (type : T -> CassDataType) (index : Z) (types : list T) (a : A) (d : decoder) : outcome A :=
  match types with
  | [] => Success a []
  | t :: types' =>
      match decode_value (data_type_view (type t)) d with
      | Ok v d' =>
          match data_type v with
          | None => Success a []
          | Some _ => a' <== (if value_is_null v then Success a [] else f a index t v); each_component f type (index + 1) types' a' d'
          end
      | _ => Crash
      end
  end.

(** [zend_hash_update] under a name *)
Definition put_field (name : bytes) (v : zval) (l : list (bytes * zval)) : list (bytes * zval) :=
  if existsb (fun f => bool_decide (fst f = name)) l
  then map (fun f => if bool_decide (fst f = name) then (name, v) else f) l
  else l ++ [(name, v)].

(** What adding an element throws stays pending. *)
Definition of_reply {A} (r : reply bool * A) : outcome A := Success (snd r) (match thrown (fst r) with Some e => [e] | None => [] end).

(** ** Values *)

Section decoder.
Context {G : Gmp} (zend_hash : bytes -> Z) (depth : nat) (have_custom_type : bool).


Definition php_scylladb_scalar_value (type : Z) (value : Value) : outcome zval :=
  let returns {A} (m : outcome A) (f : A -> zval) := (a <== m; Success (f a) []) in
  let writes {A} (m : outcome A) (f : A -> zval) := (a <== before_writing m; Success (f a) []) in
  if (type =? CASS_VALUE_TYPE_ASCII) || (type =? CASS_VALUE_TYPE_TEXT) || (type =? CASS_VALUE_TYPE_VARCHAR) then writes (cass_value_get_bytes value) ZString
  else if type =? CASS_VALUE_TYPE_INT then writes (cass_value_get_int32 value) ZLong
  else if (type =? CASS_VALUE_TYPE_COUNTER) || (type =? CASS_VALUE_TYPE_BIGINT) then returns (cass_value_get_int64 value) (fun v => ZScalar (Bigint v))
  else if type =? CASS_VALUE_TYPE_SMALL_INT then returns (cass_value_get_int16 value) (fun v => ZScalar (Smallint v))
  else if type =? CASS_VALUE_TYPE_TINY_INT then returns (cass_value_get_int8 value) (fun v => ZScalar (Tinyint v))
  else if type =? CASS_VALUE_TYPE_TIMESTAMP then returns (cass_value_get_int64 value) (fun v => ZScalar (Timestamp v))
  else if type =? CASS_VALUE_TYPE_DATE then returns (cass_value_get_uint32 value) (fun v => ZScalar (Date v))
  else if type =? CASS_VALUE_TYPE_TIME then returns (cass_value_get_int64 value) (fun v => ZScalar (Time v))
  else if type =? CASS_VALUE_TYPE_BLOB then returns (cass_value_get_bytes value) (fun b => ZScalar (Blob b))
  else if type =? CASS_VALUE_TYPE_VARINT then returns (cass_value_get_bytes value) (fun b => ZScalar (Varint (import_twos_complement b)))
  else if type =? CASS_VALUE_TYPE_UUID then returns (cass_value_get_uuid value) (fun u => ZScalar (Uuid u))
  else if type =? CASS_VALUE_TYPE_TIMEUUID then returns (cass_value_get_uuid value) (fun u => ZScalar (Timeuuid u))
  else if type =? CASS_VALUE_TYPE_BOOLEAN then writes (cass_value_get_bool value) (fun b : bool => if b then ZTrue else ZFalse)
  else if type =? CASS_VALUE_TYPE_INET then returns (cass_value_get_inet value) (fun a => ZScalar (Inet a))
  else if type =? CASS_VALUE_TYPE_DECIMAL then returns (cass_value_get_decimal value) (fun p => ZScalar (Decimal (import_twos_complement (fst p)) (snd p)))
  else if type =? CASS_VALUE_TYPE_DURATION then returns (cass_value_get_duration value) (fun d => ZScalar (Duration d))
  else if type =? CASS_VALUE_TYPE_DOUBLE then writes (cass_value_get_double value) ZDouble
  else if type =? CASS_VALUE_TYPE_FLOAT then returns (cass_value_get_float value) (fun b => ZScalar (Float b))
  else Success ZNull [].

(** The containers, given how their elements are decoded. *)
Section containers.
Context (php_scylladb_value : CassDataType -> Value -> outcome zval).

Definition list_value (type : php_scylladb_type) (sub : CassDataType) (value : Value) : outcome zval :=
  match type with
  | TCollection vt =>
      c <== each_value (fun c v => z <== into_uninitialised (php_scylladb_value sub v); Success (php_scylladb_collection_add z c) []) sub (Z.to_nat (count value))
              (new_collection vt) (value_decoder value);
      Success (ZCollection type (map snd (collection_values c))) []
  | _ => Crash
  end.

Definition map_value (type : php_scylladb_type) (kt vt : CassDataType) (value : Value) : outcome zval :=
  match type with
  | TMap tk tv =>
      m <== each_pair (fun m k v => zk <== into_uninitialised (php_scylladb_value kt k); zv <== into_uninitialised (php_scylladb_value vt v); of_reply (php_scylladb_map_set zend_hash depth m zk zv))
              kt vt (Z.to_nat (count value)) (new_map tk tv) (value_decoder value);
      Success (ZMap type (map_entries m)) []
  | _ => Crash
  end.

Definition set_value (type : php_scylladb_type) (sub : CassDataType) (value : Value) : outcome zval :=
  match type with
  | TSet vt =>
      s <== each_value (fun s v => z <== into_uninitialised (php_scylladb_value sub v); of_reply (php_scylladb_set_add zend_hash depth s z)) sub (Z.to_nat (count value))
              (new_set vt) (value_decoder value);
      Success (ZSet type (set_entries s)) []
  | _ => Crash
  end.

Definition tuple_value (type : php_scylladb_type) (types : list CassDataType) (value : Value) : outcome zval :=
  l <== each_component (fun l i t v => z <== into_uninitialised (php_scylladb_value t v); Success (l ++ [(i, z)]) []) id 0 types [] (value_decoder value);
  Success (ZTuple type l) [].

Definition user_type_value (type : php_scylladb_type) (types : list (bytes * CassDataType)) (value : Value) : outcome zval :=
  l <== each_component (fun l _ f v => z <== into_uninitialised (php_scylladb_value (snd f) v); Success (put_field (fst f) z l) []) snd 0 types [] (value_decoder value);
  Success (ZUserTypeValue type l) [].
End containers.

Fixpoint php_scylladb_value (t : CassDataType) (value : Value) {struct t} : outcome zval :=
  if value_is_null value then Success ZNull []
  else
    match t with
    | DSimple type => php_scylladb_scalar_value type value
    | DCustom _ => Success ZNull []
    | DComposite vt types =>
        match php_scylladb_type_from_data_type have_custom_type t with
        | None => Crash
        | Some type =>
            if vt =? CASS_VALUE_TYPE_LIST then match types with sub :: _ => list_value php_scylladb_value type sub value | [] => Crash end
            else if vt =? CASS_VALUE_TYPE_MAP then match types with kt :: vt :: _ => map_value php_scylladb_value type kt vt value | _ => Crash end
            else if vt =? CASS_VALUE_TYPE_SET then match types with sub :: _ => set_value php_scylladb_value type sub value | [] => Crash end
            else tuple_value php_scylladb_value type types value
        end
    | DUser _ _ types =>
        match php_scylladb_type_from_data_type have_custom_type t with
        | None => Crash
        | Some type => user_type_value php_scylladb_value type types value
        end
    end.
End decoder.
