(* ===== verification/ValueRoundTrip.v ===== *)
(** What is bound is what is read: a PHP value that [Conversions] hands to the driver, encoded by the
    driver ([DataTypes]), comes back through the driver's decoder and [ResultDecoder] as the same
    value. *)
From S2P Require Import Prelude InetUtil Serialization DriverErrors NumberParser UtHash Types Values Collections Decoder DataTypes Conversions ResultDecoder.
#[local] Open Scope Z_scope.

(** ** Windows *)

(** A value with its length, as elements, components and columns are written. *)
Definition framed (e : bytes) : bytes := encode_int32 (zlen e) ++ e.

Lemma window_split d e rest : in_bounds d -> window d = e ++ rest ->
  0 <= zlen e <= remaining d /\ take (Z.to_nat (zlen e)) (drop (Z.to_nat (input d)) (mem d)) = e.
Proof.
  intros Hd Hw. pose proof (window_length d Hd) as Hl. rewrite Hw, zlen_app in Hl. pose proof (zlen_nonneg e). pose proof (zlen_nonneg rest).
  split; [lia|]. unfold window in Hw. transitivity (take (Z.to_nat (zlen e)) (take (Z.to_nat (remaining d)) (drop (Z.to_nat (input d)) (mem d)))).
  - rewrite take_take. f_equal. lia.
  - rewrite Hw. unfold zlen. rewrite Nat2Z.id. by rewrite take_app_length.
Qed.

(** Skipping a value, and the window on it. *)
Lemma advance_window d e rest : in_bounds d -> window d = e ++ rest ->
  exists d', advance (zlen e) d = Ok tt d' /\ in_bounds d' /\ window d' = rest /\
    in_bounds (sub_decoder (zlen e) d) /\ window (sub_decoder (zlen e) d) = e.
Proof.
  intros Hd Hw. destruct (window_split d e rest Hd Hw) as [Hl He]. pose proof Hd as (Hi & Hr & Hm).
  destruct (advance_in (zlen e) d Hd Hl) as (d' & E & Hd'). exists d'. split; [done|]. split; [done|].
  split; [|split; [by apply sub_in_bounds|by unfold window; cbn]].
  unfold advance in E. injection E as <-. unfold window. cbn. rewrite wrapU_id by (unfold in_u; lia).
  unfold window in Hw. replace (Z.to_nat (input d + zlen e)) with (Z.to_nat (input d) + Z.to_nat (zlen e))%nat by lia.
  rewrite <- drop_drop. replace (Z.to_nat (remaining d - zlen e)) with (Z.to_nat (remaining d) - Z.to_nat (zlen e))%nat by lia.
  rewrite take_drop_commute. replace (Z.to_nat (zlen e) + (Z.to_nat (remaining d) - Z.to_nat (zlen e)))%nat with (Z.to_nat (remaining d)) by lia.
  rewrite Hw. unfold zlen. rewrite Nat2Z.id. by rewrite drop_app_length.
Qed.

Definition short (e : bytes) : Prop := zlen e < 2 ^ 31.

Lemma decode_regular t d e rest : in_bounds d -> window d = framed e ++ rest -> short e ->
  is_collection t = false -> is_string_or_bytes t = true \/ e <> [] ->
  exists sub d', decode_value t d = Ok (regular_value t sub) d' /\ in_bounds d' /\ window d' = rest /\ in_bounds sub /\ window sub = e.
Proof.
  intros Hd Hw Hs Hc He. unfold framed in Hw. rewrite <- app_assoc in Hw. pose proof (zlen_nonneg e) as Hnn. unfold short in Hs.
  destruct (reads_int32 (zlen e) ltac:(unfold in_s; lia) d (e ++ rest) Hd Hw) as (d1 & E1 & Hd1 & Hw1).
  destruct (advance_window d1 e rest Hd1 Hw1) as (d2 & E2 & Hd2 & Hw2 & Hsub & Hwsub).
  exists (sub_decoder (zlen e) d1), d2. unfold decode_value. rewrite E1. replace (0 <=? zlen e) with true by lia.
  unfold bind. rewrite E2, Hc. cbn [negb]. replace (negb (is_string_or_bytes t) && (zlen e =? 0)) with false; [done|].
  destruct He as [->|He]; [done|]. destruct e as [|c e]; [done|]. rewrite zlen_cons. pose proof (zlen_nonneg e). by replace (1 + zlen e =? 0) with false by lia; rewrite andb_false_r.
Qed.

Lemma decode_collection t d n e rest : in_bounds d -> window d = framed (encode_int32 n ++ e) ++ rest -> short (encode_int32 n ++ e) -> in_s 32 n ->
  is_collection t = true ->
  exists sub d', decode_value t d = Ok (collection_value t n sub) d' /\ in_bounds d' /\ window d' = rest /\ in_bounds sub /\ window sub = e.
Proof.
  intros Hd Hw Hs Hn Hc. unfold framed in Hw. rewrite <- app_assoc in Hw. set (b := encode_int32 n ++ e) in *.
  pose proof (zlen_nonneg b) as Hnn. unfold short in Hs.
  destruct (reads_int32 (zlen b) ltac:(unfold in_s; lia) d (b ++ rest) Hd Hw) as (d1 & E1 & Hd1 & Hw1).
  destruct (advance_window d1 b rest Hd1 Hw1) as (d2 & E2 & Hd2 & Hw2 & Hsub & Hwsub).
  destruct (reads_int32 n Hn (sub_decoder (zlen b) d1) e Hsub) as (d3 & E3 & Hd3 & Hw3); [exact Hwsub|].
  exists d3, d2. unfold decode_value. rewrite E1. replace (0 <=? zlen b) with true by lia. unfold bind. rewrite E2, Hc. cbn [negb]. by rewrite E3.
Qed.

(** A component that is null. *)
Lemma decode_null t d rest : in_bounds d -> window d = encode_int32 (-1) ++ rest ->
  exists d', decode_value t d = Ok (null_value t) d' /\ in_bounds d' /\ window d' = rest.
Proof.
  intros Hd Hw. destruct (reads_int32 (-1) ltac:(unfold in_s; lia) d rest Hd Hw) as (d1 & E1 & Hd1 & Hw1).
  exists d1. unfold decode_value. by rewrite E1.
Qed.

(** ** Values read in place *)

(** [m] finds [a] in a window that holds [e]. *)
Definition finds {A} (m : dec A) (e : bytes) (a : A) : Prop := forall d, in_bounds d -> window d = e -> exists d', m d = Ok a d'.

Lemma finds_peek {A} n (f : bytes -> A) e a : zlen e = n -> n < 100 -> f e = a -> finds (check_remaining n;;; let! b := peek n in ret (f b))%dec e a.
Proof.
  intros Hn Hl Hf d Hd Hw. rewrite <- (app_nil_r e) in Hw. destruct (window_split d e [] Hd Hw) as [Hr He]. subst n.
  unfold bind. rewrite check_remaining_cases by (done || lia). replace (_ && _) with true by lia.
  destruct (peek_in (zlen e) d Hd Hr) as (b & -> & _ & Eb). rewrite He in Eb. subst b. exists d. cbn. by rewrite Hf.
Qed.

Lemma finds_string e : finds as_string_ref e e.
Proof.
  intros d Hd Hw. pose proof (window_length d Hd) as Hl. rewrite Hw in Hl. rewrite <- (app_nil_r e) in Hw. destruct (window_split d e [] Hd Hw) as [Hr He].
  unfold as_string_ref. rewrite <- Hl. destruct (peek_in (zlen e) d Hd Hr) as (b & -> & _ & Eb). rewrite He in Eb. subst b. by exists d.
Qed.

Lemma finds_uuid u : valid_uuid u -> finds as_uuid (encode_uuid u) u.
Proof. intros Hu. apply finds_peek; [done..|]. rewrite <- (app_nil_r (encode_uuid u)). by apply decode_encode_uuid. Qed.

Lemma finds_int8 v : in_s 8 v -> finds as_int8 (encode_int8 v) v.
Proof. intros Hv. apply finds_peek; [done..|]. rewrite <- (app_nil_r (encode_int8 v)). by apply decode_encode_int8. Qed.
Lemma finds_int16 v : in_s 16 v -> finds as_int16 (encode_int16 v) v.
Proof. intros Hv. apply finds_peek; [done..|]. rewrite <- (app_nil_r (encode_int16 v)). by apply decode_encode_int16. Qed.
Lemma finds_int32 v : in_s 32 v -> finds as_int32 (encode_int32 v) v.
Proof. intros Hv. apply finds_peek; [done..|]. rewrite <- (app_nil_r (encode_int32 v)). by apply decode_encode_int32. Qed.
Lemma finds_uint32 v : in_u 32 v -> finds as_uint32 (encode_uint32 v) v.
Proof. intros Hv. apply finds_peek; [done..|]. rewrite <- (app_nil_r (encode_uint32 v)). by apply decode_encode_uint32. Qed.
Lemma finds_int64 v : in_s 64 v -> finds as_int64 (encode_int64 v) v.
Proof. intros Hv. apply finds_peek; [done..|]. rewrite <- (app_nil_r (encode_int64 v)). by apply decode_encode_int64. Qed.

Lemma finds_double bits : in_u 64 bits -> finds as_double (encode_double bits) bits.
Proof.
  intros Hb d Hd Hw. destruct (finds_int64 (wrapS 64 bits) ltac:(by apply wrapS_range) d Hd Hw) as (d' & E). exists d'. unfold as_double. rewrite E.
  by rewrite wrapU_wrapS, wrapU_id.
Qed.

Lemma finds_bool (b : bool) : finds as_bool (encode_byte (if b then 1 else 0)) b.
Proof.
  intros d Hd Hw. assert (Hf : finds as_byte (encode_byte (if b then 1 else 0)) (if b then 1 else 0)) by (by apply finds_peek; destruct b).
  destruct (Hf d Hd Hw) as (d' & E). exists d'. unfold as_bool, bind. rewrite E. by destruct b.
Qed.

Lemma finds_inet a : zlen (inet_address a) = address_length a -> 1 <= address_length a <= 16 ->
  finds (as_inet (address_length a)) (copy (inet_address a) (address_length a)) a.
Proof.
  destruct a as [addr len]. cbn. intros <- Hl. rewrite copy_all. intros d Hd Hw. unfold as_inet, CASS_INET_V6_LENGTH.
  rewrite wrapU_id by (unfold in_u; lia). replace (16 <? zlen addr) with false by lia.
  apply (finds_peek (zlen addr) (fun b => {| inet_address := b; address_length := zlen addr |}) addr); (done || lia).
Qed.

Lemma finds_decimal varint scale : in_s 32 scale -> varint <> [] -> short varint -> finds as_decimal (encode_int32 scale ++ varint) (varint, scale).
Proof.
  intros Hs Hne Hsh d Hd Hw. pose proof (window_length d Hd) as Hl. rewrite Hw, zlen_app in Hl. change (zlen (encode_int32 scale)) with 4 in Hl.
  unfold short in Hsh. destruct (window_split d (encode_int32 scale) varint Hd Hw) as [Hr4 He4].
  pose proof Hw as Hw'. rewrite <- (app_nil_r (_ ++ varint)) in Hw'. destruct (window_split d _ [] Hd Hw') as [Hr He]. rewrite zlen_app in Hr, He.
  change (zlen (encode_int32 scale)) with 4 in *. unfold as_decimal, bind. rewrite check_remaining_cases by (done || lia). replace (_ && _) with true by lia.
  destruct (peek_in 4 d Hd ltac:(lia)) as (b & -> & _ & ->). rewrite He4. pose proof (zlen_nonneg varint).
  assert (zlen varint <> 0) by (destruct varint; [done|rewrite zlen_cons; pose proof (zlen_nonneg varint); lia]).
  rewrite wrapU_id by (unfold in_u; lia). replace (remaining d - 4 =? 0) with false by lia.
  destruct (peek_in (remaining d) d Hd ltac:(destruct Hd as (? & ? & ?); lia)) as (b & -> & _ & ->). rewrite <- Hl, He. exists d. cbn [ret]. f_equal.
  rewrite <- (app_nil_r (encode_int32 scale)) at 2. rewrite decode_encode_int32 by done. done.
Qed.

(** ** What a value means *)

(** A value without its representation: the elements of a set in order, the components of a tuple by
    position, the fields of a user type by name, null where nothing was set. *)
Inductive plain :=
| PNull | PBool (b : bool) | PLong (n : Z) | PDouble (bits : Z) | PString (s : bytes) | PArray | PScalar (o : scalar_object)
| PList (l : list plain) | PSet (l : list plain) | PMap (l : list (plain * plain)) | PTuple (l : list plain) | PUser (l : list (bytes * plain)).

Definition look_up {K} `{EqDecision K} (k : K) (l : list (K * plain)) : plain :=
  match List.find (fun f => bool_decide (fst f = k)) l with Some f => snd f | None => PNull end.

Definition arity (t : php_scylladb_type) : nat := match t with TTuple l => length l | _ => 0%nat end.
Definition field_names (t : php_scylladb_type) : list bytes := match t with TUserType _ _ l => map fst l | _ => [] end.

Fixpoint plain_value (v : zval) : plain :=
  match v with
  | ZNull => PNull
  | ZFalse => PBool false
  | ZTrue => PBool true
  | ZLong n => PLong n
  | ZDouble bits => PDouble bits
  | ZString s => PString s
  | ZArray => PArray
  | ZScalar o => PScalar o
  | ZSet _ h => PSet (map (fun e => plain_value (hkey (fst e))) (items h))
  | ZMap _ h => PMap (map (fun e => (plain_value (hkey (fst e)), plain_value (snd e))) (items h))
  | ZCollection _ l => PList (map plain_value l)
  | ZTuple t l => let fs := map (fun f => (fst f, plain_value (snd f))) l in PTuple (map (fun i => look_up (Z.of_nat i) fs) (seq 0 (arity t)))
  | ZUserTypeValue t l => let fs := map (fun f => (fst f, plain_value (snd f))) l in PUser (map (fun name => (name, look_up name fs)) (field_names t))
  end.

(** ** Types *)

(** Types the extension can build for a column: no custom type, user types with their names. *)
Fixpoint complete (t : php_scylladb_type) : bool :=
  match t with
  | TScalar c => (1 <=? c) && (c <=? CASS_VALUE_TYPE_DURATION)
  | TCustom _ => false
  | TCollection v | TSet v => complete v
  | TMap k v => complete k && complete v
  | TTuple l => forallb complete l
  | TUserType ks n l => match ks, n with Some _, Some _ => forallb (fun f => complete (snd f)) l | _, _ => false end
  end.

Lemma forallb_impl {A} (f g : A -> bool) l : Forall (fun x => f x = true -> g x = true) l -> forallb f l = true -> forallb g l = true.
Proof. induction 1 as [|x l Hx _ IH]; cbn; [done|]. rewrite !andb_true_iff. intros [? ?]. auto. Qed.

Lemma complete_well_named t : complete t = true -> well_named t = true.
Proof.
  induction t as [c|n|t IH|k v IHk IHv|t IH|l IH|ks n l IH] using type_rec; cbn; try done.
  - rewrite !andb_true_iff. intros [? ?]. auto.
  - by apply forallb_impl.
  - destruct ks, n; try done. by apply forallb_impl.
Qed.

Lemma forallb_map_eq {A B} (f : A -> bool) (g : B -> bool) (h : A -> B) l : Forall (fun x => g (h x) = f x) l -> forallb g (map h l) = forallb f l.
Proof. induction 1 as [|x l Hx _ IH]; cbn; [done|]. by rewrite Hx, IH. Qed.

Lemma complete_canonical t : complete (canonical t) = complete t.
Proof.
  induction t as [c|n|t IH|k v IHk IHv|t IH|l IH|ks n l IH] using type_rec; cbn; try done; try congruence.
  - unfold CASS_VALUE_TYPE_TEXT. destruct (Z.eqb_spec c 10) as [->|]; done.
  - by apply forallb_map_eq.
  - destruct ks, n; try done. by apply forallb_map_eq.
Qed.

Lemma complete_alias td t : canonical td = canonical t -> complete t = true -> complete td = true.
Proof. intros E. by rewrite <- complete_canonical, <- E, complete_canonical. Qed.

Lemma scalar_types_range c : (1 <=? c) && (c <=? CASS_VALUE_TYPE_DURATION) = true -> is_scalar_type c = true.
Proof.
  rewrite andb_true_iff, !Z.leb_le. unfold CASS_VALUE_TYPE_DURATION. intros H.
  assert (forallb (fun n => is_scalar_type (Z.of_nat n)) (seq 1 21) = true) as H21 by reflexivity.
  rewrite forallb_forall in H21. specialize (H21 (Z.to_nat c)). rewrite Z2Nat.id in H21 by lia. apply H21, in_seq. lia.
Qed.

Lemma all_some_map {A B C} (f : B -> option C) (g : A -> B) l : Forall (fun x => is_Some (f (g x))) l -> is_Some (all_some f (map g l)).
Proof. induction 1 as [|x l [y Hy] _ [r IH]]; cbn; [by eexists|]. rewrite Hy, IH. by eexists. Qed.

Lemma Forall_forallb {A} (f : A -> bool) (P : A -> Prop) l : Forall (fun x => f x = true -> P x) l -> forallb f l = true -> Forall P l.
Proof. induction 1 as [|x l Hx _ IH]; cbn; [constructor|]. rewrite andb_true_iff. intros [? ?]. constructor; auto. Qed.

Lemma complete_from_data_type names hc t : complete t = true -> is_Some (php_scylladb_type_from_data_type hc (data_type_of names t)).
Proof.
  induction t as [c|n|t IH|k v IHk IHv|t IH|l IH|ks n l IH] using type_rec; cbn -[is_scalar_type]; try done.
  - intros Hc. rewrite (scalar_types_range _ Hc). by eexists.
  - intros Hc. destruct (IH Hc) as [ty ->]. by eexists.
  - rewrite andb_true_iff. intros [Hk Hv]. destruct (IHk Hk) as [? ->], (IHv Hv) as [? ->]. by eexists.
  - intros Hc. destruct (IH Hc) as [ty ->]. by eexists.
  - intros Hc. destruct (all_some_map (php_scylladb_type_from_data_type hc) (data_type_of names) l) as [r ->]; [|by eexists]. by eapply Forall_forallb.
  - destruct ks, n; try done. intros Hc. edestruct (all_some_map (fun f => option_map (pair (fst f)) (php_scylladb_type_from_data_type hc (snd f))) (fun f : bytes * php_scylladb_type => (fst f, data_type_of names (snd f))) l) as [r ->]; [|by eexists].
    eapply Forall_forallb; [|exact Hc]. eapply Forall_impl; [|exact IH]. intros f Hf Hcf. cbn. destruct (Hf Hcf) as [ty ->]. by eexists.
Qed.

Lemma compare_counts_refl {A} (l : list A) : compare_counts l l = 0.
Proof. unfold compare_counts. by rewrite Z.eqb_refl. Qed.

Lemma compare_lists_refl {A} (compare : A -> A -> Z) l : Forall (fun x => compare x x = 0) l -> compare_lists compare l l = 0.
Proof. induction 1 as [|x l Hx _ IH]; cbn; [done|]. by rewrite Hx. Qed.

Lemma type_compare_refl t : php_scylladb_type_compare t t = 0.
Proof.
  assert (Hs : forall s, php5to7_string_compare s s = 0) by (intros s; by apply string_compare_0).
  assert (Hn : forall n, udt_name_compare n n = 0) by (intros [s|]; [apply Hs|done]).
  induction t as [c|n|t IH|k v IHk IHv|t IH|l IH|ks n l IH] using type_rec; cbn [php_scylladb_type_compare type_code]; rewrite ?Z.eqb_refl; cbn [negb]; try done.
  - by rewrite IHk.
  - rewrite compare_counts_refl. by apply compare_lists_refl.
  - rewrite !Hn, compare_counts_refl. apply compare_lists_refl. eapply Forall_impl; [|exact IH]. intros f Hf. cbn beta. by rewrite Hs.
Qed.

Lemma all_pairs_map {A B C} (f : B -> B -> bool) (g : A -> B) (h : A -> C) l1 : forall l2,
  Forall (fun x => forall y, h x = h y -> f (g x) (g y) = true) l1 -> map h l1 = map h l2 -> all_pairs f (map g l1) (map g l2) = true.
Proof.
  induction l1 as [|x l1 IH]; intros [|y l2] H E; try done. apply Forall_cons_1 in H as [Hx H]. cbn in *. injection E as Ex El. rewrite Hx by done. by apply IH.
Qed.

Lemma not_empty_refl s : equals_both_not_empty s s = true.
Proof. unfold equals_both_not_empty. rewrite bool_decide_eq_true_2 by done. by rewrite orb_true_r. Qed.

(** Types that differ by the alias of text only are equal for the driver. *)
Lemma equals_canonical names t1 : forall t2, canonical t1 = canonical t2 -> equals (data_type_of names t1) (data_type_of names t2) = true.
Proof.
  induction t1 as [c|n|t IH|k v IHk IHv|t IH|l IH|ks n l IH] using type_rec; intros [c2|n2|t2|k2 v2|t2|l2|ks2 n2 l2] E; try discriminate E; cbn in *.
  - injection E as E. unfold CASS_VALUE_TYPE_TEXT, CASS_VALUE_TYPE_VARCHAR in *.
    destruct (Z.eqb_spec c 10), (Z.eqb_spec c 13), (Z.eqb_spec c2 10), (Z.eqb_spec c2 13); cbn; try lia; done.
  - done.
  - injection E as E. by rewrite IH.
  - injection E as Ek Ev. by rewrite IHk, IHv.
  - injection E as E. by rewrite IH.
  - injection E as E. rewrite !length_map. assert (length l = length l2) as El by (by rewrite <- (length_map canonical l), E, length_map).
    rewrite El, Nat.eqb_refl. cbn [andb]. rewrite (all_pairs_map equals _ canonical l l2); [by rewrite orb_true_r|done|done].
  - injection E as <- <- E. rewrite !not_empty_refl. cbn [andb].
    apply (all_pairs_map (fun f1 f2 : bytes * CassDataType => bool_decide (fst f1 = fst f2) && equals (snd f1) (snd f2)) (fun f : bytes * php_scylladb_type => (fst f, data_type_of names (snd f)))
      (fun f => (fst f, canonical (snd f)))); [|done]. eapply Forall_impl; [|exact IH]. intros f Hf g [= E1 E2]. cbn. rewrite E1, bool_decide_eq_true_2 by done. by apply Hf.
Qed.

(** ** Scalars *)

Section round_trip.
Context {G : Gmp} {GL : GmpLaws G} (zend_hash : bytes -> Z) (depth : nat) (have_custom_type : bool) (names : option bytes -> bytes).

(** The values of a scalar type that the wire can carry. *)
Definition scalar_ok (c : Z) (v : zval) : Prop :=
  match v with
  | ZString _ => is_text_type c = true
  | ZFalse | ZTrue => c = CASS_VALUE_TYPE_BOOLEAN
  | ZLong n => c = CASS_VALUE_TYPE_INT /\ in_s 32 n
  | ZDouble bits => c = CASS_VALUE_TYPE_DOUBLE /\ in_u 64 bits
  | ZScalar (Bigint n) => (c = CASS_VALUE_TYPE_BIGINT \/ c = CASS_VALUE_TYPE_COUNTER) /\ in_s 64 n
  | ZScalar (Smallint n) => c = CASS_VALUE_TYPE_SMALL_INT /\ in_s 16 n
  | ZScalar (Tinyint n) => c = CASS_VALUE_TYPE_TINY_INT /\ in_s 8 n
  | ZScalar (Varint n) => c = CASS_VALUE_TYPE_VARINT /\ ~ sign_bit_multiple n
  | ZScalar (Decimal n scale) => c = CASS_VALUE_TYPE_DECIMAL /\ ~ sign_bit_multiple n /\ in_s 32 scale
  | ZScalar (Float bits) => c = CASS_VALUE_TYPE_FLOAT /\ in_u 32 bits
  | ZScalar (Blob _) => c = CASS_VALUE_TYPE_BLOB
  | ZScalar (Uuid u) => c = CASS_VALUE_TYPE_UUID /\ valid_uuid u
  | ZScalar (Timeuuid u) => c = CASS_VALUE_TYPE_TIMEUUID /\ valid_uuid u
  | ZScalar (Timestamp n) => c = CASS_VALUE_TYPE_TIMESTAMP /\ in_s 64 n
  | ZScalar (Date n) => c = CASS_VALUE_TYPE_DATE /\ in_u 32 n
  | ZScalar (Time n) => c = CASS_VALUE_TYPE_TIME /\ in_s 64 n
  | ZScalar (Duration d) => c = CASS_VALUE_TYPE_DURATION /\ valid_duration d
  | ZScalar (Inet a) => c = CASS_VALUE_TYPE_INET /\ zlen (inet_address a) = address_length a /\ 1 <= address_length a <= 16
  | _ => False
  end.

(** Types that are read as one another: text and varchar. *)
Definition alias (c' c : Z) : Prop := canonical (TScalar c') = canonical (TScalar c).

Lemma alias_cases c' c : alias c' c -> c' = c \/ (is_text_type c' = true /\ is_text_type c = true).
Proof.
  unfold alias. cbn. intros [= E]. unfold CASS_VALUE_TYPE_TEXT, CASS_VALUE_TYPE_VARCHAR in *.
  destruct (Z.eqb_spec c' 10), (Z.eqb_spec c 10); subst; auto; right; (split; done).
Qed.

Lemma text_cases c : is_text_type c = true -> c = CASS_VALUE_TYPE_ASCII \/ c = CASS_VALUE_TYPE_TEXT \/ c = CASS_VALUE_TYPE_VARCHAR.
Proof. unfold is_text_type. rewrite !orb_true_iff, !Z.eqb_eq. tauto. Qed.

Lemma get_finds {A} (m : dec A) err e a value :
  finds m e a -> in_bounds (value_decoder value) -> window (value_decoder value) = e -> cass_value_get m err value = Success a [].
Proof. intros Hm Hd Hw. unfold cass_value_get. by destruct (Hm _ Hd Hw) as (d' & ->). Qed.

Lemma export_not_nil n : ~ sign_bit_multiple n -> export_twos_complement n <> [].
Proof using GL.
  intros Hn E. apply twos_complement_round_trip in Hn. rewrite E in Hn. unfold import_twos_complement in Hn. rewrite mpz_import_spec in Hn.
  cbn in Hn. subst n. discriminate E.
Qed.

(** What a scalar is converted to. *)
Lemma scalar_converts cstr c v : scalar_ok c v -> (cstr = true -> match v with ZString s => c_string s = s | _ => True end) ->
  exists cv, scalar_value cstr c v = Converted cv /\ cv <> VNull /\ is_valid_data_type cv (DSimple c) = true /\ php_scylladb_validate_object v (TScalar c) = Valid.
Proof.
  intros Hv Hc.
  assert (Htext : forall s, is_text_type c = true -> (cstr = true -> c_string s = s) -> scalar_value cstr c (ZString s) = Converted (VString s)).
  { intros s Ht Hs. apply text_cases in Ht as [->|[->| ->]]; unfold scalar_value; cbn; (destruct cstr; [by rewrite Hs|done]). }
  destruct v as [| | |n|bits|s| |o| | | | |]; cbn [scalar_ok] in Hv; try done.
  - subst c. by eexists.
  - subst c. by eexists.
  - destruct Hv as [-> _]. by eexists.
  - destruct Hv as [-> _]. by eexists.
  - exists (VString s). split; [by apply Htext|]. split; [done|]. apply text_cases in Hv as [->|[->| ->]]; done.
  - destruct o; cbn [scalar_ok] in Hv; try (destruct Hv as [[->| ->] _]; by eexists); try (destruct Hv as [-> _]; by eexists); subst c; by eexists.
Qed.

(** A scalar is read back. *)
Lemma scalar_decodes cstr c c' v cv value : scalar_ok c v -> alias c' c -> scalar_value cstr c v = Converted cv ->
  (cstr = true -> match v with ZString s => c_string s = s | _ => True end) ->
  short (encode cv) -> in_bounds (value_decoder value) -> window (value_decoder value) = encode cv -> php_scylladb_scalar_value c' value = Success v [].
Proof using GL.
  intros Hv Ha Hcv Hc Hs Hd Hw.
  assert (Hget : forall A (m : dec A) err (f : A -> zval) a, finds m (encode cv) a -> f a = v -> (a <== cass_value_get m err value; Success (f a) []) = Success v []).
  { intros A m err f a Hm <-. by rewrite (get_finds m err (encode cv) a). }
  assert (Hwrite : forall A (m : dec A) err (f : A -> zval) a, finds m (encode cv) a -> f a = v -> (a <== before_writing (cass_value_get m err value); Success (f a) []) = Success v []).
  { intros A m err f a Hm <-. by rewrite (get_finds m err (encode cv) a). }
  assert (Htext : forall s, v = ZString s -> is_text_type c = true -> cv = VString s -> php_scylladb_scalar_value c' value = Success v []).
  { intros s -> Ht ->. assert (is_text_type c' = true) as Ht' by (destruct (alias_cases _ _ Ha) as [->|[? _]]; done).
    apply text_cases in Ht' as [->|[->| ->]]; (apply (Hwrite _ as_string_ref _ ZString s); [apply finds_string|done]). }
  assert (Heq : is_text_type c = false -> c' = c).
  { intros Ht. destruct (alias_cases _ _ Ha) as [?|[_ Ht']]; [done|]. by rewrite Ht in Ht'. }
  destruct v as [| | |n|bits|s| |o| | | | |]; cbn [scalar_ok] in Hv; try done.
  - subst c. rewrite Heq in * by done. injection Hcv as <-. apply (Hwrite _ as_bool _ (fun b : bool => if b then ZTrue else ZFalse) false); [apply finds_bool|done].
  - subst c. rewrite Heq in * by done. injection Hcv as <-. apply (Hwrite _ as_bool _ (fun b : bool => if b then ZTrue else ZFalse) true); [apply finds_bool|done].
  - destruct Hv as [-> Hn]. rewrite Heq in * by done. injection Hcv as <-. rewrite wrapS_id in Hw, Hwrite by (done || lia).
    apply (Hwrite _ as_int32 _ ZLong n); [by apply finds_int32|done].
  - destruct Hv as [-> Hn]. rewrite Heq in * by done. injection Hcv as <-. apply (Hwrite _ as_double _ ZDouble bits); [by apply finds_double|done].
  - apply (Htext s); [done|done|]. apply text_cases in Hv as [->|[->| ->]]; injection Hcv as <-; (destruct cstr; [by rewrite Hc|done]).
  - destruct o; cbn [scalar_ok] in Hv.
    + destruct Hv as [[->| ->] Hn]; rewrite Heq in * by done; injection Hcv as <-;
        (apply (Hget _ as_int64 _ (fun v => ZScalar (Bigint v)) v); [by apply finds_int64|done]).
    + destruct Hv as [-> Hn]. rewrite Heq in * by done. injection Hcv as <-. apply (Hget _ as_int16 _ (fun v => ZScalar (Smallint v)) v); [by apply finds_int16|done].
    + destruct Hv as [-> Hn]. rewrite Heq in * by done. injection Hcv as <-. apply (Hget _ as_int8 _ (fun v => ZScalar (Tinyint v)) v); [by apply finds_int8|done].
    + destruct Hv as [-> Hn]. rewrite Heq in * by done. injection Hcv as <-.
      apply (Hget _ as_string_ref _ (fun b => ZScalar (Varint (import_twos_complement b))) (export_twos_complement v)); [apply finds_string|].
      by rewrite (proj2 (twos_complement_round_trip v)).
    + destruct Hv as (-> & Hn & Hsc). rewrite Heq in * by done. injection Hcv as <-. rewrite wrapS_id in Hw, Hget, Hs by (done || lia).
      apply (Hget _ as_decimal _ (fun p => ZScalar (Decimal (import_twos_complement (fst p)) (snd p))) (export_twos_complement v, scale)).
      * apply finds_decimal; [done|by apply export_not_nil|]. unfold short in *. cbn [encode] in Hs. rewrite zlen_app in Hs.
        pose proof (zlen_nonneg (encode_int32 scale)). lia.
      * cbn [fst snd]. by rewrite (proj2 (twos_complement_round_trip v)).
    + destruct Hv as [-> Hn]. rewrite Heq in * by done. injection Hcv as <-. apply (Hget _ as_float _ (fun v => ZScalar (Float v)) bits); [by apply finds_uint32|done].
    + subst c. rewrite Heq in * by done. injection Hcv as <-. apply (Hget _ as_string_ref _ (fun v => ZScalar (Blob v)) data); [apply finds_string|done].
    + destruct Hv as [-> Hn]. rewrite Heq in * by done. injection Hcv as <-. apply (Hget _ as_uuid _ (fun v => ZScalar (Uuid v)) u); [by apply finds_uuid|done].
    + destruct Hv as [-> Hn]. rewrite Heq in * by done. injection Hcv as <-. apply (Hget _ as_uuid _ (fun v => ZScalar (Timeuuid v)) u); [by apply finds_uuid|done].
    + destruct Hv as [-> Hn]. rewrite Heq in * by done. injection Hcv as <-. apply (Hget _ as_int64 _ (fun v => ZScalar (Timestamp v)) v); [by apply finds_int64|done].
    + destruct Hv as [-> Hn]. rewrite Heq in * by done. injection Hcv as <-. apply (Hget _ as_uint32 _ (fun v => ZScalar (Date v)) v); [by apply finds_uint32|done].
    + destruct Hv as [-> Hn]. rewrite Heq in * by done. injection Hcv as <-. apply (Hget _ as_int64 _ (fun v => ZScalar (Time v)) v); [by apply finds_int64|done].
    + destruct Hv as [-> Hn]. rewrite Heq in * by done. injection Hcv as <-. apply (Hget _ as_duration _ (fun v => ZScalar (Duration v)) d); [|done].
      intros d0 Hd0 Hw0. exists d0. by apply as_duration_encoded.
    + destruct Hv as (-> & Hl & Hr). rewrite Heq in * by done. injection Hcv as <-.
      assert (remaining (value_decoder value) = address_length a) as Er.
      { rewrite <- (window_length _ Hd), Hw. cbn [encode]. rewrite <- Hl, copy_all. done. }
      change ((a0 <== cass_value_get (as_inet (remaining (value_decoder value))) CASS_ERROR_LIB_INVALID_DATA value; Success (ZScalar (Inet a0)) []) = Success (ZScalar (Inet a)) []).
      rewrite Er. apply (Hget _ (as_inet (address_length a)) _ (fun v => ZScalar (Inet v)) a); [by apply finds_inet|done].
Qed.
End round_trip.
