(* ===== verification/ContainerRoundTrip.v ===== *)
(** What is bound is what is read, for values that hold values: lists, sets, maps, tuples and user
    type values, by induction on the nesting of the value ([ValueRoundTrip] has the scalars). *)
From S2P Require Import Prelude InetUtil Serialization DriverErrors NumberParser UtHash Types Values Collections Decoder DataTypes Conversions ResultDecoder ValueRoundTrip.
#[local] Open Scope Z_scope.

(** ** Values that can be stored *)

Definition all_of {A} (P : A -> Prop) : list A -> Prop := fix go l := match l with [] => True | x :: l' => P x /\ go l' end.

Lemma all_of_Forall {A} (P : A -> Prop) l : all_of P l <-> Forall P l.
Proof. induction l as [|x l IH]; cbn; [done|]. rewrite IH. split; [intros [? ?]; by constructor|by intros H; inversion H]. Qed.

(** The value under a key. *)
Definition found {K V} `{EqDecision K} (k : K) (l : list (K * V)) : option V := option_map snd (List.find (fun f => bool_decide (fst f = k)) l).

Lemma found_snoc {K V} `{EqDecision K} (k j : K) (v : V) l : ~ In j (map fst l) -> found k (l ++ [(j, v)]) = if bool_decide (j = k) then Some v else found k l.
Proof.
  unfold found. induction l as [|[j' v'] l IH]; cbn; intros Hn.
  - by destruct (bool_decide_reflect (j = k)).
  - destruct (bool_decide_reflect (j' = k)) as [->|]; [|apply IH; tauto]. rewrite bool_decide_eq_false_2 by (intros ->; tauto). done.
Qed.

Lemma look_up_found {K} `{EqDecision K} (k : K) (l : list (K * zval)) :
  look_up k (map (fun f => (fst f, plain_value (snd f))) l) = match found k l with Some v => plain_value v | None => PNull end.
Proof. unfold look_up, found. induction l as [|[j v] l IH]; cbn; [done|]. by destruct (bool_decide_reflect (j = k)). Qed.

(** Text without NUL; in a field of a user type text ends at the first one. *)
Definition nul_free (v : zval) : Prop := match v with ZString s => c_string s = s | _ => True end.

(** A field name that denotes its own field and no other. *)
Definition simple_name (name : bytes) : Prop := c_string name = name /\ quoted name = None.

Section containers.
Context {G : Gmp} {GL : GmpLaws G} (zend_hash : bytes -> Z) (depth : nat) (have_custom_type : bool) (names : option bytes -> bytes).

Abbreviation vhash := (php_scylladb_value_hash zend_hash).
Abbreviation vcompare := (php_scylladb_value_compare zend_hash depth).
Abbreviation hash_ok := (hash_ok vhash vcompare (key_ok depth)).
Abbreviation data_type_of := (DataTypes.data_type_of names).
Abbreviation type_from := (php_scylladb_type_from_data_type have_custom_type).
Abbreviation decode := (php_scylladb_value zend_hash depth have_custom_type).

(** The type of an object, beside the type of what it is stored in. *)
Definition own_type (t' t : php_scylladb_type) : Prop := canonical t' = canonical t /\ complete t' = true.

Definition scalar_of (s : php_scylladb_type) (v : zval) : Prop := match s with TScalar c => scalar_ok c v | _ => False end.

Fixpoint storable (cstr : bool) (t : php_scylladb_type) (v : zval) : Prop :=
  match v with
  | ZCollection t' l => own_type t' t /\ match t' with TCollection s => all_of (storable false s) l | _ => False end
  | ZSet t' h => own_type t' t /\ match t' with TSet s => hash_ok h /\ all_of (fun e => scalar_of s (hkey (fst e))) (items h) | _ => False end
  | ZMap t' h =>
      own_type t' t /\
      match t' with
      | TMap k s => hash_ok h /\ all_of (fun e => scalar_of k (hkey (fst e))) (items h) /\ all_of (fun e => storable false s (snd e)) (items h)
      | _ => False
      end
  | ZTuple t' l =>
      own_type t' t /\
      match t' with
      | TTuple types =>
          types <> [] /\ NoDup (map fst l) /\
          all_of (fun f => 0 <= fst f /\ match types !! Z.to_nat (fst f) with Some s => snd f = ZNull \/ storable false s (snd f) | None => False end) l
      | _ => False
      end
  | ZUserTypeValue t' l =>
      own_type t' t /\
      match t' with
      | TUserType _ _ types =>
          types <> [] /\ NoDup (map (fun f => map tolower (fst f)) types) /\ NoDup (map fst l) /\
          all_of (fun f => simple_name (fst f) /\
            match field_type (fst f) types with Some s => snd f = ZNull \/ storable true s (snd f) | None => False end) l
      | _ => False
      end
  | v => match t with TScalar c => scalar_ok c v /\ (cstr = true -> nul_free v) | _ => False end
  end.

(** ** What is shown of each value *)

Definition is_container (v : zval) : bool := match v with ZSet _ _ | ZMap _ _ | ZCollection _ _ | ZTuple _ _ | ZUserTypeValue _ _ => true | _ => false end.

(** [value] is read as [v]. *)
Definition read_as (t : php_scylladb_type) (value : Value) (v : zval) : Prop :=
  is_Some (data_type value) /\ value_is_null value = false /\
  exists z, decode (data_type_of t) value = Success z [] /\ z <> ZNull /\ plain_value z = plain_value v /\ (is_container v = false -> z = v) /\
    forall ty, type_from (data_type_of t) = Some ty -> php_scylladb_validate_object z ty = Valid.

Definition decodes_as (t : php_scylladb_type) (e : bytes) (v : zval) : Prop :=
  forall d rest, in_bounds d -> window d = framed e ++ rest ->
  exists value d', decode_value (data_type_view (data_type_of t)) d = Ok value d' /\ in_bounds d' /\ window d' = rest /\ read_as t value v.

(** A map has its keys and values in turn. *)
Definition complete_items (cv : cass_value) : Prop :=
  match cv with VCollection t items => value_type t = CASS_VALUE_TYPE_MAP -> Nat.odd (length items) = false | _ => True end.

Definition stores (cstr : bool) (t : php_scylladb_type) (v : zval) (cv : cass_value) : Prop :=
  element_value names cstr (type_code t) v = Converted cv /\ cv <> VNull /\ complete_items cv /\ is_valid_data_type cv (data_type_of t) = true /\
  (short (encode cv) -> forall td, canonical td = canonical t -> decodes_as td (encode cv) v).

Definition stored (cstr : bool) (t : php_scylladb_type) (v : zval) : Prop :=
  v <> ZNull /\ php_scylladb_validate_object v t = Valid /\ exists cv, stores cstr t v cv.

(** ** Scalars *)

Lemma duration_not_empty x : valid_duration x -> encode_internal x false <> [].
Proof.
  intros Hx E. pose (d := {| mem := []; input := 0; remaining := 0; supports_v5 := false; is_null := false |}).
  assert (as_duration d = Ok x d) as H; [|by vm_compute in H].
  apply as_duration_encoded; [done|by vm_compute|by rewrite E].
Qed.

(** Only text and bytes may be empty. *)
Lemma scalar_not_empty cstr c v cv : scalar_ok c v -> scalar_value cstr c v = Converted cv ->
  is_text_type c || is_bytes_type c = true \/ encode cv <> [].
Proof using GL.
  intros Hv Hcv. destruct v as [| | |n|bits|s| |o| | | | |]; cbn [scalar_ok] in Hv; try done.
  - subst c. injection Hcv as <-. by right.
  - subst c. injection Hcv as <-. by right.
  - destruct Hv as [-> _]. injection Hcv as <-. by right.
  - destruct Hv as [-> _]. injection Hcv as <-. by right.
  - left. by rewrite Hv.
  - destruct o; cbn [scalar_ok] in Hv; try (destruct Hv as [-> Hn]; injection Hcv as <-; by right).
    + destruct Hv as [[->| ->] _]; injection Hcv as <-; by right.
    + destruct Hv as [-> _]. by left.
    + subst c. by left.
    + destruct Hv as [-> Hd]. injection Hcv as <-. right. by apply duration_not_empty.
    + destruct Hv as (-> & Hl & Hr). injection Hcv as <-. right. cbn [encode]. rewrite <- Hl, copy_all. intros E. rewrite E in Hl. rewrite zlen_nil in Hl. lia.
Qed.

Lemma alias_bytes c' c : alias c' c -> is_text_type c || is_bytes_type c = true -> is_text_type c' || is_bytes_type c' = true.
Proof. intros Ha. by destruct (alias_cases _ _ Ha) as [->|[-> _]]. Qed.

Lemma scalar_shape c v : scalar_ok c v -> is_container v = false /\ v <> ZNull.
Proof. by destruct v. Qed.

Lemma scalar_alias_valid c' c v : scalar_ok c v -> alias c' c -> php_scylladb_validate_object v (TScalar c) = Valid ->
  php_scylladb_validate_object v (TScalar c') = Valid.
Proof.
  intros Hv Ha. destruct (alias_cases _ _ Ha) as [->|[Ht' Ht]]; [done|]. intros H.
  assert (is_string v = true) as Hs.
  { apply text_cases in Ht as [->|[->| ->]]; destruct v; try done. }
  destruct v; try done. apply text_cases in Ht' as [->|[->| ->]]; done.
Qed.

(** Scalars are not made of elements. *)
Lemma scalar_plain cstr c v cv : scalar_value cstr c v = Converted cv -> match cv with VCollection _ _ | VTuple _ _ | VUserType _ _ => False | _ => True end.
Proof.
  unfold scalar_value. intros H. repeat (case_match; try discriminate H); injection H as <-; done.
Qed.

Lemma stored_scalar cstr c v : scalar_ok c v -> (cstr = true -> nul_free v) -> complete (TScalar c) = true -> stored cstr (TScalar c) v.
Proof using GL.
  intros Hv Hc Hcomp. destruct (scalar_converts cstr c v Hv Hc) as (cv & Hcv & Hnn & Hval & Hvalid). destruct (scalar_shape c v Hv) as [Hcon Hnull].
  split; [done|]. split; [done|]. exists cv.
  assert (1 <= c <= 21) as Hr by (cbn in Hcomp; unfold CASS_VALUE_TYPE_DURATION in Hcomp; lia). split.
  { cbn [type_code]. rewrite <- Hcv. unfold CASS_VALUE_TYPE_LIST. destruct v; cbn [element_value];
      (repeat (match goal with |- context [c =? ?k] => replace (c =? k) with false by (unfold CASS_VALUE_TYPE_LIST, CASS_VALUE_TYPE_MAP, CASS_VALUE_TYPE_SET, CASS_VALUE_TYPE_TUPLE, CASS_VALUE_TYPE_UDT; lia) end)); done. }
  split; [done|]. split. { pose proof (scalar_plain cstr c v cv Hcv). by destruct cv. }
  split; [done|]. intros Hsh td Htd. destruct td as [c'| | | | | |]; try discriminate Htd.
  assert (alias c' c) as Ha by done.
  assert (1 <= c' <= 21) as Hr'. { injection Htd as Htd. unfold CASS_VALUE_TYPE_TEXT, CASS_VALUE_TYPE_VARCHAR in Htd. case_match; case_match; lia. }
  assert (Hcol : is_collection_type c' = false) by (unfold is_collection_type, CASS_VALUE_TYPE_LIST, CASS_VALUE_TYPE_MAP, CASS_VALUE_TYPE_SET; lia).
  intros d rest Hd Hw.
  destruct (decode_regular (data_type_view (DSimple c')) d (encode cv) rest Hd Hw Hsh Hcol) as (sub & d' & E & Hd' & Hw' & Hsub & Hwsub).
  { destruct (scalar_not_empty cstr c v cv Hv Hcv); [left; by apply (alias_bytes c' c)|by right]. }
  exists (regular_value (data_type_view (DSimple c')) sub), d'. split; [done|]. split; [done|]. split; [done|].
  split; [by eexists|]. split; [done|]. exists v. split; [by apply (scalar_decodes cstr c c' v cv)|].
  split; [done|]. split; [done|]. split; [done|]. intros ty Hty. cbn -[is_scalar_type] in Hty. case_match; [|done]. injection Hty as <-.
  by apply (scalar_alias_valid c' c).
Qed.

(** ** Loops *)

Lemma zlen_framed e : zlen (framed e) = 4 + zlen e.
Proof. unfold framed. by rewrite zlen_app. Qed.

Lemma concat_member {A} (b : list A) l : In b l -> zlen b <= zlen (concat l).
Proof.
  induction l as [|x l IH]; cbn; [done|]. rewrite zlen_app. pose proof (zlen_nonneg x). pose proof (zlen_nonneg (concat l)). intros [->|Hb]; [lia|]. specialize (IH Hb). lia.
Qed.

Lemma concat_framed_count l : 4 * zlen l <= zlen (concat (map framed l)).
Proof. induction l as [|x l IH]; cbn [map concat]; [done|]. rewrite zlen_app, zlen_framed, zlen_cons. pose proof (zlen_nonneg x). lia. Qed.

Lemma framed_short e l : In e l -> zlen (concat (map framed l)) < 2 ^ 31 -> short e.
Proof. intros He Hl. apply (in_map framed) in He. apply concat_member in He. rewrite zlen_framed in He. unfold short. lia. Qed.

(** Appending to a collection. *)
Lemma append_all {A} T s (f : A -> zval) l :
  (forall items cv, is_valid_data_type cv (data_type_of s) = true -> DataTypes.collection_check T items cv = true) ->
  Forall (fun x => stored false s (f x)) l -> forall items0,
  exists cvs, conv_fold (fun items x => php_scylladb_collection_append (element_value names) T items (f x) (type_code s)) items0 l = Converted (items0 ++ map encode cvs) /\
    Forall2 (fun x cv => stores false s (f x) cv) l cvs.
Proof.
  intros Hcheck. induction 1 as [|x l (_ & _ & cv & Hcv) _ IH]; intros items0; [exists []; rewrite app_nil_r; by split; [|constructor]|].
  destruct (IH (items0 ++ [encode cv])) as (cvs & E & Hcvs). exists (cv :: cvs). split; [|by constructor].
  cbn [conv_fold]. pose proof Hcv as (Ecv & _ & _ & Hval & _). unfold php_scylladb_collection_append at 1. rewrite Ecv. cbn [conv_bind].
  unfold cass_collection_append. rewrite Hcheck by done. cbn [checked conv_bind]. rewrite E. by rewrite <- app_assoc.
Qed.

(** Iterating over the elements of a collection: [P] holds of what was read so far. *)
Lemma each_value_all {A} (f : A -> Value -> outcome A) td (P : list zval -> A -> Prop) xs all pre es :
  all = pre ++ xs -> Forall2 (fun x e => decodes_as td e x) xs es ->
  (forall pre x post a value, all = pre ++ x :: post -> P pre a -> read_as td value x -> exists a', f a value = Success a' [] /\ P (pre ++ [x]) a') ->
  forall a d rest, P pre a -> in_bounds d -> window d = concat (map framed es) ++ rest ->
  exists a', each_value f (data_type_of td) (length es) a d = Success a' [] /\ P all a'.
Proof.
  intros Hall H Hf. revert pre Hall. induction H as [|x e xs es He _ IH]; intros pre Hall a d rest Ha Hd Hw.
  - exists a. split; [done|]. by rewrite Hall, app_nil_r.
  - cbn [map concat] in Hw. rewrite <- app_assoc in Hw. destruct (He d _ Hd Hw) as (value & d' & E & Hd' & Hw' & Hr).
    destruct (Hf pre x xs a value Hall Ha Hr) as (a' & Ea & Ha').
    destruct (IH (pre ++ [x]) ltac:(by rewrite <- app_assoc) a' d' rest Ha' Hd' Hw') as (a2 & E2 & H2).
    exists a2. split; [|done]. cbn [length each_value]. rewrite E. destruct Hr as ([t Ht] & _). rewrite Ht, Ea. cbn [outcome_bind]. by rewrite E2.
Qed.

Lemma own_type_valid t' t : own_type t' t -> php_scylladb_type_compare t' t = 0.
Proof.
  intros [E Hc]. apply type_compare_canonical; [by apply complete_well_named|apply complete_well_named; by apply (complete_alias t t')|done].
Qed.

Lemma stores_decode {A} (f : A -> zval) s std l cvs : canonical std = canonical s -> Forall2 (fun x cv => stores false s (f x) cv) l cvs ->
  zlen (concat (map framed (map encode cvs))) < 2 ^ 31 -> Forall2 (fun x e => decodes_as std e x) (map f l) (map encode cvs).
Proof.
  intros Hs H Hl. assert (forall e, In e (map encode cvs) -> short e) as Hsh by (intros e He; by apply (framed_short e (map encode cvs))). clear Hl.
  induction H as [|x cv l cvs (_ & _ & _ & _ & Hx) _ IH]; cbn; [constructor|]. constructor; [|apply IH; intros e He; apply Hsh; by right].
  apply Hx; [apply Hsh; by left|done].
Qed.

(** ** Lists *)

Lemma collection_encoding t es : value_type (data_type_of t) <> CASS_VALUE_TYPE_MAP -> short (encode (VCollection (data_type_of t) es)) ->
  encode_collection (data_type_of t) es = encode_int32 (zlen es) ++ concat (map framed es) /\ in_s 32 (zlen es) /\ zlen (concat (map framed es)) < 2 ^ 31.
Proof.
  intros Ht Hsh. cbn [encode] in Hsh. unfold encode_collection, short in *. rewrite zlen_app in Hsh. change (encode_items es) with (concat (map framed es)) in *.
  pose proof (concat_framed_count es). pose proof (zlen_nonneg es). pose proof (zlen_nonneg (encode_int32 (get_count (data_type_of t) es))).
  assert (in_s 32 (zlen es)) by (unfold in_s; lia). unfold get_count. replace (value_type (data_type_of t) =? CASS_VALUE_TYPE_MAP) with false by lia.
  rewrite wrapS_id by (done || lia). split; [done|]. split; [done|]. lia.
Qed.

(** A collection is read as [v] when its elements are. *)
Lemma collection_read t td n es v :
  encode_collection (data_type_of t) es = encode_int32 n ++ concat (map framed es) -> in_s 32 n -> short (encode_collection (data_type_of t) es) ->
  canonical td = canonical t -> complete t = true -> is_collection_type (type_code td) = true -> is_container v = true ->
  (forall sub ty, in_bounds sub -> window sub = concat (map framed es) -> type_from (data_type_of td) = Some ty ->
    exists z, decode (data_type_of td) (collection_value (data_type_view (data_type_of td)) n sub) = Success z [] /\ z <> ZNull /\
      plain_value z = plain_value v /\ php_scylladb_validate_object z ty = Valid) ->
  decodes_as td (encode_collection (data_type_of t) es) v.
Proof.
  intros Ec Hn Hsh Htd Hcomp Hcol Hcon Hread d rest Hd Hw. rewrite Ec in Hw, Hsh.
  assert (is_collection (data_type_view (data_type_of td)) = true) as Hcol' by (by destruct td).
  destruct (decode_collection (data_type_view (data_type_of td)) d _ _ rest Hd Hw Hsh Hn Hcol') as (sub & d' & E1 & Hd' & Hw' & Hsub & Hwsub).
  destruct (complete_from_data_type names have_custom_type td) as [ty Hty]; [by apply (complete_alias _ t)|].
  destruct (Hread sub ty Hsub Hwsub Hty) as (z & Ez & Hz & Hp & Hv).
  eexists _, d'. split; [exact E1|]. split; [done|]. split; [done|]. split; [by eexists|]. split; [done|]. exists z.
  split; [done|]. split; [done|]. split; [done|]. split; [by rewrite Hcon|]. intros ty' Hty'. rewrite Hty in Hty'. by injection Hty' as <-.
Qed.

Lemma same_type_refl t : same_type t t = Valid.
Proof. unfold same_type. by rewrite type_compare_refl. Qed.

Lemma stored_collection cstr t s l : own_type (TCollection s) t -> Forall (stored false s) l -> stored cstr t (ZCollection (TCollection s) l).
Proof.
  intros Hown Hl. pose proof Hown as [Ht Hcomp]. destruct t as [| |s0| | | |]; try discriminate Ht.
  split; [done|]. split; [cbn; unfold same_type; by rewrite own_type_valid|].
  destruct (append_all (data_type_of (TCollection s)) s (fun x => x) l ltac:(done) Hl []) as (cvs & E & Hcvs). cbn [app] in E.
  exists (VCollection (data_type_of (TCollection s)) (map encode cvs)). split.
  { change (php_scylladb_collection_from_collection (element_value names) (data_type_of (TCollection s)) (TCollection s) l = Converted (VCollection (data_type_of (TCollection s)) (map encode cvs))).
    unfold php_scylladb_collection_from_collection. change (new_object (cass_collection_new (data_type_of (TCollection s)))) with (Converted (@nil bytes)).
    cbn [conv_bind]. by rewrite E. }
  split; [done|]. split; [done|]. split; [by apply equals_canonical|].
  intros Hsh td Htd. rewrite <- Ht in Htd. destruct td as [| |std| | | |]; try discriminate Htd. injection Htd as Hstd.
  destruct (collection_encoding (TCollection s) (map encode cvs) ltac:(done) Hsh) as (Ec & Hn & Hlen). cbn [encode].
  apply (collection_read _ _ _ _ _ Ec Hn Hsh); [cbn; by rewrite Hstd|done..|]. intros sub ty Hsub Hwsub Hty.
  pose proof Hty as Hty'. cbn in Hty'. destruct (type_from (data_type_of std)) as [sty|] eqn:Hsty; [|done]. injection Hty' as <-.
  pose proof (stores_decode (fun x => x) s std l cvs Hstd Hcvs Hlen) as Hdec. rewrite map_id in Hdec.
  edestruct (each_value_all (fun c v => z <== into_uninitialised (decode (data_type_of std) v); Success (php_scylladb_collection_add z c) []) std
    (fun pre c => map plain_value (map snd (collection_values c)) = map plain_value pre) l l [] _ eq_refl Hdec) as (c & E2 & Hc).
  { intros pre x post a value _ Ha (_ & _ & z & Ez & _ & Hz & _). rewrite Ez. eexists. split; [done|]. cbn. rewrite !map_app, Ha. cbn. by rewrite Hz. }
  { instantiate (1 := new_collection sty). done. }
  { exact Hsub. }
  { by rewrite app_nil_r. }
  exists (ZCollection (TCollection sty) (map snd (collection_values c))). split.
  { cbn [DataTypes.data_type_of php_scylladb_value value_is_null collection_value]. change (php_scylladb_type_from_data_type _ _) with (type_from (data_type_of (TCollection std))). rewrite Hty.
    change (list_value decode (TCollection sty) (data_type_of std) (collection_value (data_type_view (data_type_of (TCollection std))) (zlen (map encode cvs)) sub) = Success (ZCollection (TCollection sty) (map snd (collection_values c))) []).
    unfold list_value. cbn [count value_decoder collection_value]. unfold zlen. rewrite Nat2Z.id, E2. done. }
  split; [done|]. split; [cbn; by rewrite Hc|]. apply same_type_refl.
Qed.

(** ** Sets *)

Definition keys {V} (h : hash zval V) : list zval := map (fun e => hkey (fst e)) (items h).

Lemma keys_contents {V} (h : hash zval V) : keys h = map fst (contents h).
Proof. unfold keys, contents. by rewrite map_map. Qed.

Lemma key_ok_keys {V} (h : hash zval V) x : hash_ok h -> In x (keys h) -> key_ok depth x.
Proof.
  intros Hh (e & <- & He)%in_map_iff. apply (key_ok_of vhash vcompare (key_ok depth) h); [done|]. apply list_elem_of_In, in_map_iff. by exists e.
Qed.

(** The keys of a table differ from one another. *)
Lemma keys_distinct {V} (h : hash zval V) pre x post k : hash_ok h -> keys h = pre ++ x :: post -> In k pre -> vcompare k x <> 0.
Proof.
  intros Hh E Hk Hz. apply map_eq_app in E as (l1 & l2' & El & <- & E2). apply map_eq_cons in E2 as (e & l2 & -> & <- & _).
  apply in_map_iff in Hk as (e1 & <- & He1). pose proof (addrs_ok _ _ _ h Hh) as Hnd. rewrite El in Hnd.
  assert (fst e1 = fst e) as Ee.
  { apply (distinct_ok _ _ _ h Hh); [..|done]; apply list_elem_of_In, in_map_iff; rewrite El; eexists; (split; [done|]); apply in_or_app; [by left|right; by left]. }
  rewrite !fmap_app, !fmap_cons in Hnd. apply list.NoDup_app in Hnd as (_ & Hnd & _). apply (Hnd (addr (fst e))); [|by left].
  apply list_elem_of_In, in_map_iff. exists (fst e1). split; [by rewrite Ee|]. by apply (in_map fst).
Qed.

(** A key that differs from those of the table is not found. *)
Lemma not_found {V} (h : hash zval V) x : hash_ok h -> key_ok depth x -> (forall k, In k (keys h) -> vcompare k x <> 0) -> hash_find vhash vcompare x h = None.
Proof.
  intros Hh Hx Hk. pose proof (hash_find_elem vhash vcompare (key_ok depth) x h Hh Hx) as Hf. destruct (hash_find vhash vcompare x h) as [e|]; [|done].
  destruct Hf as [He Hz]. apply list_elem_of_In, in_map_iff in He as (e0 & <- & He). destruct (Hk (hkey (fst e0))); [by apply (in_map (fun e => hkey (fst e)))|done].
Qed.

Lemma add_keys {V} (h : hash zval V) x v : hash_ok h -> key_ok depth x -> hash_find vhash vcompare x h = None ->
  hash_ok (hash_add vhash x v h) /\ keys (hash_add vhash x v h) = keys h ++ [x] /\ contents (hash_add vhash x v h) = contents h ++ [(x, v)].
Proof.
  intros Hh Hx Hf. destruct (add_ok vhash vcompare (key_ok depth) x v h Hh Hx Hf) as [Ho Ec]. split; [done|]. split; [|done]. by rewrite keys_contents, Ec, map_app, <- keys_contents.
Qed.

Lemma scalar_of_stored s v : complete s = true -> scalar_of s v -> stored false s v /\ is_container v = false.
Proof using GL.
  intros Hc Hv. destruct s; try done. split; [by apply stored_scalar|by apply (scalar_shape type v)].
Qed.

Lemma stored_set cstr t s h : own_type (TSet s) t -> hash_ok h -> Forall (fun e => scalar_of s (hkey (fst e))) (items h) -> stored cstr t (ZSet (TSet s) h).
Proof using GL.
  intros Hown Hh Hl. pose proof Hown as [Ht Hcomp]. destruct t as [| | | |s0| |]; try discriminate Ht.
  split; [done|]. split; [cbn; unfold same_type; by rewrite own_type_valid|].
  destruct (append_all (data_type_of (TSet s)) s (fun e : handle zval * unit => hkey (fst e)) (items h) ltac:(done)) with (items0 := @nil bytes) as (cvs & E & Hcvs).
  { eapply Forall_impl; [|exact Hl]. intros e He. by apply scalar_of_stored. } cbn [app] in E.
  exists (VCollection (data_type_of (TSet s)) (map encode cvs)). split.
  { change (php_scylladb_collection_from_set (element_value names) (data_type_of (TSet s)) (TSet s) h = Converted (VCollection (data_type_of (TSet s)) (map encode cvs))).
    unfold php_scylladb_collection_from_set. change (new_object (cass_collection_new (data_type_of (TSet s)))) with (Converted (@nil bytes)).
    cbn [conv_bind]. by rewrite E. }
  split; [done|]. split; [done|]. split; [by apply equals_canonical|].
  intros Hsh td Htd. rewrite <- Ht in Htd. destruct td as [| | | |std| |]; try discriminate Htd. injection Htd as Hstd.
  destruct (collection_encoding (TSet s) (map encode cvs) ltac:(done) Hsh) as (Ec & Hn & Hlen). cbn [encode].
  apply (collection_read _ _ _ _ _ Ec Hn Hsh); [cbn; by rewrite Hstd|done..|]. intros sub ty Hsub Hwsub Hty.
  pose proof Hty as Hty'. cbn in Hty'. destruct (type_from (data_type_of std)) as [sty|] eqn:Hsty; [|done]. injection Hty' as <-.
  pose proof (stores_decode _ s std (items h) cvs Hstd Hcvs Hlen) as Hdec. change (map _ (items h)) with (keys h) in Hdec.
  edestruct (each_value_all (fun c v => z <== into_uninitialised (decode (data_type_of std) v); of_reply (php_scylladb_set_add zend_hash depth c z)) std
    (fun pre c => hash_ok (set_entries c) /\ set_value_type c = sty /\ keys (set_entries c) = pre) (keys h) (keys h) [] _ eq_refl Hdec) as (c & E2 & _ & _ & Hc).
  { intros pre x post a value Eall (Ha & Hat & Hak) (_ & _ & z & Ez & Hz0 & _ & Hz & Hzv). rewrite Ez.
    assert (In x (keys h)) as Hx by (rewrite Eall; apply in_or_app; right; by left).
    assert (z = x) as ->. { apply Hz. apply in_map_iff in Hx as (e & <- & He). apply (scalar_of_stored s); [done|]. eapply Forall_forall in Hl; [exact Hl|done]. }
    pose proof (key_ok_keys h x Hh Hx) as Hxk.
    assert (hash_find vhash vcompare x (set_entries a) = None) as Hf by (apply not_found; [done..|]; rewrite Hak; intros k Hk; by apply (keys_distinct h pre x post)).
    cbn [into_uninitialised outcome_bind]. unfold php_scylladb_set_add. replace (Collections.is_null x) with false by (by destruct x).
    rewrite Hat, (Hzv sty Hsty). cbn [accepted negb]. rewrite Hf. eexists. split; [done|]. cbn [set_entries set_value_type snd].
    destruct (add_keys (set_entries a) x tt Ha Hxk Hf) as (? & -> & _). by rewrite Hak. }
  { instantiate (1 := new_set sty). split; [apply empty_hash_ok|done]. }
  { exact Hsub. }
  { by rewrite app_nil_r. }
  exists (ZSet (TSet sty) (set_entries c)). split.
  { cbn [DataTypes.data_type_of php_scylladb_value value_is_null collection_value]. change (php_scylladb_type_from_data_type _ _) with (type_from (data_type_of (TSet std))). rewrite Hty.
    change (set_value zend_hash depth decode (TSet sty) (data_type_of std) (collection_value (data_type_view (data_type_of (TSet std))) (zlen (map encode cvs)) sub) = Success (ZSet (TSet sty) (set_entries c)) []).
    unfold set_value. cbn [count value_decoder collection_value]. unfold zlen. rewrite Nat2Z.id, E2. done. }
  split; [done|]. split.
  { cbn [plain_value]. unfold keys in Hc. by rewrite <- !(map_map (fun e : handle zval * unit => hkey (fst e)) plain_value), Hc. }
  apply same_type_refl.
Qed.

(** ** Maps *)

Definition pair_items (cps : list (cass_value * cass_value)) : list bytes := concat (map (fun p => [encode (fst p); encode (snd p)]) cps).

Lemma pair_items_length cps : length (pair_items cps) = (2 * length cps)%nat.
Proof. unfold pair_items. induction cps as [|p cps IH]; cbn [map concat app length]; [done|]. rewrite IH. lia. Qed.

Lemma append_pairs k s (l : list (zval * zval)) : Forall (fun e => stored false k (fst e) /\ stored false s (snd e)) l ->
  forall items0, Nat.even (length items0) = true ->
  exists cps, conv_fold (fun items e => items <~ php_scylladb_collection_append (element_value names) (data_type_of (TMap k s)) items (fst e) (type_code k);
      php_scylladb_collection_append (element_value names) (data_type_of (TMap k s)) items (snd e) (type_code s)) items0 l = Converted (items0 ++ pair_items cps) /\
    Forall2 (fun e p => stores false k (fst e) (fst p) /\ stores false s (snd e) (snd p)) l cps.
Proof.
  induction 1 as [|e l [(_ & _ & ck & Hck) (_ & _ & cs & Hcs)] _ IH]; intros items0 He; [exists []; rewrite app_nil_r; by split; [|constructor]|].
  destruct (IH (items0 ++ [encode ck; encode cs])) as (cps & E & Hcps); [rewrite length_app, Nat.even_add, He; done|]. exists ((ck, cs) :: cps).
  split; [|by constructor]. cbn [conv_fold]. pose proof Hck as (Eck & _ & _ & Hvk & _). pose proof Hcs as (Ecs & _ & _ & Hvs & _).
  unfold php_scylladb_collection_append at 1. rewrite Eck. cbn [conv_bind]. unfold cass_collection_append at 1.
  assert (DataTypes.collection_check (data_type_of (TMap k s)) items0 ck = true) as -> by (cbn; by rewrite He).
  cbn [checked conv_bind]. unfold php_scylladb_collection_append at 1. rewrite Ecs. cbn [conv_bind]. unfold cass_collection_append at 1.
  assert (DataTypes.collection_check (data_type_of (TMap k s)) (items0 ++ [encode ck]) cs = true) as ->.
  { cbn. rewrite length_app, Nat.add_comm. cbn [length Nat.add]. rewrite Nat.even_succ, <- Nat.negb_even, He. done. }
  cbn [checked conv_bind]. rewrite <- app_assoc. cbn [app]. rewrite E, <- app_assoc. done.
Qed.

Lemma each_pair_all {A} (f : A -> Value -> Value -> outcome A) tk tv (P : list (zval * zval) -> A -> Prop) xs all pre es :
  all = pre ++ xs -> Forall2 (fun x e => decodes_as tk (fst e) (fst x) /\ decodes_as tv (snd e) (snd x)) xs es ->
  (forall pre x post a vk vv, all = pre ++ x :: post -> P pre a -> read_as tk vk (fst x) -> read_as tv vv (snd x) -> exists a', f a vk vv = Success a' [] /\ P (pre ++ [x]) a') ->
  forall a d rest, P pre a -> in_bounds d -> window d = concat (map (fun e => framed (fst e) ++ framed (snd e)) es) ++ rest ->
  exists a', each_pair f (data_type_of tk) (data_type_of tv) (length es) a d = Success a' [] /\ P all a'.
Proof.
  intros Hall H Hf. revert pre Hall. induction H as [|x e xs es [Hk Hv] _ IH]; intros pre Hall a d rest Ha Hd Hw.
  - exists a. split; [done|]. by rewrite Hall, app_nil_r.
  - cbn [map concat] in Hw. rewrite <- !app_assoc in Hw. destruct (Hk d _ Hd Hw) as (value & d1 & E & Hd1 & Hw1 & Hr).
    destruct (Hv d1 _ Hd1 Hw1) as (value2 & d2 & E2 & Hd2 & Hw2 & Hr2).
    destruct (Hf pre x xs a value value2 Hall Ha Hr Hr2) as (a' & Ea & Ha').
    destruct (IH (pre ++ [x]) ltac:(by rewrite <- app_assoc) a' d2 rest Ha' Hd2 Hw2) as (a2 & E3 & H3).
    exists a2. split; [|done]. cbn [length each_pair]. rewrite E. destruct Hr as ([t Ht] & _). rewrite Ht, E2. destruct Hr2 as ([t2 Ht2] & _). rewrite Ht2, Ea.
    cbn [outcome_bind]. by rewrite E3.
Qed.

Lemma pair_items_framed cps : concat (map framed (pair_items cps)) = concat (map (fun e => framed (fst e) ++ framed (snd e)) (map (fun p => (encode (fst p), encode (snd p))) cps)).
Proof. unfold pair_items. induction cps as [|p cps IH]; [done|]. cbn [map concat app fst snd]. by rewrite IH, <- app_assoc. Qed.

Lemma stores_decode_pairs k s tk ts l cps : canonical tk = canonical k -> canonical ts = canonical s ->
  Forall2 (fun e p => stores false k (fst e) (fst p) /\ stores false s (snd e) (snd p)) l cps ->
  zlen (concat (map framed (pair_items cps))) < 2 ^ 31 ->
  Forall2 (fun x e => decodes_as tk (fst e) (fst x) /\ decodes_as ts (snd e) (snd x)) l (map (fun p => (encode (fst p), encode (snd p))) cps).
Proof.
  intros Hk Hs H Hl. assert (forall e, In e (pair_items cps) -> short e) as Hsh by (intros e He; by apply (framed_short e (pair_items cps))). clear Hl.
  induction H as [|x [ck cs] l cps [(_ & _ & _ & _ & Hck) (_ & _ & _ & _ & Hcs)] _ IH]; cbn [map]; [constructor|]. constructor; [split|].
  - apply Hck; [apply Hsh; by left|done].
  - apply Hcs; [apply Hsh; right; by left|done].
  - apply IH. intros e He. apply Hsh. right. by right.
Qed.

Lemma map_encoding k s cps : short (encode_collection (data_type_of (TMap k s)) (pair_items cps)) ->
  encode_collection (data_type_of (TMap k s)) (pair_items cps) = encode_int32 (zlen cps) ++ concat (map framed (pair_items cps)) /\
  in_s 32 (zlen cps) /\ zlen (concat (map framed (pair_items cps))) < 2 ^ 31.
Proof.
  intros Hsh. unfold encode_collection, short in *. rewrite zlen_app in Hsh. change (encode_items (pair_items cps)) with (concat (map framed (pair_items cps))) in *.
  pose proof (concat_framed_count (pair_items cps)) as Hc. pose proof (zlen_nonneg cps).
  assert (zlen (pair_items cps) = 2 * zlen cps) as El by (unfold zlen; rewrite pair_items_length; lia).
  match type of Hsh with zlen (encode_int32 ?c) + _ < _ => pose proof (zlen_nonneg (encode_int32 c)) end.
  assert (in_s 32 (zlen cps)) by (unfold in_s; lia). unfold get_count. cbn [data_type_of value_type]. rewrite Z.eqb_refl, El.
  rewrite Z.mul_comm, Z.div_mul by lia. rewrite wrapS_id by (done || lia). split; [done|]. split; [done|]. lia.
Qed.

Lemma conv_fold_map {A B C} (f : A -> B -> conv A) (g : C -> B) l : forall a, conv_fold f a (map g l) = conv_fold (fun a x => f a (g x)) a l.
Proof. induction l as [|x l IH]; intros a; cbn; [done|]. destruct (f a (g x)); cbn; [apply IH|done..]. Qed.

(** One step of reading a map: [m] has the entries [pre], up to the representation of the values. *)
Definition entries_read (kty sty : php_scylladb_type) (pre : list (zval * zval)) (m : php_scylladb_map) : Prop :=
  hash_ok (map_entries m) /\ map_key_type m = kty /\ map_value_type m = sty /\ keys (map_entries m) = map fst pre /\
  map (fun kv => plain_value (snd kv)) (contents (map_entries m)) = map (fun kv => plain_value (snd kv)) pre.

Lemma map_set_read tk ts kty sty (h : hash zval zval) pre k v post m vk vv :
  hash_ok h -> contents h = pre ++ (k, v) :: post -> is_container k = false -> type_from (data_type_of tk) = Some kty -> type_from (data_type_of ts) = Some sty ->
  entries_read kty sty pre m -> read_as tk vk k -> read_as ts vv v ->
  exists m', (zk <== into_uninitialised (decode (data_type_of tk) vk); zv <== into_uninitialised (decode (data_type_of ts) vv); of_reply (php_scylladb_map_set zend_hash depth m zk zv)) = Success m' [] /\
    entries_read kty sty (pre ++ [(k, v)]) m'.
Proof.
  intros Hh Eall Hk Hkty Hsty (Hm & Hmk & Hmv & Hkeys & Hvals) (_ & _ & zk & -> & Hzk0 & _ & Hzk & Hvk) (_ & _ & zv & -> & Hzv0 & Hpv & _ & Hvv).
  rewrite (Hzk Hk) in *. assert (keys h = map fst pre ++ k :: map fst post) as Ek by (by rewrite keys_contents, Eall, map_app).
  assert (key_ok depth k) as Hkk by (apply (key_ok_keys h); [done|rewrite Ek; apply in_or_app; right; by left]).
  assert (hash_find vhash vcompare k (map_entries m) = None) as Hf.
  { apply not_found; [done..|]. rewrite Hkeys. intros k' Hk'. by apply (keys_distinct h (map fst pre) k (map fst post)). }
  cbn [into_uninitialised outcome_bind]. unfold php_scylladb_map_set. replace (Collections.is_null k) with false by (by destruct k). replace (Collections.is_null zv) with false by (by destruct zv).
  rewrite Hmk, Hmv, (Hvk _ Hkty), (Hvv _ Hsty). cbn [accepted negb]. rewrite Hf. eexists. split; [done|].
  destruct (add_keys (map_entries m) k zv Hm Hkk Hf) as (Ho & Ekeys & Ec). unfold entries_read. cbn [snd map_entries map_key_type map_value_type].
  split; [done|]. split; [done|]. split; [done|]. split; [by rewrite Ekeys, Hkeys, map_app|]. rewrite Ec, !map_app, Hvals. cbn. by rewrite Hpv.
Qed.

Lemma plain_entries (l1 l2 : list (zval * zval)) : map fst l1 = map fst l2 ->
  map (fun kv => plain_value (snd kv)) l1 = map (fun kv => plain_value (snd kv)) l2 ->
  map (fun kv => (plain_value (fst kv), plain_value (snd kv))) l1 = map (fun kv => (plain_value (fst kv), plain_value (snd kv))) l2.
Proof. revert l2. induction l1 as [|x l1 IH]; intros [|y l2] E1 E2; try done. cbn in *. injection E1 as Ex E1. injection E2 as Ey E2. by rewrite Ex, Ey, (IH l2). Qed.

Lemma stored_map cstr t k s h : own_type (TMap k s) t -> hash_ok h -> Forall (fun e => scalar_of k (hkey (fst e))) (items h) ->
  Forall (fun e => stored false s (snd e)) (items h) -> stored cstr t (ZMap (TMap k s) h).
Proof using GL.
  intros Hown Hh Hl Hls. pose proof Hown as [Ht Hcomp]. destruct t as [| | |k0 s0| | |]; try discriminate Ht.
  split; [done|]. split; [cbn; unfold same_type; by rewrite own_type_valid|]. pose proof Hcomp as Hcomp'. cbn in Hcomp'. apply andb_prop in Hcomp' as [Hck Hcs].
  destruct (append_pairs k s (contents h)) with (items0 := @nil bytes) as (cps & E & Hcps); [|done|].
  { unfold contents. apply Forall_map. eapply Forall_impl; [|exact (List.Forall_and Hl Hls)]. intros e [He Hes]. split; [by apply scalar_of_stored|done]. }
  cbn [app] in E. unfold contents in E. rewrite conv_fold_map in E.
  exists (VCollection (data_type_of (TMap k s)) (pair_items cps)). split.
  { change (php_scylladb_collection_from_map (element_value names) (data_type_of (TMap k s)) (TMap k s) h = Converted (VCollection (data_type_of (TMap k s)) (pair_items cps))).
    unfold php_scylladb_collection_from_map. change (new_object (cass_collection_new (data_type_of (TMap k s)))) with (Converted (@nil bytes)).
    cbn [conv_bind]. cbn [fst snd] in E. by rewrite E. }
  split; [done|]. split. { cbn [complete_items]. intros _. rewrite pair_items_length. by rewrite <- Nat.negb_even, Nat.even_mul. }
  split; [by apply equals_canonical|].
  intros Hsh td Htd. rewrite <- Ht in Htd. destruct td as [| | |tk ts| | |]; try discriminate Htd. injection Htd as Htk Hts.
  destruct (map_encoding k s cps Hsh) as (Ec & Hn & Hlen). cbn [encode].
  apply (collection_read _ _ _ _ _ Ec Hn Hsh); [cbn; by rewrite Htk, Hts|done..|]. intros sub ty Hsub Hwsub Hty.
  pose proof Hty as Hty'. cbn in Hty'. destruct (type_from (data_type_of tk)) as [kty|] eqn:Hkty; [|done]. destruct (type_from (data_type_of ts)) as [sty|] eqn:Hsty; [|done]. injection Hty' as <-.
  pose proof (stores_decode_pairs k s tk ts _ cps Htk Hts Hcps Hlen) as Hdec.
  edestruct (each_pair_all (fun m k v => zk <== into_uninitialised (decode (data_type_of tk) k); zv <== into_uninitialised (decode (data_type_of ts) v); of_reply (php_scylladb_map_set zend_hash depth m zk zv)) tk ts
    (entries_read kty sty) (contents h) (contents h) [] _ eq_refl Hdec) as (m & E2 & _ & _ & _ & Hmk & Hmv).
  { intros pre [k' v'] post a vk vv Eall Ha Hrk Hrv. apply (map_set_read tk ts kty sty h pre k' v' post a vk vv); try done.
    assert (In (k', v') (contents h)) as Hx by (rewrite Eall; apply in_or_app; right; by left). apply in_map_iff in Hx as (e & [= <- <-] & He).
    apply (scalar_of_stored k); [done|]. eapply Forall_forall in Hl; [exact Hl|done]. }
  { instantiate (1 := new_map kty sty). split; [apply empty_hash_ok|done]. }
  { exact Hsub. }
  { rewrite app_nil_r, Hwsub. apply pair_items_framed. }
  exists (ZMap (TMap kty sty) (map_entries m)). split.
  { cbn [DataTypes.data_type_of php_scylladb_value value_is_null collection_value]. change (php_scylladb_type_from_data_type _ _) with (type_from (data_type_of (TMap tk ts))). rewrite Hty.
    change (map_value zend_hash depth decode (TMap kty sty) (data_type_of tk) (data_type_of ts) (collection_value (data_type_view (data_type_of (TMap tk ts))) (zlen cps) sub) = Success (ZMap (TMap kty sty) (map_entries m)) []).
    unfold map_value. cbn [count value_decoder collection_value]. unfold zlen. rewrite Nat2Z.id. rewrite length_map in E2. by rewrite E2. }
  split; [done|]. split; [|apply same_type_refl]. rewrite keys_contents in Hmk. pose proof (plain_entries _ _ Hmk Hmv) as Hp. unfold contents in Hp. rewrite !map_map in Hp. cbn [plain_value]. by f_equal.
Qed.

(** ** Components of tuples and fields of user types *)

(** The bytes of a component: null when it was not set. *)
Definition slot (cstr : bool) (s : php_scylladb_type) (o : option zval) (b : bytes) : Prop :=
  match o with
  | None | Some ZNull => b = encode_int32 (-1)
  | Some v => exists cv, stores cstr s v cv /\ b = framed (encode cv)
  end.

Lemma slot_stores cstr s v cv : v <> ZNull -> stores cstr s v cv -> slot cstr s (Some v) (framed (encode cv)).
Proof. intros Hv Hs. destruct v; try done; by exists cv. Qed.

Lemma slot_length cstr s o b : slot cstr s o b -> 4 <= zlen b.
Proof.
  unfold slot. assert (forall e, 4 <= zlen (framed e)) as Hf by (intros e; rewrite zlen_framed; pose proof (zlen_nonneg e); lia).
  destruct o as [[]|]; try (intros (cv & _ & ->); apply Hf); intros ->; done.
Qed.

Record component (K : Type) := { ckey : K; ctype : php_scylladb_type; cval : option zval; cbytes : bytes }.
Arguments ckey {K}. Arguments ctype {K}. Arguments cval {K}. Arguments cbytes {K}. Arguments Build_component {K}.

(** What a component says when it is read. *)
Definition component_ok {K} (c : component K) : Prop :=
  match cval c with
  | None | Some ZNull => cbytes c = encode_int32 (-1)
  | Some v => exists e, cbytes c = framed e /\ decodes_as (ctype c) e v
  end.

Lemma slot_component {K} cstr s (c : component K) : slot cstr s (cval c) (cbytes c) -> canonical (ctype c) = canonical s -> zlen (cbytes c) < 2 ^ 31 -> component_ok c.
Proof.
  unfold slot, component_ok. intros Hs Ht Hl.
  assert (Hd : forall v, (exists cv, stores cstr s v cv /\ cbytes c = framed (encode cv)) -> exists e, cbytes c = framed e /\ decodes_as (ctype c) e v).
  { intros v (cv & (_ & _ & _ & _ & Hst) & E). exists (encode cv). split; [done|]. apply Hst; [|done]. rewrite E, zlen_framed in Hl. unfold short. lia. }
  destruct (cval c) as [[]|]; try done; by apply Hd.
Qed.

Definition plain_opt (o : option zval) : plain := match o with Some v => plain_value v | None => PNull end.

(** What was read of the components so far. *)
Definition components_read {K} `{EqDecision K} (pre : list (component K)) (l : list (K * zval)) : Prop :=
  Forall (fun c => plain_opt (found (ckey c) l) = plain_opt (cval c)) pre /\ Forall (fun f => In (fst f) (map ckey pre)) l.

Lemma components_skip {K} `{EqDecision K} pre (c : component K) l : ~ In (ckey c) (map ckey pre) -> plain_opt (cval c) = PNull ->
  components_read pre l -> components_read (pre ++ [c]) l.
Proof.
  intros Hc Hn [Hp Hl]. split.
  - apply Forall_app. split; [done|]. constructor; [|constructor]. rewrite Hn. replace (found (ckey c) l) with (@None zval); [done|].
    unfold found. destruct (List.find _ l) as [f|] eqn:E; [|done]. apply find_some in E as [Hf Ef]. apply bool_decide_eq_true_1 in Ef.
    eapply Forall_forall in Hl; [|exact Hf]. by rewrite Ef in Hl.
  - eapply Forall_impl; [|exact Hl]. intros f Hf. rewrite map_app. apply in_or_app. by left.
Qed.

Lemma components_add {K} `{EqDecision K} pre (c : component K) l v z : ~ In (ckey c) (map ckey pre) -> cval c = Some v -> plain_value z = plain_value v ->
  components_read pre l -> components_read (pre ++ [c]) (l ++ [(ckey c, z)]).
Proof.
  intros Hc Hv Hz [Hp Hl]. assert (~ In (ckey c) (map fst l)) as Hn.
  { intros (f & Ef & Hf)%in_map_iff. eapply Forall_forall in Hl; [|exact Hf]. by rewrite Ef in Hl. }
  split; apply Forall_app; (split; [|constructor; [|constructor]]).
  - apply Forall_forall. intros c' Hc'. rewrite found_snoc by done. rewrite bool_decide_eq_false_2; [|intros E; apply Hc; rewrite E; by apply in_map].
    eapply Forall_forall in Hp; [exact Hp|done].
  - rewrite found_snoc, bool_decide_eq_true_2 by done. by rewrite Hv.
  - eapply Forall_impl; [|exact Hl]. intros f Hf. rewrite map_app. apply in_or_app. by left.
  - rewrite map_app. apply in_or_app. right. by left.
Qed.

Lemma each_component_all {K T A} (f : A -> Z -> T -> Value -> outcome A) (type : T -> CassDataType) (tt : component K -> T) (P : list (component K) -> A -> Prop) cs all pre :
  all = pre ++ cs -> Forall component_ok cs -> (forall c, type (tt c) = data_type_of (ctype c)) ->
  (forall pre c post a, all = pre ++ c :: post -> plain_opt (cval c) = PNull -> P pre a -> P (pre ++ [c]) a) ->
  (forall pre c post a v value, all = pre ++ c :: post -> cval c = Some v -> read_as (ctype c) value v -> P pre a ->
    exists a', f a (zlen pre) (tt c) value = Success a' [] /\ P (pre ++ [c]) a') ->
  forall a d rest, P pre a -> in_bounds d -> window d = concat (map cbytes cs) ++ rest ->
  exists a', each_component f type (zlen pre) (map tt cs) a d = Success a' [] /\ P all a'.
Proof.
  intros Hall H Htt Hskip Hread. revert pre Hall. induction H as [|c cs Hc _ IH]; intros pre Hall a d rest Ha Hd Hw.
  { exists a. split; [done|]. by rewrite Hall, app_nil_r. }
  cbn [map concat] in Hw. rewrite <- app_assoc in Hw. cbn [map each_component]. rewrite Htt.
  match goal with |- exists a', ?m = _ /\ _ => set (step := m) end.
  assert (Hnext : forall value d' a', decode_value (data_type_view (data_type_of (ctype c))) d = Ok value d' -> in_bounds d' -> window d' = concat (map cbytes cs) ++ rest ->
    is_Some (data_type value) -> (if value_is_null value then Success a [] else f a (zlen pre) (tt c) value) = Success a' [] -> P (pre ++ [c]) a' ->
    exists a', step = Success a' [] /\ P all a').
  { intros value d' a' Ed Hd' Hw' [t Ht] Ef Ha'. unfold step. rewrite Ed, Ht, Ef. destruct (IH (pre ++ [c]) ltac:(by rewrite <- app_assoc) a' d' rest Ha' Hd' Hw') as (a2 & E2 & H2).
    exists a2. split; [|done]. rewrite zlen_app in E2. cbn [outcome_bind]. change (zlen [c]) with 1 in E2. by rewrite E2. }
  assert (Hnull : plain_opt (cval c) = PNull -> cbytes c = encode_int32 (-1) -> exists a', step = Success a' [] /\ P all a').
  { intros Hn E. rewrite E in Hw. destruct (decode_null (data_type_view (data_type_of (ctype c))) d _ Hd Hw) as (d' & Ed & Hd' & Hw').
    apply (Hnext _ d' a Ed Hd' Hw'); [by eexists|done|]. by apply (Hskip pre c cs). }
  assert (Hsome : forall v, cval c = Some v -> (exists e, cbytes c = framed e /\ decodes_as (ctype c) e v) -> exists a', step = Success a' [] /\ P all a').
  { intros v Hv (e & E & Hdec). rewrite E in Hw. destruct (Hdec d _ Hd Hw) as (value & d' & Ed & Hd' & Hw' & Hr).
    destruct (Hread pre c cs a v value Hall Hv Hr Ha) as (a' & Ea & Ha'). apply (Hnext value d' a' Ed Hd' Hw'); [apply Hr| |done]. destruct Hr as (_ & -> & _). done. }
  unfold component_ok in Hc. destruct (cval c) as [[]|] eqn:Ev; try (by apply Hnull); by eapply Hsome.
Qed.

(** Reading all the components. *)
Lemma components_decode {K T} `{EqDecision K} (f : list (K * zval) -> Z -> T -> Value -> outcome (list (K * zval))) (type : T -> CassDataType) (tt : component K -> T) all d :
  Forall component_ok all -> NoDup (map ckey all) -> (forall c, type (tt c) = data_type_of (ctype c)) ->
  (forall pre c post l value, all = pre ++ c :: post -> ~ In (ckey c) (map fst l) ->
    f l (zlen pre) (tt c) value = (z <== into_uninitialised (decode (data_type_of (ctype c)) value); Success (l ++ [(ckey c, z)]) [])) ->
  in_bounds d -> window d = concat (map cbytes all) ->
  exists l, each_component f type 0 (map tt all) [] d = Success l [] /\ Forall (fun c => plain_opt (found (ckey c) l) = plain_opt (cval c)) all.
Proof.
  intros Hok Hnd Htt Hf Hd Hw.
  assert (forall pre c post, all = pre ++ c :: post -> ~ In (ckey c) (map ckey pre)) as Hnew.
  { intros pre c post -> Hin. rewrite map_app in Hnd. cbn in Hnd. apply list.NoDup_app in Hnd as (_ & Hnd & _). apply (Hnd (ckey c)); [by apply list_elem_of_In|by left]. }
  edestruct (each_component_all f type tt components_read all all [] eq_refl Hok Htt) as (l & E & [Hl _]); [..|by exists l].
  - intros pre c post l E Hn. apply components_skip; [by apply (Hnew pre c post)|done].
  - intros pre c post l v value E Hv (_ & _ & z & Ez & _ & Hz & _) Hl. rewrite (Hf pre c post l value E).
    + rewrite Ez. eexists. split; [done|]. apply (components_add pre c l v z); [by apply (Hnew pre c post)|done..].
    + destruct Hl as [_ Hl]. intros (g & Eg & Hg)%in_map_iff. eapply Forall_forall in Hl; [|exact Hg]. rewrite Eg in Hl. by apply (Hnew pre c post).
  - by split.
  - exact Hd.
  - by rewrite app_nil_r.
Qed.

(** A value made of components is read as [v] when they are. *)
Lemma composite_read t td e v : canonical td = canonical t -> complete t = true -> short e -> e <> [] -> is_collection_type (type_code td) = false -> is_container v = true ->
  (forall sub ty, in_bounds sub -> window sub = e -> type_from (data_type_of td) = Some ty ->
    exists z, decode (data_type_of td) (regular_value (data_type_view (data_type_of td)) sub) = Success z [] /\ z <> ZNull /\
      plain_value z = plain_value v /\ php_scylladb_validate_object z ty = Valid) ->
  decodes_as td e v.
Proof.
  intros Htd Hcomp Hsh He Hcol Hcon Hread d rest Hd Hw.
  assert (is_collection (data_type_view (data_type_of td)) = false) as Hcol' by (by destruct td).
  destruct (decode_regular (data_type_view (data_type_of td)) d e rest Hd Hw Hsh Hcol' (or_intror He)) as (sub & d' & E1 & Hd' & Hw' & Hsub & Hwsub).
  destruct (complete_from_data_type names have_custom_type td) as [ty Hty]; [by apply (complete_alias _ t)|].
  destruct (Hread sub ty Hsub Hwsub Hty) as (z & Ez & Hz & Hp & Hv).
  eexists _, d'. split; [exact E1|]. split; [done|]. split; [done|]. split; [by eexists|]. split; [done|]. exists z.
  split; [done|]. split; [done|]. split; [done|]. split; [by rewrite Hcon|]. intros ty' Hty'. rewrite Hty in Hty'. by injection Hty' as <-.
Qed.

Lemma map_seq_nth {A B} (g : A -> B) d l : map (fun i => g (nth i l d)) (seq 0 (length l)) = map g l.
Proof. induction l as [|x l IH]; [done|]. cbn [length seq map]. f_equal. rewrite <- seq_shift, map_map. exact IH. Qed.

Lemma all_some_length {A B} (f : A -> option B) l r : all_some f l = Some r -> length r = length l.
Proof.
  revert r. induction l as [|x l IH]; intros r E; cbn in E; [by injection E as <-|]. destruct (f x); [|done].
  destruct (all_some f l) as [r'|]; [|done]. injection E as <-. cbn. by rewrite (IH r').
Qed.

(** ** Tuples *)

Lemma encode_with_length_framed cv : cv <> VNull -> encode_with_length cv = framed (encode cv).
Proof. by destruct cv. Qed.

Lemma framed_not_nil e : framed e <> [].
Proof. intros E. pose proof (zlen_framed e) as H. rewrite E, zlen_nil in H. pose proof (zlen_nonneg e). lia. Qed.

Lemma stored_or_null cstr s v : v = ZNull \/ stored cstr s v -> validated v s = Converted tt /\
  exists cv, match v with ZNull => Converted VNull | _ => element_value names cstr (type_code s) v end = Converted cv /\
    is_valid_data_type cv (data_type_of s) = true /\ complete_items cv /\ slot cstr s (Some v) (encode_with_length cv).
Proof.
  unfold validated. intros [->|(Hv & -> & cv & Hcv)]; [split; [done|by exists VNull]|]. split; [done|]. exists cv. pose proof Hcv as (E & Hn & Hi & Hval & _).
  split; [rewrite <- E; by destruct v|]. split; [done|]. split; [done|]. rewrite encode_with_length_framed by done. by apply slot_stores.
Qed.

Definition tuple_slot (b : bytes) : bytes := if is_nil b then encode_int32 (-1) else b.

(** The items of a tuple when [l] has been set. *)
Definition tuple_items (types : list php_scylladb_type) (l : list (Z * zval)) (items : list bytes) : Prop :=
  length items = length types /\
  forall i s, types !! i = Some s -> exists b, items !! i = Some b /\ slot false s (found (Z.of_nat i) l) (tuple_slot b).

Lemma slot_tuple_slot cstr s o b : slot cstr s o b -> tuple_slot b = b.
Proof. intros H. apply slot_length in H. unfold tuple_slot. by destruct b; [rewrite zlen_nil in H|]. Qed.

Lemma tuple_set_all types l : Forall (fun f => 0 <= fst f /\ match types !! Z.to_nat (fst f) with Some s => snd f = ZNull \/ stored false s (snd f) | None => False end) l ->
  forall pre items0, NoDup (map fst (pre ++ l)) -> tuple_items types pre items0 ->
  exists items, conv_fold (fun items f => match types !! Z.to_nat (fst f) with
      | None => Refused Unexplained
      | Some sub => _ <~ validated (snd f) sub; php_scylladb_tuple_set (element_value names) (data_type_of (TTuple types)) items (fst f) (snd f) (type_code sub)
      end) items0 l = Converted items /\ tuple_items types (pre ++ l) items.
Proof.
  induction 1 as [|[i v] l [Hi Hv] _ IH]; intros pre items0 Hnd Hitems; [exists items0; by rewrite app_nil_r|].
  cbn [fst snd] in Hi, Hv. destruct (types !! Z.to_nat i) as [s|] eqn:Es; [|done]. destruct (stored_or_null false s v Hv) as (Hval & cv & Ecv & Hcv & _ & Hslot).
  destruct Hitems as [Hlen Hitems]. pose proof (lookup_lt_Some _ _ _ Es) as Hlt.
  destruct (IH (pre ++ [(i, v)]) (<[Z.to_nat i := encode_with_length cv]> items0)) as (items & E & H).
  { by rewrite <- app_assoc. }
  { split; [by rewrite length_insert|]. intros j s' Hs'. assert (~ In i (map fst pre)) as Hn.
    { rewrite map_app in Hnd. cbn in Hnd.  intros Hin. apply list.NoDup_app in Hnd as (_ & Hnd & _). apply (Hnd i); [by apply list_elem_of_In|by left]. }
    rewrite found_snoc by done. destruct (bool_decide_reflect (i = Z.of_nat j)) as [->|Hne].
    - rewrite Nat2Z.id in *. rewrite Es in Hs'. injection Hs' as <-. eexists. rewrite list_lookup_insert_eq by lia. split; [done|]. by rewrite (slot_tuple_slot _ _ _ _ Hslot).
    - rewrite list_lookup_insert_ne by lia. by apply Hitems. }
  exists items. rewrite <- app_assoc in H. split; [|done]. cbn [conv_fold fst snd]. rewrite Es, Hval. cbn [conv_bind]. unfold php_scylladb_tuple_set at 1. rewrite Ecv. cbn [conv_bind].
  unfold cass_tuple_set. replace (zlen items0 <? i) with false by (unfold zlen; lia). cbn [DataTypes.data_type_of sub_types].
  rewrite list_lookup_fmap, Es. cbn [fmap option_fmap option_map]. rewrite Hcv. cbn [negb]. replace (i =? zlen items0) with false by (unfold zlen; lia). cbn [checked conv_bind]. exact E.
Qed.

Lemma nth_lookup {A} (l : list A) i x d : l !! i = Some x -> nth i l d = x.
Proof. revert i. induction l as [|y l IH]; intros [|i] H; try done; [by injection H as ->|by apply IH]. Qed.

Lemma stored_tuple cstr t types l : own_type (TTuple types) t -> types <> [] -> NoDup (map fst l) ->
  Forall (fun f => 0 <= fst f /\ match types !! Z.to_nat (fst f) with Some s => snd f = ZNull \/ stored false s (snd f) | None => False end) l ->
  stored cstr t (ZTuple (TTuple types) l).
Proof.
  intros Hown Hne Hnd Hl. pose proof Hown as [Ht Hcomp]. destruct t as [| | | | |types0|]; try discriminate Ht.
  split; [done|]. split; [cbn; unfold same_type; by rewrite own_type_valid|].
  destruct (tuple_set_all types l Hl [] (map (fun _ => []) (map data_type_of types)) Hnd) as (items & E & Hlen & Hitems).
  { split; [by rewrite !length_map|]. intros i s Es. exists []. rewrite !list_lookup_fmap, Es. done. }
  exists (VTuple (data_type_of (TTuple types)) items). split.
  { change (php_scylladb_tuple_from_tuple (element_value names) (data_type_of (TTuple types)) (TTuple types) l = Converted (VTuple (data_type_of (TTuple types)) items)).
    unfold php_scylladb_tuple_from_tuple. change (new_object (cass_tuple_new (data_type_of (TTuple types)))) with (Converted (map (fun _ : CassDataType => @nil Z) (map data_type_of types))).
    cbn [conv_bind]. by rewrite E. }
  split; [done|]. split; [done|]. split; [by apply equals_canonical|].
  intros Hsh td Htd. rewrite <- Ht in Htd. destruct td as [| | | | |tys|]; try discriminate Htd. injection Htd as Htys.
  assert (length tys = length types) as Elen by (by rewrite <- (length_map canonical tys), Htys, length_map).
  pose (c i := {| ckey := Z.of_nat i; ctype := nth i tys (TScalar 0); cval := found (Z.of_nat i) l; cbytes := tuple_slot (nth i items []) |}).
  assert (encode_tuple items = concat (map cbytes (map c (seq 0 (length types))))) as Ee.
  { rewrite map_map. unfold c. cbn [cbytes]. rewrite <- Hlen. by rewrite (map_seq_nth tuple_slot). }
  assert (forall i s, types !! i = Some s -> slot false s (cval (c i)) (cbytes (c i))) as Hslots.
  { intros i s Es. destruct (Hitems i s Es) as (b & Eb & Hs). unfold c. cbn [cval cbytes]. by rewrite (nth_lookup _ _ _ [] Eb). }
  cbn [encode] in *. apply (composite_read (TTuple types)); try done.
  { cbn. by rewrite Htys. }
  { rewrite Ee. destruct types as [|s0 types1]; [done|]. pose proof (slot_length _ _ _ _ (Hslots 0%nat s0 eq_refl)) as H4. cbn [length seq map concat].
    destruct (cbytes (c 0%nat)); [rewrite zlen_nil in H4; lia|done]. }
  intros sub ty Hsub Hwsub Hty. pose proof Hty as Hty'. cbn in Hty'. destruct (all_some _ (map data_type_of tys)) as [tyl|] eqn:Htyl; [|done]. injection Hty' as <-.
  destruct (components_decode (fun l i t v => z <== into_uninitialised (decode t v); Success (l ++ [(i, z)]) []) id (fun c => data_type_of (ctype c)) (map c (seq 0 (length types))) sub) as (l2 & E2 & Hl2); try done.
  { apply Forall_map, Forall_forall. intros i Hi. apply in_seq in Hi. destruct (lookup_lt_is_Some_2 types i ltac:(lia)) as [s Es].
    apply (slot_component false s); [by apply Hslots| |].
    - unfold c. cbn [ctype]. apply (f_equal (fun l => l !! i)) in Htys. rewrite !list_lookup_fmap, Es in Htys.
      destruct (tys !! i) as [ts|] eqn:Ets; [|done]. injection Htys as Hts. by rewrite (nth_lookup _ _ _ _ Ets).
    - eapply Z.le_lt_trans; [apply concat_member|unfold short in Hsh; rewrite Ee in Hsh; exact Hsh]. apply in_map, in_map, in_seq. lia. }
  { rewrite map_map. apply (NoDup_fmap_2 Z.of_nat). apply NoDup_ListNoDup, seq_NoDup. }
  { intros pre c0 post l0 value Eall _. assert (ckey c0 = zlen pre) as ->; [|done].
    apply (f_equal (fun l => l !! length pre)) in Eall. rewrite list_lookup_middle in Eall by done. rewrite list_lookup_fmap in Eall.
    destruct (seq 0 (length types) !! length pre) as [j|] eqn:Ej; [|done]. apply lookup_seq in Ej as [-> _]. injection Eall as <-. done. }
  { by rewrite Hwsub. }
  exists (ZTuple (TTuple tyl) l2). split.
  { cbn [DataTypes.data_type_of php_scylladb_value value_is_null regular_value]. change (php_scylladb_type_from_data_type _ _) with (type_from (data_type_of (TTuple tys))). rewrite Hty.
    change (tuple_value decode (TTuple tyl) (map data_type_of tys) (regular_value (data_type_view (data_type_of (TTuple tys))) sub) = Success (ZTuple (TTuple tyl) l2) []).
    unfold tuple_value. cbn [value_decoder regular_value]. rewrite map_map in E2. unfold c in E2. cbn [ctype] in E2.
    rewrite <- Elen, (map_seq_nth data_type_of) in E2. by rewrite E2. }
  split; [done|]. split; [|apply same_type_refl]. cbn [plain_value arity]. f_equal.
  rewrite (all_some_length _ _ _ Htyl), length_map, Elen. apply map_ext_in. intros i Hi. rewrite !look_up_found.
  eapply Forall_forall in Hl2; [|apply in_map; exact Hi]. exact Hl2.
Qed.

(** ** User type values *)

Lemma find_indices_none n l : forall k, ~ In (map tolower n) (map (map tolower) l) -> find_indices (iequals n) k l = [].
Proof.
  induction l as [|x l IH]; intros k Hn; [done|]. cbn [find_indices]. unfold iequals at 1. rewrite bool_decide_eq_false_2 by (intros E; apply Hn; left; done).
  apply IH. intros H. apply Hn. by right.
Qed.

(** A name denotes one field when the names differ in more than case. *)
Lemma find_indices_unique n l i : NoDup (map (map tolower) l) -> l !! i = Some n -> forall k, find_indices (iequals n) k l = [(k + i)%nat].
Proof.
  revert i. induction l as [|x l IH]; intros i Hnd Hi k; [done|]. cbn [map] in Hnd. apply list.NoDup_cons in Hnd as [Hx Hnd]. cbn [find_indices]. unfold iequals at 1. destruct i as [|i].
  - injection Hi as ->. rewrite bool_decide_eq_true_2 by done. rewrite find_indices_none; [by rewrite Nat.add_0_r|]. by rewrite <- list_elem_of_In.
  - rewrite bool_decide_eq_false_2.
    + cbn [app]. rewrite (IH i Hnd Hi). f_equal. lia.
    + intros E. apply Hx. rewrite <- E. apply list_elem_of_In, in_map, list_elem_of_In. by eapply list_elem_of_lookup_2.
Qed.

Lemma element_of_ok s cv v : complete_items cv -> slot true s (Some v) (encode_with_length cv) ->
  exists e, element_of cv = inr e /\ slot true s (Some v) (encode_element e).
Proof.
  intros Hi Hs. assert (Hbuf : encode_element (Buf (encode_with_length cv)) = encode_with_length cv).
  { pose proof (slot_length _ _ _ _ Hs) as Hl. cbn. by destruct (encode_with_length cv); [rewrite zlen_nil in Hl|]. }
  destruct cv; try (eexists; split; [reflexivity|]; by rewrite Hbuf); [by exists Nul|].
  exists (Coll t items). cbn [element_of complete_items] in *. destruct (Z.eqb_spec (value_type t) CASS_VALUE_TYPE_MAP) as [E|]; cbn [andb]; [rewrite (Hi E)|]; done.
Qed.

Definition field_elements (types : list (bytes * php_scylladb_type)) (l : list (bytes * zval)) (els : list element) : Prop :=
  length els = length types /\
  forall i n s, types !! i = Some (n, s) -> exists e, els !! i = Some e /\ slot true s (found n l) (encode_element e).

Lemma field_type_lookup n types s : field_type n types = Some s -> exists i, types !! i = Some (n, s).
Proof.
  unfold field_type. destruct (List.find _ types) as [[n' s']|] eqn:E; [|done]. intros [= <-]. apply find_some in E as [Hin En]. apply bool_decide_eq_true_1 in En. cbn in En. subst n'.
  apply list_elem_of_In, list_elem_of_lookup_1 in Hin. done.
Qed.

Lemma set_field ks tn types els n s v cv i : NoDup (map (fun f => map tolower (fst f)) types) -> simple_name n -> types !! i = Some (n, s) -> length els = length types ->
  is_valid_data_type cv (data_type_of s) = true -> complete_items cv -> slot true s (Some v) (encode_with_length cv) ->
  exists e, set_by_name (map fst (fields (data_type_of (TUserType ks tn types)))) (map (fun f => Some (snd f)) (fields (data_type_of (TUserType ks tn types)))) els (c_string n) cv = inr (<[i := e]> els) /\
    slot true s (Some v) (encode_element e).
Proof.
  intros Hnd [Hc Hq] Hi Hlen Hval Hitems Hs. destruct (element_of_ok s cv v Hitems Hs) as (e & He & Hse). exists e. split; [|done].
  cbn [DataTypes.data_type_of fields]. rewrite !map_map. cbn [fst snd]. rewrite Hc. unfold set_by_name, get_indices. rewrite Hq.
  rewrite (find_indices_unique n (map (fun x => fst x) types) i) with (k := 0%nat).
  - cbn [Nat.add set_indices]. unfold abstract_set. pose proof (lookup_lt_Some _ _ _ Hi) as Hlt. replace (length els <=? i)%nat with false by (symmetry; apply Nat.leb_gt; lia).
    rewrite list_lookup_fmap, Hi. cbn [fmap option_fmap option_map snd]. rewrite Hval. cbn [negb]. by rewrite He.
  - by rewrite map_map.
  - by rewrite list_lookup_fmap, Hi.
Qed.

Lemma user_type_set_all ks tn types l : NoDup (map (fun f => map tolower (fst f)) types) ->
  Forall (fun f => simple_name (fst f) /\ match field_type (fst f) types with Some s => snd f = ZNull \/ stored true s (snd f) | None => False end) l ->
  forall pre els0, NoDup (map fst (pre ++ l)) -> field_elements types pre els0 ->
  exists els, conv_fold (fun l f => match field_type (fst f) types with
      | None => Refused Unexplained
      | Some sub => _ <~ validated (snd f) sub; php_scylladb_user_type_set (element_value names) (data_type_of (TUserType ks tn types)) l (fst f) (snd f) (type_code sub)
      end) els0 l = Converted els /\ field_elements types (pre ++ l) els.
Proof.
  intros Hlow. induction 1 as [|[n v] l [Hn Hv] _ IH]; intros pre els0 Hnd Hels; [exists els0; by rewrite app_nil_r|].
  cbn [fst snd] in Hn, Hv. destruct (field_type n types) as [s|] eqn:Es; [|done]. destruct (stored_or_null true s v Hv) as (Hval & cv & Ecv & Hcv & Hitems & Hslot).
  destruct (field_type_lookup n types s Es) as [i Hi]. destruct Hels as [Hlen Hels].
  destruct (set_field ks tn types els0 n s v cv i Hlow Hn Hi Hlen Hcv Hitems Hslot) as (e & Eset & Hse). pose proof (lookup_lt_Some _ _ _ Hi) as Hlt.
  destruct (IH (pre ++ [(n, v)]) (<[i := e]> els0)) as (els & E & H).
  { by rewrite <- app_assoc. }
  { split; [by rewrite length_insert|]. intros j n' s' Hj. assert (~ In n (map fst pre)) as Hnew.
    { rewrite map_app in Hnd. cbn in Hnd. intros Hin. apply list.NoDup_app in Hnd as (_ & Hnd & _). apply (Hnd n); [by apply list_elem_of_In|by left]. }
    rewrite found_snoc by done. destruct (decide (i = j)) as [->|Hne].
    - rewrite Hi in Hj. injection Hj as <- <-. rewrite bool_decide_eq_true_2 by done. exists e. by rewrite list_lookup_insert_eq by lia.
    - rewrite bool_decide_eq_false_2; [rewrite list_lookup_insert_ne by done; by apply Hels|]. intros <-. apply Hne.
      apply (NoDup_lookup _ i j (map tolower n) Hlow); by rewrite list_lookup_fmap, ?Hi, ?Hj. }
  exists els. rewrite <- app_assoc in H. split; [|done]. cbn [conv_fold fst snd]. rewrite Es, Hval. cbn [conv_bind]. unfold php_scylladb_user_type_set at 1. rewrite Ecv. cbn [conv_bind].
  rewrite Eset. cbn [checked conv_bind]. exact E.
Qed.

Lemma all_some_names {B C D} (f : B -> option C) (l : list (D * B)) r : all_some (fun x => option_map (pair (fst x)) (f (snd x))) l = Some r -> map fst r = map fst l.
Proof.
  revert r. induction l as [|[n x] l IH]; intros r E; cbn in E; [by injection E as <-|]. destruct (f x); [|done]. cbn in E.
  destruct (all_some _ l) as [r'|]; [|done]. injection E as <-. cbn. by rewrite (IH r').
Qed.

Lemma put_field_new n z l : ~ In n (map fst l) -> put_field n z l = l ++ [(n, z)].
Proof.
  intros Hn. unfold put_field. destruct (existsb _ l) eqn:E; [|done]. apply existsb_exists in E as (f & Hf & Ef). apply bool_decide_eq_true_1 in Ef. subst n.
  destruct Hn. by apply in_map.
Qed.

Lemma NoDup_of_map {A B} (f : A -> B) l : NoDup (map f l) -> NoDup l.
Proof. apply NoDup_fmap_1. Qed.

Lemma stored_user_type cstr t ks tn types l : own_type (TUserType ks tn types) t -> types <> [] -> NoDup (map (fun f => map tolower (fst f)) types) -> NoDup (map fst l) ->
  Forall (fun f => simple_name (fst f) /\ match field_type (fst f) types with Some s => snd f = ZNull \/ stored true s (snd f) | None => False end) l ->
  stored cstr t (ZUserTypeValue (TUserType ks tn types) l).
Proof.
  intros Hown Hne Hlow Hnd Hl. pose proof Hown as [Ht Hcomp]. destruct t as [| | | | | |ks0 tn0 types0]; try discriminate Ht.
  split; [done|]. split; [cbn; unfold same_type; by rewrite own_type_valid|]. set (t' := TUserType ks tn types) in *.
  destruct (user_type_set_all ks tn types l Hlow Hl [] (map (fun _ => Unset) (fields (data_type_of t'))) Hnd) as (els & E & Hlen & Hels).
  { split; [cbn; by rewrite !length_map|]. intros i n s Es. exists Unset. cbn. rewrite !list_lookup_fmap, Es. done. }
  exists (VUserType (data_type_of t') els). split.
  { change (php_scylladb_user_type_from_user_type_value (element_value names) (data_type_of t') t' l = Converted (VUserType (data_type_of t') els)).
    unfold php_scylladb_user_type_from_user_type_value. change (new_object (cass_user_type_new (data_type_of t'))) with (Converted (map (fun _ : bytes * CassDataType => Unset) (fields (data_type_of t')))).
    cbn [conv_bind]. fold t' in E. unfold t' at 1. by rewrite E. }
  split; [done|]. split; [done|]. split; [by apply equals_canonical|].
  intros Hsh td Htd. rewrite <- Ht in Htd. destruct td as [| | | | | |tks ttn tys]; try discriminate Htd. pose proof Htd as Htd0. cbn in Htd. injection Htd as -> -> Htys.
  assert (length tys = length types) as Elen by (apply (f_equal length) in Htys; by rewrite !length_map in Htys).
  assert (map fst tys = map fst types) as Enames by (apply (f_equal (map fst)) in Htys; by rewrite !map_map in Htys).
  pose (dflt := (@nil Z, TScalar 0)).
  pose (c i := {| ckey := fst (nth i tys dflt); ctype := snd (nth i tys dflt); cval := found (fst (nth i tys dflt)) l; cbytes := encode_element (nth i els Unset) |}).
  assert (encode_elements els = concat (map cbytes (map c (seq 0 (length types))))) as Ee.
  { rewrite map_map. unfold c. cbn [cbytes]. rewrite <- Hlen. by rewrite (map_seq_nth encode_element). }
  assert (forall i f, types !! i = Some f -> slot true (snd f) (cval (c i)) (cbytes (c i)) /\ canonical (ctype (c i)) = canonical (snd f)) as Hslots.
  { intros i [n s] Es. destruct (Hels i n s Es) as (e & Eel & Hs). unfold c. cbn [cval cbytes ctype snd].
    apply (f_equal (fun l => l !! i)) in Htys. rewrite !list_lookup_fmap, Es in Htys. destruct (tys !! i) as [[n' s']|] eqn:Ets; [|done]. injection Htys as -> Hs'.
    rewrite (nth_lookup _ _ _ dflt Ets), (nth_lookup _ _ _ Unset Eel). done. }
  cbn [encode] in *. apply (composite_read t'); try done.
  { rewrite Ee. destruct types as [|s0 types1]; [done|]. pose proof (slot_length _ _ _ _ (proj1 (Hslots 0%nat s0 eq_refl))) as H4. cbn [length seq map concat].
    destruct (cbytes (c 0%nat)); [rewrite zlen_nil in H4; lia|done]. }
  intros sub ty Hsub Hwsub Hty. pose proof Hty as Hty'. cbn in Hty'. destruct (all_some _ _) as [tyl|] eqn:Htyl; [|done]. injection Hty' as <-.
  destruct (components_decode (fun l _ f v => z <== into_uninitialised (decode (snd f) v); Success (put_field (fst f) z l) []) snd (fun c => (ckey c, data_type_of (ctype c))) (map c (seq 0 (length types))) sub) as (l2 & E2 & Hl2); try done.
  { apply Forall_map, Forall_forall. intros i Hi. apply in_seq in Hi. destruct (lookup_lt_is_Some_2 types i ltac:(lia)) as [f Es]. destruct (Hslots i f Es) as [Hs Hc].
    apply (slot_component true (snd f)); [done|done|].
    eapply Z.le_lt_trans; [apply concat_member|unfold short in Hsh; rewrite Ee in Hsh; exact Hsh]. apply in_map, in_map, in_seq. lia. }
  { rewrite map_map. unfold c. cbn [ckey]. rewrite <- Elen, (map_seq_nth fst), Enames. apply (NoDup_of_map (map tolower)). by rewrite map_map. }
  { intros pre c0 post l0 value _ Hnew. cbn [fst snd]. destruct (decode _ value); [|done..]. cbn. by rewrite put_field_new. }
  { by rewrite Hwsub. }
  exists (ZUserTypeValue (TUserType (Some (names ks)) (Some (names tn)) tyl) l2). split.
  { cbn [DataTypes.data_type_of php_scylladb_value value_is_null regular_value]. change (php_scylladb_type_from_data_type _ _) with (type_from (data_type_of (TUserType ks tn tys))). rewrite Hty.
    unfold user_type_value. cbn [value_decoder regular_value]. rewrite map_map in E2. unfold c in E2. cbn [ckey ctype] in E2.
    rewrite <- Elen, (map_seq_nth (fun f => (fst f, data_type_of (snd f)))) in E2. by rewrite E2. }
  split; [done|]. split; [|apply same_type_refl]. cbn [plain_value field_names t']. f_equal.
  assert (map fst tyl = map fst tys) as -> by (etransitivity; [exact (all_some_names type_from _ _ Htyl)|by rewrite map_map]).
  rewrite <- Enames. apply map_ext_in. intros n Hn. f_equal. rewrite !look_up_found.
  apply in_map_iff in Hn as (f & <- & Hf). apply (In_nth _ _ dflt) in Hf as (i & Hi & <-). eapply Forall_forall in Hl2; [|apply in_map, in_seq; instantiate (1 := i); lia]. exact Hl2.
Qed.

(** ** All values *)

Lemma depth_member {A} (f : A -> nat) x l : In x l -> (f x <= list_depth (map f l))%nat.
Proof. induction l as [|y l IH]; cbn [In map list_depth fold_right]; [done|]. intros [->|Hx]; [lia|]. specialize (IH Hx). unfold list_depth in IH. lia. Qed.

Lemma forallb_lookup {A} (f : A -> bool) l i x : forallb f l = true -> l !! i = Some x -> f x = true.
Proof. intros H Hi. rewrite forallb_forall in H. apply H, list_elem_of_In. by eapply list_elem_of_lookup_2. Qed.

Lemma storable_stored n : forall cstr t v, (value_depth v < n)%nat -> complete t = true -> storable cstr t v -> stored cstr t v.
Proof using GL.
  induction n as [|n IH]; intros cstr t v Hn Ht Hv; [lia|].
  assert (Hsc : match t with TScalar c => scalar_ok c v /\ (cstr = true -> nul_free v) | _ => False end -> stored cstr t v).
  { destruct t; try done. intros [? ?]. by apply stored_scalar. }
  destruct v as [| | | | | | | |t' h|t' h|t' l|t' l|t' l]; try (by apply Hsc); destruct Hv as [Hown Hv]; destruct t'; try done; pose proof Hown as [_ Hc]; cbn [complete value_depth] in Hc, Hn.
  - destruct Hv as [Hh Hv]. apply stored_set; [done..|]. by apply all_of_Forall.
  - apply andb_prop in Hc as [Hck Hcs]. destruct Hv as (Hh & Hk & Hs). apply stored_map; [done|done|by apply all_of_Forall|].
    apply all_of_Forall in Hs. apply Forall_forall. intros e He. eapply Forall_forall in Hs; [|exact He]. apply IH; [|done..].
    pose proof (depth_member (fun e : handle zval * zval => Nat.max (value_depth (hkey (fst e))) (value_depth (snd e))) e (items h) He). cbn beta in *. lia.
  - apply stored_collection; [done|]. apply all_of_Forall in Hv. apply Forall_forall. intros e He. eapply Forall_forall in Hv; [|exact He]. apply IH; [|done..].
    pose proof (depth_member value_depth e l He). lia.
  - destruct Hv as (Hne & Hnd & Hv). apply stored_tuple; [done..|]. apply all_of_Forall in Hv. apply Forall_forall. intros f Hf. eapply Forall_forall in Hv; [|exact Hf].
    destruct Hv as [Hi Hv]. split; [done|]. destruct (types !! Z.to_nat (fst f)) as [s|] eqn:Es; [|done]. destruct Hv as [Hv|Hv]; [by left|right]. apply IH; [|by eapply forallb_lookup|done].
    pose proof (depth_member (fun f => value_depth (snd f)) f l Hf). cbn beta in *. lia.
  - destruct Hv as (Hne & Hlow & Hnd & Hv). apply stored_user_type; [done..|]. apply all_of_Forall in Hv. apply Forall_forall. intros f Hf. eapply Forall_forall in Hv; [|exact Hf].
    destruct Hv as [Hi Hv]. split; [done|]. destruct (field_type (fst f) types) as [s|] eqn:Es; [|done]. destruct Hv as [Hv|Hv]; [by left|right].
    destruct keyspace, type_name; try done. destruct (field_type_lookup _ _ _ Es) as [i Ei]. apply IH; [|by apply (forallb_lookup _ _ _ _ Hc Ei)|done].
    pose proof (depth_member (fun f => value_depth (snd f)) f l Hf). cbn beta in *. lia.
Qed.

(** A set of the tuples (1, null) and (null, 1), as a server sends it. *)
Definition pair_type : php_scylladb_type := TTuple [TScalar CASS_VALUE_TYPE_INT; TScalar CASS_VALUE_TYPE_INT].
Definition pair_set : bytes :=
  encode_collection (data_type_of (TSet pair_type)) [encode_tuple [framed (encode_int32 1); []]; encode_tuple [[]; framed (encode_int32 1)]].
Definition received (e : bytes) : decoder := {| mem := framed e; input := 0; remaining := zlen (framed e); supports_v5 := false; is_null := false |}.

(** C4: what is bound is what is read.  A value of a type, nested as it may be, is converted for the
    driver; its encoding, decoded with that type and read back as a column, is the same value: the
    same elements in the same order, the same components and fields, null where nothing was set.  The
    values are those the wire can carry: integers of their width, no varint whose encoding drops the
    sign, no custom types, sets and maps of scalars, distinct field names without NUL.  The limits are
    real: a set read with the tuples (1, null) and (null, 1) keeps one of them, as tuples are
    compared without their positions; text in a field of a user type is cut at its first NUL; an integer is cut
    to 32 bits. *)
Theorem bound_value_read_back t v :
  complete t = true -> storable false t v ->
  (exists cv, element_value names false (type_code t) v = Converted cv /\
     (short (encode cv) -> forall td d rest, canonical td = canonical t -> in_bounds d -> window d = framed (encode cv) ++ rest ->
      exists value d' z, decode_value (data_type_view (data_type_of td)) d = Ok value d' /\ in_bounds d' /\ window d' = rest /\
        php_scylladb_value zend_hash depth have_custom_type (data_type_of td) value = Success z [] /\ plain_value z = plain_value v)) /\
  (match decode_value (data_type_view (data_type_of (TSet pair_type))) (received pair_set) with
   | Ok value _ => match php_scylladb_value zend_hash 2 have_custom_type (data_type_of (TSet pair_type)) value with
                   | Success (ZSet _ h) [] => count value = 2 /\ num_items h = 1
                   | _ => False end
   | _ => False end) /\
  element_value names true CASS_VALUE_TYPE_TEXT (ZString [97; 0; 98]) = Converted (VString [97]) /\
  element_value names false CASS_VALUE_TYPE_INT (ZLong (2 ^ 32 + 7)) = Converted (VInt32 7).
Proof using GL.
  intros Ht Hv. split.
  { destruct (storable_stored (S (value_depth v)) false t v ltac:(lia) Ht Hv) as (_ & _ & cv & E & _ & _ & _ & Hdec). exists cv. split; [done|].
    intros Hsh td d rest Htd Hd Hw. destruct (Hdec Hsh td Htd d rest Hd Hw) as (value & d' & Ed & Hd' & Hw' & _ & _ & z & Ez & _ & Hz & _). by exists value, d', z. }
  split; [|done]. vm_compute. done.
Qed.
End containers.

(** A map from text to lists of pairs, the second pair with one component. *)
Definition witness_pairs : php_scylladb_type := TCollection pair_type.
Definition witness_type : php_scylladb_type := TMap (TScalar CASS_VALUE_TYPE_TEXT) witness_pairs.
Definition witness_list : zval := ZCollection witness_pairs [ZTuple pair_type [(1, ZLong 5); (0, ZLong 4)]; ZTuple pair_type [(1, ZLong (-7))]].
Definition witness_map : zval := ZMap witness_type (hash_add (php_scylladb_value_hash (fun _ => 0)) (ZString (bs "k")) witness_list empty_hash).

Definition id_names (n : option bytes) : bytes := match n with Some s => s | None => [] end.

Definition witness_value : cass_value :=
  match element_value (G := GmpModel.gmp) id_names false CASS_VALUE_TYPE_MAP witness_map with Converted cv => cv | _ => VNull end.

Lemma bound_value_read_back_witness :
  exists cv, element_value (G := GmpModel.gmp) id_names false CASS_VALUE_TYPE_MAP witness_map = Converted cv /\ short (encode cv) /\
    exists value d' z, decode_value (data_type_view (DataTypes.data_type_of id_names witness_type)) (received (encode cv)) = Ok value d' /\ in_bounds d' /\ window d' = [] /\
      php_scylladb_value (G := GmpModel.gmp) (fun _ => 0) 2 false (DataTypes.data_type_of id_names witness_type) value = Success z [] /\ plain_value z = plain_value witness_map.
Proof.
  destruct (bound_value_read_back (G := GmpModel.gmp) (GL := GmpModel.gmp_laws) (fun _ => 0) 2 false id_names witness_type witness_map) as [(cv & E & H) _].
  - reflexivity.
  - split; [by split|]. split; [|split].
    + apply (add_ok _ _ (key_ok 2)); [apply empty_hash_ok|split; [reflexivity|cbn; lia]|reflexivity].
    + by split.
    + split; [|done]. split; [by split|]. split; [|split; [|done]]; (split; [by split|]; split; [done|]; split; [apply (bool_decide_unpack _); by vm_compute|]);
        repeat split; try done; right; (split; [|done]); (split; [done|]); unfold in_s; lia.
  - exists cv. split; [exact E|]. assert (cv = witness_value) as -> by (unfold witness_value; change CASS_VALUE_TYPE_MAP with (type_code witness_type); by rewrite E).
    assert (short (encode witness_value)) as Hs by (vm_compute; reflexivity). split; [exact Hs|].
    apply (H Hs witness_type); [reflexivity|repeat split; vm_compute; congruence|vm_compute; reflexivity].
Defined.
