(* ===== verification/RequestEncoding.v ===== *)
(** The body of QUERY, EXECUTE and BATCH requests (third-party/cpp-driver/src/statement.{hpp,cpp},
    query_request.cpp, execute_request.cpp, batch_request.cpp, abstract_data.{hpp,cpp}, request.hpp,
    request_callback.hpp, protocol.cpp), and what a server reads in it.

    A statement is the driver's object with what was bound; the hash table of value names is the list
    of names.  A buffer is allocated with a computed size and then written: [fill] is [None] when the
    writes do not match the size. *)
From S2P Require Import Prelude InetUtil Serialization DriverErrors Types Decoder DataTypes.
#[local] Open Scope dec_scope.
#[local] Open Scope Z_scope.

(** ** Constants *)

Definition CASS_CONSISTENCY_UNKNOWN : Z := 0xFFFF.
Definition CASS_INT64_MIN : Z := - 2 ^ 63.
Definition CASS_PROTOCOL_VERSION_V3 : Z := 3.
Definition CASS_PROTOCOL_VERSION_V4 : Z := 4.
Definition CASS_PROTOCOL_VERSION_V5 : Z := 5.
Definition CASS_PROTOCOL_VERSION_DSEV2 : Z := 0x42.
Definition CASS_QUERY_FLAG_VALUES : Z := 0x01.
Definition CASS_QUERY_FLAG_SKIP_METADATA : Z := 0x02.
Definition CASS_QUERY_FLAG_PAGE_SIZE : Z := 0x04.
Definition CASS_QUERY_FLAG_PAGING_STATE : Z := 0x08.
Definition CASS_QUERY_FLAG_SERIAL_CONSISTENCY : Z := 0x10.
Definition CASS_QUERY_FLAG_DEFAULT_TIMESTAMP : Z := 0x20.
Definition CASS_QUERY_FLAG_NAMES_FOR_VALUES : Z := 0x40.
Definition CASS_QUERY_FLAG_WITH_KEYSPACE : Z := 0x80.
Definition CASS_BATCH_KIND_QUERY : Z := 0.
Definition CASS_BATCH_KIND_PREPARED : Z := 1.

Definition is_protocol_at_least_v5_or_dse_v2 (version : Z) : bool :=
  if Z.testbit version 6 then CASS_PROTOCOL_VERSION_DSEV2 <=? version else CASS_PROTOCOL_VERSION_V5 <=? version.
Definition supports_set_keyspace (version : Z) : bool := is_protocol_at_least_v5_or_dse_v2 version.
Definition supports_result_metadata_id (version : Z) : bool := is_protocol_at_least_v5_or_dse_v2 version.

(** ** Requests *)

Record RequestSettings := {
  consistency : Z;
  serial_consistency : Z;
  retry_policy : option Z;       (* the policy object *)
  is_idempotent : bool;
  keyspace : bytes
}.

Definition default_settings : RequestSettings :=
  {| consistency := CASS_CONSISTENCY_UNKNOWN; serial_consistency := CASS_CONSISTENCY_UNKNOWN; retry_policy := None; is_idempotent := false; keyspace := [] |}.

Record Prepared := {
  prepared_id : bytes;
  prepared_columns : list (bytes * CassDataType);
  quoted_keyspace : bytes;
  request_settings : RequestSettings
}.

Inductive statement_kind := Query (query : bytes) | Execute (prepared : Prepared).

Record Statement := {
  kind : statement_kind;
  elements : list element;
  value_names : option (list bytes);   (* [Some]: [has_names_for_values] *)
  settings : RequestSettings;
  timestamp : Z;
  page_size : Z;
  paging_state : bytes;
  profile_name : bytes
}.

(** [Statement(query, values_count)], [Statement(prepared)] *)
Definition cass_statement_new_n (query : bytes) (parameter_count : nat) : Statement := {|
  kind := Query query; elements := replicate parameter_count Unset; value_names := None; settings := default_settings;
  timestamp := CASS_INT64_MIN; page_size := -1; paging_state := []; profile_name := []
|}.

Definition cass_prepared_bind (p : Prepared) : Statement :=
  let s := request_settings p in {|
  kind := Execute p; elements := replicate (length (prepared_columns p)) Unset; value_names := None;
  settings := {| consistency := consistency s; serial_consistency := serial_consistency s; retry_policy := retry_policy s; is_idempotent := is_idempotent s;
                 keyspace := if is_nil (keyspace s) then quoted_keyspace p else keyspace s |};
  timestamp := CASS_INT64_MIN; page_size := -1; paging_state := []; profile_name := []
|}.

Definition with_elements (l : list element) (st : Statement) : Statement := {|
  kind := kind st; elements := l; value_names := value_names st; settings := settings st;
  timestamp := timestamp st; page_size := page_size st; paging_state := paging_state st; profile_name := profile_name st
|}.
Definition with_names (names : list bytes) (st : Statement) : Statement := {|
  kind := kind st; elements := elements st; value_names := Some names; settings := settings st;
  timestamp := timestamp st; page_size := page_size st; paging_state := paging_state st; profile_name := profile_name st
|}.

(** [get_type] of a parameter: unknown in a simple statement. *)
Definition parameter_types (st : Statement) : list (option CassDataType) :=
  match kind st with
  | Query _ => map (fun _ => None) (elements st)
  | Execute p => map (fun c => Some (snd c)) (prepared_columns p)
  end.

(** [set(index, value)] *)
Definition statement_set (st : Statement) (index : nat) (v : cass_value) : CassError + Statement :=
  match abstract_set (parameter_types st) (elements st) index v with inl rc => inl rc | inr l => inr (with_elements l st) end.

Definition unquoted (name : bytes) : bytes := match quoted name with Some inner => inner | None => name end.

(** [QueryRequest::get_indices]: a new name takes the next position, if there is one. *)
Definition query_get_indices (st : Statement) (name : bytes) : list nat * Statement :=
  let names := match value_names st with Some l => l | None => [] end in
  match get_indices names name with
  | [] => if (length (elements st) <? length names)%nat then ([], with_names names st)
          else ([length names], with_names (names ++ [unquoted name]) st)
  | found => (found, with_names names st)
  end.

(** [set(name, value)] *)
Definition statement_set_by_name (st : Statement) (name : bytes) (v : cass_value) : CassError + Statement :=
  match kind st with
  | Execute p =>
      match set_by_name (map fst (prepared_columns p)) (parameter_types st) (elements st) name v with inl rc => inl rc | inr l => inr (with_elements l st) end
  | Query _ =>
      let '(indices, st') := query_get_indices st name in
      match indices with
      | [] => inl CASS_ERROR_LIB_NAME_DOES_NOT_EXIST
      | _ => match set_indices (parameter_types st') (elements st') indices v with inl rc => inl rc | inr l => inr (with_elements l st') end
      end
  end.

(** ** Encoding *)

(** What the request's wrapper and callback add: the settings of the execution profile, a generated
    timestamp, the consistency of a retry, and the result metadata of a prepared statement. *)
Record RequestCallback := {
  profile_consistency : Z;
  profile_serial_consistency : Z;
  generated_timestamp : Z;
  retry_consistency : Z;
  skip_metadata : bool;
  result_metadata_id : option bytes
}.

Definition callback_consistency (cb : RequestCallback) (s : RequestSettings) : Z :=
  if negb (retry_consistency cb =? CASS_CONSISTENCY_UNKNOWN) then retry_consistency cb
  else if negb (consistency s =? CASS_CONSISTENCY_UNKNOWN) then consistency s else profile_consistency cb.
Definition callback_serial_consistency (cb : RequestCallback) (s : RequestSettings) : Z :=
  if negb (serial_consistency s =? CASS_CONSISTENCY_UNKNOWN) then serial_consistency s else profile_serial_consistency cb.
Definition callback_timestamp (cb : RequestCallback) (t : Z) : Z := if negb (t =? CASS_INT64_MIN) then t else generated_timestamp cb.

Definition fill (size : Z) (written : bytes) : option bytes := if zlen written =? size then Some written else None.

(** The bytes, an error of the request, or memory outside of a buffer is written or read. *)
Inductive encoded := Encoded (b : bytes) | EncodeError (rc : CassError) | Overrun.

Definition flag_if (b : bool) (flag flags : Z) : Z := if b then Z.lor flags flag else flags.

Definition encode_flags (version flags : Z) : bytes := if CASS_PROTOCOL_VERSION_V5 <=? version then encode_int32 flags else encode_byte (u8 flags).

Definition encode_query_or_id (st : Statement) : bytes :=
  match kind st with
  | Query q => encode_long_string q (wrapS 32 (zlen q))
  | Execute p => encode_string (prepared_id p) (wrapU 16 (zlen (prepared_id p)))
  end.

Definition with_keyspace (version : Z) (st : Statement) : bool :=
  supports_set_keyspace version && match kind st with Execute _ => false | Query _ => true end && negb (is_nil (keyspace (settings st))).

Definition encode_begin (version element_count : Z) (cb : RequestCallback) (st : Statement) : bytes :=
  let flags := if value_names st then CASS_QUERY_FLAG_NAMES_FOR_VALUES else 0 in
  let flags := flag_if (skip_metadata cb) CASS_QUERY_FLAG_SKIP_METADATA flags in
  let flags := flag_if (0 <? element_count) CASS_QUERY_FLAG_VALUES flags in
  let flags := flag_if (0 <? page_size st) CASS_QUERY_FLAG_PAGE_SIZE flags in
  let flags := flag_if (negb (is_nil (paging_state st))) CASS_QUERY_FLAG_PAGING_STATE flags in
  let flags := flag_if (negb (callback_serial_consistency cb (settings st) =? 0)) CASS_QUERY_FLAG_SERIAL_CONSISTENCY flags in
  let flags := flag_if (negb (callback_timestamp cb (timestamp st) =? CASS_INT64_MIN)) CASS_QUERY_FLAG_DEFAULT_TIMESTAMP flags in
  let flags := flag_if (with_keyspace version st) CASS_QUERY_FLAG_WITH_KEYSPACE flags in
  encode_uint16 (callback_consistency cb (settings st)) ++ encode_flags version flags ++
  (if 0 <? element_count then encode_uint16 element_count else []).

(** [Element::is_unset], [get_buffer] *)
Definition is_unset (e : element) : bool := match e with Unset | Buf [] => true | _ => false end.

Fixpoint encode_values (version : Z) (l : list element) : encoded :=
  match l with
  | [] => Encoded []
  | e :: l' =>
      match (if negb (is_unset e) then Encoded (encode_element e)
             else if CASS_PROTOCOL_VERSION_V4 <=? version then Encoded (encode_int32 (-2)) else EncodeError CASS_ERROR_LIB_PARAMETER_UNSET) with
      | Encoded b => match encode_values version l' with Encoded r => Encoded (b ++ r) | other => other end
      | other => other
      end
  end.

(** [None]: the element has no buffer. *)
Fixpoint encode_values_with_names (names : list bytes) (l : list element) : option bytes :=
  match names, l with
  | [], _ => Some []
  | n :: names', e :: l' =>
      if is_unset e then None
      else option_map (fun r => encode_string n (wrapU 16 (zlen n)) ++ encode_element e ++ r) (encode_values_with_names names' l')
  | _ :: _, [] => None
  end.

Definition encode_end (version : Z) (cb : RequestCallback) (st : Statement) : option bytes :=
  let serial := callback_serial_consistency cb (settings st) in
  let ts := callback_timestamp cb (timestamp st) in
  let ks := keyspace (settings st) in
  let paging_buf_size :=
    (if 0 <? page_size st then 4 else 0) + (if negb (is_nil (paging_state st)) then 4 + zlen (paging_state st) else 0) +
    (if negb (serial =? 0) then 2 else 0) + (if negb (ts =? CASS_INT64_MIN) then 8 else 0) + (if with_keyspace version st then 2 + zlen ks else 0) in
  if paging_buf_size =? 0 then Some []
  else fill paging_buf_size (
    (if 0 <=? page_size st then encode_int32 (page_size st) else []) ++
    (if negb (is_nil (paging_state st)) then encode_bytes (paging_state st) (zlen (paging_state st)) else []) ++
    (if negb (serial =? 0) then encode_uint16 serial else []) ++
    (if negb (ts =? CASS_INT64_MIN) then encode_int64 ts else []) ++
    (if with_keyspace version st then encode_string ks (wrapU 16 (zlen ks)) else [])).

Definition append_end (b : bytes) (e : option bytes) : encoded := match e with Some r => Encoded (b ++ r) | None => Overrun end.

(** [QueryRequest::encode], [ExecuteRequest::encode] *)
Definition statement_encode (version : Z) (cb : RequestCallback) (st : Statement) : encoded :=
  match kind st with
  | Query _ =>
      match value_names st with
      | Some names =>
          match encode_values_with_names names (elements st) with
          | Some values => append_end (encode_query_or_id st ++ encode_begin version (wrapU 16 (zlen names)) cb st ++ values) (encode_end version cb st)
          | None => Overrun
          end
      | None =>
          match encode_values version (elements st) with
          | Encoded values => append_end (encode_query_or_id st ++ encode_begin version (wrapU 16 (zlen (elements st))) cb st ++ values) (encode_end version cb st)
          | other => other
          end
      end
  | Execute _ =>
      let id := if supports_result_metadata_id version then match result_metadata_id cb with Some b => b | None => encode_uint16 0 end else [] in
      match encode_values version (elements st) with
      | Encoded values => append_end (encode_query_or_id st ++ id ++ encode_begin version (wrapU 16 (zlen (elements st))) cb st ++ values) (encode_end version cb st)
      | other => other
      end
  end.

(** ** Batches *)

Record Batch := {
  batch_type : Z;
  batch_statements : list Statement;
  batch_settings : RequestSettings;
  batch_timestamp : Z;
  batch_profile_name : bytes
}.

Definition cass_batch_new (type : Z) : Batch :=
  {| batch_type := type; batch_statements := []; batch_settings := default_settings; batch_timestamp := CASS_INT64_MIN; batch_profile_name := [] |}.

(** [BatchRequest::add_statement]: the batch takes the keyspace of its first statement that has one. *)
Definition cass_batch_add_statement (st : Statement) (b : Batch) : Batch :=
  let s := batch_settings b in {|
  batch_type := batch_type b; batch_statements := batch_statements b ++ [st];
  batch_settings := {| consistency := consistency s; serial_consistency := serial_consistency s; retry_policy := retry_policy s; is_idempotent := is_idempotent s;
                       keyspace := if is_nil (keyspace s) then keyspace (settings st) else keyspace s |};
  batch_timestamp := batch_timestamp b; batch_profile_name := batch_profile_name b
|}.

(** [Statement::encode_batch] *)
Definition encode_batch (version : Z) (st : Statement) : encoded :=
  match encode_values version (elements st) with
  | Encoded values =>
      Encoded (encode_byte (match kind st with Query _ => CASS_BATCH_KIND_QUERY | Execute _ => CASS_BATCH_KIND_PREPARED end) ++
               encode_query_or_id st ++ encode_uint16 (wrapU 16 (zlen (elements st))) ++ values)
  | other => other
  end.

Fixpoint encode_statements (version : Z) (l : list Statement) : encoded :=
  match l with
  | [] => Encoded []
  | st :: l' =>
      if value_names st then EncodeError CASS_ERROR_LIB_BAD_PARAMS
      else match encode_batch version st with
           | Encoded b => match encode_statements version l' with Encoded r => Encoded (b ++ r) | other => other end
           | other => other
           end
  end.

(** [BatchRequest::encode] *)
Definition batch_encode (version : Z) (cb : RequestCallback) (b : Batch) : encoded :=
  match encode_statements version (batch_statements b) with
  | Encoded statements =>
      let serial := callback_serial_consistency cb (batch_settings b) in
      let ts := callback_timestamp cb (batch_timestamp b) in
      let ks := keyspace (batch_settings b) in
      let with_ks := supports_set_keyspace version && negb (is_nil ks) in
      let flags := flag_if (negb (serial =? 0)) CASS_QUERY_FLAG_SERIAL_CONSISTENCY 0 in
      let flags := flag_if (negb (ts =? CASS_INT64_MIN)) CASS_QUERY_FLAG_DEFAULT_TIMESTAMP flags in
      let flags := flag_if with_ks CASS_QUERY_FLAG_WITH_KEYSPACE flags in
      let size := 2 + (if CASS_PROTOCOL_VERSION_V5 <=? version then 4 else 1) + (if negb (serial =? 0) then 2 else 0) +
                  (if negb (ts =? CASS_INT64_MIN) then 8 else 0) + (if with_ks then 2 + zlen ks else 0) in
      append_end (encode_byte (batch_type b) ++ encode_uint16 (wrapU 16 (zlen (batch_statements b))) ++ statements)
        (fill size (encode_uint16 (callback_consistency cb (batch_settings b)) ++ encode_flags version flags ++
           (if negb (serial =? 0) then encode_uint16 serial else []) ++
           (if negb (ts =? CASS_INT64_MIN) then encode_int64 ts else []) ++
           (if with_ks then encode_string ks (wrapU 16 (zlen ks)) else [])))
  | other => other
  end.

(** ** What a server reads

    The bodies as the native protocol defines them (versions 3 to 5), on the same windows as the
    decoding of responses. *)

Inductive wire_value := WNull | WUnset | WValue (b : bytes).

Definition d_value : dec wire_value :=
  let! n := d_int32 in
  if 0 <=? n then let! b := read n in ret (WValue b)
  else if n =? -1 then ret WNull else if n =? -2 then ret WUnset else fail.

Definition d_when {A} (b : bool) (m : dec A) : dec (option A) := if b then let! a := m in ret (Some a) else ret None.

Definition d_flags (version : Z) : dec Z := if CASS_PROTOCOL_VERSION_V5 <=? version then d_int32 else d_byte.

Record query_parameters := {
  q_consistency : Z;
  q_skip_metadata : bool;
  q_values : list (option bytes * wire_value);
  q_page_size : option Z;
  q_paging_state : option (option bytes);
  q_serial_consistency : option Z;
  q_timestamp : option Z;
  q_keyspace : option bytes
}.

Definition d_parameters (version : Z) : dec query_parameters :=
  let! consistency := d_uint16 in
  let! flags := d_flags version in
  let! values := (if Z.testbit flags 0 then d_counted (let! name := d_when (Z.testbit flags 6) d_string in let! v := d_value in ret (name, v)) else ret []) in
  let! page_size := d_when (Z.testbit flags 2) d_int32 in
  let! paging_state := d_when (Z.testbit flags 3) d_bytes in
  let! serial := d_when (Z.testbit flags 4) d_uint16 in
  let! timestamp := d_when (Z.testbit flags 5) d_int64 in
  let! keyspace := d_when (Z.testbit flags 7) d_string in
  ret {| q_consistency := consistency; q_skip_metadata := Z.testbit flags 1; q_values := values; q_page_size := page_size; q_paging_state := paging_state;
         q_serial_consistency := serial; q_timestamp := timestamp; q_keyspace := keyspace |}.

Definition d_query (version : Z) : dec (bytes * query_parameters) :=
  let! query := d_long_string in let! p := d_parameters version in ret (query, p).

Definition d_execute (version : Z) : dec (bytes * option bytes * query_parameters) :=
  let! id := d_string in
  let! metadata_id := d_when (supports_result_metadata_id version) d_string in
  let! p := d_parameters version in ret (id, metadata_id, p).

Inductive batch_query := BQuery (query : bytes) | BPrepared (id : bytes).

Definition d_batch_statement : dec (batch_query * list wire_value) :=
  let! k := d_byte in
  let! q := (if k =? CASS_BATCH_KIND_QUERY then let! s := d_long_string in ret (BQuery s)
             else if k =? CASS_BATCH_KIND_PREPARED then let! s := d_string in ret (BPrepared s) else fail) in
  let! values := d_counted d_value in ret (q, values).

Record batch_body := {
  b_type : Z;
  b_statements : list (batch_query * list wire_value);
  b_consistency : Z;
  b_serial_consistency : option Z;
  b_timestamp : option Z;
  b_keyspace : option bytes
}.

Definition d_batch (version : Z) : dec batch_body :=
  let! type := d_byte in
  let! statements := d_counted d_batch_statement in
  let! consistency := d_uint16 in
  let! flags := d_flags version in
  let! serial := d_when (Z.testbit flags 4) d_uint16 in
  let! timestamp := d_when (Z.testbit flags 5) d_int64 in
  let! keyspace := d_when (Z.testbit flags 7) d_string in
  ret {| b_type := type; b_statements := statements; b_consistency := consistency; b_serial_consistency := serial; b_timestamp := timestamp; b_keyspace := keyspace |}.

(** ** Reading back *)

(** The flags of a query, one boolean each. *)
Definition query_flags (names skip values page paging serial ts ks : bool) : Z :=
  flag_if ks CASS_QUERY_FLAG_WITH_KEYSPACE (flag_if ts CASS_QUERY_FLAG_DEFAULT_TIMESTAMP (flag_if serial CASS_QUERY_FLAG_SERIAL_CONSISTENCY
    (flag_if paging CASS_QUERY_FLAG_PAGING_STATE (flag_if page CASS_QUERY_FLAG_PAGE_SIZE (flag_if values CASS_QUERY_FLAG_VALUES
      (flag_if skip CASS_QUERY_FLAG_SKIP_METADATA (if names then CASS_QUERY_FLAG_NAMES_FOR_VALUES else 0))))))).

Lemma query_flags_bits names skip values page paging serial ts ks :
  let f := query_flags names skip values page paging serial ts ks in
  0 <= f < 256 /\ (Z.testbit f 0 = values /\ Z.testbit f 1 = skip /\ Z.testbit f 2 = page /\ Z.testbit f 3 = paging) /\
  (Z.testbit f 4 = serial /\ Z.testbit f 5 = ts /\ Z.testbit f 6 = names /\ Z.testbit f 7 = ks).
Proof. destruct names, skip, values, page, paging, serial, ts, ks; vm_compute; repeat split; congruence. Qed.

Lemma reads_flags version flags : 0 <= flags < 256 -> reads (d_flags version) (encode_flags version flags) flags.
Proof.
  intros Hf. unfold d_flags, encode_flags. destruct (CASS_PROTOCOL_VERSION_V5 <=? version); [apply reads_int32; unfold in_s; lia|].
  apply reads_fixed; [done..|]. intros r. assert (wrapU 8 flags = flags) as Ef by (apply wrapU_id; unfold in_u; lia).
  unfold decode_byte, encode_byte, u8. rewrite !Ef. exact Ef.
Qed.

Definition some_if {A} (b : bool) (a : A) : option A := if b then Some a else None.

Lemma reads_when {A} b (m : dec A) e a : (b = true -> reads m e a) -> reads (d_when b m) (if b then e else []) (some_if b a).
Proof. intros H. destruct b; [apply reads_map, H; done|apply reads_ret]. Qed.

Lemma reads_repeat2 {A} (m : dec A) bs l : Forall2 (reads m) bs l -> reads (d_repeat (length l) m) (concat bs) l.
Proof. induction 1 as [|b a bs l Ha _ IH]; [apply reads_ret|]. cbn [d_repeat length concat]. eapply reads_bind; [exact Ha|]. apply (reads_map _ (cons a)), IH. Qed.

Lemma reads_counted_list {A} (m : dec A) bs l : Forall2 (reads m) bs l -> zlen l < 65536 -> reads (d_counted m) (encode_uint16 (zlen l) ++ concat bs) l.
Proof.
  intros H Hl. pose proof (zlen_nonneg l). eapply reads_bind; [apply reads_uint16; unfold in_u; lia|]. unfold zlen. rewrite Nat2Z.id. by apply reads_repeat2.
Qed.

Lemma reads_int64 v : in_s 64 v -> reads d_int64 (encode_int64 v) v.
Proof. intros Hv. apply reads_fixed; [done..|]. intros r. by apply decode_encode_int64. Qed.

(** What a server reads of a parameter. *)
Definition wire (e : element) (w : wire_value) : Prop :=
  match e with
  | Unset | Buf [] => w = WUnset
  | Nul => w = WNull
  | Buf b => (b = encode_int32 (-1) /\ w = WNull) \/ (exists x, b = encode_int32 (zlen x) ++ x /\ zlen x < 2 ^ 31 /\ w = WValue x)
  | Coll t items => zlen (encode_collection t items) < 2 ^ 31 /\ w = WValue (encode_collection t items)
  end.

Lemma reads_value x : zlen x < 2 ^ 31 -> reads d_value (encode_int32 (zlen x) ++ x) (WValue x).
Proof.
  intros Hx. pose proof (zlen_nonneg x). eapply reads_bind; [apply reads_int32; unfold in_s; lia|]. replace (0 <=? zlen x) with true by lia.
  apply reads_map, reads_read. lia.
Qed.

Lemma reads_negative n w : in_s 32 n -> reads (if 0 <=? n then let! b := read n in ret (WValue b) else if n =? -1 then ret WNull else if n =? -2 then ret WUnset else fail) [] w ->
  reads d_value (encode_int32 n) w.
Proof. intros Hn Hw. rewrite <- (app_nil_r (encode_int32 n)). eapply reads_bind; [by apply reads_int32|exact Hw]. Qed.

Lemma reads_element e w : is_unset e = false -> wire e w -> reads d_value (encode_element e) w.
Proof.
  destruct e as [| |b|t items]; cbn [is_unset wire encode_element]; try done.
  - intros _ ->. apply reads_negative; [done|apply reads_ret].
  - destruct b as [|c b]; [done|]. intros _ [[-> ->]|(x & -> & Hx & ->)]; [apply reads_negative; [done|apply reads_ret]|by apply reads_value].
  - intros _ [Hx ->]. by apply reads_value.
Qed.

Lemma encode_values_ok version l ws : Forall2 wire l ws -> CASS_PROTOCOL_VERSION_V4 <= version \/ Forall (fun e => is_unset e = false) l ->
  exists bs, encode_values version l = Encoded (concat bs) /\ Forall2 (reads d_value) bs ws.
Proof.
  intros H Hv. assert (Forall (fun e => is_unset e = false \/ (CASS_PROTOCOL_VERSION_V4 <=? version) = true) l) as Hl.
  { destruct Hv as [Hv|Hv]; [apply Forall_forall; intros; right; lia|]. eapply Forall_impl; [|exact Hv]. by left. } clear Hv.
  induction H as [|e w l ws He _ IH]; [exists []; by split; [|constructor]|]. apply Forall_cons_1 in Hl as [Hu Hl]. destruct (IH Hl) as (bs & E & Hbs).
  cbn [encode_values]. destruct (is_unset e) eqn:Eu; cbn [negb].
  - destruct Hu as [|Hu]; [done|]. rewrite Hu, E. exists (encode_int32 (-2) :: bs). split; [done|]. constructor; [|done].
    assert (w = WUnset) as -> by (destruct e as [| |[|]|]; done). apply reads_negative; [done|apply reads_ret].
  - rewrite E. exists (encode_element e :: bs). split; [done|]. constructor; [by apply reads_element|done].
Qed.

Lemma encode_named_ok names : forall l ws, Forall2 wire l ws -> Forall (fun e => is_unset e = false) (take (length names) l) -> Forall (fun n => zlen n < 65536) names ->
  (length names <= length l)%nat ->
  exists bs, encode_values_with_names names l = Some (concat bs) /\
    Forall2 (reads (let! name := d_when true d_string in let! v := d_value in ret (name, v))) bs (zip (map Some names) ws).
Proof.
  induction names as [|n names IH]; intros l ws H Hu Hn Hlen; [exists []; by split; [|constructor]|]. destruct H as [|e w l ws He H]; [cbn in Hlen; lia|].
  cbn in Hu. apply Forall_cons_1 in Hu as [Hue Hu]. apply Forall_cons_1 in Hn as [Hn1 Hn]. destruct (IH l ws H Hu Hn ltac:(cbn in Hlen; lia)) as (bs & E & Hbs).
  cbn [encode_values_with_names]. rewrite Hue, E. exists ((encode_string n (wrapU 16 (zlen n)) ++ encode_element e) :: bs). cbn [concat option_map map zip]. split; [by rewrite <- app_assoc|].
  constructor; [|done]. eapply reads_bind; [apply (reads_when true d_string _ n); intros _; by apply reads_string|]. apply (reads_map _ (pair (Some n))). by apply reads_element.
Qed.

(** The settings fit the fields they are written to. *)
Record settings_fit (cb : RequestCallback) (s : RequestSettings) (t : Z) : Prop := {
  consistency_fits : in_u 16 (callback_consistency cb s);
  serial_fits : in_u 16 (callback_serial_consistency cb s);
  timestamp_fits : in_s 64 (callback_timestamp cb t);
  keyspace_fits : zlen (keyspace s) < 65536
}.

Record paging_fits (st : Statement) : Prop := {
  page_size_fits : in_s 32 (page_size st);
  paging_state_fits : zlen (paging_state st) < 2 ^ 31
}.

Definition nothing_follows (version : Z) (cb : RequestCallback) (st : Statement) : bool :=
  is_nil (paging_state st) && (callback_serial_consistency cb (settings st) =? 0) && (callback_timestamp cb (timestamp st) =? CASS_INT64_MIN) && negb (with_keyspace version st).

Lemma fill_exact size w : zlen w = size -> fill size w = Some w.
Proof. unfold fill. intros ->. by rewrite Z.eqb_refl. Qed.

Lemma zlen_encode_string s : zlen s < 65536 -> zlen (encode_string s (wrapU 16 (zlen s))) = 2 + zlen s.
Proof. intros Hs. pose proof (zlen_nonneg s). rewrite wrapU_id by (unfold in_u; lia). unfold encode_string. by rewrite copy_all, zlen_app. Qed.

Lemma zlen_encode_bytes s : s <> [] -> zlen (encode_bytes s (zlen s)) = 4 + zlen s.
Proof.
  intros Hs. unfold encode_bytes. rewrite copy_all, zlen_app. replace (0 <? zlen s) with true; [done|]. destruct s as [|c s]; [done|]. rewrite zlen_cons. pose proof (zlen_nonneg s). lia.
Qed.

Lemma zlen_if {A} (b : bool) (l : list A) : zlen (if b then l else []) = if b then zlen l else 0.
Proof. by destruct b. Qed.

(** The tail is written as it is measured, unless the page size is zero. *)
Lemma encode_end_ok version cb st : settings_fit cb (settings st) (timestamp st) -> paging_fits st -> page_size st <> 0 ->
  encode_end version cb st = Some (
    (if 0 <? page_size st then encode_int32 (page_size st) else []) ++
    (if negb (is_nil (paging_state st)) then encode_bytes (paging_state st) (zlen (paging_state st)) else []) ++
    (if negb (callback_serial_consistency cb (settings st) =? 0) then encode_uint16 (callback_serial_consistency cb (settings st)) else []) ++
    (if negb (callback_timestamp cb (timestamp st) =? CASS_INT64_MIN) then encode_int64 (callback_timestamp cb (timestamp st)) else []) ++
    (if with_keyspace version st then encode_string (keyspace (settings st)) (wrapU 16 (zlen (keyspace (settings st)))) else [])).
Proof.
  intros Hs Hp H0. unfold encode_end. replace (0 <=? page_size st) with (0 <? page_size st) by lia.
  match goal with |- context [fill ?size ?w] => assert (zlen w = size) as Ew end.
  { rewrite !zlen_app, !zlen_if. change (zlen (encode_int32 _)) with 4. change (zlen (encode_uint16 _)) with 2. change (zlen (encode_int64 _)) with 8.
    rewrite zlen_encode_string by apply Hs. destruct (paging_state st) as [|c r] eqn:Ep; [cbn [is_nil negb]; lia|]. cbn [is_nil negb]. rewrite zlen_encode_bytes by done. lia. }
  match type of Ew with zlen ?w = ?size => destruct (Z.eqb_spec size 0) as [E0|]; [|by rewrite fill_exact] end.
  rewrite <- Ew in E0. match type of E0 with zlen ?w = 0 => assert (w = []) as -> by (destruct w; [done|]; rewrite zlen_cons in E0; match type of E0 with 1 + zlen ?r = 0 => pose proof (zlen_nonneg r) end; lia) end.
  done.
Qed.

(** With a page size of zero and anything behind it, four bytes more are written than the buffer has. *)
Lemma encode_end_overrun version cb st : settings_fit cb (settings st) (timestamp st) -> page_size st = 0 ->
  encode_end version cb st = if nothing_follows version cb st then Some [] else None.
Proof.
  intros Hs H0. unfold encode_end, nothing_follows. rewrite H0. cbn [Z.ltb Z.leb Z.compare].
  match goal with |- context [fill ?size (?p ++ ?w)] => assert (zlen w = size) as Ew end.
  { rewrite !zlen_app, !zlen_if. change (zlen (encode_uint16 _)) with 2. change (zlen (encode_int64 _)) with 8.
    rewrite zlen_encode_string by apply Hs. destruct (paging_state st) as [|c r] eqn:Ep; [cbn [is_nil negb]; lia|]. cbn [is_nil negb]. rewrite zlen_encode_bytes by done. lia. }
  match type of Ew with zlen ?w = ?size => set (n := size) in *; set (b := w) in * end.
  unfold fill. rewrite zlen_app, Ew. change (zlen (encode_int32 0)) with 4. replace (4 + n =? n) with false by lia.
  assert (n = 0 <-> (is_nil (paging_state st) && (callback_serial_consistency cb (settings st) =? 0) && (callback_timestamp cb (timestamp st) =? CASS_INT64_MIN) && negb (with_keyspace version st)) = true) as Hn.
  { subst n. pose proof (zlen_nonneg (paging_state st)). pose proof (zlen_nonneg (keyspace (settings st))).
    destruct (is_nil (paging_state st)), (callback_serial_consistency cb (settings st) =? 0), (callback_timestamp cb (timestamp st) =? CASS_INT64_MIN), (with_keyspace version st); cbn; lia. }
  destruct (Z.eqb_spec n 0) as [E|E].
  - apply Hn in E. by rewrite E.
  - destruct (_ && _); [|done]. by destruct E; apply Hn.
Qed.

Definition sent_parameters (version : Z) (cb : RequestCallback) (st : Statement) (values : list (option bytes * wire_value)) : query_parameters := {|
  q_consistency := callback_consistency cb (settings st);
  q_skip_metadata := skip_metadata cb;
  q_values := values;
  q_page_size := some_if (0 <? page_size st) (page_size st);
  q_paging_state := some_if (negb (is_nil (paging_state st))) (Some (paging_state st));
  q_serial_consistency := some_if (negb (callback_serial_consistency cb (settings st) =? 0)) (callback_serial_consistency cb (settings st));
  q_timestamp := some_if (negb (callback_timestamp cb (timestamp st) =? CASS_INT64_MIN)) (callback_timestamp cb (timestamp st));
  q_keyspace := some_if (with_keyspace version st) (keyspace (settings st))
|}.

Definition has_names (st : Statement) : bool := if value_names st then true else false.

Definition d_named (named : bool) : dec (option bytes * wire_value) := let! name := d_when named d_string in let! v := d_value in ret (name, v).

Lemma zlen_0 {A} (l : list A) : zlen l = 0 -> l = [].
Proof. destruct l as [|x l]; [done|]. rewrite zlen_cons. pose proof (zlen_nonneg l). lia. Qed.

Lemma parameters_read version cb st bs values : settings_fit cb (settings st) (timestamp st) -> paging_fits st -> page_size st <> 0 ->
  Forall2 (reads (d_named (has_names st))) bs values -> zlen values < 65536 ->
  exists tl, encode_end version cb st = Some tl /\
    reads (d_parameters version) (encode_begin version (zlen values) cb st ++ concat bs ++ tl) (sent_parameters version cb st values).
Proof.
  intros Hs Hp H0 Hv Hl. rewrite encode_end_ok by done. eexists. split; [done|]. unfold encode_begin.
  replace (if value_names st then CASS_QUERY_FLAG_NAMES_FOR_VALUES else 0) with (if has_names st then CASS_QUERY_FLAG_NAMES_FOR_VALUES else 0) by (unfold has_names; by destruct (value_names st)).
  match goal with |- context [encode_flags version ?f] => change f with
    (query_flags (has_names st) (skip_metadata cb) (0 <? zlen values) (0 <? page_size st) (negb (is_nil (paging_state st)))
       (negb (callback_serial_consistency cb (settings st) =? 0)) (negb (callback_timestamp cb (timestamp st) =? CASS_INT64_MIN)) (with_keyspace version st)) end.
  set (f := query_flags _ _ _ _ _ _ _ _). destruct (query_flags_bits (has_names st) (skip_metadata cb) (0 <? zlen values) (0 <? page_size st) (negb (is_nil (paging_state st)))
       (negb (callback_serial_consistency cb (settings st) =? 0)) (negb (callback_timestamp cb (timestamp st) =? CASS_INT64_MIN)) (with_keyspace version st)) as (Hf & (H1 & H2 & H3 & H4) & H5 & H6 & H7 & H8).
  fold f in Hf, H1, H2, H3, H4, H5, H6, H7, H8. rewrite <- !app_assoc. unfold d_parameters.
  eapply reads_bind; [apply reads_uint16, Hs|]. eapply reads_bind; [by apply reads_flags|]. rewrite H1, H2, H3, H4, H5, H6, H7, H8.
  rewrite (app_assoc _ (concat bs)). eapply reads_bind.
  { instantiate (1 := values). destruct (Z.ltb_spec 0 (zlen values)); [by apply reads_counted_list|]. assert (values = []) as -> by (apply zlen_0; pose proof (zlen_nonneg values); lia).
    inversion Hv. apply reads_ret. }
  eapply reads_bind; [apply reads_when; intros _; apply reads_int32, Hp|].
  eapply reads_bind; [apply reads_when; intros _; apply reads_bytes, Hp|].
  eapply reads_bind; [apply reads_when; intros _; apply reads_uint16, Hs|].
  eapply reads_bind; [apply reads_when; intros _; apply reads_int64, Hs|].
  match goal with |- reads _ ?e _ => rewrite <- (app_nil_r e) end.
  eapply reads_bind; [apply reads_when; intros _; apply reads_string, Hs|]. apply reads_ret.
Qed.

(** The parameters with their names, if they have any. *)
Definition statement_values (st : Statement) (ws : list wire_value) : list (option bytes * wire_value) :=
  match value_names st with Some names => zip (map Some names) ws | None => map (pair None) ws end.

(** A statement whose parts fit the request: [ws] is what its parameters mean. *)
Record sendable (version : Z) (cb : RequestCallback) (st : Statement) (ws : list wire_value) : Prop := {
  settings_ok : settings_fit cb (settings st) (timestamp st);
  paging_ok : paging_fits st;
  wire_ok : Forall2 wire (elements st) ws;
  count_ok : zlen (elements st) < 65536;
  set_ok : CASS_PROTOCOL_VERSION_V4 <= version \/ Forall (fun e => is_unset e = false) (elements st);
  names_ok : match value_names st with
             | Some names => (length names <= length (elements st))%nat /\ Forall (fun n => zlen n < 65536) names /\
                             Forall (fun e => is_unset e = false) (take (length names) (elements st))
             | None => True
             end;
  kind_ok : match kind st with
            | Query q => zlen q < 2 ^ 31
            | Execute p => zlen (prepared_id p) < 65536 /\ value_names st = None
            end
}.

Lemma unnamed_values bs ws : Forall2 (reads d_value) bs ws -> Forall2 (reads (d_named false)) bs (map (pair None) ws).
Proof.
  induction 1 as [|b w bs ws Hb _ IH]; cbn; [constructor|]. constructor; [|done]. rewrite <- (app_nil_l b). eapply reads_bind; [apply (reads_when false d_string [] []); done|]. by apply (reads_map _ (pair None)).
Qed.

Lemma Forall2_zlen {A B} (R : A -> B -> Prop) l1 l2 : Forall2 R l1 l2 -> zlen l1 = zlen l2.
Proof. intros H. unfold zlen. by rewrite (List.Forall2_length H). Qed.

(** A frame with an encoded query or id before the parameters. *)
Lemma unnamed_read version cb st ws : sendable version cb st ws -> page_size st <> 0 -> value_names st = None ->
  exists bs tl, encode_values version (elements st) = Encoded bs /\ encode_end version cb st = Some tl /\
    reads (d_parameters version) (encode_begin version (wrapU 16 (zlen (elements st))) cb st ++ bs ++ tl) (sent_parameters version cb st (statement_values st ws)).
Proof.
  intros [Hs Hp Hw Hc Hset _ _] H0 Hn. destruct (encode_values_ok version (elements st) ws Hw Hset) as (bs & E & Hbs).
  pose proof (Forall2_zlen _ _ _ Hw) as El. pose proof (zlen_nonneg (elements st)).
  destruct (parameters_read version cb st bs (map (pair None) ws) Hs Hp H0) as (tl & Et & Hr).
  - unfold has_names. rewrite Hn. by apply unnamed_values.
  - rewrite map_zlen. lia.
  - exists (concat bs), tl. split; [done|]. split; [done|]. unfold statement_values. rewrite Hn. rewrite map_zlen, <- El in Hr. by rewrite wrapU_id by (unfold in_u; lia).
Qed.

Lemma reads_both {A B} (m1 : dec A) (m2 : dec B) e1 e2 a b : reads m1 e1 a -> reads m2 e2 b -> reads (let! x := m1 in let! y := m2 in ret (x, y)) (e1 ++ e2) (a, b).
Proof. intros H1 H2. eapply reads_bind; [exact H1|]. by apply (reads_map _ (pair a)). Qed.

Lemma query_read version cb st ws q : sendable version cb st ws -> page_size st <> 0 -> kind st = Query q ->
  exists b, statement_encode version cb st = Encoded b /\ reads (d_query version) b (q, sent_parameters version cb st (statement_values st ws)).
Proof.
  intros Hst H0 Hk. pose proof Hst as [Hs Hp Hw Hc Hset Hnames Hkind]. rewrite Hk in Hkind. pose proof (zlen_nonneg q). pose proof (Forall2_zlen _ _ _ Hw) as El.
  assert (encode_query_or_id st = encode_long_string q (zlen q)) as Eq by (unfold encode_query_or_id; rewrite Hk, wrapS_id by (try unfold in_s; lia); done).
  unfold statement_encode. rewrite Hk. destruct (value_names st) as [names|] eqn:En.
  - destruct Hnames as (Hlen & Hn & Hu). destruct (encode_named_ok names _ _ Hw Hu Hn Hlen) as (bs & E & Hbs).
    assert (zlen (zip (map Some names) ws) = zlen names) as Ez.
    { unfold zlen in *. rewrite length_zip, length_map. lia. }
    destruct (parameters_read version cb st bs (zip (map Some names) ws) Hs Hp H0) as (tl & Et & Hr).
    + unfold has_names. by rewrite En.
    + unfold zlen in *. lia.
    + rewrite E, Et, Eq. eexists. split; [done|]. rewrite <- !app_assoc. unfold statement_values. rewrite En. apply reads_both; [by apply reads_long_string|].
      rewrite Ez in Hr. rewrite wrapU_id by (unfold in_u, zlen in *; lia). exact Hr.
  - destruct (unnamed_read version cb st ws Hst H0 En) as (bs & tl & E & Et & Hr). rewrite E, Et, Eq. eexists. split; [done|]. rewrite <- !app_assoc. apply reads_both; [by apply reads_long_string|done].
Qed.

Lemma execute_read version cb st ws p mid : sendable version cb st ws -> page_size st <> 0 -> kind st = Execute p ->
  (supports_result_metadata_id version = true -> reads d_string (match result_metadata_id cb with Some b => b | None => encode_uint16 0 end) mid) ->
  exists b, statement_encode version cb st = Encoded b /\
    reads (d_execute version) b (prepared_id p, some_if (supports_result_metadata_id version) mid, sent_parameters version cb st (statement_values st ws)).
Proof.
  intros Hst H0 Hk Hmid. pose proof Hst as [Hs Hp Hw Hc Hset Hnames Hkind]. rewrite Hk in Hkind. destruct Hkind as [Hid Hn].
  destruct (unnamed_read version cb st ws Hst H0 Hn) as (bs & tl & E & Et & Hr). unfold statement_encode. rewrite Hk, E, Et. eexists. split; [done|].
  unfold encode_query_or_id. rewrite Hk. rewrite <- !app_assoc. unfold d_execute. eapply reads_bind; [by apply reads_string|]. eapply reads_bind; [by apply reads_when|].
  apply (reads_map _ (pair (prepared_id p, some_if (supports_result_metadata_id version) mid))). exact Hr.
Qed.

(** A statement with parameters set by position is read in a batch. *)
Definition sent_statement (st : Statement) (ws : list wire_value) : batch_query * list wire_value :=
  (match kind st with Query q => BQuery q | Execute p => BPrepared (prepared_id p) end, ws).

Record batch_sendable (version : Z) (st : Statement) (ws : list wire_value) : Prop := {
  b_wire_ok : Forall2 wire (elements st) ws;
  b_count_ok : zlen (elements st) < 65536;
  b_set_ok : CASS_PROTOCOL_VERSION_V4 <= version \/ Forall (fun e => is_unset e = false) (elements st);
  b_names_ok : value_names st = None;
  b_kind_ok : match kind st with Query q => zlen q < 2 ^ 31 | Execute p => zlen (prepared_id p) < 65536 end
}.

Lemma reads_byte v : 0 <= v < 256 -> reads d_byte (encode_byte v) v.
Proof.
  intros Hv. apply reads_fixed; [done..|]. intros r. assert (wrapU 8 v = v) as Ef by (apply wrapU_id; unfold in_u; lia). unfold decode_byte, encode_byte, u8. rewrite !Ef. exact Ef.
Qed.

Lemma encode_batch_ok version st ws : batch_sendable version st ws -> exists b, encode_batch version st = Encoded b /\ reads d_batch_statement b (sent_statement st ws).
Proof.
  intros [Hw Hc Hset _ Hk]. destruct (encode_values_ok version (elements st) ws Hw Hset) as (bs & E & Hbs). unfold encode_batch. rewrite E. eexists. split; [done|].
  pose proof (Forall2_zlen _ _ _ Hw) as El. pose proof (zlen_nonneg (elements st)).
  unfold d_batch_statement, sent_statement, encode_query_or_id. destruct (kind st) as [q|p].
  - eapply reads_bind; [by apply reads_byte|]. cbn [Z.eqb CASS_BATCH_KIND_QUERY]. pose proof (zlen_nonneg q). rewrite wrapS_id by (try unfold in_s; lia).
    apply reads_both; [by apply (reads_map _ BQuery), reads_long_string|]. rewrite wrapU_id, El by (unfold in_u; lia). apply reads_counted_list; [done|lia].
  - eapply reads_bind; [by apply reads_byte|]. cbn [Z.eqb CASS_BATCH_KIND_QUERY CASS_BATCH_KIND_PREPARED].
    apply reads_both; [by apply (reads_map _ BPrepared), reads_string|]. rewrite wrapU_id, El by (unfold in_u; lia). apply reads_counted_list; [done|lia].
Qed.

Lemma encode_statements_ok version l wss : Forall2 (batch_sendable version) l wss ->
  exists bs, encode_statements version l = Encoded (concat bs) /\ Forall2 (reads d_batch_statement) bs (zip_with sent_statement l wss).
Proof.
  induction 1 as [|st ws l wss Hst _ (bs & E & Hbs)]; [exists []; by split; [|constructor]|]. destruct (encode_batch_ok version st ws Hst) as (b & Eb & Hb).
  exists (b :: bs). cbn [encode_statements]. rewrite (b_names_ok _ _ _ Hst), Eb, E. split; [done|]. by constructor.
Qed.

Lemma encode_statements_bad version l st : (if value_names st then true else false) = true -> (exists b, encode_statements version l = Encoded b) ->
  encode_statements version (l ++ [st]) = EncodeError CASS_ERROR_LIB_BAD_PARAMS.
Proof.
  intros Hn. induction l as [|x l IH]; cbn [encode_statements app]; [by destruct (value_names st)|]. intros [b E]. destruct (value_names x); [done|].
  destruct (encode_batch version x); [|done..]. destruct (encode_statements version l) as [r| |]; [|done..]. by rewrite IH by by eexists.
Qed.

Lemma overrun version cb st ws : sendable version cb st ws -> page_size st = 0 -> nothing_follows version cb st = false -> statement_encode version cb st = Overrun.
Proof.
  intros Hst H0 Hf. pose proof Hst as [Hs Hp Hw Hc Hset Hnames Hkind]. pose proof (encode_end_overrun version cb st Hs H0) as Et. rewrite Hf in Et.
  unfold statement_encode. destruct (encode_values_ok version (elements st) ws Hw Hset) as (bs & Eb & _). rewrite Eb, Et. destruct (kind st); [|done].
  destruct (value_names st) as [names|]; [|done]. destruct Hnames as (Hlen & Hn & Hu). by destruct (encode_named_ok names _ _ Hw Hu Hn Hlen) as (bs' & -> & _).
Qed.

(** C11: what is sent is what was asked for.  A server that reads the body of a QUERY or EXECUTE
    request of a statement finds the query or the id, the consistency, the values under their names
    or in their order, with null and unset told apart, the page size, the paging state, the serial
    consistency, the timestamp and the keyspace, each exactly when it is in effect.  The statement's
    parts must fit their fields and, before version 4, every parameter must be set.  The page size
    must not be zero: with a page size of zero and a paging state, serial consistency,
    timestamp or keyspace, four bytes are written behind the end of a buffer. *)
Theorem statement_read_by_server version cb st ws :
  sendable version cb st ws ->
  (page_size st <> 0 ->
   match kind st with
   | Query q => exists b, statement_encode version cb st = Encoded b /\ reads (d_query version) b (q, sent_parameters version cb st (statement_values st ws))
   | Execute p =>
       forall mid, (supports_result_metadata_id version = true -> reads d_string (match result_metadata_id cb with Some b => b | None => encode_uint16 0 end) mid) ->
       exists b, statement_encode version cb st = Encoded b /\
         reads (d_execute version) b (prepared_id p, some_if (supports_result_metadata_id version) mid, sent_parameters version cb st (statement_values st ws))
   end) /\
  (page_size st = 0 -> nothing_follows version cb st = false -> statement_encode version cb st = Overrun).
Proof.
  intros Hst. split; [|by apply (overrun version cb st ws)]. intros H0. destruct (kind st) as [q|p] eqn:Hk; [by apply query_read|]. intros mid Hmid. by apply execute_read.
Qed.

(** A query with two parameters and a page size of zero, with a generated timestamp. *)
Definition witness_callback : RequestCallback :=
  {| profile_consistency := 1; profile_serial_consistency := 0; generated_timestamp := 1234567890; retry_consistency := CASS_CONSISTENCY_UNKNOWN; skip_metadata := false; result_metadata_id := None |}.
Definition witness_statement (size : Z) : Statement := {|
  kind := Query (bs "SELECT * FROM t WHERE a = ? AND b = ?"); elements := [Buf (encode_int32 4 ++ encode_int32 7); Nul]; value_names := None;
  settings := {| consistency := 6; serial_consistency := CASS_CONSISTENCY_UNKNOWN; retry_policy := None; is_idempotent := false; keyspace := [] |};
  timestamp := CASS_INT64_MIN; page_size := size; paging_state := []; profile_name := []
|}.

Lemma witness_sendable size : in_s 32 size -> sendable 4 witness_callback (witness_statement size) [WValue (encode_int32 7); WNull].
Proof.
  intros Hsize. split.
  - split; by vm_compute.
  - split; [exact Hsize|by vm_compute].
  - constructor; [right; exists (encode_int32 7); split; [done|split; [by vm_compute|done]]|]. constructor; [done|constructor].
  - by vm_compute.
  - left. done.
  - done.
  - by vm_compute.
Qed.

Lemma statement_read_by_server_witness :
  (exists b, statement_encode 4 witness_callback (witness_statement 5000) = Encoded b /\
     reads (d_query 4) b (bs "SELECT * FROM t WHERE a = ? AND b = ?",
       {| q_consistency := 6; q_skip_metadata := false; q_values := [(None, WValue (encode_int32 7)); (None, WNull)]; q_page_size := Some 5000; q_paging_state := None;
          q_serial_consistency := None; q_timestamp := Some 1234567890; q_keyspace := None |})) /\
  statement_encode 4 witness_callback (witness_statement 0) = Overrun.
Proof.
  split.
  - exact (proj1 (statement_read_by_server 4 witness_callback (witness_statement 5000) _ (witness_sendable 5000 ltac:(unfold in_s; lia))) ltac:(discriminate)).
  - exact (proj2 (statement_read_by_server 4 witness_callback (witness_statement 0) _ (witness_sendable 0 ltac:(unfold in_s; lia))) eq_refl eq_refl).
Defined.

(** A batch is read as it was built.  A server finds the kind of batch, every statement in its
    order with its values, the consistency and, when they are in effect, the serial consistency, the
    timestamp and the keyspace.  A batch with a statement whose values have names is refused. *)
Theorem batch_read_by_server version cb b wss :
  settings_fit cb (batch_settings b) (batch_timestamp b) -> 0 <= batch_type b < 256 -> zlen (batch_statements b) < 65536 ->
  Forall2 (batch_sendable version) (batch_statements b) wss ->
  (exists body, batch_encode version cb b = Encoded body /\
     reads (d_batch version) body {|
       b_type := batch_type b; b_statements := zip_with sent_statement (batch_statements b) wss;
       b_consistency := callback_consistency cb (batch_settings b);
       b_serial_consistency := some_if (negb (callback_serial_consistency cb (batch_settings b) =? 0)) (callback_serial_consistency cb (batch_settings b));
       b_timestamp := some_if (negb (callback_timestamp cb (batch_timestamp b) =? CASS_INT64_MIN)) (callback_timestamp cb (batch_timestamp b));
       b_keyspace := some_if (supports_set_keyspace version && negb (is_nil (keyspace (batch_settings b)))) (keyspace (batch_settings b)) |}) /\
  (forall st names, value_names st = Some names -> batch_encode version cb (cass_batch_add_statement st b) = EncodeError CASS_ERROR_LIB_BAD_PARAMS).
Proof.
  intros Hs Ht Hc Hst. destruct (encode_statements_ok version _ _ Hst) as (bs & E & Hbs). split.
  - unfold batch_encode. rewrite E. rewrite fill_exact.
    2:{ rewrite !zlen_app, !zlen_if. change (zlen (encode_int64 _)) with 8. repeat change (zlen (encode_uint16 _)) with 2. rewrite zlen_encode_string by apply Hs. unfold encode_flags.
        destruct (CASS_PROTOCOL_VERSION_V5 <=? version); [change (zlen (encode_int32 _)) with 4|change (zlen (encode_byte _)) with 1]; lia. }
    set (serial := negb (callback_serial_consistency cb (batch_settings b) =? 0)). set (ts := negb (callback_timestamp cb (batch_timestamp b) =? CASS_INT64_MIN)).
    set (ks := supports_set_keyspace version && negb (is_nil (keyspace (batch_settings b)))).
    change (flag_if ks _ _) with (query_flags false false false false false serial ts ks).
    destruct (query_flags_bits false false false false false serial ts ks) as (Hf & _ & H5 & H6 & _ & H8).
    eexists. split; [done|]. rewrite <- !app_assoc. unfold d_batch. eapply reads_bind; [by apply reads_byte|]. rewrite (app_assoc (encode_uint16 _)).
    assert (zlen (zip_with sent_statement (batch_statements b) wss) = zlen (batch_statements b)) as Ez.
    { pose proof (List.Forall2_length Hst). unfold zlen. rewrite length_zip_with. lia. }
    pose proof (zlen_nonneg (batch_statements b)). rewrite wrapU_id, <- Ez by (unfold in_u; lia).
    eapply reads_bind; [apply reads_counted_list; [done|lia]|]. eapply reads_bind; [apply reads_uint16, Hs|]. eapply reads_bind; [by apply reads_flags|]. rewrite H5, H6, H8.
    eapply reads_bind; [apply reads_when; intros _; apply reads_uint16, Hs|]. eapply reads_bind; [apply reads_when; intros _; apply reads_int64, Hs|].
    match goal with |- reads _ ?e _ => rewrite <- (app_nil_r e) end. eapply reads_bind; [apply reads_when; intros _; apply reads_string, Hs|]. apply reads_ret.
  - intros st names Hn. unfold batch_encode, cass_batch_add_statement. cbn [batch_statements]. rewrite encode_statements_bad; [done|by rewrite Hn|by exists (concat bs)].
Qed.

(** A logged batch of a query with two parameters and a prepared statement without any. *)
Definition witness_prepared : Prepared :=
  {| prepared_id := bs "0123456789abcdef"; prepared_columns := []; quoted_keyspace := bs "ks"; request_settings := default_settings |}.
Definition witness_batch : Batch := cass_batch_add_statement (cass_prepared_bind witness_prepared) (cass_batch_add_statement (witness_statement 5000) (cass_batch_new 0)).

Lemma batch_read_by_server_witness :
  exists body, batch_encode 5 witness_callback witness_batch = Encoded body /\
    reads (d_batch 5) body {|
      b_type := 0; b_statements := [(BQuery (bs "SELECT * FROM t WHERE a = ? AND b = ?"), [WValue (encode_int32 7); WNull]); (BPrepared (bs "0123456789abcdef"), [])];
      b_consistency := 1; b_serial_consistency := None; b_timestamp := Some 1234567890; b_keyspace := Some (bs "ks") |}.
Proof.
  refine (proj1 (batch_read_by_server 5 witness_callback witness_batch [[WValue (encode_int32 7); WNull]; []] _ _ _ _)).
  - split; by vm_compute.
  - by vm_compute.
  - by vm_compute.
  - constructor; [|constructor; [|constructor]].
    + destruct (witness_sendable 5000 ltac:(unfold in_s; lia)) as [_ _ Hw Hc _ _ Hk]. split; [exact Hw|exact Hc|by left|done|exact Hk].
    + split; [constructor|by vm_compute|by left|done|by vm_compute].
Defined.
