(* ===== verification/Statements.v ===== *)
(** Execution of statements: the options (src/ExecutionOptions.c), the statement classes
    (src/SimpleStatement.c, src/PreparedStatement.c, src/BatchStatement.c), and how
    DefaultSession.c turns a statement, its arguments and options into a request of the driver
    ([RequestEncoding]).

    An option's value is a PHP value, an array of arguments or a retry policy; the arguments are in
    the order of the array, under their indexes or names.  A retry policy is the driver's object. *)
From S2P Require Import Prelude ClusterBuilder ExecutionProfile InetUtil Serialization DriverErrors CLib NumberParser UtHash Types Values Decoder DataTypes Conversions RequestEncoding.
#[local] Open Scope Z_scope.

Inductive array_key := AtIndex (i : Z) | AtName (name : bytes).
Definition php_arguments : Type := list (array_key * zval).

Inductive option_value :=
| OptZval (v : zval)
| OptArguments (l : php_arguments)
| OptRetryPolicy (policy : Z)
| OptObject.                          (* an object that is no retry policy *)

(** Why a call failed. *)
Inductive failure :=
| BadOption (name expected : bytes)
| BadTimestamp (e : parse_error)
| BadBinding (r : refusal)
| SilentFailure                       (* no exception *)
| UnsupportedArgument
| UnsupportedStatement
| WrongObject.                        (* a value read through the structure of another class *)

Definition fallible (A : Type) : Type := (failure + A)%type.
Definition fbind {A B} (m : fallible A) (f : A -> fallible B) : fallible B := match m with inl e => inl e | inr a => f a end.
Notation "x <<- m ; k" := (fbind m (fun x => k)) (at level 100, m at level 200, k at level 200, right associativity).

(** ** Options *)

(** [PHP_SCYLLADB_TRISTATE_UNSET] is [None]. *)
Definition php_scylladb_tristate : Type := option bool.

Record php_scylladb_execution_options := {
  o_consistency : Z;
  o_serial_consistency : Z;
  o_page_size : Z;
  o_paging_state_token : option bytes;
  o_timeout : option zval;
  o_arguments : option php_arguments;
  o_retry_policy : option Z;
  o_timestamp : Z;
  o_idempotent : php_scylladb_tristate
}.

Definition init_execution_options : php_scylladb_execution_options := {|
  o_consistency := -1; o_serial_consistency := -1; o_page_size := -1; o_paging_state_token := None; o_timeout := None;
  o_arguments := None; o_retry_policy := None; o_timestamp := CASS_INT64_MIN; o_idempotent := None
|}.

Definition options_array : Type := list (bytes * option_value).

(** [zend_hash_str_find] *)
Definition lookup_option (name : bytes) (a : options_array) : option option_value := option_map snd (List.find (fun p => bool_decide (fst p = name)) a).

(** An option that may be absent, with the check of its value. *)
Definition parse_option {A} (a : options_array) (name : bytes) (absent : A) (parse : option_value -> fallible A) : fallible A :=
  match lookup_option name a with None => inr absent | Some v => parse v end.

Definition consistency_option (v : option_value) : fallible Z :=
  match v with
  | OptZval (ZLong n) => if php_scylladb_validate_consistency n then inr n else inl (BadOption (bs "consistency") (bs "one of Cassandra::CONSISTENCY_*"))
  | _ => inl (BadOption (bs "consistency") (bs "one of Cassandra::CONSISTENCY_*"))
  end.

Definition serial_expected : bytes := bs "either Cassandra::CONSISTENCY_SERIAL or Cassandra::CASS_CONSISTENCY_LOCAL_SERIAL".
Definition serial_consistency_option (v : option_value) : fallible Z :=
  match v with
  | OptZval (ZLong n) => if php_scylladb_validate_serial_consistency n then inr n else inl (BadOption (bs "serial_consistency") serial_expected)
  | _ => inl (BadOption (bs "serial_consistency") serial_expected)
  end.

(** The size is cut to 32 bits. *)
Definition page_size_option (v : option_value) : fallible Z :=
  match v with
  | OptZval (ZLong n) => if n <=? 0 then inl (BadOption (bs "page_size") (bs "greater than zero")) else inr (wrapS 32 n)
  | _ => inl (BadOption (bs "page_size") (bs "greater than zero"))
  end.

Definition paging_state_token_option (v : option_value) : fallible (option bytes) :=
  match v with OptZval (ZString s) => inr (Some s) | _ => inl (BadOption (bs "paging_state_token") (bs "a string")) end.

Definition timeout_option (v : option_value) : fallible (option zval) :=
  let bad := inl (BadOption (bs "timeout") (bs "a number of seconds greater than zero or null")) in
  match v with
  | OptZval ZNull => inr (Some ZNull)
  | OptZval (ZLong n) => if 0 <? n then inr (Some (ZLong n)) else bad
  | OptZval (ZDouble bits) => if double_lt 0 bits then inr (Some (ZDouble bits)) else bad
  | _ => bad
  end.

Definition arguments_option (v : option_value) : fallible (option php_arguments) :=
  match v with OptArguments l => inr (Some l) | _ => inl (BadOption (bs "arguments") (bs "an array")) end.

Definition retry_policy_option (v : option_value) : fallible (option Z) :=
  match v with OptRetryPolicy p => inr (Some p) | _ => inl (BadOption (bs "retry_policy") (bs "an instance of Cassandra\RetryPolicy")) end.

Definition timestamp_option (v : option_value) : fallible Z :=
  match v with
  | OptZval (ZLong n) => inr n
  | OptZval (ZString s) => match php_scylladb_parse_bigint s with Parsed n => inr n | Threw e => inl (BadTimestamp e) | SilentRange => inl SilentFailure end
  | _ => inl (BadOption (bs "timestamp") (bs "an integer or integer string"))
  end.

Definition idempotent_option (v : option_value) : fallible php_scylladb_tristate :=
  match v with
  | OptZval ZTrue => inr (Some true)
  | OptZval ZFalse => inr (Some false)
  | _ => inl (BadOption (bs "idempotent") (bs "a boolean"))
  end.

Definition build_from_array (self : php_scylladb_execution_options) (a : options_array) : fallible php_scylladb_execution_options :=
  consistency <<- parse_option a (bs "consistency") (o_consistency self) consistency_option;
  serial <<- parse_option a (bs "serial_consistency") (o_serial_consistency self) serial_consistency_option;
  page_size <<- parse_option a (bs "page_size") (o_page_size self) page_size_option;
  token <<- parse_option a (bs "paging_state_token") (o_paging_state_token self) paging_state_token_option;
  timeout <<- parse_option a (bs "timeout") (o_timeout self) timeout_option;
  arguments <<- parse_option a (bs "arguments") (o_arguments self) arguments_option;
  policy <<- parse_option a (bs "retry_policy") (o_retry_policy self) retry_policy_option;
  timestamp <<- parse_option a (bs "timestamp") (o_timestamp self) timestamp_option;
  idempotent <<- parse_option a (bs "idempotent") (o_idempotent self) idempotent_option;
  inr {| o_consistency := consistency; o_serial_consistency := serial; o_page_size := page_size; o_paging_state_token := token; o_timeout := timeout;
         o_arguments := arguments; o_retry_policy := policy; o_timestamp := timestamp; o_idempotent := idempotent |}.

Definition php_scylladb_execution_options_build_local_from_array (a : options_array) : fallible php_scylladb_execution_options :=
  build_from_array init_execution_options a.

(** [ExecutionOptions::__get]: null when the option is not set; [None] for other names. *)
Definition ExecutionOptions_get (self : php_scylladb_execution_options) (name : bytes) : option option_value :=
  let long_or_null n := OptZval (if n =? -1 then ZNull else ZLong n) in
  let or_null o := match o with Some v => v | None => OptZval ZNull end in
  if bool_decide (name = bs "consistency") then Some (long_or_null (o_consistency self))
  else if bool_decide (name = bs "serialConsistency") then Some (long_or_null (o_serial_consistency self))
  else if bool_decide (name = bs "pageSize") then Some (long_or_null (o_page_size self))
  else if bool_decide (name = bs "pagingStateToken") then Some (or_null (option_map (fun s => OptZval (ZString s)) (o_paging_state_token self)))
  else if bool_decide (name = bs "timeout") then Some (or_null (option_map OptZval (o_timeout self)))
  else if bool_decide (name = bs "arguments") then Some (or_null (option_map OptArguments (o_arguments self)))
  else if bool_decide (name = bs "retryPolicy") then Some (or_null (option_map OptRetryPolicy (o_retry_policy self)))
  else if bool_decide (name = bs "timestamp") then Some (OptZval (if o_timestamp self =? CASS_INT64_MIN then ZNull else ZString (show_dec (o_timestamp self))))
  else if bool_decide (name = bs "idempotent") then Some (or_null (option_map (fun b : bool => OptZval (if b then ZTrue else ZFalse)) (o_idempotent self)))
  else None.

(** ** Statements *)

Inductive batch_entry_statement := EntryString (cql : bytes) | EntrySimple (cql : bytes) | EntryPrepared (prepared : Prepared).

Inductive php_scylladb_statement :=
| SimpleStatement (cql : bytes) (idempotent : php_scylladb_tristate)
| PreparedStatement (prepared : Prepared) (idempotent : php_scylladb_tristate)
| BatchStatement (type : Z) (entries : list (batch_entry_statement * option php_arguments)) (idempotent : php_scylladb_tristate).

Definition statement_idempotent (s : php_scylladb_statement) : php_scylladb_tristate :=
  match s with SimpleStatement _ i | PreparedStatement _ i | BatchStatement _ _ i => i end.

(** [setIdempotent] *)
Definition setIdempotent (b : bool) (s : php_scylladb_statement) : php_scylladb_statement :=
  match s with
  | SimpleStatement cql _ => SimpleStatement cql (Some b)
  | PreparedStatement p _ => PreparedStatement p (Some b)
  | BatchStatement t l _ => BatchStatement t l (Some b)
  end.

(** [BatchStatement::__construct]: logged, unlogged or counter. *)
Definition BatchStatement_construct (type : Z) : fallible php_scylladb_statement :=
  if (0 <=? type) && (type <=? 2) then inr (BatchStatement type [] None)
  else inl (BadOption (bs "type") (bs "one of Cassandra::BATCH_LOGGED, Cassandra::BATCH_UNLOGGED or Cassandra::BATCH_COUNTER")).

(** [BatchStatement::add] *)
Definition BatchStatement_add (st : batch_entry_statement) (arguments : option php_arguments) (s : php_scylladb_statement) : fallible php_scylladb_statement :=
  match s with
  | BatchStatement t l i => inr (BatchStatement t (l ++ [(st, arguments)]) i)
  | _ => inl WrongObject
  end.

(** ** Binding *)

Section binding.
Context {G : Gmp} (names : option bytes -> bytes).

(** What an argument is bound as, by its PHP type and class; strings end at their first NUL. *)
Definition argument_value (value : zval) : fallible cass_value :=
  let of_conv (c : conv cass_value) := match c with Converted v => inr v | Refused r => inl (BadBinding r) | Undefined => inl WrongObject end in
  match value with
  | ZNull => inr VNull
  | ZString s => inr (VString (c_string s))
  | ZDouble bits => inr (VDouble bits)
  | ZLong n => inr (VInt32 (wrapS 32 n))
  | ZTrue => inr (VBool true)
  | ZFalse => inr (VBool false)
  | ZScalar o =>
      inr (match o with
           | Float bits => VFloat bits
           | Bigint n => VInt64 n
           | Smallint n => VInt16 n
           | Tinyint n => VInt8 n
           | Timestamp n => VInt64 n
           | Date n => VUint32 n
           | Time n => VInt64 n
           | Blob b => VBytes b
           | Varint n => VBytes (export_twos_complement n)
           | Decimal n scale => VDecimal (export_twos_complement n) (wrapS 32 scale)
           | Uuid u | Timeuuid u => VUuid u
           | Inet a => VInet a
           | Duration d => VDuration d
           end)
  | ZSet t h => of_conv (php_scylladb_collection_from_set (element_value names) (DataTypes.data_type_of names t) t h)
  | ZMap t h => of_conv (php_scylladb_collection_from_map (element_value names) (DataTypes.data_type_of names t) t h)
  | ZCollection t l => of_conv (php_scylladb_collection_from_collection (element_value names) (DataTypes.data_type_of names t) t l)
  | ZTuple t l => of_conv (php_scylladb_tuple_from_tuple (element_value names) (DataTypes.data_type_of names t) t l)
  | ZUserTypeValue t l => of_conv (php_scylladb_user_type_from_user_type_value (element_value names) (DataTypes.data_type_of names t) t l)
  | ZArray => inl UnsupportedArgument
  end.

Definition check_result {A} (r : CassError + A) : fallible A := match r with inl rc => inl (BadBinding (DriverError rc)) | inr a => inr a end.

(** The index is unsigned. *)
Definition bind_argument_by_index (st : Statement) (index : Z) (value : zval) : fallible Statement :=
  v <<- argument_value value;
  let index := wrapU 64 index in
  check_result (if zlen (elements st) <=? index then inl CASS_ERROR_LIB_INDEX_OUT_OF_BOUNDS else statement_set st (Z.to_nat index) v).

Definition bind_argument_by_name (st : Statement) (name : bytes) (value : zval) : fallible Statement :=
  v <<- argument_value value;
  check_result (statement_set_by_name st (c_string name) v).

Fixpoint bind_arguments (st : Statement) (arguments : php_arguments) : fallible Statement :=
  match arguments with
  | [] => inr st
  | (key, value) :: rest =>
      st' <<- match key with AtName name => bind_argument_by_name st name value | AtIndex i => bind_argument_by_index st i value end;
      bind_arguments st' rest
  end.

Definition bound (st : Statement) (arguments : option php_arguments) : fallible Statement :=
  match arguments with Some l => bind_arguments st l | None => inr st end.

Definition argument_count (arguments : option php_arguments) : nat := match arguments with Some l => length l | None => 0%nat end.

Definition create_statement (s : php_scylladb_statement) (arguments : option php_arguments) : fallible Statement :=
  match s with
  | SimpleStatement cql _ => bound (cass_statement_new_n cql (argument_count arguments)) arguments
  | PreparedStatement p _ => bound (cass_prepared_bind p) arguments
  | BatchStatement _ _ _ => inl UnsupportedStatement
  end.

(** ** The driver's setters *)

Definition set_settings (f : RequestSettings -> RequestSettings) (st : Statement) : Statement := {|
  kind := kind st; elements := elements st; value_names := value_names st; settings := f (settings st);
  timestamp := timestamp st; page_size := page_size st; paging_state := paging_state st; profile_name := profile_name st
|}.
Definition set_paging (size : Z) (state : bytes) (ts : Z) (profile : bytes) (st : Statement) : Statement := {|
  kind := kind st; elements := elements st; value_names := value_names st; settings := settings st;
  timestamp := ts; page_size := size; paging_state := state; profile_name := profile
|}.
Definition cass_statement_set_consistency (c : Z) : Statement -> Statement := set_settings (fun s =>
  {| consistency := c; serial_consistency := serial_consistency s; retry_policy := retry_policy s; is_idempotent := is_idempotent s; keyspace := keyspace s |}).
Definition cass_statement_set_serial_consistency (c : Z) : Statement -> Statement := set_settings (fun s =>
  {| consistency := consistency s; serial_consistency := c; retry_policy := retry_policy s; is_idempotent := is_idempotent s; keyspace := keyspace s |}).
Definition cass_statement_set_retry_policy (p : option Z) : Statement -> Statement := set_settings (fun s =>
  {| consistency := consistency s; serial_consistency := serial_consistency s; retry_policy := p; is_idempotent := is_idempotent s; keyspace := keyspace s |}).
Definition cass_statement_set_is_idempotent (b : bool) : Statement -> Statement := set_settings (fun s =>
  {| consistency := consistency s; serial_consistency := serial_consistency s; retry_policy := retry_policy s; is_idempotent := b; keyspace := keyspace s |}).
Definition cass_statement_set_paging_size (n : Z) (st : Statement) : Statement := set_paging n (paging_state st) (timestamp st) (profile_name st) st.
Definition cass_statement_set_paging_state_token (t : bytes) (st : Statement) : Statement := set_paging (page_size st) t (timestamp st) (profile_name st) st.
Definition cass_statement_set_timestamp (t : Z) (st : Statement) : Statement := set_paging (page_size st) (paging_state st) t (profile_name st) st.
Definition cass_statement_set_execution_profile_n (name : bytes) (st : Statement) : Statement := set_paging (page_size st) (paging_state st) (timestamp st) name st.

Definition apply_if {A} (b : bool) (f : A -> A) (a : A) : A := if b then f a else a.
Definition apply_opt {A B} (o : option B) (f : B -> A -> A) (a : A) : A := match o with Some b => f b a | None => a end.

Definition create_single (s : php_scylladb_statement) (arguments : option php_arguments) (consistency serial_consistency page_size : Z)
    (paging_state_token : option bytes) (retry_policy : option Z) (timestamp : Z) (idempotent : php_scylladb_tristate) : fallible Statement :=
  st <<- create_statement s arguments;
  let st := cass_statement_set_consistency consistency st in
  let st := apply_if (0 <=? serial_consistency) (cass_statement_set_serial_consistency (wrapU 32 serial_consistency)) st in
  let st := apply_if (0 <=? page_size) (cass_statement_set_paging_size page_size) st in
  let st := apply_opt paging_state_token cass_statement_set_paging_state_token st in
  let st := apply_opt retry_policy (fun p => cass_statement_set_retry_policy (Some p)) st in
  let st := apply_if (negb (timestamp =? CASS_INT64_MIN)) (cass_statement_set_timestamp timestamp) st in
  let st := apply_opt idempotent cass_statement_set_is_idempotent st in
  inr st.

(** ** Batches *)

Definition set_batch (s : RequestSettings) (ts : Z) (profile : bytes) (b : Batch) : Batch :=
  {| batch_type := batch_type b; batch_statements := batch_statements b; batch_settings := s; batch_timestamp := ts; batch_profile_name := profile |}.

Definition entry_statement (e : batch_entry_statement) : php_scylladb_statement :=
  match e with EntryString cql | EntrySimple cql => SimpleStatement cql None | EntryPrepared p => PreparedStatement p None end.

Fixpoint add_entries (entries : list (batch_entry_statement * option php_arguments)) (b : Batch) : fallible Batch :=
  match entries with
  | [] => inr b
  | (e, arguments) :: rest => st <<- create_statement (entry_statement e) arguments; add_entries rest (cass_batch_add_statement st b)
  end.

Definition create_batch (type : Z) (entries : list (batch_entry_statement * option php_arguments)) (consistency : Z) (retry_policy : option Z) (timestamp : Z)
    (idempotent : php_scylladb_tristate) : fallible Batch :=
  b <<- add_entries entries (cass_batch_new type);
  let s := batch_settings b in
  inr (set_batch {| consistency := consistency; serial_consistency := serial_consistency s; retry_policy := retry_policy;
                    is_idempotent := match idempotent with Some i => i | None => is_idempotent s end; keyspace := keyspace s |}
         (if negb (timestamp =? CASS_INT64_MIN) then timestamp else batch_timestamp b) (batch_profile_name b) b).

(** ** Session::execute, up to the request *)

Record session_defaults := { default_consistency : Z; default_page_size : Z; default_timeout : zval }.

Inductive request := Single (st : Statement) | BatchOf (b : Batch).

(** The first argument: a string or a statement. *)
Inductive executed := ExecuteString (cql : bytes) | ExecuteStatement (s : php_scylladb_statement) | ExecuteOther.

(** The second argument: absent, an array or an [ExecutionOptions] object. *)
Inductive given_options := NoOptions | OptionsArray (a : options_array) | OptionsObject (o : php_scylladb_execution_options) | OptionsOther.

(** The third argument: a name, from a string or an enum; [Some None] is neither. *)
Definition profile_argument (name : option (option bytes)) : fallible (option bytes) :=
  match name with
  | None => inr None
  | Some (Some (c :: n)) => inr (Some (c :: n))
  | _ => inl (BadOption (bs "executionProfile") (bs "a non-empty string or an enum case naming a profile registered on the cluster"))
  end.

Definition executed_statement (s : executed) : fallible php_scylladb_statement :=
  match s with
  | ExecuteString cql => inr (SimpleStatement cql None)
  | ExecuteStatement s => inr s
  | ExecuteOther => inl (BadOption (bs "statement") (bs "a string or an instance of Cassandra\Statement"))
  end.

Definition resolve_options (o : given_options) : fallible (option php_scylladb_execution_options) :=
  match o with
  | NoOptions => inr None
  | OptionsArray a => opts <<- php_scylladb_execution_options_build_local_from_array a; inr (Some opts)
  | OptionsObject o => inr (Some o)
  | OptionsOther => inl (BadOption (bs "options") (bs "an instance of Cassandra\ExecutionOptions or an array or null"))
  end.

(** The locals of [execute]: the session's defaults, the statement's flag and the options over them. *)
Record call_settings := {
  c_arguments : option php_arguments;
  c_consistency : Z;
  c_page_size : Z;
  c_paging_state_token : option bytes;
  c_timeout : zval;
  c_serial_consistency : Z;
  c_retry_policy : option Z;
  c_timestamp : Z;
  c_idempotent : php_scylladb_tristate
}.

Definition default_settings_of (session : session_defaults) (stmt : php_scylladb_statement) : call_settings := {|
  c_arguments := None; c_consistency := wrapU 32 (default_consistency session); c_page_size := default_page_size session; c_paging_state_token := None;
  c_timeout := default_timeout session; c_serial_consistency := -1; c_retry_policy := None; c_timestamp := CASS_INT64_MIN; c_idempotent := statement_idempotent stmt
|}.

Definition override {A} (o : option A) (a : A) : A := match o with Some b => b | None => a end.

Definition apply_options (c : call_settings) (o : php_scylladb_execution_options) : call_settings := {|
  c_arguments := match o_arguments o with Some l => Some l | None => c_arguments c end;
  c_consistency := if 0 <=? o_consistency o then wrapU 32 (o_consistency o) else c_consistency c;
  c_page_size := if 0 <=? o_page_size o then o_page_size o else c_page_size c;
  c_paging_state_token := match o_paging_state_token o with Some t => Some t | None => c_paging_state_token c end;
  c_timeout := override (o_timeout o) (c_timeout c);
  c_serial_consistency := if 0 <=? o_serial_consistency o then o_serial_consistency o else c_serial_consistency c;
  c_retry_policy := match o_retry_policy o with Some p => Some p | None => c_retry_policy c end;
  c_timestamp := o_timestamp o;
  c_idempotent := match o_idempotent o with Some b => Some b | None => c_idempotent c end
|}.

Definition execute_request (session : session_defaults) (statement : executed) (options : given_options) (profile : option (option bytes)) : fallible (request * zval) :=
  execution_profile <<- profile_argument profile;
  stmt <<- executed_statement statement;
  opts <<- resolve_options options;
  let c := match opts with Some o => apply_options (default_settings_of session stmt) o | None => default_settings_of session stmt end in
  match stmt with
  | BatchStatement type entries _ =>
      b <<- create_batch type entries (c_consistency c) (c_retry_policy c) (c_timestamp c) (c_idempotent c);
      inr (BatchOf (apply_opt execution_profile (fun n b => set_batch (batch_settings b) (batch_timestamp b) n b) b), c_timeout c)
  | _ =>
      st <<- create_single stmt (c_arguments c) (c_consistency c) (c_serial_consistency c) (c_page_size c) (c_paging_state_token c) (c_retry_policy c) (c_timestamp c) (c_idempotent c);
      inr (Single (apply_opt execution_profile cass_statement_set_execution_profile_n st), c_timeout c)
  end.
End binding.

(** ** Which options take effect *)

Definition long_option (a : options_array) (name : bytes) (default : Z) : Z := match lookup_option name a with Some (OptZval (ZLong n)) => n | _ => default end.
Definition string_option (a : options_array) (name : bytes) (default : bytes) : bytes := match lookup_option name a with Some (OptZval (ZString s)) => s | _ => default end.
Definition policy_option (a : options_array) (default : option Z) : option Z := match lookup_option (bs "retry_policy") a with Some (OptRetryPolicy p) => Some p | _ => default end.
Definition bool_option (a : options_array) (default : bool) : bool :=
  match lookup_option (bs "idempotent") a with Some (OptZval ZTrue) => true | Some (OptZval ZFalse) => false | _ => default end.
Definition arguments_of (a : options_array) : option php_arguments := match lookup_option (bs "arguments") a with Some (OptArguments l) => Some l | _ => None end.
Definition timeout_of (a : options_array) (default : zval) : zval := match lookup_option (bs "timeout") a with Some (OptZval v) => v | _ => default end.
Definition timestamp_of (a : options_array) (default : Z) : Z :=
  match lookup_option (bs "timestamp") a with
  | Some (OptZval (ZLong n)) => n
  | Some (OptZval (ZString s)) => match php_scylladb_parse_bigint s with Parsed n => n | _ => default end
  | _ => default
  end.

Ltac case_in E := match type of E with (match ?m with _ => _ end) = _ => destruct m; congruence end.

(** What an accepted array of options holds. *)
Lemma build_from_array_inv self a o : build_from_array self a = inr o ->
  o = {| o_consistency := long_option a (bs "consistency") (o_consistency self);
         o_serial_consistency := long_option a (bs "serial_consistency") (o_serial_consistency self);
         o_page_size := match lookup_option (bs "page_size") a with Some (OptZval (ZLong n)) => wrapS 32 n | _ => o_page_size self end;
         o_paging_state_token := match lookup_option (bs "paging_state_token") a with Some (OptZval (ZString s)) => Some s | _ => o_paging_state_token self end;
         o_timeout := match lookup_option (bs "timeout") a with Some (OptZval v) => Some v | _ => o_timeout self end;
         o_arguments := match lookup_option (bs "arguments") a with Some (OptArguments l) => Some l | _ => o_arguments self end;
         o_retry_policy := policy_option a (o_retry_policy self);
         o_timestamp := timestamp_of a (o_timestamp self);
         o_idempotent := match lookup_option (bs "idempotent") a with Some (OptZval ZTrue) => Some true | Some (OptZval ZFalse) => Some false | _ => o_idempotent self end |} /\
  (forall n, lookup_option (bs "page_size") a = Some (OptZval (ZLong n)) -> 0 < n).
Proof.
  unfold build_from_array, fbind, parse_option, long_option, policy_option, timestamp_of.
  destruct (match lookup_option (bs "consistency") a with None => _ | Some v => consistency_option v end) as [|c] eqn:E1; [done|].
  destruct (match lookup_option (bs "serial_consistency") a with None => _ | Some v => serial_consistency_option v end) as [|sc] eqn:E2; [done|].
  destruct (match lookup_option (bs "page_size") a with None => _ | Some v => page_size_option v end) as [|ps] eqn:E3; [done|].
  destruct (match lookup_option (bs "paging_state_token") a with None => _ | Some v => paging_state_token_option v end) as [|tk] eqn:E4; [done|].
  destruct (match lookup_option (bs "timeout") a with None => _ | Some v => timeout_option v end) as [|ti] eqn:E5; [done|].
  destruct (match lookup_option (bs "arguments") a with None => _ | Some v => arguments_option v end) as [|ar] eqn:E6; [done|].
  destruct (match lookup_option (bs "retry_policy") a with None => _ | Some v => retry_policy_option v end) as [|rp] eqn:E7; [done|].
  destruct (match lookup_option (bs "timestamp") a with None => _ | Some v => timestamp_option v end) as [|ts] eqn:E8; [done|].
  destruct (match lookup_option (bs "idempotent") a with None => _ | Some v => idempotent_option v end) as [|id] eqn:E9; [done|].
  intros [= <-]. split.
  - f_equal.
    + destruct (lookup_option (bs "consistency") a) as [[[]| | |]|]; cbn [consistency_option] in E1; try congruence; case_in E1.
    + destruct (lookup_option (bs "serial_consistency") a) as [[[]| | |]|]; cbn [serial_consistency_option] in E2; try congruence; case_in E2.
    + destruct (lookup_option (bs "page_size") a) as [[[]| | |]|]; cbn [page_size_option] in E3; try congruence; case_in E3.
    + destruct (lookup_option (bs "paging_state_token") a) as [[[]| | |]|]; cbn [paging_state_token_option] in E4; congruence.
    + destruct (lookup_option (bs "timeout") a) as [[[]| | |]|]; cbn [timeout_option] in E5; try congruence; case_in E5.
    + destruct (lookup_option (bs "arguments") a) as [[[]| | |]|]; cbn [arguments_option] in E6; congruence.
    + destruct (lookup_option (bs "retry_policy") a) as [[[]| | |]|]; cbn [retry_policy_option] in E7; congruence.
    + destruct (lookup_option (bs "timestamp") a) as [[[]| | |]|]; cbn [timestamp_option] in E8; try congruence; case_in E8.
    + destruct (lookup_option (bs "idempotent") a) as [[[]| | |]|]; cbn [idempotent_option] in E9; congruence.
  - intros n En. rewrite En in E3. cbn in E3. destruct (Z.leb_spec n 0); [done|lia].
Qed.

Section effective.
Context {G : Gmp} (names : option bytes -> bytes).

(** The options of an array are in the ranges of their fields. *)
Record options_in_range (session : session_defaults) (a : options_array) : Prop := {
  consistency_in_range : in_u 32 (long_option a (bs "consistency") (default_consistency session));
  serial_in_range : in_u 32 (long_option a (bs "serial_consistency") 0);
  page_size_in_range : 0 <= long_option a (bs "page_size") (default_page_size session) < 2 ^ 31
}.

Definition is_batch (s : php_scylladb_statement) : bool := match s with BatchStatement _ _ _ => true | _ => false end.

(** Binding changes the values and their names only. *)
Definition same_frame (st st' : Statement) : Prop :=
  kind st' = kind st /\ settings st' = settings st /\ timestamp st' = timestamp st /\ page_size st' = page_size st /\ paging_state st' = paging_state st /\ profile_name st' = profile_name st.

Lemma same_frame_trans st1 st2 st3 : same_frame st1 st2 -> same_frame st2 st3 -> same_frame st1 st3.
Proof. unfold same_frame. intros (-> & -> & -> & -> & -> & ->) H. exact H. Qed.

Lemma statement_set_frame st i v st' : statement_set st i v = inr st' -> same_frame st st'.
Proof. unfold statement_set. destruct (abstract_set _ _ _ _); [done|]. by intros [= <-]. Qed.

Lemma set_by_name_frame st name v st' : statement_set_by_name st name v = inr st' -> same_frame st st'.
Proof.
  unfold statement_set_by_name. destruct (kind st) eqn:Ek; [|by destruct (set_by_name _ _ _ _ _); [|intros [= <-]]].
  unfold query_get_indices. destruct (get_indices _ name) as [|i l].
  - destruct (_ <? _)%nat; [done|]. destruct (set_indices _ _ _ _); [done|]. intros [= <-]. by repeat split.
  - destruct (set_indices _ _ _ _); [done|]. intros [= <-]. by repeat split.
Qed.

Lemma check_result_inr {A} (r : CassError + A) a : check_result r = inr a -> r = inr a.
Proof. destruct r; [done|]. by intros [= <-]. Qed.

Lemma bind_arguments_frame l : forall st st', bind_arguments names st l = inr st' -> same_frame st st'.
Proof.
  induction l as [|[key v] l IH]; intros st st' H; cbn [bind_arguments] in H; [by injection H as <-|].
  match type of H with fbind ?m _ = _ => destruct m as [|st1] eqn:E; [done|] end. cbn [fbind] in H. eapply same_frame_trans; [|by apply IH].
  destruct key as [i|name]; unfold bind_argument_by_index, bind_argument_by_name in E; (destruct (argument_value names v) as [|cv]; [done|]); cbn [fbind] in E; apply check_result_inr in E.
  - destruct (_ <=? _); [done|]. by apply statement_set_frame in E.
  - by apply set_by_name_frame in E.
Qed.

Lemma create_statement_frame s args st : create_statement names s args = inr st ->
  same_frame (match s with SimpleStatement cql _ => cass_statement_new_n cql (argument_count args) | PreparedStatement p _ => cass_prepared_bind p | _ => st end) st.
Proof.
  unfold create_statement, bound. destruct s; [..|done]; (destruct args as [l|]; [by apply bind_arguments_frame|by intros [= <-]]).
Qed.

Lemma create_statement_timestamp s args st : create_statement names s args = inr st -> timestamp st = CASS_INT64_MIN.
Proof. intros H. pose proof (create_statement_frame s args st H) as (_ & _ & -> & _). by destruct s. Qed.

Lemma create_single_ok s args c sc ps tk rp ts id st : create_single names s args c sc ps tk rp ts id = inr st ->
  exists st0, create_statement names s args = inr st0 /\
    st = {| kind := kind st0; elements := elements st0; value_names := value_names st0;
            settings := {| consistency := c; serial_consistency := if 0 <=? sc then wrapU 32 sc else serial_consistency (settings st0);
                           retry_policy := match rp with Some p => Some p | None => retry_policy (settings st0) end;
                           is_idempotent := match id with Some b => b | None => is_idempotent (settings st0) end; keyspace := keyspace (settings st0) |};
            timestamp := if negb (ts =? CASS_INT64_MIN) then ts else timestamp st0; page_size := if 0 <=? ps then ps else page_size st0;
            paging_state := match tk with Some t => t | None => paging_state st0 end; profile_name := profile_name st0 |}.
Proof.
  unfold create_single. destruct (create_statement names s args) as [|st0] eqn:E; [done|]. cbn [fbind]. intros [= <-]. exists st0. split; [done|].
  destruct (0 <=? sc), (0 <=? ps), tk, rp, (negb (ts =? CASS_INT64_MIN)), id; reflexivity.
Qed.

(** The locals for an array of options in range. *)
Lemma apply_options_array session s a o : options_in_range session a -> php_scylladb_execution_options_build_local_from_array a = inr o ->
  let c := apply_options (default_settings_of session s) o in
  c_arguments c = arguments_of a /\
  c_consistency c = long_option a (bs "consistency") (default_consistency session) /\
  c_page_size c = long_option a (bs "page_size") (default_page_size session) /\
  (forall d, (if 0 <=? c_serial_consistency c then wrapU 32 (c_serial_consistency c) else d) = long_option a (bs "serial_consistency") d) /\
  (forall d, match c_paging_state_token c with Some t => t | None => d end = string_option a (bs "paging_state_token") d) /\
  (forall d, match c_retry_policy c with Some p => Some p | None => d end = policy_option a d) /\
  (forall d, match c_idempotent c with Some b => b | None => d end = bool_option a (match statement_idempotent s with Some b => b | None => d end)) /\
  c_timestamp c = timestamp_of a CASS_INT64_MIN /\
  c_timeout c = timeout_of a (default_timeout session).
Proof.
  intros [Hc Hse Hp] Eo. apply build_from_array_inv in Eo as [-> Hpos].
  cbn [apply_options default_settings_of init_execution_options o_consistency o_serial_consistency o_page_size o_paging_state_token o_timeout o_arguments o_retry_policy o_timestamp o_idempotent
       c_arguments c_consistency c_page_size c_paging_state_token c_timeout c_serial_consistency c_retry_policy c_timestamp c_idempotent]. split_and!.
  - unfold arguments_of. by destruct (lookup_option (bs "arguments") a) as [[[]| | |]|].
  - unfold long_option in *. destruct (lookup_option (bs "consistency") a) as [[[]| | |]|]; cbn [Z.leb Z.compare]; try (by apply wrapU_id).
    rewrite wrapU_id by done. unfold in_u in Hc. by replace (0 <=? v) with true by lia.
  - unfold long_option in *. destruct (lookup_option (bs "page_size") a) as [[[]| | |]|]; cbn [Z.leb Z.compare]; try done.
    specialize (Hpos v eq_refl). rewrite wrapS_id by (unfold in_s; lia). by replace (0 <=? v) with true by lia.
  - intros d. unfold long_option in *. destruct (lookup_option (bs "serial_consistency") a) as [[[]| | |]|]; cbn [Z.leb Z.compare]; try done.
    unfold in_u in Hse. replace (0 <=? v) with true by lia. replace (0 <=? v) with true by lia. by apply wrapU_id.
  - intros d. unfold string_option. by destruct (lookup_option (bs "paging_state_token") a) as [[[]| | |]|].
  - intros d. unfold policy_option. by destruct (lookup_option (bs "retry_policy") a) as [[[]| | |]|].
  - intros d. unfold bool_option. by destruct (lookup_option (bs "idempotent") a) as [[[]| | |]|].
  - done.
  - unfold timeout_of, override. by destruct (lookup_option (bs "timeout") a) as [[v| | |]|].
Qed.

(** [execute] with an array of options, for one statement. *)
Lemma execute_single session s a profile st timeout :
  execute_request names session (ExecuteStatement s) (OptionsArray a) profile = inr (Single st, timeout) ->
  exists o, php_scylladb_execution_options_build_local_from_array a = inr o /\
    let c := apply_options (default_settings_of session s) o in
    exists st1, create_single names s (c_arguments c) (c_consistency c) (c_serial_consistency c) (c_page_size c) (c_paging_state_token c) (c_retry_policy c) (c_timestamp c) (c_idempotent c) = inr st1 /\
      kind st = kind st1 /\ elements st = elements st1 /\ value_names st = value_names st1 /\ settings st = settings st1 /\ page_size st = page_size st1 /\
      paging_state st = paging_state st1 /\ timestamp st = timestamp st1 /\ timeout = c_timeout c.
Proof.
  unfold execute_request. destruct (profile_argument profile) as [|name]; [done|]. cbn [fbind executed_statement resolve_options].
  destruct (php_scylladb_execution_options_build_local_from_array a) as [|o]; [done|]. cbn [fbind]. intros H. exists o. split; [done|]. cbn zeta. destruct s as [cql i|p i|t l i].
  3:{ by destruct (create_batch _ _ _ _ _ _ _). }
  all: destruct (create_single _ _ _ _ _ _ _ _ _ _) as [|st1]; [done|]; cbn [fbind] in H; injection H as <- <-; exists st1; by destruct name.
Qed.

Lemma effective_single session s a profile st timeout : options_in_range session a ->
  execute_request names session (ExecuteStatement s) (OptionsArray a) profile = inr (Single st, timeout) ->
  exists st0, create_statement names s (arguments_of a) = inr st0 /\
    (kind st = kind st0 /\ elements st = elements st0 /\ value_names st = value_names st0) /\
    settings st = {| consistency := long_option a (bs "consistency") (default_consistency session);
                     serial_consistency := long_option a (bs "serial_consistency") (serial_consistency (settings st0));
                     retry_policy := policy_option a (retry_policy (settings st0));
                     is_idempotent := bool_option a (match statement_idempotent s with Some b => b | None => is_idempotent (settings st0) end);
                     keyspace := keyspace (settings st0) |} /\
    page_size st = long_option a (bs "page_size") (default_page_size session) /\
    paging_state st = string_option a (bs "paging_state_token") (paging_state st0) /\
    timestamp st = timestamp_of a CASS_INT64_MIN /\
    timeout = timeout_of a (default_timeout session).
Proof.
  intros Hr H. destruct (execute_single _ _ _ _ _ _ H) as (o & Eo & st1 & E1 & -> & -> & -> & -> & -> & -> & -> & ->).
  destruct (apply_options_array session s a o Hr Eo) as (Ea & Ec & Ep & Es & Et & Erp & Ei & Ets & Eto).
  destruct (create_single_ok _ _ _ _ _ _ _ _ _ _ E1) as (st0 & E0 & ->). rewrite Ea in E0. exists st0. split; [done|]. split; [done|].
  cbn [settings page_size paging_state timestamp]. rewrite Ec, Es, Erp, Ei, Et, Eto, Ets, Ep. split; [done|]. split; [destruct Hr; by replace (0 <=? _) with true by lia|]. split; [done|].
  split; [|done]. rewrite (create_statement_timestamp _ _ _ E0). by destruct (Z.eqb_spec (timestamp_of a CASS_INT64_MIN) CASS_INT64_MIN) as [->|].
Qed.

Lemma add_entries_settings l : forall b b', add_entries names l b = inr b' ->
  consistency (batch_settings b') = consistency (batch_settings b) /\ serial_consistency (batch_settings b') = serial_consistency (batch_settings b) /\
  is_idempotent (batch_settings b') = is_idempotent (batch_settings b) /\ batch_timestamp b' = batch_timestamp b /\ batch_type b' = batch_type b.
Proof.
  induction l as [|[e args] l IH]; intros b b' H; cbn [add_entries] in H; [by injection H as <-|]. destruct (create_statement names _ args) as [|st]; [done|]. cbn [fbind] in H.
  by apply IH in H.
Qed.

Lemma effective_batch session t l i a profile b timeout : options_in_range session a ->
  execute_request names session (ExecuteStatement (BatchStatement t l i)) (OptionsArray a) profile = inr (BatchOf b, timeout) ->
  consistency (batch_settings b) = long_option a (bs "consistency") (default_consistency session) /\
  serial_consistency (batch_settings b) = RequestEncoding.CASS_CONSISTENCY_UNKNOWN /\
  retry_policy (batch_settings b) = policy_option a None /\
  is_idempotent (batch_settings b) = bool_option a (match i with Some b => b | None => false end) /\
  batch_timestamp b = timestamp_of a CASS_INT64_MIN /\ batch_type b = t.
Proof.
  intros Hr. unfold execute_request. destruct (profile_argument profile) as [|name]; [done|]. cbn [fbind executed_statement resolve_options].
  destruct (php_scylladb_execution_options_build_local_from_array a) as [|o] eqn:Eo; [done|]. cbn [fbind].
  destruct (apply_options_array session (BatchStatement t l i) a o Hr Eo) as (_ & Ec & _ & _ & _ & Erp & Ei & Ets & _).
  remember (apply_options (default_settings_of session (BatchStatement t l i)) o) as c eqn:Hc. clear Hc. unfold create_batch. destruct (add_entries names l (cass_batch_new t)) as [|b0] eqn:Eb; [done|]. cbn [fbind]. intros [= <- _].
  destruct (add_entries_settings _ _ _ Eb) as (_ & Es & Eid & Etime & Ety). cbn in Es, Eid, Etime, Ety.
  assert (c_retry_policy c = policy_option a None) as Ep by (rewrite <- Erp; by destruct (c_retry_policy c)).
  assert (batch_timestamp b0 = CASS_INT64_MIN) as Ebt by done. specialize (Ei false). cbn [statement_idempotent] in Ei.
  assert ((if negb (c_timestamp c =? CASS_INT64_MIN) then c_timestamp c else batch_timestamp b0) = timestamp_of a CASS_INT64_MIN) as Et.
  { rewrite Ets, Ebt. by destruct (Z.eqb_spec (timestamp_of a CASS_INT64_MIN) CASS_INT64_MIN) as [->|]. }
  destruct name; cbn [apply_opt set_batch batch_settings batch_timestamp batch_type consistency serial_consistency retry_policy is_idempotent];
    rewrite Ec, Es, Ep, Eid, Ei, Et; done.
Qed.

Lemma negative_consistency_options : php_scylladb_execution_options_build_local_from_array [(bs "consistency", OptZval (ZLong (1 - 2 ^ 32)))] =
  inr {| o_consistency := 1 - 2 ^ 32; o_serial_consistency := -1; o_page_size := -1; o_paging_state_token := None; o_timeout := None;
         o_arguments := None; o_retry_policy := None; o_timestamp := CASS_INT64_MIN; o_idempotent := None |}.
Proof. vm_compute. reflexivity. Qed.

Lemma huge_page_size_options : php_scylladb_execution_options_build_local_from_array [(bs "page_size", OptZval (ZLong (2 ^ 32))); (bs "timestamp", OptZval (ZLong 1))] =
  inr {| o_consistency := -1; o_serial_consistency := -1; o_page_size := 0; o_paging_state_token := None; o_timeout := None;
         o_arguments := None; o_retry_policy := None; o_timestamp := 1; o_idempotent := None |}.
Proof. vm_compute. reflexivity. Qed.

(** The options of [Session::execute].  For options in the ranges of their fields, the request
    is for the statement with its bound arguments, and each setting is the option's value when the
    option is given and otherwise the default of the session, of the statement or of the prepared
    statement; the idempotence option overrides the statement's flag.  A batch takes the consistency,
    retry policy, timestamp and idempotence, and drops the serial consistency.  Out of
    range, a consistency below zero is accepted and ignored, and a page size of 2^32 becomes
    zero, with which encoding the request writes behind the end of a buffer. *)
Theorem execute_options session a profile timeout :
  options_in_range session a ->
  (forall s st, execute_request names session (ExecuteStatement s) (OptionsArray a) profile = inr (Single st, timeout) ->
   exists st0, create_statement names s (arguments_of a) = inr st0 /\
     (kind st = kind st0 /\ elements st = elements st0 /\ value_names st = value_names st0) /\
     settings st = {| consistency := long_option a (bs "consistency") (default_consistency session);
                      serial_consistency := long_option a (bs "serial_consistency") (serial_consistency (settings st0));
                      retry_policy := policy_option a (retry_policy (settings st0));
                      is_idempotent := bool_option a (match statement_idempotent s with Some b => b | None => is_idempotent (settings st0) end);
                      keyspace := keyspace (settings st0) |} /\
     page_size st = long_option a (bs "page_size") (default_page_size session) /\
     paging_state st = string_option a (bs "paging_state_token") (paging_state st0) /\
     timestamp st = timestamp_of a CASS_INT64_MIN /\
     timeout = timeout_of a (default_timeout session)) /\
  (forall t l i b, execute_request names session (ExecuteStatement (BatchStatement t l i)) (OptionsArray a) profile = inr (BatchOf b, timeout) ->
   consistency (batch_settings b) = long_option a (bs "consistency") (default_consistency session) /\
   serial_consistency (batch_settings b) = RequestEncoding.CASS_CONSISTENCY_UNKNOWN /\
   retry_policy (batch_settings b) = policy_option a None /\
   is_idempotent (batch_settings b) = bool_option a (match i with Some b => b | None => false end) /\
   batch_timestamp b = timestamp_of a CASS_INT64_MIN /\ batch_type b = t) /\
  (forall cql, match execute_request names session (ExecuteString cql) (OptionsArray [(bs "consistency", OptZval (ZLong (1 - 2 ^ 32)))]) None with
               | inr (Single st, _) => consistency (settings st) = wrapU 32 (default_consistency session)
               | _ => False end) /\
  (forall cql version, zlen cql < 2 ^ 31 -> in_u 16 (default_consistency session) -> match execute_request names session (ExecuteString cql) (OptionsArray [(bs "page_size", OptZval (ZLong (2 ^ 32))); (bs "timestamp", OptZval (ZLong 1))]) None with
                       | inr (Single st, _) => page_size st = 0 /\ statement_encode version witness_callback st = Overrun
                       | _ => False end).
Proof.
  intros Hr. split; [intros s st; by apply effective_single|]. split; [intros t l i b; by apply effective_batch|]. split.
  - intros cql. unfold execute_request. cbn [profile_argument executed_statement resolve_options fbind]. rewrite negative_consistency_options.
    cbn -[Z.leb wrapU Z.pow Z.sub]. change (0 <=? 1 - 2 ^ 32) with false. change (0 <=? -1) with false. cbn [apply_if]. by destruct (0 <=? default_page_size session).
  - intros cql version Hcql Hd. unfold execute_request. cbn [profile_argument executed_statement resolve_options fbind]. rewrite huge_page_size_options. cbn [fbind create_single create_statement].
    split; [reflexivity|]. apply (overrun _ _ _ []); [|reflexivity|reflexivity]. split; [|split; by vm_compute|constructor|by vm_compute|right; constructor|done|exact Hcql].
    split; [|by vm_compute..]. change (in_u 16 (callback_consistency witness_callback {| consistency := wrapU 32 (default_consistency session);
      serial_consistency := RequestEncoding.CASS_CONSISTENCY_UNKNOWN; retry_policy := None; is_idempotent := false; keyspace := [] |})).
    unfold callback_consistency, in_u in *. cbn [consistency retry_consistency witness_callback]. rewrite wrapU_id by (unfold in_u; lia). change (negb (RequestEncoding.CASS_CONSISTENCY_UNKNOWN =? RequestEncoding.CASS_CONSISTENCY_UNKNOWN)) with false.
    by destruct (negb (default_consistency session =? RequestEncoding.CASS_CONSISTENCY_UNKNOWN)).
Qed.
End effective.

Definition witness_session : session_defaults := {| default_consistency := 6; default_page_size := 5000; default_timeout := ZNull |}.
Definition witness_options : options_array :=
  [(bs "consistency", OptZval (ZLong 1)); (bs "page_size", OptZval (ZLong 10)); (bs "arguments", OptArguments [(AtIndex 0, ZLong 7)]); (bs "idempotent", OptZval ZTrue)].

Lemma execute_options_witness :
  match execute_request (G := GmpModel.gmp) (fun _ => []) witness_session (ExecuteStatement (SimpleStatement (bs "SELECT * FROM t WHERE a = ?") None)) (OptionsArray witness_options) None with
  | inr (Single st, timeout) => page_size st = 10 /\ consistency (settings st) = 1 /\ timeout = ZNull
  | _ => False
  end.
Proof.
  destruct (execute_request _ _ _ _ _) as [|[[st|] timeout]] eqn:E; [vm_compute in E; discriminate E| |vm_compute in E; discriminate E].
  destruct (execute_options (G := GmpModel.gmp) (fun _ => []) witness_session witness_options None timeout) as [H _]; [split; vm_compute; intuition congruence|].
  destruct (H _ _ E) as (st0 & _ & _ & Es & Ep & _ & _ & Et). rewrite Es, Ep, Et. vm_compute. repeat split.
Defined.
