(* ===== verification/EndToEnd.v ===== *)
(** From the arguments of [Session::execute] to the server and back: the request that is encoded
    holds, for every argument, bytes that are read back as a column with the same value
    ([Statements], [RequestEncoding], [ContainerRoundTrip] composed). *)
From S2P Require Import Prelude ClusterBuilder ExecutionProfile InetUtil Serialization DriverErrors NumberParser UtHash Types Values Collections Decoder DataTypes Conversions ResultDecoder ValueRoundTrip ContainerRoundTrip RequestEncoding Statements.
#[local] Open Scope Z_scope.

Section end_to_end.
Context {G : Gmp} {GL : GmpLaws G} (zend_hash : bytes -> Z) (depth : nat) (have_custom_type : bool) (names : option bytes -> bytes).

Abbreviation storable := (ContainerRoundTrip.storable zend_hash depth).
Abbreviation stores := (ContainerRoundTrip.stores zend_hash depth have_custom_type names).
Abbreviation decodes_as := (ContainerRoundTrip.decodes_as zend_hash depth have_custom_type names).

Definition of_conv (c : conv cass_value) : fallible cass_value := match c with Converted v => inr v | Refused r => inl (BadBinding r) | Undefined => inl WrongObject end.

(** An argument is bound as the element of its type would be, with C strings. *)
Lemma argument_value_element t v : storable true t v -> argument_value names v = of_conv (element_value names true (type_code t) v).
Proof.
  intros Hv. destruct v as [| | |n|bits|s| |o|t' h|t' h|t' l|t' l|t' l]; cbn [ContainerRoundTrip.storable] in Hv.
  9-13: destruct Hv as [[Ht _] Hv]; destruct t'; try done; destruct t; try discriminate Ht; reflexivity.
  all: destruct t as [c| | | | | |]; try done; destruct Hv as [Hv _]; cbn [scalar_ok] in Hv; try done.
  - by subst c.
  - by subst c.
  - by destruct Hv as [-> _].
  - by destruct Hv as [-> _].
  - by apply text_cases in Hv as [->|[->| ->]].
  - destruct o; cbn [scalar_ok] in Hv; try (destruct Hv as [[->| ->] _]; done); try (destruct Hv as [-> _]; done); by subst c.
Qed.

(** What an argument is on the wire. *)
Definition arrives (t : php_scylladb_type) (v : zval) (w : wire_value) : Prop :=
  match v with
  | ZNull => w = WNull
  | _ => exists e, w = WValue e /\ forall td, canonical td = canonical t -> decodes_as td e v
  end.

Definition bindable (t : php_scylladb_type) (v : zval) : Prop :=
  complete t = true /\
  (v = ZNull \/ (storable true t v /\ forall cv, element_value names true (type_code t) v = Converted cv -> short (encode cv))).

Lemma buffer_wire x : short x -> is_unset (Buf (framed x)) = false /\ wire (Buf (framed x)) (WValue x).
Proof.
  intros Hs. destruct (framed x) as [|c b] eqn:E; [by apply framed_not_nil in E|]. split; [done|]. right. exists x. by rewrite <- E.
Qed.

Lemma element_wire cv : cv <> VNull -> complete_items cv -> short (encode cv) -> exists e, element_of cv = inr e /\ is_unset e = false /\ wire e (WValue (encode cv)).
Proof.
  intros Hn Hi Hs. assert (element_of cv = inr (Buf (encode_with_length cv)) -> exists e, element_of cv = inr e /\ is_unset e = false /\ wire e (WValue (encode cv))) as Hbuf.
  { intros ->. rewrite encode_with_length_framed by done. eexists. split; [done|]. by apply buffer_wire. }
  destruct cv; try done; try (apply Hbuf; reflexivity).
  exists (Coll t items). cbn [element_of complete_items] in *. split; [|done]. destruct (Z.eqb_spec (value_type t) CASS_VALUE_TYPE_MAP) as [E|]; cbn [andb]; [by rewrite (Hi E)|done].
Qed.

Lemma argument_arrives t v : bindable t v -> exists cv e w, argument_value names v = inr cv /\ element_of cv = inr e /\ is_unset e = false /\ wire e w /\ arrives t v w.
Proof using GL.
  intros [Hc [->|[Hv Hs]]]; [exists VNull, Nul, WNull; done|].
  destruct (storable_stored zend_hash depth have_custom_type names (S (value_depth v)) true t v ltac:(lia) Hc Hv) as (Hnn & _ & cv & Ecv & Hcv & Hi & _ & Hdec).
  destruct (element_wire cv Hcv Hi (Hs cv Ecv)) as (e & Ee & Hu & Hw). exists cv, e, (WValue (encode cv)). split; [by rewrite (argument_value_element t v Hv), Ecv|]. do 3 (split; [done|]).
  specialize (Hdec (Hs cv Ecv)). destruct v; try done; by exists (encode cv).
Qed.

(** Arguments under the indexes from [k]. *)
Fixpoint indexed (k : nat) (vs : list zval) : php_arguments := match vs with [] => [] | v :: vs' => (AtIndex (Z.of_nat k), v) :: indexed (S k) vs' end.

Lemma indexed_length vs : forall k, length (indexed k vs) = length vs.
Proof. induction vs as [|v vs IH]; intros k; cbn; [done|]. by rewrite IH. Qed.

Lemma bind_indexed ts vs : Forall2 bindable ts vs -> forall st pre q, kind st = Query q -> elements st = pre ++ replicate (length vs) Unset -> zlen (elements st) < 2 ^ 64 ->
  exists es ws, bind_arguments names st (indexed (length pre) vs) = inr (with_elements (pre ++ es) st) /\ Forall2 wire es ws /\ Forall (fun e => is_unset e = false) es /\ Forall3 arrives ts vs ws.
Proof using GL.
  induction 1 as [|t v ts vs Hv _ IH]; intros st pre q Hk Hel Hlen.
  - exists [], []. cbn in *. rewrite app_nil_r in *. split; [|by split_and!; constructor]. rewrite <- Hel. by destruct st.
  - destruct (argument_arrives t v Hv) as (cv & e & w & Ecv & Ee & Hu & Hw & Harr). cbn [indexed bind_arguments]. unfold bind_argument_by_index. rewrite Ecv. cbn [fbind].
    assert (zlen (elements st) = Z.of_nat (length pre) + 1 + zlen vs) as El by (rewrite Hel; unfold zlen; rewrite length_app; cbn [length replicate]; rewrite length_replicate; lia).
    pose proof (zlen_nonneg vs). rewrite wrapU_id by (unfold in_u; lia). replace (zlen (elements st) <=? Z.of_nat (length pre)) with false by lia. rewrite Nat2Z.id.
    unfold statement_set, abstract_set, parameter_types. rewrite Hk, Ee. replace (length (elements st) <=? length pre)%nat with false by (symmetry; apply Nat.leb_gt; unfold zlen in *; lia).
    assert (match map (fun _ : element => @None CassDataType) (elements st) !! length pre with Some (Some x) => negb (is_valid_data_type cv x) | _ => false end = false) as ->.
    { rewrite list_lookup_fmap. by destruct (elements st !! length pre). }
    cbn [check_result fbind]. assert (<[length pre := e]> (elements st) = (pre ++ [e]) ++ replicate (length vs) Unset) as Eins.
    { rewrite Hel, insert_app_r_alt, Nat.sub_diag by lia. cbn. by rewrite <- app_assoc. }
    rewrite Eins. destruct (IH (with_elements ((pre ++ [e]) ++ replicate (length vs) Unset) st) (pre ++ [e]) q Hk eq_refl) as (es & ws & Eb & Hes & Hus & Hws).
    { cbn [with_elements elements]. rewrite <- Eins. unfold zlen in *. by rewrite length_insert. }
    rewrite length_app, Nat.add_comm in Eb. cbn [length Nat.add] in Eb. rewrite Eb. exists (e :: es), (w :: ws). split; [by rewrite <- app_assoc|]. by split_and!; constructor.
Qed.

Record callback_fits (cb : RequestCallback) : Prop := {
  profile_consistency_fits : in_u 16 (profile_consistency cb);
  profile_serial_fits : in_u 16 (profile_serial_consistency cb);
  generated_timestamp_fits : in_s 64 (generated_timestamp cb);
  retry_consistency_fits : in_u 16 (RequestEncoding.retry_consistency cb)
}.

Lemma arguments_options l : php_scylladb_execution_options_build_local_from_array [(bs "arguments", OptArguments l)] =
  inr {| o_consistency := -1; o_serial_consistency := -1; o_page_size := -1; o_paging_state_token := None; o_timeout := None;
         o_arguments := Some l; o_retry_policy := None; o_timestamp := CASS_INT64_MIN; o_idempotent := None |}.
Proof. vm_compute. reflexivity. Qed.

(** The statement that [execute] makes of a query and its arguments, for the defaults of a session. *)
Definition executed_query (session : session_defaults) (cql : bytes) (es : list element) : Statement := {|
  kind := Query cql; elements := es; value_names := None;
  settings := {| consistency := default_consistency session; serial_consistency := RequestEncoding.CASS_CONSISTENCY_UNKNOWN; retry_policy := None; is_idempotent := false; keyspace := [] |};
  timestamp := CASS_INT64_MIN; page_size := default_page_size session; paging_state := []; profile_name := []
|}.

Lemma execute_query_request session cql l es : bind_arguments names (cass_statement_new_n cql (length l)) l = inr (with_elements es (cass_statement_new_n cql (length l))) ->
  0 < default_page_size session -> in_u 32 (default_consistency session) ->
  execute_request names session (ExecuteString cql) (OptionsArray [(bs "arguments", OptArguments l)]) None = inr (Single (executed_query session cql es), default_timeout session).
Proof.
  intros Hb Hp Hc. unfold execute_request. cbn [profile_argument executed_statement resolve_options fbind]. rewrite arguments_options. cbn [fbind apply_options default_settings_of
    o_consistency o_serial_consistency o_page_size o_paging_state_token o_timeout o_arguments o_retry_policy o_timestamp o_idempotent c_arguments c_consistency c_page_size c_paging_state_token
    c_timeout c_serial_consistency c_retry_policy c_timestamp c_idempotent statement_idempotent override].
  unfold create_single, create_statement, bound, argument_count. rewrite Hb. cbn [fbind]. change (0 <=? -1) with false. cbn iota. replace (0 <=? default_page_size session) with true by lia.
  rewrite (wrapU_id 32 (default_consistency session)) by done. reflexivity.
Qed.

Lemma executed_sendable version cb session cql es ws :
  zlen es < 65536 -> zlen cql < 2 ^ 31 -> 0 < default_page_size session < 2 ^ 31 -> in_u 16 (default_consistency session) -> callback_fits cb ->
  Forall2 wire es ws -> Forall (fun e => is_unset e = false) es -> sendable version cb (executed_query session cql es) ws.
Proof.
  intros Hl Hq Hp Hc [Hpc Hps Ht Hr] Hw Hu. split; try done; [|split; [cbn; unfold in_s; lia|done]|by right]. split; try done.
  unfold callback_consistency. cbn [settings executed_query consistency]. repeat match goal with |- context [if ?b then _ else _] => destruct b end; done.
Qed.

(** C1: what is bound is what the server gets, and what comes back.  [Session::execute] of a query
    with values for its parameters makes a request whose body, as a server reads it,
    has the query, the session's consistency and page size and one value per argument in
    their order: null for null, and otherwise bytes that, returned as a column
    of the argument's type, are read as the same value. *)
Theorem executed_arguments_arrive session cql ts vs version cb :
  Forall2 bindable ts vs -> zlen vs < 65536 -> zlen cql < 2 ^ 31 -> 0 < default_page_size session < 2 ^ 31 -> in_u 16 (default_consistency session) -> callback_fits cb ->
  exists st body p ws,
    execute_request names session (ExecuteString cql) (OptionsArray [(bs "arguments", OptArguments (indexed 0 vs))]) None = inr (Single st, default_timeout session) /\
    statement_encode version cb st = Encoded body /\ reads (d_query version) body (cql, p) /\
    q_values p = map (pair None) ws /\ Forall3 arrives ts vs ws /\ q_page_size p = Some (default_page_size session) /\
    (RequestEncoding.retry_consistency cb = RequestEncoding.CASS_CONSISTENCY_UNKNOWN -> default_consistency session <> RequestEncoding.CASS_CONSISTENCY_UNKNOWN ->
     q_consistency p = default_consistency session).
Proof using GL.
  intros Hb Hn Hq Hp Hc Hcb. destruct (bind_indexed ts vs Hb (cass_statement_new_n cql (length vs)) [] cql eq_refl eq_refl) as (es & ws & Eb & Hw & Hu & Ha).
  { cbn [elements cass_statement_new_n]. unfold zlen in *. rewrite length_replicate. lia. }
  assert (zlen es = zlen vs) as El by (unfold zlen; pose proof (List.Forall2_length Hw); apply Forall3_length_lm in Ha as ?; apply Forall3_length_lr in Ha as ?; pose proof (List.Forall2_length Hb); lia).
  assert (sendable version cb (executed_query session cql es) ws) as Hs by (apply executed_sendable; try done; lia).
  destruct (query_read version cb _ ws cql Hs) as (body & Ebody & Hr); [cbn; lia|done|]. exists (executed_query session cql es), body. do 2 eexists.
  split; [apply execute_query_request; [by rewrite indexed_length|lia|unfold in_u in *; lia]|]. split; [exact Ebody|]. split; [exact Hr|]. split; [reflexivity|]. split; [exact Ha|].
  cbn [sent_parameters q_page_size q_consistency executed_query page_size settings]. split; [by replace (0 <? default_page_size session) with true by lia|].
  intros E Hd. unfold callback_consistency. rewrite E, Z.eqb_refl. cbn [negb consistency]. by destruct (Z.eqb_spec (default_consistency session) RequestEncoding.CASS_CONSISTENCY_UNKNOWN).
Qed.
End end_to_end.

(** A query with an integer, a null and a list of pairs. *)
Lemma executed_arguments_arrive_witness :
  exists st body p ws,
    execute_request (G := GmpModel.gmp) id_names witness_session (ExecuteString (bs "INSERT INTO t (a, b, c) VALUES (?, ?, ?)"))
      (OptionsArray [(bs "arguments", OptArguments (indexed 0 [ZLong 7; ZNull; witness_list]))]) None = inr (Single st, ZNull) /\
    statement_encode 4 witness_callback st = Encoded body /\ reads (d_query 4) body (bs "INSERT INTO t (a, b, c) VALUES (?, ?, ?)", p) /\
    q_values p = map (pair None) ws /\
    Forall3 (arrives (G := GmpModel.gmp) (fun _ => 0) 2 false id_names) [TScalar CASS_VALUE_TYPE_INT; TScalar CASS_VALUE_TYPE_TEXT; witness_pairs] [ZLong 7; ZNull; witness_list] ws.
Proof.
  destruct (executed_arguments_arrive (G := GmpModel.gmp) (GL := GmpModel.gmp_laws) (fun _ => 0) 2 false id_names witness_session (bs "INSERT INTO t (a, b, c) VALUES (?, ?, ?)")
    [TScalar CASS_VALUE_TYPE_INT; TScalar CASS_VALUE_TYPE_TEXT; witness_pairs] [ZLong 7; ZNull; witness_list] 4 witness_callback) as (st & body & p & ws & E & Ee & Hr & Hv & Ha & _).
  - constructor; [|constructor; [|constructor; [|constructor]]]; (split; [reflexivity|]).
    + right. split; [repeat split; try done; unfold in_s; lia|]. intros cv [= <-]. by vm_compute.
    + by left.
    + right. split.
      * split; [by split|]. split; [|split; [|done]]; (split; [by split|]; split; [done|]; split; [apply (bool_decide_unpack _); by vm_compute|]);
          repeat split; try done; right; (split; [|done]); (split; [done|]); unfold in_s; lia.
      * intros cv E. vm_compute in E. injection E as <-. by vm_compute.
  - by vm_compute.
  - by vm_compute.
  - by vm_compute.
  - by vm_compute.
  - split; by vm_compute.
  - by exists st, body, p, ws.
Defined.
