(* ===== verification/ResultRows.v ===== *)
(** Results as PHP arrays ([php_scylladb_get_result] of src/Database/ResultDecoder.c, the cursor and
    lookups of src/Database/Rows.c) over the driver's result iterator (result_response.cpp,
    result_iterator.hpp, row.cpp).

    The first row is decoded with the response, the others are decoded in place over the values of the
    row before.  An array is a list of keys and values in their order. *)
From S2P Require Import Prelude ClusterBuilder ExecutionProfile InetUtil Serialization DriverErrors NumberParser UtHash Types Values Collections Decoder DataTypes Conversions ResultDecoder ValueRoundTrip ContainerRoundTrip RequestEncoding Statements.
#[local] Open Scope dec_scope.
#[local] Open Scope Z_scope.

(** ** Results *)

Record CassResult := {
  result_columns : list (bytes * CassDataType);
  row_count : Z;
  first_row : list Value;
  row_decoder : decoder;
  has_more_pages : bool;
  result_paging_state : bytes
}.

(** [decode_row]: [None] when a value is not valid. *)
Fixpoint decode_row (types : list CassDataType) : dec (option (list Value)) :=
  match types with
  | [] => ret (Some [])
  | t :: types' =>
      let! v := decode_value (data_type_view t) in
      match data_type v with
      | None => ret None
      | Some _ => let! r := decode_row types' in ret (option_map (cons v) r)
      end
  end.

(** [ResultResponse::decode_rows] behind the metadata: the number of rows and the first row. *)
Definition decode_rows (columns : list (bytes * CassDataType)) (more : bool) (state : bytes) : dec CassResult :=
  let! n := d_int32 in
  let! row := (if 0 <? n then decode_row (map snd columns) else ret (Some [])) in
  match row with
  | None => fail
  | Some values => fun d => Ok {| result_columns := columns; row_count := n; first_row := values; row_decoder := d; has_more_pages := more; result_paging_state := state |} d
  end.

(** [decode_next_row]: the values in place. *)
Fixpoint decode_next_row (types : list CassDataType) (values : list Value) : dec (bool * list Value) :=
  match types, values with
  | t :: types', v :: values' =>
      let! u := update_value (data_type_view t) v in
      if negb (fst u) then ret (false, snd u :: values')
      else let! r := decode_next_row types' values' in ret (fst r, snd u :: snd r)
  | _, _ => ret (true, values)
  end.

(** ** Arrays *)

(** A decimal integer that fits a PHP integer is an integer key. *)
Definition symtable_key (name : bytes) : array_key :=
  let digits := match name with 45 :: r => r | _ => name end in
  let n := of_digits 10 (map digit_val digits) in
  let n := match name with 45 :: _ => - n | _ => n end in
  if forallb isdigit digits && negb (is_nil digits) && (- 2 ^ 63 <=? n) && (n <? 2 ^ 63) && bool_decide (show_dec n = name) then AtIndex n else AtName name.

#[export] Instance array_key_eq_dec : EqDecision array_key.
Proof. solve_decision. Defined.

(** Different names are different keys. *)
Lemma symtable_key_inj s1 s2 : symtable_key s1 = symtable_key s2 -> s1 = s2.
Proof.
  unfold symtable_key. cbv zeta. intros E.
  destruct (_ && bool_decide (_ = s1)) eqn:E1, (_ && bool_decide (_ = s2)) eqn:E2; try congruence.
  apply andb_true_iff in E1 as [_ E1%bool_decide_eq_true]. apply andb_true_iff in E2 as [_ E2%bool_decide_eq_true]. injection E as E. congruence.
Qed.

Definition php_row : Type := list (array_key * zval).

(** [zend_symtable_update]: in place, or at the end. *)
Definition row_update (key : array_key) (v : zval) (row : php_row) : php_row :=
  if existsb (fun f => bool_decide (fst f = key)) row
  then map (fun f => if bool_decide (fst f = key) then (key, v) else f) row
  else row ++ [(key, v)].

Definition row_find (key : array_key) (row : php_row) : option zval := option_map snd (List.find (fun f => bool_decide (fst f = key)) row).

(** ** php_scylladb_get_result *)

Section get_result.
Context {G : Gmp} (zend_hash : bytes -> Z) (depth : nat) (have_custom_type : bool).

Fixpoint row_array (columns : list (bytes * CassDataType)) (values : list Value) (row : php_row) : outcome php_row :=
  match columns, values with
  | [], _ => Success row []
  | (name, t) :: columns', v :: values' =>
      z <== into_uninitialised (php_scylladb_value zend_hash depth have_custom_type t v);
      row_array columns' values' (row_update (symtable_key name) z row)
  | _ :: _, [] => Crash
  end.

(** The loop over the rows behind the first. *)
Fixpoint more_rows (n : nat) (columns : list (bytes * CassDataType)) (values : list Value) (d : decoder) : outcome (list php_row) :=
  match n with
  | O => Success [] []
  | S n' =>
      match decode_next_row (map snd columns) values d with
      | Ok (true, values') d' =>
          row <== row_array columns values' [];
          rows <== more_rows n' columns values' d';
          Success (row :: rows) []
      | Ok (false, _) _ => Success [] []
      | _ => Crash
      end
  end.

Definition php_scylladb_get_result (r : CassResult) : outcome (list php_row) :=
  if row_count r <=? 0 then Success [] []
  else
    row <== row_array (result_columns r) (first_row r) [];
    rows <== more_rows (Z.to_nat (row_count r - 1)) (result_columns r) (first_row r) (row_decoder r);
    Success (row :: rows) [].
End get_result.

(** Every value is read into a variable of [php_scylladb_get_result] itself: what it is given as [out] is
    not destroyed. *)
Section not_destroyed.
Context {G : Gmp} (zend_hash : bytes -> Z) (depth : nat) (have_custom_type : bool).

Lemma row_array_not_destroyed columns values row rc : row_array zend_hash depth have_custom_type columns values row <> Destroyed rc.
Proof.
  revert values row. induction columns as [|[n t] columns IH]; intros [|v values] row; cbn [row_array]; try done.
  destruct (php_scylladb_value zend_hash depth have_custom_type t v) as [z p| | |]; cbn [into_uninitialised outcome_bind]; try done.
  pose proof (IH values (row_update (symtable_key n) z row)) as H. by destruct (row_array _ _ _ columns values _).
Qed.

Lemma more_rows_not_destroyed n columns values d rc : more_rows zend_hash depth have_custom_type n columns values d <> Destroyed rc.
Proof.
  revert values d. induction n as [|n IH]; intros values d; cbn [more_rows]; [done|].
  destruct (decode_next_row (map snd columns) values d) as [[[|] vs] d'| | |]; try done.
  pose proof (row_array_not_destroyed columns vs []) as H. destruct (row_array _ _ _ columns vs []) as [row p| | |]; cbn [outcome_bind]; try done; [|by destruct (H rc0)].
  pose proof (IH vs d') as H2. by destruct (more_rows _ _ _ n columns vs d').
Qed.

Lemma get_result_not_destroyed r rc : php_scylladb_get_result zend_hash depth have_custom_type r <> Destroyed rc.
Proof.
  unfold php_scylladb_get_result. destruct (row_count r <=? 0); [done|].
  pose proof (row_array_not_destroyed (result_columns r) (first_row r) []) as H. destruct (row_array _ _ _ _ _ _) as [row p| | |]; cbn [outcome_bind]; try done; [|by destruct (H rc0)].
  pose proof (more_rows_not_destroyed (Z.to_nat (row_count r - 1)) (result_columns r) (first_row r) (row_decoder r)) as H2. by destruct (more_rows _ _ _ _ _ _ _).
Qed.
End not_destroyed.

(** ** Rows: the cursor and the lookups

    The array of rows is packed, so that a position is an index. *)

Section cursor.
Context (rows : list php_row).

Definition Rows_count : Z := zlen rows.
Definition Rows_rewind : nat := 0%nat.
Definition Rows_current (pos : nat) : option php_row := rows !! pos.
Definition Rows_key (pos : nat) : option Z := if (pos <? length rows)%nat then Some (Z.of_nat pos) else None.
Definition Rows_next (pos : nat) : nat := if (pos <? length rows)%nat then S pos else pos.
Definition Rows_valid (pos : nat) : bool := (pos <? length rows)%nat.

(** [None]: an exception for an offset that is not a non-negative integer. *)
Definition Rows_offsetExists (offset : zval) : option bool :=
  match offset with ZLong n => if n <? 0 then None else Some (n <? zlen rows) | _ => None end.
Definition Rows_offsetGet (offset : zval) : option (option php_row) :=
  match offset with ZLong n => if n <? 0 then None else Some (rows !! Z.to_nat n) | _ => None end.

Definition Rows_first : option php_row := rows !! 0%nat.

(** [wasApplied], given the truth of a PHP value. *)
Definition Rows_wasApplied (zend_is_true : zval -> bool) : bool :=
  match rows !! 0%nat with
  | None => true
  | Some row => match row_find (AtName (bs "[applied]")) row with None => true | Some v => zend_is_true v end
  end.
End cursor.

(** ** Reading rows *)

Definition recount (n : Z) (v : Value) : Value := {| data_type := data_type v; count := n; value_decoder := value_decoder v; value_is_null := value_is_null v |}.

Lemma read_keeps n d b d' : read n d = Ok b d' -> is_null d' = is_null d.
Proof.
  unfold read, bind, check_remaining, peek, advance, ret. repeat match goal with |- context [if ?c then _ else _] => destruct c end; try done. by intros [= _ <-].
Qed.

Lemma int32_keeps d n d' : d_int32 d = Ok n d' -> is_null d' = is_null d.
Proof. unfold d_int32, bind. destruct (read 4 d) as [b d1| | |] eqn:E; try done. intros [= _ <-]. by eapply read_keeps. Qed.

(** A value decoded in place is the value decoded anew, but for the count of a scalar. *)
Lemma update_as_decode t v0 d value d' : is_null d = false -> decode_value t d = Ok value d' -> is_Some (data_type value) -> value_is_null value = false ->
  is_null d' = false /\ exists n, update_value t v0 d = Ok (true, recount n value) d' /\ (is_collection t = true -> n = count value).
Proof.
  intros Hd. unfold decode_value, update_value, bind. destruct (d_int32 d) as [size d1| | |] eqn:E; try done; [|by intros [= <- <-] []%is_Some_None].
  pose proof (int32_keeps _ _ _ E) as H1. destruct (0 <=? size); [|by intros [= <- <-]]. cbn [advance]. unfold value_update. cbn [sub_decoder is_null]. rewrite H1, Hd. cbn [negb].
  destruct (is_collection t); cbn [negb].
  - destruct (d_int32 (sub_decoder size d1)) as [n sub| | |] eqn:Es; try done; [|by intros [= <- <-] []%is_Some_None].
    intros [= <- <-] _ _. split; [done|]. by exists n.
  - destruct (negb (is_string_or_bytes t) && (size =? 0)); [by intros [= <- <-]|]. intros [= <- <-] _ _. split; [done|].
    by exists (default (count v0) (field_count t)).
Qed.

Section rows.
Context {G : Gmp} {GL : GmpLaws G} (zend_hash : bytes -> Z) (depth : nat) (have_custom_type : bool) (names : option bytes -> bytes).

Abbreviation decode := (php_scylladb_value zend_hash depth have_custom_type).
Abbreviation type_of := (DataTypes.data_type_of names).
Abbreviation decodes_as := (ContainerRoundTrip.decodes_as zend_hash depth have_custom_type names).
Abbreviation get_result := (php_scylladb_get_result zend_hash depth have_custom_type).
Abbreviation row_array := (row_array zend_hash depth have_custom_type).

Lemma decode_recount t n v : (is_collection_type (value_type t) = true -> n = count v) -> decode t (recount n v) = decode t v.
Proof.
  intros Hn. destruct v as [dt c vd nl]. unfold recount in *. cbn [data_type count value_decoder value_is_null] in *. destruct t as [vt|cn|vt types|ks tn fs]; [done..| |done].
  destruct (is_collection_type (value_type (DComposite vt types))) eqn:E; [by rewrite (Hn eq_refl)|].
  cbn [value_type] in E. unfold is_collection_type in E. apply orb_false_elim in E as [[E1 E2]%orb_false_elim E3].
  cbn [php_scylladb_value value_is_null]. destruct nl; [done|]. destruct (php_scylladb_type_from_data_type have_custom_type (DComposite vt types)); [|done].
  cbn beta iota. by rewrite E1, E2, E3.
Qed.

(** What a column of a row holds: null, or a value with its length. *)
Definition cell (t : php_scylladb_type) (v : zval) (e : bytes) : Prop :=
  (v = ZNull /\ e = encode_int32 (-1)) \/ exists x, e = framed x /\ decodes_as t x v.

Definition same (z v : zval) : Prop := plain_value z = plain_value v.

Definition live (d : decoder) : Prop := in_bounds d /\ is_null d = false.

(** Reads a value that is decoded as [v]. *)
Definition reads_cell (m : dec Value) (t : php_scylladb_type) (v : zval) (e : bytes) : Prop :=
  forall d rest, live d -> window d = e ++ rest ->
  exists value d', m d = Ok value d' /\ live d' /\ window d' = rest /\ is_Some (data_type value) /\ exists z, decode (type_of t) value = Success z [] /\ same z v.

Lemma null_keeps t d d' : decode_value t d = Ok (null_value t) d' -> is_null d = false -> is_null d' = false.
Proof.
  unfold decode_value, bind. intros E Hd. destruct (d_int32 d) as [n d1| | |] eqn:E1; [|congruence..]. pose proof (int32_keeps _ _ _ E1) as H1.
  destruct (0 <=? n); [|injection E as <-; congruence]. cbn [advance] in E. destruct (negb (is_collection t)).
  - destruct (negb (is_string_or_bytes t) && (n =? 0)); [injection E as <-; cbn; congruence|done].
  - destruct (d_int32 (sub_decoder n d1)); done.
Qed.

Lemma decodes_cell t v e : cell t v e -> reads_cell (decode_value (data_type_view (type_of t))) t v e.
Proof.
  intros H d rest [Hd Hnl] Hw. destruct H as [[-> ->]|(x & -> & Hx)].
  - destruct (decode_null (data_type_view (type_of t)) d rest Hd Hw) as (d' & E & Hd' & Hw'). exists (null_value (data_type_view (type_of t))), d'.
    split; [done|]. split; [split; [done|by eapply null_keeps]|]. split; [done|]. split; [by eexists|]. exists ZNull. split; [by destruct (type_of t)|done].
  - destruct (Hx d rest Hd Hw) as (value & d' & E & Hd' & Hw' & Hv & Hn & z & Ez & _ & Hz & _).
    destruct (update_as_decode _ value d value d' Hnl E Hv Hn) as [Hnl' _]. exists value, d'. split; [done|]. split; [done|]. split; [done|]. split; [done|]. by exists z.
Qed.

Definition updated (r : decoded (bool * Value)) : decoded Value := match r with Ok (true, v) d => Ok v d | Ok _ _ => Failed | Failed => Failed | Thrown => Thrown | Decoder.Fault => Decoder.Fault end.

Lemma updates_cell t v e v0 : cell t v e -> reads_cell (fun d => updated (update_value (data_type_view (type_of t)) v0 d)) t v e.
Proof.
  intros H d rest [Hd Hnl] Hw. destruct H as [[-> ->]|(x & -> & Hx)].
  - destruct (reads_int32 (-1) ltac:(unfold in_s; lia) d rest Hd Hw) as (d' & E & Hd' & Hw'). exists (recount 0 (null_value (data_type_view (type_of t)))), d'.
    split; [unfold update_value; by rewrite E|]. split; [split; [done|by rewrite (int32_keeps _ _ _ E)]|]. split; [done|]. split; [by eexists|]. exists ZNull. split; [by destruct (type_of t)|done].
  - destruct (Hx d rest Hd Hw) as (value & d' & E & Hd' & Hw' & Hv & Hn & z & Ez & _ & Hz & _).
    destruct (update_as_decode _ v0 d value d' Hnl E Hv Hn) as [Hnl' (n & Eu & Hc)]. exists (recount n value), d'. rewrite Eu.
    split; [done|]. split; [done|]. split; [done|]. split; [done|]. exists z. split; [by rewrite decode_recount|done].
Qed.

Definition shown (t : php_scylladb_type) (v : zval) (value : Value) : Prop := exists z, decode (type_of t) value = Success z [] /\ same z v.

Lemma decode_row_ok ts vs es : Forall3 cell ts vs es -> forall d rest, live d -> window d = concat es ++ rest ->
  exists values d', decode_row (map type_of ts) d = Ok (Some values) d' /\ live d' /\ window d' = rest /\ Forall3 shown ts vs values.
Proof.
  induction 1 as [|t v e ts vs es Hc _ IH]; intros d rest Hd Hw; [exists [], d; by split_and!; [..|constructor]|].
  cbn [concat] in Hw. rewrite <- app_assoc in Hw. destruct (decodes_cell t v e Hc d _ Hd Hw) as (value & d1 & E & Hd1 & Hw1 & [dt Hv] & Hz).
  destruct (IH d1 rest Hd1 Hw1) as (values & d' & E' & Hd' & Hw' & Hs). exists (value :: values), d'. cbn [map decode_row]. unfold bind. rewrite E, Hv, E'.
  split; [done|]. split; [done|]. split; [done|]. by constructor.
Qed.

Lemma decode_next_row_ok ts vs es : Forall3 cell ts vs es -> forall vs0 d rest, length vs0 = length ts -> live d -> window d = concat es ++ rest ->
  exists values d', decode_next_row (map type_of ts) vs0 d = Ok (true, values) d' /\ live d' /\ window d' = rest /\ Forall3 shown ts vs values.
Proof.
  induction 1 as [|t v e ts vs es Hc _ IH]; intros vs0 d rest Hl Hd Hw; (destruct vs0 as [|v0 vs0]; [try done|try done]); [exists [], d; by split_and!; [..|constructor]|].
  cbn [concat] in Hw. rewrite <- app_assoc in Hw. destruct (updates_cell t v e v0 Hc d _ Hd Hw) as (value & d1 & E & Hd1 & Hw1 & _ & Hz).
  destruct (IH vs0 d1 rest ltac:(by injection Hl) Hd1 Hw1) as (values & d' & E' & Hd' & Hw' & Hs). exists (value :: values), d'. cbn [map decode_next_row]. unfold bind.
  destruct (update_value (data_type_view (type_of t)) v0 d) as [[[|] u] d2| | |]; try done. cbn [updated] in E. injection E as -> ->. cbn [fst snd negb]. rewrite E'.
  split; [done|]. split; [done|]. split; [done|]. by constructor.
Qed.

Lemma row_update_new key z row : key ∉ map fst row -> row_update key z row = row ++ [(key, z)].
Proof.
  intros H. unfold row_update. destruct (existsb _ row) eqn:E; [|done]. apply existsb_exists in E as (f & Hf & Hk). apply bool_decide_eq_true in Hk. subst key.
  destruct H. apply list_elem_of_In, in_map, Hf.
Qed.

Lemma row_array_ok ts vs values : Forall3 shown ts vs values -> forall ns row, length ns = length ts -> NoDup (map fst row ++ map symtable_key ns) ->
  exists zs, row_array (zip ns (map type_of ts)) values row = Success (row ++ zip (map symtable_key ns) zs) [] /\ Forall2 same zs vs.
Proof.
  induction 1 as [|t v value ts vs values (z & Ez & Hz) _ IH]; intros ns row Hl Hnd; (destruct ns as [|n ns]; try done).
  - exists []. cbn. rewrite app_nil_r. by split; [|constructor].
  - cbn [zip zip_with map ResultRows.row_array]. rewrite Ez. cbn [into_uninitialised outcome_bind]. cbn [map] in Hnd.
    assert (symtable_key n ∉ map fst row) as Hn. { intros Hin. apply list.NoDup_app in Hnd as (_ & Hd & _). by apply (Hd _ Hin), list_elem_of_here. }
    rewrite row_update_new by done. destruct (IH ns (row ++ [(symtable_key n, z)]) ltac:(by injection Hl)) as (zs & E & Hs).
    { rewrite map_app, <- app_assoc. exact Hnd. }
    fold (zip ns (map type_of ts)). rewrite E. exists (z :: zs). split; [|by constructor]. cbn [app zip zip_with]. by rewrite <- app_assoc.
Qed.

(** An array with the values of a row under the names of the columns. *)
Definition row_shows (ns : list bytes) (array : php_row) (vs : list zval) : Prop := exists zs, array = zip (map symtable_key ns) zs /\ Forall2 same zs vs.

Lemma more_rows_ok ns ts rows ess : length ns = length ts -> NoDup (map symtable_key ns) -> Forall2 (Forall3 cell ts) rows ess ->
  forall vs0 d rest, length vs0 = length ts -> live d -> window d = concat (map (@concat Z) ess) ++ rest ->
  exists arrays, more_rows zend_hash depth have_custom_type (length rows) (zip ns (map type_of ts)) vs0 d = Success arrays [] /\ Forall2 (row_shows ns) arrays rows.
Proof.
  intros Hns Hnd. assert (map snd (zip ns (map type_of ts)) = map type_of ts) as Es by (apply snd_zip; rewrite length_map; lia).
  induction 1 as [|vs es rows ess Hr _ IH]; intros vs0 d rest Hl Hd Hw; [exists []; by split; [|constructor]|]. cbn [map concat] in Hw. rewrite <- app_assoc in Hw.
  destruct (decode_next_row_ok ts vs es Hr vs0 d _ Hl Hd Hw) as (values & d1 & E & Hd1 & Hw1 & Hs). cbn [more_rows length]. rewrite Es, E.
  destruct (row_array_ok ts vs values Hs ns [] Hns Hnd) as (zs & Er & Hz). rewrite Er. cbn [outcome_bind app].
  destruct (IH values d1 rest) as (arrays & Em & Ha); [by rewrite (Forall3_length_lr _ _ _ _ Hs)|done|done|]. rewrite Em. cbn [outcome_bind app].
  exists (zip (map symtable_key ns) zs :: arrays). split; [done|]. constructor; [|done]. by exists zs.
Qed.

Lemma rows_received ns ts rows ess more state d rest : length ns = length ts -> NoDup (map symtable_key ns) -> Forall2 (Forall3 cell ts) rows ess -> zlen rows < 2 ^ 31 ->
  live d -> window d = encode_int32 (zlen rows) ++ concat (map (@concat Z) ess) ++ rest ->
  exists r d' arrays, decode_rows (zip ns (map type_of ts)) more state d = Ok r d' /\ has_more_pages r = more /\ result_paging_state r = state /\
    get_result r = Success arrays [] /\ Forall2 (row_shows ns) arrays rows.
Proof.
  intros Hns Hnd Hr Hlen [Hd Hnl] Hw. assert (map snd (zip ns (map type_of ts)) = map type_of ts) as Es by (apply snd_zip; rewrite length_map; lia).
  pose proof (zlen_nonneg rows). destruct (reads_int32 (zlen rows) ltac:(unfold in_s; lia) d _ Hd Hw) as (d1 & E1 & Hd1 & Hw1).
  assert (live d1) as Hl1 by (split; [done|by rewrite (int32_keeps _ _ _ E1)]). unfold decode_rows, bind. rewrite E1. unfold php_scylladb_get_result.
  destruct Hr as [|vs es rows ess Hv Hr].
  - cbn [zlen]. do 3 eexists. split; [reflexivity|]. by split_and!; [..|constructor].
  - cbn [map concat] in Hw1. rewrite <- app_assoc in Hw1. destruct (decode_row_ok ts vs es Hv d1 _ Hl1 Hw1) as (values & d2 & E2 & Hd2 & Hw2 & Hs).
    destruct (row_array_ok ts vs values Hs ns [] Hns Hnd) as (zs & Er & Hz).
    destruct (more_rows_ok ns ts rows ess Hns Hnd Hr values d2 rest) as (arrays & Em & Ha); [by rewrite (Forall3_length_lr _ _ _ _ Hs)|done|done|].
    rewrite zlen_cons in *. pose proof (zlen_nonneg rows). replace (0 <? 1 + zlen rows) with true by lia. rewrite Es, E2. do 2 eexists. exists (zip (map symtable_key ns) zs :: arrays).
    split; [reflexivity|]. cbn [row_count has_more_pages result_paging_state result_columns first_row row_decoder]. split; [done|]. split; [done|].
    replace (1 + zlen rows <=? 0) with false by lia. rewrite Er. cbn [outcome_bind app]. replace (Z.to_nat (1 + zlen rows - 1)) with (length rows) by (unfold zlen; lia). rewrite Em.
    split; [done|]. constructor; [|done]. by exists zs.
Qed.

(** What a column holds that was bound: null, or the encoding of a value with its length. *)
Definition sent (t : php_scylladb_type) (v : zval) (e : bytes) : Prop :=
  (v = ZNull /\ e = encode_int32 (-1)) \/
  (complete t = true /\ ContainerRoundTrip.storable zend_hash depth true t v /\
   exists cv, element_value names true (type_code t) v = Converted cv /\ short (encode cv) /\ e = framed (encode cv)).

Lemma sent_cell t v e : sent t v e -> cell t v e.
Proof using GL.
  intros [H|(Ht & Hv & cv & E & Hs & ->)]; [by left|]. right. exists (encode cv). split; [done|].
  destruct (storable_stored zend_hash depth have_custom_type names (S (value_depth v)) true t v ltac:(lia) Ht Hv) as (_ & _ & cv' & E' & _ & _ & _ & Hdec).
  rewrite E in E'. injection E' as <-. by apply Hdec.
Qed.

(** What is read from a column of a type with values of no bytes, in [n] rows. *)
Definition empty_values (n : Z) : decoder :=
  let b := encode_int32 n ++ concat (replicate (Z.to_nat n) (framed [])) in {| mem := b; input := 0; remaining := zlen b; supports_v5 := false; is_null := false |}.
Definition read_empty_values (type : Z) (n : Z) : outcome (list php_row) :=
  match decode_rows [(bs "a", DSimple type)] false [] (empty_values n) with Ok r _ => get_result r | _ => Crash end.

(** C12: the rows of a result.  From a response with rows of columns that hold null or what was bound,
    [php_scylladb_get_result] makes one array per row, in order, each with the values under the names
    of their columns, integers where names are numerals.  The first row is decoded differently
    from the others: a value of no bytes in a column of integers, booleans, doubles or bigints is null in
    the first row.  In a later row a bigint of no bytes fails the whole result, and an integer, a boolean
    or a double of no bytes destroys a variable of [php_scylladb_get_result] that is not initialised:
    the behaviour is undefined. *)
Theorem result_rows_read ns ts rows ess more state d rest :
  length ns = length ts -> NoDup (map symtable_key ns) -> Forall2 (Forall3 sent ts) rows ess -> zlen rows < 2 ^ 31 ->
  live d -> window d = encode_int32 (zlen rows) ++ concat (map (@concat Z) ess) ++ rest ->
  (exists r d' arrays, decode_rows (zip ns (map type_of ts)) more state d = Ok r d' /\ has_more_pages r = more /\ result_paging_state r = state /\
     get_result r = Success arrays [] /\ Forall2 (row_shows ns) arrays rows) /\
  Forall (fun type => read_empty_values type 1 = Success [[(AtName (bs "a"), ZNull)]] [])
    [CASS_VALUE_TYPE_INT; CASS_VALUE_TYPE_BOOLEAN; CASS_VALUE_TYPE_DOUBLE; CASS_VALUE_TYPE_BIGINT] /\
  Forall (fun type => read_empty_values type 2 = Crash) [CASS_VALUE_TYPE_INT; CASS_VALUE_TYPE_BOOLEAN; CASS_VALUE_TYPE_DOUBLE] /\
  read_empty_values CASS_VALUE_TYPE_BIGINT 2 = Failure CASS_ERROR_LIB_NOT_ENOUGH_DATA.
Proof using GL.
  intros Hns Hnd Hr Hlen Hd Hw. split; [|split_and!; repeat constructor; by vm_compute]. apply (rows_received ns ts rows ess more state d rest); try done.
  eapply list.Forall2_impl; [exact Hr|]. intros vs es H. eapply Forall3_impl; [exact H|]. apply sent_cell.
Qed.
End rows.

(** A row with a number and a list of pairs, and a row with nulls. *)
Definition witness_rows : list (list zval) := [[ZLong 7; witness_list]; [ZNull; ZNull]].
Definition witness_cell (t : php_scylladb_type) (v : zval) : bytes :=
  match element_value (G := GmpModel.gmp) id_names true (type_code t) v with Converted cv => framed (encode cv) | _ => [] end.
Definition witness_cells : list (list bytes) :=
  [[witness_cell (TScalar CASS_VALUE_TYPE_INT) (ZLong 7); witness_cell witness_pairs witness_list]; [encode_int32 (-1); encode_int32 (-1)]].
Definition witness_response : decoder :=
  let b := encode_int32 2 ++ concat (map (@concat Z) witness_cells) in {| mem := b; input := 0; remaining := zlen b; supports_v5 := false; is_null := false |}.

Lemma result_rows_read_witness :
  exists r d' arrays, decode_rows (zip [bs "id"; bs "0"] (map (DataTypes.data_type_of id_names) [TScalar CASS_VALUE_TYPE_INT; witness_pairs])) true (bs "next") witness_response = Ok r d' /\
    has_more_pages r = true /\ result_paging_state r = bs "next" /\
    php_scylladb_get_result (G := GmpModel.gmp) (fun _ => 0) 2 false r = Success arrays [] /\ Forall2 (row_shows [bs "id"; bs "0"]) arrays witness_rows.
Proof.
  refine (proj1 (result_rows_read (G := GmpModel.gmp) (GL := GmpModel.gmp_laws) (fun _ => 0) 2 false id_names [bs "id"; bs "0"] [TScalar CASS_VALUE_TYPE_INT; witness_pairs]
    witness_rows witness_cells true (bs "next") witness_response [] _ _ _ _ _ _)).
  - reflexivity.
  - apply (bool_decide_unpack _). by vm_compute.
  - constructor; [|constructor; [|constructor]]; constructor; try (by left); try (constructor; [|constructor]); try (by left); right; (split; [reflexivity|]); split.
    + repeat split; try done; unfold in_s; lia.
    + exists (VInt32 7). repeat split; by vm_compute.
    + split; [by split|]. split; [|split; [|done]]; (split; [by split|]; split; [done|]; split; [apply (bool_decide_unpack _); by vm_compute|]);
        repeat split; try done; right; (split; [|done]); (split; [done|]); unfold in_s; lia.
    + exists (match element_value (G := GmpModel.gmp) id_names true (type_code witness_pairs) witness_list with Converted cv => cv | _ => VNull end). repeat split; by vm_compute.
  - by vm_compute.
  - split; [repeat split; vm_compute; congruence|done].
  - by vm_compute.
Defined.
