(* ===== verification/Paging.v ===== *)
(** Pages of a result (src/Database/Rows.c, src/FutureRows.c, src/FutureValue.c, and the ends of
    [execute] and [executeAsync] of src/DefaultSession.c): which page a [Rows] object shows, and who
    owns the driver's results and statements.

    A [CassResult], [CassFuture] or [CassStatement] is a handle in a table; using or freeing a handle
    that is not in its table, or reading a zval that is not set, is a fault, the result [None] of an
    operation.  The driver encodes a request on a thread of its own, and again when it retries, and
    reads the paging state of the statement then: [Send] is that moment.  What
    the server answers is a function of the query and the paging state.  Waiting for a future that is
    not ready times out; waiting in a coroutine, in which other PHP code runs, is not
    modelled.  PHP frees an object that no other object refers to at any time. *)
From stdpp Require Import gmap.
From S2P Require Import Prelude ClusterBuilder ExecutionProfile InetUtil Serialization DriverErrors NumberParser UtHash Types Values Collections Decoder DataTypes Conversions ResultDecoder RequestEncoding Statements ResultRows.
#[local] Open Scope Z_scope.

(** ** State *)

(** The driver's statement, in a resource with [refs] references; [start] is the paging state it was
    made with. *)
Record resource := { query : bytes; start : bytes; paging : bytes; refs : nat }.

Inductive future_state := Unsent | Sent (r : CassResult) | Ready (r : CassError + option CassResult).

(** [asked] is the paging state of the statement when the request was made; a batch has no
    statement. *)
Record cass_future := { future_statement : option nat; asked : bytes; state_of : future_state }.

(** [php_scylladb_rows], with what is decoded of the rows. *)
Record rows_object := {
  r_statement : option nat;
  r_session : bool;
  r_rows : option (list php_row);
  r_next_rows : option (list php_row);
  r_result : option nat;
  r_next_result : option nat;
  r_future_next_page : option nat
}.

(** [php_scylladb_future_rows] *)
Record future_rows := {
  fr_statement : option nat;
  fr_session : bool;
  fr_rows : option (list php_row);
  fr_result : option nat;
  fr_future : nat
}.

Inductive php_object := ORows (r : rows_object) | OFutureRows (f : future_rows) | OFutureValue (value : option nat).

Record world := {
  statements : gmap nat resource;
  results : gmap nat CassResult;
  futures : gmap nat cass_future;
  objects : gmap nat php_object;
  fresh : nat
}.

Definition initial : world := {| statements := ∅; results := ∅; futures := ∅; objects := ∅; fresh := 0 |}.

Definition with_statements (m : gmap nat resource) (w : world) : world := {| statements := m; results := results w; futures := futures w; objects := objects w; fresh := fresh w |}.
Definition with_results (m : gmap nat CassResult) (w : world) : world := {| statements := statements w; results := m; futures := futures w; objects := objects w; fresh := fresh w |}.
Definition with_futures (m : gmap nat cass_future) (w : world) : world := {| statements := statements w; results := results w; futures := m; objects := objects w; fresh := fresh w |}.
Definition with_objects (m : gmap nat php_object) (w : world) : world := {| statements := statements w; results := results w; futures := futures w; objects := m; fresh := fresh w |}.
Definition next_fresh (w : world) : world := {| statements := statements w; results := results w; futures := futures w; objects := objects w; fresh := S (fresh w) |}.

(** Setters of one field each. *)
Definition set_result (h : option nat) (r : rows_object) : rows_object :=
  {| r_statement := r_statement r; r_session := r_session r; r_rows := r_rows r; r_next_rows := r_next_rows r; r_result := h; r_next_result := r_next_result r; r_future_next_page := r_future_next_page r |}.
Definition set_next_result (h : option nat) (r : rows_object) : rows_object :=
  {| r_statement := r_statement r; r_session := r_session r; r_rows := r_rows r; r_next_rows := r_next_rows r; r_result := r_result r; r_next_result := h; r_future_next_page := r_future_next_page r |}.
Definition set_next_rows (rows : list php_row) (r : rows_object) : rows_object :=
  {| r_statement := r_statement r; r_session := r_session r; r_rows := r_rows r; r_next_rows := Some rows; r_result := r_result r; r_next_result := r_next_result r; r_future_next_page := r_future_next_page r |}.
Definition set_future_next_page (f : nat) (r : rows_object) : rows_object :=
  {| r_statement := r_statement r; r_session := r_session r; r_rows := r_rows r; r_next_rows := r_next_rows r; r_result := r_result r; r_next_result := r_next_result r; r_future_next_page := Some f |}.
Definition set_fr_result (h : option nat) (f : future_rows) : future_rows :=
  {| fr_statement := fr_statement f; fr_session := fr_session f; fr_rows := fr_rows f; fr_result := h; fr_future := fr_future f |}.
Definition set_fr_rows (rows : list php_row) (f : future_rows) : future_rows :=
  {| fr_statement := fr_statement f; fr_session := fr_session f; fr_rows := Some rows; fr_result := fr_result f; fr_future := fr_future f |}.

(** [object_init_ex] of a [Rows] *)
Definition new_rows (rows : list php_row) : rows_object :=
  {| r_statement := None; r_session := false; r_rows := Some rows; r_next_rows := None; r_result := None; r_next_result := None; r_future_next_page := None |}.

Inductive thrown_error := TimedOut | RequestFailed (rc : CassError) | NoResult | NotDecoded (rc : CassError) | UnexpectedFuture.

(** What a method gives: an object, null, or an exception. *)
Inductive reply := Returned (o : nat) | ReturnedNull | Threw (e : thrown_error).

(** How a request ends that is waited for. *)
Inductive request_end := EndTimeout | EndError (rc : CassError) | EndNoResult | EndAnswered.

(** ** Operations *)

Section paging.
Context {G : Gmp} (zend_hash : bytes -> Z) (depth : nat) (have_custom_type : bool).

(** The server: what it answers to a query from a paging state; empty is none. *)
Context (answer : bytes -> bytes -> CassResult).

Abbreviation get_result := (php_scylladb_get_result zend_hash depth have_custom_type).

Definition rows_at (o : nat) (w : world) : option rows_object := match objects w !! o with Some (ORows r) => Some r | _ => None end.
Definition future_rows_at (o : nat) (w : world) : option future_rows := match objects w !! o with Some (OFutureRows f) => Some f | _ => None end.
Definition put_object (o : nat) (x : php_object) (w : world) : world := with_objects (<[o := x]> (objects w)) w.

(** A new handle for a result. *)
Definition new_result (r : CassResult) (w : world) : nat * world := (fresh w, next_fresh (with_results (<[fresh w := r]> (results w)) w)).
Definition new_object (x : php_object) (w : world) : nat * world := (fresh w, next_fresh (put_object (fresh w) x w)).

(** [GC_ADDREF] of a resource that is alive *)
Definition addref (s : nat) (w : world) : option world :=
  match statements w !! s with
  | Some st => if (refs st =? 0)%nat then None
               else Some (with_statements (<[s := {| query := query st; start := start st; paging := paging st; refs := S (refs st) |}]> (statements w)) w)
  | None => None
  end.
(** [zend_list_delete] *)
Definition release (s : nat) (w : world) : option world :=
  match statements w !! s with
  | Some st => if (refs st =? 0)%nat then None
               else Some (with_statements (<[s := {| query := query st; start := start st; paging := paging st; refs := pred (refs st) |}]> (statements w)) w)
  | None => None
  end.

(** [cass_result_free] *)
Definition free_result (h : nat) (w : world) : option world := match results w !! h with Some _ => Some (with_results (delete h (results w)) w) | None => None end.

(** [cass_statement_set_paging_state] *)
Definition set_paging_state (s : nat) (h : nat) (w : world) : option world :=
  match statements w !! s, results w !! h with
  | Some st, Some r =>
      if (refs st =? 0)%nat then None
      else Some (with_statements (<[s := {| query := query st; start := start st; paging := result_paging_state r; refs := refs st |}]> (statements w)) w)
  | _, _ => None
  end.

(** [php_scylladb_rows_create]: the new object, or the error that was thrown. *)
Definition rows_create (o : nat) (w : world) : option (reply * world) :=
  r ← rows_at o w;
  h ← r_next_result r;
  result ← results w !! h;
  match (match r_next_rows r with Some rows => Success rows [] | None => get_result result end) with
  | Failure rc => Some (Threw (NotDecoded rc), w)
  | Destroyed _ | Crash => None
  | Success rows _ =>
      let r := set_next_rows rows r in
      if has_more_pages result then
        s ← r_statement r;
        w ← addref s w;
        let w := put_object o (ORows (set_next_result None r)) w in
        let '(n, w) := new_object (ORows {| r_statement := Some s; r_session := r_session r; r_rows := Some rows; r_next_rows := None; r_result := Some h;
                                            r_next_result := None; r_future_next_page := None |}) w in
        Some (Returned n, w)
      else
        let '(n, w) := new_object (ORows (new_rows rows)) (put_object o (ORows r) w) in
        Some (Returned n, w)
  end.

(** [php_scylladb_future_rows_get_result]: the error, or nothing. *)
Definition future_rows_get_result (f : nat) (w : world) : option (option thrown_error * world) :=
  fr ← future_rows_at f w;
  match fr_result fr with
  | Some _ => Some (None, w)
  | None =>
      c ← futures w !! fr_future fr;
      match state_of c with
      | Ready (inl rc) => Some (Some (RequestFailed rc), w)
      | Ready (inr None) => Some (Some NoResult, w)
      | Ready (inr (Some r)) => let '(h, w) := new_result r w in Some (None, put_object f (OFutureRows (set_fr_result (Some h) fr)) w)
      | _ => Some (Some TimedOut, w)
      end
  end.

(** [FutureRows::get] *)
Definition FutureRows_get (f : nat) (w : world) : option (reply * world) :=
  '(failed, w) ← future_rows_get_result f w;
  match failed with
  | Some e => Some (Threw e, w)
  | None =>
      fr ← future_rows_at f w;
      h ← fr_result fr;
      result ← results w !! h;
      match (match fr_rows fr with Some rows => Success rows [] | None => get_result result end) with
      | Failure rc => Some (Threw (NotDecoded rc), w)
      | Destroyed _ | Crash => None
      | Success rows _ =>
          let fr := set_fr_rows rows fr in
          if has_more_pages result then
            s ← fr_statement fr;
            w ← addref s w;
            let w := put_object f (OFutureRows (set_fr_result None fr)) w in
            let '(n, w) := new_object (ORows {| r_statement := Some s; r_session := fr_session fr; r_rows := Some rows; r_next_rows := None; r_result := Some h;
                                                r_next_result := None; r_future_next_page := None |}) w in
            Some (Returned n, w)
          else
            let '(n, w) := new_object (ORows (new_rows rows)) (put_object f (OFutureRows fr) w) in
            Some (Returned n, w)
      end
  end.

(** The request of [nextPage]: [cass_session_execute], the wait and the result. *)
Definition execute_and_wait (s : nat) (e : request_end) (w : world) : option ((thrown_error + nat) * world) :=
  st ← statements w !! s;
  match e with
  | EndTimeout => Some (inl TimedOut, w)
  | EndError rc => Some (inl (RequestFailed rc), w)
  | EndNoResult => Some (inl NoResult, w)
  | EndAnswered => let '(h, w) := new_result (answer (query st) (paging st)) w in Some (inr h, w)
  end.

(** [Rows::nextPage] *)
Definition Rows_nextPage (o : nat) (e : request_end) (w : world) : option (reply * world) :=
  r ← rows_at o w;
  match r_next_result r with
  | Some _ => rows_create o w
  | None =>
      match r_future_next_page r with
      | Some f =>
          match objects w !! f with
          | Some (OFutureRows _) =>
              '(failed, w) ← future_rows_get_result f w;
              match failed with
              | Some e => Some (Threw e, w)
              | None =>
                  fr ← future_rows_at f w;
                  r ← rows_at o w;
                  rows_create o (put_object f (OFutureRows (set_fr_result None fr)) (put_object o (ORows (set_next_result (fr_result fr) r)) w))
              end
          | Some _ => Some (Threw UnexpectedFuture, w)
          | None => None
          end
      | None =>
          match r_result r with
          | None => Some (ReturnedNull, w)
          | Some h =>
              s ← r_statement r;
              w ← set_paging_state s h w;
              if negb (r_session r) then None
              else
                '(ended, w) ← execute_and_wait s e w;
                match ended with
                | inl e => Some (Threw e, w)
                | inr h => rows_create o (put_object o (ORows (set_next_result (Some h) r)) w)
                end
          end
      end
  end.

(** [Rows::nextPageAsync] *)
Definition Rows_nextPageAsync (o : nat) (w : world) : option (reply * world) :=
  r ← rows_at o w;
  match r_future_next_page r with
  | Some f => Some (Returned f, w)
  | None =>
      match r_next_result r with
      | Some _ =>
          let '(f, w) := new_object (OFutureValue None) w in
          let w := put_object o (ORows (set_future_next_page f r)) w in
          '(created, w) ← rows_create o w;
          match created with
          | Returned n => Some (Returned f, put_object f (OFutureValue (Some n)) w)
          | other => Some (other, w)
          end
      | None =>
          match r_result r with
          | None => let '(f, w) := new_object (OFutureValue None) w in Some (Returned f, w)
          | Some h =>
              s ← r_statement r;
              w ← set_paging_state s h w;
              w ← addref s w;
              if negb (r_session r) then None
              else
                st ← statements w !! s;
                let c := fresh w in
                let w := next_fresh (with_futures (<[c := {| future_statement := Some s; asked := paging st; state_of := Unsent |}]> (futures w)) w) in
                let '(f, w) := new_object (OFutureRows {| fr_statement := Some s; fr_session := true; fr_rows := None; fr_result := None; fr_future := c |}) w in
                Some (Returned f, put_object o (ORows (set_future_next_page f r)) w)
          end
      end
  end.

(** [Rows::isLastPage], [Rows::pagingStateToken] *)
Definition Rows_isLastPage (r : rows_object) : bool :=
  match r_result r, r_next_rows r, r_future_next_page r with None, None, None => true | _, _, _ => false end.
Definition Rows_pagingStateToken (r : rows_object) (w : world) : option (option bytes) :=
  match r_result r with
  | None => Some None
  | Some h => result ← results w !! h; if has_more_pages result then Some (Some (result_paging_state result)) else None
  end.

(** [FutureValue::get] *)
Definition FutureValue_get (value : option nat) : reply := match value with Some o => Returned o | None => ReturnedNull end.

(** The end of [execute] for one statement, made with [query] and a paging state. *)
Definition execute (q p : bytes) (e : request_end) (w : world) : option (reply * world) :=
  match e with
  | EndTimeout => Some (Threw TimedOut, w)
  | EndError rc => Some (Threw (RequestFailed rc), w)
  | EndNoResult => Some (Threw NoResult, w)
  | EndAnswered =>
      let result := answer q p in
      match get_result result with
      | Failure rc => Some (Threw (NotDecoded rc), w)
      | Destroyed _ | Crash => None
      | Success rows _ =>
          if has_more_pages result then
            let s := fresh w in
            let w := next_fresh (with_statements (<[s := {| query := q; start := p; paging := p; refs := 1 |}]> (statements w)) w) in
            let '(h, w) := new_result result w in
            let '(n, w) := new_object (ORows {| r_statement := Some s; r_session := true; r_rows := Some rows; r_next_rows := None; r_result := Some h; r_next_result := None;
                                                r_future_next_page := None |}) w in
            Some (Returned n, w)
          else let '(n, w) := new_object (ORows (new_rows rows)) w in Some (Returned n, w)
      end
  end.

(** [executeAsync] of one statement, and of a batch. *)
Definition executeAsync (q p : bytes) (w : world) : reply * world :=
  let s := fresh w in
  let w := next_fresh (with_statements (<[s := {| query := q; start := p; paging := p; refs := 1 |}]> (statements w)) w) in
  let c := fresh w in
  let w := next_fresh (with_futures (<[c := {| future_statement := Some s; asked := p; state_of := Unsent |}]> (futures w)) w) in
  let '(f, w) := new_object (OFutureRows {| fr_statement := Some s; fr_session := true; fr_rows := None; fr_result := None; fr_future := c |}) w in
  (Returned f, w).

Definition executeAsync_batch (w : world) : reply * world :=
  let c := fresh w in
  let w := next_fresh (with_futures (<[c := {| future_statement := None; asked := []; state_of := Unsent |}]> (futures w)) w) in
  let '(f, w) := new_object (OFutureRows {| fr_statement := None; fr_session := false; fr_rows := None; fr_result := None; fr_future := c |}) w in
  (Returned f, w).

(** [php_scylladb_rows_free], [php_scylladb_future_rows_free], [php_scylladb_future_value_free] *)
Definition free_optional {A} (f : A -> world -> option world) (o : option A) (w : world) : option world := match o with Some a => f a w | None => Some w end.

Definition free_object (o : nat) (w : world) : option world :=
  x ← objects w !! o;
  w ← (match x with
       | ORows r => w ← free_optional free_result (r_result r) w; w ← free_optional free_result (r_next_result r) w; free_optional release (r_statement r) w
       | OFutureRows f =>
           w ← free_optional release (fr_statement f) w; w ← free_optional free_result (fr_result f) w;
           c ← futures w !! fr_future f; Some (with_futures (delete (fr_future f) (futures w)) w)
       | OFutureValue _ => Some w
       end);
  Some (with_objects (delete o (objects w)) w).

(** ** Steps *)

Inductive label :=
| Execute (q p : bytes) (e : request_end)
| ExecuteAsync (q p : bytes)
| ExecuteAsyncBatch
| NextPage (o : nat) (e : request_end)
| NextPageAsync (o : nat)
| Get (o : nat)
| Free (o : nat)
| Send (c : nat)
| Resolve (c : nat)
| Fail (c : nat) (rc : option CassError)
| AnswerBatch (c : nat) (r : CassResult).

Inductive stepped := Disabled | Faulted | Stepped (r : reply) (w : world).

Definition stepped_of (m : option (reply * world)) : stepped := match m with Some (r, w) => Stepped r w | None => Faulted end.

Definition refers (x : php_object) (o : nat) : bool :=
  match x with
  | ORows r => bool_decide (r_future_next_page r = Some o)
  | OFutureRows _ => false
  | OFutureValue v => bool_decide (v = Some o)
  end.

Definition referenced (o : nat) (w : world) : bool := existsb (fun p => refers (snd p) o) (map_to_list (objects w)).

Definition future_becomes (c : nat) (f : cass_future -> option future_state) (w : world) : stepped :=
  match futures w !! c with
  | Some cf => match f cf with
               | Some s => Stepped ReturnedNull (with_futures (<[c := {| future_statement := future_statement cf; asked := asked cf; state_of := s |}]> (futures w)) w)
               | None => Disabled
               end
  | None => Disabled
  end.

Definition is_ready (s : future_state) : bool := match s with Ready _ => true | _ => false end.

Definition step (l : label) (w : world) : stepped :=
  match l with
  | Execute q p e => stepped_of (execute q p e w)
  | ExecuteAsync q p => let '(r, w') := executeAsync q p w in Stepped r w'
  | ExecuteAsyncBatch => let '(r, w') := executeAsync_batch w in Stepped r w'
  | NextPage o e => match objects w !! o with Some (ORows _) => stepped_of (Rows_nextPage o e w) | _ => Disabled end
  | NextPageAsync o => match objects w !! o with Some (ORows _) => stepped_of (Rows_nextPageAsync o w) | _ => Disabled end
  | Get o => match objects w !! o with
             | Some (OFutureRows _) => stepped_of (FutureRows_get o w)
             | Some (OFutureValue v) => Stepped (FutureValue_get v) w
             | _ => Disabled
             end
  | Free o => match objects w !! o with
              | Some _ => if referenced o w then Disabled else match free_object o w with Some w' => Stepped ReturnedNull w' | None => Faulted end
              | None => Disabled
              end
  | Send c => future_becomes c (fun cf => match future_statement cf, state_of cf with
                                          | _, Ready _ => None
                                          | Some s, _ => option_map (fun st => Sent (answer (query st) (paging st))) (statements w !! s)
                                          | None, _ => None
                                          end) w
  | Resolve c => future_becomes c (fun cf => match state_of cf with Sent r => Some (Ready (inr (Some r))) | _ => None end) w
  | Fail c rc => future_becomes c (fun cf => if is_ready (state_of cf) then None else Some (Ready (match rc with Some e => inl e | None => inr None end))) w
  | AnswerBatch c r => future_becomes c (fun cf => match future_statement cf, state_of cf with
                                                   | None, Unsent => if has_more_pages r then None else match get_result r with Crash => None | _ => Some (Ready (inr (Some r))) end
                                                   | _, _ => None
                                                   end) w
  end.

Inductive reachable : world -> Prop :=
| reachable_initial : reachable initial
| reachable_step l w r w' : reachable w -> step l w = Stepped r w' -> reachable w'.
End paging.
