(* ===== verification/PagingInv.v ===== *)
(** The invariant of paging ([Paging]): every result is held by one field of one object, the
    references to a statement are counted, and in histories in which requests do not overtake one
    another every object shows a page of its query. *)
From stdpp Require Import gmap gmultiset.
From S2P Require Import Prelude ClusterBuilder ExecutionProfile InetUtil Serialization DriverErrors NumberParser UtHash Types Values Collections Decoder DataTypes Conversions ResultDecoder RequestEncoding Statements ResultRows Paging.
#[local] Open Scope Z_scope.

(** ** Handles in the fields of a table of objects *)

Definition tally {A} (f : nat -> A -> gmultiset nat) (m : gmap nat A) : gmultiset nat := map_fold (fun k a acc => f k a ⊎ acc) ∅ m.
Definition handles {A} (m : gmap nat A) : gmultiset nat := tally (fun k _ => {[+ k +]}) m.

Lemma tally_new {A} (f : nat -> A -> gmultiset nat) m k a : m !! k = None -> tally f (<[k := a]> m) = f k a ⊎ tally f m.
Proof. intros H. unfold tally. rewrite map_fold_insert_L; [done| |done]. intros. multiset_solver. Qed.

Lemma tally_delete {A} (f : nat -> A -> gmultiset nat) m k a : m !! k = Some a -> tally f m = f k a ⊎ tally f (delete k m).
Proof. intros H. rewrite <- (insert_delete_id m k a) at 1 by done. apply tally_new, lookup_delete_eq. Qed.

Lemma tally_update {A} (f : nat -> A -> gmultiset nat) m k a a' : m !! k = Some a -> f k a ⊎ tally f (<[k := a']> m) = f k a' ⊎ tally f m.
Proof.
  intros H. rewrite (tally_delete f m k a H), <- insert_delete_eq, tally_new by apply lookup_delete_eq. multiset_solver.
Qed.

Lemma tally_elem {A} (f : nat -> A -> gmultiset nat) m k a h : m !! k = Some a -> h ∈ f k a -> h ∈ tally f m.
Proof. intros H Hh. rewrite (tally_delete f m k a H). multiset_solver. Qed.

Lemma handles_elem {A} (m : gmap nat A) h : h ∈ handles m <-> is_Some (m !! h).
Proof.
  split; [|intros [a H]; eapply tally_elem; [done|multiset_solver]]. induction m as [|k a m Hk IH] using map_ind; [by rewrite gmultiset_elem_of_empty|].
  unfold handles in *. rewrite tally_new by done. rewrite gmultiset_elem_of_disj_union, gmultiset_elem_of_singleton. intros [->|H]; [by rewrite lookup_insert_eq|].
  destruct (decide (k = h)) as [->|]; [by rewrite lookup_insert_eq|]. rewrite lookup_insert_ne by done. by apply IH.
Qed.

Lemma handles_once {A} (m : gmap nat A) h : (multiplicity h (handles m) <= 1)%nat.
Proof.
  induction m as [|k a m Hk IH] using map_ind; [unfold handles, tally; rewrite map_fold_empty, multiplicity_empty; lia|]. unfold handles in *. rewrite tally_new by done.
  rewrite multiplicity_disj_union. destruct (decide (h = k)) as [->|]; [|rewrite multiplicity_singleton_ne by done; lia].
  rewrite multiplicity_singleton, decide_True by done. assert (k ∉ handles m) as Hn by (rewrite handles_elem, Hk; by intros []%is_Some_None).
  rewrite elem_of_multiplicity in Hn. unfold handles in Hn. destruct (multiplicity k (tally _ m)) as [|n] eqn:E; [|destruct Hn]; rewrite ?E; lia.
Qed.

Lemma handles_new {A} (m : gmap nat A) k a : m !! k = None -> handles (<[k := a]> m) = {[+ k +]} ⊎ handles m.
Proof. intros H. unfold handles. by rewrite tally_new. Qed.

Lemma handles_same {A} (m : gmap nat A) k a : is_Some (m !! k) -> handles (<[k := a]> m) = handles m.
Proof.
  intros [b H]. unfold handles. pose proof (tally_update (fun k (_ : A) => {[+ k +]}) m k b a H) as E. cbn beta in E. multiset_solver.
Qed.

(** ** Fields *)

Definition opt_set (o : option nat) : gmultiset nat := match o with Some h => {[+ h +]} | None => ∅ end.
Definition slots (x : php_object) : gmultiset nat :=
  match x with ORows r => opt_set (r_result r) ⊎ opt_set (r_next_result r) | OFutureRows f => opt_set (fr_result f) | OFutureValue _ => ∅ end.
Definition statement_of (x : php_object) : gmultiset nat :=
  match x with ORows r => opt_set (r_statement r) | OFutureRows f => opt_set (fr_statement f) | OFutureValue _ => ∅ end.
Definition future_of (x : php_object) : gmultiset nat := match x with OFutureRows f => {[+ fr_future f +]} | _ => ∅ end.

Lemma opt_set_elem o h : h ∈ opt_set o <-> o = Some h.
Proof. destruct o as [k|]; cbn; [rewrite gmultiset_elem_of_singleton|rewrite gmultiset_elem_of_empty]; naive_solver. Qed.
Lemma slot_result r h : r_result r = Some h -> h ∈ slots (ORows r).
Proof. intros H. cbn. rewrite gmultiset_elem_of_disj_union, !opt_set_elem. by left. Qed.
Lemma slot_next r h : r_next_result r = Some h -> h ∈ slots (ORows r).
Proof. intros H. cbn. rewrite gmultiset_elem_of_disj_union, !opt_set_elem. by right. Qed.
Lemma slot_future f h : fr_result f = Some h -> h ∈ slots (OFutureRows f).
Proof. intros H. cbn. by rewrite opt_set_elem. Qed.
Lemma statement_rows r s : r_statement r = Some s -> s ∈ statement_of (ORows r).
Proof. intros H. cbn. by rewrite opt_set_elem. Qed.
Lemma statement_future f s : fr_statement f = Some s -> s ∈ statement_of (OFutureRows f).
Proof. intros H. cbn. by rewrite opt_set_elem. Qed.
Lemma future_rows_future f : fr_future f ∈ future_of (OFutureRows f).
Proof. cbn. by apply gmultiset_elem_of_singleton. Qed.

Abbreviation total f w := (tally (fun _ x => f x) (objects w)).

Definition refs_at (m : gmap nat resource) (s : nat) : nat := match m !! s with Some st => refs st | None => 0%nat end.

Section invariant.
Context {G : Gmp} (zend_hash : bytes -> Z) (depth : nat) (have_custom_type : bool) (answer : bytes -> bytes -> CassResult).

Abbreviation get_result := (php_scylladb_get_result zend_hash depth have_custom_type).

(** The pages of a query from a paging state. *)
Fixpoint page (q p : bytes) (n : nat) : CassResult := match n with O => answer q p | S n' => answer q (result_paging_state (page q p n')) end.

Definition decoded_as (r : CassResult) (rows : list php_row) : Prop := exists l, get_result r = Success rows l.

(** A [Rows] object shows page [n]. *)
Record shows (w : world) (r : rows_object) (q p : bytes) (n : nat) : Prop := {
  s_rows : exists rows, r_rows r = Some rows /\ decoded_as (page q p n) rows;
  s_result : forall h R, r_result r = Some h -> results w !! h = Some R -> R = page q p n;
  s_more : is_Some (r_result r) <-> has_more_pages (page q p n) = true;
  s_statement : forall s st, r_statement r = Some s -> statements w !! s = Some st -> query st = q /\ start st = p;
  s_next_result : forall h R, r_next_result r = Some h -> results w !! h = Some R -> R = page q p (S n);
  s_next_rows : forall rows, r_next_rows r = Some rows -> decoded_as (page q p (S n)) rows
}.

(** A [FutureRows] object asks for page [n]. *)
Record asks (w : world) (f : future_rows) (q p : bytes) (n : nat) : Prop := {
  a_statement : forall s st, fr_statement f = Some s -> statements w !! s = Some st -> query st = q /\ start st = p;
  a_asked : forall c, futures w !! fr_future f = Some c -> answer q (asked c) = page q p n;
  a_result : forall h R, fr_result f = Some h -> results w !! h = Some R -> R = page q p n;
  a_rows : forall rows, fr_rows f = Some rows -> decoded_as (page q p n) rows
}.

(** The next page a [Rows] object was asked for, in its future. *)
Definition link (ordered : bool) (w : world) (r : rows_object) (f : nat) (q p : bytes) (n : nat) : Prop :=
  match objects w !! f with
  | Some (OFutureRows fr) => fr_statement fr = r_statement r /\ (ordered = true -> asks w fr q p n)
  | Some (OFutureValue v) => is_Some (r_next_result r) /\ (ordered = true -> forall o r', v = Some o -> objects w !! o = Some (ORows r') -> shows w r' q p n)
  | _ => False
  end.

(** What holds of an object; [ordered] for histories without overtaking. *)
Definition shape (ordered : bool) (w : world) (x : php_object) : Prop :=
  match x with
  | ORows r =>
      (is_Some (r_result r) -> is_Some (r_statement r) /\ r_session r = true) /\
      (is_Some (r_next_result r) \/ is_Some (r_next_rows r) \/ is_Some (r_future_next_page r) -> is_Some (r_result r)) /\
      (forall h R, r_next_result r = Some h -> results w !! h = Some R -> has_more_pages R = true -> r_next_rows r = None /\ exists rc, get_result R = Failure rc) /\
      (forall h R, r_result r = Some h -> results w !! h = Some R -> has_more_pages R = true) /\
      exists q p n, (ordered = true -> shows w r q p n) /\ (forall f, r_future_next_page r = Some f -> link ordered w r f q p (S n))
  | OFutureRows f =>
      (is_Some (fr_statement f) -> fr_session f = true) /\
      (forall c, futures w !! fr_future f = Some c -> future_statement c = fr_statement f) /\
      (forall h R, fr_result f = Some h -> results w !! h = Some R -> has_more_pages R = true -> is_Some (fr_statement f)) /\
      (ordered = true -> exists q p n, asks w f q p n)
  | OFutureValue v => forall o, v = Some o -> exists r, objects w !! o = Some (ORows r)
  end.

(** What holds of a future of the driver. *)
Definition future_shape (ordered : bool) (w : world) (c : cass_future) : Prop :=
  (forall R, state_of c = Sent R \/ state_of c = Ready (inr (Some R)) -> get_result R <> Crash /\ (future_statement c = None -> has_more_pages R = false)) /\
  (forall s, future_statement c = Some s -> exists st, statements w !! s = Some st /\
     (ordered = true -> (forall R, state_of c = Sent R \/ state_of c = Ready (inr (Some R)) -> R = answer (query st) (asked c)) /\
                        (is_ready (state_of c) = false -> paging st = asked c))) /\
  (ordered = true -> is_Some (future_statement c)).

(** The invariant, with results and references that are in no field yet. *)
Record inv (ordered : bool) (lr ls : gmultiset nat) (w : world) : Prop := {
  i_results : total slots w ⊎ lr = handles (results w);
  i_statements : forall s, multiplicity s (total statement_of w ⊎ ls) = refs_at (statements w) s;
  i_futures : total future_of w = handles (futures w);
  i_shape : forall o x, objects w !! o = Some x -> shape ordered w x;
  i_future_shape : forall c cf, futures w !! c = Some cf -> future_shape ordered w cf;
  i_decodes : forall h R, results w !! h = Some R -> get_result R <> Crash;
  i_fresh : forall k, is_Some (objects w !! k) \/ is_Some (results w !! k) \/ is_Some (futures w !! k) \/ is_Some (statements w !! k) -> (k < fresh w)%nat
}.

(** ** Consequences *)

Section consequences.
Context (b : bool) (lr ls : gmultiset nat) (w : world) (H : inv b lr ls w).

Lemma slot_alive o x h : objects w !! o = Some x -> h ∈ slots x -> is_Some (results w !! h).
Proof using H. intros Ho Hh. apply handles_elem. rewrite <- (i_results _ _ _ _ H). pose proof (tally_elem (fun _ x => slots x) _ _ _ _ Ho Hh). multiset_solver. Qed.

Lemma slot_below o x h : objects w !! o = Some x -> h ∈ slots x -> (h < fresh w)%nat.
Proof using H. intros Ho Hh. apply (i_fresh _ _ _ _ H). right. left. by eapply slot_alive. Qed.

Lemma loose_alive h : h ∈ lr -> is_Some (results w !! h).
Proof using H. intros Hh. apply handles_elem. rewrite <- (i_results _ _ _ _ H). multiset_solver. Qed.

Lemma held_statement s : s ∈ total statement_of w ⊎ ls -> exists st, statements w !! s = Some st /\ refs st <> 0%nat.
Proof using H.
  rewrite elem_of_multiplicity, (i_statements _ _ _ _ H). unfold refs_at. destruct (statements w !! s) as [st|]; [|lia]. intros Hr. exists st. split; [done|lia].
Qed.

Lemma own_statement o x s : objects w !! o = Some x -> s ∈ statement_of x -> exists st, statements w !! s = Some st /\ refs st <> 0%nat.
Proof using H. intros Ho Hs. apply held_statement. pose proof (tally_elem (fun _ x => statement_of x) _ _ _ _ Ho Hs). multiset_solver. Qed.

Lemma own_future o f : objects w !! o = Some (OFutureRows f) -> exists c, futures w !! fr_future f = Some c.
Proof using H.
  intros Ho. apply handles_elem. rewrite <- (i_futures _ _ _ _ H). eapply (tally_elem (fun _ x => future_of x)); [exact Ho|]. cbn. multiset_solver.
Qed.

(** A result is in one field. *)
Lemma slot_once o1 o2 x1 x2 h : o1 <> o2 -> objects w !! o1 = Some x1 -> objects w !! o2 = Some x2 -> h ∈ slots x1 -> h ∈ slots x2 -> False.
Proof using H.
  intros Hne H1 H2 Hh1 Hh2. pose proof (handles_once (results w) h) as Hm. rewrite <- (i_results _ _ _ _ H) in Hm.
  rewrite (tally_delete (fun _ x => slots x) _ _ _ H1) in Hm. rewrite (tally_delete (fun _ x => slots x) (delete o1 (objects w)) o2 x2) in Hm by by rewrite lookup_delete_ne.
  rewrite !multiplicity_disj_union in Hm. rewrite elem_of_multiplicity in Hh1, Hh2. lia.
Qed.

Lemma slot_not_loose o x h : objects w !! o = Some x -> h ∈ slots x -> h ∈ lr -> False.
Proof using H.
  intros H1 Hh1 Hl. pose proof (handles_once (results w) h) as Hm. rewrite <- (i_results _ _ _ _ H) in Hm.
  rewrite (tally_delete (fun _ x => slots x) _ _ _ H1) in Hm. rewrite !multiplicity_disj_union in Hm. rewrite elem_of_multiplicity in Hh1, Hl. lia.
Qed.
End consequences.

(** ** Growth *)

(** Nothing that was there changes but counters, states of requests and paging states. *)
Record grows (w w' : world) : Prop := {
  g_statements : forall s st, statements w !! s = Some st -> exists st', statements w' !! s = Some st' /\ query st' = query st /\ start st' = start st;
  g_results : forall h R, (h < fresh w)%nat -> results w' !! h = Some R -> results w !! h = Some R;
  g_futures : forall c cf', (c < fresh w)%nat -> futures w' !! c = Some cf' -> exists cf, futures w !! c = Some cf /\ future_statement cf' = future_statement cf /\ asked cf' = asked cf
}.

Lemma grows_refl w : grows w w.
Proof. split; [by eauto|done|by eauto]. Qed.

(** The handles of an object are of this world. *)
Record bounded (w : world) (x : php_object) : Prop := {
  b_slots : forall h, h ∈ slots x -> (h < fresh w)%nat;
  b_statement : forall s, s ∈ statement_of x -> is_Some (statements w !! s);
  b_future : forall c, c ∈ future_of x -> (c < fresh w)%nat
}.

Lemma inv_bounded b lr ls w o x : inv b lr ls w -> objects w !! o = Some x -> bounded w x.
Proof.
  intros H Ho. split.
  - intros h Hh. by eapply slot_below.
  - intros s Hs. destruct (own_statement b lr ls w H o x s Ho Hs) as (st & -> & _). done.
  - intros c Hc. apply (i_fresh _ _ _ _ H). right. right. left. apply handles_elem. rewrite <- (i_futures _ _ _ _ H). by eapply (tally_elem (fun _ x => future_of x)).
Qed.

Lemma shows_grows w w' r q p n : grows w w' -> bounded w (ORows r) -> shows w r q p n -> shows w' r q p n.
Proof.
  intros [Gs Gr Gf] [Bs Bt _] [S1 S2 S3 S4 S5 S6]. split; try done.
  - intros h R E HR. apply (S2 h R E), Gr; [|done]. by apply Bs, slot_result.
  - intros s st E Hst. destruct (Bt s) as [st0 Hs]; [by apply statement_rows|]. destruct (Gs s st0 Hs) as (st' & E' & Eq & Ep). rewrite Hst in E'. injection E' as <-. rewrite Eq, Ep. by apply (S4 s st0).
  - intros h R E HR. apply (S5 h R E), Gr; [|done]. by apply Bs, slot_next.
Qed.

Lemma asks_grows w w' f q p n : grows w w' -> bounded w (OFutureRows f) -> asks w f q p n -> asks w' f q p n.
Proof.
  intros [Gs Gr Gf] [Bs Bt Bf] [S1 S2 S3 S4]. split; try done.
  - intros s st E Hst. destruct (Bt s) as [st0 Hs]; [by apply statement_future|]. destruct (Gs s st0 Hs) as (st' & E' & Eq & Ep). rewrite Hst in E'. injection E' as <-. rewrite Eq, Ep. by apply (S1 s st0).
  - intros c Hc. destruct (Gf _ c ltac:(apply Bf, future_rows_future) Hc) as (c0 & Hc0 & _ & ->). by apply S2.
  - intros h R E HR. apply (S3 h R E), Gr; [|done]. by apply Bs, slot_future.
Qed.

(** An object after a step. *)
Definition succeeds (b : bool) (w w' : world) (o : nat) (x x' : php_object) : Prop :=
  match x, x' with
  | ORows r, ORows r' => b = true -> forall q p n, shows w r q p n -> shows w' r' q p n
  | OFutureRows f, OFutureRows f' => fr_statement f' = fr_statement f /\ (b = true -> forall q p n, asks w f q p n -> asks w' f' q p n)
  | OFutureValue v, OFutureValue v' =>
      v' = v \/
      v = None /\ exists m, v' = Some m /\
        (b = true -> forall k r q p n r', objects w !! k = Some (ORows r) -> r_future_next_page r = Some o -> shows w r q p n -> objects w' !! m = Some (ORows r') -> shows w' r' q p (S n))
  | _, _ => False
  end.

Lemma succeeds_same b w w' o x : grows w w' -> bounded w x -> succeeds b w w' o x x.
Proof. intros Hg Hb. destruct x; cbn; [intros _ q p n; by apply shows_grows| |by left]. split; [done|]. intros _ q p n. by apply asks_grows. Qed.

Definition pointed (w : world) (o : nat) : Prop := exists o' x', objects w !! o' = Some x' /\ refers x' o = true.

(** Every object that is referred to is there after the step. *)
Definition evolves (b : bool) (w w' : world) : Prop :=
  grows w w' /\ forall o x, objects w !! o = Some x -> pointed w o -> exists x', objects w' !! o = Some x' /\ succeeds b w w' o x x'.

Lemma link_evolves b lr ls w w' o r r' f q p n : inv b lr ls w -> evolves b w w' -> objects w !! o = Some (ORows r) -> r_future_next_page r = Some f ->
  r_statement r' = r_statement r -> (is_Some (r_next_result r) -> is_Some (r_next_result r')) -> (b = true -> shows w r q p n) -> link b w r f q p (S n) -> link b w' r' f q p (S n).
Proof.
  intros Hi [Hg He] Ho Hf Hs Hn Hsh. unfold link. destruct (objects w !! f) as [x|] eqn:Ef; [|done].
  destruct (He f x Ef) as (x' & Ef' & Hx). { exists o, (ORows r). split; [done|]. cbn. by apply bool_decide_eq_true. }
  rewrite Ef'. destruct x as [|fr|v], x' as [|fr'|v']; try done; cbn [succeeds] in Hx.
  - destruct Hx as [Hx1 Hx2]. rewrite Hs, Hx1. intros [H1 H2]. split; [done|]. intros Hb. by apply Hx2, H2.
  - intros [H1 H2]. split; [by apply Hn|]. intros Hb m r1 Ev Hm. destruct Hx as [->|(-> & m' & -> & Hx)]; [|injection Ev as ->; by apply (Hx Hb o r q p n r1 Ho Hf (Hsh Hb))]. subst v. destruct (i_shape _ _ _ _ Hi f _ Ef m eq_refl) as (r0 & Em).
    destruct (He m _ Em) as (y & Em' & Hy). { exists f, (OFutureValue (Some m)). split; [done|]. cbn. by apply bool_decide_eq_true. }
    rewrite Hm in Em'. injection Em' as <-. cbn in Hy. apply (Hy Hb), (H2 Hb m r0 eq_refl Em).
Qed.

Lemma shape_evolves b lr ls w w' o x : inv b lr ls w -> evolves b w w' -> objects w !! o = Some x -> shape b w' x.
Proof.
  intros Hi He Ho. pose proof He as [[Gs Gr Gf] Hp]. pose proof (inv_bounded _ _ _ _ _ _ Hi Ho) as Hb. pose proof Hb as [Bs Bt Bf]. pose proof (i_shape _ _ _ _ Hi o x Ho) as Hx.
  destruct x as [r|f|v]; cbn [shape] in *.
  - destruct Hx as (H1 & H2 & H3 & H4 & q & p & n & H5 & H6). split; [done|]. split; [done|]. split; [|split].
    + intros h R E HR. apply (H3 h R E), Gr; [|done]. by apply Bs, slot_next.
    + intros h R E HR. apply (H4 h R E), Gr; [|done]. by apply Bs, slot_result.
    + exists q, p, n. split; [intros Hbt; apply (shows_grows w); [apply He|done|by apply H5]|]. intros f Hf. apply (link_evolves b lr ls w w' o r r f q p n Hi He Ho Hf); [done..|by apply H6].
  - destruct Hx as (H1 & H2 & H3 & H4). split; [done|]. split; [|split].
    + intros c Hc. destruct (Gf _ c ltac:(apply Bf, future_rows_future) Hc) as (c0 & Hc0 & -> & _). by apply H2.
    + intros h R E HR. apply (H3 h R E), Gr; [|done]. by apply Bs, slot_future.
    + intros Hbt. destruct (H4 Hbt) as (q & p & n & Ha). exists q, p, n. apply (asks_grows w); [apply He|done|done].
  - intros m ->. destruct (Hx m eq_refl) as (r & Em). destruct (Hp m _ Em) as (y & Em' & Hy). { exists o, (OFutureValue (Some m)). split; [done|]. cbn. by apply bool_decide_eq_true. }
    destruct y; try done. by eexists.
Qed.

Lemma future_shape_evolves b w w' cf : future_shape b w cf ->
  (forall s st, future_statement cf = Some s -> statements w !! s = Some st -> exists st', statements w' !! s = Some st' /\ query st' = query st /\
     (b = true -> is_ready (state_of cf) = false -> paging st = asked cf -> paging st' = asked cf)) -> future_shape b w' cf.
Proof.
  intros (H1 & H2 & H3) Hs. split; [done|]. split; [|done]. intros s Es. destruct (H2 s Es) as (st & Est & Ha). destruct (Hs s st Es Est) as (st' & Est' & Hq & Hp).
  exists st'. split; [done|]. intros Hb. destruct (Ha Hb) as [Ha1 Ha2]. split; [by rewrite Hq|]. intros Hr. by apply Hp, Ha2.
Qed.

(** ** The parts of operations *)

Lemma multiset_put (x x' t t' l l' h : gmultiset nat) : x ⊎ t' = x' ⊎ t -> t ⊎ l = h -> x' ⊎ l' = x ⊎ l -> t' ⊎ l' = h.
Proof. intros. multiset_solver. Qed.

Lemma multiset_new (x t l l' h : gmultiset nat) : t ⊎ l = h -> x ⊎ l' = l -> (x ⊎ t) ⊎ l' = h.
Proof. intros. multiset_solver. Qed.

Lemma grows_objects m w : grows w (with_objects m w).
Proof. split; cbn; [by eauto|done|by eauto]. Qed.

Lemma evolves_put b lr ls w o x x' : inv b lr ls w -> objects w !! o = Some x -> succeeds b w (put_object o x' w) o x x' -> evolves b w (put_object o x' w).
Proof.
  intros Hi Ho Hs. split; [apply grows_objects|]. intros k y Hk _. cbn [put_object with_objects objects]. destruct (decide (k = o)) as [->|Hne].
  - rewrite lookup_insert_eq. rewrite Ho in Hk. injection Hk as <-. by eexists.
  - rewrite lookup_insert_ne by done. exists y. split; [done|]. apply succeeds_same; [apply grows_objects|by eapply inv_bounded].
Qed.

(** A field of an object changes. *)
Lemma inv_put b lr ls lr' ls' w o x x' : inv b lr ls w -> objects w !! o = Some x -> slots x' ⊎ lr' = slots x ⊎ lr -> statement_of x' ⊎ ls' = statement_of x ⊎ ls ->
  future_of x' = future_of x -> evolves b w (put_object o x' w) -> shape b (put_object o x' w) x' -> inv b lr' ls' (put_object o x' w).
Proof.
  intros Hi Ho Hs Ht Hf He Hx. split; cbn [put_object with_objects results statements futures objects fresh].
  - eapply multiset_put; [by apply tally_update|apply Hi|exact Hs].
  - intros s. rewrite <- (i_statements _ _ _ _ Hi s). f_equal. eapply multiset_put; [by apply tally_update|reflexivity|exact Ht].
  - rewrite <- (i_futures _ _ _ _ Hi). pose proof (tally_update (fun _ x => future_of x) _ _ _ x' Ho) as E. cbn beta in E. rewrite Hf in E. multiset_solver.
  - intros k y Hk. destruct (decide (k = o)) as [->|Hne].
    + rewrite lookup_insert_eq in Hk. by injection Hk as <-.
    + rewrite lookup_insert_ne in Hk by done. by eapply shape_evolves.
  - intros c cf Hc. apply (future_shape_evolves b w); [by eapply i_future_shape|]. intros s st _ Hst. by exists st.
  - apply Hi.
  - intros k Hk. apply (i_fresh _ _ _ _ Hi). destruct Hk as [Hk|Hk]; [|by right]. left. destruct (decide (k = o)) as [->|Hne]; [by rewrite Ho|by rewrite lookup_insert_ne in Hk].
Qed.

Lemma fresh_none b lr ls w : inv b lr ls w ->
  objects w !! fresh w = None /\ results w !! fresh w = None /\ futures w !! fresh w = None /\ statements w !! fresh w = None.
Proof.
  intros Hi. assert (forall A (m : gmap nat A), (is_Some (m !! fresh w) -> (fresh w < fresh w)%nat) -> m !! fresh w = None) as Hn.
  { intros A m Hm. destruct (m !! fresh w) eqn:E; [|done]. specialize (Hm ltac:(by eexists)). lia. }
  pose proof (i_fresh _ _ _ _ Hi (fresh w)). split_and!; apply Hn; intros; apply H; by intuition.
Qed.

(** A new object. *)
Lemma inv_new_object b lr ls lr' ls' w x : inv b lr ls w -> slots x ⊎ lr' = lr -> statement_of x ⊎ ls' = ls -> future_of x = ∅ ->
  shape b (snd (new_object x w)) x -> inv b lr' ls' (snd (new_object x w)).
Proof.
  intros Hi Hs Ht Hf Hx. destruct (fresh_none _ _ _ _ Hi) as (F1 & _). set (w' := snd (new_object x w)) in *.
  assert (evolves b w w') as He.
  { split; [split; cbn; [by eauto|done|by eauto]|]. intros k y Hk _. cbn. rewrite lookup_insert_ne by (intros <-; congruence). exists y. split; [done|].
    apply succeeds_same; [split; cbn; [by eauto|done|by eauto]|by eapply inv_bounded]. }
  split; cbn [w' snd new_object next_fresh put_object with_objects results statements futures objects fresh].
  - rewrite tally_new by done. eapply multiset_new; [apply Hi|done].
  - intros s. rewrite <- (i_statements _ _ _ _ Hi s). f_equal. rewrite tally_new by done. by eapply multiset_new.
  - rewrite tally_new, Hf, <- (i_futures _ _ _ _ Hi) by done. multiset_solver.
  - intros k y Hk. destruct (decide (k = fresh w)) as [->|Hne].
    + rewrite lookup_insert_eq in Hk. by injection Hk as <-.
    + rewrite lookup_insert_ne in Hk by done. by eapply shape_evolves.
  - intros c cf Hc. apply (future_shape_evolves b w); [by eapply i_future_shape|]. intros s st _ Hst. by exists st.
  - apply Hi.
  - intros k Hk. destruct (decide (k = fresh w)) as [->|Hne]; [lia|]. enough (k < fresh w)%nat by lia. apply (i_fresh _ _ _ _ Hi).
    destruct Hk as [Hk|Hk]; [|by right]. left. by rewrite lookup_insert_ne in Hk.
Qed.

(** A new result, in no field yet. *)
Lemma inv_new_result b lr ls w R : inv b lr ls w -> get_result R <> Crash -> inv b (lr ⊎ {[+ fresh w +]}) ls (snd (new_result R w)).
Proof.
  intros Hi HR. destruct (fresh_none _ _ _ _ Hi) as (_ & F2 & _). set (w' := snd (new_result R w)) in *.
  assert (grows w w') as Hg. { split; cbn; [by eauto| |by eauto]. intros h R' Hh E. by rewrite lookup_insert_ne in E by lia. }
  assert (evolves b w w') as He. { split; [done|]. intros k y Hk _. exists y. split; [done|]. apply succeeds_same; [done|by eapply inv_bounded]. }
  split; cbn [w' snd new_result next_fresh with_results results statements futures objects fresh].
  - rewrite handles_new by done. rewrite <- (i_results _ _ _ _ Hi). multiset_solver.
  - apply Hi.
  - apply Hi.
  - intros k y Hk. by eapply shape_evolves.
  - intros c cf Hc. apply (future_shape_evolves b w); [by eapply i_future_shape|]. intros s st _ Hst. by exists st.
  - intros h R' E. destruct (decide (h = fresh w)) as [->|Hne]; [rewrite lookup_insert_eq in E; by injection E as <-|]. rewrite lookup_insert_ne in E by done. by eapply i_decodes.
  - intros k Hk. destruct (decide (k = fresh w)) as [->|Hne]; [lia|]. enough (k < fresh w)%nat by lia. apply (i_fresh _ _ _ _ Hi).
    rewrite lookup_insert_ne in Hk by done. exact Hk.
Qed.

(** The table of statements changes, but not what the statements ask for. *)
Lemma inv_statements b lr ls ls' w s st st' : inv b lr ls w -> statements w !! s = Some st -> query st' = query st -> start st' = start st ->
  (b = true -> forall c cf, futures w !! c = Some cf -> future_statement cf = Some s -> is_ready (state_of cf) = false -> paging st = asked cf -> paging st' = asked cf) ->
  (forall k, multiplicity k (total statement_of w ⊎ ls') = refs_at (<[s := st']> (statements w)) k) ->
  inv b lr ls' (with_statements (<[s := st']> (statements w)) w).
Proof.
  intros Hi Hs Hq Hp Hc Hr. set (w' := with_statements (<[s := st']> (statements w)) w).
  assert (forall k sk, statements w !! k = Some sk -> exists sk', statements w' !! k = Some sk' /\ query sk' = query sk /\ start sk' = start sk) as Hk.
  { intros k sk E. cbn. destruct (decide (k = s)) as [->|Hne]; [rewrite lookup_insert_eq; rewrite Hs in E; injection E as <-|rewrite lookup_insert_ne by done]; by eexists. }
  assert (grows w w') as Hg by (split; [exact Hk|done|cbn; by eauto]).
  assert (evolves b w w') as He. { split; [done|]. intros k y Hy _. exists y. split; [done|]. apply succeeds_same; [done|by eapply inv_bounded]. }
  split; cbn [w' with_statements results statements futures objects fresh].
  - apply Hi.
  - exact Hr.
  - apply Hi.
  - intros k y Hy. by eapply shape_evolves.
  - intros c cf Ec. apply (future_shape_evolves b w); [by eapply i_future_shape|]. intros k sk Ek Esk. cbn. destruct (decide (k = s)) as [->|Hne].
    + rewrite lookup_insert_eq. rewrite Hs in Esk. injection Esk as <-. exists st'. split; [done|]. split; [done|]. intros Hb. by apply (Hc Hb c).
    + rewrite lookup_insert_ne by done. by exists sk.
  - apply Hi.
  - intros k Hy. apply (i_fresh _ _ _ _ Hi). destruct Hy as [?|[?|[?|Hy]]]; [by auto..|]. do 3 right. destruct (decide (k = s)) as [->|Hne]; [by rewrite Hs|by rewrite lookup_insert_ne in Hy].
Qed.

Lemma refs_insert m s st k : refs_at (<[s := st]> m) k = if decide (k = s) then refs st else refs_at m k.
Proof. unfold refs_at. destruct (decide (k = s)) as [->|]; [by rewrite lookup_insert_eq|by rewrite lookup_insert_ne]. Qed.

Lemma inv_addref b lr ls w s : inv b lr ls w -> s ∈ total statement_of w ⊎ ls -> exists w', addref s w = Some w' /\ inv b lr (ls ⊎ {[+ s +]}) w' /\
  objects w' = objects w /\ results w' = results w /\ futures w' = futures w /\ fresh w' = fresh w /\ grows w w'.
Proof.
  intros Hi Hs. destruct (held_statement b lr ls w Hi s Hs) as (st & E & Hr). unfold addref. rewrite E. destruct (Nat.eqb_spec (refs st) 0); [done|]. eexists. split; [done|].
  split; [|split; [done|split; [done|split; [done|split; [done|]]]]].
  - apply (inv_statements b lr ls _ w s st); [done|done|done|done|done|]. intros k. rewrite refs_insert, gmultiset_disj_union_assoc, multiplicity_disj_union, (i_statements _ _ _ _ Hi k).
    cbn [refs]. destruct (decide (k = s)) as [->|]; [rewrite multiplicity_singleton, decide_True by done; unfold refs_at; rewrite E; lia|rewrite multiplicity_singleton_ne by done; lia].
  - split; cbn; [|done|by eauto]. intros k sk Ek. destruct (decide (k = s)) as [->|Hne]; [rewrite lookup_insert_eq; rewrite E in Ek; injection Ek as <-|rewrite lookup_insert_ne by done]; by eexists.
Qed.

(** ** rows_create *)

(** A [Rows] object that was just made. *)
Definition made (rows : list php_row) (more : option (nat * nat)) : rows_object :=
  {| r_statement := option_map fst more; r_session := if more then true else false; r_rows := Some rows; r_next_rows := None; r_result := option_map snd more; r_next_result := None;
     r_future_next_page := None |}.

Lemma made_shows w rows more R q p n : decoded_as R rows -> R = page q p n -> (forall s h, more = Some (s, h) -> results w !! h = Some R) ->
  (is_Some more <-> has_more_pages R = true) -> (forall s h st, more = Some (s, h) -> statements w !! s = Some st -> query st = q /\ start st = p) -> shows w (made rows more) q p n.
Proof.
  intros Hd -> Hh Hm Hs. split; cbn [made r_rows r_result r_statement r_next_result r_next_rows]; [by exists rows| | | |done|done].
  - intros h' R E HR. destruct more as [[s h]|]; [|done]. injection E as <-. specialize (Hh s h eq_refl). congruence.
  - rewrite <- Hm. destruct more as [[s h]|]; cbn; [split; intros _; by eexists|split; by intros []%is_Some_None].
  - intros s' st E Est. destruct more as [[s h]|]; [|done]. injection E as <-. by apply (Hs s h).
Qed.

Lemma made_shape b w rows more R q p n : (b = true -> shows w (made rows more) q p n) -> (forall s h, more = Some (s, h) -> results w !! h = Some R) ->
  (is_Some more -> has_more_pages R = true) -> shape b w (ORows (made rows more)).
Proof.
  intros Hs Hh Hm. destruct more as [[s h]|]; cbn in *.
  - split; [done|]. split; [by intros [[]%is_Some_None|[[]%is_Some_None|[]%is_Some_None]]|]. split; [done|]. split; [|by exists q, p, n].
    intros h' R' [= <-] E. specialize (Hh s h eq_refl). rewrite E in Hh. injection Hh as ->. by apply Hm.
  - split; [by intros []%is_Some_None|]. split; [by intros [[]%is_Some_None|[[]%is_Some_None|[]%is_Some_None]]|]. split; [done|]. split; [done|]. by exists q, p, n.
Qed.

Lemma shows_objects m w r q p n : shows w r q p n <-> shows (with_objects m w) r q p n.
Proof. split; intros [S1 S2 S3 S4 S5 S6]; by split. Qed.

(** The next page, decoded: the object remembers its rows; the result too, when it is the last one. *)
Definition cached (h : option nat) (rows : list php_row) (r : rows_object) : rows_object := set_next_rows rows (set_next_result h r).

Lemma cached_shows w r q p n h rows R : shows w r q p n -> (forall k, h = Some k -> results w !! k = Some R) -> R = page q p (S n) -> decoded_as R rows -> shows w (cached h rows r) q p n.
Proof.
  intros [S1 S2 S3 S4 S5 S6] Hh -> Hd. split; cbn [cached set_next_rows set_next_result r_rows r_result r_statement r_next_result r_next_rows]; try done.
  - intros k R' -> E. specialize (Hh k eq_refl). congruence.
  - by intros rows' [= <-].
Qed.

Definition next_reply (b : bool) (w : world) (r : rows_object) (rep : reply) (w' : world) : Prop :=
  match rep with
  | Returned m => exists r', objects w' !! m = Some (ORows r') /\ (b = true -> forall q p n, shows w r q p n -> shows w' r' q p (S n))
  | ReturnedNull => False
  | Threw (NotDecoded rc) => b = true -> forall q p n, shows w r q p n -> get_result (page q p (S n)) = Failure rc
  | Threw _ => False
  end.

Lemma multiset_none (x : gmultiset nat) : x ⊎ ∅ = x.
Proof. multiset_solver. Qed.
Lemma none_multiset (x : gmultiset nat) : ∅ ⊎ x = x.
Proof. multiset_solver. Qed.

(** The fields of the next page change. *)
Lemma put_next b ls w o r r' h R lr' : inv b {[+ h +]} ls w -> objects w !! o = Some (ORows r) -> r_next_result r = None -> is_Some (r_result r) -> results w !! h = Some R ->
  (r_statement r' = r_statement r /\ r_session r' = r_session r /\ r_result r' = r_result r /\ r_future_next_page r' = r_future_next_page r) ->
  (r_next_result r' = Some h /\ lr' = ∅ /\ (has_more_pages R = true -> r_next_rows r' = None /\ exists rc, get_result R = Failure rc) \/ r_next_result r' = None /\ lr' = {[+ h +]}) ->
  (b = true -> forall q p n, shows w r q p n -> shows w r' q p n) ->
  inv b lr' ls (put_object o (ORows r') w) /\ evolves b w (put_object o (ORows r') w).
Proof.
  intros Hi Ho Hn Hr HR (Es & Ess & Er & Ef) Hc Hb. assert (evolves b w (put_object o (ORows r') w)) as He.
  { apply (evolves_put b {[+ h +]} ls w o (ORows r)); [done|done|]. cbn. intros Hbt q p n Hsh. apply shows_objects. by apply Hb. }
  split; [|done]. apply (inv_put b {[+ h +]} ls lr' ls w o (ORows r)); try done.
  - cbn [slots]. rewrite Er, Hn. cbn [opt_set]. destruct Hc as [(-> & -> & _)|(-> & ->)]; cbn [opt_set]; [by rewrite !multiset_none|done].
  - cbn [statement_of]. by rewrite Es.
  - pose proof (i_shape _ _ _ _ Hi o _ Ho) as (H1 & _ & _ & H4 & q & p & n & H5 & H6). cbn [shape]. rewrite Es, Ess, Er, Ef. split; [done|]. split; [done|]. split; [|split; [done|]].
    + intros k R' E HR' Hm. destruct Hc as [(Ek & _ & Hm')|(Ek & _)]; rewrite Ek in E; [|done]. injection E as <-. cbn in HR'. rewrite HR in HR'. injection HR' as <-. by apply Hm'.
    + exists q, p, n. split; [intros Hbt; apply shows_objects, Hb; [done|by apply H5]|]. intros f Hf.
      eapply (link_evolves b _ ls w _ o r r' f q p n Hi He Ho Hf Es); [by rewrite Hn; intros []%is_Some_None|done|]. by apply H6.
Qed.

Lemma rows_create_eq o r h R w : rows_at o w = Some r -> r_next_result r = Some h -> results w !! h = Some R ->
  rows_create zend_hash depth have_custom_type o w =
  match (match r_next_rows r with Some rows => Success rows [] | None => get_result R end) with
  | Failure rc => Some (Threw (NotDecoded rc), w)
  | Destroyed _ | Crash => None
  | Success rows _ =>
      if has_more_pages R then
        match r_statement r with
        | None => None
        | Some s =>
            match addref s w with
            | None => None
            | Some w1 => let w2 := put_object o (ORows (set_next_result None (set_next_rows rows r))) w1 in
                         Some (Returned (fresh w2), snd (new_object (ORows {| r_statement := Some s; r_session := r_session r; r_rows := Some rows; r_next_rows := None; r_result := Some h;
                                                                             r_next_result := None; r_future_next_page := None |}) w2))
            end
        end
      else let w2 := put_object o (ORows (set_next_rows rows r)) w in Some (Returned (fresh w2), snd (new_object (ORows (new_rows rows)) w2))
  end.
Proof.
  intros E1 E2 E3. unfold rows_create. rewrite E1. cbn [mbind option_bind]. rewrite E2. cbn [mbind option_bind]. rewrite E3. cbn [mbind option_bind].
  by destruct (match r_next_rows r with Some rows => Success rows [] | None => get_result R end).
Qed.

Lemma put_put o x y w : put_object o x (put_object o y w) = put_object o x w.
Proof. unfold put_object, with_objects. cbn. by rewrite insert_insert_eq. Qed.

(** A [Rows] object for the page of a result in hand; [P] says which page it is. *)
Lemma new_page b w rows R h s more (P : bytes -> bytes -> nat -> Prop) : has_more_pages R = more -> results w !! h = Some R ->
  (forall q p n, b = true -> P q p n -> decoded_as R rows /\ R = page q p n /\ (more = true -> forall st, statements w !! s = Some st -> query st = q /\ start st = p)) ->
  (exists q p n, b = true -> P q p n) ->
  inv b (if more then {[+ h +]} else ∅) (if more then {[+ s +]} else ∅) w ->
  inv b ∅ ∅ (snd (new_object (ORows (made rows (if more then Some (s, h) else None))) w)) /\
  (forall q p n, b = true -> P q p n ->
   shows (snd (new_object (ORows (made rows (if more then Some (s, h) else None))) w)) (made rows (if more then Some (s, h) else None)) q p n).
Proof.
  intros Hm HR Hp (q0 & p0 & n0 & H0) Hi. set (w' := snd (new_object _ w)). assert (forall q p n, b = true -> P q p n -> shows w' (made rows (if more then Some (s, h) else None)) q p n) as Hsh.
  { intros q p n Hb HP. destruct (Hp q p n Hb HP) as (Hd & HRp & Hs). apply (made_shows w' rows _ R); [done|done| | |].
    - intros s' h' E. destruct more; [|done]. by injection E as <- <-.
    - rewrite Hm. destruct more; split; intros E; try done; by destruct (is_Some_None E).
    - intros s' h' st E Est. destruct more; [|done]. injection E as <- <-. by apply Hs. }
  split; [|done]. apply (inv_new_object b _ _ ∅ ∅ w _ Hi).
  - destruct more; cbn [slots made r_result r_next_result option_map snd opt_set]; by rewrite !multiset_none.
  - destruct more; cbn [statement_of made r_statement option_map fst opt_set]; by rewrite !multiset_none.
  - done.
  - fold w'. apply (made_shape b w' rows _ R q0 p0 n0); [by intros Hb; apply Hsh; [|apply H0]| |].
    + intros s' h' E. destruct more; [|done]. by injection E as <- <-.
    + intros E. destruct more; [done|]. by destruct (is_Some_None E).
Qed.

Lemma new_object_at x w : objects (snd (new_object x w)) !! fresh w = Some x.
Proof. cbn. apply lookup_insert_eq. Qed.

(** [rows_create] with the result of the next page, which no field holds yet. *)
Lemma create_next b w o r h R : inv b {[+ h +]} ∅ w -> objects w !! o = Some (ORows r) -> r_next_result r = None -> is_Some (r_result r) -> results w !! h = Some R ->
  (b = true -> forall q p n, shows w r q p n -> R = page q p (S n)) ->
  exists rep w', rows_create zend_hash depth have_custom_type o (put_object o (ORows (set_next_result (Some h) r)) w) = Some (rep, w') /\ inv b ∅ ∅ w' /\ next_reply b w r rep w'.
Proof.
  intros Hi Ho Hn Hr HR Hp. assert (rows_at o (put_object o (ORows (set_next_result (Some h) r)) w) = Some (set_next_result (Some h) r)) as Hat.
  { unfold rows_at. cbn. by rewrite lookup_insert_eq. }
  rewrite (rows_create_eq o (set_next_result (Some h) r) h R _ Hat eq_refl HR). cbn [r_next_rows set_next_result r_statement r_session].
  pose proof (i_decodes _ _ _ _ Hi h R HR) as Hcr. destruct (i_shape _ _ _ _ Hi o _ Ho) as (H1 & _ & _ & _ & q0 & p0 & n0 & H5 & _).
  destruct (match r_next_rows r with Some rows => Success rows [] | None => get_result R end) as [rows l|rc|rc|] eqn:Ed.
  4:{ destruct (r_next_rows r); [done|]. by destruct Hcr. }
  3:{ destruct (r_next_rows r); [done|]. by destruct (get_result_not_destroyed _ _ _ _ _ Ed). }
  2:{ do 2 eexists. split; [done|]. destruct (r_next_rows r) as [|] eqn:En; [done|]. split.
      - apply (put_next b ∅ w o r _ h R ∅ Hi Ho Hn Hr HR); [done| |].
        + left. split; [done|]. split; [done|]. intros _. split; [done|]. by exists rc.
        + intros Hb q p n Hs. destruct Hs as [S1 S2 S3 S4 S5 S6]. split; cbn [set_next_result r_rows r_result r_statement r_next_result r_next_rows]; try done. intros k R' [= <-] E.
          rewrite HR in E. injection E as <-. apply (Hp Hb). by split.
      - intros Hb q p n Hs. by rewrite <- (Hp Hb q p n Hs). }
  assert (b = true -> forall q p n, shows w r q p n -> decoded_as R rows) as Hdec.
  { intros Hb q p n Hs. rewrite (Hp Hb q p n Hs). destruct (r_next_rows r) as [rows'|] eqn:En; [injection Ed as <- _; by apply (s_next_rows _ _ _ _ _ Hs)|].
    rewrite <- (Hp Hb q p n Hs). by exists l. }
  set (P q p n := exists m, n = S m /\ shows w r q p m).
  destruct (has_more_pages R) eqn:Em.
  - destruct (H1 Hr) as [[s Es] Hsess]. rewrite Es.
    destruct (put_next b ∅ w o r (cached None rows r) h R {[+ h +]} Hi Ho Hn Hr HR) as [Hi2 He2]; [done|by right| |].
    { intros Hb q p n Hs. apply (cached_shows w r q p n None rows R); [done|done|by apply Hp|by eapply Hdec]. }
    assert (exists w1, addref s (put_object o (ORows (set_next_result (Some h) r)) w) = Some w1 /\ addref s (put_object o (ORows (cached None rows r)) w) = Some (put_object o (ORows (cached None rows r)) w1)) as (w1 & Ea & Ea2).
    { destruct (own_statement b _ _ w Hi o _ s Ho (statement_rows r s Es)) as (st & Est & Hrf). unfold addref. cbn [put_object with_objects statements]. rewrite Est.
      destruct (Nat.eqb_spec (refs st) 0); [done|]. eexists. split; [done|]. unfold put_object, with_objects, with_statements. cbn. by rewrite insert_insert_eq. }
    rewrite Ea. destruct (inv_addref b {[+ h +]} ∅ _ s Hi2) as (w2 & Ea' & Hi3 & Hobj & Hres & Hfut & Hfr & Hg).
    { rewrite multiset_none. eapply (tally_elem (fun _ x => statement_of x) _ o (ORows (cached None rows r))); [cbn; apply lookup_insert_eq|]. by apply statement_rows. }
    rewrite Ea2 in Ea'. injection Ea' as <-. cbn zeta. rewrite Hsess. do 2 eexists. split; [reflexivity|].
    destruct (new_page b (put_object o (ORows (cached None rows r)) w1) rows R h s true P Em) as [Hi4 Hsh].
    + by rewrite Hres.
    + intros q p n Hb (m & -> & Hs). split; [by eapply Hdec|]. split; [by apply Hp|]. intros _ st Est.
      destruct (own_statement b _ _ w Hi o _ s Ho (statement_rows r s Es)) as (st0 & Est0 & _).
      destruct (g_statements _ _ Hg s st0 Est0) as (st' & Est' & Hq & Hst). rewrite Est in Est'. injection Est' as <-.
      rewrite Hq, Hst. by apply (s_statement w r q p m Hs s).
    + exists q0, p0, (S n0). intros Hb. exists n0. split; [done|by apply H5].
    + by rewrite none_multiset in Hi3.
    + split; [exact Hi4|]. eexists. split; [apply new_object_at|]. intros Hb q p n Hs. apply Hsh; [done|]. by exists n.
  - destruct (put_next b ∅ w o r (cached (Some h) rows r) h R ∅ Hi Ho Hn Hr HR) as [Hi2 He2]; [done| | |].
    { left. split; [done|]. split; [done|]. by rewrite Em. }
    { intros Hb q p n Hs. apply (cached_shows w r q p n (Some h) rows R); [done|by intros k [= <-]|by apply Hp|by eapply Hdec]. }
    rewrite put_put. cbn zeta. do 2 eexists. split; [reflexivity|].
    destruct (new_page b (put_object o (ORows (cached (Some h) rows r)) w) rows R h 0 false P Em) as [Hi4 Hsh]; [done| | |exact Hi2|].
    + intros q p n Hb (m & -> & Hs). split; [by eapply Hdec|]. split; [by apply Hp|done].
    + exists q0, p0, (S n0). intros Hb. exists n0. split; [done|by apply H5].
    + split; [exact Hi4|]. eexists. split; [apply new_object_at|]. intros Hb q p n Hs. apply Hsh; [done|]. by exists n.
Qed.

(** [rows_create] with a next result that is kept: it cannot be decoded, or is the last page. *)
Lemma create_again_cases b w o r h : inv b ∅ ∅ w -> objects w !! o = Some (ORows r) -> r_next_result r = Some h ->
  exists R, results w !! h = Some R /\
    ((exists rc, rows_create zend_hash depth have_custom_type o w = Some (Threw (NotDecoded rc), w) /\ get_result R = Failure rc) \/
     (exists rows, has_more_pages R = false /\ (r_next_rows r = Some rows \/ decoded_as R rows) /\
        rows_create zend_hash depth have_custom_type o w = Some (Returned (fresh w), snd (new_object (ORows (made rows None)) (put_object o (ORows (set_next_rows rows r)) w))))).
Proof.
  intros Hi Ho Hn. destruct (slot_alive b ∅ ∅ w Hi o _ h Ho (slot_next r h Hn)) as [R HR]. exists R. split; [done|].
  destruct (i_shape _ _ _ _ Hi o _ Ho) as (_ & _ & H3 & _). specialize (H3 h R Hn HR). pose proof (i_decodes _ _ _ _ Hi h R HR) as Hcr.
  assert (rows_at o w = Some r) as Hat by (unfold rows_at; by rewrite Ho). rewrite (rows_create_eq o r h R w Hat Hn HR). destruct (r_next_rows r) as [rows|] eqn:En.
  - right. exists rows. destruct (has_more_pages R) eqn:Em; [by destruct (H3 eq_refl)|]. split; [done|]. split; [by left|]. done.
  - destruct (get_result R) as [rows l|rc|rc|] eqn:Ed; [|left; by exists rc|by destruct (get_result_not_destroyed _ _ _ _ _ Ed)|done]. right. exists rows. destruct (has_more_pages R) eqn:Em; [by destruct (H3 eq_refl) as (_ & rc & ?)|].
    split; [done|]. split; [right; by exists l|]. done.
Qed.

Lemma remember_rows b w o r h R rows : inv b ∅ ∅ w -> objects w !! o = Some (ORows r) -> r_next_result r = Some h -> results w !! h = Some R -> has_more_pages R = false ->
  (r_next_rows r = Some rows \/ decoded_as R rows) ->
  inv b ∅ ∅ (put_object o (ORows (set_next_rows rows r)) w) /\ evolves b w (put_object o (ORows (set_next_rows rows r)) w) /\
  (b = true -> forall q p n, shows w r q p n -> decoded_as R rows /\ R = page q p (S n) /\ shows w (set_next_rows rows r) q p n).
Proof.
  intros Hi Ho Hn HR Hm Hd. assert (b = true -> forall q p n, shows w r q p n -> decoded_as R rows /\ R = page q p (S n) /\ shows w (set_next_rows rows r) q p n) as Hsh.
  { intros Hb q p n Hs. pose proof Hs as [S1 S2 S3 S4 S5 S6]. assert (R = page q p (S n)) as Ep by (by apply (S5 h)).
    assert (decoded_as R rows) as HdR by (destruct Hd as [E|E]; [rewrite Ep; by apply S6|done]). split; [done|]. split; [done|].
    split; cbn [set_next_rows r_rows r_result r_statement r_next_result r_next_rows]; try done. intros rows' [= <-]. by rewrite <- Ep. }
  assert (evolves b w (put_object o (ORows (set_next_rows rows r)) w)) as He.
  { apply (evolves_put b ∅ ∅ w o (ORows r)); [done|done|]. cbn. intros Hb q p n Hs. by apply shows_objects, Hsh. }
  split; [|done]. apply (inv_put b ∅ ∅ ∅ ∅ w o (ORows r)); try done.
  destruct (i_shape _ _ _ _ Hi o _ Ho) as (H1 & H2 & H3 & H4 & q & p & n & H5 & H6). split; [done|]. split; [|split; [|split; [done|]]].
  - intros _. apply H2. left. by exists h.
  - cbn [set_next_rows r_next_result]. intros h' R' E HR' Hm'. rewrite Hn in E. injection E as <-. cbn in HR'. congruence.
  - exists q, p, n. split; [intros Hb; by apply shows_objects, Hsh, H5|]. intros f Hf.
    apply (link_evolves b ∅ ∅ w _ o r _ f q p n Hi He Ho Hf); [done..|by apply H6].
Qed.

Lemma create_again b w o r h : inv b ∅ ∅ w -> objects w !! o = Some (ORows r) -> r_next_result r = Some h ->
  exists rep w', rows_create zend_hash depth have_custom_type o w = Some (rep, w') /\ inv b ∅ ∅ w' /\ next_reply b w r rep w'.
Proof.
  intros Hi Ho Hn. destruct (create_again_cases b w o r h Hi Ho Hn) as (R & HR & [(rc & E & Hrc)|(rows & Hm & Hd & E)]); rewrite E.
  - do 2 eexists. split; [done|]. split; [done|]. intros Hb q p n Hs. by rewrite <- (s_next_result _ _ _ _ _ Hs h R Hn HR).
  - do 2 eexists. split; [done|]. destruct (remember_rows b w o r h R rows Hi Ho Hn HR Hm Hd) as (Hi2 & He2 & Hsh).
    destruct (i_shape _ _ _ _ Hi o _ Ho) as (_ & _ & _ & _ & q0 & p0 & n0 & H5 & _).
    destruct (new_page b (put_object o (ORows (set_next_rows rows r)) w) rows R h 0 false (fun q p n => exists m, n = S m /\ shows w r q p m) Hm HR) as [Hi4 Hs4]; [| |exact Hi2|].
    + intros q p n Hb (m & -> & Hs). destruct (Hsh Hb q p m Hs) as (? & ? & _). done.
    + exists q0, p0, (S n0). intros Hb. exists n0. split; [done|by apply H5].
    + split; [exact Hi4|]. exists (made rows None). split; [exact (new_object_at _ (put_object o (ORows (set_next_rows rows r)) w))|]. intros Hb q p n Hs. apply Hs4; [done|]. by exists n.
Qed.

(** ** FutureRows *)

Lemma asks_objects m w f q p n : asks w f q p n <-> asks (with_objects m w) f q p n.
Proof. split; intros [S1 S2 S3 S4]; by split. Qed.

(** The result or the rows of a [FutureRows] change. *)
Lemma put_future b lr lr' ls w f fr fr' : inv b lr ls w -> objects w !! f = Some (OFutureRows fr) ->
  (fr_statement fr' = fr_statement fr /\ fr_session fr' = fr_session fr /\ fr_future fr' = fr_future fr) ->
  opt_set (fr_result fr') ⊎ lr' = opt_set (fr_result fr) ⊎ lr ->
  (forall h R, fr_result fr' = Some h -> results w !! h = Some R -> has_more_pages R = true -> is_Some (fr_statement fr)) ->
  (b = true -> forall q p n, asks w fr q p n -> asks w fr' q p n) ->
  inv b lr' ls (put_object f (OFutureRows fr') w) /\ evolves b w (put_object f (OFutureRows fr') w).
Proof.
  intros Hi Ho (Es & Ess & Ef) Hs Hm Ha. assert (evolves b w (put_object f (OFutureRows fr') w)) as He.
  { apply (evolves_put b lr ls w f (OFutureRows fr)); [done|done|]. cbn. split; [done|]. intros Hb q p n H. apply asks_objects. by apply Ha. }
  split; [|done]. apply (inv_put b lr ls lr' ls w f (OFutureRows fr)); try done.
  - cbn. by rewrite Es.
  - cbn. by rewrite Ef.
  - destruct (i_shape _ _ _ _ Hi f _ Ho) as (H1 & H2 & H3 & H4). cbn [shape]. rewrite Es, Ess, Ef. split; [done|]. split; [done|]. split; [done|].
    intros Hb. destruct (H4 Hb) as (q & p & n & H). exists q, p, n. apply asks_objects. by apply Ha.
Qed.

Lemma asks_result w fr q p n h R rows : asks w fr q p n -> (forall k, h = Some k -> results w !! k = Some R /\ R = page q p n) -> (forall x, rows = Some x -> decoded_as (page q p n) x) ->
  asks w {| fr_statement := fr_statement fr; fr_session := fr_session fr; fr_rows := rows; fr_result := h; fr_future := fr_future fr |} q p n.
Proof.
  intros [A1 A2 A3 A4] Hh Hr. split; cbn [fr_statement fr_rows fr_result fr_future]; try done. intros k R' -> E. destruct (Hh k eq_refl) as [E1 ->]. congruence.
Qed.

(** The result of a [FutureRows] that is there, taken out of it. *)
Lemma future_result_ok b w f fr : inv b ∅ ∅ w -> objects w !! f = Some (OFutureRows fr) ->
  (exists e, future_rows_get_result f w = Some (Some e, w) /\ match e with TimedOut | RequestFailed _ | NoResult => True | _ => False end) \/
  (exists h R w1, future_rows_get_result f w = Some (None, put_object f (OFutureRows (set_fr_result (Some h) fr)) w1) /\ inv b {[+ h +]} ∅ w1 /\
     objects w1 = <[f := OFutureRows (set_fr_result None fr)]> (objects w) /\ results w1 !! h = Some R /\ evolves b w w1 /\
     (has_more_pages R = true -> is_Some (fr_statement fr)) /\ (b = true -> forall q p n, asks w1 (set_fr_result None fr) q p n -> R = page q p n)).
Proof.
  intros Hi Ho. unfold future_rows_get_result, future_rows_at. rewrite Ho. cbn [mbind option_bind]. destruct (i_shape _ _ _ _ Hi f _ Ho) as (B1 & B2 & B3 & B4).
  destruct (fr_result fr) as [h|] eqn:Er.
  - right. destruct (slot_alive b ∅ ∅ w Hi f _ h Ho (slot_future fr h Er)) as [R HR].
    destruct (put_future b ∅ {[+ h +]} ∅ w f fr (set_fr_result None fr) Hi Ho) as [Hi1 He1]; [done| |done| |].
    { rewrite Er. cbn [set_fr_result fr_result opt_set]. by rewrite none_multiset, multiset_none. }
    { intros Hb q p n Ha. apply (asks_result w fr q p n None R (fr_rows fr)); [done|done|by apply Ha]. }
    exists h, R, (put_object f (OFutureRows (set_fr_result None fr)) w). split.
    { f_equal. f_equal. rewrite put_put. unfold put_object, with_objects. rewrite insert_id; [by destruct w|]. rewrite Ho. f_equal. f_equal. destruct fr. cbn in Er. by subst. }
    split; [done|]. split; [done|]. split; [done|]. split; [done|]. split; [by apply (B3 h)|]. intros Hb q p n Ha.
    destruct (B4 Hb) as (q0 & p0 & n0 & Ha0). destruct (own_future b ∅ ∅ w Hi f fr Ho) as [c Ec]. destruct (i_future_shape _ _ _ _ Hi _ _ Ec) as (_ & F2 & F3).
    destruct (F3 Hb) as [s Es]. destruct (F2 s Es) as (st & Hst & _). rewrite (B2 c Ec) in Es. destruct (a_statement _ _ _ _ _ Ha0 s st Es Hst) as [<- _].
    destruct (a_statement _ _ _ _ _ Ha s st Es Hst) as [<- _]. rewrite (a_result _ _ _ _ _ Ha0 h R Er HR), <- (a_asked _ _ _ _ _ Ha0 c Ec). by apply (a_asked _ _ _ _ _ Ha c).
  - destruct (own_future b ∅ ∅ w Hi f fr Ho) as [c Ec]. rewrite Ec. cbn [mbind option_bind]. destruct (i_future_shape _ _ _ _ Hi _ _ Ec) as (F1 & F2 & F3).
    destruct (state_of c) as [|R|[rc|[R|]]] eqn:Est; [left; by eexists..| |left; by eexists]. right. destruct (F1 R (or_intror eq_refl)) as [Hcr Hmore].
    exists (fresh w), R, (snd (new_result R w)). split; [done|]. pose proof (inv_new_result b ∅ ∅ w R Hi Hcr) as Hi1. rewrite none_multiset in Hi1. split; [exact Hi1|].
    assert (set_fr_result None fr = fr) as Efr by (destruct fr; cbn in Er; by subst). rewrite Efr. split; [by rewrite insert_id|]. split; [cbn; apply lookup_insert_eq|]. split; [|split].
    + assert (grows w (snd (new_result R w))) as Hg by (split; cbn; [by eauto|intros h R' Hh E; by rewrite lookup_insert_ne in E by lia|by eauto]).
      split; [done|]. intros k y Hk _. exists y. split; [done|]. apply succeeds_same; [done|by eapply inv_bounded].
    + intros Hm. rewrite <- (B2 c Ec). destruct (future_statement c); [by eexists|]. by rewrite (Hmore eq_refl) in Hm.
    + intros Hb q p n Ha. rewrite <- (a_asked _ _ _ _ _ Ha c Ec). destruct (F3 Hb) as [s Es]. destruct (F2 s Es) as (st & Hst & Hans). destruct (Hans Hb) as [Hans1 _].
      rewrite (Hans1 R (or_intror eq_refl)). f_equal. apply (a_statement _ _ _ _ _ Ha s); [by rewrite <- (B2 c Ec)|done].
Qed.

Definition get_reply (b : bool) (w : world) (fr : future_rows) (rep : reply) (w' : world) : Prop :=
  match rep with
  | Returned m => exists r', objects w' !! m = Some (ORows r') /\ (b = true -> forall q p n, asks w fr q p n -> shows w' r' q p n)
  | ReturnedNull => False
  | Threw e => e <> UnexpectedFuture
  end.

Lemma addref_put s o x w : addref s (put_object o x w) = option_map (put_object o x) (addref s w).
Proof. unfold addref. cbn [put_object with_objects statements]. destruct (statements w !! s) as [st|]; [|done]. by destruct (refs st =? 0)%nat. Qed.

Lemma asks_strip b w w1 f fr q p n : inv b ∅ ∅ w -> objects w !! f = Some (OFutureRows fr) -> grows w w1 -> asks w fr q p n -> asks w1 (set_fr_result None fr) q p n.
Proof.
  intros Hi Ho Hg Ha. apply (asks_grows w w1); [done| |].
  - pose proof (inv_bounded _ _ _ _ _ _ Hi Ho) as [X1 X2 X3]. split; [|exact X2|exact X3]. cbn. intros k Hk. by apply gmultiset_elem_of_empty in Hk.
  - destruct Ha as [A1 A2 A3 A4]. by split.
Qed.

Definition filled (rows : list php_row) (h : option nat) (fr : future_rows) : future_rows :=
  {| fr_statement := fr_statement fr; fr_session := fr_session fr; fr_rows := Some rows; fr_result := h; fr_future := fr_future fr |}.

Lemma FutureRows_get_eq f h R fr w w1 : future_rows_get_result f w = Some (None, put_object f (OFutureRows (set_fr_result (Some h) fr)) w1) -> results w1 !! h = Some R ->
  FutureRows_get zend_hash depth have_custom_type f w =
  match (match fr_rows fr with Some rows => Success rows [] | None => get_result R end) with
  | Failure rc => Some (Threw (NotDecoded rc), put_object f (OFutureRows (set_fr_result (Some h) fr)) w1)
  | Destroyed _ | Crash => None
  | Success rows _ =>
      if has_more_pages R then
        match fr_statement fr with
        | None => None
        | Some s =>
            match addref s w1 with
            | None => None
            | Some w2 => let w3 := put_object f (OFutureRows (filled rows None fr)) w2 in
                         Some (Returned (fresh w3), snd (new_object (ORows {| r_statement := Some s; r_session := fr_session fr; r_rows := Some rows; r_next_rows := None; r_result := Some h;
                                                                             r_next_result := None; r_future_next_page := None |}) w3))
            end
        end
      else let w3 := put_object f (OFutureRows (filled rows (Some h) fr)) w1 in Some (Returned (fresh w3), snd (new_object (ORows (new_rows rows)) w3))
  end.
Proof.
  intros E HR. set (w' := put_object f (OFutureRows (set_fr_result (Some h) fr)) w1) in *. assert (future_rows_at f w' = Some (set_fr_result (Some h) fr)) as Eat.
  { unfold future_rows_at, w'. cbn [put_object with_objects objects]. by rewrite lookup_insert_eq. }
  assert (results w' !! h = Some R) as HR' by done. unfold FutureRows_get. rewrite E. cbn [mbind option_bind]. rewrite Eat. cbn [mbind option_bind].
  change (fr_result (set_fr_result (Some h) fr)) with (Some h). cbn [mbind option_bind]. rewrite HR'. cbn [mbind option_bind].
  change (fr_rows (set_fr_result (Some h) fr)) with (fr_rows fr). destruct (match fr_rows fr with Some rows => Success rows [] | None => get_result R end) as [rows l| | |]; try done.
  destruct (has_more_pages R); [|by unfold w'; rewrite put_put].
  change (fr_statement (set_fr_rows rows (set_fr_result (Some h) fr))) with (fr_statement fr). destruct (fr_statement fr) as [s|]; [|done]. cbn [mbind option_bind].
  unfold w'. rewrite addref_put. destruct (addref s w1) as [w2|]; [|done]. cbn [option_map mbind option_bind]. by rewrite put_put.
Qed.

Lemma FutureRows_get_ok b w f fr : inv b ∅ ∅ w -> objects w !! f = Some (OFutureRows fr) ->
  exists rep w', FutureRows_get zend_hash depth have_custom_type f w = Some (rep, w') /\ inv b ∅ ∅ w' /\ get_reply b w fr rep w'.
Proof.
  intros Hi Ho. destruct (future_result_ok b w f fr Hi Ho) as [(e & E & He)|(h & R & w1 & E & Hi1 & Hob & HR & [Hg1 _] & Hmore & Hp)].
  { unfold FutureRows_get. rewrite E. do 2 eexists. split; [done|]. split; [done|]. by destruct e. }
  rewrite (FutureRows_get_eq f h R fr w w1 E HR). set (fr0 := set_fr_result None fr) in *. assert (objects w1 !! f = Some (OFutureRows fr0)) as Ho1 by (rewrite Hob; apply lookup_insert_eq).
  pose proof (i_decodes _ _ _ _ Hi1 h R HR) as Hcr. destruct (i_shape _ _ _ _ Hi1 f _ Ho1) as (B1 & _ & _ & B4).
  assert (forall q p n, asks w fr q p n -> asks w1 fr0 q p n) as Ha1 by (intros; by eapply asks_strip).
  destruct (match fr_rows fr with Some rows => Success rows [] | None => get_result R end) as [rows l|rc|rc|] eqn:Ed.
  4:{ destruct (fr_rows fr); [done|]. by destruct Hcr. }
  3:{ destruct (fr_rows fr); [done|]. by destruct (get_result_not_destroyed _ _ _ _ _ Ed). }
  2:{ do 2 eexists. split; [reflexivity|]. split; [|done]. apply (put_future b {[+ h +]} ∅ ∅ w1 f fr0); [done|done|done| | |].
      - cbn [fr0 set_fr_result fr_result opt_set]. by rewrite none_multiset, multiset_none.
      - intros k R' [= <-] E' Hm. rewrite HR in E'. injection E' as <-. by apply Hmore.
      - intros Hb q p n Ha. apply (asks_result w1 fr0 q p n (Some h) R (fr_rows fr)); [done| |by apply Ha]. intros k [= <-]. split; [done|by apply Hp]. }
  assert (b = true -> forall q p n, asks w1 fr0 q p n -> decoded_as R rows) as Hdec.
  { intros Hb q p n Ha. destruct (fr_rows fr) as [rows'|] eqn:En; [|by exists l]. injection Ed as <- _. rewrite (Hp Hb q p n Ha). by apply (a_rows _ _ _ _ _ Ha). }
  assert (exists q p n, b = true -> asks w1 fr0 q p n) as Hex by (destruct b; [destruct (B4 eq_refl) as (q & p & n & ?); by exists q, p, n|by exists [], [], 0%nat]).
  assert (b = true -> forall q p n h', asks w1 fr0 q p n -> (h' = None \/ h' = Some h) -> asks w1 (filled rows h' fr) q p n) as Hfill.
  { intros Hb q p n h' Ha Hh. apply (asks_result w1 fr0 q p n h' R (Some rows)); [done| |].
    - intros k ->. destruct Hh as [|[= ->]]; [done|]. split; [done|by apply Hp].
    - intros x [= <-]. rewrite <- (Hp Hb q p n Ha). by eapply Hdec. }
  destruct (has_more_pages R) eqn:Em.
  - destruct (Hmore eq_refl) as [s Es]. rewrite Es.
    destruct (put_future b {[+ h +]} {[+ h +]} ∅ w1 f fr0 (filled rows None fr) Hi1 Ho1) as [Hi2 He2]; [done|done|done|intros Hb q p n Ha; apply Hfill; [done|done|by left]|].
    destruct (inv_addref b {[+ h +]} ∅ _ s Hi2) as (w2 & Ea & Hi3 & Hobj & Hres & Hfut & Hfr & Hg).
    { rewrite multiset_none. eapply (tally_elem (fun _ x => statement_of x) _ f (OFutureRows (filled rows None fr))); [cbn; apply lookup_insert_eq|]. by apply statement_future. }
    rewrite addref_put in Ea. destruct (addref s w1) as [w3|] eqn:Ea3; [|done]. cbn [option_map] in Ea. injection Ea as <-. cbn zeta. assert (fr_session fr = true) as Esess by (apply B1; by exists s). rewrite Esess. rewrite none_multiset in Hi3.
    do 2 eexists. split; [reflexivity|].
    destruct (new_page b (put_object f (OFutureRows (filled rows None fr)) w3) rows R h s true (asks w1 fr0) Em) as [Hi4 Hs4]; [by rewrite Hres| |done|exact Hi3|].
    + intros q p n Hb Ha. split; [by eapply Hdec|]. split; [by apply Hp|]. intros _ st Est.
      destruct (own_statement b _ _ w1 Hi1 f _ s Ho1 (statement_future fr0 s Es)) as (st0 & Est0 & _).
      destruct (g_statements _ _ Hg s st0 Est0) as (st' & Est' & Hq & Hst). rewrite Est in Est'. injection Est' as <-. rewrite Hq, Hst. by apply (a_statement _ _ _ _ _ Ha s).
    + split; [exact Hi4|]. eexists. split; [exact (new_object_at _ (put_object f (OFutureRows (filled rows None fr)) w3))|]. intros Hb q p n Ha. apply Hs4; [done|by apply Ha1].
  - destruct (put_future b {[+ h +]} ∅ ∅ w1 f fr0 (filled rows (Some h) fr) Hi1 Ho1) as [Hi2 He2]; [done| | |intros Hb q p n Ha; apply Hfill; [done|done|by right]|].
    { cbn [fr0 filled set_fr_result fr_result opt_set]. by rewrite none_multiset, multiset_none. }
    { intros k R' [= <-] E' Hm. rewrite HR in E'. injection E' as <-. congruence. }
    cbn zeta. do 2 eexists. split; [reflexivity|].
    destruct (new_page b (put_object f (OFutureRows (filled rows (Some h) fr)) w1) rows R h 0 false (asks w1 fr0) Em HR) as [Hi4 Hs4]; [|done|exact Hi2|].
    + intros q p n Hb Ha. split; [by eapply Hdec|]. split; [by apply Hp|done].
    + split; [exact Hi4|]. exists (made rows None). split; [exact (new_object_at _ (put_object f (OFutureRows (filled rows (Some h) fr)) w1))|]. intros Hb q p n Ha. apply Hs4; [done|by apply Ha1].
Qed.
End invariant.
