(* ===== verification/PagingSafe.v ===== *)
(** Paging: every operation keeps the invariant of [PagingInv], and what the pages are. *)
From stdpp Require Import gmap gmultiset.
From S2P Require Import Prelude ClusterBuilder ExecutionProfile InetUtil Serialization DriverErrors NumberParser UtHash Types Values Collections Decoder DataTypes Conversions ResultDecoder RequestEncoding Statements ResultRows Paging PagingInv.
#[local] Open Scope Z_scope.

(** ** Histories without overtaking

    A statement is given another paging state only when its requests that are not answered yet
    asked for that state. *)
Definition steady (s : nat) (p : bytes) (w : world) : bool :=
  forallb (fun e => negb (bool_decide (future_statement (snd e) = Some s)) || is_ready (state_of (snd e)) || bool_decide (asked (snd e) = p)) (map_to_list (futures w)).

Definition calm (l : label) (w : world) : bool :=
  match l with
  | NextPage o _ | NextPageAsync o =>
      match rows_at o w with
      | Some r =>
          match r_next_result r, r_future_next_page r, r_result r, r_statement r with
          | None, None, Some h, Some s => match results w !! h with Some R => steady s (result_paging_state R) w | None => true end
          | _, _, _, _ => true
          end
      | None => true
      end
  | ExecuteAsyncBatch => false
  | _ => true
  end.

Section safe.
Context {G : Gmp} (zend_hash : bytes -> Z) (depth : nat) (have_custom_type : bool) (answer : bytes -> bytes -> CassResult).

Abbreviation get_result := (php_scylladb_get_result zend_hash depth have_custom_type).
Abbreviation inv := (PagingInv.inv zend_hash depth have_custom_type answer).
Abbreviation shows := (PagingInv.shows zend_hash depth have_custom_type answer).
Abbreviation asks := (PagingInv.asks zend_hash depth have_custom_type answer).
Abbreviation page := (PagingInv.page answer).
Abbreviation evolves := (PagingInv.evolves zend_hash depth have_custom_type answer).
Abbreviation next_reply := (PagingInv.next_reply zend_hash depth have_custom_type answer).
Abbreviation rows_create := (Paging.rows_create zend_hash depth have_custom_type).

(** The server's answers can be decoded without a fault. *)
Context (Hanswer : forall q p, get_result (answer q p) <> Crash).

Lemma steady_spec s p w c cf : steady s p w = true -> futures w !! c = Some cf -> future_statement cf = Some s -> is_ready (state_of cf) = false -> asked cf = p.
Proof.
  intros H Hc Hs Hr. unfold steady in H. rewrite forallb_forall in H. specialize (H (c, cf) ltac:(by apply list_elem_of_In, elem_of_map_to_list)).
  cbn in H. rewrite Hr, orb_false_r in H. apply orb_prop in H as [H|H]; [|by apply bool_decide_eq_true in H]. by rewrite bool_decide_true in H.
Qed.

(** Setting the paging state of a statement that is held. *)
Lemma inv_paging b lr ls w s h R : inv b lr ls w -> s ∈ total statement_of w ⊎ ls -> results w !! h = Some R -> (b = true -> steady s (result_paging_state R) w = true) ->
  exists w' st, set_paging_state s h w = Some w' /\ statements w !! s = Some st /\
    statements w' !! s = Some {| query := query st; start := start st; paging := result_paging_state R; refs := refs st |} /\
    inv b lr ls w' /\ objects w' = objects w /\ results w' = results w /\ futures w' = futures w /\ fresh w' = fresh w /\ grows w w'.
Proof.
  intros Hi Hs HR Hc. destruct (held_statement _ _ _ _ b lr ls w Hi s Hs) as (st & E & Hr). unfold set_paging_state. rewrite E, HR. destruct (Nat.eqb_spec (refs st) 0); [done|].
  do 2 eexists. split; [done|]. split; [done|]. split; [cbn; apply lookup_insert_eq|]. split; [|split; [done|split; [done|split; [done|split; [done|]]]]].
  - apply (inv_statements _ _ _ _ b lr ls _ w s st); [done|done|done|done| |].
    + intros Hb c cf Ec Es Hready _. cbn. symmetry. by eapply steady_spec; [apply Hc|..].
    + intros k. rewrite refs_insert, (i_statements _ _ _ _ _ _ _ _ Hi k). cbn. destruct (decide (k = s)) as [->|]; [unfold refs_at; by rewrite E|done].
  - split; cbn; [|done|by eauto]. intros k sk Ek. destruct (decide (k = s)) as [->|Hne]; [rewrite lookup_insert_eq; rewrite E in Ek; injection Ek as <-|rewrite lookup_insert_ne by done]; by eexists.
Qed.

(** What [nextPage] may give. *)
Definition page_reply (b : bool) (w : world) (r : rows_object) (rep : reply) (w' : world) : Prop :=
  match rep with
  | Returned m => is_Some (r_result r) /\ exists r', objects w' !! m = Some (ORows r') /\ (b = true -> forall q p n, shows w r q p n -> shows w' r' q p (S n))
  | ReturnedNull => r_result r = None /\ w' = w
  | Threw UnexpectedFuture => False
  | Threw (NotDecoded rc) => is_Some (r_result r) /\ (b = true -> forall q p n, shows w r q p n -> get_result (page q p (S n)) = Failure rc)
  | Threw _ => is_Some (r_result r)
  end.

Lemma next_page_reply b w w1 r rep w' : is_Some (r_result r) -> (forall q p n, shows w r q p n -> shows w1 r q p n) -> next_reply b w1 r rep w' -> page_reply b w r rep w'.
Proof.
  intros Hr Hg. destruct rep as [m| |[]]; cbn; try done.
  - intros (r' & E & H). split; [done|]. exists r'. split; [done|]. intros Hb q p n Hs. by apply (H Hb), Hg.
  - intros H. split; [done|]. intros Hb q p n Hs. by apply (H Hb), Hg.
Qed.

Lemma nextPage_ok b w o r e : inv b ∅ ∅ w -> objects w !! o = Some (ORows r) -> (b = true -> calm (NextPage o e) w = true) ->
  exists rep w', Rows_nextPage zend_hash depth have_custom_type answer o e w = Some (rep, w') /\ inv b ∅ ∅ w' /\ page_reply b w r rep w'.
Proof using Hanswer.
  intros Hi Ho Hc. assert (rows_at o w = Some r) as Hat by (unfold rows_at; by rewrite Ho). unfold Rows_nextPage. rewrite Hat. cbn [mbind option_bind].
  destruct (i_shape _ _ _ _ _ _ _ _ Hi o _ Ho) as (A1 & A2 & A3 & A4 & q0 & p0 & n0 & A5 & A6). cbn [calm] in Hc. rewrite Hat in Hc.
  destruct (r_next_result r) as [h|] eqn:En.
  { destruct (create_again _ _ _ _ b w o r h Hi Ho En) as (rep & w' & E & Hi' & Hrep). exists rep, w'. split; [done|]. split; [done|]. apply (next_page_reply b w w); [|done|done]. apply A2. by left. }
  destruct (r_future_next_page r) as [f|] eqn:Ef.
  - assert (is_Some (r_result r)) as Hr by (apply A2; do 2 right; by eexists). pose proof (A6 f eq_refl) as Hl. unfold link in Hl.
    destruct (objects w !! f) as [[|fr|v]|] eqn:Eof; [done| |destruct Hl as [Hl _]; rewrite En in Hl; by destruct (is_Some_None Hl)|done]. destruct Hl as [_ Hask].
    destruct (future_result_ok _ _ _ _ b w f fr Hi Eof) as [(err & E & He)|(h & R & w1 & E & Hi1 & Hob & HR & [Hg1 _] & Hmore & Hp)]; rewrite E; cbn [mbind option_bind].
    { do 2 eexists. split; [done|]. split; [done|]. by destruct err. }
    assert (o <> f) as Hne by congruence. set (w2 := put_object f (OFutureRows (set_fr_result (Some h) fr)) w1).
    assert (future_rows_at f w2 = Some (set_fr_result (Some h) fr)) as -> by (unfold future_rows_at, w2; cbn [put_object with_objects objects]; by rewrite lookup_insert_eq).
    assert (objects w1 !! o = Some (ORows r)) as Ho1 by (by rewrite Hob, lookup_insert_ne).
    assert (rows_at o w2 = Some r) as -> by (unfold rows_at, w2; cbn [put_object with_objects objects]; by rewrite lookup_insert_ne, Ho1). cbn [mbind option_bind].
    assert (put_object f (OFutureRows (set_fr_result None (set_fr_result (Some h) fr))) (put_object o (ORows (set_next_result (fr_result (set_fr_result (Some h) fr)) r)) w2) =
            put_object o (ORows (set_next_result (Some h) r)) w1) as ->.
    { unfold w2, put_object, with_objects. cbn. f_equal. rewrite (insert_insert_ne _ f o) by done. rewrite insert_insert_eq. rewrite Hob, insert_insert_eq. done. }
    destruct (create_next _ _ _ _ b w1 o r h R Hi1 Ho1 En Hr HR) as (rep & w' & E' & Hi' & Hrep).
    + intros Hb q p n Hs. specialize (Hask Hb). specialize (A5 Hb). rewrite (Hp Hb q0 p0 (S n0)) by (by eapply asks_strip). cbn [PagingInv.page].
      destruct Hr as [hr Ehr]. destruct (A1 ltac:(by eexists)) as [[s Es] _]. destruct (slot_alive _ _ _ _ b _ _ w1 Hi1 o _ hr Ho1 (slot_result r hr Ehr)) as [R0 HR0].
      destruct (own_statement _ _ _ _ b _ _ w Hi o _ s Ho (statement_rows r s Es)) as (st & Est & _). destruct (g_statements _ _ Hg1 s st Est) as (st1 & Est1 & Hq & _).
      destruct (s_statement _ _ _ _ _ _ _ _ _ A5 s st Es Est) as [Eq0 _]. destruct (s_statement _ _ _ _ _ _ _ _ _ Hs s st1 Es Est1) as [Eq1 _]. assert (q0 = q) as -> by congruence. f_equal. f_equal.
      rewrite <- (s_result _ _ _ _ _ _ _ _ _ Hs hr R0 Ehr HR0). symmetry. apply (s_result _ _ _ _ _ _ _ _ _ A5 hr); [done|].
      apply (g_results _ _ Hg1); [|done]. by eapply (slot_below _ _ _ _ b ∅ ∅ w Hi o _ hr Ho), slot_result.
    + exists rep, w'. split; [exact E'|]. split; [done|]. apply (next_page_reply b w w1); [done| |done]. intros q p n Hs. apply (shows_grows _ _ _ _ w w1); [done| |done]. by eapply inv_bounded.
  - destruct (r_result r) as [h|] eqn:Er; [|do 2 eexists; split; [done|]; by split].
    destruct (A1 ltac:(by eexists)) as [[s Es] Hsess]. rewrite Es in *. cbn [mbind option_bind].
    destruct (slot_alive _ _ _ _ b ∅ ∅ w Hi o _ h Ho (slot_result r h Er)) as [R HR]. rewrite HR in Hc.
    destruct (inv_paging b ∅ ∅ w s h R Hi) as (w1 & st & E1 & Hst & Hst1 & Hi1 & Hob1 & Hre1 & Hfu1 & Hfr1 & Hg1); [|done|done|].
    { rewrite multiset_none. eapply (tally_elem (fun _ x => statement_of x)); [exact Ho|]. by apply statement_rows. }
    rewrite E1. cbn [mbind option_bind]. rewrite Hsess. cbn [negb]. unfold execute_and_wait. rewrite Hst1. cbn [mbind option_bind query paging].
    destruct e as [|rc| |]; [do 2 eexists; split; [done|]; split; [done|by eexists]..|].
    cbn [new_result fst snd mbind option_bind]. pose proof (inv_new_result _ _ _ _ b ∅ ∅ w1 (answer (query st) (result_paging_state R)) Hi1 (Hanswer _ _)) as Hi2. rewrite none_multiset in Hi2.
    set (w2 := snd (new_result (answer (query st) (result_paging_state R)) w1)) in *.
    assert (grows w w2) as Hg2.
    { destruct Hg1 as [G1 G2 G3]. split; cbn [w2 snd new_result next_fresh with_results statements results futures]; [exact G1| |exact G3]. intros k R' Hk E. rewrite Hfr1, lookup_insert_ne in E by lia. by apply G2. }
    destruct (create_next _ _ _ _ b w2 o r (fresh w1) (answer (query st) (result_paging_state R)) Hi2) as (rep & w' & E & Hi' & Hrep).
    + cbn. by rewrite Hob1.
    + done.
    + by rewrite Er; eexists.
    + cbn. apply lookup_insert_eq.
    + intros Hb q p n Hs. destruct (s_statement _ _ _ _ _ _ _ _ _ Hs s _ Es Hst1) as [Hq _]. cbn in Hq. cbn [PagingInv.page]. rewrite Hq. f_equal. f_equal.
      apply (s_result _ _ _ _ _ _ _ _ _ Hs h); [done|]. cbn [w2 snd new_result next_fresh with_results results]. rewrite Hre1, lookup_insert_ne; [done|].
      pose proof (slot_below _ _ _ _ b ∅ ∅ w Hi o _ h Ho (slot_result r h Er)). lia.
    + exists rep, w'. split; [exact E|]. split; [done|]. apply (next_page_reply b w w2); [by rewrite Er; eexists| |done]. intros q p n Hs. apply (shows_grows _ _ _ _ w w2); [done| |done]. by eapply inv_bounded.
Qed.

(** ** New requests *)

Definition request_world (cf : cass_future) (fr : future_rows) (w : world) : world :=
  snd (new_object (OFutureRows fr) (next_fresh (with_futures (<[fresh w := cf]> (futures w)) w))).

Lemma inv_new_request b lr ls ls' w cf fr : inv b lr ls w -> fr_future fr = fresh w -> fr_result fr = None -> opt_set (fr_statement fr) ⊎ ls' = ls ->
  future_statement cf = fr_statement fr -> state_of cf = Unsent -> (is_Some (fr_statement fr) -> fr_session fr = true) ->
  future_shape zend_hash depth have_custom_type answer b w cf -> (b = true -> exists q p n, asks (request_world cf fr w) fr q p n) ->
  inv b lr ls' (request_world cf fr w) /\ evolves b w (request_world cf fr w).
Proof.
  intros Hi Hf Hr Hs Hst Hun Hsess Hcf Hask. destruct (fresh_none _ _ _ _ _ _ _ _ Hi) as (F1 & F2 & F3 & F4). set (w' := request_world cf fr w) in *.
  assert (objects w !! S (fresh w) = None) as F1'. { destruct (objects w !! S (fresh w)) eqn:E; [|done]. pose proof (i_fresh _ _ _ _ _ _ _ _ Hi (S (fresh w)) ltac:(left; by eexists)). lia. }
  assert (grows w w') as Hg. { split; cbn; [by eauto|done|]. intros c cf' Hc E. rewrite lookup_insert_ne in E by lia. by eauto. }
  assert (evolves b w w') as He. { split; [done|]. intros k y Hk _. cbn. rewrite lookup_insert_ne by (intros <-; congruence). exists y. split; [done|]. apply succeeds_same; [done|by eapply inv_bounded]. }
  split; [|done]. split; cbn [w' request_world snd new_object next_fresh put_object with_objects with_futures results statements futures objects fresh].
  - rewrite tally_new by done. cbn [slots]. rewrite Hr. cbn [opt_set]. rewrite none_multiset. apply Hi.
  - intros s. rewrite <- (i_statements _ _ _ _ _ _ _ _ Hi s). f_equal. rewrite tally_new by done. by eapply multiset_new.
  - rewrite tally_new by done. cbn [future_of]. rewrite Hf, handles_new by done. by rewrite (i_futures _ _ _ _ _ _ _ _ Hi).
  - intros k y Hk. destruct (decide (k = S (fresh w))) as [->|Hne].
    + rewrite lookup_insert_eq in Hk. injection Hk as <-. split; [done|]. split; [|split; [by rewrite Hr|done]]. intros c Ec. cbn in Ec. rewrite Hf, lookup_insert_eq in Ec. by injection Ec as <-.
    + rewrite lookup_insert_ne in Hk by done. by eapply shape_evolves.
  - intros c cf' Ec. destruct (decide (c = fresh w)) as [->|Hne].
    + rewrite lookup_insert_eq in Ec. injection Ec as <-. apply (future_shape_evolves _ _ _ _ b w); [done|]. intros s st _ E. by exists st.
    + rewrite lookup_insert_ne in Ec by done. apply (future_shape_evolves _ _ _ _ b w); [by eapply i_future_shape|]. intros s st _ E. by exists st.
  - apply Hi.
  - intros k Hk. destruct (decide (k = fresh w)) as [->|]; [lia|]. destruct (decide (k = S (fresh w))) as [->|]; [lia|]. enough (k < fresh w)%nat by lia. apply (i_fresh _ _ _ _ _ _ _ _ Hi).
    rewrite !lookup_insert_ne in Hk by done. exact Hk.
Qed.

Lemma shows_future w r f q p n : shows w r q p n <-> shows w (set_future_next_page f r) q p n.
Proof. split; intros [S1 S2 S3 S4 S5 S6]; by split. Qed.

(** The field of the next page's future is set. *)
Lemma put_link b ls w o r f : inv b ∅ ls w -> objects w !! o = Some (ORows r) -> is_Some (r_result r) ->
  (forall q p n, (b = true -> shows w r q p n) -> link zend_hash depth have_custom_type answer b (put_object o (ORows (set_future_next_page f r)) w) (set_future_next_page f r) f q p (S n)) ->
  inv b ∅ ls (put_object o (ORows (set_future_next_page f r)) w) /\ evolves b w (put_object o (ORows (set_future_next_page f r)) w).
Proof.
  intros Hi Ho Hr Hl. assert (evolves b w (put_object o (ORows (set_future_next_page f r)) w)) as He.
  { apply (evolves_put _ _ _ _ b ∅ ls w o (ORows r)); [done|done|]. cbn. intros Hb q p n Hs. by apply shows_objects, shows_future. }
  split; [|done]. apply (inv_put _ _ _ _ b ∅ ls ∅ ls w o (ORows r)); try done.
  destruct (i_shape _ _ _ _ _ _ _ _ Hi o _ Ho) as (A1 & A2 & A3 & A4 & q & p & n & A5 & A6). split; [done|]. split; [done|]. split; [done|]. split; [done|].
  exists q, p, n. split; [intros Hb; by apply shows_objects, shows_future, A5|]. intros f' [= <-]. by apply Hl.
Qed.

(** What [nextPageAsync] may give to an object that shows page [n]. *)
Definition async_reply (b : bool) (r : rows_object) (rep : reply) (w' : world) (q p : bytes) (n : nat) : Prop :=
  match rep with
  | Returned f =>
      match objects w' !! f with
      | Some (OFutureRows fr) => is_Some (r_result r) /\ (b = true -> asks w' fr q p (S n))
      | Some (OFutureValue v) => b = true -> forall m r', v = Some m -> objects w' !! m = Some (ORows r') -> is_Some (r_result r) /\ shows w' r' q p (S n)
      | _ => False
      end
  | Threw (NotDecoded rc) => is_Some (r_result r) /\ (b = true -> get_result (page q p (S n)) = Failure rc)
  | _ => False
  end.

Lemma nothing_points b lr ls w k r : inv b lr ls w -> objects w !! k = Some (ORows r) -> r_future_next_page r <> Some (fresh w).
Proof.
  intros Hi Hk Hf. destruct (i_shape _ _ _ _ _ _ _ _ Hi k _ Hk) as (_ & _ & _ & _ & q & p & n & _ & A6). specialize (A6 _ Hf). unfold link in A6.
  destruct (fresh_none _ _ _ _ _ _ _ _ Hi) as (F1 & _). by rewrite F1 in A6.
Qed.

(** [nextPageAsync] when the next page is kept: a future that is ready. *)
Lemma async_value_ok b w o r h q p n : inv b ∅ ∅ w -> objects w !! o = Some (ORows r) -> r_next_result r = Some h -> (b = true -> shows w r q p n) ->
  exists rep w',
    ('(created, w1) ← rows_create o (put_object o (ORows (set_future_next_page (fresh w) r)) (snd (new_object (OFutureValue None) w)));
     match created with Returned m => Some (Returned (fresh w), put_object (fresh w) (OFutureValue (Some m)) w1) | other => Some (other, w1) end) = Some (rep, w') /\
    inv b ∅ ∅ w' /\ async_reply b r rep w' q p n.
Proof.
  intros Hi Ho Hn Hsh. set (f := fresh w). destruct (fresh_none _ _ _ _ _ _ _ _ Hi) as (F1 & _). assert (o <> f) as Hof by (intros ->; unfold f in Ho; congruence).
  destruct (i_shape _ _ _ _ _ _ _ _ Hi o _ Ho) as (A1 & A2 & A3 & A4 & _). assert (is_Some (r_result r)) as Hr by (apply A2; left; by eexists).
  assert (inv b ∅ ∅ (snd (new_object (OFutureValue None) w))) as Hi1 by (apply (inv_new_object _ _ _ _ b ∅ ∅ ∅ ∅); [done|apply none_multiset|apply none_multiset|done|done]).
  set (w1 := snd (new_object (OFutureValue None) w)) in *. assert (objects w1 !! o = Some (ORows r)) as Ho1 by (cbn; by rewrite lookup_insert_ne).
  assert (objects w1 !! f = Some (OFutureValue None)) as Hf1 by (cbn; apply lookup_insert_eq).
  set (r1 := set_future_next_page f r). destruct (put_link b ∅ w1 o r f Hi1 Ho1 Hr) as [Hi2 _].
  { intros q' p' n' _. unfold link. cbn [put_object with_objects objects]. rewrite lookup_insert_ne, Hf1 by done. split; [by eexists|done]. }
  fold r1 in Hi2. set (w2 := put_object o (ORows r1) w1) in *. assert (objects w2 !! o = Some (ORows r1)) as Ho2 by (cbn; apply lookup_insert_eq).
  assert (objects w2 !! f = Some (OFutureValue None)) as Hf2 by (unfold w2; cbn [put_object with_objects objects]; by rewrite lookup_insert_ne).
  destruct (create_again _ _ _ _ b w2 o r1 h Hi2 Ho2 Hn) as (rep & w3 & E & Hi3 & Hrep). rewrite E. cbn [mbind option_bind].
  destruct (create_again_cases _ _ _ _ b w2 o r1 h Hi2 Ho2 Hn) as (R & HR & [(rc & E' & Hrc)|(rows & Hm & Hd & E')]); rewrite E in E'.
  { injection E' as -> ->. do 2 eexists. split; [done|]. split; [done|]. split; [done|]. intros Hb. rewrite <- Hrc. f_equal. symmetry. apply (s_next_result _ _ _ _ _ _ _ _ _ (Hsh Hb) h); [done|exact HR]. }
  injection E' as -> Ew3. set (m := fresh w2) in *. set (r3 := set_next_rows rows r1) in *.
  assert (m = S f) as Em by done. assert (objects w3 !! m = Some (ORows (made rows None))) as Hm3 by (rewrite Ew3; cbn; apply lookup_insert_eq).
  assert (objects w3 !! f = Some (OFutureValue None)) as Hf3.
  { rewrite Ew3. change (objects _) with (<[m := ORows (made rows None)]> (<[o := ORows r3]> (objects w2))). by rewrite !lookup_insert_ne by (done || lia). }
  assert (results w3 !! h = Some R) as HR3 by (rewrite Ew3; exact HR).
  assert (forall k rk, objects w3 !! k = Some (ORows rk) -> r_future_next_page rk = Some f -> rk = r3) as Honly.
  { intros k rk Hk Hfk. rewrite Ew3 in Hk. change (objects _) with (<[m := ORows (made rows None)]> (<[o := ORows r3]> (objects w2))) in Hk.
    destruct (decide (k = m)) as [->|]; [rewrite lookup_insert_eq in Hk; by injection Hk as <-|]. rewrite lookup_insert_ne in Hk by done.
    destruct (decide (k = o)) as [->|]; [rewrite lookup_insert_eq in Hk; by injection Hk as <-|]. rewrite lookup_insert_ne in Hk by done.
    unfold w2 in Hk. cbn [put_object with_objects objects] in Hk. rewrite lookup_insert_ne in Hk by done.
    change (objects w1) with (<[f := OFutureValue None]> (objects w)) in Hk. destruct (decide (k = f)) as [->|]; [by rewrite lookup_insert_eq in Hk|]. rewrite lookup_insert_ne in Hk by done.
    by destruct (nothing_points b ∅ ∅ w k rk Hi Hk). }
  assert (forall wx, results wx !! h = Some R -> forall q p n, shows wx r3 q p n -> forall wy, shows wy (made rows None) q p (S n)) as Hlast.
  { intros wx HRx q' p' n' Hs wy. apply (made_shows _ _ _ _ wy rows None R); [|by apply (s_next_result _ _ _ _ _ _ _ _ _ Hs h)|done| |done].
    - rewrite (s_next_result _ _ _ _ _ _ _ _ _ Hs h R Hn HRx). by apply (s_next_rows _ _ _ _ _ _ _ _ _ Hs).
    - rewrite Hm. split; [by intros []%is_Some_None|done]. }
  set (w4 := put_object f (OFutureValue (Some m)) w3). assert (objects w4 !! m = Some (ORows (made rows None))) as Hm4.
  { unfold w4. cbn [put_object with_objects objects]. rewrite lookup_insert_ne by lia. exact Hm3. }
  assert (objects w4 !! f = Some (OFutureValue (Some m))) as Hf4 by (unfold w4; cbn [put_object with_objects objects]; apply lookup_insert_eq).
  exists (Returned f), w4. split; [done|]. split.
  - apply (inv_put _ _ _ _ b ∅ ∅ ∅ ∅ w3 f (OFutureValue None)); try done.
    + apply (evolves_put _ _ _ _ b ∅ ∅ w3 f (OFutureValue None)); [done|done|]. right. split; [done|]. exists m. split; [done|]. intros Hb k rk q' p' n' r' Hk Hfk Hs Hr'.
      fold w4 in Hr' |- *. rewrite Hm4 in Hr'. injection Hr' as <-. rewrite (Honly k rk Hk Hfk) in Hs. by eapply (Hlast w3).
    + intros m' [= <-]. exists (made rows None). exact Hm4.
  - fold w4. cbn [async_reply]. rewrite Hf4. intros Hb m' r' [= <-] Hr'. rewrite Hm4 in Hr'. injection Hr' as <-.
    split; [done|]. destruct Hrep as (r' & Er' & Hrep). change (objects w3 !! m = Some (ORows r')) in Er'. rewrite Hm3 in Er'. injection Er' as <-.
    destruct (Hrep Hb q p n) as [T1 T2 T3 T4 T5 T6]; [|by split]. unfold w2. apply shows_objects, shows_future. apply (shows_grows _ _ _ _ w w1); [|by eapply inv_bounded|by apply Hsh].
    split; cbn; [by eauto|done|by eauto].
Qed.

(** Which page an object shows is determined by the server's answers. *)
Lemma page_next q p n n' : page q p n = page q p n' -> page q p (S n) = page q p (S n').
Proof. intros E. cbn. by rewrite E. Qed.

Lemma asks_page w f q p n n' : page q p n = page q p n' -> asks w f q p n -> asks w f q p n'.
Proof. intros E [A1 A2 A3 A4]. split; rewrite <- ?E; done. Qed.

Lemma shows_page w r q p n n' : page q p n = page q p n' -> shows w r q p n -> shows w r q p n'.
Proof. intros E [S1 S2 S3 S4 S5 S6]. pose proof (page_next q p n n' E) as E'. split; rewrite <- ?E', <- ?E; done. Qed.

Lemma link_page b w r f q p n n' : page q p n = page q p n' -> link zend_hash depth have_custom_type answer b w r f q p n -> link zend_hash depth have_custom_type answer b w r f q p n'.
Proof.
  intros E. unfold link. destruct (objects w !! f) as [[|fr|v]|]; try done; intros [H1 H2]; (split; [done|]); intros Hb.
  - by eapply asks_page, H2.
  - intros o r' Ev Ho. eapply shows_page; [exact E|]. by eapply H2.
Qed.

Lemma same_page w lr ls o r q p n q' p' n' : inv true lr ls w -> objects w !! o = Some (ORows r) -> is_Some (r_result r) -> shows w r q p n -> shows w r q' p' n' ->
  q' = q /\ p' = p /\ page q p n = page q p n'.
Proof.
  intros Hi Ho [h Er] Hs Hs'. destruct (i_shape _ _ _ _ _ _ _ _ Hi o _ Ho) as (A1 & _). destruct (A1 ltac:(by eexists)) as [[s Es] _].
  destruct (own_statement _ _ _ _ true _ _ w Hi o _ s Ho (statement_rows r s Es)) as (st & Est & _). destruct (slot_alive _ _ _ _ true _ _ w Hi o _ h Ho (slot_result r h Er)) as [R HR].
  destruct (s_statement _ _ _ _ _ _ _ _ _ Hs s st Es Est) as [<- <-]. destruct (s_statement _ _ _ _ _ _ _ _ _ Hs' s st Es Est) as [<- <-].
  rewrite <- (s_result _ _ _ _ _ _ _ _ _ Hs h R Er HR). split; [done|]. split; [done|]. by apply (s_result _ _ _ _ _ _ _ _ _ Hs' h).
Qed.

Lemma own_link b w lr ls o r f q p n : inv b lr ls w -> objects w !! o = Some (ORows r) -> r_future_next_page r = Some f -> (b = true -> shows w r q p n) ->
  is_Some (r_result r) /\ link zend_hash depth have_custom_type answer b w r f q p (S n).
Proof.
  intros Hi Ho Hf Hs. destruct (i_shape _ _ _ _ _ _ _ _ Hi o _ Ho) as (_ & A2 & _ & _ & q0 & p0 & n0 & A5 & A6). assert (is_Some (r_result r)) as Hr by (apply A2; do 2 right; by eexists). split; [done|].
  specialize (A6 f Hf). destruct b.
  - destruct (same_page w lr ls o r q p n q0 p0 n0 Hi Ho Hr (Hs eq_refl) (A5 eq_refl)) as (-> & -> & E). apply (link_page _ _ _ _ _ _ (S n0)); [|done]. symmetry. by apply page_next.
  - unfold link in *. destruct (objects w !! f) as [[|fr|v]|]; try done; by destruct A6.
Qed.

(** [nextPageAsync] when nothing of the next page is known: a request. *)
Lemma async_request_ok b w o r h s R q p n : inv b ∅ ∅ w -> objects w !! o = Some (ORows r) -> r_result r = Some h -> r_statement r = Some s -> results w !! h = Some R ->
  (b = true -> steady s (result_paging_state R) w = true) -> (b = true -> shows w r q p n) ->
  exists w', (w ← set_paging_state s h w; w ← addref s w; st ← statements w !! s;
              let fr := {| fr_statement := Some s; fr_session := true; fr_rows := None; fr_result := None; fr_future := fresh w |} in
              let cf := {| future_statement := Some s; asked := paging st; state_of := Unsent |} in
              Some (put_object o (ORows (set_future_next_page (S (fresh w)) r)) (request_world cf fr w))) = Some w' /\
    inv b ∅ ∅ w' /\ exists fr, objects w' !! S (fresh w) = Some (OFutureRows fr) /\ (b = true -> asks w' fr q p (S n)).
Proof.
  intros Hi Ho Er Es HR Hst Hs. assert (s ∈ total statement_of w) as Hel by (eapply (tally_elem (fun _ x => statement_of x)); [exact Ho|by apply statement_rows]).
  destruct (inv_paging b ∅ ∅ w s h R Hi) as (w1 & st & E1 & Hst0 & Hst1 & Hi1 & Hob1 & Hre1 & Hfu1 & Hfr1 & Hg1); [by rewrite multiset_none|done|done|]. rewrite E1. cbn [mbind option_bind].
  destruct (inv_addref _ _ _ _ b ∅ ∅ w1 s Hi1) as (w2 & E2 & Hi2 & Hob2 & Hre2 & Hfu2 & Hfr2 & Hg2); [by rewrite multiset_none, Hob1|]. rewrite E2. cbn [mbind option_bind]. rewrite none_multiset in Hi2.
  assert (exists st2, statements w2 !! s = Some st2 /\ query st2 = query st /\ start st2 = start st /\ paging st2 = result_paging_state R) as (st2 & Hst2 & Q1 & Q2 & Q3).
  { unfold addref in E2. rewrite Hst1 in E2. destruct (_ =? _)%nat; [done|]. injection E2 as <-. cbn. rewrite lookup_insert_eq. by eexists. }
  rewrite Hst2. cbn [mbind option_bind]. set (fr := {| fr_statement := Some s; fr_session := true; fr_rows := None; fr_result := None; fr_future := fresh w2 |}).
  set (cf := {| future_statement := Some s; asked := paging st2; state_of := Unsent |}). cbn zeta. rewrite Hfr2, Hfr1.
  assert (forall q p n, shows w r q p n -> asks (request_world cf fr w2) fr q p (S n)) as Hask.
  { intros q' p' n' Hs'. destruct (s_statement _ _ _ _ _ _ _ _ _ Hs' s st Es Hst0) as [<- <-]. split; try done.
    - intros s' st' [= <-] E. cbn in E. rewrite Hst2 in E. injection E as <-. by rewrite Q1, Q2.
    - intros c Ec. cbn in Ec. rewrite lookup_insert_eq in Ec. injection Ec as <-. cbn [cf asked PagingInv.page]. by rewrite Q3, (s_result _ _ _ _ _ _ _ _ _ Hs' h R Er HR). }
  destruct (inv_new_request b ∅ {[+ s +]} ∅ w2 cf fr Hi2) as [Hi3 _]; [done|done|apply multiset_none|done|done|done| | |].
  { split; [by intros R' [E|E]|]. split; [|by eexists]. intros s' [= <-]. exists st2. split; [done|]. intros _. split; [by intros R' [E|E]|done]. }
  { intros Hb. exists q, p, (S n). by apply Hask, Hs. }
  assert (o <> S (fresh w2)) as Hne. { pose proof (i_fresh _ _ _ _ _ _ _ _ Hi o ltac:(left; by eexists)). lia. }
  assert (objects (request_world cf fr w2) !! o = Some (ORows r)) as Ho3 by (cbn; by rewrite lookup_insert_ne, Hob2, Hob1).
  assert (objects (request_world cf fr w2) !! S (fresh w2) = Some (OFutureRows fr)) as Hf3 by (cbn; apply lookup_insert_eq).
  rewrite <- Hfr1, <- Hfr2. set (f := S (fresh w2)) in *. set (w3 := request_world cf fr w2) in *.
  assert (objects (put_object o (ORows (set_future_next_page f r)) w3) !! f = Some (OFutureRows fr)) as Hf4 by (cbn [put_object with_objects objects]; by rewrite lookup_insert_ne).
  assert (grows w w3) as Hg.
  { destruct Hg1 as [G1 G2 G3], Hg2 as [K1 K2 K3]. split.
    - intros k sk Ek. destruct (G1 k sk Ek) as (sk1 & Ek1 & ? & ?). destruct (K1 k sk1 Ek1) as (sk2 & Ek2 & ? & ?). exists sk2. split; [done|]. split; congruence.
    - cbn. by rewrite Hre2, Hre1.
    - cbn. intros c cf' Hc E. rewrite lookup_insert_ne, Hfu2, Hfu1 in E by lia. by eauto. }
  destruct (put_link b ∅ w3 o r f Hi3 Ho3) as [Hi4 _]; [by rewrite Er; eexists| |].
  { intros q' p' n' Hs'. unfold link. rewrite Hf4. split; [done|]. intros Hb. apply asks_objects. apply Hask. specialize (Hs' Hb).
    destruct Hs' as [S1 S2 S3 S4 S5 S6]. split; try done.
    - intros k Rk Ek. specialize (S2 k Rk Ek). cbn in S2. by rewrite Hre2, Hre1 in S2.
    - intros k sk Ek Esk. destruct (g_statements _ _ Hg k sk Esk) as (sk' & Ek' & <- & <-). by apply (S4 k).
    - intros k Rk Ek. specialize (S5 k Rk Ek). cbn in S5. by rewrite Hre2, Hre1 in S5. }
  eexists. split; [done|]. split; [done|]. exists fr. split; [exact Hf4|]. intros Hb. apply asks_objects, Hask. by apply Hs.
Qed.

Lemma nextPageAsync_ok b w o r q p n : inv b ∅ ∅ w -> objects w !! o = Some (ORows r) -> (b = true -> calm (NextPageAsync o) w = true) -> (b = true -> shows w r q p n) ->
  exists rep w', Rows_nextPageAsync zend_hash depth have_custom_type o w = Some (rep, w') /\ inv b ∅ ∅ w' /\ async_reply b r rep w' q p n.
Proof.
  intros Hi Ho Hc Hs. assert (rows_at o w = Some r) as Hat by (unfold rows_at; by rewrite Ho). unfold Rows_nextPageAsync. rewrite Hat. cbn [mbind option_bind].
  cbn [calm] in Hc. rewrite Hat in Hc. destruct (r_future_next_page r) as [f|] eqn:Ef.
  { do 2 eexists. split; [done|]. split; [done|]. destruct (own_link b w ∅ ∅ o r f q p n Hi Ho Ef Hs) as [Hr Hl]. cbn [async_reply]. unfold link in Hl.
    destruct (objects w !! f) as [[|fr|v]|]; try done; destruct Hl as [_ Hl]; [by split|]. intros Hb m r' Ev Em. split; [done|by eapply Hl]. }
  destruct (r_next_result r) as [h|] eqn:En; [exact (async_value_ok b w o r h q p n Hi Ho En Hs)|].
  destruct (r_result r) as [h|] eqn:Er.
  - destruct (i_shape _ _ _ _ _ _ _ _ Hi o _ Ho) as (A1 & _). destruct (A1 ltac:(by eexists)) as [[s Es] Hsess]. rewrite Es in *. cbn [mbind option_bind].
    destruct (slot_alive _ _ _ _ b ∅ ∅ w Hi o _ h Ho (slot_result r h Er)) as [R HR]. rewrite HR in Hc.
    destruct (async_request_ok b w o r h s R q p n Hi Ho Er Es HR Hc Hs) as (w' & E & Hi' & fr & Hf & Hask). rewrite Hsess.
    destruct (set_paging_state s h w) as [w1|] eqn:E1; [|done]. cbn [mbind option_bind] in *. destruct (addref s w1) as [w2|] eqn:E2; [|done]. cbn [mbind option_bind negb] in *.
    destruct (statements w2 !! s) as [st|]; [|done]. cbn [mbind option_bind] in *. injection E as E. do 2 eexists. split; [reflexivity|].
    match goal with |- PagingInv.inv _ _ _ _ _ _ _ ?x /\ _ => change x with (put_object o (ORows (set_future_next_page (S (fresh w2)) r))
      (request_world {| future_statement := Some s; asked := paging st; state_of := Unsent |} {| fr_statement := Some s; fr_session := true; fr_rows := None; fr_result := None; fr_future := fresh w2 |} w2)) end.
    rewrite E. split; [done|]. cbn [async_reply fresh next_fresh with_futures]. assert (fresh w2 = fresh w) as ->; [|by rewrite Hf, Er; split; [eexists|]].
    unfold set_paging_state, addref in E1, E2. destruct (statements w !! s); [|done]. rewrite HR in E1. destruct (_ =? _)%nat; [done|]. injection E1 as <-.
    destruct (statements _ !! s); [|done]. destruct (_ =? _)%nat; [done|]. by injection E2 as <-.
  - do 2 eexists. split; [reflexivity|]. split.
    + apply (inv_new_object _ _ _ _ b ∅ ∅ ∅ ∅); [done|apply none_multiset|apply none_multiset|done|done].
    + cbn. rewrite lookup_insert_eq. done.
Qed.

(** ** Executing *)

Definition statement_world (q p : bytes) (w : world) : world := next_fresh (with_statements (<[fresh w := {| query := q; start := p; paging := p; refs := 1 |}]> (statements w)) w).

Lemma inv_new_statement b lr ls w q p : inv b lr ls w -> inv b lr (ls ⊎ {[+ fresh w +]}) (statement_world q p w).
Proof.
  intros Hi. destruct (fresh_none _ _ _ _ _ _ _ _ Hi) as (_ & _ & _ & F4). set (w' := statement_world q p w).
  assert (forall k sk, statements w !! k = Some sk -> statements w' !! k = Some sk) as Hk by (intros k sk E; cbn; rewrite lookup_insert_ne; [done|congruence]).
  assert (grows w w') as Hg by (split; [intros k sk E; exists sk; by split; [apply Hk|]|done|cbn; by eauto]).
  assert (evolves b w w') as He by (split; [done|]; intros k y E _; exists y; split; [done|]; apply succeeds_same; [done|by eapply inv_bounded]).
  split; cbn [w' statement_world next_fresh with_statements results statements futures objects fresh]; try apply Hi.
  - intros s. rewrite refs_insert, gmultiset_disj_union_assoc, multiplicity_disj_union, (i_statements _ _ _ _ _ _ _ _ Hi s). cbn [refs]. destruct (decide (s = fresh w)) as [->|].
    + rewrite multiplicity_singleton, decide_True by done. unfold refs_at. by rewrite F4.
    + rewrite multiplicity_singleton_ne by done. lia.
  - intros k y E. by eapply shape_evolves.
  - intros c cf Ec. apply (future_shape_evolves _ _ _ _ b w); [by eapply i_future_shape|]. intros k sk _ E. exists sk. by split; [apply Hk|].
  - intros k E. destruct (decide (k = fresh w)) as [->|]; [lia|]. enough (k < fresh w)%nat by lia. apply (i_fresh _ _ _ _ _ _ _ _ Hi). by rewrite lookup_insert_ne in E.
Qed.

(** What [execute] may give. *)
Definition execute_reply (b : bool) (q p : bytes) (e : request_end) (rep : reply) (w w' : world) : Prop :=
  match rep with
  | Returned m => e = EndAnswered /\ exists r, objects w' !! m = Some (ORows r) /\ (b = true -> shows w' r q p 0)
  | ReturnedNull => False
  | Threw (NotDecoded rc) => e = EndAnswered /\ get_result (answer q p) = Failure rc /\ w' = w
  | Threw UnexpectedFuture => False
  | Threw _ => e <> EndAnswered /\ w' = w
  end.

Lemma execute_ok b w q p e : inv b ∅ ∅ w -> exists rep w', execute zend_hash depth have_custom_type answer q p e w = Some (rep, w') /\ inv b ∅ ∅ w' /\ execute_reply b q p e rep w w'.
Proof using Hanswer.
  intros Hi. unfold execute. destruct e; [do 2 eexists; by split..|]. pose proof (Hanswer q p) as Hcr. destruct (get_result (answer q p)) as [rows l|rc|rc|] eqn:Ed; [|do 2 eexists; by split|by destruct (get_result_not_destroyed _ _ _ _ _ Ed)|done].
  assert (decoded_as zend_hash depth have_custom_type (answer q p) rows) as Hd by (by exists l). destruct (has_more_pages (answer q p)) eqn:Em.
  - set (w1 := statement_world q p w). pose proof (inv_new_statement b ∅ ∅ w q p Hi) as Hi1. rewrite none_multiset in Hi1. fold w1 in Hi1.
    pose proof (inv_new_result _ _ _ _ b _ _ w1 (answer q p) Hi1 (Hanswer q p)) as Hi2. rewrite none_multiset in Hi2. set (w2 := snd (new_result (answer q p) w1)) in *.
    destruct (new_page zend_hash depth have_custom_type answer b w2 rows (answer q p) (fresh w1) (fresh w) true (fun q' p' n' => q' = q /\ p' = p /\ n' = 0%nat) Em) as [Hi3 Hs3].
    + cbn. apply lookup_insert_eq.
    + intros q' p' n' _ (-> & -> & ->). split; [done|]. split; [done|]. intros _ st E. cbn in E. rewrite lookup_insert_eq in E. by injection E as <-.
    + by exists q, p, 0%nat.
    + exact Hi2.
    + exists (Returned (fresh w2)). eexists. split; [reflexivity|]. split; [exact Hi3|]. split; [done|]. eexists. split; [exact (new_object_at _ w2)|]. intros Hb. by apply Hs3.
  - exists (Returned (fresh w)). eexists. split; [reflexivity|]. assert (forall w', shows w' (made rows None) q p 0) as Hs.
    { intros w'. apply (made_shows _ _ _ _ w' rows None (answer q p)); [done|done|done| |done]. rewrite Em. split; [by intros []%is_Some_None|done]. }
    split; [|split; [done|]; exists (made rows None); split; [exact (new_object_at _ w)|]; intros _; apply Hs].
    apply (inv_new_object _ _ _ _ b ∅ ∅ ∅ ∅ w (ORows (made rows None)) Hi); [apply none_multiset|apply none_multiset|done|].
    apply (made_shape _ _ _ _ b _ rows None (answer q p) q p 0); [intros _; apply Hs|done|by intros []%is_Some_None].
Qed.

Definition new_request (q p : bytes) (rep : reply) (w' : world) : Prop :=
  exists f fr, rep = Returned f /\ objects w' !! f = Some (OFutureRows fr) /\ asks w' fr q p 0.

Lemma executeAsync_ok b w q p : inv b ∅ ∅ w -> let '(rep, w') := executeAsync q p w in inv b ∅ ∅ w' /\ new_request q p rep w'.
Proof.
  intros Hi. pose proof (inv_new_statement b ∅ ∅ w q p Hi) as Hi1. rewrite none_multiset in Hi1. set (w1 := statement_world q p w) in *.
  set (cf := {| future_statement := Some (fresh w); asked := p; state_of := Unsent |}).
  set (fr := {| fr_statement := Some (fresh w); fr_session := true; fr_rows := None; fr_result := None; fr_future := fresh w1 |}).
  change (executeAsync q p w) with (Returned (S (fresh w1)), request_world cf fr w1). cbv iota beta.
  assert (statements w1 !! fresh w = Some {| query := q; start := p; paging := p; refs := 1 |}) as Hst by (cbn; apply lookup_insert_eq).
  assert (asks (request_world cf fr w1) fr q p 0) as Hask.
  { split; try done.
    - intros s st [= <-] E. change (statements w1 !! fresh w = Some st) in E. rewrite Hst in E. by injection E as <-.
    - intros c Ec. change (<[fresh w1 := cf]> (futures w1) !! fresh w1 = Some c) in Ec. rewrite lookup_insert_eq in Ec. by injection Ec as <-. }
  split; [|exists (S (fresh w1)), fr; split; [done|]; split; [cbn; apply lookup_insert_eq|done]].
  apply (inv_new_request b ∅ {[+ fresh w +]} ∅ w1 cf fr Hi1); [done|done|apply multiset_none|done|done|done| |].
  - split; [by intros R [E|E]|]. split; [|by eexists]. intros s [= <-]. eexists. split; [exact Hst|]. intros _. split; [by intros R [E|E]|done].
  - intros _. by exists q, p, 0%nat.
Qed.

Lemma executeAsync_batch_ok w : inv false ∅ ∅ w -> let '(rep, w') := executeAsync_batch w in inv false ∅ ∅ w' /\ exists f fr, rep = Returned f /\ objects w' !! f = Some (OFutureRows fr).
Proof.
  intros Hi. set (cf := {| future_statement := None; asked := []; state_of := Unsent |}).
  set (fr := {| fr_statement := None; fr_session := false; fr_rows := None; fr_result := None; fr_future := fresh w |}).
  change (executeAsync_batch w) with (Returned (S (fresh w)), request_world cf fr w). cbv iota beta.
  split; [|exists (S (fresh w)), fr; split; [done|]; cbn; apply lookup_insert_eq].
  apply (inv_new_request false ∅ ∅ ∅ w cf fr Hi); [done|done|apply none_multiset|done|done|by intros []%is_Some_None| |done].
  split; [by intros R [E|E]|]. by split.
Qed.

(** ** Freeing *)

Lemma inv_free_result b lr ls w h : inv b (opt_set h ⊎ lr) ls w -> exists w', free_optional free_result h w = Some w' /\ inv b lr ls w'.
Proof.
  intros Hi. destruct h as [h|]; cbn [free_optional opt_set] in *; [|exists w; split; [done|]; by rewrite none_multiset in Hi].
  destruct (loose_alive _ _ _ _ b _ ls w Hi h) as [R HR]; [rewrite gmultiset_elem_of_disj_union, gmultiset_elem_of_singleton; by left|].
  unfold free_result. rewrite HR. eexists. split; [done|]. set (w' := with_results (delete h (results w)) w).
  assert (forall k Rk, delete h (results w) !! k = Some Rk -> results w !! k = Some Rk) as Hk by (intros k Rk; by intros []%lookup_delete_Some).
  assert (grows w w') as Hg by (split; cbn; [by eauto|intros k Rk _; apply Hk|by eauto]).
  assert (evolves b w w') as He by (split; [done|]; intros k y E _; exists y; split; [done|]; apply succeeds_same; [done|by eapply inv_bounded]).
  split; cbn [w' with_results results statements futures objects fresh]; try apply Hi.
  - pose proof (i_results _ _ _ _ _ _ _ _ Hi) as E. unfold handles in *. rewrite (tally_delete _ _ _ _ HR) in E. multiset_solver.
  - intros k y E. by eapply shape_evolves.
  - intros k Rk E. by eapply i_decodes, Hk.
  - intros k E. apply (i_fresh _ _ _ _ _ _ _ _ Hi). destruct E as [E|[[Rk E]|E]]; [by left| |by auto]. right. left. exists Rk. by apply Hk.
Qed.

Lemma inv_release b lr ls w s : inv b lr (opt_set s ⊎ ls) w -> exists w', free_optional release s w = Some w' /\ inv b lr ls w'.
Proof.
  intros Hi. destruct s as [s|]; cbn [free_optional opt_set] in *; [|exists w; split; [done|]; by rewrite none_multiset in Hi].
  destruct (held_statement _ _ _ _ b _ _ w Hi s) as (st & E & Hr); [rewrite !gmultiset_elem_of_disj_union, gmultiset_elem_of_singleton; by right; left|].
  unfold release. rewrite E. destruct (Nat.eqb_spec (refs st) 0); [done|]. eexists. split; [done|].
  apply (inv_statements _ _ _ _ b lr ({[+ s +]} ⊎ ls) ls w s st); [exact Hi|done|done|done|done|]. intros k. pose proof (i_statements _ _ _ _ _ _ _ _ Hi k) as Ek.
  rewrite refs_insert. cbn [refs]. rewrite !multiplicity_disj_union in *. destruct (decide (k = s)) as [->|].
  - rewrite multiplicity_singleton, decide_True in Ek by done. unfold refs_at in Ek. rewrite E in Ek. lia.
  - rewrite multiplicity_singleton_ne in Ek by done. lia.
Qed.

(** Operations on the driver's tables of results and statements. *)
Definition keeps (f : world -> option world) : Prop :=
  forall w, (forall m, f (with_objects m w) = option_map (with_objects m) (f w)) /\ (forall m, f (with_futures m w) = option_map (with_futures m) (f w)) /\
            (forall w', f w = Some w' -> objects w' = objects w /\ futures w' = futures w).

Lemma keeps_free h : keeps (free_optional free_result h).
Proof.
  intros w. destruct h as [h|]; [|split; [done|split; [done|by intros w' [= <-]]]]. cbn. unfold free_result. cbn. destruct (results w !! h); (split; [done|]); (split; [done|]); [by intros w' [= <-]|done].
Qed.

Lemma keeps_release s : keeps (free_optional release s).
Proof.
  intros w. destruct s as [s|]; [|split; [done|split; [done|by intros w' [= <-]]]]. cbn. unfold release. cbn.
  destruct (statements w !! s) as [st|]; [|by split]. destruct (_ =? _)%nat; (split; [done|]); (split; [done|]); [done|by intros w' [= <-]].
Qed.

Lemma keeps_then f g : keeps f -> keeps g -> keeps (fun w => w ← f w; g w).
Proof.
  intros Hf Hg w. destruct (Hf w) as (F1 & F2 & F3). split; [|split].
  - intros m. rewrite F1. destruct (f w) as [w1|]; [|done]. cbn. by destruct (Hg w1) as (-> & _).
  - intros m. rewrite F2. destruct (f w) as [w1|]; [|done]. cbn. by destruct (Hg w1) as (_ & -> & _).
  - intros w' E. destruct (f w) as [w1|]; [|done]. cbn in E. destruct (F3 w1 eq_refl) as [<- <-]. by apply (Hg w1).
Qed.

Definition drop_future (x : php_object) (m : gmap nat cass_future) : gmap nat cass_future := match x with OFutureRows f => delete (fr_future f) m | _ => m end.
Definition dropped (o : nat) (x : php_object) (w : world) : world := with_objects (delete o (objects w)) (with_futures (drop_future x (futures w)) w).

Lemma drop_future_lookup x m c cf : drop_future x m !! c = Some cf -> m !! c = Some cf.
Proof. destruct x; cbn; [done| |done]. by intros []%lookup_delete_Some. Qed.

Lemma inv_drop b w o x : inv b ∅ ∅ w -> objects w !! o = Some x -> ~ pointed w o -> inv b (slots x) (statement_of x) (dropped o x w).
Proof.
  intros Hi Ho Hp. set (w' := dropped o x w). assert (grows w w') as Hg.
  { split; cbn; [by eauto|done|]. intros c cf _ E%drop_future_lookup. by eauto. }
  assert (evolves b w w') as He.
  { split; [done|]. intros k y E Hpk. exists y. assert (o <> k) as Hne by (by intros ->). cbn. rewrite lookup_delete_ne by done. split; [done|]. apply succeeds_same; [done|by eapply inv_bounded]. }
  pose proof (tally_delete (fun _ x => slots x) _ _ _ Ho) as T1. pose proof (tally_delete (fun _ x => statement_of x) _ _ _ Ho) as T2. pose proof (tally_delete (fun _ x => future_of x) _ _ _ Ho) as T3.
  split; cbn [w' dropped with_objects with_futures results statements futures objects fresh].
  - pose proof (i_results _ _ _ _ _ _ _ _ Hi) as E. rewrite T1, multiset_none in E. rewrite <- E. apply gmultiset_disj_union_comm.
  - intros s. rewrite <- (i_statements _ _ _ _ _ _ _ _ Hi s). f_equal. rewrite T2, multiset_none. apply gmultiset_disj_union_comm.
  - pose proof (i_futures _ _ _ _ _ _ _ _ Hi) as E. rewrite T3 in E. destruct x as [r|f|v]; cbn [future_of drop_future] in *; [by rewrite none_multiset in E| |by rewrite none_multiset in E].
    destruct (own_future _ _ _ _ b ∅ ∅ w Hi o f Ho) as [c Ec]. unfold handles in *. rewrite (tally_delete _ _ _ _ Ec) in E. clear -E. multiset_solver.
  - intros k y [_ E]%lookup_delete_Some. by eapply shape_evolves.
  - intros c cf E%drop_future_lookup. apply (future_shape_evolves _ _ _ _ b w); [by eapply i_future_shape|]. intros k sk _ Ek. by exists sk.
  - apply Hi.
  - intros k E. apply (i_fresh _ _ _ _ _ _ _ _ Hi). destruct E as [[y E]|[E|[[cf E]|E]]]; [|by auto| |by auto].
    + left. exists y. by apply lookup_delete_Some in E as [_ ?].
    + do 2 right. left. exists cf. by eapply drop_future_lookup.
Qed.

Lemma not_pointed w o : referenced o w = false -> ~ pointed w o.
Proof.
  intros H (k & y & Ek & Hr). unfold referenced in H. assert (existsb (fun e => refers (snd e) o) (map_to_list (objects w)) = true) as H'; [|congruence].
  apply existsb_exists. exists (k, y). split; [|done]. by apply list_elem_of_In, elem_of_map_to_list.
Qed.

Lemma free_object_ok b w o x : inv b ∅ ∅ w -> objects w !! o = Some x -> referenced o w = false -> exists w', free_object o w = Some w' /\ inv b ∅ ∅ w'.
Proof.
  intros Hi Ho Hr%not_pointed. pose proof (inv_drop b w o x Hi Ho Hr) as Hd. unfold free_object. rewrite Ho. cbn [mbind option_bind]. destruct x as [r|f|v]; cbn [slots statement_of] in Hd.
  - rewrite <- (multiset_none (opt_set (r_next_result r))) in Hd. destruct (inv_free_result b _ _ _ _ Hd) as (w1 & E1 & Hi1). destruct (inv_free_result b _ _ _ _ Hi1) as (w2 & E2 & Hi2).
    rewrite <- (multiset_none (opt_set (r_statement r))) in Hi2. destruct (inv_release b _ _ _ _ Hi2) as (w3 & E3 & Hi3).
    assert (keeps (fun w => w ← free_optional free_result (r_result r) w; w ← free_optional free_result (r_next_result r) w; free_optional release (r_statement r) w)) as Hk.
    { apply (keeps_then _ (fun w => w ← free_optional free_result (r_next_result r) w; free_optional release (r_statement r) w)); [apply keeps_free|].
      apply (keeps_then _ (fun w => free_optional release (r_statement r) w)); [apply keeps_free|apply keeps_release]. }
    destruct (Hk w) as (K1 & _ & K3). specialize (K1 (delete o (objects w))). assert (dropped o (ORows r) w = with_objects (delete o (objects w)) w) as Edr by (by destruct w).
    rewrite Edr in E1. rewrite E1 in K1. cbn [mbind option_bind] in K1. rewrite E2 in K1. cbn [mbind option_bind] in K1. rewrite E3 in K1.
    destruct (w ← _; _) as [w0|]; [|done]. cbn [mbind option_bind option_map] in *. injection K1 as K1. exists w3. split; [|done]. rewrite (proj1 (K3 w0 eq_refl)). by rewrite K1.
  - rewrite <- (multiset_none (opt_set (fr_statement f))) in Hd. destruct (inv_release b _ _ _ _ Hd) as (w1 & E1 & Hi1).
    rewrite <- (multiset_none (opt_set (fr_result f))) in Hi1. destruct (inv_free_result b _ _ _ _ Hi1) as (w2 & E2 & Hi2).
    assert (keeps (fun w => w ← free_optional release (fr_statement f) w; free_optional free_result (fr_result f) w)) as Hk.
    { apply (keeps_then _ (fun w => free_optional free_result (fr_result f) w)); [apply keeps_release|apply keeps_free]. }
    destruct (Hk (with_futures (drop_future (OFutureRows f) (futures w)) w)) as (K1 & _). specialize (K1 (delete o (objects w))). fold (dropped o (OFutureRows f) w) in K1.
    rewrite E1 in K1. cbn [mbind option_bind] in K1. rewrite E2 in K1. destruct (Hk w) as (_ & K2 & K3). rewrite K2 in K1. clear K2.
    destruct (own_future _ _ _ _ b ∅ ∅ w Hi o f Ho) as [c Ec].
    destruct (free_optional release (fr_statement f) w) as [wa|]; [|done]. cbn [mbind option_bind] in *. destruct (free_optional free_result (fr_result f) wa) as [w0|]; [|done].
    cbn [mbind option_bind option_map] in *. destruct (K3 w0 eq_refl) as [Eo Ef]. injection K1 as ->. rewrite Ef, Ec. cbn [mbind option_bind]. eexists. split; [reflexivity|].
    cbn [with_futures objects futures]. rewrite Eo. exact Hi2.
  - eexists. split; [reflexivity|]. replace (with_objects (delete o (objects w)) w) with (dropped o (OFutureValue v) w) by (by destruct w). exact Hd.
Qed.

(** ** Steps *)

Lemma inv_future_state b w c cf s : inv b ∅ ∅ w -> futures w !! c = Some cf -> let cf' := {| future_statement := future_statement cf; asked := asked cf; state_of := s |} in
  future_shape zend_hash depth have_custom_type answer b w cf' -> inv b ∅ ∅ (with_futures (<[c := cf']> (futures w)) w).
Proof.
  intros Hi Hc cf' Hs. set (w' := with_futures (<[c := cf']> (futures w)) w).
  assert (grows w w') as Hg.
  { split; cbn; [by eauto|done|]. intros k ck _ E. destruct (decide (k = c)) as [->|]; [rewrite lookup_insert_eq in E; injection E as <-; by exists cf|rewrite lookup_insert_ne in E by done; by eauto]. }
  assert (evolves b w w') as He by (split; [done|]; intros k y E _; exists y; split; [done|]; apply succeeds_same; [done|by eapply inv_bounded]).
  split; cbn [w' with_futures results statements futures objects fresh]; try apply Hi.
  - rewrite handles_same by done. apply Hi.
  - intros k y E. by eapply shape_evolves.
  - intros k ck E. apply (future_shape_evolves _ _ _ _ b w); [|intros s' st _ Est; by exists st]. destruct (decide (k = c)) as [->|].
    + rewrite lookup_insert_eq in E. by injection E as <-.
    + rewrite lookup_insert_ne in E by done. by eapply i_future_shape.
  - intros k E. apply (i_fresh _ _ _ _ _ _ _ _ Hi). destruct E as [E|[E|[E|E]]]; [by auto..| |by auto]. do 2 right. left. destruct (decide (k = c)) as [->|]; [by rewrite Hc|by rewrite lookup_insert_ne in E].
Qed.

Definition step_kept (b : bool) (s : stepped) : Prop := match s with Disabled => True | Faulted => False | Stepped rep w' => inv b ∅ ∅ w' /\ rep <> Threw UnexpectedFuture end.

Lemma future_becomes_ok b w c f : inv b ∅ ∅ w ->
  (forall cf s, futures w !! c = Some cf -> f cf = Some s ->
     future_shape zend_hash depth have_custom_type answer b w {| future_statement := future_statement cf; asked := asked cf; state_of := s |}) ->
  step_kept b (future_becomes c f w).
Proof.
  intros Hi Hf. unfold future_becomes. destruct (futures w !! c) as [cf|] eqn:E; [|done]. destruct (f cf) as [s|] eqn:Es; [|done]. split; [|done]. apply inv_future_state; [done|done|by apply Hf].
Qed.

Lemma driver_ok b w l : inv b ∅ ∅ w -> match l with Send _ | Resolve _ | Fail _ _ | AnswerBatch _ _ => step_kept b (step zend_hash depth have_custom_type answer l w) | _ => True end.
Proof using Hanswer.
  intros Hi. destruct l as [| | | | | | |c|c|c rc|c r]; try done; cbn [step]; apply future_becomes_ok; try done; intros cf s Ec Ef; destruct (i_future_shape _ _ _ _ _ _ _ _ Hi c cf Ec) as (F1 & F2 & F3).
  - destruct (future_statement cf) as [k|] eqn:Ek; [|by destruct (state_of cf)]. destruct (F2 k eq_refl) as (st & Est & Fst). rewrite Est in Ef.
    assert (is_ready (state_of cf) = false /\ s = Sent (answer (query st) (paging st))) as [Hr ->] by (destruct (state_of cf); try done; by injection Ef as <-). split; [|split; [|done]]; cbn [state_of asked future_statement].
    + intros R [[= <-]|[=]]. split; [apply Hanswer|done].
    + intros k' [= <-]. exists st. split; [done|]. intros Hb. destruct (Fst Hb) as [_ Hp]. specialize (Hp Hr). split; [|done]. intros R [[= <-]|[=]]. by rewrite Hp.
  - destruct (state_of cf) as [|R|] eqn:Es; try done. injection Ef as <-. split; [|split; [|done]]; cbn [state_of asked future_statement].
    + intros R' [[=]|[= <-]]. apply F1. by left.
    + intros k Ek. destruct (F2 k Ek) as (st & Est & Fst). exists st. split; [done|]. intros Hb. destruct (Fst Hb) as [Hs _]. split; [|done]. intros R' [[=]|[= <-]]. apply Hs. by left.
  - destruct (is_ready (state_of cf)); [done|]. injection Ef as <-. split; [|split; [|done]]; cbn [state_of asked future_statement].
    + by intros R [[=]|E]; destruct rc.
    + intros k Ek. destruct (F2 k Ek) as (st & Est & Fst). exists st. split; [done|]. intros Hb. split; [|done]. by intros R [[=]|E]; destruct rc.
  - destruct (future_statement cf) as [k|] eqn:Ek; [done|]. destruct (state_of cf); try done. destruct (has_more_pages r) eqn:Em; [done|].
    destruct (get_result r) eqn:Er; [injection Ef as <-..|done]; (split; [|split; [done|exact F3]]); intros R [[=]|[= <-]]; by rewrite Er.
Qed.

Lemma step_ok b w l : inv b ∅ ∅ w -> (b = true -> calm l w = true) -> step_kept b (step zend_hash depth have_custom_type answer l w).
Proof using Hanswer.
  intros Hi Hc. pose proof (driver_ok b w l Hi) as Hd. destruct l as [q p e|q p| |o e|o|o|o| | | |]; try done; cbn [step].
  - destruct (execute_ok b w q p e Hi) as (rep & w' & -> & Hi' & Hrep). split; [done|]. by intros ->.
  - pose proof (executeAsync_ok b w q p Hi) as H. destruct (executeAsync q p w) as [rep w']. destruct H as (Hi' & f & fr & -> & _). by split.
  - destruct b; [by specialize (Hc eq_refl)|]. pose proof (executeAsync_batch_ok w Hi) as H. destruct (executeAsync_batch w) as [rep w']. destruct H as (Hi' & f & fr & -> & _). by split.
  - destruct (objects w !! o) as [[r| |]|] eqn:Eo; try done. destruct (nextPage_ok b w o r e Hi Eo Hc) as (rep & w' & -> & Hi' & Hrep). split; [done|]. by intros ->.
  - destruct (objects w !! o) as [[r| |]|] eqn:Eo; try done. destruct (i_shape _ _ _ _ _ _ _ _ Hi o _ Eo) as (_ & _ & _ & _ & q & p & n & A5 & _).
    destruct (nextPageAsync_ok b w o r q p n Hi Eo Hc A5) as (rep & w' & -> & Hi' & Hrep). split; [done|]. by intros ->.
  - destruct (objects w !! o) as [[|fr|v]|] eqn:Eo; try done.
    + destruct (FutureRows_get_ok _ _ _ _ b w o fr Hi Eo) as (rep & w' & -> & Hi' & Hrep). split; [done|]. by intros ->.
    + split; [done|]. by destruct v.
  - destruct (objects w !! o) as [x|] eqn:Eo; [|done]. destruct (referenced o w) eqn:Er; [done|]. destruct (free_object_ok b w o x Hi Eo Er) as (w' & -> & Hi'). by split.
Qed.

Lemma inv_initial b : inv b ∅ ∅ initial.
Proof.
  split; cbn [initial results statements futures objects fresh]; try done.
  intros k [[? E]|[[? E]|[[? E]|[? E]]]]; by rewrite lookup_empty in E.
Qed.

Abbreviation reachable := (Paging.reachable zend_hash depth have_custom_type answer).

Lemma paging_reachable_inv w : reachable w -> inv false ∅ ∅ w.
Proof using Hanswer.
  induction 1 as [|l w r w' _ IH E]; [apply inv_initial|]. pose proof (step_ok false w l IH ltac:(done)) as H. rewrite E in H. apply H.
Qed.

(** Histories in which no request overtakes another. *)
Inductive calmly_reachable : world -> Prop :=
| calm_initial : calmly_reachable initial
| calm_step l w r w' : calmly_reachable w -> calm l w = true -> step zend_hash depth have_custom_type answer l w = Stepped r w' -> calmly_reachable w'.

Lemma calmly_reachable_inv w : calmly_reachable w -> inv true ∅ ∅ w.
Proof using Hanswer.
  induction 1 as [|l w r w' _ IH Hc E]; [apply inv_initial|]. pose proof (step_ok true w l IH ltac:(done)) as H. rewrite E in H. apply H.
Qed.
End safe.
