(* ===== verification/PageOrder.v ===== *)
(** Paging: what PHP code sees.  No history of calls, requests and frees faults or leaks; where requests
    do not overtake one another every object shows the page it should, and the loop of the guide
    reads every page once. *)
From stdpp Require Import gmap gmultiset.
From S2P Require Import Prelude ClusterBuilder ExecutionProfile InetUtil Serialization DriverErrors NumberParser UtHash Types Values Collections Decoder DataTypes Conversions ResultDecoder RequestEncoding Statements ResultRows Paging PagingInv PagingSafe.
#[local] Open Scope Z_scope.

Section order.
Context {G : Gmp} (zend_hash : bytes -> Z) (depth : nat) (have_custom_type : bool) (answer : bytes -> bytes -> CassResult).

Abbreviation get_result := (php_scylladb_get_result zend_hash depth have_custom_type).
Abbreviation inv := (PagingInv.inv zend_hash depth have_custom_type answer).
Abbreviation shows := (PagingInv.shows zend_hash depth have_custom_type answer).
Abbreviation asks := (PagingInv.asks zend_hash depth have_custom_type answer).
Abbreviation page := (PagingInv.page answer).
Abbreviation step := (Paging.step zend_hash depth have_custom_type answer).
Abbreviation reachable := (Paging.reachable zend_hash depth have_custom_type answer).
Abbreviation calmly_reachable := (PagingSafe.calmly_reachable zend_hash depth have_custom_type answer).
Abbreviation Rows_nextPage := (Paging.Rows_nextPage zend_hash depth have_custom_type answer).
Abbreviation rows_create := (Paging.rows_create zend_hash depth have_custom_type).

(** The server's answers can be decoded without a fault: they may fail to decode, but not leave the behaviour undefined
    ([ResultRows.result_rows_read] has the case of a value of no bytes in a later row). *)
Definition sound_answers : Prop := forall q p, get_result (answer q p) <> Crash.

(** ** The loop of the guide

    The rows of a page, then [isLastPage], then [nextPage]; the page before is freed when nothing
    refers to it. *)
Definition collect (o : nat) (w : world) : option world :=
  match step (Free o) w with Stepped _ w' => Some w' | Disabled => Some w | Faulted => None end.

Fixpoint read_pages (fuel : nat) (o : nat) (w : world) : option (list (list php_row) * world) :=
  match fuel with
  | O => None
  | S fuel' =>
      r ← rows_at o w;
      rows ← r_rows r;
      if Rows_isLastPage r then Some ([rows], w)
      else
        '(rep, w) ← Rows_nextPage o EndAnswered w;
        match rep with
        | Returned m => w ← collect o w; '(more, w) ← read_pages fuel' m w; Some (rows :: more, w)
        | _ => None
        end
  end.

Definition execute_and_read (fuel : nat) (q p : bytes) (w : world) : option (list (list php_row) * world) :=
  '(rep, w) ← execute zend_hash depth have_custom_type answer q p EndAnswered w;
  match rep with Returned o => read_pages fuel o w | _ => None end.

(** A [Rows] that nothing was asked of yet, with no request of its statement under way. *)
Definition unread (r : rows_object) : Prop := r_next_result r = None /\ r_future_next_page r = None /\ r_next_rows r = None.
Definition quiet (r : rows_object) (w : world) : Prop :=
  forall c cf s, futures w !! c = Some cf -> future_statement cf = Some s -> r_statement r = Some s -> is_ready (state_of cf) = true.

Lemma quiet_calm o r w e : rows_at o w = Some r -> quiet r w -> calm (NextPage o e) w = true.
Proof.
  intros Ho Hq. cbn [calm]. rewrite Ho. destruct (r_next_result r); [done|]. destruct (r_future_next_page r); [done|]. destruct (r_result r) as [h|]; [|done].
  destruct (r_statement r) as [s|] eqn:Es; [|done]. destruct (results w !! h) as [R|]; [|done]. apply forallb_forall. intros [c cf] Hin%list_elem_of_In%elem_of_map_to_list. cbn [snd].
  destruct (bool_decide_reflect (future_statement cf = Some s)) as [E|]; [|done]. by rewrite (Hq c cf s Hin E Es).
Qed.

(** What [nextPage] does when the server answers. *)
Definition next_rows_made (o : nat) (r : rows_object) (w : world) (rep : reply) (w' : world) : Prop :=
  futures w' = futures w /\
  ((exists rc, rep = Threw (NotDecoded rc)) \/
   exists m r', rep = Returned m /\ m <> o /\ objects w' !! m = Some (ORows r') /\ unread r' /\ (r_statement r' = r_statement r \/ r_statement r' = None)).

Lemma rows_create_new o r h R w rep w' : (o < fresh w)%nat -> rows_at o w = Some r -> r_next_result r = Some h -> r_next_rows r = None -> results w !! h = Some R ->
  rows_create o w = Some (rep, w') -> next_rows_made o r w rep w'.
Proof.
  intros Hlt Ho Hn Hr HR E. rewrite (rows_create_eq zend_hash depth have_custom_type o r h R w Ho Hn HR), Hr in E.
  destruct (get_result R) as [rows l|rc|rc|]; [|injection E as <- <-; split; [done|left; by eexists]|done|done]. destruct (has_more_pages R).
  - destruct (r_statement r) as [s|] eqn:Es; [|done]. unfold addref in E. destruct (statements w !! s) as [st|]; [|done]. destruct (_ =? _)%nat; [done|]. injection E as <- <-. split; [done|].
    right. do 2 eexists. split; [reflexivity|]. split; [cbn; lia|]. split; [cbn; apply lookup_insert_eq|]. split; [done|]. left. by rewrite Es.
  - injection E as <- <-. split; [done|]. right. do 2 eexists. split; [reflexivity|]. split; [cbn; lia|]. split; [cbn; apply lookup_insert_eq|]. split; [done|]. by right.
Qed.

Lemma nextPage_new o r w rep w' : (o < fresh w)%nat -> rows_at o w = Some r -> unread r -> is_Some (r_result r) -> Rows_nextPage o EndAnswered w = Some (rep, w') -> next_rows_made o r w rep w'.
Proof.
  intros Hlt Ho (Hn & Hf & Hr) [h Eh] E. unfold Paging.Rows_nextPage in E. rewrite Ho in E. cbn [mbind option_bind] in E. rewrite Hn, Hf, Eh in E. destruct (r_statement r) as [s|] eqn:Es; [|done]. cbn [mbind option_bind] in E.
  destruct (set_paging_state s h w) as [w1|] eqn:E1; [|done]. cbn [mbind option_bind] in E. destruct (r_session r); [|done]. cbn [negb] in E. unfold execute_and_wait in E.
  assert (objects w1 = objects w /\ futures w1 = futures w /\ fresh w1 = fresh w) as (Eo & Ef & Efr).
  { unfold set_paging_state in E1. destruct (statements w !! s); [|done]. destruct (results w !! h); [|done]. destruct (_ =? _)%nat; [done|]. by injection E1 as <-. }
  destruct (statements w1 !! s) as [st|]; [|done]. cbn [mbind option_bind new_result] in E.
  eapply (rows_create_new o (set_next_result (Some (fresh w1)) r) (fresh w1)) in E; [|cbn; lia|unfold rows_at; cbn; by rewrite lookup_insert_eq|done|done|cbn; apply lookup_insert_eq].
  destruct E as [E1' E2]. split; [by rewrite E1'|]. exact E2.
Qed.

(** ** Freeing changes nothing else *)

Lemma grows_trans w1 w2 w3 : (fresh w1 <= fresh w2)%nat -> grows w1 w2 -> grows w2 w3 -> grows w1 w3.
Proof.
  intros Hf [A1 A2 A3] [B1 B2 B3]. split.
  - intros s st E. destruct (A1 s st E) as (st2 & E2 & ? & ?). destruct (B1 s st2 E2) as (st3 & E3 & ? & ?). exists st3. split; [done|]. split; congruence.
  - intros h R Hh E. apply A2; [done|]. apply B2; [lia|done].
  - intros c cf Hc E. destruct (B3 c cf) as (cf2 & E2 & ? & ?); [lia|done|]. destruct (A3 c cf2 Hc E2) as (cf1 & E1 & ? & ?). exists cf1. split; [done|]. split; congruence.
Qed.

Definition shrinks (w w' : world) : Prop := grows w w' /\ fresh w' = fresh w /\ objects w' = objects w /\ futures w' = futures w.

Lemma shrinks_trans w1 w2 w3 : shrinks w1 w2 -> shrinks w2 w3 -> shrinks w1 w3.
Proof. intros (A1 & A2 & A3 & A4) (B1 & B2 & B3 & B4). split; [eapply grows_trans; [|exact A1|exact B1]; lia|]. split_and!; congruence. Qed.

Lemma free_shrinks h w w' : free_optional free_result h w = Some w' -> shrinks w w'.
Proof.
  destruct h as [h|]; cbn; [|intros [= <-]; split; [apply grows_refl|done]]. unfold free_result. destruct (results w !! h); [|done]. intros [= <-]. split; [|done].
  split; cbn; [by eauto| |by eauto]. intros k R _. by intros []%lookup_delete_Some.
Qed.

Lemma release_shrinks s w w' : free_optional release s w = Some w' -> shrinks w w'.
Proof.
  destruct s as [s|]; cbn; [|intros [= <-]; split; [apply grows_refl|done]]. unfold release. destruct (statements w !! s) as [st|] eqn:Es; [|done]. destruct (_ =? _)%nat; [done|]. intros [= <-]. split; [|done].
  split; cbn; [|done|by eauto]. intros k sk E. destruct (decide (k = s)) as [->|]; [rewrite lookup_insert_eq|rewrite lookup_insert_ne by done; by exists sk]. rewrite Es in E. injection E as <-. by eexists.
Qed.

Lemma free_object_rest o w w' : free_object o w = Some w' ->
  grows w w' /\ objects w' = delete o (objects w) /\ forall c cf, futures w' !! c = Some cf -> futures w !! c = Some cf.
Proof.
  unfold free_object. destruct (objects w !! o) as [x|]; [|done]. cbn [mbind option_bind]. intros E.
  assert (exists w1 w2, shrinks w w1 /\ grows w1 w2 /\ fresh w2 = fresh w1 /\ objects w2 = objects w1 /\ (forall c cf, futures w2 !! c = Some cf -> futures w1 !! c = Some cf) /\
            w' = with_objects (delete o (objects w2)) w2) as (w1 & w2 & (G1 & F1 & O1 & U1) & G2 & F2 & O2 & U2 & ->).
  { destruct x as [r|f|v].
    - destruct (free_optional free_result (r_result r) w) as [wa|] eqn:Ea; [|done]. cbn [mbind option_bind] in E. destruct (free_optional free_result (r_next_result r) wa) as [wb|] eqn:Eb; [|done].
      cbn [mbind option_bind] in E. destruct (free_optional release (r_statement r) wb) as [wc|] eqn:Ec; [|done]. injection E as <-. exists wc, wc. split; [|split; [apply grows_refl|done]].
      eapply shrinks_trans; [by eapply free_shrinks|]. eapply shrinks_trans; [by eapply free_shrinks|by eapply release_shrinks].
    - destruct (free_optional release (fr_statement f) w) as [wa|] eqn:Ea; [|done]. cbn [mbind option_bind] in E. destruct (free_optional free_result (fr_result f) wa) as [wb|] eqn:Eb; [|done].
      cbn [mbind option_bind] in E. destruct (futures wb !! fr_future f) as [c|]; [|done]. injection E as <-. exists wb, (with_futures (delete (fr_future f) (futures wb)) wb).
      split; [eapply shrinks_trans; [by eapply release_shrinks|by eapply free_shrinks]|]. assert (forall c cf, delete (fr_future f) (futures wb) !! c = Some cf -> futures wb !! c = Some cf) as Hd by (intros ? ?; by intros []%lookup_delete_Some).
      split; [|done]. split; cbn; [by eauto|done|]. intros k cf _ E%Hd. by exists cf.
    - injection E as <-. exists w, w. split; [split; [apply grows_refl|done]|]. split; [apply grows_refl|done]. }
  cbn. rewrite O2, O1. split; [|split; [done|]].
  - eapply grows_trans; [|exact G1|]; [lia|]. eapply grows_trans; [|exact G2|apply grows_objects]. lia.
  - intros c cf E'. rewrite <- U1. by apply U2.
Qed.

Context (Hanswer : sound_answers).

Lemma collect_ok o m r q p n w : inv true ∅ ∅ w -> m <> o -> objects w !! m = Some (ORows r) -> shows w r q p n -> quiet r w ->
  exists w', collect o w = Some w' /\ inv true ∅ ∅ w' /\ objects w' !! m = Some (ORows r) /\ shows w' r q p n /\ quiet r w'.
Proof using Hanswer.
  intros Hi Hne Hm Hs Hq. unfold collect. pose proof (step_ok zend_hash depth have_custom_type answer Hanswer true w (Free o) Hi ltac:(done)) as Hok.
  destruct (step (Free o) w) as [| |rep w'] eqn:E; [by exists w|done|]. destruct Hok as [Hi' _]. exists w'. split; [done|]. split; [done|].
  cbn [Paging.step] in E. destruct (objects w !! o); [|done]. destruct (referenced o w); [done|]. destruct (free_object o w) as [wf|] eqn:Ef; [|done]. injection E as _ ->.
  destruct (free_object_rest o w w' Ef) as (Hg & Ho & Hf). split; [by rewrite Ho, lookup_delete_ne|]. split; [eapply shows_grows; [exact Hg|by eapply inv_bounded|done]|].
  intros c cf s Ec. by apply (Hq c cf s), Hf.
Qed.

Abbreviation decoded_as := (PagingInv.decoded_as zend_hash depth have_custom_type).

(** [isLastPage] looks at the fields of the next page too, which a last page never has. *)
Lemma isLastPage_ok lr ls o r w q p n : inv true lr ls w -> objects w !! o = Some (ORows r) -> shows w r q p n -> Rows_isLastPage r = negb (has_more_pages (page q p n)).
Proof.
  intros Hi Ho Hs. destruct (i_shape _ _ _ _ _ _ _ _ Hi o _ Ho) as (_ & A2 & _). pose proof (s_more _ _ _ _ _ _ _ _ _ Hs) as Hm. unfold Rows_isLastPage. destruct (r_result r) as [h|].
  - rewrite (proj1 Hm) by by eexists. done.
  - destruct (has_more_pages (page q p n)); [destruct (is_Some_None (proj2 Hm eq_refl))|]. destruct (r_next_rows r); [destruct (is_Some_None (A2 ltac:(right; left; by eexists)))|].
    destruct (r_future_next_page r); [destruct (is_Some_None (A2 ltac:(right; right; by eexists)))|]. done.
Qed.

Lemma read_pages_S fuel o w : read_pages (S fuel) o w =
  (r ← rows_at o w; rows ← r_rows r;
   if Rows_isLastPage r then Some ([rows], w)
   else '(rep, w) ← Rows_nextPage o EndAnswered w;
        match rep with Returned m => w ← collect o w; '(more, w) ← read_pages fuel m w; Some (rows :: more, w) | _ => None end).
Proof. done. Qed.

Lemma read_pages_ok q p k : forall n o r w, inv true ∅ ∅ w -> objects w !! o = Some (ORows r) -> unread r -> quiet r w -> shows w r q p n ->
  (forall i, (i < k)%nat -> has_more_pages (page q p (n + i)) = true) -> has_more_pages (page q p (n + k)) = false ->
  (forall i, (i <= k)%nat -> exists rows, decoded_as (page q p (n + i)) rows) ->
  exists pages w', read_pages (S k) o w = Some (pages, w') /\ inv true ∅ ∅ w' /\ length pages = S k /\ forall i rows, pages !! i = Some rows -> decoded_as (page q p (n + i)) rows.
Proof using Hanswer.
  induction k as [|k IH]; intros n o r w Hi Ho Hu Hq Hs Hmore Hlast Hdec; assert (rows_at o w = Some r) as Hat by (unfold rows_at; by rewrite Ho);
    destruct (s_rows _ _ _ _ _ _ _ _ _ Hs) as (rows & Er & Hrows); pose proof (isLastPage_ok ∅ ∅ o r w q p n Hi Ho Hs) as El;
    rewrite read_pages_S, Hat; cbn [mbind option_bind]; rewrite Er; cbn [mbind option_bind]; rewrite El.
  - rewrite Nat.add_0_r in Hlast. rewrite Hlast. exists [rows], w. split; [done|]. split; [done|]. split; [done|]. intros [|i] rows' E; [|done]. injection E as <-. by rewrite Nat.add_0_r.
  - specialize (Hmore 0%nat ltac:(lia)) as H0. rewrite Nat.add_0_r in H0. rewrite H0. cbn [negb].
    destruct (nextPage_ok zend_hash depth have_custom_type answer Hanswer true w o r EndAnswered Hi Ho) as (rep & w1 & E & Hi1 & Hrep); [intros _; by eapply quiet_calm|].
    rewrite E. cbn [mbind option_bind]. assert (is_Some (r_result r)) as Hr by (by apply (s_more _ _ _ _ _ _ _ _ _ Hs)).
    destruct (nextPage_new o r w rep w1) as [Hf [(rc & ->)|(m & r' & -> & Hne & Hm & Hu' & Hst)]]; [apply (i_fresh _ _ _ _ _ _ _ _ Hi); left; by eexists|done|done|done|done| |].
    { destruct Hrep as [_ Hrep]. specialize (Hrep eq_refl q p n Hs). destruct (Hdec 1%nat ltac:(lia)) as (rows' & l & Hd). rewrite Nat.add_1_r in Hd. congruence. }
    destruct Hrep as (_ & r'' & Hm' & Hs'). rewrite Hm in Hm'. injection Hm' as <-. specialize (Hs' eq_refl q p n Hs).
    destruct (collect_ok o m r' q p (S n) w1 Hi1 Hne Hm Hs') as (w2 & Ec & Hi2 & Hm2 & Hs2 & Hq2).
    { intros c cf s Efu Es Es'. rewrite Hf in Efu. destruct Hst as [Hst|Hst]; rewrite Hst in Es'; [|done]. by eapply Hq. }
    rewrite Ec. cbn [mbind option_bind]. assert (forall i, (S n + i = n + S i)%nat) as Hsh by (intros; lia).
    destruct (IH (S n) m r' w2 Hi2 Hm2 Hu' Hq2 Hs2) as (pages & w3 & E3 & Hi3 & Hl & Hp); [intros i Hle; rewrite Hsh; apply Hmore; lia|by rewrite Hsh|intros i Hle; rewrite Hsh; apply Hdec; lia|].
    rewrite E3. cbn [mbind option_bind]. exists (rows :: pages), w3. split; [done|]. split; [done|]. split; [cbn; by rewrite Hl|].
    intros [|i] rows' Ei; [injection Ei as <-; by rewrite Nat.add_0_r|]. rewrite <- Hsh. by apply Hp.
Qed.

(** The statement of a request is older than a new one. *)
Lemma execute_new q p w rep w' : inv true ∅ ∅ w -> execute zend_hash depth have_custom_type answer q p EndAnswered w = Some (rep, w') ->
  forall m r, rep = Returned m -> objects w' !! m = Some (ORows r) -> unread r /\ quiet r w'.
Proof.
  intros Hi E m r -> Hm. unfold execute in E. destruct (get_result (answer q p)) as [rows l|rc|rc|]; [|done..]. destruct (has_more_pages (answer q p)).
  - injection E as <- <-. cbn in Hm. rewrite lookup_insert_eq in Hm. injection Hm as <-. split; [done|]. intros c cf s Ec Es [= <-]. cbn in Ec.
    destruct (i_future_shape _ _ _ _ _ _ _ _ Hi c cf Ec) as (_ & F2 & _). destruct (F2 _ Es) as (st & Est & _). destruct (fresh_none _ _ _ _ _ _ _ _ Hi) as (_ & _ & _ & F). congruence.
  - injection E as <- <-. cbn in Hm. rewrite lookup_insert_eq in Hm. injection Hm as <-. done.
Qed.

(** ** Claims *)

Lemma no_handles {A} (m : gmap nat A) : handles m = ∅ -> m = ∅.
Proof. intros H. apply map_eq. intros k. rewrite lookup_empty. destruct (m !! k) as [a|] eqn:E; [|done]. assert (k ∈ handles m) as Hk by (by apply handles_elem; eexists). rewrite H in Hk. by apply gmultiset_elem_of_empty in Hk. Qed.

Lemma no_objects f (w : world) : objects w = ∅ -> total f w = ∅.
Proof. intros ->. apply map_fold_empty. Qed.

(** C3: paging is memory safe, in every history.  Whatever calls are made on the [Rows], [FutureRows] and
    [FutureValue] objects of any number of queries, in whatever order, with whatever answers that can be decoded without a fault ([sound_answers]), failures
    and timeouts, and whenever objects are freed: nothing that was freed is used, no result is freed twice, no
    field is read that was not set, and [nextPage] never meets a future of the wrong class.  Every
    result of the driver is in one field of one object, every future too, and the references to a statement
    are the objects that hold it; once no object is left, neither is a result, a future or a
    reference. *)
Theorem paging_safe w : reachable w ->
  (forall l, step l w <> Faulted /\ forall rep w', step l w = Stepped rep w' -> rep <> Threw UnexpectedFuture) /\
  total slots w = handles (results w) /\ total future_of w = handles (futures w) /\ (forall s, multiplicity s (total statement_of w) = refs_at (statements w) s) /\
  (objects w = ∅ -> results w = ∅ /\ futures w = ∅ /\ forall s, refs_at (statements w) s = 0%nat).
Proof using Hanswer.
  intros Hr. pose proof (paging_reachable_inv zend_hash depth have_custom_type answer Hanswer w Hr) as Hi. pose proof (i_results _ _ _ _ _ _ _ _ Hi) as Er. rewrite multiset_none in Er.
  assert (forall s, multiplicity s (total statement_of w) = refs_at (statements w) s) as Es by (intros s; rewrite <- (i_statements _ _ _ _ _ _ _ _ Hi s); by rewrite multiset_none).
  pose proof (i_futures _ _ _ _ _ _ _ _ Hi) as Ef. split; [|split; [done|split; [done|split; [done|]]]].
  - intros l. pose proof (step_ok zend_hash depth have_custom_type answer Hanswer false w l Hi ltac:(done)) as H. destruct (step l w) as [| |rep w1]; [by split..|]. split; [done|]. intros rep' w' [= <- <-]. by apply H.
  - intros E. split; [apply no_handles; by rewrite <- Er, no_objects|]. split; [apply no_handles; by rewrite <- Ef, no_objects|]. intros s. by rewrite <- Es, no_objects, multiplicity_empty.
Qed.

(** C2: pages come in order, in every history in which a statement is not given another
    paging state while a request for another page is under way, when decoding the answers does not fault.  What [execute] returns shows page 0 of its query; every [Rows] shows
    a page; one that shows page [n] says exactly whether it is the last one, gives the server's token for the
    next page, and its [nextPage], however often and after whatever else it is called, gives page
    [n + 1], null exactly on the last page, or an error of that request; [nextPageAsync] gives a future of page [n + 1], and
    [get] of a future that asks for page [n] gives page [n]. *)
Theorem pages_in_order w : calmly_reachable w ->
  (forall q p e, exists rep w', step (Execute q p e) w = Stepped rep w' /\ execute_reply zend_hash depth have_custom_type answer true q p e rep w w') /\
  (forall q p, exists rep w', step (ExecuteAsync q p) w = Stepped rep w' /\ new_request zend_hash depth have_custom_type answer q p rep w') /\
  (forall o r, objects w !! o = Some (ORows r) -> exists q p n, shows w r q p n) /\
  (forall o r q p n, objects w !! o = Some (ORows r) -> shows w r q p n ->
     Rows_isLastPage r = negb (has_more_pages (page q p n)) /\
     Rows_pagingStateToken r w = Some (if has_more_pages (page q p n) then Some (result_paging_state (page q p n)) else None) /\
     (forall e, calm (NextPage o e) w = true -> exists rep w', step (NextPage o e) w = Stepped rep w' /\
        match rep with
        | Returned m => has_more_pages (page q p n) = true /\ exists r', objects w' !! m = Some (ORows r') /\ shows w' r' q p (S n)
        | ReturnedNull => has_more_pages (page q p n) = false
        | Threw (NotDecoded rc) => has_more_pages (page q p n) = true /\ get_result (page q p (S n)) = Failure rc
        | Threw _ => has_more_pages (page q p n) = true
        end) /\
     (calm (NextPageAsync o) w = true -> exists rep w', step (NextPageAsync o) w = Stepped rep w' /\ async_reply zend_hash depth have_custom_type answer true r rep w' q p n)) /\
  (forall f fr q p n, objects w !! f = Some (OFutureRows fr) -> asks w fr q p n ->
     exists rep w', step (Get f) w = Stepped rep w' /\
       match rep with Returned m => exists r, objects w' !! m = Some (ORows r) /\ shows w' r q p n | ReturnedNull => False | Threw e => e <> UnexpectedFuture end).
Proof using Hanswer.
  intros Hr. pose proof (calmly_reachable_inv zend_hash depth have_custom_type answer Hanswer w Hr) as Hi. split; [|split; [|split; [|split]]].
  - intros q p e. cbn [Paging.step]. destruct (execute_ok zend_hash depth have_custom_type answer Hanswer true w q p e Hi) as (rep & w' & -> & _ & Hrep). by exists rep, w'.
  - intros q p. cbn [Paging.step]. pose proof (executeAsync_ok zend_hash depth have_custom_type answer true w q p Hi) as H. destruct (executeAsync q p w) as [rep w']. destruct H as [_ H]. by exists rep, w'.
  - intros o r Ho. destruct (i_shape _ _ _ _ _ _ _ _ Hi o _ Ho) as (_ & _ & _ & _ & q & p & n & A5 & _). exists q, p, n. by apply A5.
  - intros o r q p n Ho Hs. pose proof (s_more _ _ _ _ _ _ _ _ _ Hs) as Hm. split; [by eapply isLastPage_ok|]. split; [|split].
    + unfold Rows_pagingStateToken. destruct (r_result r) as [h|] eqn:Er; [|destruct (has_more_pages (page q p n)); [destruct (is_Some_None (proj2 Hm eq_refl))|done]].
      destruct (slot_alive _ _ _ _ true ∅ ∅ w Hi o _ h Ho (slot_result r h Er)) as [R HR]. rewrite HR. cbn [mbind option_bind]. rewrite (s_result _ _ _ _ _ _ _ _ _ Hs h R Er HR), (proj1 Hm) by by eexists. done.
    + intros e Hc. cbn [Paging.step]. rewrite Ho. destruct (nextPage_ok zend_hash depth have_custom_type answer Hanswer true w o r e Hi Ho ltac:(done)) as (rep & w' & -> & _ & Hrep). exists rep, w'. split; [done|].
      destruct rep as [m| |[]]; cbn [page_reply] in Hrep; try (by apply Hm); try done.
      * destruct Hrep as (Hr' & r' & Hm' & Hs'). split; [by apply Hm|]. exists r'. split; [done|by apply Hs'].
      * destruct Hrep as [Hn _]. destruct (has_more_pages (page q p n)); [|done]. pose proof (proj2 Hm eq_refl) as Hn'. rewrite Hn in Hn'. by destruct (is_Some_None Hn').
      * destruct Hrep as [Hr' He]. split; [by apply Hm|by apply He].
    + intros Hc. cbn [Paging.step]. rewrite Ho. destruct (nextPageAsync_ok zend_hash depth have_custom_type answer true w o r q p n Hi Ho ltac:(done) ltac:(done)) as (rep & w' & -> & _ & Hrep). by exists rep, w'.
  - intros f fr q p n Hf Ha. cbn [Paging.step]. rewrite Hf. destruct (FutureRows_get_ok zend_hash depth have_custom_type answer true w f fr Hi Hf) as (rep & w' & -> & _ & Hrep). exists rep, w'. split; [done|].
    destruct rep as [m| |e]; cbn [get_reply] in Hrep; [|done|done]. destruct Hrep as (r & Hm & Hs). exists r. split; [done|by apply Hs].
Qed.

(** C5: the loop of the guide reads a whole result.  When the server has [k + 1] pages for a query and all
    can be decoded, [execute] and then [nextPage] until [isLastPage] gives their rows, every page once and in
    order, after [k] calls of [nextPage] and whatever was done before; each page is freed when the next one is there. *)
Theorem guide_loop_reads_every_page q p k w : calmly_reachable w ->
  (forall i, (i < k)%nat -> has_more_pages (page q p i) = true) -> has_more_pages (page q p k) = false -> (forall i, (i <= k)%nat -> exists rows l, get_result (page q p i) = Success rows l) ->
  exists pages w', execute_and_read (S k) q p w = Some (pages, w') /\ length pages = S k /\ forall i rows, pages !! i = Some rows -> exists l, get_result (page q p i) = Success rows l.
Proof using Hanswer.
  intros Hr Hmore Hlast Hdec. pose proof (calmly_reachable_inv zend_hash depth have_custom_type answer Hanswer w Hr) as Hi. unfold execute_and_read.
  destruct (execute_ok zend_hash depth have_custom_type answer Hanswer true w q p EndAnswered Hi) as (rep & w1 & E & Hi1 & Hrep). rewrite E. cbn [mbind option_bind].
  destruct rep as [o| |[]]; cbn [execute_reply] in Hrep; try (by destruct Hrep); [|by destruct Hrep as (_ & Hf & _); destruct (Hdec 0%nat ltac:(lia)) as (rows & l & Hd); cbn in Hd; congruence].
  destruct Hrep as (_ & r & Ho & Hs). destruct (execute_new q p w (Returned o) w1 Hi E o r eq_refl Ho) as [Hu Hq].
  destruct (read_pages_ok q p k 0 o r w1 Hi1 Ho Hu Hq (Hs eq_refl) Hmore Hlast Hdec) as (pages & w2 & E2 & _ & Hl & Hp). exists pages, w2. split; [done|]. split; [done|exact Hp].
Qed.
End order.

(** ** A server with three pages *)

Section histories.
Context {G : Gmp} (zend_hash : bytes -> Z) (depth : nat) (have_custom_type : bool) (answer : bytes -> bytes -> CassResult).
Abbreviation step := (Paging.step zend_hash depth have_custom_type answer).

Fixpoint run (ls : list label) (w : world) : option world :=
  match ls with [] => Some w | l :: ls' => match step l w with Stepped _ w' => run ls' w' | _ => None end end.
Fixpoint calm_run (ls : list label) (w : world) : bool :=
  match ls with [] => true | l :: ls' => calm l w && match step l w with Stepped _ w' => calm_run ls' w' | _ => false end end.

Lemma history_reachable ls : forall w w', run ls w = Some w' -> reachable zend_hash depth have_custom_type answer w -> reachable zend_hash depth have_custom_type answer w'.
Proof.
  induction ls as [|l ls IH]; intros w w' E Hr; [by injection E as <-|]. cbn [run] in E. destruct (step l w) as [| |rep w1] eqn:Es; [done|done|]. eapply IH; [exact E|]. by eapply reachable_step.
Qed.

Lemma run_calmly ls : forall w w', run ls w = Some w' -> calm_run ls w = true -> calmly_reachable zend_hash depth have_custom_type answer w -> calmly_reachable zend_hash depth have_custom_type answer w'.
Proof.
  induction ls as [|l ls IH]; intros w w' E Hc Hr; [by injection E as <-|]. cbn [run calm_run] in E, Hc. apply andb_prop in Hc as [Hc Hc']. destruct (step l w) as [| |rep w1] eqn:Es; [done|done|].
  eapply IH; [exact E|exact Hc'|]. by eapply calm_step.
Qed.
End histories.

(** One row with one number per page. *)
Definition numbered (k : Z) : CassResult :=
  let b := encode_int32 1 ++ encode_int32 4 ++ encode_int32 k in
  match decode_rows [(bs "n", DSimple CASS_VALUE_TYPE_INT)] (k <? 2) (if k =? 0 then bs "1" else bs "2") {| mem := b; input := 0; remaining := zlen b; supports_v5 := false; is_null := false |} with
  | Ok r _ => r
  | _ => {| result_columns := []; row_count := 0; first_row := []; row_decoder := {| mem := []; input := 0; remaining := 0; supports_v5 := false; is_null := false |}; has_more_pages := false; result_paging_state := [] |}
  end.
Definition server (q p : bytes) : CassResult := numbered (if bool_decide (p = []) then 0 else if bool_decide (p = bs "1") then 1 else 2).

#[local] Existing Instance GmpModel.gmp.
Abbreviation no_hash := (fun _ : bytes => 0).

Lemma server_sound : sound_answers no_hash 1 false server.
Proof. intros q p. unfold server. case_bool_decide; [by vm_compute|]. case_bool_decide; by vm_compute. Qed.

(** The first page, the second one, and requests of the third. *)
Definition history : list label := [Execute [] [] EndAnswered; NextPage 2 EndAnswered; NextPageAsync 4; Send 5; Resolve 5].
Definition after_history : world := match run no_hash 1 false server history initial with Some w => w | None => initial end.

Lemma history_reached : run no_hash 1 false server history initial = Some after_history /\ calm_run no_hash 1 false server history initial = true.
Proof. split; by vm_compute. Qed.

(** The second page's [nextPageAsync], then the first page's again, before the driver's thread has encoded the first request: that
    request is for the second page, and its future gives the second page in place of the third. *)
Definition overtaken : list label := [Execute [] [] EndAnswered; NextPage 2 EndAnswered; NextPageAsync 4; NextPageAsync 2; Send 5; Resolve 5; Get 6].

Example requests_overtake :
  calm_run no_hash 1 false server overtaken initial = false /\
  match run no_hash 1 false server overtaken initial with
  | Some w => match rows_at 4 w, rows_at 10 w with
              | Some second, Some third => r_future_next_page second = Some 6%nat /\ r_rows third = r_rows second /\ r_rows third = Some [[(AtName (bs "n"), ZLong 1)]]
              | _, _ => False
              end
  | None => False
  end.
Proof. vm_compute. by split_and!. Qed.

Lemma paging_safe_witness :
  (forall l, Paging.step no_hash 1 false server l after_history <> Faulted) /\ total slots after_history = handles (results after_history) /\
  size (objects after_history) = 3%nat /\ refs_at (statements after_history) 0 = 3%nat.
Proof.
  destruct (paging_safe no_hash 1 false server server_sound after_history (history_reachable no_hash 1 false server history initial after_history (proj1 history_reached) (reachable_initial _ _ _ _))) as (H1 & H2 & _).
  split; [intros l; apply H1|]. split; [exact H2|]. split; by vm_compute.
Defined.

Lemma pages_in_order_witness :
  exists r, objects after_history !! 4%nat = Some (ORows r) /\
    exists q p n, shows no_hash 1 false server after_history r q p n /\ Rows_isLastPage r = negb (has_more_pages (page server q p n)) /\
      exists rep w', Paging.step no_hash 1 false server (NextPage 4 EndTimeout) after_history = Stepped rep w' /\ match rep with Returned m => exists r', objects w' !! m = Some (ORows r') /\ shows no_hash 1 false server w' r' q p (S n) | _ => True end.
Proof.
  destruct (pages_in_order no_hash 1 false server server_sound after_history
    (run_calmly no_hash 1 false server history initial after_history (proj1 history_reached) (proj2 history_reached) (calm_initial _ _ _ _))) as (_ & _ & H1 & H2 & _).
  destruct (objects after_history !! 4%nat) as [[r| |]|] eqn:E; try (by vm_compute in E). exists r. split; [done|]. destruct (H1 4%nat r E) as (q & p & n & Hs). exists q, p, n. split; [done|].
  destruct (H2 4%nat r q p n E Hs) as (H3 & _ & H4 & _). split; [done|]. destruct (H4 EndTimeout ltac:(by vm_compute)) as (rep & w' & Es & Hrep). exists rep, w'. split; [done|].
  destruct rep as [m| |]; [|done|done]. by destruct Hrep.
Defined.

Lemma guide_loop_witness :
  exists pages w', execute_and_read no_hash 1 false server 3 (bs "SELECT n") [] initial = Some (pages, w') /\ length pages = 3%nat /\
    forall i rows, pages !! i = Some rows -> exists l, php_scylladb_get_result no_hash 1 false (page server (bs "SELECT n") [] i) = Success rows l.
Proof.
  refine (guide_loop_reads_every_page no_hash 1 false server server_sound (bs "SELECT n") [] 2 initial (calm_initial _ _ _ _) _ _ _).
  - intros [|[|i]] Hi; [by vm_compute..|lia].
  - by vm_compute.
  - intros [|[|[|i]]] Hi; [do 2 eexists; by vm_compute..|lia].
Defined.
