(* ===== verification/ClassNames.v ===== *)
(** Types of columns from the class names of the server's metadata (src/Type/TypeFactory.c):
    the tokenizer, the parser that builds a tree of nodes with parent, child and sibling
    pointers, and the types made from the tree.

    Nodes live in a map from addresses; an access through a null pointer or to a node that is
    not there is a fault.  The tokenizer reads one character before it looks at the length that is left: the
    character behind the name is taken to be readable. *)
From stdpp Require Import gmap.
From S2P Require Import Prelude Types DataTypes.
#[local] Open Scope Z_scope.

(** ** Tokens *)

Inductive token := TOKEN_ILLEGAL | TOKEN_PAREN_OPEN | TOKEN_PAREN_CLOSE | TOKEN_COMMA | TOKEN_COLON | TOKEN_NAME | TOKEN_END.

#[export] Instance token_eq_dec : EqDecision token.
Proof. solve_decision. Defined.

Inductive types_parser_state := STATE_CLASS | STATE_AFTER_CLASS | STATE_AFTER_PARENS.

Definition isalnum (c : Z) : bool := (48 <=? c) && (c <=? 57) || (65 <=? c) && (c <=? 90) || (97 <=? c) && (c <=? 122).
Definition isletter (c : Z) : bool := isalnum c || (c =? 46).

(** The token, its characters and the rest. *)
Definition next_token (s : bytes) : token * bytes * bytes :=
  match s with
  | [] => (TOKEN_END, [], [])
  | c :: rest =>
      if isalnum c then let '(name, rest) := span isletter s in (TOKEN_NAME, name, rest)
      else if c =? 0 then (TOKEN_END, [], s)
      else if c =? 40 then (TOKEN_PAREN_OPEN, [c], rest)
      else if c =? 41 then (TOKEN_PAREN_CLOSE, [c], rest)
      else if c =? 44 then (TOKEN_COMMA, [c], rest)
      else if c =? 58 then (TOKEN_COLON, [c], rest)
      else (TOKEN_ILLEGAL, [c], s)
  end.

(** ** Nodes *)

Record node_s := {
  parent : option nat;
  name : bytes;
  first_child : option nat;
  last_child : option nat;
  next_sibling : option nat;
  prev_sibling : option nat
}.

Abbreviation heap := (gmap nat node_s).

Definition php_scylladb_parse_node_new : node_s := {| parent := None; name := []; first_child := None; last_child := None; next_sibling := None; prev_sibling := None |}.

Definition set_name (s : bytes) (n : node_s) : node_s :=
  {| parent := parent n; name := s; first_child := first_child n; last_child := last_child n; next_sibling := next_sibling n; prev_sibling := prev_sibling n |}.
Definition set_first_child (p : option nat) (n : node_s) : node_s :=
  {| parent := parent n; name := name n; first_child := p; last_child := last_child n; next_sibling := next_sibling n; prev_sibling := prev_sibling n |}.
Definition set_last_child (p : option nat) (n : node_s) : node_s :=
  {| parent := parent n; name := name n; first_child := first_child n; last_child := p; next_sibling := next_sibling n; prev_sibling := prev_sibling n |}.
Definition set_next_sibling (p : option nat) (n : node_s) : node_s :=
  {| parent := parent n; name := name n; first_child := first_child n; last_child := last_child n; next_sibling := p; prev_sibling := prev_sibling n |}.
Definition child_of (p prev : option nat) : node_s := {| parent := p; name := []; first_child := None; last_child := None; next_sibling := None; prev_sibling := prev |}.

(** Reading and writing through a pointer; [None]: a fault. *)
Definition load (p : option nat) (h : heap) : option node_s := i ← p; h !! i.
Definition store (p : option nat) (f : node_s -> node_s) (h : heap) : option heap := i ← p; n ← h !! i; Some (<[i := f n]> h).

Fixpoint php_scylladb_parse_node_free (fuel : nat) (i : nat) (h : heap) : option heap :=
  match fuel with
  | O => None
  | S fuel' =>
      n ← h !! i;
      h ← (match first_child n with
           | Some c => h ← php_scylladb_parse_node_free fuel' c h; store (Some i) (set_first_child None) h
           | None => Some h
           end);
      h ← store (Some i) (set_last_child None) h;
      n ← h !! i;
      h ← (match next_sibling n with
           | Some c => h ← php_scylladb_parse_node_free fuel' c h; store (Some i) (set_next_sibling None) h
           | None => Some h
           end);
      _ ← h !! i;
      Some (delete i h)
  end.

(** ** The parser *)

(** The exceptions, with the position in their message. *)
Inductive parse_error :=
| IllegalCharacter (c : Z) (position : Z)
| Unexpected (t : token) (position : Z) (expected : bytes)
| InvalidType.

Inductive parsed :=
| ParseSuccess (h : heap) (root : nat)
| ParseFailure (e : parse_error) (h : heap)
| ParseFault.

(** What a token does. *)
Inductive turn :=
| Continue (h : heap) (next : nat) (state : types_parser_state) (node : option nat)
| Break (h : heap)
| Fail (e : parse_error) (h : heap).

Section parser.
Context (validator : bytes).

Definition position (rest : bytes) : Z := zlen validator - zlen rest - 1.
Definition EXPECTING_TOKEN (t : token) (rest : bytes) (expected : bytes) (h : heap) : option turn := Some (Fail (Unexpected t (position rest) expected) h).
Definition free_root (next : nat) (h : heap) : option heap := php_scylladb_parse_node_free (S next) 0 h.

(** A new sibling of the node. *)
Definition new_sibling (h : heap) (next : nat) (node : option nat) : option turn :=
  n ← load node h;
  let h := <[next := child_of (parent n) node]> h in
  h ← store node (set_next_sibling (Some next)) h;
  h ← store (parent n) (set_last_child (Some next)) h;
  Some (Continue h (S next) STATE_CLASS (Some next)).

Definition new_child (h : heap) (next : nat) (node : option nat) : option turn :=
  n ← load node h;
  let h := <[next := child_of node (last_child n)]> h in
  h ← (match first_child n with None => store node (set_first_child (Some next)) h | Some _ => Some h end);
  h ← (match last_child n with Some l => store (Some l) (set_next_sibling (Some next)) h | None => Some h end);
  h ← store node (set_last_child (Some next)) h;
  Some (Continue h (S next) STATE_CLASS (Some next)).

Definition turn_after_parens (t : token) (rest : bytes) (h : heap) (next : nat) (node : option nat) : option turn :=
  match t with
  | TOKEN_COMMA =>
      n ← load node h;
      match parent n with
      | None => EXPECTING_TOKEN t rest (bs "end of string") h
      | Some _ => new_sibling h next node
      end
  | TOKEN_PAREN_CLOSE =>
      n ← load node h;
      match parent n with
      | None => EXPECTING_TOKEN t rest (bs "end of string") h
      | Some p => Some (Continue h next STATE_AFTER_PARENS (Some p))
      end
  | TOKEN_END => Some (Break h)
  | _ => EXPECTING_TOKEN t rest (bs "a comma, a closing parenthesis or an end of string") h
  end.

Definition turn_after_class (t : token) (rest : bytes) (h : heap) (next : nat) (node : option nat) : option turn :=
  match t with
  | TOKEN_PAREN_OPEN => new_child h next node
  | TOKEN_COMMA | TOKEN_COLON => new_sibling h next node
  | TOKEN_PAREN_CLOSE => n ← load node h; Some (Continue h next STATE_AFTER_PARENS (parent n))
  | TOKEN_END => Some (Break h)
  | _ => h ← free_root next h; EXPECTING_TOKEN t rest (bs "opening/closing parenthesis or comma") h
  end.

Definition turn_class (t : token) (text rest : bytes) (h : heap) (next : nat) (node : option nat) : option turn :=
  match t with
  | TOKEN_NAME => h ← store node (set_name text) h; Some (Continue h next STATE_AFTER_CLASS node)
  | _ => h ← free_root next h; EXPECTING_TOKEN t rest (bs "fully qualified class name") h
  end.

Definition parse_turn (t : token) (text rest : bytes) (h : heap) (next : nat) (state : types_parser_state) (node : option nat) : option turn :=
  match t with
  | TOKEN_ILLEGAL => h ← free_root next h; Some (Fail (IllegalCharacter (hd 0 text) (position rest)) h)
  | _ =>
      match state with
      | STATE_AFTER_PARENS => turn_after_parens t rest h next node
      | STATE_AFTER_CLASS => turn_after_class t rest h next node
      | STATE_CLASS => turn_class t text rest h next node
      end
  end.

(** Every turn but the last takes a character. *)
Fixpoint parse_loop (fuel : nat) (s : bytes) (h : heap) (next : nat) (state : types_parser_state) (node : option nat) : option parsed :=
  match fuel with
  | O => None
  | S fuel' =>
      let '(t, text, rest) := next_token s in
      match parse_turn t text rest h next state node with
      | None => Some ParseFault
      | Some (Break h) => Some (ParseSuccess h 0)
      | Some (Fail e h) => Some (ParseFailure e h)
      | Some (Continue h next state node) => parse_loop fuel' rest h next state node
      end
  end.

Definition php_scylladb_parse_class_name : option parsed := parse_loop (S (length validator)) validator {[0%nat := php_scylladb_parse_node_new]} 1 STATE_CLASS (Some 0%nat).
End parser.

(** ** Types *)

(** [strncmp]: the first string ends with a null byte. *)
Fixpoint strncmp (s1 s2 : bytes) (n : nat) : Z :=
  match n with
  | O => 0
  | S n' => let c1 := hd 0 s1 in
            let c2 := hd 0 s2 in
            if c1 =? c2 then (if c1 =? 0 then 0 else strncmp (tl s1) (tl s2) n') else c1 - c2
  end.

Definition marshal (s : string) : bytes := bs "org.apache.cassandra.db.marshal." ++ bs s.
Definition named (class nm : bytes) : bool := strncmp class nm (length nm) =? 0.

Definition class_names : list (bytes * Z) :=
  [(marshal "AsciiType", CASS_VALUE_TYPE_ASCII); (marshal "LongType", CASS_VALUE_TYPE_BIGINT); (marshal "ShortType", CASS_VALUE_TYPE_SMALL_INT);
   (marshal "ByteType", CASS_VALUE_TYPE_TINY_INT); (marshal "BytesType", CASS_VALUE_TYPE_BLOB); (marshal "BooleanType", CASS_VALUE_TYPE_BOOLEAN);
   (marshal "CounterColumnType", CASS_VALUE_TYPE_COUNTER); (marshal "DecimalType", CASS_VALUE_TYPE_DECIMAL); (marshal "DurationType", CASS_VALUE_TYPE_DURATION);
   (marshal "DoubleType", CASS_VALUE_TYPE_DOUBLE); (marshal "FloatType", CASS_VALUE_TYPE_FLOAT); (marshal "InetAddressType", CASS_VALUE_TYPE_INET);
   (marshal "Int32Type", CASS_VALUE_TYPE_INT); (marshal "UTF8Type", CASS_VALUE_TYPE_VARCHAR); (marshal "TimestampType", CASS_VALUE_TYPE_TIMESTAMP);
   (marshal "DateType", CASS_VALUE_TYPE_TIMESTAMP); (marshal "SimpleDateType", CASS_VALUE_TYPE_DATE); (marshal "TimeType", CASS_VALUE_TYPE_TIME);
   (marshal "UUIDType", CASS_VALUE_TYPE_UUID); (marshal "IntegerType", CASS_VALUE_TYPE_VARINT); (marshal "TimeUUIDType", CASS_VALUE_TYPE_TIMEUUID);
   (marshal "MapType", CASS_VALUE_TYPE_MAP); (marshal "SetType", CASS_VALUE_TYPE_SET); (marshal "ListType", CASS_VALUE_TYPE_LIST);
   (marshal "TupleType", CASS_VALUE_TYPE_TUPLE); (marshal "UserType", CASS_VALUE_TYPE_UDT)].

Definition php_scylladb_lookup_type (nm : bytes) : Z := match List.find (fun c => named (fst c) nm) class_names with Some c => snd c | None => CASS_VALUE_TYPE_CUSTOM end.

Definition hex_value (c : Z) : Z :=
  if (48 <=? c) && (c <=? 57) then c - 48 else if (65 <=? c) && (c <=? 70) then c - 65 + 10 else if (97 <=? c) && (c <=? 102) then c - 97 + 10 else -1.

Fixpoint php_scylladb_from_hex (hex : bytes) : option bytes :=
  match hex with
  | [] => Some []
  | [_] => None
  | a :: b :: rest =>
      r ← php_scylladb_from_hex rest;
      if (hex_value a <? 0) || (hex_value b <? 0) then None else Some (Z.lor (Z.shiftl (hex_value a) 4) (hex_value b) :: r)
  end.

(** What is read of the nodes: a node is a tree with its name and children, a pointer to it the list of
    it and the siblings behind it; null is the empty list. *)
Inductive tree := Tree (nm : bytes) (kids : list tree).

Fixpoint read_nodes (fuel : nat) (h : heap) (p : option nat) : option (list tree) :=
  match fuel, p with
  | _, None => Some []
  | O, Some _ => None
  | S fuel', Some i =>
      n ← h !! i;
      kids ← read_nodes fuel' h (first_child n);
      siblings ← read_nodes fuel' h (next_sibling n);
      Some (Tree (name n) kids :: siblings)
  end.

(** A type whose parts may be undefined. *)
Inductive created :=
| CUndef
| CScalar (type : Z)
| CCustom (class_name : bytes)
| CCollection (value_type : created)
| CMap (key_type value_type : created)
| CSet (value_type : created)
| CTuple (types : list created)
| CUserType (keyspace type_name : option bytes) (types : list (bytes * created)).

(** [None]: a fault; [true]: an exception was thrown. *)
Definition made (A : Type) : Type := option (A * bool).
Definition made_ret {A} (a : A) : made A := Some (a, false).
Definition made_bind {A B} (m : made A) (f : A -> made B) : made B :=
  match m with Some (a, e) => match f a with Some (b, e') => Some (b, e || e') | None => None end | None => None end.

Fixpoint php_scylladb_node_dump_to (t : tree) (siblings : bytes) : bytes :=
  match t with
  | Tree nm kids =>
      let dump_list := fix go (l : list tree) : bytes :=
        match l with [] => [] | k :: ks => php_scylladb_node_dump_to k (match ks with [] => [] | _ => bs ", " ++ go ks end) end in
      nm ++ (match kids with [] => [] | _ => bs "(" ++ dump_list kids ++ bs ")" end) ++ siblings
  end.
Definition dump_nodes : list tree -> bytes :=
  fix go (l : list tree) : bytes := match l with [] => [] | k :: ks => php_scylladb_node_dump_to k (match ks with [] => [] | _ => bs ", " ++ go ks end) end.

Definition is_wrapper (nm : bytes) : bool := named (marshal "FrozenType") nm || named (marshal "ReversedType") nm || named (marshal "CompositeType") nm.

(** [zend_hash_add]: nothing is added under a name that is there. *)
Definition field_add (nm : bytes) (t : created) (l : list (bytes * created)) : list (bytes * created) := if existsb (fun f => bool_decide (fst f = nm)) l then l else l ++ [(nm, t)].

Section create_type.
Context (have_custom_type : bool).

Definition php_scylladb_type_custom (nm : bytes) : made created := if have_custom_type then made_ret (CCustom nm) else Some (CUndef, true).

(** [php_scylladb_type_tuple_add], [php_scylladb_type_user_type_add]: the sub-type is read. *)
Definition defined (t : created) : bool := match t with CUndef => false | _ => true end.

Section nodes.
Context (create : tree -> list tree -> made created).

Definition create_pointer (l : list tree) : made created := match l with [] => made_ret CUndef | t :: siblings => create t siblings end.

Fixpoint tuple_from (l : list tree) (types : list created) : made (list created) :=
  match l with
  | [] => made_ret types
  | k :: ks => made_bind (create k ks) (fun t => if defined t then tuple_from ks (types ++ [t]) else None)
  end.

Fixpoint fields_from (l : list tree) (types : list (bytes * created)) : made (list (bytes * created)) :=
  match l with
  | [] => made_ret types
  | Tree nm _ :: rest =>
      match php_scylladb_from_hex nm, rest with
      | Some _, [] => made_ret types
      | None, [] => None
      | field, v :: rest' =>
          made_bind (create v rest') (fun t => match field with
                                               | Some field => if defined t then fields_from rest' (field_add field t types) else None
                                               | None => None
                                               end)
      end
  end.

Definition php_scylladb_user_type_from_node (kids : list tree) : made created :=
  match kids with
  | [] => made_ret (CUserType None None [])
  | [Tree ks _] => made_ret (CUserType (Some ks) None [])
  | Tree ks _ :: Tree n _ :: rest => made_bind (fields_from rest []) (fun l => made_ret (CUserType (Some ks) (php_scylladb_from_hex n) l))
  end.
End nodes.

Fixpoint create_node (t : tree) (siblings : list tree) {struct t} : made created :=
  match t with
  | Tree nm kids =>
      if is_wrapper nm then match kids with [] => made_ret CUndef | k :: ks => create_node k ks end
      else
        let type := php_scylladb_lookup_type nm in
        if type =? CASS_VALUE_TYPE_CUSTOM then php_scylladb_type_custom (dump_nodes (t :: siblings))
        else if type =? CASS_VALUE_TYPE_MAP then
          match kids with
          | [] => made_ret (CMap CUndef CUndef)
          | k :: ks => made_bind (create_node k ks) (fun key_type =>
                       made_bind (match ks with [] => made_ret CUndef | v :: vs => create_node v vs end) (fun value_type => made_ret (CMap key_type value_type)))
          end
        else if type =? CASS_VALUE_TYPE_LIST then
          match kids with [] => made_ret (CCollection CUndef) | k :: ks => made_bind (create_node k ks) (fun v => made_ret (CCollection v)) end
        else if type =? CASS_VALUE_TYPE_SET then
          match kids with [] => made_ret (CSet CUndef) | k :: ks => made_bind (create_node k ks) (fun v => made_ret (CSet v)) end
        else if type =? CASS_VALUE_TYPE_TUPLE then
          made_bind (tuple_from create_node kids []) (fun l => made_ret (CTuple l))
        else if type =? CASS_VALUE_TYPE_UDT then
          php_scylladb_user_type_from_node create_node kids
        else made_ret (CScalar type)
  end.

Definition php_scylladb_create_type (l : list tree) : made created := create_pointer create_node l.
End create_type.

(** ** php_scylladb_parse_column_type *)

(** The wrappers: whether the column is reversed and frozen, and the node behind them. *)
Fixpoint unwrap (reversed frozen : bool) (t : tree) (siblings : list tree) : bool * bool * list tree :=
  match t with
  | Tree nm kids =>
      let next reversed frozen := match kids with [] => (reversed, frozen, []) | k :: ks => unwrap reversed frozen k ks end in
      if named (marshal "ReversedType") nm then next true frozen
      else if named (marshal "FrozenType") nm then next reversed true
      else if named (marshal "CompositeType") nm then next reversed frozen
      else (reversed, frozen, t :: siblings)
  end.

(** A type, with whether an exception is pending; an exception, with the nodes that are left; or a fault. *)
Inductive column_type :=
| ColumnType (reversed frozen : bool) (type : created) (pending : bool) (h : heap)
| ColumnFailure (e : parse_error) (h : heap)
| ColumnFault.

Definition php_scylladb_parse_column_type (have_custom_type : bool) (validator : bytes) : column_type :=
  match php_scylladb_parse_class_name validator with
  | Some (ParseSuccess h root) =>
      match read_nodes (S (size h)) h (Some root), php_scylladb_parse_node_free (S (size h)) root h with
      | Some (t :: siblings), Some freed =>
          let '(reversed, frozen, node) := unwrap false false t siblings in
          match node with
          | [] => ColumnFailure InvalidType freed
          | _ => match php_scylladb_create_type have_custom_type node with
                 | Some (type, pending) => ColumnType reversed frozen type pending freed
                 | None => ColumnFault
                 end
          end
      | _, _ => ColumnFault
      end
  | Some (ParseFailure e h) => ColumnFailure e h
  | _ => ColumnFault
  end.
