(* ===== verification/ClassNameTrees.v ===== *)
(** The parser of class names ([ClassNames]) implements a machine over trees: what its nodes hold at every moment,
    that it neither loses nor leaks them, and exactly where it faults. *)
From stdpp Require Import gmap.
From S2P Require Import Prelude Types DataTypes ClassNames.
#[local] Open Scope Z_scope.

(** ** Trees in memory

    The parser allocates the nodes of a tree in the order of their names in the text, so that a
    tree of [n] nodes at [i] is at [i], ..., [i + n - 1]. *)

Fixpoint tree_size (t : tree) : nat := match t with Tree _ kids => S (list_sum (map tree_size kids)) end.
Definition forest_size (ts : list tree) : nat := list_sum (map tree_size ts).

Definition first_of (ts : list tree) (i : nat) : option nat := match ts with [] => None | _ => Some i end.
Definition or_next (ts : list tree) (i : nat) (next : option nat) : option nat := match ts with [] => next | _ => Some i end.

Fixpoint tree_at (h : heap) (i : nat) (t : tree) (next : option nat) {struct t} : Prop :=
  match t with
  | Tree nm kids =>
      (exists n, h !! i = Some n /\ name n = nm /\ first_child n = first_of kids (S i) /\ next_sibling n = next) /\
      (fix go (j : nat) (ts : list tree) : Prop :=
         match ts with
         | [] => True
         | t' :: ts' => tree_at h j t' (or_next ts' (j + tree_size t') None) /\ go (j + tree_size t')%nat ts'
         end) (S i) kids
  end.

Fixpoint forest_at (h : heap) (j : nat) (ts : list tree) (next : option nat) : Prop :=
  match ts with
  | [] => True
  | t :: ts' => tree_at h j t (or_next ts' (j + tree_size t) next) /\ forest_at h (j + tree_size t)%nat ts' next
  end.

Lemma tree_at_eq h i nm kids next : tree_at h i (Tree nm kids) next <->
  (exists n, h !! i = Some n /\ name n = nm /\ first_child n = first_of kids (S i) /\ next_sibling n = next) /\ forest_at h (S i) kids None.
Proof.
  cbn [tree_at]. assert (forall j, (fix go (j : nat) (ts : list tree) : Prop := match ts with [] => True | t' :: ts' => tree_at h j t' (or_next ts' (j + tree_size t') None) /\ go (j + tree_size t')%nat ts' end) j kids
    <-> forest_at h j kids None) as ->; [|done]. induction kids as [|k kids IH]; intros j; [done|]. cbn [forest_at]. by rewrite IH.
Qed.

Lemma forest_size_cons nm kids ts : forest_size (Tree nm kids :: ts) = S (forest_size kids + forest_size ts).
Proof. done. Qed.

Lemma forest_size_app ts us : forest_size (ts ++ us) = (forest_size ts + forest_size us)%nat.
Proof. unfold forest_size. rewrite map_app, list_sum_app. done. Qed.

(** The induction that follows the pointers. *)
Lemma forest_ind (P : list tree -> Prop) : P [] -> (forall nm kids ts, P kids -> P ts -> P (Tree nm kids :: ts)) -> forall ts, P ts.
Proof.
  intros H0 H1 ts. remember (forest_size ts) as n eqn:E. assert (forest_size ts <= n)%nat as H by lia. clear E. revert ts H.
  induction n as [|n IH]; intros [|[nm kids] ts] H; [done|cbn in H; lia|done|]. rewrite forest_size_cons in H. apply H1; apply IH; lia.
Qed.

Lemma forest_frame h h' ts : forall j next, (forall k, (j <= k < j + forest_size ts)%nat -> h' !! k = h !! k) -> forest_at h j ts next -> forest_at h' j ts next.
Proof.
  induction ts as [|nm kids ts IH1 IH2] using forest_ind; intros j next Hk H; [done|]. cbn [forest_at] in *. rewrite tree_at_eq in *. rewrite forest_size_cons in Hk.
  destruct H as [[(n & E & Hn) Hf] Ht]. cbn [tree_size] in *. fold (forest_size kids) in *. split; [split|].
  - exists n. split; [|done]. rewrite Hk; [done|lia].
  - apply IH1; [|done]. intros k Hl. apply Hk. lia.
  - apply IH2; [|done]. intros k Hl. apply Hk. lia.
Qed.

Lemma forest_snoc h ts t next : forall j, forest_at h j (ts ++ [t]) next <-> forest_at h j ts (Some (j + forest_size ts)%nat) /\ tree_at h (j + forest_size ts) t next.
Proof.
  induction ts as [|u ts IH]; intros j; cbn [app forest_at].
  - change (forest_size []) with 0%nat. cbn [or_next]. rewrite Nat.add_0_r. tauto.
  - rewrite IH. change (forest_size (u :: ts)) with (tree_size u + forest_size ts)%nat. rewrite Nat.add_assoc. replace (or_next (ts ++ [t]) (j + tree_size u) next) with (or_next ts (j + tree_size u) (Some (j + tree_size u + forest_size ts)%nat)); [tauto|].
    destruct ts; [|done]. cbn. f_equal. lia.
Qed.

(** Reading and freeing a forest. *)
Lemma read_forest h ts : forall fuel j, (forest_size ts <= fuel)%nat -> forest_at h j ts None -> read_nodes fuel h (first_of ts j) = Some ts.
Proof.
  induction ts as [|nm kids ts IH1 IH2] using forest_ind; intros fuel j Hf H; [by destruct fuel|]. rewrite forest_size_cons in Hf. destruct fuel as [|fuel]; [lia|].
  cbn [forest_at] in H. rewrite tree_at_eq in H. destruct H as [[(n & E & <- & Hc & Hs) Hk] Ht]. cbn [first_of read_nodes]. rewrite E. cbn [mbind option_bind]. rewrite Hc, Hs, IH1 by (done || lia). cbn [mbind option_bind].
  replace (or_next ts (j + tree_size (Tree (name n) kids)) None) with (first_of ts (j + tree_size (Tree (name n) kids))) by done. rewrite IH2 by (done || lia). done.
Qed.

Lemma store_at i f n (h : heap) : h !! i = Some n -> store (Some i) f h = Some (<[i := f n]> h).
Proof. intros E. unfold store. cbn. by rewrite E. Qed.

Lemma free_forest ts : forall fuel j h, (forest_size ts <= fuel)%nat -> forest_at h j ts None ->
  match first_of ts j with
  | None => True
  | Some i => exists h', php_scylladb_parse_node_free fuel i h = Some h' /\ forall k, h' !! k = if decide (j <= k < j + forest_size ts)%nat then None else h !! k
  end.
Proof.
  induction ts as [|nm kids ts IH1 IH2] using forest_ind; intros fuel j h Hf H; [done|]. rewrite forest_size_cons in *. destruct fuel as [|fuel]; [lia|].
  cbn [forest_at] in H. rewrite tree_at_eq in H. destruct H as [[(n & E & <- & Hc & Hs) Hk] Ht]. cbn [tree_size] in *. fold (forest_size kids) in *. cbn [first_of php_scylladb_parse_node_free]. rewrite E. cbn [mbind option_bind].
  assert (exists h1, (match first_child n with Some c => h ← php_scylladb_parse_node_free fuel c h; store (Some j) (set_first_child None) h | None => Some h end) = Some h1 /\
            (exists n1, h1 !! j = Some n1 /\ next_sibling n1 = next_sibling n) /\ forall k, k <> j -> h1 !! k = if decide (S j <= k < S j + forest_size kids)%nat then None else h !! k) as (h1 & -> & (n1 & En1 & Hn1) & H1).
  { rewrite Hc. specialize (IH1 fuel (S j) h ltac:(lia) Hk). destruct kids as [|k0 kids]; cbn [first_of] in *.
    - exists h. split; [done|]. split; [by exists n|]. intros k Hne. destruct (decide _) as [Hd|]; [|done]. change (forest_size []) with 0%nat in Hd. lia.
    - destruct IH1 as (h1 & -> & H1). cbn [mbind option_bind store]. rewrite H1, decide_False by lia. rewrite E. cbn [mbind option_bind]. exists (<[j := set_first_child None n]> h1). split; [done|].
      split; [eexists; split; [apply lookup_insert_eq|done]|]. intros k Hne. rewrite lookup_insert_ne by done. apply H1. }
  cbn [mbind option_bind]. rewrite (store_at _ _ _ _ En1). cbn [mbind option_bind]. rewrite lookup_insert_eq. cbn [mbind option_bind]. cbn [set_last_child next_sibling]. rewrite Hn1, Hs.
  set (h2 := <[j := set_last_child None n1]> h1). assert (forall k, k <> j -> h2 !! k = if decide (S j <= k < S j + forest_size kids)%nat then None else h !! k) as H2 by (intros k Hne; unfold h2; rewrite lookup_insert_ne by done; by apply H1).
  assert (is_Some (h2 !! j)) as Hj2 by (unfold h2; by rewrite lookup_insert_eq).
  assert (forest_at h2 (j + S (forest_size kids)) ts None) as Ht2. { eapply forest_frame; [|exact Ht]. intros k Hl. rewrite H2, decide_False by lia. done. }
  assert (exists h3, (match or_next ts (j + S (forest_size kids)) None with Some c => h ← php_scylladb_parse_node_free fuel c h2; store (Some j) (set_next_sibling None) h | None => Some h2 end) = Some h3 /\
            is_Some (h3 !! j) /\ forall k, k <> j -> h3 !! k = if decide (S j <= k < S j + forest_size kids + forest_size ts)%nat then None else h !! k) as (h3 & E3 & (n3 & En3) & H3).
  { specialize (IH2 fuel (j + S (forest_size kids))%nat h2 ltac:(lia) Ht2). destruct ts as [|t0 ts]; cbn [or_next first_of] in *.
    - exists h2. split; [done|]. split; [done|]. intros k Hne. rewrite H2 by done. change (forest_size []) with 0%nat. by rewrite Nat.add_0_r.
    - destruct IH2 as (h3 & -> & H3). destruct Hj2 as [n2 En2]. cbn [mbind option_bind store]. rewrite H3, decide_False, En2 by lia. cbn [mbind option_bind]. exists (<[j := set_next_sibling None n2]> h3). split; [done|]. split; [by rewrite lookup_insert_eq|].
      intros k Hne. rewrite lookup_insert_ne by done. rewrite H3. destruct (decide (j + S (forest_size kids) <= k < _)%nat); [by rewrite decide_True by lia|]. rewrite H2 by done.
      destruct (decide (S j <= k < S j + forest_size kids)%nat); [by rewrite decide_True by lia|by rewrite decide_False by lia]. }
  fold h2. rewrite E3. cbn [mbind option_bind]. rewrite En3. cbn [mbind option_bind]. eexists. split; [done|]. intros k. destruct (decide (k = j)) as [->|Hne].
  - rewrite lookup_delete_eq, decide_True by lia. done.
  - rewrite lookup_delete_ne, H3 by done. destruct (decide (S j <= k < _)%nat); [by rewrite decide_True by lia|by rewrite decide_False by lia].
Qed.

(** ** The node the parser is at

    [up]: the names of its ancestors, the nearest first, each with the trees that are finished before the node. *)

Abbreviation ancestors := (list (bytes * list tree)).

Fixpoint pos (up : ancestors) : nat := match up with [] => 0 | (_, lefts) :: up' => S (pos up') + forest_size lefts end.
Definition parent_of (up : ancestors) : option nat := match up with [] => None | _ :: up' => Some (pos up') end.

Fixpoint up_at (h : heap) (up : ancestors) : Prop :=
  match up with
  | [] => True
  | (nm, lefts) :: up' =>
      (exists n, h !! pos up' = Some n /\ name n = nm /\ parent n = parent_of up' /\ first_child n = Some (S (pos up')) /\ last_child n = Some (pos up) /\ next_sibling n = None) /\
      forest_at h (S (pos up')) lefts (Some (pos up)) /\ up_at h up'
  end.

Record here (h : heap) (up : ancestors) (nm : bytes) (kids : list tree) : Prop := {
  h_node : exists n, h !! pos up = Some n /\ name n = nm /\ parent n = parent_of up /\ first_child n = first_of kids (S (pos up)) /\ (kids = [] -> last_child n = None) /\ next_sibling n = None;
  h_kids : forest_at h (S (pos up)) kids None;
  h_up : up_at h up;
  h_domain : forall k, is_Some (h !! k) <-> (k < pos up + S (forest_size kids))%nat
}.

Lemma pos_cons nm lefts up : pos ((nm, lefts) :: up) = (S (pos up) + forest_size lefts)%nat.
Proof. done. Qed.

Lemma up_frame h h' up : (forall k, (k < pos up)%nat -> h' !! k = h !! k) -> up_at h up -> up_at h' up.
Proof.
  induction up as [|[nm lefts] up IH]; intros Hk H; [done|]. rewrite pos_cons in Hk. destruct H as ((n & E & Hn) & Hf & Hu). split; [|split].
  - exists n. split; [|done]. rewrite Hk; [done|lia].
  - eapply forest_frame; [|exact Hf]. intros k Hl. apply Hk. lia.
  - apply IH; [|done]. intros k Hl. apply Hk. lia.
Qed.

Definition plug (up : ancestors) (t : tree) : tree := foldl (fun t f => Tree (fst f) (snd f ++ [t])) t up.

Lemma here_close h nm lefts up nm' kids : here h ((nm, lefts) :: up) nm' kids -> here h up nm (lefts ++ [Tree nm' kids]).
Proof.
  intros [(n & E & Hn & Hp & Hc & _ & Hs) Hk ((np & Ep & Hnp & Hpp & Hcp & _ & Hsp) & Hf & Hu) Hd]. rewrite pos_cons in *. split.
  - exists np. split; [done|]. split; [done|]. split; [done|]. split; [by destruct lefts|]. split; [by destruct lefts|done].
  - rewrite forest_snoc, tree_at_eq. split; [done|]. split; [|done]. exists n. by split.
  - done.
  - intros k. rewrite Hd, forest_size_app. cbn. fold (forest_size kids). lia.
Qed.

(** The whole tree. *)
Definition whole (h : heap) (t : tree) : Prop := forest_at h 0 [t] None /\ forall k, is_Some (h !! k) <-> (k < tree_size t)%nat.

Lemma here_whole h up : forall nm kids, here h up nm kids -> whole h (plug up (Tree nm kids)).
Proof.
  induction up as [|[nm lefts] up IH]; intros nm' kids H; [|by apply here_close, IH in H]. destruct H as [(n & E & Hn & _ & Hc & _ & Hs) Hk _ Hd]. split.
  - cbn [plug foldl forest_at or_next]. rewrite tree_at_eq. split; [|done]. split; [|done]. by exists n.
  - exact Hd.
Qed.

Lemma whole_size h t : whole h t -> size h = tree_size t.
Proof.
  intros [_ Hd]. rewrite <- size_dom. replace (dom h) with (set_seq 0 (tree_size t) : gset nat); [by rewrite size_set_seq|].
  apply set_eq. intros k. rewrite elem_of_set_seq, elem_of_dom, Hd. lia.
Qed.

Lemma whole_freed h t fuel : whole h t -> (tree_size t <= fuel)%nat -> php_scylladb_parse_node_free fuel 0 h = Some ∅.
Proof.
  intros [Hf Hd] Hl. destruct (free_forest [t] fuel 0 h) as (h' & -> & H'); [cbn; lia|done|]. f_equal. apply map_eq. intros k. rewrite H', lookup_empty. destruct (decide _) as [|Hn]; [done|].
  destruct (h !! k) eqn:E; [|done]. destruct Hn. cbn. rewrite Nat.add_0_r. split; [lia|]. apply Hd. by eexists.
Qed.

Lemma whole_read h t fuel : whole h t -> (tree_size t <= fuel)%nat -> read_nodes fuel h (Some 0%nat) = Some [t].
Proof. intros [Hf _] Hl. apply (read_forest h [t]); [cbn; lia|done]. Qed.

(** ** The parts of a turn *)

Lemma here_at h up nm kids : here h up nm kids -> exists n, load (Some (pos up)) h = Some n /\ h !! pos up = Some n /\ name n = nm /\ parent n = parent_of up /\
  first_child n = first_of kids (S (pos up)) /\ (kids = [] -> last_child n = None) /\ next_sibling n = None.
Proof. intros [(n & E & H) _ _ _]. exists n. split; [exact E|]. by split. Qed.

Lemma here_name h up nm : here h up [] [] -> exists h', store (Some (pos up)) (set_name nm) h = Some h' /\ here h' up nm [].
Proof.
  intros H. destruct (here_at _ _ _ _ H) as (n & _ & E & _ & Hp & Hc & Hl & Hs). destruct H as [_ _ Hu Hd]. eexists. split; [by apply store_at|]. split.
  - eexists. split; [apply lookup_insert_eq|]. done.
  - done.
  - eapply up_frame; [|exact Hu]. intros k Hk. apply lookup_insert_ne. lia.
  - intros k. rewrite <- Hd. destruct (decide (pos up = k)) as [<-|]; [rewrite lookup_insert_eq, E; split; intros _; by eexists|by rewrite lookup_insert_ne].
Qed.

Lemma new_child_ok h up nm : here h up nm [] ->
  exists h', new_child h (S (pos up)) (Some (pos up)) = Some (Continue h' (S (S (pos up))) STATE_CLASS (Some (S (pos up)))) /\ here h' ((nm, []) :: up) [] [].
Proof.
  intros H. destruct (here_at _ _ _ _ H) as (n & El & E & Hn & Hp & Hc & Hl & Hs). destruct H as [_ _ Hu Hd]. cbn [first_of] in Hc. specialize (Hl eq_refl).
  unfold new_child. rewrite El. cbn [mbind option_bind]. rewrite Hc, Hl. rewrite (store_at _ _ n) by (rewrite lookup_insert_ne by lia; exact E). cbn [mbind option_bind].
  rewrite (store_at _ _ (set_first_child (Some (S (pos up))) n)) by apply lookup_insert_eq. cbn [mbind option_bind]. rewrite insert_insert_eq. eexists. split; [done|].
  set (h' := <[_ := _]> _). assert (h' !! pos up = Some (set_last_child (Some (S (pos up))) (set_first_child (Some (S (pos up))) n))) as E' by apply lookup_insert_eq.
  assert (h' !! S (pos up) = Some (child_of (Some (pos up)) None)) as Ec by (unfold h'; rewrite lookup_insert_ne by lia; apply lookup_insert_eq).
  assert (forall k, k <> pos up -> k <> S (pos up) -> h' !! k = h !! k) as Hk by (intros k H1 H2; unfold h'; by rewrite !lookup_insert_ne).
  assert (pos ((nm, []) :: up) = S (pos up)) as Epos by (rewrite pos_cons; change (forest_size []) with 0%nat; lia). split.
  - rewrite Epos. eexists. split; [exact Ec|]. done.
  - done.
  - cbn [up_at]. rewrite Epos. split; [|split; [done|]].
    + eexists. split; [exact E'|]. done.
    + eapply up_frame; [|exact Hu]. intros k Hl'. apply Hk; lia.
  - intros k. rewrite Epos. change (forest_size []) with 0%nat in *. destruct (decide (k = pos up)) as [->|]; [rewrite E'; split; [lia|by eexists]|].
    destruct (decide (k = S (pos up))) as [->|]; [rewrite Ec; split; [lia|by eexists]|]. rewrite Hk, Hd by done. lia.
Qed.

Lemma new_sibling_ok h nm lefts up nm' kids : here h ((nm, lefts) :: up) nm' kids -> let c := pos ((nm, lefts) :: up) in let next := (c + S (forest_size kids))%nat in
  exists h', new_sibling h next (Some c) = Some (Continue h' (S next) STATE_CLASS (Some next)) /\ here h' ((nm, lefts ++ [Tree nm' kids]) :: up) [] [].
Proof.
  intros H c next. destruct (here_at _ _ _ _ H) as (n & El & E & Hn & Hp & Hc & _ & Hs). fold c in El, E, Hc. cbn [parent_of] in Hp.
  destruct H as [_ Hk ((np & Ep & Hnp & Hpp & Hcp & Hlp & Hsp) & Hf & Hu) Hd]. set (p := pos up) in *. assert (c = (S p + forest_size lefts)%nat) as Ec by apply pos_cons.
  assert (pos ((nm, lefts ++ [Tree nm' kids]) :: up) = next) as Epos. { rewrite pos_cons, forest_size_app. cbn. fold (forest_size kids). fold p. unfold next. lia. }
  unfold new_sibling. rewrite El. cbn [mbind option_bind]. rewrite (store_at _ _ n) by (rewrite lookup_insert_ne by lia; exact E). cbn [mbind option_bind]. rewrite Hp.
  rewrite (store_at _ _ np) by (rewrite !lookup_insert_ne by lia; exact Ep). cbn [mbind option_bind]. eexists. split; [done|]. set (h' := <[_ := _]> _).
  assert (h' !! p = Some (set_last_child (Some next) np)) as Ep' by apply lookup_insert_eq.
  assert (h' !! c = Some (set_next_sibling (Some next) n)) as Ec' by (unfold h'; rewrite lookup_insert_ne by lia; apply lookup_insert_eq).
  assert (h' !! next = Some (child_of (Some p) (Some c))) as En' by (unfold h'; rewrite !lookup_insert_ne by lia; apply lookup_insert_eq).
  assert (forall k, k <> p -> k <> c -> k <> next -> h' !! k = h !! k) as Hk' by (intros k H1 H2 H3; unfold h'; by rewrite !lookup_insert_ne).
  split.
  - rewrite Epos. eexists. split; [exact En'|]. done.
  - done.
  - cbn [up_at]. fold p. rewrite Epos. split; [|split].
    + eexists. split; [exact Ep'|]. done.
    + rewrite forest_snoc, tree_at_eq, <- Ec. split; [|split].
      * eapply forest_frame; [|exact Hf]. intros k Hl. apply Hk'; lia.
      * eexists. split; [exact Ec'|]. done.
      * eapply forest_frame; [|exact Hk]. intros k Hl. apply Hk'; lia.
    + eapply up_frame; [|exact Hu]. intros k Hl. apply Hk'; lia.
  - intros k. rewrite Epos. change (forest_size []) with 0%nat. fold c in Hd. destruct (decide (k = p)) as [->|]; [rewrite Ep'; split; [lia|by eexists]|].
    destruct (decide (k = c)) as [->|]; [rewrite Ec'; split; [lia|by eexists]|]. destruct (decide (k = next)) as [->|]; [rewrite En'; split; [lia|by eexists]|]. rewrite Hk', Hd by done. lia.
Qed.

(** ** The machine over trees *)

(** Before a name, behind it, behind a closing parenthesis, and behind one that nothing opened. *)
Inductive machine :=
| BeforeName (up : ancestors)
| AfterName (up : ancestors) (nm : bytes)
| AfterParens (up : ancestors) (nm : bytes) (kids : list tree)
| Lost (nm : bytes).

(** [Refused (Some t)]: the nodes of [t] are left behind. *)
Inductive verdict := Going (m : machine) | Accepted (t : tree) | Refused (left : option tree) | Broken.

Definition sibling (up : ancestors) (t : tree) (otherwise : verdict) : verdict :=
  match up with [] => otherwise | (nm, lefts) :: up' => Going (BeforeName ((nm, lefts ++ [t]) :: up')) end.
Definition closed (up : ancestors) (t : tree) (otherwise : verdict) : verdict :=
  match up with [] => otherwise | (nm, lefts) :: up' => Going (AfterParens up' nm (lefts ++ [t])) end.

Definition machine_turn (m : machine) (t : token) (text : bytes) : verdict :=
  match t, m with
  | TOKEN_ILLEGAL, _ => Refused None
  | TOKEN_NAME, BeforeName up => Going (AfterName up text)
  | _, BeforeName _ => Refused None
  | TOKEN_PAREN_OPEN, AfterName up nm => Going (BeforeName ((nm, []) :: up))
  | (TOKEN_COMMA | TOKEN_COLON), AfterName up nm => sibling up (Tree nm []) Broken
  | TOKEN_PAREN_CLOSE, AfterName up nm => closed up (Tree nm []) (Going (Lost nm))
  | TOKEN_END, AfterName up nm => Accepted (plug up (Tree nm []))
  | _, AfterName _ _ => Refused None
  | TOKEN_COMMA, AfterParens up nm kids => sibling up (Tree nm kids) (Refused (Some (Tree nm kids)))
  | TOKEN_PAREN_CLOSE, AfterParens up nm kids => closed up (Tree nm kids) (Refused (Some (Tree nm kids)))
  | TOKEN_END, AfterParens up nm kids => Accepted (plug up (Tree nm kids))
  | _, AfterParens up nm kids => Refused (Some (plug up (Tree nm kids)))
  | (TOKEN_COMMA | TOKEN_PAREN_CLOSE), Lost _ => Broken
  | TOKEN_END, Lost nm => Accepted (Tree nm [])
  | _, Lost nm => Refused (Some (Tree nm []))
  end.

Fixpoint run (fuel : nat) (s : bytes) (m : machine) : verdict :=
  match fuel with
  | O => Going m
  | S fuel' => let '(t, text, rest) := next_token s in match machine_turn m t text with Going m' => run fuel' rest m' | v => v end
  end.
Definition parse (s : bytes) (m : machine) : verdict := run (S (length s)) s m.

(** A turn that goes on takes a character. *)
Lemma turn_takes s t text rest m m' : next_token s = (t, text, rest) -> machine_turn m t text = Going m' -> (length rest < length s)%nat.
Proof.
  intros E Hm. destruct s as [|c s]; [injection E as <- <- <-; by destruct m|]. cbn [next_token] in E. destruct (isalnum c) eqn:Ea.
  - cbn [span] in E. unfold isletter in E at 1. rewrite Ea in E. cbn [orb] in E. destruct (span isletter s) as [a r] eqn:Es. injection E as <- <- <-.
    assert (a ++ r = s) as <- by (clear -Es; revert a r Es; induction s as [|c s IH]; intros a r E; [by injection E as <- <-|]; cbn in E; destruct (isletter c); [|by injection E as <- <-];
      destruct (span isletter s) as [a' r']; injection E as <- <-; cbn; by rewrite (IH a' r')). cbn. rewrite length_app. lia.
  - repeat (match type of E with (if ?b then _ else _) = _ => destruct b end; [injection E as <- <- <-; try (cbn; lia); by destruct m|]). injection E as <- <- <-. by destruct m.
Qed.

Lemma run_fuel s : forall f1 f2 m, (length s < f1)%nat -> (length s < f2)%nat -> run f1 s m = run f2 s m.
Proof.
  remember (length s) as n eqn:En. assert (length s <= n)%nat as Hn by lia. clear En. revert s Hn. induction n as [|n IH]; intros s Hn f1 f2 m H1 H2; destruct f1 as [|f1], f2 as [|f2]; try lia; cbn [run];
    destruct (next_token s) as [[t text] rest] eqn:E; destruct (machine_turn m t text) as [m'| | |] eqn:Em; try done; pose proof (turn_takes _ _ _ _ _ _ E Em); [lia|]; apply IH; lia.
Qed.

Lemma parse_eq s m : parse s m = let '(t, text, rest) := next_token s in match machine_turn m t text with Going m' => parse rest m' | v => v end.
Proof.
  unfold parse. change (run (S (length s)) s m) with (let '(t, text, rest) := next_token s in match machine_turn m t text with Going m' => run (length s) rest m' | v => v end).
  destruct (next_token s) as [[t text] rest] eqn:E. destruct (machine_turn m t text) as [m'| | |] eqn:Em; try done. pose proof (turn_takes _ _ _ _ _ _ E Em). apply run_fuel; lia.
Qed.

(** ** The parser implements the machine *)

Definition related (h : heap) (next : nat) (state : types_parser_state) (node : option nat) (m : machine) : Prop :=
  match m with
  | BeforeName up => state = STATE_CLASS /\ node = Some (pos up) /\ next = S (pos up) /\ here h up [] []
  | AfterName up nm => state = STATE_AFTER_CLASS /\ node = Some (pos up) /\ next = S (pos up) /\ here h up nm []
  | AfterParens up nm kids => state = STATE_AFTER_PARENS /\ node = Some (pos up) /\ next = (pos up + S (forest_size kids))%nat /\ here h up nm kids
  | Lost nm => state = STATE_AFTER_PARENS /\ node = None /\ next = 1%nat /\ here h [] nm []
  end.

Definition left_behind (h : heap) (t : option tree) : Prop := match t with None => h = ∅ | Some t => whole h t end.

(** The messages of the errors that leave the nodes behind. *)
Definition unfreed (e : parse_error) : bool :=
  match e with Unexpected _ _ x => bool_decide (x = bs "end of string") || bool_decide (x = bs "a comma, a closing parenthesis or an end of string") | _ => false end.

Definition turn_refines (r : option turn) (v : verdict) : Prop :=
  match r, v with
  | Some (Continue h next state node), Going m => related h next state node m
  | Some (Break h), Accepted t => whole h t
  | Some (Fail e h), Refused t => left_behind h t /\ unfreed e = (if t then true else false)
  | None, Broken => True
  | _, _ => False
  end.

Section simulation.
Context (validator : bytes).

Lemma freed_root h up nm kids : here h up nm kids -> free_root (pos up + S (forest_size kids)) h = Some ∅.
Proof.
  intros H. unfold free_root. pose proof (here_whole _ _ _ _ H) as Hw. eapply whole_freed; [exact Hw|]. pose proof (whole_size _ _ Hw) as Hs. rewrite <- Hs.
  destruct H as [_ _ _ Hd]. rewrite <- size_dom. replace (dom h) with (set_seq 0 (pos up + S (forest_size kids)) : gset nat); [rewrite size_set_seq; lia|].
  apply set_eq. intros k. rewrite elem_of_set_seq, elem_of_dom, Hd. lia.
Qed.

Lemma refused_freed t rest expected h up nm kids : here h up nm kids -> unfreed (Unexpected t 0 expected) = false ->
  turn_refines (h ← free_root (pos up + S (forest_size kids)) h; EXPECTING_TOKEN validator t rest expected h) (Refused None).
Proof. intros H Hu. rewrite (freed_root h up nm kids H). cbn [mbind option_bind turn_refines EXPECTING_TOKEN left_behind]. by split. Qed.

Lemma sibling_refines h up nm kids otherwise : here h up nm kids -> (up = [] -> turn_refines (new_sibling h (pos up + S (forest_size kids)) (Some (pos up))) otherwise) ->
  turn_refines (new_sibling h (pos up + S (forest_size kids)) (Some (pos up))) (sibling up (Tree nm kids) otherwise).
Proof.
  intros H Ho. destruct up as [|[pn lefts] up]; [by apply Ho|]. destruct (new_sibling_ok _ _ _ _ _ _ H) as (h' & -> & H'). cbn [turn_refines sibling related].
  assert (pos ((pn, lefts ++ [Tree nm kids]) :: up) = (pos ((pn, lefts) :: up) + S (forest_size kids))%nat) as -> by (rewrite !pos_cons, forest_size_app; cbn; fold (forest_size kids); lia). done.
Qed.

Lemma close_related h pn lefts up nm kids : here h ((pn, lefts) :: up) nm kids ->
  related h (pos ((pn, lefts) :: up) + S (forest_size kids)) STATE_AFTER_PARENS (Some (pos up)) (AfterParens up pn (lefts ++ [Tree nm kids])).
Proof. intros H. split; [done|]. split; [done|]. split; [|by apply here_close]. rewrite pos_cons, forest_size_app. cbn. fold (forest_size kids). lia. Qed.

Lemma after_name_refines t text rest h up nm : t <> TOKEN_ILLEGAL -> here h up nm [] ->
  turn_refines (turn_after_class validator t rest h (pos up + 1) (Some (pos up))) (machine_turn (AfterName up nm) t text).
Proof.
  intros Ht H. pose proof (here_at _ _ _ _ H) as (n & El & E & _ & Hp & _). assert (pos up + 1 = S (pos up))%nat as E1 by lia.
  assert (turn_refines (new_sibling h (pos up + 1) (Some (pos up))) (sibling up (Tree nm []) Broken)) as Hs.
  { apply (sibling_refines h up nm []); [done|]. intros ->. unfold new_sibling. rewrite El. cbn [mbind option_bind]. rewrite Hp. cbn [parent_of]. by destruct (store _ _ _). }
  destruct t; try done; cbn [turn_after_class machine_turn]; try exact Hs; try (apply (refused_freed _ rest _ h up nm [] H); by vm_compute).
  - rewrite E1. destruct (new_child_ok h up nm H) as (h' & -> & H'). cbn [turn_refines related]. rewrite pos_cons. change (forest_size []) with 0%nat. rewrite !Nat.add_0_r. done.
  - rewrite El. cbn [mbind option_bind]. rewrite Hp. destruct up as [|[pn lefts] up]; [done|]. exact (close_related _ _ _ _ _ _ H).
  - by apply here_whole.
Qed.

Lemma after_parens_refines t text rest h up nm kids : t <> TOKEN_ILLEGAL -> here h up nm kids ->
  turn_refines (turn_after_parens validator t rest h (pos up + S (forest_size kids)) (Some (pos up))) (machine_turn (AfterParens up nm kids) t text).
Proof.
  intros Ht H. pose proof (here_at _ _ _ _ H) as (n & El & E & _ & Hp & _). pose proof (here_whole _ _ _ _ H) as Hw.
  destruct t; try done; cbn [turn_after_parens machine_turn]; try (cbn [turn_refines EXPECTING_TOKEN left_behind]; split; [exact Hw|by vm_compute]); try exact Hw; rewrite El; cbn [mbind option_bind]; rewrite Hp.
  - destruct up as [|[pn lefts] up]; [split; [exact Hw|by vm_compute]|]. exact (close_related _ _ _ _ _ _ H).
  - destruct up as [|[pn lefts] up]; [split; [exact Hw|by vm_compute]|]. cbn [parent_of]. by apply (sibling_refines h ((pn, lefts) :: up) nm kids).
Qed.

Lemma lost_refines t text rest h nm : t <> TOKEN_ILLEGAL -> here h [] nm [] -> turn_refines (turn_after_parens validator t rest h 1 None) (machine_turn (Lost nm) t text).
Proof. intros Ht H. pose proof (here_whole _ _ _ _ H) as Hw. destruct t; try done; by split; [exact Hw|vm_compute]. Qed.

Lemma turn_ok t text rest h next state node m : related h next state node m -> turn_refines (parse_turn validator t text rest h next state node) (machine_turn m t text).
Proof.
  intros Hr. assert (exists up nm kids, next = (pos up + S (forest_size kids))%nat /\ here h up nm kids) as (up0 & nm0 & kids0 & En & H0).
  { destruct m as [up|up nm|up nm kids|nm]; destruct Hr as (_ & _ & -> & H); [exists up, [], []|exists up, nm, []|exists up, nm, kids|exists [], nm, []]; (split; [|done]); cbn; lia. }
  destruct (decide (t = TOKEN_ILLEGAL)) as [->|Ht].
  { cbn [parse_turn]. rewrite En, (freed_root h up0 nm0 kids0 H0). cbn [mbind option_bind machine_turn]. by destruct m. }
  assert (parse_turn validator t text rest h next state node = match state with STATE_AFTER_PARENS => turn_after_parens validator t rest h next node | STATE_AFTER_CLASS => turn_after_class validator t rest h next node
    | STATE_CLASS => turn_class validator t text rest h next node end) as -> by (by destruct t).
  destruct m as [up|up nm|up nm kids|nm]; destruct Hr as (-> & -> & -> & H).
  - destruct t; try done; cbn [turn_class machine_turn]; try (replace (S (pos up)) with (pos up + S (forest_size []))%nat by (cbn; lia); apply (refused_freed _ rest _ h up [] [] H); by vm_compute).
    destruct (here_name h up text H) as (h' & -> & H'). cbn [mbind option_bind turn_refines related]. done.
  - replace (S (pos up)) with (pos up + 1)%nat by lia. by apply after_name_refines.
  - by apply after_parens_refines.
  - by apply lost_refines.
Qed.

Definition parsed_refines (r : parsed) (v : verdict) : Prop :=
  match r, v with
  | ParseSuccess h root, Accepted t => root = 0%nat /\ whole h t
  | ParseFailure e h, Refused t => left_behind h t /\ unfreed e = (if t then true else false)
  | ParseFault, Broken => True
  | _, _ => False
  end.

Lemma loop_ok fuel : forall s h next state node m, (length s < fuel)%nat -> related h next state node m -> exists r, parse_loop validator fuel s h next state node = Some r /\ parsed_refines r (run fuel s m).
Proof.
  induction fuel as [|fuel IH]; intros s h next state node m Hl Hr; [lia|]. cbn [parse_loop run]. destruct (next_token s) as [[t text] rest] eqn:E.
  pose proof (turn_ok t text rest h next state node m Hr) as Ht. destruct (parse_turn validator t text rest h next state node) as [[h' next' state' node'|h'|e h']|] eqn:Ep; destruct (machine_turn m t text) as [m'|t'|t'|] eqn:Em; try done.
  - pose proof (turn_takes _ _ _ _ _ _ E Em). by apply IH; [lia|].
  - eexists. by split.
  - eexists. by split.
  - eexists. by split.
Qed.
End simulation.

Lemma class_name_ok s : exists r, php_scylladb_parse_class_name s = Some r /\ parsed_refines r (parse s (BeforeName [])).
Proof.
  apply loop_ok; [lia|]. split; [done|]. split; [done|]. split; [done|]. split.
  - eexists. split; [apply lookup_singleton_eq|]. done.
  - done.
  - done.
  - intros k. cbn. destruct (decide (k = 0%nat)) as [->|]; [rewrite lookup_singleton_eq; split; [lia|by eexists]|rewrite lookup_singleton_ne by done; split; [by intros []%is_Some_None|lia]].
Qed.
