(* ===== verification/ColumnTypes.v ===== *)
(** Types of columns from class names ([ClassNames]): the parser returns on every text and faults on exactly the
    texts that leave the outermost class, and the class name of a type gives the type. *)
From stdpp Require Import gmap.
From S2P Require Import Prelude Types DataTypes ClassNames ClassNameTrees.
#[local] Open Scope Z_scope.

(** ** Where the parser faults *)

(** A name with a comma or a colon behind it, or with a closing parenthesis and then a comma or another one. *)
Definition leaves_class (s : bytes) : bool :=
  let '(t1, _, r1) := next_token s in
  let '(t2, _, r2) := next_token r1 in
  let '(t3, _, _) := next_token r2 in
  match t1, t2, t3 with
  | TOKEN_NAME, (TOKEN_COMMA | TOKEN_COLON), _ => true
  | TOKEN_NAME, TOKEN_PAREN_CLOSE, (TOKEN_COMMA | TOKEN_PAREN_CLOSE) => true
  | _, _, _ => false
  end.

Definition inside (m : machine) : bool := match m with BeforeName (_ :: _) | AfterName (_ :: _) _ | AfterParens _ _ _ => true | _ => false end.

Lemma inside_turn m t text : inside m = true -> match machine_turn m t text with Going m' => inside m' = true | Broken => False | _ => True end.
Proof. by destruct m as [[|[] ?]|[|[] ?] ?|[|[] ?] ? ?|]; destruct t. Qed.

Lemma inside_safe s : forall m, inside m = true -> parse s m <> Broken.
Proof.
  induction s as [s IH] using (induction_ltof1 _ (@length Z)). intros m Hm. rewrite parse_eq. destruct (next_token s) as [[t text] rest] eqn:E.
  pose proof (inside_turn m t text Hm) as Ht. destruct (machine_turn m t text) as [m'| | |] eqn:Em; try done. apply IH; [|done]. by eapply turn_takes.
Qed.

Lemma broken_iff s : parse s (BeforeName []) = Broken <-> leaves_class s = true.
Proof.
  rewrite parse_eq. unfold leaves_class. destruct (next_token s) as [[t1 x1] r1]. destruct (next_token r1) as [[t2 x2] r2] eqn:E2. destruct (next_token r2) as [[t3 x3] r3] eqn:E3.
  destruct t1; cbn [machine_turn]; try done. rewrite parse_eq, E2. destruct t2; cbn [machine_turn sibling closed]; try done.
  - split; [|done]. intros H. by destruct (inside_safe r2 (BeforeName [(x1, [])])).
  - rewrite parse_eq, E3. by destruct t3.
Qed.

(** C19: the parser of class names, on every text.  It returns, and faults exactly when a comma, a colon or a second closing parenthesis follows the
    outermost class name where nothing was opened.  When it accepts, its nodes are a tree, linked as it is read,
    and freeing the root frees every node once; when it refuses, every node has been freed,
    except behind a closing parenthesis, where all of them are left. *)
Theorem class_name_parser_safe s : exists r, php_scylladb_parse_class_name s = Some r /\ (r = ParseFault <-> leaves_class s = true) /\
  match r with
  | ParseSuccess h root => exists t, read_nodes (S (size h)) h (Some root) = Some [t] /\ size h = tree_size t /\ php_scylladb_parse_node_free (S (size h)) root h = Some ∅
  | ParseFailure e h => if unfreed e then exists t, read_nodes (S (size h)) h (Some 0%nat) = Some [t] /\ size h = tree_size t else h = ∅
  | ParseFault => True
  end.
Proof.
  destruct (class_name_ok s) as (r & E & Hr). exists r. split; [done|]. rewrite <- broken_iff. destruct r as [h root|e h|], (parse s (BeforeName [])) as [m|t|t|]; try done.
  - split; [done|]. destruct Hr as [-> Hw]. pose proof (whole_size _ _ Hw) as Hs. exists t. split; [eapply whole_read; [done|lia]|]. split; [done|]. eapply whole_freed; [done|lia].
  - split; [done|]. destruct Hr as [Hl ->]. destruct t as [t|]; [|done]. pose proof (whole_size _ _ Hl) as Hs. exists t. split; [eapply whole_read; [done|lia]|done].
Qed.

(** ** Reading a text *)

Definition valid_name (nm : bytes) : bool := match nm with c :: _ => isalnum c | [] => false end && forallb isletter nm.

Definition after (up : ancestors) (t : tree) : machine := match t with Tree nm [] => AfterName up nm | Tree nm kids => AfterParens up nm kids end.

(** The text [s] is read as the tree [t], whatever follows. *)
Definition reads (s : bytes) (t : tree) : Prop := forall up rest, stops isletter rest -> parse (s ++ rest) (BeforeName up) = parse rest (after up t).

Lemma name_token nm rest : valid_name nm = true -> stops isletter rest -> next_token (nm ++ rest) = (TOKEN_NAME, nm, rest).
Proof.
  intros Hv Hr. unfold valid_name in Hv. destruct nm as [|c nm]; [done|]. apply andb_prop in Hv as [Hc Hl]. cbn [app next_token]. rewrite Hc. change (c :: nm ++ rest) with ((c :: nm) ++ rest).
  rewrite span_app; [done| |done]. apply List.Forall_forall. by apply forallb_forall.
Qed.

Lemma reads_name nm : valid_name nm = true -> reads nm (Tree nm []).
Proof. intros Hv up rest Hr. by rewrite parse_eq, name_token. Qed.

(** What is between the parentheses: the texts and whether a colon follows in place of a comma. *)
Fixpoint joined (items : list (bytes * bool)) : bytes :=
  match items with
  | [] => []
  | [(s, _)] => s
  | (s, colon) :: rest => s ++ (if colon then bs ":" else bs ",") ++ joined rest
  end.
Definition node_text (nm : bytes) (items : list (bytes * bool)) : bytes := match items with [] => nm | _ => nm ++ bs "(" ++ joined items ++ bs ")" end.

Definition reads_item (item : bytes * bool) (t : tree) : Prop := reads (fst item) t /\ (snd item = true -> exists nm, t = Tree nm []).

Lemma after_close up nm lefts t rest : parse (bs ")" ++ rest) (after ((nm, lefts) :: up) t) = parse rest (AfterParens up nm (lefts ++ [t])).
Proof. rewrite parse_eq. destruct t as [nm' [|k kids]]; done. Qed.

Lemma after_separator up nm lefts t (colon : bool) rest : (colon = true -> exists nm', t = Tree nm' []) ->
  parse ((if colon then bs ":" else bs ",") ++ rest) (after ((nm, lefts) :: up) t) = parse rest (BeforeName ((nm, lefts ++ [t]) :: up)).
Proof. intros H. rewrite parse_eq. destruct colon; [destruct (H eq_refl) as [nm' ->]; done|]. destruct t as [nm' [|k kids]]; done. Qed.

Lemma reads_joined items ts : Forall2 reads_item items ts -> items <> [] -> forall nm lefts up rest,
  parse (joined items ++ bs ")" ++ rest) (BeforeName ((nm, lefts) :: up)) = parse rest (AfterParens up nm (lefts ++ ts)).
Proof.
  induction 1 as [|[s colon] t items ts [Hs Hc] Hr IH]; intros Hne nm lefts up rest; [done|]. cbn [fst snd] in *. destruct Hr as [|item t' items ts Hi Hr].
  - cbn [joined]. rewrite Hs by done. apply after_close.
  - change (joined ((s, colon) :: item :: items)) with (s ++ (if colon then bs ":" else bs ",") ++ joined (item :: items)). rewrite <- !app_assoc, Hs by (by destruct colon).
    rewrite after_separator by done. rewrite IH by done. by rewrite <- app_assoc.
Qed.

Lemma reads_node nm items ts : valid_name nm = true -> Forall2 reads_item items ts -> reads (node_text nm items) (Tree nm ts).
Proof.
  intros Hv H. destruct H as [|item t items ts Hi Hr]; [by apply reads_name|]. intros up rest Hrest. unfold node_text. rewrite <- !app_assoc, parse_eq, name_token by done. cbn [machine_turn].
  rewrite parse_eq. change (next_token (bs "(" ++ joined (item :: items) ++ bs ")" ++ rest)) with (TOKEN_PAREN_OPEN, bs "(", joined (item :: items) ++ bs ")" ++ rest). cbn [machine_turn].
  rewrite (reads_joined (item :: items) (t :: ts)) by (done || by constructor). done.
Qed.

(** ** Class names *)

(** What the server writes: a scalar's class with its type, containers, and frozen types. *)
Inductive cql :=
| QScalar (class : bytes) (type : Z)
| QList (q : cql)
| QSet (q : cql)
| QMap (k v : cql)
| QTuple (l : list cql)
| QUser (keyspace type_name : bytes) (l : list (bytes * cql))
| QFrozen (q : cql).

Section cql_induction.
Context (P : cql -> Prop) (Hscalar : forall c t, P (QScalar c t)) (Hlist : forall q, P q -> P (QList q)) (Hset : forall q, P q -> P (QSet q)).
Context (Hmap : forall k v, P k -> P v -> P (QMap k v)) (Htuple : forall l, Forall P l -> P (QTuple l)).
Context (Huser : forall ks n l, Forall (fun f => P (snd f)) l -> P (QUser ks n l)) (Hfrozen : forall q, P q -> P (QFrozen q)).

Fixpoint cql_nested_ind (q : cql) : P q :=
  match q with
  | QScalar c t => Hscalar c t
  | QList q => Hlist q (cql_nested_ind q)
  | QSet q => Hset q (cql_nested_ind q)
  | QMap k v => Hmap k v (cql_nested_ind k) (cql_nested_ind v)
  | QTuple l => Htuple l ((fix go l : Forall P l := match l with [] => @List.Forall_nil _ P | x :: l' => @List.Forall_cons _ P x l' (cql_nested_ind x) (go l') end) l)
  | QUser ks n l =>
      let Q := fun f : bytes * cql => P (snd f) in
      Huser ks n l ((fix go l : Forall Q l := match l with [] => @List.Forall_nil _ Q | x :: l' => @List.Forall_cons _ Q x l' (cql_nested_ind (snd x)) (go l') end) l)
  | QFrozen q => Hfrozen q (cql_nested_ind q)
  end.
End cql_induction.

Definition hex_digit (n : Z) : Z := if n <? 10 then 48 + n else 87 + n.
Definition to_hex (s : bytes) : bytes := flat_map (fun b => [hex_digit (b / 16); hex_digit (b mod 16)]) s.

Fixpoint class_text (q : cql) : bytes :=
  match q with
  | QScalar class _ => class
  | QList q => node_text (marshal "ListType") [(class_text q, false)]
  | QSet q => node_text (marshal "SetType") [(class_text q, false)]
  | QMap k v => node_text (marshal "MapType") [(class_text k, false); (class_text v, false)]
  | QTuple l => node_text (marshal "TupleType") (map (fun q => (class_text q, false)) l)
  | QUser ks n l => node_text (marshal "UserType") ((ks, false) :: (to_hex n, false) :: flat_map (fun f => [(to_hex (fst f), true); (class_text (snd f), false)]) l)
  | QFrozen q => node_text (marshal "FrozenType") [(class_text q, false)]
  end.

Fixpoint class_tree (q : cql) : tree :=
  match q with
  | QScalar class _ => Tree class []
  | QList q => Tree (marshal "ListType") [class_tree q]
  | QSet q => Tree (marshal "SetType") [class_tree q]
  | QMap k v => Tree (marshal "MapType") [class_tree k; class_tree v]
  | QTuple l => Tree (marshal "TupleType") (map class_tree l)
  | QUser ks n l => Tree (marshal "UserType") (Tree ks [] :: Tree (to_hex n) [] :: flat_map (fun f => [Tree (to_hex (fst f)) []; class_tree (snd f)]) l)
  | QFrozen q => Tree (marshal "FrozenType") [class_tree q]
  end.

(** The type it stands for. *)
Fixpoint cql_type (q : cql) : php_scylladb_type :=
  match q with
  | QScalar _ type => TScalar type
  | QList q => TCollection (cql_type q)
  | QSet q => TSet (cql_type q)
  | QMap k v => TMap (cql_type k) (cql_type v)
  | QTuple l => TTuple (map cql_type l)
  | QUser ks n l => TUserType (Some ks) (Some n) (map (fun f => (fst f, cql_type (snd f))) l)
  | QFrozen q => cql_type q
  end.

Definition is_name (s : bytes) : bool := negb (is_nil s) && forallb (fun b => (0 <=? b) && (b <? 256)) s.

Fixpoint cql_ok (q : cql) : bool :=
  match q with
  | QScalar class type => existsb (fun c => bool_decide (c = (class, type))) class_names && is_scalar_type type
  | QList q | QSet q | QFrozen q => cql_ok q
  | QMap k v => cql_ok k && cql_ok v
  | QTuple l => forallb cql_ok l
  | QUser ks n l => valid_name ks && is_name n && forallb (fun f => is_name (fst f) && cql_ok (snd f)) l && bool_decide (NoDup (map fst l))
  end.

(** A type with all its parts. *)
Fixpoint created_of (t : php_scylladb_type) : created :=
  match t with
  | TScalar c => CScalar c
  | TCustom c => CCustom c
  | TCollection v => CCollection (created_of v)
  | TMap k v => CMap (created_of k) (created_of v)
  | TSet v => CSet (created_of v)
  | TTuple l => CTuple (map created_of l)
  | TUserType ks n l => CUserType ks n (map (fun f => (fst f, created_of (snd f))) l)
  end.

Lemma byte_hex b : 0 <= b < 256 ->
  isalnum (hex_digit (b / 16)) = true /\ isalnum (hex_digit (b mod 16)) = true /\ (hex_value (hex_digit (b / 16)) <? 0) = false /\ (hex_value (hex_digit (b mod 16)) <? 0) = false /\
  Z.lor (Z.shiftl (hex_value (hex_digit (b / 16))) 4) (hex_value (hex_digit (b mod 16))) = b.
Proof.
  intros H. assert (forallb (fun b => isalnum (hex_digit (b / 16)) && isalnum (hex_digit (b mod 16)) && negb (hex_value (hex_digit (b / 16)) <? 0) && negb (hex_value (hex_digit (b mod 16)) <? 0) &&
    (Z.lor (Z.shiftl (hex_value (hex_digit (b / 16))) 4) (hex_value (hex_digit (b mod 16))) =? b)) (seqZ 0 256) = true) as Hall by by vm_compute.
  rewrite forallb_forall in Hall. specialize (Hall b ltac:(apply list_elem_of_In, elem_of_seqZ; lia)). rewrite !andb_true_iff, !negb_true_iff, Z.eqb_eq in Hall. tauto.
Qed.

Lemma is_name_bytes s : is_name s = true -> s <> [] /\ Forall (fun b => 0 <= b < 256) s.
Proof.
  unfold is_name. intros [H1 H2]%andb_prop. split; [by intros ->|]. apply List.Forall_forall. intros b Hb. rewrite forallb_forall in H2. specialize (H2 b Hb). lia.
Qed.

Lemma from_to_hex s : Forall (fun b => 0 <= b < 256) s -> php_scylladb_from_hex (to_hex s) = Some s.
Proof.
  induction 1 as [|b s Hb _ IH]; [done|]. destruct (byte_hex b Hb) as (_ & _ & E1 & E2 & E3). cbn [to_hex flat_map app php_scylladb_from_hex]. fold (to_hex s). rewrite IH. cbn [mbind option_bind]. by rewrite E1, E2, E3.
Qed.

Lemma hex_letters s : Forall (fun b => 0 <= b < 256) s -> forallb isletter (to_hex s) = true.
Proof.
  induction 1 as [|b s Hb _ IH]; [done|]. destruct (byte_hex b Hb) as (E1 & E2 & _). cbn [to_hex flat_map app forallb]. unfold isletter at 1 2. by rewrite E1, E2.
Qed.

Lemma hex_name s : is_name s = true -> valid_name (to_hex s) = true.
Proof.
  intros [Hne Hb]%is_name_bytes. unfold valid_name. rewrite hex_letters by done. destruct Hb as [|b s Hb _]; [done|]. destruct (byte_hex b Hb) as (E & _). cbn [to_hex flat_map app]. by rewrite E.
Qed.

Lemma class_names_ok c : In c class_names -> valid_name (fst c) = true /\ is_wrapper (fst c) = false /\ php_scylladb_lookup_type (fst c) = snd c.
Proof.
  intros H. assert (forallb (fun c => valid_name (fst c) && negb (is_wrapper (fst c)) && (php_scylladb_lookup_type (fst c) =? snd c)) class_names = true) as Hall by by vm_compute.
  rewrite forallb_forall in Hall. specialize (Hall c H). rewrite !andb_true_iff, negb_true_iff, Z.eqb_eq in Hall. tauto.
Qed.

Lemma scalar_ok class type : cql_ok (QScalar class type) = true -> In (class, type) class_names /\ is_scalar_type type = true.
Proof. cbn [cql_ok]. intros [H1 H2]%andb_prop. split; [|done]. apply existsb_exists in H1 as (c & Hc & E). apply bool_decide_eq_true in E. by subst. Qed.

Lemma user_ok ks n l : cql_ok (QUser ks n l) = true -> valid_name ks = true /\ is_name n = true /\ NoDup (map fst l) /\ forall f, In f l -> is_name (fst f) = true /\ cql_ok (snd f) = true.
Proof.
  cbn [cql_ok]. intros [[[H1 H2]%andb_prop H3]%andb_prop H4%bool_decide_eq_true]%andb_prop. split; [done|]. split; [done|]. split; [done|]. intros f Hf. rewrite forallb_forall in H3. by apply andb_prop, H3.
Qed.

Lemma reads_plain s t : reads s t -> reads_item (s, false) t.
Proof. by split. Qed.

(** The text of a class name is read as its tree. *)
Lemma reads_class q : cql_ok q = true -> reads (class_text q) (class_tree q).
Proof.
  induction q as [class type|q IH|q IH|k v IHk IHv|l IH|ks n l IH|q IH] using cql_nested_ind; intros Hok; cbn [class_text class_tree].
  - apply reads_name. apply scalar_ok in Hok as [Hin _]. by apply (class_names_ok _ Hin).
  - apply reads_node; [by vm_compute|]. constructor; [by apply reads_plain, IH|constructor].
  - apply reads_node; [by vm_compute|]. constructor; [by apply reads_plain, IH|constructor].
  - apply andb_prop in Hok as [Hk Hv]. apply reads_node; [by vm_compute|]. constructor; [by apply reads_plain, IHk|]. constructor; [by apply reads_plain, IHv|constructor].
  - apply reads_node; [by vm_compute|]. cbn [cql_ok] in Hok. induction IH as [|q l Hq _ IH]; [constructor|]. cbn [forallb] in Hok. apply andb_prop in Hok as [Hq' Hl]. constructor; [by apply reads_plain, Hq|by apply IH].
  - apply user_ok in Hok as (Hks & Hn & _ & Hl). apply reads_node; [by vm_compute|]. constructor; [by apply reads_plain, reads_name|]. constructor; [by apply reads_plain, reads_name, hex_name|].
    induction IH as [|[f q] l Hq _ IH]; [constructor|]. destruct (Hl (f, q) (or_introl eq_refl)) as [Hf Hok]. cbn [flat_map app fst snd]. constructor; [|constructor; [by apply reads_plain, Hq|]].
    + split; [by apply reads_name, hex_name|]. intros _. by eexists.
    + apply IH. intros g Hg. apply Hl. by right.
  - apply reads_node; [by vm_compute|]. constructor; [by apply reads_plain, IH|constructor].
Qed.

(** ** Keyspaces the tokenizer refuses *)

(** What Cassandra allows in the name of a keyspace. *)
Definition keyspace_name (s : bytes) : bool := negb (is_nil s) && forallb (fun c => isalnum c || (c =? 95)) s.

(** As [cql_ok], with keyspaces as Cassandra has them. *)
Fixpoint cql_known (q : cql) : bool :=
  match q with
  | QScalar class type => existsb (fun c => bool_decide (c = (class, type))) class_names && is_scalar_type type
  | QList q | QSet q | QFrozen q => cql_known q
  | QMap k v => cql_known k && cql_known v
  | QTuple l => forallb cql_known l
  | QUser ks n l => keyspace_name ks && is_name n && forallb (fun f => is_name (fst f) && cql_known (snd f)) l && bool_decide (NoDup (map fst l))
  end.

(** The text is refused, whatever follows. *)
Definition breaks (s : bytes) : Prop := forall up rest, parse (s ++ rest) (BeforeName up) = Refused None.

Lemma underscore_refused rest m : parse (95 :: rest) m = Refused None.
Proof. rewrite parse_eq. by destruct m. Qed.

Lemma keyspace_breaks ks : keyspace_name ks = true -> valid_name ks = true \/ breaks ks.
Proof.
  unfold keyspace_name. intros [Hne Hks]%andb_prop.
  assert (forallb isalnum ks = true \/ exists pre post, ks = pre ++ 95 :: post /\ forallb isalnum pre = true) as [Hall|(pre & post & -> & Hpre)].
  { clear Hne. induction ks as [|c ks IH]; [by left|]. cbn [forallb] in Hks. apply andb_prop in Hks as [Hc Hks]. destruct (isalnum c) eqn:Ec.
    - destruct (IH Hks) as [H|(pre & post & -> & H)]; [left; cbn [forallb]; by rewrite Ec|right; exists (c :: pre), post; split; [done|]; cbn [forallb]; by rewrite Ec].
    - right. exists [], ks. split; [|done]. cbn [orb] in Hc. apply Z.eqb_eq in Hc. by subst. }
  - left. destruct ks as [|c ks]; [done|]. unfold valid_name. cbn [forallb] in *. apply andb_prop in Hall as [Hc Hall]. rewrite Hc. cbn [andb]. unfold isletter at 1. rewrite Hc. cbn [orb andb].
    apply forallb_forall. intros x Hx. unfold isletter. rewrite forallb_forall in Hall. by rewrite Hall.
  - right. intros up rest. rewrite <- app_assoc. cbn [app]. destruct pre as [|c pre]; [apply underscore_refused|]. cbn [forallb] in Hpre. apply andb_prop in Hpre as [Hc Hpre].
    rewrite parse_eq, name_token; [apply underscore_refused| |done]. unfold valid_name. rewrite Hc. cbn [forallb andb]. unfold isletter at 1. rewrite Hc. cbn [orb andb].
    apply forallb_forall. intros x Hx. unfold isletter. rewrite forallb_forall in Hpre. by rewrite Hpre.
Qed.

(** An item that is refused behind items that are read. *)
Lemma breaks_joined items : Forall (fun i => (exists t, reads_item i t) \/ breaks (fst i)) items -> Exists (fun i => breaks (fst i)) items -> forall nm lefts up rest,
  parse (joined items ++ rest) (BeforeName ((nm, lefts) :: up)) = Refused None.
Proof.
  induction 1 as [|[s colon] items Hi Hr IH]; intros He nm lefts up rest; [by apply Exists_nil in He|].
  assert (breaks s \/ (exists t, reads_item (s, colon) t) /\ Exists (fun i => breaks (fst i)) items) as [Hb|[(t & Hs & Hc) He']].
  { apply Exists_cons in He as [He|He]; [by left|]. destruct Hi as [Hi|Hi]; [by right|by left]. }
  - destruct items as [|i items]; cbn [joined]; [apply Hb|]. rewrite <- app_assoc. apply Hb.
  - destruct items as [|i items]; [by apply Exists_nil in He'|]. cbn [fst snd] in *. change (joined ((s, colon) :: i :: items)) with (s ++ (if colon then bs ":" else bs ",") ++ joined (i :: items)).
    rewrite <- !app_assoc, Hs by (by destruct colon). rewrite after_separator by done. by apply IH.
Qed.

Lemma node_breaks nm items : valid_name nm = true -> Forall (fun i => (exists t, reads_item i t) \/ breaks (fst i)) items -> Exists (fun i => breaks (fst i)) items -> breaks (node_text nm items).
Proof.
  intros Hv Hi He up rest. destruct items as [|i items]; [by apply Exists_nil in He|]. unfold node_text. rewrite <- !app_assoc, parse_eq, name_token by done. cbn [machine_turn].
  rewrite parse_eq. change (next_token (bs "(" ++ joined (i :: items) ++ bs ")" ++ rest)) with (TOKEN_PAREN_OPEN, bs "(", joined (i :: items) ++ bs ")" ++ rest). cbn [machine_turn].
  by apply breaks_joined.
Qed.

(** Either way, one item alone. *)
Lemma class_item q : (if cql_ok q then reads (class_text q) (class_tree q) else breaks (class_text q)) -> (exists t, reads_item (class_text q, false) t) \/ breaks (class_text q).
Proof. destruct (cql_ok q); [left; by exists (class_tree q)|by right]. Qed.

Lemma class_breaks q : cql_known q = true -> cql_ok q = false -> breaks (class_text q).
Proof.
  intros Hk Hok. assert (if cql_ok q then reads (class_text q) (class_tree q) else breaks (class_text q)) as H; [|by rewrite Hok in H]. clear Hok. revert Hk.
  induction q as [class type|q IH|q IH|k v IHk IHv|l IH|ks n l IH|q IH] using cql_nested_ind; intros Hk; (match goal with |- if cql_ok ?q then _ else _ => destruct (cql_ok q) eqn:E end); try (by apply reads_class); cbn [class_text cql_ok cql_known] in *.
  - congruence.
  - rewrite E in IH. apply node_breaks; [by vm_compute| |left; by apply IH]. constructor; [right; by apply IH|constructor].
  - rewrite E in IH. apply node_breaks; [by vm_compute| |left; by apply IH]. constructor; [right; by apply IH|constructor].
  - apply andb_prop in Hk as [Hk Hv]. apply node_breaks; [by vm_compute| |].
    + constructor; [by apply class_item, IHk|]. constructor; [by apply class_item, IHv|constructor].
    + apply andb_false_iff in E as [E|E]; [left|right; left]; [rewrite E in IHk; by apply IHk|rewrite E in IHv; by apply IHv].
  - rewrite forallb_forall in Hk. apply node_breaks; [by vm_compute| |].
    + apply List.Forall_map. rewrite List.Forall_forall in *. intros q Hq. by apply class_item, IH; [|apply Hk].
    + apply not_true_iff_false in E. rewrite forallb_forall in E. apply list.Exists_exists.
      destruct (List.Forall_dec (fun q => cql_ok q = true) (fun q => bool_dec _ _) l) as [Hall|Hex]; [destruct E; by apply List.Forall_forall|].
      apply neg_Forall_Exists_neg, list.Exists_exists in Hex as (q & Hq & Hn); [|intros x; apply bool_dec]. exists (class_text q, false). split; [apply list_elem_of_fmap; by exists q|].
      apply list_elem_of_In in Hq. rewrite List.Forall_forall in IH. specialize (IH q Hq (Hk q Hq)). by destruct (cql_ok q).
  - apply andb_prop in Hk as [[[Hks Hn]%andb_prop Hl]%andb_prop Hnd]. rewrite Hn, Hnd in E. rewrite forallb_forall in Hl. rewrite List.Forall_forall in IH.
    apply node_breaks; [by vm_compute| |].
    + constructor; [destruct (keyspace_breaks ks Hks) as [?|?]; [left; exists (Tree ks []); by apply reads_plain, reads_name|by right]|].
      constructor; [left; eexists; by apply reads_plain, reads_name, hex_name|]. apply Forall_flat_map, List.Forall_forall. intros f Hf. destruct (andb_prop _ _ (Hl f Hf)) as [Hf1 Hf2].
      constructor; [left; exists (Tree (to_hex (fst f)) []); split; [by apply reads_name, hex_name|intros _; by eexists]|]. constructor; [by apply class_item, IH|constructor].
    + rewrite !andb_true_r in E. destruct (keyspace_breaks ks Hks) as [Hv|Hb]; [|by left]. rewrite Hv in E. cbn [andb] in E. right. right.
      apply not_true_iff_false in E. rewrite forallb_forall in E. apply list.Exists_exists.
      destruct (List.Forall_dec (fun f : bytes * cql => cql_ok (snd f) = true) (fun q => bool_dec _ _) l) as [Hall|Hex].
      { destruct E. intros f Hf. destruct (andb_prop _ _ (Hl f Hf)) as [-> _]. rewrite List.Forall_forall in Hall. by apply Hall. }
      apply neg_Forall_Exists_neg, list.Exists_exists in Hex as (f & Hf & Hn'); [|intros x; apply bool_dec]. exists (class_text (snd f), false). apply list_elem_of_In in Hf. split.
      * apply list_elem_of_In, in_flat_map. exists f. split; [done|]. right. by left.
      * destruct (andb_prop _ _ (Hl f Hf)) as [_ Hk]. specialize (IH f Hf Hk). by destruct (cql_ok (snd f)).
  - rewrite E in IH. apply node_breaks; [by vm_compute| |left; by apply IH]. constructor; [right; by apply IH|constructor].
Qed.

(** ** The type of a tree *)

Section typed.
Context (have_custom_type : bool).
Abbreviation create := (create_node have_custom_type).

Lemma created_defined t : defined (created_of t) = true.
Proof. by destruct t. Qed.

Definition typed (t : tree) (type : php_scylladb_type) : Prop := forall siblings, create t siblings = Some (created_of type, false).

Lemma tuple_typed ts types : Forall2 typed ts types -> forall done, tuple_from create ts done = Some (done ++ map created_of types, false).
Proof.
  induction 1 as [|t type ts types Ht _ IH]; intros done; cbn [tuple_from map]; [by rewrite app_nil_r|]. rewrite Ht. cbn [made_bind]. rewrite created_defined, IH, <- app_assoc. done.
Qed.

Lemma field_add_new nm t l : nm ∉ map fst l -> field_add nm t l = l ++ [(nm, t)].
Proof.
  intros H. unfold field_add. destruct (existsb _ l) eqn:E; [|done]. apply existsb_exists in E as ([nm' t'] & Hin & E). apply bool_decide_eq_true in E. cbn in E. subst. destruct H. apply list_elem_of_In.
  apply (in_map fst) in Hin. exact Hin.
Qed.

Lemma fields_typed l : Forall (fun f : bytes * cql => typed (class_tree (snd f)) (cql_type (snd f)) /\ is_name (fst f) = true) l -> forall done, NoDup (map fst done ++ map fst l) ->
  fields_from create (flat_map (fun f => [Tree (to_hex (fst f)) []; class_tree (snd f)]) l) done = Some (done ++ map (fun f => (fst f, created_of (cql_type (snd f)))) l, false).
Proof.
  induction 1 as [|[f q] l [Ht Hf] _ IH]; intros acc Hnd; cbn [flat_map app fields_from map fst snd] in *; [by rewrite app_nil_r|]. apply is_name_bytes in Hf as [_ Hb]. rewrite (from_to_hex f Hb), Ht. cbn [made_bind].
  apply list.NoDup_app in Hnd as (Hn1 & Hn2 & Hn3). apply list.NoDup_cons in Hn3 as [Hn3 Hn4]. rewrite created_defined, field_add_new by (intros Hin; destruct (Hn2 f Hin); by left).
  rewrite IH; [by rewrite <- app_assoc|]. rewrite map_app, <- app_assoc. cbn [map fst app]. apply list.NoDup_app. split; [done|]. split; [done|]. by apply list.NoDup_cons.
Qed.

Lemma typed_as nm kids type : is_wrapper nm = false -> forall c, php_scylladb_lookup_type nm = c -> typed (Tree nm kids) type <-> forall siblings,
  (if c =? CASS_VALUE_TYPE_CUSTOM then php_scylladb_type_custom have_custom_type (dump_nodes (Tree nm kids :: siblings))
   else if c =? CASS_VALUE_TYPE_MAP then
     match kids with
     | [] => made_ret (CMap CUndef CUndef)
     | k :: ks => made_bind (create k ks) (fun key_type => made_bind (match ks with [] => made_ret CUndef | v :: vs => create v vs end) (fun value_type => made_ret (CMap key_type value_type)))
     end
   else if c =? CASS_VALUE_TYPE_LIST then match kids with [] => made_ret (CCollection CUndef) | k :: ks => made_bind (create k ks) (fun v => made_ret (CCollection v)) end
   else if c =? CASS_VALUE_TYPE_SET then match kids with [] => made_ret (CSet CUndef) | k :: ks => made_bind (create k ks) (fun v => made_ret (CSet v)) end
   else if c =? CASS_VALUE_TYPE_TUPLE then made_bind (tuple_from create kids []) (fun l => made_ret (CTuple l))
   else if c =? CASS_VALUE_TYPE_UDT then
     match kids with
     | [] => made_ret (CUserType None None [])
     | [Tree ks _] => made_ret (CUserType (Some ks) None [])
     | Tree ks _ :: Tree n _ :: rest => made_bind (fields_from create rest []) (fun l => made_ret (CUserType (Some ks) (php_scylladb_from_hex n) l))
     end
   else made_ret (CScalar c)) = Some (created_of type, false).
Proof. intros Hw c Hc. unfold typed. split; intros H siblings; specialize (H siblings); cbn [create_node] in *; rewrite Hw, Hc in *; exact H. Qed.

Lemma fields_of l : Forall (fun f : bytes * cql => cql_ok (snd f) = true -> typed (class_tree (snd f)) (cql_type (snd f))) l ->
  (forall f, In f l -> is_name (fst f) = true /\ cql_ok (snd f) = true) -> Forall (fun f : bytes * cql => typed (class_tree (snd f)) (cql_type (snd f)) /\ is_name (fst f) = true) l.
Proof. intros H Hl. rewrite List.Forall_forall in *. intros f Hf. destruct (Hl f Hf) as [Hn Hok]. split; [by apply H|done]. Qed.

Ltac as_class nm c := apply (typed_as nm _ _ ltac:(by vm_compute) c ltac:(by vm_compute)); intros siblings;
  cbv [CASS_VALUE_TYPE_CUSTOM CASS_VALUE_TYPE_MAP CASS_VALUE_TYPE_LIST CASS_VALUE_TYPE_SET CASS_VALUE_TYPE_TUPLE CASS_VALUE_TYPE_UDT]; cbn [Z.eqb Pos.eqb].

Lemma class_typed q : cql_ok q = true -> typed (class_tree q) (cql_type q).
Proof.
  induction q as [class type|q IH|q IH|k v IHk IHv|l IH|ks n l IH|q IH] using cql_nested_ind; intros Hok; cbn [class_tree cql_type].
  - apply scalar_ok in Hok as [Hin Hs]. destruct (class_names_ok _ Hin) as (_ & Hw & Hl). cbn [fst snd] in *. apply (typed_as class [] (TScalar type) Hw _ Hl). intros siblings.
    repeat (match goal with |- context [type =? ?c] => destruct (Z.eqb_spec type c) as [->|]; [by vm_compute in Hs|] end). done.
  - as_class (marshal "ListType") CASS_VALUE_TYPE_LIST. by rewrite (IH Hok).
  - as_class (marshal "SetType") CASS_VALUE_TYPE_SET. by rewrite (IH Hok).
  - apply andb_prop in Hok as [Hk Hv]. as_class (marshal "MapType") CASS_VALUE_TYPE_MAP. rewrite (IHk Hk). cbn [made_bind]. by rewrite (IHv Hv).
  - cbn [cql_ok] in Hok. as_class (marshal "TupleType") CASS_VALUE_TYPE_TUPLE. rewrite (tuple_typed (map class_tree l) (map cql_type l)); [done|].
    induction IH as [|q l Hq _ IH]; [constructor|]. cbn [forallb] in Hok. apply andb_prop in Hok as [Hq' Hl]. constructor; [by apply Hq|by apply IH].
  - apply user_ok in Hok as (Hks & [Hne Hb]%is_name_bytes & Hnd & Hl). as_class (marshal "UserType") CASS_VALUE_TYPE_UDT. rewrite (from_to_hex n Hb), fields_typed; [|by apply fields_of|done].
    cbn [made_bind made_ret app orb created_of]. rewrite map_map. done.
  - intros siblings. cbn [create_node]. replace (is_wrapper (marshal "FrozenType")) with true by by vm_compute. by apply IH.
Qed.

(** ** Columns *)

Definition is_frozen (q : cql) : bool := match q with QFrozen _ => true | _ => false end.

Definition column_text (reversed : bool) (q : cql) : bytes := if reversed then node_text (marshal "ReversedType") [(class_text q, false)] else class_text q.
Definition column_tree (reversed : bool) (q : cql) : tree := if reversed then Tree (marshal "ReversedType") [class_tree q] else class_tree q.

Lemma unwrap_plain r f nm kids siblings : is_wrapper nm = false -> unwrap r f (Tree nm kids) siblings = (r, f, Tree nm kids :: siblings).
Proof.
  unfold is_wrapper. intros [[H1 H2]%orb_false_elim H3]%orb_false_elim. cbn [unwrap]. by rewrite H1, H2, H3.
Qed.

Definition unwraps_to (r f : bool) (t : tree) (siblings : list tree) (frozen : bool) (type : php_scylladb_type) : Prop :=
  exists t' siblings', unwrap r f t siblings = (r, frozen, t' :: siblings') /\ create t' siblings' = Some (created_of type, false).

Lemma unwraps_plain r f nm kids siblings type : is_wrapper nm = false -> typed (Tree nm kids) type -> unwraps_to r f (Tree nm kids) siblings f type.
Proof. intros Hw Ht. exists (Tree nm kids), siblings. split; [by apply unwrap_plain|apply Ht]. Qed.

Lemma unwrap_class q : cql_ok q = true -> forall r f siblings, unwraps_to r f (class_tree q) siblings (f || is_frozen q) (cql_type q).
Proof.
  induction q as [class type|q IH|q IH|k v IHk IHv|l IH|ks n l IH|q IH] using cql_nested_ind; intros Hok r f siblings; pose proof (class_typed _ Hok) as Ht; cbn [class_tree cql_type is_frozen] in *; rewrite ?orb_false_r; cycle -1.
  - destruct (IH Hok r true []) as (t' & siblings' & E & Hc). exists t', siblings'. split; [|done]. rewrite orb_true_r. exact E.
  - apply scalar_ok in Hok as [Hin _]. by apply unwraps_plain; [apply (class_names_ok _ Hin)|].
  - by apply unwraps_plain; [vm_compute|].
  - by apply unwraps_plain; [vm_compute|].
  - by apply unwraps_plain; [vm_compute|].
  - by apply unwraps_plain; [vm_compute|].
  - by apply unwraps_plain; [vm_compute|].
Qed.

Lemma column_accepted reversed q : cql_ok q = true -> parse (column_text reversed q) (BeforeName []) = Accepted (column_tree reversed q).
Proof.
  intros Hok. assert (reads (column_text reversed q) (column_tree reversed q)) as Hr.
  { destruct reversed; [|by apply reads_class]. apply reads_node; [by vm_compute|]. constructor; [by apply reads_plain, reads_class|constructor]. }
  specialize (Hr [] [] I). rewrite app_nil_r in Hr. rewrite Hr, parse_eq. by destruct (column_tree reversed q) as [nm [|]].
Qed.

(** C20: a column's type from its class name.  From the text that the server writes for a type, scalars, lists, sets, maps, tuples and
    user types nested in any way and frozen anywhere, when the keyspace of every user type in it is of letters, digits and dots,
    [php_scylladb_parse_column_type] makes exactly that type, says whether the column is reversed and whether the outermost
    type is frozen, throws nothing and leaves no node behind.  When a keyspace has an underscore, the text is refused, and no node is left. *)
Theorem column_type_read reversed q :
  (cql_ok q = true -> php_scylladb_parse_column_type have_custom_type (column_text reversed q) = ColumnType reversed (is_frozen q) (created_of (cql_type q)) false ∅) /\
  (cql_known q = true -> cql_ok q = false -> exists e, php_scylladb_parse_column_type have_custom_type (column_text reversed q) = ColumnFailure e ∅).
Proof.
  unfold php_scylladb_parse_column_type. destruct (class_name_ok (column_text reversed q)) as (r & -> & Hr). split; [intros Hok|intros Hk Hok].
  - rewrite (column_accepted reversed q Hok) in Hr. destruct r as [h root| |]; try done.
    destruct Hr as [-> Hw]. pose proof (whole_size _ _ Hw) as Hs. rewrite (whole_read h _ (S (size h)) Hw), (whole_freed h _ (S (size h)) Hw) by lia.
    assert (unwraps_to reversed false (class_tree q) [] (is_frozen q) (cql_type q) /\ unwrap false false (column_tree reversed q) [] = unwrap reversed false (class_tree q) []) as [(t & siblings & E & Hc) ->].
    { split; [by apply (unwrap_class q Hok)|]. by destruct reversed. }
    rewrite E. cbn [php_scylladb_create_type create_pointer]. by rewrite Hc.
  - assert (breaks (column_text reversed q)) as Hb.
    { pose proof (class_breaks q Hk Hok) as Hb. destruct reversed; [|done]. apply node_breaks; [by vm_compute|constructor; [by right|constructor]|by left]. }
    specialize (Hb [] []). rewrite app_nil_r in Hb. rewrite Hb in Hr. destruct r as [h root|e h|]; try done. destruct Hr as [Hl _]. exists e. cbn in Hl. by rewrite Hl.
Qed.
End typed.

(** A user type with a map and a tuple, in a reversed column. *)
Definition sample : cql :=
  QFrozen (QUser (bs "ks1") (bs "point") [(bs "tags", QMap (QScalar (marshal "UTF8Type") CASS_VALUE_TYPE_VARCHAR) (QFrozen (QList (QScalar (marshal "Int32Type") CASS_VALUE_TYPE_INT))));
                                          (bs "at", QTuple [QScalar (marshal "DateType") CASS_VALUE_TYPE_TIMESTAMP; QScalar (marshal "BytesType") CASS_VALUE_TYPE_BLOB])]).

(** The same point in a list, of a keyspace with an underscore. *)
Definition underscored : cql := QList (QFrozen (QUser (bs "my_ks") (bs "point") [(bs "x", QScalar (marshal "Int32Type") CASS_VALUE_TYPE_INT)])).

Lemma column_type_read_witness :
  php_scylladb_parse_column_type false (column_text true sample) = ColumnType true true (created_of (cql_type sample)) false ∅ /\
  exists e, php_scylladb_parse_column_type false (column_text false underscored) = ColumnFailure e ∅.
Proof. split; [by apply (column_type_read false true sample); vm_compute|by apply (column_type_read false false underscored); vm_compute]. Defined.

(** The limits: an underscore in a keyspace, a custom class with what follows it in its name, a prefix of a known class, a
    missing parenthesis, and a tuple of an undefined type. *)
Example class_name_limits :
  php_scylladb_parse_column_type true (marshal "UserType(my_ks,6e)") = ColumnFailure (IllegalCharacter 95 42) ∅ /\
  php_scylladb_parse_column_type true (marshal "MapType(com.A,com.B)") = ColumnType false false (CMap (CCustom (bs "com.A, com.B")) (CCustom (bs "com.B"))) false ∅ /\
  php_scylladb_parse_column_type true (marshal "A") = ColumnType false false (CScalar CASS_VALUE_TYPE_ASCII) false ∅ /\
  php_scylladb_parse_column_type true (marshal "ListType(com.A") = ColumnType false false (CCollection (CCustom (bs "com.A"))) false ∅ /\
  php_scylladb_parse_column_type false (marshal "TupleType(com.A)") = ColumnFault /\
  php_scylladb_parse_column_type false (bs "com.A,com.B") = ColumnFault.
Proof. by vm_compute. Qed.
