(* ===== verification/DateTimes.v ===== *)
(** Dates, times, timestamps and durations ([DateTime/Date.c], [Time.c], [Timestamp.c], [Duration.c], and the
    driver's [cass_date_from_epoch] and its relatives in [external.cpp]).

    A date is the number of its day, with the epoch at [2^31]; a time is nanoseconds; a timestamp is
    milliseconds.  The clock is an argument.  PHP's date extension is not part of the repository: a date object is known by its
    seconds, its microseconds and what its [format] prints, a [DateInterval] by its fields.  A signed overflow
    and a conversion of a double that does not fit are [Undefined]. *)
From S2P Require Import Prelude CLib NumberParser Numeric Serialization.
#[local] Open Scope Z_scope.

(** ** The driver's conversions *)

Definition NUM_SECONDS_PER_DAY : Z := 24 * 60 * 60.
Definition CASS_DATE_EPOCH : Z := 2147483648.
Definition CASS_TIME_NANOSECONDS_PER_SECOND : Z := 1000000000.
Definition NUM_NANOSECONDS_PER_DAY : Z := 86399999999999.

Definition cass_date_from_epoch (epoch_secs : Z) : Z := wrapU 32 (Z.quot epoch_secs NUM_SECONDS_PER_DAY + CASS_DATE_EPOCH).
Definition cass_time_from_epoch (epoch_secs : Z) : Z := CASS_TIME_NANOSECONDS_PER_SECOND * Z.rem epoch_secs NUM_SECONDS_PER_DAY.
Definition cass_date_time_to_epoch (date time : Z) : Z :=
  wrapS 64 (wrapU 64 (wrapU 64 (wrapU 64 (date - CASS_DATE_EPOCH) * NUM_SECONDS_PER_DAY) + Z.quot time CASS_TIME_NANOSECONDS_PER_SECOND)).

(** ** Date and Time *)

Inductive str_or_long := Str (s : bytes) | Long (n : Z).
Inductive date_error := NotANumber | OutOfDay.

(** The constructors; without an argument the clock is read. *)
Definition php_scylladb_date_initialize (now : Z) (arg : option str_or_long) : date_error + Z :=
  match arg with
  | None => inr (cass_date_from_epoch now)
  | Some (Long n) => inr (cass_date_from_epoch n)
  | Some (Str s) => match php_scylladb_parse_bigint s with Parsed n => inr (cass_date_from_epoch n) | _ => inl NotANumber end
  end.

Definition in_day (v : Z) : date_error + Z := if (v <? 0) || (NUM_NANOSECONDS_PER_DAY <? v) then inl OutOfDay else inr v.

Definition php_scylladb_time_initialize (now_seconds now_nanoseconds : Z) (arg : option str_or_long) : date_error + Z :=
  match arg with
  | None => inr (cass_time_from_epoch now_seconds + now_nanoseconds)
  | Some (Long n) => in_day n
  | Some (Str s) => match php_scylladb_parse_bigint s with Parsed n => in_day n | _ => inl NotANumber end
  end.

Definition Date_seconds (date : Z) : Z := cass_date_time_to_epoch date 0.
(** The seconds of the [DateTime] that [Date::toDateTime] makes. *)
Definition Date_toDateTime (date : Z) (time : option Z) : Z := cass_date_time_to_epoch date (match time with Some t => t | None => 0 end).
Definition Date_fromDateTime (seconds : Z) : Z := cass_date_from_epoch seconds.
Definition Time_seconds (time : Z) : Z := Z.quot time 1000000000.
Definition Time_fromDateTime (seconds : Z) : Z := Z.rem seconds 86400 * 1000000000.
Definition Time_toString (time : Z) : bytes := show_dec time.

(** ** Timestamp *)

Definition fits64 (z : Z) : bool := (INT64_MIN <=? z) && (z <=? INT64_MAX).

Definition php_scylladb_timestamp_initialize (now_seconds now_microseconds : Z) (seconds microseconds : Z) : result :=
  let '(seconds, microseconds) := if (seconds =? -1) && (microseconds =? -1) then (now_seconds, now_microseconds) else (seconds, microseconds) in
  if negb (fits64 (seconds * 1000)) then Undefined else if fits64 (seconds * 1000 + Z.quot microseconds 1000) then Value (seconds * 1000 + Z.quot microseconds 1000) else Undefined.

Definition Timestamp_time (t : Z) : Z := Z.quot t 1000.
Definition Timestamp_toString (t : Z) : bytes := show_dec t.
(** The seconds and microseconds among the properties. *)
Definition php_scylladb_timestamp_properties (t : Z) : Z * Z := let sec := Z.quot t 1000 in (sec, (t - sec * 1000) * 1000).
(** The text that [Timestamp::toDateTime] gives to [DateTime::createFromFormat]. *)
Definition timestamp_to_datetime_get_timestamp (t : Z) : bytes := let sec := Z.quot t 1000 in show_dec sec ++ bs "." ++ show_dec (t - sec * 1000).

Section datetime.
(** What [format("Uv")] of an object returns, when it returns a string. *)
Context {DateTime : Type} (format_Uv : DateTime -> option bytes).

Definition php_scylladb_timestamp_from_datetime (d : DateTime) : option Z :=
  match format_Uv d with Some formatted => Some (fst (fst (strtol formatted 10))) | None => None end.

Inductive timestamp_result := MadeTimestamp (t : Z) | TimestampThrown | TimestampUndefined.

(** [new Timestamp($time, $microseconds)]: an argument that is not given is -1. *)
Definition Timestamp_construct (now_seconds now_microseconds : Z) (time : option (DateTime + Z)) (microseconds : option Z) : timestamp_result :=
  match time, microseconds with
  | Some (inl _), Some _ => TimestampThrown
  | Some (inl datetime), None => match php_scylladb_timestamp_from_datetime datetime with Some t => MadeTimestamp t | None => TimestampThrown end
  | _, _ =>
      let seconds := match time with Some (inr n) => n | _ => -1 end in
      match php_scylladb_timestamp_initialize now_seconds now_microseconds seconds (default (-1) microseconds) with Value t => MadeTimestamp t | _ => TimestampUndefined end
  end.
End datetime.

(** ** Duration *)

Inductive got := Got (v : Z) | GotRefused | GotUndefined.

Definition double_ge (d : double) (z : Z) : bool := match d with NaN => false | _ => negb (double_lt d z) end.
(** The conversion to an integer: towards zero. *)
Definition truncated (d : double) : option Z := match d with Finite m e => Some (if 0 <=? e then m * 2 ^ e else Z.quot m (2 ^ (- e))) | _ => None end.

(** [(double) max]: exact, but 2^63 for INT64_MAX. *)
Definition as_double (max : Z) : Z := if max =? INT64_MAX then 2 ^ 63 else max.

Definition within (min max v : Z) : got := if (max <? v) || (v <? min) then GotRefused else Got v.

Definition get_param (value : zval) (min max : Z) : got :=
  match value with
  | IsLong v => within min max v
  | IsDouble d =>
      if double_ge d (2 ^ 63) || double_gt d (as_double max) || double_lt d min then GotRefused
      else match truncated d with Some v => Got v | None => GotUndefined end
  | IsString s => match php_scylladb_parse_bigint s with Parsed v => within min max v | _ => GotRefused end
  | IsBigint v => within min max v
  | _ => GotRefused
  end.

(** [DateInterval]: a field that is not set is none. *)
Record rel_time := { ry : option Z; rm : option Z; rd : option Z; rh : option Z; ri : option Z; rs : option Z; rus : option Z; invert : bool }.

Definition rel_time_field (v : option Z) : Z := match v with Some v => v | None => 0 end.

(** [__builtin_mul_overflow], [__builtin_add_overflow]: the wrapped result, and whether it wrapped. *)
Definition checked (z : Z) : Z * bool := (wrapS 64 z, negb (fits64 z)).

Inductive duration_result := MadeDuration (d : CassDuration) | DurationThrown | DurationUndefined.

Definition duration_from_date_interval (interval : option rel_time) : duration_result :=
  match interval with
  | None => DurationThrown
  | Some rel =>
      let days := rel_time_field (rd rel) in
      let '(years, o1) := checked (rel_time_field (ry rel) * 12) in
      let '(months, o2) := checked (years + rel_time_field (rm rel)) in
      let '(hours, o3) := checked (rel_time_field (rh rel) * 3600) in
      let '(minutes, o4) := checked (rel_time_field (ri rel) * 60) in
      let '(seconds, o5) := checked (hours + minutes) in
      let '(seconds, o6) := checked (seconds + rel_time_field (rs rel)) in
      let '(nanos, o7) := checked (seconds * 1000000000) in
      let '(part, o8) := checked (rel_time_field (rus rel) * 1000) in
      let '(nanos, o9) := checked (nanos + part) in
      if (o1 || o2 || o3 || o4 || o5 || o6 || o7 || o8 || o9) || (INT_MAX <? months) || (months <? INT_MIN) || (INT_MAX <? days) || (days <? INT_MIN) || (nanos =? INT64_MIN) then DurationThrown
      else
        let '(months, days, nanos) := if invert rel then (- months, - days, - nanos) else (months, days, nanos) in
        MadeDuration {| Serialization.months := wrapS 32 months; Serialization.days := wrapS 32 days; Serialization.nanos := nanos |}
  end.

Definition same_signs (d : CassDuration) : bool :=
  (months d <=? 0) && (days d <=? 0) && (nanos d <=? 0) || (0 <=? months d) && (0 <=? days d) && (0 <=? nanos d).

(** The constructor: an interval, or three numbers; other counts of arguments are refused. *)
Inductive duration_args := FromInterval (interval : option rel_time) (others : nat) | Three (months days nanos : zval) | OtherCount.

Definition got_then (g : got) (f : Z -> duration_result) : duration_result := match g with Got v => f v | GotRefused => DurationThrown | GotUndefined => DurationUndefined end.

Definition php_scylladb_duration_init (args : duration_args) : duration_result :=
  match args with
  | FromInterval interval O => duration_from_date_interval interval
  | FromInterval _ _ | OtherCount => DurationThrown
  | Three m d n =>
      got_then (get_param m INT_MIN INT_MAX) (fun m =>
      got_then (get_param d INT_MIN INT_MAX) (fun d =>
      got_then (get_param n INT64_MIN INT64_MAX) (fun n =>
      let dur := {| months := wrapS 32 m; days := wrapS 32 d; nanos := n |} in
      if same_signs dur then MadeDuration dur else DurationThrown)))
  end.

(** [None]: the negation of the least value is undefined. *)
Definition duration_to_string (d : CassDuration) : option bytes :=
  if (months d =? INT_MIN) || (days d =? INT_MIN) || (nanos d =? INT64_MIN) then None
  else Some ((if (months d <? 0) || (days d <? 0) || (nanos d <? 0) then bs "-" else []) ++
             show_dec (Z.abs (months d)) ++ bs "mo" ++ show_dec (Z.abs (days d)) ++ bs "d" ++ show_dec (Z.abs (nanos d)) ++ bs "ns").

(** ** Dates and times *)

Lemma wrapU_shift z : exists k, wrapU 64 z = z + k * 2 ^ 64.
Proof. exists (- (z / 2 ^ 64)). unfold wrapU. pose proof (Z.div_mod z (2 ^ 64)). lia. Qed.

Lemma wrapS_shift z k : wrapS 64 (z + k * 2 ^ 64) = wrapS 64 z.
Proof. unfold wrapS. replace (z + k * 2 ^ 64 + 2 ^ (64 - 1)) with (z + 2 ^ (64 - 1) + k * 2 ^ 64) by lia. by rewrite Z.mod_add by lia. Qed.

Lemma to_epoch date time : cass_date_time_to_epoch date time = wrapS 64 ((date - CASS_DATE_EPOCH) * NUM_SECONDS_PER_DAY + Z.quot time CASS_TIME_NANOSECONDS_PER_SECOND).
Proof.
  unfold cass_date_time_to_epoch. destruct (wrapU_shift (date - CASS_DATE_EPOCH)) as [k1 ->]. destruct (wrapU_shift ((date - CASS_DATE_EPOCH + k1 * 2 ^ 64) * NUM_SECONDS_PER_DAY)) as [k2 ->].
  match goal with |- wrapS 64 (wrapU 64 ?z) = _ => destruct (wrapU_shift z) as [k3 ->] end. rewrite <- (wrapS_shift ((date - CASS_DATE_EPOCH) * NUM_SECONDS_PER_DAY + Z.quot time CASS_TIME_NANOSECONDS_PER_SECOND) (k1 * NUM_SECONDS_PER_DAY + k2 + k3)). f_equal. unfold NUM_SECONDS_PER_DAY. lia.
Qed.

(** The seconds of which the day fits. *)
Definition day_fits (s : Z) : Prop := - 2 ^ 31 <= Z.quot s NUM_SECONDS_PER_DAY < 2 ^ 31.

Lemma date_exact s : day_fits s -> cass_date_from_epoch s = Z.quot s NUM_SECONDS_PER_DAY + CASS_DATE_EPOCH.
Proof. intros H. unfold cass_date_from_epoch, day_fits in *. apply wrapU_id. unfold in_u, CASS_DATE_EPOCH. lia. Qed.

Lemma epoch_exact date time : in_u 32 date -> Z.abs time < 2 ^ 62 -> cass_date_time_to_epoch date time = (date - CASS_DATE_EPOCH) * NUM_SECONDS_PER_DAY + Z.quot time CASS_TIME_NANOSECONDS_PER_SECOND.
Proof.
  intros Hd Ht. rewrite to_epoch. apply wrapS_id; [lia|]. unfold in_s, in_u, CASS_DATE_EPOCH, NUM_SECONDS_PER_DAY, CASS_TIME_NANOSECONDS_PER_SECOND in *.
  pose proof (Z.quot_rem' time 1000000000). pose proof (Z.rem_bound_abs time 1000000000 ltac:(lia)). lia.
Qed.

Lemma quot_day s : s = NUM_SECONDS_PER_DAY * Z.quot s NUM_SECONDS_PER_DAY + Z.rem s NUM_SECONDS_PER_DAY /\ Z.abs (Z.rem s NUM_SECONDS_PER_DAY) < NUM_SECONDS_PER_DAY /\
  (0 <= s -> 0 <= Z.rem s NUM_SECONDS_PER_DAY) /\ (s <= 0 -> Z.rem s NUM_SECONDS_PER_DAY <= 0).
Proof.
  unfold NUM_SECONDS_PER_DAY. split; [apply Z.quot_rem'|]. split; [pose proof (Z.rem_bound_abs s (24 * 60 * 60)); lia|]. split; intros H; [apply Z.rem_nonneg|apply Z.rem_nonpos]; lia.
Qed.

Lemma time_seconds s : Z.quot (cass_time_from_epoch s) CASS_TIME_NANOSECONDS_PER_SECOND = Z.rem s NUM_SECONDS_PER_DAY.
Proof. unfold cass_time_from_epoch, CASS_TIME_NANOSECONDS_PER_SECOND. rewrite Z.mul_comm, Z.quot_mul; lia. Qed.

Lemma time_small s : Z.abs (cass_time_from_epoch s) < 2 ^ 62.
Proof. destruct (quot_day s) as (_ & H & _). unfold cass_time_from_epoch, CASS_TIME_NANOSECONDS_PER_SECOND, NUM_SECONDS_PER_DAY in *. lia. Qed.

(** A moment as a date and a time.  For every number of seconds whose day fits, the date and the time made from it give it back
    when they are put together, and a date gives back the seconds of its day and is made
    from them again.  From 1970 on the date is the day of the moment and the time a time of day, which the constructor of [Time] accepts, from a number and from its text.
    Before 1970 a moment inside a day has the date of the next day and a negative time, which no constructor accepts. *)
Theorem date_and_time_recombined s : day_fits s ->
  let date := Date_fromDateTime s in
  let time := Time_fromDateTime s in
  Date_toDateTime date (Some time) = s /\ Date_seconds date = s - Z.rem s NUM_SECONDS_PER_DAY /\ Date_fromDateTime (Date_seconds date) = date /\
  (0 <= s -> Date_seconds date = NUM_SECONDS_PER_DAY * (s / NUM_SECONDS_PER_DAY) /\
     forall now_s now_ns, php_scylladb_time_initialize now_s now_ns (Some (Long time)) = inr time /\ php_scylladb_time_initialize now_s now_ns (Some (Str (Time_toString time))) = inr time) /\
  (s < 0 -> s mod NUM_SECONDS_PER_DAY <> 0 -> Date_seconds date = NUM_SECONDS_PER_DAY * (s / NUM_SECONDS_PER_DAY + 1) /\
     forall now_s now_ns, php_scylladb_time_initialize now_s now_ns (Some (Long time)) = inl OutOfDay).
Proof.
  intros Hf date time. destruct (quot_day s) as (Hq & Hr & Hpos & Hneg). assert (time = cass_time_from_epoch s) as Et by (unfold time, Time_fromDateTime, cass_time_from_epoch, CASS_TIME_NANOSECONDS_PER_SECOND, NUM_SECONDS_PER_DAY; change (24 * 60 * 60) with 86400; lia).
  assert (date = Z.quot s NUM_SECONDS_PER_DAY + CASS_DATE_EPOCH) as Ed by (by apply date_exact). assert (in_u 32 date) as Hd by (unfold in_u, CASS_DATE_EPOCH, day_fits in *; lia).
  assert (Date_seconds date = s - Z.rem s NUM_SECONDS_PER_DAY) as Es by (unfold Date_seconds; rewrite epoch_exact by (done || lia); rewrite Z.quot_0_l by done; lia).
  split; [|split; [done|split; [|split]]].
  - unfold Date_toDateTime. rewrite Et, epoch_exact, time_seconds by (done || apply time_small). lia.
  - rewrite Es. unfold Date_fromDateTime, cass_date_from_epoch. replace (s - Z.rem s NUM_SECONDS_PER_DAY) with (Z.quot s NUM_SECONDS_PER_DAY * NUM_SECONDS_PER_DAY) by lia.
    rewrite Z.quot_mul by done. rewrite <- Ed. by apply wrapU_id.
  - intros Hs. split; [rewrite Es, Z.rem_mod_nonneg by (done || lia); pose proof (Z.div_mod s NUM_SECONDS_PER_DAY ltac:(done)); lia|]. intros now_s now_ns.
    assert (in_day time = inr time) as Hin. { unfold in_day. rewrite Et. specialize (Hpos Hs). unfold cass_time_from_epoch, CASS_TIME_NANOSECONDS_PER_SECOND, NUM_NANOSECONDS_PER_DAY, NUM_SECONDS_PER_DAY in *. destruct (_ || _) eqn:E; [lia|done]. }
    split; [exact Hin|]. cbn [php_scylladb_time_initialize]. unfold Time_toString. rewrite parse_bigint_show; [exact Hin|]. pose proof (time_small s). unfold in_s. lia.
  - intros Hs Hm. assert (Z.rem s NUM_SECONDS_PER_DAY <> 0) as Hrn by (intros E; apply Hm; apply Z.rem_mod_eq_0; done). specialize (Hneg ltac:(lia)). split.
    + rewrite Es. replace (s - Z.rem s NUM_SECONDS_PER_DAY) with (NUM_SECONDS_PER_DAY * Z.quot s NUM_SECONDS_PER_DAY) by lia. f_equal. enough (s / NUM_SECONDS_PER_DAY = Z.quot s NUM_SECONDS_PER_DAY - 1) by lia. symmetry. apply Z.div_unique with (Z.rem s NUM_SECONDS_PER_DAY + NUM_SECONDS_PER_DAY); [left|]; unfold NUM_SECONDS_PER_DAY in *; lia.
    + intros now_s now_ns. cbn [php_scylladb_time_initialize]. unfold in_day. replace (time <? 0) with true; [done|]. rewrite Et. unfold cass_time_from_epoch, CASS_TIME_NANOSECONDS_PER_SECOND in *. lia.
Qed.

(** Noon on 1 January 2000, and noon on the last day of 1969. *)
Lemma date_and_time_recombined_witness :
  Date_toDateTime (Date_fromDateTime 946728000) (Some (Time_fromDateTime 946728000)) = 946728000 /\
  Date_seconds (Date_fromDateTime (-43200)) = 0 /\ php_scylladb_time_initialize 0 0 (Some (Long (Time_fromDateTime (-43200)))) = inl OutOfDay.
Proof.
  split; [apply (date_and_time_recombined 946728000); by vm_compute|].
  destruct (date_and_time_recombined (-43200) ltac:(by vm_compute)) as (_ & _ & _ & _ & H). destruct (H ltac:(lia) ltac:(by vm_compute)) as [H1 H2]. by split; [rewrite H1; vm_compute|].
Defined.

(** ** Timestamps *)

Definition three_digits (n : Z) : bytes := [48 + n / 100; 48 + n / 10 mod 10; 48 + n mod 10].

Lemma three_digits_value n : 0 <= n < 1000 -> Forall (fun c => isdigit c = true) (three_digits n) /\ of_digits 10 (map digit_val (three_digits n)) = n.
Proof.
  intros H. assert (forallb (fun n => forallb isdigit (three_digits n) && (of_digits 10 (map digit_val (three_digits n)) =? n)) (seqZ 0 1000) = true) as Hall by by vm_compute.
  rewrite forallb_forall in Hall. specialize (Hall n ltac:(apply list_elem_of_In, elem_of_seqZ; lia)). apply andb_prop in Hall as [H1 H2]. split; [|lia]. apply List.Forall_forall. by apply forallb_forall.
Qed.

Lemma strto_prefix_10 s : strto_prefix 10 s = (10, s).
Proof. unfold strto_prefix. cbn [Z.eqb Pos.eqb orb andb]. destruct s as [|z s]; [done|]. destruct (z =? 48); [|done]. by destruct s as [|x [|d s]]. Qed.

Lemma digits_below c : isdigit c = true -> (digit_val c <? 10) = true.
Proof. unfold isdigit, digit_val. intros H. unfold isdigit. rewrite H. lia. Qed.

Lemma strtol_joined s ms : Z.abs s < 2 ^ 53 -> 0 <= ms < 1000 -> fst (fst (strtol (show_dec s ++ three_digits ms) 10)) = if s <? 0 then s * 1000 - ms else s * 1000 + ms.
Proof.
  intros Hs Hm. destruct (three_digits_value ms Hm) as [Hd Hv]. pose proof (show_nat_isdigit (Z.abs s) ltac:(lia)) as Hn.
  assert (strto (minus_bytes (s <? 0) ++ show_nat 10 (Z.abs s) ++ three_digits ms) 10 = {| strto_neg := s <? 0; strto_magnitude := Z.abs s * 1000 + ms;
            strto_consumed := zlen (minus_bytes (s <? 0) ++ show_nat 10 (Z.abs s) ++ three_digits ms) |}) as E.
  { rewrite (strto_signed (s <? 0) _ 10 10 (show_nat 10 (Z.abs s) ++ three_digits ms)).
    - f_equal. rewrite map_app, of_digits_app, show_nat_value, Hv by lia. done.
    - destruct (show_nat_digit_hd (Z.abs s) ltac:(lia)) as (c & l & -> & Hc). by exists c, (l ++ three_digits ms).
    - apply strto_prefix_10.
    - destruct (show_nat_digit_hd (Z.abs s) ltac:(lia)) as (c & l & -> & Hc). done.
    - apply span_all. apply Forall_app. split; (eapply Forall_impl; [|eassumption]; apply digits_below). }
  unfold strtol. rewrite show_dec_split, <- app_assoc, E. cbn [strto_neg strto_magnitude]. unfold INT64_MIN, INT64_MAX.
  destruct (Z.ltb_spec s 0); [replace (- (Z.abs s * 1000 + ms)) with (s * 1000 - ms) by lia|replace (Z.abs s * 1000 + ms) with (s * 1000 + ms) by lia];
    repeat (match goal with |- context [?a <? ?b] => destruct (Z.ltb_spec a b); [lia|] end); done.
Qed.

Section timestamps.
Context {DateTime : Type} (format_Uv : DateTime -> option bytes) (sse us : DateTime -> Z).

(** What PHP documents: U is the seconds, rounded down, and v the milliseconds in three digits. *)
Context (Hus : forall d, 0 <= us d < 1000000) (Hformat : forall d, format_Uv d = Some (show_dec (sse d) ++ three_digits (us d / 1000))).

(** Timestamps.  The constructor takes seconds and microseconds to milliseconds, except that -1 and -1, the default
    of an argument that is not given, is the clock's time: a timestamp of -1 seconds is now.  It refuses microseconds beside a [DateTime].  A timestamp from a [DateTime] has
    its milliseconds from 1970 on; before, the milliseconds are subtracted where they should be added, so that it is
    right exactly when there are none.  The text for [toDateTime] has the milliseconds without their leading zeros. *)
Theorem timestamps_converted now_s now_us : Z.abs now_s < 2 ^ 53 -> in_s 64 now_us ->
  (forall s m, Z.abs s < 2 ^ 53 -> in_s 64 (default (-1) m) -> Timestamp_construct format_Uv now_s now_us (Some (inr s)) m =
     MadeTimestamp (if (s =? -1) && (default (-1) m =? -1) then now_s * 1000 + Z.quot now_us 1000 else s * 1000 + Z.quot (default (-1) m) 1000)) /\
  (forall d m, Timestamp_construct format_Uv now_s now_us (Some (inl d)) (Some m) = TimestampThrown) /\
  (forall d, Z.abs (sse d) < 2 ^ 53 ->
     let ms := sse d * 1000 + us d / 1000 in
     Timestamp_construct format_Uv now_s now_us (Some (inl d)) None = MadeTimestamp (if 0 <=? sse d then ms else ms - 2 * (us d / 1000)) /\
     (Timestamp_construct format_Uv now_s now_us (Some (inl d)) None = MadeTimestamp ms <-> 0 <= sse d \/ us d / 1000 = 0)) /\
  (forall t, 0 <= t -> timestamp_to_datetime_get_timestamp t = show_dec (t / 1000) ++ bs "." ++ show_dec (t mod 1000)) /\
  timestamp_to_datetime_get_timestamp 1005 = bs "1.5" /\ timestamp_to_datetime_get_timestamp (-1500) = bs "-1.-500".
Proof using Hus Hformat.
  intros Hns Hnu. assert (forall s m, Z.abs s < 2 ^ 53 -> in_s 64 m -> fits64 (s * 1000) = true /\ fits64 (s * 1000 + Z.quot m 1000) = true) as Hfit.
  { intros s m Hs Hm. unfold in_s in Hm. pose proof (Z.quot_rem' m 1000). pose proof (Z.rem_bound_abs m 1000 ltac:(lia)). unfold fits64, INT64_MIN, INT64_MAX. lia. }
  split; [|split; [done|split; [|split; [|split; by vm_compute]]]].
  - intros s m Hs Hm. cbn [Timestamp_construct]. unfold php_scylladb_timestamp_initialize. destruct (Hfit _ _ Hns Hnu) as [F1 F2], (Hfit _ _ Hs Hm) as [F3 F4].
    destruct ((s =? -1) && (default (-1) m =? -1)); [by rewrite F1, F2; destruct m|by rewrite F3, F4; destruct m].
  - intros d Hd ms. assert (0 <= us d / 1000 < 1000) as Hms by (pose proof (Hus d); split; [apply Z.div_pos; lia|apply Z.div_lt_upper_bound; lia]).
    assert (Timestamp_construct format_Uv now_s now_us (Some (inl d)) None = MadeTimestamp (if 0 <=? sse d then ms else ms - 2 * (us d / 1000))) as E.
    { cbn [Timestamp_construct]. unfold php_scylladb_timestamp_from_datetime. rewrite Hformat, strtol_joined by done. unfold ms. destruct (Z.ltb_spec (sse d) 0), (Z.leb_spec 0 (sse d)); f_equal; lia. }
    split; [done|]. rewrite E. destruct (Z.leb_spec 0 (sse d)); split; (intros [= ?] || intros ?); try f_equal; lia.
  - intros t Ht. unfold timestamp_to_datetime_get_timestamp. rewrite Z.quot_div_nonneg by lia. replace (t - t / 1000 * 1000) with (t mod 1000); [done|]. pose proof (Z.div_mod t 1000). lia.
Qed.
End timestamps.

Lemma timestamps_converted_witness :
  let format d := Some (show_dec (fst d) ++ three_digits (snd d mod 1000000 / 1000)) in
  Timestamp_construct format 100 0 (Some (inl (-2, 500000))) None = MadeTimestamp (-2500) /\ Timestamp_construct format 100 0 (Some (inr (-1))) None = MadeTimestamp 100000.
Proof.
  destruct (timestamps_converted (fun d : Z * Z => Some (show_dec (fst d) ++ three_digits (snd d mod 1000000 / 1000))) fst (fun d => snd d mod 1000000) ltac:(intros d; apply Z.mod_pos_bound; lia) ltac:(done) 100 0 ltac:(lia) ltac:(unfold in_s; lia)) as (H1 & _ & H2 & _).
  split; [destruct (H2 (-2, 500000) ltac:(cbn; lia)) as [-> _]; by vm_compute|rewrite H1 by (cbn; unfold in_s; lia); by vm_compute].
Defined.

(** ** Durations *)

Definition sound_duration (d : CassDuration) : Prop := in_s 32 (months d) /\ in_s 32 (days d) /\ in_s 64 (nanos d).

Lemma within_got min max v w : within min max v = Got w -> w = v /\ min <= v <= max.
Proof. unfold within. destruct (Z.ltb_spec max v), (Z.ltb_spec v min); cbn; try done. intros [= <-]. lia. Qed.

Lemma truncated_between m e lo hi : lo <= 0 <= hi -> double_lt (Finite m e) lo = false -> double_gt (Finite m e) hi = false -> forall v, truncated (Finite m e) = Some v -> lo <= v <= hi.
Proof.
  intros H0 Hl Hg v [= <-]. unfold double_lt, double_gt in *. destruct (Z.leb_spec 0 e); [lia|]. set (p := 2 ^ (- e)) in *. assert (0 < p) by (apply Z.pow_pos_nonneg; lia).
  split.
  - destruct (Z.le_gt_cases 0 m); [pose proof (Z.quot_pos m p); lia|]. rewrite <- (Z.opp_involutive m), Z.quot_opp_l by lia. assert (Z.quot (- m) p <= - lo); [|lia]. apply Z.quot_le_upper_bound; lia || nia.
  - destruct (Z.le_gt_cases 0 m); [apply Z.quot_le_upper_bound; lia || nia|]. rewrite <- (Z.opp_involutive m), Z.quot_opp_l by lia. pose proof (Z.quot_pos (- m) p). lia.
Qed.

Lemma get_param_got value min max v : min <= 0 <= max -> (min = INT64_MIN /\ max = INT64_MAX \/ INT_MIN <= min /\ max <= INT_MAX) -> in_s 64 (match value with IsBigint n | IsLong n => n | _ => 0 end) ->
  get_param value min max = Got v -> min <= v <= max.
Proof.
  intros H0 Hm Hin. destruct value as [n|d|s| | |n| |]; cbn [get_param]; try done; try (by intros [-> ?]%within_got).
  - destruct (double_ge d (2 ^ 63) || double_gt d (as_double max) || double_lt d min) eqn:E; [done|]. apply orb_false_elim in E as [[E1 E2]%orb_false_elim E3].
    destruct (truncated d) as [w|] eqn:Et; [|done]. intros [= <-]. destruct d as [m e| |]; try done. unfold as_double in E2.
    assert (min <= w <= (if max =? INT64_MAX then 2 ^ 63 else max)) as Hw by (eapply truncated_between; [|done|done|done]; destruct (Z.eqb_spec max INT64_MAX); lia).
    destruct (Z.eqb_spec max INT64_MAX) as [->|]; [|done]. enough (w <> 2 ^ 63) by (unfold INT64_MAX; lia). intros ->. unfold double_ge, double_lt in E1. injection Et as Et. destruct (Z.leb_spec 0 e); [lia|].
    set (p := 2 ^ (- e)) in *. assert (0 < p) by (apply Z.pow_pos_nonneg; lia). pose proof (Z.quot_rem' m p). destruct (Z.le_gt_cases 0 m); [pose proof (Z.rem_nonneg m p); lia|].
    rewrite <- (Z.opp_involutive m), Z.quot_opp_l in Et by lia. pose proof (Z.quot_pos (- m) p). lia.
  - destruct (php_scylladb_parse_bigint s); try done. by intros [-> ?]%within_got.
Qed.

Lemma wrapS_small v : INT_MIN <= v <= INT_MAX -> wrapS 32 v = v /\ in_s 32 v.
Proof. intros H. unfold INT_MIN, INT_MAX in H. assert (in_s 32 v) by (unfold in_s; lia). split; [by apply wrapS_id|done]. Qed.

(** Numbers of PHP are 64-bit integers. *)
Definition php_number (v : zval) : Prop := in_s 64 (match v with IsBigint n | IsLong n => n | _ => 0 end).

Lemma not_wrapped z : snd (checked z) = false -> fst (checked z) = z /\ in_s 64 z.
Proof. unfold checked, fits64, INT64_MIN, INT64_MAX. cbn [fst snd]. intros H. assert (in_s 64 z) by (unfold in_s; lia). split; [by apply wrapS_id|done]. Qed.

(** The exact months, days and nanoseconds of an interval. *)
Definition interval_months (r : rel_time) : Z := rel_time_field (ry r) * 12 + rel_time_field (rm r).
Definition interval_days (r : rel_time) : Z := rel_time_field (rd r).
Definition interval_nanos (r : rel_time) : Z := (rel_time_field (rh r) * 3600 + rel_time_field (ri r) * 60 + rel_time_field (rs r)) * 1000000000 + rel_time_field (rus r) * 1000.
Definition directed (r : rel_time) (z : Z) : Z := if invert r then - z else z.

(** What the interval's parts become: exact, or thrown. *)
Lemma interval_cases r : duration_from_date_interval (Some r) = DurationThrown \/
  INT_MIN <= interval_months r <= INT_MAX /\ INT_MIN <= interval_days r <= INT_MAX /\ in_s 64 (interval_nanos r) /\ interval_nanos r <> INT64_MIN /\
  duration_from_date_interval (Some r) = MadeDuration {| months := wrapS 32 (directed r (interval_months r)); days := wrapS 32 (directed r (interval_days r)); nanos := directed r (interval_nanos r) |}.
Proof.
  cbn [duration_from_date_interval]. unfold interval_months, interval_days, interval_nanos, directed.
  repeat match goal with |- context [checked ?z] => let E := fresh "E" in let o := fresh "o" in pose proof (not_wrapped z) as E; destruct (checked z) as [? o]; cbn [fst snd] in E; destruct o; cbn [orb]; [by left|destruct (E eq_refl) as [-> ?]; clear E] end.
  destruct (_ || _) eqn:E; [by left|]. right. rewrite !orb_false_iff in E. destruct (invert r); (split; [lia|]); (split; [lia|]); (split; [done|]); (split; [lia|done]).
Qed.

Lemma got_within v min max : got_then (within min max v) = fun f => if (min <=? v) && (v <=? max) then f v else DurationThrown.
Proof. unfold within. destruct (Z.ltb_spec max v), (Z.ltb_spec v min), (Z.leb_spec min v), (Z.leb_spec v max); try lia; done. Qed.

(** ** The text of a duration *)

Definition negative (d : CassDuration) : bool := (months d <? 0) || (days d <? 0) || (nanos d <? 0).
Definition magnitudes (d : CassDuration) : bytes := show_nat 10 (Z.abs (months d)) ++ bs "mo" ++ show_nat 10 (Z.abs (days d)) ++ bs "d" ++ show_nat 10 (Z.abs (nanos d)) ++ bs "ns".

Lemma show_dec_abs z : show_dec (Z.abs z) = show_nat 10 (Z.abs z).
Proof. unfold show_dec. destruct (Z.ltb_spec (Z.abs z) 0); [lia|done]. Qed.

Lemma to_string_eq d s : duration_to_string d = Some s -> s = (if negative d then [45] else []) ++ magnitudes d.
Proof. unfold duration_to_string. destruct (_ || _); [done|]. intros [= <-]. rewrite !show_dec_abs. done. Qed.

Lemma show_nat_inj_app a b r1 r2 : 0 <= a -> 0 <= b -> stops isdigit r1 -> stops isdigit r2 -> show_nat 10 a ++ r1 = show_nat 10 b ++ r2 -> a = b /\ r1 = r2.
Proof.
  intros Ha Hb H1 H2 E. pose proof (span_app isdigit _ r1 (show_nat_isdigit a Ha) H1) as E1. rewrite E, (span_app isdigit _ r2 (show_nat_isdigit b Hb) H2) in E1. injection E1 as E1 E2. split; [|done].
  rewrite <- (show_nat_value 10 a), <- (show_nat_value 10 b) by lia. by rewrite E1.
Qed.

Lemma magnitudes_inj d1 d2 : magnitudes d1 = magnitudes d2 -> Z.abs (months d1) = Z.abs (months d2) /\ Z.abs (days d1) = Z.abs (days d2) /\ Z.abs (nanos d1) = Z.abs (nanos d2).
Proof.
  intros E. apply show_nat_inj_app in E as [-> E]; [|lia|lia|done|done]. apply app_inv_head in E. apply show_nat_inj_app in E as [-> E]; [|lia|lia|done|done]. apply app_inv_head in E.
  apply show_nat_inj_app in E as [-> _]; [done|lia|lia|done|done].
Qed.

Lemma signs_determined d : same_signs d = true -> months d = (if negative d then - Z.abs (months d) else Z.abs (months d)) /\ days d = (if negative d then - Z.abs (days d) else Z.abs (days d)) /\
  nanos d = (if negative d then - Z.abs (nanos d) else Z.abs (nanos d)).
Proof. unfold same_signs, negative. intros H. destruct (_ || _) eqn:E in |- *; lia. Qed.

(** A text without a sign starts with a digit. *)
Lemma magnitudes_hd d : exists c l, magnitudes d = c :: l /\ isdigit c = true.
Proof. destruct (show_nat_digit_hd (Z.abs (months d)) ltac:(lia)) as (c & l & E & G). unfold magnitudes. rewrite E. by eexists _, _. Qed.

Lemma text_inj d1 d2 s : same_signs d1 = true -> same_signs d2 = true -> duration_to_string d1 = Some s -> duration_to_string d2 = Some s -> d1 = d2.
Proof.
  intros H1 H2 E1%to_string_eq E2%to_string_eq. rewrite E1 in E2. clear E1. assert (negative d1 = negative d2 /\ magnitudes d1 = magnitudes d2) as [En Em].
  { destruct (magnitudes_hd d1) as (c1 & l1 & F1 & G1), (magnitudes_hd d2) as (c2 & l2 & F2 & G2). rewrite F1, F2 in *.
    destruct (negative d1), (negative d2); cbn [app] in E2; [split; congruence|replace c2 with 45 in G2 by congruence; done|replace c1 with 45 in G1 by congruence; done|split; congruence]. }
  apply magnitudes_inj in Em as (A1 & A2 & A3). destruct (signs_determined d1 H1) as (B1 & B2 & B3), (signs_determined d2 H2) as (C1 & C2 & C3).
  rewrite En, A1, <- C1 in B1. rewrite En, A2, <- C2 in B2. rewrite En, A3, <- C3 in B3. destruct d1 as [m1 e1 n1], d2 as [m2 e2 n2]. cbn [months days nanos] in B1, B2, B3. congruence.
Qed.

(** C32: durations.  The constructor accepts three integers exactly when months and days fit 32 bits and no two have different signs, and keeps them; whatever
    it is given, what it makes fits its fields and has one sign.  A [DateInterval] is converted exactly, to months, days and nanoseconds in its direction, or
    refused; the exception is an inverted interval of -2^31 months or days, which stays negative.
    Durations of one sign with the same text are equal. *)
Theorem durations_exact :
  (forall m d n, in_s 64 n -> php_scylladb_duration_init (Three (IsLong m) (IsLong d) (IsLong n)) =
     let dur := {| months := m; days := d; nanos := n |} in
     if (INT_MIN <=? m) && (m <=? INT_MAX) && (INT_MIN <=? d) && (d <=? INT_MAX) && same_signs dur then MadeDuration dur else DurationThrown) /\
  (forall m d n dur, php_number m -> php_number d -> php_number n -> php_scylladb_duration_init (Three m d n) = MadeDuration dur -> sound_duration dur /\ same_signs dur = true) /\
  (forall r, duration_from_date_interval (Some r) = DurationThrown \/
     exists dur, duration_from_date_interval (Some r) = MadeDuration dur /\ nanos dur = directed r (interval_nanos r) /\
       months dur = (if invert r && (interval_months r =? INT_MIN) then INT_MIN else directed r (interval_months r)) /\
       days dur = (if invert r && (interval_days r =? INT_MIN) then INT_MIN else directed r (interval_days r))) /\
  (forall d1 d2 s, same_signs d1 = true -> same_signs d2 = true -> duration_to_string d1 = Some s -> duration_to_string d2 = Some s -> d1 = d2).
Proof.
  split; [|split; [|split]].
  - intros m d n Hn. cbn [php_scylladb_duration_init get_param]. rewrite !got_within. destruct ((INT_MIN <=? m) && (m <=? INT_MAX)) eqn:Em; [|done]. destruct (Z.leb_spec INT_MIN d), (Z.leb_spec d INT_MAX); try done.
    replace ((INT64_MIN <=? n) && (n <=? INT64_MAX)) with true by (unfold in_s, INT64_MIN, INT64_MAX in *; lia). destruct (wrapS_small m ltac:(lia)) as [-> _]. by destruct (wrapS_small d ltac:(lia)) as [-> _].
  - intros m d n dur Hm Hd Hn. cbn [php_scylladb_duration_init]. assert (INT_MIN <= 0 <= INT_MAX) as H32 by done.
    destruct (get_param m INT_MIN INT_MAX) as [m'| |] eqn:Em; try done. apply get_param_got in Em; [|done|by right|done]. destruct (get_param d INT_MIN INT_MAX) as [d'| |] eqn:Ed; try done.
    apply get_param_got in Ed; [|done|by right|done]. destruct (get_param n INT64_MIN INT64_MAX) as [n'| |] eqn:En; try done. apply get_param_got in En; [|done|by left|done]. cbn [got_then].
    destruct (same_signs _) eqn:Es; [|done]. intros [= <-]. split; [|done]. destruct (wrapS_small m' Em) as [E1 F1], (wrapS_small d' Ed) as [E2 F2]. split; [cbn; by rewrite E1|]. split; [cbn; by rewrite E2|].
    cbn. unfold in_s, INT64_MIN, INT64_MAX in *. lia.
  - intros r. destruct (interval_cases r) as [H|(Hm & Hd & Hn & Hx & E)]; [by left|]. right. eexists. split; [exact E|]. cbn [months days nanos]. split; [done|].
    assert (forall z, INT_MIN <= z <= INT_MAX -> wrapS 32 (directed r z) = (if invert r && (z =? INT_MIN) then INT_MIN else directed r z)) as Hw; [|by split; apply Hw].
    intros z Hz. unfold directed. destruct (invert r); cbn [andb]; [|by apply wrapS_small]. destruct (Z.eqb_spec z INT_MIN) as [->|]; [done|]. apply wrapS_small. unfold INT_MIN, INT_MAX in *. lia.
  - intros d1 d2 s. apply text_inj.
Qed.

Lemma durations_exact_witness :
  php_scylladb_duration_init (Three (IsLong 14) (IsLong 3) (IsLong 0)) = MadeDuration {| months := 14; days := 3; nanos := 0 |} /\ php_scylladb_duration_init (Three (IsLong 1) (IsLong (-1)) (IsLong 0)) = DurationThrown.
Proof. destruct durations_exact as (H & _). split; rewrite H by (unfold in_s; lia); reflexivity. Defined.

(** A [DateInterval] with parts of both signs makes a duration the constructor refuses, a number that is not one is converted, and the least months have no text. *)
Example duration_limits :
  (exists dur, duration_from_date_interval (Some {| ry := Some 1; rm := None; rd := Some (-5); rh := None; ri := None; rs := None; rus := None; invert := false |}) = MadeDuration dur /\ same_signs dur = false) /\
  php_scylladb_duration_init (Three (IsDouble NaN) (IsLong 0) (IsLong 0)) = DurationUndefined /\
  duration_to_string {| months := INT_MIN; days := 0; nanos := 0 |} = None.
Proof. split; [eexists; by vm_compute|by vm_compute]. Qed.
