(* ===== verification/PollLoop.v ===== *)
(** The event loop [Cassandra\Async\Poll] ([Async/Poll.c], [Async/PollHandle.c]).

    A watcher is known by its object handle.  The engine's [Io\Poll\Context] is not part of the repository: [wait] returns
    some of the context's watchers whose descriptors are readable, which the environment chooses, or throws; [add] and [remove] may throw.
    A descriptor of the driver is readable once its future is resolved.  PHP code is a finite tree of its actions: a callback may do whatever other code may,
    watch futures, run the loop again, catch exceptions. *)
From S2P Require Import Prelude.
From stdpp Require Import gmap fin_sets.
#[local] Open Scope nat_scope.

(** ** State *)

(** [php_scylladb_poll_watch], with the number of the call of [watch] that made it. *)
Record poll_watch := { w_future : nat; w_callback : bool; w_id : nat }.

(** What became of a watch: its callback was called, [tick] returned its future, [run] let it go, or it was dropped. *)
Inductive fate := Called | Collected | Discarded | Lost.

Record poll := {
  watched : gmap nat poll_watch;
  (** the watchers of the context with their futures; a watcher of other code has none *)
  context : gmap nat (option nat);
  (** the watchers PHP code refers to, and those in the arrays of the ticks that run *)
  held : gset nat;
  arrays : list (list nat);
  resolved : gset nat;
  (** the futures that are registered with the reactor *)
  claimed : gset nat;
  log : list (poll_watch * fate);
  next_id : nat
}.

Definition set_watched (m : gmap nat poll_watch) (s : poll) : poll :=
  {| watched := m; context := context s; held := held s; arrays := arrays s; resolved := resolved s; claimed := claimed s; log := log s; next_id := next_id s |}.
Definition set_context (c : gmap nat (option nat)) (s : poll) : poll :=
  {| watched := watched s; context := c; held := held s; arrays := arrays s; resolved := resolved s; claimed := claimed s; log := log s; next_id := next_id s |}.
Definition set_held (l : gset nat) (s : poll) : poll :=
  {| watched := watched s; context := context s; held := l; arrays := arrays s; resolved := resolved s; claimed := claimed s; log := log s; next_id := next_id s |}.
Definition set_arrays (l : list (list nat)) (s : poll) : poll :=
  {| watched := watched s; context := context s; held := held s; arrays := l; resolved := resolved s; claimed := claimed s; log := log s; next_id := next_id s |}.
Definition set_resolved (l : gset nat) (s : poll) : poll :=
  {| watched := watched s; context := context s; held := held s; arrays := arrays s; resolved := l; claimed := claimed s; log := log s; next_id := next_id s |}.
Definition add_log (l : list (poll_watch * fate)) (s : poll) : poll :=
  {| watched := watched s; context := context s; held := held s; arrays := arrays s; resolved := resolved s; claimed := claimed s; log := log s ++ l; next_id := next_id s |}.
Definition next (s : poll) : poll :=
  {| watched := watched s; context := context s; held := held s; arrays := arrays s; resolved := resolved s; claimed := claimed s; log := log s; next_id := S (next_id s) |}.

Definition new_poll (claimed : gset nat) : poll :=
  {| watched := ∅; context := ∅; held := ∅; arrays := []; resolved := ∅; claimed := claimed; log := []; next_id := 0 |}.

(** ** Operations *)

(** Handles of objects that exist. *)
Definition alive (s : poll) : gset nat := dom (context s) ∪ held s ∪ list_to_set (concat (arrays s)).
(** A handle that is free: the wanted one, or another. *)
Definition free_handle (h : nat) (s : poll) : nat := if bool_decide (h ∈ alive s) then fresh (alive s) else h.

(** [zend_hash_index_update_ptr]: an entry that is there is freed. *)
Definition put_watch (h : nat) (w : poll_watch) (s : poll) : poll :=
  set_watched (<[h := w]> (watched s)) (match watched s !! h with Some old => add_log [(old, Lost)] s | None => s end).

(** [php_scylladb_poll_handle_for_future]: whether there is a handle for the future. *)
Definition php_scylladb_poll_handle_for_future (f : nat) (no_notifier : bool) (s : poll) : bool := negb (bool_decide (f ∈ claimed s)) && negb no_notifier.

(** [Poll::watch]; [fails] says whether the notifier cannot be made or the context's [add] throws. *)
Definition Poll_watch (h f : nat) (callback : bool) (fails : bool) (s : poll) : poll * bool :=
  if negb (php_scylladb_poll_handle_for_future f fails s) then (s, false)
  else
    let h := free_handle h s in
    let s := set_held ({[h]} ∪ held s) (set_context (<[h := Some f]> (context s)) s) in
    (next (put_watch h {| w_future := f; w_callback := callback; w_id := next_id s |} s), true).

Definition Poll_pending (s : poll) : nat := size (watched s).

(** [poll_take]; [fails] says which watchers' [remove] throws. *)
Definition poll_take (fails : nat -> bool) (h : nat) (w : poll_watch) (s : poll) : bool * poll :=
  let s := set_watched (delete h (watched s)) s in
  if fails h then (false, add_log [(w, Lost)] s) else (true, set_context (delete h (context s)) s).

Definition reportable (s : poll) (h : nat) : bool :=
  match context s !! h with Some (Some f) => bool_decide (f ∈ resolved s) | Some None => true | None => false end.

(** What [wait] returns when the environment offers [l]. *)
Definition reported (s : poll) (l : list nat) : list nat := filter (fun h => reportable s h = true) (remove_dups l).

(** How code ends; [Waiting]: a [run] that still waits. *)
Inductive ending := Returned | Thrown | Waiting.

(** The first pass: the futures a callback waits for; [call n] is the [n]-th callback. *)
Fixpoint first_pass (fails : nat -> bool) (call : nat -> poll -> poll * ending) (hs : list nat) (n : nat) (s : poll) : poll * ending :=
  match hs with
  | [] => (s, Returned)
  | h :: hs =>
      match watched s !! h with
      | Some w =>
          if negb (w_callback w) then first_pass fails call hs n s
          else
            let '(ok, s) := poll_take fails h w s in
            if negb ok then (s, Thrown)
            else
              let '(s, e) := call n (add_log [(w, Called)] s) in
              match e with Returned => first_pass fails call hs (S n) s | _ => (s, e) end
      | None => first_pass fails call hs n s
      end
  end.

(** The second pass: the futures the caller reads itself; [collect] when there is an array for them. *)
Fixpoint second_pass (fails : nat -> bool) (collect : bool) (hs : list nat) (out : list poll_watch) (s : poll) : poll * ending * list poll_watch :=
  match hs with
  | [] => (add_log (map (fun w => (w, Collected)) out) s, Returned, out)
  | h :: hs =>
      match watched s !! h with
      | Some w =>
          let '(ok, s) := poll_take fails h w s in
          if negb ok then (add_log (map (fun w => (w, Lost)) out) s, Thrown, [])
          else if collect then second_pass fails collect hs (out ++ [w]) s
          else second_pass fails collect hs out (add_log [(w, Discarded)] s)
      | None => second_pass fails collect hs out s
      end
  end.

Definition poll_tick (fails : nat -> bool) (call : nat -> poll -> poll * ending) (wait : option (list nat)) (collect : bool) (s : poll) : poll * ending * list poll_watch :=
  match wait with
  | None => (s, Thrown, [])
  | Some l =>
      let hs := reported s l in
      let '(s, e) := first_pass fails call hs 0 (set_arrays (hs :: arrays s) s) in
      match e with
      | Returned => let '(s, e, out) := second_pass fails collect hs [] s in (set_arrays (tail (arrays s)) s, e, out)
      | Thrown => (set_arrays (tail (arrays s)) s, Thrown, [])
      | Waiting => (s, Waiting, [])
      end
  end.

(** [Poll::tick]: the futures of the array. *)
Definition Poll_tick (fails : nat -> bool) (call : nat -> poll -> poll * ending) (wait : poll -> option (list nat)) (s : poll) : poll * ending * list nat :=
  if decide (watched s = ∅) then (s, Returned, [])
  else let '(s, e, out) := poll_tick fails call (wait s) true s in (s, e, map w_future out).

(** [Poll::run]: each turn is a wait that has returned. *)
Fixpoint Poll_run (fails : nat -> nat -> bool) (call : nat -> nat -> poll -> poll * ending) (wait : nat -> poll -> option (list nat)) (turns turn : nat) (s : poll) : poll * ending :=
  if decide (watched s = ∅) then (s, Returned)
  else match turns with
       | O => (s, Waiting)
       | S turns =>
           let '(s, e, _) := poll_tick (fails turn) (call turn) (wait turn s) false s in
           match e with Returned => Poll_run fails call wait turns (S turn) s | _ => (s, e) end
       end.

(** ** PHP code *)

Inductive action :=
  | Watch (h f : nat) (callback fails : bool)
  | RemoveWatcher (h : nat) (** [Watcher::remove] *)
  | Release (h : nat) (** a reference to a watcher goes *)
  | AddOther (h : nat) (** a watcher on the context that is not the loop's *)
  | Resolve (f : nat).

Definition act (a : action) (s : poll) : poll * bool :=
  match a with
  | Watch h f callback fails => Poll_watch h f callback fails s
  | RemoveWatcher h => (set_context (delete h (context s)) s, true)
  | Release h => (set_held (held s ∖ {[h]}) s, true)
  | AddOther h => (set_context (<[free_handle h s := None]> (context s)) s, true)
  | Resolve f => (set_resolved ({[f]} ∪ resolved s) s, true)
  end.

Inductive code :=
  | Return (thrown : bool)
  | Do (a : action) (k : bool -> code)
  | Tick (fails : nat -> bool) (wait : poll -> option (list nat)) (callbacks : nat -> code) (k : bool -> list nat -> code)
  | Run (turns : nat) (fails : nat -> nat -> bool) (wait : nat -> poll -> option (list nat)) (callbacks : nat -> nat -> code) (k : bool -> code).

Definition is_thrown (e : ending) : bool := match e with Thrown => true | _ => false end.

Fixpoint exec (c : code) (s : poll) : poll * ending :=
  match c with
  | Return thrown => (s, if thrown then Thrown else Returned)
  | Do a k => let '(s, ok) := act a s in exec (k ok) s
  | Tick fails wait callbacks k =>
      let '(s, e, out) := Poll_tick fails (fun n => exec (callbacks n)) wait s in
      match e with Waiting => (s, Waiting) | _ => exec (k (is_thrown e) out) s end
  | Run turns fails wait callbacks k =>
      let '(s, e) := Poll_run fails (fun t n => exec (callbacks t n)) wait turns 0 s in
      match e with Waiting => (s, Waiting) | _ => exec (k (is_thrown e)) s end
  end.

(** ** The invariant *)

Definition ids (m : gmap nat poll_watch) : list nat := w_id <$> (map_to_list m).*2.

Lemma ids_insert m h w : m !! h = None -> ids (<[h := w]> m) ≡ₚ w_id w :: ids m.
Proof. intros H. unfold ids. by rewrite map_to_list_insert. Qed.

Lemma ids_delete m h w : m !! h = Some w -> ids m ≡ₚ w_id w :: ids (delete h m).
Proof. intros H. rewrite <- ids_insert by apply lookup_delete_eq. by rewrite insert_delete_id. Qed.

(** What a fate tells of its watch. *)
Definition fits_fate (w : poll_watch) (fa : fate) : Prop := match fa with Called => w_callback w = true | Collected | Discarded => w_callback w = false | Lost => True end.

(** The invariant; [out] are the watches that are taken but not yet in the log, and [t] says that nothing may be lost. *)
Record inv (t : bool) (out : list (poll_watch * fate)) (s : poll) : Prop := {
  i_ids : ids (watched s) ++ (w_id ∘ fst <$> log s ++ out) ≡ₚ seq 0 (next_id s);
  i_kinds : forall w fa, (w, fa) ∈ log s ++ out -> fits_fate w fa;
  i_arrays : t = true -> forall h w, watched s !! h = Some w -> h ∈ concat (arrays s) -> w_future w ∈ resolved s;
  i_context : t = true -> forall h w, watched s !! h = Some w -> context s !! h = Some (Some (w_future w));
  i_fates : t = true -> forall w fa, (w, fa) ∈ log s ++ out -> fa <> Lost /\ w_future w ∈ resolved s
}.

Lemma new_poll_inv t claimed : inv t [] (new_poll claimed).
Proof. split; cbn; try done; try (intros; by rewrite lookup_empty in * ); set_solver. Qed.

(** The watches that were taken are recorded. *)
Lemma flush_inv t out s : inv t out s -> inv t [] (add_log out s).
Proof. intros [I1 I2 I3 I4 I5]. split; cbn [watched context arrays resolved log next_id add_log]; rewrite ?app_nil_r; done. Qed.

Lemma perm_inv t out out' s : out ≡ₚ out' -> inv t out s -> inv t out' s.
Proof.
  intros E [I1 I2 I3 I4 I5]. split; try done.
  - by rewrite <- E.
  - intros w fa. rewrite <- E. apply I2.
  - intros Ht w fa. rewrite <- E. by apply I5.
Qed.

Lemma spoil_inv out s : inv false out s -> inv false (map (fun x => (x.1, Lost)) out) s.
Proof.
  intros [I1 I2 I3 I4 I5]. split; try done.
  - rewrite <- I1, !fmap_app. do 2 f_equiv. by rewrite <- list_fmap_compose.
  - intros w fa [H|H]%elem_of_app; [apply I2; set_solver|]. apply list_elem_of_fmap in H as (x & [= -> ->] & _). done.
Qed.

(** An entry is taken out of the table. *)
Lemma taken_inv t out h w fa s : inv t out s -> watched s !! h = Some w -> fits_fate w fa -> (t = true -> fa <> Lost /\ w_future w ∈ resolved s) ->
  inv t (out ++ [(w, fa)]) (set_watched (delete h (watched s)) s).
Proof.
  intros [I1 I2 I3 I4 I5] Hw Hc Hr. split; cbn [watched context arrays resolved log next_id set_watched].
  - rewrite <- I1, (ids_delete _ h w Hw), !fmap_app. cbn. solve_Permutation.
  - intros w' fa'. rewrite app_assoc. intros [?|[= -> ->]%list_elem_of_singleton]%elem_of_app; [by apply I2|done].
  - intros Ht h' w' H1. apply lookup_delete_Some in H1 as [? ?]. by apply I3.
  - intros Ht h' w' H1. apply lookup_delete_Some in H1 as [? ?]. by apply I4.
  - intros Ht w' fa'. rewrite app_assoc. intros [?|[= -> ->]%list_elem_of_singleton]%elem_of_app; [by apply I5|by apply Hr].
Qed.

Lemma drop_context_inv t out h s : inv t out s -> watched s !! h = None \/ t = false -> inv t out (set_context (delete h (context s)) s).
Proof.
  intros [I1 I2 I3 I4 I5] Hd. split; cbn [watched context arrays resolved log next_id set_context]; try done.
  intros Ht h' w H1. destruct Hd as [Hd|Hd]; [|congruence]. rewrite lookup_delete_ne by congruence. by apply I4.
Qed.

(** [poll_take], with the fate its caller has in mind. *)
Lemma poll_take_inv t fails out h w fa s : inv t out s -> watched s !! h = Some w -> fits_fate w fa -> fa <> Lost -> (t = true -> w_future w ∈ resolved s) -> (t = true -> forall h, fails h = false) ->
  match poll_take fails h w s with
  | (true, s') => inv t (out ++ [(w, fa)]) s'
  | (false, s') => t = false /\ inv t out s'
  end.
Proof.
  intros I Hw Hc Hl Hr Hf. unfold poll_take. destruct (fails h) eqn:E.
  - assert (t = false) as -> by (destruct t; [by rewrite (Hf eq_refl) in E|done]). split; [done|].
    assert (inv false ((w, Lost) :: out) (set_watched (delete h (watched s)) s)) as [J1 J2 J3 J4 J5] by (apply (perm_inv _ (out ++ [(w, Lost)])); [solve_Permutation|by apply taken_inv]).
    split; cbn [watched context arrays resolved log next_id add_log] in *; rewrite <- ?app_assoc; done.
  - apply drop_context_inv; [apply taken_inv; auto|]. left. apply lookup_delete_eq.
Qed.

(** ** Every operation keeps it *)

(** A handle that is in an array is not given to another watch meanwhile. *)
Definition stable (hs : list nat) (s s' : poll) : Prop := forall h, h ∈ hs -> watched s' !! h = None \/ watched s' !! h = watched s !! h.

Lemma stable_refl hs s : stable hs s s.
Proof. intros h. by right. Qed.
Lemma stable_trans hs s1 s2 s3 : stable hs s1 s2 -> stable hs s2 s3 -> stable hs s1 s3.
Proof. intros H1 H2 h Hh. destruct (H2 h Hh) as [|E2]; [by left|]. rewrite E2. by apply H1. Qed.
Lemma stable_same hs s s' : watched s' = watched s -> stable hs s s'.
Proof. intros E h _. right. by rewrite E. Qed.
Lemma stable_delete hs h s s' : watched s' = delete h (watched s) -> stable hs s s'.
Proof. intros E h' _. rewrite E. destruct (decide (h = h')) as [->|]; [left; apply lookup_delete_eq|right; by apply lookup_delete_ne]. Qed.
#[local] Hint Resolve stable_refl : core.

(** What code may do to the loop. *)
Definition keeps (t : bool) (run : poll -> poll * ending) : Prop := forall s, inv t [] s ->
  let '(s', e) := run s in inv t [] s' /\ (e <> Waiting -> arrays s' = arrays s) /\ stable (concat (arrays s)) s s'.

Lemma take_fields fails h w s : let '(_, s') := poll_take fails h w s in
  arrays s' = arrays s /\ resolved s' = resolved s /\ watched s' = delete h (watched s).
Proof. unfold poll_take. by destruct (fails h). Qed.

(** After the first pass no reported watch has a callback. *)
Lemma first_pass_inv t fails call all hs : (t = true -> forall h, fails h = false) -> (forall n, keeps t (call n)) -> forall n s, inv t [] s -> (exists more, arrays s = all :: more) -> hs ⊆ all ->
  let '(s', e) := first_pass fails call hs n s in
  inv t [] s' /\ (e <> Waiting -> arrays s' = arrays s) /\ stable (concat (arrays s)) s s' /\
  (e = Returned -> forall h w, h ∈ hs -> watched s' !! h = Some w -> w_callback w = false).
Proof.
  intros Hf Hc. induction hs as [|h hs IH]; intros n s I [more Ha] Hs; cbn [first_pass].
  { split; [done|]. split; [done|]. split; [done|]. set_solver. }
  assert (hs ⊆ all) as Hs' by set_solver. assert (h ∈ concat (arrays s)) as Hin by (rewrite Ha; cbn; set_solver).
  assert (forall n s2, inv t [] s2 -> arrays s2 = arrays s -> stable (concat (arrays s)) s s2 -> (forall w, watched s2 !! h = Some w -> w_callback w = false) ->
    let '(s', e) := first_pass fails call hs n s2 in inv t [] s' /\ (e <> Waiting -> arrays s' = arrays s) /\ stable (concat (arrays s)) s s' /\
    (e = Returned -> forall h' w, h' ∈ h :: hs -> watched s' !! h' = Some w -> w_callback w = false)) as Hrest.
  { intros n2 s2 I2 A2 S2 C2. specialize (IH n2 s2 I2 ltac:(rewrite A2; by exists more) Hs'). destruct (first_pass fails call hs n2 s2) as [s' e]. rewrite A2 in IH. destruct IH as (J1 & J2 & J3 & J4).
    split; [done|]. split; [done|]. split; [by eapply stable_trans|]. intros E h' w [->|Hh]%elem_of_cons Hw; [|by eapply J4].
    destruct (J3 h Hin) as [N|N]; [congruence|]. apply C2. congruence. }
  destruct (watched s !! h) as [w|] eqn:Hw; [|apply Hrest; done || congruence].
  destruct (w_callback w) eqn:Hcb; cbn [negb]; [|apply Hrest; [done..|congruence]].
  pose proof (poll_take_inv t fails [] h w Called s I Hw Hcb ltac:(done) ltac:(intros Ht; by apply (i_arrays _ _ _ I Ht h)) Hf) as Ht. pose proof (take_fields fails h w s) as Hk.
  destruct (poll_take fails h w s) as [[|] s1]; cbn [negb]; destruct Hk as (K1 & K2 & K3).
  - assert (inv t [] (add_log [(w, Called)] s1)) as I1 by by apply flush_inv. specialize (Hc n _ I1). destruct (call n (add_log [(w, Called)] s1)) as [s2 e]. destruct Hc as (J1 & J2 & J3).
    change (arrays (add_log [(w, Called)] s1)) with (arrays s1) in J2, J3. rewrite K1 in J2, J3.
    assert (stable (concat (arrays s)) s s2) as S2 by (eapply stable_trans; [apply (stable_delete _ h s (add_log [(w, Called)] s1)); done|done]).
    destruct e; [|split; [done|]; split; [done|]; split; done..]. apply Hrest; [done|by apply J2|done|].
    intros w' Hw'. destruct (J3 h Hin) as [N|N]; [congruence|]. rewrite Hw' in N. cbn in N. rewrite K3, lookup_delete_eq in N. done.
  - destruct Ht as [-> I1]. split; [done|]. split; [done|]. split; [by apply (stable_delete _ h)|done].
Qed.

(** The second pass takes every watch that is left, and what it returns was watched without a callback. *)
Lemma second_pass_inv t fails collect hs : (t = true -> forall h, fails h = false) -> forall out s, inv t (map (fun w => (w, Collected)) out) s -> hs ⊆ concat (arrays s) -> NoDup hs ->
  (forall h w, h ∈ hs -> watched s !! h = Some w -> w_callback w = false) ->
  let '(s', e, out') := second_pass fails collect hs out s in
  inv t [] s' /\ e <> Waiting /\ arrays s' = arrays s /\ stable (concat (arrays s)) s s' /\
  (e = Returned -> (forall h, h ∈ hs -> watched s' !! h = None) /\ out' = out ++ (if collect then omap (fun h => watched s !! h) hs else [])).
Proof.
  intros Hf. induction hs as [|h hs IH]; intros out s I Hs Hn Hc; cbn [second_pass].
  { split; [by apply flush_inv|]. split; [done|]. split; [done|]. split; [by apply stable_same|]. intros _. split; [set_solver|]. destruct collect; by rewrite app_nil_r. }
  apply list.NoDup_cons in Hn as [Hh Hn]. assert (hs ⊆ concat (arrays s)) as Hs' by set_solver. destruct (watched s !! h) as [w|] eqn:Hw.
  - assert (w_callback w = false) as Hcb by (apply (Hc h w); [apply elem_of_cons; by left|done]). assert (t = true -> w_future w ∈ resolved s) as Hr by (intros Ht; apply (i_arrays _ _ _ I Ht h w Hw); set_solver).
    assert (forall fa, fa <> Lost -> fa <> Called -> match poll_take fails h w s with (true, s') => inv t (map (fun w => (w, Collected)) out ++ [(w, fa)]) s' | (false, s') => t = false /\ inv t (map (fun w => (w, Collected)) out) s' end) as Ht
      by (intros fa F1 F2; apply poll_take_inv; try done; by destruct fa).
    pose proof (take_fields fails h w s) as Hk. destruct (poll_take fails h w s) as [[|] s1]; cbn [negb]; destruct Hk as (K1 & K2 & K3).
    + assert (forall out2 s2, watched s2 = watched s1 -> arrays s2 = arrays s1 -> inv t (map (fun w => (w, Collected)) out2) s2 -> let '(s', e, out') := second_pass fails collect hs out2 s2 in
        inv t [] s' /\ e <> Waiting /\ arrays s' = arrays s /\ stable (concat (arrays s)) s s' /\
        (e = Returned -> (forall h', h' ∈ h :: hs -> watched s' !! h' = None) /\ out' = out2 ++ (if collect then omap (fun h => watched s !! h) hs else []))) as Hrest.
      { intros out2 s2 E1 E2 I2. specialize (IH out2 s2 I2). rewrite E2, K1, E1, K3 in IH. specialize (IH Hs' Hn). destruct (second_pass fails collect hs out2 s2) as [[s' e] out'].
        destruct IH as (J1 & J2 & J3 & J4 & J5). { intros h' w' Hh' Hw'. apply lookup_delete_Some in Hw' as [_ Hw']. apply (Hc h'); [apply elem_of_cons; by right|done]. }
        split; [done|]. split; [done|]. split; [done|]. split; [eapply stable_trans; [apply (stable_delete _ h s s2); congruence|done]|].
        intros E. destruct (J5 E) as [L1 L2]. split.
        - intros h' [->|?]%elem_of_cons; [|by apply L1]. destruct (J4 h ltac:(set_solver)) as [N|N]; [done|]. rewrite N, E1, K3. apply lookup_delete_eq.
        - rewrite L2. f_equal. destruct collect; [|done]. clear -Hh. induction hs as [|h' hs IH]; [done|]. cbn. rewrite lookup_delete_ne by set_solver. rewrite IH by set_solver. done. }
      destruct collect.
      * specialize (Hrest (out ++ [w]) s1 eq_refl eq_refl). rewrite map_app in Hrest. specialize (Hrest (Ht Collected ltac:(done) ltac:(done))). destruct (second_pass fails true hs (out ++ [w]) s1) as [[s' e] out'].
        destruct Hrest as (J1 & J2 & J3 & J4 & J5). split; [done|]. split; [done|]. split; [done|]. split; [done|]. intros E. destruct (J5 E) as [L1 ->]. split; [done|]. cbn [omap list_omap]. rewrite Hw, <- app_assoc. done.
      * apply (Hrest out); [done..|]. specialize (Ht Discarded ltac:(done) ltac:(done)). apply (perm_inv _ _ ((w, Discarded) :: map (fun w => (w, Collected)) out)) in Ht as [J1 J2 J3 J4 J5]; [|solve_Permutation].
        split; cbn [watched context arrays resolved log next_id add_log] in *; rewrite <- ?app_assoc; done.
    + destruct (Ht Collected ltac:(done) ltac:(done)) as [-> I1]. apply spoil_inv, flush_inv in I1. rewrite map_map in I1. cbn [fst] in I1. split; [done|]. split; [done|]. split; [done|]. split; [|done]. apply (stable_delete _ h). done.
  - specialize (IH out s I Hs' Hn ltac:(intros h' w' ? ?; apply (Hc h'); [apply elem_of_cons; by right|done])). destruct (second_pass fails collect hs out s) as [[s' e] out']. destruct IH as (J1 & J2 & J3 & J4 & J5).
    split; [done|]. split; [done|]. split; [done|]. split; [done|]. intros E. destruct (J5 E) as [L1 L2]. split.
    + intros h' [->|?]%elem_of_cons; [|by apply L1]. destruct (J4 h ltac:(set_solver)) as [N|N]; congruence.
    + rewrite L2. cbn [omap list_omap]. by rewrite Hw.
Qed.

(** ** Ticks *)

Lemma reported_elem s l h : h ∈ reported s l -> reportable s h = true /\ h ∈ l.
Proof. unfold reported. rewrite list_elem_of_filter, elem_of_remove_dups. done. Qed.

Lemma reported_nodup s l : NoDup (reported s l).
Proof. apply NoDup_filter, NoDup_remove_dups. Qed.

Lemma push_inv t l s : inv t [] s -> inv t [] (set_arrays (reported s l :: arrays s) s).
Proof.
  intros [I1 I2 I3 I4 I5]. split; cbn [watched context arrays resolved log next_id set_arrays]; try done. intros Ht h w Hw [Hh|Hh]%elem_of_app; [|by eapply I3].
  apply reported_elem in Hh as [Hr _]. unfold reportable in Hr. rewrite (I4 Ht h w Hw) in Hr. by apply bool_decide_eq_true in Hr.
Qed.

Lemma pop_inv t out a s : inv t out s -> concat a ⊆ concat (arrays s) -> inv t out (set_arrays a s).
Proof. intros [I1 I2 I3 I4 I5] Ha. split; cbn [watched context arrays resolved log next_id set_arrays]; try done. intros Ht h w Hw Hh. eapply I3; [done..|]. by apply Ha. Qed.

(** A tick that returns has taken every reported watch; the array has those without a callback that its callbacks have left, in order. *)
Lemma poll_tick_inv t fails call wait collect s : (t = true -> forall h, fails h = false) -> (forall n, keeps t (call n)) -> inv t [] s ->
  let '(s', e, out) := poll_tick fails call wait collect s in
  inv t [] s' /\ (e <> Waiting -> arrays s' = arrays s) /\ stable (concat (arrays s)) s s' /\
  (e = Returned -> exists l, wait = Some l /\ (forall h, h ∈ reported s l -> watched s' !! h = None) /\ Forall (fun w => w_callback w = false) out).
Proof.
  intros Hf Hc I. unfold poll_tick. destruct wait as [l|]; [|done]. set (s0 := set_arrays (reported s l :: arrays s) s).
  pose proof (first_pass_inv t fails call (reported s l) (reported s l) Hf Hc 0 s0 (push_inv t l s I) ltac:(by eexists) ltac:(done)) as H1.
  destruct (first_pass fails call (reported s l) 0 s0) as [s1 e]. destruct H1 as (J1 & J2 & J3 & J4).
  assert (stable (concat (arrays s)) s s1) as S1 by (intros h Hh; destruct (J3 h) as [|E]; [cbn; set_solver|by left|by right]).
  destruct e.
  - specialize (J2 ltac:(done)). pose proof (second_pass_inv t fails collect (reported s l) Hf [] s1 J1) as H2. rewrite J2 in H2.
    specialize (H2 ltac:(cbn; set_solver) (reported_nodup s l) ltac:(intros h w Hh Hw; by apply (J4 eq_refl h w))). destruct (second_pass fails collect (reported s l) [] s1) as [[s2 e] out].
    destruct H2 as (K1 & K2 & K3 & K4 & K5). split; [apply pop_inv; [done|rewrite K3; cbn; set_solver]|]. split; [intros _; cbn; by rewrite K3|].
    split; [intros h Hh; specialize (K4 h ltac:(cbn; set_solver)); specialize (S1 h Hh); cbn [watched set_arrays] in *; destruct K4 as [K|K]; [by left|]; rewrite K; done|].
    intros E. destruct (K5 E) as [L1 L2]. exists l. split; [done|]. split; [done|]. rewrite L2. cbn [app]. destruct collect; [|done]. apply Forall_forall. intros w Hw. apply list_elem_of_omap in Hw as (h & Hh & Hw). by eapply J4.
  - split; [apply pop_inv; [done|rewrite J2 by done; cbn; set_solver]|]. split; [intros _; cbn; by rewrite J2|]. split; [done|done].
  - split; [done|]. split; [done|]. split; [done|done].
Qed.

Lemma Poll_run_inv t fails call wait turns : (t = true -> forall n h, fails n h = false) -> (forall m n, keeps t (call m n)) -> forall turn, keeps t (Poll_run fails call wait turns turn).
Proof.
  intros Hf Hc. induction turns as [|turns IH]; intros turn s I; cbn [Poll_run]; destruct (decide (watched s = ∅)); try done.
  pose proof (poll_tick_inv t (fails turn) (call turn) (wait turn s) false s ltac:(auto) (Hc turn) I) as H. destruct (poll_tick _ _ _ _ s) as [[s1 e] out]. destruct H as (J1 & J2 & J3 & _).
  destruct e; try done. specialize (IH (S turn) s1 J1). destruct (Poll_run fails call wait turns (S turn) s1) as [s2 e2]. rewrite J2 in IH by done. destruct IH as (K1 & K2 & K3).
  split; [done|]. split; [done|]. by eapply stable_trans.
Qed.

(** ** Code *)

Lemma free_handle_free h s : free_handle h s ∉ alive s.
Proof. unfold free_handle. case_bool_decide; [apply is_fresh|done]. Qed.

(** The fields after an entry is put in the table: a stale entry of the handle is lost. *)
Lemma put_watch_fields h w s : let s' := put_watch h w s in
  watched s' = <[h := w]> (watched s) /\ log s' = log s ++ (match watched s !! h with Some old => [(old, Lost)] | None => [] end) /\
  context s' = context s /\ arrays s' = arrays s /\ resolved s' = resolved s /\ next_id s' = next_id s.
Proof. unfold put_watch. destruct (watched s !! h); cbn; rewrite ?app_nil_r; done. Qed.

Lemma put_watch_ids h w s : ids (<[h := w]> (watched s)) ++ (w_id ∘ fst <$> match watched s !! h with Some old => [(old, Lost)] | None => [] end) ≡ₚ w_id w :: ids (watched s).
Proof.
  rewrite <- insert_delete_eq, ids_insert by apply lookup_delete_eq. destruct (watched s !! h) as [old|] eqn:E; cbn; [rewrite (ids_delete _ _ _ E); solve_Permutation|]. by rewrite delete_id, app_nil_r.
Qed.

Lemma poll_watch_inv t h w s : inv t [] s -> h ∉ alive s -> w_id w = next_id s ->
  inv t [] (next (put_watch h w (set_held ({[h]} ∪ held s) (set_context (<[h := Some (w_future w)]> (context s)) s)))).
Proof.
  intros [I1 I2 I3 I4 I5] Hh Hid. unfold alive in Hh. assert (context s !! h = None) as Hc by (apply not_elem_of_dom; set_solver). assert (h ∉ concat (arrays s)) as Ha by set_solver.
  assert (t = true -> watched s !! h = None) as Hno. { intros E. destruct (watched s !! h) as [w'|] eqn:Hw; [|done]. apply (I4 E) in Hw. congruence. }
  destruct (put_watch_fields h w (set_held ({[h]} ∪ held s) (set_context (<[h := Some (w_future w)]> (context s)) s))) as (F1 & F2 & F3 & F4 & F5 & F6). pose proof (put_watch_ids h w s) as F7.
  cbn [watched log context arrays resolved next_id set_held set_context] in F1, F2, F3, F4, F5, F6. rewrite app_nil_r in I1, I2, I5.
  split; cbn [next watched log context arrays resolved next_id]; rewrite ?F1, ?F2, ?F3, ?F4, ?F5, ?F6, ?app_nil_r.
  - rewrite seq_S, <- I1, fmap_app, <- Hid. cbn. rewrite (Permutation_app_comm (_ <$> log s)), app_assoc, F7. cbn. solve_Permutation.
  - intros w' fa' [H|H]%elem_of_app; [by apply I2|]. destruct (watched s !! h); [|by apply not_elem_of_nil in H]. by apply list_elem_of_singleton in H as [= -> ->].
  - intros E h' w' H1 H2. apply lookup_insert_Some in H1 as [[<- <-]|[Hne H1]]; [done|by apply (I3 E h')].
  - intros E h' w' H1. apply lookup_insert_Some in H1 as [[<- <-]|[Hne H1]]; [apply lookup_insert_eq|]. rewrite lookup_insert_ne by done. by apply I4.
  - intros E w' fa'. rewrite (Hno E), app_nil_r. by apply I5.
Qed.

(** Code that removes no watcher of the loop, with a context that does not refuse to. *)
Fixpoint tame (c : code) : Prop :=
  match c with
  | Return _ => True
  | Do a k => match a with RemoveWatcher _ => False | _ => True end /\ forall b, tame (k b)
  | Tick fails _ callbacks k => (forall h, fails h = false) /\ (forall n, tame (callbacks n)) /\ forall b out, tame (k b out)
  | Run _ fails _ callbacks k => (forall n h, fails n h = false) /\ (forall m n, tame (callbacks m n)) /\ forall b, tame (k b)
  end.

Lemma act_inv t a s : (t = true -> match a with RemoveWatcher _ => False | _ => True end) -> inv t [] s ->
  inv t [] (fst (act a s)) /\ arrays (fst (act a s)) = arrays s /\ stable (concat (arrays s)) s (fst (act a s)).
Proof.
  intros Ht I. destruct a as [h f cb fl|h|h|h|f]; cbn [act fst].
  - unfold Poll_watch. destruct (negb _); [done|]. cbn [fst]. pose proof (free_handle_free h s) as Hf. split; [by apply (poll_watch_inv t (free_handle h s) {| w_future := f; w_callback := cb; w_id := next_id s |})|].
    split; [unfold put_watch; cbn; by destruct (watched s !! _)|]. intros h' Hh. right. cbn. apply lookup_insert_ne. intros E. apply Hf. rewrite E. unfold alive. set_solver.
  - split; [|split; [done|by apply stable_same]]. apply drop_context_inv; [done|]. destruct t; [destruct (Ht eq_refl)|by right].
  - split; [|split; [done|by apply stable_same]]. destruct I. by split.
  - split; [|split; [done|by apply stable_same]]. pose proof (free_handle_free h s) as Hf. unfold alive in Hf. destruct I as [I1 I2 I3 I4 I5]. split; try done; cbn [watched context set_context].
    intros E h' w Hw. specialize (I4 E h' w Hw). rewrite lookup_insert_ne; [done|]. intros <-. apply Hf. apply elem_of_dom_2 in I4. set_solver.
  - split; [|split; [done|by apply stable_same]]. destruct I as [I1 I2 I3 I4 I5]. split; try done; cbn [watched context resolved log set_resolved].
    + intros E h w Hw Hh. specialize (I3 E h w Hw Hh). set_solver.
    + intros E w fa H. destruct (I5 E w fa H) as [? ?]. set_solver.
Qed.

(** Code that runs after an operation. *)
Lemma keeps_after t run s s1 : keeps t run -> inv t [] s1 -> arrays s1 = arrays s -> stable (concat (arrays s)) s s1 ->
  let '(s', e) := run s1 in inv t [] s' /\ (e <> Waiting -> arrays s' = arrays s) /\ stable (concat (arrays s)) s s'.
Proof. intros Hk I1 A1 S1. specialize (Hk s1 I1). destruct (run s1) as [s2 e]. rewrite A1 in Hk. destruct Hk as (K1 & K2 & K3). split; [done|]. split; [done|]. by eapply stable_trans. Qed.

Lemma exec_keeps t c : (t = true -> tame c) -> keeps t (exec c).
Proof.
  induction c as [thrown|a k IH|fails wait callbacks IHc k IHk|turns fails wait callbacks IHc k IHk]; intros Ht s I; cbn [exec].
  - by destruct thrown.
  - destruct (act_inv t a s ltac:(intros E; apply (Ht E)) I) as (J1 & J2 & J3). destruct (act a s) as [s1 ok]. apply keeps_after; [|done..]. apply IH. intros E. apply (Ht E).
  - unfold Poll_tick. destruct (decide (watched s = ∅)) as [_|_]; [apply keeps_after; [apply IHk; intros E; apply (Ht E)|done..]|].
    pose proof (poll_tick_inv t fails (fun n => exec (callbacks n)) (wait s) true s ltac:(intros E; apply (Ht E)) ltac:(intros n; apply IHc; intros E; apply (Ht E)) I) as H.
    destruct (poll_tick _ _ _ _ s) as [[s1 e] out]. destruct H as (J1 & J2 & J3 & _). destruct e; try done; (apply keeps_after; [apply IHk; intros E; apply (Ht E)|done|by apply J2|done]).
  - pose proof (Poll_run_inv t fails (fun m n => exec (callbacks m n)) wait turns ltac:(intros E; apply (Ht E)) ltac:(intros m n; apply IHc; intros E; apply (Ht E)) 0 s I) as H.
    destruct (Poll_run _ _ _ turns 0 s) as [s1 e]. destruct H as (J1 & J2 & J3). destruct e; try done; (apply keeps_after; [apply IHk; intros E; apply (Ht E)|done|by apply J2|done]).
Qed.

Lemma reached_inv t c claimed : (t = true -> tame c) -> inv t [] (fst (exec c (new_poll claimed))).
Proof. intros Ht. pose proof (exec_keeps t c Ht _ (new_poll_inv t claimed)) as Hk. by destruct (exec c (new_poll claimed)) as [s e]; destruct Hk. Qed.

(** C15: every watch has one fate.  Whatever PHP code does, in callbacks too, each call of [watch] is an entry of the loop, or it has been
    called back, returned by [tick], let go by [run] or lost, and exactly one of these; callbacks are called for the watches that have one and the others are returned.
    When no code removes the loop's watchers and the context does not refuse to, none is lost, and a future is resolved when it is called back or returned. *)
Theorem watches_have_one_fate c claimed :
  let s := fst (exec c (new_poll claimed)) in
  ids (watched s) ++ (w_id ∘ fst <$> log s) ≡ₚ seq 0 (next_id s) /\
  (forall w fa, (w, fa) ∈ log s -> fits_fate w fa) /\
  (tame c -> forall w fa, (w, fa) ∈ log s -> fa <> Lost /\ w_future w ∈ resolved s).
Proof.
  pose proof (fun t => reached_inv t c claimed) as H.
  intros s. destruct (H false ltac:(done)) as [I1 I2 _ _ _]. rewrite app_nil_r in I1, I2. split; [done|]. split; [done|]. intros Ht. destruct (H true ltac:(done)) as [_ _ _ _ I5]. rewrite app_nil_r in I5. by apply I5.
Qed.

(** A future with a callback and one without; the callback watches a third, which the second tick returns with the second. *)
Definition example_code : code :=
  Do (Watch 1 10 true false) (fun _ => Do (Watch 2 11 false false) (fun _ => Do (Resolve 10) (fun _ =>
  Tick (fun _ => false) (fun _ => Some [1; 2]) (fun _ => Do (Watch 3 12 false false) (fun _ => Do (Resolve 12) (fun _ => Return true))) (fun _ _ =>
  Do (Resolve 11) (fun _ => Tick (fun _ => false) (fun _ => Some [2; 3]) (fun _ => Return false) (fun _ _ => Return false)))))).

Lemma watches_have_one_fate_witness : let s := fst (exec example_code (new_poll ∅)) in
  (w_id ∘ fst <$> log s) ≡ₚ [0; 1; 2] /\ (forall w fa, (w, fa) ∈ log s -> fa <> Lost /\ w_future w ∈ resolved s).
Proof.
  destruct (watches_have_one_fate example_code ∅) as (H1 & _ & H2). split; [exact H1|]. apply H2. cbn. repeat (split || intros); done.
Defined.

(** A watcher that is removed by PHP code leaves its entry behind.  When its handle is used again for a watcher of other code, an event of that watcher
    returns the future, which is not resolved, and ends the other watch. *)
Example stale_watch :
  let s := fst (exec (Do (Watch 1 10 false false) (fun _ => Do (RemoveWatcher 1) (fun _ => Do (Release 1) (fun _ => Do (AddOther 1) (fun _ =>
                      Tick (fun _ => false) (fun _ => Some [1]) (fun _ => Return false) (fun _ _ => Return false)))))) (new_poll ∅)) in
  log s = [({| w_future := 10; w_callback := false; w_id := 0 |}, Collected)] /\ 10 ∉ resolved s /\ context s = ∅.
Proof. split; [by vm_compute|]. split; [vm_compute; set_solver|by vm_compute]. Qed.

(** ** One tick *)

Definition has_callback (b : bool) (s : poll) (h : nat) : bool := match watched s !! h with Some w => eqb (w_callback w) b | None => false end.

(** The callbacks that are called when the [n]-th ends with [e n]. *)
Fixpoint calls (e : nat -> ending) (n : nat) (hs : list nat) : list nat * ending :=
  match hs with
  | [] => ([], Returned)
  | h :: hs => match e n with Returned => let '(l, r) := calls e (S n) hs in (h :: l, r) | r => ([h], r) end
  end.

Definition without (hs : list nat) (m : gmap nat poll_watch) : gmap nat poll_watch := filter (fun x => x.1 ∉ hs) m.
Definition watches_of (s : poll) (hs : list nat) : list poll_watch := omap (fun h => watched s !! h) hs.

Lemma without_lookup hs m h : without hs m !! h = if decide (h ∈ hs) then None else m !! h.
Proof.
  unfold without. destruct (decide (h ∈ hs)) as [Hh|Hh]; [apply map_lookup_filter_None_2; right; intros w _; cbn; tauto|].
  destruct (m !! h) as [w|] eqn:E; [by apply map_lookup_filter_Some_2|apply map_lookup_filter_None_2; by left].
Qed.
Lemma without_cons h hs m : without (h :: hs) m = without hs (delete h m).
Proof.
  apply map_eq. intros h'. rewrite !without_lookup. destruct (decide (h = h')) as [->|Hne]; [rewrite lookup_delete_eq, decide_True by set_solver; by destruct (decide _)|].
  rewrite lookup_delete_ne by done. destruct (decide (h' ∈ hs)); [by rewrite decide_True by set_solver|by rewrite decide_False by set_solver].
Qed.
Lemma without_nil m : without [] m = m.
Proof. apply map_eq. intros h. by rewrite without_lookup, decide_False by set_solver. Qed.
Lemma without_app l1 l2 m : without (l1 ++ l2) m = without l2 (without l1 m).
Proof. apply map_eq. intros h. rewrite !without_lookup. destruct (decide (h ∈ l1)), (decide (h ∈ l2)), (decide (h ∈ l1 ++ l2)); set_solver. Qed.

Lemma calls_sub e n hs : fst (calls e n hs) ⊆ hs.
Proof. revert n. induction hs as [|h hs IH]; intros n; cbn; [done|]. specialize (IH (S n)). destruct (e n); [|cbn; set_solver..]. destruct (calls e (S n) hs). cbn in *. set_solver. Qed.

Lemma filter_has_delete b s s' h (hs : list nat) : h ∉ hs -> watched s' = delete h (watched s) -> filter (fun x => has_callback b s' x = true) hs = filter (fun x => has_callback b s x = true) hs.
Proof.
  intros Hh E. induction hs as [|x hs IH]; [done|]. rewrite !filter_cons, IH by set_solver. assert (has_callback b s' x = has_callback b s x) as Hx by (unfold has_callback; by rewrite E, lookup_delete_ne by set_solver).
  by destruct (decide (has_callback b s' x = true)), (decide (has_callback b s x = true)); try congruence.
Qed.

Lemma watches_delete s s' h (hs : list nat) : h ∉ hs -> watched s' = delete h (watched s) -> watches_of s' hs = watches_of s hs.
Proof. intros Hh E. unfold watches_of. induction hs as [|x hs IH]; [done|]. cbn. rewrite E, lookup_delete_ne, <- IH by set_solver. by rewrite E. Qed.

Lemma calls_all e n hs : snd (calls e n hs) = Returned -> fst (calls e n hs) = hs.
Proof. revert n. induction hs as [|h hs IH]; intros n; cbn; [done|]. specialize (IH (S n)). destruct (e n); [|done..]. destruct (calls e (S n) hs). cbn in *. intros ->. by rewrite IH. Qed.

Lemma watches_left s s' hs : (forall h, h ∈ hs -> watched s' !! h = if has_callback true s h then None else watched s !! h) -> watches_of s' hs = watches_of s (filter (fun h => has_callback false s h = true) hs).
Proof.
  intros H. unfold watches_of. induction hs as [|h hs IH]; [done|]. rewrite filter_cons. cbn [omap list_omap]. rewrite (H h), (IH ltac:(set_solver)) by set_solver. clear IH.
  assert (forall b, has_callback b s h = match watched s !! h with Some w => eqb (w_callback w) b | None => false end) as Hb by done. rewrite !Hb. destruct (watched s !! h) as [w|] eqn:E; [|by rewrite decide_False].
  destruct (w_callback w); cbn [eqb]; [by rewrite decide_False|]. rewrite decide_True by done. cbn [omap list_omap]. by rewrite E.
Qed.

Section quiet.
(** Callbacks that leave the loop alone, and a context that does not refuse. *)
Context (fails : nat -> bool) (Hf : forall h, fails h = false) (e : nat -> ending).

Lemma first_pass_quiet hs : NoDup hs -> forall n s, let called := calls e n (filter (fun h => has_callback true s h = true) hs) in
  let '(s', r) := first_pass fails (fun n s => (s, e n)) hs n s in
  r = snd called /\ watched s' = without (fst called) (watched s) /\ log s' = log s ++ ((fun w => (w, Called)) <$> watches_of s (fst called)) /\ arrays s' = arrays s /\ resolved s' = resolved s.
Proof using Hf.
  induction hs as [|h hs IH]; intros Hn n s called; cbn [first_pass].
  { unfold called. cbn. by rewrite without_nil, app_nil_r. }
  apply list.NoDup_cons in Hn as [Hh Hn]. unfold called. rewrite filter_cons. assert (has_callback true s h = match watched s !! h with Some w => eqb (w_callback w) true | None => false end) as Hb by done.
  destruct (watched s !! h) as [w|] eqn:Hw; [|rewrite decide_False by (rewrite Hb; done); by apply IH].
  destruct (w_callback w) eqn:Hc; cbn [negb eqb] in *; [|rewrite decide_False by (rewrite Hb; done); by apply IH]. rewrite decide_True by done.
  unfold poll_take. rewrite Hf. cbn [negb]. set (s1 := add_log _ _).
  assert (watched s1 = delete h (watched s)) as Es by done. pose proof (filter_has_delete true s s1 h hs Hh Es) as Ef. specialize (IH Hn (S n) s1). cbv zeta in IH. rewrite Ef in IH.
  set (cs := filter _ hs) in *. pose proof (calls_sub e (S n) cs) as Hsub. assert (cs ⊆ hs) as Hcs by (unfold cs; intros x Hx; apply list_elem_of_filter in Hx; tauto). cbn [calls]. destruct (e n).
  - destruct (first_pass _ _ hs (S n) s1) as [s' r]. destruct (calls e (S n) cs) as [l r']. cbn [fst snd] in *. destruct IH as (-> & E1 & E2 & E3 & E4).
    split; [done|]. rewrite without_cons, E1. split; [done|]. split; [|done]. rewrite E2, (watches_delete s s1 h l) by set_solver. unfold s1, watches_of. cbn. rewrite Hw, <- app_assoc. done.
  - cbn [fst snd]. rewrite without_cons, without_nil. unfold watches_of. cbn. rewrite Hw. done.
  - cbn [fst snd]. rewrite without_cons, without_nil. unfold watches_of. cbn. rewrite Hw. done.
Qed.

Lemma second_pass_quiet hs : NoDup hs -> forall out s, let '(s', r, out') := second_pass fails true hs out s in
  r = Returned /\ watched s' = without hs (watched s) /\ out' = out ++ watches_of s hs /\ log s' = log s ++ ((fun w => (w, Collected)) <$> out').
Proof using Hf.
  induction hs as [|h hs IH]; intros Hn out s; cbn [second_pass].
  { by rewrite without_nil, app_nil_r. }
  apply list.NoDup_cons in Hn as [Hh Hn]. rewrite without_cons. unfold watches_of. cbn [omap list_omap]. destruct (watched s !! h) as [w|] eqn:Hw; [|rewrite delete_id by done; by apply IH].
  unfold poll_take. rewrite Hf. cbn [negb]. set (s1 := set_context _ _). specialize (IH Hn (out ++ [w]) s1). destruct (second_pass _ _ hs _ s1) as [[s' r] out']. destruct IH as (E1 & E2 & E3 & E4).
  split; [done|]. split; [done|]. rewrite (watches_delete s s1 h hs Hh eq_refl) in E3. split; [by rewrite E3, <- app_assoc|done].
Qed.
End quiet.

(** A tick.  When it returns, no watcher that [wait] reported is left in the loop, whatever the callbacks did, and the array has futures that were
    watched without a callback.  When the callbacks do nothing to the loop, the first pass calls them in the order of the report up to the first that throws; if one does, every
    other watch stays, in particular all that have no callback; if none does, the array has the futures without a callback, in the order of the report. *)
Theorem tick_dispatches c claimed l :
  let s := fst (exec c (new_poll claimed)) in
  (forall fails callbacks, let '(s', e, out) := poll_tick fails (fun n => exec (callbacks n)) (Some l) true s in
     e = Returned -> (forall h, h ∈ reported s l -> watched s' !! h = None) /\ Forall (fun w => w_callback w = false) out) /\
  (forall e, (forall n, e n <> Waiting) ->
     let called := calls e 0 (filter (fun h => has_callback true s h = true) (reported s l)) in
     let '(s', r, out) := poll_tick (fun _ => false) (fun n s => (s, e n)) (Some l) true s in
     r = snd called /\ log s' = log s ++ ((fun w => (w, Called)) <$> watches_of s (fst called)) ++ ((fun w => (w, Collected)) <$> out) /\
     watched s' = without (if is_thrown r then fst called else reported s l) (watched s) /\
     out = if is_thrown r then [] else watches_of s (filter (fun h => has_callback false s h = true) (reported s l))).
Proof.
  intros s. split.
  - intros fails callbacks. pose proof (reached_inv false c claimed ltac:(done)) as Hi.
    pose proof (poll_tick_inv false fails (fun n => exec (callbacks n)) (Some l) true s ltac:(done) ltac:(intros n; by apply exec_keeps) Hi) as H. destruct (poll_tick _ _ _ _ s) as [[s' e] out].
    destruct H as (_ & _ & _ & H). intros E. destruct (H E) as (l' & [= <-] & H1 & H2). done.
  - intros e He called. unfold poll_tick. set (s0 := set_arrays _ s). pose proof (first_pass_quiet (fun _ => false) ltac:(done) e (reported s l) (reported_nodup s l) 0 s0) as H1. cbv zeta in H1.
    change (calls e 0 (filter (fun h => has_callback true s0 h = true) (reported s l))) with called in H1. change (watched s0) with (watched s) in H1. change (log s0) with (log s) in H1.
    change (watches_of s0) with (watches_of s) in H1. destruct (first_pass _ _ _ 0 s0) as [s1 r]. destruct H1 as (-> & E1 & E2 & E3 & E4).
    destruct (snd called) eqn:Er.
    + pose proof (second_pass_quiet (fun _ => false) ltac:(done) (reported s l) (reported_nodup s l) [] s1) as H2. destruct (second_pass _ _ _ _ s1) as [[s2 r] out]. destruct H2 as (-> & F1 & F2 & F3).
      assert (forall h, h ∈ reported s l -> watched s1 !! h = if has_callback true s h then None else watched s !! h) as Hl.
      { intros h Hh. rewrite E1, without_lookup. unfold called. rewrite calls_all by done. destruct (has_callback true s h) eqn:Hc; [by rewrite decide_True by (apply list_elem_of_filter; done)|].
        rewrite decide_False; [done|]. rewrite list_elem_of_filter. intros [? _]. congruence. }
      cbn [is_thrown]. split; [done|]. cbn [log set_arrays watched]. split; [by rewrite F3, E2, <- app_assoc|]. split; [|by rewrite F2, (watches_left s s1)].
      rewrite F1, E1, <- without_app. apply map_eq. intros h. rewrite !without_lookup. destruct (decide (h ∈ reported s l)) as [Hr|Hr]; [by rewrite decide_True by set_solver|].
      rewrite decide_False; [done|]. intros [Hx|Hx]%elem_of_app; [|done]. apply calls_sub, list_elem_of_filter in Hx as [_ ?]. done.
    + cbn [is_thrown log set_arrays watched]. rewrite app_nil_r. done.
    + exfalso. clear -He Er. unfold called in Er. revert Er. generalize 0. induction (filter _ _) as [|h hs IH]; intros n; cbn; [done|]. destruct (e n) eqn:E; [|done|by apply He in E].
      specialize (IH (S n)). destruct (calls e (S n) hs). by apply IH.
Qed.

(** The report has a watch with a callback, and one without. *)
Example tick_example :
  let s := fst (exec (Do (Watch 1 10 false false) (fun _ => Do (Watch 2 11 true false) (fun _ => Do (Resolve 10) (fun _ => Do (Resolve 11) (fun _ => Return false))))) (new_poll ∅)) in
  let '(s', r, out) := poll_tick (fun _ => false) (fun _ s => (s, Thrown)) (Some [1; 2]) true s in r = Thrown /\ out = [] /\ map_to_list (watched s') = [(1, {| w_future := 10; w_callback := false; w_id := 0 |})].
Proof. by vm_compute. Qed.

(** ** Run *)

(** The log and the numbers of watches grow, and a watch that was there is where it was or in the log. *)
Definition grows (s s' : poll) : Prop :=
  (exists l, log s' = log s ++ l) /\ next_id s <= next_id s' /\ forall h w, watched s' !! h = Some w -> w_id w < next_id s -> watched s !! h = Some w.

Lemma grows_same s s' : log s' = log s -> next_id s' = next_id s -> watched s' = watched s -> grows s s'.
Proof. intros E1 E2 E3. split; [exists []; by rewrite app_nil_r|]. rewrite E2, E3. by split. Qed.

Lemma watches_grow_refl s : grows s s.
Proof. by apply grows_same. Qed.

Lemma watches_grow_trans s1 s2 s3 : grows s1 s2 -> grows s2 s3 -> grows s1 s3.
Proof.
  intros ((l1 & E1) & N1 & W1) ((l2 & E2) & N2 & W2). split; [exists (l1 ++ l2); by rewrite E2, E1, <- app_assoc|]. split; [lia|]. intros h w Hw Hid. apply W1; [|done]. apply W2; [done|lia].
Qed.

Lemma grows_log l s : grows s (add_log l s).
Proof. split; [by exists l|]. by split. Qed.

Lemma grows_take fails h w s : grows s (snd (poll_take fails h w s)).
Proof.
  assert (forall s', (exists l, log s' = log s ++ l) -> next_id s' = next_id s -> watched s' = delete h (watched s) -> grows s s') as K.
  { intros s' E1 E2 E3. split; [done|]. rewrite E2, E3. split; [done|]. intros h' w' [_ Hw]%lookup_delete_Some _. done. }
  unfold poll_take. destruct (fails h); apply K; try done; [by eexists|exists []; by rewrite app_nil_r].
Qed.

Lemma first_pass_grows fails call hs : (forall n x, grows x (fst (call n x))) -> forall n s, grows s (fst (first_pass fails call hs n s)).
Proof.
  intros Hc. induction hs as [|h hs IH]; intros n s; cbn [first_pass]; [apply watches_grow_refl|]. destruct (watched s !! h) as [w|]; [|apply IH]. destruct (negb (w_callback w)); [apply IH|].
  pose proof (grows_take fails h w s) as Ht. destruct (poll_take fails h w s) as [[|] s1]; cbn [snd negb] in *; [|exact Ht]. pose proof (Hc n (add_log [(w, Called)] s1)) as H1.
  destruct (call n (add_log [(w, Called)] s1)) as [s2 e]. cbn [fst] in H1. assert (grows s s2) as H2 by (eapply watches_grow_trans; [exact Ht|]; eapply watches_grow_trans; [apply grows_log|exact H1]).
  destruct e; [|exact H2..]. eapply watches_grow_trans; [exact H2|apply IH].
Qed.

Lemma second_pass_grows fails collect hs : forall out s, grows s (fst (fst (second_pass fails collect hs out s))).
Proof.
  induction hs as [|h hs IH]; intros out s; cbn [second_pass]; [apply grows_log|]. destruct (watched s !! h) as [w|]; [|apply IH].
  pose proof (grows_take fails h w s) as Ht. destruct (poll_take fails h w s) as [[|] s1]; cbn [snd negb] in *; [|eapply watches_grow_trans; [exact Ht|apply grows_log]].
  destruct collect; (eapply watches_grow_trans; [exact Ht|]); [apply IH|]. eapply watches_grow_trans; [apply grows_log|apply IH].
Qed.

Lemma tick_grows fails call wait collect s : (forall n x, grows x (fst (call n x))) -> grows s (fst (fst (poll_tick fails call wait collect s))).
Proof.
  intros Hc. unfold poll_tick. destruct wait as [l|]; [|apply watches_grow_refl]. pose proof (first_pass_grows fails call (reported s l) Hc 0 (set_arrays (reported s l :: arrays s) s)) as H1.
  destruct (first_pass _ _ _ _ _) as [s1 e]. cbn [fst] in H1. assert (grows s s1) as H2 by (eapply watches_grow_trans; [|exact H1]; by apply grows_same). destruct e; cbn [fst].
  - pose proof (second_pass_grows fails collect (reported s l) [] s1) as H3. destruct (second_pass _ _ _ _ _) as [[s2 e] out]. cbn [fst] in *. eapply watches_grow_trans; [exact H2|]. eapply watches_grow_trans; [exact H3|by apply grows_same].
  - eapply watches_grow_trans; [exact H2|by apply grows_same].
  - exact H2.
Qed.

Lemma run_grows fails call wait turns : (forall t n x, grows x (fst (call t n x))) -> forall turn s, grows s (fst (Poll_run fails call wait turns turn s)).
Proof.
  intros Hc. induction turns as [|turns IH]; intros turn s; cbn [Poll_run]; (destruct (decide (watched s = ∅)); [apply watches_grow_refl|]); [apply watches_grow_refl|].
  pose proof (tick_grows (fails turn) (call turn) (wait turn s) false s (Hc turn)) as H1. destruct (poll_tick _ _ _ _ s) as [[s1 e] out]. cbn [fst] in H1.
  destruct e; [|exact H1..]. eapply watches_grow_trans; [exact H1|apply IH].
Qed.

Lemma act_grows a s : grows s (fst (act a s)).
Proof.
  destruct a as [h f cb fl|h|h|h|f]; cbn [act fst]; try (by apply grows_same). unfold Poll_watch. destruct (negb _); [apply watches_grow_refl|]. cbn [fst].
  set (s0 := set_held _ _). destruct (put_watch_fields (free_handle h s) {| w_future := f; w_callback := cb; w_id := next_id s |} s0) as (F1 & F2 & _ & _ & _ & F6).
  change (next_id s0) with (next_id s) in *. revert F1 F2 F6. generalize (put_watch (free_handle h s) {| w_future := f; w_callback := cb; w_id := next_id s |} s0). intros s1 F1 F2 F6.
  split; cbn [next log next_id watched]; [rewrite F2; by eexists|]. rewrite F1, F6. split; [cbn; lia|]. intros h' w' [[_ <-]|[_ Hw]]%lookup_insert_Some Hid; [cbn in Hid; lia|done].
Qed.

Lemma exec_grows c : forall s, grows s (fst (exec c s)).
Proof.
  induction c as [thrown|a k IH|fails wait callbacks IHc k IHk|turns fails wait callbacks IHc k IHk]; intros s; cbn [exec].
  - apply watches_grow_refl.
  - pose proof (act_grows a s) as H1. destruct (act a s) as [s1 ok]. eapply watches_grow_trans; [exact H1|apply IH].
  - unfold Poll_tick. destruct (decide (watched s = ∅)); [apply IHk|]. pose proof (tick_grows fails (fun n => exec (callbacks n)) (wait s) true s IHc) as H1.
    destruct (poll_tick _ _ _ _ s) as [[s1 e] out]. cbn [fst] in H1. destruct e; [|..|exact H1]; (eapply watches_grow_trans; [exact H1|apply IHk]).
  - pose proof (run_grows fails (fun t n => exec (callbacks t n)) wait turns IHc 0 s) as H1. destruct (Poll_run _ _ _ turns 0 s) as [s1 e]. cbn [fst] in H1.
    destruct e; [|..|exact H1]; (eapply watches_grow_trans; [exact H1|apply IHk]).
Qed.

Lemma ids_length s : inv false [] s -> next_id s = size (watched s) + length (log s).
Proof.
  intros [I1 _ _ _ _]. apply Permutation_length in I1. rewrite length_seq, length_app, length_fmap, app_nil_r in I1. unfold ids in I1. rewrite !length_fmap in I1.
  by rewrite <- I1, length_map_to_list.
Qed.
(** How a tick ends badly. *)
Lemma first_pass_ends fails call hs n s : match snd (first_pass fails call hs n s) with
  | Returned => True
  | Thrown => (exists h, fails h = true) \/ exists n x, snd (call n x) = Thrown
  | Waiting => exists n x, snd (call n x) = Waiting
  end.
Proof.
  revert n s. induction hs as [|h hs IH]; intros n s; cbn [first_pass]; [done|]. destruct (watched s !! h) as [w|]; [|apply IH]. destruct (negb (w_callback w)); [apply IH|].
  destruct (poll_take fails h w s) as [[|] s1] eqn:E; cbn [negb snd].
  - destruct (call n (add_log [(w, Called)] s1)) as [s2 e] eqn:Ec. destruct e; cbn [snd]; [apply IH|right|]; exists n, (add_log [(w, Called)] s1); by rewrite Ec.
  - left. exists h. unfold poll_take in E. by destruct (fails h).
Qed.

Lemma second_pass_ends fails collect hs out s : match snd (fst (second_pass fails collect hs out s)) with Returned => True | Thrown => exists h, fails h = true | Waiting => False end.
Proof.
  revert out s. induction hs as [|h hs IH]; intros out s; cbn [second_pass]; [done|]. destruct (watched s !! h) as [w|]; [|apply IH].
  destruct (poll_take fails h w s) as [[|] s1] eqn:E; cbn [negb snd fst]; [destruct collect; apply IH|]. exists h. unfold poll_take in E. by destruct (fails h).
Qed.

Lemma tick_ends fails call wait collect s : match snd (fst (poll_tick fails call wait collect s)) with
  | Returned => True
  | Thrown => wait = None \/ (exists h, fails h = true) \/ exists n x, snd (call n x) = Thrown
  | Waiting => exists n x, snd (call n x) = Waiting
  end.
Proof.
  unfold poll_tick. destruct wait as [l|]; [|by left]. pose proof (first_pass_ends fails call (reported s l) 0 (set_arrays (reported s l :: arrays s) s)) as H1.
  destruct (first_pass _ _ _ _ _) as [s1 e]. cbn [snd] in H1. destruct e; cbn [fst snd]; [|by right|done].
  pose proof (second_pass_ends fails collect (reported s l) [] s1) as H2. destruct (second_pass _ _ _ _ _) as [[s2 e] out]. cbn [fst snd] in *. destruct e; [done|right; by left|done].
Qed.

(** A tick that returns after a report of a watch records one. *)
Lemma tick_records fails call wait s l h : (forall n, keeps false (call n)) -> (forall n x, grows x (fst (call n x))) -> inv false [] s -> wait = Some l -> h ∈ reported s l -> is_Some (watched s !! h) ->
  let '(s', e, _) := poll_tick fails call wait false s in e = Returned -> inv false [] s' /\ length (log s) < length (log s').
Proof.
  intros Hk Hg Hi Hl Hh [w Hw]. pose proof (tick_grows fails call wait false s Hg) as G. pose proof (poll_tick_inv false fails call wait false s ltac:(done) Hk Hi) as H.
  destruct (poll_tick _ _ _ _ s) as [[s' e] out]. cbn [fst] in G. destruct H as (Hi' & _ & _ & H). intros E. split; [done|]. destruct (H E) as (l' & El & Hgone & _). rewrite Hl in El. injection El as <-.
  destruct G as ((more & Em) & Hn & Hback). rewrite Em, length_app. destruct more as [|x more]; [exfalso|cbn; lia]. rewrite app_nil_r in Em.
  destruct Hi as [I1 _ _ _ _], Hi' as [J1 _ _ _ _]. rewrite !app_nil_r in I1, J1. assert (NoDup (ids (watched s) ++ (w_id ∘ fst <$> log s))) as Hnd by (rewrite I1; apply NoDup_seq).
  assert (forall h w, watched s !! h = Some w -> w_id w ∈ ids (watched s)) as Hin.
  { intros h' w' Hw'. unfold ids. apply list_elem_of_fmap. exists w'. split; [done|]. apply list_elem_of_fmap. exists (h', w'). split; [done|by apply elem_of_map_to_list]. }
  assert (w_id w ∈ seq 0 (next_id s)) as Hid by (rewrite <- I1; apply elem_of_app; left; by eapply Hin). apply elem_of_seq in Hid.
  assert (w_id w ∈ ids (watched s') ++ (w_id ∘ fst <$> log s')) as [Hx|Hx]%elem_of_app by (rewrite J1; apply elem_of_seq; lia).
  - unfold ids in Hx. apply list_elem_of_fmap in Hx as (w' & Eid & Hx). apply list_elem_of_fmap in Hx as ([h' w''] & -> & Hx%elem_of_map_to_list). cbn [snd] in *.
    pose proof (Hback h' w'' Hx ltac:(lia)) as Hs. destruct (decide (h' = h)) as [->|Hne]; [by rewrite (Hgone h Hh) in Hx|].
    apply list.NoDup_app in Hnd as (Hnd & _ & _). rewrite (ids_delete _ h w Hw) in Hnd. apply list.NoDup_cons in Hnd as [Hno _]. apply Hno. rewrite Eid. unfold ids. apply list_elem_of_fmap.
    exists w''. split; [done|]. apply list_elem_of_fmap. exists (h', w''). split; [done|]. apply elem_of_map_to_list. by rewrite lookup_delete_ne.
  - apply list.NoDup_app in Hnd as (_ & Hd & _). apply (Hd (w_id w)); [by eapply Hin|]. by rewrite <- Em.
Qed.

(** The states in which [run] waits. *)
Section run.
Context (fails : nat -> nat -> bool) (call : nat -> nat -> poll -> poll * ending) (wait : nat -> poll -> option (list nat)).

Inductive waits (s : poll) : nat -> poll -> Prop :=
| first_wait : watched s <> ∅ -> waits s 0 s
| next_wait t x y out : waits s t x -> poll_tick (fails t) (call t) (wait t x) false x = (y, Returned, out) -> watched y <> ∅ -> waits s (S t) y.

(** The wait throws, or reports a watch; it may report watchers of other code besides. *)
Definition reports (t : nat) (x : poll) : Prop := wait t x = None \/ exists l h, wait t x = Some l /\ h ∈ reported x l /\ is_Some (watched x !! h).

Context (Hkeeps : forall t n, keeps false (call t n)) (Hgrows : forall t n x, grows x (fst (call t n x))).

Lemma run_ends s0 turns : forall turn s, inv false [] s -> (watched s <> ∅ -> waits s0 turn s) -> (forall t x, waits s0 t x -> reports t x) ->
  let '(s', e) := Poll_run fails call wait turns turn s in
  inv false [] s' /\
  match e with
  | Returned => watched s' = ∅
  | Thrown => exists t x, waits s0 t x /\ (wait t x = None \/ (exists h, fails t h = true) \/ exists n y, snd (call t n y) = Thrown)
  | Waiting => length (log s) + turns + size (watched s') <= next_id s' /\ watched s' <> ∅ \/ exists t n y, snd (call t n y) = Waiting
  end.
Proof using Hkeeps Hgrows.
  induction turns as [|turns IH]; intros turn s Hi Hw Hr; cbn [Poll_run]; (destruct (decide (watched s = ∅)) as [He|He]; [done|]).
  - split; [done|]. left. split; [|done]. rewrite (ids_length s Hi). lia.
  - pose proof (Hw He) as Hwt. pose proof (tick_ends (fails turn) (call turn) (wait turn s) false s) as Hend.
    pose proof (poll_tick_inv false (fails turn) (call turn) (wait turn s) false s ltac:(done) (Hkeeps turn) Hi) as H1.
    assert (forall y out, poll_tick (fails turn) (call turn) (wait turn s) false s = (y, Returned, out) -> length (log s) < length (log y)) as Hrec.
    { intros y out E. destruct (Hr turn s Hwt) as [Hn|(l & h & Hl & Hh & Hs)]; [rewrite Hn in E; done|].
      pose proof (tick_records (fails turn) (call turn) (wait turn s) s l h (Hkeeps turn) (Hgrows turn) Hi Hl Hh Hs) as H. rewrite E in H. by destruct (H eq_refl). }
    destruct (poll_tick _ _ _ _ s) as [[s1 e] out] eqn:E. cbn [fst snd] in Hend. destruct H1 as (I1 & _). destruct e.
    + specialize (IH (S turn) s1 I1 ltac:(intros Hne; eapply next_wait; [exact Hwt|exact E|exact Hne]) Hr). destruct (Poll_run _ _ _ turns (S turn) s1) as [s2 e2]. destruct IH as [I2 IH]. split; [done|].
      destruct e2; [done|done|]. destruct IH as [[IH1 IH2]|IH]; [left|by right]. split; [|done]. pose proof (Hrec s1 out eq_refl). lia.
    + split; [done|]. by exists turn, s.
    + split; [done|]. right. destruct Hend as (n & y & Hy). by exists turn, n, y.
Qed.
End run.

(** C33: [run] ends.  Whatever its callbacks do, that watch further futures, throw or run the loop themselves: when every wait reports a watch or throws and no
    callback waits for ever itself, [run] has ended after at most as many waits as there are watches, those that callbacks make included.  When it returns, nothing is
    watched and each watch was called back, let go or lost; it throws only when a wait, the removal of a watcher or a callback throws. *)
Theorem run_returns c claimed fails callbacks wait turns made :
  let s := fst (exec c (new_poll claimed)) in
  let call t n := exec (callbacks t n) in
  (forall t x, waits fails call wait s t x -> reports wait t x) ->
  (forall t n x, snd (call t n x) <> Waiting) ->
  let '(s', e) := Poll_run fails call wait turns 0 s in
  next_id s' <= next_id s + made -> Poll_pending s + made <= turns ->
  match e with
  | Returned => Poll_pending s' = 0 /\ (w_id ∘ fst <$> log s') ≡ₚ seq 0 (next_id s')
  | Thrown => exists t x, waits fails call wait s t x /\ (wait t x = None \/ (exists h, fails t h = true) \/ exists n y, snd (call t n y) = Thrown)
  | Waiting => False
  end.
Proof.
  intros s call Hr Hnw. assert (inv false [] s) as Hi by by apply reached_inv.
  pose proof (run_ends fails call wait ltac:(intros t n; by apply exec_keeps) ltac:(intros t n x; apply exec_grows) s turns 0 s Hi ltac:(intros; by apply first_wait) Hr) as H.
  destruct (Poll_run fails call wait turns 0 s) as [s' e]. destruct H as [Hi' H]. intros Hm Ht. destruct e; [|done|].
  - unfold Poll_pending. rewrite H, map_size_empty. split; [done|]. destruct Hi' as [I1 _ _ _ _]. by rewrite H, app_nil_r in I1.
  - destruct H as [[H1 H2]|(t & n & y & Hy)]; [|by apply (Hnw t n y)]. pose proof (ids_length s Hi) as Hl. unfold Poll_pending in Ht. apply map_size_non_empty_iff in H2. lia.
Qed.

(** A wait that offers every watcher of the loop. *)
Definition offer_all (t : nat) (x : poll) : option (list nat) := Some (elements (dom (watched x))).
(** A future with a callback that watches another and throws, and one with a callback that only watches another. *)
Definition watching_code : code := Do (Watch 1 10 true false) (fun _ => Do (Resolve 10) (fun _ => Return false)).
Definition watching_callback (thrown : bool) (t n : nat) : code := if decide (t = 0) then Do (Watch 2 11 false false) (fun _ => Do (Resolve 11) (fun _ => Return thrown)) else Return false.

Definition watching_start : poll := fst (exec watching_code (new_poll ∅)).
Definition watching_next : poll := fst (fst (poll_tick (fun _ => false) (fun n => exec (watching_callback false 0 n)) (offer_all 0 watching_start) false watching_start)).

Lemma watching_waits thrown t x : waits (fun _ _ => false) (fun t n => exec (watching_callback thrown t n)) offer_all watching_start t x -> (t, x) = (0, watching_start) \/ (t, x) = (1, watching_next).
Proof.
  induction 1 as [_|t x y out _ [IH|IH] E Hne]; [by left|injection IH as -> ->..].
  - right. destruct thrown; vm_compute in E; [discriminate E|]. injection E as <- _. by vm_compute.
  - exfalso. apply Hne. destruct thrown; vm_compute in E; injection E as <- _; by vm_compute.
Qed.

Lemma run_returns_witness :
  (let '(s', e) := Poll_run (fun _ _ => false) (fun t n => exec (watching_callback false t n)) offer_all 2 0 watching_start in
   match e with Returned => Poll_pending s' = 0 /\ map (fun x => (w_future x.1, x.2)) (log s') = [(10, Called); (11, Discarded)] | _ => False end) /\
  (let '(s', e) := Poll_run (fun _ _ => false) (fun t n => exec (watching_callback true t n)) offer_all 2 0 watching_start in
   match e with Thrown => exists t n y, snd (exec (watching_callback true t n) y) = Thrown | _ => False end).
Proof.
  assert (forall thrown t x, waits (fun _ _ => false) (fun t n => exec (watching_callback thrown t n)) offer_all watching_start t x -> reports offer_all t x) as Hr.
  { intros thrown t x [[= -> ->]|[= -> ->]]%watching_waits; right; eexists; [exists 1|exists 2]; (split; [reflexivity|]); (split; [vm_compute; set_solver|vm_compute; by eexists]). }
  assert (forall thrown t n x, snd (exec (watching_callback thrown t n) x) <> Waiting) as Hn.
  { intros thrown t n x. unfold watching_callback. destruct (decide (t = 0)); [|done]. cbn [exec act fst snd]. destruct (Poll_watch 2 11 false false x). by destruct thrown. }
  split.
  - pose proof (run_returns watching_code ∅ (fun _ _ => false) (watching_callback false) offer_all 2 1 (Hr false) (Hn false)) as H. change (fst (exec watching_code (new_poll ∅))) with watching_start in H.
    destruct (Poll_run _ _ offer_all 2 0 watching_start) as [s' e] eqn:E. assert (next_id s' <= next_id watching_start + 1 /\ map (fun x => (w_future x.1, x.2)) (log s') = [(10, Called); (11, Discarded)]) as [Hm Hl]
      by (vm_compute in E; injection E as <- _; by vm_compute). specialize (H Hm ltac:(by vm_compute)). destruct e; [by destruct H| |done].
    destruct H as (t & x & _ & [Hw|[[h Hh]|(n & y & Hy)]]); [done|done|]. unfold watching_callback in Hy. destruct (decide (t = 0)); [|done]. cbn [exec act fst snd] in Hy. by destruct (Poll_watch 2 11 false false y).
  - pose proof (run_returns watching_code ∅ (fun _ _ => false) (watching_callback true) offer_all 2 1 (Hr true) (Hn true)) as H. change (fst (exec watching_code (new_poll ∅))) with watching_start in H.
    destruct (Poll_run _ _ offer_all 2 0 watching_start) as [s' e] eqn:E. assert (next_id s' <= next_id watching_start + 1 /\ Poll_pending s' = 1) as [Hm Hl] by (vm_compute in E; injection E as <- _; vm_compute; split; [lia|done]).
    specialize (H Hm ltac:(by vm_compute)). destruct e; [destruct H as [H _]; congruence| |done]. destruct H as (t & x & _ & [Hw|[[h Hh]|(n & y & Hy)]]); [done|done|]. by exists t, n, y.
Defined.
