(* ===== verification/Decimals.v ===== *)
(** [Decimal] objects ([Numbers/Decimal.c]): construction, arithmetic and conversion.

    A decimal is an unscaled integer and a scale, and stands for [value * 10^(-scale)].  Objects live in a store, since
    [add] and [sub] write to their operands.  A double is its 64 bits.  GMP's floating point numbers are rationals; what its functions return is what GMP
    documents, the exact result truncated to the precision of the number (class [Mpf]).  [None] is a signed overflow. *)
From S2P Require Import Prelude CLib NumberParser.
From stdpp Require Import gmap.
From Stdlib Require Import QArith Qpower Lqa Qabs Znumtheory.
#[local] Open Scope Z_scope.

(** ** Objects *)

Record decimal := { value : Z; scale : Z }.

Abbreviation store := (gmap nat decimal).

(** What a decimal stands for. *)
Definition denotes (d : decimal) : Q := inject_Z (value d) * Qpower 10 (- scale d).

(** ** From a double *)

Definition DOUBLE_MANTISSA_BITS : Z := 52.
Definition DOUBLE_EXPONENT_BITS : Z := 11.
Definition DOUBLE_MANTISSA_MASK : Z := Z.shiftl 1 DOUBLE_MANTISSA_BITS - 1.
Definition DOUBLE_EXPONENT_MASK : Z := Z.shiftl 1 DOUBLE_EXPONENT_BITS - 1.

(** The loop that moves trailing zeros to the exponent. *)
Fixpoint strip (fuel : nat) (exponent mantissa : Z) : Z * Z :=
  match fuel with
  | O => (exponent, mantissa)
  | S fuel => if (exponent <? 0) && (Z.land mantissa 1 =? 0) then strip fuel (exponent + 1) (Z.shiftr mantissa 1) else (exponent, mantissa)
  end.

Section gmp.
Context `{G : Gmp}.

Definition from_double (raw : Z) : option decimal :=
  let mantissa := Z.land raw DOUBLE_MANTISSA_MASK in
  let exponent := Z.land (Z.shiftr raw DOUBLE_MANTISSA_BITS) DOUBLE_EXPONENT_MASK in
  let '(denormal, exponent) := if exponent =? 0 then (true, -1022) else (false, exponent - 1023) in
  let exponent := exponent - DOUBLE_MANTISSA_BITS in
  let mantissa := if negb denormal then Z.lor mantissa (Z.shiftl 1 DOUBLE_MANTISSA_BITS) else mantissa in
  let '(exponent, mantissa) := strip (Z.to_nat (- exponent)) exponent mantissa in
  match mpz_set_str (show_dec mantissa) 10 with
  | None => None
  | Some v =>
      let v := if raw <? 0 then - v else v in
      Some (if exponent <? 0 then {| value := v * 5 ^ (- exponent); scale := - exponent |} else {| value := Z.shiftl v exponent; scale := 0 |})
  end.

(** ** Construction *)

Inductive decimal_arg := DecimalLong (n : Z) | DecimalDouble (raw : Z) | DecimalString (s : bytes) | DecimalObject (o : nat) | DecimalOther.
Inductive made := Made (d : decimal) | NotFinite | NotParsed | NotSupported.

Definition not_finite (raw : Z) : bool := Z.land (Z.shiftr raw DOUBLE_MANTISSA_BITS) DOUBLE_EXPONENT_MASK =? DOUBLE_EXPONENT_MASK.

Definition php_scylladb_decimal_init (arg : decimal_arg) (h : store) : made :=
  match arg with
  | DecimalLong n => Made {| value := n; scale := 0 |}
  | DecimalDouble raw => if not_finite raw then NotFinite else match from_double raw with Some d => Made d | None => NotParsed end
  | DecimalString s => match php_scylladb_parse_decimal s with Parsed (v, sc) => Made {| value := v; scale := sc |} | _ => NotParsed end
  | DecimalObject o => match h !! o with Some d => Made d | None => NotSupported end
  | DecimalOther => NotSupported
  end.
End gmp.

(** ** Arithmetic *)

Definition with_value (v : Z) (d : decimal) : decimal := {| value := v; scale := scale d |}.

Definition fits_long (z : Z) : bool := (INT64_MIN <=? z) && (z <=? INT64_MAX).

(** The operand with the smaller scale is scaled up in place; its scale stays. *)
Definition align_decimals (l r : nat) (h : store) : option store :=
  match h !! l, h !! r with
  | Some lhs, Some rhs =>
      if scale lhs <? scale rhs then
        if fits_long (scale rhs - scale lhs) then Some (<[l := with_value (value lhs * 10 ^ (scale rhs - scale lhs)) lhs]> h) else None
      else if scale rhs <? scale lhs then
        if fits_long (scale lhs - scale rhs) then Some (<[r := with_value (value rhs * 10 ^ (scale lhs - scale rhs)) rhs]> h) else None
      else Some h
  | _, _ => None
  end.

Definition aligned (op : Z -> Z -> Z) (self num : nat) (h : store) : option (nat * store) :=
  match align_decimals self num h with
  | None => None
  | Some h =>
      match h !! self, h !! num with
      | Some a, Some b => let r := fresh (dom h) in Some (r, <[r := {| value := op (value a) (value b); scale := Z.max (scale a) (scale b) |}]> h)
      | _, _ => None
      end
  end.

Definition Decimal_add : nat -> nat -> store -> option (nat * store) := aligned Z.add.
Definition Decimal_sub : nat -> nat -> store -> option (nat * store) := aligned Z.sub.

Definition Decimal_mul (self num : nat) (h : store) : option (nat * store) :=
  match h !! self, h !! num with
  | Some a, Some b =>
      if fits_long (scale a + scale b) then let r := fresh (dom h) in Some (r, <[r := {| value := value a * value b; scale := scale a + scale b |}]> h) else None
  | _, _ => None
  end.

Definition unary (op : Z -> Z) (self : nat) (h : store) : option (nat * store) :=
  match h !! self with Some a => let r := fresh (dom h) in Some (r, <[r := with_value (op (value a)) a]> h) | None => None end.
Definition Decimal_abs : nat -> store -> option (nat * store) := unary Z.abs.
Definition Decimal_neg : nat -> store -> option (nat * store) := unary Z.opp.

(** ** Conversion to an integer *)

Class Mpf := mpf_truncate : Q -> Q.

(** GMP documents that a result is truncated to the precision, 53 bits at least by default; a number is a binary fraction. *)
Class MpfLaws (M : Mpf) : Prop := {
  truncate_proper :: Proper (Qeq ==> Qeq) mpf_truncate;
  truncate_pos q : (0 <= q)%Q -> (q * (1 - (1 # 4503599627370496)) <= mpf_truncate q /\ mpf_truncate q <= q)%Q;
  truncate_neg q : (mpf_truncate (- q) == - mpf_truncate q)%Q;
  truncate_int z : Z.abs z < 2 ^ 53 -> (mpf_truncate (inject_Z z) == inject_Z z)%Q;
  truncate_binary q : exists m k, 0 <= k /\ (mpf_truncate q * inject_Z (2 ^ k) == inject_Z m)%Q
}.

Section mpf.
Context `{M : Mpf}.

Definition to_mpf (d : decimal) : Q :=
  let result := mpf_truncate (inject_Z (value d)) in
  let scale_factor := mpf_truncate (inject_Z (10 ^ Z.abs (scale d))) in
  let scale_factor := if 0 <? scale d then mpf_truncate (/ scale_factor) else scale_factor in
  mpf_truncate (result * scale_factor).

Inductive integer_result := Integer (n : Z) | TooSmall | TooBig.

(** [mpf_get_si] *)
Definition mpf_get_si (q : Q) : Z := Z.quot (Qnum q) (QDen q).

Definition to_long (d : decimal) : integer_result :=
  let v := to_mpf d in
  if negb (Qle_bool (inject_Z INT64_MIN) v) then TooSmall
  else if negb (Qle_bool v (inject_Z INT64_MAX)) then TooBig
  else Integer (mpf_get_si v).
End mpf.

(** ** Arithmetic is exact *)

Lemma ten_nz : ~ (10 == 0)%Q.
Proof. done. Qed.

Lemma inject_pow10 n : 0 <= n -> (inject_Z (10 ^ n) == Qpower 10 n)%Q.
Proof. intros H. rewrite Zpower_Qpower by done. done. Qed.

(** An unscaled value that is scaled up and its scale. *)
Lemma denotes_scaled v s n : 0 <= n -> (inject_Z (v * 10 ^ n) * Qpower 10 (- (s + n)) == inject_Z v * Qpower 10 (- s))%Q.
Proof.
  intros H. rewrite inject_Z_mult, inject_pow10 by done. replace (- s) with (n + - (s + n)) by lia. rewrite (Qpower_plus 10 n) by apply ten_nz. ring.
Qed.

(** What an operand becomes: its value is scaled up, its scale is not. *)
Definition scaled_to (m : Z) (d : decimal) : decimal := with_value (value d * 10 ^ (m - scale d)) d.

Lemma scaled_to_same d : scaled_to (scale d) d = d.
Proof. unfold scaled_to. rewrite Z.sub_diag, Z.mul_1_r. by destruct d. Qed.

Lemma align_spec self num h a b : h !! self = Some a -> h !! num = Some b -> fits_long (scale a - scale b) = true -> fits_long (scale b - scale a) = true ->
  let m := Z.max (scale a) (scale b) in
  align_decimals self num h = Some (<[self := scaled_to m a]> (<[num := scaled_to m b]> h)).
Proof.
  intros Ha Hb F1 F2 m. unfold align_decimals. rewrite Ha, Hb, F1, F2. destruct (Z.ltb_spec (scale a) (scale b)) as [H|H]; [|destruct (Z.ltb_spec (scale b) (scale a)) as [H'|H']].
  - replace m with (scale b) by lia. rewrite scaled_to_same. by rewrite (insert_id h num b).
  - replace m with (scale a) by lia. rewrite scaled_to_same. destruct (decide (self = num)) as [->|Hne]; [replace b with a in * by congruence; lia|]. rewrite insert_insert_ne by done. by rewrite (insert_id h self a).
  - replace m with (scale a) by lia. rewrite scaled_to_same. replace (scale a) with (scale b) by lia. rewrite scaled_to_same, (insert_id h num b) by done. by rewrite insert_id.
Qed.

Lemma aligned_spec op self num h a b : h !! self = Some a -> h !! num = Some b -> fits_long (scale a - scale b) = true -> fits_long (scale b - scale a) = true ->
  let m := Z.max (scale a) (scale b) in
  exists r h', aligned op self num h = Some (r, h') /\ h !! r = None /\ h' !! r = Some {| value := op (value a * 10 ^ (m - scale a)) (value b * 10 ^ (m - scale b)); scale := m |} /\
    h' !! self = Some (scaled_to m a) /\ h' !! num = Some (scaled_to m b) /\ forall o, o <> r -> o <> self -> o <> num -> h' !! o = h !! o.
Proof.
  intros Ha Hb F1 F2 m. pose proof (align_spec self num h a b Ha Hb F1 F2) as Ea. cbv zeta in Ea. fold m in Ea. set (h1 := <[self := _]> _) in Ea.
  assert (h1 !! self = Some (scaled_to m a)) as H1 by apply lookup_insert_eq.
  assert (h1 !! num = Some (scaled_to m b)) as H2. { unfold h1. destruct (decide (self = num)) as [E|Hne]; [subst num; replace b with a by congruence; apply lookup_insert_eq|]. rewrite lookup_insert_ne by done. apply lookup_insert_eq. }
  assert (h1 !! fresh (dom h1) = None) as Hf by apply not_elem_of_dom, is_fresh.
  assert (forall o, o <> self -> o <> num -> h1 !! o = h !! o) as H3 by (intros o N1 N2; unfold h1; by rewrite !lookup_insert_ne by done).
  exists (fresh (dom h1)). eexists. unfold aligned. rewrite Ea, H1, H2. split; [done|].
  assert (fresh (dom h1) <> self) as N1 by congruence. assert (fresh (dom h1) <> num) as N2 by congruence.
  split; [by rewrite <- H3|]. rewrite lookup_insert_eq, !lookup_insert_ne by done. split; [done|]. split; [done|]. split; [done|]. intros o Ho ? ?. rewrite lookup_insert_ne by done. by apply H3.
Qed.

Lemma denotes_scaled_to m d : scale d <= m -> (denotes (scaled_to m d) == denotes d * Qpower 10 (m - scale d))%Q /\ (inject_Z (value d * 10 ^ (m - scale d)) * Qpower 10 (- m) == denotes d)%Q.
Proof.
  intros H. split.
  - unfold denotes, scaled_to, with_value. cbn [value scale]. rewrite inject_Z_mult, inject_pow10 by lia. ring.
  - unfold denotes. replace (- m) with (- (scale d + (m - scale d))) by lia. by rewrite denotes_scaled by lia.
Qed.

Lemma fits_longs a b : in_s 64 a -> in_s 64 b -> (Z.abs (a - b) <= INT64_MAX) -> fits_long (a - b) = true /\ fits_long (b - a) = true.
Proof. intros _ _ H. unfold fits_long, INT64_MIN, INT64_MAX in *. split; lia. Qed.

(** Arithmetic of decimals.  For scales whose difference fits a long, a sum and a difference are exact, in a new object.  The operands are not left alone: the one
    with the smaller scale is multiplied by the power of ten between the scales, so that it stands for another number afterwards, unless the scales are equal or it is zero.  A product is exact
    and leaves its operands alone, and so do the absolute value and the negation. *)
Theorem decimal_arithmetic self num h a b : h !! self = Some a -> h !! num = Some b -> Z.abs (scale a - scale b) <= INT64_MAX ->
  let m := Z.max (scale a) (scale b) in
  (forall op qop, (op, qop) = (Decimal_add, Qplus) \/ (op, qop) = (Decimal_sub, Qminus) ->
     exists r h' d, op self num h = Some (r, h') /\ h !! r = None /\ h' !! r = Some d /\ (denotes d == qop (denotes a) (denotes b))%Q /\
       (forall o, o <> r -> o <> self -> o <> num -> h' !! o = h !! o) /\
       exists a' b', h' !! self = Some a' /\ h' !! num = Some b' /\ (denotes a' == denotes a * Qpower 10 (m - scale a))%Q /\ (denotes b' == denotes b * Qpower 10 (m - scale b))%Q) /\
  (fits_long (scale a + scale b) = true -> exists r h' d, Decimal_mul self num h = Some (r, h') /\ h !! r = None /\ h' !! r = Some d /\ (denotes d == denotes a * denotes b)%Q /\ forall o, o <> r -> h' !! o = h !! o) /\
  (exists r h' d, Decimal_neg self h = Some (r, h') /\ h' !! r = Some d /\ (denotes d == - denotes a)%Q /\ forall o, o <> r -> h' !! o = h !! o) /\
  (exists r h' d, Decimal_abs self h = Some (r, h') /\ h' !! r = Some d /\ (denotes d == Qabs (denotes a))%Q /\ forall o, o <> r -> h' !! o = h !! o).
Proof.
  intros Ha Hb Hs m. assert (fits_long (scale a - scale b) = true /\ fits_long (scale b - scale a) = true) as [F1 F2] by (unfold fits_long, INT64_MIN, INT64_MAX in *; lia).
  destruct (denotes_scaled_to m a ltac:(lia)) as [Da Va], (denotes_scaled_to m b ltac:(lia)) as [Db Vb].
  split; [|split; [|split]].
  - intros op qop Hop. assert (exists zop, op = aligned zop /\ forall x y, (inject_Z (zop x y) * Qpower 10 (- m) == qop (inject_Z x * Qpower 10 (- m)) (inject_Z y * Qpower 10 (- m)))%Q /\ Proper (Qeq ==> Qeq ==> Qeq) qop) as (zop & -> & Hz).
    { destruct Hop as [[= -> ->]|[= -> ->]]; [exists Z.add; split; [done|]; intros x y; split; [rewrite inject_Z_plus; ring|apply Qplus_comp]|exists Z.sub; split; [done|]; intros x y; split; [|apply Qminus_comp]; unfold Z.sub, Qminus; rewrite inject_Z_plus, inject_Z_opp; ring]. }
    destruct (aligned_spec zop self num h a b Ha Hb F1 F2) as (r & h' & E & Hr & Hd & H1 & H2 & H3). exists r, h'. eexists. split; [exact E|]. split; [done|]. split; [exact Hd|]. fold m in Hd, H1, H2 |- *.
    split; [|split; [done|by eexists _, _]]. unfold denotes at 1. cbn [value scale]. destruct (Hz (value a * 10 ^ (m - scale a)) (value b * 10 ^ (m - scale b))) as [-> Hp]. by apply Hp.
  - intros Hf. unfold Decimal_mul. rewrite Ha, Hb, Hf. eexists _, _, _. split; [done|]. split; [apply not_elem_of_dom, is_fresh|]. split; [apply lookup_insert_eq|].
    split; [|intros o Ho; by apply lookup_insert_ne]. unfold denotes. cbn [value scale]. rewrite inject_Z_mult. replace (- (scale a + scale b)) with (- scale a + - scale b) by lia. rewrite Qpower_plus by apply ten_nz. ring.
  - unfold Decimal_neg, unary. rewrite Ha. eexists _, _, _. split; [done|]. split; [apply lookup_insert_eq|]. split; [|intros o Ho; by apply lookup_insert_ne]. unfold denotes, with_value. cbn [value scale]. rewrite inject_Z_opp. ring.
  - unfold Decimal_abs, unary. rewrite Ha. eexists _, _, _. split; [done|]. split; [apply lookup_insert_eq|]. split; [|intros o Ho; by apply lookup_insert_ne]. unfold denotes, with_value. cbn [value scale].
    rewrite Qabs_Qmult. rewrite (Qabs_pos (Qpower 10 (- scale a))) by (apply Qpower_pos; done). done.
Qed.

Lemma decimal_arithmetic_witness :
  let h : store := {[0%nat := {| value := 1; scale := 0 |}; 1%nat := {| value := 5; scale := 1 |}]} in
  exists r h' d, Decimal_add 0 1 h = Some (r, h') /\ h' !! r = Some d /\ (denotes d == 3 # 2)%Q /\ exists a', h' !! 0%nat = Some a' /\ (denotes a' == 10)%Q.
Proof.
  intros h. destruct (decimal_arithmetic 0 1 h {| value := 1; scale := 0 |} {| value := 5; scale := 1 |} ltac:(by vm_compute) ltac:(by vm_compute) ltac:(by vm_compute)) as (H & _).
  destruct (H Decimal_add Qplus (or_introl eq_refl)) as (r & h' & d & E & _ & Hr & Hd & _ & a' & b' & Ha & _ & Da & _). exists r, h', d. split; [exact E|]. split; [exact Hr|].
  split; [rewrite Hd; by vm_compute|]. exists a'. split; [exact Ha|]. rewrite Da. by vm_compute.
Defined.

(** ** From a double *)

(** The number a finite double stands for. *)
Definition double_value (raw : Z) : Q :=
  let sign := if raw <? 0 then -1 else 1 in
  let exponent := (raw / 2 ^ 52) mod 2 ^ 11 in
  let mantissa := raw mod 2 ^ 52 in
  if exponent =? 0 then inject_Z (sign * mantissa) * Qpower 2 (-1074) else inject_Z (sign * (2 ^ 52 + mantissa)) * Qpower 2 (exponent - 1075).

Lemma two_nz : ~ (2 == 0)%Q.
Proof. done. Qed.

Lemma strip_spec fuel e m : 0 <= m -> - e <= Z.of_nat fuel -> let '(e', m') := strip fuel e m in
  (inject_Z m * Qpower 2 e == inject_Z m' * Qpower 2 e')%Q /\ 0 <= m' /\ e <= e' /\ (e' < 0 -> Z.odd m' = true).
Proof.
  revert e m. induction fuel as [|fuel IH]; intros e m Hm Hf; cbn [strip]; [split; [done|]; lia|].
  change 1 with (Z.ones 1) at 1. rewrite Z.land_ones by lia. change (2 ^ 1) with 2. destruct (Z.ltb_spec e 0), (Z.eqb_spec (m mod 2) 0); cbn [andb]; try (split; [done|]; split; [done|]; split; [lia|]; rewrite Zmod_odd in *; destruct (Z.odd m); lia || done).
  rewrite Z.shiftr_div_pow2 by lia. change (2 ^ 1) with 2. specialize (IH (e + 1) (m / 2) ltac:(apply Z.div_pos; lia) ltac:(lia)). destruct (strip fuel (e + 1) (m / 2)) as [e' m']. destruct IH as (H1 & H2 & H3 & H4).
  split; [|split; [done|split; [lia|done]]]. rewrite <- H1. rewrite Qpower_plus by apply two_nz. change (Qpower 2 1) with 2%Q. rewrite (Z.div_mod m 2) at 1 by lia. rewrite e0, Z.add_0_r, inject_Z_mult. change (inject_Z 2) with 2%Q. ring.
Qed.

Lemma show_dec_parses `{G : Gmp} `{!GmpLaws G} m : 0 <= m -> mpz_set_str (show_dec m) 10 = Some m.
Proof.
  intros H. unfold show_dec. destruct (Z.ltb_spec m 0); [lia|]. destruct (mpz_set_str_10 (show_nat 10 m)) as [E _]; [|by apply show_nat_isdigit|].
  - destruct (show_nat_digit_hd m H) as (c & l & -> & _). done.
  - rewrite E. by rewrite show_nat_value by lia.
Qed.

Lemma mantissa_bits raw : Z.land raw DOUBLE_MANTISSA_MASK = raw mod 2 ^ 52.
Proof. change DOUBLE_MANTISSA_MASK with (Z.ones 52). by apply Z.land_ones. Qed.

Lemma exponent_bits raw : Z.land (Z.shiftr raw DOUBLE_MANTISSA_BITS) DOUBLE_EXPONENT_MASK = (raw / 2 ^ 52) mod 2 ^ 11.
Proof. change DOUBLE_EXPONENT_MASK with (Z.ones 11). unfold DOUBLE_MANTISSA_BITS. rewrite Z.shiftr_div_pow2 by lia. by apply Z.land_ones. Qed.

(** The implied bit. *)
Lemma implied_bit m : 0 <= m < 2 ^ 52 -> Z.lor m (Z.shiftl 1 DOUBLE_MANTISSA_BITS) = 2 ^ 52 + m.
Proof.
  intros H. change (Z.shiftl 1 DOUBLE_MANTISSA_BITS) with (2 ^ 52). assert (Z.land m (2 ^ 52) = 0) as E.
  { apply Z.bits_inj'. intros n Hn. rewrite Z.land_spec, Z.bits_0, Z.pow2_bits_eqb by lia. destruct (Z.eqb_spec 52 n) as [<-|]; [|apply andb_false_r]. rewrite andb_true_r.
    rewrite <- (Z.mod_small m (2 ^ 52)) by done. by apply Z.mod_pow2_bits_high. }
  rewrite <- Z.lxor_lor, <- Z.add_nocarry_lxor by done. lia.
Qed.

Lemma odd_mul_pow5 m k : Z.odd m = true -> 0 <= k -> (m * 5 ^ k) mod 10 <> 0.
Proof.
  intros Hm Hk E. assert (Z.odd (m * 5 ^ k) = true) as Ho. { rewrite Z.odd_mul, Hm. destruct (Z.eq_dec k 0) as [->|]; [done|]. by rewrite Z.odd_pow by lia. }
  apply Z.mod_divide in E as [q E]; [|done]. rewrite E, Z.odd_mul in Ho. by rewrite andb_false_r in Ho.
Qed.

Lemma pow2_pow5 k : (Qpower 2 (- k) == Qpower 5 k * Qpower 10 (- k))%Q.
Proof. change 10%Q with (2 * 5)%Q. rewrite Qmult_power, (Qpower_opp 5). field. apply Qpower_not_0. done. Qed.

(** C34: a decimal from a double is exact.  For every finite double, of either sign, normal or not, the decimal stands for exactly the double's number; its scale is from 0 to 1074 and the least
    that can be.  Infinities and NaN are refused. *)
Theorem decimal_from_double_exact `{G : Gmp} `{!GmpLaws G} raw h :
  if not_finite raw then php_scylladb_decimal_init (DecimalDouble raw) h = NotFinite
  else exists d, php_scylladb_decimal_init (DecimalDouble raw) h = Made d /\ (denotes d == double_value raw)%Q /\ 0 <= scale d <= 1074 /\ (0 < scale d -> value d mod 10 <> 0).
Proof.
  destruct (not_finite raw) eqn:Hn; cbn [php_scylladb_decimal_init]; rewrite Hn; [done|]. unfold from_double, double_value. rewrite mantissa_bits, exponent_bits. set (E := (raw / 2 ^ 52) mod 2 ^ 11). set (m := raw mod 2 ^ 52).
  assert (0 <= m < 2 ^ 52) as Hm by (apply Z.mod_pos_bound; lia). assert (0 <= E < 2 ^ 11) as HE by (apply Z.mod_pos_bound; lia).
  set (sg := if raw <? 0 then -1 else 1).
  assert (forall e0 m0, 0 <= m0 -> -1074 <= e0 -> exists d, match (let '(exponent, mantissa) := strip (Z.to_nat (- e0)) e0 m0 in
      match mpz_set_str (show_dec mantissa) 10 with None => None | Some v => let v := if raw <? 0 then - v else v in
        Some (if exponent <? 0 then {| value := v * 5 ^ (- exponent); scale := - exponent |} else {| value := Z.shiftl v exponent; scale := 0 |}) end) with Some d => Made d | None => NotParsed end = Made d /\
      (denotes d == inject_Z (sg * m0) * Qpower 2 e0)%Q /\ 0 <= scale d <= 1074 /\ (0 < scale d -> value d mod 10 <> 0)) as Hmain.
  { intros e0 m0 Hm0 He0. pose proof (strip_spec (Z.to_nat (- e0)) e0 m0 Hm0 ltac:(lia)) as Hs. destruct (strip (Z.to_nat (- e0)) e0 m0) as [e' m']. destruct Hs as (S1 & S2 & S3 & S4).
    rewrite show_dec_parses by done. cbv zeta. replace (if raw <? 0 then - m' else m') with (sg * m') by (unfold sg; destruct (raw <? 0); lia). eexists. split; [done|]. rewrite inject_Z_mult, <- Qmult_assoc, S1.
    destruct (Z.ltb_spec e' 0) as [He|He]; unfold denotes; cbn [value scale].
    - rewrite inject_Z_mult, inject_Z_mult, Zpower_Qpower by lia. rewrite Z.opp_involutive. split; [|split; [lia|]].
      + replace e' with (- - e') at 3 by lia. rewrite pow2_pow5, Z.opp_involutive. change (inject_Z 5) with 5%Q. ring.
      + intros _. unfold sg. rewrite <- Z.mul_assoc. destruct (raw <? 0).
        * intros X. apply (odd_mul_pow5 m' (- e') (S4 He) ltac:(lia)). apply Z.mod_divide in X as [q X]; [|done]. apply Z.mod_divide; [done|]. exists (- q). lia.
        * rewrite Z.mul_1_l. apply odd_mul_pow5; [by apply S4|lia].
    - rewrite Z.shiftl_mul_pow2, inject_Z_mult, inject_Z_mult, Zpower_Qpower by lia. split; [|split; [lia|lia]]. change (inject_Z 2) with 2%Q. change (Qpower 10 (- 0)) with 1%Q. ring. }
  destruct (Z.eqb_spec E 0) as [E0|E0]; cbn [negb].
  - apply (Hmain (-1074) m); lia.
  - rewrite implied_bit by done. replace (E - 1023 - DOUBLE_MANTISSA_BITS) with (E - 1075) by (unfold DOUBLE_MANTISSA_BITS; lia). apply (Hmain (E - 1075) (2 ^ 52 + m)); lia.
Qed.

(** 0.1, the least number above zero, and minus infinity. *)
Lemma decimal_from_double_exact_witness :
  (exists d, php_scylladb_decimal_init (G := GmpModel.gmp) (DecimalDouble 4591870180066957722) ∅ = Made d /\ (denotes d == 3602879701896397 # 36028797018963968)%Q) /\
  (exists d, php_scylladb_decimal_init (G := GmpModel.gmp) (DecimalDouble 1) ∅ = Made d /\ scale d <= 1074) /\ php_scylladb_decimal_init (G := GmpModel.gmp) (DecimalDouble (-4503599627370496)) ∅ = NotFinite.
Proof.
  pose proof (decimal_from_double_exact (G := GmpModel.gmp) (GmpLaws0 := GmpModel.gmp_laws) 4591870180066957722 ∅) as H1. change (not_finite 4591870180066957722) with false in H1. destruct H1 as (d1 & E1 & D1 & _).
  pose proof (decimal_from_double_exact (G := GmpModel.gmp) (GmpLaws0 := GmpModel.gmp_laws) 1 ∅) as H2. change (not_finite 1) with false in H2. destruct H2 as (d2 & E2 & _ & S2 & _).
  split; [exists d1; split; [exact E1|rewrite D1; by vm_compute]|]. split; [exists d2; split; [exact E2|apply S2]|]. exact (decimal_from_double_exact (G := GmpModel.gmp) (GmpLaws0 := GmpModel.gmp_laws) (-4503599627370496) ∅).
Defined.

(** ** To an integer *)

(** A power of ten has no binary fraction for its inverse. *)
Lemma ten_not_binary s m k : 0 < s -> 0 <= k -> m * 10 ^ s <> 2 ^ k.
Proof.
  intros Hs Hk E. assert ((5 | 2 ^ k)) as H. { exists (m * 2 * 10 ^ (s - 1)). rewrite <- E. replace (10 ^ s) with (10 * 10 ^ (s - 1)) by (rewrite <- Z.pow_succ_r by lia; f_equal; lia). lia. }
  clear E. revert H. pattern k. apply natlike_ind; [intros H; apply Z.divide_1_r_nonneg in H; lia| |done]. intros x Hx IH H. apply IH. rewrite Z.pow_succ_r in H by done.
  apply Gauss in H; [done|]. by apply Zgcd_1_rel_prime.
Qed.

(** [mpf_get_si] takes the integer part. *)
Lemma mpf_get_si_pos q n : 0 <= n -> (inject_Z n <= q)%Q -> (q < inject_Z (n + 1))%Q -> mpf_get_si q = n.
Proof.
  unfold mpf_get_si, Qle, Qlt. destruct q as [a d]. cbn [Qnum Qden inject_Z]. rewrite !Z.mul_1_r. intros Hn H1 H2. rewrite Z.quot_div_nonneg by lia. symmetry. apply Z.div_unique with (a - Z.pos d * n); lia.
Qed.
Lemma mpf_get_si_neg q n : 0 <= n -> (q <= - inject_Z n)%Q -> (- inject_Z (n + 1) < q)%Q -> mpf_get_si q = - n.
Proof.
  intros Hn H1 H2. rewrite <- (mpf_get_si_pos (- q) n Hn) by lra. unfold mpf_get_si. destruct q as [a d]. cbn [Qopp Qnum Qden]. rewrite Z.quot_opp_l by lia. lia.
Qed.

Lemma in_range B q : B = inject_Z (2 ^ 53) -> (- B <= q)%Q -> (q <= B)%Q -> Qle_bool (inject_Z INT64_MIN) q = true /\ Qle_bool q (inject_Z INT64_MAX) = true.
Proof. intros -> H1 H2. split; apply Qle_bool_iff; [apply Qle_trans with (- inject_Z (2 ^ 53))%Q|apply Qle_trans with (inject_Z (2 ^ 53))]; try done. Qed.

Section to_long.
Context `{M : Mpf} `{!MpfLaws M}.

Lemma truncate_inverse s : 0 < s -> 10 ^ s < 2 ^ 53 -> exists f, (mpf_truncate (/ mpf_truncate (inject_Z (10 ^ s))) == f /\ 0 <= f /\ f * inject_Z (10 ^ s) < 1 /\ 1 - (1 # 4503599627370496) <= f * inject_Z (10 ^ s))%Q.
Proof using Type*.
  intros Hs Hb. assert (0 < 10 ^ s) as Hp by (apply Z.pow_pos_nonneg; lia). set (x := inject_Z (10 ^ s)). assert (0 < x)%Q as Hx by (unfold x, Qlt; cbn; lia). exists (mpf_truncate (/ x)). split; [apply truncate_proper, Qinv_comp, truncate_int; lia|].
  destruct (truncate_pos (/ x) ltac:(apply Qlt_le_weak, Qinv_lt_0_compat, Hx)) as [H1 H2]. assert (/ x * x == 1)%Q as Hi by (field; lra). assert (mpf_truncate (/ x) * x <= 1)%Q as Hle by (rewrite <- Hi; apply Qmult_le_compat_r; [done|lra]).
  assert (1 - (1 # 4503599627370496) <= mpf_truncate (/ x) * x)%Q as Hge. { setoid_replace (1 - (1 # 4503599627370496))%Q with (/ x * (1 - (1 # 4503599627370496)) * x)%Q using relation Qeq by (field; lra). apply Qmult_le_compat_r; [done|lra]. }
  split; [|split; [|done]].
  - apply (Qmult_le_r _ _ x); [done|]. lra.
  - apply Qle_lteq in Hle as [Hle|Hle]; [done|]. exfalso. destruct (truncate_binary (/ x)) as (m & k & Hk & E). apply (ten_not_binary s m k Hs Hk).
    assert (inject_Z (m * 10 ^ s) == inject_Z (2 ^ k))%Q as E'. { rewrite inject_Z_mult, <- E. fold x. setoid_replace (mpf_truncate (/ x) * inject_Z (2 ^ k) * x)%Q with ((mpf_truncate (/ x) * x) * inject_Z (2 ^ k))%Q using relation Qeq by ring. rewrite Hle. ring. }
    unfold Qeq in E'. cbn in E'. lia.
Qed.

(** Between two integers of the numerator. *)
Lemma to_mpf_pos v s : 0 < v <= 2 ^ 51 -> 0 < s -> 10 ^ s < 2 ^ 53 -> let n := (v - 1) / 10 ^ s in
  (inject_Z n <= to_mpf {| value := v; scale := s |})%Q /\ (to_mpf {| value := v; scale := s |} < inject_Z (n + 1))%Q /\ 0 <= n < 2 ^ 51.
Proof using Type*.
  intros Hv Hs Hb n. assert (0 < 10 ^ s) as Hp by (apply Z.pow_pos_nonneg; lia). unfold to_mpf. cbn [value scale]. replace (0 <? s) with true by lia. rewrite Z.abs_eq by lia.
  destruct (truncate_inverse s Hs Hb) as (f & Ef & F0 & F1 & F2). pose proof (truncate_int v ltac:(lia)) as Ev. set (x := inject_Z (10 ^ s)) in *. assert (0 < x)%Q as Hx by (unfold x, Qlt; cbn; lia).
  assert (0 < inject_Z v)%Q as Hvq by (unfold Qlt; cbn; lia). assert (inject_Z v <= 2251799813685248)%Q as Hvb by (unfold Qle; cbn; lia).
  destruct (truncate_pos (inject_Z v * f) ltac:(apply Qmult_le_0_compat; lra)) as [T1 T2]. set (p := mpf_truncate (inject_Z v * f)) in *. assert (mpf_truncate (mpf_truncate (inject_Z v) * mpf_truncate (/ mpf_truncate x)) == p)%Q as Ep by (apply truncate_proper, Qmult_comp; done). rewrite Ep.
  assert (n * 10 ^ s <= v - 1 < (n + 1) * 10 ^ s) as Hn by (unfold n; pose proof (Z.div_mod (v - 1) (10 ^ s)); pose proof (Z.mod_pos_bound (v - 1) (10 ^ s)); nia).
  assert (inject_Z n * x <= inject_Z v - 1)%Q as N1 by (unfold x; rewrite <- inject_Z_mult; setoid_replace (inject_Z v - 1)%Q with (inject_Z (v - 1)) using relation Qeq by (unfold Z.sub; rewrite inject_Z_plus; done); rewrite <- Zle_Qle; lia).
  assert (inject_Z v <= inject_Z (n + 1) * x)%Q as N2 by (unfold x; rewrite <- inject_Z_mult, <- Zle_Qle; lia).
  set (y := (f * x)%Q) in *. assert (inject_Z v * y * (1 - (1 # 4503599627370496)) <= p * x)%Q as P1 by (unfold y; setoid_replace (inject_Z v * (f * x) * (1 - (1 # 4503599627370496)))%Q with (inject_Z v * f * (1 - (1 # 4503599627370496)) * x)%Q using relation Qeq by ring; apply Qmult_le_compat_r; lra).
  assert (p * x <= inject_Z v * y)%Q as P2 by (unfold y; rewrite Qmult_assoc; apply Qmult_le_compat_r; lra).
  split; [|split].
  - apply (Qmult_le_r _ _ x); [done|]. apply Qle_trans with (inject_Z v - 1)%Q; [done|]. apply Qle_trans with (inject_Z v * y * (1 - (1 # 4503599627370496)))%Q; [|done].
    assert (inject_Z v * (1 - (1 # 4503599627370496)) <= inject_Z v * y)%Q by (rewrite !(Qmult_comm (inject_Z v)); apply Qmult_le_compat_r; lra). nra.
  - apply (Qmult_lt_r _ _ x); [done|]. apply Qle_lt_trans with (inject_Z v * y)%Q; [done|]. apply Qlt_le_trans with (inject_Z v); [|done]. rewrite <- (Qmult_1_r (inject_Z v)) at 2. apply Qmult_lt_l; done.
  - unfold n. split; [apply Z.div_pos; lia|]. apply Z.div_lt_upper_bound; [done|]. nia.
Qed.

Lemma to_mpf_opp v s : Z.abs v < 2 ^ 53 -> (to_mpf {| value := - v; scale := s |} == - to_mpf {| value := v; scale := s |})%Q.
Proof using Type*.
  intros Hv. unfold to_mpf. cbn [value scale]. rewrite <- truncate_neg. set (f := if 0 <? s then _ else _). apply truncate_proper. rewrite (truncate_int v Hv : (_ == _)%Q), (truncate_int (- v) ltac:(lia) : (_ == _)%Q), inject_Z_opp. ring.
Qed.

(** Decimals as integers.  Without a fraction part, the integer is right as long as it is below 2^53.  With one (a scale from 1 to 15, a value up to 2^51) the conversion multiplies by a truncated power of ten and
    truncates: the integer is that of the decimal less one unit in its last place, so that a decimal which is an integer loses one: 1.0 becomes 0. *)
Theorem decimal_to_integer v s :
  (s <= 0 -> Z.abs v * 10 ^ (- s) < 2 ^ 53 -> to_long {| value := v; scale := s |} = Integer (v * 10 ^ (- s))) /\
  (0 < s <= 15 -> 0 < Z.abs v <= 2 ^ 51 -> to_long {| value := v; scale := s |} = Integer (Z.sgn v * ((Z.abs v - 1) / 10 ^ s))) /\
  (forall k, 0 < s <= 15 -> 0 < k -> k * 10 ^ s <= 2 ^ 51 -> to_long {| value := k * 10 ^ s; scale := s |} = Integer (k - 1)).
Proof using Type*.
  assert (forall v, 0 < s <= 15 -> 0 < Z.abs v <= 2 ^ 51 -> to_long {| value := v; scale := s |} = Integer (Z.sgn v * ((Z.abs v - 1) / 10 ^ s))) as Hmain.
  { clear v. intros v Hs Hv. assert (10 ^ s < 2 ^ 53) as Hb by (apply Z.le_lt_trans with (10 ^ 15); [apply Z.pow_le_mono_r; lia|done]). destruct (to_mpf_pos (Z.abs v) s Hv ltac:(lia) Hb) as (H1 & H2 & H3). set (n := (Z.abs v - 1) / 10 ^ s) in *.
    assert (inject_Z (n + 1) <= inject_Z (2 ^ 53))%Q as Hn by (rewrite <- Zle_Qle; lia). assert (0 <= inject_Z n)%Q as Hn0 by (change 0%Q with (inject_Z 0); rewrite <- Zle_Qle; lia). unfold to_long. assert (0 <= inject_Z (2 ^ 53))%Q as HB by done. remember (inject_Z (2 ^ 53)) as B eqn:EB. destruct (Z.abs_spec v) as [[Hp E]|[Hp E]]; rewrite E in *.
    - assert (- B <= to_mpf {| value := v; scale := s |})%Q as L1 by lra. assert (to_mpf {| value := v; scale := s |} <= B)%Q as L2 by lra. destruct (in_range B _ EB L1 L2) as [-> ->]. cbn [negb]. f_equal. rewrite Z.sgn_pos, Z.mul_1_l by lia. apply mpf_get_si_pos; [lia|done|done].
    - pose proof (to_mpf_opp (- v) s ltac:(lia)) as Eo. rewrite Z.opp_involutive in Eo. set (q := to_mpf {| value := v; scale := s |}) in *.
      assert (- B <= q)%Q as L1 by lra. assert (q <= B)%Q as L2 by lra. destruct (in_range B q EB L1 L2) as [-> ->]. cbn [negb]. f_equal. rewrite Z.sgn_neg by lia.
      rewrite (mpf_get_si_neg q n) by (lia || lra). lia. }
  split; [|split; [apply Hmain|]].
  - intros Hs Hv. assert (0 < 10 ^ (- s)) as Hp by (apply Z.pow_pos_nonneg; lia). assert (to_mpf {| value := v; scale := s |} == inject_Z (v * 10 ^ (- s)))%Q as E.
    { unfold to_mpf. cbn [value scale]. replace (0 <? s) with false by lia. rewrite Z.abs_neq by lia. apply Qeq_trans with (mpf_truncate (inject_Z (v * 10 ^ (- s)))); [|apply truncate_int; lia]. apply truncate_proper. rewrite inject_Z_mult. destruct (Z.eq_dec v 0) as [->|Hn].
      - apply Qeq_trans with (inject_Z 0 * mpf_truncate (inject_Z (10 ^ (- s))))%Q; [apply Qmult_comp; [apply truncate_int; lia|done]|]. change (inject_Z 0) with 0%Q. ring.
      - apply Qmult_comp; apply truncate_int; nia. }
    unfold to_long. set (q := to_mpf {| value := v; scale := s |}) in *.
    assert (inject_Z (v * 10 ^ (- s)) <= inject_Z (2 ^ 53) /\ inject_Z (- 2 ^ 53) <= inject_Z (v * 10 ^ (- s)))%Q as [B1 B2] by (rewrite <- !Zle_Qle; lia). change (inject_Z (- 2 ^ 53)) with (- inject_Z (2 ^ 53))%Q in B2.
    remember (inject_Z (2 ^ 53)) as B eqn:EB. assert (- B <= q)%Q as L1 by lra. assert (q <= B)%Q as L2 by lra. destruct (in_range B q EB L1 L2) as [-> ->]. cbn [negb]. f_equal. unfold mpf_get_si. unfold Qeq in E. cbn [inject_Z Qnum Qden] in E. rewrite Z.mul_1_r in E. rewrite E. apply Z.quot_mul. lia.
  - intros k Hs Hk Hb. assert (0 < 10 ^ s) as Hp by (apply Z.pow_pos_nonneg; lia). rewrite Hmain by nia. f_equal. rewrite Z.sgn_pos by nia. rewrite Z.abs_eq by nia. rewrite Z.mul_1_l. symmetry. apply Z.div_unique with (10 ^ s - 1); nia.
Qed.
End to_long.

(** Truncation to 64 bits or more. *)
Definition truncate_64 (q : Q) : Q :=
  let r := Qred q in
  let k := Z.max 0 (64 + Z.log2 (QDen r) - Z.log2 (Z.abs (Qnum r))) in
  Z.quot (Qnum r * 2 ^ k) (QDen r) # Z.to_pos (2 ^ k).

#[local] Instance mpf_64 : Mpf := truncate_64.

Lemma mpf_64_laws : MpfLaws mpf_64.
Proof.
  split; unfold mpf_truncate, mpf_64, truncate_64.
  - intros x y E. by rewrite (Qred_complete x y E).
  - intros q Hq. pose proof (Qred_correct q) as Er. destruct (Qred q) as [n d]. cbn [Qnum Qden]. set (k := Z.max 0 _). assert (0 <= n) as Hn by (rewrite <- Er in Hq; unfold Qle in Hq; cbn in Hq; lia).
    assert (0 < 2 ^ k) as Hk by (apply Z.pow_pos_nonneg; lia). rewrite Z.quot_div_nonneg by nia. rewrite <- Er. unfold Qle, Qmult, Qminus, Qplus, Qopp. cbn [Qnum Qden]. rewrite !Pos2Z.inj_mul, !Z2Pos.id by done.
    pose proof (Z.div_mod (n * 2 ^ k) (Z.pos d) ltac:(lia)) as Hd. pose proof (Z.mod_pos_bound (n * 2 ^ k) (Z.pos d) ltac:(lia)) as Hm. set (a := n * 2 ^ k / Z.pos d) in *. split; [|nia].
    destruct (Z.eq_dec n 0) as [->|Hn0]; [assert (a = 0) by (unfold a; by rewrite Z.mul_0_l, Z.div_0_l); nia|].
    assert (2 ^ 52 * Z.pos d <= n * 2 ^ k) as Hbig.
    { assert (64 + Z.log2 (Z.pos d) - Z.log2 n <= k) by (unfold k; rewrite Z.abs_eq by done; lia). destruct (Z.log2_spec n ltac:(lia)) as [L1 _]. destruct (Z.log2_spec (Z.pos d) ltac:(lia)) as [_ L2]. pose proof (Z.log2_nonneg n). pose proof (Z.log2_nonneg (Z.pos d)).
      apply Z.le_trans with (2 ^ Z.log2 n * 2 ^ k); [|apply Z.mul_le_mono_nonneg_r; lia]. rewrite <- Z.pow_add_r by lia. apply Z.le_trans with (2 ^ 52 * 2 ^ Z.succ (Z.log2 (Z.pos d))); [lia|]. rewrite <- Z.pow_add_r by lia. apply Z.pow_le_mono_r; lia. }
    nia.
  - intros q. rewrite Qred_opp. destruct (Qred q) as [n d]. cbn [Qopp Qnum Qden]. rewrite Z.abs_opp, Z.mul_opp_l, Z.quot_opp_l by done. done.
  - intros z _. unfold Qred, inject_Z. pose proof (Z.ggcd_gcd z 1). pose proof (Z.ggcd_correct_divisors z 1) as Hg. destruct (Z.ggcd z 1) as [g [aa bb]]. cbn in *. rewrite Z.gcd_1_r in *. subst g. destruct Hg as [-> E].
    assert (bb = 1) as -> by lia. cbn [Z.to_pos Qnum Qden]. set (k := Z.max 0 _). assert (0 < 2 ^ k) as Hk by (apply Z.pow_pos_nonneg; lia). rewrite Z.quot_1_r. unfold Qeq. cbn [Qnum Qden]. rewrite Z2Pos.id by done. lia.
  - intros q. destruct (Qred q) as [n d]. set (k := Z.max 0 _). assert (0 < 2 ^ k) as Hk by (apply Z.pow_pos_nonneg; lia). exists (Z.quot (n * 2 ^ k) (Z.pos d)), k. split; [lia|]. unfold Qeq, Qmult. cbn [Qnum Qden inject_Z]. rewrite Pos2Z.inj_mul, Z2Pos.id by done. lia.
Qed.

Lemma decimal_to_integer_witness : to_long {| value := 10; scale := 1 |} = Integer 0 /\ to_long {| value := 125; scale := 2 |} = Integer 1 /\ to_long {| value := -7; scale := -2 |} = Integer (-700).
Proof.
  split; [destruct (decimal_to_integer (MpfLaws0 := mpf_64_laws) 0 1) as (_ & _ & H); exact (H 1 ltac:(lia) ltac:(lia) ltac:(lia))|].
  split; [destruct (decimal_to_integer (MpfLaws0 := mpf_64_laws) 125 2) as (_ & H & _); rewrite H by lia; reflexivity|].
  destruct (decimal_to_integer (MpfLaws0 := mpf_64_laws) (-7) (-2)) as (H & _ & _). rewrite H by (cbn; lia). reflexivity.
Defined.
