(* ===== verification/Prepared.v ===== *)
(** Prepared statements ([prepare] and [prepareAsync] of [DefaultSession.c], [FuturePreparedStatement.c], [PreparedStatement.c], the destructor
    in [php_scylladb.c] and the driver's [cass_future_get_prepared]): the statements that persistent sessions keep between requests, and who owns
    the driver's futures and prepared statements.

    A future or prepared statement of the driver is a handle; touching or freeing one that is not allocated is a fault, the result [None], as is reading the
    text of a query that is not a string.  What the driver answers is an input. *)
From S2P Require Import Prelude DriverErrors CacheKey ExecutionProfile PersistentCluster.
From stdpp Require Import gmap.
#[local] Open Scope Z_scope.

(** ** State *)

(** The fields of [php_scylladb_session] that are used: [s_keyspace] is the keyspace it was connected with, [s_session] the driver's session, which several objects can share. *)
Record session := { s_persist : bool; s_key : Z; s_keyspace : option bytes; s_session : nat }.

(** What is asked for: the session's key, the keyspace it was connected with, and the query. *)
Record request := { q_key : Z; q_keyspace : option bytes; q_cql : bytes }.

(** What is prepared: the request, for the driver's session, in the keyspace that is current there.  [ConnectionPoolManager::set_keyspace] changes that one when a [USE] is answered, and
    [PooledConnection::write] sets it on the connection before a request is written; the PHP object keeps the keyspace it was connected with. *)
Record preparation := { p_request :> request; p_session : nat; p_keyspace : bytes }.

(** A future of a [PREPARE] request. *)
Inductive answer := Waits | Fails (rc : CassError) | Answers.
Record prepare_future := { f_request : preparation; f_answer : answer }.

(** [php_scylladb_future_prepared_statement] *)
Record future_object := { fp_future : nat; fp_statement : option nat }.

Record world := {
  futures : gmap nat prepare_future;
  (** the allocated [CassPrepared] *)
  prepareds : gmap nat preparation;
  (** the entries of the persistent list: futures, and entries of other kinds *)
  entries : gmap Z nat;
  others : gset Z;
  persistent_prepared_statements : Z;
  (** [PreparedStatement] objects with the references to them *)
  statements : gmap nat (nat * nat);
  future_objects : gmap nat future_object;
  (** the keyspace of the last answered [USE] of each session of the driver *)
  used : gmap nat bytes;
  next_handle : nat
}.

Definition set_futures (x : gmap nat prepare_future) (w : world) : world :=
  {| futures := x; prepareds := prepareds w; entries := entries w; others := others w; persistent_prepared_statements := persistent_prepared_statements w; statements := statements w;
     future_objects := future_objects w; used := used w; next_handle := next_handle w |}.
Definition set_entries (x : gmap Z nat) (o : gset Z) (n : Z) (w : world) : world :=
  {| futures := futures w; prepareds := prepareds w; entries := x; others := o; persistent_prepared_statements := n; statements := statements w; future_objects := future_objects w; used := used w; next_handle := next_handle w |}.
Definition set_statements (p : gmap nat preparation) (x : gmap nat (nat * nat)) (w : world) : world :=
  {| futures := futures w; prepareds := p; entries := entries w; others := others w; persistent_prepared_statements := persistent_prepared_statements w; statements := x; future_objects := future_objects w;
     used := used w; next_handle := next_handle w |}.
Definition set_future_objects (x : gmap nat future_object) (w : world) : world :=
  {| futures := futures w; prepareds := prepareds w; entries := entries w; others := others w; persistent_prepared_statements := persistent_prepared_statements w; statements := statements w; future_objects := x;
     used := used w; next_handle := next_handle w |}.
Definition bump (w : world) : world :=
  {| futures := futures w; prepareds := prepareds w; entries := entries w; others := others w; persistent_prepared_statements := persistent_prepared_statements w; statements := statements w;
     future_objects := future_objects w; used := used w; next_handle := S (next_handle w) |}.

Definition set_used (x : gmap nat bytes) (w : world) : world :=
  {| futures := futures w; prepareds := prepareds w; entries := entries w; others := others w; persistent_prepared_statements := persistent_prepared_statements w; statements := statements w;
     future_objects := future_objects w; used := x; next_handle := next_handle w |}.

Definition empty_world (others : gset Z) : world :=
  {| futures := ∅; prepareds := ∅; entries := ∅; others := others; persistent_prepared_statements := 0; statements := ∅; future_objects := ∅; used := ∅; next_handle := 0 |}.

(** ** The driver *)

(** The keyspace that is current in a session of the driver: that of the last [USE], and the one it was connected with when there was none. *)
Definition current_keyspace (driver : nat) (connected : option bytes) (w : world) : bytes := default (c_string (default [] connected)) (used w !! driver).

Definition cass_session_prepare_n (q : preparation) (w : world) : nat * world :=
  (next_handle w, bump (set_futures (<[next_handle w := {| f_request := q; f_answer := Waits |}]> (futures w)) w)).

Definition cass_future_free (f : nat) (w : world) : option world :=
  match futures w !! f with Some _ => Some (set_futures (delete f (futures w)) w) | None => None end.

(** A wait: [inl] when it fails; [result] is what the driver answers when it has not yet. *)
Definition wait_for (f : nat) (result : answer) (w : world) : option ((unit + CassError) * world) :=
  match futures w !! f with
  | None => None
  | Some x =>
      match f_answer x with
      | Answers => Some (inr CASS_OK, w)
      | Fails rc => Some (inr rc, w)
      | Waits =>
          let w' := set_futures (<[f := {| f_request := f_request x; f_answer := result |}]> (futures w)) w in
          match result with Waits => Some (inl tt, w) | Fails rc => Some (inr rc, w') | Answers => Some (inr CASS_OK, w') end
      end
  end.

(** [cass_future_get_prepared] and the object made for it, with its references. *)
Definition prepared_object (f : nat) (refs : nat) (w : world) : option (nat * world) :=
  match futures w !! f with
  | Some {| f_request := q; f_answer := Answers |} => Some (next_handle w, bump (set_statements (<[next_handle w := q]> (prepareds w)) (<[next_handle w := (next_handle w, refs)]> (statements w)) w))
  | _ => None
  end.

(** ** Operations *)

Definition prepared_key (self : session) (cql : bytes) : Z :=
  let cache_key := php_scylladb_cache_key_mix_ulong php_scylladb_cache_key_init (s_key self) in
  let cache_key := php_scylladb_cache_key_mix_bytes cache_key cql in
  let cache_key := php_scylladb_cache_key_mix_cstr cache_key (Some (bs ":prepared_statement:")) in
  php_scylladb_cache_key_mix_cstr cache_key (Some (default [] (s_keyspace self))).

Definition request_of (self : session) (cql : bytes) : request := {| q_key := s_key self; q_keyspace := s_keyspace self; q_cql := cql |}.

Definition preparation_of (self : session) (cql : bytes) (w : world) : preparation :=
  {| p_request := request_of self cql; p_session := s_session self; p_keyspace := current_keyspace (s_session self) (s_keyspace self) w |}.

(** [php_scylladb_prepared_statement_dtor] *)
Definition php_scylladb_prepared_statement_dtor (f : nat) (w : world) : option world :=
  w ← cass_future_free f w; Some (set_entries (entries w) (others w) (wrapU 32 (persistent_prepared_statements w - 1)) w).

(** [zend_hash_index_del] of an entry of ours. *)
Definition drop_prepared (key : Z) (f : nat) (w : world) : option world :=
  php_scylladb_prepared_statement_dtor f (set_entries (delete key (entries w)) (others w) (persistent_prepared_statements w) w).

Inductive result := Statement (i : nat) | FuturePrepared (j : nat) | Throws (rc : option CassError) | Ready (b : bool) | Done.

Section operations.
Context (max_persistent_prepared_statements : Z).

(** The cached statement, or the world without a cached future that has failed. *)
Definition find_cached (self : session) (key : Z) (w : world) : option (nat * world + world) :=
  match (if s_persist self then entries w !! key else None) with
  | None => Some (inr w)
  | Some f =>
      match futures w !! f with
      | None => None
      | Some x => match f_answer x with Answers => r ← prepared_object f 1 w; Some (inl r) | _ => w ← drop_prepared key f w; Some (inr w) end
      end
  end.

(** [zend_hash_index_update]: an entry of another kind under the key is destroyed. *)
Definition keep_entry (key : Z) (f : nat) (w : world) : option world :=
  w ← (match entries w !! key with Some old => php_scylladb_prepared_statement_dtor old w | None => Some w end);
  Some (set_entries (<[key := f]> (entries w)) (others w ∖ {[key]}) (wrapU 32 (persistent_prepared_statements w + 1)) w).

(** [DefaultSession::prepare]; [options] says whether the options are accepted. *)
Definition DefaultSession_prepare (self : session) (cql : option bytes) (options : bool) (wait : answer) (w : world) : option (result * world) :=
  if negb options then Some (Throws None, w)
  else
    match cql with
    | None => None
    | Some cql =>
        let key := prepared_key self cql in
        cached ← find_cached self key w;
        match cached with
        | inl (i, w) => Some (Statement i, w)
        | inr w =>
            let cache_prepared := s_persist self && php_scylladb_persistent_can_cache max_persistent_prepared_statements (persistent_prepared_statements w) in
            let '(f, w) := cass_session_prepare_n (preparation_of self cql w) w in
            '(r, w) ← wait_for f wait w;
            match r with
            | inl _ => w ← cass_future_free f w; Some (Throws None, w)
            | inr CASS_OK =>
                '(i, w) ← prepared_object f 1 w;
                w ← (if cache_prepared : bool then keep_entry key f w else cass_future_free f w);
                Some (Statement i, w)
            | inr rc => w ← cass_future_free f w; Some (Throws (Some rc), w)
            end
        end
    end.

(** [DefaultSession::prepareAsync]; the options are not looked at. *)
Definition DefaultSession_prepareAsync (self : session) (cql : option bytes) (w : world) : option (result * world) :=
  match cql with
  | None => None
  | Some cql =>
      let '(f, w) := cass_session_prepare_n (preparation_of self cql w) w in
      Some (FuturePrepared (next_handle w), bump (set_future_objects (<[next_handle w := {| fp_future := f; fp_statement := None |}]> (future_objects w)) w))
  end.

Definition add_reference (i : nat) (w : world) : world := set_statements (prepareds w) (alter (fun x => (fst x, S (snd x))) i (statements w)) w.

Definition FuturePreparedStatement_get (j : nat) (wait : answer) (w : world) : option (result * world) :=
  match future_objects w !! j with
  | None => Some (Done, w)
  | Some o =>
      match fp_statement o with
      | Some i => Some (Statement i, add_reference i w)
      | None =>
          '(r, w) ← wait_for (fp_future o) wait w;
          match r with
          | inl _ => Some (Throws None, w)
          | inr CASS_OK =>
              '(i, w) ← prepared_object (fp_future o) 2 w;
              Some (Statement i, set_future_objects (<[j := {| fp_future := fp_future o; fp_statement := Some i |}]> (future_objects w)) w)
          | inr rc => Some (Throws (Some rc), w)
          end
      end
  end.

Definition FuturePreparedStatement_isReady (j : nat) (w : world) : option (result * world) :=
  match future_objects w !! j with
  | None => Some (Done, w)
  | Some o =>
      match fp_statement o with
      | Some _ => Some (Ready true, w)
      | None => x ← futures w !! fp_future o; Some (Ready (match f_answer x with Waits => false | _ => true end), w)
      end
  end.

(** A reference to a statement object goes; the last frees its prepared statement ([php_scylladb_prepared_statement_free]). *)
Definition release_statement (i : nat) (w : world) : option world :=
  match statements w !! i with
  | None => Some w
  | Some (p, S (S n)) => Some (set_statements (prepareds w) (<[i := (p, S n)]> (statements w)) w)
  | Some (p, _) => match prepareds w !! p with None => None | Some _ => Some (set_statements (delete p (prepareds w)) (delete i (statements w)) w) end
  end.

Definition php_scylladb_future_prepared_statement_free (j : nat) (w : world) : option world :=
  match future_objects w !! j with
  | None => Some w
  | Some o =>
      w ← cass_future_free (fp_future o) w;
      let w := set_future_objects (delete j (future_objects w)) w in
      match fp_statement o with Some i => release_statement i w | None => Some w end
  end.

(** The driver answers. *)
Definition driver_answers (f : nat) (a : answer) (w : world) : world :=
  match futures w !! f with
  | Some {| f_request := q; f_answer := Waits |} => set_futures (<[f := {| f_request := q; f_answer := a |}]> (futures w)) w
  | _ => w
  end.

(** The request is written, perhaps again: it runs in the keyspace that is current then. *)
Definition driver_writes (f : nat) (w : world) : world :=
  match futures w !! f with
  | Some {| f_request := q; f_answer := Waits |} =>
      set_futures (<[f := {| f_request := {| p_request := p_request q; p_session := p_session q; p_keyspace := current_keyspace (p_session q) (q_keyspace q) w |}; f_answer := Waits |}]> (futures w)) w
  | _ => w
  end.

(** A [USE] of a session of the driver is answered. *)
Definition driver_uses (driver : nat) (keyspace : bytes) (w : world) : world := set_used (<[driver := keyspace]> (used w)) w.

Inductive op :=
| OpPrepare (self : session) (cql : bytes) (options : bool) (wait : answer)
| OpPrepareAsync (self : session) (cql : bytes)
| OpGet (j : nat) (wait : answer)
| OpIsReady (j : nat)
| OpRelease (i : nat)
| OpFree (j : nat)
| OpAnswer (f : nat) (a : answer)
| OpWrite (f : nat)
| OpUse (driver : nat) (keyspace : bytes).

Definition run_op (o : op) (w : world) : option (result * world) :=
  match o with
  | OpPrepare self cql options wait => DefaultSession_prepare self (Some cql) options wait w
  | OpPrepareAsync self cql => DefaultSession_prepareAsync self (Some cql) w
  | OpGet j wait => FuturePreparedStatement_get j wait w
  | OpIsReady j => FuturePreparedStatement_isReady j w
  | OpRelease i => w ← release_statement i w; Some (Done, w)
  | OpFree j => w ← php_scylladb_future_prepared_statement_free j w; Some (Done, w)
  | OpAnswer f a => Some (Done, driver_answers f a w)
  | OpWrite f => Some (Done, driver_writes f w)
  | OpUse driver keyspace => Some (Done, driver_uses driver keyspace w)
  end.

(** The driver's errors have a code. *)
Definition sane (a : answer) : Prop := a <> Fails CASS_OK.

(** PHP code releases only the references it has, not that of a future object; [U] are the requests of the program. *)
Definition allowed (U : request -> Prop) (p : op) (w : world) : Prop :=
  match p with
  | OpPrepare self cql _ a => sane a /\ U (request_of self cql)
  | OpPrepareAsync self cql => U (request_of self cql)
  | OpGet _ a | OpAnswer _ a => sane a
  | OpRelease i => forall j o x, future_objects w !! j = Some o -> fp_statement o = Some i -> statements w !! i = Some x -> (2 <= snd x)%nat
  | _ => True
  end.

Inductive reaches (U : request -> Prop) (o : gset Z) : world -> Prop :=
| reaches_empty : reaches U o (empty_world o)
| reaches_op p w r w' : reaches U o w -> allowed U p w -> run_op p w = Some (r, w') -> reaches U o w'.
End operations.

(** ** Keys *)

Definition key_bytes (q : request) : bytes := memory64 (q_key q) ++ q_cql q ++ cstr_bytes (Some (bs ":prepared_statement:")) ++ cstr_bytes (Some (default [] (q_keyspace q))).
Definition key_of (q : request) : Z := php_scylladb_cache_key_mix_bytes php_scylladb_cache_key_init (key_bytes q).

Lemma prepared_key_eq self cql : prepared_key self cql = key_of (request_of self cql).
Proof. unfold prepared_key, key_of, key_bytes. rewrite !mix_cstr_bytes. unfold php_scylladb_cache_key_mix_ulong. by rewrite !mix_bytes_app. Qed.

(** A C string ends before the first NUL. *)
Lemma c_string_nul_free s : no_nul (c_string s).
Proof.
  unfold no_nul, c_string. induction s as [|c s IH]; [apply not_elem_of_nil|]. cbn [strlen].
  destruct (Z.eqb_spec c 0) as [->|Hc]; [apply not_elem_of_nil|]. pose proof (strlen_le s).
  replace (Z.to_nat (1 + strlen s)) with (S (Z.to_nat (strlen s))) by lia. cbn. apply not_elem_of_cons. done.
Qed.

(** What is behind the last separator. *)
Lemma last_segment_inj a1 a2 k1 k2 : no_nul k1 -> no_nul k2 -> a1 ++ 0 :: k1 = a2 ++ 0 :: k2 -> a1 = a2 /\ k1 = k2.
Proof.
  intros H1 H2 E. apply (f_equal reverse) in E. rewrite !reverse_app, !reverse_cons, <- !app_assoc in E. cbn [app] in E. apply separator_inj in E as [E1 E2].
  - split; by apply (inj reverse).
  - unfold no_nul. by rewrite elem_of_reverse.
  - unfold no_nul. by rewrite elem_of_reverse.
Qed.

(** The bytes determine the session's key, the query and the keyspace. *)
Lemma key_bytes_inj q1 q2 : key_bytes q1 = key_bytes q2 ->
  wrapU 64 (q_key q1) = wrapU 64 (q_key q2) /\ q_cql q1 = q_cql q2 /\ c_string (default [] (q_keyspace q1)) = c_string (default [] (q_keyspace q2)).
Proof.
  unfold key_bytes. intros [E1 E]%int_inj. split; [done|]. unfold cstr_bytes in E. set (sep := c_string (default [] (Some (bs ":prepared_statement:")))) in E.
  assert (forall c k : bytes, c ++ (sep ++ [0]) ++ k ++ [0] = ((c ++ sep) ++ 0 :: k) ++ [0]) as Ea by (intros c k; by rewrite <- !app_assoc). rewrite !Ea in E.
  apply app_inv_tail, last_segment_inj in E as [C K]; [|apply c_string_nul_free..]. split; [by apply app_inv_tail in C|done].
Qed.

(** ** Ownership *)

Section ownership.
Context (U : request -> Prop).

(** [tmp] is the future that an operation holds. *)
Record owned (tmp : option nat) (w : world) : Prop := {
  o_next : forall h, (next_handle w <= h)%nat -> futures w !! h = None /\ prepareds w !! h = None /\ statements w !! h = None /\ future_objects w !! h = None;
  o_tmp : forall f, tmp = Some f -> is_Some (futures w !! f) /\ (forall key, entries w !! key <> Some f) /\ forall j o, future_objects w !! j = Some o -> fp_future o <> f;
  o_entry : forall key f, entries w !! key = Some f -> exists x, futures w !! f = Some x /\ f_answer x = Answers /\ key_of (f_request x) = key;
  o_object : forall j o, future_objects w !! j = Some o -> is_Some (futures w !! fp_future o) /\ forall key, entries w !! key <> Some (fp_future o);
  o_object_inj : forall j1 j2 o1 o2, future_objects w !! j1 = Some o1 -> future_objects w !! j2 = Some o2 -> fp_future o1 = fp_future o2 -> j1 = j2;
  o_all : forall f, is_Some (futures w !! f) -> tmp = Some f \/ (exists key, entries w !! key = Some f) \/ exists j o, future_objects w !! j = Some o /\ fp_future o = f;
  o_statement : forall i p n, statements w !! i = Some (p, n) -> p = i /\ (1 <= n)%nat /\ is_Some (prepareds w !! i);
  o_prepared : forall p, is_Some (prepareds w !! p) -> is_Some (statements w !! p);
  o_result : forall j o i, future_objects w !! j = Some o -> fp_statement o = Some i ->
    is_Some (statements w !! i) /\ exists x, futures w !! fp_future o = Some x /\ f_answer x = Answers /\ prepareds w !! i = Some (f_request x);
  o_result_inj : forall j1 j2 o1 o2 i, future_objects w !! j1 = Some o1 -> future_objects w !! j2 = Some o2 -> fp_statement o1 = Some i -> fp_statement o2 = Some i -> j1 = j2;
  o_sane : forall f x, futures w !! f = Some x -> sane (f_answer x) /\ U (f_request x) /\ (used w = ∅ -> p_keyspace (f_request x) = c_string (default [] (q_keyspace (f_request x))));
  o_count : persistent_prepared_statements w = wrapU 32 (Z.of_nat (size (entries w)))
}.

Lemma empty_holds o : owned None (empty_world o).
Proof.
  split; unfold empty_world; cbn [futures prepareds entries persistent_prepared_statements statements future_objects next_handle]; intros; repeat match goal with
    | H : _ !! _ = Some _ |- _ => by rewrite lookup_empty in H
    | H : is_Some (_ !! _) |- _ => rewrite lookup_empty in H; by destruct H
    end; [|done|reflexivity]. by rewrite !lookup_empty.
Qed.

(** The program asked for it, in the keyspace of the session when there was no [USE]. *)
Definition asked (q : preparation) (w : world) : Prop := U q /\ (used w = ∅ -> p_keyspace q = c_string (default [] (q_keyspace q))).

Lemma asked_preparation self cql w : U (request_of self cql) -> asked (preparation_of self cql w) w.
Proof. intros HU. split; [done|]. intros Hu. unfold preparation_of, current_keyspace. cbn. by rewrite Hu, lookup_empty. Qed.

(** A future that waits changes its answer, or what it is written as. *)
Lemma answered_holds tmp f q q' a w : owned tmp w -> sane a -> asked q' w -> futures w !! f = Some {| f_request := q; f_answer := Waits |} -> owned tmp (set_futures (<[f := {| f_request := q'; f_answer := a |}]> (futures w)) w).
Proof.
  intros H Ha HU Hf. assert (forall g, is_Some (<[f := {| f_request := q'; f_answer := a |}]> (futures w) !! g) <-> is_Some (futures w !! g)) as Hs.
  { intros g. destruct (decide (f = g)) as [->|]; [rewrite lookup_insert_eq, Hf; split; by eexists|by rewrite lookup_insert_ne]. }
  destruct H as [A1 A2 A3 A4 A5 A6 A7 A8 A9 A10 A11 A12]. split; cbn [futures prepareds entries persistent_prepared_statements statements future_objects used next_handle set_futures]; try done.
  - intros h Hh. destruct (A1 h Hh) as (B1 & B2 & B3 & B4). split; [|done]. rewrite lookup_insert_ne; [done|]. intros ->. congruence.
  - intros g Hg. rewrite Hs. by apply A2.
  - intros key g Hg. destruct (A3 key g Hg) as (x & B1 & B2 & B3). exists x. split; [|done]. rewrite lookup_insert_ne; [done|]. intros ->. rewrite Hf in B1. injection B1 as <-. done.
  - intros j o Hj. rewrite Hs. by apply (A4 j).
  - intros g. rewrite Hs. apply A6.
  - intros j o i Hj Hi. destruct (A9 j o i Hj Hi) as (B0 & x & B1 & B2 & B3). split; [done|]. exists x. split; [|done]. rewrite lookup_insert_ne; [done|]. intros ->. rewrite Hf in B1. injection B1 as <-. done.
  - intros g x Hx. apply lookup_insert_Some in Hx as [[_ <-]|[_ Hx]]; [done|by eapply A11].
Qed.

Lemma prepare_holds q w : owned None w -> asked q w -> let '(f, w') := cass_session_prepare_n q w in owned (Some f) w' /\ futures w' !! f = Some {| f_request := q; f_answer := Waits |} /\ entries w' = entries w /\
  persistent_prepared_statements w' = persistent_prepared_statements w /\ others w' = others w /\ used w' = used w.
Proof.
  intros [A1 A2 A3 A4 A5 A6 A7 A8 A9 A10 A11 A12] HU. cbn. split; [|split; [apply lookup_insert_eq|done]]. destruct (A1 (next_handle w) ltac:(lia)) as (N1 & N2 & N3 & N4).
  assert (forall g x, futures w !! g = Some x -> <[next_handle w := {| f_request := q; f_answer := Waits |}]> (futures w) !! g = Some x) as Hold by (intros g x Hg; rewrite lookup_insert_ne; [done|]; intros <-; congruence).
  split; cbn [futures prepareds entries persistent_prepared_statements statements future_objects used next_handle set_futures bump]; try done.
  - intros h Hh. rewrite lookup_insert_ne by lia. apply A1. lia.
  - intros f [= <-]. split; [rewrite lookup_insert_eq; by eexists|]. split.
    + intros key Hk. destruct (A3 _ _ Hk) as (x & B & _). congruence.
    + intros j o Hj E. destruct (A4 j o Hj) as [[x B] _]. congruence.
  - intros key f Hk. destruct (A3 key f Hk) as (x & B1 & B2). exists x. split; [by apply Hold|done].
  - intros j o Hj. destruct (A4 j o Hj) as [[x B1] B2]. split; [exists x; by apply Hold|done].
  - intros f [x Hx]. apply lookup_insert_Some in Hx as [[-> _]|[_ Hx]]; [by left|]. destruct (A6 f ltac:(by exists x)) as [?|?]; [done|by right].
  - intros j o i Hj Hi. destruct (A9 j o i Hj Hi) as (B0 & x & B1 & B2 & B3). split; [done|]. exists x. split; [by apply Hold|done].
  - intros g x Hx. apply lookup_insert_Some in Hx as [[_ <-]|[_ Hx]]; [done|by eapply A11].
Qed.

Lemma free_tmp_holds f w : owned (Some f) w -> exists w', cass_future_free f w = Some w' /\ owned None w' /\ prepareds w' = prepareds w /\ statements w' = statements w /\ entries w' = entries w /\ others w' = others w.
Proof.
  intros [A1 A2 A3 A4 A5 A6 A7 A8 A9 A10 A11 A12]. destruct (A2 f eq_refl) as ([x Hx] & B1 & B2). unfold cass_future_free. rewrite Hx. eexists. split; [done|]. split; [|done].
  split; cbn [futures prepareds entries persistent_prepared_statements statements future_objects used next_handle set_futures]; try done.
  - intros h Hh. destruct (A1 h Hh) as (C1 & C2). split; [|done]. apply lookup_delete_None. by right.
  - intros key g Hg. destruct (A3 key g Hg) as (y & C1 & C2). exists y. rewrite lookup_delete_ne by congruence. done.
  - intros j o Hj. rewrite lookup_delete_ne by (intros E; by apply (B2 j o)). by apply (A4 j).
  - intros g [y Hy]. apply lookup_delete_Some in Hy as [Hne Hy]. destruct (A6 g ltac:(by exists y)) as [[= ->]|?]; [done|by right].
  - intros j o i Hj Hi. rewrite lookup_delete_ne by (intros E; by apply (B2 j o)). by apply (A9 j).
  - intros g y Hy. apply lookup_delete_Some in Hy as [_ Hy]. by eapply A11.
Qed.

(** The parts of the world that a wait leaves alone. *)
Definition same_rest (w w' : world) : Prop := prepareds w' = prepareds w /\ statements w' = statements w /\ entries w' = entries w /\ others w' = others w /\ future_objects w' = future_objects w /\
  persistent_prepared_statements w' = persistent_prepared_statements w /\ used w' = used w.

(** A wait by whoever holds the future. *)
Lemma wait_holds tmp f x a w : owned tmp w -> sane a -> futures w !! f = Some x -> exists r w', wait_for f a w = Some (r, w') /\ owned tmp w' /\ same_rest w w' /\
  (r = inr CASS_OK -> futures w' !! f = Some {| f_request := f_request x; f_answer := Answers |}).
Proof.
  intros H Ha Hf. destruct x as [q an]. pose proof (o_sane _ _ H f _ Hf) as [Hs HU]. unfold wait_for. rewrite Hf. cbn [f_answer f_request] in *. destruct an as [|rc|].
  - destruct a as [|rc|]; eexists _, _; (split; [done|]).
    + by split.
    + split; [by eapply answered_holds|]. split; [done|]. intros [= ->]. done.
    + split; [by eapply answered_holds|]. split; [done|]. intros _. cbn. by rewrite lookup_insert_eq.
  - eexists _, _. split; [done|]. split; [done|]. split; [done|]. intros [= ->]. done.
  - eexists _, _. split; [done|]. by split.
Qed.

Lemma object_holds tmp f q refs w : owned tmp w -> (1 <= refs)%nat -> futures w !! f = Some {| f_request := q; f_answer := Answers |} ->
  exists i w', prepared_object f refs w = Some (i, w') /\ owned tmp w' /\ prepareds w' !! i = Some q /\ statements w' !! i = Some (i, refs) /\ futures w' = futures w /\ entries w' = entries w /\ others w' = others w /\
    future_objects w' = future_objects w /\ persistent_prepared_statements w' = persistent_prepared_statements w /\ (forall j o, future_objects w !! j = Some o -> fp_statement o <> Some i) /\ statements w !! i = None.
Proof.
  intros [A1 A2 A3 A4 A5 A6 A7 A8 A9 A10 A11 A12] Hr Hf. unfold prepared_object. rewrite Hf. destruct (A1 (next_handle w) ltac:(lia)) as (N1 & N2 & N3 & N4).
  exists (next_handle w). eexists. split; [done|]. cbn [bump set_statements futures prepareds entries others statements future_objects persistent_prepared_statements].
  split; [|rewrite !lookup_insert_eq; do 7 (split; [done|]); split; [|done]; intros j o Hj Hi; destruct (A9 j o _ Hj Hi) as [[x Hx] _]; congruence].
  split; cbn [bump set_statements futures prepareds entries others statements future_objects persistent_prepared_statements used next_handle]; try done.
  - intros h Hh. rewrite !lookup_insert_ne by lia. apply A1. lia.
  - intros i p n Hi. apply lookup_insert_Some in Hi as [[<- [= <- <-]]|[Hne Hi]]; [split; [done|]; split; [done|]; rewrite lookup_insert_eq; by eexists|]. rewrite lookup_insert_ne by done. by eapply A7.
  - intros p [x Hp]. apply lookup_insert_Some in Hp as [[<- _]|[Hne Hp]]; [rewrite lookup_insert_eq; by eexists|]. rewrite lookup_insert_ne by done. apply A8. by eexists.
  - intros j o i Hj Hi. destruct (A9 j o i Hj Hi) as (B0 & x & B1 & B2 & B3). assert (next_handle w <> i) by (intros <-; congruence). rewrite !lookup_insert_ne by done. split; [done|]. by exists x.
Qed.

(** The list keeps the future. *)
Lemma keep_holds key f q w : owned (Some f) w -> entries w !! key = None -> futures w !! f = Some {| f_request := q; f_answer := Answers |} -> key_of q = key ->
  exists w', keep_entry key f w = Some w' /\ owned None w' /\ prepareds w' = prepareds w /\ statements w' = statements w /\ entries w' = <[key := f]> (entries w) /\ others w' = others w ∖ {[key]}.
Proof.
  intros [A1 A2 A3 A4 A5 A6 A7 A8 A9 A10 A11 A12] Hk Hf Hq. unfold keep_entry. rewrite Hk. eexists. split; [done|]. cbn [set_entries prepareds statements entries others]. split; [|done]. destruct (A2 f eq_refl) as (B1 & B2 & B3).
  split; cbn [set_entries futures prepareds entries others statements future_objects persistent_prepared_statements used next_handle]; try done.
  - intros k g Hg. apply lookup_insert_Some in Hg as [[<- <-]|[_ Hg]]; [by eexists|by apply A3].
  - intros j o Hj. destruct (A4 j o Hj) as [C1 C2]. split; [done|]. intros k Hg. apply lookup_insert_Some in Hg as [[_ E]|[_ Hg]]; [by apply (B3 j o Hj)|by apply (C2 k)].
  - intros g Hg. right. destruct (A6 g Hg) as [[= <-]|[[k Hg']|?]]; [left; exists key; apply lookup_insert_eq| |by right]. left. exists k. rewrite lookup_insert_ne; [done|]. intros <-. congruence.
  - rewrite A12, map_size_insert_None by done. unfold wrapU. rewrite Z.add_mod_idemp_l by lia. f_equal. lia.
Qed.

Lemma find_holds self cql w : owned None w -> exists c, find_cached self (prepared_key self cql) w = Some c /\
  match c with
  | inl (i, w') => owned None w' /\ s_persist self = true /\ futures w' = futures w /\ exists f x, entries w !! prepared_key self cql = Some f /\ futures w !! f = Some x /\ prepareds w' !! i = Some (f_request x) /\ key_of (f_request x) = prepared_key self cql /\ is_Some (statements w' !! i) /\ entries w' = entries w
  | inr w' => w' = w /\ (s_persist self = true -> entries w !! prepared_key self cql = None)
  end.
Proof.
  intros H. unfold find_cached. destruct (s_persist self) eqn:Hp; [|by eexists]. destruct (entries w !! prepared_key self cql) as [f|] eqn:Hk; [|by eexists]. destruct (o_entry _ _ H _ _ Hk) as ([q a] & Hf & Ha & Hq). rewrite Hf.
  cbn [f_answer f_request] in *. subst a. destruct (object_holds None f q 1 w H ltac:(lia) Hf) as (i & w' & -> & Ho & H1 & H2 & H3 & H4 & H5 & _). eexists. split; [done|]. split; [done|]. split; [done|]. split; [done|]. exists f. eexists. split; [done|]. split; [done|].
  split; [done|]. split; [done|]. split; [by eexists|done].
Qed.

Context (max : Z).

(** What [prepare] returns the statement of: the kept future, when there is one, and else its own request. *)
Definition right_future (self : session) (cql : bytes) (q : preparation) (w : world) : Prop :=
  match (if s_persist self then entries w !! prepared_key self cql else None) with
  | Some f => exists x, futures w !! f = Some x /\ q = f_request x
  | None => q = preparation_of self cql w
  end.

(** [prepare] faults in no state; its statement is for a request with the same key. *)
Lemma prepare_outcome self cql options a w : owned None w -> sane a -> U (request_of self cql) -> exists r w', DefaultSession_prepare max self (Some cql) options a w = Some (r, w') /\ owned None w' /\
  (forall i, r = Statement i -> is_Some (statements w' !! i) /\ exists q, prepareds w' !! i = Some q /\ asked q w /\ key_of q = prepared_key self cql /\ right_future self cql q w) /\
  (entries w' = entries w \/ s_persist self = true /\ php_scylladb_persistent_can_cache max (persistent_prepared_statements w) = true /\ exists f, entries w !! prepared_key self cql = None /\ entries w' = <[prepared_key self cql := f]> (entries w)).
Proof.
  intros H Ha HU. unfold DefaultSession_prepare. destruct options; cbn [negb]; [|by eexists _, _; split; [done|]; split; [done|]; split; [done|by left]].
  destruct (find_holds self cql w H) as (c & -> & Hc). cbn [mbind option_bind]. destruct c as [[i w']|w'].
  { destruct Hc as (Ho & Hp & _ & f & x & Hk & Hfx & H1 & H2 & H3 & H4). eexists _, _. split; [done|]. split; [done|]. split; [|by left]. intros i' [= <-]. split; [done|]. exists (f_request x). split; [done|]. split; [apply (o_sane _ _ H f x Hfx)|]. split; [done|].
    unfold right_future. rewrite Hp, Hk. by exists x. }

  destruct Hc as [-> Hk]. set (cp := s_persist self && _). assert (right_future self cql (preparation_of self cql w) w) as Hq by (unfold right_future; destruct (s_persist self); [by rewrite Hk|done]).
  pose proof (asked_preparation self cql w HU) as Ha'. pose proof (prepare_holds _ w H Ha') as Hn. destruct (cass_session_prepare_n (preparation_of self cql w) w) as [f w1]. destruct Hn as (H1 & Hf & E1 & E2 & E3 & E4).
  destruct (wait_holds (Some f) f _ a w1 H1 Ha Hf) as (r & w2 & -> & H2 & (R1 & R2 & R3 & R4 & R5 & R6 & R7) & Hr). cbn [mbind option_bind f_request] in *.
  destruct r as [[]|rc]; [destruct (free_tmp_holds f w2 H2) as (w3 & -> & H3 & _ & _ & F3 & _); eexists _, _; split; [done|]; split; [done|]; split; [done|left; congruence]|].
  assert (rc = CASS_OK \/ rc <> CASS_OK) as [->|Hrc] by (destruct rc; auto).
  - specialize (Hr eq_refl). destruct (object_holds (Some f) f _ 1 w2 H2 ltac:(lia) Hr) as (i & w3 & -> & H3 & P1 & P2 & P3 & P4 & P5 & P6 & P7 & _). cbn [mbind option_bind]. destruct cp eqn:Ecp.
    + apply andb_prop in Ecp as [Ep Ec]. destruct (keep_holds (prepared_key self cql) f (preparation_of self cql w) w3 H3) as (w4 & -> & H4 & K1 & K2 & K3 & K4); [rewrite P4, R3, E1; by apply Hk|congruence|by rewrite prepared_key_eq|]. cbn [mbind option_bind].
      eexists _, _. split; [done|]. split; [done|]. split; [|right; split; [done|]; split; [done|]; exists f; split; [by apply Hk|congruence]]. intros i' [= <-]. rewrite K1, K2, P1, P2. split; [by eexists|]. eexists. split; [done|]. split; [done|]. split; [by rewrite prepared_key_eq|done].
    + destruct (free_tmp_holds f w3 H3) as (w4 & -> & H4 & K1 & K2 & K3 & K4). cbn [mbind option_bind]. eexists _, _. split; [done|]. split; [done|]. split; [|left; congruence]. intros i' [= <-]. rewrite K1, K2, P1, P2. split; [by eexists|]. eexists. split; [done|]. split; [done|]. split; [by rewrite prepared_key_eq|done].
  - destruct (free_tmp_holds f w2 H2) as (w3 & Ew & H3 & _ & _ & F3 & _). assert (entries w3 = entries w) by congruence. destruct rc; try done; rewrite Ew; cbn [mbind option_bind]; eexists _, _; (split; [done|]; split; [done|]; split; [done|by left]).
Qed.

Lemma async_holds self cql w : owned None w -> U (request_of self cql) -> exists r w', DefaultSession_prepareAsync self (Some cql) w = Some (r, w') /\ owned None w' /\ entries w' = entries w.
Proof.
  intros H HU. unfold DefaultSession_prepareAsync. pose proof (prepare_holds _ w H (asked_preparation self cql w HU)) as Hn. destruct (cass_session_prepare_n (preparation_of self cql w) w) as [f w1]. destruct Hn as ([A1 A2 A3 A4 A5 A6 A7 A8 A9 A10 A11 A12] & Hf & E1 & _).
  eexists _, _. split; [done|]. split; [|done]. destruct (A1 (next_handle w1) ltac:(lia)) as (N1 & N2 & N3 & N4). destruct (A2 f eq_refl) as (B1 & B2 & B3).
  split; cbn [bump set_future_objects futures prepareds entries others statements future_objects persistent_prepared_statements used next_handle]; try done.
  - intros h Hh. rewrite lookup_insert_ne by lia. apply A1. lia.
  - intros j o Hj. apply lookup_insert_Some in Hj as [[<- <-]|[_ Hj]]; [done|by eapply A4].
  - intros j1 j2 o1 o2 H1 H2 E. apply lookup_insert_Some in H1 as [[<- <-]|[Hn1 H1]], H2 as [[<- <-]|[Hn2 H2]]; try done; cbn [fp_future] in E; [by destruct (B3 j2 o2 H2)|by destruct (B3 j1 o1 H1)|by eapply A5].
  - intros g Hg. right. destruct (A6 g Hg) as [[= <-]|[?|(j & o & Hj & E)]]; [right; eexists _, _; split; [apply lookup_insert_eq|done]|by left|]. right. exists j, o. split; [|done]. rewrite lookup_insert_ne; [done|]. intros <-. congruence.
  - intros j o i Hj Hi. apply lookup_insert_Some in Hj as [[<- <-]|[_ Hj]]; [done|by eapply A9].
  - intros j1 j2 o1 o2 i H1 H2 E1' E2'. apply lookup_insert_Some in H1 as [[<- <-]|[Hn1 H1]], H2 as [[<- <-]|[Hn2 H2]]; try done. by eapply A10.
Qed.

Lemma get_holds j a w : owned None w -> sane a -> exists r w', FuturePreparedStatement_get j a w = Some (r, w') /\ owned None w' /\ entries w' = entries w /\
  forall i o, r = Statement i -> future_objects w !! j = Some o -> is_Some (statements w' !! i) /\ exists x, futures w !! fp_future o = Some x /\ prepareds w' !! i = Some (f_request x).
Proof.
  intros H Ha. unfold FuturePreparedStatement_get. destruct (future_objects w !! j) as [o|] eqn:Hj; [|by eexists _, _]. destruct (o_object _ _ H j o Hj) as [[x Hx] _]. destruct (fp_statement o) as [i|] eqn:Hi.
  - destruct (o_result _ _ H j o i Hj Hi) as ([[p n] Hs] & y & Hy & _ & Hq). eexists _, _. split; [done|]. destruct H as [A1 A2 A3 A4 A5 A6 A7 A8 A9 A10 A11 A12]. destruct (A7 i p n Hs) as (-> & B2 & B3).
    assert (forall k, is_Some (alter (fun x => (fst x, S (snd x))) i (statements w) !! k) <-> is_Some (statements w !! k)) as Hal by (intros k; destruct (decide (i = k)) as [<-|]; [rewrite lookup_alter_eq; apply fmap_is_Some|by rewrite lookup_alter_ne]).
    split; [|split; [done|]; intros i' o' [= <-] [= <-]; split; [cbn; rewrite Hal; by eexists|]; exists y; done].
    split; cbn [add_reference set_statements futures prepareds entries others statements future_objects persistent_prepared_statements used next_handle]; try done.
    + intros h Hh. destruct (A1 h Hh) as (C1 & C2 & C3 & C4). split; [done|]. split; [done|]. split; [|done]. rewrite eq_None_not_Some, Hal, C3. by intros [].
    + intros i' p n' Hi'. destruct (decide (i = i')) as [<-|Hne]; [rewrite lookup_alter_eq, Hs in Hi'; injection Hi' as <- <-; split; [done|]; split; [cbn; lia|done]|rewrite lookup_alter_ne in Hi' by done; by eapply A7].
    + intros p Hp. rewrite Hal. by apply A8.
    + intros j' o' i' Hj' Hi'. rewrite Hal. by eapply A9.
  - destruct (wait_holds None (fp_future o) x a w H Ha Hx) as (r & w2 & -> & H2 & (R1 & R2 & R3 & R4 & R5 & R6 & R7) & Hr). cbn [mbind option_bind f_request] in *.
    destruct r as [[]|rc]; [by eexists _, _; split; [done|]; split; [done|]; split|]. assert (rc = CASS_OK \/ rc <> CASS_OK) as [->|Hrc] by (destruct rc; auto); [|destruct rc; try done; by eexists _, _; split; [done|]; split; [done|]; split].
    specialize (Hr eq_refl). destruct (object_holds None (fp_future o) _ 2 w2 H2 ltac:(lia) Hr) as (i & w3 & -> & H3 & P1 & P2 & P3 & P4 & P5 & P6 & P7 & P8 & P9). cbn [mbind option_bind]. eexists _, _. split; [done|].
    split; [|split; [cbn; congruence|]; intros i' o' [= <-] [= <-]; cbn; rewrite P1, P2; split; [by eexists|]; by exists x].
    destruct H3 as [A1 A2 A3 A4 A5 A6 A7 A8 A9 A10 A11 A12]. assert (future_objects w3 !! j = Some o) as Hj3 by congruence.
    split; cbn [set_future_objects futures prepareds entries others statements future_objects persistent_prepared_statements used next_handle]; try done.
    + intros h Hh. destruct (A1 h Hh) as (C1 & C2 & C3 & C4). split; [done|]. split; [done|]. split; [done|]. rewrite lookup_insert_ne; [done|]. intros <-. congruence.
    + intros j' o' Hj'. apply lookup_insert_Some in Hj' as [[<- <-]|[_ Hj']]; [exact (A4 j o Hj3)|by eapply A4].
    + intros j1 j2 o1 o2 G1 G2 E. apply lookup_insert_Some in G1 as [[<- <-]|[Hn1 G1]], G2 as [[<- <-]|[Hn2 G2]]; try done; cbn [fp_future] in E; [by eapply (A5 j j2 o o2)|by eapply (A5 j1 j o1 o)|by eapply A5].
    + intros g Hg. right. destruct (A6 g Hg) as [?|[?|(j' & o' & Hj' & E)]]; [done|by left|]. right. destruct (decide (j = j')) as [<-|Hne]; [exists j; eexists; rewrite lookup_insert_eq; split; [done|]; cbn; congruence|]. exists j', o'. by rewrite lookup_insert_ne.
    + intros j' o' i' Hj' Hi'. apply lookup_insert_Some in Hj' as [[<- <-]|[_ Hj']]; [|by eapply A9]. cbn in Hi'. injection Hi' as <-. split; [by rewrite P2|]. cbn [fp_future]. eexists. rewrite P3. split; [exact Hr|]. by rewrite P1.
    + intros j1 j2 o1 o2 i' G1 G2 E1 E2. rewrite P6 in *. apply lookup_insert_Some in G1 as [[<- <-]|[Hn1 G1]], G2 as [[<- <-]|[Hn2 G2]]; try done; cbn [fp_statement] in *; simplify_eq.
      * exfalso. apply (P8 j2 o2 G2). done.
      * exfalso. apply (P8 j1 o1 G1). done.
      * by eapply A10.
Qed.

(** A reference goes, when the future objects keep theirs. *)
Lemma release_holds i w : owned None w -> (forall j o x, future_objects w !! j = Some o -> fp_statement o = Some i -> statements w !! i = Some x -> (2 <= snd x)%nat) ->
  exists w', release_statement i w = Some w' /\ owned None w' /\ entries w' = entries w.
Proof.
  intros H Hal. unfold release_statement. destruct (statements w !! i) as [[p n]|] eqn:Hs; [|by eexists]. destruct (o_statement _ _ H i p n Hs) as (-> & Hn & [q Hq]).
  destruct H as [A1 A2 A3 A4 A5 A6 A7 A8 A9 A10 A11 A12]. destruct n as [|[|n]]; [lia| |].
  - rewrite Hq. eexists. split; [done|]. split; [|done]. assert (forall j o, future_objects w !! j = Some o -> fp_statement o <> Some i) as Hno by (intros j o Hj Hi; specialize (Hal j o _ Hj Hi eq_refl); cbn in Hal; lia).
    split; cbn [set_statements futures prepareds entries others statements future_objects persistent_prepared_statements used next_handle]; try done.
    + intros h Hh. destruct (A1 h Hh) as (C1 & C2 & C3 & C4). rewrite !lookup_delete_None. auto.
    + intros i' p n Hi. apply lookup_delete_Some in Hi as [Hne Hi]. rewrite lookup_delete_ne by done. by eapply A7.
    + intros p [x Hp]. apply lookup_delete_Some in Hp as [Hne Hp]. rewrite lookup_delete_ne by done. apply A8. by eexists.
    + intros j o i' Hj Hi. assert (i <> i') by (intros <-; by apply (Hno j o)). rewrite !lookup_delete_ne by done. by eapply A9.
  - eexists. split; [done|]. split; [|done].
    assert (forall k, is_Some (<[i := (i, S n)]> (statements w) !! k) <-> is_Some (statements w !! k)) as Hk by (intros k; destruct (decide (i = k)) as [<-|]; [rewrite lookup_insert_eq, Hs; split; by eexists|by rewrite lookup_insert_ne]).
    split; cbn [set_statements futures prepareds entries others statements future_objects persistent_prepared_statements used next_handle]; try done.
    + intros h Hh. destruct (A1 h Hh) as (C1 & C2 & C3 & C4). split; [done|]. split; [done|]. split; [|done]. rewrite eq_None_not_Some, Hk, C3. by intros [].
    + intros i' p m Hi. apply lookup_insert_Some in Hi as [[<- [= <- <-]]|[Hne Hi]]; [split; [done|]; split; [lia|by eexists]|by eapply A7].
    + intros p Hp. rewrite Hk. by apply A8.
    + intros j o i' Hj Hi. rewrite Hk. by eapply A9.
Qed.

Lemma free_holds j w : owned None w -> exists w', php_scylladb_future_prepared_statement_free j w = Some w' /\ owned None w' /\ entries w' = entries w.
Proof.
  intros H. unfold php_scylladb_future_prepared_statement_free. destruct (future_objects w !! j) as [o|] eqn:Hj; [|by eexists].
  destruct (o_object _ _ H j o Hj) as [[x Hx] Hne]. unfold cass_future_free. rewrite Hx. cbn [mbind option_bind set_futures future_objects]. set (w1 := set_future_objects _ _).
  pose proof (o_result_inj _ _ H j) as Hrj. assert (owned None w1) as H1.
  { destruct H as [A1 A2 A3 A4 A5 A6 A7 A8 A9 A10 A11 A12]. split; cbn [w1 set_future_objects set_futures futures prepareds entries others statements future_objects persistent_prepared_statements used next_handle]; try done.
    - intros h Hh. destruct (A1 h Hh) as (C1 & C2 & C3 & C4). rewrite !lookup_delete_None. auto.
    - intros key f Hf. rewrite lookup_delete_ne by (intros <-; by apply (Hne key)). by apply A3.
    - intros j' o' Hj'. apply lookup_delete_Some in Hj' as [N Hj']. rewrite lookup_delete_ne by (intros E; apply N; by eapply A5). by eapply A4.
    - intros j1 j2 o1 o2 G1 G2. apply lookup_delete_Some in G1 as [_ G1], G2 as [_ G2]. by eapply A5.
    - intros f [y Hf]. apply lookup_delete_Some in Hf as [N Hf]. destruct (A6 f ltac:(by exists y)) as [?|[?|(j' & o' & Hj' & E)]]; [by left|by right; left|]. right. right. exists j', o'. split; [|done]. rewrite lookup_delete_ne; [done|]. intros <-. congruence.
    - intros j' o' i Hj' Hi. apply lookup_delete_Some in Hj' as [N Hj']. rewrite lookup_delete_ne by (intros E; apply N; by eapply A5). by eapply A9.
    - intros j1 j2 o1 o2 i G1 G2. apply lookup_delete_Some in G1 as [_ G1], G2 as [_ G2]. by eapply A10.
    - intros f y Hf. apply lookup_delete_Some in Hf as [_ Hf]. by eapply A11. }
  destruct (fp_statement o) as [i|] eqn:Hi; [|exists w1; done]. destruct (release_holds i w1 H1) as (w' & -> & H' & E'); [|by exists w'].
  intros j' o' y Hj' Hi' _. exfalso. cbn in Hj'. apply lookup_delete_Some in Hj' as [N Hj']. apply N. by eapply Hrj.
Qed.

(** A [USE] changes no ownership. *)
Lemma use_holds driver keyspace w : owned None w -> owned None (driver_uses driver keyspace w).
Proof.
  intros [A1 A2 A3 A4 A5 A6 A7 A8 A9 A10 A11 A12]. split; try done. intros f x Hf. destruct (A11 f x Hf) as (H1 & H2 & _). split; [done|]. split; [done|]. cbn. intros E. by apply insert_non_empty in E.
Qed.

Lemma op_holds p w : owned None w -> allowed U p w -> exists r w', run_op max p w = Some (r, w') /\ owned None w' /\
  (entries w' = entries w \/ php_scylladb_persistent_can_cache max (persistent_prepared_statements w) = true /\ exists key f, entries w !! key = None /\ entries w' = <[key := f]> (entries w)).
Proof.
  intros H Ha. destruct p as [self cql options a|self cql|j a|j|i|j|f a|f|d ks]; cbn [run_op allowed] in *.
  - destruct Ha as [Ha HU]. destruct (prepare_outcome self cql options a w H Ha HU) as (r & w' & E & Ho & _ & He). exists r, w'. split; [done|]. split; [done|]. destruct He as [?|(_ & Hc & f & He)]; [by left|right]. split; [done|]. by exists (prepared_key self cql), f.
  - destruct (async_holds self cql w H Ha) as (r & w' & E & Ho & He). exists r, w'. auto.
  - destruct (get_holds j a w H Ha) as (r & w' & E & Ho & He & _). exists r, w'. auto.
  - unfold FuturePreparedStatement_isReady. destruct (future_objects w !! j) as [o|] eqn:Hj; [|eauto 6]. destruct (fp_statement o); [eauto 6|]. destruct (o_object _ _ H j o Hj) as [[x ->] _]. cbn [mbind option_bind]. eauto 6.
  - destruct (release_holds i w H Ha) as (w' & -> & Ho & He). cbn [mbind option_bind]. eauto 6.
  - destruct (free_holds j w H) as (w' & -> & Ho & He). cbn [mbind option_bind]. eauto 6.
  - eexists _, _. split; [done|]. unfold driver_answers. destruct (futures w !! f) as [[q [|rc|]]|] eqn:Hf; try by auto. split; [eapply answered_holds; [done..| |done]; apply (o_sane _ _ H f _ Hf)|by left].
  - eexists _, _. split; [done|]. unfold driver_writes. destruct (futures w !! f) as [[q [|rc|]]|] eqn:Hf; try by auto. split; [eapply answered_holds; [done..| |done]|by left].
    split; [apply (o_sane _ _ H f _ Hf)|]. intros Hu. cbn. unfold current_keyspace. by rewrite Hu, lookup_empty.
  - eexists _, _. split; [done|]. split; [by apply use_holds|by left].
Qed.

Lemma reaches_holds o w : reaches max U o w -> owned None w.
Proof. induction 1 as [|p w r w' _ IH Ha E]; [apply empty_holds|]. destruct (op_holds p w IH Ha) as (r' & w2 & E' & H2 & _). congruence. Qed.

Lemma reaches_bound o w : 0 <= max < 2 ^ 32 -> reaches max U o w -> Z.of_nat (size (entries w)) <= max.
Proof.
  intros Hm. induction 1 as [|p w r w' Hw IH Ha E]; [unfold empty_world; cbn [entries]; rewrite map_size_empty; lia|]. pose proof (reaches_holds o w Hw) as H. destruct (op_holds p w H Ha) as (r' & w2 & E' & _ & He). replace w2 with w' in * by congruence.
  destruct He as [->|(Hc & key & f & Hk & ->)]; [done|]. rewrite map_size_insert_None by done. unfold php_scylladb_persistent_can_cache in Hc. rewrite (o_count _ _ H), wrapU_id in Hc by (unfold in_u; lia). lia.
Qed.
End ownership.

(** C14: prepared statements.  In every order of [prepare], [prepareAsync], waits, failures and releases no operation touches a future or prepared statement of the driver that is freed.  The module's counter is the number of
    persistent statements (modulo 2^32), which stays within the limit.  Nothing leaks: every future is held by the persistent list, where it has been answered, or by one future object, and every prepared statement
    by one object.  The driver is not asked again for a persistent statement that is kept. *)
Theorem prepared_statements_safe max U o w : reaches max U o w ->
  (forall p, allowed U p w -> exists r w', run_op max p w = Some (r, w') /\ reaches max U o w') /\
  persistent_prepared_statements w = wrapU 32 (Z.of_nat (size (entries w))) /\ (0 <= max < 2 ^ 32 -> Z.of_nat (size (entries w)) <= max) /\
  (forall f, is_Some (futures w !! f) <-> (exists key, entries w !! key = Some f) \/ exists j x, future_objects w !! j = Some x /\ fp_future x = f) /\
  (forall p, is_Some (prepareds w !! p) <-> is_Some (statements w !! p)) /\
  (forall self cql a, s_persist self = true -> is_Some (entries w !! prepared_key self cql) -> sane a -> U (request_of self cql) ->
     exists i w', run_op max (OpPrepare self cql true a) w = Some (Statement i, w') /\ futures w' = futures w).
Proof.
  intros Hr. pose proof (reaches_holds U max o w Hr) as H. split; [|split; [apply H|split; [by eauto using reaches_bound|split; [|split]]]].
  - intros p Ha. destruct (op_holds U max p w H Ha) as (r & w' & E & _). exists r, w'. split; [done|]. by eapply reaches_op.
  - intros f. split; [intros Hf; destruct (o_all _ _ _ H f Hf) as [?|?]; done|]. intros [[key Hk]|(j & x & Hj & <-)]; [destruct (o_entry _ _ _ H key f Hk) as (x & -> & _); by eexists|]. apply (o_object _ _ _ H j x Hj).
  - intros p. split; [apply (o_prepared _ _ _ H)|]. intros [[q n] Hs]. apply (o_statement _ _ _ H p q n Hs).
  - intros self cql a Hp [f Hk] Ha HU. cbn [run_op]. unfold DefaultSession_prepare. cbn [negb]. destruct (find_holds U self cql w H) as (c & -> & Hc). cbn [mbind option_bind].
    destruct c as [[i w']|w']; [by exists i, w'; destruct Hc as (_ & _ & ? & _)|]. destruct Hc as [_ Hc]. rewrite (Hc Hp) in Hk. done.
Qed.

Definition orders : session := {| s_persist := true; s_key := 12345; s_keyspace := Some (bs "shop"); s_session := 0 |}.
Definition select_all : bytes := bs "SELECT * FROM t".

Lemma prepared_statements_safe_witness : exists r w', run_op 16 (OpPrepare orders select_all true Answers) (empty_world ∅) = Some (r, w') /\ reaches 16 (fun _ => True) ∅ w'.
Proof. destruct (prepared_statements_safe 16 (fun _ => True) ∅ (empty_world ∅) (reaches_empty _ _ _)) as [H _]. apply H. by split. Defined.

(** C35: the right statement.  Whatever has been prepared before, and kept, by whatever sessions, the statement that [prepare] returns is that of the query, for the cluster of the session and the keyspace it was connected with (as C strings),
    when FNV-1a does not collide on the requests of the program: the bytes that are hashed determine all three.  When nothing is kept under the key, it is prepared now, in the keyspace that is current in the session; when a future
    is kept, the statement is that future's, prepared in the keyspace that was current then.  So when no [USE] was answered it is prepared in the keyspace of the session; a [USE] is not seen ([kept_across_use]). *)
Theorem prepared_statement_right max U o w self cql options a i w' : reaches max U o w -> (forall q1 q2, U q1 -> U q2 -> no_collision (key_bytes q1) (key_bytes q2)) ->
  sane a -> U (request_of self cql) -> run_op max (OpPrepare self cql options a) w = Some (Statement i, w') ->
  is_Some (statements w' !! i) /\
  exists q : preparation, prepareds w' !! i = Some q /\ q_cql q = cql /\ wrapU 64 (q_key q) = wrapU 64 (s_key self) /\ c_string (default [] (q_keyspace q)) = c_string (default [] (s_keyspace self)) /\
    (match (if s_persist self then entries w !! prepared_key self cql else None) with
     | Some f => exists x, futures w !! f = Some x /\ q = f_request x
     | None => p_session q = s_session self /\ p_keyspace q = current_keyspace (s_session self) (s_keyspace self) w
     end) /\
    (used w = ∅ -> p_keyspace q = c_string (default [] (s_keyspace self))).
Proof.
  intros Hr Hn Ha HU E. destruct (prepare_outcome U max self cql options a w (reaches_holds U max o w Hr) Ha HU) as (r & w2 & E2 & _ & Hs & _). cbn [run_op] in E. rewrite E2 in E. injection E as -> <-.
  destruct (Hs i eq_refl) as (H1 & q & Hq & [HUq Hu] & Hk & Hf). split; [done|]. exists q. split; [done|]. rewrite prepared_key_eq in Hk. apply (Hn _ _ HUq HU), key_bytes_inj in Hk as (K1 & K2 & K3).
  split; [done|]. split; [done|]. split; [done|]. split; [|intros Hu0; by rewrite (Hu Hu0)]. unfold right_future in Hf. by destruct (if s_persist self then _ else None); subst.
Qed.

(** A statement is kept for a session, and another session of the cluster with another keyspace prepares its own; the first then uses that keyspace. *)
Definition archive : session := {| s_persist := true; s_key := 12345; s_keyspace := Some (bs "archive"); s_session := 1 |}.
Definition two_sessions (q : request) : Prop := q = request_of orders select_all \/ q = request_of archive select_all.
Definition prepare_ops : list op := [OpPrepare orders select_all true Answers; OpPrepare archive select_all true Answers; OpUse 0 (bs "archive")].
Definition run_ops (ops : list op) (w : world) : option world := foldl (fun w o => w ← w; '(_, w) ← run_op 16 o w; Some w) (Some w) ops.

Lemma run_ops_reaches U o ops w w' : reaches 16 U o w -> Forall (fun p => forall w, allowed U p w) ops -> run_ops ops w = Some w' -> reaches 16 U o w'.
Proof.
  intros Hr Ha. revert w Hr. induction Ha as [|p ops Hp Ha IH]; intros w Hr E; [by injection E as <-|]. unfold run_ops in E. cbn [foldl mbind option_bind] in E. destruct (run_op 16 p w) as [[r w2]|] eqn:Ep; cbn [mbind option_bind] in E.
  - apply (IH w2); [|done]. by eapply reaches_op.
  - exfalso. clear -E. induction ops as [|q ops IH]; [done|by apply IH].
Qed.

(** After the [USE] the first session gets the statement that was kept before, of its keyspace then; what is not kept is prepared in the keyspace it uses now. *)
Lemma prepared_statement_right_witness : exists w i w', run_ops prepare_ops (empty_world ∅) = Some w /\ run_op 16 (OpPrepare orders select_all true Answers) w = Some (Statement i, w') /\
  (exists q : preparation, prepareds w' !! i = Some q /\ q_cql q = select_all) /\ is_Some (entries w !! prepared_key orders select_all) /\
  (p_keyspace <$> prepareds w' !! i = Some (bs "shop")) /\ current_keyspace (s_session orders) (s_keyspace orders) w = bs "archive".
Proof.
  eexists _, _, _. split; [vm_compute; reflexivity|]. split; [vm_compute; reflexivity|]. split; [|split; [eexists; vm_compute; reflexivity|split; vm_compute; reflexivity]].
  edestruct (fun w => prepared_statement_right 16 two_sessions ∅ w orders select_all true Answers) as (_ & q & H1 & H2 & _).
  - eapply (run_ops_reaches _ _ prepare_ops); [constructor| |vm_compute; reflexivity]. apply Forall_cons_2; [intros v; split; [done|by left]|]. apply Forall_cons_2; [intros v; split; [done|by right]|]. by apply Forall_cons_2.
  - intros q1 q2 [->| ->] [->| ->] E; [reflexivity|exfalso; vm_compute in E; discriminate E|exfalso; vm_compute in E; discriminate E|reflexivity].
  - assert (sane Answers) as Hs by done. exact Hs.
  - by left.
  - vm_compute. reflexivity.
  - exists q. split; [exact H1|exact H2].
Defined.

(** [prepare] in a session that has a keyspace in use gives the statement of the keyspace it was connected with, when that one is kept, and the one of the keyspace in use when it is not. *)
Example kept_across_use : exists w, run_ops prepare_ops (empty_world ∅) = Some w /\
  (exists i w', run_op 16 (OpPrepare orders select_all true Answers) w = Some (Statement i, w') /\ p_keyspace <$> prepareds w' !! i = Some (bs "shop")) /\
  exists i w', run_op 16 (OpPrepare orders (bs "SELECT * FROM u") true Answers) w = Some (Statement i, w') /\ p_keyspace <$> prepareds w' !! i = Some (bs "archive").
Proof. eexists. split; [vm_compute; reflexivity|]. split; eexists _, _; split; vm_compute; reflexivity. Qed.

(** A query that is not a string is read as one. *)
Example not_a_string self w : DefaultSession_prepare 16 self None true Answers w = None /\ DefaultSession_prepareAsync self None w = None.
Proof. done. Qed.
