(* ===== verification/SchemaMeta.v ===== *)
(** The driver's snapshot of the schema ([metadata.hpp], [metadata.cpp]).

    A [std::map] is the list of its entries in the order of its keys.  The rows of the system tables come from the server: a row is
    the function that finds its columns.  The JSON texts of servers before 3.0 are read by a parser that is not part of the
    model: what it makes of a column is an argument. *)
From Stdlib Require Import Sorting.Sorted.
From S2P Require Import Prelude Types Values Decoder DataTypes.
#[local] Open Scope Z_scope.

(** ** [std::map] *)

Abbreviation std_map A := (list (bytes * A)).

Fixpoint map_find {A} (k : bytes) (m : std_map A) : option A :=
  match m with
  | [] => None
  | (k', a) :: m => if strcmp k k' =? 0 then Some a else map_find k m
  end.

(** [m[k] = a] *)
Fixpoint map_put {A} (k : bytes) (a : A) (m : std_map A) : std_map A :=
  match m with
  | [] => [(k, a)]
  | (k', a') :: m' =>
      if strcmp k k' =? 0 then (k', a) :: m'
      else if strcmp k k' <? 0 then (k, a) :: m
      else (k', a') :: map_put k a m'
  end.

(** ** Fields *)

(** [MetadataField]: [None] is the value of a null column, which has no type. *)
Definition field : Type := option (CassDataType * Value).

Definition sys_row : Type := bytes -> option (CassDataType * Value).

Definition add_field (row : sys_row) (name : bytes) (fields : std_map field) : std_map field :=
  match row name with
  | None => fields
  | Some (t, v) => map_put name (if value_is_null v then None else Some (t, v)) fields
  end.

Definition add_fields (row : sys_row) (names : list bytes) (fields : std_map field) : std_map field :=
  fold_left (fun fields name => add_field row name fields) names fields.

(** [add_json_list_field], [add_json_map_field]: [parsed] is what is made of the text, if it replaces the field. *)
Definition add_json_field (row : sys_row) (parsed : bytes -> option field) (name : bytes) (fields : std_map field) : std_map field :=
  match row name with
  | None => fields
  | Some (_, v) => if value_is_null v then map_put name None fields else match parsed name with Some f => map_put name f fields | None => fields end
  end.

(** ** Columns, tables, keyspaces *)

Inductive CassColumnType := REGULAR | PARTITION_KEY | CLUSTERING_KEY | STATIC | COMPACT_VALUE.
Inductive CassClusteringOrder := ORDER_NONE | ORDER_ASC | ORDER_DESC.

#[export] Instance CassColumnType_eq_dec : EqDecision CassColumnType.
Proof. solve_decision. Defined.

Record ColumnMetadata := {
  cm_name : bytes;
  cm_type : CassColumnType;
  cm_position : Z;
  cm_data_type : option CassDataType;
  cm_is_frozen : bool;
  cm_is_reversed : bool;
  cm_fields : std_map field
}.

(** [TableMetadataBase]; a key has no column at a position that no column has. *)
Record TableMetadataBase := {
  tm_name : bytes;
  tm_fields : std_map field;
  tm_columns : list (option ColumnMetadata);
  tm_columns_by_name : std_map ColumnMetadata;
  tm_partition_key : list (option ColumnMetadata);
  tm_clustering_key : list (option ColumnMetadata);
  tm_clustering_key_order : list CassClusteringOrder
}.

Inductive CassIndexType := INDEX_UNKNOWN | INDEX_KEYS | INDEX_CUSTOM | INDEX_COMPOSITES.

(** The options of an index: the value, and the texts of the map it is. *)
Record IndexMetadata := { im_name : bytes; im_type : CassIndexType; im_target : bytes; im_options : option (list (option bytes * option bytes)) }.

(** A view points to its base table, which the keyspace keeps under this name. *)
Record ViewMetadata := { vm_base : TableMetadataBase; vm_base_table : bytes }.

Record TableMetadata := {
  tm_base : TableMetadataBase;
  tm_views : list ViewMetadata;
  tm_indexes : list IndexMetadata;
  tm_indexes_by_name : std_map IndexMetadata
}.

Record FunctionMetadata := {
  fm_name : bytes;
  fm_simple_name : bytes;
  fm_args : list (bytes * option CassDataType);
  fm_return_type : option CassDataType;
  fm_body : bytes;
  fm_language : bytes;
  fm_called_on_null_input : bool
}.

Record AggregateMetadata := {
  am_name : bytes;
  am_simple_name : bytes;
  am_arg_types : list (option CassDataType);
  am_return_type : option CassDataType;
  am_state_type : option CassDataType;
  am_state_func : option FunctionMetadata;
  am_final_func : option FunctionMetadata;
  am_init_cond : field
}.

Record KeyspaceMetadata := {
  km_fields : std_map field;
  km_tables : std_map TableMetadata;
  km_views : std_map ViewMetadata;
  km_user_types : std_map CassDataType;
  km_functions : std_map FunctionMetadata;
  km_aggregates : std_map AggregateMetadata
}.

Record SchemaSnapshot := { sm_version : Z; sm_keyspaces : std_map KeyspaceMetadata }.

(** ** Lookups *)

Definition get_keyspace (name : bytes) (m : SchemaSnapshot) : option KeyspaceMetadata := map_find name (sm_keyspaces m).
Definition get_field (name : bytes) (fields : std_map field) : option field := map_find name fields.
Definition get_table (name : bytes) (m : KeyspaceMetadata) : option TableMetadata := map_find name (km_tables m).
Definition get_view (name : bytes) (m : KeyspaceMetadata) : option ViewMetadata := map_find name (km_views m).
Definition get_user_type (name : bytes) (m : KeyspaceMetadata) : option CassDataType := map_find name (km_user_types m).
Definition get_function (name : bytes) (m : KeyspaceMetadata) : option FunctionMetadata := map_find name (km_functions m).
Definition get_aggregate (name : bytes) (m : KeyspaceMetadata) : option AggregateMetadata := map_find name (km_aggregates m).
Definition get_column (name : bytes) (t : TableMetadataBase) : option ColumnMetadata := map_find name (tm_columns_by_name t).
Definition get_index (name : bytes) (t : TableMetadata) : option IndexMetadata := map_find name (tm_indexes_by_name t).

(** [base_table]: the views of a table are dropped with it and moved with it. *)
Definition base_table (ks : KeyspaceMetadata) (v : ViewMetadata) : option TableMetadata := get_table (vm_base_table v) ks.

Definition view_name (v : ViewMetadata) : bytes := tm_name (vm_base v).

(** [TableMetadata::get_view]: [std::lower_bound] over the sorted views. *)
Fixpoint lower_bound (name : bytes) (l : list ViewMetadata) : option ViewMetadata :=
  match l with
  | [] => None
  | v :: l => if strcmp (view_name v) name <? 0 then lower_bound name l else Some v
  end.
Definition table_get_view (name : bytes) (t : TableMetadata) : option ViewMetadata :=
  match lower_bound name (tm_views t) with
  | Some v => if negb (strcmp (view_name v) name =? 0) then None else Some v
  | None => None
  end.

(** ** Names of functions *)

Definition remove_whitespace (s : bytes) : bytes := filter (fun c => isspace c = false) s.

(** The pieces [std::getline] reads. *)
Fixpoint split_commas (s : bytes) : list bytes :=
  match s with
  | [] => [[]]
  | c :: s =>
      if c =? 44 then [] :: split_commas s
      else match split_commas s with p :: ps => (c :: p) :: ps | [] => [[c]] end
  end.

(** The pieces with commas between those that are not empty. *)
Fixpoint append_pieces (first : bool) (full_name : bytes) (l : list bytes) : bytes :=
  match l with
  | [] => full_name
  | p :: l =>
      let argument := remove_whitespace p in
      if bool_decide (argument = []) then append_pieces first full_name l
      else append_pieces false ((if first then full_name else full_name ++ [44]) ++ argument) l
  end.

Definition append_arguments (full_name arguments : bytes) : bytes := append_pieces true (full_name ++ [40]) (split_commas arguments) ++ [41].

(** [Metadata::full_function_name]: a comma before each argument but the first. *)
Fixpoint append_signature (first : bool) (full_name : bytes) (l : list bytes) : bytes :=
  match l with
  | [] => full_name
  | p :: l =>
      let argument := remove_whitespace p in
      if bool_decide (argument = []) then append_signature false full_name l
      else append_signature false ((if first then full_name else full_name ++ [44]) ++ argument) l
  end.
Definition full_function_name (name : bytes) (signature : list bytes) : bytes := append_signature true (name ++ [40]) signature ++ [41].

(** ** The fields of tables *)

Definition table_column_name (v3 : bool) : bytes := if v3 then bs "table_name" else bs "columnfamily_name".

(** The constructors of [TableMetadataBase], [TableMetadata] and [ViewMetadata]; [v3]: the server is 3.0 or newer. *)
Definition table_base_fields (v3 : bool) (row : sys_row) (parsed : bytes -> option field) : std_map field :=
  let fields := add_fields row [bs "keyspace_name"; bs "bloom_filter_fp_chance"; bs "caching"; bs "comment"; bs "default_time_to_live"; bs "gc_grace_seconds"; bs "id";
    bs "speculative_retry"; bs "max_index_interval"; bs "min_index_interval"; bs "memtable_flush_period_in_ms"; bs "read_repair_chance"] [] in
  if v3 then add_fields row [bs "dclocal_read_repair_chance"; bs "crc_check_chance"; bs "compaction"; bs "compression"; bs "extensions"] fields
  else
    let fields := add_fields row [bs "cf_id"; bs "local_read_repair_chance"; bs "compaction_strategy_class"] fields in
    let fields := add_json_field row parsed (bs "compaction_strategy_options") fields in
    let fields := add_json_field row parsed (bs "compression_parameters") fields in
    let fields := add_json_field row parsed (bs "column_aliases") fields in
    let fields := add_fields row [bs "comparator"; bs "subcomparator"; bs "default_validator"; bs "key_alias"] fields in
    let fields := add_json_field row parsed (bs "key_aliases") fields in
    add_fields row [bs "value_alias"; bs "key_validator"; bs "type"; bs "dropped_columns"; bs "index_interval"; bs "is_dense"; bs "max_compaction_threshold";
      bs "min_compaction_threshold"; bs "populate_io_cache_on_flush"; bs "replicate_on_write"] fields.

Definition table_fields (v3 : bool) (row : sys_row) (parsed : bytes -> option field) : std_map field :=
  let fields := add_field row (table_column_name v3) (table_base_fields v3 row parsed) in
  if v3 then add_field row (bs "flags") fields else fields.

Definition view_fields (v3 : bool) (row : sys_row) (parsed : bytes -> option field) : std_map field :=
  add_fields row [bs "keyspace_name"; bs "view_name"; bs "base_table_name"; bs "base_table_id"; bs "include_all_columns"; bs "where_clause"] (table_base_fields v3 row parsed).

(** ** Keys *)

(** [TableMetadataBase::add_column] *)
Definition add_column (c : ColumnMetadata) (columns : list ColumnMetadata) (by_name : std_map ColumnMetadata) : list ColumnMetadata * std_map ColumnMetadata :=
  match map_find (cm_name c) by_name with
  | None => (columns ++ [c], map_put (cm_name c) c by_name)
  | Some _ => (columns, by_name)
  end.

Definition is_type (t : CassColumnType) (c : ColumnMetadata) : bool := bool_decide (cm_type c = t).

(** [get_column_count] *)
Definition get_column_count (t : CassColumnType) (columns : list ColumnMetadata) : nat := length (filter (fun c => is_type t c = true) columns).

(** The columns of a type at their positions. *)
Definition place {A} (t : CassColumnType) (f : ColumnMetadata -> A) (c : ColumnMetadata) (key : list A) : list A :=
  if is_type t c && (0 <=? cm_position c) && (cm_position c <? zlen key) then <[Z.to_nat (cm_position c) := f c]> key else key.

(** [build_keys_and_sort] for servers of version 2 and newer. *)
Definition build_keys_and_sort (name : bytes) (fields : std_map field) (columns : list ColumnMetadata) (by_name : std_map ColumnMetadata) : TableMetadataBase :=
  let partition_key := fold_left (fun key c => place PARTITION_KEY Some c key) columns (replicate (get_column_count PARTITION_KEY columns) None) in
  let n := get_column_count CLUSTERING_KEY columns in
  let clustering_key := fold_left (fun key c => place CLUSTERING_KEY Some c key) columns (replicate n None) in
  let order := fold_left (fun o c => place CLUSTERING_KEY (fun c => if cm_is_reversed c then ORDER_DESC else ORDER_ASC) c o) columns (replicate n ORDER_NONE) in
  {| tm_name := name; tm_fields := fields;
     tm_columns := partition_key ++ clustering_key ++ map Some (filter (fun c => is_type PARTITION_KEY c || is_type CLUSTERING_KEY c = false) columns);
     tm_columns_by_name := by_name; tm_partition_key := partition_key; tm_clustering_key := clustering_key; tm_clustering_key_order := order |}.

(** ** Lemmas: the order of keys *)

Lemma strcmp_refl s : strcmp s s = 0.
Proof. by apply strcmp_0. Qed.

Lemma strcmp_swap s1 : forall s2, strcmp s1 s2 < 0 <-> strcmp s2 s1 > 0.
Proof.
  induction s1 as [|c1 s1 IH]; intros [|c2 s2]; cbn [strcmp]; try lia.
  rewrite (Z.eqb_sym c2 c1). destruct (Z.eqb_spec c1 c2); [apply IH|]. destruct (Z.ltb_spec c1 c2), (Z.ltb_spec c2 c1); lia.
Qed.

Lemma strcmp_trans s1 : forall s2 s3, strcmp s1 s2 < 0 -> strcmp s2 s3 < 0 -> strcmp s1 s3 < 0.
Proof.
  induction s1 as [|c1 s1 IH]; intros [|c2 s2] [|c3 s3]; cbn [strcmp]; try lia.
  destruct (Z.eqb_spec c1 c2), (Z.eqb_spec c2 c3), (Z.eqb_spec c1 c3); subst; try done; try (apply IH);
    repeat match goal with |- context [?a <? ?b] => destruct (Z.ltb_spec a b) end; try lia.
Qed.

Definition key_lt {A} (a b : bytes * A) : Prop := strcmp (fst a) (fst b) < 0.
Abbreviation map_sorted := (StronglySorted key_lt).

Lemma map_put_keys {A} k (a : A) m x : x ∈ map_put k a m -> fst x = k \/ x ∈ m.
Proof.
  induction m as [|[k' a'] m IH]; cbn [map_put].
  - intros ->%list_elem_of_singleton. by left.
  - destruct (Z.eqb_spec (strcmp k k') 0) as [->%strcmp_0|]; [|destruct (_ <? _)]; rewrite ?elem_of_cons.
    + intros [->|H]; [by left|by right; right].
    + intros [->|H]; [by left|by right].
    + intros [->|H]; [by right; left|]. apply IH in H as [H|H]; [by left|by right; right].
Qed.

Lemma map_put_sorted {A} k (a : A) m : map_sorted m -> map_sorted (map_put k a m).
Proof.
  induction 1 as [|[k' a'] m Hm IH Hall]; cbn [map_put]; [repeat constructor|].
  destruct (Z.eqb_spec (strcmp k k') 0) as [E|]; [|destruct (Z.ltb_spec (strcmp k k') 0) as [Hlt|Hge]].
  - constructor; [done|]. revert Hall. apply Forall_impl. intros x Hx. exact Hx.
  - constructor; [by constructor|]. constructor; [exact Hlt|]. revert Hall. apply Forall_impl. intros x Hx. by eapply strcmp_trans; [exact Hlt|exact Hx].
  - constructor; [done|]. apply list.Forall_forall. intros x [Hx|Hx]%map_put_keys.
    + unfold key_lt. cbn [fst]. rewrite Hx. apply strcmp_swap. lia.
    + rewrite list.Forall_forall in Hall. by apply Hall.
Qed.

Lemma map_find_put {A} k (a : A) k' m : map_find k' (map_put k a m) = if decide (k' = k) then Some a else map_find k' m.
Proof.
  induction m as [|[x b] m IH]; cbn [map_put map_find].
  - destruct (Z.eqb_spec (strcmp k' k) 0) as [->%strcmp_0|Hne]; [by rewrite decide_True|]. rewrite decide_False; [done|]. intros ->. by rewrite strcmp_refl in Hne.
  - destruct (Z.eqb_spec (strcmp k x) 0) as [->%strcmp_0|Hne]; [|destruct (strcmp k x <? 0)]; cbn [map_find].
    + destruct (Z.eqb_spec (strcmp k' x) 0) as [->%strcmp_0|Hne']; [by rewrite decide_True|]. rewrite decide_False; [done|]. intros ->. by rewrite strcmp_refl in Hne'.
    + destruct (Z.eqb_spec (strcmp k' k) 0) as [->%strcmp_0|Hne']; [by rewrite decide_True|]. rewrite decide_False; [done|]. intros ->. by rewrite strcmp_refl in Hne'.
    + rewrite IH. destruct (Z.eqb_spec (strcmp k' x) 0) as [->%strcmp_0|Hne']; [|done]. rewrite decide_False; [done|]. intros ->. by rewrite strcmp_refl in Hne.
Qed.

Lemma map_find_elem {A} (m : std_map A) k a : map_sorted m -> map_find k m = Some a <-> (k, a) ∈ m.
Proof.
  induction 1 as [|[x b] m Hm IH Hall]; cbn [map_find]; [split; [done|by intros H%not_elem_of_nil]|].
  rewrite elem_of_cons. rewrite list.Forall_forall in Hall.
  destruct (Z.eqb_spec (strcmp k x) 0) as [->%strcmp_0|Hne].
  - split; [intros [= ->]; by left|]. intros [[= ->]|H]; [done|]. apply Hall in H. unfold key_lt in H. cbn [fst] in H. rewrite strcmp_refl in H. lia.
  - rewrite IH. split; [by right|]. intros [[= -> ->]|H]; [by rewrite strcmp_refl in Hne|done].
Qed.

Lemma map_sorted_nodup {A} (m : std_map A) : map_sorted m -> NoDup (map fst m).
Proof.
  induction 1 as [|[x b] m Hm IH Hall]; [constructor|]. cbn [map fst]. constructor; [|done].
  intros ([y c] & Hy & H)%list_elem_of_fmap. cbn [fst] in Hy. subst y. rewrite list.Forall_forall in Hall. apply Hall in H. unfold key_lt in H. cbn [fst] in H. rewrite strcmp_refl in H. lia.
Qed.

Lemma add_field_sorted row name fields : map_sorted fields -> map_sorted (add_field row name fields).
Proof. intros H. unfold add_field. destruct (row name) as [[t v]|]; [by apply map_put_sorted|done]. Qed.

Lemma add_fields_sorted row names fields : map_sorted fields -> map_sorted (add_fields row names fields).
Proof. unfold add_fields. revert fields. induction names as [|n names IH]; intros fields H; [done|]. cbn [fold_left]. by apply IH, add_field_sorted. Qed.

Lemma add_json_field_sorted row parsed name fields : map_sorted fields -> map_sorted (add_json_field row parsed name fields).
Proof.
  intros H. unfold add_json_field. destruct (row name) as [[t v]|]; [|done]. destruct (value_is_null v); [by apply map_put_sorted|].
  destruct (parsed name); [by apply map_put_sorted|done].
Qed.
#[export] Hint Resolve add_field_sorted add_fields_sorted add_json_field_sorted SSorted_nil : cdata.

Lemma table_base_fields_sorted v3 row parsed : map_sorted (table_base_fields v3 row parsed).
Proof. unfold table_base_fields. destruct v3; cbv zeta; auto 12 with cdata. Qed.

Lemma table_fields_sorted v3 row parsed : map_sorted (table_fields v3 row parsed).
Proof. unfold table_fields. pose proof (table_base_fields_sorted v3 row parsed). destruct v3; cbv zeta; auto with cdata. Qed.

(** Whether a field is there after others are added. *)
Lemma add_field_find row name k fields : map_find k (add_field row name fields) = if decide (k = name) then match row name with Some (t, v) => Some (if value_is_null v then None else Some (t, v)) | None => map_find k fields end else map_find k fields.
Proof. unfold add_field. destruct (row name) as [[t v]|]; [by rewrite map_find_put|by destruct (decide _)]. Qed.

Lemma add_fields_keeps row names k fields : is_Some (map_find k fields) -> is_Some (map_find k (add_fields row names fields)).
Proof.
  unfold add_fields. revert fields. induction names as [|n names IH]; intros fields H; [done|]. cbn [fold_left]. apply IH. rewrite add_field_find.
  destruct (decide (k = n)); [|done]. destruct (row n) as [[t v]|]; [by eexists|done].
Qed.

Lemma add_json_field_keeps row parsed name k fields : is_Some (map_find k fields) -> is_Some (map_find k (add_json_field row parsed name fields)).
Proof.
  intros H. unfold add_json_field. destruct (row name) as [[t v]|]; [|done]. destruct (value_is_null v), (parsed name); rewrite ?map_find_put; try done; by destruct (decide _).
Qed.

(** ** Lemmas: names of functions *)

Fixpoint join_commas (l : list bytes) : bytes :=
  match l with [] => [] | [p] => p | p :: l => p ++ 44 :: join_commas l end.

Definition nonblank (s : bytes) : Prop := remove_whitespace s <> [].

Lemma join_commas_cons p l : l <> [] -> join_commas (p :: l) = p ++ 44 :: join_commas l.
Proof. by destruct l. Qed.

Lemma split_commas_nonnil s : split_commas s <> [].
Proof. destruct s as [|c s]; [done|]. cbn [split_commas]. destruct (c =? 44); [done|]. by destruct (split_commas s). Qed.

Lemma join_split s : join_commas (split_commas s) = s.
Proof.
  induction s as [|c s IH]; [done|]. cbn [split_commas]. pose proof (split_commas_nonnil s) as Hs. destruct (Z.eqb_spec c 44) as [->|].
  - rewrite join_commas_cons by done. by rewrite IH.
  - destruct (split_commas s) as [|p ps]; [done|]. destruct ps; [cbn in *; by subst|]. rewrite join_commas_cons in IH |- * by done. cbn [app]. by rewrite IH.
Qed.

Lemma remove_whitespace_app s1 s2 : remove_whitespace (s1 ++ s2) = remove_whitespace s1 ++ remove_whitespace s2.
Proof. apply list.filter_app. Qed.

Lemma remove_whitespace_join l : remove_whitespace (join_commas l) = join_commas (map remove_whitespace l).
Proof.
  induction l as [|p l IH]; [done|]. destruct l as [|q l]; [done|]. rewrite (join_commas_cons p) by done. cbn [map]. rewrite (join_commas_cons (remove_whitespace p)) by done.
  rewrite remove_whitespace_app. f_equal. change (44 :: ?x) with ([44] ++ x). rewrite remove_whitespace_app. rewrite IH. done.
Qed.

Lemma append_pieces_ok l : Forall nonblank l -> forall full_name,
  append_pieces false full_name l = full_name ++ concat (map (fun p => 44 :: remove_whitespace p) l) /\
  append_signature false full_name l = full_name ++ concat (map (fun p => 44 :: remove_whitespace p) l).
Proof.
  induction 1 as [|p l Hp Hl IH]; intros full_name; cbn [append_pieces append_signature map concat]; [by rewrite app_nil_r|].
  rewrite bool_decide_eq_false_2 by done. rewrite !(proj1 (IH _)), !(proj2 (IH _)). by rewrite <- !app_assoc.
Qed.

Lemma join_concat p l : join_commas (p :: l) = p ++ concat (map (fun q => 44 :: q) l).
Proof. revert p. induction l as [|q l IH]; intros p; [by rewrite app_nil_r|]. rewrite join_commas_cons by done. rewrite IH. done. Qed.

Lemma append_first l full_name : Forall nonblank l ->
  append_pieces true full_name l = full_name ++ join_commas (map remove_whitespace l) /\ append_signature true full_name l = full_name ++ join_commas (map remove_whitespace l).
Proof.
  destruct 1 as [|p l Hp Hl]; [by cbn; rewrite app_nil_r|]. cbn [append_pieces append_signature]. rewrite bool_decide_eq_false_2 by done.
  destruct (append_pieces_ok l Hl (full_name ++ remove_whitespace p)) as [-> ->]. cbn [map]. rewrite join_concat, map_map, app_assoc. done.
Qed.

(** The name made from the arguments of a call is the name the driver gave the function. *)
Lemma append_arguments_full name signature : Forall nonblank signature -> Forall nonblank (split_commas (join_commas signature)) \/ signature = [] ->
  append_arguments name (join_commas signature) = full_function_name name signature.
Proof.
  intros Hs [Hp| ->]; [|by vm_compute]. unfold append_arguments, full_function_name. f_equal. rewrite (proj1 (append_first _ _ Hp)), (proj2 (append_first _ _ Hs)).
  by rewrite <- !remove_whitespace_join, join_split.
Qed.

(** ** Lemmas: keys *)

Lemma place_length {A} t f c (key : list A) : length (place t f c key) = length key.
Proof. unfold place. destruct (_ && _); [by rewrite length_insert|done]. Qed.

Lemma places_length {A} t f columns (key : list A) : length (fold_left (fun key c => place t f c key) columns key) = length key.
Proof. revert key. induction columns as [|c columns IH]; intros key; [done|]. cbn [fold_left]. by rewrite IH, place_length. Qed.

Lemma places_at {A} t (f : ColumnMetadata -> A) columns c key :
  c ∈ columns -> is_type t c = true -> 0 <= cm_position c < zlen key ->
  (forall d, d ∈ columns -> is_type t d = true -> cm_position d = cm_position c -> d = c) ->
  fold_left (fun key c => place t f c key) columns key !! Z.to_nat (cm_position c) = Some (f c).
Proof.
  induction columns as [|d columns IH] using rev_ind; intros Hc Ht Hp Hu; [by apply not_elem_of_nil in Hc|].
  rewrite fold_left_app. cbn [fold_left]. set (rest := fold_left _ columns key) in *.
  assert (length rest = length key) as Hl by apply places_length. unfold place at 1. unfold zlen in *. rewrite Hl.
  destruct (is_type t d && (0 <=? cm_position d) && (cm_position d <? Z.of_nat (length key))) eqn:E.
  - apply andb_true_iff in E as [[Htd E1]%andb_true_iff E2]. destruct (decide (cm_position d = cm_position c)) as [Heq|Hne].
    + rewrite (Hu d) by (try done; apply elem_of_app; right; by apply list_elem_of_singleton). rewrite list_lookup_insert_eq by (rewrite Hl; lia). done.
    + rewrite list_lookup_insert_ne by lia. apply elem_of_app in Hc as [Hc|Hc%list_elem_of_singleton]; [|by subst].
      apply IH; [done..|]. intros x Hx. apply Hu. apply elem_of_app. by left.
  - apply elem_of_app in Hc as [Hc|Hc%list_elem_of_singleton].
    + apply IH; [done..|]. intros x Hx. apply Hu. apply elem_of_app. by left.
    + subst d. rewrite Ht in E. cbn [andb] in E. lia.
Qed.

(** The columns of a type have the positions [0] to [n - 1], each once. *)
Definition positions_ok (t : CassColumnType) (columns : list ColumnMetadata) : Prop :=
  let key := filter (fun c => is_type t c = true) columns in
  NoDup (map cm_position key) /\ Forall (fun c => 0 <= cm_position c < zlen key) key.

(** Then every place of the key is taken. *)
Lemma key_complete t columns : positions_ok t columns ->
  exists cols, fold_left (fun key c => place t Some c key) columns (replicate (get_column_count t columns) None) = map Some cols /\
    length cols = get_column_count t columns /\ forall c, c ∈ columns -> is_type t c = true -> cols !! Z.to_nat (cm_position c) = Some c.
Proof.
  intros [Hnd Hr]. set (l := filter (fun c => is_type t c = true) columns) in *. set (n := get_column_count t columns). assert (length l = n) as Hl by done.
  assert (forall c, c ∈ columns -> is_type t c = true -> c ∈ l) as Hin by (intros c Hc Ht; by apply list_elem_of_filter).
  assert (forall c d, c ∈ l -> d ∈ l -> cm_position d = cm_position c -> d = c) as Hinj.
  { clear -Hnd. induction l as [|x l IH]; intros c d Hc Hd E; [by apply not_elem_of_nil in Hc|]. cbn [map] in Hnd. apply list.NoDup_cons in Hnd as [Hx Hnd].
    apply elem_of_cons in Hc as [->|Hc], Hd as [->|Hd]; [done| | |by apply IH]; destruct Hx; apply list_elem_of_fmap; eexists; (split; [|eassumption]); congruence. }
  set (key := fold_left _ columns _). assert (length key = n) as Hk by (unfold key; rewrite places_length, length_replicate; done).
  assert (forall c, c ∈ columns -> is_type t c = true -> key !! Z.to_nat (cm_position c) = Some (Some c)) as Hat.
  { intros c Hc Ht. pose proof (Hin c Hc Ht) as Hcl. rewrite list.Forall_forall in Hr. specialize (Hr c Hcl). apply places_at; [done|done|unfold zlen in *; rewrite length_replicate; lia|].
    intros d Hd Htd E. apply Hinj; [done|by apply Hin|done]. }
  assert (forall i, (i < n)%nat -> exists c, c ∈ l /\ Z.to_nat (cm_position c) = i) as Hsurj.
  { intros i Hi. assert (map (fun c => Z.to_nat (cm_position c)) l ≡ₚ seq 0 n) as P.
    { apply submseteq_length_Permutation; [|rewrite length_seq, length_map; lia]. apply NoDup_submseteq.
      - rewrite <- (map_map cm_position Z.to_nat). apply NoDup_fmap_2_strong; [|done]. intros x y (c & -> & Hc)%list_elem_of_fmap (d & -> & Hd)%list_elem_of_fmap E.
        rewrite list.Forall_forall in Hr. pose proof (Hr c Hc). pose proof (Hr d Hd). lia.
      - intros x (c & -> & Hc)%list_elem_of_fmap. rewrite list.Forall_forall in Hr. specialize (Hr c Hc). unfold zlen in Hr. apply elem_of_seq. lia. }
    assert (i ∈ map (fun c => Z.to_nat (cm_position c)) l) as Hi' by (rewrite P; apply elem_of_seq; lia). apply list_elem_of_fmap in Hi' as (c & -> & Hc). by exists c. }
  assert (Forall is_Some key) as Hsome.
  { apply list.Forall_lookup. intros i x Hx. destruct (Hsurj i) as (c & Hc & Hi); [rewrite <- Hk; by eapply lookup_lt_Some|]. apply list_elem_of_filter in Hc as [Ht Hc].
    pose proof (Hat c Hc Ht) as H. rewrite Hi, Hx in H. injection H as ->. by eexists. }
  assert (exists cols, key = map Some cols) as [cols Hcols].
  { clear -Hsome. induction Hsome as [|x key [c ->] _ [cols ->]]; [by exists []|by exists (c :: cols)]. }
  exists cols. split_and!; [done|by rewrite <- Hk, Hcols, length_map|]. intros c Hc Ht. specialize (Hat c Hc Ht). rewrite Hcols, list_lookup_fmap in Hat.
  destruct (cols !! _); cbn in Hat; [congruence|done].
Qed.
