(* ===== verification/Metadata.v ===== *)
(** The schema's metadata as PHP objects ([Database/DefaultSchema.c], [DefaultKeyspace.c], [DefaultTable.c], [DefaultMaterializedView.c],
    [DefaultColumn.c], [DefaultIndex.c], [DefaultFunction.c], [DefaultAggregate.c], [Table.c]).

    [Session::schema] gives an object that owns a snapshot of the driver; every other object points into the snapshot and holds a
    reference to the schema object.  A pointer is the snapshot and what it points to, and may be read while the snapshot is not freed.  The
    values an object computes once are kept in its struct: a list of slots, of which an absent one is undefined.  The engine
    frees an object that nothing refers to; PHP code holds references, and does so for the elements of an array it was given. *)
From stdpp Require Import gmap fin_maps.
From S2P Require Import Prelude NumberParser DriverErrors Types Values Decoder DataTypes ResultDecoder Statements ResultRows ClassNames SchemaMeta.
#[local] Open Scope Z_scope.

(** ** State *)

Inductive class := CSchema | CKeyspace | CTable | CView | CColumn | CIndex | CFunction | CAggregate.

#[export] Instance class_eq_dec : EqDecision class.
Proof. solve_decision. Defined.

(** What a pointer points to; tables and views with the keyspace they are in. *)
Inductive meta :=
| MSchema (m : SchemaSnapshot)
| MKeyspace (k : KeyspaceMetadata)
| MTable (k : KeyspaceMetadata) (t : TableMetadata)
| MView (k : KeyspaceMetadata) (v : ViewMetadata)
| MColumn (c : ColumnMetadata)
| MIndex (i : IndexMetadata)
| MFunction (f : FunctionMetadata)
| MAggregate (a : AggregateMetadata).

Definition meta_class (m : meta) : class :=
  match m with
  | MSchema _ => CSchema | MKeyspace _ => CKeyspace | MTable _ _ => CTable | MView _ _ => CView
  | MColumn _ => CColumn | MIndex _ => CIndex | MFunction _ => CFunction | MAggregate _ => CAggregate
  end.

(** Values: a type made from a class name or from the driver's type; arrays of values. *)
Inductive leaf := LUndef | LValue (z : zval) | LParsed (t : created) | LType (t : php_scylladb_type) | LObject (h : nat).
Inductive pval := PLeaf (l : leaf) | PArray (l : list (array_key * leaf)).

Inductive slot :=
| Name | Options | PartitionKey | PrimaryKey | ClusteringKey | ClusteringOrder | BaseTable
| ColType | Reversed | Frozen | Kind | Target
| SimpleName | Arguments | ReturnType | Signature | Language | Body
| ArgumentTypes | StateFunction | FinalFunction | InitialCondition | StateType.

#[export] Instance slot_eq_dec : EqDecision slot.
Proof. solve_decision. Defined.

(** The structs: their zvals, the schema object and the pointer. *)
Record object := { o_class : class; o_slots : list (slot * pval); o_schema : option nat; o_meta : option (nat * meta) }.

Record world := {
  snapshots : gmap nat SchemaSnapshot;
  objects : gmap nat object;
  (** PHP code's references *)
  held : list nat;
  pending : bool;
  (** the driver's iterators that are not freed *)
  iterators : nat
}.

Definition set_objects (m : gmap nat object) (w : world) : world :=
  {| snapshots := snapshots w; objects := m; held := held w; pending := pending w; iterators := iterators w |}.
Definition set_snapshots (m : gmap nat SchemaSnapshot) (w : world) : world :=
  {| snapshots := m; objects := objects w; held := held w; pending := pending w; iterators := iterators w |}.
Definition set_held (l : list nat) (w : world) : world :=
  {| snapshots := snapshots w; objects := objects w; held := l; pending := pending w; iterators := iterators w |}.
Definition set_pending (b : bool) (w : world) : world :=
  {| snapshots := snapshots w; objects := objects w; held := held w; pending := b; iterators := iterators w |}.
Definition set_iterators (n : nat) (w : world) : world :=
  {| snapshots := snapshots w; objects := objects w; held := held w; pending := pending w; iterators := n |}.

Definition start : world := {| snapshots := ∅; objects := ∅; held := []; pending := false; iterators := 0 |}.

(** ** Effects *)

(** A freed snapshot is used; the null pointer of an object PHP code made with [new] is read; an object is not of its class; a null
    pointer the driver gave for a column or for an iterator is read; the null type of a field or of an argument is read; what is left of
    a value that was not decoded is used; the parser of class names reads a null node. *)
Inductive fault := Freed | NullPointer | WrongClass | NullMetadata | NullType | BadValue | ParserFault.

Definition M (A : Type) : Type := world -> fault + (A * world).

Definition ret {A} (a : A) : M A := fun w => inr (a, w).
Definition fail {A} (f : fault) : M A := fun _ => inl f.
Definition bind {A B} (m : M A) (f : A -> M B) : M B := fun w => match m w with inl e => inl e | inr (a, w) => f a w end.
Notation "x <~ m ; k" := (bind m (fun x => k)) (at level 100, m at level 200, k at level 200, right associativity).
Notation "m ;; k" := (bind m (fun _ => k)) (at level 100, k at level 200, right associativity).

Definition throw : M unit := fun w => inr (tt, set_pending true w).
Definition fetch (h : nat) : M object := fun w => match objects w !! h with Some o => inr (o, w) | None => inl Freed end.
Definition new_iterator : M unit := fun w => inr (tt, set_iterators (S (iterators w)) w).
Definition free_iterator : M unit := fun w => inr (tt, set_iterators (pred (iterators w)) w).

(** Reading through the pointer of an object. *)
Definition deref (o : object) : M (nat * meta) := fun w =>
  match o_meta o with
  | None => inl NullPointer
  | Some (s, m) => match snapshots w !! s with Some _ => inr ((s, m), w) | None => inl Freed end
  end.

Definition slot_get (s : slot) (o : object) : option pval := option_map snd (List.find (fun x => bool_decide (fst x = s)) (o_slots o)).

Definition set_slot (h : nat) (s : slot) (v : pval) : M unit := fun w =>
  match objects w !! h with
  | Some o => inr (tt, set_objects (<[h := {| o_class := o_class o; o_slots := (s, v) :: o_slots o; o_schema := o_schema o; o_meta := o_meta o |}]> (objects w)) w)
  | None => inl Freed
  end.

(** [object_init_ex], with the reference to the schema, the pointer and the first values. *)
Definition create (slots : list (slot * pval)) (schema : option nat) (s : nat) (m : meta) : M nat := fun w =>
  let h := fresh (dom (objects w)) in
  inr (h, set_objects (<[h := {| o_class := meta_class m; o_slots := slots; o_schema := schema; o_meta := Some (s, m) |}]> (objects w)) w).

(** A value that is computed once. *)
Definition cached (h : nat) (s : slot) (make : M (option pval)) : M pval :=
  o <~ fetch h;
  match slot_get s o with
  | Some v => ret v
  | None =>
      v <~ make;
      match v with
      | Some v => set_slot h s v;; ret v
      | None => ret (PLeaf LUndef)
      end
  end.

(** ** Arrays *)

Abbreviation entries := (list (array_key * leaf)).

(** [add_assoc_zval_ex] and [add_next_index_zval] *)
Definition add_assoc (name : bytes) (l : leaf) (a : entries) : entries :=
  let key := symtable_key name in
  if existsb (fun f => bool_decide (fst f = key)) a
  then map (fun f => if bool_decide (fst f = key) then (key, l) else f) a
  else a ++ [(key, l)].
Definition add_next_index (l : leaf) (a : entries) : entries := a ++ [(AtIndex (zlen a), l)].

(** [zend_hash_find] *)
Definition array_find (name : bytes) (a : entries) : option leaf := option_map snd (List.find (fun f => bool_decide (fst f = AtName name)) a).

(** A loop that adds to an array. *)
Fixpoint each {A} (f : A -> entries -> M entries) (l : list A) (a : entries) : M entries :=
  match l with [] => ret a | x :: l => a <~ f x a; each f l a end.

Definition text (s : bytes) : leaf := LValue (ZString s).
Definition boolean (b : bool) : leaf := LValue (if b then ZTrue else ZFalse).
Definition leaf_ret (l : leaf) : M pval := ret (PLeaf l).

(** ** Operations *)

Section metadata.
(** GMP and PHP's string hash for decoded values; whether the build has custom types and the legacy metadata classes. *)
Context {G : Gmp} (zend_hash : bytes -> Z) (depth : nat) (have_custom_type legacy : bool).

(** [php_scylladb_value] into a variable that is not initialised and is returned whether it fails or not: what a failure
    leaves is not a value. *)
Definition decode (t : CassDataType) (v : Value) : M zval :=
  match php_scylladb_value zend_hash depth have_custom_type t v with
  | Success z [] => ret z
  | Success z _ => throw;; ret z
  | Failure _ | Destroyed _ | Crash => fail BadValue
  end.

(** [php_scylladb_get_keyspace_field], [php_scylladb_get_column_field] *)
Definition get_meta_field (fields : std_map field) (name : bytes) : M pval :=
  match get_field name fields with
  | None => leaf_ret (LValue ZNull)
  | Some None => fail NullType
  | Some (Some (t, v)) => if value_is_null v then leaf_ret (LValue ZNull) else z <~ decode t v; leaf_ret (LValue z)
  end.

(** [cass_value_get_string]: [None] for a null value; a value without a type has no bytes. *)
Definition field_string (f : field) : M (option bytes) :=
  match f with
  | None => ret (Some [])
  | Some (_, v) =>
      if value_is_null v then ret None
      else match cass_value_get_bytes v with Success s _ => ret (Some s) | _ => fail BadValue end
  end.

Definition type_from (t : CassDataType) : leaf := match php_scylladb_type_from_data_type have_custom_type t with Some t => LType t | None => LUndef end.

(** [php_scylladb_create_column]: [None] after an exception; the object made before is released. *)
Definition php_scylladb_create_column (schema : option nat) (s : nat) (c : ColumnMetadata) : M (option nat) :=
  let made slots := h <~ create ((Name, PLeaf (text (cm_name c))) :: slots) schema s (MColumn c); ret (Some h) in
  match get_field (bs "validator") (cm_fields c) with
  | Some value =>
      validator <~ field_string value;
      match validator with
      | None => throw;; ret None
      | Some validator =>
          match php_scylladb_parse_column_type have_custom_type validator with
          | ColumnType reversed frozen type false _ => made [(ColType, PLeaf (LParsed type)); (Reversed, PLeaf (boolean reversed)); (Frozen, PLeaf (boolean frozen))]
          | ColumnType reversed frozen type true _ => throw;; made [(ColType, PLeaf (LParsed type)); (Reversed, PLeaf (boolean reversed)); (Frozen, PLeaf (boolean frozen))]
          | ColumnFailure _ _ => throw;; ret None
          | ColumnFault => fail ParserFault
          end
      end
  | None =>
      match cm_data_type c with
      | None => made []
      | Some t =>
          match get_field (bs "clustering_order") (cm_fields c) with
          | None => throw;; ret None
          | Some value =>
              order <~ field_string value;
              match order with
              | None => throw;; ret None
              | Some order => made [(ColType, PLeaf (type_from t)); (Reversed, PLeaf (boolean (bool_decide (order = bs "desc")))); (Frozen, PLeaf (boolean (cm_is_frozen c)))]
              end
          end
      end
  end.

Definition php_scylladb_create_table (schema : option nat) (s : nat) (k : KeyspaceMetadata) (t : TableMetadata) : M nat :=
  create [(Name, PLeaf (text (tm_name (tm_base t))))] schema s (MTable k t).
Definition php_scylladb_create_materialized_view (schema : option nat) (s : nat) (k : KeyspaceMetadata) (v : ViewMetadata) : M nat :=
  create [(Name, PLeaf (text (view_name v)))] schema s (MView k v).
Definition php_scylladb_create_index (schema : option nat) (s : nat) (i : IndexMetadata) : M nat :=
  create [(Name, PLeaf (text (im_name i)))] schema s (MIndex i).
Definition php_scylladb_create_function (schema : option nat) (s : nat) (f : FunctionMetadata) : M nat :=
  create [(Signature, PLeaf (text (fm_name f)))] schema s (MFunction f).
Definition php_scylladb_create_aggregate (schema : option nat) (s : nat) (a : AggregateMetadata) : M nat :=
  create [(Signature, PLeaf (text (am_name a)))] schema s (MAggregate a).

(** The pointers of the structs, with the schema object. *)
Definition self_schema (h : nat) : M (nat * SchemaSnapshot) :=
  o <~ fetch h; p <~ deref o; match p with (s, MSchema m) => ret (s, m) | _ => fail WrongClass end.
Definition self_keyspace (h : nat) : M (option nat * nat * KeyspaceMetadata) :=
  o <~ fetch h; p <~ deref o; match p with (s, MKeyspace k) => ret (o_schema o, s, k) | _ => fail WrongClass end.
Definition self_table (h : nat) : M (option nat * nat * KeyspaceMetadata * TableMetadata) :=
  o <~ fetch h; p <~ deref o; match p with (s, MTable k t) => ret (o_schema o, s, k, t) | _ => fail WrongClass end.
Definition self_view (h : nat) : M (option nat * nat * KeyspaceMetadata * ViewMetadata) :=
  o <~ fetch h; p <~ deref o; match p with (s, MView k v) => ret (o_schema o, s, k, v) | _ => fail WrongClass end.
Definition self_column (h : nat) : M ColumnMetadata :=
  o <~ fetch h; p <~ deref o; match p with (_, MColumn c) => ret c | _ => fail WrongClass end.
Definition self_index (h : nat) : M IndexMetadata :=
  o <~ fetch h; p <~ deref o; match p with (_, MIndex i) => ret i | _ => fail WrongClass end.
Definition self_function (h : nat) : M FunctionMetadata :=
  o <~ fetch h; p <~ deref o; match p with (_, MFunction f) => ret f | _ => fail WrongClass end.
Definition self_aggregate (h : nat) : M (option nat * nat * AggregateMetadata) :=
  o <~ fetch h; p <~ deref o; match p with (s, MAggregate a) => ret (o_schema o, s, a) | _ => fail WrongClass end.

(** What a slot holds, without a pointer. *)
Definition slot_value (h : nat) (s : slot) (d : leaf) : M pval := o <~ fetch h; ret (default (PLeaf d) (slot_get s o)).

(** *** DefaultSchema *)

Definition DefaultSchema_keyspace (name : bytes) (h : nat) : M pval :=
  p <~ self_schema h;
  match get_keyspace name (snd p) with
  | None => leaf_ret (LValue ZFalse)
  | Some k => x <~ create [] (Some h) (fst p) (MKeyspace k); leaf_ret (LObject x)
  end.

(** The loop of [keyspaces]; [None]: it is left with the iterator. *)
Fixpoint each_keyspace (h s : nat) (l : list KeyspaceMetadata) (a : entries) : M (option entries) :=
  match l with
  | [] => ret (Some a)
  | k :: l =>
      name <~ match get_field (bs "keyspace_name") (km_fields k) with None => ret None | Some f => field_string f end;
      match name with
      | None => throw;; ret None
      | Some name => x <~ create [] (Some h) s (MKeyspace k); each_keyspace h s l (add_assoc name (LObject x) a)
      end
  end.

Definition DefaultSchema_keyspaces (h : nat) : M pval :=
  p <~ self_schema h;
  new_iterator;;
  a <~ each_keyspace h (fst p) (map snd (sm_keyspaces (snd p))) [];
  match a with
  | None => leaf_ret LUndef
  | Some a => free_iterator;; ret (PArray a)
  end.

Definition DefaultSchema_version (h : nat) : M pval := p <~ self_schema h; leaf_ret (LValue (ZLong (sm_version (snd p)))).

(** *** DefaultKeyspace *)

Inductive keyspace_getter := KsName | ReplicationClassName | ReplicationOptions | HasDurableWrites.
Definition keyspace_field (g : keyspace_getter) : bytes :=
  match g with KsName => bs "keyspace_name" | ReplicationClassName => bs "strategy_class" | ReplicationOptions => bs "strategy_options" | HasDurableWrites => bs "durable_writes" end.
Definition DefaultKeyspace_getter (g : keyspace_getter) (h : nat) : M pval :=
  p <~ self_keyspace h; let '(_, _, k) := p in get_meta_field (km_fields k) (keyspace_field g).

Definition DefaultKeyspace_table (name : bytes) (h : nat) : M pval :=
  p <~ self_keyspace h;
  let '(schema, s, k) := p in
  match get_table name k with
  | None => leaf_ret (LValue ZFalse)
  | Some t => x <~ php_scylladb_create_table schema s k t; leaf_ret (LObject x)
  end.

Definition DefaultKeyspace_tables (h : nat) : M pval :=
  p <~ self_keyspace h;
  let '(schema, s, k) := p in
  new_iterator;;
  a <~ each (fun t a => x <~ php_scylladb_create_table schema s k t; ret (add_assoc (tm_name (tm_base t)) (LObject x) a)) (map snd (km_tables k)) [];
  free_iterator;; ret (PArray a).

Definition DefaultKeyspace_userType (name : bytes) (h : nat) : M pval :=
  p <~ self_keyspace h;
  let '(_, _, k) := p in
  match get_user_type name k with None => leaf_ret LUndef | Some t => leaf_ret (type_from t) end.

(** [cass_data_type_type_name] of a user type. *)
Definition type_name_of (t : CassDataType) : bytes := match t with DUser _ n _ => n | _ => [] end.

Definition DefaultKeyspace_userTypes (h : nat) : M pval :=
  p <~ self_keyspace h;
  let '(_, _, k) := p in
  new_iterator;;
  a <~ each (fun t a => ret (add_assoc (type_name_of t) (type_from t) a)) (map snd (km_user_types k)) [];
  free_iterator;; ret (PArray a).

Definition DefaultKeyspace_materializedView (name : bytes) (h : nat) : M pval :=
  p <~ self_keyspace h;
  let '(schema, s, k) := p in
  match get_view name k with
  | None => leaf_ret (LValue ZFalse)
  | Some v => x <~ php_scylladb_create_materialized_view schema s k v; leaf_ret (LObject x)
  end.

Definition DefaultKeyspace_materializedViews (h : nat) : M pval :=
  p <~ self_keyspace h;
  let '(schema, s, k) := p in
  new_iterator;;
  a <~ each (fun v a => x <~ php_scylladb_create_materialized_view schema s k v; ret (add_assoc (view_name v) (LObject x) a)) (map snd (km_views k)) [];
  free_iterator;; ret (PArray a).

(** [php_scylladb_arguments_string]: an argument is a text, the text of a type, or neither. *)
Fixpoint php_scylladb_arguments_string (l : list (option bytes)) : option bytes :=
  match l with
  | [] => Some []
  | [a] => a
  | a :: l => match a, php_scylladb_arguments_string l with Some a, Some r => Some (a ++ 44 :: r) | _, _ => None end
  end.

(** [PHP_SCYLLADB_THROW_NO_LEGACY_SCHEMA_META] in a build without the legacy classes. *)
Definition needs_legacy (m : M pval) : M pval := if legacy then m else throw;; leaf_ret LUndef.

Definition DefaultKeyspace_function (name : bytes) (args : list (option bytes)) (h : nat) : M pval := needs_legacy (
  o <~ fetch h;
  match php_scylladb_arguments_string args with
  | None => throw;; leaf_ret LUndef
  | Some arguments =>
      p <~ self_keyspace h;
      let '(schema, s, k) := p in
      match get_function (append_arguments name arguments) k with
      | None => leaf_ret (LValue ZFalse)
      | Some f => x <~ php_scylladb_create_function schema s f; leaf_ret (LObject x)
      end
  end).

Definition DefaultKeyspace_functions (h : nat) : M pval := needs_legacy (
  p <~ self_keyspace h;
  let '(schema, s, k) := p in
  new_iterator;;
  a <~ each (fun f a => x <~ php_scylladb_create_function schema s f; ret (add_assoc (fm_name f) (LObject x) a)) (map snd (km_functions k)) [];
  free_iterator;; ret (PArray a)).

Definition DefaultKeyspace_aggregate (name : bytes) (args : list (option bytes)) (h : nat) : M pval := needs_legacy (
  o <~ fetch h;
  match php_scylladb_arguments_string args with
  | None => throw;; leaf_ret LUndef
  | Some arguments =>
      p <~ self_keyspace h;
      let '(schema, s, k) := p in
      match get_aggregate (append_arguments name arguments) k with
      | None => leaf_ret (LValue ZFalse)
      | Some f => x <~ php_scylladb_create_aggregate schema s f; leaf_ret (LObject x)
      end
  end).

Definition DefaultKeyspace_aggregates (h : nat) : M pval := needs_legacy (
  p <~ self_keyspace h;
  let '(schema, s, k) := p in
  new_iterator;;
  a <~ each (fun f a => x <~ php_scylladb_create_aggregate schema s f; ret (add_assoc (am_name f) (LObject x) a)) (map snd (km_aggregates k)) [];
  free_iterator;; ret (PArray a)).

(** *** Tables and views *)

(** The fields that end the loop of [php_scylladb_table_build_options]. *)
Definition ends_options (name : bytes) : bool := bool_decide (name = bs "keyspace_name") || bool_decide (name = bs "table_name") || bool_decide (name = bs "columnfamily_name").

Fixpoint php_scylladb_table_build_options (fields : std_map field) (a : entries) : M entries :=
  match fields with
  | [] => ret a
  | (name, f) :: fields =>
      if ends_options name then ret a
      else
        match f with
        | None => php_scylladb_table_build_options fields a
        | Some (t, v) =>
            match php_scylladb_value zend_hash depth have_custom_type t v with
            | Success z [] => php_scylladb_table_build_options fields (add_assoc name (LValue z) a)
            | Success z _ => throw;; php_scylladb_table_build_options fields (add_assoc name (LValue z) a)
            | Failure _ | Destroyed _ => throw;; php_scylladb_table_build_options fields a
            | Crash => fail BadValue
            end
        end
  end.

(** The two classes have the same methods over their own structs: [self] reads the pointer. *)
Section relation.
Context (self : nat -> M (option nat * nat * TableMetadataBase)).

Definition build_options (h : nat) : M (option pval) :=
  p <~ self h;
  new_iterator;;
  a <~ php_scylladb_table_build_options (tm_fields (snd p)) [];
  free_iterator;; ret (Some (PArray a)).

Definition relation_options (h : nat) : M pval := cached h Options (build_options h).

(** [option] and [php_scylladb_table_get_option] *)
Definition relation_option (name : bytes) (h : nat) : M pval :=
  v <~ relation_options h;
  match v with
  | PArray a => leaf_ret (default (LValue ZFalse) (array_find name a))
  | PLeaf _ => fail BadValue
  end.

Definition relation_column (name : bytes) (h : nat) : M pval :=
  p <~ self h;
  let '(schema, s, t) := p in
  match get_column name t with
  | None => leaf_ret (LValue ZFalse)
  | Some c => x <~ php_scylladb_create_column schema s c; leaf_ret (match x with Some x => LObject x | None => LUndef end)
  end.

Definition relation_columns (h : nat) : M pval :=
  p <~ self h;
  let '(schema, s, t) := p in
  new_iterator;;
  a <~ each (fun c a =>
         match c with
         | None => fail NullMetadata
         | Some c => x <~ php_scylladb_create_column schema s c; ret (match x with Some x => add_assoc (cm_name c) (LObject x) a | None => a end)
         end) (tm_columns t) [];
  free_iterator;; ret (PArray a).

(** [populate_partition_key], [populate_clustering_key] *)
Definition populate (schema : option nat) (s : nat) (key : list (option ColumnMetadata)) (a : entries) : M entries :=
  each (fun c a =>
    match c with
    | None => ret a
    | Some c => x <~ php_scylladb_create_column schema s c; ret (match x with Some x => add_next_index (LObject x) a | None => a end)
    end) key a.

Definition populate_partition_key (h : nat) (a : entries) : M entries :=
  p <~ self h; let '(schema, s, t) := p in populate schema s (tm_partition_key t) a.
Definition populate_clustering_key (h : nat) (a : entries) : M entries :=
  p <~ self h; let '(schema, s, t) := p in populate schema s (tm_clustering_key t) a.

Definition relation_partitionKey (h : nat) : M pval := cached h PartitionKey (a <~ populate_partition_key h []; ret (Some (PArray a))).
Definition relation_primaryKey (h : nat) : M pval := cached h PrimaryKey (a <~ populate_partition_key h []; a <~ populate_clustering_key h a; ret (Some (PArray a))).
Definition relation_clusteringKey (h : nat) : M pval := cached h ClusteringKey (a <~ populate_clustering_key h []; ret (Some (PArray a))).

Definition order_text (o : CassClusteringOrder) : bytes := match o with ORDER_ASC => bs "asc" | ORDER_DESC => bs "desc" | ORDER_NONE => bs "none" end.

Definition relation_clusteringOrder (h : nat) : M pval :=
  cached h ClusteringOrder (
    p <~ self h;
    let t := snd p in
    ret (Some (PArray (fold_left (fun a i => add_next_index (text (order_text (default ORDER_NONE (tm_clustering_key_order t !! i)))) a) (seq 0 (length (tm_clustering_key t))) [])))).
End relation.

Definition table_self (h : nat) : M (option nat * nat * TableMetadataBase) := p <~ self_table h; let '(schema, s, _, t) := p in ret (schema, s, tm_base t).
Definition view_self (h : nat) : M (option nat * nat * TableMetadataBase) := p <~ self_view h; let '(schema, s, _, v) := p in ret (schema, s, vm_base v).

(** The methods that return an option. *)
Inductive option_getter :=
| Comment | ReadRepairChance | LocalReadRepairChance | GcGraceSeconds | Caching | BloomFilterFPChance | MemtableFlushPeriodMs | DefaultTTL | SpeculativeRetry
| IndexInterval | CompactionStrategyClassName | CompactionStrategyOptions | CompressionParameters | PopulateIOCacheOnFlush | ReplicateOnWrite | MaxIndexInterval | MinIndexInterval.
Definition option_name (g : option_getter) : bytes :=
  match g with
  | Comment => bs "comment" | ReadRepairChance => bs "read_repair_chance" | LocalReadRepairChance => bs "local_read_repair_chance"
  | GcGraceSeconds => bs "gc_grace_seconds" | Caching => bs "caching" | BloomFilterFPChance => bs "bloom_filter_fp_chance"
  | MemtableFlushPeriodMs => bs "memtable_flush_period_in_ms" | DefaultTTL => bs "default_time_to_live" | SpeculativeRetry => bs "speculative_retry"
  | IndexInterval => bs "index_interval" | CompactionStrategyClassName => bs "compaction_strategy_class"
  | CompactionStrategyOptions => bs "compaction_strategy_options" | CompressionParameters => bs "compression_parameters"
  | PopulateIOCacheOnFlush => bs "populate_io_cache_on_flush" | ReplicateOnWrite => bs "replicate_on_write"
  | MaxIndexInterval => bs "max_index_interval" | MinIndexInterval => bs "min_index_interval"
  end.

Definition DefaultTable_name (h : nat) : M pval := slot_value h Name LUndef.
Definition DefaultTable_options : nat -> M pval := relation_options table_self.
Definition DefaultTable_option : bytes -> nat -> M pval := relation_option table_self.
Definition DefaultTable_getter (g : option_getter) : nat -> M pval := relation_option table_self (option_name g).
Definition DefaultTable_column : bytes -> nat -> M pval := relation_column table_self.
Definition DefaultTable_columns : nat -> M pval := relation_columns table_self.
Definition DefaultTable_partitionKey : nat -> M pval := relation_partitionKey table_self.
Definition DefaultTable_primaryKey : nat -> M pval := relation_primaryKey table_self.
Definition DefaultTable_clusteringKey : nat -> M pval := relation_clusteringKey table_self.
Definition DefaultTable_clusteringOrder : nat -> M pval := relation_clusteringOrder table_self.

Definition DefaultTable_index (name : bytes) (h : nat) : M pval := needs_legacy (
  p <~ self_table h;
  let '(schema, s, _, t) := p in
  match get_index name t with
  | None => leaf_ret (LValue ZFalse)
  | Some i => x <~ php_scylladb_create_index schema s i; leaf_ret (LObject x)
  end).

Definition DefaultTable_indexes (h : nat) : M pval := needs_legacy (
  p <~ self_table h;
  let '(schema, s, _, t) := p in
  new_iterator;;
  a <~ each (fun i a => x <~ php_scylladb_create_index schema s i; ret (add_assoc (im_name i) (LObject x) a)) (tm_indexes t) [];
  free_iterator;; ret (PArray a)).

Definition DefaultTable_materializedView (name : bytes) (h : nat) : M pval :=
  p <~ self_table h;
  let '(schema, s, k, t) := p in
  match table_get_view name t with
  | None => leaf_ret (LValue ZFalse)
  | Some v => x <~ php_scylladb_create_materialized_view schema s k v; leaf_ret (LObject x)
  end.

Definition DefaultTable_materializedViews (h : nat) : M pval :=
  p <~ self_table h;
  let '(schema, s, k, t) := p in
  new_iterator;;
  a <~ each (fun v a => x <~ php_scylladb_create_materialized_view schema s k v; ret (add_assoc (view_name v) (LObject x) a)) (tm_views t) [];
  free_iterator;; ret (PArray a).

Definition DefaultMaterializedView_name (h : nat) : M pval := slot_value h Name LUndef.
Definition DefaultMaterializedView_options : nat -> M pval := relation_options view_self.
Definition DefaultMaterializedView_option : bytes -> nat -> M pval := relation_option view_self.
Definition DefaultMaterializedView_getter (g : option_getter) : nat -> M pval := relation_option view_self (option_name g).
Definition DefaultMaterializedView_column : bytes -> nat -> M pval := relation_column view_self.
Definition DefaultMaterializedView_columns : nat -> M pval := relation_columns view_self.
Definition DefaultMaterializedView_partitionKey : nat -> M pval := relation_partitionKey view_self.
Definition DefaultMaterializedView_primaryKey : nat -> M pval := relation_primaryKey view_self.
Definition DefaultMaterializedView_clusteringKey : nat -> M pval := relation_clusteringKey view_self.
Definition DefaultMaterializedView_clusteringOrder : nat -> M pval := relation_clusteringOrder view_self.

Definition DefaultMaterializedView_baseTable (h : nat) : M pval :=
  cached h BaseTable (
    p <~ self_view h;
    let '(schema, s, k, v) := p in
    match base_table k v with
    | None => ret None
    | Some t => x <~ php_scylladb_create_table schema s k t; ret (Some (PLeaf (LObject x)))
    end).

(** *** Columns *)

Definition DefaultColumn_name (h : nat) : M pval := slot_value h Name LUndef.
Definition DefaultColumn_type (h : nat) : M pval := slot_value h ColType (LValue ZNull).
Definition DefaultColumn_isReversed (h : nat) : M pval := slot_value h Reversed (boolean false).
Definition DefaultColumn_isFrozen (h : nat) : M pval := slot_value h Frozen (boolean false).
Definition DefaultColumn_isStatic (h : nat) : M pval := c <~ self_column h; leaf_ret (boolean (is_type STATIC c)).
Definition DefaultColumn_indexName (h : nat) : M pval := c <~ self_column h; get_meta_field (cm_fields c) (bs "index_name").
Definition DefaultColumn_indexOptions (h : nat) : M pval := c <~ self_column h; get_meta_field (cm_fields c) (bs "index_options").

(** *** Indexes *)

Definition DefaultIndex_name (h : nat) : M pval := slot_value h Name LUndef.
Definition DefaultIndex_target (h : nat) : M pval := cached h Target (i <~ self_index h; ret (Some (PLeaf (text (im_target i))))).
Definition DefaultIndex_kind (h : nat) : M pval :=
  cached h Kind (i <~ self_index h; ret (Some (PLeaf (text (match im_type i with INDEX_KEYS => bs "keys" | INDEX_CUSTOM => bs "custom" | INDEX_COMPOSITES => bs "composites" | INDEX_UNKNOWN => bs "unknown" end))))).

(** [php_scylladb_index_build_option]: its iterator is not freed, and is null when the options are not a map. *)
Definition php_scylladb_index_build_option (h : nat) : M (option pval) :=
  i <~ self_index h;
  match im_options i with
  | None => fail NullMetadata
  | Some l =>
      new_iterator;;
      ret (Some (PArray (fold_left (fun a x => match x with (Some k, Some v) => add_assoc k (text v) a | _ => a end) l [])))
  end.

Definition DefaultIndex_options (h : nat) : M pval := cached h Options (php_scylladb_index_build_option h).
Definition DefaultIndex_option (name : bytes) (h : nat) : M pval :=
  v <~ DefaultIndex_options h; match v with PArray a => leaf_ret (default (LValue ZFalse) (array_find name a)) | PLeaf _ => fail BadValue end.
Definition DefaultIndex_className : nat -> M pval := DefaultIndex_option (bs "class_name").
Definition DefaultIndex_isCustom (h : nat) : M pval :=
  v <~ DefaultIndex_options h; match v with PArray a => leaf_ret (boolean (bool_decide (is_Some (array_find (bs "class_name") a)))) | PLeaf _ => fail BadValue end.

(** *** Functions and aggregates *)

(** A type that is undefined leaves the slot undefined. *)
Definition defined_type (t : CassDataType) : option pval := match type_from t with LUndef => None | l => Some (PLeaf l) end.

Definition DefaultFunction_name (h : nat) : M pval := slot_value h Signature LUndef.
Definition DefaultFunction_simpleName (h : nat) : M pval := cached h SimpleName (f <~ self_function h; ret (Some (PLeaf (text (fm_simple_name f))))).
Definition DefaultFunction_arguments (h : nat) : M pval :=
  cached h Arguments (
    f <~ self_function h;
    a <~ each (fun x a => match snd x with
                          | None => fail NullType
                          | Some t => ret (match type_from t with LUndef => a | l => add_assoc (fst x) l a end)
                          end) (fm_args f) [];
    ret (Some (PArray a))).
Definition DefaultFunction_returnType (h : nat) : M pval := cached h ReturnType (f <~ self_function h; ret (fm_return_type f ≫= defined_type)).
Definition DefaultFunction_language (h : nat) : M pval := cached h Language (f <~ self_function h; ret (Some (PLeaf (text (fm_language f))))).
Definition DefaultFunction_body (h : nat) : M pval := cached h Body (f <~ self_function h; ret (Some (PLeaf (text (fm_body f))))).
Definition DefaultFunction_isCalledOnNullInput (h : nat) : M pval := f <~ self_function h; leaf_ret (boolean (fm_called_on_null_input f)).

Definition DefaultAggregate_name (h : nat) : M pval := slot_value h Signature LUndef.
Definition DefaultAggregate_simpleName (h : nat) : M pval := cached h SimpleName (p <~ self_aggregate h; ret (Some (PLeaf (text (am_simple_name (snd p)))))).
Definition DefaultAggregate_argumentTypes (h : nat) : M pval :=
  cached h ArgumentTypes (
    p <~ self_aggregate h;
    ret (Some (PArray (fold_left (fun a t => match t ≫= (fun t => match type_from t with LUndef => None | l => Some l end) with Some l => add_next_index l a | None => a end) (am_arg_types (snd p)) [])))).
Definition aggregate_function (which : AggregateMetadata -> option FunctionMetadata) (h : nat) : M (option pval) :=
  p <~ self_aggregate h;
  let '(schema, s, a) := p in
  match which a with
  | None => ret None
  | Some f => x <~ php_scylladb_create_function schema s f; ret (Some (PLeaf (LObject x)))
  end.
Definition DefaultAggregate_stateFunction (h : nat) : M pval := cached h StateFunction (aggregate_function am_state_func h).
Definition DefaultAggregate_finalFunction (h : nat) : M pval := cached h FinalFunction (aggregate_function am_final_func h).
Definition DefaultAggregate_initialCondition (h : nat) : M pval :=
  cached h InitialCondition (
    p <~ self_aggregate h;
    match am_init_cond (snd p) with
    | None => ret None
    | Some (t, v) =>
        match php_scylladb_value zend_hash depth have_custom_type t v with
        | Success z [] => ret (Some (PLeaf (LValue z)))
        | Success z _ => throw;; ret (Some (PLeaf (LValue z)))
        | Destroyed _ => throw;; ret None
        | Failure _ | Crash => fail BadValue
        end
    end).
Definition DefaultAggregate_stateType (h : nat) : M pval := cached h StateType (p <~ self_aggregate h; ret (am_state_type (snd p) ≫= defined_type)).
Definition DefaultAggregate_returnType (h : nat) : M pval := cached h ReturnType (p <~ self_aggregate h; ret (am_return_type (snd p) ≫= defined_type)).

(** ** PHP code *)

Inductive method :=
| SKeyspace (name : bytes) | SKeyspaces | SVersion
| KGetter (g : keyspace_getter) | KTable (name : bytes) | KTables | KUserType (name : bytes) | KUserTypes | KView (name : bytes) | KViews
| KFunction (name : bytes) (args : list (option bytes)) | KFunctions | KAggregate (name : bytes) (args : list (option bytes)) | KAggregates
| TName | TOptions | TOption (name : bytes) | TGetter (g : option_getter) | TColumn (name : bytes) | TColumns | TPartitionKey | TPrimaryKey | TClusteringKey | TClusteringOrder
| TIndex (name : bytes) | TIndexes | TView (name : bytes) | TViews
| VName | VOptions | VOption (name : bytes) | VGetter (g : option_getter) | VColumn (name : bytes) | VColumns | VPartitionKey | VPrimaryKey | VClusteringKey | VClusteringOrder | VBaseTable
| CName | CType | CIsReversed | CIsStatic | CIsFrozen | CIndexName | CIndexOptions
| IName | ITarget | IKind | IOptions | IOption (name : bytes) | IClassName | IIsCustom
| FName | FSimpleName | FArguments | FReturnType | FLanguage | FBody | FIsCalledOnNullInput
| AName | ASimpleName | AArgumentTypes | AStateFunction | AFinalFunction | AInitialCondition | AStateType | AReturnType.

Definition method_class (m : method) : class :=
  match m with
  | SKeyspace _ | SKeyspaces | SVersion => CSchema
  | KGetter _ | KTable _ | KTables | KUserType _ | KUserTypes | KView _ | KViews | KFunction _ _ | KFunctions | KAggregate _ _ | KAggregates => CKeyspace
  | TName | TOptions | TOption _ | TGetter _ | TColumn _ | TColumns | TPartitionKey | TPrimaryKey | TClusteringKey | TClusteringOrder | TIndex _ | TIndexes | TView _ | TViews => CTable
  | VName | VOptions | VOption _ | VGetter _ | VColumn _ | VColumns | VPartitionKey | VPrimaryKey | VClusteringKey | VClusteringOrder | VBaseTable => CView
  | CName | CType | CIsReversed | CIsStatic | CIsFrozen | CIndexName | CIndexOptions => CColumn
  | IName | ITarget | IKind | IOptions | IOption _ | IClassName | IIsCustom => CIndex
  | FName | FSimpleName | FArguments | FReturnType | FLanguage | FBody | FIsCalledOnNullInput => CFunction
  | AName | ASimpleName | AArgumentTypes | AStateFunction | AFinalFunction | AInitialCondition | AStateType | AReturnType => CAggregate
  end.

Definition invoke (m : method) : nat -> M pval :=
  match m with
  | SKeyspace n => DefaultSchema_keyspace n | SKeyspaces => DefaultSchema_keyspaces | SVersion => DefaultSchema_version
  | KGetter g => DefaultKeyspace_getter g | KTable n => DefaultKeyspace_table n | KTables => DefaultKeyspace_tables
  | KUserType n => DefaultKeyspace_userType n | KUserTypes => DefaultKeyspace_userTypes
  | KView n => DefaultKeyspace_materializedView n | KViews => DefaultKeyspace_materializedViews
  | KFunction n args => DefaultKeyspace_function n args | KFunctions => DefaultKeyspace_functions
  | KAggregate n args => DefaultKeyspace_aggregate n args | KAggregates => DefaultKeyspace_aggregates
  | TName => DefaultTable_name | TOptions => DefaultTable_options | TOption n => DefaultTable_option n | TGetter g => DefaultTable_getter g
  | TColumn n => DefaultTable_column n | TColumns => DefaultTable_columns | TPartitionKey => DefaultTable_partitionKey | TPrimaryKey => DefaultTable_primaryKey
  | TClusteringKey => DefaultTable_clusteringKey | TClusteringOrder => DefaultTable_clusteringOrder | TIndex n => DefaultTable_index n | TIndexes => DefaultTable_indexes
  | TView n => DefaultTable_materializedView n | TViews => DefaultTable_materializedViews
  | VName => DefaultMaterializedView_name | VOptions => DefaultMaterializedView_options | VOption n => DefaultMaterializedView_option n
  | VGetter g => DefaultMaterializedView_getter g | VColumn n => DefaultMaterializedView_column n | VColumns => DefaultMaterializedView_columns
  | VPartitionKey => DefaultMaterializedView_partitionKey | VPrimaryKey => DefaultMaterializedView_primaryKey | VClusteringKey => DefaultMaterializedView_clusteringKey
  | VClusteringOrder => DefaultMaterializedView_clusteringOrder | VBaseTable => DefaultMaterializedView_baseTable
  | CName => DefaultColumn_name | CType => DefaultColumn_type | CIsReversed => DefaultColumn_isReversed | CIsStatic => DefaultColumn_isStatic
  | CIsFrozen => DefaultColumn_isFrozen | CIndexName => DefaultColumn_indexName | CIndexOptions => DefaultColumn_indexOptions
  | IName => DefaultIndex_name | ITarget => DefaultIndex_target | IKind => DefaultIndex_kind | IOptions => DefaultIndex_options | IOption n => DefaultIndex_option n
  | IClassName => DefaultIndex_className | IIsCustom => DefaultIndex_isCustom
  | FName => DefaultFunction_name | FSimpleName => DefaultFunction_simpleName | FArguments => DefaultFunction_arguments | FReturnType => DefaultFunction_returnType
  | FLanguage => DefaultFunction_language | FBody => DefaultFunction_body | FIsCalledOnNullInput => DefaultFunction_isCalledOnNullInput
  | AName => DefaultAggregate_name | ASimpleName => DefaultAggregate_simpleName | AArgumentTypes => DefaultAggregate_argumentTypes
  | AStateFunction => DefaultAggregate_stateFunction | AFinalFunction => DefaultAggregate_finalFunction | AInitialCondition => DefaultAggregate_initialCondition
  | AStateType => DefaultAggregate_stateType | AReturnType => DefaultAggregate_returnType
  end.

Definition leaf_handles (l : leaf) : list nat := match l with LObject h => [h] | _ => [] end.
Definition handles (v : pval) : list nat := match v with PLeaf l => leaf_handles l | PArray a => a ≫= (fun x => leaf_handles (snd x)) end.

(** What an object refers to. *)
Definition references (o : object) : list nat := option_list (o_schema o) ++ (o_slots o ≫= (fun x => handles (snd x))).

(** Whether anything refers to an object. *)
Definition referenced (w : world) (h : nat) : bool :=
  bool_decide (h ∈ held w) || existsb (fun x => bool_decide (h ∈ references (snd x))) (map_to_list (objects w)).

(** [DefaultSession::schema] *)
Definition DefaultSession_schema (m : SchemaSnapshot) : M nat := fun w =>
  let s := fresh (dom (snapshots w)) in
  create [] None s (MSchema m) (set_snapshots (<[s := m]> (snapshots w)) w).

(** The free handlers: that of the schema frees the snapshot; the references of the struct go with it. *)
Definition free_metadata (h : nat) : M unit :=
  o <~ fetch h;
  (match o_class o, o_meta o with
   | CSchema, Some (s, _) => fun w => match snapshots w !! s with Some _ => inr (tt, set_snapshots (delete s (snapshots w)) w) | None => inl Freed end
   | _, _ => ret tt
   end);;
  (fun w => inr (tt, set_objects (delete h (objects w)) w)).

(** The session's schema; an object of a class; a method of an object PHP code has; a reference more or less; the engine frees. *)
Inductive action := Schema (m : SchemaSnapshot) | New (c : class) | Call (h : nat) (m : method) | Copy (h : nat) | Drop (h : nat) | Free (h : nat).

Definition hold (l : list nat) : M unit := fun w => inr (tt, set_held (l ++ held w) w).
Definition drop_one (h : nat) (l : list nat) : list nat := match list_find (eq h) l with Some (i, _) => delete i l | None => l end.

Definition act (a : action) : M unit := fun w =>
  match a with
  | Schema m => (h <~ DefaultSession_schema m; hold [h]) w
  | New c =>
      let h := fresh (dom (objects w)) in
      inr (tt, set_held (h :: held w) (set_objects (<[h := {| o_class := c; o_slots := []; o_schema := None; o_meta := None |}]> (objects w)) w))
  | Call h m =>
      match objects w !! h with
      | Some o => if bool_decide (h ∈ held w) && bool_decide (o_class o = method_class m) then (v <~ invoke m h; hold (handles v)) (set_pending false w) else inr (tt, w)
      | None => inr (tt, w)
      end
  | Copy h => if bool_decide (h ∈ held w) then hold [h] w else inr (tt, w)
  | Drop h => inr (tt, set_held (drop_one h (held w)) w)
  | Free h => if bool_decide (h ∈ dom (objects w)) && negb (referenced w h) then free_metadata h w else inr (tt, w)
  end.

Fixpoint run (l : list action) : M unit := match l with [] => ret tt | a :: l => act a;; run l end.
End metadata.
