(* ===== verification/MetadataFaults.v ===== *)
(** Which calls on the schema's metadata fault, and on which metadata.

    Besides the null pointer of an object PHP code made with [new], a method reads a null pointer when the driver has none for
    what it reads: the type of a null field, a column, the iterator over an index's options, a node of the class name parser.
    [unreadable] names these calls with the exact data; a method faults in no other way. *)
From stdpp Require Import gmap.
From S2P Require Import Prelude NumberParser DriverErrors Types Values Decoder DataTypes ResultDecoder Statements ResultRows ClassNames SchemaMeta Metadata.
#[local] Open Scope Z_scope.

Section faults.
Context {G : Gmp} (zend_hash : bytes -> Z) (depth : nat) (have_custom_type legacy : bool).

Abbreviation value := (php_scylladb_value zend_hash depth have_custom_type).

(** ** The data that makes a method fault *)

(** A field whose bytes are out of its response, and one that is not decoded. *)
Definition unreadable_text (f : field) : Prop := exists t v, f = Some (t, v) /\ value_is_null v = false /\ forall s p, cass_value_get_bytes v <> Success s p.
Definition undecodable (f : field) : Prop := exists t v, f = Some (t, v) /\ value_is_null v = false /\ forall z p, value t v <> Success z p.

Definition holds_text (f : field) (s : bytes) : Prop :=
  match f with None => s = [] | Some (_, v) => value_is_null v = false /\ exists p, cass_value_get_bytes v = Success s p end.

(** [php_scylladb_get_keyspace_field] and [php_scylladb_get_column_field] of a name. *)
Definition field_unreadable (fields : std_map field) (name : bytes) (f : fault) : Prop :=
  match get_field name fields with
  | Some None => f = NullType
  | Some x => f = BadValue /\ undecodable x
  | None => False
  end.

(** A column no object is made for: its class name makes the parser read a null node. *)
Definition unmade (c : ColumnMetadata) (f : fault) : Prop :=
  (f = ParserFault /\ exists x s, get_field (bs "validator") (cm_fields c) = Some x /\ holds_text x s /\ php_scylladb_parse_column_type have_custom_type s = ColumnFault) \/
  (f = BadValue /\ exists name x, get_field name (cm_fields c) = Some x /\ unreadable_text x).

(** The methods tables and views share. *)
Inductive relation_call := ROptions | RColumn (name : bytes) | RColumns | RPartitionKey | RPrimaryKey | RClusteringKey.

Definition relation_call_of (m : method) : option relation_call :=
  match m with
  | TOptions | TOption _ | TGetter _ | VOptions | VOption _ | VGetter _ => Some ROptions
  | TColumn n | VColumn n => Some (RColumn n)
  | TColumns | VColumns => Some RColumns
  | TPartitionKey | VPartitionKey => Some RPartitionKey
  | TPrimaryKey | VPrimaryKey => Some RPrimaryKey
  | TClusteringKey | VClusteringKey => Some RClusteringKey
  | _ => None
  end.

Definition relation_unreadable (t : TableMetadataBase) (r : relation_call) (f : fault) : Prop :=
  match r with
  | ROptions => f = BadValue /\ exists n ty v, (n, Some (ty, v)) ∈ tm_fields t /\ value ty v = Crash
  | RColumn n => exists c, get_column n t = Some c /\ unmade c f
  | RColumns => (f = NullMetadata /\ None ∈ tm_columns t) \/ exists c, Some c ∈ tm_columns t /\ unmade c f
  | RPartitionKey => exists c, Some c ∈ tm_partition_key t /\ unmade c f
  | RPrimaryKey => exists c, (Some c ∈ tm_partition_key t \/ Some c ∈ tm_clustering_key t) /\ unmade c f
  | RClusteringKey => exists c, Some c ∈ tm_clustering_key t /\ unmade c f
  end.

Definition called_relation (t : TableMetadataBase) (m : method) (f : fault) : Prop :=
  match relation_call_of m with Some r => relation_unreadable t r f | None => False end.

(** The method [m] of an object that points to [x] faults with [f]. *)
Definition unreadable (x : meta) (m : method) (f : fault) : Prop :=
  match x, m with
  | MSchema s, SKeyspaces => f = BadValue /\ exists k y, k ∈ map snd (sm_keyspaces s) /\ get_field (bs "keyspace_name") (km_fields k) = Some y /\ unreadable_text y
  | MKeyspace k, KGetter g => field_unreadable (km_fields k) (keyspace_field g) f
  | MTable _ t, m => called_relation (tm_base t) m f
  | MView _ v, m => called_relation (vm_base v) m f
  | MColumn c, CIndexName => field_unreadable (cm_fields c) (bs "index_name") f
  | MColumn c, CIndexOptions => field_unreadable (cm_fields c) (bs "index_options") f
  | MIndex i, (IOptions | IOption _ | IClassName | IIsCustom) => f = NullMetadata /\ im_options i = None
  | MFunction g, FArguments => f = NullType /\ exists name, (name, None) ∈ fm_args g
  | MAggregate a, AInitialCondition => f = BadValue /\ exists t v, am_init_cond a = Some (t, v) /\ match value t v with Failure _ | Crash => True | _ => False end
  | _, _ => False
  end.

(** The faults that are not of the data. *)
Definition object_fault (f : fault) : Prop := f = Freed \/ f = WrongClass \/ f = NullPointer.

(** ** Effects on an object that points to [x] *)

(** The options a table, a view or an index keeps are an array. *)
Definition options_arrays (w : world) : Prop := forall h o v, objects w !! h = Some o -> slot_get Options o = Some v -> exists a, v = PArray a.

Section tame.
Context (h : nat) (x : option meta).

Definition points (w : world) : Prop := exists o, objects w !! h = Some o /\ option_map snd (o_meta o) = x.

Definition tame {A} (m : M A) (Q : A -> Prop) (E : fault -> Prop) : Prop := forall w, options_arrays w -> points w ->
  match m w with inr (a, w') => options_arrays w' /\ points w' /\ Q a | inl f => object_fault f \/ E f end.

Lemma tame_ret {A} (a : A) (Q : A -> Prop) E : Q a -> tame (ret a) Q E.
Proof. by intros H w Ho Hp. Qed.

Lemma tame_fail {A} f (Q : A -> Prop) (E : fault -> Prop) : E f -> tame (fail f) Q E.
Proof. intros H w Ho Hp. by right. Qed.

Lemma tame_bind {A B} (m : M A) (k : A -> M B) R Q E : tame m R E -> (forall a, R a -> tame (k a) Q E) -> tame (bind m k) Q E.
Proof.
  intros Hm Hk w Ho Hp. unfold bind. specialize (Hm w Ho Hp). destruct (m w) as [f|[a w']]; [done|]. destruct Hm as (Ho' & Hp' & Ha). by apply Hk.
Qed.

Lemma tame_weaken {A} (m : M A) (Q Q' : A -> Prop) (E E' : fault -> Prop) : tame m Q E -> (forall a, Q a -> Q' a) -> (forall f, E f -> E' f) -> tame m Q' E'.
Proof. intros H HQ HE w Ho Hp. specialize (H w Ho Hp). destruct (m w) as [f|[a w']]; naive_solver. Qed.

(** Effects that change no object. *)
Lemma tame_effect {A} (m : M A) (Q : A -> Prop) E : (forall w, exists a w', m w = inr (a, w') /\ objects w' = objects w /\ Q a) -> tame m Q E.
Proof. intros H w Ho Hp. destruct (H w) as (a & w' & -> & Hob & Ha). unfold options_arrays, points. rewrite Hob. by split_and!. Qed.

Lemma tame_throw E : tame throw (fun _ => True) E.
Proof. apply tame_effect. intros w. by do 2 eexists. Qed.

Lemma tame_new_iterator E : tame new_iterator (fun _ => True) E.
Proof. apply tame_effect. intros w. by do 2 eexists. Qed.

Lemma tame_free_iterator E : tame free_iterator (fun _ => True) E.
Proof. apply tame_effect. intros w. by do 2 eexists. Qed.

Lemma tame_fetch E : tame (fetch h) (fun o => option_map snd (o_meta o) = x /\ forall v, slot_get Options o = Some v -> exists a, v = PArray a) E.
Proof. intros w Ho (o & Hob & Hm). unfold fetch. rewrite Hob. split; [done|]. split; [by exists o|]. split; [done|]. intros v. by apply (Ho h o). Qed.

Lemma tame_deref o E : option_map snd (o_meta o) = x -> tame (deref o) (fun p => x = Some (snd p)) E.
Proof.
  intros Hm w Ho Hp. unfold deref. destruct (o_meta o) as [[s y]|]; [|left; right; by right]. destruct (snapshots w !! s); [|left; by left]. split; [done|]. split; [done|]. by rewrite <- Hm.
Qed.

Lemma tame_wrong {A} (Q : A -> Prop) E : tame (fail WrongClass) Q E.
Proof. intros w Ho Hp. left. right. by left. Qed.

Lemma tame_create slots schema s y E : slot_get Options {| o_class := meta_class y; o_slots := slots; o_schema := schema; o_meta := Some (s, y) |} = None ->
  tame (create slots schema s y) (fun _ => True) E.
Proof.
  intros Hs w Ho (o & Hob & Hm). unfold create. set (n := fresh (dom (objects w))). assert (objects w !! n = None) as Hn by (apply not_elem_of_dom, is_fresh).
  split; [|split; [exists o; split; [cbn; rewrite lookup_insert_ne; [done|intros E'; by rewrite E', Hob in Hn]|done]|done]].
  intros k o' v. cbn. intros [[<- <-]|[_ Hk]]%lookup_insert_Some; [by rewrite Hs|]. by apply (Ho k).
Qed.

Lemma tame_cached s mk (Q : pval -> Prop) E : (s = Options -> forall v, Q v -> exists a, v = PArray a) ->
  tame mk (fun v => match v with Some v => Q v | None => s <> Options end) E -> tame (cached h s mk) (fun v => s = Options -> exists a, v = PArray a) E.
Proof.
  intros HQ Hm. unfold cached. eapply tame_bind; [apply tame_fetch|]. intros o [_ Ho]. destruct (slot_get s o) as [v|] eqn:Hs; [apply tame_ret; intros ->; by apply Ho|].
  eapply tame_bind; [exact Hm|]. intros [v|] Hv; [|by apply tame_ret]. eapply tame_bind with (R := fun _ => True); [|intros; apply tame_ret; intros E1; by apply HQ].
  intros w Hw (o' & Hob & Hm'). unfold set_slot. rewrite Hob. split; [|split; [eexists; split; [cbn; apply lookup_insert_eq|done]|done]].
  intros k ok v'. cbn. intros [[<- <-]|[_ Hk]]%lookup_insert_Some; [|by apply (Hw k)]. unfold slot_get. cbn. case_bool_decide as Hso; [|by apply (Hw h)].
  intros [= <-]. by apply HQ.
Qed.

Lemma tame_each {A} (f : A -> entries -> M entries) l a E : (forall y a, y ∈ l -> tame (f y a) (fun _ => True) E) -> tame (each f l a) (fun _ => True) E.
Proof.
  revert a. induction l as [|y l IH]; intros a H; cbn [each]; [by apply tame_ret|]. eapply tame_bind; [apply H; by left|]. intros a' _. apply IH. intros z a2 Hz. apply H. by right.
Qed.

(** The pointers of the structs. *)
Lemma tame_self {A} (pick : object -> nat * meta -> M A) (Q : A -> Prop) E :
  (forall o p, x = Some (snd p) -> tame (pick o p) Q E) -> tame (o <~ fetch h; p <~ deref o; pick o p) Q E.
Proof. intros H. eapply tame_bind; [apply tame_fetch|]. intros o [Ho _]. eapply tame_bind; [by apply tame_deref|]. intros p Hp. by apply H. Qed.
End tame.

(** ** Methods *)

Section methods.
Context (h : nat) (x : option meta).

(** The shapes that do not fault by themselves. *)
Ltac walk :=
  repeat first
    [ apply tame_wrong | by apply tame_ret | by apply tame_throw | by apply tame_new_iterator | by apply tame_free_iterator | by apply tame_create
    | apply tame_self; intros ? [? ?]; cbn [snd]
    | eapply tame_bind; [by first [apply tame_throw | apply tame_new_iterator | apply tame_free_iterator | apply tame_create | apply tame_fetch]|]; intros
    | match goal with |- tame _ _ (match ?y with _ => _ end) _ _ => destruct y eqn:? end
    | progress cbn [fst snd] ].

Lemma tame_leaf l E : tame h x (leaf_ret l) (fun _ => True) E.
Proof. by apply tame_ret. Qed.

Lemma tame_returned (m : M nat) E : tame h x m (fun _ => True) E -> tame h x (y <~ m; leaf_ret (LObject y)) (fun _ => True) E.
Proof. intros H. eapply tame_bind; [exact H|]. intros. apply tame_leaf. Qed.

Lemma tame_legacy m E : tame h x m (fun _ => True) E -> tame h x (needs_legacy legacy m) (fun _ => True) E.
Proof. intros H. unfold needs_legacy. destruct legacy; [done|]. walk. Qed.

Lemma tame_listed {A} (f : A -> entries -> M entries) l E : (forall y a, y ∈ l -> tame h x (f y a) (fun _ => True) E) ->
  tame h x (new_iterator;; a <~ each f l []; free_iterator;; ret (PArray a)) (fun _ => True) E.
Proof. intros H. walk. eapply tame_bind; [by apply tame_each|]. intros. walk. Qed.

(** A value that is kept, but not among the options. *)
Lemma tame_kept s mk E : s <> Options -> tame h x mk (fun _ => True) E -> tame h x (cached h s mk) (fun _ => True) E.
Proof.
  intros Hs H. eapply tame_weaken; [eapply (tame_cached _ _ _ _ (fun _ => True)); [done|]|done|done]. eapply tame_weaken; [exact H| |done]. by intros [].
Qed.

Lemma tame_slot s d E : tame h x (slot_value h s d) (fun _ => True) E.
Proof. unfold slot_value. walk. Qed.

Lemma tame_field_string f (E : fault -> Prop) : (unreadable_text f -> E BadValue) -> tame h x (field_string f) (fun s => forall t, s = Some t -> holds_text f t) E.
Proof.
  intros H. unfold field_string. destruct f as [[t v]|]; [|apply tame_ret; by intros ? [= <-]]. destruct (value_is_null v) eqn:Hn; [by apply tame_ret|].
  destruct (cass_value_get_bytes v) eqn:Hb; [apply tame_ret; intros ? [= <-]; split; [done|by eexists]|apply tame_fail, H; exists t, v; by rewrite Hb..].
Qed.

Lemma tame_decode t v (E : fault -> Prop) : ((forall z p, value t v <> Success z p) -> E BadValue) -> tame h x (decode zend_hash depth have_custom_type t v) (fun _ => True) E.
Proof. intros H. unfold decode. destruct (value t v) as [z [|e p]| | |] eqn:Ev; try (by apply tame_fail, H); walk. Qed.

Lemma tame_meta_field fields name : tame h x (get_meta_field zend_hash depth have_custom_type fields name) (fun _ => True) (field_unreadable fields name).
Proof.
  unfold get_meta_field, field_unreadable. destruct (get_field name fields) as [[[t v]|]|]; [|by apply tame_fail|apply tame_leaf].
  destruct (value_is_null v) eqn:Hn; [apply tame_leaf|]. eapply tame_bind; [|intros; apply tame_leaf]. apply tame_decode. intros Hv. split; [done|]. by exists t, v.
Qed.

Lemma tame_create_column schema s c (E : fault -> Prop) : (forall f, unmade c f -> E f) -> tame h x (php_scylladb_create_column have_custom_type schema s c) (fun _ => True) E.
Proof.
  intros H. unfold php_scylladb_create_column. cbn zeta. destruct (get_field (bs "validator") (cm_fields c)) as [f|] eqn:Hf.
  - eapply tame_bind; [apply tame_field_string; intros; apply H; right; split; [done|]; by exists (bs "validator"), f|]. intros [s0|] Hs; [|walk].
    destruct (php_scylladb_parse_column_type have_custom_type s0) as [r fr t [] hp|e hp|] eqn:Hp; [walk..|]. apply tame_fail, H. left. split; [done|]. exists f, s0. split; [done|]. split; [by apply Hs|done].
  - destruct (cm_data_type c) as [t|]; [|walk]. destruct (get_field (bs "clustering_order") (cm_fields c)) as [f|] eqn:Ho; [|walk].
    eapply tame_bind; [apply tame_field_string; intros; apply H; right; split; [done|]; by exists (bs "clustering_order"), f|]. intros [s0|] Hs; walk.
Qed.

Lemma tame_column_added add schema s c a (E : fault -> Prop) : (forall f, unmade c f -> E f) ->
  tame h x (y <~ php_scylladb_create_column have_custom_type schema s c; ret (match y with Some y => add (LObject y) a | None => a end) : M entries) (fun _ => True) E.
Proof. intros H. eapply tame_bind; [by apply tame_create_column|]. intros. walk. Qed.

Lemma tame_populate schema s key a (E : fault -> Prop) : (forall c f, Some c ∈ key -> unmade c f -> E f) -> tame h x (populate have_custom_type schema s key a) (fun _ => True) E.
Proof.
  intros H. apply tame_each. intros [c|] a' Hc; [|walk]. apply (tame_column_added add_next_index). intros f. by apply H.
Qed.

Section relation.
Context (self : nat -> M (option nat * nat * TableMetadataBase)) (base : meta -> option TableMetadataBase).
Context (tame_reads : forall E, tame h x (self h) (fun p => exists y, x = Some y /\ base y = Some (snd p)) E).

Abbreviation faults_as r := (fun f => exists y t, x = Some y /\ base y = Some t /\ relation_unreadable t r f).

Ltac reads := eapply tame_bind; [apply tame_reads|]; intros [[schema s] t] (y & Hx & Hy); cbn [snd] in *.

Lemma tame_build_options fields a (E : fault -> Prop) : (forall n ty v, (n, Some (ty, v)) ∈ fields -> value ty v = Crash -> E BadValue) ->
  tame h x (php_scylladb_table_build_options zend_hash depth have_custom_type fields a) (fun _ => True) E.
Proof.
  revert a. induction fields as [|[n f] fields IH]; intros a H; cbn [php_scylladb_table_build_options]; [walk|]. destruct (ends_options n); [walk|].
  assert (forall a, tame h x (php_scylladb_table_build_options zend_hash depth have_custom_type fields a) (fun _ => True) E) as Next.
  { intros a'. apply IH. intros n' ty v Hin. apply (H n'). by right. }
  destruct f as [[t v]|]; [|apply Next]. destruct (value t v) as [z [|e p]| | |] eqn:Hv; [apply Next|..|apply tame_fail; eapply (H n t v); [by left|done]];
    (eapply tame_bind; [by apply tame_throw|intros; apply Next]).
Qed.

Lemma tame_relation_options : tame h x (relation_options zend_hash depth have_custom_type self h) (fun v => exists a, v = PArray a) (faults_as ROptions).
Proof.
  unfold relation_options. eapply (tame_weaken h x _ _ _ (faults_as ROptions)); [eapply (tame_cached _ _ Options _ (fun v => exists a, v = PArray a)); [done|]|by auto|by auto]. unfold build_options. reads.
  eapply tame_bind; [by apply tame_new_iterator|]. intros _ _. eapply tame_bind; [apply tame_build_options; intros n ty v Hin Hv; exists y, t; do 3 (split; [done|]); by exists n, ty, v|].
  intros a _. eapply tame_bind; [by apply tame_free_iterator|]. intros _ _. apply tame_ret. by exists a.
Qed.

Lemma tame_relation_option name : tame h x (relation_option zend_hash depth have_custom_type self name h) (fun _ => True) (faults_as ROptions).
Proof. unfold relation_option. eapply tame_bind; [exact tame_relation_options|]. intros v [a ->]. apply tame_leaf. Qed.

Lemma tame_relation_column name : tame h x (relation_column have_custom_type self name h) (fun _ => True) (faults_as (RColumn name)).
Proof.
  unfold relation_column. reads. destruct (get_column name t) as [c|] eqn:Hc; [|apply tame_leaf]. eapply tame_bind; [apply tame_create_column; intros f Hf; exists y, t; split_and!; [done..|by exists c]|].
  intros. apply tame_leaf.
Qed.

Lemma tame_relation_columns : tame h x (relation_columns have_custom_type self h) (fun _ => True) (faults_as RColumns).
Proof.
  unfold relation_columns. reads. apply tame_listed. intros [c|] a Hc; [|apply tame_fail; exists y, t; split_and!; [done..|by left]].
  apply (tame_column_added (add_assoc (cm_name c))). intros f Hf. exists y, t. split_and!; [done..|right; by exists c].
Qed.

Lemma tame_partition a (E : fault -> Prop) : (forall y t c f, x = Some y -> base y = Some t -> Some c ∈ tm_partition_key t -> unmade c f -> E f) ->
  tame h x (populate_partition_key have_custom_type self h a) (fun _ => True) E.
Proof. intros H. unfold populate_partition_key. reads. apply tame_populate. intros c f. by apply (H y t). Qed.

Lemma tame_clustering a (E : fault -> Prop) : (forall y t c f, x = Some y -> base y = Some t -> Some c ∈ tm_clustering_key t -> unmade c f -> E f) ->
  tame h x (populate_clustering_key have_custom_type self h a) (fun _ => True) E.
Proof. intros H. unfold populate_clustering_key. reads. apply tame_populate. intros c f. by apply (H y t). Qed.

Lemma tame_relation_keys :
  tame h x (relation_partitionKey have_custom_type self h) (fun _ => True) (faults_as RPartitionKey) /\
  tame h x (relation_primaryKey have_custom_type self h) (fun _ => True) (faults_as RPrimaryKey) /\
  tame h x (relation_clusteringKey have_custom_type self h) (fun _ => True) (faults_as RClusteringKey) /\
  tame h x (relation_clusteringOrder self h) (fun _ => True) (fun _ => False).
Proof.
  split_and!; (apply tame_kept; [done|]).
  - eapply tame_bind; [apply tame_partition; intros y t c f Hx Hy Hc Hf; exists y, t; split_and!; [done..|by exists c]|intros; walk].
  - eapply tame_bind; [apply tame_partition; intros y t c f Hx Hy Hc Hf; exists y, t; split_and!; [done..|exists c; auto]|]. intros a _.
    eapply tame_bind; [apply tame_clustering; intros y t c f Hx Hy Hc Hf; exists y, t; split_and!; [done..|exists c; auto]|intros; walk].
  - eapply tame_bind; [apply tame_clustering; intros y t c f Hx Hy Hc Hf; exists y, t; split_and!; [done..|by exists c]|intros; walk].
  - reads. walk.
Qed.
End relation.

Definition table_base (y : meta) : option TableMetadataBase := match y with MTable _ t => Some (tm_base t) | _ => None end.
Definition view_base (y : meta) : option TableMetadataBase := match y with MView _ v => Some (vm_base v) | _ => None end.

Lemma tame_table_self E : tame h x (table_self h) (fun p => exists y, x = Some y /\ table_base y = Some (snd p)) E.
Proof.
  unfold table_self, self_table. eapply tame_bind with (R := fun p => exists k, x = Some (MTable k (snd p))).
  - apply tame_self. intros o [s y] Hx. cbn [snd] in Hx. destruct y; walk. apply tame_ret. by eexists.
  - intros [[[schema s] k] t] [k' Hx]. apply tame_ret. by exists (MTable k' t).
Qed.

Lemma tame_view_self E : tame h x (view_self h) (fun p => exists y, x = Some y /\ view_base y = Some (snd p)) E.
Proof.
  unfold view_self, self_view. eapply tame_bind with (R := fun p => exists k, x = Some (MView k (snd p))).
  - apply tame_self. intros o [s y] Hx. cbn [snd] in Hx. destruct y; walk. apply tame_ret. by eexists.
  - intros [[[schema s] k] v] [k' Hx]. apply tame_ret. by exists (MView k' v).
Qed.

Lemma tame_self_keyspace E : tame h x (self_keyspace h) (fun p => x = Some (MKeyspace (snd p))) E.
Proof. apply tame_self. intros o [s y] Hx. destruct y; walk. Qed.
Lemma tame_self_schema E : tame h x (self_schema h) (fun p => x = Some (MSchema (snd p))) E.
Proof. apply tame_self. intros o [s y] Hx. destruct y; walk. Qed.
Lemma tame_self_column E : tame h x (self_column h) (fun c => x = Some (MColumn c)) E.
Proof. apply tame_self. intros o [s y] Hx. destruct y; walk. Qed.
Lemma tame_self_index E : tame h x (self_index h) (fun i => x = Some (MIndex i)) E.
Proof. apply tame_self. intros o [s y] Hx. destruct y; walk. Qed.
Lemma tame_self_function E : tame h x (self_function h) (fun f => x = Some (MFunction f)) E.
Proof. apply tame_self. intros o [s y] Hx. destruct y; walk. Qed.
Lemma tame_self_aggregate E : tame h x (self_aggregate h) (fun p => x = Some (MAggregate (snd p))) E.
Proof. apply tame_self. intros o [s y] Hx. destruct y; walk. Qed.

(** [m] faults as [unreadable] says. *)
Abbreviation named m := (fun f => exists y, x = Some y /\ unreadable y m f).
Abbreviation method_tame m := (tame h x (invoke zend_hash depth have_custom_type legacy m h) (fun _ => True) (named m)).

Ltac keyspace := eapply tame_bind; [apply tame_self_keyspace|]; intros [[schema s] k] Hx; cbn [snd] in Hx.
Ltac looked_up := match goal with |- tame _ _ (match ?y with _ => _ end) _ _ => destruct y end; [apply tame_returned; walk|apply tame_leaf].
Ltac listed := apply tame_listed; intros ? ? ?; walk.

Lemma tame_schema_method m : method_class m = CSchema -> method_tame m.
Proof.
  destruct m; intros Hc; try discriminate Hc; cbn [invoke]; (eapply tame_bind; [apply tame_self_schema|]; intros [s sn] Hx; cbn [fst snd] in *); [looked_up| |apply tame_leaf].
  eapply tame_bind; [by apply tame_new_iterator|]. intros _ _. assert (Forall (fun k => k ∈ map snd (sm_keyspaces sn)) (map snd (sm_keyspaces sn))) as Hall by (by apply list.Forall_forall).
  eapply tame_bind with (R := fun _ => True); [|intros [a|] _; [eapply tame_bind; [by apply tame_free_iterator|intros; by apply tame_ret]|apply tame_leaf]].
  generalize ([] : entries). revert Hall. generalize (map snd (sm_keyspaces sn)) at 2 3. induction l as [|k l IH]; intros Hall a; cbn [each_keyspace]; [by apply tame_ret|].
  apply Forall_cons_iff in Hall as [Hk Hall]. eapply tame_bind with (R := fun _ => True).
  { destruct (get_field (bs "keyspace_name") (km_fields k)) as [f|] eqn:Hf; [|by apply tame_ret]. eapply tame_weaken; [apply (tame_field_string f (named SKeyspaces))|done|done].
    intros Hu. exists (MSchema sn). split; [done|]. split; [done|]. by exists k, f. }
  intros [name|] _; [|walk]. eapply tame_bind; [by apply tame_create|]. intros y _. by apply IH.
Qed.

Lemma tame_keyspace_method m : method_class m = CKeyspace -> method_tame m.
Proof.
  destruct m; intros Hc; try discriminate Hc; cbn [invoke]; try apply tame_legacy.
  - unfold DefaultKeyspace_getter. keyspace. eapply tame_weaken; [apply tame_meta_field|done|]. intros f Hf. by exists (MKeyspace k).
  - unfold DefaultKeyspace_table. keyspace. looked_up.
  - unfold DefaultKeyspace_tables. keyspace. listed.
  - unfold DefaultKeyspace_userType. keyspace. destruct (get_user_type name k); apply tame_leaf.
  - unfold DefaultKeyspace_userTypes. keyspace. listed.
  - unfold DefaultKeyspace_materializedView. keyspace. looked_up.
  - unfold DefaultKeyspace_materializedViews. keyspace. listed.
  - eapply tame_bind; [apply tame_fetch|]. intros o _. destruct (php_scylladb_arguments_string args); [|walk]. keyspace. looked_up.
  - keyspace. listed.
  - eapply tame_bind; [apply tame_fetch|]. intros o _. destruct (php_scylladb_arguments_string args); [|walk]. keyspace. looked_up.
  - keyspace. listed.
Qed.

(** A method that reads through [self] faults as its part of [relation_unreadable] says. *)
Lemma tame_relation (m : method) r base {A} (f : M A) (Q : A -> Prop) :
  (forall y t g, base y = Some t -> relation_unreadable t r g -> unreadable y m g) ->
  tame h x f Q (fun g => exists y t, x = Some y /\ base y = Some t /\ relation_unreadable t r g) -> tame h x f Q (named m).
Proof. intros Hm H. eapply tame_weaken; [exact H|done|]. intros g (y & t & Hx & Hy & Hr). exists y. split; [done|]. by apply (Hm y t). Qed.

Lemma tame_any {A} (f : M A) (Q : A -> Prop) m : tame h x f Q (fun _ => False) -> tame h x f Q (named m).
Proof. intros H. by eapply tame_weaken; [exact H|done|]. Qed.

Ltac of_base := let y := fresh in intros y ? ?; destruct y; intros [= <-]; done.
Ltac shared base r H := apply (tame_relation _ r base); [of_base|exact H].

Lemma tame_table_method m : method_class m = CTable -> method_tame m.
Proof.
  pose proof (tame_relation_options table_self table_base tame_table_self) as Ho. pose proof (tame_relation_option table_self table_base tame_table_self) as Hop.
  pose proof (tame_relation_column table_self table_base tame_table_self) as Hc1. pose proof (tame_relation_columns table_self table_base tame_table_self) as Hc2.
  destruct (tame_relation_keys table_self table_base tame_table_self) as (K1 & K2 & K3 & K4).
  assert (forall E, tame h x (self_table h) (fun _ => True) E) as Self by (intros E; apply tame_self; intros o [s y] Hx; destruct y; walk).
  destruct m; intros Hc; try discriminate Hc; cbn [invoke]; try apply tame_legacy.
  - apply tame_slot.
  - apply (tame_relation TOptions ROptions table_base); [of_base|]. eapply tame_weaken; [exact Ho|done|done].
  - shared table_base ROptions (Hop name).
  - shared table_base ROptions (Hop (option_name g)).
  - shared table_base (RColumn name) (Hc1 name).
  - shared table_base RColumns Hc2.
  - shared table_base RPartitionKey K1.
  - shared table_base RPrimaryKey K2.
  - shared table_base RClusteringKey K3.
  - by apply tame_any.
  - eapply tame_bind; [apply Self|]. intros [[[schema s] k] t] _. looked_up.
  - eapply tame_bind; [apply Self|]. intros [[[schema s] k] t] _. listed.
  - eapply tame_bind; [apply Self|]. intros [[[schema s] k] t] _. looked_up.
  - eapply tame_bind; [apply Self|]. intros [[[schema s] k] t] _. listed.
Qed.

Lemma tame_view_method m : method_class m = CView -> method_tame m.
Proof.
  pose proof (tame_relation_options view_self view_base tame_view_self) as Ho. pose proof (tame_relation_option view_self view_base tame_view_self) as Hop.
  pose proof (tame_relation_column view_self view_base tame_view_self) as Hc1. pose proof (tame_relation_columns view_self view_base tame_view_self) as Hc2.
  destruct (tame_relation_keys view_self view_base tame_view_self) as (K1 & K2 & K3 & K4).
  destruct m; intros Hc; try discriminate Hc; cbn [invoke].
  - apply tame_slot.
  - apply (tame_relation VOptions ROptions view_base); [of_base|]. eapply tame_weaken; [exact Ho|done|done].
  - shared view_base ROptions (Hop name).
  - shared view_base ROptions (Hop (option_name g)).
  - shared view_base (RColumn name) (Hc1 name).
  - shared view_base RColumns Hc2.
  - shared view_base RPartitionKey K1.
  - shared view_base RPrimaryKey K2.
  - shared view_base RClusteringKey K3.
  - by apply tame_any.
  - apply tame_kept; [done|]. eapply tame_bind with (R := fun _ => True); [apply tame_self; intros o [s y] Hx; destruct y; walk|]. intros [[[schema s] k] v] _.
    destruct (base_table k v); [|walk]. eapply tame_bind; [by apply tame_create|]. intros. walk.
Qed.

Lemma tame_column_method m : method_class m = CColumn -> method_tame m.
Proof.
  destruct m; intros Hc; try discriminate Hc; cbn [invoke]; try apply tame_slot; (eapply tame_bind; [apply tame_self_column|]; intros c Hx); [apply tame_leaf|..];
    (eapply tame_weaken; [apply tame_meta_field|done|]; intros f Hf; by exists (MColumn c)).
Qed.

Lemma tame_index_options (E : fault -> Prop) : (forall i, x = Some (MIndex i) -> im_options i = None -> E NullMetadata) -> tame h x (DefaultIndex_options h) (fun v => exists a, v = PArray a) E.
Proof.
  intros H. eapply (tame_weaken h x _ (fun v => Options = Options -> exists a, v = PArray a) _ E); [|by auto|done].
  apply (tame_cached _ _ Options _ (fun v => exists a, v = PArray a)); [done|]. eapply tame_bind; [apply tame_self_index|]. intros i Hx.
  destruct (im_options i) as [l|] eqn:Hi; [|by apply tame_fail, (H i)]. eapply tame_bind; [by apply tame_new_iterator|]. intros _ _. apply tame_ret. by eexists.
Qed.

Lemma tame_index_method m : method_class m = CIndex -> method_tame m.
Proof.
  destruct m; intros Hc; try discriminate Hc; cbn [invoke]; [apply tame_slot| | |..].
  1,2: apply tame_kept; [done|]; eapply tame_bind; [apply tame_self_index|]; intros; by apply tame_ret.
  - eapply tame_weaken; [apply (tame_index_options (named IOptions))|done|done]. intros i Hx Hi. by exists (MIndex i).
  - eapply tame_bind; [apply tame_index_options; intros i Hx Hi; by exists (MIndex i)|]. intros v [a ->]. apply tame_leaf.
  - eapply tame_bind; [apply tame_index_options; intros i Hx Hi; by exists (MIndex i)|]. intros v [a ->]. apply tame_leaf.
  - eapply tame_bind; [apply tame_index_options; intros i Hx Hi; by exists (MIndex i)|]. intros v [a ->]. apply tame_leaf.
Qed.

Lemma tame_function_method m : method_class m = CFunction -> method_tame m.
Proof.
  destruct m; intros Hc; try discriminate Hc; cbn [invoke]; [apply tame_slot| | | | | |];
    try (apply tame_kept; [done|]); (eapply tame_bind; [apply tame_self_function|]; intros f Hx); try (by apply tame_ret).
  eapply tame_bind; [apply tame_each; intros [name [t|]] a Hin; cbn [fst snd]; [walk|]|intros; by apply tame_ret].
  apply tame_fail. exists (MFunction f). split; [done|]. split; [done|]. by exists name.
Qed.

Lemma tame_aggregate_method m : method_class m = CAggregate -> method_tame m.
Proof.
  assert (forall which E, tame h x (aggregate_function which h) (fun _ => True) E) as Hf.
  { intros which E. eapply tame_bind; [apply tame_self_aggregate|]. intros [[schema s] a] Hx. destruct (which a); [|walk]. eapply tame_bind; [by apply tame_create|]. intros. walk. }
  destruct m; intros Hc; try discriminate Hc; cbn [invoke]; [apply tame_slot|..]; (apply tame_kept; [done|]); try apply Hf; (eapply tame_bind; [apply tame_self_aggregate|]; intros p Hx); try (by apply tame_ret).
  destruct (am_init_cond (snd p)) as [[t v]|] eqn:Hi; [|walk].
  destruct (value t v) as [z [|e q]| | |] eqn:Hv; try walk; (apply tame_fail; exists (MAggregate (snd p)); split; [done|]; split; [done|]; exists t, v; by rewrite Hv).
Qed.

Lemma tame_invoke m : method_tame m.
Proof.
  destruct (method_class m) eqn:C;
    [by apply tame_schema_method|by apply tame_keyspace_method|by apply tame_table_method|by apply tame_view_method|by apply tame_column_method
    |by apply tame_index_method|by apply tame_function_method|by apply tame_aggregate_method].
Qed.
End methods.

(** ** Runs *)

Abbreviation act := (act zend_hash depth have_custom_type legacy).
Abbreviation run := (run zend_hash depth have_custom_type legacy).

(** The action faults with [f]: a call on data it cannot read. *)
Definition faulting_call (a : action) (w : world) (f : fault) : Prop :=
  exists h m o s y, a = Call h m /\ objects w !! h = Some o /\ o_meta o = Some (s, y) /\ unreadable y m f.

Lemma options_arrays_subset (w w' : world) : options_arrays w -> (forall h o, objects w' !! h = Some o -> objects w !! h = Some o \/ slot_get Options o = None) -> options_arrays w'.
Proof. intros H Hs h o v Ho Hv. destruct (Hs h o Ho) as [?|E]; [by eapply H|by rewrite Hv in E]. Qed.

Lemma options_arrays_insert h o (w w' : world) : options_arrays w -> objects w' = <[h := o]> (objects w) -> slot_get Options o = None -> options_arrays w'.
Proof. intros H E Hs. apply (options_arrays_subset w); [done|]. rewrite E. intros k ok [[<- <-]|[_ Hk]]%lookup_insert_Some; auto. Qed.

Lemma act_faults a w : options_arrays w -> match act a w with inr (_, w') => options_arrays w' | inl f => object_fault f \/ faulting_call a w f end.
Proof.
  intros Ho. destruct a as [sn|c|h m|h|h|h]; cbn [Metadata.act].
  - by eapply options_arrays_insert.
  - by eapply options_arrays_insert.
  - destruct (objects w !! h) as [o|] eqn:Hob; [|done]. destruct (bool_decide (h ∈ held w) && _); [|done].
    pose proof (tame_invoke h (option_map snd (o_meta o)) m (set_pending false w) Ho) as Ht. unfold bind.
    destruct (invoke zend_hash depth have_custom_type legacy m h (set_pending false w)) as [f|[v w']].
    + destruct Ht as [Hf|(y & Hy & Hu)]; [by exists o|by left|]. right. destruct (o_meta o) as [[s y']|] eqn:Hm; [|done]. injection Hy as ->. by exists h, m, o, s, y.
    + destruct Ht as (Ho' & _); [by exists o|]. exact Ho'.
  - by destruct (bool_decide (h ∈ held w)).
  - done.
  - destruct (bool_decide (h ∈ dom (objects w)) && _); [|done]. unfold free_metadata, bind, fetch. destruct (objects w !! h) as [o|]; [|left; by left].
    assert (forall w', objects w' = objects w -> options_arrays (set_objects (delete h (objects w')) w')) as K.
    { intros w' E. apply (options_arrays_subset w); [done|]. cbn. rewrite E. intros k ok [_ Hk]%lookup_delete_Some. by left. }
    destruct (o_class o), (o_meta o) as [[s y]|]; try by apply K. destruct (snapshots w !! s); [by apply K|left; by left].
Qed.

(** A run that faults with the fault of no object stops at a call that [unreadable] names. *)
Lemma run_faults acts w f : options_arrays w -> run acts w = inl f -> object_fault f \/
  exists acts1 a acts2 w', acts = acts1 ++ a :: acts2 /\ run acts1 w = inr (tt, w') /\ act a w' = inl f /\ faulting_call a w' f.
Proof.
  revert w. induction acts as [|a acts IH]; intros w Ho E; [done|]. cbn [Metadata.run] in E. unfold bind in E. pose proof (act_faults a w Ho) as Ha.
  destruct (act a w) as [g|[[] w1]] eqn:Ew.
  - injection E as ->. destruct Ha as [?|Ha]; [by left|right]. exists [], a, acts, w. by split_and!.
  - destruct (IH w1 Ha E) as [?|(acts1 & b & acts2 & w' & -> & Er & Hb)]; [by left|right]. exists (a :: acts1), b, acts2, w'. split; [done|]. split; [|done].
    cbn [Metadata.run]. unfold bind. by rewrite Ew.
Qed.

(** The first action that faults: those in front of it do not. *)
Lemma first_fault acts a acts1 b acts2 w w1 w2 f : run acts w = inr (tt, w1) -> acts ++ [a] = acts1 ++ b :: acts2 -> run acts1 w = inr (tt, w2) -> act b w2 = inl f -> acts1 = acts /\ a = b /\ w1 = w2.
Proof.
  revert acts1 w. induction acts as [|c acts IH]; intros [|d acts1] w E1 E2 E3 E4; cbn in E2; simplify_eq.
  - cbn in E1, E3. unfold ret in E1, E3. by simplify_eq.
  - by destruct acts1.
  - cbn in E3. injection E3 as <-. cbn [Metadata.run] in E1. unfold bind in E1. by rewrite E4 in E1.
  - cbn [Metadata.run] in E1, E3. unfold bind in E1, E3. destruct (act d w) as [|[[] w']]; [done|]. by destruct (IH acts1 w' E1 ltac:(done) E3 E4) as (-> & -> & ->).
Qed.
End faults.

(** A field that holds a text. *)
Definition text_field (s : bytes) : CassDataType * Value :=
  (DSimple CASS_VALUE_TYPE_VARCHAR, {| data_type := Some (data_type_view (DSimple CASS_VALUE_TYPE_VARCHAR)); count := 0;
     value_decoder := {| mem := s; input := 0; remaining := zlen s; supports_v5 := false; is_null := false |}; value_is_null := false |}).
