(* ===== verification/MetadataSafe.v ===== *)
(** The objects of the schema's metadata are safe: what holds of them after every sequence of calls, and what follows. *)
From stdpp Require Import gmap fin_maps.
From S2P Require Import Prelude NumberParser DriverErrors Types Values Decoder DataTypes ResultDecoder Statements ResultRows ClassNames SchemaMeta Metadata MetadataFaults.
#[local] Open Scope nat_scope.

(** ** The invariant *)

(** References go to objects of a lower rank. *)
Definition rank (c : class) : nat := match c with CSchema => 0 | CKeyspace | CColumn | CIndex | CFunction => 1 | CTable | CAggregate => 2 | CView => 3 end.

(** [schema] is a schema object that owns the snapshot [s]. *)
Definition owns (w : world) (schema : option nat) (s : nat) : Prop :=
  exists h o m, schema = Some h /\ objects w !! h = Some o /\ o_class o = CSchema /\ o_meta o = Some (s, m).

(** The handles of a value are objects of a rank below [n]. *)
Definition below (n : nat) (w : world) (l : list nat) : Prop := forall h, h ∈ l -> exists o, objects w !! h = Some o /\ rank (o_class o) < n.

(** An object; [made]: PHP code may have made objects by itself, which have no pointer. *)
Record object_ok (made : bool) (w : world) (o : object) : Prop := {
  object_made : made = false -> o_meta o <> None;
  object_points : forall s m, o_meta o = Some (s, m) -> meta_class m = o_class o /\ is_Some (snapshots w !! s) /\ (o_class o <> CSchema -> owns w (o_schema o) s);
  object_refers : below (rank (o_class o)) w (references o)
}.

Record world_ok (made : bool) (w : world) : Prop := {
  world_objects : forall h o, objects w !! h = Some o -> object_ok made w o;
  world_held : below 4 w (held w);
  world_owned : forall s, is_Some (snapshots w !! s) -> exists h, owns w (Some h) s;
  world_owner : forall h h' s, owns w (Some h) s -> owns w (Some h') s -> h = h'
}.

(** Calls keep objects, their classes, their schemas and their pointers. *)
Definition extends (w w' : world) : Prop :=
  snapshots w' = snapshots w /\ held w' = held w /\
  forall h o, objects w !! h = Some o -> exists o', objects w' !! h = Some o' /\ o_class o' = o_class o /\ o_schema o' = o_schema o /\ o_meta o' = o_meta o.

Lemma extends_same w w' : snapshots w' = snapshots w -> held w' = held w -> objects w' = objects w -> extends w w'.
Proof. intros Hs Hh Ho. split_and!; [done..|]. rewrite Ho. intros h o H. by exists o. Qed.

Lemma extends_refl w : extends w w.
Proof. by apply extends_same. Qed.

Lemma extends_trans w1 w2 w3 : extends w1 w2 -> extends w2 w3 -> extends w1 w3.
Proof.
  intros (S1 & H1 & O1) (S2 & H2 & O2). split_and!; [congruence..|]. intros h o Ho. apply O1 in Ho as (o2 & Ho & C & Sc & Me).
  apply O2 in Ho as (o3 & Ho & C' & Sc' & Me'). exists o3. split_and!; congruence.
Qed.

Lemma below_extends n w w' l : extends w w' -> below n w l -> below n w' l.
Proof. intros (_ & _ & E) B h Hh. apply B in Hh as (o & Ho & R). apply E in Ho as (o' & Ho & C & _). exists o'. by rewrite C. Qed.

Lemma owns_extends w w' schema s : extends w w' -> owns w schema s -> owns w' schema s.
Proof. intros (_ & _ & E) (h & o & m & -> & Ho & C & Me). apply E in Ho as (o' & Ho & C' & _ & Me'). exists h, o', m. split_and!; congruence. Qed.

Lemma below_weaken n n' w l : n <= n' -> below n w l -> below n' w l.
Proof. intros H B h Hh. apply B in Hh as (o & Ho & R). exists o. split; [done|lia]. Qed.

Lemma below_nil n w : below n w [].
Proof. intros h H. by apply not_elem_of_nil in H. Qed.

Lemma below_app n w l1 l2 : below n w (l1 ++ l2) <-> below n w l1 /\ below n w l2.
Proof. unfold below. setoid_rewrite elem_of_app. naive_solver. Qed.

Lemma rank_lt_4 c : rank c < 4.
Proof. destruct c; cbn; lia. Qed.

(** What of a world matters. *)
Lemma world_ok_same made w w' : snapshots w' = snapshots w -> objects w' = objects w -> held w' = held w -> world_ok made w -> world_ok made w'.
Proof.
  destruct w as [sn ob he pe it], w' as [sn' ob' he' pe' it']. cbn. intros -> -> -> [H1 H2 H3 H4]. split; [|exact H2|exact H3|exact H4].
  intros h o Ho. destruct (H1 h o Ho) as [A B C]. by split.
Qed.

(** ** Effects that keep the invariant *)

Definition fault_ok (made : bool) (f : fault) : Prop := f <> Freed /\ f <> WrongClass /\ (made = false -> f <> NullPointer).

Definition good {A} (made : bool) (m : M A) (w : world) (Q : A -> world -> Prop) : Prop :=
  match m w with inl f => fault_ok made f | inr (a, w') => world_ok made w' /\ extends w w' /\ Q a w' end.

Lemma good_bind {A B} made (m : M A) (f : A -> M B) w R Q :
  good made m w R -> (forall a w', world_ok made w' -> extends w w' -> R a w' -> good made (f a) w' Q) -> good made (bind m f) w Q.
Proof.
  unfold good, bind. intros H K. destruct (m w) as [e|[a w']]; [done|]. destruct H as (Ok & E & HR). specialize (K a w' Ok E HR).
  destruct (f a w') as [e|[b w'']]; [done|]. destruct K as (Ok' & E' & HQ). split_and!; [done|by eapply extends_trans|done].
Qed.

Lemma good_weaken {A} made (m : M A) w (R Q : A -> world -> Prop) : good made m w R -> (forall a w', world_ok made w' -> extends w w' -> R a w' -> Q a w') -> good made m w Q.
Proof. unfold good. intros H K. destruct (m w) as [e|[a w']]; [done|]. destruct H as (Ok & E & HR). split_and!; [done..|]. by apply K. Qed.

Lemma good_ret {A} made (a : A) w (Q : A -> world -> Prop) : world_ok made w -> Q a w -> good made (ret a) w Q.
Proof. intros Ok H. split_and!; [done|apply extends_refl|done]. Qed.

Lemma good_fail {A} made f w (Q : A -> world -> Prop) : fault_ok made f -> good made (fail f) w Q.
Proof. done. Qed.

Lemma good_throw made w : world_ok made w -> good made throw w (fun _ _ => True).
Proof. intros Ok. split_and!; [by eapply world_ok_same; [..|exact Ok]|by apply extends_same|done]. Qed.

Lemma good_new_iterator made w : world_ok made w -> good made new_iterator w (fun _ _ => True).
Proof. intros Ok. split_and!; [by eapply world_ok_same; [..|exact Ok]|by apply extends_same|done]. Qed.

Lemma good_free_iterator made w : world_ok made w -> good made free_iterator w (fun _ _ => True).
Proof. intros Ok. split_and!; [by eapply world_ok_same; [..|exact Ok]|by apply extends_same|done]. Qed.

Definition is_object (h : nat) (c : class) (w : world) : Prop := exists o, objects w !! h = Some o /\ o_class o = c.

Lemma is_object_extends h c w w' : extends w w' -> is_object h c w -> is_object h c w'.
Proof. intros (_ & _ & E) (o & Ho & C). apply E in Ho as (o' & Ho & C' & _). exists o'. split; congruence. Qed.

Lemma good_fetch made h c w : world_ok made w -> is_object h c w -> good made (fetch h) w (fun o w' => objects w' !! h = Some o /\ o_class o = c).
Proof. intros Ok (o & Ho & C). unfold good, fetch. rewrite Ho. split_and!; [done|apply extends_refl|done..]. Qed.

Lemma good_deref made o h w : world_ok made w -> objects w !! h = Some o ->
  good made (deref o) w (fun p w' => meta_class (snd p) = o_class o /\ o_meta o = Some p /\ (o_class o <> CSchema -> owns w' (o_schema o) (fst p))).
Proof.
  intros Ok Ho. pose proof (world_objects _ _ Ok _ _ Ho) as [Hm Hp Hr]. unfold good, deref. destruct (o_meta o) as [[s m]|] eqn:E.
  - destruct (Hp _ _ eq_refl) as (C & [sm Hs] & Ow). rewrite Hs. split_and!; [done|apply extends_refl|done..].
  - split_and!; [done..|]. intros Hf. by destruct (Hm Hf).
Qed.

(** A new object, of a class whose rank is above what it refers to. *)
Lemma fresh_extends w o : extends w (set_objects (<[fresh (dom (objects w)) := o]> (objects w)) w).
Proof.
  split_and!; [done..|]. intros h o' Ho. exists o'. split_and!; [|done..]. cbn. rewrite lookup_insert_ne; [done|]. intros <-. apply (is_fresh (dom (objects w))). by apply elem_of_dom_2 in Ho.
Qed.

Lemma object_ok_extends made w w' o : extends w w' -> object_ok made w o -> object_ok made w' o.
Proof.
  intros E [Hm Hp Hr]. split; [done| |by eapply below_extends]. intros s m H. destruct (Hp s m H) as (C & Sn & Ow). destruct E as (Es & Eh & Eo). rewrite Es.
  split_and!; [done..|]. intros Hc. eapply owns_extends; [|by apply Ow]. done.
Qed.

Lemma good_create made slots schema s m w : world_ok made w -> owns w schema s -> meta_class m <> CSchema -> below (rank (meta_class m)) w (slots ≫= (fun x => handles (snd x))) ->
  good made (create slots schema s m) w (fun h w' => is_object h (meta_class m) w').
Proof.
  intros Ok Ow Hc Hs. unfold good, create. set (h := fresh _). set (o := {| o_class := _ |}). set (w' := set_objects _ _).
  assert (extends w w') as E by apply fresh_extends. assert (owns w' schema s) as Ow' by (by eapply owns_extends).
  assert (forall x s, owns w' (Some x) s -> owns w (Some x) s) as Back.
  { intros x s' (h' & o' & m' & [= <-] & Ho' & C' & Me'). unfold w' in Ho'. cbn in Ho'. apply lookup_insert_Some in Ho' as [[<- <-]|[Hne Ho']]; [done|]. by exists x, o', m'. }
  split_and!; [split|done|exists o; split; [by apply lookup_insert_eq|done]].
  - intros x ox Hx. unfold w' in Hx. cbn in Hx. apply lookup_insert_Some in Hx as [[<- <-]|[Hne Hx]]; [|by eapply object_ok_extends; [exact E|by eapply world_objects]]. split; [done| |].
    + intros s' m' [= <- <-]. split_and!; [done| |done]. cbn. destruct Ow as (hs & os & ms & -> & Hos & Cs & Ms). by apply (object_points _ _ _ (world_objects _ _ Ok _ _ Hos)) in Ms as (_ & Hss & _).
    + unfold references. cbn. apply below_app. split; [|by eapply below_extends]. destruct Ow' as (hs & os & ms & -> & Hos & Cs & Ms). intros r ->%list_elem_of_singleton. exists os. split; [done|].
      rewrite Cs. cbn. destruct (meta_class m); cbn; try lia. done.
  - exact (below_extends _ _ _ _ E (world_held _ _ Ok)).
  - intros s' Hs'. apply (world_owned _ _ Ok) in Hs' as (x & Hx). exists x. by eapply owns_extends.
  - intros x x' s' Hx Hx'. eapply (world_owner _ _ Ok); by apply Back.
Qed.

Lemma good_set_slot made h s v c w : world_ok made w -> is_object h c w -> below (rank c) w (handles v) -> good made (set_slot h s v) w (fun _ _ => True).
Proof.
  intros Ok (o & Ho & C) Hv. unfold good, set_slot. rewrite Ho. set (o' := {| o_class := o_class o |}). set (w' := set_objects _ _).
  assert (extends w w') as E.
  { split_and!; [done..|]. intros x ox Hx. unfold w'. cbn. destruct (decide (x = h)) as [->|Hne]; [|by rewrite lookup_insert_ne by done; exists ox].
    rewrite Ho in Hx. injection Hx as <-. exists o'. split; [by apply lookup_insert_eq|done]. }
  assert (forall x s, owns w' (Some x) s -> owns w (Some x) s) as Back.
  { intros x s' (h' & ox & m' & [= <-] & Hx & C' & Me'). unfold w' in Hx. cbn in Hx. apply lookup_insert_Some in Hx as [[<- <-]|[Hne Hx]]; [by exists h, o, m'|]. by exists x, ox, m'. }
  split_and!; [split|done..].
  - intros x ox Hx. unfold w' in Hx. cbn in Hx. apply lookup_insert_Some in Hx as [[<- <-]|[Hne Hx]]; [|by eapply object_ok_extends; [exact E|by eapply world_objects]].
    destruct (object_ok_extends _ _ _ _ E (world_objects _ _ Ok _ _ Ho)) as [Hm Hp Hr]. split; [done|done|].
    unfold references in *. cbn. apply below_app in Hr as [Hr1 Hr2]. apply below_app. split; [done|]. apply below_app. split; [|done]. rewrite C. by eapply below_extends.
  - exact (below_extends _ _ _ _ E (world_held _ _ Ok)).
  - intros s' Hs'. apply (world_owned _ _ Ok) in Hs' as (x & Hx). exists x. by eapply owns_extends.
  - intros x x' s' Hx Hx'. eapply (world_owner _ _ Ok); by apply Back.
Qed.

(** The handles in a slot are among the references. *)
Lemma slot_ranked made h o s v w : world_ok made w -> objects w !! h = Some o -> slot_get s o = Some v -> below (rank (o_class o)) w (handles v).
Proof.
  intros Ok Ho Hg. pose proof (object_refers _ _ _ (world_objects _ _ Ok _ _ Ho)) as Hr. unfold references in Hr. apply below_app in Hr as [_ Hr].
  unfold slot_get in Hg. destruct (List.find _ _) as [[s' v']|] eqn:F; [|done]. injection Hg as ->. apply List.find_some in F as [Hin _]. apply list_elem_of_In in Hin.
  intros x Hx. apply Hr. apply list_elem_of_bind. by exists (s', v).
Qed.

Lemma good_cached made h s c make w : world_ok made w -> is_object h c w ->
  good made make w (fun v w' => match v with Some v => below (rank c) w' (handles v) | None => True end) -> good made (cached h s make) w (fun v w' => below (rank c) w' (handles v)).
Proof.
  intros Ok Hh Hm. unfold cached. unfold good, bind, fetch. destruct Hh as (o & Ho & C). rewrite Ho.
  destruct (slot_get s o) as [v|] eqn:Hv.
  - split_and!; [done|apply extends_refl|]. rewrite <- C. by eapply slot_ranked.
  - change (good made (v <~ make; match v with Some v0 => set_slot h s v0;; ret v0 | None => ret (PLeaf LUndef) end) w (fun v w' => below (rank c) w' (handles v))).
    eapply good_bind; [exact Hm|]. intros [v|] w' Ok' E Hb; [|by apply good_ret; [done|apply below_nil]].
    eapply good_bind; [eapply good_set_slot; [done| |done]|]. { eapply is_object_extends; [done|by exists o]. }
    intros [] w'' Ok'' E' _. apply good_ret; [done|]. by eapply below_extends.
Qed.

(** *** Arrays *)

Abbreviation entries_below n w a := (below n w (handles (PArray a))).

Lemma entries_app n w a x : entries_below n w (a ++ [x]) <-> entries_below n w a /\ below n w (leaf_handles (snd x)).
Proof.
  cbn [handles]. rewrite bind_app, below_app. assert (([x] ≫= (fun y => leaf_handles (snd y))) = leaf_handles (snd x)) as ->; [|done]. cbn. by rewrite app_nil_r.
Qed.

Lemma add_next_below n w l a : entries_below n w a -> below n w (leaf_handles l) -> entries_below n w (add_next_index l a).
Proof. intros Ha Hl. unfold add_next_index. by apply entries_app. Qed.

Lemma add_assoc_below n w name l a : entries_below n w a -> below n w (leaf_handles l) -> entries_below n w (add_assoc name l a).
Proof.
  intros Ha Hl. unfold add_assoc. destruct (existsb _ a); [|by apply entries_app]. intros h ([k l'] & Hh & ([k0 l0] & E & Hin)%list_elem_of_fmap)%list_elem_of_bind. cbn in Hh.
  destruct (bool_decide (fst (k0, l0) = symtable_key name)); injection E as -> ->; [by apply Hl|]. apply Ha. apply list_elem_of_bind. by exists (k0, l0).
Qed.

Lemma array_find_below n w name a l : entries_below n w a -> array_find name a = Some l -> below n w (leaf_handles l).
Proof.
  intros Ha Hf. unfold array_find in Hf. destruct (List.find _ a) as [[k l']|] eqn:F; [|done]. injection Hf as ->. apply List.find_some in F as [Hin _]. apply list_elem_of_In in Hin.
  intros h Hh. apply Ha. apply list_elem_of_bind. by exists (k, l).
Qed.

Lemma good_each {A} made n (f : A -> entries -> M entries) l a w :
  (forall x a w', world_ok made w' -> extends w w' -> entries_below n w' a -> good made (f x a) w' (fun a w' => entries_below n w' a)) ->
  world_ok made w -> entries_below n w a -> good made (each f l a) w (fun a w' => entries_below n w' a).
Proof.
  intros Hf. revert a w Hf. induction l as [|x l IH]; intros a w Hf Ok Ha; cbn [each]; [by apply good_ret|].
  eapply good_bind; [by apply Hf; [|apply extends_refl|]|]. intros a' w' Ok' E Ha'. apply IH; [|done|done].
  intros y a2 w2 Ok2 E2. apply Hf; [done|by eapply extends_trans].
Qed.

Lemma object_below w h c n : is_object h c w -> rank c < n -> below n w [h].
Proof. intros (o & Ho & C) Hr x ->%list_elem_of_singleton. exists o. by rewrite C. Qed.

(** ** The methods *)

Section methods.
Context {G : Gmp} (zend_hash : bytes -> Z) (depth : nat) (have_custom_type legacy made : bool).
Abbreviation good := (good made).
Abbreviation world_ok := (world_ok made).

(** Reading the pointer of an object of its class. *)
Ltac self Ok Hh :=
  eapply good_bind; [exact (good_fetch _ _ _ _ Ok Hh)|];
  let o := fresh "o" in let w := fresh "w" in let Ok' := fresh "Ok" in let E := fresh "E" in let Ho := fresh "Ho" in let C := fresh "C" in
  intros o w Ok' E [Ho C]; eapply good_bind; [exact (good_deref _ _ _ _ Ok' Ho)|];
  let s := fresh "s" in let m := fresh "m" in let w' := fresh "w'" in let Ok2 := fresh "Ok" in let E2 := fresh "E" in let Hc := fresh "Hc" in let Ow := fresh "Ow" in
  intros [s m] w' Ok2 E2 (Hc & _ & Ow); cbn [fst snd] in *; rewrite C in *; destruct m; try discriminate Hc; apply good_ret; [done|]; try (apply Ow; discriminate); try exact I.

Lemma good_self_schema h w : world_ok w -> is_object h CSchema w -> good (self_schema h) w (fun p w' => owns w' (Some h) (fst p)).
Proof.
  intros Ok Hh. unfold self_schema. eapply good_bind; [exact (good_fetch _ _ _ _ Ok Hh)|]. intros o w1 Ok1 E1 [Ho C]. eapply good_bind; [exact (good_deref _ _ _ _ Ok1 Ho)|].
  intros [s m] w2 Ok2 E2 (Hc & Hm & Ow). cbn [fst snd] in *. rewrite C in Hc. destruct m; try discriminate Hc. apply good_ret; [done|].
  cbn [fst]. apply (owns_extends w1); [done|]. exists h, o. by eexists.
Qed.

Lemma good_self_keyspace h w : world_ok w -> is_object h CKeyspace w -> good (self_keyspace h) w (fun p w' => owns w' (fst (fst p)) (snd (fst p))).
Proof. intros Ok Hh. unfold self_keyspace. self Ok Hh. Qed.

Lemma good_self_table h w : world_ok w -> is_object h CTable w -> good (self_table h) w (fun p w' => owns w' (fst (fst (fst p))) (snd (fst (fst p)))).
Proof. intros Ok Hh. unfold self_table. self Ok Hh. Qed.

Lemma good_self_view h w : world_ok w -> is_object h CView w -> good (self_view h) w (fun p w' => owns w' (fst (fst (fst p))) (snd (fst (fst p)))).
Proof. intros Ok Hh. unfold self_view. self Ok Hh. Qed.

Lemma good_self_column h w : world_ok w -> is_object h CColumn w -> good (self_column h) w (fun _ _ => True).
Proof. intros Ok Hh. unfold self_column. self Ok Hh. Qed.

Lemma good_self_index h w : world_ok w -> is_object h CIndex w -> good (self_index h) w (fun _ _ => True).
Proof. intros Ok Hh. unfold self_index. self Ok Hh. Qed.

Lemma good_self_function h w : world_ok w -> is_object h CFunction w -> good (self_function h) w (fun _ _ => True).
Proof. intros Ok Hh. unfold self_function. self Ok Hh. Qed.

Lemma good_self_aggregate h w : world_ok w -> is_object h CAggregate w -> good (self_aggregate h) w (fun p w' => owns w' (fst (fst p)) (snd (fst p))).
Proof. intros Ok Hh. unfold self_aggregate. self Ok Hh. Qed.

(** *** Values *)

Lemma fault_ok_other f : f <> Freed -> f <> WrongClass -> f <> NullPointer -> fault_ok made f.
Proof. done. Qed.

Lemma good_decode t v w : world_ok w -> good (decode zend_hash depth have_custom_type t v) w (fun _ _ => True).
Proof.
  intros Ok. unfold decode. destruct (php_scylladb_value _ _ _ t v) as [z [|e p]| | |]; try (by apply good_fail, fault_ok_other); [by apply good_ret|].
  eapply good_bind; [by apply good_throw|]. intros. by apply good_ret.
Qed.

Lemma good_leaf l w n : world_ok w -> below n w (leaf_handles l) -> good (leaf_ret l) w (fun v w' => below n w' (handles v)).
Proof. intros Ok H. by apply good_ret. Qed.

Lemma good_get_meta_field fields name w n : world_ok w -> good (get_meta_field zend_hash depth have_custom_type fields name) w (fun v w' => below n w' (handles v)).
Proof.
  intros Ok. unfold get_meta_field. destruct (get_field name fields) as [[[t v]|]|]; [|by apply good_fail, fault_ok_other|by apply good_leaf; [|apply below_nil]].
  destruct (value_is_null v); [by apply good_leaf; [|apply below_nil]|]. eapply good_bind; [by apply good_decode|]. intros z w' Ok' E _. by apply good_leaf; [|apply below_nil].
Qed.

Lemma good_field_string f w : world_ok w -> good (field_string f) w (fun _ _ => True).
Proof.
  intros Ok. unfold field_string. destruct f as [[t v]|]; [|by apply good_ret]. destruct (value_is_null v); [by apply good_ret|].
  destruct (cass_value_get_bytes v); try (by apply good_fail, fault_ok_other). by apply good_ret.
Qed.

Lemma good_create_column schema s c w : world_ok w -> owns w schema s ->
  good (php_scylladb_create_column have_custom_type schema s c) w (fun x w' => match x with Some h => is_object h CColumn w' | None => True end).
Proof.
  intros Ok Ow. unfold php_scylladb_create_column.
  assert (forall slots w', world_ok w' -> extends w w' -> (slots ≫= (fun x => handles (snd x))) = [] ->
    good (h <~ create ((Name, PLeaf (text (cm_name c))) :: slots) schema s (MColumn c); ret (Some h)) w' (fun x w' => match x with Some h => is_object h CColumn w' | None => True end)) as Made.
  { intros slots w' Ok' E Hs. eapply good_bind; [apply good_create; [done|by eapply owns_extends|done|]|intros h w2 Ok2 E2 Hh; by apply good_ret].
    cbn. rewrite Hs. apply below_nil. }
  assert (forall w', world_ok w' -> good (throw;; ret None) w' (fun (x : option nat) w' => match x with Some h => is_object h CColumn w' | None => True end)) as Thrown.
  { intros w' Ok'. eapply good_bind; [by apply good_throw|]. intros. by apply good_ret. }
  destruct (get_field (bs "validator") (cm_fields c)) as [value|].
  - eapply good_bind; [by apply good_field_string|]. intros [validator|] w1 Ok1 E1 _; [|by apply Thrown].
    destruct (php_scylladb_parse_column_type have_custom_type validator) as [r f t [] hp|e hp|]; [|by apply Made; [..|done]|by apply Thrown|by apply good_fail, fault_ok_other].
    eapply good_bind; [by apply good_throw|]. intros [] w2 Ok2 E2 _. apply Made; [done|by eapply extends_trans|done].
  - destruct (cm_data_type c) as [t|]; [|by apply Made; [|apply extends_refl|]].
    destruct (get_field (bs "clustering_order") (cm_fields c)) as [value|]; [|by apply Thrown].
    eapply good_bind; [by apply good_field_string|]. intros [o|] w1 Ok1 E1 _; [|by apply Thrown]. apply Made; [done..|].
    unfold type_from. cbn. by destruct (php_scylladb_type_from_data_type _ _).
Qed.

(** *** Shapes of methods *)

Lemma good_named slot name schema s m w : world_ok w -> owns w schema s -> meta_class m <> CSchema ->
  good (create [(slot, PLeaf (text name))] schema s m) w (fun h w' => is_object h (meta_class m) w').
Proof. intros Ok Ow Hc. by apply good_create; [..|apply below_nil]. Qed.

Lemma good_returned c (m : M nat) w : good m w (fun h w' => is_object h c w') -> good (x <~ m; leaf_ret (LObject x)) w (fun v w' => below 4 w' (handles v)).
Proof. intros H. eapply good_bind; [exact H|]. intros h w' Ok' E Hh. apply good_leaf; [done|]. eapply object_below; [exact Hh|apply rank_lt_4]. Qed.

(** Methods that iterate over the driver's list. *)
Lemma good_iterated {A} (f : A -> entries -> M entries) l w n : world_ok w ->
  (forall x a w', world_ok w' -> extends w w' -> entries_below n w' a -> good (f x a) w' (fun a w' => entries_below n w' a)) ->
  good (new_iterator;; a <~ each f l []; free_iterator;; ret (PArray a)) w (fun v w' => below n w' (handles v)).
Proof.
  intros Ok Hf. eapply good_bind; [by apply good_new_iterator|]. intros [] w1 Ok1 E1 _. eapply good_bind.
  - apply (good_each _ n); [|done|apply below_nil]. intros x a w2 Ok2 E2. apply Hf; [done|by eapply extends_trans].
  - intros a w2 Ok2 E2 Ha. eapply good_bind; [by apply good_free_iterator|]. intros [] w3 Ok3 E3 _. apply good_ret; [done|]. by eapply below_extends.
Qed.

(** ... and make an object for each element. *)
Lemma good_listed {A} (mk : A -> M nat) (nm : A -> bytes) l w c : world_ok w ->
  (forall x w', world_ok w' -> extends w w' -> good (mk x) w' (fun h w' => is_object h c w')) ->
  good (new_iterator;; a <~ each (fun x a => h <~ mk x; ret (add_assoc (nm x) (LObject h) a)) l []; free_iterator;; ret (PArray a)) w (fun v w' => below 4 w' (handles v)).
Proof.
  intros Ok Hm. apply good_iterated; [done|]. intros x a w' Ok' E Ha. eapply good_bind; [by apply Hm|]. intros h w2 Ok2 E2 Hh. apply good_ret; [done|].
  apply add_assoc_below; [by eapply below_extends|]. eapply object_below; [exact Hh|apply rank_lt_4].
Qed.

Lemma good_false w n : world_ok w -> good (leaf_ret (LValue ZFalse)) w (fun v w' => below n w' (handles v)).
Proof. intros Ok. apply good_leaf; [done|apply below_nil]. Qed.

Lemma good_undef w n : world_ok w -> good (leaf_ret LUndef) w (fun v w' => below n w' (handles v)).
Proof. intros Ok. apply good_leaf; [done|apply below_nil]. Qed.

Lemma good_needs_legacy m w : world_ok w -> good m w (fun v w' => below 4 w' (handles v)) -> good (needs_legacy legacy m) w (fun v w' => below 4 w' (handles v)).
Proof. intros Ok H. unfold needs_legacy. destruct legacy; [done|]. eapply good_bind; [by apply good_throw|]. intros. by apply good_undef. Qed.

Lemma good_slot_value h c s d w : world_ok w -> is_object h c w -> leaf_handles d = [] -> good (slot_value h s d) w (fun v w' => below 4 w' (handles v)).
Proof.
  intros Ok Hh Hd. unfold slot_value. eapply good_bind; [exact (good_fetch _ _ _ _ Ok Hh)|]. intros o w' Ok' E [Ho C]. apply good_ret; [done|].
  destruct (slot_get s o) as [v|] eqn:Hs; cbn; [|rewrite Hd; apply below_nil]. eapply below_weaken; [|by eapply slot_ranked]. pose proof (rank_lt_4 (o_class o)). lia.
Qed.

Lemma good_cached_method h s c mk w : world_ok w -> is_object h c w ->
  good mk w (fun v w' => match v with Some v => below (rank c) w' (handles v) | None => True end) -> good (cached h s mk) w (fun v w' => below 4 w' (handles v)).
Proof.
  intros Ok Hh Hm. eapply good_weaken; [by eapply good_cached|]. intros v w' Ok' E. apply below_weaken. pose proof (rank_lt_4 c). lia.
Qed.

Lemma type_from_no_handles t : leaf_handles (type_from have_custom_type t) = [].
Proof. unfold type_from. by destruct (php_scylladb_type_from_data_type _ _). Qed.

(** *** Schema and keyspace *)

Lemma good_schema_keyspace name h w : world_ok w -> is_object h CSchema w -> good (DefaultSchema_keyspace name h) w (fun v w' => below 4 w' (handles v)).
Proof.
  intros Ok Hh. unfold DefaultSchema_keyspace. eapply good_bind; [by apply good_self_schema|]. intros [s m] w' Ok' E Ow. cbn [fst snd] in *.
  destruct (get_keyspace name m) as [k|]; [|by apply good_false]. eapply good_returned. by apply good_create; [..|apply below_nil].
Qed.

Lemma good_each_keyspace h s l a w : world_ok w -> owns w (Some h) s -> entries_below 4 w a ->
  good (each_keyspace h s l a) w (fun a w' => match a with Some a => entries_below 4 w' a | None => True end).
Proof.
  revert a w. induction l as [|k l IH]; intros a w Ok Ow Ha; cbn [each_keyspace]; [by apply good_ret|].
  eapply good_bind with (R := fun _ _ => True). { destruct (get_field _ _); [by apply good_field_string|by apply good_ret]. }
  intros [name|] w1 Ok1 E1 _; [|eapply good_bind; [by apply good_throw|]; intros; by apply good_ret].
  eapply good_bind; [apply good_create; [done|by eapply owns_extends|done|apply below_nil]|]. intros x w2 Ok2 E2 Hh. pose proof (extends_trans _ _ _ E1 E2) as E.
  apply IH; [done|by eapply owns_extends|]. apply add_assoc_below; [by eapply below_extends|]. eapply object_below; [exact Hh|apply rank_lt_4].
Qed.

Lemma good_schema_keyspaces h w : world_ok w -> is_object h CSchema w -> good (DefaultSchema_keyspaces h) w (fun v w' => below 4 w' (handles v)).
Proof.
  intros Ok Hh. unfold DefaultSchema_keyspaces. eapply good_bind; [by apply good_self_schema|]. intros [s m] w1 Ok1 E1 Ow. cbn [fst snd] in *.
  eapply good_bind; [by apply good_new_iterator|]. intros [] w2 Ok2 E2 _. eapply good_bind; [apply good_each_keyspace; [done|by eapply owns_extends|apply below_nil]|].
  intros [a|] w3 Ok3 E3 Ha; [|by apply good_undef]. eapply good_bind; [by apply good_free_iterator|]. intros [] w4 Ok4 E4 _. apply good_ret; [done|]. by eapply below_extends.
Qed.

Lemma good_schema_version h w : world_ok w -> is_object h CSchema w -> good (DefaultSchema_version h) w (fun v w' => below 4 w' (handles v)).
Proof. intros Ok Hh. unfold DefaultSchema_version. eapply good_bind; [by apply good_self_schema|]. intros. by apply good_leaf; [|apply below_nil]. Qed.

(** The handler of an object of a class: it reads the pointer, then a lookup or a list follows. *)
Ltac keyspace Ok Hh := eapply good_bind; [exact (good_self_keyspace _ _ Ok Hh)|]; intros [[schema s] k] w' Ok' E Ow; cbn [fst snd] in Ow.
Ltac table Ok Hh := eapply good_bind; [exact (good_self_table _ _ Ok Hh)|]; intros [[[schema s] k] t] w' Ok' E Ow; cbn [fst snd] in Ow.
Ltac looked_up := match goal with |- context [match ?x with None => leaf_ret _ | Some _ => _ end] => destruct x; [eapply good_returned; by apply good_named|by apply good_false] end.
Ltac listed Ow c := apply (good_listed _ _ _ _ c); [done|]; intros x w2 Ok2 E2; refine (good_named _ _ _ _ _ _ Ok2 (owns_extends _ _ _ _ E2 Ow) _); done.

Lemma good_keyspace_getter g h w : world_ok w -> is_object h CKeyspace w -> good (DefaultKeyspace_getter zend_hash depth have_custom_type g h) w (fun v w' => below 4 w' (handles v)).
Proof. intros Ok Hh. unfold DefaultKeyspace_getter. keyspace Ok Hh. by apply good_get_meta_field. Qed.

Lemma good_keyspace_table name h w : world_ok w -> is_object h CKeyspace w -> good (DefaultKeyspace_table name h) w (fun v w' => below 4 w' (handles v)).
Proof. intros Ok Hh. unfold DefaultKeyspace_table. keyspace Ok Hh. looked_up. Qed.

Lemma good_keyspace_tables h w : world_ok w -> is_object h CKeyspace w -> good (DefaultKeyspace_tables h) w (fun v w' => below 4 w' (handles v)).
Proof. intros Ok Hh. unfold DefaultKeyspace_tables. keyspace Ok Hh. listed Ow CTable. Qed.

Lemma good_keyspace_userType name h w : world_ok w -> is_object h CKeyspace w -> good (DefaultKeyspace_userType have_custom_type name h) w (fun v w' => below 4 w' (handles v)).
Proof.
  intros Ok Hh. unfold DefaultKeyspace_userType. keyspace Ok Hh. destruct (get_user_type name k) as [t|]; [|by apply good_undef].
  apply good_leaf; [done|]. rewrite type_from_no_handles. apply below_nil.
Qed.

Lemma good_keyspace_userTypes h w : world_ok w -> is_object h CKeyspace w -> good (DefaultKeyspace_userTypes have_custom_type h) w (fun v w' => below 4 w' (handles v)).
Proof.
  intros Ok Hh. unfold DefaultKeyspace_userTypes. keyspace Ok Hh. apply good_iterated; [done|]. intros t a w2 Ok2 E2 Ha. apply good_ret; [done|].
  apply add_assoc_below; [done|]. rewrite type_from_no_handles. apply below_nil.
Qed.

Lemma good_keyspace_view name h w : world_ok w -> is_object h CKeyspace w -> good (DefaultKeyspace_materializedView name h) w (fun v w' => below 4 w' (handles v)).
Proof. intros Ok Hh. unfold DefaultKeyspace_materializedView. keyspace Ok Hh. looked_up. Qed.

Lemma good_keyspace_views h w : world_ok w -> is_object h CKeyspace w -> good (DefaultKeyspace_materializedViews h) w (fun v w' => below 4 w' (handles v)).
Proof. intros Ok Hh. unfold DefaultKeyspace_materializedViews. keyspace Ok Hh. listed Ow CView. Qed.

Lemma good_keyspace_function name args h w : world_ok w -> is_object h CKeyspace w -> good (DefaultKeyspace_function legacy name args h) w (fun v w' => below 4 w' (handles v)).
Proof.
  intros Ok Hh. apply good_needs_legacy; [done|]. eapply good_bind; [exact (good_fetch _ _ _ _ Ok Hh)|]. intros o w1 Ok1 E1 _. apply (is_object_extends _ _ _ _ E1) in Hh.
  destruct (php_scylladb_arguments_string args); [|eapply good_bind; [by apply good_throw|]; intros; by apply good_undef]. keyspace Ok1 Hh. looked_up.
Qed.

Lemma good_keyspace_functions h w : world_ok w -> is_object h CKeyspace w -> good (DefaultKeyspace_functions legacy h) w (fun v w' => below 4 w' (handles v)).
Proof. intros Ok Hh. apply good_needs_legacy; [done|]. keyspace Ok Hh. listed Ow CFunction. Qed.

Lemma good_keyspace_aggregate name args h w : world_ok w -> is_object h CKeyspace w -> good (DefaultKeyspace_aggregate legacy name args h) w (fun v w' => below 4 w' (handles v)).
Proof.
  intros Ok Hh. apply good_needs_legacy; [done|]. eapply good_bind; [exact (good_fetch _ _ _ _ Ok Hh)|]. intros o w1 Ok1 E1 _. apply (is_object_extends _ _ _ _ E1) in Hh.
  destruct (php_scylladb_arguments_string args); [|eapply good_bind; [by apply good_throw|]; intros; by apply good_undef]. keyspace Ok1 Hh. looked_up.
Qed.

Lemma good_keyspace_aggregates h w : world_ok w -> is_object h CKeyspace w -> good (DefaultKeyspace_aggregates legacy h) w (fun v w' => below 4 w' (handles v)).
Proof. intros Ok Hh. apply good_needs_legacy; [done|]. keyspace Ok Hh. listed Ow CAggregate. Qed.

(** *** Tables and views *)

Lemma good_build_options fields a w n : world_ok w -> entries_below n w a ->
  good (php_scylladb_table_build_options zend_hash depth have_custom_type fields a) w (fun a w' => entries_below n w' a).
Proof.
  revert a w. induction fields as [|[name f] fields IH]; intros a w Ok Ha; cbn [php_scylladb_table_build_options]; [by apply good_ret|].
  destruct (ends_options name); [by apply good_ret|]. destruct f as [[t v]|]; [|by apply IH].
  assert (forall z, entries_below n w (add_assoc name (LValue z) a)) as Hz by (intros z; apply add_assoc_below; [done|apply below_nil]).
  destruct (php_scylladb_value _ _ _ t v) as [z [|e p]| | |]; [by apply IH| | | |by apply good_fail, fault_ok_other];
    (eapply good_bind; [by apply good_throw|]; intros [] w' Ok' E _; apply IH; [done|by eapply below_extends]).
Qed.

Section relation.
Context (self : nat -> M (option nat * nat * TableMetadataBase)) (c : class) (Hrank : 2 <= rank c).
Context (good_self : forall h w, world_ok w -> is_object h c w -> good (self h) w (fun p w' => owns w' (fst (fst p)) (snd (fst p)))).

Ltac reads Ok Hh := eapply good_bind; [exact (good_self _ _ Ok Hh)|]; intros [[schema s] t] w' Ok' E Ow; cbn [fst snd] in Ow.

Lemma good_relation_options h w : world_ok w -> is_object h c w -> good (relation_options zend_hash depth have_custom_type self h) w (fun v w' => below (rank c) w' (handles v)).
Proof.
  intros Ok Hh. unfold relation_options. apply good_cached; [done..|]. unfold build_options. reads Ok Hh. eapply good_bind; [by apply good_new_iterator|]. intros [] w1 Ok1 E1 _.
  eapply good_bind; [apply (good_build_options _ _ _ (rank c)); [done|apply below_nil]|]. intros a w2 Ok2 E2 Ha. eapply good_bind; [by apply good_free_iterator|]. intros [] w3 Ok3 E3 _. apply good_ret; [done|]. exact (below_extends _ _ _ _ E3 Ha).
Qed.

Lemma good_relation_option name h w : world_ok w -> is_object h c w -> good (relation_option zend_hash depth have_custom_type self name h) w (fun v w' => below 4 w' (handles v)).
Proof.
  intros Ok Hh. unfold relation_option. eapply good_bind; [by apply good_relation_options|]. intros [l|a] w' Ok' E Ha; [by apply good_fail, fault_ok_other|].
  apply good_leaf; [done|]. destruct (array_find name a) eqn:F; [|apply below_nil]. pose proof (rank_lt_4 c). apply (below_weaken (rank c)); [lia|]. exact (array_find_below _ _ _ _ _ Ha F).
Qed.

Lemma good_relation_column name h w : world_ok w -> is_object h c w -> good (relation_column have_custom_type self name h) w (fun v w' => below 4 w' (handles v)).
Proof.
  intros Ok Hh. unfold relation_column. reads Ok Hh. destruct (get_column name t) as [col|]; [|by apply good_false].
  eapply good_bind; [by apply good_create_column|]. intros [x|] w2 Ok2 E2 Hx; [|by apply good_undef]. apply good_leaf; [done|]. eapply object_below; [exact Hx|apply rank_lt_4].
Qed.

(** A column added to an array, under a name or at the end. *)
Lemma good_column_added (add : leaf -> entries -> entries) schema s col a w n : 1 < n -> (forall l a w, entries_below n w a -> below n w (leaf_handles l) -> entries_below n w (add l a)) ->
  world_ok w -> owns w schema s -> entries_below n w a ->
  good (x <~ php_scylladb_create_column have_custom_type schema s col; ret (match x with Some x => add (LObject x) a | None => a end)) w (fun a w' => entries_below n w' a).
Proof.
  intros Hn Hadd Ok Ow Ha. eapply good_bind; [by apply good_create_column|]. intros [x|] w2 Ok2 E2 Hx; (apply good_ret; [done|]); [|by eapply below_extends].
  apply Hadd; [by eapply below_extends|]. eapply object_below; [exact Hx|done].
Qed.

Lemma good_relation_columns h w : world_ok w -> is_object h c w -> good (relation_columns have_custom_type self h) w (fun v w' => below 4 w' (handles v)).
Proof.
  intros Ok Hh. unfold relation_columns. reads Ok Hh. apply good_iterated; [done|]. intros [col|] a w2 Ok2 E2 Ha; [|by apply good_fail, fault_ok_other].
  apply (good_column_added (add_assoc (cm_name col))); [lia|intros; by apply add_assoc_below|done|by eapply owns_extends|done].
Qed.

Lemma good_populate schema s key a w : world_ok w -> owns w schema s -> entries_below (rank c) w a -> good (populate have_custom_type schema s key a) w (fun a w' => entries_below (rank c) w' a).
Proof.
  intros Ok Ow Ha. apply good_each; [|done|done]. intros [col|] a' w2 Ok2 E2 Ha'; [|by apply good_ret].
  apply (good_column_added add_next_index); [lia|intros; by apply add_next_below|done|by eapply owns_extends|done].
Qed.

Lemma good_populate_partition h a w : world_ok w -> is_object h c w -> entries_below (rank c) w a -> good (populate_partition_key have_custom_type self h a) w (fun a w' => entries_below (rank c) w' a).
Proof. intros Ok Hh Ha. unfold populate_partition_key. reads Ok Hh. apply good_populate; [done..|]. by eapply below_extends. Qed.

Lemma good_populate_clustering h a w : world_ok w -> is_object h c w -> entries_below (rank c) w a -> good (populate_clustering_key have_custom_type self h a) w (fun a w' => entries_below (rank c) w' a).
Proof. intros Ok Hh Ha. unfold populate_clustering_key. reads Ok Hh. apply good_populate; [done..|]. by eapply below_extends. Qed.

Lemma good_relation_keys h w : world_ok w -> is_object h c w ->
  good (relation_partitionKey have_custom_type self h) w (fun v w' => below 4 w' (handles v)) /\
  good (relation_primaryKey have_custom_type self h) w (fun v w' => below 4 w' (handles v)) /\
  good (relation_clusteringKey have_custom_type self h) w (fun v w' => below 4 w' (handles v)) /\
  good (relation_clusteringOrder self h) w (fun v w' => below 4 w' (handles v)).
Proof.
  intros Ok Hh. split_and!; (eapply good_cached_method; [done..|]).
  - eapply good_bind; [apply good_populate_partition; [done..|apply below_nil]|]. intros a w' Ok' E Ha. by apply good_ret.
  - eapply good_bind; [apply good_populate_partition; [done..|apply below_nil]|]. intros a w' Ok' E Ha.
    eapply good_bind; [apply good_populate_clustering; [done|by eapply is_object_extends|done]|]. intros a2 w2 Ok2 E2 Ha2. by apply good_ret.
  - eapply good_bind; [apply good_populate_clustering; [done..|apply below_nil]|]. intros a w' Ok' E Ha. by apply good_ret.
  - reads Ok Hh. apply good_ret; [done|]. cbn [snd]. generalize (seq 0 (length (tm_clustering_key t))). intros l.
    assert (forall a : entries, entries_below (rank c) w' a -> entries_below (rank c) w' (fold_left (fun a i => add_next_index (text (order_text (default ORDER_NONE (tm_clustering_key_order t !! i)))) a) l a)) as H; [|apply H, below_nil].
    induction l as [|i l IH]; intros a Ha; [done|]. cbn [fold_left]. apply IH. apply add_next_below; [done|apply below_nil].
Qed.
End relation.

Lemma good_table_self h w : world_ok w -> is_object h CTable w -> good (table_self h) w (fun p w' => owns w' (fst (fst p)) (snd (fst p))).
Proof. intros Ok Hh. unfold table_self. table Ok Hh. by apply good_ret. Qed.

Lemma good_view_self h w : world_ok w -> is_object h CView w -> good (view_self h) w (fun p w' => owns w' (fst (fst p)) (snd (fst p))).
Proof.
  intros Ok Hh. unfold view_self. eapply good_bind; [exact (good_self_view _ _ Ok Hh)|]. intros [[[schema s] k] v] w' Ok' E Ow. by apply good_ret.
Qed.

Lemma good_table_index name h w : world_ok w -> is_object h CTable w -> good (DefaultTable_index legacy name h) w (fun v w' => below 4 w' (handles v)).
Proof. intros Ok Hh. apply good_needs_legacy; [done|]. table Ok Hh. looked_up. Qed.

Lemma good_table_indexes h w : world_ok w -> is_object h CTable w -> good (DefaultTable_indexes legacy h) w (fun v w' => below 4 w' (handles v)).
Proof. intros Ok Hh. apply good_needs_legacy; [done|]. table Ok Hh. listed Ow CIndex. Qed.

Lemma good_table_view name h w : world_ok w -> is_object h CTable w -> good (DefaultTable_materializedView name h) w (fun v w' => below 4 w' (handles v)).
Proof. intros Ok Hh. unfold DefaultTable_materializedView. table Ok Hh. looked_up. Qed.

Lemma good_table_views h w : world_ok w -> is_object h CTable w -> good (DefaultTable_materializedViews h) w (fun v w' => below 4 w' (handles v)).
Proof. intros Ok Hh. unfold DefaultTable_materializedViews. table Ok Hh. listed Ow CView. Qed.

Lemma good_view_baseTable h w : world_ok w -> is_object h CView w -> good (DefaultMaterializedView_baseTable h) w (fun v w' => below 4 w' (handles v)).
Proof.
  intros Ok Hh. eapply good_cached_method; [done..|]. eapply good_bind; [exact (good_self_view _ _ Ok Hh)|]. intros [[[schema s] k] v] w' Ok' E Ow.
  destruct (base_table k v) as [t|]; [|by apply good_ret]. eapply good_bind; [by apply good_named|]. intros x w2 Ok2 E2 Hx. apply good_ret; [done|]. eapply object_below; [exact Hx|cbn; lia].
Qed.

(** *** Columns, indexes, functions, aggregates *)

Lemma good_column_method h w : world_ok w -> is_object h CColumn w ->
  good (DefaultColumn_isStatic h) w (fun v w' => below 4 w' (handles v)) /\
  good (DefaultColumn_indexName zend_hash depth have_custom_type h) w (fun v w' => below 4 w' (handles v)) /\
  good (DefaultColumn_indexOptions zend_hash depth have_custom_type h) w (fun v w' => below 4 w' (handles v)).
Proof.
  intros Ok Hh. split_and!; (eapply good_bind; [exact (good_self_column _ _ Ok Hh)|]; intros col w' Ok' E _).
  - by apply good_leaf; [|apply below_nil].
  - by apply good_get_meta_field.
  - by apply good_get_meta_field.
Qed.

(** What is made of the pointer without effects and without objects. *)
Lemma good_pure {A} (m : M A) (f : A -> option pval) w n R : good m w R -> (forall a v, f a = Some v -> handles v = []) ->
  good (x <~ m; ret (f x)) w (fun v w' => match v with Some v => below n w' (handles v) | None => True end).
Proof.
  intros Hm Hf. eapply good_bind; [exact Hm|]. intros a w' Ok' E _. apply good_ret; [done|]. destruct (f a) as [v|] eqn:Ef; [|done]. rewrite (Hf _ _ Ef). apply below_nil.
Qed.

(** Arrays without objects. *)
Definition plain (a : entries) : Prop := Forall (fun x => leaf_handles (snd x) = []) a.

Lemma plain_handles a : plain a -> handles (PArray a) = [].
Proof. induction 1 as [|x a Hx Ha IH]; [done|]. cbn in *. by rewrite Hx. Qed.

Lemma add_assoc_plain name l a : plain a -> leaf_handles l = [] -> plain (add_assoc name l a).
Proof.
  intros Ha Hl. unfold add_assoc, plain. destruct (existsb _ a); [|apply list.Forall_app; split; [done|by repeat constructor]].
  apply Forall_map. revert Ha. apply Forall_impl. intros x Hx. by destruct (bool_decide _).
Qed.

Lemma add_next_plain l a : plain a -> leaf_handles l = [] -> plain (add_next_index l a).
Proof. intros Ha Hl. apply list.Forall_app. split; [done|by repeat constructor]. Qed.

Lemma folded_plain {A} (f : entries -> A -> entries) l a : (forall a x, plain a -> plain (f a x)) -> plain a -> plain (fold_left f l a).
Proof. intros Hf. revert a. induction l as [|x l IH]; intros a Ha; [done|]. cbn [fold_left]. by apply IH, Hf. Qed.

Lemma good_index_options h w : world_ok w -> is_object h CIndex w -> good (DefaultIndex_options h) w (fun v w' => below 1 w' (handles v)).
Proof.
  intros Ok Hh. change 1 with (rank CIndex). apply good_cached; [done..|]. unfold php_scylladb_index_build_option. eapply good_bind; [exact (good_self_index _ _ Ok Hh)|].
  intros i w' Ok' E _. destruct (im_options i) as [l|]; [|by apply good_fail, fault_ok_other]. eapply good_bind; [by apply good_new_iterator|]. intros [] w2 Ok2 E2 _. apply good_ret; [done|].
  rewrite plain_handles; [apply below_nil|]. apply folded_plain; [|constructor]. intros a [[k|] [v|]] Ha; try done. by apply add_assoc_plain.
Qed.

Lemma good_index_option name h w : world_ok w -> is_object h CIndex w -> good (DefaultIndex_option name h) w (fun v w' => below 4 w' (handles v)).
Proof.
  intros Ok Hh. unfold DefaultIndex_option. eapply good_bind; [by apply good_index_options|]. intros [l|a] w' Ok' E Ha; [by apply good_fail, fault_ok_other|].
  apply good_leaf; [done|]. destruct (array_find name a) eqn:F; [|apply below_nil]. apply (below_weaken 1); [lia|]. exact (array_find_below _ _ _ _ _ Ha F).
Qed.

Lemma good_index_isCustom h w : world_ok w -> is_object h CIndex w -> good (DefaultIndex_isCustom h) w (fun v w' => below 4 w' (handles v)).
Proof.
  intros Ok Hh. unfold DefaultIndex_isCustom. eapply good_bind; [by apply good_index_options|]. intros [l|a] w' Ok' E Ha; [by apply good_fail, fault_ok_other|].
  apply good_leaf; [done|apply below_nil].
Qed.

Lemma defined_type_no_handles t v : defined_type have_custom_type t = Some v -> handles v = [].
Proof. unfold defined_type. pose proof (type_from_no_handles t). destruct (type_from have_custom_type t); intros E; simplify_eq; done. Qed.

Lemma bound_type_no_handles o v : o ≫= defined_type have_custom_type = Some v -> handles v = [].
Proof. destruct o; [apply defined_type_no_handles|done]. Qed.

Lemma good_function_arguments h w : world_ok w -> is_object h CFunction w -> good (DefaultFunction_arguments have_custom_type h) w (fun v w' => below 4 w' (handles v)).
Proof.
  intros Ok Hh. eapply good_cached_method; [done..|]. eapply good_bind; [exact (good_self_function _ _ Ok Hh)|]. intros f w' Ok' E _.
  eapply good_bind; [apply (good_each _ 1); [|done|apply below_nil]|intros a w2 Ok2 E2 Ha; by apply good_ret].
  intros [name [t|]] a w2 Ok2 E2 Ha; cbn [fst snd]; [|by apply good_fail, fault_ok_other]. apply good_ret; [done|]. pose proof (type_from_no_handles t) as Ht.
  destruct (type_from have_custom_type t); try done; apply add_assoc_below; try done; apply below_nil.
Qed.

Lemma good_aggregate_function which s h w : world_ok w -> is_object h CAggregate w -> good (cached h s (aggregate_function which h)) w (fun v w' => below 4 w' (handles v)).
Proof.
  intros Ok Hh. eapply good_cached_method; [done..|]. unfold aggregate_function. eapply good_bind; [exact (good_self_aggregate _ _ Ok Hh)|]. intros [[schema sn] a] w' Ok' E Ow. cbn [fst snd] in Ow.
  destruct (which a) as [f|]; [|by apply good_ret]. eapply good_bind; [by apply good_named|]. intros x w2 Ok2 E2 Hx. apply good_ret; [done|]. eapply object_below; [exact Hx|cbn; lia].
Qed.

Lemma good_aggregate_initial h w : world_ok w -> is_object h CAggregate w -> good (DefaultAggregate_initialCondition zend_hash depth have_custom_type h) w (fun v w' => below 4 w' (handles v)).
Proof.
  intros Ok Hh. eapply good_cached_method; [done..|]. eapply good_bind; [exact (good_self_aggregate _ _ Ok Hh)|]. intros [[schema sn] a] w' Ok' E _. cbn [snd].
  destruct (am_init_cond a) as [[t v]|]; [|by apply good_ret].
  destruct (php_scylladb_value zend_hash depth have_custom_type t v) as [z [|e p]| | |]; try (by apply good_fail, fault_ok_other); [apply good_ret; [done|apply below_nil]|..];
    (eapply good_bind; [by apply good_throw|]; intros [] w2 Ok2 E2 _; apply good_ret; [done|]); [apply below_nil|done].
Qed.

Ltac slotted Ok Hh := refine (good_slot_value _ _ _ _ _ Ok Hh _); done.

(** Any method of an object of its class, class by class. *)
Abbreviation method_good m := (forall h w, world_ok w -> is_object h (method_class m) w -> good (invoke zend_hash depth have_custom_type legacy m h) w (fun v w' => below 4 w' (handles v))).

Lemma good_schema_method m : method_class m = CSchema -> method_good m.
Proof. destruct m; intros Hc; try discriminate Hc; intros h w Ok Hh; [by apply good_schema_keyspace|by apply good_schema_keyspaces|by apply good_schema_version]. Qed.

Lemma good_keyspace_method m : method_class m = CKeyspace -> method_good m.
Proof.
  destruct m; intros Hc; try discriminate Hc; intros h w Ok Hh;
    [by apply good_keyspace_getter|by apply good_keyspace_table|by apply good_keyspace_tables|by apply good_keyspace_userType|by apply good_keyspace_userTypes|by apply good_keyspace_view
    |by apply good_keyspace_views|by apply good_keyspace_function|by apply good_keyspace_functions|by apply good_keyspace_aggregate|by apply good_keyspace_aggregates].
Qed.

(** The methods tables and views share. *)
Lemma good_relation_method self c h w : 2 <= rank c -> (forall h w, world_ok w -> is_object h c w -> good (self h) w (fun p w' => owns w' (fst (fst p)) (snd (fst p)))) -> world_ok w -> is_object h c w ->
  good (slot_value h Name LUndef) w (fun v w' => below 4 w' (handles v)) /\
  good (relation_options zend_hash depth have_custom_type self h) w (fun v w' => below 4 w' (handles v)) /\
  (forall name, good (relation_option zend_hash depth have_custom_type self name h) w (fun v w' => below 4 w' (handles v))) /\
  (forall name, good (relation_column have_custom_type self name h) w (fun v w' => below 4 w' (handles v))) /\
  good (relation_columns have_custom_type self h) w (fun v w' => below 4 w' (handles v)).
Proof.
  intros Hr Hs Ok Hh. split_and!; [slotted Ok Hh| |intros name|intros name|].
  - eapply good_weaken; [by eapply (good_relation_options self c)|]. intros v w' _ _. apply below_weaken. pose proof (rank_lt_4 c). lia.
  - by apply (good_relation_option self c).
  - by apply (good_relation_column self c).
  - by apply (good_relation_columns self c).
Qed.

Lemma good_table_method m : method_class m = CTable -> method_good m.
Proof.
  destruct m; intros Hc; try discriminate Hc; intros h w Ok Hh;
    pose proof (good_relation_method table_self CTable h w ltac:(cbn; lia) good_table_self Ok Hh) as (R1 & R2 & R3 & R4 & R5);
    pose proof (good_relation_keys table_self CTable ltac:(cbn; lia) good_table_self h w Ok Hh) as (K1 & K2 & K3 & K4);
    [exact R1|exact R2|exact (R3 name)|exact (R3 (option_name g))|exact (R4 name)|exact R5|exact K1|exact K2|exact K3|exact K4
    |by apply good_table_index|by apply good_table_indexes|by apply good_table_view|by apply good_table_views].
Qed.

Lemma good_view_method m : method_class m = CView -> method_good m.
Proof.
  destruct m; intros Hc; try discriminate Hc; intros h w Ok Hh;
    pose proof (good_relation_method view_self CView h w ltac:(cbn; lia) good_view_self Ok Hh) as (R1 & R2 & R3 & R4 & R5);
    pose proof (good_relation_keys view_self CView ltac:(cbn; lia) good_view_self h w Ok Hh) as (K1 & K2 & K3 & K4);
    [exact R1|exact R2|exact (R3 name)|exact (R3 (option_name g))|exact (R4 name)|exact R5|exact K1|exact K2|exact K3|exact K4|by apply good_view_baseTable].
Qed.

Lemma good_column_class m : method_class m = CColumn -> method_good m.
Proof.
  destruct m; intros Hc; try discriminate Hc; intros h w Ok Hh; pose proof (good_column_method h w Ok Hh) as (C1 & C2 & C3);
    [slotted Ok Hh|slotted Ok Hh|slotted Ok Hh|exact C1
    |slotted Ok Hh|exact C2|exact C3].
Qed.

Lemma good_index_method m : method_class m = CIndex -> method_good m.
Proof.
  destruct m; intros Hc; try discriminate Hc; intros h w Ok Hh.
  - slotted Ok Hh.
  - eapply good_cached_method; [done..|]. eapply good_pure; [exact (good_self_index _ _ Ok Hh)|]. by intros i v [= <-].
  - eapply good_cached_method; [done..|]. eapply good_pure; [exact (good_self_index _ _ Ok Hh)|]. by intros i v [= <-].
  - eapply good_weaken; [exact (good_index_options _ _ Ok Hh)|]. intros v w' _ _. apply below_weaken. lia.
  - by apply good_index_option.
  - by apply good_index_option.
  - by apply good_index_isCustom.
Qed.

Lemma good_function_method m : method_class m = CFunction -> method_good m.
Proof.
  destruct m; intros Hc; try discriminate Hc; intros h w Ok Hh.
  - slotted Ok Hh.
  - eapply good_cached_method; [done..|]. eapply good_pure; [exact (good_self_function _ _ Ok Hh)|]. by intros i v [= <-].
  - by apply good_function_arguments.
  - eapply good_cached_method; [done..|]. eapply good_pure; [exact (good_self_function _ _ Ok Hh)|]. intros i v. apply bound_type_no_handles.
  - eapply good_cached_method; [done..|]. eapply good_pure; [exact (good_self_function _ _ Ok Hh)|]. by intros i v [= <-].
  - eapply good_cached_method; [done..|]. eapply good_pure; [exact (good_self_function _ _ Ok Hh)|]. by intros i v [= <-].
  - eapply good_bind; [exact (good_self_function _ _ Ok Hh)|]. intros f w' Ok' E _. by apply good_leaf; [|apply below_nil].
Qed.

Lemma good_aggregate_method m : method_class m = CAggregate -> method_good m.
Proof.
  destruct m; intros Hc; try discriminate Hc; intros h w Ok Hh.
  - slotted Ok Hh.
  - eapply good_cached_method; [done..|]. eapply good_pure; [exact (good_self_aggregate _ _ Ok Hh)|]. by intros i v [= <-].
  - eapply good_cached_method; [done..|]. eapply good_pure; [exact (good_self_aggregate _ _ Ok Hh)|]. intros p v [= <-]. apply plain_handles, folded_plain; [|constructor].
    intros a [t|] Ha; [|done]. cbn [mbind option_bind]. pose proof (type_from_no_handles t) as Ht. destruct (type_from have_custom_type t); try done; by apply add_next_plain.
  - by apply good_aggregate_function.
  - by apply good_aggregate_function.
  - by apply good_aggregate_initial.
  - eapply good_cached_method; [done..|]. eapply good_pure; [exact (good_self_aggregate _ _ Ok Hh)|]. intros i v. apply bound_type_no_handles.
  - eapply good_cached_method; [done..|]. eapply good_pure; [exact (good_self_aggregate _ _ Ok Hh)|]. intros i v. apply bound_type_no_handles.
Qed.

Lemma good_invoke m : method_good m.
Proof.
  destruct (method_class m) eqn:C; rewrite <- C;
    [by apply good_schema_method|by apply good_keyspace_method|by apply good_table_method|by apply good_view_method|by apply good_column_class
    |by apply good_index_method|by apply good_function_method|by apply good_aggregate_method].
Qed.
End methods.

(** ** Actions *)

Section actions.
Context {G : Gmp} (zend_hash : bytes -> Z) (depth : nat) (have_custom_type legacy made : bool).

(** What PHP code holds may change when the handles are objects. *)
Lemma world_ok_held w l : world_ok made w -> below 4 w l -> world_ok made (set_held l w).
Proof. intros [H1 H2 H3 H4] Hl. split; [|exact Hl|exact H3|exact H4]. intros h o Ho. destruct (H1 h o Ho) as [A B C]. by split. Qed.

Lemma drop_one_incl h l x : x ∈ drop_one h l -> x ∈ l.
Proof. unfold drop_one. destruct (list_find _ l) as [[i y]|]; [|done]. intros Hx. eapply elem_of_submseteq; [exact Hx|]. apply sublist_submseteq, sublist_delete. Qed.

Lemma object_ok_more w w' o : (forall h x, objects w !! h = Some x -> objects w' !! h = Some x) -> (forall s, is_Some (snapshots w !! s) -> is_Some (snapshots w' !! s)) -> object_ok made w o -> object_ok made w' o.
Proof.
  intros Ho Hs [A B C]. split; [done| |].
  - intros s m H. destruct (B s m H) as (Hc & Hsn & Ow). split_and!; [done|by apply Hs|]. intros Hn. destruct (Ow Hn) as (h & x & m' & E & Hx & Cx & Mx). exists h, x, m'. split_and!; try done. by apply Ho.
  - intros h Hh. destruct (C h Hh) as (x & Hx & R). exists x. split; [by apply Ho|done].
Qed.

(** The session's schema. *)
Lemma schema_ok m w : world_ok made w -> match (h <~ DefaultSession_schema m; hold [h]) w with inl f => fault_ok made f | inr (_, w') => world_ok made w' end.
Proof.
  intros Ok. unfold DefaultSession_schema, bind, create, hold. cbn. set (s := fresh (dom (snapshots w))). set (h := fresh (dom (objects w))). set (o := {| o_class := CSchema |}).
  set (w1 := set_objects (<[h := o]> (objects w)) (set_snapshots (<[s := m]> (snapshots w)) w)).
  assert (objects w !! h = None) as Hh by (apply not_elem_of_dom, is_fresh). assert (snapshots w !! s = None) as Hs by (apply not_elem_of_dom, is_fresh).
  assert (forall x y, objects w !! x = Some y -> objects w1 !! x = Some y) as Keep. { intros x y Hx. cbn. rewrite lookup_insert_ne; [done|]. intros <-. by rewrite Hh in Hx. }
  assert (objects w1 !! h = Some o) as Hnew by apply lookup_insert_eq.
  assert (forall x y, owns w (Some x) y -> owns w1 (Some x) y) as Own. { intros x y (x' & ox & mx & [= <-] & Hx & Cx & Mx). exists x, ox, mx. split_and!; try done. by apply Keep. }
  assert (forall x y, owns w1 (Some x) y -> (x = h /\ y = s) \/ owns w (Some x) y /\ y <> s) as Back.
  { intros x y (x' & ox & mx & [= <-] & Hx & Cx & Mx). cbn in Hx. apply lookup_insert_Some in Hx as [[<- <-]|[Hne Hx]]; [left; cbn in Mx; by injection Mx as -> _|]. right. split; [by exists x, ox, mx|].
    intros ->. apply (object_points _ _ _ (world_objects _ _ Ok _ _ Hx)) in Mx as (_ & [? H] & _). by rewrite Hs in H. }
  apply (world_ok_held w1).
  - split.
    + intros x ox Hx. cbn in Hx. apply lookup_insert_Some in Hx as [[<- <-]|[Hne Hx]].
      * split; [done| |apply below_nil]. intros s' m' [= <- <-]. split_and!; [done|by eexists; apply lookup_insert_eq|done].
      * apply (object_ok_more w); [exact Keep| |by eapply world_objects]. intros y [z Hy]. cbn. destruct (decide (y = s)) as [->|Hn]; [by eexists; apply lookup_insert_eq|]. exists z. by rewrite lookup_insert_ne.
    + intros x Hx. destruct (world_held _ _ Ok x Hx) as (ox & Hox & R). exists ox. split; [by apply Keep|done].
    + intros y [z Hy]. cbn in Hy. apply lookup_insert_Some in Hy as [[Es _]|[Hne Hy]]; [rewrite <- Es; exists h; by exists h, o, (MSchema m)|].
      destruct (world_owned _ _ Ok y) as (x & Hx); [by eexists|]. exists x. by apply Own.
    + intros x x' y [[E1 E2]|[Hx Hn]]%Back [[E1' E2']|[Hx' Hn']]%Back; try congruence. by eapply (world_owner _ _ Ok).
  - intros x [->|Hx]%elem_of_cons; [exists o; split; [exact Hnew|cbn; lia]|]. destruct (world_held _ _ Ok x Hx) as (ox & Hox & R). exists ox. split; [by apply Keep|done].
Qed.

(** An object of PHP code's own. *)
Lemma new_ok c w : world_ok made w -> made = true -> match act zend_hash depth have_custom_type legacy (New c) w with inl f => fault_ok made f | inr (_, w') => world_ok made w' end.
Proof.
  intros Ok Hm. cbn. set (h := fresh (dom (objects w))). set (o := {| o_class := c |}). set (w1 := set_objects (<[h := o]> (objects w)) w).
  assert (objects w !! h = None) as Hh by (apply not_elem_of_dom, is_fresh).
  assert (forall x y, objects w !! x = Some y -> objects w1 !! x = Some y) as Keep. { intros x y Hx. cbn. rewrite lookup_insert_ne; [done|]. intros <-. by rewrite Hh in Hx. }
  assert (forall x y, owns w1 (Some x) y -> owns w (Some x) y) as Back.
  { intros x y (x' & ox & mx & [= <-] & Hx & Cx & Mx). cbn in Hx. apply lookup_insert_Some in Hx as [[<- <-]|[Hne Hx]]; [done|]. by exists x, ox, mx. }
  apply (world_ok_held w1).
  - split.
    + intros x ox Hx. cbn in Hx. apply lookup_insert_Some in Hx as [[<- <-]|[Hne Hx]].
      * split; [congruence|done|apply below_nil].
      * apply (object_ok_more w); [exact Keep|done|by eapply world_objects].
    + intros x Hx. destruct (world_held _ _ Ok x Hx) as (ox & Hox & R). exists ox. split; [by apply Keep|done].
    + intros y Hy. destruct (world_owned _ _ Ok y Hy) as (x & (x' & ox & mx & [= <-] & Hx & Cx & Mx)). exists x, x, ox, mx. split_and!; try done. by apply Keep.
    + intros x x' y Hx%Back Hx'%Back. by eapply (world_owner _ _ Ok).
  - intros x [->|Hx]%elem_of_cons; [exists o; split; [by apply lookup_insert_eq|apply rank_lt_4]|]. destruct (world_held _ _ Ok x Hx) as (ox & Hox & R). exists ox. split; [by apply Keep|done].
Qed.

Lemma not_referenced w h : referenced w h = false -> h ∉ held w /\ forall x o, objects w !! x = Some o -> h ∉ references o.
Proof.
  unfold referenced. intros [Hh%bool_decide_eq_false Hr]%orb_false_iff. split; [done|]. intros x o Hx Hin. apply not_true_iff_false in Hr. apply Hr. apply existsb_exists. exists (x, o).
  split; [apply list_elem_of_In; by apply elem_of_map_to_list|by apply bool_decide_eq_true].
Qed.

(** The engine frees an object. *)
Lemma free_metadata_ok h w : world_ok made w -> is_Some (objects w !! h) -> referenced w h = false -> match free_metadata h w with inl f => fault_ok made f | inr (_, w') => world_ok made w' end.
Proof.
  intros Ok [o Ho] [Hheld Hrefs]%not_referenced. pose proof (world_objects _ _ Ok _ _ Ho) as [Om Op Or].
  (* the world without the object, and without the snapshot it owns *)
  assert (forall sn, (forall s, is_Some (sn !! s) -> is_Some (snapshots w !! s)) -> (forall s, is_Some (snapshots w !! s) -> is_Some (sn !! s) \/ owns w (Some h) s) -> (forall s, owns w (Some h) s -> sn !! s = None) ->
    world_ok made (set_objects (delete h (objects w)) (set_snapshots sn w))) as K.
  { intros sn Hsub Hsup Hgone.
    assert (forall x s, owns w (Some x) s -> x <> h -> owns (set_objects (delete h (objects w)) (set_snapshots sn w)) (Some x) s) as Keep.
    { intros x s (x' & ox & mx & [= <-] & Hx & Cx & Mx) Hne. exists x, ox, mx. split_and!; try done. cbn. by rewrite lookup_delete_ne. }
    assert (forall x s, owns (set_objects (delete h (objects w)) (set_snapshots sn w)) (Some x) s -> x <> h /\ owns w (Some x) s) as Back.
    { intros x s (x' & ox & mx & [= <-] & Hx & Cx & Mx). cbn in Hx. apply lookup_delete_Some in Hx as [Hne Hx]. split; [done|]. by exists x, ox, mx. }
    split.
    - intros x ox Hx. cbn in Hx. apply lookup_delete_Some in Hx as [Hne Hx]. destruct (world_objects _ _ Ok _ _ Hx) as [A B C]. split; [done| |].
      + intros s m Hm. destruct (B s m Hm) as (Hc & Hs & Ow).
        assert (exists y, owns w (Some y) s /\ y <> h /\ (o_class ox <> CSchema -> o_schema ox = Some y)) as (y & Hy & Hyh & Hsch).
        { destruct (decide (o_class ox = CSchema)) as [Hcs|Hcs].
          - exists x. split_and!; [by exists x, ox, m|done|done].
          - destruct (Ow Hcs) as (y & oy & my & E & Hy & Cy & My). exists y. split_and!; [by exists y, oy, my| |done]. intros ->. apply (Hrefs x ox Hx). unfold references. rewrite E. by left. }
        split_and!; [done| |].
        * destruct (Hsup s Hs) as [?|Hh]; [done|]. by destruct Hyh; eapply (world_owner _ _ Ok).
        * intros Hcs. rewrite (Hsch Hcs). by apply Keep.
      + intros y Hy. destruct (C y Hy) as (oy & Hoy & R). exists oy. split; [|done]. cbn. rewrite lookup_delete_ne; [done|]. intros <-. by apply (Hrefs x ox Hx).
    - intros x Hx. destruct (world_held _ _ Ok x Hx) as (ox & Hox & R). exists ox. split; [|done]. cbn. rewrite lookup_delete_ne; [done|]. by intros <-.
    - intros s Hs. destruct (world_owned _ _ Ok s (Hsub s Hs)) as (x & Hx). exists x. apply Keep; [done|]. intros ->. apply Hgone in Hx. destruct Hs as [? Hs]. cbn in Hs. by rewrite Hx in Hs.
    - intros x x' s [_ Hx]%Back [_ Hx']%Back. by eapply (world_owner _ _ Ok). }
  assert (o_class o <> CSchema \/ o_meta o = None -> world_ok made (set_objects (delete h (objects w)) w)) as Plain.
  { intros Hn. apply (world_ok_same made (set_objects (delete h (objects w)) (set_snapshots (snapshots w) w))); [done..|]. apply K; [done|by left|].
    intros s (h' & oh & mh & [= <-] & Hh & Ch & Mh). rewrite Ho in Hh. injection Hh as <-. destruct Hn as [Hn|Hn]; [done|]. by rewrite Hn in Mh. }
  unfold free_metadata, bind, fetch. rewrite Ho. destruct (o_class o) eqn:C, (o_meta o) as [[s m]|] eqn:Me; try (cbn; apply Plain; auto; fail).
  destruct (Op s m eq_refl) as (_ & [sm Hs] & _). rewrite Hs. cbn.
  apply (world_ok_same made (set_objects (delete h (objects w)) (set_snapshots (delete s (snapshots w)) w))); [done..|]. apply K.
  - intros s' [x Hx]. apply lookup_delete_Some in Hx as [_ Hx]. by eexists.
  - intros s' [x Hx]. destruct (decide (s' = s)) as [->|Hne]; [right; by exists h, o, m|left; exists x; by rewrite lookup_delete_ne].
  - intros s' (h' & oh & mh & [= <-] & Hh & Ch & Mh). rewrite Ho in Hh. injection Hh as <-. rewrite Me in Mh. injection Mh as <- _. apply lookup_delete_eq.
Qed.

Lemma act_ok a w : world_ok made w -> (forall c, a = New c -> made = true) -> match act zend_hash depth have_custom_type legacy a w with inl f => fault_ok made f | inr (_, w') => world_ok made w' end.
Proof.
  intros Ok Hn. destruct a as [m|c|h m|h|h|h]; [by apply schema_ok|by apply new_ok; [|eapply Hn]|cbn [act]..].
  - destruct (objects w !! h) as [o|] eqn:Ho; [|done]. destruct (bool_decide (h ∈ held w) && bool_decide (o_class o = method_class m)) eqn:E; [|done].
    apply andb_true_iff in E as [_ C%bool_decide_eq_true]. set (w0 := set_pending false w). assert (world_ok made w0) as Ok0 by (by apply (world_ok_same made w)).
    pose proof (good_invoke zend_hash depth have_custom_type legacy made m h w0 Ok0) as Hg. unfold good, bind, hold in *.
    destruct (invoke zend_hash depth have_custom_type legacy m h w0) as [f|[v w1]]; [by apply Hg; exists o|].
    destruct Hg as (Ok1 & E1 & Hv); [by exists o|]. apply world_ok_held; [done|]. apply below_app. split; [done|by apply (world_held _ _ Ok1)].
  - destruct (bool_decide (h ∈ held w)) eqn:E; [|done]. apply bool_decide_eq_true in E. unfold hold. apply world_ok_held; [done|]. apply below_app. split; [|by apply (world_held _ _ Ok)].
    intros x ->%list_elem_of_singleton. by apply (world_held _ _ Ok).
  - apply world_ok_held; [done|]. intros x Hx%drop_one_incl. by apply (world_held _ _ Ok).
  - destruct (bool_decide (h ∈ dom (objects w)) && negb (referenced w h)) eqn:E; [|done]. apply andb_true_iff in E as [E1%bool_decide_eq_true E2%negb_true_iff]. apply free_metadata_ok; [done|by apply elem_of_dom|done].
Qed.

Lemma run_ok acts w : world_ok made w -> (forall c, New c ∈ acts -> made = true) -> match run zend_hash depth have_custom_type legacy acts w with inl f => fault_ok made f | inr (_, w') => world_ok made w' end.
Proof.
  revert w. induction acts as [|a acts IH]; intros w Ok Hn; [done|]. cbn [run]. unfold bind.
  pose proof (act_ok a w Ok) as Ha. destruct (act zend_hash depth have_custom_type legacy a w) as [f|[[] w']].
  - apply Ha. intros c ->. apply (Hn c). by left.
  - apply IH; [apply Ha; intros c ->; apply (Hn c); by left|]. intros c Hc. apply (Hn c). by right.
Qed.

(** References go down, so the objects that are left when nothing outside refers to them can be freed. *)
Lemma all_freed w : world_ok made w -> held w = [] -> (forall h, h ∈ dom (objects w) -> referenced w h = true) -> objects w = ∅ /\ snapshots w = ∅.
Proof.
  intros Ok Hh Hr.
  assert (forall k h o, objects w !! h = Some o -> 4 <= rank (o_class o) + k -> False) as Rank.
  { induction k as [|k IH]; intros h o Ho Hk; [pose proof (rank_lt_4 (o_class o)); lia|].
    specialize (Hr h (elem_of_dom_2 _ _ _ Ho)). unfold referenced in Hr. apply orb_true_iff in Hr as [Hr|Hr]; [apply bool_decide_eq_true in Hr; rewrite Hh in Hr; by apply not_elem_of_nil in Hr|].
    apply existsb_exists in Hr as ([x ox] & Hx%list_elem_of_In%elem_of_map_to_list & Hin%bool_decide_eq_true). cbn in Hin.
    destruct (object_refers _ _ _ (world_objects _ _ Ok _ _ Hx) h Hin) as (o' & Ho' & R). rewrite Ho in Ho'. injection Ho' as <-. apply (IH x ox); [done|lia]. }
  assert (objects w = ∅) as He by (apply map_empty; intros h; apply eq_None_not_Some; intros [o Ho]; apply (Rank 4 h o Ho); lia).
  split; [done|]. apply map_empty. intros s. apply eq_None_not_Some. intros Hs. apply (world_owned _ _ Ok) in Hs as (x & (x' & ox & mx & _ & Hx & _)). by rewrite He in Hx.
Qed.
End actions.

Lemma start_ok made : world_ok made start.
Proof. split; [done|apply below_nil| |]; [by intros s [? H]|]. intros h h' s (x & o & m & _ & H & _). done. Qed.

Definition makes_object (a : action) : bool := match a with New _ => true | _ => false end.


(** A table with a column without an index, as servers before 3.0 describe it, and an index whose options are no map. *)
Definition unindexed_column : ColumnMetadata :=
  {| cm_name := bs "c"; cm_type := REGULAR; cm_position := 0%Z; cm_data_type := Some (DSimple CASS_VALUE_TYPE_INT); cm_is_frozen := false; cm_is_reversed := false;
     cm_fields := [(bs "clustering_order", Some (text_field (bs "none"))); (bs "index_name", None)] |}.
Definition unindexed_table : TableMetadata :=
  {| tm_base := {| tm_name := bs "t"; tm_fields := []; tm_columns := [Some unindexed_column]; tm_columns_by_name := [(bs "c", unindexed_column)];
                   tm_partition_key := []; tm_clustering_key := []; tm_clustering_key_order := [] |};
     tm_views := []; tm_indexes := [{| im_name := bs "i"; im_type := INDEX_KEYS; im_target := bs "c"; im_options := None |}];
     tm_indexes_by_name := [(bs "i", {| im_name := bs "i"; im_type := INDEX_KEYS; im_target := bs "c"; im_options := None |})] |}.
Definition unindexed_schema : SchemaSnapshot :=
  {| sm_version := 1%Z; sm_keyspaces := [(bs "k", {| km_fields := [(bs "keyspace_name", Some (text_field (bs "k")))]; km_tables := [(bs "t", unindexed_table)];
                                                   km_views := []; km_user_types := []; km_functions := []; km_aggregates := [] |})] |}.
Definition to_table : list action := [Schema unindexed_schema; Call 0 (SKeyspace (bs "k")); Call 1 (KTable (bs "t"))].

Abbreviation witness_run := (run (G := GmpModel.gmp) (fun _ => 0%Z) 2 false true).

