(* ===== verification/MetadataRead.v ===== *)
(** What the methods of the schema's metadata return: the objects of the lists and of the lookups, the keys, and the options of tables. *)
From stdpp Require Import gmap fin_maps.
From Stdlib Require Import Sorting.Sorted.
From S2P Require Import Prelude NumberParser DriverErrors Types Values Decoder DataTypes ResultDecoder Statements ResultRows ClassNames SchemaMeta Metadata MetadataFaults.
#[local] Open Scope Z_scope.

(** ** Keys of arrays *)

Lemma add_assoc_new name l a : symtable_key name ∉ map fst a -> add_assoc name l a = a ++ [(symtable_key name, l)].
Proof.
  intros H. unfold add_assoc. destruct (existsb _ a) eqn:E; [|done]. apply existsb_exists in E as (f & Hf & Hk%bool_decide_eq_true). destruct H. rewrite <- Hk.
  apply list_elem_of_fmap. exists f. split; [done|by apply list_elem_of_In].
Qed.

Lemma array_find_app name a1 a2 : array_find name (a1 ++ a2) = match array_find name a1 with Some l => Some l | None => array_find name a2 end.
Proof. unfold array_find. induction a1 as [|x a1 IH]; [done|]. cbn. by destruct (bool_decide _). Qed.

Lemma array_find_none name a : AtName name ∉ map fst a -> array_find name a = None.
Proof.
  unfold array_find. induction a as [|x a IH]; [done|]. cbn [map List.find]. intros [Hn Ha]%not_elem_of_cons. rewrite bool_decide_eq_false_2 by (intros E; by apply Hn). by apply IH.
Qed.

(** ** Lists of objects *)

(** The leaf is an object with this pointer. *)
Definition shows (w : world) (s : nat) (l : leaf) (m : meta) : Prop := exists h o, l = LObject h /\ objects w !! h = Some o /\ o_meta o = Some (s, m).

(** Later worlds keep the objects. *)
Definition keeps (w w' : world) : Prop := snapshots w' = snapshots w /\ forall h o, objects w !! h = Some o -> objects w' !! h = Some o.

Lemma keeps_refl w : keeps w w.
Proof. done. Qed.
Lemma keeps_trans w1 w2 w3 : keeps w1 w2 -> keeps w2 w3 -> keeps w1 w3.
Proof. intros [S1 K1] [S2 K2]. split; [congruence|]. intros h o H. by apply K2, K1. Qed.
Lemma shows_keeps w w' s l m : keeps w w' -> shows w s l m -> shows w' s l m.
Proof. intros [_ K] (h & o & -> & Ho & Hm). exists h, o. split_and!; [done|by apply K|done]. Qed.
#[local] Hint Resolve keeps_refl : core.

Lemma create_shows slots schema s m w : exists h w', create slots schema s m w = inr (h, w') /\ keeps w w' /\ shows w' s (LObject h) m.
Proof.
  eexists _, _. split; [done|]. split.
  - split; [done|]. intros h o Ho. cbn. rewrite lookup_insert_ne; [done|]. intros <-. apply (is_fresh (dom (objects w))). by apply elem_of_dom_2 in Ho.
  - eexists _, _. split_and!; [done|by apply lookup_insert_eq|done].
Qed.

Lemma bind_inr {A B} (m : M A) (f : A -> M B) w a w' : m w = inr (a, w') -> bind m f w = f a w'.
Proof. intros E. unfold bind. by rewrite E. Qed.

(** A loop that makes an object for each element and adds it under the element's name. *)
Lemma each_listed {A} (mk : A -> M nat) (nm : A -> bytes) (mt : A -> meta) s l :
  (forall x w, exists h w', mk x w = inr (h, w') /\ keeps w w' /\ shows w' s (LObject h) (mt x)) ->
  forall a w, NoDup (map fst a ++ map (fun x => symtable_key (nm x)) l) ->
  exists b w', each (fun x a => h <~ mk x; ret (add_assoc (nm x) (LObject h) a)) l a w = inr (a ++ b, w') /\ keeps w w' /\
    map fst b = map (fun x => symtable_key (nm x)) l /\ Forall2 (fun e x => shows w' s (snd e) (mt x)) b l.
Proof.
  intros Hmk. induction l as [|x l IH]; intros a w Hnd; cbn [each].
  - exists [], w. rewrite app_nil_r. split_and!; [done|done|done|constructor].
  - destruct (Hmk x w) as (h & w1 & E & K & Sh). cbn [map] in Hnd.
    assert (symtable_key (nm x) ∉ map fst a) as Hx. { intros Hin. apply list.NoDup_app in Hnd as (_ & Hd & _). apply (Hd _ Hin). by left. }
    destruct (IH (a ++ [(symtable_key (nm x), LObject h)]) w1) as (b & w2 & E2 & K2 & Hk & Hs). { by rewrite map_app, <- app_assoc. }
    exists ((symtable_key (nm x), LObject h) :: b), w2. split_and!.
    + rewrite (bind_inr _ _ w (a ++ [(symtable_key (nm x), LObject h)]) w1); [by rewrite E2, <- app_assoc|]. rewrite (bind_inr _ _ _ _ _ E). by rewrite <- add_assoc_new.
    + by eapply keeps_trans.
    + cbn [map fst]. by rewrite Hk.
    + constructor; [by eapply shows_keeps|done].
Qed.

Lemma keeps_iterators w n : keeps w (set_iterators n w).
Proof. done. Qed.

(** The methods that list what a keyspace or a table has. *)
Lemma listed_shows {A} (mk : A -> M nat) (nm : A -> bytes) (mt : A -> meta) s l w :
  (forall x w, exists h w', mk x w = inr (h, w') /\ keeps w w' /\ shows w' s (LObject h) (mt x)) -> NoDup (map nm l) ->
  exists a w', (new_iterator;; a <~ each (fun x a => h <~ mk x; ret (add_assoc (nm x) (LObject h) a)) l []; free_iterator;; ret (PArray a)) w = inr (PArray a, w') /\ keeps w w' /\
    map fst a = map (fun x => symtable_key (nm x)) l /\ Forall2 (fun e x => shows w' s (snd e) (mt x)) a l.
Proof.
  intros Hmk Hnd. destruct (each_listed mk nm mt s l Hmk [] (set_iterators (S (iterators w)) w)) as (a & w' & E & K & Hk & Hs).
  { cbn [map app]. rewrite <- (map_map nm symtable_key). apply NoDup_fmap_2; [|done]. intros x y. apply symtable_key_inj. }
  exists a, (set_iterators (pred (iterators w')) w'). split_and!.
  - unfold new_iterator. rewrite (bind_inr _ _ _ tt (set_iterators (S (iterators w)) w)) by done. by rewrite (bind_inr _ _ _ _ _ E).
  - eapply keeps_trans; [|apply keeps_iterators]. exact K.
  - done.
  - eapply list.Forall2_impl; [exact Hs|]. intros e x Sh. by eapply shows_keeps; [apply keeps_iterators|].
Qed.

(** An object of a keyspace, and what reading its pointer gives. *)
Definition points_to (w : world) (h s : nat) (m : meta) : Prop := exists o, objects w !! h = Some o /\ o_meta o = Some (s, m) /\ is_Some (snapshots w !! s).

Lemma self_keyspace_points w h s k : points_to w h s (MKeyspace k) -> exists schema, self_keyspace h w = inr ((schema, s, k), w).
Proof. intros (o & Ho & Hm & [sm Hs]). exists (o_schema o). unfold self_keyspace, bind, fetch, deref. rewrite Ho, Hm, Hs. done. Qed.

Lemma self_table_points w h s k t : points_to w h s (MTable k t) -> exists schema, self_table h w = inr ((schema, s, k, t), w).
Proof. intros (o & Ho & Hm & [sm Hs]). exists (o_schema o). unfold self_table, bind, fetch, deref. rewrite Ho, Hm, Hs. done. Qed.

Lemma points_keeps w w' h s m : keeps w w' -> points_to w h s m -> points_to w' h s m.
Proof. intros [E K] (o & Ho & Hm & Hs). exists o. split_and!; [by apply K|done|by rewrite E]. Qed.

(** A map whose elements carry the names they are under. *)
Definition named_map {A} (nm : A -> bytes) (m : std_map A) : Prop := map_sorted m /\ Forall (fun x => nm (snd x) = fst x) m.

Lemma named_map_names {A} (nm : A -> bytes) m : named_map nm m -> map nm (map snd m) = map fst m.
Proof. intros [_ H]. rewrite map_map. induction H as [|x m Hx Hm IH]; [done|]. cbn. by rewrite Hx, IH. Qed.

Lemma named_map_find {A} (nm : A -> bytes) m : named_map nm m -> forall x, x ∈ map snd m <-> map_find (nm x) m = Some x.
Proof.
  intros [Hs Hn] x. rewrite map_find_elem by done. split.
  - intros ([k a] & -> & Hin)%list_elem_of_fmap. rewrite list.Forall_forall in Hn. specialize (Hn _ Hin). cbn [fst snd] in *. by rewrite Hn.
  - intros Hin. apply list_elem_of_fmap. by exists (nm x, x).
Qed.

(** ** Options *)

Section options.
Context {G : Gmp} (zend_hash : bytes -> Z) (depth : nat) (have_custom_type : bool).

Definition decodes (t : CassDataType) (v : Value) : option zval :=
  match php_scylladb_value zend_hash depth have_custom_type t v with Success z _ => Some z | _ => None end.

(** What the array of options has under a name: the value of a field in front of those that end the loop. *)
Fixpoint visible (fields : std_map field) (name : bytes) : option zval :=
  match fields with
  | [] => None
  | (n, f) :: fields =>
      if ends_options n then None
      else if decide (n = name) then match f with Some (t, v) => decodes t v | None => None end
      else visible fields name
  end.

Definition crashes (t : CassDataType) (v : Value) : Prop := php_scylladb_value zend_hash depth have_custom_type t v = Crash.

Lemma build_options_shows fields name a w : symtable_key name = AtName name -> NoDup (map fst fields) -> Forall (fun x => match snd x with Some (t, v) => ~ crashes t v | None => True end) fields ->
  (forall n, n ∈ map fst fields -> symtable_key n ∉ map fst a) ->
  exists b w', php_scylladb_table_build_options zend_hash depth have_custom_type fields a w = inr (a ++ b, w') /\ keeps w w' /\ array_find name b = option_map LValue (visible fields name).
Proof.
  intros Hname. revert a w. induction fields as [|[n f] fields IH]; intros a w Hnd Hc Ha; cbn [php_scylladb_table_build_options visible].
  - exists [], w. by rewrite app_nil_r.
  - destruct (ends_options n); [exists [], w; by rewrite app_nil_r|]. cbn [map fst] in *. apply list.NoDup_cons in Hnd as [Hn Hnd]. apply Forall_cons_iff in Hc as [Hf Hc]. cbn [snd] in Hf.
    assert (forall b, array_find name b = option_map LValue (visible fields name) -> n = name -> array_find name b = None) as Gone.
    { intros b -> ->. clear -Hn. induction fields as [|[n' f'] fields IH]; [done|]. cbn [map fst] in Hn. apply not_elem_of_cons in Hn as [Hn1 Hn2]. cbn [visible]. destruct (ends_options n'); [done|]. rewrite decide_False by done. by apply IH. }
    assert (forall w0, keeps w w0 -> exists b w', php_scylladb_table_build_options zend_hash depth have_custom_type fields a w0 = inr (a ++ b, w') /\ keeps w w' /\ array_find name b = (if decide (n = name) then None else option_map LValue (visible fields name))) as Skip.
    { intros w0 K0. destruct (IH a w0 Hnd Hc) as (b & w' & E & K & Hb). { intros x Hx. apply Ha. by right. } exists b, w'. split_and!; [done|by eapply keeps_trans|]. destruct (decide (n = name)) as [->|]; [by eapply Gone|done]. }
    assert (forall z w0, keeps w w0 -> exists b w', php_scylladb_table_build_options zend_hash depth have_custom_type fields (add_assoc n (LValue z) a) w0 = inr (a ++ b, w') /\ keeps w w' /\ array_find name b = (if decide (n = name) then Some (LValue z) else option_map LValue (visible fields name))) as Add.
    { intros z w0 K0. rewrite add_assoc_new by (apply Ha; by left). destruct (IH (a ++ [(symtable_key n, LValue z)]) w0 Hnd Hc) as (b & w' & E & K & Hb).
      { intros x Hx. rewrite map_app. apply not_elem_of_app. split; [apply Ha; by right|]. cbn. intros Hk%list_elem_of_singleton%symtable_key_inj. by subst. }
      exists ((symtable_key n, LValue z) :: b), w'. split_and!; [by rewrite E, <- app_assoc|by eapply keeps_trans|].
      change (_ :: b) with ([(symtable_key n, LValue z)] ++ b). rewrite array_find_app. destruct (decide (n = name)) as [->|Hne].
      - unfold array_find at 1. cbn. by rewrite Hname, bool_decide_eq_true_2.
      - rewrite (array_find_none name [_]); [done|]. cbn. intros E'%list_elem_of_singleton. rewrite <- Hname in E'. by apply symtable_key_inj in E' as ->. }
    destruct f as [[t v]|]; [|destruct (Skip w (keeps_refl w)) as (b & w' & E & K & Hb); exists b, w'; rewrite Hb; split_and!; [done..|by destruct (decide _)]].
    unfold decodes, crashes in *. destruct (php_scylladb_value zend_hash depth have_custom_type t v) as [z [|e p]| | |].
    + destruct (Add z w (keeps_refl w)) as (b & w' & E & K & Hb). exists b, w'. rewrite Hb. split_and!; [done..|by destruct (decide _)].
    + destruct (Add z (set_pending true w) (keeps_refl w)) as (b & w' & E & K & Hb). exists b, w'. rewrite Hb. split_and!; [done..|by destruct (decide _)].
    + destruct (Skip (set_pending true w) (keeps_refl w)) as (b & w' & E & K & Hb). exists b, w'. rewrite Hb. split_and!; [done..|by destruct (decide _)].
    + destruct (Skip (set_pending true w) (keeps_refl w)) as (b & w' & E & K & Hb). exists b, w'. rewrite Hb. split_and!; [done..|by destruct (decide _)].
    + done.
Qed.
End options.

(** ** What the methods return *)

Lemma arguments_string_all l : php_scylladb_arguments_string (map Some l) = Some (join_commas l).
Proof. induction l as [|a l IH]; [done|]. destruct l as [|b l]; [done|]. cbn [map] in *. cbn [php_scylladb_arguments_string] in *. rewrite IH. done. Qed.

(** A list method shows each element of a map under its name, and the lookup finds exactly these. *)
Lemma listed_map {A} (mk : A -> M nat) (nm : A -> bytes) (mt : A -> meta) s (m : std_map A) w :
  (forall x w, exists h w', mk x w = inr (h, w') /\ keeps w w' /\ shows w' s (LObject h) (mt x)) -> named_map nm m ->
  exists a w', (new_iterator;; a <~ each (fun x a => h <~ mk x; ret (add_assoc (nm x) (LObject h) a)) (map snd m) []; free_iterator;; ret (PArray a)) w = inr (PArray a, w') /\
    map fst a = map (fun n => symtable_key n) (map fst m) /\ Forall2 (fun e x => shows w' s (snd e) (mt x)) a (map snd m).
Proof.
  intros Hmk Hm. destruct (listed_shows mk nm mt s (map snd m) w Hmk) as (a & w' & E & _ & Hk & Hs).
  { rewrite (named_map_names _ _ Hm). apply map_sorted_nodup, Hm. }
  exists a, w'. split_and!; [done| |done]. rewrite Hk, <- (named_map_names _ _ Hm), !map_map. done.
Qed.

Lemma found_shows {A} (mk : A -> M nat) (mt : A -> meta) s (m : std_map A) name w :
  (forall x w, exists h w', mk x w = inr (h, w') /\ keeps w w' /\ shows w' s (LObject h) (mt x)) -> map_sorted m ->
  exists l w', (match map_find name m with None => leaf_ret (LValue ZFalse) | Some x => h <~ mk x; leaf_ret (LObject h) end) w = inr (PLeaf l, w') /\
    (forall x, (name, x) ∈ m -> shows w' s l (mt x)) /\ ((forall x, (name, x) ∉ m) -> l = LValue ZFalse).
Proof.
  intros Hmk Hs. destruct (map_find name m) as [x|] eqn:F.
  - destruct (Hmk x w) as (h & w' & E & _ & Sh). exists (LObject h), w'. split_and!.
    + by rewrite (bind_inr _ _ _ _ _ E).
    + intros y Hy. apply map_find_elem in Hy; [|done]. rewrite F in Hy. by injection Hy as <-.
    + intros Hn. apply map_find_elem in F; [|done]. by apply Hn in F.
  - exists (LValue ZFalse), w. split_and!; [done| |done]. intros y Hy. apply map_find_elem in Hy; [|done]. by rewrite F in Hy.
Qed.

(** What a list method and a lookup of a keyspace promise of one of its maps. *)
Definition lists_map {A} (w : world) (s : nat) (mt : A -> meta) (m : std_map A) (list_all : M pval) : Prop :=
  exists a w', list_all w = inr (PArray a, w') /\ map fst a = map symtable_key (map fst m) /\ Forall2 (fun e x => shows w' s (snd e) (mt x)) a (map snd m).
Definition finds_in {A} (w : world) (s : nat) (mt : A -> meta) (m : std_map A) (name : bytes) (lookup : M pval) : Prop :=
  exists l w', lookup w = inr (PLeaf l, w') /\ (forall x, (name, x) ∈ m -> shows w' s l (mt x)) /\ ((forall x, (name, x) ∉ m) -> l = LValue ZFalse).

(** The methods of a keyspace agree: [tables] and [materializedViews] make an array with an object for every table and view of the
    snapshot, under its name and in the order of names; [table] and [materializedView] give an object of the one with the name, or
    false when there is none; [function] finds a function by its name and the texts of its argument types, whatever white space they have. *)
Theorem keyspace_lookups w h s k :
  points_to w h s (MKeyspace k) -> named_map (fun t => tm_name (tm_base t)) (km_tables k) -> named_map view_name (km_views k) -> map_sorted (km_functions k) ->
  lists_map w s (MTable k) (km_tables k) (DefaultKeyspace_tables h) /\
  lists_map w s (MView k) (km_views k) (DefaultKeyspace_materializedViews h) /\
  (forall name, finds_in w s (MTable k) (km_tables k) name (DefaultKeyspace_table name h)) /\
  (forall name, finds_in w s (MView k) (km_views k) name (DefaultKeyspace_materializedView name h)) /\
  (forall name signature, Forall nonblank signature -> Forall nonblank (split_commas (join_commas signature)) \/ signature = [] ->
    finds_in w s MFunction (km_functions k) (full_function_name name signature) (DefaultKeyspace_function true name (map Some signature) h)).
Proof.
  intros Hp Ht Hv Hf. destruct (self_keyspace_points _ _ _ _ Hp) as [schema E]. split_and!.
  - unfold lists_map, DefaultKeyspace_tables. rewrite (bind_inr _ _ _ _ _ E). apply (listed_map _ _ (MTable k)); [|done]. intros. apply create_shows.
  - unfold lists_map, DefaultKeyspace_materializedViews. rewrite (bind_inr _ _ _ _ _ E). apply (listed_map _ _ (MView k)); [|done]. intros. apply create_shows.
  - intros name. unfold finds_in, DefaultKeyspace_table. rewrite (bind_inr _ _ _ _ _ E). apply (found_shows _ (MTable k)); [|apply Ht]. intros. apply create_shows.
  - intros name. unfold finds_in, DefaultKeyspace_materializedView. rewrite (bind_inr _ _ _ _ _ E). apply (found_shows _ (MView k)); [|apply Hv]. intros. apply create_shows.
  - intros name sg Hb Hb'. unfold finds_in, DefaultKeyspace_function, needs_legacy. rewrite arguments_string_all. destruct Hp as (o & Ho & Hm & Hs).
    rewrite (bind_inr _ _ w o w) by (unfold fetch; by rewrite Ho). rewrite (bind_inr _ _ _ _ _ E). cbv beta iota. unfold get_function. rewrite append_arguments_full by done.
    apply (found_shows _ MFunction); [|done]. intros. apply create_shows.
Qed.

(** *** Options *)

Section table_options.
Context {G : Gmp} (zend_hash : bytes -> Z) (depth : nat) (have_custom_type : bool).
Abbreviation visible := (visible zend_hash depth have_custom_type).
Abbreviation decodes := (decodes zend_hash depth have_custom_type).

Lemma visible_cut fields n name : map_sorted fields -> is_Some (map_find n fields) -> ends_options n = true -> strcmp n name < 0 -> visible fields name = None.
Proof.
  induction 1 as [|[x f] fields Hs IH Hall]; intros Hn He Hlt; [done|]. cbn [MetadataRead.visible]. destruct (ends_options x) eqn:Ex; [done|]. cbn [map_find] in Hn.
  destruct (Z.eqb_spec (strcmp n x) 0) as [->%strcmp_0|Hne]; [congruence|]. destruct (decide (x = name)) as [->|]; [|by apply IH].
  destruct Hn as [a Ha]. apply map_find_elem in Ha; [|done]. rewrite list.Forall_forall in Hall. specialize (Hall _ Ha). unfold key_lt in Hall. cbn [fst] in Hall.
  apply strcmp_swap in Hall. lia.
Qed.

Lemma visible_before fields name : map_sorted fields -> (forall n, is_Some (map_find n fields) -> ends_options n = true -> strcmp name n < 0) ->
  visible fields name = match map_find name fields with Some (Some (t, v)) => decodes t v | _ => None end.
Proof.
  induction 1 as [|[x f] fields Hs IH Hall]; intros Hb; [done|]. cbn [MetadataRead.visible map_find]. rewrite list.Forall_forall in Hall.
  destruct (ends_options x) eqn:Ex.
  - assert (strcmp name x < 0) as Hlt. { apply Hb; [|done]. cbn [map_find]. rewrite strcmp_refl. by eexists. }
    destruct (Z.eqb_spec (strcmp name x) 0); [lia|]. destruct (map_find name fields) as [g|] eqn:F; [|done].
    apply map_find_elem in F; [|done]. specialize (Hall _ F). unfold key_lt in Hall. cbn [fst] in Hall. apply strcmp_swap in Hall. lia.
  - destruct (decide (x = name)) as [->|Hne]; [by rewrite strcmp_refl|]. destruct (Z.eqb_spec (strcmp name x) 0) as [->%strcmp_0|Hne']; [done|]. apply IH.
    intros n Hn. apply Hb. cbn [map_find]. destruct (strcmp n x =? 0); [by eexists|done].
Qed.

Lemma add_fields_find_ne row names k fields : k ∉ names -> map_find k (add_fields row names fields) = map_find k fields.
Proof.
  unfold add_fields. revert fields. induction names as [|n names IH]; intros fields; [done|]. intros [Hn Hr]%not_elem_of_cons. cbn [fold_left]. rewrite IH by done. rewrite add_field_find. by rewrite decide_False.
Qed.

Lemma add_json_find_ne row parsed n k fields : k <> n -> map_find k (add_json_field row parsed n fields) = map_find k fields.
Proof.
  intros Hn. unfold add_json_field. destruct (row n) as [[t v]|]; [|done]. destruct (value_is_null v), (parsed n); rewrite ?map_find_put, ?decide_False by done; done.
Qed.

(** The first of the names that end the loop in the fields of a table. *)
Definition end_name (v3 : bool) (row : sys_row) : bytes :=
  if negb v3 && bool_decide (is_Some (row (bs "columnfamily_name"))) then bs "columnfamily_name" else bs "keyspace_name".

Lemma base_fields_no_family v3 row parsed : map_find (bs "columnfamily_name") (table_base_fields v3 row parsed) = None.
Proof.
  unfold table_base_fields. assert (forall names : list bytes, bool_decide (bs "columnfamily_name" ∈ names) = false -> bs "columnfamily_name" ∉ names) as K by (intros names H; by apply bool_decide_eq_false in H).
  assert (forall n : bytes, bool_decide (bs "columnfamily_name" = n) = false -> bs "columnfamily_name" <> n) as K' by (intros n H; by apply bool_decide_eq_false in H).
  destruct v3; cbv zeta.
  - rewrite !add_fields_find_ne by (apply K; by vm_compute). done.
  - rewrite add_fields_find_ne by (apply K; by vm_compute). rewrite add_json_find_ne by (apply K'; by vm_compute). rewrite add_fields_find_ne by (apply K; by vm_compute).
    rewrite !add_json_find_ne by (apply K'; by vm_compute). rewrite !add_fields_find_ne by (apply K; by vm_compute). done.
Qed.

Lemma family_present v3 row parsed : is_Some (map_find (bs "columnfamily_name") (table_fields v3 row parsed)) <-> v3 = false /\ is_Some (row (bs "columnfamily_name")).
Proof.
  unfold table_fields, table_column_name. destruct v3; cbv zeta; rewrite !add_field_find, base_fields_no_family.
  - rewrite !decide_False by (vm_compute; discriminate). split; [by intros [? H]|by intros [H _]].
  - rewrite decide_True by done. destruct (row (bs "columnfamily_name")) as [[t v]|]; [split; [by intros _; split|by intros _; eexists]|]. split; [by intros [? H]|by intros [_ [? H]]].
Qed.

Lemma keyspace_present v3 row parsed : is_Some (row (bs "keyspace_name")) -> is_Some (map_find (bs "keyspace_name") (table_fields v3 row parsed)).
Proof.
  intros [[t v] Hr]. assert (is_Some (map_find (bs "keyspace_name") (table_base_fields v3 row parsed))) as [f Hf].
  { unfold table_base_fields. cbv zeta. destruct v3; [apply add_fields_keeps|do 1 (apply add_fields_keeps, add_json_field_keeps, add_fields_keeps); do 3 apply add_json_field_keeps; apply add_fields_keeps];
      (change (add_fields row (?n :: ?l) []) with (add_fields row l (add_field row n [])); apply add_fields_keeps; rewrite add_field_find, decide_True, Hr by done; by eexists). }
  unfold table_fields. cbv zeta. destruct v3; rewrite ?add_field_find; rewrite ?Hf; repeat case_match; by eexists.
Qed.

(** A method on a table whose options are not computed yet. *)
Lemma getter_shows w h s k t g o : objects w !! h = Some o -> o_meta o = Some (s, MTable k t) -> is_Some (snapshots w !! s) -> slot_get Options o = None ->
  NoDup (map fst (tm_fields (tm_base t))) -> Forall (fun x => match snd x with Some (t, v) => ~ crashes zend_hash depth have_custom_type t v | None => True end) (tm_fields (tm_base t)) ->
  exists w', DefaultTable_getter zend_hash depth have_custom_type g h w = inr (PLeaf (LValue (default ZFalse (visible (tm_fields (tm_base t)) (option_name g)))), w').
Proof.
  intros Ho Hm Hs Hsl Hnd Hc. destruct (self_table_points w h s k t) as [schema E]; [by exists o|].
  destruct (build_options_shows zend_hash depth have_custom_type (tm_fields (tm_base t)) (option_name g) [] (set_iterators (S (iterators w)) w)) as (a & w' & E2 & K & Ha); [by destruct g; vm_compute|done|done|by intros n _ H%not_elem_of_nil|].
  assert (is_Some (objects w' !! h)) as [o' Ho'] by (destruct K as [_ K]; eexists; by apply (K h o)).
  unfold DefaultTable_getter, relation_option. eexists. erewrite (bind_inr (relation_options _ _ _ _ _)).
  2: { unfold relation_options, cached. rewrite (bind_inr _ _ w o w) by (unfold fetch; by rewrite Ho). rewrite Hsl.
       rewrite (bind_inr _ _ w (Some (PArray a)) (set_iterators (pred (iterators w')) w')).
       - unfold set_slot, bind. change (objects (set_iterators (pred (iterators w')) w')) with (objects w'). rewrite Ho'. reflexivity.
       - unfold build_options. rewrite (bind_inr (table_self h) _ w (schema, s, tm_base t) w) by (unfold table_self; by rewrite (bind_inr _ _ _ _ _ E)).
         unfold new_iterator. rewrite (bind_inr _ _ w tt (set_iterators (S (iterators w)) w)) by done. cbn [snd]. rewrite (bind_inr _ _ _ _ _ E2). done. }
  unfold leaf_ret, ret. rewrite Ha. by destruct (visible _ _).
Qed.
End table_options.

(** C36: What the methods of a table find of the server's options: the loop over the fields stops at the field of the keyspace's (on
    servers before 3.0, the table's) name, so an option is returned when its name comes before that in the order of names and its value can
    be decoded; [readRepairChance], [speculativeRetry] and all others whose names come later are false on every server, whatever it says. *)
Theorem table_options {G : Gmp} zend_hash depth have_custom_type w h s k t g o v3 row parsed :
  objects w !! h = Some o -> o_meta o = Some (s, MTable k t) -> is_Some (snapshots w !! s) -> slot_get Options o = None ->
  tm_fields (tm_base t) = table_fields v3 row parsed -> is_Some (row (bs "keyspace_name")) ->
  Forall (fun x => match snd x with Some (t, v) => ~ crashes zend_hash depth have_custom_type t v | None => True end) (tm_fields (tm_base t)) ->
  exists w' z, DefaultTable_getter zend_hash depth have_custom_type g h w = inr (PLeaf (LValue z), w') /\
    z = (if strcmp (option_name g) (end_name v3 row) <? 0
         then default ZFalse (match map_find (option_name g) (table_fields v3 row parsed) with Some (Some (t, v)) => decodes zend_hash depth have_custom_type t v | _ => None end)
         else ZFalse) /\
    (In g [ReadRepairChance; LocalReadRepairChance; MemtableFlushPeriodMs; SpeculativeRetry; PopulateIOCacheOnFlush; ReplicateOnWrite; MaxIndexInterval; MinIndexInterval] -> z = ZFalse).
Proof.
  intros Ho Hm Hs Hsl Hf Hrow Hc. pose proof (table_fields_sorted v3 row parsed) as Hsort.
  destruct (getter_shows zend_hash depth have_custom_type w h s k t g o Ho Hm Hs Hsl) as [w' E]; [rewrite Hf; by apply map_sorted_nodup|done|].
  assert (is_Some (map_find (end_name v3 row) (table_fields v3 row parsed)) /\ ends_options (end_name v3 row) = true) as [He Hends].
  { unfold end_name. destruct (negb v3 && _) eqn:B; [|split; [by apply keyspace_present|by vm_compute]]. apply andb_true_iff in B as [B1%negb_true_iff B2%bool_decide_eq_true]. split; [by apply family_present|by vm_compute]. }
  assert (strcmp (option_name g) (end_name v3 row) <> 0) as Hne by (unfold end_name; destruct g, (negb v3 && _); by vm_compute).
  exists w', (default ZFalse (visible zend_hash depth have_custom_type (table_fields v3 row parsed) (option_name g))). rewrite <- Hf at 1. split; [exact E|].
  assert (strcmp (option_name g) (end_name v3 row) > 0 -> visible zend_hash depth have_custom_type (table_fields v3 row parsed) (option_name g) = None) as Cut.
  { intros Hgt. apply (visible_cut _ _ _ _ (end_name v3 row)); [done..|]. apply strcmp_swap. lia. }
  split.
  - destruct (Z.ltb_spec (strcmp (option_name g) (end_name v3 row)) 0) as [Hlt|Hge]; [|by rewrite Cut by lia]. f_equal. apply visible_before; [done|].
    intros n Hn Hen. unfold ends_options in Hen. apply orb_true_iff in Hen as [[Hn1|Hn1]%orb_true_iff|Hn1]; apply bool_decide_eq_true in Hn1; subst n.
    + revert Hlt. unfold end_name. destruct (negb v3 && _); destruct g; by vm_compute.
    + revert Hlt. unfold end_name. destruct (negb v3 && _); destruct g; by vm_compute.
    + apply family_present in Hn as [-> Hr]. revert Hlt. unfold end_name. by rewrite bool_decide_eq_true_2.
  - intros Hin. rewrite Cut; [done|]. clear -Hin. unfold end_name. cbn in Hin. destruct (negb v3 && _); decompose [or] Hin; subst; try done; by vm_compute.
Qed.

(** *** Keys *)

Section keys.
Context (have_custom_type : bool).

(** A column of which an object can be made. *)
Definition readable (c : ColumnMetadata) : Prop :=
  forall schema s w, exists h w', php_scylladb_create_column have_custom_type schema s c w = inr (Some h, w') /\ keeps w w' /\ shows w' s (LObject h) (MColumn c).

(** The columns of servers since 3.0: no validator, and a type with an order, or no type. *)
Lemma column_readable c : get_field (bs "validator") (cm_fields c) = None ->
  match cm_data_type c with
  | None => True
  | Some _ => exists t v order p, get_field (bs "clustering_order") (cm_fields c) = Some (Some (t, v)) /\ value_is_null v = false /\ cass_value_get_bytes v = Success order p
  end -> readable c.
Proof.
  intros Hv Ho schema s w. unfold php_scylladb_create_column. rewrite Hv.
  assert (forall slots, exists h w', (h <~ create slots schema s (MColumn c); ret (Some h)) w = inr (Some h, w') /\ keeps w w' /\ shows w' s (LObject h) (MColumn c)) as K.
  { intros slots. destruct (create_shows slots schema s (MColumn c) w) as (h & w' & E & Hk & Hs). exists h, w'. by rewrite (bind_inr _ _ _ _ _ E). }
  destruct (cm_data_type c) as [ct|]; [|apply K]. destruct Ho as (t & v & order & p & -> & Hn & Hb).
  rewrite (bind_inr _ _ w (Some order) w); [apply K|]. unfold field_string. by rewrite Hn, Hb.
Qed.

Lemma populate_shows schema s cols a w : Forall readable cols -> map fst a = map (fun i => AtIndex (Z.of_nat i)) (seq 0 (length a)) ->
  exists b w', populate have_custom_type schema s (map Some cols) a w = inr (a ++ b, w') /\ keeps w w' /\
    map fst (a ++ b) = map (fun i => AtIndex (Z.of_nat i)) (seq 0 (length (a ++ b))) /\ Forall2 (fun e c => shows w' s (snd e) (MColumn c)) b cols.
Proof.
  unfold populate. revert a w. induction cols as [|c cols IH]; intros a w Hr Ha; cbn [map each].
  - exists [], w. rewrite app_nil_r. split_and!; [done|done|done|constructor].
  - apply Forall_cons_iff in Hr as [Hc Hr]. destruct (Hc schema s w) as (h & w1 & E & K & Sh). set (e := (AtIndex (zlen a), LObject h)).
    destruct (IH (a ++ [e]) w1 Hr) as (b & w2 & E2 & K2 & Hk & Hs).
    { rewrite map_app, length_app, seq_app, map_app, Ha. done. }
    exists (e :: b), w2. split_and!.
    + rewrite (bind_inr _ _ w (a ++ [e]) w1); [by rewrite E2, <- app_assoc|]. by rewrite (bind_inr _ _ _ _ _ E).
    + by eapply keeps_trans.
    + by rewrite <- app_assoc in Hk.
    + constructor; [by eapply shows_keeps|done].
Qed.

(** A slot keeps what was put into it. *)
Lemma cached_again h s mk w v w' o : objects w !! h = Some o -> slot_get s o = None -> mk w = inr (Some v, w') -> is_Some (objects w' !! h) ->
  exists w'', cached h s mk w = inr (v, w'') /\ snapshots w'' = snapshots w' /\ (forall x ox, x <> h -> objects w' !! x = Some ox -> objects w'' !! x = Some ox) /\ (forall mk', cached h s mk' w'' = inr (v, w'')).
Proof.
  intros Ho Hs Hm [o' Ho']. exists (set_objects (<[h := {| o_class := o_class o'; o_slots := (s, v) :: o_slots o'; o_schema := o_schema o'; o_meta := o_meta o' |}]> (objects w')) w'). split_and!.
  - unfold cached. rewrite (bind_inr _ _ w o w) by (unfold fetch; by rewrite Ho). rewrite Hs. rewrite (bind_inr _ _ _ _ _ Hm). unfold set_slot, bind. by rewrite Ho'.
  - done.
  - intros x ox Hne Hx. cbn. by rewrite lookup_insert_ne.
  - intros mk'. unfold cached. erewrite (bind_inr (fetch h)); [|unfold fetch; cbn; by rewrite lookup_insert_eq]. unfold slot_get. cbn. by rewrite bool_decide_eq_true_2.
Qed.
End keys.

(** The primary key of a table the driver has sorted: when the columns of each key have the positions from 0 on, and objects can be made of
    them, [primaryKey] returns the columns of the partition key and then those of the clustering key, each at its position; a second call
    returns the same objects. *)
Theorem primary_key_in_order have_custom_type w h s k t o name fields columns by_name :
  objects w !! h = Some o -> o_meta o = Some (s, MTable k t) -> is_Some (snapshots w !! s) -> slot_get PrimaryKey o = None ->
  tm_base t = build_keys_and_sort name fields columns by_name ->
  positions_ok PARTITION_KEY columns -> positions_ok CLUSTERING_KEY columns -> Forall (readable have_custom_type) columns ->
  exists pk ck a w',
    (forall c, c ∈ columns -> is_type PARTITION_KEY c = true -> pk !! Z.to_nat (cm_position c) = Some c) /\
    (forall c, c ∈ columns -> is_type CLUSTERING_KEY c = true -> ck !! Z.to_nat (cm_position c) = Some c) /\
    length pk = get_column_count PARTITION_KEY columns /\ length ck = get_column_count CLUSTERING_KEY columns /\
    DefaultTable_primaryKey have_custom_type h w = inr (PArray a, w') /\
    map fst a = map (fun i => AtIndex (Z.of_nat i)) (seq 0 (length (pk ++ ck))) /\
    Forall2 (fun e c => shows w' s (snd e) (MColumn c)) a (pk ++ ck) /\
    DefaultTable_primaryKey have_custom_type h w' = inr (PArray a, w').
Proof.
  intros Ho Hm Hs Hsl Ht Hp Hc Hr. destruct (key_complete _ _ Hp) as (pk & Epk & Lpk & Apk). destruct (key_complete _ _ Hc) as (ck & Eck & Lck & Ack).
  assert (tm_partition_key (tm_base t) = map Some pk /\ tm_clustering_key (tm_base t) = map Some ck) as [Tp Tc] by (rewrite Ht; unfold build_keys_and_sort; cbn; split; [exact Epk|exact Eck]).
  assert (Forall (readable have_custom_type) pk /\ Forall (readable have_custom_type) ck) as [Rp Rc].
  { assert (forall t l, fold_left (fun key c => place t Some c key) columns (replicate (get_column_count t columns) None) = map Some l -> Forall (readable have_custom_type) l) as K; [|split; by eapply K].
    intros ty l E. apply list.Forall_forall. intros c Hin. assert (Some c ∈ fold_left (fun key c => place ty Some c key) columns (replicate (get_column_count ty columns) None)) as Hin' by (rewrite E; by apply list_elem_of_fmap_2).
    assert (forall cs key, Some c ∈ fold_left (fun key c => place ty Some c key) cs key -> c ∈ cs \/ Some c ∈ key) as P.
    { clear. induction cs as [|d cs IH]; intros key; [by right|]. cbn [fold_left]. intros [H|H]%IH; [left; by right|]. unfold place in H. destruct (_ && _); [|by right].
      apply list_elem_of_lookup in H as [i Hi]. apply list_lookup_insert_Some in Hi as [(_ & [= ->] & _)|[_ Hi]]; [left; by left|right; by eapply list_elem_of_lookup_2]. }
    apply P in Hin' as [Hin'|Hin']; [|apply elem_of_replicate in Hin' as [? _]; done]. rewrite list.Forall_forall in Hr. by apply Hr. }
  assert (forall w0, keeps w w0 -> exists schema, table_self h w0 = inr ((schema, s, tm_base t), w0)) as Self.
  { intros w0 K0. destruct (self_table_points w0 h s k t) as [schema E]; [eapply points_keeps; [exact K0|by exists o]|]. exists schema. unfold table_self. by rewrite (bind_inr _ _ _ _ _ E). }
  destruct (Self w (keeps_refl w)) as [sch1 S1]. destruct (populate_shows have_custom_type sch1 s pk [] w Rp eq_refl) as (b1 & w1 & E1 & K1 & Hk1 & Hs1). cbn [app] in *.
  destruct (Self w1 K1) as [sch2 S2]. destruct (populate_shows have_custom_type sch2 s ck b1 w1 Rc Hk1) as (b2 & w2 & E2 & K2 & Hk2 & Hs2).
  assert (objects w2 !! h = Some o) as Ho2 by (destruct K1 as [_ K1], K2 as [_ K2]; by apply K2, K1).
  destruct (cached_again h PrimaryKey (a <~ populate_partition_key have_custom_type table_self h []; a <~ populate_clustering_key have_custom_type table_self h a; ret (Some (PArray a))) w (PArray (b1 ++ b2)) w2 o Ho Hsl) as (w3 & E3 & Sn3 & K3 & Again).
  { rewrite (bind_inr _ _ w b1 w1) by (unfold populate_partition_key; rewrite (bind_inr _ _ _ _ _ S1), Tp; exact E1).
    rewrite (bind_inr _ _ w1 (b1 ++ b2) w2) by (unfold populate_clustering_key; rewrite (bind_inr _ _ _ _ _ S2), Tc; exact E2). done. }
  { by exists o. }
  exists pk, ck, (b1 ++ b2), w3. split_and!; [done|done|done|done|exact E3| | |exact (Again _)].
  - rewrite Hk2. do 2 f_equal. rewrite !length_app. apply Forall2_length in Hs1. apply Forall2_length in Hs2. by rewrite Hs1, Hs2.
  - eapply list.Forall2_impl; [apply Forall2_app; [eapply list.Forall2_impl; [exact Hs1|]|exact Hs2]|].
    + intros e c Sh. exact (shows_keeps _ _ _ _ _ K2 Sh).
    + intros e c (x & ox & El & Hx & Mx). exists x, ox. split_and!; [done| |done]. apply K3; [|done]. intros ->. rewrite Ho2 in Hx. injection Hx as <-. by rewrite Hm in Mx.
Qed.

(** ** Concrete metadata: a keyspace with a table of three key columns, its partition key in another order than its columns *)

Definition example_row : sys_row := fun name =>
  if decide (name = bs "keyspace_name") then Some (text_field (bs "k")) else if decide (name = bs "table_name") then Some (text_field (bs "t"))
  else if decide (name = bs "comment") then Some (text_field (bs "hello")) else if decide (name = bs "speculative_retry") then Some (text_field (bs "99p")) else None.
Definition example_column (name : bytes) (t : CassColumnType) (position : Z) : ColumnMetadata :=
  {| cm_name := name; cm_type := t; cm_position := position; cm_data_type := Some (DSimple CASS_VALUE_TYPE_INT); cm_is_frozen := false; cm_is_reversed := false;
     cm_fields := [(bs "clustering_order", Some (text_field (bs "none")))] |}.
Definition example_columns : list ColumnMetadata := [example_column (bs "b") PARTITION_KEY 1; example_column (bs "c") CLUSTERING_KEY 0; example_column (bs "a") PARTITION_KEY 0].
Definition example_table : TableMetadata :=
  {| tm_base := build_keys_and_sort (bs "t") (table_fields true example_row (fun _ => None)) example_columns []; tm_views := []; tm_indexes := []; tm_indexes_by_name := [] |}.
Definition example_keyspace : KeyspaceMetadata :=
  {| km_fields := [(bs "keyspace_name", Some (text_field (bs "k")))]; km_tables := [(bs "t", example_table)]; km_views := []; km_user_types := []; km_functions := []; km_aggregates := [] |}.
Definition example_schema : SchemaSnapshot := {| sm_version := 1; sm_keyspaces := [(bs "k", example_keyspace)] |}.
(** What the calls leave. *)
Definition example_world : world :=
  match run (G := GmpModel.gmp) (fun _ => 0) 2 false false [Schema example_schema; Call 0 (SKeyspace (bs "k")); Call 1 (KTable (bs "t"))] start with
  | inr (_, w) => w
  | inl _ => start
  end.

Lemma keyspace_lookups_witness :
  points_to example_world 1 0 (MKeyspace example_keyspace) /\
  lists_map example_world 0 (MTable example_keyspace) (km_tables example_keyspace) (DefaultKeyspace_tables 1).
Proof.
  assert (points_to example_world 1 0 (MKeyspace example_keyspace)) as Hp.
  { exists {| o_class := CKeyspace; o_slots := []; o_schema := Some 0%nat; o_meta := Some (0%nat, MKeyspace example_keyspace) |}. split; [vm_compute; reflexivity|]. split; [reflexivity|]. vm_compute. by eexists. }
  split; [exact Hp|].
  refine (proj1 (keyspace_lookups example_world 1 0 example_keyspace Hp _ _ _)).
  - split; [repeat constructor|]. by repeat constructor.
  - split; constructor.
  - constructor.
Defined.

Lemma table_options_witness :
  (exists w', DefaultTable_getter (G := GmpModel.gmp) (fun _ => 0) 2 false Comment 2 example_world = inr (PLeaf (LValue (ZString (bs "hello"))), w')) /\
  (exists w', DefaultTable_getter (G := GmpModel.gmp) (fun _ => 0) 2 false SpeculativeRetry 2 example_world = inr (PLeaf (LValue ZFalse), w')).
Proof.
  assert (forall g, exists w' z, DefaultTable_getter (G := GmpModel.gmp) (fun _ => 0) 2 false g 2 example_world = inr (PLeaf (LValue z), w') /\
    z = (if strcmp (option_name g) (end_name true example_row) <? 0
         then default ZFalse (match map_find (option_name g) (table_fields true example_row (fun _ => None)) with Some (Some (t, v)) => decodes (G := GmpModel.gmp) (fun _ => 0) 2 false t v | _ => None end)
         else ZFalse)) as K.
  { intros g. destruct (table_options (G := GmpModel.gmp) (fun _ => 0) 2 false example_world 2 0 example_keyspace example_table g
      {| o_class := CTable; o_slots := [(Name, PLeaf (text (bs "t")))]; o_schema := Some 0%nat; o_meta := Some (0%nat, MTable example_keyspace example_table) |}
      true example_row (fun _ => None)) as (w' & z & E & Hz & _); try reflexivity.
    - vm_compute. by eexists.
    - vm_compute. by eexists.
    - let l := eval vm_compute in (tm_fields (tm_base example_table)) in change (tm_fields (tm_base example_table)) with l.
      repeat (apply Forall_cons; [try exact I; vm_compute; discriminate|]). apply Forall_nil.
    - by exists w', z. }
  split; [destruct (K Comment) as (w' & z & E & Hz)|destruct (K SpeculativeRetry) as (w' & z & E & Hz)]; exists w'; rewrite E, Hz; vm_compute; reflexivity.
Defined.

Lemma primary_key_witness : exists a w', DefaultTable_primaryKey false 2 example_world = inr (PArray a, w') /\
  Forall2 (fun e c => shows w' 0 (snd e) (MColumn c)) a [example_column (bs "a") PARTITION_KEY 0; example_column (bs "b") PARTITION_KEY 1; example_column (bs "c") CLUSTERING_KEY 0].
Proof.
  destruct (primary_key_in_order false example_world 2 0 example_keyspace example_table
    {| o_class := CTable; o_slots := [(Name, PLeaf (text (bs "t")))]; o_schema := Some 0%nat; o_meta := Some (0%nat, MTable example_keyspace example_table) |}
    (bs "t") (table_fields true example_row (fun _ => None)) example_columns []) as (pk & ck & a & w' & Hp & Hc & Lp & Lc & E & _ & Hs & _); try reflexivity.
  - vm_compute. by eexists.
  - split; [vm_compute; repeat constructor; set_solver|vm_compute; repeat constructor; discriminate].
  - split; [vm_compute; repeat constructor; set_solver|vm_compute; repeat constructor; discriminate].
  - repeat constructor; (apply column_readable; [reflexivity|]); do 4 eexists; (split; [reflexivity|split; reflexivity]).
  - exists a, w'. split; [exact E|]. destruct pk as [|p1 [|p2 [|]]], ck as [|c1 [|]]; try discriminate.
    assert (p2 = example_column (bs "b") PARTITION_KEY 1) as -> by (assert (Some p2 = Some (example_column (bs "b") PARTITION_KEY 1)) as K by (apply (Hp (example_column (bs "b") PARTITION_KEY 1)); [by left|reflexivity]); by injection K).
    assert (p1 = example_column (bs "a") PARTITION_KEY 0) as -> by (assert (Some p1 = Some (example_column (bs "a") PARTITION_KEY 0)) as K by (apply (Hp (example_column (bs "a") PARTITION_KEY 0)); [by right; right; left|reflexivity]); by injection K).
    assert (c1 = example_column (bs "c") CLUSTERING_KEY 0) as -> by (assert (Some c1 = Some (example_column (bs "c") CLUSTERING_KEY 0)) as K by (apply (Hc (example_column (bs "c") CLUSTERING_KEY 0)); [by right; left|reflexivity]); by injection K).
    exact Hs.
Defined.
