(* ===== verification/TypeObjects.v ===== *)
(** The types as objects of PHP code (src/Type.c, src/Type/TypeFactory.c and the classes of src/Type/):
    the factories of [Cassandra\Type], the names and the text of types, and the type of the driver
    that every object carries.

    A type object is the type it stands for with its [data_type]; both never change once the object
    is returned, so sharing is not visible.  Scalar types are made once and kept; a copy is the
    same. *)
From stdpp Require Import sets.
From S2P Require Import Prelude NumberParser DriverErrors Types Values DataTypes Conversions.
#[local] Open Scope Z_scope.

(** ** The driver's types *)

Definition CASS_VALUE_TYPE_LAST_ENTRY : Z := 50.
Definition CASS_VALUE_TYPE_UNKNOWN : Z := 0xffff.

Definition cass_data_type_new (type : Z) : option CassDataType :=
  if is_collection_type type || (type =? CASS_VALUE_TYPE_TUPLE) then Some (DComposite type [])
  else if type =? CASS_VALUE_TYPE_UDT then Some (DUser [] [] [])
  else if type =? CASS_VALUE_TYPE_CUSTOM then Some (DCustom [])
  else if type =? CASS_VALUE_TYPE_UNKNOWN then None
  else if type <? CASS_VALUE_TYPE_LAST_ENTRY then Some (DSimple type) else None.

Definition cass_data_type_add_sub_type (data_type sub_data_type : CassDataType) : CassError + CassDataType :=
  match data_type with
  | DComposite vt l =>
      if (vt =? CASS_VALUE_TYPE_LIST) || (vt =? CASS_VALUE_TYPE_SET)
      then if 1 <=? zlen l then inl CASS_ERROR_LIB_BAD_PARAMS else inr (DComposite vt (l ++ [sub_data_type]))
      else if vt =? CASS_VALUE_TYPE_MAP
      then if 2 <=? zlen l then inl CASS_ERROR_LIB_BAD_PARAMS else inr (DComposite vt (l ++ [sub_data_type]))
      else inr (DComposite vt (l ++ [sub_data_type]))
  | _ => inl CASS_ERROR_LIB_INVALID_VALUE_TYPE
  end.

(** [UserType::add_field] appends; names may repeat. *)
Definition cass_data_type_add_sub_type_by_name_n (data_type : CassDataType) (name : bytes) (sub_data_type : CassDataType) : CassError + CassDataType :=
  match data_type with
  | DUser ks n l => inr (DUser ks n (l ++ [(name, sub_data_type)]))
  | _ => inl CASS_ERROR_LIB_INVALID_VALUE_TYPE
  end.

Definition cass_data_type_set_type_name_n (data_type : CassDataType) (type_name : bytes) : CassError + CassDataType :=
  match data_type with DUser ks _ l => inr (DUser ks type_name l) | _ => inl CASS_ERROR_LIB_INVALID_VALUE_TYPE end.

Definition cass_data_type_set_keyspace_n (data_type : CassDataType) (keyspace : bytes) : CassError + CassDataType :=
  match data_type with DUser _ n l => inr (DUser keyspace n l) | _ => inl CASS_ERROR_LIB_INVALID_VALUE_TYPE end.

(** ** Names *)

(** [XX_SCALAR], the names of [PHP_SCYLLADB_SCALAR_TYPES_MAP] *)
Definition scalar_names : list (Z * bytes) :=
  [(CASS_VALUE_TYPE_ASCII, bs "ascii"); (CASS_VALUE_TYPE_BIGINT, bs "bigint"); (CASS_VALUE_TYPE_SMALL_INT, bs "smallint");
   (CASS_VALUE_TYPE_TINY_INT, bs "tinyint"); (CASS_VALUE_TYPE_BLOB, bs "blob"); (CASS_VALUE_TYPE_BOOLEAN, bs "boolean");
   (CASS_VALUE_TYPE_COUNTER, bs "counter"); (CASS_VALUE_TYPE_DECIMAL, bs "decimal"); (CASS_VALUE_TYPE_DOUBLE, bs "double");
   (CASS_VALUE_TYPE_DURATION, bs "duration"); (CASS_VALUE_TYPE_FLOAT, bs "float"); (CASS_VALUE_TYPE_INT, bs "int");
   (CASS_VALUE_TYPE_TEXT, bs "text"); (CASS_VALUE_TYPE_TIMESTAMP, bs "timestamp"); (CASS_VALUE_TYPE_DATE, bs "date");
   (CASS_VALUE_TYPE_TIME, bs "time"); (CASS_VALUE_TYPE_UUID, bs "uuid"); (CASS_VALUE_TYPE_VARCHAR, bs "varchar");
   (CASS_VALUE_TYPE_VARINT, bs "varint"); (CASS_VALUE_TYPE_TIMEUUID, bs "timeuuid"); (CASS_VALUE_TYPE_INET, bs "inet")].

Definition php_scylladb_scalar_type_name (type : Z) : bytes :=
  match List.find (fun p => fst p =? type) scalar_names with Some (_, name) => name | None => bs "invalid" end.

(** [php_scylladb_value_type]; [None] is thrown as an unsupported type. *)
Definition php_scylladb_value_type (type : bytes) : option Z :=
  if bool_decide (type = bs "ascii") then Some CASS_VALUE_TYPE_ASCII
  else if bool_decide (type = bs "bigint") then Some CASS_VALUE_TYPE_BIGINT
  else if bool_decide (type = bs "smallint") then Some CASS_VALUE_TYPE_SMALL_INT
  else if bool_decide (type = bs "tinyint") then Some CASS_VALUE_TYPE_TINY_INT
  else if bool_decide (type = bs "blob") then Some CASS_VALUE_TYPE_BLOB
  else if bool_decide (type = bs "boolean") then Some CASS_VALUE_TYPE_BOOLEAN
  else if bool_decide (type = bs "counter") then Some CASS_VALUE_TYPE_COUNTER
  else if bool_decide (type = bs "decimal") then Some CASS_VALUE_TYPE_DECIMAL
  else if bool_decide (type = bs "duration") then Some CASS_VALUE_TYPE_DURATION
  else if bool_decide (type = bs "double") then Some CASS_VALUE_TYPE_DOUBLE
  else if bool_decide (type = bs "float") then Some CASS_VALUE_TYPE_FLOAT
  else if bool_decide (type = bs "int") then Some CASS_VALUE_TYPE_INT
  else if bool_decide (type = bs "text") then Some CASS_VALUE_TYPE_TEXT
  else if bool_decide (type = bs "timestamp") then Some CASS_VALUE_TYPE_TIMESTAMP
  else if bool_decide (type = bs "date") then Some CASS_VALUE_TYPE_DATE
  else if bool_decide (type = bs "time") then Some CASS_VALUE_TYPE_TIME
  else if bool_decide (type = bs "uuid") then Some CASS_VALUE_TYPE_UUID
  else if bool_decide (type = bs "varchar") then Some CASS_VALUE_TYPE_VARCHAR
  else if bool_decide (type = bs "varint") then Some CASS_VALUE_TYPE_VARINT
  else if bool_decide (type = bs "timeuuid") then Some CASS_VALUE_TYPE_TIMEUUID
  else if bool_decide (type = bs "inet") then Some CASS_VALUE_TYPE_INET
  else None.

(** The elements of a type's text, separated by commas. *)
Definition type_list_string (l : list bytes) : bytes :=
  match l with [] => [] | x :: r => x ++ concat (map (fun y => bs ", " ++ y) r) end.

Fixpoint php_scylladb_type_string (type : php_scylladb_type) : bytes :=
  match type with
  | TScalar c => php_scylladb_scalar_type_name c
  | TCollection v => bs "list<" ++ php_scylladb_type_string v ++ bs ">"
  | TMap k v => bs "map<" ++ php_scylladb_type_string k ++ bs ", " ++ php_scylladb_type_string v ++ bs ">"
  | TSet v => bs "set<" ++ php_scylladb_type_string v ++ bs ">"
  | TTuple l => bs "tuple<" ++ type_list_string (map php_scylladb_type_string l) ++ bs ">"
  | TUserType keyspace type_name l =>
      match type_name with
      | Some name => match keyspace with Some ks => ks ++ bs "." | None => [] end ++ name
      | None => bs "userType<" ++ type_list_string (map (fun f => fst f ++ bs ":" ++ php_scylladb_type_string (snd f)) l) ++ bs ">"
      end
  | TCustom _ => bs "invalid"
  end.

(** ** Type objects *)

Record type_object := { of_type : php_scylladb_type; type_data : CassDataType }.

(** What PHP code passes where a type is expected. *)
Inductive type_arg :=
| AType (t : type_object)
| AForeign                   (* an object of a class that PHP code derived from [Cassandra\Type] *)
| AValue (v : zval).

Inductive type_exception :=
| UnsupportedType (name : bytes)
| InvalidType
| NotAType (object_name : bytes)               (* "... must be a valid Cassandra\Type" *)
| NeitherNameNorType (object_name : bytes)     (* "... must be a string or an instance of Cassandra\Type" *)
| NotAString (argument : Z)                    (* "Argument %d is not a string" *)
| NotPairs
| WrongClass                                   (* the engine's TypeError *)
| NotInstantiable.

(** [Fault]: a value that is no object is read as one. *)
Inductive outcome (A : Type) :=
| Done (a : A)
| Thrown (e : type_exception)
| Fault.
Arguments Done {A}. Arguments Thrown {A}. Arguments Fault {A}.

Definition outcome_bind {A B} (m : outcome A) (f : A -> outcome B) : outcome B :=
  match m with Done a => f a | Thrown e => Thrown e | Fault => Fault end.
Notation "x <+ m ; k" := (outcome_bind m (fun x => k)) (at level 100, m at level 200, k at level 200, right associativity).

(** [Z_OBJCE_P] of a value *)
Definition is_object (v : zval) : bool := z_type v =? 8.

(** [php_scylladb_type_validate]: the type object. *)
Definition php_scylladb_type_validate (object : type_arg) (object_name : bytes) : outcome type_object :=
  match object with
  | AType t => match of_type t with TCustom _ => Thrown (NotAType object_name) | _ => Done t end
  | AForeign => Thrown (NotAType object_name)
  | AValue v => if is_object v then Thrown (NotAType object_name) else Fault
  end.

(** ** Making types *)

Definition php_scylladb_type_scalar (type : Z) : outcome type_object :=
  if is_scalar_type type
  then match cass_data_type_new type with Some d => Done {| of_type := TScalar type; type_data := d |} | None => Thrown InvalidType end
  else Thrown InvalidType.

(** A result that is not looked at. *)
Definition ignoring (d : CassDataType) (r : CassError + CassDataType) : CassDataType := match r with inr d' => d' | inl _ => d end.
Definition with_sub_type (d : CassDataType) (sub : type_object) : CassDataType := ignoring d (cass_data_type_add_sub_type d (type_data sub)).

Definition php_scylladb_type_collection (value_type : type_object) : type_object :=
  {| of_type := TCollection (of_type value_type); type_data := with_sub_type (DComposite CASS_VALUE_TYPE_LIST []) value_type |}.
Definition php_scylladb_type_set (value_type : type_object) : type_object :=
  {| of_type := TSet (of_type value_type); type_data := with_sub_type (DComposite CASS_VALUE_TYPE_SET []) value_type |}.
Definition php_scylladb_type_map (key_type value_type : type_object) : type_object :=
  {| of_type := TMap (of_type key_type) (of_type value_type);
     type_data := with_sub_type (with_sub_type (DComposite CASS_VALUE_TYPE_MAP []) key_type) value_type |}.

Definition php_scylladb_type_collection_from_value_type (type : Z) : outcome type_object := v <+ php_scylladb_type_scalar type; Done (php_scylladb_type_collection v).
Definition php_scylladb_type_set_from_value_type (type : Z) : outcome type_object := v <+ php_scylladb_type_scalar type; Done (php_scylladb_type_set v).

Definition php_scylladb_type_tuple : type_object := {| of_type := TTuple []; type_data := DComposite CASS_VALUE_TYPE_TUPLE [] |}.
Definition php_scylladb_type_user_type : type_object := {| of_type := TUserType None None []; type_data := DUser [] [] [] |}.

(** [zend_hash_add] *)
Definition zend_hash_add {V} (name : bytes) (v : V) (l : list (bytes * V)) : list (bytes * V) :=
  if existsb (fun f => bool_decide (fst f = name)) l then l else l ++ [(name, v)].

(** [None]: 0 was returned. *)
Definition php_scylladb_type_tuple_add (type sub_type : type_object) : option type_object :=
  match of_type type, cass_data_type_add_sub_type (type_data type) (type_data sub_type) with
  | TTuple l, inr d => Some {| of_type := TTuple (l ++ [of_type sub_type]); type_data := d |}
  | _, _ => None
  end.

Definition php_scylladb_type_user_type_add (type : type_object) (name : bytes) (sub_type : type_object) : option type_object :=
  match of_type type, cass_data_type_add_sub_type_by_name_n (type_data type) name (type_data sub_type) with
  | TUserType ks n l, inr d => Some {| of_type := TUserType ks n (zend_hash_add name (of_type sub_type) l); type_data := d |}
  | _, _ => None
  end.

(** The arguments after the loops that check them. *)
Fixpoint validated_types (args : list type_arg) (object_name : bytes) : outcome (list type_object) :=
  match args with
  | [] => Done []
  | a :: r => t <+ php_scylladb_type_validate a object_name; ts <+ validated_types r object_name; Done (t :: ts)
  end.

Fixpoint validated_fields (i : Z) (args : list type_arg) : outcome (list (bytes * type_object)) :=
  match args with
  | name :: sub_type :: r =>
      match name with
      | AValue (ZString s) => t <+ php_scylladb_type_validate sub_type (bs "type"); fs <+ validated_fields (i + 2) r; Done ((s, t) :: fs)
      | _ => Thrown (NotAString (i + 1))
      end
  | _ => Done []
  end.

(** The loops that add them, which stop at the first failure. *)
Fixpoint tuple_add_all (type : type_object) (l : list type_object) : type_object :=
  match l with [] => type | t :: r => match php_scylladb_type_tuple_add type t with Some type' => tuple_add_all type' r | None => type end end.

Fixpoint user_type_add_all (type : type_object) (l : list (bytes * type_object)) : type_object :=
  match l with
  | [] => type
  | (name, t) :: r => match php_scylladb_type_user_type_add type name t with Some type' => user_type_add_all type' r | None => type end
  end.

(** [Z_PARAM_OBJECT_OF_CLASS] *)
Definition object_of_class (a : type_arg) : outcome type_arg := match a with AValue _ => Thrown WrongClass | _ => Done a end.

(** [Type::ascii] and the like *)
Definition Type_scalar (type : Z) : outcome type_object := php_scylladb_type_scalar type.

Definition Type_collection (value_type : type_arg) : outcome type_object :=
  a <+ object_of_class value_type; t <+ php_scylladb_type_validate a (bs "type"); Done (php_scylladb_type_collection t).

Definition Type_set (value_type : type_arg) : outcome type_object :=
  a <+ object_of_class value_type; t <+ php_scylladb_type_validate a (bs "type"); Done (php_scylladb_type_set t).

Definition Type_map (key_type value_type : type_arg) : outcome type_object :=
  k <+ object_of_class key_type; v <+ object_of_class value_type;
  tk <+ php_scylladb_type_validate k (bs "keyType"); tv <+ php_scylladb_type_validate v (bs "valueType");
  Done (php_scylladb_type_map tk tv).

Definition Type_tuple (args : list type_arg) : outcome type_object :=
  ts <+ validated_types args (bs "type"); Done (tuple_add_all php_scylladb_type_tuple ts).

Definition Type_userType (args : list type_arg) : outcome type_object :=
  if Nat.odd (length args) then Thrown NotPairs
  else fs <+ validated_fields 0 args; Done (user_type_add_all php_scylladb_type_user_type fs).

(** ** Methods of the type classes *)

(** [name()]: of a user type its own, null when it has none. *)
Definition Type_name (t : type_object) : option bytes :=
  match of_type t with
  | TScalar c => Some (php_scylladb_scalar_type_name c)
  | TCustom class_name => Some class_name
  | TCollection _ => Some (bs "list")
  | TMap _ _ => Some (bs "map")
  | TSet _ => Some (bs "set")
  | TTuple _ => Some (bs "tuple")
  | TUserType _ type_name _ => type_name
  end.

(** [__toString()]: the text passes through a C string, but for scalar and custom types. *)
Definition Type_toString (t : type_object) : bytes :=
  match of_type t with
  | TScalar c => php_scylladb_scalar_type_name c
  | TCustom class_name => class_name
  | type => c_string (php_scylladb_type_string type)
  end.

(** [ASSERT_SUCCESS] of the driver's setter cannot fail on a user type. *)
Definition UserType_withName (self : type_object) (name : bytes) : option type_object :=
  match of_type self, cass_data_type_set_type_name_n (type_data self) name with
  | TUserType ks _ l, inr d => Some {| of_type := TUserType ks (Some name) l; type_data := d |}
  | _, _ => None
  end.

Definition UserType_withKeyspace (self : type_object) (keyspace : bytes) : option type_object :=
  match of_type self, cass_data_type_set_keyspace_n (type_data self) keyspace with
  | TUserType _ n l, inr d => Some {| of_type := TUserType (Some keyspace) n l; type_data := d |}
  | _, _ => None
  end.

Definition UserType_keyspace (self : type_object) : option bytes := match of_type self with TUserType ks _ _ => ks | _ => None end.
Definition UserType_types (self : type_object) : list (bytes * php_scylladb_type) := match of_type self with TUserType _ _ l => l | _ => [] end.
Definition Tuple_types (self : type_object) : list php_scylladb_type := match of_type self with TTuple l => l | _ => [] end.
Definition Type_valueType (self : type_object) : option php_scylladb_type :=
  match of_type self with TCollection v | TSet v | TMap _ v => Some v | _ => None end.
Definition Type_keyType (self : type_object) : option php_scylladb_type := match of_type self with TMap k _ => Some k | _ => None end.

(** [new Type\Tuple] and the like *)
Definition Type_construct : outcome type_object := Thrown NotInstantiable.

(** ** The constructors of sets, maps and collections: a type by its name or by its object *)

(** The name in the message of the type that is refused is that of the parameter: [validate_name] where
    the object is validated, [argument_name] where it is neither. *)
Definition type_argument (a : type_arg) (validate_name argument_name : bytes) : outcome type_object :=
  match a with
  | AValue (ZString s) =>
      match php_scylladb_value_type s with Some c => php_scylladb_type_scalar c | None => Thrown (UnsupportedType s) end
  | AType _ | AForeign => php_scylladb_type_validate a validate_name
  | AValue _ => Thrown (NeitherNameNorType argument_name)
  end.

Definition Set_construct (type : type_arg) : outcome type_object := t <+ type_argument type (bs "type") (bs "type"); Done (php_scylladb_type_set t).
Definition Collection_construct (type : type_arg) : outcome type_object := t <+ type_argument type (bs "type") (bs "type"); Done (php_scylladb_type_collection t).
Definition Map_construct (key_type value_type : type_arg) : outcome type_object :=
  k <+ type_argument key_type (bs "keyType") (bs "keyType"); v <+ type_argument value_type (bs "valueType") (bs "valueType"); Done (php_scylladb_type_map k v).

(** ** Objects agree with the driver *)

(** A user type without a name has the empty name in the driver. *)
Definition driver_name (name : option bytes) : bytes := default [] name.

(** The type objects that PHP code can make. *)
Inductive made : type_object -> Prop :=
| made_scalar type o : Type_scalar type = Done o -> made o
| made_collection a o : made a -> Type_collection (AType a) = Done o -> made o
| made_set a o : made a -> Type_set (AType a) = Done o -> made o
| made_map a b o : made a -> made b -> Type_map (AType a) (AType b) = Done o -> made o
| made_tuple args o : (forall a, AType a ∈ args -> made a) -> Type_tuple args = Done o -> made o
| made_user_type args o : (forall a, AType a ∈ args -> made a) -> Type_userType args = Done o -> made o
| made_with_name a name o : made a -> UserType_withName a name = Some o -> made o
| made_with_keyspace a keyspace o : made a -> UserType_withKeyspace a keyspace = Some o -> made o.

(** The driver's type without the fields whose names came before. *)
Definition keep_first {V} (l : list (bytes * V)) : list (bytes * V) := fold_left (fun acc f => zend_hash_add (fst f) (snd f) acc) l [].

Fixpoint first_fields (t : CassDataType) : CassDataType :=
  match t with
  | DComposite vt l => DComposite vt (map first_fields l)
  | DUser ks n l => DUser ks n (keep_first (map (fun f => (fst f, first_fields (snd f))) l))
  | t => t
  end.

(** No name repeats. *)
Fixpoint distinct_fields (t : CassDataType) : bool :=
  match t with
  | DComposite _ l => forallb distinct_fields l
  | DUser _ _ l => bool_decide (NoDup (map fst l)) && forallb (fun f => distinct_fields (snd f)) l
  | _ => true
  end.

Lemma zend_hash_add_map {V W} (g : V -> W) name v l :
  map (fun f => (fst f, g (snd f))) (zend_hash_add name v l) = zend_hash_add name (g v) (map (fun f => (fst f, g (snd f))) l).
Proof.
  unfold zend_hash_add. replace (existsb _ (map _ l)) with (existsb (fun f => bool_decide (fst f = name)) l).
  - case_match; [done|]. by rewrite map_app.
  - induction l as [|f l IH]; [done|]. cbn [existsb map fst]. by rewrite IH.
Qed.

Lemma zend_hash_add_new {V} name (v : V) l : name ∉ map fst l -> zend_hash_add name v l = l ++ [(name, v)].
Proof.
  intros H. unfold zend_hash_add. destruct (existsb _ l) eqn:E; [|done]. apply existsb_exists in E as (f & Hin & E).
  apply bool_decide_eq_true in E as <-. destruct H. apply list_elem_of_In, in_map, Hin.
Qed.

Lemma keep_first_snoc {V} (l : list (bytes * V)) f : keep_first (l ++ [f]) = zend_hash_add (fst f) (snd f) (keep_first l).
Proof. unfold keep_first. by rewrite fold_left_app. Qed.

Lemma keep_first_distinct {V} (l : list (bytes * V)) : NoDup (map fst l) -> keep_first l = l.
Proof.
  induction l as [|[n v] l IH] using rev_ind; [done|]. rewrite map_app. intros H. apply list.NoDup_app in H as (H1 & H2 & _).
  rewrite keep_first_snoc, IH by done. apply zend_hash_add_new. intros Hin. apply (H2 n Hin). by left.
Qed.

Section data_type_induction.
Context (P : CassDataType -> Prop) (Hsimple : forall vt, P (DSimple vt)) (Hcustom : forall c, P (DCustom c)).
Context (Hcomposite : forall vt l, Forall P l -> P (DComposite vt l)).
Context (Huser : forall ks n l, Forall (fun f => P (snd f)) l -> P (DUser ks n l)).

Fixpoint data_type_rec (t : CassDataType) : P t :=
  match t with
  | DSimple vt => Hsimple vt
  | DCustom c => Hcustom c
  | DComposite vt l =>
      Hcomposite vt l ((fix go l : Forall P l := match l with [] => @List.Forall_nil _ P | x :: l' => @List.Forall_cons _ P x l' (data_type_rec x) (go l') end) l)
  | DUser ks n l =>
      let Q := fun f : bytes * CassDataType => P (snd f) in
      Huser ks n l ((fix go l : Forall Q l := match l with [] => @List.Forall_nil _ Q | x :: l' => @List.Forall_cons _ Q x l' (data_type_rec (snd x)) (go l') end) l)
  end.
End data_type_induction.

Lemma first_fields_distinct t : distinct_fields t = true -> first_fields t = t.
Proof.
  induction t as [vt|c|vt l IH|ks n l IH] using data_type_rec; cbn; [done|done|..].
  - intros H. f_equal. induction IH as [|x l Hx _ IH]; [done|]. cbn in *. apply andb_prop in H as [H1 H2]. by rewrite Hx, IH.
  - intros [Hn H]%andb_prop. apply bool_decide_eq_true in Hn. replace (map _ l) with l; [by rewrite keep_first_distinct|].
    clear Hn. induction IH as [|[nm x] l Hx _ IH]; [done|]. cbn in *. apply andb_prop in H as [H1 H2]. by rewrite Hx, <- IH.
Qed.

(** The type of an object is that of the driver, up to repeated fields. *)
Definition agrees (o : type_object) : Prop := data_type_of driver_name (of_type o) = first_fields (type_data o).

(** A type that may be part of another. *)
Definition usable (o : type_object) : Prop := agrees o /\ match of_type o with TCustom _ => False | _ => True end.

Lemma outcome_done {A B} (m : outcome A) (f : A -> outcome B) b : outcome_bind m f = Done b -> exists a, m = Done a /\ f a = Done b.
Proof. destruct m; cbn; [by eauto|done..]. Qed.

(** Splits a call that was done into its steps. *)
Ltac steps H := repeat (let E := fresh "E" in apply outcome_done in H as (? & E & H)).

Lemma validate_usable o what : usable o -> php_scylladb_type_validate (AType o) what = Done o.
Proof. intros [_ H]. cbn. by destruct (of_type o). Qed.

Lemma validate_done a what o : php_scylladb_type_validate a what = Done o -> a = AType o.
Proof. destruct a as [t| |v]; cbn; [by destruct (of_type t); intros [= ->]|done|by case_match]. Qed.

Lemma scalar_usable type o : php_scylladb_type_scalar type = Done o -> usable o.
Proof.
  unfold php_scylladb_type_scalar. destruct (is_scalar_type type) eqn:Hs; [|done].
  unfold is_scalar_type in Hs. apply existsb_exists in Hs as (c & Hin & E). apply Z.eqb_eq in E. subst c.
  revert o. repeat (destruct Hin as [<-|Hin]; [by intros o [= <-]|]). by destruct Hin.
Qed.

Lemma tuple_add_all_usable ts : Forall usable ts -> forall o, usable o -> (exists l d, o = {| of_type := TTuple l; type_data := DComposite CASS_VALUE_TYPE_TUPLE d |}) ->
  usable (tuple_add_all o ts).
Proof.
  induction 1 as [|t ts [Ht _] _ IH]; intros o Ho (l & d & ->); [done|]. cbn. apply IH; [|by eauto]. destruct Ho as [Ho _]. split; [|done].
  unfold agrees in *. cbn in *. injection Ho as Ho. unfold agrees in Ht. rewrite !map_app. cbn [map]. by rewrite Ho, Ht.
Qed.

Lemma user_type_add_all_usable fs : Forall (fun f => usable (snd f)) fs -> forall o, usable o ->
  (exists ks n l ks' n' d, o = {| of_type := TUserType ks n l; type_data := DUser ks' n' d |}) -> usable (user_type_add_all o fs).
Proof.
  induction 1 as [|[nm t] fs [Ht _] _ IH]; intros o Ho (ks & n & l & ks' & n' & d & ->); [done|]. cbn. apply IH; [|by eauto 10]. destruct Ho as [Ho _]. split; [|done].
  unfold agrees in *. cbn in *. injection Ho as -> -> Ho.
  rewrite (zend_hash_add_map (data_type_of driver_name)), map_app. cbn [map fst snd]. unfold agrees in Ht. by rewrite keep_first_snoc, Ho, Ht.
Qed.

Lemma validated_types_made (P : type_object -> Prop) args what ts :
  (forall a, AType a ∈ args -> P a) -> validated_types args what = Done ts -> Forall P ts.
Proof.
  revert ts. induction args as [|a args IH]; cbn; intros ts HP H; [by injection H as <-|]. steps H. injection H as <-.
  apply validate_done in E. subst a. constructor; [apply HP; by left|]. eapply IH; [|done]. intros a' Ha. apply HP. by right.
Qed.

Lemma validated_fields_made (P : type_object -> Prop) n : forall args i fs, (length args <= n)%nat ->
  (forall a, AType a ∈ args -> P a) -> validated_fields i args = Done fs -> Forall (fun f => P (snd f)) fs.
Proof.
  induction n as [|n IH]; intros args i fs Hn HP H; destruct args as [|nm [|t args]]; cbn in Hn, H; try lia; try (by injection H as <-).
  destruct nm as [| |v]; try done. destruct v; try done. steps H. injection H as <-. apply validate_done in E. subst t.
  constructor; [apply HP; by right; left|]. eapply IH; [|intros a Ha; apply HP; by right; right|done]. lia.
Qed.

Lemma made_usable o : made o -> usable o.
Proof.
  induction 1 as [type o H|a o _ Ha H|a o _ Ha H|a b o _ Ha _ Hb H|args o _ Ha H|args o _ Ha H|a nm o _ Ha H|a ks o _ Ha H].
  - by apply (scalar_usable type).
  - unfold Type_collection in H. cbn [object_of_class outcome_bind] in H. rewrite validate_usable in H by done. injection H as <-.
    split; [|done]. unfold agrees. cbn. by rewrite (proj1 Ha).
  - unfold Type_set in H. cbn [object_of_class outcome_bind] in H. rewrite validate_usable in H by done. injection H as <-.
    split; [|done]. unfold agrees. cbn. by rewrite (proj1 Ha).
  - unfold Type_map in H. cbn [object_of_class outcome_bind] in H. rewrite !validate_usable in H by done. injection H as <-.
    split; [|done]. unfold agrees. cbn. by rewrite (proj1 Ha), (proj1 Hb).
  - unfold Type_tuple in H. steps H. injection H as <-. apply tuple_add_all_usable; [by eapply validated_types_made|done|by exists [], []].
  - unfold Type_userType in H. destruct (Nat.odd _); [done|]. steps H. injection H as <-.
    apply user_type_add_all_usable; [by eapply (validated_fields_made _ (length args))|done|by exists None, None, [], [], [], []].
  - unfold UserType_withName in H. destruct Ha as [Ha _], a as [t d]. cbn in *. destruct t, d; cbn in H; try done. injection H as <-. split; [|done].
    unfold agrees in *. cbn in *. by injection Ha as -> _ ->.
  - unfold UserType_withKeyspace in H. destruct Ha as [Ha _], a as [t d]. cbn in *. destruct t, d; cbn in H; try done. injection H as <-. split; [|done].
    unfold agrees in *. cbn in *. by injection Ha as _ -> ->.
Qed.

(** A type that validation accepts. *)
Definition not_custom (o : type_object) : Prop := match of_type o with TCustom _ => False | _ => True end.

Lemma validated_types_fault args what :
  validated_types args what = Fault <-> exists pre v post, args = map AType pre ++ AValue v :: post /\ Forall not_custom pre /\ is_object v = false.
Proof.
  split.
  - induction args as [|a args IH]; [done|]. cbn [validated_types]. intros H. destruct (php_scylladb_type_validate a what) as [t|e|] eqn:E; cbn [outcome_bind] in H; [|done|].
    + pose proof (validate_done _ _ _ E) as ->. destruct (validated_types args what) as [ts|e|]; [done|done|].
      destruct (IH eq_refl) as (pre & v & post & -> & Hpre & Hv). exists (t :: pre), v, post. split_and!; [done| |done]. constructor; [|done].
      unfold not_custom. cbn in E. by destruct (of_type t).
    + destruct a as [t| |v]; cbn in E; [by destruct (of_type t)|done|]. destruct (is_object v) eqn:Ev; [done|]. by exists [], v, args.
  - intros (pre & v & post & -> & Hpre & Hv). induction Hpre as [|t pre Ht _ IH]; cbn [map app validated_types].
    + unfold php_scylladb_type_validate. by rewrite Hv.
    + replace (php_scylladb_type_validate (AType t) what) with (Done t) by (unfold not_custom in Ht; cbn; by destruct (of_type t)).
      cbn [outcome_bind]. by rewrite IH.
Qed.

Lemma type_tuple_fault args :
  Type_tuple args = Fault <-> exists pre v post, args = map AType pre ++ AValue v :: post /\ Forall not_custom pre /\ is_object v = false.
Proof. rewrite <- (validated_types_fault args (bs "type")). unfold Type_tuple. by destruct (validated_types args _). Qed.

(** C37: type objects.  Every type object that PHP code makes with the factories of [Type], and with
    [withName] and [withKeyspace], is accepted wherever a type is expected and has in the driver the
    type that binding assumes of it ([data_type_of]); only a field whose name repeats makes a
    difference: PHP code keeps the first, the driver all of them.  [Type::tuple] crashes exactly when the
    first argument that is no type is no object either, such as the name of a type. *)
Theorem type_objects_agree o args :
  made o ->
  (forall what, php_scylladb_type_validate (AType o) what = Done o) /\
  data_type_of driver_name (of_type o) = first_fields (type_data o) /\
  (distinct_fields (type_data o) = true -> type_data o = data_type_of driver_name (of_type o)) /\
  (Type_tuple args = Fault <-> exists pre v post, args = map AType pre ++ AValue v :: post /\ Forall not_custom pre /\ is_object v = false).
Proof.
  intros H. apply made_usable in H as Hu. split_and!.
  - intros what. by apply validate_usable.
  - apply Hu.
  - intros Hd. rewrite (proj1 Hu). symmetry. by apply first_fields_distinct.
  - apply type_tuple_fault.
Qed.

Definition int_type : type_object := {| of_type := TScalar CASS_VALUE_TYPE_INT; type_data := DSimple CASS_VALUE_TYPE_INT |}.
Definition text_type : type_object := {| of_type := TScalar CASS_VALUE_TYPE_TEXT; type_data := DSimple CASS_VALUE_TYPE_TEXT |}.

(** [Type::userType('a', Type::int(), 'a', Type::text())]: one field for PHP code, two for the driver; and
    [Type::tuple('int')]. *)
Definition repeated_field : list type_arg := [AValue (ZString (bs "a")); AType int_type; AValue (ZString (bs "a")); AType text_type].

Lemma type_objects_agree_witness :
  Type_userType repeated_field =
    Done {| of_type := TUserType None None [(bs "a", TScalar CASS_VALUE_TYPE_INT)];
            type_data := DUser [] [] [(bs "a", DSimple CASS_VALUE_TYPE_INT); (bs "a", DSimple CASS_VALUE_TYPE_TEXT)] |} /\
  Type_tuple [AType int_type; AValue (ZString (bs "int"))] = Fault /\
  (forall o, Type_userType repeated_field = Done o -> data_type_of driver_name (of_type o) = first_fields (type_data o)).
Proof.
  assert (forall a, AType a ∈ repeated_field -> made a) as Hargs.
  { intros a Ha. unfold repeated_field in Ha. apply elem_of_cons in Ha as [[=]|Ha]. apply elem_of_cons in Ha as [[= ->]|Ha]; [by apply (made_scalar CASS_VALUE_TYPE_INT)|].
    apply elem_of_cons in Ha as [[=]|Ha]. apply elem_of_cons in Ha as [[= ->]|Ha]; [by apply (made_scalar CASS_VALUE_TYPE_TEXT)|]. by apply elem_of_nil in Ha. }
  split_and!; [vm_compute; reflexivity|vm_compute; reflexivity|].
  intros o Ho. exact (proj1 (proj2 (type_objects_agree o [] (made_user_type _ _ Hargs Ho)))).
Defined.

(** ** Texts *)

(** Types whose texts are made of the extension's own words. *)
Fixpoint plain (t : php_scylladb_type) : bool :=
  match t with
  | TScalar c => is_scalar_type c
  | TCollection v | TSet v => plain v
  | TMap k v => plain k && plain v
  | TTuple l => forallb plain l
  | TCustom _ | TUserType _ _ _ => false
  end.

Lemma scalar_name_found c : is_scalar_type c = true -> php_scylladb_value_type (php_scylladb_scalar_type_name c) = Some c.
Proof.
  unfold is_scalar_type. intros H. apply existsb_exists in H as (c' & Hin & E). apply Z.eqb_eq in E. subst c'.
  repeat (destruct Hin as [<-|Hin]; [by vm_compute|]). by destruct Hin.
Qed.

Lemma value_type_name s c : php_scylladb_value_type s = Some c -> php_scylladb_scalar_type_name c = s /\ is_scalar_type c = true.
Proof.
  unfold php_scylladb_value_type. repeat (case_bool_decide as E; [intros [= <-]; subst s; by vm_compute|clear E]). done.
Qed.

Lemma scalar_name_inj c1 c2 : is_scalar_type c1 = true -> is_scalar_type c2 = true -> php_scylladb_scalar_type_name c1 = php_scylladb_scalar_type_name c2 -> c1 = c2.
Proof. intros H1 H2 E. apply scalar_name_found in H1, H2. congruence. Qed.

(** Behind the first word of a text. *)
Definition letter (c : Z) : bool := (97 <=? c) && (c <=? 122).
Definition ends (r : bytes) : Prop := match r with [] => True | c :: _ => letter c = false end.

Lemma words w1 : forall w2 r1 r2, forallb letter w1 = true -> forallb letter w2 = true -> ends r1 -> ends r2 -> w1 ++ r1 = w2 ++ r2 -> w1 = w2 /\ r1 = r2.
Proof.
  induction w1 as [|c1 w1 IH]; intros [|c2 w2] r1 r2 H1 H2 E1 E2 E; cbn in *; [done|..].
  - subst r1. cbn in E1. by rewrite E1 in H2.
  - subst r2. cbn in E2. by rewrite E2 in H1.
  - apply andb_prop in H1 as [_ H1]. apply andb_prop in H2 as [_ H2]. injection E as -> E. by destruct (IH w2 r1 r2 H1 H2 E1 E2 E) as [-> ->].
Qed.

Definition first_word (t : php_scylladb_type) : bytes :=
  match t with
  | TScalar c => php_scylladb_scalar_type_name c
  | TCollection _ => bs "list"
  | TMap _ _ => bs "map"
  | TSet _ => bs "set"
  | TTuple _ => bs "tuple"
  | _ => []
  end.

Definition behind (t : php_scylladb_type) : bytes :=
  match t with
  | TCollection v | TSet v => 60 :: php_scylladb_type_string v ++ bs ">"
  | TMap k v => 60 :: php_scylladb_type_string k ++ bs ", " ++ php_scylladb_type_string v ++ bs ">"
  | TTuple l => 60 :: type_list_string (map php_scylladb_type_string l) ++ bs ">"
  | _ => []
  end.

Lemma scalar_words c : is_scalar_type c = true ->
  forallb letter (php_scylladb_scalar_type_name c) = true /\ php_scylladb_scalar_type_name c <> [] /\
  php_scylladb_scalar_type_name c ∉ [bs "list"; bs "map"; bs "set"; bs "tuple"].
Proof.
  unfold is_scalar_type. intros H. apply existsb_exists in H as (c' & Hin & E). apply Z.eqb_eq in E. subst c'.
  repeat (destruct Hin as [<-|Hin]; [split_and!; [by vm_compute|by vm_compute|by apply (bool_decide_unpack _)]|]). by destruct Hin.
Qed.

Lemma string_words t : plain t = true -> php_scylladb_type_string t = first_word t ++ behind t /\ forallb letter (first_word t) = true /\ first_word t <> [].
Proof. destruct t; cbn [plain]; intros H; try done. destruct (scalar_words type H) as (H1 & H2 & _). cbn [behind]. rewrite app_nil_r. done. Qed.

(** Texts stand in front of a comma or a closing bracket. *)
Definition closed (r : bytes) : Prop := match r with [] => True | c :: _ => c = 44 \/ c = 62 end.

Lemma closed_ends t r : closed r -> ends (behind t ++ r).
Proof. intros H. destruct t; cbn; try done; destruct r as [|c r]; try done; by destruct H as [-> | ->]. Qed.

Lemma same_word t1 t2 r1 r2 : plain t1 = true -> plain t2 = true -> closed r1 -> closed r2 ->
  php_scylladb_type_string t1 ++ r1 = php_scylladb_type_string t2 ++ r2 -> first_word t1 = first_word t2 /\ behind t1 ++ r1 = behind t2 ++ r2.
Proof.
  intros H1 H2 C1 C2 E. destruct (string_words t1 H1) as (E1 & W1 & _), (string_words t2 H2) as (E2 & W2 & _).
  rewrite E1, E2, <- !app_assoc in E. apply words in E; [done|done|done|by apply closed_ends..].
Qed.

(** A text determines its type and where it ends. *)
Definition reads_back (t1 : php_scylladb_type) : Prop := forall t2 r1 r2, plain t1 = true -> plain t2 = true -> closed r1 -> closed r2 ->
  php_scylladb_type_string t1 ++ r1 = php_scylladb_type_string t2 ++ r2 -> t1 = t2 /\ r1 = r2.

Lemma rest_reads_back l1 : Forall reads_back l1 -> forall l2 r1 r2, forallb plain l1 = true -> forallb plain l2 = true ->
  concat (map (fun y => bs ", " ++ y) (map php_scylladb_type_string l1)) ++ bs ">" ++ r1 =
  concat (map (fun y => bs ", " ++ y) (map php_scylladb_type_string l2)) ++ bs ">" ++ r2 -> l1 = l2 /\ r1 = r2.
Proof.
  assert (forall l r, closed (concat (map (fun y => bs ", " ++ y) (map php_scylladb_type_string l)) ++ bs ">" ++ r)) as Hc.
  { intros [|t l] r; cbn; [by right|by left]. }
  induction 1 as [|t l1 Ht _ IH]; intros [|t2 l2] r1 r2 H1 H2 E; cbn [map concat app forallb] in *; [by injection E as ->|done|done|].
  apply andb_prop in H1 as [P1 H1]. apply andb_prop in H2 as [P2 H2]. rewrite <- !app_assoc in E. cbn [bs app] in E. injection E as E.
  apply Ht in E as [<- E]; [|done|done|apply Hc|apply Hc]. apply IH in E as [<- <-]; done.
Qed.

(** The word of a scalar type is no other type's. *)
Lemma scalar_word c t : is_scalar_type c = true -> plain t = true -> first_word t = php_scylladb_scalar_type_name c -> t = TScalar c.
Proof.
  intros Hc Ht E. destruct (scalar_words c Hc) as (_ & _ & H). destruct t; cbn [plain first_word] in *; try done;
    try (exfalso; apply H; rewrite <- E; set_solver). by rewrite (scalar_name_inj type c).
Qed.

Lemma string_reads_back t1 : reads_back t1.
Proof.
  induction t1 as [c|n|v IH|k v IHk IHv|v IH|l IH|ks n l IH] using type_rec; intros t2 r1 r2 P1 P2 C1 C2 E; try done;
    pose proof (same_word _ t2 _ _ P1 P2 C1 C2 E) as [W B]; cbn [first_word] in W.
  - symmetry in W. apply (scalar_word c t2 P1 P2) in W as ->. done.
  - destruct t2; try done; [by apply (scalar_word _ (TCollection v)) in W|]. cbn in B, P1, P2. rewrite <- !app_assoc in B. injection B as B.
    apply IH in B as [<- B]; [by injection B as ->|done|done|by right..].
  - destruct t2; try done; [by apply (scalar_word _ (TMap k v)) in W|]. cbn in B, P1, P2. apply andb_prop in P1 as [? ?]. apply andb_prop in P2 as [? ?].
    rewrite <- !app_assoc in B. injection B as B. cbn [app] in B. apply IHk in B as [<- B]; [|done|done|by left..].
    injection B as B. rewrite <- !app_assoc in B. apply IHv in B as [<- B]; [by injection B as ->|done|done|by right..].
  - destruct t2; try done; [by apply (scalar_word _ (TSet v)) in W|]. cbn in B, P1, P2. rewrite <- !app_assoc in B. injection B as B.
    apply IH in B as [<- B]; [by injection B as ->|done|done|by right..].
  - destruct t2 as [| | | | |l2|]; try done; [by apply (scalar_word _ (TTuple l)) in W|]. cbn in B, P1, P2. rewrite <- !app_assoc in B. injection B as B.
    destruct IH as [|t l Ht IH], l2 as [|t2 l2]; cbn [map type_list_string forallb] in *.
    + by injection B as ->.
    + exfalso. apply andb_prop in P2 as [P2 _]. destruct (string_words t2 P2) as (E2 & W2 & N2). rewrite E2 in B. destruct (first_word t2); [done|]. cbn in B, W2. injection B as <- _. done.
    + exfalso. apply andb_prop in P1 as [P1 _]. destruct (string_words t P1) as (E1 & W1 & N1). rewrite E1 in B. destruct (first_word t); [done|]. cbn in B, W1. injection B as -> _. done.
    + apply andb_prop in P1 as [P1 L1]. apply andb_prop in P2 as [P2 L2]. rewrite <- !app_assoc in B.
      apply Ht in B as [<- B]; [|done|done|destruct l; cbn; [by right|by left]|destruct l2; cbn; [by right|by left]].
      apply rest_reads_back in B as [<- <-]; done.
Qed.

Lemma separated_no_nul l : Forall (fun s : bytes => 0 ∉ s) l -> 0 ∉ type_list_string l.
Proof.
  destruct 1 as [|s l Hs Hl]; [set_solver|]. cbn [type_list_string]. rewrite elem_of_app. intros [?|H]; [done|]. apply list_elem_of_In, in_concat in H as (s' & Hs' & H).
  apply in_map_iff in Hs' as (s'' & <- & Hin%list_elem_of_In). apply list_elem_of_In in H. rewrite list.Forall_forall in Hl. apply elem_of_app in H as [H|H]; [|by apply (Hl s'')].
  revert H. by apply (bool_decide_unpack _).
Qed.

Lemma letters_no_nul w : forallb letter w = true -> 0 ∉ w.
Proof. intros H Hin. rewrite forallb_forall in H. apply list_elem_of_In, H in Hin. done. Qed.

Lemma plain_no_nul t : plain t = true -> 0 ∉ php_scylladb_type_string t.
Proof.
  induction t as [c|n|v IH|k v IHk IHv|v IH|l IH|ks n l IH] using type_rec; cbn [plain php_scylladb_type_string]; intros H; try done.
  - apply letters_no_nul, (scalar_words c H).
  - rewrite !elem_of_app. intros [Hin|[Hin|Hin]]; [revert Hin; by apply (bool_decide_unpack _)|by apply IH|revert Hin; by apply (bool_decide_unpack _)].
  - apply andb_prop in H as [? ?]. rewrite !elem_of_app.
    intros [Hin|[Hin|[Hin|[Hin|Hin]]]]; [|by apply IHk| |by apply IHv|]; revert Hin; by apply (bool_decide_unpack _).
  - rewrite !elem_of_app. intros [Hin|[Hin|Hin]]; [revert Hin; by apply (bool_decide_unpack _)|by apply IH|revert Hin; by apply (bool_decide_unpack _)].
  - rewrite !elem_of_app. intros [Hin|[Hin|Hin]]; [revert Hin; by apply (bool_decide_unpack _)| |revert Hin; by apply (bool_decide_unpack _)].
    revert Hin. apply separated_no_nul. induction IH as [|t l Ht _ IH]; [constructor|]. cbn in *. apply andb_prop in H as [? ?]. constructor; auto.
Qed.

Lemma c_string_id s : 0 ∉ s -> c_string s = s.
Proof. induction s as [|c s IH]; intros H; [done|]. cbn. destruct (Z.eqb_spec c 0) as [->|]; [destruct H; by left|]. rewrite IH; [done|]. intros Hin. apply H. by right. Qed.

Lemma toString_plain o : plain (of_type o) = true -> Type_toString o = php_scylladb_type_string (of_type o).
Proof. intros H. unfold Type_toString. pose proof (plain_no_nul _ H) as Hn. destruct (of_type o); try done; by rewrite c_string_id. Qed.

(** The text of types.  The constructors of containers read every scalar type from its own
    name and no other text, and two types built from scalars, lists, sets, maps and tuples have
    the same text exactly when they are the same type.  The texts of user types have no such property. *)
Theorem type_texts_unambiguous o1 o2 s c :
  plain (of_type o1) = true -> plain (of_type o2) = true ->
  (Type_toString o1 = Type_toString o2 <-> of_type o1 = of_type o2) /\
  (type_argument (AValue (ZString s)) (bs "type") (bs "type") = Done {| of_type := TScalar c; type_data := DSimple c |} <->
     is_scalar_type c = true /\ s = Type_toString {| of_type := TScalar c; type_data := DSimple c |}) /\
  (let user fields := {| of_type := TUserType None None fields; type_data := DUser [] [] [] |} in
   Type_toString (user [(bs "a:int, b", TScalar CASS_VALUE_TYPE_INT)]) =
   Type_toString (user [(bs "a", TScalar CASS_VALUE_TYPE_INT); (bs "b", TScalar CASS_VALUE_TYPE_INT)])).
Proof.
  intros H1 H2. split_and!.
  - rewrite !toString_plain by done. split; [|by intros ->]. intros E. apply (string_reads_back (of_type o1) (of_type o2) [] []); [done..|]. by rewrite E.
  - cbn [type_argument Type_toString of_type]. split.
    + destruct (php_scylladb_value_type s) as [c'|] eqn:E; [|done]. apply value_type_name in E as [E Hc]. intros Hd. pose proof (proj1 (scalar_usable _ _ Hd)) as _.
      unfold php_scylladb_type_scalar in Hd. rewrite Hc in Hd. destruct (cass_data_type_new c') as [d|]; [|done]. injection Hd as -> _. done.
    + intros [Hc ->]. rewrite scalar_name_found by done. unfold php_scylladb_type_scalar. rewrite Hc.
      unfold is_scalar_type in Hc. apply existsb_exists in Hc as (c' & Hin & E). apply Z.eqb_eq in E. subst c'.
      repeat (destruct Hin as [<-|Hin]; [by vm_compute|]). by destruct Hin.
  - by vm_compute.
Qed.

Definition plain_type : type_object := php_scylladb_type_map text_type (php_scylladb_type_set int_type).

Lemma type_texts_witness :
  Type_toString plain_type = bs "map<text, set<int>>" /\
  (Type_toString plain_type = Type_toString int_type <-> of_type plain_type = of_type int_type).
Proof. split; [vm_compute; reflexivity|]. exact (proj1 (type_texts_unambiguous plain_type int_type (bs "int") CASS_VALUE_TYPE_INT eq_refl eq_refl)). Defined.
