(* ===== verification/Records.v ===== *)
(** Tuples and user type values (src/Tuple.c, src/UserTypeValue.c), and the [create] methods of the
    container types (src/Type/Tuple.c, UserType.c, Set.c, Map.c, Collection.c).

    The two classes are one text over two kinds of keys: the index of a component, the name of a
    field.  [Keyed] says how the keys and the types of the components come from the type; the
    operations are written once.  A hash table of PHP is the list of its entries in the order they
    were added; the types of the components have no holes, so a position is an index.

    The names of a user type are strings that the type's table shares with PHP code.  [key] hands one
    out without counting the reference, so the methods of [UserTypeValue] have the reference counts of the
    names for a state, and [None] for a result that would read a freed name. *)
From S2P Require Import Prelude NumberParser DriverErrors UtHash Types Values Collections DataTypes Conversions Statements ResultRows TypeObjects.
#[local] Open Scope Z_scope.

Inductive record_exception :=
| IndexOutOfBounds
| InvalidName (name : bytes)
| InvalidValue (expected : bytes)
| WrongCount (expected : Z)
| UnevenPairs
| NameNotString (argument : Z)
| NullRefused (what : bytes)
| BadType (e : type_exception).

(** ** PHP hash tables *)

Section tables.
Context {K V : Type} `{EqDecision K}.

(** [zend_hash_index_find], [zend_hash_find] *)
Definition zend_find (k : K) (l : list (K * V)) : option V := option_map snd (List.find (fun f => bool_decide (fst f = k)) l).

(** [zend_hash_index_update], [zend_hash_update]: in place, or behind the last entry. *)
Fixpoint zend_update (k : K) (v : V) (l : list (K * V)) : list (K * V) :=
  match l with
  | [] => [(k, v)]
  | f :: l' => if bool_decide (fst f = k) then (k, v) :: l' else f :: zend_update k v l'
  end.
End tables.

(** ** The keys of a type *)

Class Keyed (K : Type) := {
  keyed_dec :: EqDecision K;
  keys : php_scylladb_type -> list K;
  component : php_scylladb_type -> K -> option php_scylladb_type;
  (** the key in an array that [values] fills *)
  array_entry : K -> array_key;
  missing : K -> record_exception
}.

Definition tuple_types (t : php_scylladb_type) : list php_scylladb_type := match t with TTuple l => l | _ => [] end.
Definition user_types (t : php_scylladb_type) : list (bytes * php_scylladb_type) := match t with TUserType _ _ l => l | _ => [] end.

(** The check of the index in [Tuple::set] and [Tuple::get]. *)
Definition tuple_component (t : php_scylladb_type) (index : Z) : option php_scylladb_type :=
  if (index <? 0) || (zlen (tuple_types t) <=? index) then None else tuple_types t !! Z.to_nat index.

Definition tuple_keys (t : php_scylladb_type) : list Z := seqZ 0 (zlen (tuple_types t)).

#[export] Instance tuple_keyed : Keyed Z := {
  keys := tuple_keys;
  component := tuple_component;
  array_entry := AtIndex;
  missing _ := IndexOutOfBounds
}.

(** The check of the name in [UserTypeValue::set] and [UserTypeValue::get]. *)
Definition user_type_component (t : php_scylladb_type) (name : bytes) : option php_scylladb_type := field_type name (user_types t).
Definition user_type_keys (t : php_scylladb_type) : list bytes := map fst (user_types t).

#[export] Instance user_type_keyed : Keyed bytes := {
  keys := user_type_keys;
  component := user_type_component;
  array_entry := symtable_key;
  missing := InvalidName
}.

(** ** The objects *)

(** [php_scylladb_tuple] and [php_scylladb_user_type_value]; [pos] is [None] before the first [rewind]. *)
Record record (K : Type) := {
  record_type : type_object;
  record_values : list (K * zval);
  record_pos : option nat;
  record_dirty : bool;
  record_hashv : Z
}.
Arguments record_type {K}. Arguments record_values {K}. Arguments record_pos {K}. Arguments record_dirty {K}. Arguments record_hashv {K}.
Arguments Build_record {K}.

Abbreviation php_scylladb_tuple := (record Z).
Abbreviation php_scylladb_user_type_value := (record bytes).

Section operations.
Context {K : Type} {KK : Keyed K} (zend_hash : bytes -> Z).

Abbreviation type_of r := (of_type (record_type r)).

Definition record_new (type : type_object) : record K :=
  {| record_type := type; record_values := []; record_pos := None; record_dirty := true; record_hashv := 0 |}.

(** [php_scylladb_tuple_set], [php_scylladb_user_type_value_set] *)
Definition record_put (k : K) (object : zval) (r : record K) : record K :=
  {| record_type := record_type r; record_values := zend_update k object (record_values r);
     record_pos := record_pos r; record_dirty := true; record_hashv := record_hashv r |}.

(** [php_scylladb_tuple_populate], [php_scylladb_user_type_value_populate]: null where nothing was set; a name that
    is a decimal integer is an integer key of the array. *)
Definition record_populate (r : record K) : list (array_key * zval) :=
  fold_left (fun array k => zend_update (array_entry k) (default ZNull (zend_find k (record_values r))) array) (keys (type_of r)) [].

(** [set]: a container of another type is refused without an exception. *)
Definition record_set (k : K) (value : zval) (r : record K) : option record_exception * record K :=
  match component (type_of r) k with
  | None => (Some (missing k), r)
  | Some sub_type =>
      match php_scylladb_validate_object value sub_type with
      | Valid => (None, record_put k value r)
      | Expecting what => (Some (InvalidValue what), r)
      | Mismatch => (None, r)
      end
  end.

Definition record_get (k : K) (r : record K) : record_exception + zval :=
  match component (type_of r) k with
  | None => inl (missing k)
  | Some _ => inr (default ZNull (zend_find k (record_values r)))
  end.

Definition record_count (r : record K) : Z := zlen (keys (type_of r)).

(** [zend_hash_get_current_key_ex] of the types *)
Definition record_key (r : record K) : option K := match record_pos r with Some i => keys (type_of r) !! i | None => None end.
Definition record_current (r : record K) : zval :=
  match record_key r with Some k => default ZNull (zend_find k (record_values r)) | None => ZNull end.
Definition record_valid (r : record K) : bool := if record_key r is Some _ then true else false.

Definition at_pos (pos : option nat) (r : record K) : record K :=
  {| record_type := record_type r; record_values := record_values r; record_pos := pos; record_dirty := record_dirty r; record_hashv := record_hashv r |}.
(** [zend_hash_move_forward_ex] does nothing past the end. *)
Definition record_next (r : record K) : record K :=
  at_pos (match record_pos r with Some i => if decide (i < length (keys (type_of r)))%nat then Some (S i) else Some i | None => None end) r.
Definition record_rewind (r : record K) : record K := at_pos (Some 0%nat) r.

Definition record_hash_value (r : record K) : Z * record K :=
  if negb (record_dirty r) then (record_hashv r, r)
  else
    let hashv := fold_left (fun hv f => php_scylladb_combine_hash hv (php_scylladb_value_hash zend_hash (snd f))) (record_values r) 0 in
    (hashv, {| record_type := record_type r; record_values := record_values r; record_pos := record_pos r; record_dirty := false; record_hashv := hashv |}).

(** [php_scylladb_tuple_compare], [php_scylladb_user_type_value_compare] of two objects of the class: the
    keys are not compared. *)
Definition record_compare (compare : zval -> zval -> Z) (r1 r2 : record K) : Z :=
  then_compare (php_scylladb_type_compare (type_of r1) (type_of r2))
    (then_compare (compare_counts (record_values r1) (record_values r2))
       (compare_lists (fun f1 f2 : K * zval => compare (snd f1) (snd f2)) (record_values r1) (record_values r2))).

(** ** Programs *)

Inductive op :=
| OSet (k : K) (v : zval) | OGet (k : K) | OCount | OValues | OCurrent | OKey | ONext | OValid | ORewind | OHash
(** PHP code lets go of a string that [key] returned *)
| OLetGo (k : K).

Inductive answer :=
| RVoid | RThrew (e : record_exception) | RValue (v : zval) | RCount (n : Z) | RValues (l : list (array_key * zval)) | RKey (k : option K) | RBool (b : bool).

Definition threw (e : option record_exception) : answer := match e with Some e => RThrew e | None => RVoid end.

Definition act (o : op) (r : record K) : answer * record K :=
  match o with
  | OSet k v => let '(e, r') := record_set k v r in (threw e, r')
  | OGet k => (match record_get k r with inl e => RThrew e | inr v => RValue v end, r)
  | OCount => (RCount (record_count r), r)
  | OValues => (RValues (record_populate r), r)
  | OCurrent => (RValue (record_current r), r)
  | OKey => (RKey (record_key r), r)
  | ONext => (RVoid, record_next r)
  | OValid => (RBool (record_valid r), r)
  | ORewind => (RVoid, record_rewind r)
  | OHash => let '(h, r') := record_hash_value r in (RCount h, r')
  | OLetGo _ => (RVoid, r)
  end.

Section run.
Context (act : op -> record K -> answer * record K).

Fixpoint run (l : list op) (r : record K) : list answer * record K :=
  match l with
  | [] => ([], r)
  | o :: l' => let '(a, r1) := act o r in let '(as_, r2) := run l' r1 in (a :: as_, r2)
  end.
End run.
End operations.
Arguments op : clear implicits. Arguments answer : clear implicits.

(** ** The methods of the two classes *)

Section methods.
Context (zend_hash : bytes -> Z).

Definition Tuple_values (self : php_scylladb_tuple) : list (array_key * zval) := record_populate self.
Definition Tuple_set (index : Z) (value : zval) (self : php_scylladb_tuple) : option record_exception * php_scylladb_tuple := record_set index value self.
Definition Tuple_get (index : Z) (self : php_scylladb_tuple) : record_exception + zval := record_get index self.
Definition Tuple_count (self : php_scylladb_tuple) : Z := record_count self.
Definition Tuple_current (self : php_scylladb_tuple) : zval := record_current self.
Definition Tuple_key (self : php_scylladb_tuple) : option Z := record_key self.
Definition Tuple_next (self : php_scylladb_tuple) : php_scylladb_tuple := record_next self.
Definition Tuple_valid (self : php_scylladb_tuple) : bool := record_valid self.
Definition Tuple_rewind (self : php_scylladb_tuple) : php_scylladb_tuple := record_rewind self.
Definition php_scylladb_tuple_hash_value (self : php_scylladb_tuple) : Z * php_scylladb_tuple := record_hash_value zend_hash self.
Definition php_scylladb_tuple_compare (compare : zval -> zval -> Z) (obj1 obj2 : php_scylladb_tuple) : Z := record_compare compare obj1 obj2.

Definition Tuple_act (o : op Z) (self : php_scylladb_tuple) : answer Z * php_scylladb_tuple :=
  match o with
  | OSet k v => let '(e, r) := Tuple_set k v self in (threw e, r)
  | OGet k => (match Tuple_get k self with inl e => RThrew e | inr v => RValue v end, self)
  | OCount => (RCount (Tuple_count self), self)
  | OValues => (RValues (Tuple_values self), self)
  | OCurrent => (RValue (Tuple_current self), self)
  | OKey => (RKey (Tuple_key self), self)
  | ONext => (RVoid, Tuple_next self)
  | OValid => (RBool (Tuple_valid self), self)
  | ORewind => (RVoid, Tuple_rewind self)
  | OHash => let '(h, r) := php_scylladb_tuple_hash_value self in (RCount h, r)
  | OLetGo _ => (RVoid, self)
  end.

(** *** User type values *)

(** The string of a name: PHP code's literals are not counted.  A counted one has the references that are there, of
    the type's table and of others, and PHP code holds some, those it believes to own. *)
Inductive name_refs := Interned | Counted (references held : nat).
Definition name_table : Type := list (bytes * name_refs).

(** The name is not freed; a name that is none of the type's is not read. *)
Definition readable (k : bytes) (ns : name_table) : bool := match zend_find k ns with Some (Counted O _) => false | _ => true end.

(** [RETURN_STR]: the caller gets a reference that was not added. *)
Definition give_away (k : bytes) (ns : name_table) : name_table := match zend_find k ns with Some (Counted n h) => zend_update k (Counted n (S h)) ns | _ => ns end.

(** PHP code lets go of a string it holds; what was freed cannot be. *)
Definition let_go (k : bytes) (ns : name_table) : option name_table :=
  match zend_find k ns with
  | Some (Counted n (S h)) => match n with O => None | S n' => Some (zend_update k (Counted n' h) ns) end
  | _ => Some ns
  end.

Definition UserTypeValue_values (ns : name_table) (self : php_scylladb_user_type_value) : option (list (array_key * zval)) :=
  if forallb (fun k => readable k ns) (user_type_keys (of_type (record_type self))) then Some (record_populate self) else None.
Definition UserTypeValue_set (ns : name_table) (name : bytes) (value : zval) (self : php_scylladb_user_type_value) : option (option record_exception * php_scylladb_user_type_value) :=
  if readable name ns then Some (record_set name value self) else None.
Definition UserTypeValue_get (ns : name_table) (name : bytes) (self : php_scylladb_user_type_value) : option (record_exception + zval) :=
  if readable name ns then Some (record_get name self) else None.
Definition UserTypeValue_count (self : php_scylladb_user_type_value) : Z := record_count self.
Definition UserTypeValue_current (ns : name_table) (self : php_scylladb_user_type_value) : option zval :=
  if (if record_key self is Some k then readable k ns else true) then Some (record_current self) else None.
Definition UserTypeValue_key (ns : name_table) (self : php_scylladb_user_type_value) : option (option bytes * name_table) :=
  match record_key self with
  | None => Some (None, ns)
  | Some k => if readable k ns then Some (Some k, give_away k ns) else None
  end.
Definition UserTypeValue_next (self : php_scylladb_user_type_value) : php_scylladb_user_type_value := record_next self.
Definition UserTypeValue_valid (self : php_scylladb_user_type_value) : bool := record_valid self.
Definition UserTypeValue_rewind (self : php_scylladb_user_type_value) : php_scylladb_user_type_value := record_rewind self.
Definition php_scylladb_user_type_value_hash_value (self : php_scylladb_user_type_value) : Z * php_scylladb_user_type_value := record_hash_value zend_hash self.
Definition php_scylladb_user_type_value_compare (compare : zval -> zval -> Z) (obj1 obj2 : php_scylladb_user_type_value) : Z := record_compare compare obj1 obj2.

(** The strings that programs pass to [set] and [get] are their own. *)
Definition UserTypeValue_act (o : op bytes) (ns : name_table) (self : php_scylladb_user_type_value) : option (answer bytes * name_table * php_scylladb_user_type_value) :=
  match o with
  | OSet k v => '(e, r) ← UserTypeValue_set ns k v self; Some (threw e, ns, r)
  | OGet k => v ← UserTypeValue_get ns k self; Some (match v with inl e => RThrew e | inr v => RValue v end, ns, self)
  | OCount => Some (RCount (UserTypeValue_count self), ns, self)
  | OValues => l ← UserTypeValue_values ns self; Some (RValues l, ns, self)
  | OCurrent => v ← UserTypeValue_current ns self; Some (RValue v, ns, self)
  | OKey => '(k, ns') ← UserTypeValue_key ns self; Some (RKey k, ns', self)
  | ONext => Some (RVoid, ns, UserTypeValue_next self)
  | OValid => Some (RBool (UserTypeValue_valid self), ns, self)
  | ORewind => Some (RVoid, ns, UserTypeValue_rewind self)
  | OHash => let '(h, r) := php_scylladb_user_type_value_hash_value self in Some (RCount h, ns, r)
  | OLetGo k => ns' ← let_go k ns; Some (RVoid, ns', self)
  end.

Fixpoint UserTypeValue_run (l : list (op bytes)) (ns : name_table) (self : php_scylladb_user_type_value) : option (list (answer bytes) * name_table * php_scylladb_user_type_value) :=
  match l with
  | [] => Some ([], ns, self)
  | o :: l' => '(a, ns1, r1) ← UserTypeValue_act o ns self; '(as_, ns2, r2) ← UserTypeValue_run l' ns1 r1; Some (a :: as_, ns2, r2)
  end.
End methods.

(** ** Construction *)

(** The loop of [Tuple::__construct]; the type keeps what was added before a failure. *)
Fixpoint tuple_add_types (type : type_object) (types : list type_arg) : option type_exception * type_object :=
  match types with
  | [] => (None, type)
  | current :: r =>
      match type_argument current (bs "type") (bs "sub_type") with
      | Done sub_type => match php_scylladb_type_tuple_add type sub_type with Some type' => tuple_add_types type' r | None => (None, type) end
      | Thrown e => (Some e, type)
      | Fault => (Some InvalidType, type)
      end
  end.

(** The loop of [UserTypeValue::__construct]; an entry of the array without a name has an integer for its key. *)
Fixpoint user_type_add_types (index : Z) (type : type_object) (types : list (option bytes * type_arg)) : option type_exception * type_object :=
  match types with
  | [] => (None, type)
  | (None, _) :: _ => (Some (NotAString (index + 1)), type)
  | (Some name, current) :: r =>
      match type_argument current (bs "sub_type") (bs "sub_type") with
      | Done sub_type =>
          match php_scylladb_type_user_type_add type name sub_type with Some type' => user_type_add_types (index + 1) type' r | None => (None, type) end
      | Thrown e => (Some e, type)
      | Fault => (Some InvalidType, type)
      end
  end.

(** A constructor that PHP code calls on an object replaces its type and keeps its values. *)
Definition with_type {K} (type : type_object) (r : record K) : record K :=
  {| record_type := type; record_values := record_values r; record_pos := record_pos r; record_dirty := record_dirty r; record_hashv := record_hashv r |}.

Definition Tuple_construct (types : list type_arg) (self : php_scylladb_tuple) : option type_exception * php_scylladb_tuple :=
  let '(e, type) := tuple_add_types php_scylladb_type_tuple types in (e, with_type type self).
Definition UserTypeValue_construct (types : list (option bytes * type_arg)) (self : php_scylladb_user_type_value) : option type_exception * php_scylladb_user_type_value :=
  let '(e, type) := user_type_add_types 0 php_scylladb_type_user_type types in (e, with_type type self).

(** [Type\Tuple::create] *)
Fixpoint create_components (i : Z) (args : list zval) (tuple : php_scylladb_tuple) : option record_exception * php_scylladb_tuple :=
  match args with
  | [] => (None, tuple)
  | value :: r =>
      match tuple_types (of_type (record_type tuple)) !! Z.to_nat i with
      | None => (None, tuple)
      | Some sub_type =>
          match php_scylladb_validate_object value sub_type with
          | Valid => create_components (i + 1) r (record_put i value tuple)
          | Expecting what => (Some (InvalidValue what), tuple)
          | Mismatch => (None, tuple)
          end
      end
  end.

Definition Tuple_create (self : type_object) (args : list zval) : option record_exception * php_scylladb_tuple :=
  let tuple := record_new self in
  match args with
  | [] => (None, tuple)
  | _ =>
      if negb (zlen args =? zlen (tuple_types (of_type self))) then (Some (WrongCount (zlen (tuple_types (of_type self)))), tuple)
      else create_components 0 args tuple
  end.

(** [Type\UserType::create] *)
Fixpoint create_fields (i : Z) (args : list zval) (value : php_scylladb_user_type_value) : option record_exception * php_scylladb_user_type_value :=
  match args with
  | name :: v :: r =>
      match name with
      | ZString s =>
          match field_type s (user_types (of_type (record_type value))) with
          | None => (Some (InvalidName s), value)
          | Some sub_type =>
              match php_scylladb_validate_object v sub_type with
              | Valid => create_fields (i + 2) r (record_put s v value)
              | Expecting what => (Some (InvalidValue what), value)
              | Mismatch => (None, value)
              end
          end
      | _ => (Some (NameNotString (i + 1)), value)
      end
  | _ => (None, value)
  end.

Definition UserType_create (self : type_object) (args : list zval) : option record_exception * php_scylladb_user_type_value :=
  if Nat.odd (length args) then (Some UnevenPairs, record_new self) else create_fields 0 args (record_new self).

Section create.
Context (zend_hash : bytes -> Z) (depth : nat).

Definition of_exception (e : option exception) : option record_exception :=
  match e with Some (NullNotSupported what) => Some (NullRefused what) | Some (Collections.InvalidArgument what) => Some (InvalidValue what) | None => None end.

Definition element_type (t : php_scylladb_type) : php_scylladb_type := match t with TCollection v | TSet v | TMap _ v => v | t => t end.

(** [Type\Collection::create]: unlike [Collection::add] it accepts null. *)
Fixpoint create_elements (args : list zval) (c : php_scylladb_collection) : option record_exception * php_scylladb_collection :=
  match args with
  | [] => (None, c)
  | v :: r =>
      match php_scylladb_validate_object v (collection_value_type c) with
      | Valid => create_elements r (php_scylladb_collection_add v c)
      | Expecting what => (Some (InvalidValue what), c)
      | Mismatch => (None, c)
      end
  end.
Definition Collection_create (self : type_object) (args : list zval) : option record_exception * php_scylladb_collection :=
  create_elements args (new_collection (element_type (of_type self))).

(** [Type\Set::create] *)
Fixpoint create_members (args : list zval) (s : php_scylladb_set) : option record_exception * php_scylladb_set :=
  match args with
  | [] => (None, s)
  | v :: r => let '(reply, s') := php_scylladb_set_add zend_hash depth s v in if returned reply then create_members r s' else (of_exception (thrown reply), s')
  end.
Definition Set_create (self : type_object) (args : list zval) : option record_exception * php_scylladb_set :=
  create_members args (new_set (element_type (of_type self))).

(** [Type\Map::create] *)
Fixpoint create_entries (args : list zval) (m : php_scylladb_map) : option record_exception * php_scylladb_map :=
  match args with
  | k :: v :: r => let '(reply, m') := php_scylladb_map_set zend_hash depth m k v in if returned reply then create_entries r m' else (of_exception (thrown reply), m')
  | _ => (None, m)
  end.
Definition Map_create (self : type_object) (args : list zval) : option record_exception * option php_scylladb_map :=
  if Nat.odd (length args) then (Some UnevenPairs, None)
  else let '(e, m) := create_entries args (new_map (match of_type self with TMap k _ => k | t => t end) (element_type (of_type self))) in (e, Some m).
End create.

Lemma run_ext {K} (f g : op K -> record K -> answer K * record K) : (forall o r, f o r = g o r) -> forall l r, run f l r = run g l r.
Proof. intros H. induction l as [|o l IH]; intros r; cbn; [done|]. rewrite H. destruct (g o r). by rewrite IH. Qed.

Lemma tuple_run zend_hash l r : run (Tuple_act zend_hash) l r = run (act zend_hash) l r.
Proof. apply run_ext. by intros []. Qed.

(** ** Lemmas on tables *)

Section table_facts.
Context {K V : Type} `{EqDecision K}.
Implicit Types (k : K) (v : V) (l : list (K * V)).

Lemma zend_find_cons k f l : zend_find k (f :: l) = if bool_decide (fst f = k) then Some (snd f) else zend_find k l.
Proof. unfold zend_find. cbn. by case_bool_decide. Qed.

Lemma zend_find_update k v l k' : zend_find k' (zend_update k v l) = if decide (k' = k) then Some v else zend_find k' l.
Proof.
  induction l as [|f l IH]; cbn [zend_update].
  - rewrite zend_find_cons. cbn. by case_bool_decide; case_decide; subst.
  - destruct (bool_decide_reflect (fst f = k)) as [E|E]; rewrite !zend_find_cons; cbn [fst snd].
    + rewrite E. by case_bool_decide; case_decide; subst.
    + rewrite IH. case_bool_decide; case_decide; subst; done.
Qed.

Lemma zend_find_none k l : zend_find k l = None <-> k ∉ map fst l.
Proof.
  induction l as [|f l IH]; [split; [intros _; apply not_elem_of_nil|done]|]. rewrite zend_find_cons. cbn [map]. rewrite elem_of_cons.
  case_bool_decide as E; [split; [done|intros []; by left]|]. rewrite IH. split; [intros H [->|?]; done|tauto].
Qed.

Lemma map_fst_update k v l : map fst (zend_update k v l) = if decide (k ∈ map fst l) then map fst l else map fst l ++ [k].
Proof.
  induction l as [|f l IH]; cbn [zend_update map]; [case_decide as H; [by apply elem_of_nil in H|done]|].
  case_bool_decide as E; cbn [map fst].
  - subst k. rewrite decide_True by (by left). done.
  - rewrite IH. case_decide as H1; case_decide as H2; try done; [destruct H2; by right|]. apply elem_of_cons in H2 as [->|]; done.
Qed.

Lemma nodup_update k v l : NoDup (map fst l) -> NoDup (map fst (zend_update k v l)).
Proof. intros H. rewrite map_fst_update. case_decide as E; [done|]. apply list.NoDup_app. split_and!; [done| |apply NoDup_singleton]. intros x Hx ->%list_elem_of_singleton. done. Qed.

Lemma elem_of_update k v l f : f ∈ zend_update k v l -> f = (k, v) \/ f ∈ l.
Proof.
  induction l as [|f' l IH]; cbn [zend_update]; [intros ->%list_elem_of_singleton; by left|].
  case_bool_decide; rewrite !elem_of_cons; [tauto|]. intros [->|H']; [tauto|]. destruct (IH H'); tauto.
Qed.

Lemma zend_find_elem k v l : NoDup (map fst l) -> (k, v) ∈ l -> zend_find k l = Some v.
Proof.
  induction l as [|f l IH]; cbn [map]; [intros _ H; by apply elem_of_nil in H|]. intros [Hn Hl]%list.NoDup_cons [<-|H]%elem_of_cons; rewrite zend_find_cons.
  - by rewrite bool_decide_eq_true_2.
  - case_bool_decide as E; [|by apply IH]. destruct Hn. rewrite E. apply list_elem_of_In in H. apply list_elem_of_In. by apply (in_map fst) in H.
Qed.

(** The values in the order of the keys. *)
Lemma values_by_keys (g : V -> Z) (h : Z -> Z -> Z) (d : V) l : NoDup (map fst l) ->
  forall a, fold_left (fun a f => h a (g (snd f))) l a = fold_left (fun a k => h a (g (default d (zend_find k l)))) (map fst l) a.
Proof.
  intros Hn. assert (forall l', (forall f, f ∈ l' -> f ∈ l) -> forall a, fold_left (fun a f => h a (g (snd f))) l' a =
    fold_left (fun a k => h a (g (default d (zend_find k l)))) (map fst l') a) as H; [|by apply H].
  induction l' as [|[k v] l' IH]; intros Hin a; [done|]. cbn [fold_left map fst snd]. rewrite (zend_find_elem k v l Hn) by (apply Hin; by left).
  cbn [default]. apply IH. intros f Hf. apply Hin. by right.
Qed.
End table_facts.

Lemma tail_of_drop {A} i (l : list A) : tail (drop i l) = drop (S i) l.
Proof. revert l. by induction i as [|i IH]; intros [|x l]; cbn. Qed.

(** ** What tuples and user type values implement *)

Class KeyedLaws (K : Type) {KK : Keyed K} := {
  component_keys t k : is_Some (component t k) <-> k ∈ keys t;
  array_entry_inj :: Inj (=) (=) array_entry
}.

#[export] Instance tuple_keyed_laws : KeyedLaws Z.
Proof.
  constructor; [|by intros x y [= ->]]. intros t k. cbn. unfold tuple_component, tuple_keys. rewrite elem_of_seqZ.
  destruct (Z.ltb_spec k 0), (Z.leb_spec (zlen (tuple_types t)) k); cbn [orb]; try (split; [intros [? ?]; done|lia]).
  split; [lia|]. intros _. apply lookup_lt_is_Some. unfold zlen in *. lia.
Qed.

#[export] Instance user_type_keyed_laws : KeyedLaws bytes.
Proof.
  constructor; [|intros x y; apply symtable_key_inj]. intros t k. cbn. unfold user_type_component, user_type_keys, field_type. change (option_map snd _) with (zend_find k (user_types t)).
  rewrite <- not_eq_None_Some. rewrite zend_find_none. split; [intros H; by destruct (decide (k ∈ map fst (user_types t)))|tauto].
Qed.

Section implements.
Context {K : Type} {KK : Keyed K} {KL : KeyedLaws K} (zend_hash : bytes -> Z).

(** A partial assignment of values to the keys, the order in which keys were first assigned, and the
    keys that an iteration has yet to give. *)
Record spec := { spec_type : php_scylladb_type; assigned : K -> option zval; order : list K; remaining : list K }.

Definition fresh_spec (t : php_scylladb_type) : spec := {| spec_type := t; assigned _ := None; order := []; remaining := [] |}.

Definition value_at (s : spec) (k : K) : zval := default ZNull (assigned s k).

Definition assign (k : K) (v : zval) (s : spec) : spec := {|
  spec_type := spec_type s;
  assigned k' := if decide (k' = k) then Some v else assigned s k';
  order := if decide (k ∈ order s) then order s else order s ++ [k];
  remaining := remaining s
|}.

Definition iterating (l : list K) (s : spec) : spec := {| spec_type := spec_type s; assigned := assigned s; order := order s; remaining := l |}.

Definition spec_act (o : op K) (s : spec) : answer K * spec :=
  match o with
  | OSet k v =>
      match component (spec_type s) k with
      | None => (RThrew (missing k), s)
      | Some t => match php_scylladb_validate_object v t with
                  | Valid => (RVoid, assign k v s)
                  | Expecting what => (RThrew (InvalidValue what), s)
                  | Mismatch => (RVoid, s)
                  end
      end
  | OGet k => (if decide (k ∈ keys (spec_type s)) then RValue (value_at s k) else RThrew (missing k), s)
  | OCount => (RCount (zlen (keys (spec_type s))), s)
  | OValues => (RValues (map (fun k => (array_entry k, value_at s k)) (keys (spec_type s))), s)
  | OCurrent => (RValue (match remaining s with k :: _ => value_at s k | [] => ZNull end), s)
  | OKey => (RKey (head (remaining s)), s)
  | ONext => (RVoid, iterating (tail (remaining s)) s)
  | OValid => (RBool (match remaining s with [] => false | _ => true end), s)
  | ORewind => (RVoid, iterating (keys (spec_type s)) s)
  | OHash => (RCount (fold_left (fun hv k => php_scylladb_combine_hash hv (php_scylladb_value_hash zend_hash (value_at s k))) (order s) 0), s)
  | OLetGo _ => (RVoid, s)
  end.

Fixpoint spec_run (l : list (op K)) (s : spec) : list (answer K) * spec :=
  match l with
  | [] => ([], s)
  | o :: l' => let '(a, s1) := spec_act o s in let '(as_, s2) := spec_run l' s1 in (a :: as_, s2)
  end.

Definition hash_of (l : list (K * zval)) : Z := fold_left (fun hv f => php_scylladb_combine_hash hv (php_scylladb_value_hash zend_hash (snd f))) l 0.

(** An object stands for a state of the specification. *)
Record stands_for (r : record K) (s : spec) : Prop := {
  same_type_as : of_type (record_type r) = spec_type s;
  keys_distinct : NoDup (keys (spec_type s));
  same_values : forall k, zend_find k (record_values r) = assigned s k;
  same_order : map fst (record_values r) = order s;
  order_distinct : NoDup (map fst (record_values r));
  same_position : remaining s = match record_pos r with Some i => drop i (keys (spec_type s)) | None => [] end;
  hash_cached : record_dirty r = false -> record_hashv r = hash_of (record_values r)
}.

Lemma fresh_stands_for type : NoDup (keys (of_type type)) -> stands_for (record_new type) (fresh_spec (of_type type)).
Proof. constructor; try done. constructor. Qed.

(** New keys are added behind the last entry. *)
Lemma fold_update_new {A B : Type} `{EqDecision A} (g : K -> A) (v : K -> B) ks : Inj (=) (=) g -> NoDup ks -> forall a, (forall k, k ∈ ks -> g k ∉ map fst a) ->
  fold_left (fun a k => zend_update (g k) (v k) a) ks a = a ++ map (fun k => (g k, v k)) ks.
Proof.
  intros Hg. induction 1 as [|k ks Hk Hks IH]; intros a Ha; cbn [fold_left map]; [by rewrite app_nil_r|].
  assert (zend_update (g k) (v k) a = a ++ [(g k, v k)]) as ->.
  { specialize (Ha k ltac:(by left)). clear -Ha. induction a as [|f a IH]; [done|]. cbn [zend_update map] in *. apply not_elem_of_cons in Ha as [H1 H2]. rewrite bool_decide_eq_false_2 by congruence. cbn. by rewrite IH. }
  rewrite IH, <- app_assoc; [done|]. intros k' Hk'. rewrite map_app. cbn [map fst]. rewrite not_elem_of_app. split; [apply Ha; by right|]. rewrite list_elem_of_singleton. intros ->%(inj g). done.
Qed.

Lemma stands_for_put r s k v : stands_for r s -> stands_for (record_put k v r) (assign k v s).
Proof.
  intros [T KD V O D P H]. constructor; cbn; try done.
  - intros k'. by rewrite zend_find_update, V.
  - by rewrite map_fst_update, O.
  - by apply nodup_update.
Qed.

Lemma stands_for_pos r s pos l : stands_for r s -> l = match pos with Some i => drop i (keys (spec_type s)) | None => [] end ->
  stands_for (at_pos pos r) (iterating l s).
Proof. intros [T KD V O D P H] E. by constructor. Qed.

Lemma key_remaining r s : stands_for r s -> record_key r = head (remaining s).
Proof. intros [T KD V O D P H]. unfold record_key. rewrite P, T. destruct (record_pos r) as [i|]; [|done]. by rewrite head_lookup, lookup_drop, Nat.add_0_r. Qed.

Lemma value_current r s : stands_for r s -> forall k, default ZNull (zend_find k (record_values r)) = value_at s k.
Proof. intros [T KD V O D P H] k. unfold value_at. by rewrite V. Qed.

Lemma stands_for_act r s o : stands_for r s -> fst (act zend_hash o r) = fst (spec_act o s) /\ stands_for (snd (act zend_hash o r)) (snd (spec_act o s)).
Proof using KL.
  intros H. pose proof (same_type_as _ _ H) as T. pose proof (value_current _ _ H) as V. pose proof (key_remaining _ _ H) as Hk.
  destruct o as [k v|k| | | | | | | | |k]; cbn [act spec_act].
  - unfold record_set. rewrite T. destruct (component (spec_type s) k) as [t|]; [|done].
    destruct (php_scylladb_validate_object v t); cbn [fst snd threw]; (split; [done|]); [by apply stands_for_put|done..].
  - split; [|done]. unfold record_get. rewrite T. pose proof (component_keys (spec_type s) k) as Hc. destruct (component (spec_type s) k) as [t|] eqn:E; cbn [fst].
    + rewrite decide_True by (apply Hc; by eexists). by rewrite V.
    + rewrite decide_False; [done|]. intros Hin. apply Hc in Hin as [? ?]. done.
  - split; [|done]. cbn. unfold record_count. by rewrite T.
  - split; [|done]. cbn. unfold record_populate. rewrite T, (fold_update_new array_entry _ _ array_entry_inj (keys_distinct _ _ H)) by (intros k _; apply not_elem_of_nil). cbn [app]. f_equal. apply map_ext. intros k. by rewrite V.
  - split; [|done]. cbn. unfold record_current. rewrite Hk. destruct (remaining s); cbn; [done|]. by rewrite V.
  - split; [|done]. cbn. by rewrite Hk.
  - split; [done|]. cbn. apply stands_for_pos; [done|]. rewrite (same_position _ _ H), T. destruct (record_pos r) as [i|]; [|done].
    case_decide; [by rewrite tail_of_drop|]. by rewrite drop_ge by lia.
  - split; [|done]. cbn. unfold record_valid. rewrite Hk. by destruct (remaining s).
  - split; [done|]. cbn. by apply stands_for_pos.
  - unfold record_hash_value. change (fold_left _ (record_values r) 0) with (hash_of (record_values r)).
    assert (hash_of (record_values r) = fold_left (fun hv k => php_scylladb_combine_hash hv (php_scylladb_value_hash zend_hash (value_at s k))) (order s) 0) as E.
    { unfold hash_of. rewrite (values_by_keys (php_scylladb_value_hash zend_hash) php_scylladb_combine_hash ZNull) by apply H.
      rewrite (same_order _ _ H). generalize (order s) 0. intros l. induction l as [|k l IH]; intros a; [done|]. cbn. by rewrite V, IH. }
    destruct (record_dirty r) eqn:Ed; cbn [negb fst snd]; rewrite <- E.
    + split; [done|]. destruct H. by constructor.
    + by rewrite (hash_cached _ _ H Ed).
  - done.
Qed.

Lemma stands_for_run l : forall r s, stands_for r s -> fst (run (act zend_hash) l r) = fst (spec_run l s) /\ stands_for (snd (run (act zend_hash) l r)) (snd (spec_run l s)).
Proof using KL.
  induction l as [|o l IH]; intros r s H; cbn [run spec_run]; [done|].
  destruct (stands_for_act r s o H) as [Ea H']. destruct (act zend_hash o r) as [a r1], (spec_act o s) as [a' s1]. cbn in Ea, H'.
  destruct (IH r1 s1 H') as [E H2]. destruct (run (act zend_hash) l r1), (spec_run l s1). cbn in *. by rewrite Ea, E.
Qed.
End implements.

(** ** Creation is assignment in turn *)

Lemma create_components_run zend_hash args : forall i (r : php_scylladb_tuple), 0 <= i ->
  (forall j v, args !! j = Some v -> exists t, tuple_types (of_type (record_type r)) !! (Z.to_nat i + j)%nat = Some t /\ php_scylladb_validate_object v t = Valid) ->
  create_components i args r = (None, snd (run (act zend_hash) (imap (fun j v => OSet (i + Z.of_nat j) v) args) r)).
Proof.
  induction args as [|v args IH]; intros i r Hi H; [done|]. destruct (H 0%nat v eq_refl) as (t & Ht & Hv). rewrite Nat.add_0_r in Ht.
  cbn [create_components imap run act]. rewrite Ht, Hv, Z.add_0_r. unfold record_set at 1. cbn [component tuple_keyed]. unfold tuple_component.
  pose proof (lookup_lt_Some _ _ _ Ht) as Hlt. replace ((i <? 0) || (zlen (tuple_types (of_type (record_type r))) <=? i)) with false by (unfold zlen; lia).
  rewrite Ht, Hv. cbn [threw]. rewrite (IH (i + 1) (record_put i v r)); [|lia|].
  - replace (imap _ args) with (imap ((fun j v => OSet (i + Z.of_nat j) v) ∘ S) args); [by destruct (run _ _ _)|].
    apply imap_ext. intros j x _. cbn. f_equal. lia.
  - intros j x Hx. destruct (H (S j) x Hx) as (t' & Ht' & Hv'). exists t'. split; [|done]. cbn [record_put record_type]. rewrite <- Ht'. f_equal. lia.
Qed.

Lemma create_fields_run zend_hash fs : forall i (r : php_scylladb_user_type_value),
  Forall (fun f => exists t, field_type (fst f) (user_types (of_type (record_type r))) = Some t /\ php_scylladb_validate_object (snd f) t = Valid) fs ->
  create_fields i (flat_map (fun f => [ZString (fst f); snd f]) fs) r = (None, snd (run (act zend_hash) (map (fun f => OSet (fst f) (snd f)) fs) r)).
Proof.
  induction fs as [|[k v] fs IH]; intros i r H; [done|]. apply list.Forall_cons in H as [(t & Ht & Hv) H]. cbn [flat_map app create_fields map run act fst snd] in *.
  rewrite Ht, Hv. unfold record_set at 1. cbn [component user_type_keyed]. unfold user_type_component. rewrite Ht, Hv. cbn [threw]. rewrite (IH (i + 2) (record_put k v r)) by done. by destruct (run _ _ _).
Qed.

(** A list of fields as name and value pairs of arguments. *)
Definition pairs_of (fs : list (bytes * zval)) : list zval := flat_map (fun f => [ZString (fst f); snd f]) fs.

Lemma pairs_even fs : Nat.odd (length (pairs_of fs)) = false.
Proof. by induction fs as [|f fs IH]. Qed.

(** ** The names of a user type *)

(** References to a name that are left. *)
Definition references_left (k : bytes) (ns : name_table) : option nat := match zend_find k ns with Some (Counted n _) => Some n | _ => None end.

(** How often a program lets go of the name. *)
Fixpoint count_let_go (k : bytes) (l : list (op bytes)) : nat :=
  match l with
  | [] => 0
  | OLetGo k' :: r => (if decide (k' = k) then 1 else 0) + count_let_go k r
  | _ :: r => count_let_go k r
  end.

(** Every name has more references than the program lets go of. *)
Definition outlive (ns : name_table) (l : list (op bytes)) : Prop := forall k n, references_left k ns = Some n -> (count_let_go k l < n)%nat.

Lemma readable_outlive ns l k : outlive ns l -> readable k ns = true.
Proof. intros H. unfold readable. specialize (H k). unfold references_left in H. destruct (zend_find k ns) as [[|[|n] h]|]; [done| |done..]. specialize (H 0%nat eq_refl). lia. Qed.

Lemma references_give k k' ns : references_left k' (give_away k ns) = references_left k' ns.
Proof. unfold give_away, references_left. destruct (zend_find k ns) as [[|n h]|] eqn:E; [done| |done]. rewrite zend_find_update. case_decide as Hk; [|done]. by rewrite Hk, E. Qed.

Lemma outlive_same ns ns' o l : (forall k, references_left k ns' = references_left k ns) -> outlive ns (o :: l) -> outlive ns' l.
Proof. intros E H k n Hn. rewrite E in Hn. specialize (H k n Hn). destruct o; cbn in H; lia. Qed.

Lemma let_go_outlive ns k l : outlive ns (OLetGo k :: l) -> exists ns', let_go k ns = Some ns' /\ outlive ns' l.
Proof.
  intros H. unfold let_go. destruct (zend_find k ns) as [[|n h]|] eqn:E; try (eexists; split; [done|]; by eapply outlive_same). pose proof (H k n) as Hk. unfold references_left in Hk. rewrite E in Hk. specialize (Hk eq_refl).
  cbn [count_let_go] in Hk. rewrite decide_True in Hk by done. destruct h as [|h]; [eexists; split; [done|]; by eapply outlive_same|]. destruct n as [|n]; [lia|]. eexists. split; [done|]. intros k' n' Hn. unfold references_left in Hn.
  rewrite zend_find_update in Hn. case_decide as Hd; [injection Hn as <-; subst; lia|]. specialize (H k' n' Hn). cbn [count_let_go] in H. lia.
Qed.

(** A call reads no freed name when the names outlive the program, and gives what the fields say. *)
Lemma named_act zend_hash o l ns r : outlive ns (o :: l) -> exists ns', UserTypeValue_act zend_hash o ns r = Some (fst (act zend_hash o r), ns', snd (act zend_hash o r)) /\ outlive ns' l.
Proof.
  intros H. pose proof (fun k => readable_outlive ns _ k H) as Hr. assert (outlive ns l) as Hs by (by eapply outlive_same).
  destruct o as [k v|k| | | | | | | | |k]; cbn [UserTypeValue_act act].
  - unfold UserTypeValue_set. rewrite Hr. cbn. destruct (record_set k v r). by eexists.
  - unfold UserTypeValue_get. rewrite Hr. cbn. by eexists.
  - by eexists.
  - unfold UserTypeValue_values. rewrite (proj2 (forallb_forall _ _)) by (intros; apply Hr). by eexists.
  - unfold UserTypeValue_current. destruct (record_key r) as [k|]; [rewrite Hr|]; by eexists.
  - unfold UserTypeValue_key. destruct (record_key r) as [k|]; [|by eexists]. rewrite Hr. eexists. split; [done|]. eapply outlive_same; [|exact H]. intros k'. apply references_give.
  - by eexists.
  - by eexists.
  - by eexists.
  - unfold php_scylladb_user_type_value_hash_value. destruct (record_hash_value zend_hash r). by eexists.
  - destruct (let_go_outlive ns k l H) as (ns' & -> & H'). by eexists.
Qed.

Lemma named_run zend_hash l : forall ns r, outlive ns l -> exists ns', UserTypeValue_run zend_hash l ns r = Some (fst (run (act zend_hash) l r), ns', snd (run (act zend_hash) l r)).
Proof.
  induction l as [|o l IH]; intros ns r H; [by eexists|]. cbn [UserTypeValue_run run]. destruct (named_act zend_hash o l ns r H) as (ns1 & -> & H1). destruct (act zend_hash o r) as [a r1]. cbn [mbind option_bind fst snd].
  destruct (IH ns1 r1 H1) as (ns2 & ->). destruct (run (act zend_hash) l r1). by eexists.
Qed.

(** A call that reads no freed name gives what the fields say. *)
Lemma act_ended zend_hash o ns r a ns' r' : UserTypeValue_act zend_hash o ns r = Some (a, ns', r') -> act zend_hash o r = (a, r').
Proof.
  destruct o as [k v|k| | | | | | | | |k]; cbn [UserTypeValue_act act]; try by intros [= <- <- <-].
  - unfold UserTypeValue_set. destruct (readable k ns); [|done]. cbn. destruct (record_set k v r). by intros [= <- <- <-].
  - unfold UserTypeValue_get. destruct (readable k ns); [|done]. by intros [= <- <- <-].
  - unfold UserTypeValue_values. destruct (forallb _ _); [|done]. by intros [= <- <- <-].
  - unfold UserTypeValue_current. destruct (if record_key r is Some k then _ else _); [|done]. by intros [= <- <- <-].
  - unfold UserTypeValue_key. destruct (record_key r) as [k|]; [|by intros [= <- <- <-]]. destruct (readable k ns); [|done]. by intros [= <- <- <-].
  - unfold php_scylladb_user_type_value_hash_value. destruct (record_hash_value zend_hash r). by intros [= <- <- <-].
  - destruct (let_go k ns); [|done]. by intros [= <- <- <-].
Qed.

Lemma run_ended zend_hash l : forall ns r as_ ns' r', UserTypeValue_run zend_hash l ns r = Some (as_, ns', r') -> run (act zend_hash) l r = (as_, r').
Proof.
  induction l as [|o l IH]; intros ns r as_ ns' r'; cbn [UserTypeValue_run run]; [by intros [= <- <- <-]|]. destruct (UserTypeValue_act zend_hash o ns r) as [[[a ns1] r1]|] eqn:E; [|done]. cbn [mbind option_bind].
  rewrite (act_ended _ _ _ _ _ _ _ E). destruct (UserTypeValue_run zend_hash l ns1 r1) as [[[as' ns2] r2]|] eqn:E2; [|done]. cbn. intros [= <- <- <-]. by rewrite (IH _ _ _ _ _ E2).
Qed.

(** Operations that read the name [k], which the iteration is at. *)
Definition reads_name (k : bytes) (o : op bytes) : bool :=
  match o with OSet k' _ | OGet k' => bool_decide (k' = k) | OKey | OCurrent | OValues => true | _ => false end.

(** A name that only the type's table has is freed when what [key] returned is let go, and read then. *)
Lemma key_frees zend_hash type k r o ns l : user_type_keys (of_type type) = k :: r -> zend_find k ns = Some (Counted 1 0) -> reads_name k o = true ->
  UserTypeValue_run zend_hash (ORewind :: OKey :: OLetGo k :: o :: l) ns (record_new type) = None.
Proof.
  intros Hk Hn Ho. set (self := record_rewind (record_new type) : php_scylladb_user_type_value). assert (record_key self = Some k) as Ek by (unfold record_key; cbn; by rewrite Hk).
  cbn [UserTypeValue_run UserTypeValue_act mbind option_bind]. change (UserTypeValue_rewind _) with self. unfold UserTypeValue_key. rewrite Ek. assert (readable k ns = true) as -> by (unfold readable; by rewrite Hn).
  cbn [mbind option_bind]. unfold give_away, let_go. rewrite Hn, zend_find_update, decide_True by done. cbn [mbind option_bind]. set (ns' := zend_update k (Counted 0 0) _).
  assert (readable k ns' = false) as Hf by (unfold readable, ns'; by rewrite zend_find_update, decide_True).
  assert (UserTypeValue_act zend_hash o ns' self = None) as ->; [|done]. destruct o; cbn [reads_name] in Ho; try done; cbn [UserTypeValue_act].
  - apply bool_decide_eq_true in Ho as ->. unfold UserTypeValue_set. by rewrite Hf.
  - apply bool_decide_eq_true in Ho as ->. unfold UserTypeValue_get. by rewrite Hf.
  - unfold UserTypeValue_values. change (of_type (record_type self)) with (of_type type). rewrite Hk. cbn [forallb]. by rewrite Hf.
  - unfold UserTypeValue_current. by rewrite Ek, Hf.
  - unfold UserTypeValue_key. by rewrite Ek, Hf.
Qed.

Lemma sets_outlive ns fs : (forall k, readable k ns = true) -> outlive ns (map (fun f : bytes * zval => OSet (fst f) (snd f)) fs).
Proof.
  intros H k n Hn. assert (count_let_go k (map (fun f : bytes * zval => OSet (fst f) (snd f)) fs) = 0%nat) as -> by (by induction fs). specialize (H k). unfold readable in H. unfold references_left in Hn.
  destruct (zend_find k ns) as [[|[|m] h]|]; try done. injection Hn as <-. lia.
Qed.

(** C38: tuples and user type values implement partial assignments of values to the components of
    their type.  Every program on a new tuple gives the answers of the specification: [set] assigns
    what the component's type accepts and otherwise changes nothing, [get], [current] and [values] give what
    was assigned last, or null, an iteration gives the keys of the type in order, and the cached hash is
    that of the assigned values in the order in which their keys were first assigned.  So does every program on a new
    user type value that reads no freed name; none is read when every name has more references than the program lets go of, so never when the names are
    literals.  But [UserTypeValue::key] adds no reference for its caller: a name that only the type has is freed when the
    string that [key] returned is let go, and what reads the name after that reads freed memory.  [create] with
    arguments that are accepted assigns them in turn. *)
Theorem records_implement zend_hash type (l : list (op Z)) (l' : list (op bytes)) ns args fs : NoDup (user_type_keys (of_type type)) ->
  fst (run (Tuple_act zend_hash) l (record_new type)) = fst (spec_run zend_hash l (fresh_spec (of_type type))) /\
  (forall as_ ns' self', UserTypeValue_run zend_hash l' ns (record_new type) = Some (as_, ns', self') -> as_ = fst (spec_run zend_hash l' (fresh_spec (of_type type)))) /\
  (outlive ns l' -> is_Some (UserTypeValue_run zend_hash l' ns (record_new type))) /\
  (forall k r o, user_type_keys (of_type type) = k :: r -> zend_find k ns = Some (Counted 1 0) -> reads_name k o = true ->
   UserTypeValue_run zend_hash (ORewind :: OKey :: OLetGo k :: o :: l') ns (record_new type) = None) /\
  (Forall2 (fun v t => php_scylladb_validate_object v t = Valid) args (tuple_types (of_type type)) ->
   Tuple_create type args = (None, snd (run (Tuple_act zend_hash) (imap (fun j v => OSet (Z.of_nat j) v) args) (record_new type)))) /\
  (Forall (fun f => exists t, field_type (fst f) (user_types (of_type type)) = Some t /\ php_scylladb_validate_object (snd f) t = Valid) fs -> (forall k, readable k ns = true) ->
   exists self as_ ns', UserType_create type (pairs_of fs) = (None, self) /\ UserTypeValue_run zend_hash (map (fun f => OSet (fst f) (snd f)) fs) ns (record_new type) = Some (as_, ns', self)).
Proof.
  intros Hd. split_and!.
  - rewrite tuple_run. apply stands_for_run, fresh_stands_for. apply NoDup_seqZ.
  - intros as_ ns' self' E%run_ended. destruct (stands_for_run zend_hash l' _ _ (fresh_stands_for (K := bytes) (KK := user_type_keyed) zend_hash type Hd)) as [Hs _]. by rewrite E in Hs.
  - intros H. destruct (named_run zend_hash l' ns (record_new type) H) as (ns' & ->). by eexists.
  - intros k r o. apply key_frees.
  - intros H. rewrite tuple_run. unfold Tuple_create. destruct args as [|v args]; [done|]. pose proof (list.Forall2_length _ _ _ H) as Hl. unfold zlen.
    rewrite Hl, Z.eqb_refl. cbn [negb]. apply (create_components_run zend_hash _ 0); [done|]. intros j x Hx. destruct (list.Forall2_lookup_l _ _ _ _ _ H Hx) as (t & Ht & Hv). by exists t.
  - intros H Hr. destruct (named_run zend_hash _ ns (record_new type) (sets_outlive ns fs Hr)) as (ns' & ->). eexists _, _, ns'. split; [|done]. unfold UserType_create. rewrite pairs_even. by apply create_fields_run.
Qed.

Definition pair_object : type_object :=
  {| of_type := TTuple [TScalar CASS_VALUE_TYPE_INT; TScalar CASS_VALUE_TYPE_TEXT]; type_data := DComposite CASS_VALUE_TYPE_TUPLE [DSimple CASS_VALUE_TYPE_INT; DSimple CASS_VALUE_TYPE_TEXT] |}.

(** A user type value of a result: the type's table has the only reference to its names. *)
Definition address_object : type_object :=
  {| of_type := TUserType (Some (bs "ks")) (Some (bs "address")) [(bs "7", TScalar CASS_VALUE_TYPE_INT); (bs "city", TScalar CASS_VALUE_TYPE_TEXT)];
     type_data := DUser (bs "ks") (bs "address") [(bs "7", DSimple CASS_VALUE_TYPE_INT); (bs "city", DSimple CASS_VALUE_TYPE_TEXT)] |}.
Definition address_names : name_table := [(bs "7", Counted 1 0); (bs "city", Counted 1 0)].
Definition one_foreach : list (op bytes) := [ORewind; OValid; OCurrent; OKey; ONext; OValid; OCurrent; OKey; OLetGo (bs "7"); ONext; OValid; OLetGo (bs "city")].
Definition address_sets : list (op bytes) := [OSet (bs "city") (ZString (bs "Bonn")); ORewind; OKey; OValues].

Lemma records_implement_witness :
  Tuple_create pair_object [ZLong 1; ZString (bs "a")] =
    (None, snd (run (Tuple_act (fun _ => 0)) [OSet 0 (ZLong 1); OSet 1 (ZString (bs "a"))] (record_new pair_object))) /\
  fst (run (Tuple_act (fun _ => 0)) [OSet 1 (ZString (bs "a")); OSet 2 ZNull; OSet 0 (ZString (bs "b")); ORewind; OKey; OCurrent; ONext; OCurrent; ONext; OValid; OValues] (record_new pair_object)) =
    [RVoid; RThrew IndexOutOfBounds; RThrew (InvalidValue (bs "an int")); RVoid; RKey (Some 0); RValue ZNull; RVoid; RValue (ZString (bs "a")); RVoid; RBool false;
     RValues [(AtIndex 0, ZNull); (AtIndex 1, ZString (bs "a"))]] /\
  (exists as_ ns self, UserTypeValue_run (fun _ => 0) address_sets address_names (record_new address_object) = Some (as_, ns, self) /\ as_ = fst (spec_run (fun _ => 0) address_sets (fresh_spec (of_type address_object))) /\
     as_ = [RVoid; RVoid; RKey (Some (bs "7")); RValues [(AtIndex 7, ZNull); (AtName (bs "city"), ZString (bs "Bonn"))]]) /\
  UserTypeValue_run (fun _ => 0) [ORewind; OKey; OLetGo (bs "7"); OValues] address_names (record_new address_object) = None /\
  is_Some (UserTypeValue_run (fun _ => 0) one_foreach address_names (record_new address_object)) /\
  UserTypeValue_run (fun _ => 0) (one_foreach ++ one_foreach) address_names (record_new address_object) = None.
Proof.
  assert (NoDup (user_type_keys (of_type address_object))) as Hd by (apply (bool_decide_unpack _); vm_compute; exact I).
  split; [|split; [vm_compute; reflexivity|split; [|split; [|split; [vm_compute; by eexists|vm_compute; reflexivity]]]]].
  - apply (records_implement (fun _ => 0) pair_object [] [] [] [ZLong 1; ZString (bs "a")] []); [apply NoDup_nil_2|]. constructor; [reflexivity|]. constructor; [reflexivity|constructor].
  - eexists _, _, _. split; [vm_compute; reflexivity|]. split; [|vm_compute; reflexivity].
    destruct (records_implement (fun _ => 0) address_object [] address_sets address_names [] [] Hd) as (_ & H & _). eapply H. vm_compute. reflexivity.
  - apply (records_implement (fun _ => 0) address_object [] [] address_names [] [] Hd) with (r := [bs "city"]); reflexivity.
Defined.

(** Comparison of the classes is that of the values ([Values]). *)
Lemma record_compare_tuples zend_hash depth (r1 r2 : php_scylladb_tuple) :
  php_scylladb_tuple_compare (php_scylladb_value_compare zend_hash depth) r1 r2 =
  php_scylladb_value_compare zend_hash (S depth) (ZTuple (of_type (record_type r1)) (record_values r1)) (ZTuple (of_type (record_type r2)) (record_values r2)).
Proof. done. Qed.
