(* ===== verification/RecordBind.v ===== *)
(** Tuples and user type values that PHP code built can be bound; containers that [create] and a second
    call of a constructor made of wrong values cannot be bound safely. *)
From S2P Require Import Prelude InetUtil Serialization DriverErrors NumberParser UtHash Types Values Collections Decoder DataTypes Conversions ResultDecoder ValueRoundTrip ContainerRoundTrip TypeObjects Records.
#[local] Open Scope Z_scope.

Section bind.
Context {K : Type} {KK : Keyed K} (zend_hash : bytes -> Z).

(** What was assigned is of the component's type, and comes from an assignment of the program. *)
Definition well_typed (sets : list (op K)) (r : record K) : Prop :=
  NoDup (map fst (record_values r)) /\
  Forall (fun f => OSet (fst f) (snd f) ∈ sets /\ exists t, component (of_type (record_type r)) (fst f) = Some t /\ php_scylladb_validate_object (snd f) t = Valid)
    (record_values r).

Lemma well_typed_same sets r r' : record_type r' = record_type r -> record_values r' = record_values r -> well_typed sets r -> well_typed sets r'.
Proof. intros Ht Hv [H1 H2]. split; by rewrite ?Ht, ?Hv. Qed.

Lemma well_typed_act sets o r : o ∈ sets -> well_typed sets r -> well_typed sets (snd (act zend_hash o r)) /\ record_type (snd (act zend_hash o r)) = record_type r.
Proof.
  intros Ho H. destruct o as [k v|k| | | | | | | | |k]; cbn [act snd]; try (split; [done|done]).
  - unfold record_set. destruct (component (of_type (record_type r)) k) as [t|] eqn:Et; [|done].
    destruct (php_scylladb_validate_object v t) eqn:Ev; cbn [snd]; [|done..]. split; [|done]. destruct H as [H1 H2]. split; [by apply nodup_update|].
    apply list.Forall_forall. intros f [->|Hf]%elem_of_update; [split; [done|by exists t]|]. by eapply list.Forall_forall in H2; [|exact Hf].
  - unfold record_hash_value. by destruct (negb (record_dirty r)).
Qed.

Lemma well_typed_run sets l : forall r, (forall o, o ∈ l -> o ∈ sets) -> well_typed sets r ->
  well_typed sets (snd (run (act zend_hash) l r)) /\ record_type (snd (run (act zend_hash) l r)) = record_type r.
Proof.
  induction l as [|o l IH]; intros r Hs H; [done|]. cbn [run]. destruct (well_typed_act sets o r) as [H1 E1]; [apply Hs; by left|done|].
  destruct (act zend_hash o r) as [a r1]. cbn [snd] in H1, E1. destruct (IH r1) as [H2 E2]; [intros o' Ho; apply Hs; by right|done|].
  destruct (run (act zend_hash) l r1). cbn in *. by rewrite E2.
Qed.

Lemma run_well_typed l type : well_typed l (snd (run (act zend_hash) l (record_new type))) /\ record_type (snd (run (act zend_hash) l (record_new type))) = type.
Proof. apply well_typed_run; [done|]. split; [apply NoDup_nil_2|constructor]. Qed.
End bind.

Section binding.
Context {G : Gmp} {GL : GmpLaws G} (zend_hash : bytes -> Z) (depth : nat).

Abbreviation storable := (ContainerRoundTrip.storable zend_hash depth).

(** The values of a program are null or can be stored where they are accepted. *)
Definition storable_sets {K} {KK : Keyed K} (cstr : bool) (t : php_scylladb_type) (l : list (op K)) : Prop :=
  forall k v s, OSet k v ∈ l -> component t k = Some s -> php_scylladb_validate_object v s = Valid -> v = ZNull \/ storable cstr s v.

Definition tuple_zval (r : php_scylladb_tuple) : zval := ZTuple (of_type (record_type r)) (record_values r).
Definition user_type_zval (r : php_scylladb_user_type_value) : zval := ZUserTypeValue (of_type (record_type r)) (record_values r).

Lemma tuple_storable cstr o types l : of_type o = TTuple types -> types <> [] -> complete (of_type o) = true -> storable_sets false (of_type o) l ->
  storable cstr (of_type o) (tuple_zval (snd (run (act zend_hash) l (record_new o)))).
Proof.
  intros Ht Hne Hc Hl. destruct (run_well_typed zend_hash l o) as [[Hn Hv] E]. cbn [storable tuple_zval ContainerRoundTrip.storable]. rewrite E. split; [done|].
  rewrite Ht in *. split_and!; [done|done|]. apply all_of_Forall. eapply list.Forall_impl; [exact Hv|]. intros [k v] (Hs & t & Hk & Hvt). cbn [fst snd] in *.
  rewrite E, Ht in Hk. pose proof Hk as Hk'. cbn in Hk. unfold tuple_component in Hk. destruct (Z.ltb_spec k 0); [done|]. destruct (_ <=? k); [done|]. cbn in Hk.
  split; [done|]. rewrite Hk. by apply (Hl k).
Qed.

Lemma user_type_storable cstr o ks n types l : of_type o = TUserType ks n types -> types <> [] -> complete (of_type o) = true ->
  NoDup (map (fun f => map tolower (fst f)) types) -> Forall (fun f => simple_name (fst f)) types -> storable_sets true (of_type o) l ->
  storable cstr (of_type o) (user_type_zval (snd (run (act zend_hash) l (record_new o)))).
Proof.
  intros Ht Hne Hc Hd Hsim Hl. destruct (run_well_typed zend_hash l o) as [[Hn Hv] E]. cbn [storable user_type_zval ContainerRoundTrip.storable]. rewrite E. split; [done|].
  rewrite Ht in *. split_and!; [done|done|done|]. apply all_of_Forall. eapply list.Forall_impl; [exact Hv|]. intros [k v] (Hs & t & Hk & Hvt). cbn [fst snd] in *.
  rewrite E, Ht in Hk. pose proof Hk as Hk'. cbn in Hk. unfold user_type_component in Hk. cbn in Hk. rewrite Hk. split; [|by apply (Hl k)].
  unfold field_type in Hk. destruct (List.find _ types) as [f|] eqn:Ef; [|done]. apply find_some in Ef as [Hin Hb]. apply bool_decide_eq_true in Hb as <-.
  by eapply list.Forall_forall in Hsim; [|apply list_elem_of_In, Hin].
Qed.

(** A collection that [Type\Collection::create] made. *)
Definition collection_zval (t : php_scylladb_type) (c : Collections.php_scylladb_collection) : zval := ZCollection t (map snd (collection_values c)).

(** [Type::userType('a', Type::int(), 'a', Type::text())]: PHP code sees one field, the driver has two. *)
Definition repeated_object : type_object :=
  {| of_type := TUserType None None [(bs "a", TScalar CASS_VALUE_TYPE_INT)]; type_data := DUser [] [] [(bs "a", DSimple CASS_VALUE_TYPE_INT); (bs "a", DSimple CASS_VALUE_TYPE_TEXT)] |}.

End binding.

(** A pair of an int and a text in a tuple, and a named user type value. *)
Definition pair_type_object : type_object := tuple_add_all php_scylladb_type_tuple [int_type; text_type].
Definition user_type_object : type_object :=
  {| of_type := TUserType (Some (bs "ks")) (Some (bs "t")) [(bs "a", TScalar CASS_VALUE_TYPE_INT)];
     type_data := DUser (bs "ks") (bs "t") [(bs "a", DSimple CASS_VALUE_TYPE_INT)] |}.

Definition pair_sets : list (op Z) := [OSet 1 (ZString (bs "x")); OGet 5; OSet 0 (ZString (bs "y")); OSet 0 (ZLong 7)].
Definition field_sets : list (op bytes) := [OSet (bs "a") (ZLong 7); OSet (bs "b") (ZLong 8)].

