(* ===== verification/Floats.v ===== *)
(** [Cassandra\Float] (src/Numbers/Float.c).

    A [cass_float_t] is an IEEE binary32 number, [float] of C, with [SpecFloat]'s operations rounding
    to nearest; the sign and payload of a NaN are not part of it ([Values] has the bits).  Conversions that C leaves
    undefined are [Undefined].  [strtof] and the engine's formatting of doubles are parameters. *)
From Stdlib Require Import SpecFloat.
From S2P Require Import Prelude NumberParser.
#[local] Open Scope Z_scope.

Definition prec : Z := 24.
Definition emax : Z := 128.

(** ** Values and results *)

Inductive php_value :=
| PLong (v : Z)
| PDouble (d : spec_float)
| PString (s : bytes)
| PFloat (f : spec_float)
| POther.

Inductive float_exception := RangeError | InvalidFloat | InvalidCharacters | WrongArgument | DivideByZero | SquareRootOfNegative.

(** [Undefined]: undefined behaviour of C. *)
Inductive result (A : Type) := Returns (a : A) | Throws (e : float_exception) | Undefined.
Arguments Returns {A}. Arguments Throws {A}. Arguments Undefined {A}.

(** What [strtof] gives: the number, how much of the text it took, and whether it was out of range. *)
Record strtof_result := { number : spec_float; consumed : Z; out_of_range : bool }.

(** ** Conversions *)

(** [(cass_float_t)long] and [(cass_float_t)double] *)
Definition float_of_long (n : Z) : spec_float := binary_normalize prec emax n 0 false.
Definition float_of_double (d : spec_float) : spec_float :=
  match d with S754_finite s m e => binary_round prec emax s m e | d => d end.

(** [(double)float] *)
Definition double_of_float (f : spec_float) : spec_float :=
  match f with S754_finite s m e => binary_round 53 1024 s m e | f => f end.

(** [(long)float]: towards zero, where it fits. *)
Definition long_of_float (f : spec_float) : result Z :=
  match f with
  | S754_zero _ => Returns 0
  | S754_finite s m e =>
      let v := cond_Zopp s (Zpos m) in
      let z := if 0 <=? e then v * 2 ^ e else Z.quot v (2 ^ (- e)) in
      if (INT64_MIN <=? z) && (z <=? INT64_MAX) then Returns z else Undefined
  | _ => Undefined
  end.

(** [fmodf] *)
Definition fmodf (x y : spec_float) : spec_float :=
  match x, y with
  | S754_nan, _ | _, S754_nan | S754_infinity _, _ | _, S754_zero _ => S754_nan
  | _, S754_infinity _ => x
  | S754_zero _, _ => x
  | S754_finite sx mx ex, S754_finite _ my ey =>
      let e := Z.min ex ey in
      match Z.modulo (Z.shiftl (Zpos mx) (ex - e)) (Z.shiftl (Zpos my) (ey - e)) with
      | Zpos r => binary_round prec emax sx r e
      | _ => S754_zero sx
      end
  end.

(** ** The class *)

Section float_class.
Context (strtof : bytes -> strtof_result) (format : spec_float -> bytes).

(** [php_scylladb_parse_float] *)
Definition php_scylladb_parse_float (s : bytes) : result spec_float :=
  let r := strtof s in
  if out_of_range r then Throws RangeError
  else if consumed r =? 0 then Throws InvalidFloat
  else if negb (consumed r =? zlen s) then Throws InvalidCharacters
  else Returns (number r).

(** [php_scylladb_float_init]; [constructing]: called for a Float, and not by the type's [create].  Given
    a Float it reads [return_value], which is null in a constructor and the new object, still zero, in [create]. *)
Definition php_scylladb_float_init (constructing : bool) (value : php_value) : result spec_float :=
  match value with
  | PLong v => Returns (float_of_long v)
  | PDouble d => Returns (float_of_double d)
  | PString s => php_scylladb_parse_float s
  | PFloat _ => if constructing then Undefined else Returns (S754_zero false)
  | POther => Throws WrongArgument
  end.

Definition Float_construct (value : php_value) : result spec_float := php_scylladb_float_init true value.

Definition to_string (self : spec_float) : bytes := format (double_of_float self).
Definition Float_toString (self : spec_float) : bytes := to_string self.
Definition Float_value (self : spec_float) : spec_float := double_of_float self.
Definition Float_isInfinite (self : spec_float) : bool := match self with S754_infinity _ => true | _ => false end.
Definition Float_isFinite (self : spec_float) : bool := match self with S754_infinity _ | S754_nan => false | _ => true end.
Definition Float_isNaN (self : spec_float) : bool := match self with S754_nan => true | _ => false end.

Definition Float_add (self : spec_float) (num : php_value) : result spec_float :=
  match num with PFloat flt => Returns (SFadd prec emax self flt) | _ => Throws WrongArgument end.
Definition Float_sub (self : spec_float) (num : php_value) : result spec_float :=
  match num with PFloat flt => Returns (SFsub prec emax self flt) | _ => Throws WrongArgument end.
Definition Float_mul (self : spec_float) (num : php_value) : result spec_float :=
  match num with PFloat flt => Returns (SFmul prec emax self flt) | _ => Throws WrongArgument end.

(** [fpclassify] gives [FP_ZERO] *)
Definition is_zero (f : spec_float) : bool := match f with S754_zero _ => true | _ => false end.

Definition Float_div (self : spec_float) (num : php_value) : result spec_float :=
  match num with
  | PFloat flt => if is_zero flt then Throws DivideByZero else Returns (SFdiv prec emax self flt)
  | _ => Throws WrongArgument
  end.
Definition Float_mod (self : spec_float) (num : php_value) : result spec_float :=
  match num with
  | PFloat flt => if is_zero flt then Throws DivideByZero else Returns (fmodf self flt)
  | _ => Throws WrongArgument
  end.

Definition Float_abs (self : spec_float) : spec_float := SFabs self.
Definition Float_neg (self : spec_float) : spec_float := SFopp self.
Definition Float_sqrt (self : spec_float) : result spec_float :=
  if SFltb self (S754_zero false) then Throws SquareRootOfNegative else Returns (SFsqrt prec emax self).
Definition Float_toInt (self : spec_float) : result Z := long_of_float self.
Definition Float_toDouble (self : spec_float) : spec_float := double_of_float self.

(** [FLT_MIN], the smallest normal number, and [FLT_MAX] *)
Definition Float_min : spec_float := S754_finite false 8388608 (-149).
Definition Float_max : spec_float := SFmax_float prec emax.

Inductive cast_result := CastLong (r : result Z) | CastDouble (d : spec_float) | CastString (s : bytes) | CastFailure.
Inductive cast_type := IS_LONG | IS_DOUBLE | IS_STRING | IS_ANOTHER.

Definition php_scylladb_float_cast (self : spec_float) (type : cast_type) : cast_result :=
  match type with
  | IS_LONG => CastLong (long_of_float self)
  | IS_DOUBLE => CastDouble (double_of_float self)
  | IS_STRING => CastString (to_string self)
  | IS_ANOTHER => CastFailure
  end.
End float_class.

(** ** Exact results *)

(** The value of a finite number, in units of [2^-300]. *)
Definition units (m e : Z) : Z := m * 2 ^ (e + 300).
Definition value_of (f : spec_float) : option Z :=
  match f with
  | S754_zero _ => Some 0
  | S754_finite s m e => Some (cond_Zopp s (units (Zpos m) e))
  | _ => None
  end.

(** A value that a float has: at most 24 bits, no smaller than the smallest subnormal, below the infinities. *)
Definition representable (z : Z) : Prop := exists m e, z = units m e /\ Z.abs m < 2 ^ 24 /\ -149 <= e /\ Z.abs z < 2 ^ (128 + 300).

Lemma digits2_log2 p : Zpos (digits2_pos p) = Z.log2 (Zpos p) + 1.
Proof.
  induction p as [p IH|p IH|]; cbn [digits2_pos]; [..|done].
  - change (Zpos p~1) with (2 * Zpos p + 1). rewrite Z.log2_succ_double by done. rewrite Pos2Z.inj_succ. lia.
  - change (Zpos p~0) with (2 * Zpos p). rewrite Z.log2_double by done. rewrite Pos2Z.inj_succ. lia.
Qed.

Lemma iter_pos_nat {A} (f : A -> A) n x : SpecFloat.iter_pos f n x = Nat.iter (Pos.to_nat n) f x.
Proof.
  revert x. induction n as [n IH|n IH|]; intros x; cbn [SpecFloat.iter_pos]; [..|done].
  - rewrite !IH, <- Nat.iter_add, Pos2Nat.inj_xI, Nat.iter_succ_r. f_equal. lia.
  - rewrite !IH, <- Nat.iter_add, Pos2Nat.inj_xO. f_equal. lia.
Qed.

(** Shifting out zeros is exact. *)
Lemma shr_1_exact q : 0 < q -> shr_1 {| shr_m := 2 * q; shr_r := false; shr_s := false |} = {| shr_m := q; shr_r := false; shr_s := false |}.
Proof. by destruct q. Qed.

Lemma shr_iter_exact n q : 0 < q ->
  Nat.iter n shr_1 {| shr_m := q * 2 ^ Z.of_nat n; shr_r := false; shr_s := false |} = {| shr_m := q; shr_r := false; shr_s := false |}.
Proof.
  intros Hq. induction n as [|n IH]; [by rewrite Z.mul_1_r|]. rewrite Nat.iter_succ_r.
  replace (q * 2 ^ Z.of_nat (S n)) with (2 * (q * 2 ^ Z.of_nat n)) by (rewrite Nat2Z.inj_succ, Z.pow_succ_r; lia).
  rewrite shr_1_exact by lia. apply IH.
Qed.

Lemma shr_exact q e n : 0 < q -> 0 <= n ->
  shr {| shr_m := q * 2 ^ n; shr_r := false; shr_s := false |} e n = ({| shr_m := q; shr_r := false; shr_s := false |}, e + n).
Proof.
  intros Hq Hn. destruct n as [|n|]; [by rewrite Z.mul_1_r, Z.add_0_r| |lia]. cbn [shr]. rewrite iter_pos_nat.
  pose proof (shr_iter_exact (Pos.to_nat n) q Hq) as E. rewrite positive_nat_Z in E. by rewrite E.
Qed.

(** The exponent of a number of [q]'s digits. *)
Definition exponent (q e : Z) : Z := fexp prec emax (Z.log2 q + 1 + e).

Lemma exponent_scale q e n : 0 < q -> 0 <= n -> exponent (q * 2 ^ n) e = exponent q (e + n).
Proof. intros Hq Hn. unfold exponent. rewrite Z.log2_mul_pow2 by lia. f_equal. lia. Qed.

Lemma round_aux_exact s q e n : 0 < q -> 0 <= n -> exponent q (e + n) = e + n -> e + n <= 104 ->
  binary_round_aux prec emax s (q * 2 ^ n) e loc_Exact = S754_finite s (Z.to_pos q) (e + n).
Proof.
  intros Hq Hn He Hmax. assert (0 < q * 2 ^ n) as Hp by (pose proof (Z.pow_pos_nonneg 2 n); nia).
  unfold binary_round_aux, shr_fexp. cbn [shr_record_of_loc].
  replace (Zdigits2 (q * 2 ^ n)) with (Z.log2 (q * 2 ^ n) + 1) by (destruct (q * 2 ^ n); [lia|cbn [Zdigits2]; by rewrite digits2_log2|lia]).
  change (fexp prec emax (Z.log2 (q * 2 ^ n) + 1 + e)) with (exponent (q * 2 ^ n) e). rewrite exponent_scale, He by done.
  replace (e + n - e) with n by lia. rewrite shr_exact by done. cbn [shr_m loc_of_shr_record round_nearest_even].
  replace (Zdigits2 q) with (Z.log2 q + 1) by (destruct q; [lia|cbn [Zdigits2]; by rewrite digits2_log2|lia]).
  change (fexp prec emax (Z.log2 q + 1 + (e + n))) with (exponent q (e + n)). rewrite He, Z.sub_diag. cbn [shr shr_m].
  destruct q as [|q|]; [lia| |lia]. replace (e + n <=? emax - prec) with true by (unfold emax, prec; lia). done.
Qed.

(** The float of a representable value: its digits shifted to its exponent. *)
Lemma canonical_form p e z : z = units (Zpos p) e -> -300 <= e -> representable z ->
  exists q n, Zpos p * 2 ^ Z.max 0 (- n) = q * 2 ^ Z.max 0 n /\ 0 < q /\ exponent q (e + n) = e + n /\ e + n <= 104 /\ -149 <= e + n /\ n = exponent (Zpos p) e - e.
Proof.
  intros -> He (m & e' & E & Hm & He' & Hz). unfold units in *.
  pose proof (Z.pow_pos_nonneg 2 (e + 300) ltac:(lia) ltac:(lia)) as P1. pose proof (Z.pow_pos_nonneg 2 (e' + 300) ltac:(lia) ltac:(lia)) as P2.
  assert (0 < m) as Hm0 by nia. rewrite Z.abs_eq in Hm, Hz by lia.
  assert (Z.log2 (Zpos p) + e = Z.log2 m + e') as EL.
  { pose proof (f_equal Z.log2 E) as H. rewrite !Z.log2_mul_pow2 in H by lia. lia. }
  assert (Z.log2 m < 24) as Lm by (apply Z.log2_lt_pow2; lia).
  assert (Z.log2 (Zpos p) + e + 300 < 128 + 300) as Lz.
  { replace (Z.log2 (Zpos p) + e + 300) with (Z.log2 (Zpos p * 2 ^ (e + 300))) by (rewrite Z.log2_mul_pow2; lia). apply Z.log2_lt_pow2; nia. }
  set (e0 := exponent (Zpos p) e). assert (e0 = Z.max (Z.log2 (Zpos p) + 1 + e - 24) (-149)) as He0 by done.
  assert (e0 <= e') as Hle by lia. exists (m * 2 ^ (e' - e0)), (e0 - e).
  pose proof (Z.pow_pos_nonneg 2 (e' - e0) ltac:(lia) ltac:(lia)) as P3. split_and!; [|nia| |lia|lia|done].
  - apply (Z.mul_cancel_r _ _ (2 ^ (Z.min e e0 + 300))); [apply Z.pow_nonzero; lia|]. rewrite <- !Z.mul_assoc, <- !Z.pow_add_r by lia.
    replace (Z.max 0 (- (e0 - e)) + (Z.min e e0 + 300)) with (e + 300) by lia.
    replace (e' - e0 + (Z.max 0 (e0 - e) + (Z.min e e0 + 300))) with (e' + 300) by lia. done.
  - rewrite exponent_scale by lia. replace (e + (e0 - e) + (e' - e0)) with e' by lia. replace (e + (e0 - e)) with e0 by lia.
    unfold exponent. replace (Z.log2 m + 1 + e') with (Z.log2 (Zpos p) + 1 + e) by lia. done.
Qed.

(** [f] is a binary32 number with the value [z]. *)
Definition exactly (f : spec_float) (z : Z) : Prop := valid_binary prec emax f = true /\ value_of f = Some z.

Lemma exactly_finite s q e z : 0 < q -> exponent q e = e -> e <= 104 -> cond_Zopp s (units q e) = z -> exactly (S754_finite s (Z.to_pos q) e) z.
Proof.
  intros Hq He Hm <-. unfold exactly. cbn. rewrite Z2Pos.id by done. split; [|done]. unfold bounded, canonical_mantissa. rewrite digits2_log2, Z2Pos.id by done.
  unfold exponent in He. rewrite He, Z.eqb_refl. unfold emax, prec. by apply Z.leb_le.
Qed.

(** Where the digits need no shift to the left. *)
Lemma round_aux_value s p e z : z = units (Zpos p) e -> -300 <= e -> representable z -> e <= exponent (Zpos p) e ->
  exactly (binary_round_aux prec emax s (Zpos p) e loc_Exact) (cond_Zopp s z).
Proof.
  intros Ez He Hz Hle. destruct (canonical_form p e z Ez He Hz) as (q & n & E & Hq & Hc & Hmax & _ & Hn).
  rewrite (Z.max_l 0 (- n)), (Z.max_r 0 n), Z.mul_1_r in E by lia. rewrite E, round_aux_exact by (done || lia).
  apply exactly_finite; [done..|]. f_equal. rewrite Ez, E. unfold units. rewrite <- Z.mul_assoc, <- Z.pow_add_r by lia. do 2 f_equal. lia.
Qed.

Lemma iter_xO p d : Zpos (Pos.iter xO p d) = Zpos p * 2 ^ Zpos d.
Proof.
  induction d as [|d IH] using Pos.peano_ind; [cbn [Pos.iter]; lia|].
  rewrite Pos.iter_succ, Pos2Z.inj_succ, Z.pow_succ_r by lia. rewrite (Pos2Z.inj_xO (Pos.iter xO p d)), IH. lia.
Qed.

Lemma round_value s p e z : z = units (Zpos p) e -> -300 <= e -> representable z -> exactly (binary_round prec emax s p e) (cond_Zopp s z).
Proof.
  intros Ez He Hz. unfold binary_round, shl_align. replace (fexp prec emax (Zpos (digits2_pos p) + e)) with (exponent (Zpos p) e) by (by rewrite digits2_log2).
  destruct (exponent (Zpos p) e - e) as [|n|n] eqn:En; try (apply round_aux_value; [done..|lia]).
  destruct (canonical_form p e z Ez He Hz) as (q & n' & E & Hq & Hc & Hmax & Hmin & Hn). rewrite En in Hn. subst n'.
  rewrite (Z.max_r 0 (- Zneg n)), (Z.max_l 0 (Zneg n)), Z.mul_1_r in E by lia. change (- Zneg n) with (Zpos n) in E.
  assert (exponent (Zpos p) e = e + Zneg n) as Ee by lia.
  rewrite (iter_xO p n), E, Ee. pose proof (round_aux_exact s q (e + Zneg n) 0 Hq ltac:(lia)) as R. rewrite Z.mul_1_r, Z.add_0_r in R. rewrite R by done.
  apply exactly_finite; [done..|]. f_equal. rewrite Ez, <- E. unfold units. rewrite <- Z.mul_assoc, <- Z.pow_add_r by lia. do 2 f_equal. lia.
Qed.

Lemma normalize_value m e b : -300 <= e -> representable (units m e) -> exactly (binary_normalize prec emax m e b) (units m e).
Proof.
  intros He Hz. destruct m as [|p|p]; cbn [binary_normalize]; [done|by apply (round_value false)|].
  assert (units (Zneg p) e = - units (Zpos p) e) as Eu by (unfold units; lia). rewrite Eu in *.
  apply (round_value true); [done..|]. destruct Hz as (m & e' & E & Hm & He' & Hb). exists (- m), e'. rewrite Z.abs_opp in Hb. unfold units in *. split_and!; lia.
Qed.

(** ** The operations on finite numbers *)

Lemma valid_exponent s m e : valid_binary prec emax (S754_finite s m e) = true -> exponent (Zpos m) e = e /\ -149 <= e.
Proof.
  cbn. unfold bounded, canonical_mantissa. intros [H _]%andb_prop. apply Z.eqb_eq in H. rewrite digits2_log2 in H. split; [done|].
  revert H. unfold fexp, emin, prec, emax. lia.
Qed.

Lemma align_value m e e' : e' <= e -> Zpos (fst (shl_align m e e')) = Zpos m * 2 ^ (e - e').
Proof.
  intros H. unfold shl_align. destruct (e' - e) as [|d|d] eqn:E; cbn [fst]; [|lia|].
  - replace (e - e') with 0 by lia. lia.
  - rewrite iter_xO. do 2 f_equal. lia.
Qed.

Lemma cond_opp_mul b x y : cond_Zopp b x * y = cond_Zopp b (x * y).
Proof. destruct b; cbn; lia. Qed.

Lemma add_value x y a b : valid_binary prec emax x = true -> valid_binary prec emax y = true ->
  value_of x = Some a -> value_of y = Some b -> representable (a + b) -> exactly (SFadd prec emax x y) (a + b).
Proof.
  intros Hx Hy Ea Eb Hz. destruct x as [sx|sx| |sx mx ex], y as [sy|sy| |sy my ey]; try done; cbn [value_of] in Ea, Eb; injection Ea as <-; injection Eb as <-.
  - by destruct sx, sy.
  - done.
  - cbn [SFadd value_of]. by rewrite Z.add_0_r.
  - apply valid_exponent in Hx as [_ Hx], Hy as [_ Hy]. cbn [SFadd]. rewrite !align_value by lia.
    replace (cond_Zopp sx (units (Zpos mx) ex) + cond_Zopp sy (units (Zpos my) ey)) with
      (units (cond_Zopp sx (Zpos mx * 2 ^ (ex - Z.min ex ey)) + cond_Zopp sy (Zpos my * 2 ^ (ey - Z.min ex ey))) (Z.min ex ey)) in *.
    + apply normalize_value; [lia|done].
    + unfold units. rewrite Z.mul_add_distr_r, !cond_opp_mul, <- !Z.mul_assoc, <- !Z.pow_add_r by lia.
      replace (ex - Z.min ex ey + (Z.min ex ey + 300)) with (ex + 300) by lia. replace (ey - Z.min ex ey + (Z.min ex ey + 300)) with (ey + 300) by lia. done.
Qed.

Lemma cond_opp_negb b x : cond_Zopp (negb b) x = - cond_Zopp b x.
Proof. destruct b; cbn; lia. Qed.

Lemma value_opp x : value_of (SFopp x) = option_map Z.opp (value_of x).
Proof. destruct x; cbn [SFopp value_of option_map]; try done. by rewrite cond_opp_negb. Qed.

Lemma sub_add_opp x y : SFsub prec emax x y = SFadd prec emax x (SFopp y).
Proof.
  destruct x as [[]|[]| |sx mx ex], y as [[]|[]| |sy my ey]; cbn [SFsub SFadd SFopp negb]; try done. f_equal. rewrite cond_opp_negb. lia.
Qed.

Lemma valid_opp x : valid_binary prec emax (SFopp x) = valid_binary prec emax x.
Proof. by destruct x. Qed.

Lemma sub_value x y a b : valid_binary prec emax x = true -> valid_binary prec emax y = true ->
  value_of x = Some a -> value_of y = Some b -> representable (a - b) -> exactly (SFsub prec emax x y) (a - b).
Proof.
  intros Hx Hy Ea Eb Hz. rewrite sub_add_opp. apply (add_value x (SFopp y) a (- b)); [done|by rewrite valid_opp|done|by rewrite value_opp, Eb|done].
Qed.

Lemma representable_abs z : representable z -> representable (Z.abs z).
Proof.
  intros (m & e & -> & Hm & He & Hz). exists (Z.abs m), e. unfold units in *. rewrite Z.abs_mul, (Z.abs_eq (2 ^ (e + 300))) in * by (apply Z.pow_nonneg; lia).
  split_and!; [done|lia|done|]. rewrite Z.abs_mul, Z.abs_involutive, (Z.abs_eq (2 ^ (e + 300))) by (apply Z.pow_nonneg; lia). done.
Qed.

Lemma cond_opp_xorb a b x y : cond_Zopp a x * cond_Zopp b y = cond_Zopp (xorb a b) (x * y).
Proof. destruct a, b; cbn; lia. Qed.

Lemma mul_value x y a b z : valid_binary prec emax x = true -> valid_binary prec emax y = true ->
  value_of x = Some a -> value_of y = Some b -> z * 2 ^ 300 = a * b -> representable z -> exactly (SFmul prec emax x y) z.
Proof.
  intros Hx Hy Ea Eb Ez Hz. destruct x as [sx|sx| |sx mx ex], y as [sy|sy| |sy my ey]; try done; cbn [value_of] in Ea, Eb; injection Ea as <-; injection Eb as <-;
    try (split; [done|cbn [SFmul value_of]; f_equal; lia]).
  apply valid_exponent in Hx as [Cx Hx], Hy as [Cy Hy]. cbn [SFmul]. rewrite cond_opp_xorb in Ez.
  assert (z = cond_Zopp (xorb sx sy) (units (Zpos (mx * my)) (ex + ey))) as ->.
  { apply (Z.mul_cancel_r _ _ (2 ^ 300)); [done|]. rewrite Ez, cond_opp_mul. f_equal. unfold units. rewrite Pos2Z.inj_mul.
    assert (2 ^ (ex + ey + 300) * 2 ^ 300 = 2 ^ (ex + 300) * 2 ^ (ey + 300)) as E by (rewrite <- !Z.pow_add_r by lia; f_equal; lia).
    rewrite <- (Z.mul_assoc (Zpos mx * Zpos my)), E. lia. }
  apply round_aux_value; [done|lia| |].
  - apply representable_abs in Hz. replace (units (Zpos (mx * my)) (ex + ey)) with (Z.abs (cond_Zopp (xorb sx sy) (units (Zpos (mx * my)) (ex + ey)))); [done|].
    assert (0 <= units (Zpos (mx * my)) (ex + ey)) by (unfold units; apply Z.mul_nonneg_nonneg; [lia|apply Z.pow_nonneg; lia]). destruct (xorb sx sy); cbn [cond_Zopp]; lia.
  - unfold exponent, fexp, emin, prec, emax in *. rewrite Pos2Z.inj_mul. pose proof (Z.log2_mul_below (Zpos mx) (Zpos my) ltac:(lia) ltac:(lia)). pose proof (Z.log2_nonneg (Zpos mx)).
    pose proof (Z.log2_nonneg (Zpos my)). lia.
Qed.

(** The magnitude of a remainder. *)
Lemma rem_units mx ex my ey e : 0 < mx -> 0 < my -> e <= ex -> e <= ey -> -300 <= e ->
  units (mx * 2 ^ (ex - e) mod (my * 2 ^ (ey - e))) e = units mx ex mod units my ey.
Proof.
  intros Hx Hy Lx Ly He. unfold units.
  assert (forall m f, e <= f -> m * 2 ^ (f + 300) = m * 2 ^ (f - e) * 2 ^ (e + 300)) as E
    by (intros m f Hf; rewrite <- Z.mul_assoc, <- Z.pow_add_r by lia; do 2 f_equal; lia).
  rewrite (E mx ex), (E my ey) by done. symmetry. apply Z.mul_mod_distr_r; [apply Z.neq_mul_0; split; [lia|]|]; apply Z.pow_nonzero; lia.
Qed.

Lemma rem_cond_opp s t a b : 0 <= a -> 0 < b -> Z.rem (cond_Zopp s a) (cond_Zopp t b) = cond_Zopp s (a mod b).
Proof. intros Ha Hb. destruct s, t; cbn; rewrite ?Z.rem_opp_l, ?Z.rem_opp_r, ?Z.rem_opp_l, Z.rem_mod_nonneg by lia; done. Qed.

Lemma fmodf_value x y a b : valid_binary prec emax x = true -> valid_binary prec emax y = true ->
  value_of x = Some a -> value_of y = Some b -> b <> 0 -> exactly (fmodf x y) (Z.rem a b).
Proof.
  intros Hx Hy Ea Eb Hb. destruct x as [sx|sx| |sx mx ex], y as [sy|sy| |sy my ey]; try done; cbn [value_of] in Ea, Eb; injection Ea as <-; injection Eb as <-; try done.
  pose proof (valid_exponent _ _ _ Hx) as [Cx Lx]. pose proof (valid_exponent _ _ _ Hy) as [Cy Ly]. set (e := Z.min ex ey).
    assert (0 < units (Zpos mx) ex /\ 0 < units (Zpos my) ey) as [Px Py] by (unfold units; split; apply Z.mul_pos_pos; (lia || apply Z.pow_pos_nonneg; lia)).
    rewrite rem_cond_opp by lia. rewrite <- (rem_units (Zpos mx) ex (Zpos my) ey e) by lia. unfold fmodf. fold e. rewrite !Z.shiftl_mul_pow2 by lia.
    assert (0 < Zpos my * 2 ^ (ey - e)) as Pm by (apply Z.mul_pos_pos; [lia|apply Z.pow_pos_nonneg; lia]).
    pose proof (Z.mod_pos_bound (Zpos mx * 2 ^ (ex - e)) _ Pm) as Hr. destruct (_ mod _) as [|r|r] eqn:Er; [by destruct sx| |lia].
    apply round_value; [done|lia|]. exists (Zpos r), e.
    assert (Zpos r < 2 ^ 24 /\ Zpos r <= Zpos mx * 2 ^ (ex - e)) as [Hr24 Hrx].
    { assert (Zpos mx * 2 ^ (ex - e) mod (Zpos my * 2 ^ (ey - e)) <= Zpos mx * 2 ^ (ex - e)) by (apply Z.mod_le; [apply Z.mul_nonneg_nonneg; [lia|apply Z.pow_nonneg; lia]|done]).
      split; [|lia]. unfold exponent, fexp, emin, prec, emax in Cx, Cy. destruct (Z.le_ge_cases ex ey).
      - apply Z.le_lt_trans with (Zpos mx); [|apply Z.log2_lt_cancel; rewrite Z.log2_pow2; lia]. replace (ex - e) with 0 in * by lia. lia.
      - apply Z.lt_trans with (Zpos my); [|apply Z.log2_lt_cancel; rewrite Z.log2_pow2; lia]. replace (ey - e) with 0 in * by lia. lia. }
    split_and!; [done|lia|lia|]. cbn in Hx. unfold bounded in Hx. apply andb_prop in Hx as [_ Hmax]. unfold emax, prec in Hmax.
    unfold units. rewrite Z.abs_eq by (apply Z.mul_nonneg_nonneg; [lia|apply Z.pow_nonneg; lia]).
    apply Z.le_lt_trans with (Zpos mx * 2 ^ (ex - e) * 2 ^ (e + 300)); [apply Z.mul_le_mono_nonneg_r; [apply Z.pow_nonneg; lia|done]|].
    rewrite <- Z.mul_assoc, <- Z.pow_add_r by lia. replace (ex - e + (e + 300)) with (ex + 300) by lia.
    apply Z.lt_le_trans with (2 ^ 24 * 2 ^ (ex + 300)); [|rewrite <- Z.pow_add_r by lia; apply Z.pow_le_mono_r; lia].
    apply Z.mul_lt_mono_pos_r; [apply Z.pow_pos_nonneg; lia|]. apply Z.log2_lt_cancel. rewrite Z.log2_pow2 by lia. unfold exponent, fexp, emin, prec, emax in Cx. lia.
Qed.

Lemma long_value x a : valid_binary prec emax x = true -> value_of x = Some a ->
  long_of_float x = (let z := Z.quot a (2 ^ 300) in if (INT64_MIN <=? z) && (z <=? INT64_MAX) then Returns z else Undefined).
Proof.
  intros Hx Ea. destruct x as [s|s| |s m e]; try done; cbn [value_of] in Ea; injection Ea as <-; [done|].
  apply valid_exponent in Hx as [_ Hx]. unfold long_of_float. cbv zeta.
  replace (if 0 <=? e then cond_Zopp s (Zpos m) * 2 ^ e else Z.quot (cond_Zopp s (Zpos m)) (2 ^ (- e))) with (Z.quot (cond_Zopp s (units (Zpos m) e)) (2 ^ 300)); [done|].
  unfold units. rewrite <- cond_opp_mul. destruct (Z.leb_spec 0 e).
  - rewrite Z.pow_add_r, Z.mul_assoc by lia. by rewrite Z.quot_mul.
  - replace (2 ^ 300) with (2 ^ (- e) * 2 ^ (e + 300)) by (rewrite <- Z.pow_add_r by lia; f_equal; lia).
    apply Z.quot_mul_cancel_r; apply Z.pow_nonzero; lia.
Qed.

Lemma of_long_value n : representable (n * 2 ^ 300) -> exactly (float_of_long n) (n * 2 ^ 300).
Proof. intros H. unfold float_of_long. apply (normalize_value n 0); [lia|done]. Qed.


Lemma long_bounds n : Z.abs n <= 2 ^ 24 -> representable (n * 2 ^ 300).
Proof.
  intros Hn. assert (Z.abs (n * 2 ^ 300) < 2 ^ (128 + 300)) as Hb.
  { rewrite Z.abs_mul. change (Z.abs (2 ^ 300)) with (2 ^ 300). rewrite Z.pow_add_r by lia. apply Z.mul_lt_mono_pos_r; [done|lia]. }
  destruct (Z.eq_dec (Z.abs n) (2 ^ 24)) as [E|E].
  - exists (Z.sgn n), 24. pose proof (Z.sgn_abs n). unfold units. change (2 ^ (24 + 300)) with (2 ^ 24 * 2 ^ 300). split_and!; [|lia|lia|done]. rewrite Z.mul_assoc. f_equal. rewrite <- E. lia.
  - exists n, 0. unfold units. split_and!; [done|lia|lia|done].
Qed.

Lemma value_zero y : valid_binary prec emax y = true -> value_of y = Some 0 -> is_zero y = true.
Proof.
  destruct y as [s|s| |s m e]; try done. intros Hy [= H]. apply valid_exponent in Hy as [_ Hy]. unfold units in H.
  pose proof (Z.pow_pos_nonneg 2 (e + 300) ltac:(lia) ltac:(lia)). destruct s; cbn [cond_Zopp] in H; nia.
Qed.

Lemma value_nonzero y b : value_of y = Some b -> b <> 0 -> is_zero y = false.
Proof. destruct y; cbn; congruence. Qed.

Lemma of_long_to_int n : Z.abs n <= 2 ^ 24 -> long_of_float (float_of_long n) = Returns n.
Proof.
  intros Hn. destruct (of_long_value n (long_bounds n Hn)) as [Hv Ev]. rewrite (long_value _ _ Hv Ev). cbv zeta. rewrite Z.quot_mul by done.
  unfold INT64_MIN, INT64_MAX. destruct (Z.leb_spec (- 2 ^ 63) n), (Z.leb_spec n (2 ^ 63 - 1)); cbn [andb]; (done || lia).
Qed.

(** C40: arithmetic of floats.  Whenever the sum, difference or product of two finite floats is a float,
    the methods give it; a remainder is always exact.  Division and remainder throw for both zeros, [toInt] truncates
    where the result fits a long and is undefined otherwise, and the constructor keeps every long up to
    [2^24], which [toInt] gives back; the next one is not kept.  Made from a Float, the constructor reads memory that is no float, and the [create] of
    the type returns zero. *)
Theorem float_arithmetic_exact strtof x y a b :
  valid_binary prec emax x = true -> valid_binary prec emax y = true -> value_of x = Some a -> value_of y = Some b ->
  (representable (a + b) -> exists r, Float_add x (PFloat y) = Returns r /\ exactly r (a + b)) /\
  (representable (a - b) -> exists r, Float_sub x (PFloat y) = Returns r /\ exactly r (a - b)) /\
  (forall z, z * 2 ^ 300 = a * b -> representable z -> exists r, Float_mul x (PFloat y) = Returns r /\ exactly r z) /\
  (b <> 0 -> exists r, Float_mod x (PFloat y) = Returns r /\ exactly r (Z.rem a b)) /\
  (b = 0 -> Float_mod x (PFloat y) = Throws DivideByZero /\ Float_div x (PFloat y) = Throws DivideByZero) /\
  Float_toInt x = (let z := Z.quot a (2 ^ 300) in if (INT64_MIN <=? z) && (z <=? INT64_MAX) then Returns z else Undefined) /\
  (forall n, Z.abs n <= 2 ^ 24 -> exists r, Float_construct strtof (PLong n) = Returns r /\ exactly r (n * 2 ^ 300) /\ Float_toInt r = Returns n) /\
  (exists r, Float_construct strtof (PLong (2 ^ 24 + 1)) = Returns r /\ Float_toInt r = Returns (2 ^ 24)) /\
  Float_construct strtof (PFloat x) = Undefined /\ php_scylladb_float_init strtof false (PFloat x) = Returns (S754_zero false).
Proof.
  intros Hx Hy Ea Eb. split_and!.
  - intros H. eexists. split; [done|]. by apply add_value.
  - intros H. eexists. split; [done|]. by apply sub_value.
  - intros z Ez Hz. eexists. split; [done|]. by apply (mul_value x y a b).
  - intros H. exists (fmodf x y). cbn [Float_mod]. rewrite (value_nonzero y b) by done. split; [done|]. by apply fmodf_value.
  - intros ->. cbn [Float_mod Float_div]. by rewrite (value_zero y Hy Eb).
  - by apply long_value.
  - intros n Hn. eexists. split; [done|]. split; [by apply of_long_value, long_bounds|by apply of_long_to_int].
  - eexists. split; [done|]. by vm_compute.
  - done.
  - done.
Qed.

(** 1.5 and 0.25. *)
Definition float_1_5 : spec_float := S754_finite false 12582912 (-23).
Definition float_0_25 : spec_float := S754_finite false 8388608 (-25).

Lemma float_arithmetic_exact_witness :
  Float_add float_1_5 (PFloat float_0_25) = Returns (S754_finite false 14680064 (-23)) /\
  exists r, Float_mod float_1_5 (PFloat float_0_25) = Returns r /\ exactly r (Z.rem (units 12582912 (-23)) (units 8388608 (-25))).
Proof.
  split; [vm_compute; reflexivity|].
  refine (proj1 (proj2 (proj2 (proj2 (float_arithmetic_exact (fun _ => {| number := S754_nan; consumed := 0; out_of_range := false |}) float_1_5 float_0_25 _ _ eq_refl eq_refl eq_refl eq_refl)))) _).
  vm_compute. discriminate.
Defined.

(** [Float::min] is the smallest normal number and not, as [min] of the integer classes, the lowest value. *)
Example float_min_positive : value_of Float_min = Some (2 ^ (-126 + 300)) /\ SFltb (Float_neg Float_max) Float_min = true.
Proof. split; by vm_compute. Qed.
